(* ===== verification/_CoqProject ===== *)
-Q . S2P
Prelude.v
Records.v
StdMap.v
Binary64.v
Coding.v
Slice.v
Comparator.v
DbFormat.v
IterKey.v
KvChecksum.v
WideColumns.v
WriteBatch.v
WriteBatchIter.v
Crc32c.v
LogWriter.v
LogReader.v
LogRoundtrip.v
TableFormat.v
BlockBuilder.v
Block.v
BlockIter.v
BlockRefine.v
IndexBuilder.v
IndexRefine.v
WalEdit.v
BlobIndex.v
BlobEdit.v
VersionEdit.v
VersionEditRoundtrip.v
VersionEditSafe.v
ManifestReplay.v
ManifestAtomic.v
VersionStorage.v
VersionBuilder.v
VersionSpec.v
VersionApply.v
VersionOrder.v
VersionSave.v
VersionCheck.v
VersionCorrect.v
FileIndexer.v
FilePicker.v
FilePickerCorrect.v
OverlapInputs.v
OverlapCorrect.v
FileName.v
VersionLive.v
VersionLiveInv.v
PurgeFiles.v
PurgeCorrect.v
LruCache.v
LruRing.v
LruTable.v
LruInv.v
LruOps.v
LruInsert.v
LruSettings.v
LruRefine.v
LruCorrect.v
