(* ===== verification/Prelude.v ===== *)
(** * A verification development for the storage core of RocksDB

    The C++ of this repository is RocksDB 9.0, an embedded key-value store, in
    src/rust-exp/rust-rocksdb/librocksdb-sys/rocksdb (all paths below are
    relative to it). This development models the way of a write to disk and
    back after a crash, the blocks of the tables it ends up in, the cache in
    front of them, the versions that say which tables exist, and the deletion
    of the files no version needs any more.

    ** The parts and how they interact

    A client puts its operations into a _write batch_, a byte string with a
    header and a record per operation. The batch is appended as one record to
    the _write-ahead log_, which cuts it into fragments in blocks of 32 KiB,
    each under a _CRC-32C_; after a crash the log is read, and the batch that
    comes out is iterated over by a handler that inserts its entries into
    memtables. Entries are found under _internal keys_: the user key, a sequence
    number and a type, ordered by a comparator built on the user's
    _comparator_. Iterators keep the current key in an _IterKey_ buffer. An
    entry can carry an _integrity code_ from the batch on.

    Memtables are flushed into _tables_: files of sorted _blocks_ with an
    _index_ block and a footer. A block that was read is kept in the _LRU
    cache_. Which tables and blob files belong to a column family is recorded as
    _version edits_ in the _manifest_, which is itself a log; edits of an atomic
    group count only together. A _version builder_ applies edits to a version
    and saves the next one. A lookup _picks the files_ of a version that may
    hold its key, and compaction asks which _files overlap_ a range. Versions
    live in reference-counted lists, since readers may hold old ones; files that
    no version holds become _obsolete_, and a job finds and _purges_ them, by
    their _names_. Everything is made of the same _encodings_: fixed-width and
    variable-length integers and length-prefixed slices.

    ** Files

    Shared:
    - Prelude.v: bytes, slices and machine words, [Status], shared automation.
    - Records.v: update of record fields. StdMap.v: [std::map], [std::set],
      [std::sort] and [std::lower_bound]. Binary64.v: [double].
    - Coding.v: util/coding_lean.h, util/coding.h, util/coding.cc.
    - Slice.v: include/rocksdb/slice.h, util/slice.cc.

    Keys and batches:
    - Comparator.v: include/rocksdb/comparator.h, util/comparator.cc. The record
      [Comparator] is the interface; the class [ComparatorOk] states its
      contract and [ComparatorTsOk] that of the comparison without timestamps;
      the built-in comparators are instances of both.
    - DbFormat.v: db/dbformat.h, db/dbformat.cc, db/lookup_key.h. Internal keys,
      their order, lookup keys, timestamps in keys; the theorems on the order
      hold for every [ComparatorOk] comparator.
    - IterKey.v: the class [IterKey] of db/dbformat.h with its inline and heap
      buffers, pointers and capacities.
    - KvChecksum.v: db/kv_checksum.h, over a hash that is a parameter.
    - WideColumns.v: db/wide/wide_column_serialization.cc and
      db/wide/wide_columns_helper.h.
    - WriteBatch.v: building batches (db/write_batch.cc,
      db/write_batch_internal.h, include/rocksdb/write_batch.h).
      WriteBatchIter.v: reading them, with the handler interface as a record.

    The log:
    - Crc32c.v: util/crc32c.h, util/crc32c.cc (the portable code).
    - LogWriter.v: db/log_format.h, db/log_writer.cc, over the class
      [WritableFile]. LogReader.v: db/log_reader.cc, over the classes
      [SequentialFile], [StreamingHash] and [StreamingUncompress]; the last is
      implemented by [ZSTDStreamingUncompress] (util/compression.cc) over the
      calls of zstd. LogRoundtrip.v connects the two.

    Tables:
    - TableFormat.v: table/format.h, table/format.cc and the block trailer.
    - BlockBuilder.v: table/block_based/block_builder.cc,
      data_block_hash_index.cc, data_block_footer.cc.
    - Block.v: table/block_based/block.h and block.cc, the three iterators.
      BlockIter.v proves their operations against the layout of a block;
      BlockRefine.v has the theorems on data blocks.
    - IndexBuilder.v: [ShortenedIndexBuilder] of table/block_based/
      index_builder.h and .cc. IndexRefine.v: the theorems on the index.

    The manifest:
    - WalEdit.v: db/wal_edit.h, db/wal_edit.cc. BlobIndex.v:
      db/blob/blob_index.h. BlobEdit.v: db/blob/blob_file_addition.cc and
      blob_file_garbage.cc.
    - VersionEdit.v: db/version_edit.h and db/version_edit.cc.
      VersionEditRoundtrip.v and VersionEditSafe.v are about its encoding.
    - ManifestReplay.v: the loops of db/version_set.cc and
      db/version_edit_handler.cc that write and read edits, with the class
      [EditHandler]. ManifestAtomic.v: crashes and atomic groups.

    Versions and their files:
    - VersionStorage.v: db/blob/blob_file_meta.h and the part of
      [VersionStorageInfo] (db/version_set.h, db/version_set.cc) the builder
      uses. VersionBuilder.v: [VersionBuilder::Rep] of db/version_builder.cc.
      VersionSpec.v: the abstract state of a column family and what edits do to
      it; VersionApply.v, VersionOrder.v, VersionSave.v and VersionCheck.v prove
      the operations against it, VersionCorrect.v puts them together.
    - FileIndexer.v: db/file_indexer.h, db/file_indexer.cc. FilePicker.v:
      the arrays of key ranges, [FindFile] and the class [FilePicker] of
      db/version_set.cc; FilePickerCorrect.v: the files a lookup goes through.
    - OverlapInputs.v: [OverlapInLevel], [GetOverlappingInputs] and
      [GetCleanInputsWithinInterval] of db/version_set.cc; OverlapCorrect.v:
      what they answer.
    - FileName.v: file/filename.h, file/filename.cc.
    - VersionLive.v: the lists of versions, live and obsolete files
      (db/version_set.cc); VersionLiveInv.v: their steps and invariant.
    - PurgeFiles.v: db/db_impl/db_impl_files.cc, db/job_context.h;
      PurgeCorrect.v: what is deleted.

    The cache:
    - LruCache.v: cache/lru_cache.h and cache/lru_cache.cc. LruRing.v (the list
      of evictable entries), LruTable.v (the hash table), LruInv.v (the
      invariant), LruOps.v, LruInsert.v and LruSettings.v (the operations),
      LruRefine.v (clients and the map they see), LruCorrect.v (the theorems).

    ** How the code is modelled

    A [Slice] and a [std::string] are the bytes they denote; where aliasing or
    the lifetime of memory matters it is explicit: the buffers of [IterKey],
    the heap of cache handles, the offsets into a block, the store of reference
    counts of files. An access the language leaves undefined (out of bounds,
    null, freed) makes the computation [None], and the theorems say [Some].
    Integers are in [Z] with every wrap-around written out ([u16], [u32],
    [u64], [s32], [s64]). A method that changes its object takes and returns
    the object; a [Status] is returned beside it, with the message of the code.
    A parser that fails returns [None] or a [Status]. Assertions are compiled
    out of release builds, so a definition does what the code does without
    them, and a theorem assumes them where it needs them (in the cache they are
    kept, and shown never to fail; [ParseInternalKey] is proved without its
    assertion on the type, which the bytes of a damaged key can violate). Names are those of the code; overloads get
    a suffix.

    Loops that are not structural take fuel. [EncodeVarint64] and [VarintLength]
    run at most 9 times on 64 bits; a number is printed in at most 20 digits;
    [lower_bound] once per column and once more; [Iterate] at most twice per
    byte of the batch, and twice more, since a record has at least a byte and is
    retried at most once; [VerifyChecksum] once per byte; the loops of
    [ExtendImpl] once per byte; [Crc32AppendZeroes] once per bit of a 64-bit
    word; [AddRecord] once per byte and twice more, since only the first
    fragment can be empty; [ReadPhysicalRecord] three times, since after a read
    of the file the buffer holds a block or the file has ended; [ReadRecord]
    once per byte that is left; the loop over the decompressor
    once per unit of work left in the fragment and once more; the scans of a block once per byte of it and the
    binary searches once per restart point and once more; the decoders of edits
    once per byte of the input; [std::lower_bound] once per element and once
    more; the file picker once per level-0 file and once per level; the passes
    over level 0 once per file and once more; the replay of the manifest once
    per record; the loops of the cache once per cell of its heap. That the fuel
    is enough is proved with the functional theorems or as a termination
    theorem.

    ** What the theorems show

    - Encodings: what is encoded is decoded, decoders stay within their input
      and their type on arbitrary bytes, the unrolled and the looping encoders
      agree, big- and little-endian machines agree.
    - Comparators: the built-in ones meet the contract; separators and
      successors are shortened without leaving the interval.
    - Internal keys: parsing inverts encoding and is total; the order is by user
      key, then by decreasing sequence number and type, and all overloads of the
      comparison agree; a lookup key sorts right before the newest visible
      entry; the bounds of a user key; timestamps are padded, stripped and
      replaced consistently.
    - IterKey: every sequence of operations that reads a key only where there is
      one is memory safe and refines an abstract key. Arguments are values: a
      slice into the key's own buffer, which an enlargement would free, is not
      expressed.
    - Integrity codes and wide columns: what was protected verifies, a change
      goes unnoticed only with a collision; serialization round trip and search.
    - Batches: every operation writes its records or leaves the batch unchanged,
      and fails only over the size limit or for sizes it refuses;
      a batch represents the records of its operations; save points roll back;
      iteration makes, for every handler, exactly the calls of the records up to
      a stop or an error, and terminates for every byte string; batches are appended; content flags and
      integrity codes recomputed from the bytes are those collected while
      building.
    - CRC-32C: the table-driven code is the bit-serial register, and the
      combination of checksums is the checksum of the concatenation.
    - Log: the writer lays records out or leaves a prefix; the reader returns
      exactly the records that are complete in any surviving prefix of the file,
      in every recovery mode, silently in the tolerant ones and with a report in
      the strict ones; reading terminates on every file.
    - Tables: footers are read back, a block verifies only where it was written;
      what a block builder wrote is what an iterator over the block shows, for
      every sequence of operations and in every configuration (of an index,
      those without per-entry checksums); estimates bound the size, with what
      they leave out named; lookups through the hash index agree with the search; a seek on
      the index finds the block of a key.
    - Manifest: edits survive encoding; any bytes decode to a well-typed edit or
      a corruption; unknown fields are skipped only when they may be; after a
      crash exactly the complete edits and atomic groups are replayed; the set
      of live logs does not depend on the order of its edits, which fail only
      when a live log is announced twice.
    - Versions: a builder yields exactly the version the edits describe, or the
      corruption they amount to, its level 0 from the newest file to the oldest,
      and keeps every reference count; the
      consistency check accepts exactly the consistent versions; with the bounds
      of the indexer the picker goes through exactly the files that a scan of
      all levels finds; the files that overlap a range and the largest clean run
      inside it are found by binary search as by a scan; in every reachable
      state a file's count is the number of live versions with it, and it
      becomes obsolete when the last one goes; the two queries for live files
      agree; a purge deletes, under their own names, no file that anything needs, nor one of the two
      newest options files, and every obsolete table that nothing protects;
      names are parsed back to what they name.
    - Cache: under any legal calls of any number of clients a shard is memory
      safe and trips no assertion, behaves like a map that may forget entries
      nobody holds, keeps exact accounts of its handles and of its three pools,
      puts released entries at the warm end of their pool, evicts from the cold
      end, and frees everything once.
    - Some lemmas record where the code falls short of its intent, among them
      [timestamp_sizes_cross_block] and [stale_record_checksum] (log),
      [garbage_wraps], [negative_level_out_of_bounds] and
      [overlap_of_non_neighbours] (version builder), [parse_leaves_outputs]
      (names), [uninitialized_type_deletes] and [quarantined_stays_grabbed]
      (purging), [markers_exceed_max_bytes] (batches), [encoded_key_keeps_size]
      and [reserve_frees_key] (IterKey), [estimate_falls_short] (block builder).

    ** Parameters

    The user's comparator (with [ComparatorOk] and [ComparatorTsOk]); the
    contents of fresh memory and of uninitialized variables; the addresses and
    sizes the allocator gives; the hash functions (xxHash is vendored, with the
    documented relation of its streaming interface); the files of the log and
    the streaming compressor, which are classes whose laws are the documented
    behaviour of those interfaces; the calls of zstd (class [ZSTD]), of which
    only is assumed that a call fills no more than the output buffer and that a
    call which leaves input behind goes forward; the eviction callback and the
    memory reservations (of files that become obsolete without a builder, that
    the reservation is given back is recorded); the sizes of log files in the environment; the contents
    of directories, the clock and whether two paths are the same directory.
    Those with laws have a concrete instance that the witnesses use. What a
    client of the cache may do ([legal]) is the contract of its interface.

    ** What is not modelled

    Hardware variants of the checksum; the tailing log reader
    ([FragmentBufferedReader]); in-place timestamps of batches; memtables and
    the write path; building and reading whole tables around the blocks
    (compression, prefetching, filters, partitioned and hash indexes); the clock
    cache; reading the tables a lookup picks, lookups of several keys at once,
    compaction scores and picking; the shared
    pointers of blob files, whose end is a step of its own; threads: an
    operation runs without another in between, except that handles of the cache
    are freed outside its critical sections in any order. Compaction,
    transactions, options and everything that is input and output. These need a
    memory model, an operating system or code that is generated or vendored, or
    are orchestration of the parts above; the manifest of the development lists
    each part with the reason.

    ** Extending it

    In the order of their worth: the handlers of recovery (timestamp
    reconciliation, the numbering of [MemTableInserter]) and a theorem from the
    batches written to the calls made after a crash; the tailing reader; range
    tombstones; the merging iterator over block iterators, for which
    [BlockRefine] is the interface; compaction picking on [OverlapInputs]. *)

From stdpp Require Export base list gmap strings pretty numbers.
From coqutil Require Export Byte Word.LittleEndianList.
From Stdlib Require Export Lia ZArith.
From Stdlib Require Import Sorting.Sorted.

#[export] Set Default Goal Selector "!".

Declare Scope rocks_scope.
Delimit Scope rocks_scope with rocks.
Open Scope rocks_scope.
Open Scope Z_scope.

(** ** Bytes, slices and machine words *)

(** A [Slice] (include/rocksdb/slice.h) and a [std::string] are both modelled
    by the bytes they denote. *)
Abbreviation bytes := (list byte).

(** The value of a byte read through [unsigned char]. *)
Abbreviation ub := byte.unsigned.

(** A [static_cast<char>] / [static_cast<unsigned char>] of an integer. *)
Abbreviation to_byte := byte.of_Z.

(** [Slice::size()] and [std::string::size()]. *)
Definition slen {A} (s : list A) : Z := Z.of_nat (length s).

(** The first [n] bytes, and what [remove_prefix(n)] leaves. *)
Definition stake {A} (n : Z) (s : list A) : list A := take (Z.to_nat n) s.
Definition sdrop {A} (n : Z) (s : list A) : list A := drop (Z.to_nat n) s.

(** Unsigned wrap-around at the widths the code uses. *)
Definition u16 (z : Z) : Z := z mod 2 ^ 16.
Definition u32 (z : Z) : Z := z mod 2 ^ 32.
Definition u64 (z : Z) : Z := z mod 2 ^ 64.

(** Conversion of a 64-bit pattern to [int64_t] (two's complement). *)
Definition s64 (z : Z) : Z := (z + 2 ^ 63) mod 2 ^ 64 - 2 ^ 63.

(** Conversion of a 32-bit pattern to [int32_t]. *)
Definition s32 (z : Z) : Z := (z + 2 ^ 31) mod 2 ^ 32 - 2 ^ 31.

Definition is_u8 (z : Z) : Prop := 0 <= z < 2 ^ 8.
Definition is_u16 (z : Z) : Prop := 0 <= z < 2 ^ 16.
Definition is_u32 (z : Z) : Prop := 0 <= z < 2 ^ 32.
Definition is_u64 (z : Z) : Prop := 0 <= z < 2 ^ 64.
Definition is_s32 (z : Z) : Prop := - 2 ^ 31 <= z < 2 ^ 31.
Definition is_s64 (z : Z) : Prop := - 2 ^ 63 <= z < 2 ^ 63.

#[export] Instance byte_eq_decision : EqDecision byte := Byte.byte_eq_dec.

(** ** Automation *)

Create HintDb rocks.
Create Rewrite HintDb slices.

(** Case analysis on the tests of a definition, closing impossible branches
    with [lia]. *)
Ltac zcase :=
  match goal with
  | |- context [Z.ltb ?a ?b] => destruct (Z.ltb_spec a b)
  | |- context [Z.leb ?a ?b] => destruct (Z.leb_spec a b)
  | |- context [Z.eqb ?a ?b] => destruct (Z.eqb_spec a b)
  end; try lia.

Ltac zcase_in H :=
  match type of H with
  | context [Z.ltb ?a ?b] => destruct (Z.ltb_spec a b)
  | context [Z.leb ?a ?b] => destruct (Z.leb_spec a b)
  | context [Z.eqb ?a ?b] => destruct (Z.eqb_spec a b)
  end; try lia.

(** ** Integer lemmas *)

Lemma u16_id z : is_u16 z -> u16 z = z.
Proof. apply Z.mod_small. Qed.

Lemma u32_id z : is_u32 z -> u32 z = z.
Proof. apply Z.mod_small. Qed.

Lemma u64_id z : is_u64 z -> u64 z = z.
Proof. apply Z.mod_small. Qed.

Lemma u32_range z : is_u32 (u32 z).
Proof. apply Z.mod_pos_bound. lia. Qed.

Lemma u64_range z : is_u64 (u64 z).
Proof. apply Z.mod_pos_bound. lia. Qed.

#[export] Hint Resolve u32_range u64_range : rocks.

Lemma s64_id z : is_s64 z -> s64 z = z.
Proof. unfold s64, is_s64. intros. rewrite Z.mod_small; lia. Qed.

Lemma s32_id z : is_s32 z -> s32 z = z.
Proof. unfold s32, is_s32. intros. rewrite Z.mod_small; lia. Qed.

Lemma s32_u32 z : is_s32 z -> s32 (u32 z) = z.
Proof.
  unfold is_s32, s32, u32. intros H.
  rewrite Z.add_mod_idemp_l, Z.mod_small by lia. lia.
Qed.

Lemma ub_range b : 0 <= ub b < 256.
Proof. apply byte.unsigned_range. Qed.

Lemma ub_to_byte z : 0 <= z < 256 -> ub (to_byte z) = z.
Proof. intros. rewrite byte.unsigned_of_Z. apply Z.mod_small. lia. Qed.

Lemma to_byte_mod a b : a mod 256 = b mod 256 -> to_byte a = to_byte b.
Proof.
  intros H. apply byte.unsigned_inj. rewrite !byte.unsigned_of_Z. exact H.
Qed.

Lemma pow2_pos n : 0 <= n -> 0 < 2 ^ n.
Proof. intros. apply Z.pow_pos_nonneg; lia. Qed.

Lemma testbit_small a n i : 0 <= a < 2 ^ n -> 0 <= n <= i -> Z.testbit a i = false.
Proof.
  intros Ha Hi. rewrite <- (Z.mod_small a (2 ^ n)) by lia.
  apply Z.mod_pow2_bits_high. lia.
Qed.

(** A disjoint bitwise or is an addition: the shape of every packed word. *)
Lemma lor_shiftl_add a b n :
  0 <= n -> 0 <= a < 2 ^ n -> Z.lor a (Z.shiftl b n) = a + b * 2 ^ n.
Proof.
  intros Hn Ha. rewrite <- Z.shiftl_mul_pow2 by lia.
  symmetry. rewrite Z.add_nocarry_lxor.
  - apply Z.bits_inj'. intros i Hi. rewrite Z.lxor_spec, Z.lor_spec.
    destruct (Z.lt_ge_cases i n) as [Hlt|Hge].
    + rewrite Z.shiftl_spec_low by lia. by destruct (Z.testbit a i).
    + by rewrite (testbit_small a n i) by lia.
  - apply Z.bits_inj'. intros i Hi. rewrite Z.land_spec, Z.bits_0.
    destruct (Z.lt_ge_cases i n) as [Hlt|Hge].
    + rewrite Z.shiftl_spec_low by lia. by rewrite andb_false_r.
    + by rewrite (testbit_small a n i) by lia.
Qed.

Lemma shiftr_div a n : 0 <= n -> Z.shiftr a n = a / 2 ^ n.
Proof. intros. by apply Z.shiftr_div_pow2. Qed.

Lemma land_ones_mod a n : 0 <= n -> Z.land a (Z.ones n) = a mod 2 ^ n.
Proof. intros. by apply Z.land_ones. Qed.

Lemma land_255 a : Z.land a 255 = a mod 256.
Proof. apply (land_ones_mod a 8). lia. Qed.

Lemma land_127 a : Z.land a 127 = a mod 128.
Proof. apply (land_ones_mod a 7). lia. Qed.

Lemma lor_lt a b n : 0 <= n -> 0 <= a < 2 ^ n -> 0 <= b < 2 ^ n -> 0 <= Z.lor a b < 2 ^ n.
Proof.
  intros Hn Ha Hb. split; [apply Z.lor_nonneg; lia|].
  destruct (Z.eq_dec (Z.lor a b) 0) as [->|Hnz]; [apply pow2_pos; lia|].
  apply Z.log2_lt_pow2.
  - pose proof (proj2 (Z.lor_nonneg a b)). lia.
  - rewrite Z.log2_lor by lia.
    apply Z.max_lub_lt.
    + destruct (Z.eq_dec a 0) as [->|]; [|apply Z.log2_lt_pow2; lia].
      destruct (Z.eq_dec n 0) as [->|]; [|change (Z.log2 0) with 0; lia].
      rewrite Z.lor_0_l in Hnz. lia.
    + destruct (Z.eq_dec b 0) as [->|]; [|apply Z.log2_lt_pow2; lia].
      destruct (Z.eq_dec n 0) as [->|]; [|change (Z.log2 0) with 0; lia].
      rewrite Z.lor_0_r in Hnz. lia.
Qed.

(** ** Slice lemmas *)

Lemma slen_nonneg {A} (s : list A) : 0 <= slen s.
Proof. unfold slen. lia. Qed.

Lemma slen_nil {A} : slen (@nil A) = 0.
Proof. reflexivity. Qed.

Lemma slen_cons {A} (x : A) s : slen (x :: s) = 1 + slen s.
Proof. unfold slen. cbn [length]. lia. Qed.

Lemma slen_app {A} (s t : list A) : slen (s ++ t) = slen s + slen t.
Proof. unfold slen. rewrite length_app. lia. Qed.

Lemma slen_stake {A} n (s : list A) : 0 <= n <= slen s -> slen (stake n s) = n.
Proof. unfold slen, stake. intros. rewrite length_take. lia. Qed.

Lemma slen_sdrop {A} n (s : list A) : 0 <= n <= slen s -> slen (sdrop n s) = slen s - n.
Proof. unfold slen, sdrop. intros. rewrite length_drop. lia. Qed.

Lemma slen_le_split n z : slen (le_split n z) = Z.of_nat n.
Proof. unfold slen. by rewrite length_le_split. Qed.

Lemma slen_replicate {A} n (x : A) : slen (replicate n x) = Z.of_nat n.
Proof. unfold slen. by rewrite length_replicate. Qed.

(** [slen []] is convertible to [0], so that rewriting with [slen_nil] can
    loop on literals; this replaces it in the goal and the hypotheses. *)
Ltac snil := change (@slen Init.Byte.byte []) with 0 in *.

(** [lia] that knows that lengths are not negative. *)
Ltac slen_facts :=
  repeat match goal with
  | _ : context [slen ?s] |- _ =>
      lazymatch goal with _ : 0 <= slen s |- _ => fail | _ => pose proof (slen_nonneg s) end
  | |- context [slen ?s] =>
      lazymatch goal with _ : 0 <= slen s |- _ => fail | _ => pose proof (slen_nonneg s) end
  end.
Ltac slia := slen_facts; lia.

#[export] Hint Rewrite @slen_cons @slen_app @slen_le_split @slen_replicate : slices.

Lemma stake_app {A} n (s t : list A) : slen s = n -> stake n (s ++ t) = s.
Proof.
  unfold slen, stake. intros <-. rewrite Nat2Z.id. apply take_app_length.
Qed.

Lemma sdrop_app {A} n (s t : list A) : slen s = n -> sdrop n (s ++ t) = t.
Proof.
  unfold slen, sdrop. intros <-. rewrite Nat2Z.id. apply drop_app_length.
Qed.

Lemma stake_all {A} n (s : list A) : slen s <= n -> stake n s = s.
Proof. unfold slen, stake. intros. apply take_ge. lia. Qed.

Lemma sdrop_all {A} n (s : list A) : slen s <= n -> sdrop n s = [].
Proof. unfold slen, sdrop. intros. apply drop_ge. lia. Qed.

Lemma stake_sdrop {A} n (s : list A) : stake n s ++ sdrop n s = s.
Proof. apply take_drop. Qed.

Lemma stake_app_le {A} n (s t : list A) : n <= slen s -> stake n (s ++ t) = stake n s.
Proof. unfold slen, stake. intros. rewrite take_app_le; [done|lia]. Qed.

Lemma sdrop_app_le {A} n (s t : list A) : n <= slen s -> sdrop n (s ++ t) = sdrop n s ++ t.
Proof. unfold slen, sdrop. intros. rewrite drop_app_le; [done|lia]. Qed.

Lemma stake_app_ge {A} n (s t : list A) : slen s <= n -> stake n (s ++ t) = s ++ stake (n - slen s) t.
Proof. unfold slen, stake. intros. rewrite take_app_ge by lia. do 2 f_equal. lia. Qed.

Lemma sdrop_app_ge {A} n (s t : list A) : slen s <= n -> sdrop n (s ++ t) = sdrop (n - slen s) t.
Proof. unfold slen, sdrop. intros. rewrite drop_app_ge by lia. do 2 f_equal. lia. Qed.

Lemma slen_0_nil {A} (s : list A) : slen s = 0 -> s = [].
Proof. destruct s; [done|]. rewrite slen_cons. pose proof (slen_nonneg s). lia. Qed.

(** ** Status values (include/rocksdb/status.h) *)

(** The codes of [Status] the modelled code produces, with their message. *)
Inductive Status :=
| OK
| NotFound
| Corruption (msg : string)
| NotSupported (msg : string)
| InvalidArgument (msg : string)
| IOError (msg : string)
| MemoryLimit (msg : string)
| TryAgain.

#[export] Instance Status_eq_dec : EqDecision Status.
Proof. solve_decision. Defined.

(** [Status::ok()] and [Status::IsTryAgain()]. *)
Definition ok (s : Status) : bool := match s with OK => true | _ => false end.
Definition IsTryAgain (s : Status) : bool := match s with TryAgain => true | _ => false end.

(** ** Sorted lists *)

Lemma StronglySorted_lookup {A} (R : A -> A -> Prop) l i j a b :
  StronglySorted R l -> (i < j)%nat -> l !! i = Some a -> l !! j = Some b -> R a b.
Proof.
  intros Hs. revert i j. induction Hs as [|x l Hs IH Hx]; intros i j Hij Ha Hb; [done|].
  destruct j as [|j]; [lia|]. destruct i as [|i]; cbn in *.
  - injection Ha as ->. by apply (Forall_lookup_1 _ _ _ _ Hx Hb).
  - apply (IH i j); done || lia.
Qed.
