(* ===== verification/Records.v ===== *)
(** Functional update of record fields: [r <| field := v |>] is [r] with one
    field replaced, and [r <| field ::= f |>] with one field mapped. The
    setters come from one [Settable] instance per record: the record rebuilt
    from its own projections, in which the wanted projection is abstracted. *)

From S2P Require Import Prelude.

(** The record rebuilt from its projections. *)
Class Settable (R : Type) := rebuild : R -> R.

(** The update of the field read by [proj]. *)
Class Setter {R T : Type} (proj : R -> T) := modify : (T -> T) -> R -> R.
Arguments modify {R T} proj {_} f r.

(** Abstracts [proj] in the body of the record's [Settable] instance. *)
Ltac solve_setter :=
  match goal with
  | |- @Setter ?R ?T ?proj =>
      let inst := constr:(_ : Settable R) in
      let eta := eval hnf in inst in
      match eval pattern proj in eta with
      | ?by_proj _ => exact (fun (f : T -> T) => by_proj (fun r : R => f (proj r)))
      end
  end.

#[export] Hint Extern 0 (Setter _) => solve_setter : typeclass_instances.

Notation "r <| p ::= f |>" := (modify p f r)
  (at level 1, f at level 200, left associativity) : rocks_scope.
Notation "r <| p := v |>" := (modify p (fun _ => v) r)
  (at level 1, v at level 200, left associativity) : rocks_scope.
