(* ===== verification/StdMap.v ===== *)
(** The ordered containers of the C++ library as the modelled code uses them:
    [std::map] with integer keys is an association list with strictly
    increasing keys, in iteration order; [std::set] is a list strictly
    increasing for its order. [lower_bound] is where both insert. The lemmas
    say that the operations keep the order and act on lookups like finite-map
    operations. *)

From stdpp Require Import sorting.
From S2P Require Import Prelude.

(** ** std::map<uint64_t, V> *)

Section Map.

Context {V : Type}.

Implicit Types m : list (Z * V).

(** Strictly increasing keys, all at least [lo]. *)
Fixpoint keys_from (lo : Z) m : bool :=
  match m with
  | [] => true
  | (k, _) :: m' => (lo <=? k) && keys_from (k + 1) m'
  end.

(** [m.erase(m.begin(), m.lower_bound(k))]: what is left. *)
Fixpoint map_erase_below (k : Z) m : list (Z * V) :=
  match m with
  | [] => []
  | (k', v) :: m' => if k' <? k then map_erase_below k m' else m
  end.

(** [m.find(k)]. *)
Fixpoint map_find (k : Z) m : option V :=
  match m with
  | [] => None
  | (k', v) :: m' => if k' =? k then Some v else if k' <? k then map_find k m' else None
  end.

(** [m[k] = v] and insertion at [m.lower_bound(k)]. *)
Fixpoint map_insert (k : Z) (v : V) m : list (Z * V) :=
  match m with
  | [] => [(k, v)]
  | (k', v') :: m' =>
      if k' <? k then (k', v') :: map_insert k v m'
      else if k' =? k then (k, v) :: m' else (k, v) :: (k', v') :: m'
  end.

(** [m.erase(k)]. *)
Fixpoint map_erase (k : Z) m : list (Z * V) :=
  match m with
  | [] => []
  | (k', v) :: m' =>
      if k' <? k then (k', v) :: map_erase k m' else if k' =? k then m' else (k', v) :: m'
  end.

Lemma keys_from_cons lo k v m :
  keys_from lo ((k, v) :: m) = true <-> lo <= k /\ keys_from (k + 1) m = true.
Proof. simpl. rewrite andb_true_iff, Z.leb_le. done. Qed.

Lemma keys_from_weaken lo lo' m : lo' <= lo -> keys_from lo m = true -> keys_from lo' m = true.
Proof.
  destruct m as [|[k v] m]; [done|]. rewrite !keys_from_cons. intros ? [??]. split; [lia|done].
Qed.

Lemma map_find_below lo m k : keys_from lo m = true -> k < lo -> map_find k m = None.
Proof.
  destruct m as [|[k' v] m]; [done|]. rewrite keys_from_cons. intros [??] ?. simpl.
  by repeat zcase.
Qed.

Lemma map_find_In lo m k v : keys_from lo m = true -> map_find k m = Some v <-> In (k, v) m.
Proof.
  revert lo; induction m as [|[k' v'] m IH]; intros lo; [simpl; split; [done|tauto]|].
  rewrite keys_from_cons. intros [Hlo Hm]. pose proof (IH _ Hm) as IHm.
  assert (Hb : k <= k' -> ~ In (k, v) m).
  { intros Hk Hin. apply IHm in Hin. rewrite (map_find_below (k' + 1)) in Hin by (done || lia). done. }
  simpl. repeat zcase.
  - rewrite IHm. split; [by right|]. intros [[= -> ->]|Hin]; [lia|done].
  - subst. split; [intros [= ->]; by left|]. intros [[= ->]|Hin]; [done|]. by destruct (Hb ltac:(lia)).
  - split; [done|]. intros [[= -> ->]|Hin]; [lia|]. by destruct (Hb ltac:(lia)).
Qed.

Lemma map_insert_sorted lo k v m :
  keys_from lo m = true -> lo <= k -> keys_from lo (map_insert k v m) = true.
Proof.
  revert lo; induction m as [|[k' v'] m IH]; intros lo.
  - intros _ ?. simpl. by rewrite (proj2 (Z.leb_le lo k)).
  - rewrite keys_from_cons. intros [??] ?. simpl. repeat zcase; rewrite ?keys_from_cons.
    + split; [lia|]. apply IH; [done|lia].
    + subst. by split.
    + repeat split; try lia; done.
Qed.

Lemma map_find_insert lo k v m k' : keys_from lo m = true ->
  map_find k' (map_insert k v m) = if k =? k' then Some v else map_find k' m.
Proof.
  revert lo; induction m as [|[k0 v0] m IH]; intros lo.
  - intros _. simpl. by repeat zcase.
  - rewrite keys_from_cons. intros [??]. simpl.
    repeat zcase; simpl; repeat zcase; rewrite ?(IH (k0 + 1)) by done; repeat zcase; try done.
    all: subst; by rewrite (map_find_below (k0 + 1)) by (done || lia).
Qed.

Lemma map_erase_below_sorted lo k m :
  keys_from lo m = true -> keys_from (Z.max lo k) (map_erase_below k m) = true.
Proof.
  revert lo; induction m as [|[k' v'] m IH]; intros lo; [done|].
  rewrite keys_from_cons. intros [??]. simpl. zcase.
  - apply (keys_from_weaken (Z.max (k' + 1) k)); [lia|]. by apply IH.
  - rewrite keys_from_cons. split; [lia|done].
Qed.

Lemma map_find_erase_below lo k m k' : keys_from lo m = true ->
  map_find k' (map_erase_below k m) = if k' <? k then None else map_find k' m.
Proof.
  revert lo; induction m as [|[k0 v0] m IH]; intros lo; [by intros _; simpl; zcase|].
  rewrite keys_from_cons. intros [??]. simpl. zcase.
  - rewrite (IH (k0 + 1)) by done. by repeat zcase.
  - simpl. repeat zcase; try done.
Qed.

Lemma map_erase_sorted lo k m : keys_from lo m = true -> keys_from lo (map_erase k m) = true.
Proof.
  revert lo; induction m as [|[k' v'] m IH]; intros lo; [done|].
  rewrite keys_from_cons. intros [??]. simpl. repeat zcase; rewrite ?keys_from_cons.
  - split; [lia|]. by apply IH.
  - apply (keys_from_weaken (k' + 1)); [lia|done].
  - by split.
Qed.

Lemma map_find_erase lo k m k' : keys_from lo m = true ->
  map_find k' (map_erase k m) = if k =? k' then None else map_find k' m.
Proof.
  revert lo; induction m as [|[k0 v0] m IH]; intros lo; [by intros _; simpl; zcase|].
  rewrite keys_from_cons. intros [??]. simpl.
  repeat zcase; simpl; repeat zcase; rewrite ?(IH (k0 + 1)) by done; repeat zcase; try done.
  all: subst; eapply map_find_below; [done|lia].
Qed.

(** Two maps with the same lookups are the same list. *)
Lemma map_ext lo m m' : keys_from lo m = true -> keys_from lo m' = true ->
  (forall k, map_find k m = map_find k m') -> m = m'.
Proof.
  revert lo m'; induction m as [|[k v] m IH]; intros lo m' Hm Hm' Hf.
  - destruct m' as [|[k' v'] m']; [done|]. specialize (Hf k'). simpl in Hf.
    by rewrite Z.eqb_refl in Hf.
  - destruct m' as [|[k' v'] m'].
    { specialize (Hf k). simpl in Hf. by rewrite Z.eqb_refl in Hf. }
    apply keys_from_cons in Hm as [? Hm], Hm' as [? Hm'].
    assert (k = k') as <-.
    { pose proof (Hf k) as Hk. pose proof (Hf k') as Hk'. simpl in Hk, Hk'.
      rewrite Z.eqb_refl in Hk, Hk'. repeat zcase_in Hk; try done; repeat zcase_in Hk'; done. }
    assert (v = v') as <-.
    { specialize (Hf k). simpl in Hf. rewrite Z.eqb_refl in Hf. congruence. }
    f_equal. apply (IH (k + 1)); [done..|]. intros k0. specialize (Hf k0). simpl in Hf.
    destruct (Z.ltb_spec k k0).
    + by rewrite (proj2 (Z.eqb_neq k k0)) in Hf by lia.
    + by rewrite !(map_find_below (k + 1)) by (done || lia).
Qed.

End Map.

(** ** std::set *)

Section Set_.

Context {A : Type} (lt : A -> A -> bool).

(** [s.insert(x)], [s.emplace(x)]: nothing happens when an equivalent element
    is there. *)
Fixpoint set_insert (x : A) (s : list A) : list A :=
  match s with
  | [] => [x]
  | y :: s' => if lt y x then y :: set_insert x s' else if lt x y then x :: s else s
  end.

(** Every element is less than the next. *)
Fixpoint increasing (s : list A) : bool :=
  match s with
  | x :: ((y :: _) as s') => lt x y && increasing s'
  | _ => true
  end.

Definition StrictOrder_ : Prop :=
  (forall x, lt x x = false) /\ (forall x y z, lt x y = true -> lt y z = true -> lt x z = true).

(** Inserting the elements of an increasing list in order rebuilds it. *)
Lemma set_insert_last s x : StrictOrder_ ->
  increasing (s ++ [x]) = true -> set_insert x s = s ++ [x].
Proof.
  intros [Hirr Htr]. induction s as [|y s IH]; [done|].
  intros Hs. assert (lt y x = true /\ increasing (s ++ [x]) = true) as [Hyx Hs'].
  { clear IH. revert y Hs. induction s as [|z s IHs]; intros y; simpl.
    - rewrite andb_true_r. done.
    - rewrite andb_true_iff. intros [Hyz Hs]. destruct (IHs z Hs) as [Hzx ?].
      split; [by eapply Htr|]. exact Hs. }
  simpl. by rewrite Hyx, IH.
Qed.

Lemma increasing_cons x s :
  increasing (x :: s) = true <->
  match s with [] => True | y :: _ => lt x y = true end /\ increasing s = true.
Proof. destruct s as [|y s]; simpl; [tauto|]. by rewrite andb_true_iff. Qed.

(** Insertion keeps the elements in order, when equivalent elements are equal. *)
Lemma set_insert_increasing x s :
  (forall a b, lt a b = false -> lt b a = false -> a = b) ->
  increasing s = true -> increasing (set_insert x s) = true.
Proof.
  intros Htot. induction s as [|y s IH]; [done|]. rewrite increasing_cons. intros [Hy Hs]. simpl.
  destruct (lt y x) eqn:Hyx.
  - rewrite increasing_cons. split; [|by apply IH].
    destruct s as [|z s]; [done|]. simpl. destruct (lt z x); [done|]. by destruct (lt x z).
  - destruct (lt x y) eqn:Hxy; [|by rewrite increasing_cons].
    rewrite increasing_cons. split; [done|]. by rewrite increasing_cons.
Qed.

Lemma Forall_set_insert (P : A -> Prop) x s : P x -> Forall P s -> Forall P (set_insert x s).
Proof.
  intros Hx Hs. induction Hs as [|y s Hy Hs IH]; simpl; [by repeat constructor|].
  destruct (lt y x); [by constructor|]. destruct (lt x y); by repeat constructor.
Qed.

End Set_.

(** ** std::sort *)

Section Sort.

Context {A : Type} (lt : A -> A -> bool).

(** [std::sort(first, last, lt)] by insertion. Elements that are equivalent for
    [lt] may end in another order in the library's own; the modelled code sorts
    by orders in which different elements are not equivalent. *)
Fixpoint sort_insert (x : A) (l : list A) : list A :=
  match l with
  | [] => [x]
  | y :: l' => if lt y x then y :: sort_insert x l' else x :: l
  end.

Definition std_sort (l : list A) : list A := foldr sort_insert [] l.

Lemma sort_insert_Permutation x l : sort_insert x l ≡ₚ x :: l.
Proof. induction l as [|y l IH]; simpl; [done|]. case_match; [rewrite IH; constructor|done]. Qed.

Lemma std_sort_Permutation l : std_sort l ≡ₚ l.
Proof. induction l as [|x l IH]; simpl; [done|]. by rewrite sort_insert_Permutation, IH. Qed.

Lemma sort_insert_sorted (P : A -> Prop) x l :
  (forall a b d, P a -> P b -> P d -> lt a b = true -> lt b d = true -> lt a d = true) ->
  P x -> Forall P l -> Forall (fun y => lt y x = true \/ lt x y = true) l ->
  StronglySorted (fun a b => lt a b = true) l ->
  StronglySorted (fun a b => lt a b = true) (sort_insert x l).
Proof.
  intros Htr Hx Hl Ht Hs. induction Hs as [|y l Hs IH Hy]; simpl; [by repeat constructor|].
  inversion_clear Hl as [|?? HPy Hl']. inversion_clear Ht as [|?? Hxy Ht'].
  destruct (lt y x) eqn:E.
  - constructor; [by apply IH|]. rewrite sort_insert_Permutation. by constructor.
  - destruct Hxy as [?|Hxy]; [congruence|]. constructor; [by constructor|]. constructor; [done|].
    rewrite list.Forall_forall in Hy, Hl' |- *. intros z Hz. apply (Htr x y z); auto.
Qed.

(** For an order that is transitive and total on the elements, which are
    pairwise different, the result is strictly increasing. *)
Lemma std_sort_sorted (P : A -> Prop) l :
  (forall a b d, P a -> P b -> P d -> lt a b = true -> lt b d = true -> lt a d = true) ->
  Forall P l ->
  (forall a b, a ∈ l -> b ∈ l -> a <> b -> lt a b = true \/ lt b a = true) ->
  NoDup l -> StronglySorted (fun a b => lt a b = true) (std_sort l).
Proof.
  intros Htr Hl Ht Hn. induction Hn as [|x l Hx Hn IH]; simpl; [constructor|].
  inversion_clear Hl as [|?? HPx Hl']. apply (sort_insert_sorted P); [done..| | |].
  - by rewrite std_sort_Permutation.
  - apply list.Forall_forall. intros y Hy. rewrite std_sort_Permutation in Hy.
    apply Ht; [by constructor| constructor|]. by intros ->.
  - apply IH; [done|]. intros a b Ha Hb. apply Ht; by constructor.
Qed.

(** For a total order that is strict, and elements that may repeat. *)
Definition sort_le (a b : A) : Prop := lt a b = true \/ a = b.

Lemma std_sort_le l :
  (forall a b d, lt a b = true -> lt b d = true -> lt a d = true) ->
  (forall a b, lt a b = false -> sort_le b a) ->
  StronglySorted sort_le (std_sort l).
Proof.
  intros Htr Ht. induction l as [|x l IH]; simpl; [constructor|].
  induction IH as [|y m Hs IHm Hy]; simpl; [by repeat constructor|]. destruct (lt y x) eqn:E.
  - constructor; [done|]. rewrite sort_insert_Permutation. constructor; [by left|done].
  - constructor; [by constructor|]. apply Ht in E. constructor; [done|].
    apply (list.Forall_impl _ _ _ Hy). unfold sort_le in *. intros z [Hz| ->]; [|done].
    destruct E as [E| ->]; left; eauto.
Qed.

End Sort.

(** ** std::lower_bound *)

(** The first position in [first, first + len) whose element is not [lt]; with
    the negation of [cmp(val, x)] it is [std::upper_bound]. A read outside the
    range of the list is undefined. *)
Fixpoint lower_bound_loop {A : Type} (fuel : nat) (lt : A -> bool) (l : list A) (first len : nat) : option nat :=
  match fuel with
  | O => None
  | S fuel =>
      match len with
      | O => Some first
      | _ =>
          let half := (len / 2)%nat in
          x ← l !! (first + half)%nat;
          if lt x then lower_bound_loop fuel lt l (first + half + 1)%nat (len - half - 1)%nat
          else lower_bound_loop fuel lt l first half
      end
  end.

Definition std_lower_bound {A : Type} (lt : A -> bool) (l : list A) (first len : nat) : option nat :=
  lower_bound_loop (S len) lt l first len.

(** If the elements that are [lt] come first, the result separates them from
    the others. *)
Lemma std_lower_bound_spec {A : Type} (lt : A -> bool) (l : list A) (first len : nat) :
  (first + len <= length l)%nat ->
  (forall i j x y, (i < j)%nat -> l !! i = Some x -> l !! j = Some y -> lt y = true -> lt x = true) ->
  exists r, std_lower_bound lt l first len = Some r /\ (first <= r <= first + len)%nat /\
    (forall i x, (first <= i < r)%nat -> l !! i = Some x -> lt x = true) /\
    (forall i x, (r <= i < first + len)%nat -> l !! i = Some x -> lt x = false).
Proof.
  unfold std_lower_bound. intros Hlen Hmono. generalize (le_n (S len)). generalize (S len) at 2 3 as fuel.
  intros fuel. revert first len Hlen. induction fuel as [|fuel IH]; intros first len Hlen Hf; [lia|].
  cbn [lower_bound_loop]. destruct len as [|len'] eqn:El.
  { exists first. split; [done|]. split; [lia|]. split; intros i x ?; lia. }
  rewrite <- El in *. assert (Hh : (len / 2 < len)%nat) by (apply Nat.div_lt; lia).
  destruct (lookup_lt_is_Some_2 l (first + len / 2) ltac:(lia)) as [x Hx]. rewrite Hx. cbn [mbind option_bind].
  destruct (lt x) eqn:E.
  - destruct (IH (first + len / 2 + 1)%nat (len - len / 2 - 1)%nat ltac:(lia) ltac:(lia)) as (r & -> & Hr & Hlo & Hhi).
    exists r. split; [done|]. split; [lia|]. split.
    + intros i y Hi Hy. destruct (decide (first + len / 2 < i)%nat); [apply (Hlo i); [lia|done]|].
      destruct (decide (i = first + len / 2)%nat) as [->|]; [congruence|]. by apply (Hmono i (first + len / 2)%nat y x); [lia|..].
    + intros i y Hi. apply Hhi. lia.
  - destruct (IH first (len / 2)%nat ltac:(lia) ltac:(lia)) as (r & -> & Hr & Hlo & Hhi).
    exists r. split; [done|]. split; [lia|]. split; [done|]. intros i y Hi Hy.
    destruct (decide (i < first + len / 2)%nat); [apply (Hhi i); [lia|done]|]. apply not_true_iff_false. intros Hlt.
    destruct (decide (i = first + len / 2)%nat) as [->|]; [congruence|].
    rewrite (Hmono (first + len / 2)%nat i x y ltac:(lia) Hx Hy Hlt) in E. done.
Qed.
