(* ===== verification/Binary64.v ===== *)
(** * Binary64 numbers

    The [double] arithmetic the modelled code uses: sums, quotients, products
    and comparisons of IEEE 754 binary64 numbers, the conversion of a [size_t]
    to a [double] (round to nearest, ties to even), and the two facts the cache
    relies on: the conversion is monotone, and the product of two numbers that
    are not negative is not negative. *)

From S2P Require Import Prelude.
From Stdlib Require Import SpecFloat.

Abbreviation double := spec_float.
Definition dbl_add : double -> double -> double := SFadd 53 1024.
Definition dbl_mul : double -> double -> double := SFmul 53 1024.
Definition dbl_div : double -> double -> double := SFdiv 53 1024.
Definition dbl_ltb : double -> double -> bool := SFltb.
Definition dbl_leb : double -> double -> bool := SFleb.
Definition dbl_0 : double := S754_zero false.
Definition dbl_1 : double := S754_finite false 4503599627370496 (-52).
Definition dbl_minus_1 : double := S754_finite true 4503599627370496 (-52).

(** [n / 2^k] rounded to the nearest integer, ties to even. *)
Definition round_shift (n k : Z) : Z :=
  let q := n / 2 ^ k in
  let r := n mod 2 ^ k in
  if (2 ^ k <? 2 * r) || ((2 * r =? 2 ^ k) && Z.odd q) then q + 1 else q.

(** [static_cast<double>(n)] for a [size_t]: the mantissa has 53 bits. *)
Definition dbl_of_size (n : Z) : double :=
  if n <=? 0 then dbl_0
  else
    let k := Z.log2 n - 52 in
    let m := if k <=? 0 then n * 2 ^ (- k) else round_shift n k in
    if m =? 2 ^ 53 then S754_finite false (Z.to_pos (2 ^ 52)) (k + 1)
    else S754_finite false (Z.to_pos m) k.

Lemma dbl_of_size_0 : dbl_of_size 0 = dbl_0.
Proof. done. Qed.

(** The conversion agrees with the normalization of the Standard Library. *)
Example dbl_of_size_examples :
  Forall (fun n => dbl_of_size n = binary_normalize 53 1024 n 0 false)
    [1; 7; 100; 2 ^ 52; 2 ^ 53 - 1; 2 ^ 53; 2 ^ 53 + 1; 2 ^ 53 + 3; 2 ^ 60 + 127; 2 ^ 60 + 128;
     2 ^ 60 + 384; 2 ^ 64 - 1025; 2 ^ 64 - 1024; 2 ^ 64 - 1].
Proof. repeat constructor. Qed.

Lemma round_shift_bounds n k : 0 <= k -> n / 2 ^ k <= round_shift n k <= n / 2 ^ k + 1.
Proof. intros. unfold round_shift. destruct (_ || _); lia. Qed.

Lemma round_shift_mono a b k : 0 <= k -> a <= b -> round_shift a k <= round_shift b k.
Proof.
  intros Hk Hab. pose proof (Z.pow_pos_nonneg 2 k ltac:(lia) Hk).
  pose proof (Z.div_le_mono a b (2 ^ k) ltac:(lia) Hab) as Hq.
  pose proof (round_shift_bounds a k Hk). pose proof (round_shift_bounds b k Hk).
  destruct (decide (a / 2 ^ k = b / 2 ^ k)) as [E|]; [|lia].
  pose proof (Z.div_mod a (2 ^ k) ltac:(lia)). pose proof (Z.div_mod b (2 ^ k) ltac:(lia)).
  assert (a mod 2 ^ k <= b mod 2 ^ k) by nia.
  unfold round_shift. rewrite E. repeat zcase; simpl; try lia.
  all: destruct (Z.odd _); simpl; lia.
Qed.

(** The mantissa before it is renormalized. *)
Definition mantissa (n : Z) : Z :=
  let k := Z.log2 n - 52 in if k <=? 0 then n * 2 ^ (- k) else round_shift n k.

Lemma mantissa_range n : 0 < n -> 2 ^ 52 <= mantissa n <= 2 ^ 53.
Proof.
  intros Hn. unfold mantissa. destruct (Z.log2_spec n Hn) as [H1 H2].
  pose proof (Z.log2_nonneg n). set (l := Z.log2 n) in *. zcase.
  - replace (2 ^ 52) with (2 ^ l * 2 ^ (- (l - 52))) by (rewrite <- Z.pow_add_r by lia; f_equal; lia).
    replace (2 ^ 53) with (2 ^ (Z.succ l) * 2 ^ (- (l - 52)))
      by (rewrite <- Z.pow_add_r by lia; f_equal; lia).
    pose proof (Z.pow_pos_nonneg 2 (- (l - 52)) ltac:(lia) ltac:(lia)). nia.
  - pose proof (round_shift_bounds n (l - 52) ltac:(lia)).
    pose proof (Z.pow_pos_nonneg 2 (l - 52) ltac:(lia) ltac:(lia)).
    assert (2 ^ 52 <= n / 2 ^ (l - 52)).
    { apply Z.div_le_lower_bound; [lia|]. rewrite <- Z.pow_add_r by lia.
      replace (l - 52 + 52) with l by lia. done. }
    assert (n / 2 ^ (l - 52) < 2 ^ 53).
    { apply Z.div_lt_upper_bound; [lia|]. rewrite <- Z.pow_add_r by lia.
      replace (l - 52 + 53) with (Z.succ l) by lia. done. }
    lia.
Qed.

Lemma mantissa_mono a b : 0 < a -> a <= b -> Z.log2 a = Z.log2 b -> mantissa a <= mantissa b.
Proof.
  intros Ha Hab E. unfold mantissa. rewrite E. zcase.
  - pose proof (Z.pow_nonneg 2 (- (Z.log2 b - 52))). nia.
  - apply round_shift_mono; lia.
Qed.

(** Exponent and mantissa of a positive integer, in canonical form. *)
Lemma dbl_of_size_pos n : 0 < n ->
  dbl_of_size n =
    if mantissa n =? 2 ^ 53 then S754_finite false (Z.to_pos (2 ^ 52)) (Z.log2 n - 52 + 1)
    else S754_finite false (Z.to_pos (mantissa n)) (Z.log2 n - 52).
Proof. intros. unfold dbl_of_size. rewrite (proj2 (Z.leb_gt n 0)) by lia. done. Qed.

Definition dbl_le (a b : double) : Prop :=
  match a, b with
  | S754_zero _, S754_zero _ | S754_zero _, S754_finite false _ _ => True
  | S754_finite false m e, S754_finite false m' e' => e < e' \/ e = e' /\ Zpos m <= Zpos m'
  | _, _ => False
  end.

Lemma dbl_of_size_mono a b : 0 <= a -> a <= b -> dbl_le (dbl_of_size a) (dbl_of_size b).
Proof.
  intros Ha Hab. destruct (decide (a = 0)) as [->|].
  { rewrite dbl_of_size_0. destruct (decide (b = 0)) as [->|]; [done|].
    rewrite dbl_of_size_pos by lia. by destruct (_ =? _). }
  rewrite !dbl_of_size_pos by lia.
  pose proof (mantissa_range a ltac:(lia)). pose proof (mantissa_range b ltac:(lia)).
  pose proof (Z.log2_le_mono a b Hab).
  destruct (decide (Z.log2 a = Z.log2 b)) as [E|].
  - pose proof (mantissa_mono a b ltac:(lia) Hab E). rewrite E.
    repeat zcase; simpl; rewrite ?Z2Pos.id by lia; try lia.
  - repeat zcase; simpl; rewrite ?Z2Pos.id by lia; lia.
Qed.

(** A number below a [size_t] is below every greater one. *)
Lemma dbl_ltb_mono c a b : 0 <= a -> a <= b ->
  dbl_ltb c (dbl_of_size a) = true -> dbl_ltb c (dbl_of_size b) = true.
Proof.
  intros Ha Hab. pose proof (dbl_of_size_mono a b Ha Hab) as H.
  revert H. generalize (dbl_of_size a) (dbl_of_size b). clear. intros x y.
  unfold dbl_ltb, SFltb, SFcompare.
  destruct x as [|s| |[] m e], y as [|s'| |[] m' e']; try done; destruct c as [|s''| |[] m'' e'']; simpl; try done.
  all: intros H; destruct (Z.compare_spec e'' e); destruct (Z.compare_spec e'' e'); try done; try lia.
  all: rewrite !Pos.compare_cont_spec; destruct (Pos.compare_spec m'' m), (Pos.compare_spec m'' m'); simpl; try done; lia.
Qed.

(** ** Signs *)

(** Not below zero; NaN is not, either. *)
Definition dbl_nonneg (d : double) : Prop := dbl_ltb d dbl_0 = false.

Lemma round_aux_nonneg m e l : dbl_nonneg (binary_round_aux 53 1024 false m e l).
Proof.
  unfold binary_round_aux, dbl_nonneg. destruct (shr_fexp _ _ _ _ _) as [mrs e'].
  destruct (shr_fexp _ _ _ _ _) as [mrs' e'']. destruct (shr_m mrs'); try done. by destruct (_ <=? _).
Qed.

Lemma dbl_mul_nonneg n r : dbl_nonneg r -> dbl_nonneg (dbl_mul (dbl_of_size n) r).
Proof.
  intros Hr. unfold dbl_of_size. zcase; [by destruct r as [[]|[]| |[]]|].
  destruct (_ =? _), r as [[]|[]| |[]]; try done; apply round_aux_nonneg.
Qed.

Lemma nonneg_fits d : dbl_nonneg d -> dbl_ltb d (dbl_of_size 0) = false.
Proof. done. Qed.
