(* ===== verification/Coding.v ===== *)
(** * Fixed-width, variable-length and length-prefixed encodings

    Models util/coding_lean.h, util/coding.h and util/coding.cc.

    A routine that appends to a [std::string* dst] is modelled by a function
    from the old contents to the new ones; a routine that advances a
    [Slice* input] and reports success returns [Some (value, rest)] or [None];
    a routine that writes at [char* dst] and returns the pointer past the end
    returns the bytes written. *)

From S2P Require Import Prelude.

(** ** Fixed-width integers (coding_lean.h) *)

Section Fixed.

(** [port::kLittleEndian]: the machine's byte order. On a little-endian
    machine the routines copy the object representation with memcpy, on the
    others they assemble it byte by byte. *)
Variable kLittleEndian : bool.

Definition EncodeFixed16_on (value : Z) : bytes :=
  if kLittleEndian then le_split 2 value
  else [to_byte (Z.land value 255);
        to_byte (Z.land (Z.shiftr value 8) 255)].

Definition EncodeFixed32_on (value : Z) : bytes :=
  if kLittleEndian then le_split 4 value
  else [to_byte (Z.land value 255);
        to_byte (Z.land (Z.shiftr value 8) 255);
        to_byte (Z.land (Z.shiftr value 16) 255);
        to_byte (Z.land (Z.shiftr value 24) 255)].

Definition EncodeFixed64_on (value : Z) : bytes :=
  if kLittleEndian then le_split 8 value
  else [to_byte (Z.land value 255);
        to_byte (Z.land (Z.shiftr value 8) 255);
        to_byte (Z.land (Z.shiftr value 16) 255);
        to_byte (Z.land (Z.shiftr value 24) 255);
        to_byte (Z.land (Z.shiftr value 32) 255);
        to_byte (Z.land (Z.shiftr value 40) 255);
        to_byte (Z.land (Z.shiftr value 48) 255);
        to_byte (Z.land (Z.shiftr value 56) 255)].

(** [ptr[i]] read as an unsigned char; a read past the end of the model's
    list, which the callers' bounds checks exclude, gives 0. *)
Definition at_ (ptr : bytes) (i : nat) : Z :=
  match ptr !! i with Some b => ub b | None => 0 end.

Definition DecodeFixed16_on (ptr : bytes) : Z :=
  if kLittleEndian then le_combine (take 2 ptr)
  else Z.lor (at_ ptr 0) (Z.shiftl (at_ ptr 1) 8).

Definition DecodeFixed32_on (ptr : bytes) : Z :=
  if kLittleEndian then le_combine (take 4 ptr)
  else Z.lor (Z.lor (Z.lor (at_ ptr 0) (Z.shiftl (at_ ptr 1) 8))
                    (Z.shiftl (at_ ptr 2) 16))
             (Z.shiftl (at_ ptr 3) 24).

Definition DecodeFixed64_on (ptr : bytes) : Z :=
  if kLittleEndian then le_combine (take 8 ptr)
  else let lo := DecodeFixed32_on ptr in
       let hi := DecodeFixed32_on (drop 4 ptr) in
       Z.lor (Z.shiftl hi 32) lo.

End Fixed.

(** The rest of the development uses the little-endian branch; the theorem
    [fixed_endianness] below shows that the other branch computes the same. *)
Definition EncodeFixed16 : Z -> bytes := EncodeFixed16_on true.
Definition EncodeFixed32 : Z -> bytes := EncodeFixed32_on true.
Definition EncodeFixed64 : Z -> bytes := EncodeFixed64_on true.
Definition DecodeFixed16 : bytes -> Z := DecodeFixed16_on true.
Definition DecodeFixed32 : bytes -> Z := DecodeFixed32_on true.
Definition DecodeFixed64 : bytes -> Z := DecodeFixed64_on true.

(** [Put...] appends to the string, [Get...] consumes from a slice. *)
Definition PutFixed16 (dst : bytes) (value : Z) : bytes := dst ++ EncodeFixed16 value.
Definition PutFixed32 (dst : bytes) (value : Z) : bytes := dst ++ EncodeFixed32 value.
Definition PutFixed64 (dst : bytes) (value : Z) : bytes := dst ++ EncodeFixed64 value.

Definition GetFixed64 (input : bytes) : option (Z * bytes) :=
  if slen input <? 8 then None
  else Some (DecodeFixed64 input, sdrop 8 input).

Definition GetFixed32 (input : bytes) : option (Z * bytes) :=
  if slen input <? 4 then None
  else Some (DecodeFixed32 input, sdrop 4 input).

Definition GetFixed16 (input : bytes) : option (Z * bytes) :=
  if slen input <? 2 then None
  else Some (DecodeFixed16 input, sdrop 2 input).

(** ** Variable-length integers *)

(** The maximum length of a varint in bytes for 64-bit. *)
Definition kMaxVarint64Length : Z := 10.

(** [EncodeVarint32]: the unrolled encoder of coding.cc. Storing a word into
    an [unsigned char] keeps its low eight bits, which is what [to_byte]
    does. *)
Definition EncodeVarint32 (v : Z) : bytes :=
  let B := 128 in
  if v <? Z.shiftl 1 7 then
    [to_byte v]
  else if v <? Z.shiftl 1 14 then
    [to_byte (Z.lor v B); to_byte (Z.shiftr v 7)]
  else if v <? Z.shiftl 1 21 then
    [to_byte (Z.lor v B); to_byte (Z.lor (Z.shiftr v 7) B); to_byte (Z.shiftr v 14)]
  else if v <? Z.shiftl 1 28 then
    [to_byte (Z.lor v B); to_byte (Z.lor (Z.shiftr v 7) B);
     to_byte (Z.lor (Z.shiftr v 14) B); to_byte (Z.shiftr v 21)]
  else
    [to_byte (Z.lor v B); to_byte (Z.lor (Z.shiftr v 7) B);
     to_byte (Z.lor (Z.shiftr v 14) B); to_byte (Z.lor (Z.shiftr v 21) B);
     to_byte (Z.shiftr v 28)].

(** The [while (v >= B)] loop of [EncodeVarint64]. The fuel bounds the number
    of iterations; [encode_varint_fuel] shows that nine are enough for every
    64-bit value. *)
Fixpoint EncodeVarint64_loop (fuel : nat) (v : Z) : bytes :=
  match fuel with
  | O => [to_byte v]
  | S fuel' =>
      if 128 <=? v
      then to_byte (Z.lor (Z.land v (128 - 1)) 128)
             :: EncodeVarint64_loop fuel' (Z.shiftr v 7)
      else [to_byte v]
  end.

Definition EncodeVarint64 (v : Z) : bytes := EncodeVarint64_loop 9 v.

Definition PutVarint32 (dst : bytes) (v : Z) : bytes := dst ++ EncodeVarint32 v.
Definition PutVarint32Varint32 (dst : bytes) (v1 v2 : Z) : bytes :=
  dst ++ (EncodeVarint32 v1 ++ EncodeVarint32 v2).
Definition PutVarint32Varint32Varint32 (dst : bytes) (v1 v2 v3 : Z) : bytes :=
  dst ++ (EncodeVarint32 v1 ++ EncodeVarint32 v2 ++ EncodeVarint32 v3).
Definition PutVarint64 (dst : bytes) (v : Z) : bytes := dst ++ EncodeVarint64 v.
Definition PutVarint64Varint64 (dst : bytes) (v1 v2 : Z) : bytes :=
  dst ++ (EncodeVarint64 v1 ++ EncodeVarint64 v2).
Definition PutVarint32Varint64 (dst : bytes) (v1 v2 : Z) : bytes :=
  dst ++ (EncodeVarint32 v1 ++ EncodeVarint64 v2).
Definition PutVarint32Varint32Varint64 (dst : bytes) (v1 v2 v3 : Z) : bytes :=
  dst ++ (EncodeVarint32 v1 ++ EncodeVarint32 v2 ++ EncodeVarint64 v3).

(** The [while (v >= 128)] loop of [VarintLength]. *)
Fixpoint VarintLength_loop (fuel : nat) (v len : Z) : Z :=
  match fuel with
  | O => len
  | S fuel' =>
      if 128 <=? v then VarintLength_loop fuel' (Z.shiftr v 7) (len + 1) else len
  end.

Definition VarintLength (v : Z) : Z := VarintLength_loop 9 v 1.

(** The decoding loop shared by [GetVarint32PtrFallback] ([width] 32, last
    shift 28) and [GetVarint64Ptr] ([width] 64, last shift 63): the bytes
    between [p] and [limit] are the list, [width] is the width of [result]. *)
Fixpoint GetVarint_loop (width last : Z) (p : bytes) (shift result : Z) : option (Z * bytes) :=
  match p with
  | [] => None
  | c :: p' =>
      if shift <=? last then
        let byte := ub c in
        if negb (Z.land byte 128 =? 0) then
          GetVarint_loop width last p' (shift + 7)
            (Z.lor result (Z.shiftl (Z.land byte 127) shift mod 2 ^ width))
        else Some (Z.lor result (Z.shiftl byte shift mod 2 ^ width), p')
      else None
  end.

Definition GetVarint32PtrFallback (p : bytes) : option (Z * bytes) :=
  GetVarint_loop 32 28 p 0 0.

Definition GetVarint64Ptr (p : bytes) : option (Z * bytes) :=
  GetVarint_loop 64 63 p 0 0.

(** The one-byte fast path of coding.h. *)
Definition GetVarint32Ptr (p : bytes) : option (Z * bytes) :=
  match p with
  | c :: p' =>
      let result := ub c in
      if Z.land result 128 =? 0 then Some (result, p')
      else GetVarint32PtrFallback p
  | [] => GetVarint32PtrFallback p
  end.

Definition GetVarint32 (input : bytes) : option (Z * bytes) := GetVarint32Ptr input.
Definition GetVarint64 (input : bytes) : option (Z * bytes) := GetVarint64Ptr input.

(** ** Signed varints: the zigzag map *)

(** [l >> 63] is the arithmetic shift of the signed value. *)
Definition i64ToZigzag (l : Z) : Z :=
  Z.lxor (u64 (Z.shiftl (u64 l) 1)) (u64 (Z.shiftr l 63)).

Definition zigzagToI64 (n : Z) : Z :=
  s64 (Z.lxor (Z.shiftr n 1) (u64 (- Z.land n 1))).

Definition PutVarsignedint64 (dst : bytes) (v : Z) : bytes :=
  dst ++ EncodeVarint64 (i64ToZigzag v).

Definition GetVarsignedint64 (input : bytes) : option (Z * bytes) :=
  match GetVarint64Ptr input with
  | Some (u, rest) => Some (zigzagToI64 u, rest)
  | None => None
  end.

(** ** Length-prefixed slices *)

Definition PutLengthPrefixedSlice (dst value : bytes) : bytes :=
  PutVarint32 dst (u32 (slen value)) ++ value.

(** [SliceParts]: slices that are virtually concatenated. *)
Definition parts_size (total_bytes : Z) (parts : list bytes) : Z :=
  fold_left (fun n p => n + slen p) parts total_bytes.

Definition PutLengthPrefixedSlicePartsFrom (dst : bytes) (total_bytes : Z)
    (parts : list bytes) : bytes :=
  fold_left (fun d p => d ++ p) parts
    (PutVarint32 dst (u32 (parts_size total_bytes parts))).

Definition PutLengthPrefixedSliceParts (dst : bytes) (parts : list bytes) : bytes :=
  PutLengthPrefixedSlicePartsFrom dst 0 parts.

Definition PutLengthPrefixedSlicePartsWithPadding (dst : bytes) (parts : list bytes)
    (pad_sz : Z) : bytes :=
  PutLengthPrefixedSlicePartsFrom dst pad_sz parts
    ++ replicate (Z.to_nat pad_sz) (to_byte 0).

(** On success the slice and the advanced input. *)
Definition GetLengthPrefixedSlice (input : bytes) : option (bytes * bytes) :=
  match GetVarint32 input with
  | Some (len, input') =>
      if len <=? slen input' then Some (stake len input', sdrop len input')
      else None
  | None => None
  end.

(** [GetSliceUntil]: the part before the delimiter, and the rest with the
    delimiter skipped. *)
Fixpoint GetSliceUntil (slice : bytes) (delimiter : byte) : bytes * bytes :=
  match slice with
  | [] => ([], [])
  | c :: slice' =>
      if decide (c = delimiter) then ([], slice')
      else let '(ret, rest) := GetSliceUntil slice' delimiter in (c :: ret, rest)
  end.

(** ** Fixed-width lemmas *)

Lemma at_cons_0 c p : at_ (c :: p) 0 = ub c.
Proof. reflexivity. Qed.

Lemma at_cons_S c p i : at_ (c :: p) (S i) = at_ p i.
Proof. reflexivity. Qed.

Lemma at_nil i : at_ [] i = 0.
Proof. by destruct i. Qed.

#[export] Hint Rewrite at_cons_0 at_cons_S at_nil : slices.

Lemma encode_fixed_length n v : slen (le_split n v) = Z.of_nat n.
Proof. apply slen_le_split. Qed.

Lemma slen_EncodeFixed16 v : slen (EncodeFixed16 v) = 2.
Proof. reflexivity. Qed.

Lemma slen_EncodeFixed32 v : slen (EncodeFixed32 v) = 4.
Proof. reflexivity. Qed.

Lemma slen_EncodeFixed64 v : slen (EncodeFixed64 v) = 8.
Proof. reflexivity. Qed.

#[export] Hint Rewrite slen_EncodeFixed16 slen_EncodeFixed32 slen_EncodeFixed64 : slices.

Lemma take_le_split n v rest : take n (le_split n v ++ rest) = le_split n v.
Proof. apply take_app_length'. by rewrite length_le_split. Qed.

Lemma DecodeFixed16_Encode v rest : is_u16 v -> DecodeFixed16 (EncodeFixed16 v ++ rest) = v.
Proof.
  intros Hv. unfold DecodeFixed16, DecodeFixed16_on, EncodeFixed16, EncodeFixed16_on.
  rewrite take_le_split, le_combine_split. by apply Z.mod_small.
Qed.

Lemma DecodeFixed32_Encode v rest : is_u32 v -> DecodeFixed32 (EncodeFixed32 v ++ rest) = v.
Proof.
  intros Hv. unfold DecodeFixed32, DecodeFixed32_on, EncodeFixed32, EncodeFixed32_on.
  rewrite take_le_split, le_combine_split. by apply Z.mod_small.
Qed.

Lemma DecodeFixed64_Encode v rest : is_u64 v -> DecodeFixed64 (EncodeFixed64 v ++ rest) = v.
Proof.
  intros Hv. unfold DecodeFixed64, DecodeFixed64_on, EncodeFixed64, EncodeFixed64_on.
  rewrite take_le_split, le_combine_split. by apply Z.mod_small.
Qed.

Lemma le_combine_take_range n p : 0 <= le_combine (take n p) < 2 ^ (8 * Z.of_nat n).
Proof.
  pose proof (le_combine_bound (take n p)) as [H1 H2]. split; [done|].
  eapply Z.lt_le_trans; [exact H2|]. apply Z.pow_le_mono_r; [lia|].
  rewrite length_take. lia.
Qed.

Lemma DecodeFixed16_range p : is_u16 (DecodeFixed16 p).
Proof. apply (le_combine_take_range 2). Qed.

Lemma DecodeFixed32_range p : is_u32 (DecodeFixed32 p).
Proof. apply (le_combine_take_range 4). Qed.

Lemma DecodeFixed64_range p : is_u64 (DecodeFixed64 p).
Proof. apply (le_combine_take_range 8). Qed.

#[export] Hint Resolve DecodeFixed16_range DecodeFixed32_range DecodeFixed64_range : rocks.

(** Re-encoding what was decoded gives back the bytes. *)
Lemma EncodeFixed64_Decode p : slen p = 8 -> EncodeFixed64 (DecodeFixed64 p) = p.
Proof.
  unfold slen. intros H.
  unfold EncodeFixed64, DecodeFixed64, EncodeFixed64_on, DecodeFixed64_on.
  rewrite take_ge by lia. apply split_le_combine'. lia.
Qed.

Lemma EncodeFixed32_Decode p : slen p = 4 -> EncodeFixed32 (DecodeFixed32 p) = p.
Proof.
  unfold slen. intros H.
  unfold EncodeFixed32, DecodeFixed32, EncodeFixed32_on, DecodeFixed32_on.
  rewrite take_ge by lia. apply split_le_combine'. lia.
Qed.

Lemma GetFixed64_Put v rest : is_u64 v -> GetFixed64 (EncodeFixed64 v ++ rest) = Some (v, rest).
Proof.
  intros Hv. unfold GetFixed64. autorewrite with slices; snil.
  pose proof (slen_nonneg rest). zcase.
  by rewrite DecodeFixed64_Encode, sdrop_app.
Qed.

Lemma GetFixed32_Put v rest : is_u32 v -> GetFixed32 (EncodeFixed32 v ++ rest) = Some (v, rest).
Proof.
  intros Hv. unfold GetFixed32. autorewrite with slices; snil.
  pose proof (slen_nonneg rest). zcase.
  by rewrite DecodeFixed32_Encode, sdrop_app.
Qed.

Lemma GetFixed16_Put v rest : is_u16 v -> GetFixed16 (EncodeFixed16 v ++ rest) = Some (v, rest).
Proof.
  intros Hv. unfold GetFixed16. autorewrite with slices; snil.
  pose proof (slen_nonneg rest). zcase.
  by rewrite DecodeFixed16_Encode, sdrop_app.
Qed.

(** One byte of the little-endian split, as the big-endian branch writes it. *)
Lemma to_byte_land_255 v : to_byte (Z.land v 255) = to_byte v.
Proof. apply to_byte_mod. rewrite land_255. apply Z.mod_mod. lia. Qed.

Lemma le_split_cons n v : le_split (S n) v = to_byte v :: le_split n (Z.shiftr v 8).
Proof. reflexivity. Qed.

Lemma le_split_0 v : le_split 0 v = [].
Proof. reflexivity. Qed.

Lemma le_combine_cons b p : le_combine (b :: p) = Z.lor (ub b) (Z.shiftl (le_combine p) 8).
Proof. reflexivity. Qed.

Lemma encode_be_le v :
  EncodeFixed16_on false v = EncodeFixed16_on true v /\
  EncodeFixed32_on false v = EncodeFixed32_on true v /\
  EncodeFixed64_on false v = EncodeFixed64_on true v.
Proof.
  unfold EncodeFixed16_on, EncodeFixed32_on, EncodeFixed64_on.
  rewrite !le_split_cons, !le_split_0, !Z.shiftr_shiftr by lia.
  by rewrite !to_byte_land_255.
Qed.

(** Both decoders read the same number, also past the end of the list. *)
Lemma decode_at n p :
  le_combine (take (S n) p) = Z.lor (at_ p 0) (Z.shiftl (le_combine (take n (drop 1 p))) 8).
Proof.
  destruct p as [|b p]; [by rewrite drop_nil, !take_nil|].
  cbn [take]. rewrite le_combine_cons. reflexivity.
Qed.

Lemma at_drop p k i : at_ (drop k p) i = at_ p (k + i).
Proof. unfold at_. by rewrite lookup_drop. Qed.

Lemma decode_be_le p :
  DecodeFixed16_on false p = DecodeFixed16_on true p /\
  DecodeFixed32_on false p = DecodeFixed32_on true p.
Proof.
  unfold DecodeFixed16_on, DecodeFixed32_on.
  rewrite !decode_at, !drop_drop, !at_drop. cbn [Nat.add]. rewrite !take_0, !le_combine_nil.
  rewrite !Z.shiftl_0_l, !Z.lor_0_r, !Z.shiftl_lor, !Z.shiftl_shiftl by lia.
  by rewrite !Z.lor_assoc.
Qed.

Lemma decode64_be_le p : DecodeFixed64_on false p = DecodeFixed64_on true p.
Proof.
  unfold DecodeFixed64_on.
  destruct (decode_be_le p) as [_ ->]. destruct (decode_be_le (drop 4 p)) as [_ ->].
  unfold DecodeFixed32_on.
  rewrite !decode_at, !drop_drop, !at_drop. cbn [Nat.add]. rewrite !take_0, !le_combine_nil.
  rewrite !Z.shiftl_0_l, !Z.lor_0_r, !Z.shiftl_lor, !Z.shiftl_shiftl by lia.
  rewrite Z.lor_comm. by rewrite !Z.lor_assoc.
Qed.

(** ** Varint lemmas *)

Lemma land_128_byte b : (Z.land (ub b) 128 =? 0) = (ub b <? 128).
Proof. destruct b; reflexivity. Qed.

Lemma land_127_low b : ub b < 128 -> Z.land (ub b) 127 = ub b.
Proof. intros. rewrite land_127. apply Z.mod_small. pose proof (ub_range b). lia. Qed.

(** The byte the encoders write for a non-final group of seven bits. *)
Definition cont_byte (v : Z) : byte := to_byte (v mod 128 + 128).

Lemma cont_byte_loop v : to_byte (Z.lor (Z.land v (128 - 1)) 128) = cont_byte v.
Proof.
  unfold cont_byte. f_equal. change (128 - 1) with 127. rewrite land_127.
  change 128 with (Z.shiftl 1 7) at 2. rewrite lor_shiftl_add; [lia|lia|].
  apply Z.mod_pos_bound. lia.
Qed.

Lemma lor_128_mod v : Z.lor v 128 mod 256 = v mod 128 + 128.
Proof.
  replace (v mod 128 + 128) with (Z.lor (v mod 128) (Z.shiftl 1 7))
    by (rewrite lor_shiftl_add; [lia|lia|apply Z.mod_pos_bound; lia]).
  rewrite <- land_255, <- land_127. apply Z.bits_inj'. intros i Hi.
  rewrite !Z.land_spec, !Z.lor_spec, Z.land_spec.
  change 255 with (Z.ones 8). change 127 with (Z.ones 7). change 128 with (2 ^ 7).
  rewrite !Z.testbit_ones_nonneg by lia. change (Z.shiftl 1 7) with (2 ^ 7).
  rewrite !Z.pow2_bits_eqb by lia.
  repeat zcase; by destruct (Z.testbit v i).
Qed.

Lemma cont_byte_unrolled v : to_byte (Z.lor v 128) = cont_byte v.
Proof.
  unfold cont_byte. apply to_byte_mod. rewrite lor_128_mod.
  symmetry. apply Z.mod_small. pose proof (Z.mod_pos_bound v 128). lia.
Qed.

Lemma ub_cont_byte v : ub (cont_byte v) = v mod 128 + 128.
Proof. apply ub_to_byte. pose proof (Z.mod_pos_bound v 128). lia. Qed.

Lemma encode_loop_S fuel v :
  EncodeVarint64_loop (S fuel) v =
    if 128 <=? v then cont_byte v :: EncodeVarint64_loop fuel (v / 128) else [to_byte v].
Proof. cbn [EncodeVarint64_loop]. by rewrite cont_byte_loop, shiftr_div by lia. Qed.

(** The loop runs at most as often as the value has further groups of seven
    bits: more fuel does not change the result. *)
Lemma encode_varint_fuel n m v :
  v < 128 ^ (Z.of_nat n + 1) -> (n <= m)%nat ->
  EncodeVarint64_loop m v = EncodeVarint64_loop n v.
Proof.
  revert m v. induction n as [|n IH]; intros m v Hv Hm.
  - destruct m as [|m]; [done|]. rewrite encode_loop_S. cbn in Hv. by zcase.
  - destruct m as [|m]; [lia|]. rewrite !encode_loop_S. zcase; [|done].
    f_equal. apply IH; [|lia]. apply Z.div_lt_upper_bound; [lia|].
    replace (Z.of_nat (S n) + 1) with (1 + (Z.of_nat n + 1)) in Hv by lia.
    rewrite Z.pow_add_r in Hv by lia. lia.
Qed.

Lemma encode_loop_unfold n v :
  v < 128 ^ (Z.of_nat n + 1) ->
  EncodeVarint64_loop n v =
    if 128 <=? v then cont_byte v :: EncodeVarint64_loop (pred n) (v / 128) else [to_byte v].
Proof.
  intros Hv. destruct n as [|n]; [|apply encode_loop_S].
  cbn in Hv. cbn [EncodeVarint64_loop]. by zcase.
Qed.

(** The unrolled 32-bit encoder is the loop. *)
Lemma EncodeVarint32_loop v : is_u32 v -> EncodeVarint32 v = EncodeVarint64_loop 4 v.
Proof.
  intros [Hv0 Hv1]. unfold EncodeVarint32.
  change (Z.shiftl 1 7) with 128. change (Z.shiftl 1 14) with (128 * 128).
  change (Z.shiftl 1 21) with (128 * (128 * 128)).
  change (Z.shiftl 1 28) with (128 * (128 * (128 * 128))).
  rewrite !cont_byte_unrolled, !shiftr_div by lia.
  rewrite !encode_loop_S. cbn [EncodeVarint64_loop]. rewrite !Z.div_div by lia.
  change (2 ^ 7) with 128. change (2 ^ 14) with (128 * 128).
  change (2 ^ 21) with (128 * 128 * 128). change (2 ^ 28) with (128 * 128 * 128 * 128).
  repeat zcase; try done.
  all: exfalso; Z.div_mod_to_equations; lia.
Qed.

Lemma EncodeVarint32_64 v : is_u32 v -> EncodeVarint32 v = EncodeVarint64 v.
Proof.
  intros Hv. rewrite EncodeVarint32_loop by done. symmetry.
  apply encode_varint_fuel; [|lia]. unfold is_u32 in Hv. lia.
Qed.

Lemma encode_loop_length fuel v : 1 <= slen (EncodeVarint64_loop fuel v) <= Z.of_nat fuel + 1.
Proof.
  revert v. induction fuel as [|fuel IH]; intros v; [by cbn|].
  rewrite encode_loop_S. zcase; [|autorewrite with slices; snil; lia].
  rewrite slen_cons. specialize (IH (v / 128)). lia.
Qed.

Lemma VarintLength_loop_spec fuel v len :
  VarintLength_loop fuel v len = len - 1 + slen (EncodeVarint64_loop fuel v).
Proof.
  revert v len. induction fuel as [|fuel IH]; intros v len.
  { cbn [VarintLength_loop EncodeVarint64_loop]. autorewrite with slices; snil. lia. }
  rewrite encode_loop_S. cbn [VarintLength_loop]. rewrite shiftr_div by lia. zcase.
  - rewrite IH, slen_cons. change (2 ^ 7) with 128. lia.
  - autorewrite with slices; snil. lia.
Qed.

(** *** Decoding what was encoded *)

(** [last] is the last shift at which the decoder still reads a byte. *)
Definition varint_last (width last : Z) : Prop :=
  forall k, 0 <= k -> 7 * k < width -> 7 * k <= last.

Lemma varint_last_32 : varint_last 32 28.
Proof. intros k Hk H. lia. Qed.

Lemma varint_last_64 : varint_last 64 63.
Proof. intros k Hk H. lia. Qed.

Lemma get_loop_cons width last c p shift result :
  shift <= last ->
  GetVarint_loop width last (c :: p) shift result =
    if ub c <? 128
    then Some (Z.lor result (Z.shiftl (ub c) shift mod 2 ^ width), p)
    else GetVarint_loop width last p (shift + 7)
           (Z.lor result (Z.shiftl (ub c mod 128) shift mod 2 ^ width)).
Proof.
  intros H. cbn [GetVarint_loop]. rewrite land_128_byte, land_127.
  by destruct (Z.leb_spec shift last); [|lia]; destruct (ub c <? 128).
Qed.

Lemma get_encode_loop width last fuel : varint_last width last -> 0 <= width ->
  forall k v result rest,
    0 <= k -> 0 <= v < 128 ^ (Z.of_nat fuel + 1) ->
    0 <= result < 2 ^ (7 * k) -> v * 2 ^ (7 * k) < 2 ^ width -> 7 * k < width ->
    GetVarint_loop width last (EncodeVarint64_loop fuel v ++ rest) (7 * k) result
      = Some (result + v * 2 ^ (7 * k), rest).
Proof.
  intros Hlast Hw. induction fuel as [|fuel IH]; intros k v result rest Hk Hv Hr Hvk Hkw.
  all: rewrite encode_loop_unfold by lia; cbn [pred].
  all: assert (Hsmall : forall x, 0 <= x <= v ->
         Z.shiftl x (7 * k) mod 2 ^ width = Z.shiftl x (7 * k)).
  1,3: intros x Hx; apply Z.mod_small; rewrite Z.shiftl_mul_pow2 by lia;
       pose proof (pow2_pos (7 * k)); nia.
  - cbn in Hv. zcase. cbn [app]. rewrite get_loop_cons by (apply Hlast; lia).
    rewrite ub_to_byte by lia. zcase. rewrite Hsmall by lia.
    by rewrite lor_shiftl_add by lia.
  - zcase; cbn [app]; rewrite get_loop_cons by (apply Hlast; lia).
    2: { rewrite ub_to_byte by lia. zcase. rewrite Hsmall by lia.
         by rewrite lor_shiftl_add by lia. }
    pose proof (Z.mod_pos_bound v 128 eq_refl). rewrite ub_cont_byte. zcase.
    replace ((v mod 128 + 128) mod 128) with (v mod 128)
      by (rewrite <- Z.add_mod_idemp_r, Z.mod_same, Z.add_0_r, Z.mod_mod by lia; done).
    rewrite Hsmall by (split; [lia|apply Z.mod_le; lia]).
    rewrite lor_shiftl_add by lia.
    replace (7 * k + 7) with (7 * (k + 1)) by lia.
    pose proof (pow2_pos (7 * k)).
    assert (Hp : 2 ^ (7 * (k + 1)) = 2 ^ (7 * k) * 128)
      by (replace (7 * (k + 1)) with (7 * k + 7) by lia; rewrite Z.pow_add_r by lia; done).
    pose proof (Z.div_mod v 128). rewrite IH; rewrite ?Hp; [|lia| |nia|nia|].
    + f_equal. f_equal. nia.
    + split; [apply Z.div_pos; lia|]. apply Z.div_lt_upper_bound; [lia|].
      replace (Z.of_nat (S fuel) + 1) with (1 + (Z.of_nat fuel + 1)) in Hv by lia.
      rewrite Z.pow_add_r in Hv by lia. lia.
    + apply (Z.pow_lt_mono_r_iff 2); [lia|lia|]. rewrite Hp. nia.
Qed.

Lemma GetVarint32Ptr_fallback p : GetVarint32Ptr p = GetVarint32PtrFallback p.
Proof.
  unfold GetVarint32Ptr. destruct p as [|c p]; [done|].
  rewrite land_128_byte. unfold GetVarint32PtrFallback.
  rewrite get_loop_cons by lia. zcase; [|done].
  pose proof (ub_range c). rewrite Z.shiftl_0_r, Z.lor_0_l, Z.mod_small by lia. done.
Qed.

Lemma GetVarint32_Encode v rest : is_u32 v -> GetVarint32 (EncodeVarint32 v ++ rest) = Some (v, rest).
Proof.
  intros Hv. unfold GetVarint32. rewrite GetVarint32Ptr_fallback, EncodeVarint32_loop by done.
  unfold GetVarint32PtrFallback. unfold is_u32 in Hv.
  rewrite (get_encode_loop 32 28 4 varint_last_32 ltac:(lia) 0); [|lia..].
  by rewrite Z.mul_1_r.
Qed.

Lemma GetVarint64_Encode v rest : is_u64 v -> GetVarint64 (EncodeVarint64 v ++ rest) = Some (v, rest).
Proof.
  intros Hv. unfold GetVarint64, GetVarint64Ptr, EncodeVarint64. unfold is_u64 in Hv.
  rewrite (get_encode_loop 64 63 9 varint_last_64 ltac:(lia) 0); [|lia..].
  by rewrite Z.mul_1_r.
Qed.

(** The decoders never return more than the width of their result and never
    consume more than one byte per shift. *)
Lemma get_loop_safe width last p shift result v rest :
  0 <= width -> 0 <= result < 2 ^ width -> shift <= last + 7 ->
  GetVarint_loop width last p shift result = Some (v, rest) ->
  0 <= v < 2 ^ width /\
  exists used, p = used ++ rest /\ 1 <= slen used /\ shift + 7 * (slen used - 1) <= last.
Proof.
  intros Hw. revert shift result.
  induction p as [|c p IH]; intros shift result Hr Hs H; [done|].
  destruct (Z.le_gt_cases shift last) as [Hle|Hgt].
  2: { cbn [GetVarint_loop] in H. zcase_in H. done. }
  rewrite get_loop_cons in H by lia.
  assert (Hm : forall x, 0 <= Z.lor result (x mod 2 ^ width) < 2 ^ width).
  { intros x. apply lor_lt; [lia|lia|]. apply Z.mod_pos_bound. by apply pow2_pos. }
  zcase_in H.
  - injection H as <- <-. split; [apply Hm|]. exists [c]. autorewrite with slices; snil. split; [done|]. lia.
  - apply IH in H as (Hv & used & -> & H1 & H2); [|apply Hm|lia].
    split; [done|]. exists (c :: used). rewrite slen_cons. split; [done|]. lia.
Qed.

Lemma GetVarint32_safe input v rest :
  GetVarint32 input = Some (v, rest) ->
  is_u32 v /\ exists used, input = used ++ rest /\ 1 <= slen used <= 5.
Proof.
  unfold GetVarint32. rewrite GetVarint32Ptr_fallback. intros H.
  apply get_loop_safe in H as (Hv & used & -> & H1 & H2); [|lia..].
  split; [exact Hv|]. exists used. split; [done|]. lia.
Qed.

Lemma GetVarint64_safe input v rest :
  GetVarint64 input = Some (v, rest) ->
  is_u64 v /\ exists used, input = used ++ rest /\ 1 <= slen used <= 10.
Proof.
  intros H. apply get_loop_safe in H as (Hv & used & -> & H1 & H2); [|lia..].
  split; [exact Hv|]. exists used. split; [done|]. lia.
Qed.

(** ** Zigzag lemmas *)

Lemma lxor_ones_sub x n : 0 <= n -> 0 <= x < 2 ^ n -> Z.lxor x (Z.ones n) = 2 ^ n - 1 - x.
Proof.
  intros Hn Hx. replace (2 ^ n - 1) with (Z.ones n) by (rewrite Z.ones_equiv; lia).
  rewrite Z.sub_nocarry_ldiff.
  - apply Z.bits_inj'. intros i Hi. rewrite Z.lxor_spec, Z.ldiff_spec.
    rewrite Z.testbit_ones_nonneg by lia.
    destruct (Z.ltb_spec i n); [by destruct (Z.testbit x i)|].
    by rewrite (testbit_small x n i) by lia.
  - apply Z.bits_inj'. intros i Hi. rewrite Z.ldiff_spec, Z.bits_0.
    rewrite Z.testbit_ones_nonneg by lia.
    destruct (Z.ltb_spec i n); [by destruct (Z.testbit x i)|].
    by rewrite (testbit_small x n i) by lia.
Qed.

Lemma i64ToZigzag_val l :
  is_s64 l -> i64ToZigzag l = if l <? 0 then - 2 * l - 1 else 2 * l.
Proof.
  unfold is_s64, i64ToZigzag, u64. intros Hl. rewrite shiftr_div by lia.
  rewrite Z.shiftl_mul_pow2 by lia. zcase.
  - replace (l mod 2 ^ 64) with (l + 2 ^ 64)
      by (rewrite <- (Z.mod_add _ 1), Z.mod_small by lia; lia).
    replace (l / 2 ^ 63) with (-1) by (Z.div_mod_to_equations; lia).
    change ((-1) mod 2 ^ 64) with (Z.ones 64).
    replace ((l + 2 ^ 64) * 2 ^ 1 mod 2 ^ 64) with (2 * l + 2 ^ 64)
      by (rewrite <- (Z.mod_add _ (-1)), Z.mod_small by lia; lia).
    rewrite lxor_ones_sub; lia.
  - rewrite (Z.mod_small l) by lia. rewrite (Z.div_small l) by lia.
    rewrite Z.lxor_0_r, Z.mod_small; lia.
Qed.

Lemma i64ToZigzag_range l : is_s64 l -> is_u64 (i64ToZigzag l).
Proof.
  intros Hl. rewrite i64ToZigzag_val by done. unfold is_s64, is_u64 in *. zcase.
Qed.

Lemma zigzag_inverse l : is_s64 l -> zigzagToI64 (i64ToZigzag l) = l.
Proof.
  intros Hl. rewrite i64ToZigzag_val by done. unfold zigzagToI64. unfold is_s64 in Hl.
  rewrite shiftr_div by lia. rewrite (land_ones_mod _ 1) by lia. zcase.
  - replace ((-2 * l - 1) mod 2 ^ 1) with 1 by (Z.div_mod_to_equations; lia).
    replace ((-2 * l - 1) / 2 ^ 1) with (- l - 1) by (Z.div_mod_to_equations; lia).
    change (u64 (- (1))) with (Z.ones 64). rewrite lxor_ones_sub by lia.
    unfold s64. rewrite <- (Z.mod_add _ (-1)), Z.mod_small by lia. lia.
  - replace (2 * l mod 2 ^ 1) with 0 by (Z.div_mod_to_equations; lia).
    replace (2 * l / 2 ^ 1) with l by (Z.div_mod_to_equations; lia).
    rewrite Z.lxor_0_r. by apply s64_id.
Qed.

(** ** Length-prefixed slices *)

Lemma PutLengthPrefixedSlice_app dst value :
  PutLengthPrefixedSlice dst value = dst ++ PutLengthPrefixedSlice [] value.
Proof. unfold PutLengthPrefixedSlice, PutVarint32. by rewrite <- app_assoc. Qed.

Lemma GetLengthPrefixedSlice_Put value rest :
  is_u32 (slen value) ->
  GetLengthPrefixedSlice (PutLengthPrefixedSlice [] value ++ rest) = Some (value, rest).
Proof.
  intros Hv. unfold GetLengthPrefixedSlice, PutLengthPrefixedSlice, PutVarint32.
  rewrite app_nil_l, <- app_assoc, u32_id, GetVarint32_Encode by done.
  rewrite slen_app. pose proof (slen_nonneg rest). zcase.
  by rewrite stake_app, sdrop_app.
Qed.

Lemma GetLengthPrefixedSlice_safe input value rest :
  GetLengthPrefixedSlice input = Some (value, rest) ->
  is_u32 (slen value) /\
  exists used, input = used ++ value ++ rest /\ 1 <= slen used <= 5.
Proof.
  unfold GetLengthPrefixedSlice. destruct (GetVarint32 input) as [[len p]|] eqn:E; [|done].
  apply GetVarint32_safe in E as (Hlen & used & -> & Hu).
  zcase; [|done]. intros [= <- <-]. unfold is_u32 in *.
  rewrite slen_stake by lia. split; [done|].
  exists used. by rewrite stake_sdrop.
Qed.

Lemma parts_size_spec total parts : parts_size total parts = total + slen (concat parts).
Proof.
  unfold parts_size. revert total. induction parts as [|p parts IH]; intros total; cbn.
  - snil. lia.
  - rewrite IH, slen_app. lia.
Qed.

Lemma fold_append dst (parts : list bytes) : fold_left (fun d p => d ++ p) parts dst = dst ++ concat parts.
Proof.
  revert dst. induction parts as [|p parts IH]; intros dst; cbn.
  - by rewrite app_nil_r.
  - by rewrite IH, app_assoc.
Qed.

(** The virtually concatenated parts are encoded as their concatenation. *)
Lemma PutLengthPrefixedSliceParts_concat dst parts :
  PutLengthPrefixedSliceParts dst parts = PutLengthPrefixedSlice dst (concat parts).
Proof.
  unfold PutLengthPrefixedSliceParts, PutLengthPrefixedSlicePartsFrom, PutLengthPrefixedSlice.
  by rewrite fold_append, parts_size_spec.
Qed.

Lemma PutLengthPrefixedSlicePartsWithPadding_concat dst parts pad :
  0 <= pad ->
  PutLengthPrefixedSlicePartsWithPadding dst parts pad
    = PutLengthPrefixedSlice dst (concat parts ++ replicate (Z.to_nat pad) (to_byte 0)).
Proof.
  intros Hp. unfold PutLengthPrefixedSlicePartsWithPadding,
    PutLengthPrefixedSlicePartsFrom, PutLengthPrefixedSlice.
  rewrite fold_append, parts_size_spec, slen_app, slen_replicate, Z2Nat.id by done.
  rewrite <- app_assoc. by rewrite (Z.add_comm (slen _)).
Qed.

Lemma GetSliceUntil_spec slice d ret rest :
  GetSliceUntil slice d = (ret, rest) ->
  (d ∉ ret) /\ (slice = ret ++ d :: rest \/ (slice = ret /\ rest = [])).
Proof.
  revert ret rest. induction slice as [|c slice IH]; intros ret rest; cbn.
  - intros [= <- <-]. split; [by apply not_elem_of_nil|]. by right.
  - case_decide as Hc.
    + intros [= <- <-]. subst. split; [by apply not_elem_of_nil|]. by left.
    + destruct (GetSliceUntil slice d) as [r q] eqn:E. intros [= <- <-].
      destruct (IH r q eq_refl) as [Hnot Hcase]. split.
      * intros [->|Hin]%elem_of_cons; by auto.
      * destruct Hcase as [->|[-> ->]]; by auto.
Qed.

(** ** Properties *)

(** Encoding is independent of the machine's byte order: on a
    little-endian machine, where the routines copy memory, and on a big-endian
    one, where they move single bytes, the fixed-width encoders write the same
    bytes and the decoders read the same numbers. *)
Theorem fixed_endianness (v : Z) (p : bytes) (b : bool) :
  EncodeFixed16_on b v = EncodeFixed16 v /\
  EncodeFixed32_on b v = EncodeFixed32 v /\
  EncodeFixed64_on b v = EncodeFixed64 v /\
  DecodeFixed16_on b p = DecodeFixed16 p /\
  DecodeFixed32_on b p = DecodeFixed32 p /\
  DecodeFixed64_on b p = DecodeFixed64 p.
Proof.
  destruct b; [done|]. unfold EncodeFixed16, EncodeFixed32, EncodeFixed64,
    DecodeFixed16, DecodeFixed32, DecodeFixed64.
  destruct (encode_be_le v) as (-> & -> & ->). destruct (decode_be_le p) as (-> & ->).
  by rewrite decode64_be_le.
Qed.

(** Varint round trip: what the unrolled 32-bit encoder, the 64-bit loop
    and the signed (zigzag) encoder write is read back exactly, in front of
    any further bytes, which are left untouched. *)
Theorem varint_roundtrip (v : Z) (dst rest : bytes) :
  (is_u32 v -> PutVarint32 dst v = dst ++ EncodeVarint32 v /\
               GetVarint32 (EncodeVarint32 v ++ rest) = Some (v, rest)) /\
  (is_u64 v -> PutVarint64 dst v = dst ++ EncodeVarint64 v /\
               GetVarint64 (EncodeVarint64 v ++ rest) = Some (v, rest)) /\
  (is_s64 v -> GetVarsignedint64 (PutVarsignedint64 [] v ++ rest) = Some (v, rest)).
Proof.
  split; [|split]; intros Hv; [by rewrite GetVarint32_Encode|by rewrite GetVarint64_Encode|].
  unfold GetVarsignedint64, PutVarsignedint64. rewrite app_nil_l.
  pose proof (GetVarint64_Encode _ rest (i64ToZigzag_range v Hv)) as E.
  unfold GetVarint64 in E. by rewrite E, zigzag_inverse.
Qed.

Lemma varint_roundtrip_witness :
  is_u32 300 /\ GetVarint32 (EncodeVarint32 300 ++ [Byte.x07]) = Some (300, [Byte.x07]) /\
  GetVarsignedint64 (PutVarsignedint64 [] (-5) ++ []) = Some (-5, []).
Proof.
  assert (H : is_u32 300) by (unfold is_u32; lia).
  assert (Hs : is_s64 (-5)) by (unfold is_s64; lia).
  split; [exact H|]. split.
  - exact (proj2 (proj1 (varint_roundtrip 300 [] [Byte.x07]) H)).
  - exact (proj2 (proj2 (varint_roundtrip (-5) [] [])) Hs).
Defined.

(** The encoders fit the buffers the code gives them: the unrolled 32-bit
    encoder writes what the 64-bit loop writes, at most 5 bytes; the loop
    writes [VarintLength(v)] bytes, at most [kMaxVarint64Length]. *)
Theorem varint_length_bound (v : Z) :
  is_u64 v ->
  slen (EncodeVarint64 v) = VarintLength v /\
  1 <= VarintLength v <= kMaxVarint64Length /\
  (is_u32 v -> EncodeVarint32 v = EncodeVarint64 v /\ VarintLength v <= 5).
Proof.
  intros Hv. unfold VarintLength. rewrite VarintLength_loop_spec.
  fold (EncodeVarint64 v). pose proof (encode_loop_length 9 v) as H9.
  fold (EncodeVarint64 v) in H9. split; [lia|]. split; [unfold kMaxVarint64Length; lia|].
  intros H32. rewrite <- EncodeVarint32_64 by done. split; [done|].
  rewrite EncodeVarint32_loop by done. pose proof (encode_loop_length 4 v). lia.
Qed.

Lemma varint_length_bound_witness :
  is_u64 (2 ^ 64 - 1) /\ slen (EncodeVarint64 (2 ^ 64 - 1)) = VarintLength (2 ^ 64 - 1).
Proof.
  assert (H : is_u64 (2 ^ 64 - 1)) by (unfold is_u64; lia).
  split; [exact H|]. exact (proj1 (varint_length_bound (2 ^ 64 - 1) H)).
Defined.

(** The varint and length-prefixed decoders are memory safe on arbitrary
    input: a value they return fits its type, and what they leave is the input
    without a prefix of at most 5 (10 for 64 bits) length bytes and, for a
    slice, the slice itself. *)
Theorem decoders_safe (input : bytes) :
  (forall v rest, GetVarint32 input = Some (v, rest) ->
     is_u32 v /\ exists used, input = used ++ rest /\ 1 <= slen used <= 5) /\
  (forall v rest, GetVarint64 input = Some (v, rest) ->
     is_u64 v /\ exists used, input = used ++ rest /\ 1 <= slen used <= 10) /\
  (forall value rest, GetLengthPrefixedSlice input = Some (value, rest) ->
     is_u32 (slen value) /\
     exists used, input = used ++ value ++ rest /\ 1 <= slen used <= 5).
Proof.
  split; [|split]; intros.
  - by apply GetVarint32_safe.
  - by apply GetVarint64_safe.
  - by apply GetLengthPrefixedSlice_safe.
Qed.

Lemma decoders_safe_witness :
  GetLengthPrefixedSlice [Byte.x01; Byte.x41; Byte.x42] = Some ([Byte.x41], [Byte.x42]) /\
  is_u32 (slen [Byte.x41]).
Proof.
  assert (E : GetLengthPrefixedSlice [Byte.x01; Byte.x41; Byte.x42] = Some ([Byte.x41], [Byte.x42]))
    by reflexivity.
  split; [exact E|].
  exact (proj1 (proj2 (proj2 (decoders_safe [Byte.x01; Byte.x41; Byte.x42])) _ _ E)).
Defined.

(** Length-prefixed round trip: a slice shorter than 2^32 bytes is read
    back exactly, and writing it as several [SliceParts], with or without
    trailing zero padding, writes the encoding of the concatenation. *)
Theorem length_prefixed_roundtrip (parts : list bytes) (pad : Z) (dst rest : bytes) :
  0 <= pad -> slen (concat parts) + pad < 2 ^ 32 ->
  PutLengthPrefixedSliceParts dst parts = PutLengthPrefixedSlice dst (concat parts) /\
  GetLengthPrefixedSlice (PutLengthPrefixedSliceParts [] parts ++ rest) = Some (concat parts, rest) /\
  GetLengthPrefixedSlice (PutLengthPrefixedSlicePartsWithPadding [] parts pad ++ rest)
    = Some (concat parts ++ replicate (Z.to_nat pad) (to_byte 0), rest).
Proof.
  intros Hpad Hlen. pose proof (slen_nonneg (concat parts)).
  rewrite PutLengthPrefixedSliceParts_concat,
    PutLengthPrefixedSlicePartsWithPadding_concat by done.
  split; [done|]. split.
  - rewrite PutLengthPrefixedSliceParts_concat. apply GetLengthPrefixedSlice_Put.
    unfold is_u32. lia.
  - apply GetLengthPrefixedSlice_Put. unfold is_u32.
    rewrite slen_app, slen_replicate, Z2Nat.id; lia.
Qed.

Lemma length_prefixed_roundtrip_witness :
  GetLengthPrefixedSlice (PutLengthPrefixedSliceParts [] [[Byte.x61]; [Byte.x62; Byte.x63]] ++ [Byte.xff])
    = Some ([Byte.x61; Byte.x62; Byte.x63], [Byte.xff]).
Proof.
  refine (proj1 (proj2 (length_prefixed_roundtrip
    [[Byte.x61]; [Byte.x62; Byte.x63]] 0 [] [Byte.xff] _ _))); vm_compute; congruence.
Defined.
