(* ===== verification/Slice.v ===== *)
(** * Slices: comparison, prefixes and hexadecimal text

    Models the read-only operations of [Slice] (include/rocksdb/slice.h), the
    hexadecimal conversions and the concatenation of [SliceParts] in
    util/slice.cc. *)

From S2P Require Import Prelude Coding.

(** ** Operations *)

(** The C library's [memcmp(a, b, n)]: the order of the first pair of bytes
    that differ, as -1, 0 or 1. The code only uses the sign. *)
Fixpoint memcmp (a b : bytes) (n : nat) : Z :=
  match n, a, b with
  | S n', x :: a', y :: b' =>
      if ub x <? ub y then -1
      else if ub y <? ub x then 1
      else memcmp a' b' n'
  | _, _, _ => 0
  end.

Definition compare (a b : bytes) : Z :=
  let min_len := if slen a <? slen b then slen a else slen b in
  let r := memcmp a b (Z.to_nat min_len) in
  if r =? 0 then
    if slen a <? slen b then -1
    else if slen b <? slen a then 1 else r
  else r.

Definition equal (x y : bytes) : bool :=
  (slen x =? slen y) && (memcmp x y (length x) =? 0).

Definition starts_with (s x : bytes) : bool :=
  (slen x <=? slen s) && (memcmp s x (length x) =? 0).

Definition ends_with (s x : bytes) : bool :=
  (slen x <=? slen s) && (memcmp (sdrop (slen s - slen x) s) x (length x) =? 0).

(** The [for (; off < len; off++)] loop: the recursion is on the two buffers,
    and stops at the shorter length. *)
Fixpoint difference_offset_from (a b : bytes) (off : Z) : Z :=
  match a, b with
  | x :: a', y :: b' => if decide (x = y) then difference_offset_from a' b' (off + 1) else off
  | _, _ => off
  end.

Definition difference_offset (a b : bytes) : Z := difference_offset_from a b 0.

Definition remove_prefix (s : bytes) (n : Z) : bytes := sdrop n s.
Definition remove_suffix (s : bytes) (n : Z) : bytes := stake (slen s - n) s.

(** [Slice(const SliceParts&, std::string* buf)]. *)
Definition slice_of_parts (parts : list bytes) (buf : bytes) : bytes :=
  fold_left (fun b p => b ++ p) parts buf.

(** The ASCII codes the hexadecimal routines compute with. *)
Definition toHex (v : Z) : byte :=
  if v <=? 9 then to_byte (48 + v) else to_byte (65 + v - 10).

(** [char] is signed here, as on x86: bytes above 0x7f are negative. *)
Definition char_of (b : byte) : Z := if ub b <? 128 then ub b else ub b - 256.

Definition fromHex (ch : byte) : Z :=
  let c := char_of ch in
  let c := if (97 <=? c) && (c <=? 102) then c - (97 - 65) else c in
  if (c <? 48) || ((57 <? c) && ((c <? 65) || (70 <? c))) then -1
  else if c <=? 57 then c - 48
  else c - 65 + 10.

Fixpoint hex_of (s : bytes) : bytes :=
  match s with
  | [] => []
  | b :: s' => toHex (Z.shiftr (ub b) 4) :: toHex (Z.land (ub b) 15) :: hex_of s'
  end.

Definition ToString (hex : bool) (s : bytes) : bytes := if hex then hex_of s else s.

(** The decoding loop reads two digits per iteration. *)
Fixpoint DecodeHex_loop (s result : bytes) : option bytes :=
  match s with
  | c1 :: c2 :: s' =>
      let h1 := fromHex c1 in
      if h1 <? 0 then None
      else let h2 := fromHex c2 in
           if h2 <? 0 then None
           else DecodeHex_loop s' (result ++ [to_byte (Z.lor (Z.shiftl h1 4) h2)])
  | _ => Some result
  end.

Definition DecodeHex (s : bytes) : option bytes :=
  if negb (slen s mod 2 =? 0) then None else DecodeHex_loop s [].

(** ** The lexicographic order *)

(** A reference definition of the order on byte strings. *)
Fixpoint lex (a b : bytes) : Z :=
  match a, b with
  | [], [] => 0
  | [], _ :: _ => -1
  | _ :: _, [] => 1
  | x :: a', y :: b' =>
      if ub x <? ub y then -1 else if ub y <? ub x then 1 else lex a' b'
  end.

Lemma ub_inj x y : ub x = ub y -> x = y.
Proof. apply byte.unsigned_inj. Qed.

Lemma compare_cons x a y b :
  compare (x :: a) (y :: b) =
    if ub x <? ub y then -1 else if ub y <? ub x then 1 else compare a b.
Proof.
  unfold compare. rewrite !slen_cons.
  pose proof (slen_nonneg a). pose proof (slen_nonneg b).
  replace (1 + slen a <? 1 + slen b) with (slen a <? slen b)
    by (destruct (Z.ltb_spec (slen a) (slen b)), (Z.ltb_spec (1 + slen a) (1 + slen b)); lia).
  replace (1 + slen b <? 1 + slen a) with (slen b <? slen a)
    by (destruct (Z.ltb_spec (slen b) (slen a)), (Z.ltb_spec (1 + slen b) (1 + slen a)); lia).
  assert (E : Z.to_nat (if slen a <? slen b then 1 + slen a else 1 + slen b)
            = S (Z.to_nat (if slen a <? slen b then slen a else slen b)))
    by (destruct (slen a <? slen b); lia).
  rewrite E. cbn [memcmp].
  by destruct (ub x <? ub y); [|destruct (ub y <? ub x)].
Qed.

Lemma compare_lex a b : compare a b = lex a b.
Proof.
  revert b. induction a as [|x a IH]; intros [|y b].
  - reflexivity.
  - unfold compare. rewrite slen_cons; snil. pose proof (slen_nonneg b). by repeat zcase.
  - unfold compare. rewrite slen_cons; snil. pose proof (slen_nonneg a). by repeat zcase.
  - rewrite compare_cons. cbn [lex]. by rewrite IH.
Qed.

Lemma lex_range a b : -1 <= lex a b <= 1.
Proof. revert b. induction a as [|x a IH]; intros [|y b]; cbn; repeat zcase; [lia..|]. apply IH. Qed.

Lemma lex_refl a : lex a a = 0.
Proof. induction a; cbn; [done|]. by repeat zcase. Qed.

Lemma lex_eq a b : lex a b = 0 -> a = b.
Proof.
  revert b. induction a as [|x a IH]; intros [|y b]; cbn; try done.
  repeat zcase. intros Heq%IH. subst. f_equal. apply ub_inj. lia.
Qed.

Lemma lex_opp a b : lex b a = - lex a b.
Proof.
  revert b. induction a as [|x a IH]; intros [|y b]; cbn; try done.
  repeat zcase. apply IH.
Qed.

Lemma lex_trans a b c : lex a b <= 0 -> lex b c <= 0 -> lex a c <= 0.
Proof.
  revert b c. induction a as [|x a IH]; intros [|y b] [|z c]; cbn; try lia.
  repeat zcase. intros. by eapply IH.
Qed.

(** A common prefix does not matter. *)
Lemma lex_app p a b : lex (p ++ a) (p ++ b) = lex a b.
Proof. induction p as [|x p IH]; cbn; [done|]. by repeat zcase. Qed.

(** The first differing byte decides. *)
Lemma lex_diff p x a y b : ub x < ub y -> lex (p ++ x :: a) (p ++ y :: b) = -1.
Proof. intros. rewrite lex_app. cbn. by zcase. Qed.

(** A string is not above its extensions. *)
Lemma lex_prefix p a : lex p (p ++ a) <= 0.
Proof. rewrite <- (app_nil_r p) at 1. rewrite lex_app. by destruct a. Qed.

Lemma lex_nil_l a : lex [] a <= 0.
Proof. by destruct a. Qed.

(** ** memcmp, equality and prefixes *)

Lemma memcmp_0 a b n :
  (n <= length a)%nat -> (n <= length b)%nat -> memcmp a b n = 0 <-> take n a = take n b.
Proof.
  revert a b. induction n as [|n IH]; intros [|x a] [|y b]; cbn; try (split; by intros); try lia.
  intros Ha Hb. specialize (IH a b ltac:(lia) ltac:(lia)). repeat zcase.
  - split; [done|]. intros [= ->]. lia.
  - split; [done|]. intros [= ->]. lia.
  - assert (x = y) as -> by (apply ub_inj; lia). rewrite IH. split; [by intros ->|by intros [=]].
Qed.

Lemma equal_spec x y : equal x y = true <-> x = y.
Proof.
  unfold equal. split.
  - intros [Hl Hm]%andb_true_iff. apply Z.eqb_eq in Hl, Hm. unfold slen in Hl.
    apply memcmp_0 in Hm; [|lia..]. by rewrite take_ge, take_ge in Hm by lia.
  - intros ->. rewrite Z.eqb_refl. cbn. apply Z.eqb_eq. by apply memcmp_0.
Qed.

Lemma starts_with_spec s x : starts_with s x = true <-> exists t, s = x ++ t.
Proof.
  unfold starts_with. split.
  - intros [Hl Hm]%andb_true_iff. apply Z.leb_le in Hl. apply Z.eqb_eq in Hm.
    unfold slen in Hl. apply memcmp_0 in Hm; [|lia..]. rewrite (take_ge x) in Hm by lia.
    exists (drop (length x) s). by rewrite <- Hm at 1; rewrite take_drop.
  - intros [t ->]. rewrite slen_app. pose proof (slen_nonneg t). zcase. cbn.
    apply Z.eqb_eq, memcmp_0; [rewrite length_app; lia|done|].
    by rewrite take_app_length, take_ge.
Qed.

Lemma ends_with_spec s x : ends_with s x = true <-> exists t, s = t ++ x.
Proof.
  unfold ends_with. split.
  - intros [Hl Hm]%andb_true_iff. apply Z.leb_le in Hl. apply Z.eqb_eq in Hm.
    pose proof (slen_nonneg x).
    assert (Hd : length (sdrop (slen s - slen x) s) = length x)
      by (apply Nat2Z.inj; fold (slen (sdrop (slen s - slen x) s)); rewrite slen_sdrop;
          unfold slen in *; lia).
    apply memcmp_0 in Hm; [|lia..].
    rewrite take_ge, take_ge in Hm by lia. exists (stake (slen s - slen x) s).
    rewrite <- (stake_sdrop (slen s - slen x) s) at 1. by rewrite Hm.
  - intros [t ->]. rewrite slen_app. pose proof (slen_nonneg t). zcase. cbn.
    rewrite sdrop_app by lia. apply Z.eqb_eq. by apply memcmp_0.
Qed.

(** ** The first difference *)

Lemma difference_offset_acc a b off : difference_offset_from a b off = off + difference_offset a b.
Proof.
  unfold difference_offset. revert b off.
  induction a as [|x a IH]; intros [|y b] off; cbn; try lia.
  case_decide; [|lia]. rewrite (IH b (off + 1)), (IH b (0 + 1)). lia.
Qed.

(** Splitting two strings at the first byte where they differ. *)
Lemma difference_offset_spec a b :
  exists p a' b', a = p ++ a' /\ b = p ++ b' /\ slen p = difference_offset a b /\
    match a', b' with x :: _, y :: _ => x <> y | _, _ => True end.
Proof.
  revert b. induction a as [|x a IH]; intros b.
  - exists [], [], b. by destruct b.
  - destruct b as [|y b]; [by exists [], (x :: a), []|].
    unfold difference_offset. cbn [difference_offset_from].
    case_decide as Hxy.
    + subst. destruct (IH b) as (p & a' & b' & -> & -> & Hp & Hd).
      exists (y :: p), a', b'. rewrite slen_cons, Hp, difference_offset_acc.
      split; [done|]. split; [done|]. split; [lia|done].
    + by exists [], (x :: a), (y :: b).
Qed.

(** ** Hexadecimal *)

Lemma fromHex_toHex_hi b : fromHex (toHex (Z.shiftr (ub b) 4)) = Z.shiftr (ub b) 4.
Proof. destruct b; reflexivity. Qed.

Lemma fromHex_toHex_lo b : fromHex (toHex (Z.land (ub b) 15)) = Z.land (ub b) 15.
Proof. destruct b; reflexivity. Qed.

Lemma hex_nibbles b :
  to_byte (Z.lor (Z.shiftl (Z.shiftr (ub b) 4) 4) (Z.land (ub b) 15)) = b.
Proof. destruct b; reflexivity. Qed.

Lemma slen_hex_of s : slen (hex_of s) = 2 * slen s.
Proof. induction s as [|b s IH]; [done|]. cbn [hex_of]. rewrite !slen_cons, IH. lia. Qed.

Lemma DecodeHex_loop_hex s result : DecodeHex_loop (hex_of s) result = Some (result ++ s).
Proof.
  revert result. induction s as [|b s IH]; intros result; cbn [hex_of DecodeHex_loop].
  - by rewrite app_nil_r.
  - rewrite fromHex_toHex_hi, fromHex_toHex_lo, hex_nibbles, IH, <- app_assoc.
    pose proof (ub_range b). repeat zcase; [exfalso|exfalso|done].
    + pose proof (proj2 (Z.shiftr_nonneg (ub b) 4)). lia.
    + rewrite (land_ones_mod _ 4) in * by lia. pose proof (Z.mod_pos_bound (ub b) (2 ^ 4)). lia.
Qed.

(** ** Properties *)

(** [Slice::compare] is the lexicographic order of unsigned bytes, it is a
    total order whose equality is equality of contents, [operator==] decides
    that equality, and [starts_with]/[ends_with] decide prefix and suffix. *)
Theorem slice_order (a b c : bytes) :
  compare a b = lex a b /\
  (compare a b = 0 <-> a = b) /\ (equal a b = true <-> a = b) /\
  compare b a = - compare a b /\
  (compare a b <= 0 -> compare b c <= 0 -> compare a c <= 0) /\
  (starts_with a b = true <-> exists t, a = b ++ t) /\
  (ends_with a b = true <-> exists t, a = t ++ b).
Proof.
  rewrite !compare_lex.
  split; [done|]. split; [split; [apply lex_eq|intros ->; apply lex_refl]|].
  split; [apply equal_spec|]. split; [apply lex_opp|]. split; [apply lex_trans|].
  split; [apply starts_with_spec|apply ends_with_spec].
Qed.

Lemma slice_order_witness :
  compare [Byte.x61] [Byte.x61; Byte.x00] <= 0 /\ compare [Byte.x61; Byte.x00] [Byte.xff] <= 0 /\
  compare [Byte.x61] [Byte.xff] <= 0.
Proof.
  assert (H1 : compare [Byte.x61] [Byte.x61; Byte.x00] <= 0) by (vm_compute; congruence).
  assert (H2 : compare [Byte.x61; Byte.x00] [Byte.xff] <= 0) by (vm_compute; congruence).
  split; [exact H1|]. split; [exact H2|].
  exact (proj1 (proj2 (proj2 (proj2 (proj2
    (slice_order [Byte.x61] [Byte.x61; Byte.x00] [Byte.xff]))))) H1 H2).
Defined.

(** Hexadecimal round trip: [ToString(true)] gives two digits per byte and
    [DecodeHex] reads them back; a string of odd length is rejected. *)
Theorem hex_roundtrip (s : bytes) (c : byte) :
  slen (ToString true s) = 2 * slen s /\
  DecodeHex (ToString true s) = Some s /\
  DecodeHex (c :: ToString true s) = None.
Proof.
  cbn [ToString]. unfold DecodeHex. rewrite slen_cons, slen_hex_of.
  split; [done|]. rewrite DecodeHex_loop_hex, app_nil_l.
  replace ((2 * slen s) mod 2) with 0 by (Z.div_mod_to_equations; lia).
  replace ((1 + 2 * slen s) mod 2) with 1 by (Z.div_mod_to_equations; lia).
  done.
Qed.
