(* ===== verification/Comparator.v ===== *)
(** * Comparators over user keys

    Models the built-in comparators of util/comparator.cc behind the interface
    of include/rocksdb/comparator.h. [Comparator] is the record of the virtual
    methods, [ComparatorOk] the contract the interface documents; the internal
    key layer is proved against that contract. *)

From S2P Require Import Prelude Coding Slice.

(** ** Slicing a user key (db/dbformat.h) *)

Definition StripTimestampFromUserKey (user_key : bytes) (ts_sz : Z) : bytes :=
  remove_suffix user_key ts_sz.

Definition ExtractTimestampFromUserKey (user_key : bytes) (ts_sz : Z) : bytes :=
  sdrop (slen user_key - ts_sz) user_key.

(** ** The interface *)

Record Comparator := {
  Compare : bytes -> bytes -> Z;
  Equal : bytes -> bytes -> bool;
  FindShortestSeparator : bytes -> bytes -> bytes;
  FindShortSuccessor : bytes -> bytes;
  IsSameLengthImmediateSuccessor : bytes -> bytes -> bool;
  CanKeysWithDifferentByteContentsBeEqual : bool;
  timestamp_size : Z;
  CompareTimestamp : bytes -> bytes -> Z;
  (** keys [a] and [b], each with a flag that tells whether it carries a
      timestamp. *)
  CompareWithoutTimestamp : bytes -> bool -> bytes -> bool -> Z;
  EqualWithoutTimestamp : bytes -> bytes -> bool
}.

(** The documented contract: [Compare] is a total preorder given by its sign,
    [Equal] is its equality, the two shortening functions stay in their
    interval. *)
Class ComparatorOk (c : Comparator) : Prop := {
  Compare_refl a : Compare c a a = 0;
  Compare_flip a b : Compare c a b < 0 <-> 0 < Compare c b a;
  Compare_trans a b d : Compare c a b <= 0 -> Compare c b d <= 0 -> Compare c a d <= 0;
  Equal_Compare a b : Equal c a b = true <-> Compare c a b = 0;
  Separator_between a b : Compare c a b < 0 ->
    Compare c a (FindShortestSeparator c a b) <= 0 /\
    Compare c (FindShortestSeparator c a b) b < 0;
  Successor_above a : Compare c a (FindShortSuccessor c a) <= 0
}.

(** ** BytewiseComparatorImpl *)

(** Increment byte [i] of the string, then resize it to [i + 1]. *)
Definition incr_resize (s : bytes) (i : nat) : bytes :=
  take i s ++ [to_byte (at_ s i + 1)].

(** The loop that looks for the first byte below 0xff from index [i] on and
    increments it; [n] counts the indices that are left. *)
Fixpoint bump_loop (n : nat) (s : bytes) (i : nat) : bytes :=
  match n with
  | O => s
  | S n' => if at_ s i <? 255 then incr_resize s i else bump_loop n' s (S i)
  end.

Definition Bytewise_FindShortestSeparator (start limit : bytes) : bytes :=
  let min_length := Z.min (slen start) (slen limit) in
  let diff_index := difference_offset start limit in
  if min_length <=? diff_index then start
  else
    let start_byte := at_ start (Z.to_nat diff_index) in
    let limit_byte := at_ limit (Z.to_nat diff_index) in
    if limit_byte <=? start_byte then start
    else if (diff_index <? slen limit - 1) || (start_byte + 1 <? limit_byte)
    then incr_resize start (Z.to_nat diff_index)
    else let i := S (Z.to_nat diff_index) in bump_loop (length start - i) start i.

Definition Bytewise_FindShortSuccessor (key : bytes) : bytes := bump_loop (length key) key 0.

(** The loop over the bytes after the first difference: 0xff in [s] and 0x00
    in [t]. *)
Fixpoint ff_then_00 (s t : bytes) : bool :=
  match s, t with
  | x :: s', y :: t' => if negb (ub x =? 255) || negb (ub y =? 0) then false else ff_then_00 s' t'
  | _, _ => true
  end.

Definition Bytewise_IsSameLengthImmediateSuccessor (s t : bytes) : bool :=
  if negb (slen s =? slen t) || (slen s =? 0) then false
  else
    let diff_ind := difference_offset s t in
    if slen s <=? diff_ind then false
    else
      let byte_s := at_ s (Z.to_nat diff_ind) in
      let byte_t := at_ t (Z.to_nat diff_ind) in
      if negb (byte_s =? 255) && (byte_s + 1 =? byte_t)
      then ff_then_00 (sdrop (diff_ind + 1) s) (sdrop (diff_ind + 1) t)
      else false.

Definition BytewiseComparator : Comparator := {|
  Compare a b := compare a b;
  Equal a b := equal a b;
  FindShortestSeparator := Bytewise_FindShortestSeparator;
  FindShortSuccessor := Bytewise_FindShortSuccessor;
  IsSameLengthImmediateSuccessor := Bytewise_IsSameLengthImmediateSuccessor;
  CanKeysWithDifferentByteContentsBeEqual := false;
  timestamp_size := 0;
  CompareTimestamp _ _ := 0;
  CompareWithoutTimestamp a _ b _ := compare a b;
  EqualWithoutTimestamp a b := equal a b
|}.

(** ** ReverseBytewiseComparatorImpl *)

Definition Reverse_FindShortestSeparator (start limit : bytes) : bytes :=
  let min_length := Z.min (slen start) (slen limit) in
  let diff_index := difference_offset start limit in
  if diff_index =? min_length then start
  else
    let start_byte := at_ start (Z.to_nat diff_index) in
    let limit_byte := at_ limit (Z.to_nat diff_index) in
    if (limit_byte <? start_byte) && (diff_index <? slen start - 1)
    then stake (diff_index + 1) start
    else start.

Definition ReverseBytewiseComparator : Comparator := {|
  Compare a b := - compare a b;
  Equal a b := equal a b;
  FindShortestSeparator := Reverse_FindShortestSeparator;
  FindShortSuccessor key := key;
  IsSameLengthImmediateSuccessor _ _ := false;
  CanKeysWithDifferentByteContentsBeEqual := false;
  timestamp_size := 0;
  CompareTimestamp _ _ := 0;
  CompareWithoutTimestamp a _ b _ := - compare a b;
  EqualWithoutTimestamp a b := equal a b
|}.

(** ** ComparatorWithU64TsImpl<TComparator> *)

Definition U64Ts_CompareTimestamp (ts1 ts2 : bytes) : Z :=
  let lhs := DecodeFixed64 ts1 in
  let rhs := DecodeFixed64 ts2 in
  if lhs <? rhs then -1 else if rhs <? lhs then 1 else 0.

Section U64Ts.

(** [cmp_without_ts_], the template argument. *)
Variable cmp_without_ts : Comparator.

Definition U64Ts_CompareWithoutTimestamp (a : bytes) (a_has_ts : bool)
    (b : bytes) (b_has_ts : bool) : Z :=
  let ts_sz := 8 in
  let lhs := if a_has_ts then StripTimestampFromUserKey a ts_sz else a in
  let rhs := if b_has_ts then StripTimestampFromUserKey b ts_sz else b in
  Compare cmp_without_ts lhs rhs.

Definition U64Ts_Compare (a b : bytes) : Z :=
  let ret := U64Ts_CompareWithoutTimestamp a true b true in
  let ts_sz := 8 in
  if negb (ret =? 0) then ret
  else - U64Ts_CompareTimestamp (ExtractTimestampFromUserKey a ts_sz)
                                (ExtractTimestampFromUserKey b ts_sz).

Definition ComparatorWithU64Ts : Comparator := {|
  Compare := U64Ts_Compare;
  Equal a b := U64Ts_Compare a b =? 0;
  FindShortestSeparator start _ := start;
  FindShortSuccessor key := key;
  IsSameLengthImmediateSuccessor _ _ := false;
  CanKeysWithDifferentByteContentsBeEqual := true;
  timestamp_size := 8;
  CompareTimestamp := U64Ts_CompareTimestamp;
  CompareWithoutTimestamp := U64Ts_CompareWithoutTimestamp;
  EqualWithoutTimestamp a b := 0 =? U64Ts_CompareWithoutTimestamp a true b true
|}.

End U64Ts.

Definition BytewiseComparatorWithU64Ts : Comparator := ComparatorWithU64Ts BytewiseComparator.
Definition ReverseBytewiseComparatorWithU64Ts : Comparator :=
  ComparatorWithU64Ts ReverseBytewiseComparator.

(** ** 64-bit timestamps as slices *)

Definition DecodeU64Ts (ts : bytes) : Status * Z :=
  if negb (slen ts =? 8) then (InvalidArgument "U64Ts timestamp size mismatch.", 0)
  else (OK, DecodeFixed64 ts).

Definition EncodeU64Ts (ts : Z) : bytes := EncodeFixed64 ts.
Definition MaxU64Ts : bytes := replicate 8 Byte.xff.
Definition MinU64Ts : bytes := replicate 8 Byte.x00.

(** ** Shortening *)

Lemma at_app_cons p x t : at_ (p ++ x :: t) (length p) = ub x.
Proof. unfold at_. by rewrite list_lookup_middle. Qed.

Lemma at_to_nat p x t k : k = slen p -> at_ (p ++ x :: t) (Z.to_nat k) = ub x.
Proof. intros ->. unfold slen. rewrite Nat2Z.id. apply at_app_cons. Qed.

Lemma incr_resize_app p x t : incr_resize (p ++ x :: t) (length p) = p ++ [to_byte (ub x + 1)].
Proof. unfold incr_resize. by rewrite take_app_length, at_app_cons. Qed.

(** The result of the loop: nothing changed, or one byte at or after the start
    index was incremented and the tail cut off. *)
Lemma bump_loop_spec p t :
  bump_loop (length t) (p ++ t) (length p) = p ++ t \/
  exists q x r, t = q ++ x :: r /\ ub x < 255 /\
    bump_loop (length t) (p ++ t) (length p) = p ++ q ++ [to_byte (ub x + 1)].
Proof.
  revert p. induction t as [|x t IH]; intros p; cbn [length bump_loop]; [by left|].
  rewrite at_app_cons. zcase.
  - right. exists [], x, t. by rewrite incr_resize_app.
  - specialize (IH (p ++ [x])).
    rewrite length_app, Nat.add_1_r, <- app_assoc in IH. cbn [app] in IH.
    destruct IH as [->|(q & y & r & -> & Hy & ->)]; [by left|]. right.
    exists (x :: q), y, r. by rewrite <- !app_assoc.
Qed.

Lemma bump_loop_above p t : lex (p ++ t) (bump_loop (length t) (p ++ t) (length p)) <= 0.
Proof.
  destruct (bump_loop_spec p t) as [->|(q & x & r & -> & Hx & ->)].
  - by rewrite lex_refl.
  - rewrite !lex_app. cbn. rewrite ub_to_byte by (pose proof (ub_range x); lia). by zcase.
Qed.

Lemma bump_loop_below p t limit :
  lex (p ++ t) limit = -1 ->
  (forall u, lex (p ++ u) limit = -1) ->
  lex (bump_loop (length t) (p ++ t) (length p)) limit = -1.
Proof.
  intros H Hp. destruct (bump_loop_spec p t) as [->|(q & x & r & -> & Hx & ->)]; [done|].
  apply Hp.
Qed.

Lemma Bytewise_separator_between start limit :
  lex start limit < 0 ->
  lex start (Bytewise_FindShortestSeparator start limit) <= 0 /\
  lex (Bytewise_FindShortestSeparator start limit) limit < 0.
Proof.
  intros Hlt. unfold Bytewise_FindShortestSeparator.
  destruct (difference_offset_spec start limit) as (p & a & b & -> & -> & <- & Hd).
  rewrite !slen_app. pose proof (slen_nonneg a). pose proof (slen_nonneg b).
  destruct (Z.leb_spec (Z.min (slen p + slen a) (slen p + slen b)) (slen p));
    [by rewrite lex_refl|].
  destruct a as [|x a]; [snil; lia|].
  destruct b as [|y b]; [snil; lia|].
  rewrite !at_to_nat by done. replace (Z.to_nat (slen p)) with (length p) by (unfold slen; lia).
  pose proof (ub_range x). pose proof (ub_range y). rewrite lex_app in Hlt. cbn in Hlt.
  destruct (Z.leb_spec (ub y) (ub x)); [repeat zcase_in Hlt; destruct Hd; apply ub_inj; lia|].
  destruct (_ || _) eqn:E.
  - rewrite incr_resize_app, !lex_app. cbn. rewrite ub_to_byte by lia. zcase. split; [lia|].
    apply orb_true_iff in E as [E%Z.ltb_lt|E%Z.ltb_lt]; [|by zcase].
    rewrite slen_cons in E. repeat zcase. destruct b; [snil; lia|done].
  - assert (Hu : forall u, lex ((p ++ [x]) ++ u) (p ++ y :: b) = -1).
    { intros u. rewrite <- app_assoc, lex_app. cbn. by zcase. }
    replace (p ++ x :: a) with ((p ++ [x]) ++ a) by by rewrite <- app_assoc.
    replace (S (length p)) with (length (p ++ [x])) by (rewrite length_app; cbn; lia).
    replace (length ((p ++ [x]) ++ a) - length (p ++ [x]))%nat with (length a)
      by (rewrite !length_app; lia).
    split; [apply bump_loop_above|]. rewrite bump_loop_below; [lia|apply Hu|apply Hu].
Qed.

Lemma Bytewise_successor_above key : lex key (Bytewise_FindShortSuccessor key) <= 0.
Proof. apply (bump_loop_above []). Qed.

Lemma Reverse_separator_between start limit :
  0 < lex start limit ->
  0 <= lex start (Reverse_FindShortestSeparator start limit) /\
  0 < lex (Reverse_FindShortestSeparator start limit) limit.
Proof.
  intros Hgt. unfold Reverse_FindShortestSeparator.
  destruct (difference_offset_spec start limit) as (p & a & b & -> & -> & <- & Hd).
  rewrite !slen_app. pose proof (slen_nonneg a). pose proof (slen_nonneg b).
  destruct (Z.eqb_spec (slen p) (Z.min (slen p + slen a) (slen p + slen b)));
    [by rewrite lex_refl|].
  destruct a as [|x a]; [snil; lia|].
  destruct b as [|y b]; [snil; lia|].
  rewrite !at_to_nat by done.
  destruct (_ && _) eqn:E; [|by rewrite lex_refl].
  apply andb_true_iff in E as [E%Z.ltb_lt _].
  replace (p ++ x :: a) with ((p ++ [x]) ++ a) by by rewrite <- app_assoc.
  rewrite stake_app by (rewrite slen_app, slen_cons; snil; lia). split.
  - rewrite lex_opp. pose proof (lex_prefix (p ++ [x]) a). lia.
  - rewrite lex_app. cbn. repeat zcase.
Qed.

(** ** Instances of the contract *)

#[export] Instance BytewiseComparator_ok : ComparatorOk BytewiseComparator.
Proof.
  constructor; cbn; intros *; rewrite ?compare_lex.
  - apply lex_refl.
  - rewrite (lex_opp a b). lia.
  - apply lex_trans.
  - rewrite equal_spec. split; [intros ->; apply lex_refl|apply lex_eq].
  - apply Bytewise_separator_between.
  - apply Bytewise_successor_above.
Qed.

#[export] Instance ReverseBytewiseComparator_ok : ComparatorOk ReverseBytewiseComparator.
Proof.
  constructor; cbn; intros *; rewrite ?compare_lex.
  - by rewrite lex_refl.
  - rewrite (lex_opp a b). lia.
  - rewrite <- !lex_opp. intros H1 H2. by eapply lex_trans.
  - rewrite equal_spec. split; [intros ->; by rewrite lex_refl|].
    intros H. apply lex_eq. lia.
  - intros H. destruct (Reverse_separator_between a b); lia.
  - by rewrite lex_refl.
Qed.

Lemma U64Ts_CompareTimestamp_sub x y :
  U64Ts_CompareTimestamp x y = Z.sgn (DecodeFixed64 x - DecodeFixed64 y).
Proof.
  unfold U64Ts_CompareTimestamp. repeat zcase.
Qed.

(** Adding a timestamp refines the order of the keys lexicographically. *)
#[export] Instance ComparatorWithU64Ts_ok c : ComparatorOk c -> ComparatorOk (ComparatorWithU64Ts c).
Proof.
  intros Hc.
  assert (Hr : forall a, U64Ts_Compare c a a = 0).
  { intros a. unfold U64Ts_Compare, U64Ts_CompareWithoutTimestamp.
    rewrite Compare_refl, U64Ts_CompareTimestamp_sub, Z.sub_diag. done. }
  constructor; cbn [Compare Equal FindShortestSeparator FindShortSuccessor ComparatorWithU64Ts].
  - apply Hr.
  - intros a b. unfold U64Ts_Compare, U64Ts_CompareWithoutTimestamp.
    rewrite !U64Ts_CompareTimestamp_sub.
    set (x := StripTimestampFromUserKey a 8). set (y := StripTimestampFromUserKey b 8).
    pose proof (Compare_flip x y). pose proof (Compare_flip y x).
    destruct (Z.eqb_spec (Compare c x y) 0), (Z.eqb_spec (Compare c y x) 0); cbn; lia.
  - intros a b d. unfold U64Ts_Compare, U64Ts_CompareWithoutTimestamp.
    rewrite !U64Ts_CompareTimestamp_sub.
    set (x := StripTimestampFromUserKey a 8). set (y := StripTimestampFromUserKey b 8).
    set (z := StripTimestampFromUserKey d 8).
    pose proof (Compare_trans x y z). pose proof (Compare_trans z x y).
    pose proof (Compare_trans y z x).
    pose proof (Compare_flip x y). pose proof (Compare_flip y x).
    pose proof (Compare_flip x z). pose proof (Compare_flip z x).
    pose proof (Compare_flip y z). pose proof (Compare_flip z y).
    destruct (Z.eqb_spec (Compare c x y) 0), (Z.eqb_spec (Compare c y z) 0),
      (Z.eqb_spec (Compare c x z) 0); cbn; lia.
  - intros a b. apply Z.eqb_eq.
  - intros a b H. by rewrite Hr.
  - intros a. by rewrite Hr.
Qed.

(** ** The order without timestamps *)

(** What comparators with user-defined timestamps promise: leaving the
    timestamps out gives a total preorder that is coarser than [Compare]. *)
Class ComparatorTsOk (c : Comparator) : Prop := {
  Cwt_flip a b : CompareWithoutTimestamp c a true b true < 0 <-> 0 < CompareWithoutTimestamp c b true a true;
  Cwt_trans a b d : CompareWithoutTimestamp c a true b true <= 0 -> CompareWithoutTimestamp c b true d true <= 0 ->
    CompareWithoutTimestamp c a true d true <= 0;
  Cwt_coarse a b : Compare c a b <= 0 -> CompareWithoutTimestamp c a true b true <= 0
}.

#[export] Instance BytewiseComparator_ts_ok : ComparatorTsOk BytewiseComparator.
Proof. constructor; intros *; [apply (Compare_flip (c := BytewiseComparator))|apply (Compare_trans (c := BytewiseComparator))|done]. Qed.

#[export] Instance ReverseBytewiseComparator_ts_ok : ComparatorTsOk ReverseBytewiseComparator.
Proof.
  constructor; intros *; [apply (Compare_flip (c := ReverseBytewiseComparator))|
    apply (Compare_trans (c := ReverseBytewiseComparator))|done].
Qed.

#[export] Instance ComparatorWithU64Ts_ts_ok c : ComparatorOk c -> ComparatorTsOk (ComparatorWithU64Ts c).
Proof.
  intros Hc. constructor; cbn [CompareWithoutTimestamp Compare ComparatorWithU64Ts];
    unfold U64Ts_Compare, U64Ts_CompareWithoutTimestamp; intros *.
  - apply Compare_flip.
  - apply Compare_trans.
  - destruct (Z.eqb_spec (Compare c (StripTimestampFromUserKey a 8) (StripTimestampFromUserKey b 8)) 0); cbn; lia.
Qed.

(** ** Immediate successors as numbers *)

(** The big-endian value of a byte string. *)
Fixpoint be_val (s : bytes) : Z :=
  match s with
  | [] => 0
  | x :: s' => ub x * 256 ^ slen s' + be_val s'
  end.

Lemma pow256_pos {A} (s : list A) : 0 < 256 ^ slen s.
Proof. apply Z.pow_pos_nonneg; [lia|apply slen_nonneg]. Qed.

Lemma be_val_range s : 0 <= be_val s < 256 ^ slen s.
Proof.
  induction s as [|x s IH]; [snil; cbn; lia|]. cbn [be_val]. rewrite slen_cons.
  rewrite Z.pow_add_r by (pose proof (slen_nonneg s); lia).
  pose proof (ub_range x). nia.
Qed.

Lemma be_val_app p s : be_val (p ++ s) = be_val p * 256 ^ slen s + be_val s.
Proof.
  induction p as [|x p IH]; cbn [app be_val]; [lia|].
  rewrite IH, slen_app, Z.pow_add_r by apply slen_nonneg. ring.
Qed.

(** Among strings of one length the order is the order of the values. *)
Lemma lex_be_val a b : slen a = slen b -> (lex a b < 0 <-> be_val a < be_val b).
Proof.
  revert b. induction a as [|x a IH]; intros [|y b]; rewrite ?slen_cons; snil;
    intros Hl; try slia.
  { cbn. lia. }
  cbn [lex be_val]. assert (Hab : slen a = slen b) by lia. rewrite Hab.
  pose proof (be_val_range a) as Ha. pose proof (be_val_range b). rewrite Hab in Ha.
  pose proof (pow256_pos b). repeat zcase; [nia|nia|].
  replace (ub y) with (ub x) by lia. rewrite IH by done. lia.
Qed.

Lemma be_val_inj a b : slen a = slen b -> be_val a = be_val b -> a = b.
Proof.
  intros Hl He. apply lex_eq. pose proof (lex_be_val a b Hl).
  pose proof (lex_be_val b a (eq_sym Hl)). rewrite (lex_opp a b) in *. lia.
Qed.

Lemma be_val_surj (n : nat) v : 0 <= v < 256 ^ Z.of_nat n -> exists s, length s = n /\ be_val s = v.
Proof.
  revert v. induction n as [|n IH]; intros v Hv.
  - exists []. cbn in *. split; [done|lia].
  - rewrite Nat2Z.inj_succ, Z.pow_succ_r in Hv by lia.
    pose proof (Z.pow_pos_nonneg 256 (Z.of_nat n) ltac:(lia) ltac:(lia)) as Hp.
    destruct (IH (v mod 256 ^ Z.of_nat n)) as (s & Hs & Hval); [by apply Z.mod_pos_bound|].
    exists (to_byte (v / 256 ^ Z.of_nat n) :: s). split; [cbn; lia|].
    cbn [be_val]. unfold slen. rewrite Hs, Hval, ub_to_byte.
    + rewrite Z.mul_comm. symmetry. apply Z.div_mod. lia.
    + split; [apply Z.div_pos; lia|]. apply Z.div_lt_upper_bound; lia.
Qed.

Lemma ff_then_00_spec s t :
  slen s = slen t ->
  ff_then_00 s t = true <-> be_val s = 256 ^ slen s - 1 /\ be_val t = 0.
Proof.
  revert t. induction s as [|x s IH]; intros [|y t]; rewrite ?slen_cons; snil; intros Hl;
    try slia; [done|].
  cbn [ff_then_00 be_val]. assert (Hst : slen s = slen t) by lia.
  rewrite Z.pow_add_r by (pose proof (slen_nonneg s); lia).
  pose proof (be_val_range s). pose proof (be_val_range t) as Ht. rewrite <- Hst in Ht |- *.
  pose proof (pow256_pos s). pose proof (ub_range x). pose proof (ub_range y).
  destruct (Z.eqb_spec (ub x) 255) as [->|]; [|split; [done|]; intros [? ?]; exfalso; nia].
  destruct (Z.eqb_spec (ub y) 0) as [->|]; [|split; [done|]; intros [? ?]; exfalso; nia].
  cbn. rewrite IH by done. lia.
Qed.

Lemma successor_be_val s t :
  Bytewise_IsSameLengthImmediateSuccessor s t = true <->
  slen s = slen t /\ be_val t = be_val s + 1.
Proof.
  unfold Bytewise_IsSameLengthImmediateSuccessor.
  destruct (Z.eqb_spec (slen s) (slen t)) as [Hl|]; cbn [negb orb]; [|split; [done|tauto]].
  destruct (Z.eqb_spec (slen s) 0) as [H0|H0].
  { split; [done|]. intros [_ Hv]. rewrite (slen_0_nil t) in Hv by lia.
    rewrite (slen_0_nil s) in Hv by lia. cbn in Hv. lia. }
  destruct (difference_offset_spec s t) as (p & a & b & -> & -> & <- & Hd).
  rewrite !slen_app in *. destruct a as [|x a], b as [|y b].
  all: rewrite ?slen_cons in Hl; snil.
  - rewrite !app_nil_r. snil. destruct (Z.leb_spec (slen p + 0) (slen p)); [|lia]. split; [done|]. lia.
  - pose proof (slen_nonneg b). lia.
  - pose proof (slen_nonneg a). lia.
  - rewrite !at_to_nat by done. pose proof (slen_nonneg a). rewrite slen_cons. zcase.
    replace (p ++ x :: a) with ((p ++ [x]) ++ a) by by rewrite <- app_assoc.
    replace (p ++ y :: b) with ((p ++ [y]) ++ b) by by rewrite <- app_assoc.
    rewrite !sdrop_app by (rewrite slen_app, slen_cons; snil; lia).
    rewrite !be_val_app. cbn [be_val]. rewrite !slen_cons. snil.
    assert (Hab : slen a = slen b) by lia. rewrite <- Hab.
    pose proof (be_val_range a). pose proof (be_val_range b) as Hb. rewrite <- Hab in Hb.
    pose proof (pow256_pos a). pose proof (ub_range x). pose proof (ub_range y).
    destruct (_ && _) eqn:E.
    + rewrite ff_then_00_spec by done. apply andb_true_iff in E as [_ E%Z.eqb_eq].
      rewrite <- E. split; [intros [-> ->]; split; [done|]; ring|]. intros [_ Hv]. nia.
    + split; [done|]. intros [_ Hv]. apply andb_false_iff in E.
      assert (ub x <> ub y) by (intros ?; apply Hd, ub_inj; lia).
      destruct E as [E%negb_false_iff%Z.eqb_eq|E%Z.eqb_neq]; nia.
Qed.

(** ** Properties *)

Lemma bump_loop_length p t : slen (bump_loop (length t) (p ++ t) (length p)) <= slen (p ++ t).
Proof.
  destruct (bump_loop_spec p t) as [->|(q & x & r & -> & Hx & ->)]; [lia|].
  rewrite !slen_app, !slen_cons. snil. slia.
Qed.

Lemma Bytewise_separator_length start limit :
  slen (Bytewise_FindShortestSeparator start limit) <= slen start.
Proof.
  unfold Bytewise_FindShortestSeparator.
  destruct (difference_offset_spec start limit) as (p & a & b & -> & -> & <- & _).
  replace (Z.to_nat (slen p)) with (length p) by (unfold slen; lia).
  destruct a as [|x a].
  { rewrite app_nil_r, slen_app. destruct (Z.leb_spec (Z.min (slen p) (slen p + slen b)) (slen p)); slia. }
  rewrite incr_resize_app. repeat case_match; rewrite ?slen_app, ?slen_cons; snil; try slia.
  replace (p ++ x :: a) with ((p ++ [x]) ++ a) by by rewrite <- app_assoc.
  replace (S (length p)) with (length (p ++ [x])) by (rewrite length_app; cbn; lia).
  replace (length ((p ++ [x]) ++ a) - length (p ++ [x]))%nat with (length a)
    by (rewrite !length_app; lia).
  pose proof (bump_loop_length (p ++ [x]) a) as Hb. rewrite !slen_app, slen_cons in Hb. snil. lia.
Qed.

Lemma Bytewise_separator_keep start limit :
  0 <= lex start limit -> Bytewise_FindShortestSeparator start limit = start.
Proof.
  intros Hge. unfold Bytewise_FindShortestSeparator.
  destruct (difference_offset_spec start limit) as (p & a & b & -> & -> & <- & Hd).
  rewrite !slen_app.
  destruct (Z.leb_spec (Z.min (slen p + slen a) (slen p + slen b)) (slen p)); [done|].
  destruct a as [|x a]; [snil; lia|]. destruct b as [|y b]; [snil; lia|].
  rewrite !at_to_nat by done. rewrite lex_app in Hge. cbn in Hge.
  destruct (Z.leb_spec (ub y) (ub x)); [done|]. zcase_in Hge.
Qed.

(** Shortening keys for index blocks: for [start < limit] the bytewise
    [FindShortestSeparator] returns a string in [start, limit) that is not
    longer than [start], and otherwise leaves [start] alone;
    [FindShortSuccessor] returns a string that is not below the key and not
    longer. *)
Theorem bytewise_shortening (start limit key : bytes) :
  (compare start limit < 0 ->
     compare start (Bytewise_FindShortestSeparator start limit) <= 0 /\
     compare (Bytewise_FindShortestSeparator start limit) limit < 0) /\
  (0 <= compare start limit -> Bytewise_FindShortestSeparator start limit = start) /\
  slen (Bytewise_FindShortestSeparator start limit) <= slen start /\
  compare key (Bytewise_FindShortSuccessor key) <= 0 /\
  slen (Bytewise_FindShortSuccessor key) <= slen key.
Proof.
  rewrite !compare_lex. split; [apply Bytewise_separator_between|].
  split; [apply Bytewise_separator_keep|]. split; [apply Bytewise_separator_length|].
  split; [apply Bytewise_successor_above|]. apply (bump_loop_length []).
Qed.

Lemma bytewise_shortening_witness :
  let start := [Byte.x61; Byte.x31; Byte.xff; Byte.x41] in
  let limit := [Byte.x61; Byte.x32] in
  compare start limit < 0 /\ compare (Bytewise_FindShortestSeparator start limit) limit < 0.
Proof.
  intros start limit. assert (H : compare start limit < 0) by (vm_compute; reflexivity).
  split; [exact H|]. exact (proj2 (proj1 (bytewise_shortening start limit []) H)).
Defined.

(** Every built-in comparator meets the contract of the [Comparator]
    interface (total preorder, equality, separators inside their interval,
    successors not below the key), with and without 64-bit timestamps. *)
Theorem builtin_comparators_ok :
  ComparatorOk BytewiseComparator /\ ComparatorOk ReverseBytewiseComparator /\
  ComparatorOk BytewiseComparatorWithU64Ts /\ ComparatorOk ReverseBytewiseComparatorWithU64Ts.
Proof. split_and!; exact _. Qed.

Lemma strip_app k ts : slen ts = 8 -> StripTimestampFromUserKey (k ++ ts) 8 = k.
Proof.
  intros H. unfold StripTimestampFromUserKey, remove_suffix.
  rewrite stake_app; [done|]. rewrite slen_app. lia.
Qed.

Lemma extract_ts_app k ts : slen ts = 8 -> ExtractTimestampFromUserKey (k ++ ts) 8 = ts.
Proof.
  intros H. unfold ExtractTimestampFromUserKey. rewrite sdrop_app; [done|].
  rewrite slen_app. lia.
Qed.

(** Keys with 64-bit timestamps are ordered by the key first and then by
    decreasing timestamp, so that [MaxU64Ts] comes before and [MinU64Ts] after
    every version of a key; timestamps are read back as written. *)
Theorem u64ts_order (c : Comparator) (k1 k2 : bytes) (t1 t2 : Z) :
  ComparatorOk c -> is_u64 t1 -> is_u64 t2 ->
  Compare (ComparatorWithU64Ts c) (k1 ++ EncodeU64Ts t1) (k2 ++ EncodeU64Ts t2) =
    (if Compare c k1 k2 =? 0 then Z.sgn (t2 - t1) else Compare c k1 k2) /\
  Compare (ComparatorWithU64Ts c) (k1 ++ MaxU64Ts) (k1 ++ EncodeU64Ts t1) <= 0 /\
  Compare (ComparatorWithU64Ts c) (k1 ++ EncodeU64Ts t1) (k1 ++ MinU64Ts) <= 0 /\
  DecodeU64Ts (EncodeU64Ts t1) = (OK, t1).
Proof.
  intros Hc H1 H2. cbn [Compare ComparatorWithU64Ts].
  unfold U64Ts_Compare, U64Ts_CompareWithoutTimestamp.
  rewrite !strip_app, !extract_ts_app by done. rewrite !U64Ts_CompareTimestamp_sub.
  rewrite (Compare_refl k1). cbn [Z.eqb negb].
  change (DecodeFixed64 MaxU64Ts) with (2 ^ 64 - 1). change (DecodeFixed64 MinU64Ts) with 0.
  pose proof (DecodeFixed64_Encode t1 [] H1) as E1. pose proof (DecodeFixed64_Encode t2 [] H2) as E2.
  rewrite app_nil_r in E1, E2. unfold EncodeU64Ts. rewrite E1, E2. unfold is_u64 in *.
  split; [destruct (Compare c k1 k2 =? 0); cbn; lia|].
  split; [lia|]. split; [lia|]. unfold DecodeU64Ts. cbn [negb]. by rewrite E1.
Qed.

Lemma u64ts_order_witness :
  Compare (ComparatorWithU64Ts BytewiseComparator)
    ([Byte.x61] ++ EncodeU64Ts 7) ([Byte.x61] ++ EncodeU64Ts 3) = Z.sgn (3 - 7).
Proof.
  refine (proj1 (u64ts_order BytewiseComparator [Byte.x61] [Byte.x61] 7 3
            BytewiseComparator_ok _ _)); unfold is_u64; lia.
Defined.

(** [IsSameLengthImmediateSuccessor(s, t)] holds exactly when [t] follows
    [s] immediately among the strings of their length: same length, [s < t],
    and no string of that length strictly between. *)
Theorem immediate_successor_spec (s t : bytes) :
  Bytewise_IsSameLengthImmediateSuccessor s t = true <->
  slen s = slen t /\ compare s t < 0 /\
  (forall u, slen u = slen s -> ~ (compare s u < 0 /\ compare u t < 0)).
Proof.
  rewrite successor_be_val, compare_lex. split.
  - intros [Hl Hv]. split; [done|]. split; [apply lex_be_val; [done|lia]|].
    intros u Hu [H1 H2]. rewrite compare_lex in H1, H2.
    apply lex_be_val in H1, H2; [lia|congruence|congruence].
  - intros (Hl & Hlt & Hno). split; [done|]. apply lex_be_val in Hlt; [|done].
    destruct (Z.eq_dec (be_val t) (be_val s + 1)) as [|Hne]; [done|]. exfalso.
    destruct (be_val_surj (length s) (be_val s + 1)) as (u & Hu & Hval).
    { fold (slen s). pose proof (be_val_range s). pose proof (be_val_range t).
      rewrite <- Hl in *. lia. }
    assert (Hsu : slen u = slen s) by (unfold slen; lia).
    apply (Hno u Hsu). rewrite !compare_lex.
    split; apply lex_be_val; [done|lia|congruence|lia].
Qed.
