(* ===== verification/DbFormat.v ===== *)
(** * Internal keys

    Models db/dbformat.h and db/dbformat.cc, and [LookupKey] of
    db/lookup_key.h: value types, the packing of sequence number and type into
    the eight-byte footer of an internal key, the timestamp manipulations, the
    parser, and [InternalKeyComparator] in all its overloads. The comparator
    of user keys is a parameter with the contract [ComparatorOk].

    An [assert] is a precondition of the function: the theorems state it where
    they need it. *)

From S2P Require Import Prelude Coding Slice Comparator.

(** ** Value types *)

(** [enum ValueType : unsigned char]: an integer, since any byte can be cast
    to it. *)
Definition kTypeDeletion : Z := 0x0.
Definition kTypeValue : Z := 0x1.
Definition kTypeMerge : Z := 0x2.
Definition kTypeLogData : Z := 0x3.
Definition kTypeColumnFamilyDeletion : Z := 0x4.
Definition kTypeColumnFamilyValue : Z := 0x5.
Definition kTypeColumnFamilyMerge : Z := 0x6.
Definition kTypeSingleDeletion : Z := 0x7.
Definition kTypeColumnFamilySingleDeletion : Z := 0x8.
Definition kTypeBeginPrepareXID : Z := 0x9.
Definition kTypeEndPrepareXID : Z := 0xA.
Definition kTypeCommitXID : Z := 0xB.
Definition kTypeRollbackXID : Z := 0xC.
Definition kTypeNoop : Z := 0xD.
Definition kTypeColumnFamilyRangeDeletion : Z := 0xE.
Definition kTypeRangeDeletion : Z := 0xF.
Definition kTypeColumnFamilyBlobIndex : Z := 0x10.
Definition kTypeBlobIndex : Z := 0x11.
Definition kTypeBeginPersistedPrepareXID : Z := 0x12.
Definition kTypeBeginUnprepareXID : Z := 0x13.
Definition kTypeDeletionWithTimestamp : Z := 0x14.
Definition kTypeCommitXIDAndTimestamp : Z := 0x15.
Definition kTypeWideColumnEntity : Z := 0x16.
Definition kTypeColumnFamilyWideColumnEntity : Z := 0x17.
Definition kTypeMaxValid : Z := 0x18.
Definition kMaxValue : Z := 0x7F.

Definition kValueTypeForSeek : Z := kTypeWideColumnEntity.
Definition kValueTypeForSeekForPrev : Z := kTypeDeletion.

Definition IsValueType (t : Z) : bool :=
  (t <=? kTypeMerge) || (kTypeSingleDeletion =? t) || (kTypeBlobIndex =? t) ||
  (kTypeDeletionWithTimestamp =? t) || (kTypeWideColumnEntity =? t).

Definition IsExtendedValueType (t : Z) : bool :=
  IsValueType t || (t =? kTypeRangeDeletion) || (t =? kTypeMaxValid).

Definition kMaxSequenceNumber : Z := Z.shiftl 1 56 - 1.
Definition kDisableGlobalSequenceNumber : Z := 2 ^ 64 - 1.
Definition kNumInternalBytes : Z := 8.

(** [EntryType] (include/rocksdb/types.h), the public view of a type. *)
Inductive EntryType :=
| kEntryPut | kEntryDelete | kEntrySingleDelete | kEntryMerge | kEntryRangeDeletion
| kEntryBlobIndex | kEntryDeleteWithTimestamp | kEntryWideColumnEntity | kEntryOther.

Definition GetEntryType (value_type : Z) : EntryType :=
  if value_type =? kTypeValue then kEntryPut
  else if value_type =? kTypeDeletion then kEntryDelete
  else if value_type =? kTypeDeletionWithTimestamp then kEntryDeleteWithTimestamp
  else if value_type =? kTypeSingleDeletion then kEntrySingleDelete
  else if value_type =? kTypeMerge then kEntryMerge
  else if value_type =? kTypeRangeDeletion then kEntryRangeDeletion
  else if value_type =? kTypeBlobIndex then kEntryBlobIndex
  else if value_type =? kTypeWideColumnEntity then kEntryWideColumnEntity
  else kEntryOther.

(** ** Packing *)

Definition PackSequenceAndType (seq t : Z) : Z := Z.lor (u64 (Z.shiftl seq 8)) t.

(** Sequence number and type. *)
Definition UnPackSequenceAndType (packed : Z) : Z * Z :=
  (Z.shiftr packed 8, Z.land packed 255).

Definition kRangeTombstoneSentinel : Z :=
  PackSequenceAndType kMaxSequenceNumber kTypeRangeDeletion.

(** ** Parsed keys *)

Record ParsedInternalKey := {
  pk_user_key : bytes;
  pk_sequence : Z;
  pk_type : Z
}.

(** [ParsedInternalKey::SetTimestamp], [GetTimestamp]. *)
Definition SetTimestamp (k : ParsedInternalKey) (ts : bytes) : ParsedInternalKey :=
  {| pk_user_key := stake (slen (pk_user_key k) - slen ts) (pk_user_key k) ++ ts;
     pk_sequence := pk_sequence k; pk_type := pk_type k |}.

(** [ParsedInternalKey::clear]. *)
Definition pk_clear (k : ParsedInternalKey) : ParsedInternalKey :=
  {| pk_user_key := []; pk_sequence := 0; pk_type := kTypeDeletion |}.

Definition GetTimestamp (k : ParsedInternalKey) (ts_sz : Z) : bytes :=
  sdrop (slen (pk_user_key k) - ts_sz) (pk_user_key k).

Definition InternalKeyEncodingLength (key : ParsedInternalKey) : Z :=
  slen (pk_user_key key) + kNumInternalBytes.

(** ** Appending (dbformat.cc) *)

Definition AppendInternalKey (result : bytes) (key : ParsedInternalKey) : bytes :=
  PutFixed64 (result ++ pk_user_key key) (PackSequenceAndType (pk_sequence key) (pk_type key)).

Definition AppendInternalKeyWithDifferentTimestamp (result : bytes)
    (key : ParsedInternalKey) (ts : bytes) : bytes :=
  PutFixed64
    (result ++ stake (slen (pk_user_key key) - slen ts) (pk_user_key key) ++ ts)
    (PackSequenceAndType (pk_sequence key) (pk_type key)).

Definition AppendUserKeyWithDifferentTimestamp (result key ts : bytes) : bytes :=
  result ++ stake (slen key - slen ts) key ++ ts.

Definition AppendInternalKeyFooter (result : bytes) (s t : Z) : bytes :=
  PutFixed64 result (PackSequenceAndType s t).

(** [std::string(n, c)]. *)
Definition repeat_byte (n : Z) (c : byte) : bytes := replicate (Z.to_nat n) c.

Definition AppendKeyWithMinTimestamp (result key : bytes) (ts_sz : Z) : bytes :=
  result ++ key ++ repeat_byte ts_sz Byte.x00.

Definition AppendKeyWithMaxTimestamp (result key : bytes) (ts_sz : Z) : bytes :=
  result ++ key ++ repeat_byte ts_sz Byte.xff.

Definition AppendUserKeyWithMinTimestamp (result key : bytes) (ts_sz : Z) : bytes :=
  result ++ stake (slen key - ts_sz) key ++ repeat_byte ts_sz Byte.x00.

(** The constant string of nine 0xff bytes. *)
Definition kTsMax : bytes := replicate 9 Byte.xff.

Definition AppendUserKeyWithMaxTimestamp (result key : bytes) (ts_sz : Z) : bytes :=
  let result := result ++ stake (slen key - ts_sz) key in
  if ts_sz <? slen kTsMax then result ++ stake ts_sz kTsMax
  else result ++ repeat_byte ts_sz Byte.xff.

Definition PadInternalKeyWithMinTimestamp (result key : bytes) (ts_sz : Z) : bytes :=
  let user_key_size := slen key - kNumInternalBytes in
  result ++ stake user_key_size key ++ repeat_byte ts_sz Byte.x00 ++
    stake kNumInternalBytes (sdrop user_key_size key).

Definition PadInternalKeyWithMaxTimestamp (result key : bytes) (ts_sz : Z) : bytes :=
  let user_key_size := slen key - kNumInternalBytes in
  result ++ stake user_key_size key ++ repeat_byte ts_sz Byte.xff ++
    stake kNumInternalBytes (sdrop user_key_size key).

Definition StripTimestampFromInternalKey (result key : bytes) (ts_sz : Z) : bytes :=
  result ++ stake (slen key - kNumInternalBytes - ts_sz) key ++
    stake kNumInternalBytes (sdrop (slen key - kNumInternalBytes) key).

Definition ReplaceInternalKeyWithMinTimestamp (result key : bytes) (ts_sz : Z) : bytes :=
  let key_sz := slen key in
  result ++ stake (key_sz - kNumInternalBytes - ts_sz) key ++ repeat_byte ts_sz Byte.x00 ++
    stake kNumInternalBytes (sdrop (key_sz - kNumInternalBytes) key).

(** ** Slicing an internal key *)

Definition ExtractUserKey (internal_key : bytes) : bytes :=
  stake (slen internal_key - kNumInternalBytes) internal_key.

Definition ExtractUserKeyAndStripTimestamp (internal_key : bytes) (ts_sz : Z) : bytes :=
  remove_suffix internal_key (kNumInternalBytes + ts_sz).

Definition ExtractTimestampFromKey (internal_key : bytes) (ts_sz : Z) : bytes :=
  stake ts_sz (sdrop (slen internal_key - ts_sz - kNumInternalBytes) internal_key).

Definition ExtractInternalKeyFooter (internal_key : bytes) : Z :=
  DecodeFixed64 (sdrop (slen internal_key - kNumInternalBytes) internal_key).

Definition ExtractValueType (internal_key : bytes) : Z :=
  Z.land (ExtractInternalKeyFooter internal_key) 255.

Definition GetInternalKeySeqno (internal_key : bytes) : Z :=
  Z.shiftr (ExtractInternalKeyFooter internal_key) 8.

(** The new footer overwrites the last eight bytes in place. *)
Definition UpdateInternalKey (ikey : bytes) (seq t : Z) : bytes :=
  stake (slen ikey - kNumInternalBytes) ikey ++ EncodeFixed64 (Z.lor (u64 (Z.shiftl seq 8)) t).

(** ** Parsing *)

(** Text of a byte string, for messages. *)
Definition text (s : bytes) : string := String.string_of_list_byte s.

Definition DebugString (k : ParsedInternalKey) (log_err_key hex : bool) : string :=
  ("'" ++ (if log_err_key then text (ToString hex (pk_user_key k)) else "<redacted>")
    ++ "' seq:" ++ pretty (pk_sequence k) ++ ", type:" ++ pretty (pk_type k))%string.

Definition ParseInternalKey (internal_key : bytes) (log_err_key : bool)
    : Status * option ParsedInternalKey :=
  let n := slen internal_key in
  if n <? kNumInternalBytes then
    (Corruption ("Corrupted Key: Internal Key too small. Size=" ++ pretty n ++ ". ")%string, None)
  else
    let num := DecodeFixed64 (sdrop (n - kNumInternalBytes) internal_key) in
    let c := Z.land num 255 in
    let result := {| pk_user_key := stake (n - kNumInternalBytes) internal_key;
                     pk_sequence := Z.shiftr num 8; pk_type := c |} in
    if IsExtendedValueType c then (OK, Some result)
    else (Corruption ("Corrupted Key" ++ ": " ++ DebugString result log_err_key true)%string,
          Some result).

(** ** InternalKey: a key in encoded form (its state is [rep_]) *)

Module InternalKey.

Definition IK_make (user_key : bytes) (s t : Z) : bytes :=
  AppendInternalKey [] {| pk_user_key := user_key; pk_sequence := s; pk_type := t |}.

Definition IK_make_ts (user_key : bytes) (s t : Z) (ts : bytes) : bytes :=
  AppendInternalKeyWithDifferentTimestamp []
    {| pk_user_key := user_key; pk_sequence := s; pk_type := t |} ts.

Definition SetMaxPossibleForUserKey (rep user_key : bytes) : bytes :=
  AppendInternalKey rep {| pk_user_key := user_key; pk_sequence := 0; pk_type := 0 |}.

Definition SetMinPossibleForUserKey (rep user_key : bytes) : bytes :=
  AppendInternalKey rep {| pk_user_key := user_key; pk_sequence := kMaxSequenceNumber;
                           pk_type := kValueTypeForSeek |}.

Definition Valid (rep : bytes) : bool := ok (fst (ParseInternalKey rep false)).

Definition DecodeFrom (s : bytes) : bytes := s.

Definition SetFrom (rep : bytes) (p : ParsedInternalKey) : bytes := AppendInternalKey [] p.

Definition SetFrom_ts (rep : bytes) (p : ParsedInternalKey) (ts : bytes) : bytes :=
  AppendInternalKeyWithDifferentTimestamp [] p ts.

Definition Set_ (rep user_key : bytes) (s t : Z) : bytes :=
  SetFrom rep {| pk_user_key := user_key; pk_sequence := s; pk_type := t |}.

(** The key with its timestamp replaced by [ts]. *)
Definition Set_ts (rep user_key_with_ts : bytes) (s t : Z) (ts : bytes) : bytes :=
  SetFrom_ts rep {| pk_user_key := user_key_with_ts; pk_sequence := s; pk_type := t |} ts.

Definition IK_Clear (rep : bytes) : bytes := [].

Definition ConvertFromUserKey (rep : bytes) (s t : Z) : bytes := AppendInternalKeyFooter rep s t.

End InternalKey.

(** ** InternalKeyComparator *)

Section InternalKeyComparator.

Variable user_comparator : Comparator.

(** [Compare(const Slice&, const Slice&)]. *)
Definition IKCompare (akey bkey : bytes) : Z :=
  let r := Compare user_comparator (ExtractUserKey akey) (ExtractUserKey bkey) in
  if r =? 0 then
    let anum := DecodeFixed64 (sdrop (slen akey - kNumInternalBytes) akey) in
    let bnum := DecodeFixed64 (sdrop (slen bkey - kNumInternalBytes) bkey) in
    if bnum <? anum then -1 else if anum <? bnum then 1 else r
  else r.

Definition IKEqual (a b : bytes) : bool := IKCompare a b =? 0.

(** [CompareKeySeq(const Slice&, const Slice&)]. *)
Definition CompareKeySeq (akey bkey : bytes) : Z :=
  let r := Compare user_comparator (ExtractUserKey akey) (ExtractUserKey bkey) in
  if r =? 0 then
    let anum := Z.shiftr (DecodeFixed64 (sdrop (slen akey - kNumInternalBytes) akey)) 8 in
    let bnum := Z.shiftr (DecodeFixed64 (sdrop (slen bkey - kNumInternalBytes) bkey)) 8 in
    if bnum <? anum then -1 else if anum <? bnum then 1 else r
  else r.

(** [CompareKeySeq(const ParsedInternalKey&, const Slice&)]. *)
Definition CompareKeySeq_parsed (a : ParsedInternalKey) (b : bytes) : Z :=
  let r := Compare user_comparator (pk_user_key a) (ExtractUserKey b) in
  if r =? 0 then
    let anum := pk_sequence a in
    let bnum := Z.shiftr (DecodeFixed64 (sdrop (slen b - kNumInternalBytes) b)) 8 in
    if bnum <? anum then -1 else if anum <? bnum then 1 else r
  else r.

(** [Compare(const ParsedInternalKey&, const ParsedInternalKey&)]. *)
Definition IKCompare_parsed (a b : ParsedInternalKey) : Z :=
  let r := Compare user_comparator (pk_user_key a) (pk_user_key b) in
  if r =? 0 then
    if pk_sequence b <? pk_sequence a then -1
    else if pk_sequence a <? pk_sequence b then 1
    else if pk_type b <? pk_type a then -1
    else if pk_type a <? pk_type b then 1
    else r
  else r.

(** [Compare(const Slice&, const ParsedInternalKey&)]. *)
Definition IKCompare_slice_parsed (a : bytes) (b : ParsedInternalKey) : Z :=
  let r := Compare user_comparator (ExtractUserKey a) (pk_user_key b) in
  if r =? 0 then
    let anum := DecodeFixed64 (sdrop (slen a - kNumInternalBytes) a) in
    let bnum := Z.lor (u64 (Z.shiftl (pk_sequence b) 8)) (pk_type b) in
    if bnum <? anum then -1 else if anum <? bnum then 1 else r
  else r.

(** [Compare(const ParsedInternalKey&, const Slice&)]. *)
Definition IKCompare_parsed_slice (a : ParsedInternalKey) (b : bytes) : Z :=
  - IKCompare_slice_parsed b a.

(** [Compare] with sequence numbers that override those of the keys. *)
Definition IKCompare_global (a : bytes) (a_global_seqno : Z) (b : bytes) (b_global_seqno : Z) : Z :=
  let r := Compare user_comparator (ExtractUserKey a) (ExtractUserKey b) in
  if r =? 0 then
    let a_footer :=
      if a_global_seqno =? kDisableGlobalSequenceNumber then ExtractInternalKeyFooter a
      else PackSequenceAndType a_global_seqno (ExtractValueType a) in
    let b_footer :=
      if b_global_seqno =? kDisableGlobalSequenceNumber then ExtractInternalKeyFooter b
      else PackSequenceAndType b_global_seqno (ExtractValueType b) in
    if b_footer <? a_footer then -1 else if a_footer <? b_footer then 1 else r
  else r.

End InternalKeyComparator.

(** ** LookupKey *)

Module LookupKey.

(** The buffer [start_ .. end_), and the length of its varint prefix
    ([kstart_ - start_]). *)
Record LK_t := { buf : bytes; klen : Z }.

Definition LK_make (user_key : bytes) (s : Z) (ts : option bytes) : LK_t :=
  let usize := slen user_key in
  let ts_sz := match ts with None => 0 | Some ts => slen ts end in
  let prefix := EncodeVarint32 (u32 (usize + ts_sz + 8)) in
  {| buf := prefix ++ user_key ++ match ts with None => [] | Some ts => ts end
              ++ EncodeFixed64 (PackSequenceAndType s kValueTypeForSeek);
     klen := slen prefix |}.

Definition memtable_key (k : LK_t) : bytes := buf k.
Definition internal_key (k : LK_t) : bytes := sdrop (klen k) (buf k).
Definition user_key (k : LK_t) : bytes := stake (slen (buf k) - klen k - 8) (sdrop (klen k) (buf k)).

End LookupKey.

(** ** RangeTombstone *)

Module RangeTombstone.

Record RT_t := { start_key : bytes; end_key : bytes; seq : Z; ts : bytes }.

Definition RT_make (sk ek : bytes) (sn : Z) : RT_t :=
  {| start_key := sk; end_key := ek; seq := sn; ts := [] |}.

Definition RT_make_ts (sk ek : bytes) (sn : Z) (ts : bytes) (logical_strip_timestamp : bool) : RT_t :=
  let ts_sz := slen ts in
  let pinned_start_key :=
    if logical_strip_timestamp then AppendUserKeyWithMinTimestamp [] sk ts_sz
    else AppendUserKeyWithDifferentTimestamp [] sk ts in
  let pinned_end_key :=
    if logical_strip_timestamp then AppendUserKeyWithMinTimestamp [] ek ts_sz
    else AppendUserKeyWithDifferentTimestamp [] ek ts in
  {| start_key := pinned_start_key; end_key := pinned_end_key; seq := sn;
     ts := stake ts_sz (sdrop (slen sk - ts_sz) pinned_start_key) |}.

Definition of_entry (parsed_key : ParsedInternalKey) (value : bytes) : RT_t :=
  {| start_key := pk_user_key parsed_key; end_key := value;
     seq := pk_sequence parsed_key; ts := [] |}.

Definition RT_Serialize (t : RT_t) : bytes * bytes :=
  (InternalKey.IK_make (start_key t) (seq t) kTypeRangeDeletion, end_key t).

Definition SerializeKey (t : RT_t) : bytes :=
  InternalKey.IK_make (start_key t) (seq t) kTypeRangeDeletion.

Definition SerializeEndKey (t : RT_t) : bytes :=
  if negb (slen (ts t) =? 0) then
    if slen (ts t) <=? slen kTsMax
    then InternalKey.IK_make_ts (end_key t) kMaxSequenceNumber kTypeRangeDeletion
           (stake (slen (ts t)) kTsMax)
    else InternalKey.IK_make_ts (end_key t) kMaxSequenceNumber kTypeRangeDeletion
           (repeat_byte (slen (ts t)) Byte.xff)
  else InternalKey.IK_make (end_key t) kMaxSequenceNumber kTypeRangeDeletion.

End RangeTombstone.

(** ** Lemmas: packed words *)

Definition valid_seq (s : Z) : Prop := 0 <= s <= kMaxSequenceNumber.

Lemma kMaxSequenceNumber_val : kMaxSequenceNumber = 2 ^ 56 - 1.
Proof. reflexivity. Qed.

Lemma pack_val s t : valid_seq s -> is_u8 t -> PackSequenceAndType s t = s * 256 + t.
Proof.
  unfold valid_seq, is_u8, PackSequenceAndType. rewrite kMaxSequenceNumber_val. intros Hs Ht.
  rewrite u64_id.
  - rewrite Z.lor_comm, lor_shiftl_add by lia. lia.
  - rewrite Z.shiftl_mul_pow2 by lia. unfold is_u64. lia.
Qed.

Lemma pack_range s t : valid_seq s -> is_u8 t -> is_u64 (PackSequenceAndType s t).
Proof.
  intros Hs Ht. rewrite pack_val by done. unfold valid_seq, is_u8, is_u64 in *.
  rewrite kMaxSequenceNumber_val in Hs. lia.
Qed.

#[export] Hint Resolve pack_range : rocks.

Lemma unpack_pack s t : valid_seq s -> is_u8 t -> UnPackSequenceAndType (PackSequenceAndType s t) = (s, t).
Proof.
  intros Hs Ht. unfold UnPackSequenceAndType. rewrite pack_val, land_255, shiftr_div by (done || lia).
  unfold is_u8 in Ht. f_equal.
  - change (2 ^ 8) with 256. rewrite Z.div_add_l by lia. rewrite Z.div_small; lia.
  - rewrite Z.add_comm, Z_mod_plus_full. apply Z.mod_small. lia.
Qed.

Lemma unpack_range w : is_u64 w -> valid_seq (fst (UnPackSequenceAndType w)) /\ is_u8 (snd (UnPackSequenceAndType w)).
Proof.
  intros Hw. unfold UnPackSequenceAndType, valid_seq, is_u8, is_u64 in *. cbn [fst snd].
  rewrite kMaxSequenceNumber_val, land_255, shiftr_div by lia. change (2 ^ 8) with 256.
  pose proof (Z.mod_pos_bound w 256). split; [|lia].
  pose proof (Z.div_pos w 256). assert (w / 256 < 2 ^ 56); [|lia].
  apply Z.div_lt_upper_bound; lia.
Qed.

Lemma pack_unpack w : is_u64 w ->
  PackSequenceAndType (Z.shiftr w 8) (Z.land w 255) = w.
Proof.
  intros Hw. destruct (unpack_range w Hw). rewrite pack_val by done.
  rewrite land_255, shiftr_div by lia. change (2 ^ 8) with 256.
  pose proof (Z.div_mod w 256). lia.
Qed.

Lemma extended_u8 t : 0 <= t -> IsExtendedValueType t = true -> is_u8 t.
Proof.
  unfold IsExtendedValueType, IsValueType, is_u8. intros H0 H.
  rewrite !orb_true_iff, !Z.eqb_eq, Z.leb_le in H. cbv -[Z.le Z.lt] in *. lia.
Qed.

(** ** Lemmas: the shape of an internal key *)

(** Every string of at least eight bytes is a user key and a footer. *)
Lemma internal_key_shape s :
  8 <= slen s -> exists u w, is_u64 w /\ s = u ++ EncodeFixed64 w.
Proof.
  intros H. exists (ExtractUserKey s), (ExtractInternalKeyFooter s). split; [apply DecodeFixed64_range|].
  unfold ExtractUserKey, ExtractInternalKeyFooter, kNumInternalBytes.
  rewrite EncodeFixed64_Decode by (rewrite slen_sdrop; lia). by rewrite stake_sdrop.
Qed.

Lemma len_with_footer u w : slen (u ++ EncodeFixed64 w) - kNumInternalBytes = slen u.
Proof. rewrite slen_app, slen_EncodeFixed64. unfold kNumInternalBytes. lia. Qed.

Lemma ExtractUserKey_app u w : ExtractUserKey (u ++ EncodeFixed64 w) = u.
Proof. unfold ExtractUserKey. rewrite len_with_footer. by apply stake_app. Qed.

Lemma footer_app u w : is_u64 w ->
  DecodeFixed64 (sdrop (slen (u ++ EncodeFixed64 w) - kNumInternalBytes) (u ++ EncodeFixed64 w)) = w.
Proof.
  intros. rewrite len_with_footer, sdrop_app by done.
  rewrite <- (app_nil_r (EncodeFixed64 w)). by apply DecodeFixed64_Encode.
Qed.

Lemma ExtractInternalKeyFooter_app u w : is_u64 w -> ExtractInternalKeyFooter (u ++ EncodeFixed64 w) = w.
Proof. apply footer_app. Qed.

Lemma AppendInternalKey_nil k : AppendInternalKey [] k =
  pk_user_key k ++ EncodeFixed64 (PackSequenceAndType (pk_sequence k) (pk_type k)).
Proof. done. Qed.

Lemma ParseInternalKey_app u w log_err : is_u64 w ->
  ParseInternalKey (u ++ EncodeFixed64 w) log_err =
  let k := {| pk_user_key := u; pk_sequence := fst (UnPackSequenceAndType w);
              pk_type := snd (UnPackSequenceAndType w) |} in
  if IsExtendedValueType (pk_type k) then (OK, Some k)
  else (Corruption ("Corrupted Key" ++ ": " ++ DebugString k log_err true)%string, Some k).
Proof.
  intros Hw. unfold ParseInternalKey. rewrite footer_app by done.
  pose proof (len_with_footer u w) as Hl. unfold kNumInternalBytes in *.
  zcase; [slia|]. rewrite Hl, stake_app by done. done.
Qed.

(** ** Lemmas: the internal order *)

Section Order.

Context (c : Comparator) {Hc : ComparatorOk c}.

Lemma Compare_sym0 a b : Compare c a b = 0 -> Compare c b a = 0.
Proof.
  intros H. pose proof (Compare_flip a b). pose proof (Compare_flip b a). lia.
Qed.

Lemma Compare_flip' a b : 0 < Compare c a b <-> Compare c b a < 0.
Proof. pose proof (Compare_flip b a). lia. Qed.

(** Keys equal for the comparator compare alike with any third key. *)
Lemma Compare_eq_l a b d : Compare c a b = 0 ->
  (Compare c a d < 0 <-> Compare c b d < 0) /\ (Compare c a d = 0 <-> Compare c b d = 0) .
Proof.
  intros H. pose proof (Compare_sym0 _ _ H) as H'.
  pose proof (Compare_trans a b d). pose proof (Compare_trans b a d).
  pose proof (Compare_trans d a b). pose proof (Compare_trans d b a).
  pose proof (Compare_flip a d). pose proof (Compare_flip d a).
  pose proof (Compare_flip b d). pose proof (Compare_flip d b). lia.
Qed.

(** The internal comparison on a user key and a packed footer. *)
Definition ik_order (u : bytes) (w : Z) (v : bytes) (x : Z) : Z :=
  let r := Compare c u v in if r =? 0 then if x <? w then -1 else if w <? x then 1 else 0 else r.

Lemma IKCompare_app u w v x : is_u64 w -> is_u64 x ->
  IKCompare c (u ++ EncodeFixed64 w) (v ++ EncodeFixed64 x) = ik_order u w v x.
Proof.
  intros. unfold IKCompare, ik_order. rewrite !ExtractUserKey_app, !footer_app by done.
  repeat zcase.
Qed.

Lemma ik_order_trans u w v x y z :
  ik_order u w v x <= 0 -> ik_order v x y z <= 0 -> ik_order u w y z <= 0.
Proof.
  unfold ik_order. intros H1 H2.
  pose proof (Compare_trans u v y). pose proof (Compare_trans v y u). pose proof (Compare_trans y u v).
  pose proof (Compare_flip u v). pose proof (Compare_flip v u).
  pose proof (Compare_flip v y). pose proof (Compare_flip y v).
  pose proof (Compare_flip u y). pose proof (Compare_flip y u).
  repeat zcase_in H1; repeat zcase_in H2; repeat zcase.
Qed.

Lemma ik_order_flip u w v x : ik_order u w v x < 0 <-> 0 < ik_order v x u w.
Proof.
  unfold ik_order. pose proof (Compare_flip u v). pose proof (Compare_flip v u). repeat zcase.
Qed.

End Order.

(** ** Lemmas: timestamps *)

Lemma slen_repeat_byte n b : 0 <= n -> slen (repeat_byte n b) = n.
Proof. intros. unfold repeat_byte. rewrite slen_replicate. lia. Qed.

Lemma stake_replicate (n : nat) m (b : byte) : 0 <= m <= Z.of_nat n -> stake m (replicate n b) = repeat_byte m b.
Proof.
  intros. unfold stake, repeat_byte. rewrite take_replicate. f_equal. lia.
Qed.

Lemma stake_footer w : stake kNumInternalBytes (EncodeFixed64 w) = EncodeFixed64 w.
Proof. apply stake_all. by rewrite slen_EncodeFixed64. Qed.

(** What the padding functions do on a key whose parts are known. *)
Lemma PadMin_app u w ts_sz :
  PadInternalKeyWithMinTimestamp [] (u ++ EncodeFixed64 w) ts_sz =
  (u ++ repeat_byte ts_sz Byte.x00) ++ EncodeFixed64 w.
Proof.
  unfold PadInternalKeyWithMinTimestamp.
  rewrite len_with_footer, stake_app, sdrop_app, stake_footer by done. by rewrite <- app_assoc.
Qed.

Lemma PadMax_app u w ts_sz :
  PadInternalKeyWithMaxTimestamp [] (u ++ EncodeFixed64 w) ts_sz =
  (u ++ repeat_byte ts_sz Byte.xff) ++ EncodeFixed64 w.
Proof.
  unfold PadInternalKeyWithMaxTimestamp.
  rewrite len_with_footer, stake_app, sdrop_app, stake_footer by done. by rewrite <- app_assoc.
Qed.

Lemma Strip_app u ts w ts_sz : slen ts = ts_sz ->
  StripTimestampFromInternalKey [] ((u ++ ts) ++ EncodeFixed64 w) ts_sz = u ++ EncodeFixed64 w.
Proof.
  intros Hts. unfold StripTimestampFromInternalKey.
  rewrite len_with_footer, (sdrop_app _ (u ++ ts)), stake_footer by done.
  rewrite <- app_assoc, stake_app by (rewrite slen_app; lia). done.
Qed.

Lemma Replace_app u ts w ts_sz : slen ts = ts_sz ->
  ReplaceInternalKeyWithMinTimestamp [] ((u ++ ts) ++ EncodeFixed64 w) ts_sz =
  (u ++ repeat_byte ts_sz Byte.x00) ++ EncodeFixed64 w.
Proof.
  intros Hts. unfold ReplaceInternalKeyWithMinTimestamp.
  rewrite len_with_footer, (sdrop_app _ (u ++ ts)), stake_footer by done.
  rewrite <- !app_assoc, stake_app by (rewrite slen_app; lia). done.
Qed.

Lemma ExtractTimestamp_app u ts w ts_sz : slen ts = ts_sz ->
  ExtractTimestampFromKey ((u ++ ts) ++ EncodeFixed64 w) ts_sz = ts.
Proof.
  intros Hts. unfold ExtractTimestampFromKey. pose proof (len_with_footer (u ++ ts) w) as Hl.
  rewrite <- app_assoc in *. rewrite sdrop_app.
  - by apply stake_app.
  - rewrite !slen_app in *. lia.
Qed.

Lemma ExtractStrip_app u ts w ts_sz : slen ts = ts_sz ->
  ExtractUserKeyAndStripTimestamp ((u ++ ts) ++ EncodeFixed64 w) ts_sz = u.
Proof.
  intros Hts. unfold ExtractUserKeyAndStripTimestamp, remove_suffix.
  pose proof (len_with_footer (u ++ ts) w) as Hl.
  rewrite <- app_assoc in *. apply stake_app. rewrite !slen_app in *. lia.
Qed.

Lemma AppendUserKeyWithMaxTimestamp_app result u ts ts_sz : slen ts = ts_sz ->
  AppendUserKeyWithMaxTimestamp result (u ++ ts) ts_sz = result ++ u ++ repeat_byte ts_sz Byte.xff.
Proof.
  intros Hts. unfold AppendUserKeyWithMaxTimestamp. pose proof (slen_nonneg ts).
  rewrite stake_app by (rewrite slen_app; lia). change (slen kTsMax) with 9. unfold kTsMax.
  rewrite <- !app_assoc. zcase; [|done].
  rewrite stake_replicate by lia. done.
Qed.

Lemma make_ts_app u old ts s t : slen old = slen ts ->
  InternalKey.IK_make_ts (u ++ old) s t ts = (u ++ ts) ++ EncodeFixed64 (PackSequenceAndType s t).
Proof.
  intros H. unfold InternalKey.IK_make_ts, AppendInternalKeyWithDifferentTimestamp.
  cbn [pk_user_key pk_sequence pk_type].
  rewrite stake_app by (rewrite slen_app; lia). done.
Qed.

(** ** Lemmas: lookup keys *)

Lemma LookupKey_internal u s ts :
  LookupKey.internal_key (LookupKey.LK_make u s ts) =
  (u ++ default [] ts) ++ EncodeFixed64 (PackSequenceAndType s kValueTypeForSeek).
Proof.
  unfold LookupKey.internal_key, LookupKey.LK_make. cbn [LookupKey.klen LookupKey.buf].
  rewrite sdrop_app by done. rewrite <- app_assoc. by destruct ts.
Qed.

Lemma LookupKey_user u s ts :
  LookupKey.user_key (LookupKey.LK_make u s ts) = u ++ default [] ts.
Proof.
  unfold LookupKey.user_key. fold (LookupKey.internal_key (LookupKey.LK_make u s ts)).
  rewrite LookupKey_internal.
  replace (slen (LookupKey.buf _) - _ - 8) with (slen (u ++ default [] ts)).
  - by apply stake_app.
  - unfold LookupKey.LK_make. cbn [LookupKey.klen LookupKey.buf].
    rewrite !slen_app, slen_EncodeFixed64. destruct ts; cbn [from_option id]; snil; lia.
Qed.

Lemma LookupKey_memtable u s ts : is_u32 (slen u + slen (default [] ts) + 8) ->
  LookupKey.memtable_key (LookupKey.LK_make u s ts) =
  PutLengthPrefixedSlice [] (LookupKey.internal_key (LookupKey.LK_make u s ts)).
Proof.
  intros H. rewrite LookupKey_internal, PutLengthPrefixedSlice_app.
  unfold LookupKey.memtable_key, LookupKey.LK_make, PutLengthPrefixedSlice, PutVarint32.
  cbn [LookupKey.buf]. rewrite !slen_app, slen_EncodeFixed64, <- !app_assoc.
  by destruct ts.
Qed.

(** ** Properties *)

Definition valid_parsed (k : ParsedInternalKey) : Prop :=
  valid_seq (pk_sequence k) /\ 0 <= pk_type k /\ IsExtendedValueType (pk_type k) = true.

(** The encoding of a parsed key, as [InternalKey] stores it. *)
Abbreviation enc := (AppendInternalKey []).

(** Parsing an encoded key returns it; the slicing functions return its
    parts; [UpdateInternalKey] replaces sequence number and type and keeps the
    user key. *)
Theorem internal_key_roundtrip (k : ParsedInternalKey) (s t : Z) (log_err : bool) :
  valid_parsed k -> valid_seq s -> is_u8 t ->
  ParseInternalKey (enc k) log_err = (OK, Some k) /\
  ExtractUserKey (enc k) = pk_user_key k /\
  GetInternalKeySeqno (enc k) = pk_sequence k /\
  ExtractValueType (enc k) = pk_type k /\
  UpdateInternalKey (enc k) s t =
    enc {| pk_user_key := pk_user_key k; pk_sequence := s; pk_type := t |} /\
  slen (enc k) = InternalKeyEncodingLength k.
Proof.
  intros (Hs & H0 & Ht) Hs' Ht'. pose proof (extended_u8 _ H0 Ht) as Hu8. destruct k as [u sq ty].
  rewrite !AppendInternalKey_nil. cbn [pk_user_key pk_sequence pk_type] in *.
  pose proof (pack_range _ _ Hs Hu8) as Hp. pose proof (unpack_pack _ _ Hs Hu8) as Hup.
  rewrite ParseInternalKey_app, Hup, ExtractUserKey_app by done. cbn [fst snd pk_type].
  rewrite Ht. unfold GetInternalKeySeqno, ExtractValueType.
  rewrite ExtractInternalKeyFooter_app by done. injection Hup as -> ->. repeat split; auto.
  - unfold UpdateInternalKey. rewrite len_with_footer, stake_app by done. done.
  - unfold InternalKeyEncodingLength. cbn [pk_user_key]. by rewrite slen_app, slen_EncodeFixed64.
Qed.

Definition sample_key : ParsedInternalKey :=
  {| pk_user_key := [Byte.x66; Byte.x6f; Byte.x6f]; pk_sequence := 2 ^ 40 + 7; pk_type := kTypeMerge |}.

Lemma internal_key_roundtrip_witness :
  ParseInternalKey (enc sample_key) false = (OK, Some sample_key).
Proof.
  apply (internal_key_roundtrip sample_key 5 kTypeValue false);
    vm_compute; repeat split; discriminate.
Defined.

(** Encodings determine the key. *)
Lemma enc_inj k k' : valid_seq (pk_sequence k) -> is_u8 (pk_type k) -> valid_seq (pk_sequence k') -> is_u8 (pk_type k') ->
  enc k = enc k' -> k = k'.
Proof.
  intros H1 H2 H3 H4. rewrite !AppendInternalKey_nil. intros E.
  assert (Hw : forall x, valid_seq (pk_sequence x) -> is_u8 (pk_type x) -> is_u64 (PackSequenceAndType (pk_sequence x) (pk_type x)))
    by (intros; by apply pack_range).
  pose proof (f_equal ExtractUserKey E) as Eu. rewrite !ExtractUserKey_app in Eu.
  pose proof (f_equal ExtractInternalKeyFooter E) as Ef. rewrite !ExtractInternalKeyFooter_app in Ef by auto.
  rewrite !pack_val in Ef by done. unfold is_u8 in *. destruct k, k'; cbn in *. f_equal; [done|lia|lia].
Qed.

(** The types a stored key may have: values, merges and deletions of all kinds,
    blob indexes, wide columns, range deletions, and the marker that truncated
    range deletions use. *)
Definition key_types : list Z := [0x0; 0x1; 0x2; 0x7; 0x11; 0x14; 0x16; 0xF; 0x18].

Lemma extended_types t : 0 <= t -> IsExtendedValueType t = true <-> t ∈ key_types.
Proof.
  intros Ht. unfold IsExtendedValueType, IsValueType. rewrite !orb_true_iff, !Z.eqb_eq, Z.leb_le.
  unfold key_types. rewrite !elem_of_cons, elem_of_nil. cbv -[Z.le Z.lt iff]. lia.
Qed.

(** [C39] On arbitrary bytes the parser is total: fewer than eight bytes are a
    corruption with no result; otherwise the result is the only key whose
    encoding is the input, and the status is OK if its type is one that a stored
    key may have, and a corruption that describes the key if not. (A build with
    assertions stops at types above 0x7F instead.) *)
Theorem parse_internal_key_total (s : bytes) (log_err : bool) :
  let (st, res) := ParseInternalKey s log_err in
  (slen s < 8 /\ res = None /\
     st = Corruption ("Corrupted Key: Internal Key too small. Size=" ++ pretty (slen s) ++ ". ")%string) \/
  (8 <= slen s /\ exists k, res = Some k /\ enc k = s /\ valid_seq (pk_sequence k) /\ is_u8 (pk_type k) /\
     (forall k', valid_seq (pk_sequence k') -> is_u8 (pk_type k') -> enc k' = s -> k' = k) /\
     st = if bool_decide (pk_type k ∈ key_types) then OK
          else Corruption ("Corrupted Key: " ++ DebugString k log_err true)%string).
Proof.
  destruct (Z.lt_ge_cases (slen s) 8) as [Hlt|Hge].
  - unfold ParseInternalKey, kNumInternalBytes. zcase. left. done.
  - destruct (internal_key_shape s ltac:(lia)) as (u & w & Hw & ->).
    rewrite ParseInternalKey_app by done. cbv zeta. destruct (unpack_range w Hw) as [Hs Ht].
    set (k := {| pk_user_key := u; pk_sequence := fst (UnPackSequenceAndType w); pk_type := snd (UnPackSequenceAndType w) |}).
    assert (He : enc k = u ++ EncodeFixed64 w).
    { rewrite AppendInternalKey_nil. cbn [k pk_user_key pk_sequence pk_type].
      unfold UnPackSequenceAndType. cbn [fst snd]. by rewrite pack_unpack. }
    pose proof (extended_types (pk_type k) (proj1 Ht)) as Hx.
    destruct (IsExtendedValueType (pk_type k)) eqn:E; right; (split; [lia|]); exists k;
      repeat (split; [done || (intros k' Hs' Ht' Ek; apply enc_inj; try done; congruence)|]).
    + by rewrite bool_decide_true by (by apply Hx).
    + rewrite bool_decide_false; [done|]. intros H%Hx. done.
Qed.

Lemma pack_lt s t s' t' : valid_seq s -> is_u8 t -> valid_seq s' -> is_u8 t' ->
  PackSequenceAndType s t < PackSequenceAndType s' t' <-> s < s' \/ (s = s' /\ t < t').
Proof. intros. rewrite !pack_val by done. unfold is_u8 in *. lia. Qed.

Lemma IKCompare_enc c a b : valid_parsed a -> valid_parsed b ->
  IKCompare c (enc a) (enc b) =
  ik_order c (pk_user_key a) (PackSequenceAndType (pk_sequence a) (pk_type a))
             (pk_user_key b) (PackSequenceAndType (pk_sequence b) (pk_type b)).
Proof.
  intros (? & ? & ?) (? & ? & ?). rewrite !AppendInternalKey_nil. apply IKCompare_app;
  auto using extended_u8, pack_range.
Qed.

(** [C21] For any user comparator that meets its contract the internal
    comparator is a total preorder on internal keys, and it sorts by
    increasing user key, then decreasing sequence number, then decreasing
    type. *)
Theorem internal_key_order (c : Comparator) (Hc : ComparatorOk c) (x y z : bytes)
    (a b : ParsedInternalKey) :
  8 <= slen x -> 8 <= slen y -> 8 <= slen z -> valid_parsed a -> valid_parsed b ->
  (IKCompare c x x = 0 /\
   (IKCompare c x y < 0 <-> 0 < IKCompare c y x) /\
   (IKCompare c x y <= 0 -> IKCompare c y z <= 0 -> IKCompare c x z <= 0)) /\
  (IKCompare c (enc a) (enc b) < 0 <->
     Compare c (pk_user_key a) (pk_user_key b) < 0 \/
     (Compare c (pk_user_key a) (pk_user_key b) = 0 /\
      (pk_sequence b < pk_sequence a \/
       (pk_sequence b = pk_sequence a /\ pk_type b < pk_type a)))).
Proof.
  intros Hx Hy Hz Ha Hb. split.
  - destruct (internal_key_shape x Hx) as (kw & w & Hw & ->).
    destruct (internal_key_shape y Hy) as (kv & v & Hv & ->).
    destruct (internal_key_shape z Hz) as (kq & q & Hq & ->).
    rewrite !IKCompare_app by done. repeat split.
    + unfold ik_order. rewrite Compare_refl. cbn. repeat zcase.
    + by apply ik_order_flip.
    + by apply ik_order_flip.
    + by apply ik_order_trans.
  - rewrite IKCompare_enc by done. destruct Ha as (? & ? & ?), Hb as (? & ? & ?).
    rewrite <- pack_lt by auto using extended_u8. unfold ik_order. repeat zcase.
Qed.

Lemma internal_key_order_witness :
  IKCompare BytewiseComparator (enc sample_key)
    (enc {| pk_user_key := pk_user_key sample_key; pk_sequence := 9; pk_type := kTypeValue |}) < 0.
Proof.
  eapply (internal_key_order BytewiseComparator _ (enc sample_key) (enc sample_key) (enc sample_key)).
  1-5: vm_compute; repeat split; discriminate.
  right. vm_compute. auto.
Defined.

(** The key with its sequence number replaced, unless the override is disabled. *)
Definition with_global (k : ParsedInternalKey) (g : Z) : ParsedInternalKey :=
  if g =? kDisableGlobalSequenceNumber then k
  else {| pk_user_key := pk_user_key k; pk_sequence := g; pk_type := pk_type k |}.

Definition valid_global (g : Z) : Prop := g = kDisableGlobalSequenceNumber \/ valid_seq g.

Lemma global_footer k g : valid_parsed k -> valid_global g ->
  (if g =? kDisableGlobalSequenceNumber then ExtractInternalKeyFooter (enc k)
   else PackSequenceAndType g (ExtractValueType (enc k))) =
  PackSequenceAndType (pk_sequence (with_global k g)) (pk_type (with_global k g)).
Proof.
  intros (Hs & H0 & Ht) Hg. pose proof (extended_u8 _ H0 Ht) as Hu8.
  unfold ExtractValueType. rewrite AppendInternalKey_nil, ExtractInternalKeyFooter_app by auto with rocks.
  unfold with_global. destruct (g =? _); [done|]. cbn [pk_sequence pk_type].
  pose proof (unpack_pack _ _ Hs Hu8) as E. unfold UnPackSequenceAndType in E. by injection E as _ ->.
Qed.

(** The six comparison routines are one order: the overloads on parsed
    keys, on a slice and a parsed key, and on keys with overriding sequence
    numbers give the sign that [Compare] gives on the encodings, and
    [CompareKeySeq] is that order with the type ignored. *)
Theorem compare_overloads_agree (c : Comparator) (Hc : ComparatorOk c)
    (a b : ParsedInternalKey) (ga gb : Z) :
  valid_parsed a -> valid_parsed b -> valid_global ga -> valid_global gb ->
  IKCompare_parsed c a b = IKCompare c (enc a) (enc b) /\
  IKCompare_slice_parsed c (enc a) b = IKCompare c (enc a) (enc b) /\
  Z.sgn (IKCompare_parsed_slice c a (enc b)) = Z.sgn (IKCompare c (enc a) (enc b)) /\
  IKCompare_global c (enc a) ga (enc b) gb =
    IKCompare c (enc (with_global a ga)) (enc (with_global b gb)) /\
  CompareKeySeq_parsed c a (enc b) = CompareKeySeq c (enc a) (enc b) /\
  (CompareKeySeq c (enc a) (enc b) = 0 <->
     Compare c (pk_user_key a) (pk_user_key b) = 0 /\ pk_sequence a = pk_sequence b) /\
  (CompareKeySeq c (enc a) (enc b) < 0 -> IKCompare c (enc a) (enc b) < 0).
Proof.
  intros Ha Hb Hga Hgb.
  assert (Hg : forall k g, valid_parsed k -> valid_global g -> valid_parsed (with_global k g)).
  { intros k g Hk [->|Hs]; unfold with_global; [by rewrite Z.eqb_refl|].
    destruct (g =? _); [done|]. by destruct Hk as (? & ? & ?). }
  unfold IKCompare_parsed_slice, IKCompare_global. rewrite !global_footer by done.
  rewrite !IKCompare_enc by auto.
  destruct Ha as (Hsa & H0a & Hta), Hb as (Hsb & H0b & Htb).
  pose proof (extended_u8 _ H0a Hta). pose proof (extended_u8 _ H0b Htb).
  pose proof (unpack_pack (pk_sequence a) (pk_type a)) as Ua.
  pose proof (unpack_pack (pk_sequence b) (pk_type b)) as Ub.
  unfold UnPackSequenceAndType in Ua, Ub. specialize (Ua ltac:(done) ltac:(done)).
  specialize (Ub ltac:(done) ltac:(done)). injection Ua as Ua1 Ua2. injection Ub as Ub1 Ub2.
  unfold IKCompare_parsed, IKCompare_slice_parsed, CompareKeySeq, CompareKeySeq_parsed.
  rewrite !AppendInternalKey_nil, !ExtractUserKey_app, !footer_app by auto with rocks.
  rewrite Ua1, Ub1.
  fold (PackSequenceAndType (pk_sequence a) (pk_type a)).
  fold (PackSequenceAndType (pk_sequence b) (pk_type b)).
  assert (Hku : forall k g, pk_user_key (with_global k g) = pk_user_key k)
    by (intros k g; unfold with_global; by destruct (g =? _)).
  rewrite !Hku. rewrite !(pack_val (pk_sequence a)), !(pack_val (pk_sequence b)) by done.
  pose proof (Compare_flip (pk_user_key a) (pk_user_key b)).
  pose proof (Compare_flip (pk_user_key b) (pk_user_key a)).
  unfold ik_order, is_u8 in *.
  do 5 (split; [repeat zcase|]). repeat zcase.
Qed.

Lemma compare_overloads_agree_witness :
  IKCompare_parsed BytewiseComparator sample_key sample_key =
  IKCompare BytewiseComparator (enc sample_key) (enc sample_key).
Proof.
  refine (proj1 (compare_overloads_agree BytewiseComparator _ sample_key sample_key
            kDisableGlobalSequenceNumber 12 _ _ _ _)).
  1-2: vm_compute; repeat split; discriminate.
  - by left.
  - right. vm_compute. repeat split; discriminate.
Defined.

(** A lookup key for a user key (with its timestamp) and a snapshot: the
    internal key and the user key are the slices asked for, the memtable key
    is the length-prefixed internal key, and the internal key sorts at or
    before every entry of that user key visible at the snapshot and after
    every entry above it, so that a seek finds the newest visible entry. *)
Theorem lookup_key_correct (c : Comparator) (Hc : ComparatorOk c) (u : bytes) (s : Z)
    (ts : option bytes) (k : ParsedInternalKey) (rest : bytes) :
  is_u32 (slen u + slen (default [] ts) + 8) -> valid_seq s -> valid_parsed k ->
  let lk := LookupKey.LK_make u s ts in
  Compare c (u ++ default [] ts) (pk_user_key k) = 0 -> pk_type k <= kValueTypeForSeek ->
  LookupKey.internal_key lk =
    enc {| pk_user_key := u ++ default [] ts; pk_sequence := s; pk_type := kValueTypeForSeek |} /\
  LookupKey.user_key lk = u ++ default [] ts /\
  GetLengthPrefixedSlice (LookupKey.memtable_key lk ++ rest) =
    Some (LookupKey.internal_key lk, rest) /\
  (pk_sequence k <= s -> IKCompare c (LookupKey.internal_key lk) (enc k) <= 0) /\
  (s < pk_sequence k -> 0 < IKCompare c (LookupKey.internal_key lk) (enc k)).
Proof.
  intros Hlen Hs Hk lk Heq Hty.
  assert (Hint : LookupKey.internal_key lk =
    enc {| pk_user_key := u ++ default [] ts; pk_sequence := s; pk_type := kValueTypeForSeek |})
    by (unfold lk; by rewrite LookupKey_internal).
  split; [done|]. split; [apply LookupKey_user|]. split.
  { unfold lk. rewrite LookupKey_memtable by done. apply GetLengthPrefixedSlice_Put.
    rewrite LookupKey_internal, !slen_app, slen_EncodeFixed64. unfold is_u32 in *. lia. }
  rewrite Hint, IKCompare_enc by (done || by repeat split).
  destruct Hk as (Hsk & H0k & Htk). pose proof (extended_u8 _ H0k Htk).
  cbn [pk_user_key pk_sequence pk_type]. unfold ik_order. rewrite Heq. cbn.
  rewrite !pack_val by done. unfold is_u8, kValueTypeForSeek, kTypeWideColumnEntity in *.
  split; intros; repeat zcase.
Qed.

Lemma lookup_key_correct_witness :
  LookupKey.user_key (LookupKey.LK_make (pk_user_key sample_key) (2 ^ 41) None) =
    pk_user_key sample_key /\
  IKCompare BytewiseComparator
    (LookupKey.internal_key (LookupKey.LK_make (pk_user_key sample_key) (2 ^ 41) None))
    (enc sample_key) <= 0.
Proof.
  epose proof (lookup_key_correct BytewiseComparator _ (pk_user_key sample_key) (2 ^ 41) None
                sample_key []) as H.
  destruct H as (_ & H1 & _ & H2 & _);
    [vm_compute; repeat split; discriminate .. |].
  split; [exact H1|]. apply H2. vm_compute. discriminate.
Defined.

(** The functions that add, remove and replace timestamps compose: padding
    is undone by stripping, replacing the timestamp by the minimum is
    stripping then padding, the timestamp read back is the one written, and
    sequence number and type are kept throughout; the maximum timestamp is all
    ones whether it fits the constant of the code or is built. *)
Theorem timestamps_compose (u ts : bytes) (w ts_sz : Z) (result : bytes) :
  slen ts = ts_sz ->
  let bare := u ++ EncodeFixed64 w in
  let key := (u ++ ts) ++ EncodeFixed64 w in
  StripTimestampFromInternalKey [] (PadInternalKeyWithMinTimestamp [] bare ts_sz) ts_sz = bare /\
  StripTimestampFromInternalKey [] (PadInternalKeyWithMaxTimestamp [] bare ts_sz) ts_sz = bare /\
  StripTimestampFromInternalKey [] key ts_sz = bare /\
  ReplaceInternalKeyWithMinTimestamp [] key ts_sz =
    PadInternalKeyWithMinTimestamp [] (StripTimestampFromInternalKey [] key ts_sz) ts_sz /\
  ExtractTimestampFromKey key ts_sz = ts /\
  ExtractUserKeyAndStripTimestamp key ts_sz = u /\
  ExtractTimestampFromKey (PadInternalKeyWithMaxTimestamp [] bare ts_sz) ts_sz =
    repeat_byte ts_sz Byte.xff /\
  AppendUserKeyWithMaxTimestamp result (u ++ ts) ts_sz =
    AppendKeyWithMaxTimestamp result u ts_sz /\
  AppendUserKeyWithMinTimestamp result (u ++ ts) ts_sz =
    AppendKeyWithMinTimestamp result u ts_sz.
Proof.
  intros Hts bare key. subst bare key. pose proof (slen_nonneg ts).
  rewrite !PadMin_app, !PadMax_app, Replace_app, !Strip_app, PadMin_app
    by (rewrite ?slen_repeat_byte; lia).
  rewrite !ExtractTimestamp_app, ExtractStrip_app, AppendUserKeyWithMaxTimestamp_app
    by (rewrite ?slen_repeat_byte; lia).
  repeat split. unfold AppendUserKeyWithMinTimestamp. rewrite stake_app; [done|].
  rewrite slen_app. lia.
Qed.

Lemma timestamps_compose_witness :
  ExtractTimestampFromKey (([Byte.x61] ++ EncodeU64Ts 77) ++ EncodeFixed64 300) 8 = EncodeU64Ts 77.
Proof. apply (timestamps_compose [Byte.x61] (EncodeU64Ts 77) 300 8 []). reflexivity. Defined.

(** The bounds of the entries of a user key: the key that
    [SetMaxPossibleForUserKey] writes into an empty [InternalKey] sorts at or
    after every entry; the one of [SetMinPossibleForUserKey] sorts at or
    before every entry of a type up to [kValueTypeForSeek]; the serialized end
    of a range tombstone sorts at or before every entry of its end key except
    those that carry both the maximal sequence number and a type above
    [kTypeRangeDeletion], and after those. *)
Theorem user_key_bounds (c : Comparator) (Hc : ComparatorOk c) (k : ParsedInternalKey)
    (t : RangeTombstone.RT_t) :
  valid_parsed k -> RangeTombstone.ts t = [] -> RangeTombstone.end_key t = pk_user_key k ->
  let u := pk_user_key k in
  IKCompare c (enc k) (InternalKey.SetMaxPossibleForUserKey [] u) <= 0 /\
  (pk_type k <= kValueTypeForSeek ->
     IKCompare c (InternalKey.SetMinPossibleForUserKey [] u) (enc k) <= 0) /\
  (pk_sequence k < kMaxSequenceNumber \/ pk_type k <= kTypeRangeDeletion ->
     IKCompare c (RangeTombstone.SerializeEndKey t) (enc k) <= 0) /\
  (pk_sequence k = kMaxSequenceNumber -> kTypeRangeDeletion < pk_type k ->
     0 < IKCompare c (RangeTombstone.SerializeEndKey t) (enc k)).
Proof.
  intros Hk Hts Hend u. subst u. unfold RangeTombstone.SerializeEndKey. rewrite Hts, Hend.
  snil. cbn [Z.eqb negb].
  unfold InternalKey.SetMaxPossibleForUserKey, InternalKey.SetMinPossibleForUserKey, InternalKey.IK_make.
  rewrite !IKCompare_enc by (done || by repeat split).
  destruct Hk as (Hsk & H0k & Htk). pose proof (extended_u8 _ H0k Htk).
  cbn [pk_user_key pk_sequence pk_type]. unfold ik_order. rewrite Compare_refl. cbn.
  rewrite !pack_val by done.
  unfold is_u8, valid_seq, kValueTypeForSeek, kTypeWideColumnEntity, kTypeRangeDeletion in *.
  repeat split; intros; repeat zcase.
Qed.

Lemma user_key_bounds_witness :
  IKCompare BytewiseComparator
    (RangeTombstone.SerializeEndKey (RangeTombstone.RT_make [] (pk_user_key sample_key) 3))
    (enc sample_key) <= 0.
Proof.
  eapply (user_key_bounds BytewiseComparator _ sample_key
            (RangeTombstone.RT_make [] (pk_user_key sample_key) 3)).
  - vm_compute. repeat split; discriminate.
  - reflexivity.
  - reflexivity.
  - left. vm_compute. reflexivity.
Defined.
