(* ===== verification/IterKey.v ===== *)
(** * IterKey: the key buffer of the iterators

    Models the class [IterKey] of db/dbformat.h and [IterKey::EnlargeBuffer] of
    db/dbformat.cc at the level of its memory: the inline array [space_], the
    heap block that replaces it for long keys, and the pointer [key_], which
    points into one of them, into memory of the caller, or to memory that was
    freed. A read or write outside the memory a pointer designates, or through
    a freed pointer, is [None]; the theorems show that the operations never do
    it, and what key they leave.

    The slices that are passed to an operation are values: the caller's memory
    is not part of the state, and a slice into the key's own buffer (which an
    operation that enlarges the buffer would free before it copies) cannot be
    passed. The code has no assertion against it; PlainTableKeyDecoder copies
    such a prefix to a string first. *)

From S2P Require Import Prelude Coding Slice Comparator DbFormat.

(** ** State *)

(** A value of [key_]. *)
Inductive KeyPtr :=
| PSpace                (** [space_] *)
| PHeap                 (** the block [buf_] points to, when it is not [space_] *)
| PExt (mem : bytes)    (** memory of the caller, from the pointer on *)
| PFreed.               (** a block that was deleted *)

Record IterKey := {
  space_ : bytes;            (** contents of [space_] *)
  heap_ : option bytes;      (** contents of the heap block; [None] when [buf_ == space_] *)
  key_ : KeyPtr;
  key_size_ : Z;
  buf_size_ : Z;
  is_user_key_ : bool
}.

Definition sizeof_space : Z := 39.

(** The memory [buf_] points to. *)
Definition buf_ (k : IterKey) : bytes := default (space_ k) (heap_ k).

(** [buf_] as a pointer value. *)
Definition buf_ptr (k : IterKey) : KeyPtr := match heap_ k with None => PSpace | Some _ => PHeap end.

(** The memory a pointer gives access to. *)
Definition deref (k : IterKey) (p : KeyPtr) : option bytes :=
  match p with
  | PSpace => Some (space_ k)
  | PHeap => heap_ k
  | PExt m => Some m
  | PFreed => None
  end.

(** [Slice(key_ + off, n)]. *)
Definition read_key (k : IterKey) (off n : Z) : option bytes :=
  m ← deref k (key_ k);
  if n =? 0 then Some []
  else if off + n <=? slen m then Some (stake n (sdrop off m)) else None.

(** [memcpy(buf_ + off, data, data.size())]. *)
Definition overwrite (m : bytes) (off : Z) (data : bytes) : bytes :=
  stake off m ++ data ++ sdrop (off + slen data) m.

Definition memcpy_buf (k : IterKey) (off : Z) (data : bytes) : option IterKey :=
  if off + slen data <=? slen (buf_ k) then
    let m := overwrite (buf_ k) off data in
    Some {| space_ := match heap_ k with None => m | Some _ => space_ k end;
            heap_ := match heap_ k with None => None | Some _ => Some m end;
            key_ := key_ k; key_size_ := key_size_ k; buf_size_ := buf_size_ k;
            is_user_key_ := is_user_key_ k |}
  else None.

(** Assignments to a field. *)
Definition point_key (k : IterKey) (p : KeyPtr) : IterKey :=
  {| space_ := space_ k; heap_ := heap_ k; key_ := p; key_size_ := key_size_ k;
     buf_size_ := buf_size_ k; is_user_key_ := is_user_key_ k |}.
Definition set_key_size (k : IterKey) (n : Z) : IterKey :=
  {| space_ := space_ k; heap_ := heap_ k; key_ := key_ k; key_size_ := n;
     buf_size_ := buf_size_ k; is_user_key_ := is_user_key_ k |}.
Definition set_is_user_key (k : IterKey) (b : bool) : IterKey :=
  {| space_ := space_ k; heap_ := heap_ k; key_ := key_ k; key_size_ := key_size_ k;
     buf_size_ := buf_size_ k; is_user_key_ := b |}.

(** [key_ = buf_]. *)
Definition key_to_buf (k : IterKey) : IterKey := point_key k (buf_ptr k).

(** ** Operations *)

(** The constructor; [junk] is what the array holds before it is written. *)
Definition IterKey_init (junk : bytes) : IterKey :=
  {| space_ := junk; heap_ := None; key_ := PSpace; key_size_ := 0;
     buf_size_ := sizeof_space; is_user_key_ := true |}.

Definition SetIsUserKey (k : IterKey) (is_user_key : bool) : IterKey := set_is_user_key k is_user_key.

Definition IsUserKey (k : IterKey) : bool := is_user_key_ k.

Definition GetKey (k : IterKey) : option bytes := read_key k 0 (key_size_ k).

Definition GetInternalKey (k : IterKey) : option bytes := read_key k 0 (key_size_ k).

Definition GetUserKey (k : IterKey) : option bytes :=
  if IsUserKey k then read_key k 0 (key_size_ k)
  else read_key k 0 (key_size_ k - kNumInternalBytes).

Definition Size (k : IterKey) : Z := key_size_ k.

Definition IterKey_Clear (k : IterKey) : IterKey := set_key_size k 0.

(** [key_ != buf_]. *)
Definition IsKeyPinned (k : IterKey) : bool :=
  match key_ k, heap_ k with PSpace, None => false | PHeap, Some _ => false | _, _ => true end.

(** [delete[] buf_] leaves a pointer into the block dangling. *)
Definition free_heap (k : IterKey) : KeyPtr := match key_ k with PHeap => PFreed | p => p end.

Definition ResetBuffer (k : IterKey) : IterKey :=
  {| space_ := space_ k; heap_ := None; key_ := free_heap k; key_size_ := 0;
     buf_size_ := sizeof_space; is_user_key_ := is_user_key_ k |}.

Section Memory.

(** The contents of a new block [new char[n]]: any [n] bytes. *)
Variable fresh : Z -> bytes.

(** A pointer into the block that [ResetBuffer] freed does not become valid
    again with the new block. *)
Definition EnlargeBuffer (k : IterKey) (key_size : Z) : IterKey :=
  let k := ResetBuffer k in
  {| space_ := space_ k; heap_ := Some (fresh key_size); key_ := key_ k; key_size_ := key_size_ k;
     buf_size_ := key_size; is_user_key_ := is_user_key_ k |}.

Definition EnlargeBufferIfNeeded (k : IterKey) (key_size : Z) : IterKey :=
  if buf_size_ k <? key_size then EnlargeBuffer k key_size else k.

(** The first half of [TrimAppend]: the shared bytes come to the front of a
    buffer of at least [total_size] bytes. *)
Definition TrimAppend_shared (k : IterKey) (shared_len total_size : Z) : option IterKey :=
  if IsKeyPinned k then
    let k := EnlargeBufferIfNeeded k total_size in
    shared ← read_key k 0 shared_len;
    memcpy_buf k 0 shared
  else if buf_size_ k <? total_size then
    shared ← read_key k 0 shared_len;
    Some {| space_ := space_ k; heap_ := Some (overwrite (fresh total_size) 0 shared);
            key_ := free_heap k; key_size_ := key_size_ k; buf_size_ := total_size;
            is_user_key_ := is_user_key_ k |}
  else Some k.

Definition TrimAppend (k : IterKey) (shared_len : Z) (non_shared : bytes) : option IterKey :=
  let total_size := shared_len + slen non_shared in
  k ← TrimAppend_shared k shared_len total_size;
  k ← memcpy_buf k shared_len non_shared;
  Some (set_key_size (key_to_buf k) total_size).

Definition SetKeyImpl (k : IterKey) (key : bytes) (copy : bool) : option IterKey :=
  let size := slen key in
  k ← (if copy then
         k ← memcpy_buf (EnlargeBufferIfNeeded k size) 0 key;
         Some (key_to_buf k)
       else Some (point_key k (PExt key)));
  Some (set_key_size k size).

Definition SetKey (k : IterKey) (key : bytes) (copy : bool) : option IterKey := SetKeyImpl k key copy.

Definition SetUserKey (k : IterKey) (key : bytes) (copy : bool) : option IterKey :=
  SetKeyImpl (set_is_user_key k true) key copy.

Definition SetInternalKey (k : IterKey) (key : bytes) (copy : bool) : option IterKey :=
  SetKeyImpl (set_is_user_key k false) key copy.

(** The overload that also updates the user key of [ikey]. *)
Definition SetInternalKey_ikey (k : IterKey) (key : bytes) (ikey : ParsedInternalKey)
    : option (IterKey * ParsedInternalKey) :=
  let key_n := slen key in
  k ← SetInternalKey k key true;
  u ← read_key k 0 (key_n - kNumInternalBytes);
  Some (k, {| pk_user_key := u; pk_sequence := pk_sequence ikey; pk_type := pk_type ikey |}).

(** One call: the slice is split where the timestamp goes. *)
Definition MaybeAddKeyPartsWithTimestamp (slice : bytes) (add_timestamp : bool) (left_sz : Z)
    (min_timestamp : bytes) (acc : list bytes * bool) : list bytes * bool :=
  let (key_parts, ts_added) := acc in
  if add_timestamp && negb ts_added
  then (key_parts ++ [stake left_sz slice; min_timestamp; sdrop left_sz slice], true)
  else (key_parts ++ [slice], ts_added).

Definition TrimAppendWithTimestamp (k : IterKey) (shared_len : Z) (non_shared : bytes) (ts_sz : Z)
    : option IterKey :=
  let kTsMin := repeat_byte ts_sz Byte.x00 in
  let non_shared_len := slen non_shared in
  key_parts_with_ts ←
    (if IsUserKey k then
       shared ← read_key k 0 shared_len;
       Some [shared; non_shared; kTsMin]
     else
       let user_key_len := u64 (key_size_ k - kNumInternalBytes) in
       let sharable_user_key_len := u64 (user_key_len - ts_sz) in
       let shared_user_key_len := Z.min shared_len sharable_user_key_len in
       let shared_internal_bytes_len := shared_len - shared_user_key_len in
       user_part ← read_key k 0 shared_user_key_len;
       internal_part ← read_key k user_key_len shared_internal_bytes_len;
       let acc := MaybeAddKeyPartsWithTimestamp user_part
         (shared_internal_bytes_len + non_shared_len <? kNumInternalBytes)
         (shared_len + non_shared_len - kNumInternalBytes) kTsMin ([], false) in
       let acc := MaybeAddKeyPartsWithTimestamp internal_part
         (non_shared_len <? kNumInternalBytes)
         (shared_internal_bytes_len + non_shared_len - kNumInternalBytes) kTsMin acc in
       let acc := MaybeAddKeyPartsWithTimestamp non_shared
         (kNumInternalBytes <=? non_shared_len)
         (non_shared_len - kNumInternalBytes) kTsMin acc in
       Some (fst acc));
  SetKey k (slice_of_parts key_parts_with_ts []) true.

Definition Reserve (k : IterKey) (size : Z) : IterKey :=
  set_key_size (EnlargeBufferIfNeeded k size) size.

Definition OwnKey (k : IterKey) : option IterKey :=
  let k := Reserve k (key_size_ k) in
  key ← read_key k 0 (key_size_ k);
  k ← memcpy_buf k 0 key;
  Some (key_to_buf k).

Definition IterKey_UpdateInternalKey (k : IterKey) (seq t : Z) (ts : option bytes) : option IterKey :=
  k ← match ts with
      | Some ts => memcpy_buf k (key_size_ k - kNumInternalBytes - slen ts) ts
      | None => Some k
      end;
  memcpy_buf k (key_size_ k - kNumInternalBytes) (EncodeFixed64 (Z.lor (u64 (Z.shiftl seq 8)) t)).

(** The overload that builds the key from a prefix, a user key and a footer. *)
Definition SetInternalKey_parts (k : IterKey) (key_prefix user_key : bytes) (s value_type : Z)
    (ts : option bytes) : option IterKey :=
  let psize := slen key_prefix in
  let usize := slen user_key in
  let ts_sz := match ts with Some ts => slen ts | None => 0 end in
  let k := EnlargeBufferIfNeeded k (psize + usize + 8 + ts_sz) in
  k ← (if 0 <? psize then memcpy_buf k 0 key_prefix else Some k);
  k ← memcpy_buf k psize user_key;
  k ← match ts with Some ts => memcpy_buf k (psize + usize) ts | None => Some k end;
  k ← memcpy_buf k (usize + psize + ts_sz) (EncodeFixed64 (PackSequenceAndType s value_type));
  Some (set_is_user_key (set_key_size (key_to_buf k) (psize + usize + 8 + ts_sz)) false).

Definition SetInternalKey_user (k : IterKey) (user_key : bytes) (s value_type : Z)
    (ts : option bytes) : option IterKey :=
  SetInternalKey_parts k [] user_key s value_type ts.

Definition SetInternalKey_prefix_parsed (k : IterKey) (key_prefix : bytes)
    (parsed_key_suffix : ParsedInternalKey) : option IterKey :=
  SetInternalKey_parts k key_prefix (pk_user_key parsed_key_suffix)
    (pk_sequence parsed_key_suffix) (pk_type parsed_key_suffix) None.

Definition SetInternalKey_parsed (k : IterKey) (parsed_key : ParsedInternalKey) : option IterKey :=
  SetInternalKey_prefix_parsed k [] parsed_key.

Definition EncodeLengthPrefixedKey (k : IterKey) (key : bytes) : option IterKey :=
  let size := slen key in
  let k := EnlargeBufferIfNeeded k (size + VarintLength size) in
  k ← memcpy_buf k 0 (EncodeVarint32 (u32 size));
  k ← memcpy_buf k (slen (EncodeVarint32 (u32 size))) key;
  Some (set_is_user_key (key_to_buf k) true).

End Memory.

(** ** The abstract key *)

(** What a client sees: a key, whether it is a user key, and whether it is in
    memory of the client. *)
Record AbsKey := { a_key : bytes; a_user : bool; a_pinned : bool }.

(** The operations that work on a key or set one. *)
Inductive KeyOp :=
| OSetIsUserKey (b : bool)
| OClear
| OTrimAppend (shared_len : Z) (non_shared : bytes)
| OTrimAppendWithTimestamp (shared_len : Z) (non_shared : bytes) (ts_sz : Z)
| OSetKey (key : bytes) (copy : bool)
| OSetUserKey (key : bytes) (copy : bool)
| OSetInternalKey (key : bytes) (copy : bool)
| OSetInternalKeyParts (key_prefix user_key : bytes) (s t : Z) (ts : option bytes)
| OOwnKey
| OUpdateInternalKey (seq t : Z) (ts : option bytes).

(** The assertions of the code, and the sizes the callers keep. *)
Definition pre (a : AbsKey) (o : KeyOp) : Prop :=
  match o with
  | OTrimAppend n _ => 0 <= n <= slen (a_key a)
  | OTrimAppendWithTimestamp n ns ts_sz =>
      0 <= ts_sz /\ 0 <= n /\
      if a_user a then n <= slen (a_key a)
      else (a_key a = [] /\ n = 0 \/ kNumInternalBytes + ts_sz <= slen (a_key a) < 2 ^ 64 /\
              n <= slen (a_key a) - ts_sz) /\ kNumInternalBytes <= n + slen ns
  | OOwnKey => a_pinned a = true
  | OUpdateInternalKey _ _ ts =>
      a_pinned a = false /\ kNumInternalBytes + slen (default [] ts) <= slen (a_key a)
  | _ => True
  end.

Definition spec (a : AbsKey) (o : KeyOp) : AbsKey :=
  match o with
  | OSetIsUserKey b => {| a_key := a_key a; a_user := b; a_pinned := a_pinned a |}
  | OClear => {| a_key := []; a_user := a_user a; a_pinned := a_pinned a |}
  | OTrimAppend n ns =>
      {| a_key := stake n (a_key a) ++ ns; a_user := a_user a; a_pinned := false |}
  | OTrimAppendWithTimestamp n ns ts_sz =>
      {| a_key := if a_user a then stake n (a_key a) ++ ns ++ repeat_byte ts_sz Byte.x00
                  else PadInternalKeyWithMinTimestamp []
                         (stake n (StripTimestampFromInternalKey [] (a_key a) ts_sz) ++ ns) ts_sz;
         a_user := a_user a; a_pinned := false |}
  | OSetKey key copy => {| a_key := key; a_user := a_user a; a_pinned := negb copy |}
  | OSetUserKey key copy => {| a_key := key; a_user := true; a_pinned := negb copy |}
  | OSetInternalKey key copy => {| a_key := key; a_user := false; a_pinned := negb copy |}
  | OSetInternalKeyParts p u s t ts =>
      {| a_key := p ++ u ++ default [] ts ++ EncodeFixed64 (PackSequenceAndType s t);
         a_user := false; a_pinned := false |}
  | OOwnKey => {| a_key := a_key a; a_user := a_user a; a_pinned := false |}
  | OUpdateInternalKey seq t ts =>
      {| a_key := stake (slen (a_key a) - kNumInternalBytes - slen (default [] ts)) (a_key a) ++
                  default [] ts ++ EncodeFixed64 (PackSequenceAndType seq t);
         a_user := a_user a; a_pinned := a_pinned a |}
  end.

Definition exec_key (fresh : Z -> bytes) (k : IterKey) (o : KeyOp) : option IterKey :=
  match o with
  | OSetIsUserKey b => Some (SetIsUserKey k b)
  | OClear => Some (IterKey_Clear k)
  | OTrimAppend n ns => TrimAppend fresh k n ns
  | OTrimAppendWithTimestamp n ns ts_sz => TrimAppendWithTimestamp fresh k n ns ts_sz
  | OSetKey key copy => SetKey fresh k key copy
  | OSetUserKey key copy => SetUserKey fresh k key copy
  | OSetInternalKey key copy => SetInternalKey fresh k key copy
  | OSetInternalKeyParts p u s t ts => SetInternalKey_parts fresh k p u s t ts
  | OOwnKey => OwnKey fresh k
  | OUpdateInternalKey seq t ts => IterKey_UpdateInternalKey k seq t ts
  end.

(** *** Without a key *)

(** All public operations: [Reserve] and [EncodeLengthPrefixedKey], too, which
    change the memory or the size of the key without the other. *)
Inductive Op :=
| OKey (o : KeyOp)
| OReserve (size : Z)
| OEncodeLengthPrefixedKey (key : bytes).

Definition exec (fresh : Z -> bytes) (k : IterKey) (o : Op) : option IterKey :=
  match o with
  | OKey o => exec_key fresh k o
  | OReserve size => Some (Reserve fresh k size)
  | OEncodeLengthPrefixedKey key => EncodeLengthPrefixedKey fresh k key
  end.

(** What a client can rely on: a key; a length-prefixed key at [key_], of which
    [key_size_] is not the size; or nothing, after [Reserve] of more than the
    key has. *)
Inductive View :=
| VKey (a : AbsKey)
| VEncoded (key : bytes) (user : bool)
| VOpen (user : bool).

Definition view_user (v : View) : bool :=
  match v with VKey a => a_user a | VEncoded _ user | VOpen user => user end.

(** Without a key, only what does not read it. *)
Definition view_pre (v : View) (o : Op) : Prop :=
  match o with
  | OReserve size => 0 <= size
  | OEncodeLengthPrefixedKey key => is_u32 (slen key)
  | OKey o =>
      match v with
      | VKey a => pre a o
      | _ => match o with
             | OSetIsUserKey _ | OClear | OSetKey _ _ | OSetUserKey _ _ | OSetInternalKey _ _
             | OSetInternalKeyParts _ _ _ _ _ => True
             | _ => False
             end
      end
  end.

Definition view_spec (v : View) (o : Op) : View :=
  match o with
  | OReserve size =>
      match v with
      | VKey a => if size <=? slen (a_key a)
                  then VKey {| a_key := stake size (a_key a); a_user := a_user a; a_pinned := a_pinned a |}
                  else VOpen (a_user a)
      | _ => VOpen (view_user v)
      end
  | OEncodeLengthPrefixedKey key => VEncoded key true
  | OKey o =>
      match v, o with
      | VKey a, _ => VKey (spec a o)
      | VEncoded key _, OSetIsUserKey b => VEncoded key b
      | VOpen _, OSetIsUserKey b => VOpen b
      | _, OClear => v
      | _, _ => VKey (spec {| a_key := []; a_user := view_user v; a_pinned := false |} o)
      end
  end.

Fixpoint run (fresh : Z -> bytes) (k : IterKey) (os : list Op) : option IterKey :=
  match os with [] => Some k | o :: os => k' ← exec fresh k o; run fresh k' os end.

Fixpoint pre_all (v : View) (os : list Op) : Prop :=
  match os with [] => True | o :: os => view_pre v o /\ pre_all (view_spec v o) os end.

(** ** Invariant and refinement relation *)

Definition base (k : IterKey) : Prop :=
  slen (space_ k) = sizeof_space /\ buf_size_ k = slen (buf_ k).

(** [key] is the key the state holds. *)
Definition holds (k : IterKey) (key : bytes) : Prop :=
  base k /\ key_size_ k = slen key /\ exists rest, deref k (key_ k) = Some (key ++ rest).

Definition refines (k : IterKey) (a : AbsKey) : Prop :=
  holds k (a_key a) /\ is_user_key_ k = a_user a /\ IsKeyPinned k = a_pinned a.

Lemma deref_buf k : deref k (buf_ptr k) = Some (buf_ k).
Proof. unfold deref, buf_ptr, buf_. by destruct (heap_ k). Qed.

Lemma read_key_ok k m off n key : deref k (key_ k) = Some m -> 0 <= off ->
  (exists p rest, m = p ++ key ++ rest /\ slen p = off) -> n = slen key ->
  read_key k off n = Some key.
Proof.
  intros Hm Hoff (p & rest & -> & Hp) ->. unfold read_key. rewrite Hm. cbn [mbind option_bind].
  destruct (Z.eqb_spec (slen key) 0) as [H0|]; [f_equal; symmetry; by apply slen_0_nil|].
  rewrite sdrop_app, stake_app by done. rewrite !slen_app. zcase; [done|slia].
Qed.

Lemma holds_read k key n : holds k key -> 0 <= n <= slen key -> read_key k 0 n = Some (stake n key).
Proof.
  intros (_ & _ & rest & Hm) Hn. eapply read_key_ok; [exact Hm|done|exists [], (sdrop n key ++ rest)|].
  - by rewrite app_nil_l, app_assoc, stake_sdrop.
  - by rewrite slen_stake.
Qed.

Lemma holds_GetKey k key : holds k key -> GetKey k = Some key.
Proof.
  intros H. unfold GetKey. pose proof H as (_ & -> & _). rewrite (holds_read k key) by (done || slia).
  by rewrite stake_all by done.
Qed.

(** The two facts about a write: it is defined inside the buffer, and it
    leaves everything else. *)
Lemma memcpy_buf_ok k off data : base k -> 0 <= off -> off + slen data <= slen (buf_ k) ->
  exists k', memcpy_buf k off data = Some k' /\ base k' /\
    buf_ k' = overwrite (buf_ k) off data /\ buf_ptr k' = buf_ptr k /\
    key_ k' = key_ k /\ key_size_ k' = key_size_ k /\ is_user_key_ k' = is_user_key_ k.
Proof.
  intros [Hs Hb] H0 H. unfold memcpy_buf. zcase. eexists. split; [reflexivity|].
  assert (Hl : slen (overwrite (buf_ k) off data) = slen (buf_ k)).
  { unfold overwrite. pose proof (slen_nonneg data).
    rewrite !slen_app, slen_stake, slen_sdrop; lia. }
  unfold base, buf_, buf_ptr in *. cbn. destruct (heap_ k); cbn in *; repeat split; lia.
Qed.

Lemma overwrite_app a b c data : slen b = slen data ->
  overwrite (a ++ b ++ c) (slen a) data = a ++ data ++ c.
Proof.
  intros H. unfold overwrite. rewrite stake_app by done.
  by rewrite (app_assoc a b c), (sdrop_app _ (a ++ b)) by (rewrite slen_app; lia).
Qed.

(** Any buffer long enough splits at the place of a write. *)
Lemma split3 (m : bytes) x y : 0 <= x -> 0 <= y -> x + y <= slen m ->
  exists a b c, m = a ++ b ++ c /\ slen a = x /\ slen b = y.
Proof.
  intros Hx Hy H. exists (stake x m), (stake y (sdrop x m)), (sdrop y (sdrop x m)).
  rewrite !stake_sdrop, !slen_stake; rewrite ?slen_sdrop; try lia. done.
Qed.

(** A write right after a known prefix of the buffer extends the prefix. *)
Lemma memcpy_buf_extend k p rest data : base k -> buf_ k = p ++ rest -> slen data <= slen rest ->
  exists k' rest', memcpy_buf k (slen p) data = Some k' /\ base k' /\
    buf_ k' = (p ++ data) ++ rest' /\ slen rest' = slen rest - slen data /\
    buf_ptr k' = buf_ptr k /\ key_ k' = key_ k /\ key_size_ k' = key_size_ k /\
    is_user_key_ k' = is_user_key_ k.
Proof.
  intros Hb Hm Hl.
  destruct (memcpy_buf_ok k (slen p) data) as (k' & -> & Hb' & Hm' & Hp & Hk & Hs & Hu);
    [done|slia|rewrite Hm, slen_app; lia|].
  exists k', (sdrop (slen data) rest).
  assert (Hr : rest = stake (slen data) rest ++ sdrop (slen data) rest) by (by rewrite stake_sdrop).
  rewrite Hm, Hr, overwrite_app in Hm' by (rewrite slen_stake; slia).
  rewrite <- app_assoc, slen_sdrop by slia. auto 10.
Qed.

Lemma key_to_buf_holds k key rest : base k -> buf_ k = key ++ rest ->
  holds (set_key_size (key_to_buf k) (slen key)) key /\
  IsKeyPinned (set_key_size (key_to_buf k) (slen key)) = false.
Proof.
  intros Hb Hm. split.
  - split; [exact Hb|]. split; [done|]. exists rest. rewrite <- Hm.
    unfold deref, key_to_buf, buf_ptr, buf_. cbn. by destruct (heap_ k).
  - unfold IsKeyPinned, key_to_buf, buf_ptr. cbn. by destruct (heap_ k).
Qed.

Section Refinement.

Context (fresh : Z -> bytes) (Hfresh : forall n, 0 <= n -> slen (fresh n) = n).

Lemma enlarge_ok k n : base k -> 0 <= n ->
  let k' := EnlargeBufferIfNeeded fresh k n in
  base k' /\ n <= slen (buf_ k') /\ is_user_key_ k' = is_user_key_ k /\
  (IsKeyPinned k = true -> deref k' (key_ k') = deref k (key_ k)).
Proof.
  intros [Hs Hb] Hn. unfold EnlargeBufferIfNeeded. zcase; [|by repeat split; [..|lia]].
  unfold EnlargeBuffer, base, buf_. cbn. rewrite Hfresh by lia. repeat split; try lia.
  unfold IsKeyPinned, free_heap, deref. by destruct (key_ k), (heap_ k).
Qed.

Lemma SetKeyImpl_ok k key copy : base k ->
  exists k', SetKeyImpl fresh k key copy = Some k' /\ holds k' key /\
    is_user_key_ k' = is_user_key_ k /\ IsKeyPinned k' = negb copy.
Proof.
  intros Hb. unfold SetKeyImpl. destruct copy; cbn [mbind option_bind negb].
  - destruct (enlarge_ok k (slen key) Hb (slen_nonneg _)) as (Hb1 & Hl & Hu & _).
    destruct (memcpy_buf_extend (EnlargeBufferIfNeeded fresh k (slen key)) [] _ key Hb1 eq_refl Hl)
      as (k2 & rest & E & Hb2 & Hm & _ & _ & _ & _ & Hu2).
    change (slen []) with 0 in E. rewrite E. cbn [mbind option_bind].
    eexists. split; [reflexivity|]. destruct (key_to_buf_holds k2 key rest Hb2 Hm).
    split_and!; [done| |done]. by rewrite <- Hu, <- Hu2.
  - eexists. split; [reflexivity|]. split_and!; [|done|].
    + split; [exact Hb|]. split; [done|]. exists []. cbn. by rewrite app_nil_r.
    + unfold IsKeyPinned. cbn. by destruct (heap_ k).
Qed.

Lemma TrimAppend_shared_ok k key n total : holds k key -> 0 <= n <= slen key -> n <= total ->
  exists k1 rest, TrimAppend_shared fresh k n total = Some k1 /\ base k1 /\
    buf_ k1 = stake n key ++ rest /\ total - n <= slen rest /\ is_user_key_ k1 = is_user_key_ k.
Proof.
  intros Hh Hn Ht. unfold TrimAppend_shared. pose proof (slen_stake n key Hn) as Hst.
  destruct (IsKeyPinned k) eqn:Hpin; cbv zeta.
  - destruct (enlarge_ok k total (proj1 Hh) ltac:(lia)) as (Hb1 & Hl & Hu & Hd).
    specialize (Hd Hpin). set (k1 := EnlargeBufferIfNeeded fresh k total) in *.
    assert (Hr : read_key k1 0 n = Some (stake n key)).
    { unfold read_key. rewrite Hd. apply (holds_read k key n Hh Hn). }
    rewrite Hr. cbn [mbind option_bind].
    destruct (memcpy_buf_extend k1 [] _ (stake n key) Hb1 eq_refl ltac:(lia))
      as (k2 & rest & E & Hb2 & Hm & Hrl & _ & _ & _ & Hu2).
    change (slen []) with 0 in E. exists k2, rest. rewrite E, Hu2. repeat split; auto; try apply Hb2. lia.
  - destruct (Z.ltb_spec (buf_size_ k) total).
    + rewrite (holds_read k key n Hh Hn). cbn [mbind option_bind].
      pose proof (Hfresh total ltac:(lia)) as Hlen.
      destruct (split3 (fresh total) 0 n) as (a & b & c & Hf & Ha & Hb); [lia..|].
      eexists _, c. split; [reflexivity|]. unfold base, buf_. cbn.
      apply slen_0_nil in Ha as ->. rewrite Hf in *.
      pose proof (overwrite_app [] b c (stake n key) ltac:(lia)) as Ho.
      change (slen []) with 0 in Ho. rewrite Ho. cbn [app] in *.
      rewrite !slen_app in *. destruct Hh as [[? ?] _]. repeat split; try done; lia.
    + destruct Hh as (Hb & Hks & rest & Hd).
      assert (Hbuf : buf_ k = key ++ rest).
      { unfold IsKeyPinned, deref, buf_ in *. destruct (key_ k), (heap_ k); cbn in *; congruence. }
      exists k, (sdrop n key ++ rest). repeat split; try apply Hb.
      * by rewrite Hbuf, app_assoc, stake_sdrop.
      * destruct Hb as [_ Hb]. rewrite Hbuf, slen_app in Hb. rewrite slen_app, slen_sdrop; lia.
Qed.

Lemma TrimAppend_ok k key n ns : holds k key -> 0 <= n <= slen key ->
  exists k', TrimAppend fresh k n ns = Some k' /\ holds k' (stake n key ++ ns) /\
    is_user_key_ k' = is_user_key_ k /\ IsKeyPinned k' = false.
Proof.
  intros Hh Hn. unfold TrimAppend. pose proof (slen_nonneg ns) as Hns.
  destruct (TrimAppend_shared_ok k key n (n + slen ns) Hh Hn ltac:(lia))
    as (k1 & rest & -> & Hb1 & Hm1 & Hr1 & Hu1). cbn [mbind option_bind].
  destruct (memcpy_buf_extend k1 (stake n key) rest ns Hb1 Hm1 ltac:(lia))
    as (k2 & rest2 & E & Hb2 & Hm2 & _ & _ & _ & _ & Hu2).
  rewrite slen_stake in E by done. rewrite E. cbn [mbind option_bind]. eexists. split; [reflexivity|].
  replace (n + slen ns) with (slen (stake n key ++ ns)) by (rewrite slen_app, slen_stake; lia).
  destruct (key_to_buf_holds k2 _ rest2 Hb2 Hm2). split_and!; [done| |done].
  by rewrite <- Hu1, <- Hu2.
Qed.

Lemma OwnKey_ok k key : holds k key -> IsKeyPinned k = true ->
  exists k', OwnKey fresh k = Some k' /\ holds k' key /\
    is_user_key_ k' = is_user_key_ k /\ IsKeyPinned k' = false.
Proof.
  intros Hh Hpin. unfold OwnKey, Reserve. pose proof Hh as (Hb & Hks & _). rewrite Hks.
  destruct (enlarge_ok k (slen key) Hb (slen_nonneg _)) as (Hb1 & Hl & Hu & Hd).
  specialize (Hd Hpin). set (k1 := set_key_size _ _).
  assert (Hr : read_key k1 0 (key_size_ k1) = Some key).
  { cbn [k1 set_key_size key_size_]. unfold read_key. cbn [k1 set_key_size key_].
    transitivity (read_key k 0 (slen key)).
    - unfold read_key. rewrite <- Hd. done.
    - rewrite (holds_read k key); [|done|slia]. by rewrite stake_all. }
  rewrite Hr. cbn [mbind option_bind].
  destruct (memcpy_buf_extend k1 [] _ key Hb1 eq_refl Hl)
    as (k2 & rest & E & Hb2 & Hm & _ & _ & _ & Hs2 & Hu2).
  change (slen []) with 0 in E. rewrite E. cbn [mbind option_bind]. eexists. split; [reflexivity|].
  destruct (key_to_buf_holds k2 key rest Hb2 Hm) as [Hh' Hp'].
  assert (Hk : set_key_size (key_to_buf k2) (slen key) = key_to_buf k2).
  { unfold set_key_size, key_to_buf, point_key. cbn. f_equal. by rewrite Hs2. }
  rewrite Hk in *. split_and!; [done| |done]. cbn. by rewrite Hu2.
Qed.

(** The three calls insert the timestamp eight bytes before the end of what
    the slices spell, whichever slice that place falls in. *)
Lemma insert_timestamp_ok a b c ts :
  kNumInternalBytes <= slen a + slen b + slen c ->
  concat (fst (MaybeAddKeyPartsWithTimestamp c (kNumInternalBytes <=? slen c) (slen c - kNumInternalBytes) ts
    (MaybeAddKeyPartsWithTimestamp b (slen c <? kNumInternalBytes)
       (slen b + slen c - kNumInternalBytes) ts
       (MaybeAddKeyPartsWithTimestamp a (slen b + slen c <? kNumInternalBytes)
          (slen a + slen b + slen c - kNumInternalBytes) ts ([], false))))) =
  let key := a ++ b ++ c in
  let n := slen key - kNumInternalBytes in stake n key ++ ts ++ sdrop n key.
Proof.
  intros H. cbv zeta. rewrite !slen_app. unfold kNumInternalBytes, MaybeAddKeyPartsWithTimestamp in *.
  slen_facts. destruct (Z.ltb_spec (slen b + slen c) 8); cbn [andb negb app fst].
  - rewrite !andb_false_r. cbn [fst app concat]. rewrite stake_app_le, sdrop_app_le by lia.
    replace (slen a + (slen b + slen c) - 8) with (slen a + slen b + slen c - 8) by lia.
    by rewrite ?app_nil_r, <- ?app_assoc.
  - rewrite stake_app_ge, sdrop_app_ge by lia.
    replace (slen a + (slen b + slen c) - 8 - slen a) with (slen b + slen c - 8) by lia.
    destruct (Z.ltb_spec (slen c) 8); cbn [andb negb app fst].
    + rewrite !andb_false_r. cbn [fst app concat]. rewrite stake_app_le, sdrop_app_le by lia.
      by rewrite ?app_nil_r, <- ?app_assoc.
    + zcase. cbn [andb negb fst app concat]. rewrite stake_app_ge, sdrop_app_ge by lia.
      replace (slen b + slen c - 8 - slen b) with (slen c - 8) by lia.
      by rewrite ?app_nil_r, <- ?app_assoc.
Qed.

Lemma parts_append parts (buf : bytes) : slice_of_parts parts buf = buf ++ concat parts.
Proof. apply fold_append. Qed.

(** The shared prefix of a key without timestamp, in terms of the key with
    it: some bytes of the user key and some bytes of the footer. *)
Lemma shared_prefix_split (u f : bytes) n :
  0 <= n ->
  stake n (u ++ f) = stake (Z.min n (slen u)) u ++ stake (n - Z.min n (slen u)) f.
Proof.
  intros Hn. destruct (Z.le_ge_cases n (slen u)).
  - rewrite stake_app_le, Z.min_l, Z.sub_diag by lia. by rewrite app_nil_r.
  - rewrite stake_app_ge, Z.min_r, (stake_all _ u) by lia. done.
Qed.

Lemma TrimAppendWithTimestamp_user k key n ns ts_sz :
  holds k key -> is_user_key_ k = true -> 0 <= n <= slen key ->
  TrimAppendWithTimestamp fresh k n ns ts_sz =
  SetKey fresh k (stake n key ++ ns ++ repeat_byte ts_sz Byte.x00) true.
Proof.
  intros Hh Hu Hn. unfold TrimAppendWithTimestamp, IsUserKey. rewrite Hu, (holds_read k key) by done.
  cbn [mbind option_bind]. rewrite parts_append. cbn [concat app]. by rewrite app_nil_r.
Qed.

(** Reading the two shared parts of an internal key. *)
Lemma TrimAppendWithTimestamp_internal k key n ns ts_sz a b :
  is_user_key_ k = false ->
  let user_key_len := u64 (key_size_ k - kNumInternalBytes) in
  let su := Z.min n (u64 (user_key_len - ts_sz)) in
  read_key k 0 su = Some a -> read_key k user_key_len (n - su) = Some b ->
  slen b = n - su -> slen a = su -> a ++ b = stake n key -> kNumInternalBytes <= n + slen ns ->
  TrimAppendWithTimestamp fresh k n ns ts_sz =
  SetKey fresh k (PadInternalKeyWithMinTimestamp [] (stake n key ++ ns) ts_sz) true.
Proof.
  intros Hu ukl su Ha Hb Hbl Hal Hab H8. unfold TrimAppendWithTimestamp, IsUserKey. rewrite Hu.
  cbv zeta. fold ukl. fold su. rewrite Ha, Hb. cbn [mbind option_bind].
  rewrite parts_append, <- Hbl. f_equal.
  assert (Hn : n = slen a + slen b) by lia.
  assert (Hk : slen (stake n key) = n) by (rewrite <- Hab, slen_app; lia).
  replace (n + slen ns - kNumInternalBytes) with (slen a + slen b + slen ns - kNumInternalBytes) by lia.
  cbn [app]. rewrite (insert_timestamp_ok a b ns) by lia. cbv zeta.
  rewrite (app_assoc a b ns), Hab. unfold PadInternalKeyWithMinTimestamp. cbn [app]. do 2 f_equal.
  symmetry. apply stake_all. unfold kNumInternalBytes in *. rewrite slen_sdrop; rewrite slen_app; slia.
Qed.

Lemma TrimAppendWithTimestamp_ok k a n ns ts_sz :
  holds k (a_key a) -> is_user_key_ k = a_user a -> pre a (OTrimAppendWithTimestamp n ns ts_sz) ->
  TrimAppendWithTimestamp fresh k n ns ts_sz =
  SetKey fresh k (a_key (spec a (OTrimAppendWithTimestamp n ns ts_sz))) true.
Proof.
  intros Hh Hu (Hts & Hn & Hp). cbn [spec a_key]. destruct (a_user a).
  { by apply (TrimAppendWithTimestamp_user k (a_key a)). }
  destruct Hp as [[[Hk ->]|[[Hk8 Hk] Hn']] H8]; pose proof Hh as (_ & Hs & rest & Hd).
  - assert (H0 : forall x, Z.min 0 (u64 x) = 0) by (intros x; pose proof (u64_range x); unfold is_u64 in *; lia).
    rewrite Hk. apply (TrimAppendWithTimestamp_internal k _ 0 ns ts_sz [] []); rewrite ?H0; try done.
    1-2: unfold read_key; by rewrite Hd.
  - destruct (split3 (a_key a) (slen (a_key a) - kNumInternalBytes - ts_sz) ts_sz)
      as (u & ts & f & Hkey & Hlu & Hlt); [unfold kNumInternalBytes in *; lia..|].
    assert (Hlf : slen f = kNumInternalBytes)
      by (rewrite Hkey, !slen_app in Hlu; unfold kNumInternalBytes in *; lia).
    assert (Hlk : slen (a_key a) = slen u + ts_sz + kNumInternalBytes) by lia.
    assert (Hstrip : StripTimestampFromInternalKey [] (a_key a) ts_sz = u ++ f).
    { unfold StripTimestampFromInternalKey. rewrite Hlk. rewrite Hkey at 1 2.
      rewrite stake_app by lia. rewrite (app_assoc u ts f), sdrop_app by (rewrite slen_app; lia).
      by rewrite (stake_all _ f) by lia. }
    rewrite Hstrip. unfold kNumInternalBytes in *. slen_facts.
    pose proof (TrimAppendWithTimestamp_internal k (u ++ f) n ns ts_sz
      (stake (Z.min n (slen u)) u) (stake (n - Z.min n (slen u)) f) Hu) as HT.
    unfold kNumInternalBytes in HT. cbv zeta in HT. rewrite Hs, Hlk in HT.
    replace (u64 (slen u + ts_sz + 8 - 8)) with (slen u + ts_sz) in HT by (rewrite u64_id; unfold is_u64; lia).
    replace (u64 (slen u + ts_sz - ts_sz)) with (slen u) in HT by (rewrite u64_id; unfold is_u64; lia).
    apply HT; try done.
    + eapply read_key_ok; [exact Hd|done| |rewrite slen_stake; lia].
      exists [], (sdrop (Z.min n (slen u)) u ++ ts ++ f ++ rest).
      by rewrite Hkey, app_nil_l, (app_assoc (stake _ u)), stake_sdrop, <- !app_assoc.
    + eapply read_key_ok; [exact Hd|lia| |rewrite slen_stake; lia].
      exists (u ++ ts), (sdrop (n - Z.min n (slen u)) f ++ rest).
      rewrite (app_assoc (stake _ f)), stake_sdrop, Hkey, slen_app, <- !app_assoc. split; [done|lia].
    + rewrite slen_stake; lia.
    + rewrite slen_stake; lia.
    + by rewrite shared_prefix_split.
Qed.

Lemma unpinned_buf k key : holds k key -> IsKeyPinned k = false ->
  key_ k = buf_ptr k /\ exists rest, buf_ k = key ++ rest.
Proof.
  intros (_ & _ & rest & Hd) Hp. unfold IsKeyPinned, deref, buf_ptr, buf_ in *.
  destruct (key_ k), (heap_ k); try done; (split; [done|]); exists rest; cbn in *; congruence.
Qed.

(** A state whose pointer is [buf_] and whose buffer starts with [key]. *)
Lemma in_place_holds k k' key rest : base k' -> key_ k' = key_ k -> key_ k = buf_ptr k ->
  buf_ptr k' = buf_ptr k -> key_size_ k' = slen key -> buf_ k' = key ++ rest ->
  holds k' key /\ IsKeyPinned k' = false.
Proof.
  intros Hb Hk Hp Hp' Hs Hm. rewrite Hp, <- Hp' in Hk. split.
  - split; [done|]. split; [done|]. exists rest. rewrite Hk, deref_buf. by f_equal.
  - unfold IsKeyPinned. rewrite Hk. unfold buf_ptr. by destruct (heap_ k').
Qed.

Lemma UpdateInternalKey_ok k key seq t ts :
  holds k key -> IsKeyPinned k = false -> kNumInternalBytes + slen (default [] ts) <= slen key ->
  exists k', IterKey_UpdateInternalKey k seq t ts = Some k' /\
    holds k' (stake (slen key - kNumInternalBytes - slen (default [] ts)) key ++
              default [] ts ++ EncodeFixed64 (PackSequenceAndType seq t)) /\
    is_user_key_ k' = is_user_key_ k /\ IsKeyPinned k' = false.
Proof.
  intros Hh Hp Hlen. destruct (unpinned_buf k key Hh Hp) as [Hptr [rest Hbuf]].
  pose proof Hh as (Hb & Hs & _). unfold kNumInternalBytes in *. pose proof (slen_nonneg (default [] ts)).
  set (n := slen key - 8 - slen (default [] ts)).
  assert (Hkey : key = stake n key ++ sdrop n key) by (by rewrite stake_sdrop).
  assert (Hn : slen (stake n key) = n) by (rewrite slen_stake; lia).
  assert (H1 : exists k1 r1, match ts with Some ts => memcpy_buf k (key_size_ k - 8 - slen ts) ts
                             | None => Some k end = Some k1 /\ base k1 /\
     buf_ k1 = (stake n key ++ default [] ts) ++ r1 /\ slen r1 = slen rest + 8 /\
     buf_ptr k1 = buf_ptr k /\ key_ k1 = key_ k /\ key_size_ k1 = key_size_ k /\
     is_user_key_ k1 = is_user_key_ k).
  { assert (Hsd : slen (sdrop n key) = 8 + slen (default [] ts)) by (rewrite slen_sdrop; lia).
    destruct ts as [ts|]; cbn [from_option id] in *.
    - rewrite Hkey, <- app_assoc in Hbuf.
      destruct (memcpy_buf_extend k (stake n key) _ ts Hb Hbuf) as (k1 & r1 & E & ? & ? & Hr & ? & ? & ? & ?);
        [rewrite slen_app; slia|].
      exists k1, r1. rewrite Hs. replace (slen key - 8 - slen ts) with (slen (stake n key)) by lia.
      rewrite E, Hr, slen_app. split_and!; (done || lia).
    - exists k, (sdrop n key ++ rest). snil. rewrite app_nil_r, app_assoc, <- Hkey, slen_app.
      split_and!; (done || lia). }
  destruct H1 as (k1 & r1 & E1 & Hb1 & Hm1 & Hr1 & Hp1 & Hk1 & Hs1 & Hu1).
  unfold IterKey_UpdateInternalKey, kNumInternalBytes. rewrite E1. cbn [mbind option_bind].
  fold (PackSequenceAndType seq t).
  destruct (memcpy_buf_extend k1 _ r1 (EncodeFixed64 (PackSequenceAndType seq t)) Hb1 Hm1)
    as (k2 & r2 & E2 & Hb2 & Hm2 & _ & Hp2 & Hk2 & Hs2 & Hu2); [rewrite slen_EncodeFixed64; slia|].
  rewrite slen_app, Hn in E2. rewrite Hs1, Hs.
  replace (slen key - 8) with (n + slen (default [] ts)) by lia. rewrite E2.
  exists k2. split; [done|]. rewrite <- (app_assoc (stake n key)) in Hm2.
  set (key' := stake n key ++ default [] ts ++ EncodeFixed64 (PackSequenceAndType seq t)) in *.
  assert (Hs2' : key_size_ k2 = slen key')
    by (unfold key'; rewrite Hs2, Hs1, Hs, !slen_app, slen_EncodeFixed64; lia).
  destruct (in_place_holds k k2 key' r2 Hb2) as [Hh2 Hpin2]; try congruence.
  split_and!; [done|congruence|done].
Qed.

Lemma SetInternalKey_parts_ok k p u s t ts : base k ->
  exists k', SetInternalKey_parts fresh k p u s t ts = Some k' /\
    holds k' (p ++ u ++ default [] ts ++ EncodeFixed64 (PackSequenceAndType s t)) /\
    is_user_key_ k' = false /\ IsKeyPinned k' = false.
Proof.
  intros Hb. unfold SetInternalKey_parts. cbv zeta. slen_facts.
  set (ts_sz := match ts with Some ts => slen ts | None => 0 end).
  assert (Hts : ts_sz = slen (default [] ts)) by (by destruct ts).
  pose proof (slen_nonneg (default [] ts)).
  destruct (enlarge_ok k (slen p + slen u + 8 + ts_sz) Hb ltac:(lia)) as (Hb0 & Hl & _ & _).
  set (k0 := EnlargeBufferIfNeeded _ _ _) in *.
  assert (HA : exists k1 r1, (if 0 <? slen p then memcpy_buf k0 0 p else Some k0) = Some k1 /\
    base k1 /\ buf_ k1 = p ++ r1 /\ slen u + 8 + ts_sz <= slen r1).
  { destruct (memcpy_buf_extend k0 [] _ p Hb0 eq_refl) as (k1 & r1 & E & ? & ? & Hr & _); [lia|].
    change (slen []) with 0 in E. zcase.
    - exists k1, r1. split_and!; (done || lia).
    - exists k0, (buf_ k0). rewrite (slen_0_nil p) in * by lia. snil. split_and!; (done || lia). }
  destruct HA as (k1 & r1 & -> & Hb1 & Hm1 & Hr1). cbn [mbind option_bind].
  destruct (memcpy_buf_extend k1 p r1 u Hb1 Hm1) as (k2 & r2 & -> & Hb2 & Hm2 & Hr2 & _); [lia|].
  cbn [mbind option_bind].
  assert (HB : exists k3 r3, match ts with Some ts => memcpy_buf k2 (slen p + slen u) ts
                             | None => Some k2 end = Some k3 /\
    base k3 /\ buf_ k3 = ((p ++ u) ++ default [] ts) ++ r3 /\ 8 <= slen r3).
  { destruct ts as [ts|]; cbn [from_option id] in *.
    - destruct (memcpy_buf_extend k2 _ r2 ts Hb2 Hm2) as (k3 & r3 & E & ? & ? & Hr & _); [lia|].
      rewrite slen_app in E. exists k3, r3. rewrite E. split_and!; (done || lia).
    - exists k2, r2. rewrite app_nil_r. split_and!; (done || lia). }
  destruct HB as (k3 & r3 & -> & Hb3 & Hm3 & Hr3). cbn [mbind option_bind].
  destruct (memcpy_buf_extend k3 _ r3 (EncodeFixed64 (PackSequenceAndType s t)) Hb3 Hm3)
    as (k4 & r4 & E & Hb4 & Hm4 & _); [by rewrite slen_EncodeFixed64|].
  rewrite !slen_app, <- Hts in E. replace (slen u + slen p + ts_sz) with (slen p + slen u + ts_sz) by lia.
  rewrite E. cbn [mbind option_bind]. eexists. split; [reflexivity|]. rewrite <- !app_assoc in Hm4.
  replace (slen p + slen u + 8 + ts_sz)
    with (slen (p ++ u ++ default [] ts ++ EncodeFixed64 (PackSequenceAndType s t)))
    by (rewrite !slen_app, slen_EncodeFixed64; lia).
  rewrite (app_assoc (default [] ts)), (app_assoc u), (app_assoc p) in Hm4.
  destruct (key_to_buf_holds k4 _ r4 Hb4 Hm4) as [Hh Hp]. rewrite <- ?app_assoc in *.
  split_and!; [exact Hh|done|exact Hp].
Qed.

(** One operation on a key. *)
Lemma exec_key_ok k a o : refines k a -> pre a o ->
  exists k', exec_key fresh k o = Some k' /\ refines k' (spec a o).
Proof.
  intros (Hh & Hu & Hp) Hpre. pose proof (proj1 Hh) as Hb.
  destruct o; cbn [exec_key spec pre] in *.
  - exists (SetIsUserKey k b). done.
  - exists (IterKey_Clear k). split; [done|]. split; [|done]. destruct Hh as (_ & _ & rest & Hd).
    split; [exact Hb|]. split; [done|]. by exists (a_key a ++ rest).
  - destruct (TrimAppend_ok k _ shared_len non_shared Hh Hpre) as (k' & E & ? & ? & ?).
    exists k'. split; [done|]. split_and!; cbn in *; (done || congruence).
  - rewrite (TrimAppendWithTimestamp_ok k a) by done.
    destruct (SetKeyImpl_ok k (a_key (spec a (OTrimAppendWithTimestamp shared_len non_shared ts_sz))) true Hb)
      as (k' & E & ? & ? & ?).
    exists k'. split; [done|]. split_and!; cbn in *; (done || congruence).
  - destruct (SetKeyImpl_ok k key copy Hb) as (k' & E & ? & ? & ?).
    exists k'. split; [done|]. split_and!; cbn in *; (done || congruence).
  - destruct (SetKeyImpl_ok (set_is_user_key k true) key copy Hb) as (k' & E & ? & ? & ?).
    exists k'. split; [done|]. split_and!; cbn in *; (done || congruence).
  - destruct (SetKeyImpl_ok (set_is_user_key k false) key copy Hb) as (k' & E & ? & ? & ?).
    exists k'. split; [done|]. split_and!; cbn in *; (done || congruence).
  - destruct (SetInternalKey_parts_ok k key_prefix user_key s t ts Hb) as (k' & E & ? & ? & ?).
    exists k'. split; [done|]. split_and!; cbn in *; (done || congruence).
  - destruct (OwnKey_ok k _ Hh) as (k' & E & ? & ? & ?); [congruence|].
    exists k'. split; [done|]. split_and!; cbn in *; (done || congruence).
  - destruct Hpre as [Hpin Hlen].
    destruct (UpdateInternalKey_ok k _ seq t ts Hh) as (k' & E & ? & ? & ?); [congruence|done|].
    exists k'. split; [done|]. split_and!; cbn in *; (done || congruence).
Qed.

(** [Reserve] of no more than the key has cuts it off. *)
Lemma Reserve_shrinks k a size : refines k a -> 0 <= size <= slen (a_key a) ->
  refines (Reserve fresh k size) {| a_key := stake size (a_key a); a_user := a_user a; a_pinned := a_pinned a |}.
Proof.
  intros (Hh & Hu & Hp) Hsize. pose proof Hh as (Hb & _ & rest & Hd). unfold Reserve.
  destruct (enlarge_ok k size Hb) as (Hb1 & _ & Hu1 & Hd1); [lia|].
  assert (deref (EnlargeBufferIfNeeded fresh k size) (key_ (EnlargeBufferIfNeeded fresh k size)) = deref k (key_ k) /\
          IsKeyPinned (EnlargeBufferIfNeeded fresh k size) = IsKeyPinned k) as [Hd2 Hp2].
  { destruct (IsKeyPinned k) eqn:Hpin.
    - split; [by apply Hd1|]. unfold EnlargeBufferIfNeeded. destruct (_ <? _); [|done].
      unfold IsKeyPinned, EnlargeBuffer, ResetBuffer, free_heap in *. cbn. by destruct (key_ k), (heap_ k).
    - destruct (unpinned_buf k (a_key a) Hh Hpin) as (Hk & rest' & Hm). unfold EnlargeBufferIfNeeded.
      destruct Hb as [_ Hb]. rewrite Hm, slen_app in Hb. pose proof (slen_nonneg rest').
      by rewrite (proj2 (Z.ltb_ge _ _)) by lia. }
  split; [|split; [by rewrite <- Hu|by rewrite <- Hp]]. split; [exact Hb1|]. split; [cbn [a_key key_size_ set_key_size]; by rewrite slen_stake|].
  exists (sdrop size (a_key a) ++ rest). cbn [a_key]. rewrite app_assoc, stake_sdrop, <- Hd. exact Hd2.
Qed.

(** After [EncodeLengthPrefixedKey] the memory at [key_] starts with the
    length-prefixed key, for every key below 2^32 bytes and every former
    state of the buffer: the bound computed with [VarintLength] is enough for
    the varint and the key. *)
Lemma EncodeLengthPrefixedKey_ok k key : base k -> is_u32 (slen key) ->
  exists k' rest, EncodeLengthPrefixedKey fresh k key = Some k' /\ base k' /\ is_user_key_ k' = true /\
    deref k' (key_ k') = Some (PutLengthPrefixedSlice [] key ++ rest).
Proof.
  intros Hb Hl. unfold EncodeLengthPrefixedKey.
  assert (Hv : VarintLength (slen key) = slen (EncodeVarint32 (slen key))).
  { rewrite EncodeVarint32_64 by done. unfold VarintLength. rewrite VarintLength_loop_spec.
    fold (EncodeVarint64 (slen key)). lia. }
  rewrite u32_id, Hv by done. slen_facts.
  destruct (enlarge_ok k (slen key + slen (EncodeVarint32 (slen key))) Hb)
    as (Hb0 & Hlen & _ & _); [lia|]. set (k0 := EnlargeBufferIfNeeded _ _ _) in *.
  destruct (memcpy_buf_extend k0 [] _ (EncodeVarint32 (slen key)) Hb0 eq_refl)
    as (k1 & r1 & E1 & Hb1 & Hm1 & Hr1 & _); [lia|].
  change (slen []) with 0 in E1. rewrite E1. cbn [mbind option_bind].
  destruct (memcpy_buf_extend k1 _ r1 key Hb1 Hm1) as (k2 & r2 & E2 & Hb2 & Hm2 & _); [lia|].
  rewrite app_nil_l in E2. rewrite E2. cbn [mbind option_bind].
  exists (set_is_user_key (key_to_buf k2) true), r2. split; [done|]. split; [exact Hb2|]. split; [done|].
  transitivity (deref k2 (buf_ptr k2)); [done|]. rewrite deref_buf, Hm2.
  unfold PutLengthPrefixedSlice, PutVarint32. by rewrite u32_id.
Qed.

(** What a state with the view [v] has. *)
Definition shows_view (k : IterKey) (v : View) : Prop :=
  base k /\
  match v with
  | VKey a => refines k a
  | VEncoded key user => is_user_key_ k = user /\
      exists rest, deref k (key_ k) = Some (PutLengthPrefixedSlice [] key ++ rest)
  | VOpen user => is_user_key_ k = user
  end.

Lemma shows_key k a : refines k a -> shows_view k (VKey a).
Proof. intros H. split; [apply H|done]. Qed.

(** A key that is set where there was none. *)
Lemma set_without_key k v o : base k -> is_user_key_ k = view_user v ->
  match o with
  | OSetKey _ _ | OSetUserKey _ _ | OSetInternalKey _ _ | OSetInternalKeyParts _ _ _ _ _ => True
  | _ => False
  end ->
  exists k', exec_key fresh k o = Some k' /\
    shows_view k' (VKey (spec {| a_key := []; a_user := view_user v; a_pinned := false |} o)).
Proof.
  intros Hb Hu Ho. destruct o; try done; cbn [exec_key spec].
  - destruct (SetKeyImpl_ok k key copy Hb) as (k' & E & ? & ? & ?).
    exists k'. split; [done|]. apply shows_key. split_and!; cbn in *; (done || congruence).
  - destruct (SetKeyImpl_ok (set_is_user_key k true) key copy Hb) as (k' & E & ? & ? & ?).
    exists k'. split; [done|]. apply shows_key. split_and!; cbn in *; (done || congruence).
  - destruct (SetKeyImpl_ok (set_is_user_key k false) key copy Hb) as (k' & E & ? & ? & ?).
    exists k'. split; [done|]. apply shows_key. split_and!; cbn in *; (done || congruence).
  - destruct (SetInternalKey_parts_ok k key_prefix user_key s t ts Hb) as (k' & E & ? & ? & ?).
    exists k'. split; [done|]. apply shows_key. split_and!; cbn in *; (done || congruence).
Qed.

(** One operation, for every operation. *)
Lemma exec_ok k v o : shows_view k v -> view_pre v o ->
  exists k', exec fresh k o = Some k' /\ shows_view k' (view_spec v o).
Proof.
  intros [Hb Hv] Hpre.
  assert (Hu : is_user_key_ k = view_user v) by (destruct v; [apply Hv|apply Hv|exact Hv]).
  destruct o as [o|size|key]; cbn [exec].
  - destruct v as [a|key user|user].
    { destruct (exec_key_ok k a o Hv Hpre) as (k' & E & Hr). exists k'. split; [done|]. by apply shows_key. }
    all: destruct o; try done; try (by apply (set_without_key k _ _ Hb Hu)); eexists; (split; [reflexivity|]);
      (split; [exact Hb|]); cbn; try done; split; (done || apply Hv).
  - eexists. split; [reflexivity|]. cbn [view_pre] in Hpre.
    assert (Hopen : shows_view (Reserve fresh k size) (VOpen (view_user v))).
    { destruct (enlarge_ok k size Hb Hpre) as (Hb1 & _ & Hu1 & _). split; [exact Hb1|]. cbn. by rewrite Hu1. }
    destruct v as [a|key user|user]; [|exact Hopen..]. cbn [view_spec].
    destruct (Z.leb_spec size (slen (a_key a))); [|exact Hopen].
    apply shows_key, Reserve_shrinks; [exact Hv|lia].
  - destruct (EncodeLengthPrefixedKey_ok k key Hb Hpre) as (k' & rest & E & Hb' & Hu' & Hd).
    exists k'. split; [exact E|]. split; [exact Hb'|]. split; [exact Hu'|]. by exists rest.
Qed.

Lemma run_ok os : forall k v, shows_view k v -> pre_all v os ->
  exists k', run fresh k os = Some k' /\ shows_view k' (foldl view_spec v os).
Proof.
  induction os as [|o os IH]; intros k v Hr Hp; [by exists k|]. destruct Hp as [Hp Hps].
  destruct (exec_ok k v o Hr Hp) as (k' & E & Hr'). cbn. rewrite E. by apply IH.
Qed.

End Refinement.

(** A key that was encoded was not too long. *)
Lemma foldl_encoded os v : pre_all v os ->
  match v with VEncoded key _ => is_u32 (slen key) | _ => True end ->
  match foldl view_spec v os with VEncoded key _ => is_u32 (slen key) | _ => True end.
Proof.
  revert v. induction os as [|o os IH]; intros v Hp Hv; [done|]. destruct Hp as [Hp Hps]. cbn [foldl].
  apply IH; [done|]. destruct o as [o|size|key]; cbn in *.
  - by destruct v, o.
  - destruct v as [a| |]; [by destruct (_ <=? _)|done|done].
  - done.
Qed.

(** ** Properties *)

(** [C23] Whatever the contents of uninitialised memory, every sequence of
    operations that meets the assertions of the code and reads a key only where
    there is one runs from the constructor without a read or write out of bounds
    or through a freed pointer, and leaves exactly the key the abstract
    description gives: keys copied or pinned, trimmed and extended in or out of
    place, moved from the inline array to the heap, cut off by [Reserve], or
    rebuilt with a minimum timestamp. After [EncodeLengthPrefixedKey] the memory
    at [key_] starts with the length-prefixed key. There is no key to read
    between these, or a [Reserve] of more than the key has, and the next
    operation that sets one. The arguments are values (see above). *)
Theorem iterkey_refinement (fresh : Z -> bytes) (junk : bytes) (os : list Op) :
  (forall n, 0 <= n -> slen (fresh n) = n) -> slen junk = sizeof_space ->
  let v0 := VKey {| a_key := []; a_user := true; a_pinned := false |} in
  pre_all v0 os ->
  exists k, run fresh (IterKey_init junk) os = Some k /\
    match foldl view_spec v0 os with
    | VKey a =>
        GetKey k = Some (a_key a) /\ Size k = slen (a_key a) /\
        IsUserKey k = a_user a /\ IsKeyPinned k = a_pinned a /\
        (a_user a = true -> GetUserKey k = Some (a_key a)) /\
        (a_user a = false -> kNumInternalBytes <= slen (a_key a) ->
           GetUserKey k = Some (ExtractUserKey (a_key a)))
    | VEncoded key user => IsUserKey k = user /\
        exists m rest, deref k (key_ k) = Some m /\ GetLengthPrefixedSlice m = Some (key, rest)
    | VOpen user => IsUserKey k = user
    end.
Proof.
  intros Hfresh Hj v0 Hpre.
  destruct (run_ok fresh Hfresh os (IterKey_init junk) v0) as (k & E & Hr); [|done|].
  { apply shows_key. split; [|done]. split; [|split; [done|by exists junk]].
    split; [done|]. cbn. by rewrite Hj. }
  exists k. split; [done|]. cbv zeta. destruct Hr as (Hb & Hv).
  pose proof (foldl_encoded os v0 Hpre I) as Henc. destruct (foldl view_spec v0 os) as [a|key user|user].
  - destruct Hv as (Hh & Hu & Hp). pose proof Hh as (_ & Hs & _). split_and!; auto using holds_GetKey.
    + intros Ht. unfold GetUserKey, IsUserKey. rewrite Hu, Ht. by apply holds_GetKey.
    + intros Hf H8. unfold GetUserKey, IsUserKey. rewrite Hu, Hf, Hs.
      apply holds_read; [done|]. unfold kNumInternalBytes in *. lia.
  - destruct Hv as [Hu [rest Hd]]. split; [exact Hu|]. eexists _, rest. split; [exact Hd|].
    by apply GetLengthPrefixedSlice_Put.
  - exact Hv.
Qed.

Definition sample_ops : list Op :=
  [ OKey (OSetInternalKey (enc sample_key) false);
    OKey (OTrimAppend 2 (replicate 60 Byte.x61));
    OKey (OUpdateInternalKey 9 kTypeValue None);
    OReserve 1000;
    OKey (OSetInternalKey (replicate 50 Byte.x61) true);
    OEncodeLengthPrefixedKey (replicate 200 Byte.x61);
    OKey (OSetInternalKey (replicate 62 Byte.x62) true);
    OReserve 60;
    OKey (OTrimAppendWithTimestamp 40 (EncodeFixed64 258) 8) ].

Lemma iterkey_refinement_witness :
  exists k, run (fun n => repeat_byte n Byte.x5a) (IterKey_init (replicate 39 Byte.x00)) sample_ops = Some k /\
    Size k = 56.
Proof.
  destruct (iterkey_refinement (fun n => repeat_byte n Byte.x5a) (replicate 39 Byte.x00) sample_ops)
    as (k & E & _ & Hs & _).
  - intros n Hn. by apply slen_repeat_byte.
  - reflexivity.
  - vm_compute. intuition discriminate.
  - exists k. split; [exact E|]. rewrite Hs. vm_compute. reflexivity.
Defined.

(** ** What the operations do not check *)

(** A key of 1000 bytes in the caller's memory, then [EncodeLengthPrefixedKey]
    of a short key: [key_] points to the array of 39 bytes, [key_size_] is still
    1000, and [GetKey] reads behind the array. *)
Lemma encoded_key_keeps_size :
  exists k, run (fun n => repeat_byte n Byte.x5a) (IterKey_init (replicate 39 Byte.x00))
      [OKey (OSetKey (replicate 1000 Byte.x61) false); OEncodeLengthPrefixedKey [Byte.x61]] = Some k /\
    key_ k = PSpace /\ Size k = 1000 /\ GetKey k = None.
Proof. eexists. split; [vm_compute; reflexivity|]. by vm_compute. Qed.

(** [Reserve] of more than the buffer holds frees the key and leaves [key_]
    pointing to it. *)
Lemma reserve_frees_key :
  exists k, run (fun n => repeat_byte n Byte.x5a) (IterKey_init (replicate 39 Byte.x00))
      [OKey (OSetKey (replicate 50 Byte.x61) true); OReserve 100] = Some k /\
    key_ k = PFreed /\ Size k = 100 /\ GetKey k = None.
Proof. eexists. split; [vm_compute; reflexivity|]. by vm_compute. Qed.
