(* ===== verification/KvChecksum.v ===== *)
(** * Per-entry integrity codes

    Models db/kv_checksum.h, with [GetSliceNPHash64] (util/hash.h) and
    [GetSlicePartsNPHash64] (util/hash.cc): an entry is protected by the XOR
    of the hashes of its fields, each field hashed with its own seed; layers
    are added ([ProtectC], [ProtectS]), removed ([StripC], [StripS],
    [StripKVO]) and updated as the entry moves from a write batch to the
    memtable.

    The classes are templates over the unsigned type [T] of the code, here its
    width [w] in bits. The hash [Hash64] (xxHash, vendored) is a parameter of
    which nothing is assumed but that it is a function. *)

From S2P Require Import Prelude Coding Slice DbFormat.

(** ** The classes *)

(** One field each, as in the code: the type says which fields are covered. *)
Record ProtectionInfo := PI { pi_val : Z }.
Record ProtectionInfoKVO := KVO { kvo_val : Z }.
Record ProtectionInfoKVOC := KVOC { kvoc_val : Z }.
Record ProtectionInfoKVOS := KVOS { kvos_val : Z }.
Record ProtectionInfoKV := KV { kv_val : Z }.

Definition kSeedK : Z := 0.
Definition kSeedV : Z := 0xD28AAD72F49BD50B.
Definition kSeedO : Z := 0xA5155AE5E937AA16.
Definition kSeedS : Z := 0x77A00858DDD37F21.
Definition kSeedC : Z := 0x4A2AB5CBD26F542C.

Section Checksum.

(** [sizeof(T)] in bits, and [Hash64(data, n, seed)]. *)
Variable w : Z.
Variable Hash64 : bytes -> Z -> Z.

(** [static_cast<T>]. *)
Definition T_cast (v : Z) : Z := v mod 2 ^ w.

Definition NPHash64 (data : bytes) (seed : Z) : Z := Hash64 data seed.

Definition GetSliceNPHash64 (s : bytes) (seed : Z) : Z := NPHash64 s seed.

Definition GetSlicePartsNPHash64 (data : list bytes) (seed : Z) : Z :=
  let concat_data := fold_left (fun acc p => acc ++ p) data [] in
  NPHash64 concat_data seed.

(** The object representation of the integer fields, on a little-endian
    machine. *)
Definition op_bytes (op_type : Z) : bytes := [to_byte op_type].
Definition cf_bytes (column_family_id : Z) : bytes := EncodeFixed32 column_family_id.
Definition seq_bytes (sequence_number : Z) : bytes := EncodeFixed64 sequence_number.

(** *** ProtectionInfo *)

Definition GetStatus (p : ProtectionInfo) : Status :=
  if negb (pi_val p =? 0) then Corruption "ProtectionInfo mismatch" else OK.

Definition ProtectKVO (p : ProtectionInfo) (key value : bytes) (op_type : Z) : ProtectionInfoKVO :=
  let val := pi_val p in
  let val := Z.lxor val (T_cast (GetSliceNPHash64 key kSeedK)) in
  let val := Z.lxor val (T_cast (GetSliceNPHash64 value kSeedV)) in
  let val := Z.lxor val (T_cast (NPHash64 (op_bytes op_type) kSeedO)) in
  KVO val.

Definition ProtectKVO_parts (p : ProtectionInfo) (key value : list bytes) (op_type : Z)
    : ProtectionInfoKVO :=
  let val := pi_val p in
  let val := Z.lxor val (T_cast (GetSlicePartsNPHash64 key kSeedK)) in
  let val := Z.lxor val (T_cast (GetSlicePartsNPHash64 value kSeedV)) in
  let val := Z.lxor val (T_cast (NPHash64 (op_bytes op_type) kSeedO)) in
  KVO val.

Definition ProtectKV (p : ProtectionInfo) (key value : bytes) : ProtectionInfoKV :=
  let val := pi_val p in
  let val := Z.lxor val (T_cast (GetSliceNPHash64 key kSeedK)) in
  let val := Z.lxor val (T_cast (GetSliceNPHash64 value kSeedV)) in
  KV val.

(** [Encode] and [Verify], at a length of 1, 2, 4 or 8 bytes ([None]: the
    assertion on the length fails). *)
Definition Encode (val len : Z) : option bytes :=
  if len =? 1 then Some [to_byte val]
  else if len =? 2 then Some (EncodeFixed16 (u16 val))
  else if len =? 4 then Some (EncodeFixed32 (u32 val))
  else if len =? 8 then Some (EncodeFixed64 (u64 val))
  else None.

Definition Verify (val len : Z) (checksum_ptr : bytes) : bool :=
  if len =? 1 then at_ checksum_ptr 0 =? val mod 2 ^ 8
  else if len =? 2 then DecodeFixed16 checksum_ptr =? u16 val
  else if len =? 4 then DecodeFixed32 checksum_ptr =? u32 val
  else if len =? 8 then DecodeFixed64 checksum_ptr =? u64 val
  else false.

(** *** ProtectionInfoKVO *)

Definition UpdateK (p : ProtectionInfoKVO) (old_key new_key : bytes) : ProtectionInfoKVO :=
  let val := kvo_val p in
  let val := Z.lxor val (T_cast (GetSliceNPHash64 old_key kSeedK)) in
  let val := Z.lxor val (T_cast (GetSliceNPHash64 new_key kSeedK)) in
  KVO val.

Definition UpdateK_parts (p : ProtectionInfoKVO) (old_key new_key : list bytes) : ProtectionInfoKVO :=
  let val := kvo_val p in
  let val := Z.lxor val (T_cast (GetSlicePartsNPHash64 old_key kSeedK)) in
  let val := Z.lxor val (T_cast (GetSlicePartsNPHash64 new_key kSeedK)) in
  KVO val.

Definition UpdateV (p : ProtectionInfoKVO) (old_value new_value : bytes) : ProtectionInfoKVO :=
  let val := kvo_val p in
  let val := Z.lxor val (T_cast (GetSliceNPHash64 old_value kSeedV)) in
  let val := Z.lxor val (T_cast (GetSliceNPHash64 new_value kSeedV)) in
  KVO val.

Definition UpdateV_parts (p : ProtectionInfoKVO) (old_value new_value : list bytes)
    : ProtectionInfoKVO :=
  let val := kvo_val p in
  let val := Z.lxor val (T_cast (GetSlicePartsNPHash64 old_value kSeedV)) in
  let val := Z.lxor val (T_cast (GetSlicePartsNPHash64 new_value kSeedV)) in
  KVO val.

Definition UpdateO (p : ProtectionInfoKVO) (old_op_type new_op_type : Z) : ProtectionInfoKVO :=
  let val := kvo_val p in
  let val := Z.lxor val (T_cast (NPHash64 (op_bytes old_op_type) kSeedO)) in
  let val := Z.lxor val (T_cast (NPHash64 (op_bytes new_op_type) kSeedO)) in
  KVO val.

Definition StripKVO (p : ProtectionInfoKVO) (key value : bytes) (op_type : Z) : ProtectionInfo :=
  let val := kvo_val p in
  let val := Z.lxor val (T_cast (GetSliceNPHash64 key kSeedK)) in
  let val := Z.lxor val (T_cast (GetSliceNPHash64 value kSeedV)) in
  let val := Z.lxor val (T_cast (NPHash64 (op_bytes op_type) kSeedO)) in
  PI val.

Definition StripKVO_parts (p : ProtectionInfoKVO) (key value : list bytes) (op_type : Z)
    : ProtectionInfo :=
  let val := kvo_val p in
  let val := Z.lxor val (T_cast (GetSlicePartsNPHash64 key kSeedK)) in
  let val := Z.lxor val (T_cast (GetSlicePartsNPHash64 value kSeedV)) in
  let val := Z.lxor val (T_cast (NPHash64 (op_bytes op_type) kSeedO)) in
  PI val.

Definition ProtectC (p : ProtectionInfoKVO) (column_family_id : Z) : ProtectionInfoKVOC :=
  KVOC (Z.lxor (kvo_val p) (T_cast (NPHash64 (cf_bytes column_family_id) kSeedC))).

Definition ProtectS (p : ProtectionInfoKVO) (sequence_number : Z) : ProtectionInfoKVOS :=
  KVOS (Z.lxor (kvo_val p) (T_cast (NPHash64 (seq_bytes sequence_number) kSeedS))).

(** *** ProtectionInfoKVOC and ProtectionInfoKVOS *)

Definition StripC (p : ProtectionInfoKVOC) (column_family_id : Z) : ProtectionInfoKVO :=
  KVO (Z.lxor (kvoc_val p) (T_cast (NPHash64 (cf_bytes column_family_id) kSeedC))).

Definition UpdateC (p : ProtectionInfoKVOC) (old_column_family_id new_column_family_id : Z)
    : ProtectionInfoKVOC :=
  let val := kvoc_val p in
  let val := Z.lxor val (T_cast (NPHash64 (cf_bytes old_column_family_id) kSeedC)) in
  let val := Z.lxor val (T_cast (NPHash64 (cf_bytes new_column_family_id) kSeedC)) in
  KVOC val.

Definition StripS (p : ProtectionInfoKVOS) (sequence_number : Z) : ProtectionInfoKVO :=
  KVO (Z.lxor (kvos_val p) (T_cast (NPHash64 (seq_bytes sequence_number) kSeedS))).

Definition UpdateS (p : ProtectionInfoKVOS) (old_sequence_number new_sequence_number : Z)
    : ProtectionInfoKVOS :=
  let val := kvos_val p in
  let val := Z.lxor val (T_cast (NPHash64 (seq_bytes old_sequence_number) kSeedS)) in
  let val := Z.lxor val (T_cast (NPHash64 (seq_bytes new_sequence_number) kSeedS)) in
  KVOS val.

(** The update functions of KVOC delegate to the KVO inside. *)
Definition KVOC_UpdateK_parts (p : ProtectionInfoKVOC) (old_key new_key : list bytes)
    : ProtectionInfoKVOC := KVOC (kvo_val (UpdateK_parts (KVO (kvoc_val p)) old_key new_key)).
Definition KVOC_UpdateV_parts (p : ProtectionInfoKVOC) (old_value new_value : list bytes)
    : ProtectionInfoKVOC := KVOC (kvo_val (UpdateV_parts (KVO (kvoc_val p)) old_value new_value)).

(** The code of an entry of a write batch. *)
Definition entry_code (key value : bytes) (op_type cf : Z) : ProtectionInfoKVOC :=
  ProtectC (ProtectKVO (PI 0) key value op_type) cf.

End Checksum.

(** ** Lemmas *)

Section Lemmas.

Context (w : Z) (Hash64 : bytes -> Z -> Z).

(** Equality of XORs: cancel bit by bit. *)
Ltac xor_solve :=
  apply Z.bits_inj'; intros i _; rewrite ?Z.lxor_spec, ?Z.bits_0;
  repeat match goal with |- context [Z.testbit ?x i] => destruct (Z.testbit x i) end; reflexivity.

Lemma parts_hash parts seed :
  GetSlicePartsNPHash64 Hash64 parts seed = GetSliceNPHash64 Hash64 (concat parts) seed.
Proof. unfold GetSlicePartsNPHash64. by rewrite fold_append. Qed.

Lemma parts_forms key value op :
  ProtectKVO_parts w Hash64 (PI 0) key value op = ProtectKVO w Hash64 (PI 0) (concat key) (concat value) op.
Proof. unfold ProtectKVO_parts. by rewrite !parts_hash. Qed.

Lemma strip_protect_val k v o c k' v' o' c' :
  pi_val (StripKVO w Hash64 (StripC w Hash64 (entry_code w Hash64 k v o c) c') k' v' o') =
  Z.lxor (Z.lxor (T_cast w (Hash64 k kSeedK)) (T_cast w (Hash64 k' kSeedK)))
  (Z.lxor (Z.lxor (T_cast w (Hash64 v kSeedV)) (T_cast w (Hash64 v' kSeedV)))
  (Z.lxor (Z.lxor (T_cast w (Hash64 (op_bytes o) kSeedO)) (T_cast w (Hash64 (op_bytes o') kSeedO)))
          (Z.lxor (T_cast w (Hash64 (cf_bytes c) kSeedC)) (T_cast w (Hash64 (cf_bytes c') kSeedC))))).
Proof.
  unfold entry_code, ProtectC, StripC, ProtectKVO, StripKVO, GetSliceNPHash64, NPHash64.
  cbn [pi_val kvo_val kvoc_val]. xor_solve.
Qed.

(** Stripping what was protected. *)
Lemma strip_protect_ok k v o c :
  GetStatus (StripKVO w Hash64 (StripC w Hash64 (entry_code w Hash64 k v o c) c) k v o) = OK.
Proof. unfold GetStatus. rewrite strip_protect_val. by rewrite !Z.lxor_nilpotent. Qed.

(** Updating a field gives the code of the updated entry. *)
Lemma update_key k k' v o c :
  KVOC_UpdateK_parts w Hash64 (entry_code w Hash64 k v o c) [k] k' =
  entry_code w Hash64 (concat k') v o c.
Proof.
  unfold KVOC_UpdateK_parts, UpdateK_parts, entry_code, ProtectC, ProtectKVO. rewrite !parts_hash.
  cbn [pi_val kvo_val kvoc_val concat]. rewrite app_nil_r. f_equal. xor_solve.
Qed.

Lemma update_value k v v' o c :
  KVOC_UpdateV_parts w Hash64 (entry_code w Hash64 k v o c) [v] v' =
  entry_code w Hash64 k (concat v') o c.
Proof.
  unfold KVOC_UpdateV_parts, UpdateV_parts, entry_code, ProtectC, ProtectKVO. rewrite !parts_hash.
  cbn [pi_val kvo_val kvoc_val concat]. rewrite app_nil_r. f_equal. xor_solve.
Qed.

Lemma update_layers k v o k' v' o' c c' s s' :
  let p := ProtectKVO w Hash64 (PI 0) k v o in
  UpdateK w Hash64 p k k' = ProtectKVO w Hash64 (PI 0) k' v o /\
  UpdateV w Hash64 p v v' = ProtectKVO w Hash64 (PI 0) k v' o /\
  UpdateO w Hash64 p o o' = ProtectKVO w Hash64 (PI 0) k v o' /\
  UpdateC w Hash64 (ProtectC w Hash64 p c) c c' = ProtectC w Hash64 p c' /\
  UpdateS w Hash64 (ProtectS w Hash64 p s) s s' = ProtectS w Hash64 p s' /\
  StripC w Hash64 (ProtectC w Hash64 p c) c = p /\
  StripS w Hash64 (ProtectS w Hash64 p s) s = p.
Proof.
  cbv zeta.
  unfold UpdateK, UpdateV, UpdateO, UpdateC, UpdateS, StripC, StripS, ProtectC, ProtectS, ProtectKVO.
  cbn [pi_val kvo_val kvoc_val kvos_val]. split_and!; f_equal; xor_solve.
Qed.

Lemma Encode_Verify val len s v :
  Encode val len = Some s -> (Verify v len s = true <-> v mod 2 ^ (8 * len) = val mod 2 ^ (8 * len)).
Proof.
  unfold Encode, Verify.
  destruct (Z.eqb_spec len 1) as [->|]; [|destruct (Z.eqb_spec len 2) as [->|];
    [|destruct (Z.eqb_spec len 4) as [->|]; [|destruct (Z.eqb_spec len 8) as [->|]; [|done]]]];
  intros [= <-]; rewrite Z.eqb_eq.
  - rewrite at_cons_0, byte.unsigned_of_Z. unfold byte.wrap. split; intros E; symmetry; exact E.
  - rewrite <- (app_nil_r (EncodeFixed16 _)), DecodeFixed16_Encode by (apply Z.mod_pos_bound; lia).
    unfold u16. split; intros E; symmetry; exact E.
  - rewrite <- (app_nil_r (EncodeFixed32 _)), DecodeFixed32_Encode by apply u32_range.
    unfold u32. split; intros E; symmetry; exact E.
  - rewrite <- (app_nil_r (EncodeFixed64 _)), DecodeFixed64_Encode by apply u64_range.
    unfold u64. split; intros E; symmetry; exact E.
Qed.

End Lemmas.

(** ** Properties *)

(** Protection is sound for every width and every hash: an entry that is
    checked against the fields it was protected with passes, in whichever way
    its key and value were split into parts; every update of a field yields
    the code of the updated entry; removing a layer yields what was there
    before it; a stored code verifies exactly when it agrees in the stored
    bits. *)
Theorem protection_sound (w : Z) (Hash64 : bytes -> Z -> Z)
    (key value key' value' : bytes) (kparts vparts : list bytes) (o o' c c' s s' : Z) :
  let protect := ProtectKVO w Hash64 (PI 0) in
  let p := protect key value o in
  (concat kparts = key -> concat vparts = value ->
     ProtectKVO_parts w Hash64 (PI 0) kparts vparts o = p /\
     GetStatus (StripKVO_parts w Hash64 p kparts vparts o) = OK) /\
  GetStatus (StripKVO w Hash64 (StripC w Hash64 (ProtectC w Hash64 p c) c) key value o) = OK /\
  GetStatus (StripKVO w Hash64 (StripS w Hash64 (ProtectS w Hash64 p s) s) key value o) = OK /\
  UpdateK w Hash64 p key key' = protect key' value o /\
  UpdateV w Hash64 p value value' = protect key value' o /\
  UpdateO w Hash64 p o o' = protect key value o' /\
  UpdateC w Hash64 (ProtectC w Hash64 p c) c c' = ProtectC w Hash64 p c' /\
  UpdateS w Hash64 (ProtectS w Hash64 p s) s s' = ProtectS w Hash64 p s' /\
  (forall len dst v, Encode (kvo_val p) len = Some dst ->
     (Verify v len dst = true <-> v mod 2 ^ (8 * len) = kvo_val p mod 2 ^ (8 * len))).
Proof.
  intros protect p.
  assert (Hs : GetStatus (StripKVO w Hash64 p key value o) = OK).
  { pose proof (strip_protect_ok w Hash64 key value o 0) as H. unfold entry_code in H.
    by rewrite (proj1 (proj2 (proj2 (proj2 (proj2 (proj2 (update_layers w Hash64 key value o key value o 0 0 0 0)))))))
      in H. }
  destruct (update_layers w Hash64 key value o key' value' o' c c' s s')
    as (Hk & Hv & Ho & Hc & Hss & Hsc & Hst).
  split.
  - intros <- <-. split; [apply parts_forms|]. unfold StripKVO_parts. by rewrite !parts_hash.
  - unfold p, protect. rewrite Hsc, Hst. split_and!; auto. intros. by apply Encode_Verify.
Qed.

(** Protection detects: a check against fields of which exactly one
    differs from the protected one fails unless the hashes of the two, cut to
    the width of the code, collide; a swap of key and value fails unless the
    four hashes under the two seeds cancel. *)
Theorem protection_detects (w : Z) (Hash64 : bytes -> Z -> Z) (k v k' v' : bytes) (o c o' c' : Z) :
  let check k' v' o' c' :=
    GetStatus (StripKVO w Hash64 (StripC w Hash64 (entry_code w Hash64 k v o c) c') k' v' o') in
  let h x seed := T_cast w (Hash64 x seed) in
  (check k' v o c = OK <-> h k kSeedK = h k' kSeedK) /\
  (check k v' o c = OK <-> h v kSeedV = h v' kSeedV) /\
  (check k v o' c = OK <-> h (op_bytes o) kSeedO = h (op_bytes o') kSeedO) /\
  (check k v o c' = OK <-> h (cf_bytes c) kSeedC = h (cf_bytes c') kSeedC) /\
  (check v k o c = OK <-> Z.lxor (h k kSeedK) (h v kSeedK) = Z.lxor (h v kSeedV) (h k kSeedV)).
Proof.
  cbv zeta. unfold GetStatus. rewrite !strip_protect_val, !Z.lxor_nilpotent, !Z.lxor_0_r, !Z.lxor_0_l.
  assert (H : forall a b, (if negb (Z.lxor a b =? 0) then Corruption "ProtectionInfo mismatch" else OK) = OK
                          <-> a = b).
  { intros a b. destruct (Z.eqb_spec (Z.lxor a b) 0) as [E|E]; cbn.
    - apply Z.lxor_eq in E. by subst.
    - split; [done|]. intros ->. by rewrite Z.lxor_nilpotent in E. }
  repeat split; apply H.
Qed.
