(* ===== verification/WideColumns.v ===== *)
(** * Wide columns

    Models db/wide/wide_column_serialization.cc and the helpers of
    db/wide/wide_columns_helper.{h,cc}: an entity is a list of named columns,
    serialized as a sorted index followed by the values. *)

From S2P Require Import Prelude Coding Slice.

(** ** Data and helpers *)

Record WideColumn := { name : bytes; value : bytes }.
Abbreviation WideColumns := (list WideColumn).

Definition kCurrentVersion : Z := 1.
Definition kDefaultWideColumnName : bytes := [].
Definition max_u32 : Z := 2 ^ 32 - 1.

(** [std::sort] by [name().compare]: an insertion sort. The order in which
    [std::sort] leaves columns of one name is not specified; [Serialize]
    refuses such columns in any order. *)
Fixpoint insert_column (c : WideColumn) (cs : WideColumns) : WideColumns :=
  match cs with
  | [] => [c]
  | d :: cs' => if compare (name d) (name c) <? 0 then d :: insert_column c cs' else c :: d :: cs'
  end.

Fixpoint SortColumns (cs : WideColumns) : WideColumns :=
  match cs with [] => [] | c :: cs' => insert_column c (SortColumns cs') end.

Definition HasDefaultColumn (columns : WideColumns) : bool :=
  match columns with [] => false | c :: _ => equal (name c) kDefaultWideColumnName end.

Definition HasDefaultColumnOnly (columns : WideColumns) : bool :=
  match columns with [c] => equal (name c) kDefaultWideColumnName | _ => false end.

Definition GetDefaultColumn (columns : WideColumns) : bytes :=
  match columns with [] => [] | c :: _ => value c end.

(** The test of both directions: a previous name that is not less. *)
Definition out_of_order (prev : option bytes) (nm : bytes) : bool :=
  match prev with Some p => 0 <=? compare p nm | None => false end.

(** ** Serialize *)

(** The first loop: the index; [prev] is [prev_name]. *)
Fixpoint Serialize_index (columns : WideColumns) (prev : option bytes) (output : bytes)
    : Status * bytes :=
  match columns with
  | [] => (OK, output)
  | column :: columns' =>
      if max_u32 <? slen (name column) then (InvalidArgument "Wide column name too long", output)
      else if out_of_order prev (name column)
      then (Corruption "Wide columns out of order", output)
      else if max_u32 <? slen (value column)
      then (InvalidArgument "Wide column value too long", output)
      else Serialize_index columns' (Some (name column))
             (PutVarint32 (PutLengthPrefixedSlice output (name column)) (u32 (slen (value column))))
  end.

Definition Serialize (columns : WideColumns) (output : bytes) : Status * bytes :=
  let num_columns := slen columns in
  if max_u32 <? num_columns then (InvalidArgument "Too many wide columns", output)
  else
    let output := PutVarint32 output kCurrentVersion in
    let output := PutVarint32 output (u32 num_columns) in
    let (s, output) := Serialize_index columns None output in
    if ok s then (OK, fold_left (fun out c => out ++ value c) columns output) else (s, output).

(** ** Deserialize *)

(** The first loop: names and value sizes, [n] columns still to read. *)
Fixpoint Deserialize_index (n : nat) (input : bytes) (names : list bytes) (sizes : list Z)
    : Status * (bytes * (list bytes * list Z)) :=
  match n with
  | O => (OK, (input, (names, sizes)))
  | S n' =>
      match GetLengthPrefixedSlice input with
      | None => (Corruption "Error decoding wide column name", (input, (names, sizes)))
      | Some (nm, input) =>
          if out_of_order (list.last names) nm
          then (Corruption "Wide columns out of order", (input, (names, sizes)))
          else match GetVarint32 input with
               | None => (Corruption "Error decoding wide column value size",
                          (input, (names ++ [nm], sizes)))
               | Some (value_size, input) =>
                   Deserialize_index n' input (names ++ [nm]) (sizes ++ [value_size])
               end
      end
  end.

(** The second loop: the values, from [pos] on. A column whose value was not
    reached keeps an empty one. *)
Fixpoint Deserialize_values (names : list bytes) (sizes : list Z) (data : bytes) (pos : Z)
    : Status * WideColumns :=
  match names, sizes with
  | nm :: names', value_size :: sizes' =>
      if slen data <? pos + value_size
      then (Corruption "Error decoding wide column value payload",
            map (fun n => {| name := n; value := [] |}) names)
      else
        let (s, cs) := Deserialize_values names' sizes' data (pos + value_size) in
        (s, {| name := nm; value := stake value_size (sdrop pos data) |} :: cs)
  | _, _ => (OK, [])
  end.

(** Status, what is left of [input], columns. *)
Definition Deserialize (input : bytes) : Status * bytes * WideColumns :=
  match GetVarint32 input with
  | None => (Corruption "Error decoding wide column version", input, [])
  | Some (version, input) =>
      if kCurrentVersion <? version
      then (NotSupported "Unsupported wide column version", input, [])
      else match GetVarint32 input with
           | None => (Corruption "Error decoding number of wide columns", input, [])
           | Some (num_columns, input) =>
               if num_columns =? 0 then (OK, input, [])
               else
                 let '(s, (input, (names, sizes))) :=
                   Deserialize_index (Z.to_nat num_columns) input [] [] in
                 if ok s then
                   let (s, cs) := Deserialize_values names sizes input 0 in (s, input, cs)
                 else (s, input, map (fun n => {| name := n; value := [] |}) names)
           end
  end.

(** ** Lookup *)

(** [std::lower_bound]: first position in [first, first + len) whose name is
    not less than [column_name]; [fuel] bounds the halvings. *)
Fixpoint lower_bound (fuel : nat) (columns : WideColumns) (column_name : bytes) (first len : nat) : nat :=
  match fuel with
  | O => first
  | S fuel' =>
      if (len =? 0)%nat then first
      else
        let half := (len / 2)%nat in
        let middle := (first + half)%nat in
        if match columns !! middle with
           | Some c => compare (name c) column_name <? 0
           | None => false
           end
        then lower_bound fuel' columns column_name (middle + 1)%nat (len - half - 1)%nat
        else lower_bound fuel' columns column_name first half
  end.

(** [cend()] is [None]. *)
Definition Find (columns : WideColumns) (column_name : bytes) : option nat :=
  let it := lower_bound (S (length columns)) columns column_name 0 (length columns) in
  match columns !! it with
  | None => None
  | Some c => if negb (equal (name c) column_name) then None else Some it
  end.

Definition GetValueOfDefaultColumn (input : bytes) : Status * bytes * bytes :=
  let '(s, input, columns) := Deserialize input in
  if negb (ok s) then (s, input, [])
  else if negb (HasDefaultColumn columns) then (OK, input, [])
  else (OK, input, GetDefaultColumn columns).

(** ** Lemmas *)

(** Strictly increasing names, after [prev]. *)
Fixpoint names_after (prev : option bytes) (ns : list bytes) : Prop :=
  match ns with
  | [] => True
  | n :: ns' => (match prev with Some p => lex p n < 0 | None => True end) /\ names_after (Some n) ns'
  end.

Definition sorted_after (prev : option bytes) (cs : WideColumns) : Prop :=
  names_after prev (map name cs).

Definition fits (c : WideColumn) : Prop := is_u32 (slen (name c)) /\ is_u32 (slen (value c)).

Lemma in_order prev nm :
  out_of_order prev nm = false <-> match prev with Some p => lex p nm < 0 | None => True end.
Proof.
  unfold out_of_order. destruct prev as [p|]; [|done]. rewrite compare_lex, Z.leb_gt. done.
Qed.

(** The index and the values of a list of columns. *)
Definition index_entry (c : WideColumn) : bytes :=
  PutLengthPrefixedSlice [] (name c) ++ EncodeVarint32 (slen (value c)).
Definition index_bytes (cs : WideColumns) : bytes := concat (map index_entry cs).
Definition value_bytes (cs : WideColumns) : bytes := concat (map value cs).

Lemma Serialize_index_ok cs prev out :
  Forall fits cs -> sorted_after prev cs -> Serialize_index cs prev out = (OK, out ++ index_bytes cs).
Proof.
  revert prev out. induction cs as [|c cs IH]; intros prev out Hf Hs; cbn [Serialize_index].
  { unfold index_bytes. cbn. by rewrite app_nil_r. }
  inversion_clear Hf as [|? ? [Hn Hv] Hf']. destruct Hs as [Hp Hs]. unfold is_u32, max_u32 in *.
  rewrite (proj2 (in_order prev (name c)) Hp). repeat zcase. rewrite IH by done. f_equal. rewrite u32_id by done. unfold PutVarint32.
  rewrite (PutLengthPrefixedSlice_app out). change (index_bytes (c :: cs)) with (index_entry c ++ index_bytes cs).
  unfold index_entry. by rewrite <- !app_assoc.
Qed.

Lemma fold_values cs out : fold_left (fun out c => out ++ value c) cs out = out ++ value_bytes cs.
Proof.
  revert out. induction cs as [|c cs IH]; intros out; cbn; [by rewrite app_nil_r|].
  rewrite IH, <- app_assoc. done.
Qed.

Lemma Serialize_ok cs out : slen cs <= max_u32 -> Forall fits cs -> sorted_after None cs ->
  Serialize cs out =
  (OK, out ++ EncodeVarint32 1 ++ EncodeVarint32 (slen cs) ++ index_bytes cs ++ value_bytes cs).
Proof.
  intros Hn Hf Hs. unfold Serialize. zcase. rewrite Serialize_index_ok by done. cbn [ok].
  rewrite fold_values, u32_id by (unfold is_u32, max_u32 in *; slia). unfold PutVarint32.
  by rewrite <- !app_assoc.
Qed.

(** [Serialize] accepts nothing else. *)
Lemma Serialize_index_inv cs prev out out' :
  Serialize_index cs prev out = (OK, out') -> Forall fits cs /\ sorted_after prev cs.
Proof.
  revert prev out. induction cs as [|c cs IH]; intros prev out H; cbn in H; [by split|].
  destruct (out_of_order prev (name c)) eqn:E; repeat (zcase_in H; try done).
  apply in_order in E. apply IH in H as [Hf Hs]. unfold fits, is_u32, max_u32 in *.
  split; [constructor; [slia|done]|split; done].
Qed.

Lemma Serialize_inv cs out out' : Serialize cs out = (OK, out') ->
  slen cs <= max_u32 /\ Forall fits cs /\ sorted_after None cs.
Proof.
  unfold Serialize. intros H. zcase_in H; [done|]. split; [lia|].
  destruct (Serialize_index _ _ _) as [s o] eqn:E. destruct s; try done.
  by apply Serialize_index_inv in E.
Qed.

Lemma Deserialize_index_ok cs names sizes rest :
  Forall fits cs -> sorted_after (list.last names) cs ->
  Deserialize_index (length cs) (index_bytes cs ++ rest) names sizes =
  (OK, (rest, (names ++ map name cs, sizes ++ map (fun c => slen (value c)) cs))).
Proof.
  revert names sizes. induction cs as [|c cs IH]; intros names sizes Hf Hs; cbn [length Deserialize_index].
  { cbn. by rewrite !app_nil_r. }
  inversion_clear Hf as [|? ? [Hn Hv] Hf']. destruct Hs as [Hp Hs].
  change (index_bytes (c :: cs)) with (index_entry c ++ index_bytes cs). unfold index_entry.
  rewrite <- !app_assoc, GetLengthPrefixedSlice_Put by done.
  rewrite (proj2 (in_order (list.last names) (name c)) Hp).
  rewrite GetVarint32_Encode by done. rewrite IH; [|done|by rewrite last_snoc].
  cbn [map]. by rewrite <- !app_assoc.
Qed.

Lemma Deserialize_values_ok cs pre rest :
  Deserialize_values (map name cs) (map (fun c => slen (value c)) cs)
    (pre ++ value_bytes cs ++ rest) (slen pre) = (OK, cs).
Proof.
  revert pre. induction cs as [|c cs IH]; intros pre; [done|]. cbn [map Deserialize_values].
  change (value_bytes (c :: cs)) with (value c ++ value_bytes cs).
  replace (slen (pre ++ _) <? _) with false by (symmetry; rewrite !slen_app; zcase; slia).
  specialize (IH (pre ++ value c)). rewrite slen_app in IH. rewrite <- !app_assoc in IH |- *.
  rewrite IH, sdrop_app, stake_app by done. by destruct c.
Qed.

Lemma Deserialize_ok cs rest : slen cs <= max_u32 -> Forall fits cs -> sorted_after None cs ->
  Deserialize (EncodeVarint32 1 ++ EncodeVarint32 (slen cs) ++ index_bytes cs ++ value_bytes cs ++ rest) =
  (OK, value_bytes cs ++ rest, cs).
Proof.
  intros Hn Hf Hs. unfold Deserialize. rewrite GetVarint32_Encode by (unfold is_u32; lia). cbn [Z.ltb].
  change (kCurrentVersion <? 1) with false. cbv iota.
  rewrite GetVarint32_Encode by (unfold is_u32, max_u32 in *; slia).
  destruct (Z.eqb_spec (slen cs) 0) as [E|E].
  { by rewrite (slen_0_nil cs E). }
  unfold slen. rewrite Nat2Z.id, Deserialize_index_ok by done. cbn [ok].
  pose proof (Deserialize_values_ok cs [] rest) as Hv. change (slen []) with 0 in Hv.
  cbn [app] in *. by rewrite Hv.
Qed.

Lemma Deserialize_index_inv n input names sizes input' names' sizes' :
  Deserialize_index n input names sizes = (OK, (input', (names', sizes'))) ->
  exists new szs, names' = names ++ new /\ sizes' = sizes ++ szs /\ length new = n /\
    length szs = n /\ names_after (list.last names) new.
Proof.
  revert input names sizes. induction n as [|n IH]; intros input names sizes H; cbn in H.
  { injection H as <- <- <-. exists [], []. by rewrite !app_nil_r. }
  destruct (GetLengthPrefixedSlice input) as [[nm i1]|]; [|done].
  destruct (out_of_order (list.last names) nm) eqn:E; [done|]. apply in_order in E.
  destruct (GetVarint32 i1) as [[sz i2]|]; [|done].
  apply IH in H as (new & szs & -> & -> & Hl & Hl' & Hs). exists (nm :: new), (sz :: szs).
  rewrite <- !app_assoc. rewrite last_snoc in Hs. cbn. split_and!; try done; lia.
Qed.

Lemma Deserialize_values_names names sizes data pos s cs :
  length names = length sizes -> Deserialize_values names sizes data pos = (s, cs) -> map name cs = names.
Proof.
  revert sizes pos s cs. induction names as [|nm names IH]; intros [|sz sizes] pos s cs Hl H; try done.
  { by injection H as <- <-. }
  cbn [Deserialize_values] in H. zcase_in H.
  - injection H as <- <-. cbn. f_equal. rewrite map_map. cbn. apply map_id.
  - destruct (Deserialize_values names _ _ _) as [s' cs'] eqn:E. injection H as <- <-.
    cbn. f_equal. eapply IH; [|exact E]. cbn in Hl. lia.
Qed.

Lemma Deserialize_sorted input rest cs : Deserialize input = (OK, rest, cs) -> sorted_after None cs.
Proof.
  unfold Deserialize. destruct (GetVarint32 input) as [[v i1]|]; [|done].
  destruct (_ <? v); [done|]. destruct (GetVarint32 i1) as [[n i2]|]; [|done].
  destruct (n =? 0); [by intros [= <- <-]|].
  destruct (Deserialize_index _ _ _ _) as [s [i3 [names sizes]]] eqn:E. destruct s; try done. cbn [ok].
  destruct (Deserialize_values names sizes i3 0) as [s' cs'] eqn:E'. intros [= -> <- <-].
  apply Deserialize_index_inv in E as (new & szs & -> & -> & Hl & Hl' & Hs). cbn [app] in *.
  unfold sorted_after. apply Deserialize_values_names in E' as ->; [done|lia].
Qed.

(** ** Lemmas: sorting and lookup *)

Lemma lex_lt_trans a b c : lex a b < 0 -> lex b c < 0 -> lex a c < 0.
Proof.
  intros H1 H2. pose proof (lex_trans a b c ltac:(lia) ltac:(lia)).
  destruct (Z.eq_dec (lex a c) 0) as [E|]; [|lia]. apply lex_eq in E as ->.
  rewrite lex_opp in H1. lia.
Qed.

Lemma names_after_weaken p q ns : lex p q < 0 -> names_after (Some q) ns -> names_after (Some p) ns.
Proof. destruct ns; [done|]. intros Hpq [Hq Hs]. split; [|done]. by eapply lex_lt_trans. Qed.

Lemma names_after_all p ns n : names_after (Some p) ns -> n ∈ ns -> lex p n < 0.
Proof.
  revert p. induction ns as [|m ns IH]; intros p Hs Hin; [by apply not_elem_of_nil in Hin|].
  destruct Hs as [Hm Hs]. apply elem_of_cons in Hin as [->|Hin]; [done|].
  apply IH; [|done]. by eapply names_after_weaken.
Qed.

Lemma sorted_lookup p cs i j c d : sorted_after p cs -> cs !! i = Some c -> cs !! j = Some d ->
  (i < j)%nat -> lex (name c) (name d) < 0.
Proof.
  revert p i j. induction cs as [|x cs IH]; intros p i j Hs Hi Hj Hij; [done|].
  destruct j as [|j]; [lia|]. destruct Hs as [_ Hs]. destruct i as [|i].
  - injection Hi as ->. eapply names_after_all; [exact Hs|]. apply list_elem_of_fmap.
    exists d. split; [done|]. by eapply list_elem_of_lookup_2.
  - eapply (IH (Some (name x)) i j); (done || lia).
Qed.

Lemma lower_bound_ok fuel cs n first len : (len < fuel)%nat -> sorted_after None cs ->
  (first + len <= length cs)%nat ->
  (forall i c, (i < first)%nat -> cs !! i = Some c -> lex (name c) n < 0) ->
  (forall i c, (first + len <= i)%nat -> cs !! i = Some c -> 0 <= lex (name c) n) ->
  let r := lower_bound fuel cs n first len in
  (forall i c, (i < r)%nat -> cs !! i = Some c -> lex (name c) n < 0) /\
  (forall i c, (r <= i)%nat -> cs !! i = Some c -> 0 <= lex (name c) n).
Proof.
  revert first len. induction fuel as [|fuel IH]; intros first len Hf Hs Hb Hlo Hhi; [lia|].
  cbn [lower_bound]. destruct (Nat.eqb_spec len 0) as [->|Hlen].
  { split; [done|]. intros i c Hi. apply Hhi. lia. }
  pose proof (Nat.div_lt len 2 ltac:(lia) ltac:(lia)) as Hhalf. set (half := (len / 2)%nat) in *.
  destruct (lookup_lt_is_Some_2 cs (first + half)) as [m Hm]; [lia|]. rewrite Hm, compare_lex.
  destruct (Z.ltb_spec (lex (name m) n) 0) as [Hlt|Hge].
  - apply IH; [lia|done|lia| |].
    + intros i c Hi Hc. destruct (decide (i = first + half)%nat) as [->|]; [congruence|].
      eapply lex_lt_trans; [|exact Hlt]. apply (sorted_lookup None cs i (first + half)); (done || lia).
    + intros i c Hi. apply Hhi. lia.
  - apply IH; [lia|done|lia|done|]. intros i c Hi Hc.
    destruct (decide (i = first + half)%nat) as [->|]; [congruence|].
    pose proof (sorted_lookup None cs (first + half) i m c Hs Hm Hc ltac:(lia)) as Hmc.
    destruct (Z.lt_ge_cases (lex (name c) n) 0); [|done].
    pose proof (lex_lt_trans _ _ _ Hmc ltac:(eassumption)). lia.
Qed.

Lemma insert_column_perm c cs : insert_column c cs ≡ₚ c :: cs.
Proof.
  induction cs as [|d cs IH]; cbn; [done|]. zcase; [|done]. rewrite IH. apply Permutation_swap.
Qed.

Lemma SortColumns_perm cs : SortColumns cs ≡ₚ cs.
Proof. induction cs as [|c cs IH]; cbn; [done|]. by rewrite insert_column_perm, IH. Qed.

Lemma insert_column_sorted p c cs : sorted_after p cs -> name c ∉ map name cs ->
  (match p with Some q => lex q (name c) < 0 | None => True end) -> sorted_after p (insert_column c cs).
Proof.
  revert p. induction cs as [|d cs IH]; intros p Hs Hn Hp; [done|]. cbn [insert_column].
  destruct Hs as [Hd Hs]. rewrite compare_lex. cbn in Hn. apply not_elem_of_cons in Hn as [Hne Hn].
  zcase.
  - split; [done|]. apply IH; (done || lia).
  - split; [done|]. split; [|done].
    pose proof (lex_opp (name d) (name c)). destruct (Z.eq_dec (lex (name d) (name c)) 0) as [E|]; [|lia].
    apply lex_eq in E. congruence.
Qed.

Lemma SortColumns_sorted cs : NoDup (map name cs) -> sorted_after None (SortColumns cs).
Proof.
  induction cs as [|c cs IH]; intros Hn; [done|]. cbn. inversion_clear Hn as [|? ? Hc Hcs].
  apply insert_column_sorted; [by apply IH| |done].
  intros Hin. apply Hc. by rewrite <- (SortColumns_perm cs).
Qed.

Lemma Find_ok entity n i : sorted_after None entity ->
  Find entity n = Some i <-> exists c, entity !! i = Some c /\ name c = n.
Proof.
  intros Hs. unfold Find.
  destruct (lower_bound_ok (S (length entity)) entity n 0 (length entity)) as [Hlo Hhi];
    [lia|done|lia|lia|intros j c Hj Hc; apply lookup_lt_Some in Hc; lia|].
  set (r := lower_bound _ _ _ _ _) in *. split.
  - destruct (entity !! r) as [c|] eqn:E; [|done]. destruct (equal (name c) n) eqn:Eq; [|done].
    intros [= <-]. exists c. split; [done|]. by apply equal_spec.
  - intros (c & Hc & <-). assert (r = i) as ->.
    { destruct (Nat.lt_trichotomy r i) as [Hlt|[->|Hgt]]; [|done|].
      - destruct (lookup_lt_is_Some_2 entity r) as [d Hd']; [apply lookup_lt_Some in Hc; lia|].
        pose proof (Hhi r d ltac:(lia) Hd'). pose proof (sorted_lookup None _ _ _ _ _ Hs Hd' Hc Hlt). lia.
      - pose proof (Hlo i c Hgt Hc). rewrite lex_refl in *. lia. }
    rewrite Hc. by rewrite (proj2 (equal_spec _ _) eq_refl).
Qed.

(** ** Properties *)

(** [Serialize] succeeds exactly on columns with strictly increasing
    names whose number and sizes fit 32 bits, and then [Deserialize] returns
    these columns, leaving the values and whatever follows in the input; what
    [Deserialize] accepts always has strictly increasing names. *)
Theorem wide_columns_roundtrip (cs : WideColumns) (rest : bytes) :
  (ok (fst (Serialize cs [])) = true <->
     slen cs <= max_u32 /\ Forall fits cs /\ sorted_after None cs) /\
  (forall out, Serialize cs [] = (OK, out) ->
     Deserialize (out ++ rest) = (OK, value_bytes cs ++ rest, cs)) /\
  (forall input input' cs', Deserialize input = (OK, input', cs') -> sorted_after None cs').
Proof.
  split_and!.
  - split.
    + destruct (Serialize cs []) as [s out] eqn:E. destruct s; try done. intros _.
      by apply Serialize_inv in E.
    + intros (Hn & Hf & Hs). by rewrite Serialize_ok.
  - intros out E. pose proof (Serialize_inv _ _ _ E) as (Hn & Hf & Hs).
    rewrite Serialize_ok in E by done. rewrite <- (Deserialize_ok cs rest) by done.
    f_equal. assert (H : out = [] ++ EncodeVarint32 1 ++ EncodeVarint32 (slen cs) ++ index_bytes cs ++ value_bytes cs)
      by congruence.
    by rewrite H, app_nil_l, <- !app_assoc.
  - intros. by eapply Deserialize_sorted.
Qed.

(** Columns given in any order with distinct names are accepted after
    [SortColumns], which permutes them; the binary search of [Find] finds a
    column of a deserialized entity exactly when it has one of that name, and
    the default column is found at the front. *)
Theorem wide_columns_lookup (cs : WideColumns) :
  slen cs <= max_u32 -> Forall fits cs -> NoDup (map name cs) ->
  exists out, Serialize (SortColumns cs) [] = (OK, out) /\
    let entity := SortColumns cs in
    Deserialize out = (OK, value_bytes entity, entity) /\ entity ≡ₚ cs /\
    (forall n i, Find entity n = Some i <-> exists c, entity !! i = Some c /\ name c = n) /\
    GetValueOfDefaultColumn out =
      (OK, value_bytes entity,
       match Find entity kDefaultWideColumnName with
       | Some i => default [] (value <$> entity !! i) | None => [] end).
Proof.
  intros Hn Hf Hd. pose proof (SortColumns_perm cs) as Hp. pose proof (SortColumns_sorted cs Hd) as Hs.
  set (entity := SortColumns cs) in *.
  assert (Hn' : slen entity <= max_u32) by (unfold slen; by rewrite Hp).
  assert (Hf' : Forall fits entity) by (by rewrite Hp).
  rewrite Serialize_ok by done. eexists. split; [reflexivity|]. cbv zeta.
  pose proof (Deserialize_ok entity [] Hn' Hf' Hs) as Hdes. rewrite !app_nil_r in Hdes.
  rewrite app_nil_l. split; [done|]. split; [done|].
  pose proof (fun n i => Find_ok entity n i Hs) as HF.
  split; [exact HF|]. unfold GetValueOfDefaultColumn. rewrite Hdes. cbn [ok negb].
  destruct (Find entity kDefaultWideColumnName) as [i|] eqn:E.
  - apply HF in E as (c & Hc & Hname). destruct entity as [|e es] eqn:He; [done|].
    assert (i = O) as ->.
    { destruct i as [|i]; [done|]. pose proof (sorted_lookup None _ 0 (S i) e c Hs eq_refl Hc ltac:(lia)) as H.
      rewrite Hname in H. pose proof (lex_nil_l (name e)). unfold kDefaultWideColumnName in *.
      rewrite (lex_opp [] (name e)) in H. lia. }
    injection Hc as ->. cbn [HasDefaultColumn]. by rewrite (proj2 (equal_spec _ _) Hname).
  - destruct entity as [|e es] eqn:He; [done|]. cbn [HasDefaultColumn].
    destruct (equal (name e) kDefaultWideColumnName) eqn:Eq; [|done]. apply equal_spec in Eq.
    assert (Find (e :: es) kDefaultWideColumnName = Some 0%nat) by (apply HF; by exists e). congruence.
Qed.

Definition sample_columns : WideColumns :=
  [ {| name := [Byte.x62]; value := [Byte.x01; Byte.x02] |};
    {| name := []; value := [Byte.x03] |};
    {| name := [Byte.x61; Byte.x63]; value := [] |} ].

Lemma wide_columns_lookup_witness :
  exists out, Serialize (SortColumns sample_columns) [] = (OK, out) /\
    GetValueOfDefaultColumn out = (OK, [Byte.x03; Byte.x01; Byte.x02], [Byte.x03]).
Proof.
  destruct (wide_columns_lookup sample_columns) as (out & E & _ & _ & _ & H).
  - vm_compute. discriminate.
  - repeat constructor; vm_compute; discriminate.
  - apply (bool_decide_unpack _). vm_compute. reflexivity.
  - exists out. split; [exact E|]. rewrite H. vm_compute. reflexivity.
Defined.
