(* ===== verification/WriteBatch.v ===== *)
(** * Write batches: building

    Models the data structure [WriteBatch] (include/rocksdb/write_batch.h,
    db/write_batch_internal.h, db/write_batch.cc) and every operation that
    appends to it: the records of [WriteBatchInternal] on slices and on slice
    parts, the methods of [WriteBatch] that route them through a column
    family handle, transaction markers, save points and the size limit.
    Reading a batch back is in WriteBatchIter.v.

    [rep_] is the bytes of the batch: sequence number (8), count (4), records.
    [save_points_] is the stack, top first; the code does not distinguish a
    null pointer from an empty stack. *)

From S2P Require Import Prelude Coding Slice Comparator DbFormat KvChecksum WideColumns.

(** ** Content flags *)

Definition DEFERRED : Z := Z.shiftl 1 0.
Definition HAS_PUT : Z := Z.shiftl 1 1.
Definition HAS_DELETE : Z := Z.shiftl 1 2.
Definition HAS_SINGLE_DELETE : Z := Z.shiftl 1 3.
Definition HAS_MERGE : Z := Z.shiftl 1 4.
Definition HAS_BEGIN_PREPARE : Z := Z.shiftl 1 5.
Definition HAS_END_PREPARE : Z := Z.shiftl 1 6.
Definition HAS_COMMIT : Z := Z.shiftl 1 7.
Definition HAS_ROLLBACK : Z := Z.shiftl 1 8.
Definition HAS_DELETE_RANGE : Z := Z.shiftl 1 9.
Definition HAS_BLOB_INDEX : Z := Z.shiftl 1 10.
Definition HAS_BEGIN_UNPREPARE : Z := Z.shiftl 1 11.
Definition HAS_PUT_ENTITY : Z := Z.shiftl 1 12.

(** ** State *)

Record SavePoint := { sp_size : Z; sp_count : Z; sp_content_flags : Z }.

Definition SavePoint_clear : SavePoint := {| sp_size := 0; sp_count := 0; sp_content_flags := 0 |}.

Definition is_cleared (sp : SavePoint) : bool :=
  Z.lor (Z.lor (sp_size sp) (sp_count sp)) (sp_content_flags sp) =? 0.

Record WriteBatch := {
  rep_ : bytes;
  content_flags_ : Z;
  save_points_ : list SavePoint;
  wal_term_point_ : SavePoint;
  is_latest_persistent_state_ : bool;
  needs_in_place_update_ts_ : bool;
  has_key_with_ts_ : bool;
  max_bytes_ : Z;
  prot_info_ : option (list ProtectionInfoKVOC);
  default_cf_ts_sz_ : Z
}.

Definition kHeader : Z := 12.

(** Assignments to one field. *)
Definition upd_rep (b : WriteBatch) (r : bytes) : WriteBatch :=
  {| rep_ := r; content_flags_ := content_flags_ b; save_points_ := save_points_ b;
     wal_term_point_ := wal_term_point_ b; is_latest_persistent_state_ := is_latest_persistent_state_ b;
     needs_in_place_update_ts_ := needs_in_place_update_ts_ b; has_key_with_ts_ := has_key_with_ts_ b;
     max_bytes_ := max_bytes_ b; prot_info_ := prot_info_ b; default_cf_ts_sz_ := default_cf_ts_sz_ b |}.
Definition upd_flags (b : WriteBatch) (f : Z) : WriteBatch :=
  {| rep_ := rep_ b; content_flags_ := f; save_points_ := save_points_ b;
     wal_term_point_ := wal_term_point_ b; is_latest_persistent_state_ := is_latest_persistent_state_ b;
     needs_in_place_update_ts_ := needs_in_place_update_ts_ b; has_key_with_ts_ := has_key_with_ts_ b;
     max_bytes_ := max_bytes_ b; prot_info_ := prot_info_ b; default_cf_ts_sz_ := default_cf_ts_sz_ b |}.
Definition upd_save_points (b : WriteBatch) (sps : list SavePoint) : WriteBatch :=
  {| rep_ := rep_ b; content_flags_ := content_flags_ b; save_points_ := sps;
     wal_term_point_ := wal_term_point_ b; is_latest_persistent_state_ := is_latest_persistent_state_ b;
     needs_in_place_update_ts_ := needs_in_place_update_ts_ b; has_key_with_ts_ := has_key_with_ts_ b;
     max_bytes_ := max_bytes_ b; prot_info_ := prot_info_ b; default_cf_ts_sz_ := default_cf_ts_sz_ b |}.
Definition upd_prot (b : WriteBatch) (p : option (list ProtectionInfoKVOC)) : WriteBatch :=
  {| rep_ := rep_ b; content_flags_ := content_flags_ b; save_points_ := save_points_ b;
     wal_term_point_ := wal_term_point_ b; is_latest_persistent_state_ := is_latest_persistent_state_ b;
     needs_in_place_update_ts_ := needs_in_place_update_ts_ b; has_key_with_ts_ := has_key_with_ts_ b;
     max_bytes_ := max_bytes_ b; prot_info_ := p; default_cf_ts_sz_ := default_cf_ts_sz_ b |}.
Definition upd_ts (b : WriteBatch) (needs has : bool) : WriteBatch :=
  {| rep_ := rep_ b; content_flags_ := content_flags_ b; save_points_ := save_points_ b;
     wal_term_point_ := wal_term_point_ b; is_latest_persistent_state_ := is_latest_persistent_state_ b;
     needs_in_place_update_ts_ := needs; has_key_with_ts_ := has;
     max_bytes_ := max_bytes_ b; prot_info_ := prot_info_ b; default_cf_ts_sz_ := default_cf_ts_sz_ b |}.
Definition upd_wal_term (b : WriteBatch) (sp : SavePoint) : WriteBatch :=
  {| rep_ := rep_ b; content_flags_ := content_flags_ b; save_points_ := save_points_ b;
     wal_term_point_ := sp; is_latest_persistent_state_ := is_latest_persistent_state_ b;
     needs_in_place_update_ts_ := needs_in_place_update_ts_ b; has_key_with_ts_ := has_key_with_ts_ b;
     max_bytes_ := max_bytes_ b; prot_info_ := prot_info_ b; default_cf_ts_sz_ := default_cf_ts_sz_ b |}.

(** [content_flags_.store(content_flags_.load() | f)]. *)
Definition or_flags (b : WriteBatch) (f : Z) : WriteBatch := upd_flags b (Z.lor (content_flags_ b) f).

(** [std::string::resize(n)] and [autovector::resize(n)] to a size that is not
    larger. *)
Definition resize (s : bytes) (n : Z) : bytes := stake n s.

(** ** Construction, copies, and the header *)

Definition WriteBatch_make (max_bytes protection_bytes_per_key default_cf_ts_sz : Z) : WriteBatch :=
  {| rep_ := repeat_byte kHeader Byte.x00; content_flags_ := 0; save_points_ := [];
     wal_term_point_ := SavePoint_clear; is_latest_persistent_state_ := false;
     needs_in_place_update_ts_ := false; has_key_with_ts_ := false; max_bytes_ := max_bytes;
     prot_info_ := if negb (protection_bytes_per_key =? 0) then Some [] else None;
     default_cf_ts_sz_ := default_cf_ts_sz |}.

(** [WriteBatch(const std::string& rep)]. *)
Definition WriteBatch_of_rep (rep : bytes) : WriteBatch :=
  {| rep_ := rep; content_flags_ := DEFERRED; save_points_ := [];
     wal_term_point_ := SavePoint_clear; is_latest_persistent_state_ := false;
     needs_in_place_update_ts_ := false; has_key_with_ts_ := false; max_bytes_ := 0;
     prot_info_ := None; default_cf_ts_sz_ := 0 |}.

(** The copy constructor: the fields it does not list get their initial value. *)
Definition WriteBatch_copy (src : WriteBatch) : WriteBatch :=
  {| rep_ := rep_ src; content_flags_ := content_flags_ src; save_points_ := save_points_ src;
     wal_term_point_ := wal_term_point_ src; is_latest_persistent_state_ := false;
     needs_in_place_update_ts_ := false; has_key_with_ts_ := false; max_bytes_ := max_bytes_ src;
     prot_info_ := prot_info_ src; default_cf_ts_sz_ := default_cf_ts_sz_ src |}.

Definition Clear (b : WriteBatch) : WriteBatch :=
  {| rep_ := repeat_byte kHeader Byte.x00; content_flags_ := 0; save_points_ := [];
     wal_term_point_ := SavePoint_clear; is_latest_persistent_state_ := is_latest_persistent_state_ b;
     needs_in_place_update_ts_ := needs_in_place_update_ts_ b; has_key_with_ts_ := has_key_with_ts_ b;
     max_bytes_ := max_bytes_ b; prot_info_ := match prot_info_ b with Some _ => Some [] | None => None end;
     default_cf_ts_sz_ := 0 |}.

Definition Count (b : WriteBatch) : Z := DecodeFixed32 (sdrop 8 (rep_ b)).

Definition SetCount (b : WriteBatch) (n : Z) : WriteBatch :=
  upd_rep b (stake 8 (rep_ b) ++ EncodeFixed32 n ++ sdrop 12 (rep_ b)).

Definition Sequence (b : WriteBatch) : Z := DecodeFixed64 (rep_ b).

Definition SetSequence (b : WriteBatch) (seq : Z) : WriteBatch :=
  upd_rep b (EncodeFixed64 seq ++ sdrop 8 (rep_ b)).

Definition GetDataSize (b : WriteBatch) : Z := slen (rep_ b).

Definition MarkWalTerminationPoint (b : WriteBatch) : WriteBatch :=
  upd_wal_term b {| sp_size := GetDataSize b; sp_count := Count b; sp_content_flags := content_flags_ b |}.

(** [WriteBatch::Release]. *)
Definition Release (b : WriteBatch) : bytes * WriteBatch := (rep_ b, Clear b).

(** ** LocalSavePoint *)

Definition LocalSavePoint (b : WriteBatch) : SavePoint :=
  {| sp_size := GetDataSize b; sp_count := Count b; sp_content_flags := content_flags_ b |}.

Definition commit (savepoint : SavePoint) (b : WriteBatch) : Status * WriteBatch :=
  if negb (max_bytes_ b =? 0) && (max_bytes_ b <? slen (rep_ b)) then
    let b := upd_rep b (resize (rep_ b) (sp_size savepoint)) in
    let b := SetCount b (sp_count savepoint) in
    let b := upd_prot b (stake (sp_count savepoint) <$> prot_info_ b) in
    (MemoryLimit "", upd_flags b (sp_content_flags savepoint))
  else (OK, b).

(** ** Pieces of a record *)

(** The tag byte, and the column family of a record that is not for the
    default one. *)
Definition push_tag (b : WriteBatch) (column_family_id tag cf_tag : Z) : WriteBatch :=
  upd_rep b (if column_family_id =? 0 then rep_ b ++ [to_byte tag]
             else PutVarint32 (rep_ b ++ [to_byte cf_tag]) column_family_id).

Definition put_slice (b : WriteBatch) (s : bytes) : WriteBatch :=
  upd_rep b (PutLengthPrefixedSlice (rep_ b) s).

Definition put_parts (b : WriteBatch) (parts : list bytes) : WriteBatch :=
  upd_rep b (PutLengthPrefixedSliceParts (rep_ b) parts).

Definition incr_count (b : WriteBatch) : WriteBatch := SetCount b (u32 (Count b + 1)).

(** A handle: its id and its comparator, if it has one. *)
Record ColumnFamilyHandle := { cfh_id : Z; cfh_comparator : option Comparator }.

Section Batch.

Variable Hash64 : bytes -> Z -> Z.

(** [if (prot_info_ != nullptr) entries_.emplace_back(...)]. *)
Definition protect (b : WriteBatch) (key value : bytes) (op cf : Z) : WriteBatch :=
  upd_prot b (match prot_info_ b with
              | Some es => Some (es ++ [ProtectC 64 Hash64 (ProtectKVO 64 Hash64 (PI 0) key value op) cf])
              | None => None
              end).

Definition protect_parts (b : WriteBatch) (key value : list bytes) (op cf : Z) : WriteBatch :=
  upd_prot b (match prot_info_ b with
              | Some es => Some (es ++ [ProtectC 64 Hash64 (ProtectKVO_parts 64 Hash64 (PI 0) key value op) cf])
              | None => None
              end).

(** ** WriteBatchInternal: one record, on slices *)

Definition WBI_Put (b : WriteBatch) (column_family_id : Z) (key value : bytes) : Status * WriteBatch :=
  if max_u32 <? slen key then (InvalidArgument "key is too large", b)
  else if max_u32 <? slen value then (InvalidArgument "value is too large", b)
  else
    let save := LocalSavePoint b in
    let b := incr_count b in
    let b := push_tag b column_family_id kTypeValue kTypeColumnFamilyValue in
    let b := put_slice b key in
    let b := put_slice b value in
    let b := or_flags b HAS_PUT in
    let b := protect b key value kTypeValue column_family_id in
    commit save b.

Definition WBI_Delete (b : WriteBatch) (column_family_id : Z) (key : bytes) : Status * WriteBatch :=
  let save := LocalSavePoint b in
  let b := incr_count b in
  let b := push_tag b column_family_id kTypeDeletion kTypeColumnFamilyDeletion in
  let b := put_slice b key in
  let b := or_flags b HAS_DELETE in
  let b := protect b key [] kTypeDeletion column_family_id in
  commit save b.

Definition WBI_SingleDelete (b : WriteBatch) (column_family_id : Z) (key : bytes) : Status * WriteBatch :=
  let save := LocalSavePoint b in
  let b := incr_count b in
  let b := push_tag b column_family_id kTypeSingleDeletion kTypeColumnFamilySingleDeletion in
  let b := put_slice b key in
  let b := or_flags b HAS_SINGLE_DELETE in
  let b := protect b key [] kTypeSingleDeletion column_family_id in
  commit save b.

Definition WBI_DeleteRange (b : WriteBatch) (column_family_id : Z) (begin_key end_key : bytes)
    : Status * WriteBatch :=
  let save := LocalSavePoint b in
  let b := incr_count b in
  let b := push_tag b column_family_id kTypeRangeDeletion kTypeColumnFamilyRangeDeletion in
  let b := put_slice b begin_key in
  let b := put_slice b end_key in
  let b := or_flags b HAS_DELETE_RANGE in
  let b := protect b begin_key end_key kTypeRangeDeletion column_family_id in
  commit save b.

Definition WBI_Merge (b : WriteBatch) (column_family_id : Z) (key value : bytes) : Status * WriteBatch :=
  if max_u32 <? slen key then (InvalidArgument "key is too large", b)
  else if max_u32 <? slen value then (InvalidArgument "value is too large", b)
  else
    let save := LocalSavePoint b in
    let b := incr_count b in
    let b := push_tag b column_family_id kTypeMerge kTypeColumnFamilyMerge in
    let b := put_slice b key in
    let b := put_slice b value in
    let b := or_flags b HAS_MERGE in
    let b := protect b key value kTypeMerge column_family_id in
    commit save b.

Definition WBI_PutBlobIndex (b : WriteBatch) (column_family_id : Z) (key value : bytes)
    : Status * WriteBatch :=
  let save := LocalSavePoint b in
  let b := incr_count b in
  let b := push_tag b column_family_id kTypeBlobIndex kTypeColumnFamilyBlobIndex in
  let b := put_slice b key in
  let b := put_slice b value in
  let b := or_flags b HAS_BLOB_INDEX in
  let b := protect b key value kTypeBlobIndex column_family_id in
  commit save b.

Definition WBI_PutEntity (b : WriteBatch) (column_family_id : Z) (key : bytes) (columns : WideColumns)
    : Status * WriteBatch :=
  if max_u32 <? slen key then (InvalidArgument "key is too large", b)
  else
    let sorted_columns := SortColumns columns in
    let (s, entity) := Serialize sorted_columns [] in
    if negb (ok s) then (s, b)
    else if max_u32 <? slen entity then (InvalidArgument "wide column entity is too large", b)
    else
      let save := LocalSavePoint b in
      let b := incr_count b in
      let b := push_tag b column_family_id kTypeWideColumnEntity kTypeColumnFamilyWideColumnEntity in
      let b := put_slice b key in
      let b := put_slice b entity in
      let b := or_flags b HAS_PUT_ENTITY in
      let b := protect b key entity kTypeWideColumnEntity column_family_id in
      commit save b.

(** ** WriteBatchInternal: one record, on slice parts *)

Definition CheckSlicePartsLength (key value : list bytes) : Status :=
  if max_u32 <=? fold_left (fun t p => t + slen p) key 0 then InvalidArgument "key is too large"
  else if max_u32 <=? fold_left (fun t p => t + slen p) value 0 then InvalidArgument "value is too large"
  else OK.

Definition WBI_Put_parts (b : WriteBatch) (column_family_id : Z) (key value : list bytes)
    : Status * WriteBatch :=
  let s := CheckSlicePartsLength key value in
  if negb (ok s) then (s, b)
  else
    let save := LocalSavePoint b in
    let b := incr_count b in
    let b := push_tag b column_family_id kTypeValue kTypeColumnFamilyValue in
    let b := put_parts b key in
    let b := put_parts b value in
    let b := or_flags b HAS_PUT in
    let b := protect_parts b key value kTypeValue column_family_id in
    commit save b.

Definition WBI_Delete_parts (b : WriteBatch) (column_family_id : Z) (key : list bytes)
    : Status * WriteBatch :=
  let save := LocalSavePoint b in
  let b := incr_count b in
  let b := push_tag b column_family_id kTypeDeletion kTypeColumnFamilyDeletion in
  let b := put_parts b key in
  let b := or_flags b HAS_DELETE in
  let b := protect_parts b key [] kTypeDeletion column_family_id in
  commit save b.

Definition WBI_SingleDelete_parts (b : WriteBatch) (column_family_id : Z) (key : list bytes)
    : Status * WriteBatch :=
  let save := LocalSavePoint b in
  let b := incr_count b in
  let b := push_tag b column_family_id kTypeSingleDeletion kTypeColumnFamilySingleDeletion in
  let b := put_parts b key in
  let b := or_flags b HAS_SINGLE_DELETE in
  let b := protect_parts b key [] kTypeSingleDeletion column_family_id in
  commit save b.

Definition WBI_DeleteRange_parts (b : WriteBatch) (column_family_id : Z) (begin_key end_key : list bytes)
    : Status * WriteBatch :=
  let save := LocalSavePoint b in
  let b := incr_count b in
  let b := push_tag b column_family_id kTypeRangeDeletion kTypeColumnFamilyRangeDeletion in
  let b := put_parts b begin_key in
  let b := put_parts b end_key in
  let b := or_flags b HAS_DELETE_RANGE in
  let b := protect_parts b begin_key end_key kTypeRangeDeletion column_family_id in
  commit save b.

Definition WBI_Merge_parts (b : WriteBatch) (column_family_id : Z) (key value : list bytes)
    : Status * WriteBatch :=
  let s := CheckSlicePartsLength key value in
  if negb (ok s) then (s, b)
  else
    let save := LocalSavePoint b in
    let b := incr_count b in
    let b := push_tag b column_family_id kTypeMerge kTypeColumnFamilyMerge in
    let b := put_parts b key in
    let b := put_parts b value in
    let b := or_flags b HAS_MERGE in
    let b := protect_parts b key value kTypeMerge column_family_id in
    commit save b.

(** ** Records that are not counted *)

Definition PutLogData (b : WriteBatch) (blob : bytes) : Status * WriteBatch :=
  let save := LocalSavePoint b in
  let b := upd_rep b (rep_ b ++ [to_byte kTypeLogData]) in
  let b := put_slice b blob in
  commit save b.

Definition InsertNoop (b : WriteBatch) : Status * WriteBatch :=
  (OK, upd_rep b (rep_ b ++ [to_byte kTypeNoop])).

(** [rep_[12]] is overwritten by the begin marker. *)
Definition MarkEndPrepare (b : WriteBatch) (xid : bytes) (write_after_commit unprepared_batch : bool)
    : Status * WriteBatch :=
  let b := upd_save_points b [] in
  let tag := if write_after_commit then kTypeBeginPrepareXID
             else if unprepared_batch then kTypeBeginUnprepareXID else kTypeBeginPersistedPrepareXID in
  let b := upd_rep b (stake 12 (rep_ b) ++ to_byte tag :: sdrop 13 (rep_ b)) in
  let b := upd_rep b (rep_ b ++ [to_byte kTypeEndPrepareXID]) in
  let b := put_slice b xid in
  let b := or_flags b (Z.lor HAS_END_PREPARE HAS_BEGIN_PREPARE) in
  (OK, if unprepared_batch then or_flags b HAS_BEGIN_UNPREPARE else b).

Definition MarkCommit (b : WriteBatch) (xid : bytes) : Status * WriteBatch :=
  let b := upd_rep b (rep_ b ++ [to_byte kTypeCommitXID]) in
  let b := put_slice b xid in
  (OK, or_flags b HAS_COMMIT).

Definition MarkCommitWithTimestamp (b : WriteBatch) (xid commit_ts : bytes) : Status * WriteBatch :=
  let b := upd_rep b (rep_ b ++ [to_byte kTypeCommitXIDAndTimestamp]) in
  let b := put_slice b commit_ts in
  let b := put_slice b xid in
  (OK, or_flags b HAS_COMMIT).

Definition MarkRollback (b : WriteBatch) (xid : bytes) : Status * WriteBatch :=
  let b := upd_rep b (rep_ b ++ [to_byte kTypeRollbackXID]) in
  let b := put_slice b xid in
  (OK, or_flags b HAS_ROLLBACK).

(** ** Save points *)

Definition SetSavePoint (b : WriteBatch) : WriteBatch :=
  upd_save_points b ({| sp_size := GetDataSize b; sp_count := Count b;
                        sp_content_flags := content_flags_ b |} :: save_points_ b).

Definition RollbackToSavePoint (b : WriteBatch) : Status * WriteBatch :=
  match save_points_ b with
  | [] => (NotFound, b)
  | savepoint :: sps =>
      let b := upd_save_points b sps in
      if sp_size savepoint =? slen (rep_ b) then (OK, b)
      else if sp_size savepoint =? 0 then (OK, Clear b)
      else
        let b := upd_rep b (resize (rep_ b) (sp_size savepoint)) in
        let b := upd_prot b (stake (sp_count savepoint) <$> prot_info_ b) in
        let b := SetCount b (sp_count savepoint) in
        (OK, upd_flags b (sp_content_flags savepoint))
  end.

Definition PopSavePoint (b : WriteBatch) : Status * WriteBatch :=
  match save_points_ b with
  | [] => (NotFound, b)
  | _ :: sps => (OK, upd_save_points b sps)
  end.

(** ** WriteBatch: through a column family handle *)

(** [GetColumnFamilyID]. *)
Definition GetColumnFamilyID (column_family : option ColumnFamilyHandle) : Z :=
  match column_family with Some h => cfh_id h | None => 0 end.

Definition GetColumnFamilyIdAndTimestampSize (b : WriteBatch) (column_family : option ColumnFamilyHandle)
    : Status * Z * Z :=
  let cf_id := GetColumnFamilyID column_family in
  match column_family with
  | Some h =>
      match cfh_comparator h with
      | Some ucmp =>
          let ts_sz := timestamp_size ucmp in
          if (0 =? cf_id) && negb (default_cf_ts_sz_ b =? ts_sz)
          then (InvalidArgument "Default cf timestamp size mismatch", cf_id, ts_sz)
          else (OK, cf_id, ts_sz)
      | None => (OK, cf_id, 0)
      end
  | None => (OK, cf_id, if 0 <? default_cf_ts_sz_ b then default_cf_ts_sz_ b else 0)
  end.

(** [None]: the null comparator of a handle is followed. *)
Definition CheckColumnFamilyTimestampSize (column_family : option ColumnFamilyHandle) (ts : bytes) : option Status :=
  match column_family with
  | None => Some (InvalidArgument "column family handle cannot be null")
  | Some h =>
      ucmp ← cfh_comparator h;
      let cf_ts_sz := timestamp_size ucmp in
      Some (if 0 =? cf_ts_sz then InvalidArgument "timestamp disabled"
            else if negb (cf_ts_sz =? slen ts) then InvalidArgument "timestamp size mismatch"
            else OK)
  end.

Definition no_ts_msg : string := "Cannot call this method on column family enabling timestamp".

Definition Put (b : WriteBatch) (cf : option ColumnFamilyHandle) (key value : bytes) : Status * WriteBatch :=
  let '(s, cf_id, ts_sz) := GetColumnFamilyIdAndTimestampSize b cf in
  if negb (ok s) then (s, b)
  else if 0 =? ts_sz then WBI_Put b cf_id key value
  else WBI_Put_parts (upd_ts b true true) cf_id [key; repeat_byte ts_sz Byte.x00] [value].

Definition Put_ts (b : WriteBatch) (cf : option ColumnFamilyHandle) (key ts value : bytes)
    : option (Status * WriteBatch) :=
  s ← CheckColumnFamilyTimestampSize cf ts;
  Some (if negb (ok s) then (s, b)
        else WBI_Put_parts (upd_ts b (needs_in_place_update_ts_ b) true) (GetColumnFamilyID cf) [key; ts] [value]).

Definition Put_parts (b : WriteBatch) (cf : option ColumnFamilyHandle) (key value : list bytes)
    : Status * WriteBatch :=
  let '(s, cf_id, ts_sz) := GetColumnFamilyIdAndTimestampSize b cf in
  if negb (ok s) then (s, b)
  else if ts_sz =? 0 then WBI_Put_parts b cf_id key value
  else (InvalidArgument no_ts_msg, b).

Definition PutEntity (b : WriteBatch) (cf : option ColumnFamilyHandle) (key : bytes) (columns : WideColumns)
    : Status * WriteBatch :=
  match cf with
  | None => (InvalidArgument "Cannot call this method without a column family handle", b)
  | Some _ =>
      let '(s, cf_id, ts_sz) := GetColumnFamilyIdAndTimestampSize b cf in
      if negb (ok s) then (s, b)
      else if negb (ts_sz =? 0) then (InvalidArgument no_ts_msg, b)
      else WBI_PutEntity b cf_id key columns
  end.

(** The loop over attribute groups stops at the first error. *)
Fixpoint PutEntity_groups_loop (b : WriteBatch) (key : bytes)
    (groups : list (option ColumnFamilyHandle * WideColumns)) : Status * WriteBatch :=
  match groups with
  | [] => (OK, b)
  | (cf, columns) :: groups' =>
      let (s, b) := PutEntity b cf key columns in
      if negb (ok s) then (s, b) else PutEntity_groups_loop b key groups'
  end.

Definition PutEntity_groups (b : WriteBatch) (key : bytes)
    (groups : list (option ColumnFamilyHandle * WideColumns)) : Status * WriteBatch :=
  match groups with
  | [] => (InvalidArgument "Cannot call this method with empty attribute groups", b)
  | _ => PutEntity_groups_loop b key groups
  end.

Definition Delete (b : WriteBatch) (cf : option ColumnFamilyHandle) (key : bytes) : Status * WriteBatch :=
  let '(s, cf_id, ts_sz) := GetColumnFamilyIdAndTimestampSize b cf in
  if negb (ok s) then (s, b)
  else if 0 =? ts_sz then WBI_Delete b cf_id key
  else WBI_Delete_parts (upd_ts b true true) cf_id [key; repeat_byte ts_sz Byte.x00].

Definition Delete_ts (b : WriteBatch) (cf : option ColumnFamilyHandle) (key ts : bytes)
    : option (Status * WriteBatch) :=
  s ← CheckColumnFamilyTimestampSize cf ts;
  Some (if negb (ok s) then (s, b)
        else WBI_Delete_parts (upd_ts b (needs_in_place_update_ts_ b) true) (GetColumnFamilyID cf) [key; ts]).

Definition Delete_parts (b : WriteBatch) (cf : option ColumnFamilyHandle) (key : list bytes)
    : Status * WriteBatch :=
  let '(s, cf_id, ts_sz) := GetColumnFamilyIdAndTimestampSize b cf in
  if negb (ok s) then (s, b)
  else if 0 =? ts_sz then WBI_Delete_parts b cf_id key
  else (InvalidArgument no_ts_msg, b).

Definition SingleDelete (b : WriteBatch) (cf : option ColumnFamilyHandle) (key : bytes)
    : Status * WriteBatch :=
  let '(s, cf_id, ts_sz) := GetColumnFamilyIdAndTimestampSize b cf in
  if negb (ok s) then (s, b)
  else if 0 =? ts_sz then WBI_SingleDelete b cf_id key
  else WBI_SingleDelete_parts (upd_ts b true true) cf_id [key; repeat_byte ts_sz Byte.x00].

Definition SingleDelete_ts (b : WriteBatch) (cf : option ColumnFamilyHandle) (key ts : bytes)
    : option (Status * WriteBatch) :=
  s ← CheckColumnFamilyTimestampSize cf ts;
  Some (if negb (ok s) then (s, b)
        else WBI_SingleDelete_parts (upd_ts b (needs_in_place_update_ts_ b) true) (GetColumnFamilyID cf) [key; ts]).

Definition SingleDelete_parts (b : WriteBatch) (cf : option ColumnFamilyHandle) (key : list bytes)
    : Status * WriteBatch :=
  let '(s, cf_id, ts_sz) := GetColumnFamilyIdAndTimestampSize b cf in
  if negb (ok s) then (s, b)
  else if 0 =? ts_sz then WBI_SingleDelete_parts b cf_id key
  else (InvalidArgument no_ts_msg, b).

Definition DeleteRange (b : WriteBatch) (cf : option ColumnFamilyHandle) (begin_key end_key : bytes)
    : Status * WriteBatch :=
  let '(s, cf_id, ts_sz) := GetColumnFamilyIdAndTimestampSize b cf in
  if negb (ok s) then (s, b)
  else if 0 =? ts_sz then WBI_DeleteRange b cf_id begin_key end_key
  else
    let dummy_ts := repeat_byte ts_sz Byte.x00 in
    WBI_DeleteRange_parts (upd_ts b true true) cf_id [begin_key; dummy_ts] [end_key; dummy_ts].

Definition DeleteRange_ts (b : WriteBatch) (cf : option ColumnFamilyHandle) (begin_key end_key ts : bytes)
    : option (Status * WriteBatch) :=
  s ← CheckColumnFamilyTimestampSize cf ts;
  Some (if negb (ok s) then (s, b)
        else WBI_DeleteRange_parts (upd_ts b (needs_in_place_update_ts_ b) true) (GetColumnFamilyID cf)
         [begin_key; ts] [end_key; ts]).

Definition DeleteRange_parts (b : WriteBatch) (cf : option ColumnFamilyHandle)
    (begin_key end_key : list bytes) : Status * WriteBatch :=
  let '(s, cf_id, ts_sz) := GetColumnFamilyIdAndTimestampSize b cf in
  if negb (ok s) then (s, b)
  else if 0 =? ts_sz then WBI_DeleteRange_parts b cf_id begin_key end_key
  else (InvalidArgument no_ts_msg, b).

Definition Merge (b : WriteBatch) (cf : option ColumnFamilyHandle) (key value : bytes)
    : Status * WriteBatch :=
  let '(s, cf_id, ts_sz) := GetColumnFamilyIdAndTimestampSize b cf in
  if negb (ok s) then (s, b)
  else if 0 =? ts_sz then WBI_Merge b cf_id key value
  else WBI_Merge_parts (upd_ts b true true) cf_id [key; repeat_byte ts_sz Byte.x00] [value].

Definition Merge_ts (b : WriteBatch) (cf : option ColumnFamilyHandle) (key ts value : bytes)
    : option (Status * WriteBatch) :=
  s ← CheckColumnFamilyTimestampSize cf ts;
  Some (if negb (ok s) then (s, b)
        else WBI_Merge_parts (upd_ts b (needs_in_place_update_ts_ b) true) (GetColumnFamilyID cf) [key; ts] [value]).

Definition Merge_parts (b : WriteBatch) (cf : option ColumnFamilyHandle) (key value : list bytes)
    : Status * WriteBatch :=
  let '(s, cf_id, ts_sz) := GetColumnFamilyIdAndTimestampSize b cf in
  if negb (ok s) then (s, b)
  else if 0 =? ts_sz then WBI_Merge_parts b cf_id key value
  else (InvalidArgument no_ts_msg, b).

End Batch.

(** ** What a batch means: a list of records *)

Inductive Rec :=
| RPut (cf : Z) (key value : bytes)
| RDelete (cf : Z) (key : bytes)
| RSingleDelete (cf : Z) (key : bytes)
| RDeleteRange (cf : Z) (begin_key end_key : bytes)
| RMerge (cf : Z) (key value : bytes)
| RBlobIndex (cf : Z) (key value : bytes)
| RPutEntity (cf : Z) (key entity : bytes)
| RLogData (blob : bytes)
| RNoop
| RBeginPrepare
| RBeginPersistedPrepare
| RBeginUnprepare
| REndPrepare (xid : bytes)
| RCommit (xid : bytes)
| RCommitWithTimestamp (ts xid : bytes)
| RRollback (xid : bytes).

Definition lps (s : bytes) : bytes := PutLengthPrefixedSlice [] s.

Definition tag_bytes (cf tag cf_tag : Z) : bytes :=
  if cf =? 0 then [to_byte tag] else to_byte cf_tag :: EncodeVarint32 cf.

Definition encode_rec (r : Rec) : bytes :=
  match r with
  | RPut cf k v => tag_bytes cf kTypeValue kTypeColumnFamilyValue ++ lps k ++ lps v
  | RDelete cf k => tag_bytes cf kTypeDeletion kTypeColumnFamilyDeletion ++ lps k
  | RSingleDelete cf k => tag_bytes cf kTypeSingleDeletion kTypeColumnFamilySingleDeletion ++ lps k
  | RDeleteRange cf b e => tag_bytes cf kTypeRangeDeletion kTypeColumnFamilyRangeDeletion ++ lps b ++ lps e
  | RMerge cf k v => tag_bytes cf kTypeMerge kTypeColumnFamilyMerge ++ lps k ++ lps v
  | RBlobIndex cf k v => tag_bytes cf kTypeBlobIndex kTypeColumnFamilyBlobIndex ++ lps k ++ lps v
  | RPutEntity cf k e => tag_bytes cf kTypeWideColumnEntity kTypeColumnFamilyWideColumnEntity ++ lps k ++ lps e
  | RLogData blob => to_byte kTypeLogData :: lps blob
  | RNoop => [to_byte kTypeNoop]
  | RBeginPrepare => [to_byte kTypeBeginPrepareXID]
  | RBeginPersistedPrepare => [to_byte kTypeBeginPersistedPrepareXID]
  | RBeginUnprepare => [to_byte kTypeBeginUnprepareXID]
  | REndPrepare xid => to_byte kTypeEndPrepareXID :: lps xid
  | RCommit xid => to_byte kTypeCommitXID :: lps xid
  | RCommitWithTimestamp ts xid => to_byte kTypeCommitXIDAndTimestamp :: lps ts ++ lps xid
  | RRollback xid => to_byte kTypeRollbackXID :: lps xid
  end.

(** A counted record, as its key, value, operation type and column family. *)
Definition entry_of (r : Rec) : option (bytes * bytes * Z * Z) :=
  match r with
  | RPut cf k v => Some (k, v, kTypeValue, cf)
  | RDelete cf k => Some (k, [], kTypeDeletion, cf)
  | RSingleDelete cf k => Some (k, [], kTypeSingleDeletion, cf)
  | RDeleteRange cf b e => Some (b, e, kTypeRangeDeletion, cf)
  | RMerge cf k v => Some (k, v, kTypeMerge, cf)
  | RBlobIndex cf k v => Some (k, v, kTypeBlobIndex, cf)
  | RPutEntity cf k e => Some (k, e, kTypeWideColumnEntity, cf)
  | _ => None
  end.

Definition rec_flags (r : Rec) : Z :=
  match r with
  | RPut _ _ _ => HAS_PUT
  | RDelete _ _ => HAS_DELETE
  | RSingleDelete _ _ => HAS_SINGLE_DELETE
  | RDeleteRange _ _ _ => HAS_DELETE_RANGE
  | RMerge _ _ _ => HAS_MERGE
  | RBlobIndex _ _ _ => HAS_BLOB_INDEX
  | RPutEntity _ _ _ => HAS_PUT_ENTITY
  | RLogData _ | RNoop => 0
  | RBeginPrepare | RBeginPersistedPrepare => HAS_BEGIN_PREPARE
  | RBeginUnprepare => Z.lor HAS_BEGIN_PREPARE HAS_BEGIN_UNPREPARE
  | REndPrepare _ => HAS_END_PREPARE
  | RCommit _ | RCommitWithTimestamp _ _ => HAS_COMMIT
  | RRollback _ => HAS_ROLLBACK
  end.

(** Sizes and column families the 32-bit encodings can carry. *)
Definition fits32 (s : bytes) : Prop := is_u32 (slen s).

Definition rec_fits (r : Rec) : Prop :=
  match r with
  | RPut cf k v | RDeleteRange cf k v | RMerge cf k v | RBlobIndex cf k v | RPutEntity cf k v =>
      is_u32 cf /\ fits32 k /\ fits32 v
  | RDelete cf k | RSingleDelete cf k => is_u32 cf /\ fits32 k
  | RLogData s | REndPrepare s | RCommit s | RRollback s => fits32 s
  | RCommitWithTimestamp ts xid => fits32 ts /\ fits32 xid
  | RNoop | RBeginPrepare | RBeginPersistedPrepare | RBeginUnprepare => True
  end.

Definition encode_recs (rs : list Rec) : bytes := concat (map encode_rec rs).
Definition num_entries (rs : list Rec) : Z := slen (omap entry_of rs).
Definition flags_of (rs : list Rec) : Z := foldl (fun f r => Z.lor f (rec_flags r)) 0 rs.

Section Meaning.

Context (Hash64 : bytes -> Z -> Z).

Definition code_of (e : bytes * bytes * Z * Z) : ProtectionInfoKVOC :=
  let '(k, v, o, c) := e in entry_code 64 Hash64 k v o c.
Definition codes (rs : list Rec) : list ProtectionInfoKVOC := map code_of (omap entry_of rs).

(** A batch stands for the records [rs]: the eight bytes [hdr] of the sequence
    number, the number of entries, the encodings of the records; one
    protection code per entry when the batch has them; the content flags. *)
Definition represents (hdr : bytes) (b : WriteBatch) (rs : list Rec) : Prop :=
  (slen hdr = 8 /\ rep_ b = hdr ++ EncodeFixed32 (num_entries rs) ++ encode_recs rs) /\
  Forall rec_fits rs /\ num_entries rs < 2 ^ 32 /\
  match prot_info_ b with Some es => es = codes rs | None => True end /\
  content_flags_ b = flags_of rs.

(** The state after a record was appended, before the size check. *)
Definition add_rec (b : WriteBatch) (r : Rec) : WriteBatch :=
  let b := match entry_of r with Some _ => incr_count b | None => b end in
  let b := upd_rep b (rep_ b ++ encode_rec r) in
  let b := upd_flags b (Z.lor (content_flags_ b) (rec_flags r)) in
  match entry_of r with
  | Some e => upd_prot b (match prot_info_ b with Some es => Some (es ++ [code_of e]) | None => None end)
  | None => b
  end.

Lemma push_put b cf t ct k v :
  PutLengthPrefixedSlice (PutLengthPrefixedSlice
    (if cf =? 0 then rep_ b ++ [to_byte t] else PutVarint32 (rep_ b ++ [to_byte ct]) cf) k) v =
  rep_ b ++ tag_bytes cf t ct ++ lps k ++ lps v.
Proof.
  rewrite PutLengthPrefixedSlice_app, (PutLengthPrefixedSlice_app _ k). unfold tag_bytes, PutVarint32, lps.
  destruct (cf =? 0); by rewrite <- !app_assoc.
Qed.

Lemma push_put1 b cf t ct k :
  PutLengthPrefixedSlice
    (if cf =? 0 then rep_ b ++ [to_byte t] else PutVarint32 (rep_ b ++ [to_byte ct]) cf) k =
  rep_ b ++ tag_bytes cf t ct ++ lps k.
Proof.
  rewrite PutLengthPrefixedSlice_app. unfold tag_bytes, PutVarint32, lps.
  destruct (cf =? 0); by rewrite <- !app_assoc.
Qed.

(** Every appending operation is [add_rec] followed by the size check. *)
Ltac op_add_rec :=
  unfold commit, protect, protect_parts, or_flags, put_slice, put_parts, push_tag;
  rewrite ?PutLengthPrefixedSliceParts_concat, ?parts_forms;
  cbn [rep_ upd_rep upd_flags upd_prot content_flags_ prot_info_ concat];
  rewrite ?PutLengthPrefixedSliceParts_concat, ?push_put, ?push_put1;
  reflexivity.

Lemma put_after (a c : bytes) s t :
  PutLengthPrefixedSlice (a ++ c) s = a ++ c ++ lps s /\
  PutLengthPrefixedSlice (PutLengthPrefixedSlice (a ++ c) s) t = a ++ c ++ lps s ++ lps t.
Proof.
  unfold lps. rewrite (PutLengthPrefixedSlice_app _ t), (PutLengthPrefixedSlice_app (a ++ c) s).
  by rewrite <- !app_assoc.
Qed.

(** The same for the records without column family. *)
Ltac op_mark :=
  unfold add_rec, or_flags, put_slice; cbn [entry_of]; unfold upd_rep, upd_flags, upd_prot;
  cbn [rep_ content_flags_ save_points_ wal_term_point_ is_latest_persistent_state_
       needs_in_place_update_ts_ has_key_with_ts_ max_bytes_ prot_info_ default_cf_ts_sz_ rec_flags];
  first [ rewrite (proj2 (put_after _ _ _ _)) | rewrite (proj1 (put_after _ _ _ [])) | idtac ];
  rewrite ?Z.lor_0_r; reflexivity.

Lemma Put_add b cf k v : fits32 k -> fits32 v ->
  WBI_Put Hash64 b cf k v = commit (LocalSavePoint b) (add_rec b (RPut cf k v)).
Proof.
  intros Hk Hv. unfold fits32, is_u32 in *. unfold WBI_Put, max_u32. repeat zcase. op_add_rec.
Qed.

Lemma Delete_add b cf k :
  WBI_Delete Hash64 b cf k = commit (LocalSavePoint b) (add_rec b (RDelete cf k)).
Proof. unfold WBI_Delete. op_add_rec. Qed.

Lemma SingleDelete_add b cf k :
  WBI_SingleDelete Hash64 b cf k = commit (LocalSavePoint b) (add_rec b (RSingleDelete cf k)).
Proof. unfold WBI_SingleDelete. op_add_rec. Qed.

Lemma DeleteRange_add b cf k e :
  WBI_DeleteRange Hash64 b cf k e = commit (LocalSavePoint b) (add_rec b (RDeleteRange cf k e)).
Proof. unfold WBI_DeleteRange. op_add_rec. Qed.

Lemma Merge_add b cf k v : fits32 k -> fits32 v ->
  WBI_Merge Hash64 b cf k v = commit (LocalSavePoint b) (add_rec b (RMerge cf k v)).
Proof.
  intros Hk Hv. unfold fits32, is_u32 in *. unfold WBI_Merge, max_u32. repeat zcase. op_add_rec.
Qed.

Lemma PutBlobIndex_add b cf k v :
  WBI_PutBlobIndex Hash64 b cf k v = commit (LocalSavePoint b) (add_rec b (RBlobIndex cf k v)).
Proof. unfold WBI_PutBlobIndex. op_add_rec. Qed.

Lemma Put_parts_add b cf k v : CheckSlicePartsLength k v = OK ->
  WBI_Put_parts Hash64 b cf k v = commit (LocalSavePoint b) (add_rec b (RPut cf (concat k) (concat v))).
Proof. intros H. unfold WBI_Put_parts. rewrite H. cbn [ok negb]. op_add_rec. Qed.

Lemma Delete_parts_add b cf k :
  WBI_Delete_parts Hash64 b cf k = commit (LocalSavePoint b) (add_rec b (RDelete cf (concat k))).
Proof. unfold WBI_Delete_parts. op_add_rec. Qed.

Lemma SingleDelete_parts_add b cf k :
  WBI_SingleDelete_parts Hash64 b cf k = commit (LocalSavePoint b) (add_rec b (RSingleDelete cf (concat k))).
Proof. unfold WBI_SingleDelete_parts. op_add_rec. Qed.

Lemma DeleteRange_parts_add b cf k e :
  WBI_DeleteRange_parts Hash64 b cf k e =
  commit (LocalSavePoint b) (add_rec b (RDeleteRange cf (concat k) (concat e))).
Proof. unfold WBI_DeleteRange_parts. op_add_rec. Qed.

Lemma Merge_parts_add b cf k v : CheckSlicePartsLength k v = OK ->
  WBI_Merge_parts Hash64 b cf k v = commit (LocalSavePoint b) (add_rec b (RMerge cf (concat k) (concat v))).
Proof. intros H. unfold WBI_Merge_parts. rewrite H. cbn [ok negb]. op_add_rec. Qed.

(** *** The header *)

Lemma Count_at b hdr n body : slen hdr = 8 -> is_u32 n ->
  rep_ b = hdr ++ EncodeFixed32 n ++ body -> Count b = n.
Proof.
  intros Hh Hn H. unfold Count. rewrite H, sdrop_app by done. by apply DecodeFixed32_Encode.
Qed.

Lemma SetCount_at b hdr n n' body : slen hdr = 8 ->
  rep_ b = hdr ++ EncodeFixed32 n ++ body -> rep_ (SetCount b n') = hdr ++ EncodeFixed32 n' ++ body.
Proof.
  intros Hh H. unfold SetCount. cbn [rep_ upd_rep]. rewrite H, stake_app by done.
  by rewrite (app_assoc hdr (EncodeFixed32 n)), (sdrop_app 12) by (rewrite slen_app, slen_EncodeFixed32; lia).
Qed.

Lemma num_entries_nonneg rs : 0 <= num_entries rs.
Proof. apply slen_nonneg. Qed.

Lemma num_entries_app rs rs' : num_entries (rs ++ rs') = num_entries rs + num_entries rs'.
Proof. unfold num_entries. by rewrite omap_app, slen_app. Qed.

Lemma num_entries_1 r : num_entries [r] = match entry_of r with Some _ => 1 | None => 0 end.
Proof. unfold num_entries. cbn. by destruct (entry_of r). Qed.

Lemma encode_recs_app rs rs' : encode_recs (rs ++ rs') = encode_recs rs ++ encode_recs rs'.
Proof. unfold encode_recs. by rewrite map_app, concat_app. Qed.

Lemma encode_recs_1 r : encode_recs [r] = encode_rec r.
Proof. apply app_nil_r. Qed.

Lemma codes_app rs rs' : codes (rs ++ rs') = codes rs ++ codes rs'.
Proof. unfold codes. by rewrite omap_app, map_app. Qed.

Lemma flags_of_app rs rs' : flags_of (rs ++ rs') = Z.lor (flags_of rs) (flags_of rs').
Proof.
  unfold flags_of. rewrite foldl_app. generalize (foldl (fun f r => Z.lor f (rec_flags r)) 0 rs). intros z.
  induction rs' as [|r rs' IH] using rev_ind; [cbn; by rewrite Z.lor_0_r|].
  rewrite !foldl_app. cbn. by rewrite IH, Z.lor_assoc.
Qed.

Lemma flags_of_1 r : flags_of [r] = rec_flags r.
Proof. apply Z.lor_0_l. Qed.

Lemma slen_codes rs : slen (codes rs) = num_entries rs.
Proof. unfold codes, num_entries, slen. by rewrite length_map. Qed.

(** The bytes of the batch after a record was added. *)
Lemma add_rec_rep hdr b rs r : represents hdr b rs -> num_entries (rs ++ [r]) < 2 ^ 32 ->
  slen hdr = 8 /\ rep_ b = hdr ++ EncodeFixed32 (num_entries rs) ++ encode_recs rs /\
  rep_ (add_rec b r) = hdr ++ EncodeFixed32 (num_entries (rs ++ [r])) ++ encode_recs rs ++ encode_rec r.
Proof.
  intros ((Hh & Hrep) & _ & Hn & _) Hn'. split; [done|]. split; [done|].
  rewrite num_entries_app, num_entries_1 in *. unfold add_rec. pose proof (num_entries_nonneg rs).
  destruct (entry_of r) as [e|]; cbn [rep_ upd_rep upd_flags upd_prot].
  - unfold incr_count. rewrite (Count_at b hdr _ _ Hh) with (2 := Hrep) by (unfold is_u32; lia).
    rewrite (SetCount_at b hdr _ _ _ Hh Hrep), u32_id by (unfold is_u32; lia). by rewrite <- !app_assoc.
  - rewrite Hrep, Z.add_0_r. by rewrite <- !app_assoc.
Qed.

Lemma add_rec_represents hdr b rs r : represents hdr b rs -> rec_fits r -> num_entries (rs ++ [r]) < 2 ^ 32 ->
  represents hdr (add_rec b r) (rs ++ [r]).
Proof.
  intros Hr Hf Hn. destruct (add_rec_rep hdr b rs r Hr Hn) as (Hh & _ & Hrep).
  destruct Hr as (_ & Hfs & _ & Hp & Hfl). split; [split; [done|]|split_and!].
  - by rewrite encode_recs_app, encode_recs_1.
  - by apply Forall_app; repeat constructor.
  - done.
  - assert (Hc : codes (rs ++ [r]) = codes rs ++ match entry_of r with Some e => [code_of e] | None => [] end)
      by (rewrite codes_app; unfold codes; cbn; by destruct (entry_of r)).
    rewrite Hc. unfold add_rec. destruct (entry_of r) as [e|]; cbn;
      destruct (prot_info_ b) as [es|]; rewrite ?app_nil_r; by subst.
  - rewrite flags_of_app, flags_of_1, <- Hfl. unfold add_rec. by destruct (entry_of r).
Qed.

Definition over_limit (b : WriteBatch) : bool :=
  negb (max_bytes_ b =? 0) && (max_bytes_ b <? slen (rep_ b)).

(** The size check undoes the whole append. *)
Lemma commit_add hdr b rs r : represents hdr b rs -> num_entries (rs ++ [r]) < 2 ^ 32 ->
  commit (LocalSavePoint b) (add_rec b r) =
  if over_limit (add_rec b r) then (MemoryLimit "", b) else (OK, add_rec b r).
Proof.
  intros Hr Hn. destruct (add_rec_rep hdr b rs r Hr Hn) as (Hh & Hrep & Hrep').
  unfold commit. fold (over_limit (add_rec b r)). destruct (over_limit _); [|done]. f_equal.
  destruct Hr as (_ & _ & Hn0 & Hp & _). pose proof (num_entries_nonneg rs).
  pose proof (Count_at b hdr (num_entries rs) _ Hh ltac:(unfold is_u32; lia) Hrep) as Hc.
  cbn [sp_size sp_count sp_content_flags LocalSavePoint]. rewrite Hc.
  assert (Hres : resize (rep_ (add_rec b r)) (GetDataSize b) =
                 hdr ++ EncodeFixed32 (num_entries (rs ++ [r])) ++ encode_recs rs).
  { unfold resize, GetDataSize. rewrite Hrep, Hrep'.
    rewrite (app_assoc _ (encode_recs rs)), (app_assoc hdr _ (encode_rec r)). apply stake_app.
    by rewrite !slen_app, !slen_EncodeFixed32. }
  assert (Hrb : rep_ (SetCount (upd_rep (add_rec b r) (resize (rep_ (add_rec b r)) (GetDataSize b)))
                        (num_entries rs)) = rep_ b).
  { rewrite Hrep. by apply (SetCount_at (upd_rep (add_rec b r) _) hdr (num_entries (rs ++ [r]))). }
  assert (Hpb : stake (num_entries rs) <$> prot_info_ (add_rec b r) = prot_info_ b).
  { unfold add_rec. destruct (entry_of r) as [e|]; cbn; destruct (prot_info_ b) as [es|]; try done;
    cbn; f_equal; subst es; (rewrite stake_app || rewrite stake_all); rewrite ?slen_codes; done || lia. }
  destruct b. cbn in *. unfold upd_flags, upd_prot, upd_rep. cbn in *. rewrite Hrb, Hpb.
  unfold add_rec. by destruct (entry_of r).
Qed.

(** ** Operations as data *)

Inductive BOp :=
| OPut (cf : Z) (key value : bytes)
| ODelete (cf : Z) (key : bytes)
| OSingleDelete (cf : Z) (key : bytes)
| ODeleteRange (cf : Z) (begin_key end_key : bytes)
| OMerge (cf : Z) (key value : bytes)
| OPutBlobIndex (cf : Z) (key value : bytes)
| OPutEntity (cf : Z) (key : bytes) (columns : WideColumns)
| OPut_parts (cf : Z) (key value : list bytes)
| ODelete_parts (cf : Z) (key : list bytes)
| OSingleDelete_parts (cf : Z) (key : list bytes)
| ODeleteRange_parts (cf : Z) (begin_key end_key : list bytes)
| OMerge_parts (cf : Z) (key value : list bytes)
| OPutLogData (blob : bytes)
| OInsertNoop
| OMarkCommit (xid : bytes)
| OMarkCommitWithTimestamp (xid ts : bytes)
| OMarkRollback (xid : bytes).

Definition apply_op (b : WriteBatch) (o : BOp) : Status * WriteBatch :=
  match o with
  | OPut cf k v => WBI_Put Hash64 b cf k v
  | ODelete cf k => WBI_Delete Hash64 b cf k
  | OSingleDelete cf k => WBI_SingleDelete Hash64 b cf k
  | ODeleteRange cf k e => WBI_DeleteRange Hash64 b cf k e
  | OMerge cf k v => WBI_Merge Hash64 b cf k v
  | OPutBlobIndex cf k v => WBI_PutBlobIndex Hash64 b cf k v
  | OPutEntity cf k cs => WBI_PutEntity Hash64 b cf k cs
  | OPut_parts cf k v => WBI_Put_parts Hash64 b cf k v
  | ODelete_parts cf k => WBI_Delete_parts Hash64 b cf k
  | OSingleDelete_parts cf k => WBI_SingleDelete_parts Hash64 b cf k
  | ODeleteRange_parts cf k e => WBI_DeleteRange_parts Hash64 b cf k e
  | OMerge_parts cf k v => WBI_Merge_parts Hash64 b cf k v
  | OPutLogData blob => PutLogData b blob
  | OInsertNoop => InsertNoop b
  | OMarkCommit xid => MarkCommit b xid
  | OMarkCommitWithTimestamp xid ts => MarkCommitWithTimestamp b xid ts
  | OMarkRollback xid => MarkRollback b xid
  end.

(** The record an operation stands for. *)
Definition op_rec (o : BOp) : Rec :=
  match o with
  | OPut cf k v => RPut cf k v
  | ODelete cf k => RDelete cf k
  | OSingleDelete cf k => RSingleDelete cf k
  | ODeleteRange cf k e => RDeleteRange cf k e
  | OMerge cf k v => RMerge cf k v
  | OPutBlobIndex cf k v => RBlobIndex cf k v
  | OPutEntity cf k cs => RPutEntity cf k (snd (Serialize (SortColumns cs) []))
  | OPut_parts cf k v => RPut cf (concat k) (concat v)
  | ODelete_parts cf k => RDelete cf (concat k)
  | OSingleDelete_parts cf k => RSingleDelete cf (concat k)
  | ODeleteRange_parts cf k e => RDeleteRange cf (concat k) (concat e)
  | OMerge_parts cf k v => RMerge cf (concat k) (concat v)
  | OPutLogData blob => RLogData blob
  | OInsertNoop => RNoop
  | OMarkCommit xid => RCommit xid
  | OMarkCommitWithTimestamp xid ts => RCommitWithTimestamp ts xid
  | OMarkRollback xid => RRollback xid
  end.

(** What the code does not check itself: 32-bit column families, and 32-bit
    sizes where the operation has no test. *)
Definition op_pre (o : BOp) : Prop :=
  match o with
  | OPut cf _ _ | OMerge cf _ _ | OPutEntity cf _ _ | OPut_parts cf _ _ | OMerge_parts cf _ _ => is_u32 cf
  | _ => rec_fits (op_rec o)
  end.

Fixpoint run_ops (b : WriteBatch) (os : list BOp) : list Status * WriteBatch :=
  match os with
  | [] => ([], b)
  | o :: os' =>
      let (s, b') := apply_op b o in
      let (ss, b'') := run_ops b' os' in (s :: ss, b'')
  end.

(** The records of the operations that returned OK. *)
Fixpoint accepted (os : list BOp) (ss : list Status) : list Rec :=
  match os, ss with
  | o :: os', s :: ss' => (if ok s then [op_rec o] else []) ++ accepted os' ss'
  | _, _ => []
  end.

Lemma CheckSlicePartsLength_fits k v :
  CheckSlicePartsLength k v = OK -> fits32 (concat k) /\ fits32 (concat v).
Proof.
  unfold CheckSlicePartsLength.
  change (fold_left (fun t p => t + slen p) k 0) with (parts_size 0 k).
  change (fold_left (fun t p => t + slen p) v 0) with (parts_size 0 v).
  rewrite !parts_size_spec, !Z.add_0_l. unfold fits32, is_u32, max_u32. slen_facts.
  repeat zcase; done.
Qed.

(** The errors of the operations that test the sizes of their arguments. *)
Definition refusal (o : BOp) (s : Status) : Prop :=
  match o with
  | OPut _ k v | OMerge _ k v =>
      (max_u32 < slen k /\ s = InvalidArgument "key is too large") \/
      (slen k <= max_u32 < slen v /\ s = InvalidArgument "value is too large")
  | OPut_parts _ k v | OMerge_parts _ k v =>
      (max_u32 <= slen (concat k) /\ s = InvalidArgument "key is too large") \/
      (slen (concat k) < max_u32 <= slen (concat v) /\ s = InvalidArgument "value is too large")
  | OPutEntity _ k cs =>
      (max_u32 < slen k /\ s = InvalidArgument "key is too large") \/
      (slen k <= max_u32 /\ s = fst (Serialize (SortColumns cs) [])) \/
      (slen k <= max_u32 < slen (snd (Serialize (SortColumns cs) [])) /\
       s = InvalidArgument "wide column entity is too large")
  | _ => False
  end.

(** The outcome of one operation: the record is appended, or an error is
    returned and nothing changes, because the batch would be over its limit or
    the operation refuses its arguments. *)
Definition outcome (hdr : bytes) (b : WriteBatch) (rs : list Rec) (r : Rec) (refused : Status -> Prop)
    (res : Status * WriteBatch) : Prop :=
  (res = (OK, add_rec b r) /\ represents hdr (add_rec b r) (rs ++ [r])) \/
  (exists s, ok s = false /\ res = (s, b) /\ (s = MemoryLimit "" /\ over_limit (add_rec b r) = true \/ refused s)).

Lemma outcome_commit hdr b b' rs r refused : represents hdr b rs -> num_entries (rs ++ [r]) < 2 ^ 32 -> rec_fits r ->
  b' = add_rec b r -> outcome hdr b rs r refused (commit (LocalSavePoint b) b').
Proof.
  intros Hr Hn Hf ->. rewrite (commit_add hdr b rs) by done. destruct (over_limit _) eqn:E.
  - right. exists (MemoryLimit ""). eauto.
  - left. split; [done|]. by apply add_rec_represents.
Qed.

Lemma outcome_ok hdr b b' rs r refused : represents hdr b rs -> num_entries (rs ++ [r]) < 2 ^ 32 -> rec_fits r ->
  b' = add_rec b r -> outcome hdr b rs r refused (OK, b').
Proof. intros ? ? ? ->. left. split; [done|]. by apply add_rec_represents. Qed.

Lemma outcome_refused hdr b rs r (refused : Status -> Prop) s : ok s = false -> refused s ->
  outcome hdr b rs r refused (s, b).
Proof. intros. right. exists s. eauto. Qed.

Lemma PutEntity_outcome hdr b rs cf k cs : represents hdr b rs ->
  let r := op_rec (OPutEntity cf k cs) in
  num_entries (rs ++ [r]) < 2 ^ 32 -> is_u32 cf ->
  outcome hdr b rs r (refusal (OPutEntity cf k cs)) (WBI_PutEntity Hash64 b cf k cs).
Proof.
  intros Hr r Hn Hcf. unfold WBI_PutEntity, refusal. unfold op_rec in r.
  destruct (Serialize (SortColumns cs) []) as [s e]. cbn [fst snd] in *. slen_facts.
  unfold max_u32. destruct (Z.ltb_spec (2 ^ 32 - 1) (slen k)); [apply outcome_refused; [done|by left]|].
  destruct (ok s) eqn:Es; cbn [negb]; [|apply outcome_refused; [done|by right; left]].
  pose proof (slen_nonneg e).
  destruct (Z.ltb_spec (2 ^ 32 - 1) (slen e)); [apply outcome_refused; [done|by right; right]|].
  assert (Hf : rec_fits r) by (cbn; unfold fits32, is_u32 in *; lia).
  apply outcome_commit; [done..|]. unfold r. op_add_rec.
Qed.

(** The size tests of an operation on a key and a value. *)
Lemma sized_outcome hdr b rs r cf k v res :
  (fits32 k -> fits32 v -> outcome hdr b rs r (refusal (OPut cf k v)) res) ->
  outcome hdr b rs r (refusal (OPut cf k v))
    (if max_u32 <? slen k then (InvalidArgument "key is too large", b)
     else if max_u32 <? slen v then (InvalidArgument "value is too large", b) else res).
Proof.
  intros H. unfold fits32, is_u32, max_u32 in *. slen_facts.
  repeat zcase; try (apply outcome_refused; [done|cbn; unfold max_u32; auto]). apply H; lia.
Qed.

Lemma CheckSlicePartsLength_refuses cf k v s : CheckSlicePartsLength k v = s -> ok s = false ->
  refusal (OPut_parts cf k v) s.
Proof.
  intros <-. unfold CheckSlicePartsLength, refusal.
  change (fold_left (fun t p => t + slen p) k 0) with (parts_size 0 k).
  change (fold_left (fun t p => t + slen p) v 0) with (parts_size 0 v).
  rewrite !parts_size_spec, !Z.add_0_l.
  repeat zcase; intros Hs; [by left|right; split; [lia|done]|done].
Qed.

Lemma parts_outcome hdr b rs r cf k v res :
  (fits32 (concat k) -> fits32 (concat v) -> outcome hdr b rs r (refusal (OPut_parts cf k v)) res) ->
  outcome hdr b rs r (refusal (OPut_parts cf k v))
    (if negb (ok (CheckSlicePartsLength k v)) then (CheckSlicePartsLength k v, b) else res).
Proof.
  intros H. destruct (CheckSlicePartsLength k v) eqn:E; cbn [ok negb];
    try (apply outcome_refused; [done|by apply CheckSlicePartsLength_refuses]).
  apply CheckSlicePartsLength_fits in E as [Hk Hv]. by apply H.
Qed.

Lemma apply_op_outcome hdr b rs o :
  represents hdr b rs -> op_pre o -> num_entries (rs ++ [op_rec o]) < 2 ^ 32 ->
  outcome hdr b rs (op_rec o) (refusal o) (apply_op b o).
Proof.
  intros Hr Hpre Hn. destruct o; cbn [apply_op op_rec op_pre] in *.
  - unfold WBI_Put. apply sized_outcome. intros Hk Hv.
    apply outcome_commit; [done..|by split_and!|]. op_add_rec.
  - rewrite Delete_add. by apply outcome_commit.
  - rewrite SingleDelete_add. by apply outcome_commit.
  - rewrite DeleteRange_add. by apply outcome_commit.
  - unfold WBI_Merge. apply (sized_outcome hdr b rs _ cf). intros Hk Hv.
    apply outcome_commit; [done..|by split_and!|]. op_add_rec.
  - rewrite PutBlobIndex_add. by apply outcome_commit.
  - by apply PutEntity_outcome.
  - unfold WBI_Put_parts. apply parts_outcome. intros Hk Hv.
    apply outcome_commit; [done..|by split_and!|]. op_add_rec.
  - rewrite Delete_parts_add. by apply outcome_commit.
  - rewrite SingleDelete_parts_add. by apply outcome_commit.
  - rewrite DeleteRange_parts_add. by apply outcome_commit.
  - unfold WBI_Merge_parts. apply (parts_outcome hdr b rs _ cf). intros Hk Hv.
    apply outcome_commit; [done..|by split_and!|]. op_add_rec.
  - unfold PutLogData. apply outcome_commit; [done..|]. op_mark.
  - apply outcome_ok; [done..|]. op_mark.
  - apply outcome_ok; [done..|]. op_mark.
  - apply outcome_ok; [done..|]. op_mark.
  - apply outcome_ok; [done..|]. op_mark.
Qed.

Lemma add_rec_fields b r :
  save_points_ (add_rec b r) = save_points_ b /\ max_bytes_ (add_rec b r) = max_bytes_ b /\
  wal_term_point_ (add_rec b r) = wal_term_point_ b.
Proof. unfold add_rec. by destruct (entry_of r). Qed.

Lemma num_entries_le rs : num_entries rs <= slen rs.
Proof.
  induction rs as [|r rs IH]; [done|]. change (r :: rs) with ([r] ++ rs).
  rewrite num_entries_app, num_entries_1, slen_app. unfold slen at 1. cbn. destruct (entry_of r); lia.
Qed.

Lemma run_ops_ok os : forall hdr b rs, represents hdr b rs -> Forall op_pre os ->
  num_entries rs + slen os < 2 ^ 32 ->
  let (ss, b') := run_ops b os in
  represents hdr b' (rs ++ accepted os ss) /\ save_points_ b' = save_points_ b /\
  slen (accepted os ss) <= slen os.
Proof.
  induction os as [|o os IH]; intros hdr b rs Hr Hpre Hn; cbn [run_ops accepted].
  { by rewrite app_nil_r. }
  inversion_clear Hpre as [|? ? Ho Hos]. rewrite slen_cons in *.
  pose proof (num_entries_le [op_rec o]) as H1. change (slen [op_rec o]) with 1 in H1.
  pose proof (slen_nonneg os). pose proof (num_entries_app rs [op_rec o]).
  destruct (apply_op_outcome hdr b rs o Hr Ho) as [[-> Hr']|(s & Hs & -> & _)]; [lia|..].
  - specialize (IH hdr _ _ Hr' Hos ltac:(lia)).
    destruct (run_ops (add_rec b (op_rec o)) os) as [ss b']. cbn [accepted ok].
    rewrite app_assoc, slen_app. destruct IH as (? & -> & ?).
    split_and!; [done|apply add_rec_fields|]. unfold slen at 1. cbn. lia.
  - specialize (IH hdr _ _ Hr Hos ltac:(lia)).
    destruct (run_ops b os) as [ss b']. cbn [accepted]. rewrite Hs. cbn [app].
    destruct IH as (? & ? & ?). split_and!; [done..|lia].
Qed.

Lemma encode_rec_nonempty r : 1 <= slen (encode_rec r).
Proof.
  assert (Ht : forall cf t ct, 1 <= slen (tag_bytes cf t ct)).
  { intros. unfold tag_bytes. destruct (_ =? _); [done|]. rewrite slen_cons. slia. }
  destruct r; cbn [encode_rec]; rewrite ?slen_app, ?slen_cons; try slia;
  match goal with |- context [tag_bytes ?a ?b ?c] => specialize (Ht a b c); slia end.
Qed.

Lemma encode_recs_nil rs : slen (encode_recs rs) = 0 -> rs = [].
Proof.
  destruct rs as [|r rs]; [done|]. change (encode_recs (r :: rs)) with (encode_rec r ++ encode_recs rs).
  rewrite slen_app. pose proof (encode_rec_nonempty r). slia.
Qed.

(** The state in which a batch represents given records is determined but for
    the fields that do not hold records. *)
Lemma represents_fields hdr b rs b' rs' : represents hdr b rs -> represents hdr b' rs' -> rs = rs' ->
  rep_ b' = rep_ b /\ content_flags_ b' = content_flags_ b.
Proof. intros ((_ & H1) & _ & _ & _ & F1) ((_ & H2) & _ & _ & _ & F2) <-. split; congruence. Qed.

(** Rolling back from records [rs ++ rs'] to a save point taken at [rs]. *)
Lemma rollback_ok hdr b rs rs' sps : represents hdr b (rs ++ rs') ->
  save_points_ b = {| sp_size := 12 + slen (encode_recs rs); sp_count := num_entries rs;
                      sp_content_flags := flags_of rs |} :: sps ->
  exists b', RollbackToSavePoint b = (OK, b') /\ represents hdr b' rs /\ save_points_ b' = sps.
Proof.
  intros Hr Hsp. unfold RollbackToSavePoint. rewrite Hsp. cbv zeta. cbn [sp_size sp_count sp_content_flags].
  pose proof Hr as Hr0. destruct Hr as ((Hh & Hrep) & Hf & Hn & Hp & Hfl).
  apply Forall_app in Hf as [Hf Hf']. rewrite num_entries_app, flags_of_app, codes_app in *.
  pose proof (num_entries_nonneg rs). pose proof (num_entries_nonneg rs').
  assert (Hlen : slen (rep_ b) = 12 + slen (encode_recs rs) + slen (encode_recs rs')).
  { rewrite Hrep, encode_recs_app, !slen_app, slen_EncodeFixed32. lia. }
  cbn [rep_ upd_save_points]. rewrite Hlen. slen_facts.
  destruct (Z.eqb_spec (12 + slen (encode_recs rs)) (12 + slen (encode_recs rs) + slen (encode_recs rs'))).
  - rewrite (encode_recs_nil rs'), app_nil_r in Hr0 by lia. eexists. split; [reflexivity|].
    split; [exact Hr0|done].
  - destruct (Z.eqb_spec (12 + slen (encode_recs rs)) 0); [lia|].
    eexists. split; [reflexivity|]. split; [|done].
    set (b1 := upd_rep _ _). assert (Hb1 : rep_ b1 = hdr ++ EncodeFixed32 (num_entries rs + num_entries rs') ++ encode_recs rs).
    { unfold b1, resize. cbn. rewrite Hrep, encode_recs_app.
      rewrite (app_assoc _ (encode_recs rs)), (app_assoc hdr). apply stake_app.
      rewrite !slen_app, slen_EncodeFixed32. lia. }
    split; [split; [done|]|split_and!; [done|lia| |done]].
    + apply (SetCount_at (upd_prot b1 _) hdr _ _ _ Hh Hb1).
    + cbn. destruct (prot_info_ b) as [es|]; [|done]. cbn. subst es. by rewrite stake_app by apply slen_codes.
Qed.

End Meaning.

(** ** Properties *)





Definition toy_hash (s : bytes) (seed : Z) : Z := u64 (seed + fold_left (fun h b => h * 31 + ub b) s 7).

(** A batch built from the constructor by any sequence of operations
    represents exactly the records of the operations that returned OK, in
    their order, and its count is their number of entries. *)
Theorem write_batch_build (Hash64 : bytes -> Z -> Z) (max_bytes prot_bytes ts_sz : Z) (os : list BOp) :
  Forall op_pre os -> slen os < 2 ^ 32 ->
  let (ss, b) := run_ops Hash64 (WriteBatch_make max_bytes prot_bytes ts_sz) os in
  represents Hash64 (repeat_byte 8 Byte.x00) b (accepted os ss) /\
  Count b = num_entries (accepted os ss) /\ save_points_ b = [].
Proof.
  intros Hpre Hn.
  assert (H0 : represents Hash64 (repeat_byte 8 Byte.x00) (WriteBatch_make max_bytes prot_bytes ts_sz) []).
  { split_and!; try done. cbn. by destruct (negb _). }
  pose proof (run_ops_ok Hash64 os _ _ _ H0 Hpre Hn) as H.
  destruct (run_ops _ _ _) as [ss b]. destruct H as (Hr & -> & _). split; [exact Hr|]. split; [|done].
  destruct Hr as ((Hh & Hrep) & _ & Hlt & _). eapply Count_at; [exact Hh| |exact Hrep].
  pose proof (num_entries_nonneg (accepted os ss)). unfold is_u32. cbn in *. lia.
Qed.

Lemma write_batch_build_witness :
  Count (snd (run_ops toy_hash (WriteBatch_make 20 0 0)
                [OPut 0 [Byte.x61] [Byte.x62]; OPutLogData []; OPut 0 [Byte.x61] [Byte.x62]])) = 1.
Proof.
  pose proof (write_batch_build toy_hash 20 0 0
                [OPut 0 [Byte.x61] [Byte.x62]; OPutLogData []; OPut 0 [Byte.x61] [Byte.x62]]) as H.
  destruct (run_ops _ _ _) as [ss b] eqn:E. destruct H as (_ & H & _).
  - repeat constructor; vm_compute; done.
  - vm_compute. reflexivity.
  - cbn [snd]. rewrite H. vm_compute in E. injection E as <- _. vm_compute. reflexivity.
Defined.

(** [C37] A save point undoes: after [SetSavePoint], any operations (refused
    ones included) and [RollbackToSavePoint], the bytes, content flags,
    integrity codes and outer save points are those before. *)
Theorem save_point_rollback (Hash64 : bytes -> Z -> Z) (hdr : bytes) (b : WriteBatch) (rs : list Rec)
    (os : list BOp) :
  represents Hash64 hdr b rs -> Forall op_pre os -> num_entries rs + slen os < 2 ^ 32 ->
  let (s, b') := RollbackToSavePoint (snd (run_ops Hash64 (SetSavePoint b) os)) in
  s = OK /\ represents Hash64 hdr b' rs /\
  rep_ b' = rep_ b /\ content_flags_ b' = content_flags_ b /\ save_points_ b' = save_points_ b.
Proof.
  intros Hr Hpre Hn. pose proof Hr as ((Hh & Hrep) & _ & _ & _ & Hfl).
  pose proof (run_ops_ok Hash64 os hdr (SetSavePoint b) rs Hr Hpre Hn) as H.
  destruct (run_ops _ _ _) as [ss b1]. destruct H as (Hr1 & Hsp & _). cbn [snd].
  assert (Hc : Count b = num_entries rs).
  { eapply Count_at; [exact Hh| |exact Hrep]. pose proof (num_entries_nonneg rs).
    pose proof (slen_nonneg os). unfold is_u32. lia. }
  assert (Hs : GetDataSize b = 12 + slen (encode_recs rs)).
  { unfold GetDataSize. rewrite Hrep, !slen_app, slen_EncodeFixed32. lia. }
  destruct (rollback_ok Hash64 hdr b1 rs (accepted os ss) (save_points_ b) Hr1) as (b' & -> & Hr' & Hsp').
  { rewrite Hsp. unfold SetSavePoint. cbn [save_points_ upd_save_points]. by rewrite Hc, Hs, Hfl. }
  destruct (represents_fields Hash64 hdr b rs b' rs Hr Hr' eq_refl). split_and!; done.
Qed.

Lemma save_point_rollback_witness :
  let b := snd (run_ops toy_hash (WriteBatch_make 0 8 0) [OPut 0 [Byte.x61] []]) in
  rep_ (snd (RollbackToSavePoint (snd (run_ops toy_hash (SetSavePoint b) [ODelete 0 [Byte.x62]])))) = rep_ b.
Proof.
  set (b := snd (run_ops toy_hash (WriteBatch_make 0 8 0) [OPut 0 [Byte.x61] []])). cbv zeta.
  pose proof (save_point_rollback toy_hash (repeat_byte 8 Byte.x00) b [RPut 0 [Byte.x61] []]
                [ODelete 0 [Byte.x62]]) as H.
  destruct (RollbackToSavePoint _) as [s b']. apply H.
  - split; [split; vm_compute; reflexivity|]. split.
    + apply Forall_singleton. vm_compute. repeat split; (discriminate || reflexivity).
    + split; [vm_compute; reflexivity|]. split; vm_compute; reflexivity.
  - apply Forall_singleton. vm_compute. repeat split; (discriminate || reflexivity).
  - vm_compute. reflexivity.
Defined.

(** A key that [CheckSlicePartsLength] accepts. *)
Definition below_max (s : bytes) : Prop := slen s < max_u32.

Lemma parts_check_ok k v : below_max (concat k) -> below_max (concat v) -> CheckSlicePartsLength k v = OK.
Proof.
  intros Hk Hv. unfold CheckSlicePartsLength.
  change (fold_left (fun t p => t + slen p) k 0) with (parts_size 0 k).
  change (fold_left (fun t p => t + slen p) v 0) with (parts_size 0 v).
  rewrite !parts_size_spec, !Z.add_0_l. unfold below_max, max_u32 in *. by repeat zcase.
Qed.

Lemma below_max_fits s : below_max s -> fits32 s.
Proof. unfold below_max, fits32, is_u32, max_u32. slia. Qed.

(** Through a column family handle, every writing method is the same
    operation on the key the column family stores: the key itself where
    timestamps are off; where they are on, the key with a zero timestamp of
    the size of the comparator, and the batch is marked as needing its
    timestamps; with an explicit timestamp, the key followed by it. A
    timestamp size that does not fit the handle is refused. *)
Theorem column_family_routing (Hash64 : bytes -> Z -> Z) (b : WriteBatch)
    (cf : option ColumnFamilyHandle) (key value end_key ts : bytes) :
  let '(s, id, ts_sz) := GetColumnFamilyIdAndTimestampSize b cf in
  let zero k := k ++ repeat_byte ts_sz Byte.x00 in
  let b1 := if ts_sz =? 0 then b else upd_ts b true true in
  let b2 := upd_ts b (needs_in_place_update_ts_ b) true in
  below_max (zero key) -> below_max value -> below_max (key ++ ts) ->
  (ok s = true ->
     Put Hash64 b cf key value = apply_op Hash64 b1 (OPut id (zero key) value) /\
     Merge Hash64 b cf key value = apply_op Hash64 b1 (OMerge id (zero key) value) /\
     Delete Hash64 b cf key = apply_op Hash64 b1 (ODelete id (zero key)) /\
     SingleDelete Hash64 b cf key = apply_op Hash64 b1 (OSingleDelete id (zero key)) /\
     DeleteRange Hash64 b cf key end_key = apply_op Hash64 b1 (ODeleteRange id (zero key) (zero end_key))) /\
  (ok s = false -> Put Hash64 b cf key value = (s, b) /\ Delete Hash64 b cf key = (s, b)) /\
  (CheckColumnFamilyTimestampSize cf ts = Some OK ->
     Put_ts Hash64 b cf key ts value = Some (apply_op Hash64 b2 (OPut id (key ++ ts) value)) /\
     Merge_ts Hash64 b cf key ts value = Some (apply_op Hash64 b2 (OMerge id (key ++ ts) value)) /\
     Delete_ts Hash64 b cf key ts = Some (apply_op Hash64 b2 (ODelete id (key ++ ts))) /\
     SingleDelete_ts Hash64 b cf key ts = Some (apply_op Hash64 b2 (OSingleDelete id (key ++ ts))) /\
     DeleteRange_ts Hash64 b cf key end_key ts =
       Some (apply_op Hash64 b2 (ODeleteRange id (key ++ ts) (end_key ++ ts)))).
Proof.
  destruct (GetColumnFamilyIdAndTimestampSize b cf) as [[s id] ts_sz] eqn:E. cbv zeta. intros Hz Hv Ht.
  assert (Hid : id = GetColumnFamilyID cf).
  { unfold GetColumnFamilyIdAndTimestampSize in E. repeat case_match; congruence. }
  assert (Hc : forall k t : bytes, concat [k; t] = k ++ t) by (intros; cbn; by rewrite app_nil_r).
  assert (Hc1 : concat [value] = value) by (cbn; by rewrite app_nil_r).
  unfold Put, Merge, Delete, SingleDelete, DeleteRange. rewrite E. cbn [apply_op]. split_and!.
  - intros Hs. rewrite Hs. cbn [negb]. rewrite (Z.eqb_sym 0). destruct (Z.eqb_spec ts_sz 0) as [->|].
    + change (repeat_byte 0 Byte.x00) with (@nil Init.Byte.byte). by rewrite !app_nil_r.
    + rewrite Put_parts_add, Merge_parts_add by (apply parts_check_ok; rewrite ?Hc, ?Hc1; done).
      rewrite Put_add, Merge_add by (by apply below_max_fits).
      rewrite Delete_parts_add, SingleDelete_parts_add, DeleteRange_parts_add,
        Delete_add, SingleDelete_add, DeleteRange_add.
      by rewrite !Hc, Hc1.
  - intros Hs. by rewrite Hs.
  - intros Hs. unfold Put_ts, Merge_ts, Delete_ts, SingleDelete_ts, DeleteRange_ts. rewrite Hs, <- Hid.
    cbn [mbind option_bind ok negb].
    rewrite Put_parts_add, Merge_parts_add by (apply parts_check_ok; rewrite ?Hc, ?Hc1; done).
    rewrite Put_add, Merge_add by (by apply below_max_fits).
    rewrite Delete_parts_add, SingleDelete_parts_add, DeleteRange_parts_add,
      Delete_add, SingleDelete_add, DeleteRange_add.
    by rewrite !Hc, Hc1.
Qed.

(** The marker of a prepare section, and its tag. *)
Definition begin_marker (write_after_commit unprepared : bool) : Rec :=
  if write_after_commit then RBeginPrepare
  else if unprepared then RBeginUnprepare else RBeginPersistedPrepare.

Lemma begin_marker_facts wac unp : (unp = true -> wac = false) ->
  encode_rec (begin_marker wac unp) =
    [to_byte (if wac then kTypeBeginPrepareXID
              else if unp then kTypeBeginUnprepareXID else kTypeBeginPersistedPrepareXID)] /\
  entry_of (begin_marker wac unp) = None /\ rec_fits (begin_marker wac unp) /\
  rec_flags (begin_marker wac unp) =
    if unp then Z.lor HAS_BEGIN_PREPARE HAS_BEGIN_UNPREPARE else HAS_BEGIN_PREPARE.
Proof. intros Hu. destruct wac, unp; try done. by specialize (Hu eq_refl). Qed.

(** The bytes: the first record replaced, a last one added. *)
Lemma end_prepare_bytes (hdr : bytes) n rs m tag xid : slen hdr = 8 -> encode_rec m = [to_byte tag] ->
  let rep := hdr ++ EncodeFixed32 n ++ encode_recs (RNoop :: rs) in
  PutLengthPrefixedSlice ((stake 12 rep ++ to_byte tag :: sdrop 13 rep) ++ [to_byte kTypeEndPrepareXID]) xid =
  hdr ++ EncodeFixed32 n ++ encode_recs (m :: rs ++ [REndPrepare xid]).
Proof.
  intros Hh Henc. cbv zeta. rewrite (proj1 (put_after _ _ _ [])).
  change (encode_recs (RNoop :: rs)) with ([to_byte kTypeNoop] ++ encode_recs rs).
  rewrite (app_assoc hdr (EncodeFixed32 n) (_ ++ _)), stake_app by (rewrite slen_app, slen_EncodeFixed32; lia).
  rewrite (app_assoc (hdr ++ _)), (sdrop_app 13)
    by (rewrite !slen_app, slen_EncodeFixed32; change (slen [to_byte kTypeNoop]) with 1; lia).
  change (encode_recs (m :: rs ++ [REndPrepare xid])) with (encode_rec m ++ encode_recs (rs ++ [REndPrepare xid])).
  rewrite Henc, encode_recs_app, encode_recs_1. cbn [encode_rec app]. by rewrite <- !app_assoc.
Qed.

Lemma end_prepare_counts Hash64 rs m xid : entry_of m = None ->
  num_entries (m :: rs ++ [REndPrepare xid]) = num_entries (RNoop :: rs) /\
  codes Hash64 (m :: rs ++ [REndPrepare xid]) = codes Hash64 (RNoop :: rs) /\
  flags_of (m :: rs ++ [REndPrepare xid]) = Z.lor (flags_of (RNoop :: rs)) (Z.lor HAS_END_PREPARE (rec_flags m)).
Proof.
  intros Hm. split_and!.
  - unfold num_entries. cbn. rewrite Hm, omap_app. cbn. by rewrite app_nil_r.
  - unfold codes. cbn. rewrite Hm, omap_app. cbn. by rewrite app_nil_r.
  - change (m :: rs ++ [REndPrepare xid]) with ([m] ++ (rs ++ [REndPrepare xid])).
    change (RNoop :: rs) with ([RNoop] ++ rs). rewrite !flags_of_app, !flags_of_1. cbn [rec_flags].
    by rewrite Z.lor_0_l, Z.lor_comm, Z.lor_assoc.
Qed.

(** Closing a prepare section turns the leading no-op of the batch into
    the begin marker of the write policy and appends the end marker with the
    transaction id; every record in between is kept, and all save points are
    dropped. *)
Theorem mark_end_prepare (Hash64 : bytes -> Z -> Z) (hdr : bytes) (b : WriteBatch) (rs : list Rec)
    (xid : bytes) (write_after_commit unprepared : bool) :
  represents Hash64 hdr b (RNoop :: rs) -> fits32 xid ->
  (unprepared = true -> write_after_commit = false) ->
  let (s, b') := MarkEndPrepare b xid write_after_commit unprepared in
  s = OK /\ save_points_ b' = [] /\
  represents Hash64 hdr b' (begin_marker write_after_commit unprepared :: rs ++ [REndPrepare xid]).
Proof.
  intros ((Hh & Hrep) & Hf & Hn & Hp & Hfl) Hx Hu. inversion_clear Hf as [|? ? _ Hfs].
  destruct (begin_marker_facts write_after_commit unprepared Hu) as (Henc & Hent & Hfit & Hflag).
  destruct (end_prepare_counts Hash64 rs _ xid Hent) as (Hnum & Hcodes & Hflags).
  split; [done|]. split; [by destruct unprepared|]. split; [split; [done|]|split_and!].
  - rewrite Hnum, <- (end_prepare_bytes hdr _ rs _ _ xid Hh Henc), <- Hrep. by destruct unprepared.
  - constructor; [done|]. apply Forall_app. split; [done|]. by apply Forall_singleton.
  - by rewrite Hnum.
  - rewrite Hcodes. by destruct unprepared.
  - rewrite Hflags, Hflag, <- Hfl. destruct unprepared; cbn; rewrite ?Z.lor_assoc; done.
Qed.

Lemma mark_end_prepare_witness :
  represents toy_hash (repeat_byte 8 Byte.x00)
    (snd (MarkEndPrepare (snd (InsertNoop (WriteBatch_make 0 0 0))) [Byte.x78] false true))
    [RBeginUnprepare; REndPrepare [Byte.x78]].
Proof.
  refine (proj2 (proj2 (mark_end_prepare toy_hash (repeat_byte 8 Byte.x00)
            (snd (InsertNoop (WriteBatch_make 0 0 0))) [] [Byte.x78] false true _ _ _))).
  - split; [split; vm_compute; reflexivity|]. split; [by repeat constructor|].
    split; [vm_compute; reflexivity|]. split; [exact I|vm_compute; reflexivity].
  - vm_compute. split; [discriminate|reflexivity].
  - reflexivity.
Defined.









(** A marker is appended to a batch that is already at its maximum size. *)
Lemma markers_exceed_max_bytes : let b := WriteBatch_make 12 0 0 in
  slen (rep_ b) = max_bytes_ b /\ fst (InsertNoop b) = OK /\ max_bytes_ b < slen (rep_ (snd (InsertNoop b))).
Proof. by vm_compute. Qed.
