(* ===== verification/WriteBatchIter.v ===== *)
(** * Write batches: reading back

    Models the readers of db/write_batch.cc: [ReadRecordFromWriteBatch],
    [WriteBatch::Iterate] with its handler interface, the content classifier
    behind [HasPut] and its siblings, the computation and verification of
    integrity codes, and [WriteBatchInternal::Append].

    A handler is a record of operations on its own state. The virtual methods
    are the constructors of [Call]; a handler without an override answers as
    the base class does. Assertions on the status a handler returns are not
    evaluated (they are compiled out of release builds). *)

From S2P Require Import Prelude Coding Slice Comparator DbFormat KvChecksum WideColumns WriteBatch.

(** ** One record *)

(** The output parameters of [ReadRecordFromWriteBatch]; what a record does
    not set keeps its former value. *)
Record Slots := {
  sl_tag : Z; sl_cf : Z; sl_key : bytes; sl_value : bytes; sl_blob : bytes; sl_xid : bytes
}.

Definition no_slots : Slots :=
  {| sl_tag := 0; sl_cf := 0; sl_key := []; sl_value := []; sl_blob := []; sl_xid := [] |}.

Definition set_tag (s : Slots) (t : Z) : Slots :=
  {| sl_tag := t; sl_cf := 0; sl_key := sl_key s; sl_value := sl_value s; sl_blob := sl_blob s; sl_xid := sl_xid s |}.
Definition set_cf (s : Slots) (c : Z) : Slots :=
  {| sl_tag := sl_tag s; sl_cf := c; sl_key := sl_key s; sl_value := sl_value s; sl_blob := sl_blob s; sl_xid := sl_xid s |}.
Definition slot_key (s : Slots) (k : bytes) : Slots :=
  {| sl_tag := sl_tag s; sl_cf := sl_cf s; sl_key := k; sl_value := sl_value s; sl_blob := sl_blob s; sl_xid := sl_xid s |}.
Definition set_value (s : Slots) (v : bytes) : Slots :=
  {| sl_tag := sl_tag s; sl_cf := sl_cf s; sl_key := sl_key s; sl_value := v; sl_blob := sl_blob s; sl_xid := sl_xid s |}.
Definition set_blob (s : Slots) (v : bytes) : Slots :=
  {| sl_tag := sl_tag s; sl_cf := sl_cf s; sl_key := sl_key s; sl_value := sl_value s; sl_blob := v; sl_xid := sl_xid s |}.
Definition set_xid (s : Slots) (v : bytes) : Slots :=
  {| sl_tag := sl_tag s; sl_cf := sl_cf s; sl_key := sl_key s; sl_value := sl_value s; sl_blob := sl_blob s; sl_xid := v |}.

(** A reader: status, slots and what is left of the input; a failed read
    stops. *)
Definition Reader := bytes -> Slots -> Status * Slots * bytes.

Definition rd_done : Reader := fun input s => (OK, s, input).

Definition rd_cf (err : string) (k : Reader) : Reader := fun input s =>
  match GetVarint32 input with
  | None => (Corruption err, s, input)
  | Some (cf, input) => k input (set_cf s cf)
  end.

Definition rd_slice (set : Slots -> bytes -> Slots) (err : string) (k : Reader) : Reader := fun input s =>
  match GetLengthPrefixedSlice input with
  | None => (Corruption err, s, input)
  | Some (v, input) => k input (set s v)
  end.

Definition rd_kv (err : string) : Reader := rd_slice slot_key err (rd_slice set_value err rd_done).
Definition rd_k (err : string) : Reader := rd_slice slot_key err rd_done.

(** The switch; a case that falls through is its reader followed by the next. *)
Definition ReadRecord_switch (tag : Z) : Reader :=
  if tag =? kTypeColumnFamilyValue then rd_cf "bad WriteBatch Put" (rd_kv "bad WriteBatch Put")
  else if tag =? kTypeValue then rd_kv "bad WriteBatch Put"
  else if (tag =? kTypeColumnFamilyDeletion) || (tag =? kTypeColumnFamilySingleDeletion)
  then rd_cf "bad WriteBatch Delete" (rd_k "bad WriteBatch Delete")
  else if (tag =? kTypeDeletion) || (tag =? kTypeSingleDeletion) then rd_k "bad WriteBatch Delete"
  else if tag =? kTypeColumnFamilyRangeDeletion
  then rd_cf "bad WriteBatch DeleteRange" (rd_kv "bad WriteBatch DeleteRange")
  else if tag =? kTypeRangeDeletion then rd_kv "bad WriteBatch DeleteRange"
  else if tag =? kTypeColumnFamilyMerge then rd_cf "bad WriteBatch Merge" (rd_kv "bad WriteBatch Merge")
  else if tag =? kTypeMerge then rd_kv "bad WriteBatch Merge"
  else if tag =? kTypeColumnFamilyBlobIndex
  then rd_cf "bad WriteBatch BlobIndex" (rd_kv "bad WriteBatch BlobIndex")
  else if tag =? kTypeBlobIndex then rd_kv "bad WriteBatch BlobIndex"
  else if tag =? kTypeLogData then rd_slice set_blob "bad WriteBatch Blob" rd_done
  else if (tag =? kTypeNoop) || (tag =? kTypeBeginPrepareXID) ||
          (tag =? kTypeBeginPersistedPrepareXID) || (tag =? kTypeBeginUnprepareXID) then rd_done
  else if tag =? kTypeEndPrepareXID then rd_slice set_xid "bad EndPrepare XID" rd_done
  else if tag =? kTypeCommitXIDAndTimestamp
  then rd_slice slot_key "bad commit timestamp" (rd_slice set_xid "bad Commit XID" rd_done)
  else if tag =? kTypeCommitXID then rd_slice set_xid "bad Commit XID" rd_done
  else if tag =? kTypeRollbackXID then rd_slice set_xid "bad Rollback XID" rd_done
  else if tag =? kTypeColumnFamilyWideColumnEntity
  then rd_cf "bad WriteBatch PutEntity" (rd_kv "bad WriteBatch PutEntity")
  else if tag =? kTypeWideColumnEntity then rd_kv "bad WriteBatch PutEntity"
  else fun input s => (Corruption "unknown WriteBatch tag", s, input).

(** No caller reads the tag of an empty input. *)
Definition ReadRecordFromWriteBatch (input : bytes) (s : Slots) : Status * Slots * bytes :=
  match input with
  | [] => (Corruption "unknown WriteBatch tag", s, [])
  | t :: input => ReadRecord_switch (ub t) input (set_tag s (ub t))
  end.

Definition ReadKeyFromWriteBatchEntry (input : bytes) (cf_record : bool) : option (bytes * bytes) :=
  let input := sdrop 1 input in
  match (if cf_record then match GetVarint32 input with Some (_, i) => Some i | None => None end
         else Some input) with
  | None => None
  | Some input => GetLengthPrefixedSlice input
  end.

(** ** Handlers *)

Inductive Call :=
| CPutCF (cf : Z) (key value : bytes)
| CPutEntityCF (cf : Z) (key entity : bytes)
| CDeleteCF (cf : Z) (key : bytes)
| CSingleDeleteCF (cf : Z) (key : bytes)
| CDeleteRangeCF (cf : Z) (begin_key end_key : bytes)
| CMergeCF (cf : Z) (key value : bytes)
| CPutBlobIndexCF (cf : Z) (key value : bytes)
| CLogData (blob : bytes)
| CMarkBeginPrepare (unprepare : bool)
| CMarkEndPrepare (xid : bytes)
| CMarkNoop (empty_batch : bool)
| CMarkRollback (xid : bytes)
| CMarkCommit (xid : bytes)
| CMarkCommitWithTimestamp (xid commit_ts : bytes).

Inductive OptionState := kUnknown | kDisabled | kEnabled.

Record Handler (S : Type) := {
  h_call : Call -> S -> Status * S;
  h_Continue : S -> bool * S;
  h_WriteAfterCommit : OptionState;
  h_WriteBeforePrepare : OptionState
}.
Arguments h_call {S}.
Arguments h_Continue {S}.
Arguments h_WriteAfterCommit {S}.
Arguments h_WriteBeforePrepare {S}.

(** What the base class answers (for the default column family, the methods
    without column family do nothing). *)
Definition Handler_default (c : Call) : Status :=
  match c with
  | CPutCF cf _ _ => if cf =? 0 then OK else InvalidArgument "non-default column family and PutCF not implemented"
  | CPutEntityCF _ _ _ => NotSupported "PutEntityCF not implemented"
  | CDeleteCF cf _ => if cf =? 0 then OK else InvalidArgument "non-default column family and DeleteCF not implemented"
  | CSingleDeleteCF cf _ =>
      if cf =? 0 then OK else InvalidArgument "non-default column family and SingleDeleteCF not implemented"
  | CDeleteRangeCF _ _ _ => InvalidArgument "DeleteRangeCF not implemented"
  | CMergeCF cf _ _ => if cf =? 0 then OK else InvalidArgument "non-default column family and MergeCF not implemented"
  | CPutBlobIndexCF _ _ _ => InvalidArgument "PutBlobIndexCF not implemented"
  | CLogData _ => OK
  | CMarkBeginPrepare _ => InvalidArgument "MarkBeginPrepare() handler not defined."
  | CMarkEndPrepare _ => InvalidArgument "MarkEndPrepare() handler not defined."
  | CMarkNoop _ => InvalidArgument "MarkNoop() handler not defined."
  | CMarkRollback _ => InvalidArgument "MarkRollbackPrepare() handler not defined."
  | CMarkCommit _ => InvalidArgument "MarkCommit() handler not defined."
  | CMarkCommitWithTimestamp _ _ => InvalidArgument "MarkCommitWithTimestamp() handler not defined."
  end.

(** ** Iterate *)

Section Iterate.

Context {S : Type} (h : Handler S).

(** The call on a data record: [found] and [empty_batch] change when it
    succeeds ([PutBlobIndexCF] leaves [empty_batch]). *)
Definition data_call (c : Call) (clears : bool) (empty_batch : bool) (found : Z) (hs : S)
    : Status * (bool * Z * S) :=
  let (s, hs) := h_call h c hs in
  if ok s then (s, (if clears then false else empty_batch, u32 (found + 1), hs))
  else (s, (empty_batch, found, hs)).

(** The call on a marker, after which [empty_batch] is [e]. *)
Definition mark_call (c : Call) (e : bool) (found : Z) (hs : S) : Status * (bool * Z * S) :=
  let (s, hs) := h_call h c hs in (s, (e, found, hs)).

Definition is_disabled (o : OptionState) : bool := match o with kDisabled => true | _ => false end.
Definition is_enabled (o : OptionState) : bool := match o with kEnabled => true | _ => false end.

(** The begin markers are checked against the write policy of the handler. *)
Definition begin_policy (tag : Z) (s : Status) : Status :=
  if tag =? kTypeBeginPrepareXID then
    let s := if is_disabled (h_WriteAfterCommit h)
             then NotSupported "WriteCommitted txn tag when write_after_commit_ is disabled (in WritePrepared/WriteUnprepared mode). If it is not due to corruption, the WAL must be emptied before changing the WritePolicy."
             else s in
    if is_enabled (h_WriteBeforePrepare h)
    then NotSupported "WriteCommitted txn tag when write_before_prepare_ is enabled (in WriteUnprepared mode). If it is not due to corruption, the WAL must be emptied before changing the WritePolicy."
    else s
  else if tag =? kTypeBeginPersistedPrepareXID then
    if is_enabled (h_WriteAfterCommit h)
    then NotSupported "WritePrepared/WriteUnprepared txn tag when write_after_commit_ is enabled (in default WriteCommitted mode). If it is not due to corruption, the WAL must be emptied before changing the WritePolicy."
    else s
  else
    let s := if is_enabled (h_WriteAfterCommit h)
             then NotSupported "WriteUnprepared txn tag when write_after_commit_ is enabled (in default WriteCommitted mode). If it is not due to corruption, the WAL must be emptied before changing the WritePolicy."
             else s in
    if is_disabled (h_WriteBeforePrepare h)
    then NotSupported "WriteUnprepared txn tag when write_before_prepare_ is disabled (in WriteCommitted/WritePrepared mode). If it is not due to corruption, the WAL must be emptied before changing the WritePolicy."
    else s.

(** The switch of the loop; [None] is the [default] case, which returns. *)
Definition Iterate_switch (sl : Slots) (empty_batch : bool) (found : Z) (hs : S)
    : option (Status * (bool * Z * S)) :=
  let tag := sl_tag sl in
  let cf := sl_cf sl in let key := sl_key sl in let value := sl_value sl in let xid := sl_xid sl in
  if (tag =? kTypeColumnFamilyValue) || (tag =? kTypeValue)
  then Some (data_call (CPutCF cf key value) true empty_batch found hs)
  else if (tag =? kTypeColumnFamilyDeletion) || (tag =? kTypeDeletion)
  then Some (data_call (CDeleteCF cf key) true empty_batch found hs)
  else if (tag =? kTypeColumnFamilySingleDeletion) || (tag =? kTypeSingleDeletion)
  then Some (data_call (CSingleDeleteCF cf key) true empty_batch found hs)
  else if (tag =? kTypeColumnFamilyRangeDeletion) || (tag =? kTypeRangeDeletion)
  then Some (data_call (CDeleteRangeCF cf key value) true empty_batch found hs)
  else if (tag =? kTypeColumnFamilyMerge) || (tag =? kTypeMerge)
  then Some (data_call (CMergeCF cf key value) true empty_batch found hs)
  else if (tag =? kTypeColumnFamilyBlobIndex) || (tag =? kTypeBlobIndex)
  then Some (data_call (CPutBlobIndexCF cf key value) false empty_batch found hs)
  else if tag =? kTypeLogData then
    let (_, hs) := h_call h (CLogData (sl_blob sl)) hs in Some (OK, (false, found, hs))
  else if (tag =? kTypeBeginPrepareXID) || (tag =? kTypeBeginPersistedPrepareXID) ||
          (tag =? kTypeBeginUnprepareXID) then
    let '(s, r) := mark_call (CMarkBeginPrepare (tag =? kTypeBeginUnprepareXID)) false found hs in
    Some (begin_policy tag s, r)
  else if tag =? kTypeEndPrepareXID then Some (mark_call (CMarkEndPrepare xid) true found hs)
  else if tag =? kTypeCommitXID then Some (mark_call (CMarkCommit xid) true found hs)
  else if tag =? kTypeCommitXIDAndTimestamp then
    let (s, hs) := h_call h (CMarkCommitWithTimestamp xid key) hs in
    Some (s, (if ok s then true else empty_batch, found, hs))
  else if tag =? kTypeRollbackXID then Some (mark_call (CMarkRollback xid) true found hs)
  else if tag =? kTypeNoop then Some (mark_call (CMarkNoop empty_batch) true found hs)
  else if (tag =? kTypeWideColumnEntity) || (tag =? kTypeColumnFamilyWideColumnEntity)
  then Some (data_call (CPutEntityCF cf key value) true empty_batch found hs)
  else None.

(** How the loop ends: a [return] inside it, or its exit with the last
    status, [found] and [handler_continue]. *)
Inductive LoopEnd :=
| Returned (s : Status) (hs : S)
| Exited (s : Status) (found : Z) (handler_continue : bool) (hs : S).

(** [None]: out of fuel. *)
Fixpoint Iterate_loop (fuel : nat) (input : bytes) (sl : Slots) (s : Status) (last_was_try_again : bool)
    (empty_batch : bool) (found : Z) (hs : S) : option LoopEnd :=
  match fuel with
  | O => None
  | Datatypes.S fuel' =>
      if negb ((ok s && negb (slen input =? 0)) || IsTryAgain s) then Some (Exited s found true hs)
      else
        let (handler_continue, hs) := h_Continue h hs in
        if negb handler_continue then Some (Exited s found false hs)
        else
          (* the record to dispatch, or a status to return *)
          let next : Status * (Slots * bytes * bool) :=
            if negb (IsTryAgain s) then
              let '(s, sl, input) := ReadRecordFromWriteBatch input sl in (s, (sl, input, false))
            else if last_was_try_again
            then (Corruption "two consecutive TryAgain in WriteBatch handler; this is either a software bug or data corruption.", (sl, input, true))
            else (OK, (sl, input, true)) in
          let '(s, (sl, input, last_was_try_again)) := next in
          if negb (ok s) then Some (Returned s hs)
          else match Iterate_switch sl empty_batch found hs with
               | None => Some (Returned (Corruption "unknown WriteBatch tag") hs)
               | Some (s, (empty_batch, found, hs)) =>
                   Iterate_loop fuel' input sl s last_was_try_again empty_batch found hs
               end
  end.

(** Every iteration reads a record or retries one, and no record is retried
    twice in a row: twice the length of the input, and two, is enough. *)
Definition Iterate_fuel (input : bytes) : nat := 2 * length input + 2.

(** [WriteBatchInternal::Iterate(wb, handler, begin, end)]; [None] never
    happens. *)
Definition WBI_Iterate (wb : WriteBatch) (begin end_ : Z) (hs : S) : option (Status * S) :=
  if (slen (rep_ wb) <? begin) || (slen (rep_ wb) <? end_) || (end_ <? begin)
  then Some (Corruption "Invalid start/end bounds for Iterate", hs)
  else
    let input := stake (end_ - begin) (sdrop begin (rep_ wb)) in
    let whole_batch := (begin =? kHeader) && (end_ =? slen (rep_ wb)) in
    match Iterate_loop (Iterate_fuel input) input no_slots OK false true 0 hs with
    | None => None
    | Some (Returned s hs) => Some (s, hs)
    | Some (Exited s found handler_continue hs) =>
        Some (if negb (ok s) then s
              else if handler_continue && whole_batch && negb (found =? Count wb)
              then Corruption "WriteBatch has wrong count" else OK, hs)
    end.

Definition Iterate (wb : WriteBatch) (hs : S) : option (Status * S) :=
  if slen (rep_ wb) <? kHeader then Some (Corruption "malformed WriteBatch (too small)", hs)
  else WBI_Iterate wb kHeader (slen (rep_ wb)) hs.

End Iterate.

(** ** BatchContentClassifier and the content queries *)

(** Its state is [content_flags]; it overrides everything but [LogData] and
    [MarkNoop]. *)
Definition BatchContentClassifier : Handler Z := {|
  h_call c content_flags :=
    match c with
    | CPutCF _ _ _ => (OK, Z.lor content_flags HAS_PUT)
    | CPutEntityCF _ _ _ => (OK, Z.lor content_flags HAS_PUT_ENTITY)
    | CDeleteCF _ _ => (OK, Z.lor content_flags HAS_DELETE)
    | CSingleDeleteCF _ _ => (OK, Z.lor content_flags HAS_SINGLE_DELETE)
    | CDeleteRangeCF _ _ _ => (OK, Z.lor content_flags HAS_DELETE_RANGE)
    | CMergeCF _ _ _ => (OK, Z.lor content_flags HAS_MERGE)
    | CPutBlobIndexCF _ _ _ => (OK, Z.lor content_flags HAS_BLOB_INDEX)
    | CMarkBeginPrepare unprepare =>
        let content_flags := Z.lor content_flags HAS_BEGIN_PREPARE in
        (OK, if unprepare then Z.lor content_flags HAS_BEGIN_UNPREPARE else content_flags)
    | CMarkEndPrepare _ => (OK, Z.lor content_flags HAS_END_PREPARE)
    | CMarkCommit _ => (OK, Z.lor content_flags HAS_COMMIT)
    | CMarkCommitWithTimestamp _ _ => (OK, Z.lor content_flags HAS_COMMIT)
    | CMarkRollback _ => (OK, Z.lor content_flags HAS_ROLLBACK)
    | CLogData _ | CMarkNoop _ => (Handler_default c, content_flags)
    end;
  h_Continue content_flags := (true, content_flags);
  h_WriteAfterCommit := kUnknown;
  h_WriteBeforePrepare := kUnknown
|}.

(** The flags, and the batch with the computed flags stored. *)
Definition ComputeContentFlags (b : WriteBatch) : Z * WriteBatch :=
  let rv := content_flags_ b in
  if negb (Z.land rv DEFERRED =? 0) then
    let rv := match Iterate BatchContentClassifier b 0 with Some (_, f) => f | None => 0 end in
    (rv, upd_flags b rv)
  else (rv, b).

Definition has_flag (b : WriteBatch) (f : Z) : bool := negb (Z.land (fst (ComputeContentFlags b)) f =? 0).
Definition HasPut (b : WriteBatch) : bool := has_flag b HAS_PUT.
Definition HasPutEntity (b : WriteBatch) : bool := has_flag b HAS_PUT_ENTITY.
Definition HasDelete (b : WriteBatch) : bool := has_flag b HAS_DELETE.
Definition HasSingleDelete (b : WriteBatch) : bool := has_flag b HAS_SINGLE_DELETE.
Definition HasDeleteRange (b : WriteBatch) : bool := has_flag b HAS_DELETE_RANGE.
Definition HasMerge (b : WriteBatch) : bool := has_flag b HAS_MERGE.
Definition HasBeginPrepare (b : WriteBatch) : bool := has_flag b HAS_BEGIN_PREPARE.
Definition HasEndPrepare (b : WriteBatch) : bool := has_flag b HAS_END_PREPARE.
Definition HasCommit (b : WriteBatch) : bool := has_flag b HAS_COMMIT.
Definition HasRollback (b : WriteBatch) : bool := has_flag b HAS_ROLLBACK.

(** ** Integrity codes *)

Section Protection.

Variable Hash64 : bytes -> Z -> Z.
(** [XXH3_64bits], vendored. *)
Variable XXH3_64bits : bytes -> Z.

(** [ProtectionInfoUpdater]: its state is [prot_info_->entries_]. *)
Definition UpdateProtInfo (cf : Z) (key val : bytes) (op_type : Z) (es : list ProtectionInfoKVOC)
    : Status * list ProtectionInfoKVOC :=
  (OK, es ++ [ProtectC 64 Hash64 (ProtectKVO 64 Hash64 (PI 0) key val op_type) cf]).

Definition ProtectionInfoUpdater : Handler (list ProtectionInfoKVOC) := {|
  h_call c es :=
    match c with
    | CPutCF cf key val => UpdateProtInfo cf key val kTypeValue es
    | CPutEntityCF cf key entity => UpdateProtInfo cf key entity kTypeWideColumnEntity es
    | CDeleteCF cf key => UpdateProtInfo cf key [] kTypeDeletion es
    | CSingleDeleteCF cf key => UpdateProtInfo cf key [] kTypeSingleDeletion es
    | CDeleteRangeCF cf begin_key end_key => UpdateProtInfo cf begin_key end_key kTypeRangeDeletion es
    | CMergeCF cf key val => UpdateProtInfo cf key val kTypeMerge es
    | CPutBlobIndexCF cf key val => UpdateProtInfo cf key val kTypeBlobIndex es
    | _ => (OK, es)
    end;
  h_Continue es := (true, es);
  h_WriteAfterCommit := kUnknown;
  h_WriteBeforePrepare := kUnknown
|}.

Definition UpdateProtectionInfo (wb : WriteBatch) (bytes_per_key : Z) (checksum : option Z)
    : Status * WriteBatch :=
  if bytes_per_key =? 0 then (OK, upd_prot wb None)
  else if bytes_per_key =? 8 then
    match prot_info_ wb with
    | Some _ => (OK, wb)
    | None =>
        match Iterate ProtectionInfoUpdater wb [] with
        | None => (OK, wb)
        | Some (s, es) =>
            let wb := upd_prot wb (Some es) in
            match checksum with
            | Some c => if ok s && negb (XXH3_64bits (rep_ wb) =? c)
                        then (Corruption "Write batch content corrupted.", wb) else (s, wb)
            | None => (s, wb)
            end
        end
    end
  else (NotSupported "WriteBatch protection info must be zero or eight bytes/key", wb).

(** The tag under which a record was protected; [None] for the [default] case
    and [Some None] for a record that is not protected. *)
Definition checksum_tag (tag : Z) : option (option Z) :=
  if (tag =? kTypeColumnFamilyValue) || (tag =? kTypeValue) then Some (Some kTypeValue)
  else if (tag =? kTypeColumnFamilyDeletion) || (tag =? kTypeDeletion) then Some (Some kTypeDeletion)
  else if (tag =? kTypeColumnFamilySingleDeletion) || (tag =? kTypeSingleDeletion)
  then Some (Some kTypeSingleDeletion)
  else if (tag =? kTypeColumnFamilyRangeDeletion) || (tag =? kTypeRangeDeletion)
  then Some (Some kTypeRangeDeletion)
  else if (tag =? kTypeColumnFamilyMerge) || (tag =? kTypeMerge) then Some (Some kTypeMerge)
  else if (tag =? kTypeColumnFamilyBlobIndex) || (tag =? kTypeBlobIndex) then Some (Some kTypeBlobIndex)
  else if (tag =? kTypeLogData) || (tag =? kTypeBeginPrepareXID) || (tag =? kTypeEndPrepareXID) ||
          (tag =? kTypeCommitXID) || (tag =? kTypeRollbackXID) || (tag =? kTypeNoop) ||
          (tag =? kTypeBeginPersistedPrepareXID) || (tag =? kTypeBeginUnprepareXID) ||
          (tag =? kTypeDeletionWithTimestamp) || (tag =? kTypeCommitXIDAndTimestamp)
  then Some None
  else if (tag =? kTypeColumnFamilyWideColumnEntity) || (tag =? kTypeWideColumnEntity)
  then Some (Some kTypeWideColumnEntity)
  else None.

(** The loop: the entries from [prot_info_idx] on, the index, the input; the
    result is a status to return or the final index. Each step consumes
    input: its length is enough fuel. *)
Fixpoint VerifyChecksum_loop (fuel : nat) (input : bytes) (sl : Slots) (es : list ProtectionInfoKVOC)
    (idx : Z) : Status * Z :=
  match fuel with
  | O => (OK, idx)
  | S fuel' =>
      match input, es with
      | [], _ | _, [] => (OK, idx)
      | _, e :: es' =>
          let sl := set_cf (set_value (slot_key sl []) []) 0 in
          let '(s, sl, input) := ReadRecordFromWriteBatch input sl in
          if negb (ok s) then (s, idx)
          else match checksum_tag (sl_tag sl) with
               | None => (Corruption ("unknown WriteBatch tag: " ++ pretty (sl_tag sl))%string, idx)
               | Some None => VerifyChecksum_loop fuel' input sl (e :: es') idx
               | Some (Some tag) =>
                   let s := GetStatus (StripKVO 64 Hash64 (StripC 64 Hash64 e (sl_cf sl))
                                         (sl_key sl) (sl_value sl) tag) in
                   if negb (ok s) then (s, idx + 1)
                   else VerifyChecksum_loop fuel' input sl es' (idx + 1)
               end
      end
  end.

Definition VerifyChecksum (b : WriteBatch) : Status :=
  match prot_info_ b with
  | None => OK
  | Some entries =>
      let input := sdrop kHeader (rep_ b) in
      let (s, prot_info_idx) := VerifyChecksum_loop (length input) input no_slots entries 0 in
      if negb (ok s) then s
      else if negb (prot_info_idx =? Count b) then Corruption "WriteBatch has wrong count" else OK
  end.

End Protection.

(** ** SetContents and Append *)

Definition SetContents (b : WriteBatch) (contents : bytes) : Status * WriteBatch :=
  (OK, upd_flags (upd_rep b contents) DEFERRED).

Definition Append (dst src : WriteBatch) (wal_only : bool) : Status * WriteBatch :=
  let inconsistent b := match prot_info_ b with
                        | Some es => negb (slen es =? Count b) | None => false end in
  if inconsistent src || inconsistent dst
  then (Corruption "Write batch has inconsistent count and number of checksums", dst)
  else
    let batch_end := wal_term_point_ src in
    let '(src_len, src_count, src_flags) :=
      if wal_only && negb (is_cleared batch_end)
      then (sp_size batch_end - kHeader, sp_count batch_end, sp_content_flags batch_end)
      else (slen (rep_ src) - kHeader, Count src, content_flags_ src) in
    let dst := upd_prot dst
      (match prot_info_ src with
       | Some es => Some (default [] (prot_info_ dst) ++ stake src_count es)
       | None => None
       end) in
    let dst := SetCount dst (u32 (Count dst + src_count)) in
    let dst := upd_rep dst (rep_ dst ++ stake src_len (sdrop kHeader (rep_ src))) in
    (OK, upd_flags dst (Z.lor (content_flags_ dst) src_flags)).

Definition AppendedByteSize (leftByteSize rightByteSize : Z) : Z :=
  if (leftByteSize =? 0) || (rightByteSize =? 0) then leftByteSize + rightByteSize
  else leftByteSize + rightByteSize - kHeader.

(** ** Lemmas: reading one record *)

(** The slots after a record was read. *)
Definition tag_for (cf tag cf_tag : Z) : Z := if cf =? 0 then tag else cf_tag.

Definition slots_of (r : Rec) (s : Slots) : Slots :=
  let kv t ct cf k v := set_value (slot_key (set_cf (set_tag s (tag_for cf t ct)) cf) k) v in
  let k1 t ct cf k := slot_key (set_cf (set_tag s (tag_for cf t ct)) cf) k in
  match r with
  | RPut cf k v => kv kTypeValue kTypeColumnFamilyValue cf k v
  | RDelete cf k => k1 kTypeDeletion kTypeColumnFamilyDeletion cf k
  | RSingleDelete cf k => k1 kTypeSingleDeletion kTypeColumnFamilySingleDeletion cf k
  | RDeleteRange cf k v => kv kTypeRangeDeletion kTypeColumnFamilyRangeDeletion cf k v
  | RMerge cf k v => kv kTypeMerge kTypeColumnFamilyMerge cf k v
  | RBlobIndex cf k v => kv kTypeBlobIndex kTypeColumnFamilyBlobIndex cf k v
  | RPutEntity cf k v => kv kTypeWideColumnEntity kTypeColumnFamilyWideColumnEntity cf k v
  | RLogData blob => set_blob (set_tag s kTypeLogData) blob
  | RNoop => set_tag s kTypeNoop
  | RBeginPrepare => set_tag s kTypeBeginPrepareXID
  | RBeginPersistedPrepare => set_tag s kTypeBeginPersistedPrepareXID
  | RBeginUnprepare => set_tag s kTypeBeginUnprepareXID
  | REndPrepare xid => set_xid (set_tag s kTypeEndPrepareXID) xid
  | RCommit xid => set_xid (set_tag s kTypeCommitXID) xid
  | RCommitWithTimestamp ts xid => set_xid (slot_key (set_tag s kTypeCommitXIDAndTimestamp) ts) xid
  | RRollback xid => set_xid (set_tag s kTypeRollbackXID) xid
  end.

Lemma rd_slice_ok set err k v rest s : fits32 v ->
  rd_slice set err k (lps v ++ rest) s = k rest (set s v).
Proof. intros Hv. unfold rd_slice, lps. by rewrite GetLengthPrefixedSlice_Put. Qed.

Lemma rd_kv_ok err k v rest s : fits32 k -> fits32 v ->
  rd_kv err (lps k ++ lps v ++ rest) s = (OK, set_value (slot_key s k) v, rest).
Proof. intros Hk Hv. unfold rd_kv. by rewrite !rd_slice_ok. Qed.

Lemma rd_k_ok err k rest s : fits32 k -> rd_k err (lps k ++ rest) s = (OK, slot_key s k, rest).
Proof. intros Hk. unfold rd_k. by rewrite rd_slice_ok. Qed.

Lemma rd_cf_ok err k cf rest s : is_u32 cf -> rd_cf err k (EncodeVarint32 cf ++ rest) s = k rest (set_cf s cf).
Proof. intros Hc. unfold rd_cf. by rewrite GetVarint32_Encode. Qed.

(** The tag selects its case. *)
Ltac read_tag :=
  cbn [app ReadRecordFromWriteBatch];
  match goal with
  | |- context [ub (to_byte ?t)] => change (ub (to_byte t)) with t
  end;
  match goal with
  | |- context [ReadRecord_switch ?t] =>
      let r := eval cbv [ReadRecord_switch t Z.eqb Pos.eqb orb
        kTypeColumnFamilyValue kTypeValue kTypeColumnFamilyDeletion kTypeColumnFamilySingleDeletion
        kTypeDeletion kTypeSingleDeletion kTypeColumnFamilyRangeDeletion kTypeRangeDeletion
        kTypeColumnFamilyMerge kTypeMerge kTypeColumnFamilyBlobIndex kTypeBlobIndex kTypeLogData kTypeNoop
        kTypeBeginPrepareXID kTypeBeginPersistedPrepareXID kTypeBeginUnprepareXID kTypeEndPrepareXID
        kTypeCommitXIDAndTimestamp kTypeCommitXID kTypeRollbackXID kTypeColumnFamilyWideColumnEntity
        kTypeWideColumnEntity] in (ReadRecord_switch t) in
      change (ReadRecord_switch t) with r
  end.

Lemma ReadRecord_encode r rest s : rec_fits r ->
  ReadRecordFromWriteBatch (encode_rec r ++ rest) s = (OK, slots_of r s, rest).
Proof.
  intros Hf. destruct r; cbn [encode_rec slots_of rec_fits] in *; unfold tag_bytes, tag_for;
  try match goal with |- context [?cf =? 0] => destruct (Z.eqb_spec cf 0) as [->|] end;
  rewrite <- ?app_assoc; read_tag;
  repeat match goal with H : _ /\ _ |- _ => destruct H end;
  rewrite <- ?app_assoc, ?rd_cf_ok, ?rd_kv_ok, ?rd_k_ok, ?rd_slice_ok by done; reflexivity.
Qed.

(** ** Lemmas: every reader consumes *)

Definition shrinks (rd : Reader) : Prop :=
  forall input s s' rest, rd input s = (OK, s', rest) -> slen rest <= slen input.

Lemma shrinks_done : shrinks rd_done.
Proof. intros input s s' rest. unfold rd_done. intros [= _ <-]. lia. Qed.

Lemma shrinks_cf err k : shrinks k -> shrinks (rd_cf err k).
Proof.
  intros Hk input s s' rest. unfold rd_cf.
  destruct (GetVarint32 input) as [[cf i]|] eqn:E; [|done]. intros H. apply Hk in H.
  apply GetVarint32_safe in E as (_ & p & -> & _). rewrite slen_app. slia.
Qed.

Lemma shrinks_slice set err k : shrinks k -> shrinks (rd_slice set err k).
Proof.
  intros Hk input s s' rest. unfold rd_slice.
  destruct (GetLengthPrefixedSlice input) as [[v i]|] eqn:E; [|done]. intros H. apply Hk in H.
  apply GetLengthPrefixedSlice_safe in E as (_ & p & -> & _). rewrite !slen_app. slia.
Qed.

#[local] Hint Resolve shrinks_done shrinks_cf shrinks_slice : core.

Lemma shrinks_switch tag : shrinks (ReadRecord_switch tag).
Proof.
  unfold ReadRecord_switch, rd_kv, rd_k. repeat case_match; auto. intros input s s' rest. done.
Qed.

Lemma ReadRecord_consumes input s s' rest :
  ReadRecordFromWriteBatch input s = (OK, s', rest) -> slen rest < slen input.
Proof.
  destruct input as [|t input]; [done|]. cbn [ReadRecordFromWriteBatch]. intros H.
  apply shrinks_switch in H. rewrite slen_cons. lia.
Qed.

(** ** Lemmas: Iterate terminates *)

Section Termination.

Context {S : Type} (h : Handler S).

(** What an iteration decreases: the input, or the right to retry. *)
Definition measure (input : bytes) (s : Status) (last_was_try_again : bool) : Z :=
  2 * slen input + (if IsTryAgain s && negb last_was_try_again then 1 else 0).

Lemma Iterate_loop_total fuel : forall input sl s last e found hs,
  measure input s last + 1 < Z.of_nat fuel ->
  exists r, Iterate_loop h fuel input sl s last e found hs = Some r.
Proof.
  unfold measure. induction fuel as [|fuel IH]; intros input sl s last e found hs Hm.
  { pose proof (slen_nonneg input). repeat case_match; lia. }
  cbn [Iterate_loop]. destruct (_ || IsTryAgain s) eqn:Hc; cbn [negb]; [|by eexists].
  destruct (h_Continue h hs) as [[|] hs1]; cbn [negb]; [|by eexists]. destruct (IsTryAgain s) eqn:Hs; cbn [negb].
  - destruct last; [by eexists|]. cbn [ok negb].
    destruct (Iterate_switch h sl e found hs1) as [[s' [[e' f'] hs']]|]; [|by eexists].
    apply IH. cbn in *. rewrite andb_false_r. lia.
  - destruct (ReadRecordFromWriteBatch input sl) as [[s1 sl1] input1] eqn:E.
    destruct (ok s1) eqn:Hs1; cbn [negb]; [|by eexists]. destruct s1; try done.
    apply ReadRecord_consumes in E.
    destruct (Iterate_switch h sl1 e found hs1) as [[s' [[e' f'] hs']]|]; [|by eexists].
    apply IH. cbn in *. destruct (IsTryAgain s'); cbn; lia.
Qed.

Lemma Iterate_total b hs : exists s hs', Iterate h b hs = Some (s, hs').
Proof.
  unfold Iterate, WBI_Iterate. repeat (case_match; try (by do 2 eexists)).
  match goal with H : Iterate_loop _ (Iterate_fuel ?i) _ _ _ _ _ _ _ = None |- _ =>
    destruct (Iterate_loop_total (Iterate_fuel i) i no_slots OK false true 0 hs) as [r Hr]; [|congruence] end.
  unfold measure, Iterate_fuel, slen. cbn [IsTryAgain andb]. lia.
Qed.

End Termination.

(** ** Lemmas: Iterate replays *)

Section Replay.

Context {S : Type} (h : Handler S).

(** The call a record makes, what becomes of its status, and of [empty_batch]. *)
Definition rec_call (r : Rec) (empty : bool) : Call :=
  match r with
  | RPut cf k v => CPutCF cf k v
  | RDelete cf k => CDeleteCF cf k
  | RSingleDelete cf k => CSingleDeleteCF cf k
  | RDeleteRange cf k e => CDeleteRangeCF cf k e
  | RMerge cf k v => CMergeCF cf k v
  | RBlobIndex cf k v => CPutBlobIndexCF cf k v
  | RPutEntity cf k e => CPutEntityCF cf k e
  | RLogData blob => CLogData blob
  | RNoop => CMarkNoop empty
  | RBeginPrepare | RBeginPersistedPrepare => CMarkBeginPrepare false
  | RBeginUnprepare => CMarkBeginPrepare true
  | REndPrepare xid => CMarkEndPrepare xid
  | RCommit xid => CMarkCommit xid
  | RCommitWithTimestamp ts xid => CMarkCommitWithTimestamp xid ts
  | RRollback xid => CMarkRollback xid
  end.

Definition rec_status (r : Rec) (s : Status) : Status :=
  match r with
  | RLogData _ => OK
  | RBeginPrepare => begin_policy h kTypeBeginPrepareXID s
  | RBeginPersistedPrepare => begin_policy h kTypeBeginPersistedPrepareXID s
  | RBeginUnprepare => begin_policy h kTypeBeginUnprepareXID s
  | _ => s
  end.

Definition rec_empty (r : Rec) (empty : bool) : bool :=
  match r with
  | RBlobIndex _ _ _ => empty
  | RNoop | REndPrepare _ | RCommit _ | RCommitWithTimestamp _ _ | RRollback _ => true
  | _ => false
  end.

(** [empty_batch] after a call that failed. *)
Definition rec_failed (r : Rec) (empty : bool) : bool :=
  match r with
  | RBeginPrepare | RBeginPersistedPrepare | RBeginUnprepare => false
  | RNoop | REndPrepare _ | RCommit _ | RRollback _ => true
  | _ => empty
  end.

(** The handler is called with a record. *)
Definition attempt (r : Rec) (empty : bool) (hs : S) : Status * S :=
  let (s, hs) := h_call h (rec_call r empty) hs in (rec_status r s, hs).

(** The specification of a whole iteration: the calls of the records in order,
    before each of which the handler is asked whether to go on. A record for
    which it asks to try again is given to it a second time; asking for that
    again is an error, as is any other failure. The result says whether the
    records were gone through without being stopped by the handler. *)
Fixpoint iteration (rs : list Rec) (empty : bool) (hs : S) : Status * bool * S :=
  match rs with
  | [] => (OK, true, hs)
  | r :: rs' =>
      let (go_on, hs) := h_Continue h hs in
      if negb go_on then (OK, false, hs)
      else
        let (s, hs) := attempt r empty hs in
        if ok s then iteration rs' (rec_empty r empty) hs
        else if negb (IsTryAgain s) then (s, true, hs)
        else
          let (go_on, hs) := h_Continue h hs in
          if negb go_on then (TryAgain, false, hs)
          else
            let empty := rec_failed r empty in
            let (s, hs) := attempt r empty hs in
            if ok s then iteration rs' (rec_empty r empty) hs
            else if negb (IsTryAgain s) then (s, true, hs)
            else
              let (go_on, hs) := h_Continue h hs in
              if negb go_on then (TryAgain, false, hs)
              else (Corruption "two consecutive TryAgain in WriteBatch handler; this is either a software bug or data corruption.", true, hs)
  end.

(** The calls of the records in order, up to the first that fails. *)
Fixpoint replay (rs : list Rec) (empty : bool) (hs : S) : Status * S :=
  match rs with
  | [] => (OK, hs)
  | r :: rs' =>
      let (s, hs) := attempt r empty hs in
      if ok s then replay rs' (rec_empty r empty) hs else (s, hs)
  end.

(** A handler that neither stops the iteration nor asks for a retry. *)
Definition plain : Prop :=
  (forall hs, h_Continue h hs = (true, hs)) /\
  (forall c hs, IsTryAgain (fst (h_call h c hs)) = false).

Lemma rec_status_plain r s : IsTryAgain s = false -> IsTryAgain (rec_status r s) = false.
Proof. intros Hs. destruct r; try done; cbn; unfold begin_policy; repeat case_match; done. Qed.

Lemma iteration_plain rs : plain -> forall e hs, iteration rs e hs = (let (s, hs') := replay rs e hs in (s, true, hs')).
Proof.
  intros [Hcont Hplain]. induction rs as [|r rs IH]; intros e hs; [done|]. cbn [iteration replay]. rewrite Hcont. cbn [negb].
  unfold attempt. specialize (Hplain (rec_call r e) hs). destruct (h_call h (rec_call r e) hs) as [s hs']. cbn [fst] in Hplain.
  rewrite (rec_status_plain r s Hplain). destruct (ok (rec_status r s)); [apply IH|done].
Qed.

(** The switch on the slots of a record makes its call. *)
Lemma Iterate_switch_rec r sl e found hs :
  Iterate_switch h (slots_of r sl) e found hs =
    (let (s, hs') := attempt r e hs in
     Some (s, (if ok s then rec_empty r e else rec_failed r e,
               if ok s then match entry_of r with Some _ => u32 (found + 1) | None => found end else found, hs'))).
Proof.
  unfold attempt.
  destruct r; cbn [slots_of rec_call rec_status rec_empty rec_failed entry_of]; unfold tag_for;
  try match goal with |- context [?cf =? 0] => destruct (cf =? 0) end;
  unfold Iterate_switch, data_call, mark_call; cbn -[u32 begin_policy];
  match goal with |- context [h_call h ?c hs] => destruct (h_call h c hs) as [s hs'] end; cbn -[u32 begin_policy];
  repeat case_match; done.
Qed.

(** How a loop that does what [res] says ends. *)
Definition ends_as (res : Status * bool * S) (count : Z) (r : option LoopEnd) : Prop :=
  exists e, r = Some e /\
  match e with
  | Returned s hs => s = res.1.1 /\ hs = res.2 /\ ok s = false
  | Exited s found go_on hs => s = res.1.1 /\ hs = res.2 /\
      (ok s = true -> go_on = res.1.2 /\ (go_on = true -> found = count))
  end.

Lemma ends_exit s found count go_on hs : (ok s = true -> go_on = true -> found = count) ->
  ends_as (s, go_on, hs) count (Some (Exited s found go_on hs)).
Proof. intros H. eexists. split; [done|]. split; [done|]. split; [done|]. intros Hs. split; [done|]. by apply H. Qed.

(** A loop that has a status other than OK and [TryAgain] ends. *)
Lemma Iterate_loop_failed fuel input sl s last e found count hs : ok s = false -> IsTryAgain s = false ->
  ends_as (s, true, hs) count (Iterate_loop h (Datatypes.S fuel) input sl s last e found hs).
Proof. intros Hs Ht. cbn [Iterate_loop]. rewrite Hs, Ht. cbn [andb orb negb]. apply ends_exit. congruence. Qed.

(** A retry is forgotten with the next record. *)
Lemma Iterate_loop_fresh fuel input sl e found hs :
  Iterate_loop h fuel input sl OK true e found hs = Iterate_loop h fuel input sl OK false e found hs.
Proof. by destruct fuel. Qed.

(** Once an entry was counted, the rest counts on. *)
Lemma count_step r rs found : 0 <= found -> found + num_entries (r :: rs) < 2 ^ 32 ->
  exists k, match entry_of r with Some _ => u32 (found + 1) | None => found end = found + k /\ 0 <= k <= 1 /\
    num_entries (r :: rs) = k + num_entries rs.
Proof.
  intros H0. change (r :: rs) with ([r] ++ rs). rewrite num_entries_app, num_entries_1. pose proof (num_entries_nonneg rs). intros Hn.
  exists (match entry_of r with Some _ => 1 | None => 0 end). destruct (entry_of r); rewrite ?u32_id by (unfold is_u32; lia); lia.
Qed.

(** The loop on the encodings of [rs]. *)
Lemma Iterate_loop_iteration rs : forall fuel sl e found hs,
  (2 * length (encode_recs rs) + 1 < fuel)%nat -> Forall rec_fits rs ->
  0 <= found -> found + num_entries rs < 2 ^ 32 ->
  ends_as (iteration rs e hs) (found + num_entries rs)
    (Iterate_loop h fuel (encode_recs rs) sl OK false e found hs).
Proof.
  induction rs as [|r rs IH]; intros fuel sl e found hs Hf Hfit H0 Hn.
  { destruct fuel as [|fuel]; [cbn in Hf; lia|]. apply ends_exit. intros _ _. change (num_entries []) with 0. lia. }
  inversion_clear Hfit as [|? ? Hr Hrs]. change (encode_recs (r :: rs)) with (encode_rec r ++ encode_recs rs) in *.
  pose proof (encode_rec_nonempty r) as Hne. destruct (count_step r rs found H0 Hn) as (k & Hk & Hk01 & Hcount).
  assert (Hlen : (2 * length (encode_recs rs) + 3 < fuel)%nat)
    by (rewrite length_app in Hf; unfold slen in Hne; lia).
  destruct fuel as [|fuel]; [lia|]. cbn [iteration Iterate_loop ok].
  replace (slen (encode_rec r ++ encode_recs rs) =? 0) with false
    by (symmetry; apply Z.eqb_neq; rewrite slen_app; slia).
  cbn [andb orb negb IsTryAgain]. destruct (h_Continue h hs) as [[|] hs1]; cbn [negb]; [|by apply ends_exit].
  rewrite ReadRecord_encode by done. cbn [negb ok]. rewrite Iterate_switch_rec.
  destruct (attempt r e hs1) as [s hs2] eqn:E1. destruct (ok s) eqn:Es.
  { destruct s; try done. rewrite Hk, Hcount, Z.add_assoc. apply IH; [lia|done|lia|lia]. }
  destruct fuel as [|fuel]; [lia|]. destruct (IsTryAgain s) eqn:Et; cbn [negb]; [|by apply Iterate_loop_failed].
  destruct s; try done. cbn [Iterate_loop ok IsTryAgain andb orb negb].
  destruct (h_Continue h hs2) as [[|] hs3]; cbn [negb]; [|by apply ends_exit]. cbn [ok negb]. rewrite Iterate_switch_rec.
  destruct (attempt r (rec_failed r e) hs3) as [s hs4] eqn:E2. destruct (ok s) eqn:Es2.
  { destruct s; try done. rewrite Hk, Hcount, Z.add_assoc. rewrite Iterate_loop_fresh. apply IH; [lia|done|lia|lia]. }
  destruct fuel as [|fuel]; [lia|]. destruct (IsTryAgain s) eqn:Et2; cbn [negb]; [|by apply Iterate_loop_failed].
  destruct s; try done. cbn [Iterate_loop ok IsTryAgain andb orb negb].
  destruct (h_Continue h hs4) as [[|] hs5]; cbn [negb]; [|by apply ends_exit]. eexists. split; [done|]. done.
Qed.

(** The count in the header may be any number [n]. *)
Lemma Iterate_iteration hdr b n rs hs : slen hdr = 8 -> is_u32 n ->
  rep_ b = hdr ++ EncodeFixed32 n ++ encode_recs rs -> Forall rec_fits rs -> num_entries rs < 2 ^ 32 ->
  Iterate h b hs =
  let '(s, whole, hs') := iteration rs true hs in
  Some (if ok s && whole && negb (num_entries rs =? n) then Corruption "WriteBatch has wrong count" else s, hs').
Proof.
  intros Hh Hn32 Hrep Hfit Hn. unfold Iterate, WBI_Iterate.
  assert (Hlen : slen (rep_ b) = 12 + slen (encode_recs rs))
    by (rewrite Hrep, !slen_app, slen_EncodeFixed32; lia).
  assert (Hbody : sdrop kHeader (rep_ b) = encode_recs rs).
  { rewrite Hrep, app_assoc. apply sdrop_app. rewrite slen_app, slen_EncodeFixed32. unfold kHeader. lia. }
  pose proof (num_entries_nonneg rs) as H0. slen_facts. unfold kHeader in *.
  destruct (Z.ltb_spec (slen (rep_ b)) 12); [lia|]. cbn [orb].
  rewrite Z.ltb_irrefl. cbn [orb]. rewrite Hbody, stake_all, Z.eqb_refl by lia. change (12 =? 12) with true. cbn [andb].
  destruct (Iterate_loop_iteration rs (Iterate_fuel (encode_recs rs)) no_slots true 0 hs)
    as (r & -> & Hr); [unfold Iterate_fuel; lia|done..|].
  destruct (iteration rs true hs) as [[s whole] hs']. cbn [fst snd] in Hr. destruct r as [s1 hs1|s1 found go_on hs1].
  - destruct Hr as (-> & -> & Hs). by rewrite Hs.
  - destruct Hr as (-> & -> & Hs). destruct (ok s) eqn:Es; [|done]. destruct (Hs eq_refl) as [-> Hf].
    cbn [negb andb]. rewrite (Count_at b hdr n (encode_recs rs)) by done. destruct whole; cbn [andb]; [|by destruct s].
    rewrite (Hf eq_refl), Z.add_0_l, Z.eqb_refl. cbn [andb]. by destruct s.
Qed.

Lemma Iterate_replay hdr b n rs hs : plain -> slen hdr = 8 -> is_u32 n ->
  rep_ b = hdr ++ EncodeFixed32 n ++ encode_recs rs -> Forall rec_fits rs -> num_entries rs < 2 ^ 32 ->
  Iterate h b hs =
  let (s, hs') := replay rs true hs in
  Some (if ok s && negb (num_entries rs =? n) then Corruption "WriteBatch has wrong count" else s, hs').
Proof.
  intros Hp Hh Hn Hrep Hfit Hlt. rewrite (Iterate_iteration hdr b n rs hs) by done. rewrite iteration_plain by done.
  destruct (replay rs true hs) as [s hs']. by rewrite andb_true_r.
Qed.

Lemma Iterate_represents Hash64 hdr b rs hs : plain -> represents Hash64 hdr b rs ->
  Iterate h b hs = Some (replay rs true hs).
Proof.
  intros Hp ((Hh & Hrep) & Hfit & Hn & _). pose proof (num_entries_nonneg rs).
  rewrite (Iterate_replay hdr b (num_entries rs) rs hs) by (done || unfold is_u32; lia).
  destruct (replay rs true hs) as [s hs']. rewrite Z.eqb_refl. cbn [negb]. by rewrite andb_false_r.
Qed.

End Replay.

(** ** Lemmas: the handlers of the code *)

(** A handler that records what it is called with. *)
Definition recorder : Handler (list Call) := {|
  h_call c l := (OK, l ++ [c]);
  h_Continue l := (true, l);
  h_WriteAfterCommit := kUnknown;
  h_WriteBeforePrepare := kUnknown
|}.

Lemma recorder_plain : plain recorder.
Proof. done. Qed.

(** The calls of a list of records: one each, in order. *)
Fixpoint calls_of (rs : list Rec) (empty : bool) : list Call :=
  match rs with [] => [] | r :: rs' => rec_call r empty :: calls_of rs' (rec_empty r empty) end.

Lemma replay_recorder rs e l : replay recorder rs e l = (OK, l ++ calls_of rs e).
Proof.
  revert e l. induction rs as [|r rs IH]; intros e l; cbn [replay calls_of]; [by rewrite app_nil_r|].
  unfold attempt. cbn [h_call recorder]. replace (ok (rec_status recorder r OK)) with true by (by destruct r).
  rewrite IH, <- app_assoc. done.
Qed.

Lemma classifier_plain : plain BatchContentClassifier.
Proof. split; [done|]. intros c hs. by destruct c. Qed.

(** The records before the first no-op. *)
Fixpoint before_noop (rs : list Rec) : list Rec :=
  match rs with [] => [] | RNoop :: _ => [] | r :: rs' => r :: before_noop rs' end.

Lemma flags_of_cons r rs : flags_of (r :: rs) = Z.lor (rec_flags r) (flags_of rs).
Proof. change (r :: rs) with ([r] ++ rs). by rewrite flags_of_app, flags_of_1. Qed.

Lemma replay_classifier rs e f :
  snd (replay BatchContentClassifier rs e f) = Z.lor f (flags_of (before_noop rs)).
Proof.
  revert e f. induction rs as [|r rs IH]; intros e f; [by rewrite Z.lor_0_r|].
  destruct r; cbn -[Z.lor flags_of]; rewrite ?IH, ?flags_of_cons; cbn [rec_flags];
  rewrite ?Z.lor_assoc, ?Z.lor_0_r; try done.
Qed.

Lemma before_noop_all rs : RNoop ∉ rs -> before_noop rs = rs.
Proof.
  induction rs as [|r rs IH]; [done|]. intros Hn. apply not_elem_of_cons in Hn as [Hr Hrs].
  destruct r; cbn; try (by rewrite IH). done.
Qed.

Section ProtectionLemmas.

Context (Hash64 : bytes -> Z -> Z).

Lemma updater_plain : plain (ProtectionInfoUpdater Hash64).
Proof. split; [done|]. intros c hs. by destruct c. Qed.

Lemma replay_updater rs e es : replay (ProtectionInfoUpdater Hash64) rs e es = (OK, es ++ codes Hash64 rs).
Proof.
  revert e es. induction rs as [|r rs IH]; intros e es; cbn [replay].
  { unfold codes. cbn. by rewrite app_nil_r. }
  change (r :: rs) with ([r] ++ rs). rewrite codes_app.
  destruct r; cbn; rewrite IH; unfold codes at 2; cbn; by rewrite ?app_nil_r, <- ?app_assoc.
Qed.

(** The slots of a record, read into cleared slots, are what it was protected
    under. *)
Lemma checksum_slots r sl :
  let sl := slots_of r (set_cf (set_value (slot_key sl []) []) 0) in
  checksum_tag (sl_tag sl) = Some (match entry_of r with Some (_, _, o, _) => Some o | None => None end) /\
  match entry_of r with Some (k, v, _, c) => sl_cf sl = c /\ sl_key sl = k /\ sl_value sl = v | None => True end.
Proof.
  cbv zeta. destruct r; cbn [slots_of entry_of]; unfold tag_for;
  try match goal with |- context [?cf =? 0] => destruct (cf =? 0) end; repeat split.
Qed.

Lemma VerifyChecksum_loop_ok rs : forall fuel sl idx,
  (length (encode_recs rs) <= fuel)%nat -> Forall rec_fits rs ->
  VerifyChecksum_loop Hash64 fuel (encode_recs rs) sl (codes Hash64 rs) idx = (OK, idx + num_entries rs).
Proof.
  induction rs as [|r rs IH]; intros fuel sl idx Hf Hfit.
  { change (num_entries []) with 0. rewrite Z.add_0_r. by destruct fuel. }
  inversion_clear Hfit as [|? ? Hr Hrs]. pose proof (encode_rec_nonempty r) as Hne.
  change (encode_recs (r :: rs)) with (encode_rec r ++ encode_recs rs) in *.
  rewrite length_app in Hf. unfold slen in Hne. destruct fuel as [|fuel]; [lia|].
  change (r :: rs) with ([r] ++ rs). rewrite num_entries_app, num_entries_1, codes_app.
  destruct (encode_rec r ++ encode_recs rs) as [|x input] eqn:Ein.
  { apply app_eq_nil in Ein as [Ein _]. rewrite Ein in Hne. cbn in Hne. lia. }
  cbn [VerifyChecksum_loop]. rewrite <- Ein, ReadRecord_encode by done. cbn [ok negb].
  destruct (checksum_slots r sl) as [-> Hsl]. unfold codes at 1. cbn [omap list_omap].
  destruct (entry_of r) as [[[[k v] o] c]|]; cbn [map app code_of].
  - destruct Hsl as (-> & -> & ->). rewrite strip_protect_ok. cbn [ok negb].
    rewrite IH by (done || lia). f_equal. lia.
  - destruct (codes Hash64 rs) as [|e es] eqn:Ec.
    + pose proof (slen_codes Hash64 rs) as Hl. rewrite Ec in Hl. change (slen []) with 0 in Hl. f_equal. lia.
    + rewrite IH by (done || lia). done.
Qed.

End ProtectionLemmas.

(** ** Lemmas: Append *)

(** The save point at which a batch holds the records [p]. *)
Definition point_at (p : list Rec) : SavePoint :=
  {| sp_size := 12 + slen (encode_recs p); sp_count := num_entries p; sp_content_flags := flags_of p |}.

Lemma point_at_not_cleared p : is_cleared (point_at p) = false.
Proof.
  unfold is_cleared, point_at. cbn [sp_size sp_count sp_content_flags]. apply Z.eqb_neq. intros H.
  apply Z.lor_eq_0_iff in H as [H _]. apply Z.lor_eq_0_iff in H as [H _]. slia.
Qed.

Lemma represents_body Hash64 hdr b rs : represents Hash64 hdr b rs -> sdrop kHeader (rep_ b) = encode_recs rs.
Proof.
  intros ((Hh & Hrep) & _). rewrite Hrep, app_assoc. apply sdrop_app.
  rewrite slen_app, slen_EncodeFixed32. unfold kHeader. lia.
Qed.

Lemma represents_count Hash64 hdr b rs : represents Hash64 hdr b rs -> Count b = num_entries rs.
Proof.
  intros ((Hh & Hrep) & _ & Hn & _). pose proof (num_entries_nonneg rs).
  eapply Count_at; [exact Hh| |exact Hrep]. unfold is_u32. lia.
Qed.

Lemma represents_consistent Hash64 hdr b rs : represents Hash64 hdr b rs ->
  match prot_info_ b with Some es => negb (slen es =? Count b) | None => false end = false.
Proof.
  intros Hr. rewrite (represents_count _ _ _ _ Hr). destruct Hr as (_ & _ & _ & Hp & _).
  destruct (prot_info_ b); [|done]. subst. by rewrite slen_codes, Z.eqb_refl.
Qed.

(** What [Append] does with the length, count and flags it has chosen. *)
Lemma append_tail Hash64 hdr dst src hdr' rs p q :
  represents Hash64 hdr dst rs -> represents Hash64 hdr' src (p ++ q) ->
  num_entries rs + num_entries p < 2 ^ 32 ->
  num_entries rs = 0 \/ (prot_info_ dst = None <-> prot_info_ src = None) ->
  let dst := upd_prot dst (match prot_info_ src with
                           | Some es => Some (default [] (prot_info_ dst) ++ stake (num_entries p) es)
                           | None => None end) in
  let dst := SetCount dst (u32 (Count dst + num_entries p)) in
  let dst := upd_rep dst (rep_ dst ++ stake (slen (encode_recs p)) (sdrop kHeader (rep_ src))) in
  represents Hash64 hdr (upd_flags dst (Z.lor (content_flags_ dst) (flags_of p))) (rs ++ p).
Proof.
  intros Hd Hs Hn Hprot. cbv zeta. pose proof (num_entries_nonneg rs). pose proof (num_entries_nonneg p).
  rewrite (represents_body _ _ _ _ Hs), encode_recs_app, stake_app by done.
  set (d1 := upd_prot dst _). change (Count d1) with (Count dst).
  rewrite (represents_count _ _ _ _ Hd), u32_id by (unfold is_u32; lia).
  destruct Hd as ((Hh & Hrep) & Hfd & Hnd & Hpd & Hfl). destruct Hs as (_ & Hfs & _ & Hps & _).
  apply Forall_app in Hfs as [Hfp _].
  split; [split; [done|]|split_and!].
  - cbn [rep_ upd_flags upd_rep]. rewrite (SetCount_at d1 hdr _ _ _ Hh Hrep).
    by rewrite num_entries_app, encode_recs_app, <- !app_assoc.
  - by apply Forall_app.
  - rewrite num_entries_app. lia.
  - cbn. rewrite codes_app. destruct (prot_info_ src) as [es|]; [|done]. subst es.
    rewrite codes_app, stake_app by apply slen_codes. f_equal.
    destruct (prot_info_ dst) as [ed|]; cbn; [done|].
    destruct Hprot as [Hz|Hz]; [|by discriminate (proj1 Hz eq_refl)].
    symmetry. apply slen_0_nil. by rewrite slen_codes.
  - cbn. by rewrite flags_of_app, Hfl.
Qed.

(** ** Properties *)

(** [C36] Iterating terminates: for every handler, also one that stops, fails
    or asks for retries at will, and for every byte string as the batch,
    malformed ones included, [Iterate] returns a status. *)
Theorem iterate_terminates (S : Type) (h : Handler S) (b : WriteBatch) (hs : S) :
  exists s hs', Iterate h b hs = Some (s, hs').
Proof. apply Iterate_total. Qed.

(** [C15] Iterating replays: for every handler, the iteration over a batch is the
    sequence of calls its records stand for, in order, each with the column
    family, key and value that were written. It ends early when the handler
    says so, or with the status of the first call that fails; a record for which
    the handler asks to try again is given to it once more. If it was not
    stopped, the header count is checked, and a wrong one is a corruption. A
    handler that accepts everything sees every record. *)
Theorem iterate_replays (S : Type) (h : Handler S) (hdr : bytes) (b : WriteBatch) (n : Z)
    (rs : list Rec) (hs : S) :
  slen hdr = 8 -> is_u32 n -> rep_ b = hdr ++ EncodeFixed32 n ++ encode_recs rs ->
  Forall rec_fits rs -> num_entries rs < 2 ^ 32 ->
  Iterate h b hs =
    (let '(s, whole, hs') := iteration h rs true hs in
     Some (if ok s && whole && negb (num_entries rs =? n)
           then Corruption "WriteBatch has wrong count" else s, hs')) /\
  (plain h -> iteration h rs true hs = let (s, hs') := replay h rs true hs in (s, true, hs')) /\
  (num_entries rs = n -> Iterate recorder b [] = Some (OK, calls_of rs true)).
Proof.
  intros Hh Hn Hrep Hfit Hlt. split; [|split].
  - by apply Iterate_iteration with (hdr := hdr).
  - intros Hp. by apply iteration_plain.
  - intros <-. rewrite (Iterate_replay recorder hdr b (num_entries rs) rs [] recorder_plain) by done.
    rewrite replay_recorder, Z.eqb_refl. done.
Qed.

(** A handler that asks to try again at its second call, and stops after four. *)
Definition fickle : Handler (list Call) := {|
  h_call c l := (if (length l =? 1)%nat then TryAgain else OK, l ++ [c]);
  h_Continue l := ((length l <? 4)%nat, l);
  h_WriteAfterCommit := kUnknown;
  h_WriteBeforePrepare := kUnknown
|}.

Lemma iterate_replays_witness :
  Iterate fickle (snd (run_ops toy_hash (WriteBatch_make 0 0 0)
      [OPut 7 [Byte.x61] [Byte.x62]; OInsertNoop; ODelete 0 [Byte.x63]; ODelete 0 [Byte.x64]])) [] =
  Some (OK, [CPutCF 7 [Byte.x61] [Byte.x62]; CMarkNoop false; CMarkNoop true; CDeleteCF 0 [Byte.x63]]).
Proof.
  etransitivity.
  - apply (iterate_replays _ fickle (repeat_byte 8 Byte.x00) _ 3
             [RPut 7 [Byte.x61] [Byte.x62]; RNoop; RDelete 0 [Byte.x63]; RDelete 0 [Byte.x64]] []).
    + reflexivity.
    + vm_compute. split; [discriminate|reflexivity].
    + vm_compute. reflexivity.
    + repeat apply Forall_cons_2; try apply Forall_nil_2; vm_compute; repeat split; (discriminate || reflexivity).
    + vm_compute. reflexivity.
  - vm_compute. reflexivity.
Defined.

(** The flags of a batch known only by its bytes are recomputed by the
    classifier: they are those collected while the batch was built when it
    has no no-op record, and in general those of the records before the first
    no-op, at which the classifier stops. *)
Theorem deferred_content_flags (Hash64 : bytes -> Z -> Z) (hdr : bytes) (b : WriteBatch) (rs : list Rec) :
  represents Hash64 hdr b rs ->
  let deferred := WriteBatch_of_rep (rep_ b) in
  fst (ComputeContentFlags deferred) = flags_of (before_noop rs) /\
  (RNoop ∉ rs -> fst (ComputeContentFlags deferred) = content_flags_ b).
Proof.
  intros Hr deferred.
  assert (H : fst (ComputeContentFlags deferred) = flags_of (before_noop rs)).
  { unfold ComputeContentFlags. change (negb (Z.land (content_flags_ deferred) DEFERRED =? 0)) with true.
    cbn [fst]. destruct Hr as ((Hh & Hrep) & Hfit & Hn & _). pose proof (num_entries_nonneg rs).
    rewrite (Iterate_replay BatchContentClassifier hdr deferred (num_entries rs) rs 0 classifier_plain)
      by (done || unfold is_u32; lia).
    pose proof (replay_classifier rs true 0) as Hc. destruct (replay _ rs true 0) as [s f]. cbn in *. done. }
  split; [done|]. intros Hno. rewrite H, before_noop_all by done. by destruct Hr as (_ & _ & _ & _ & ->).
Qed.

Lemma deferred_content_flags_witness :
  let b := snd (run_ops toy_hash (WriteBatch_make 0 0 0) [OInsertNoop; OPut 0 [Byte.x61] []]) in
  HasPut b = true /\ fst (ComputeContentFlags (WriteBatch_of_rep (rep_ b))) = 0.
Proof.
  split; [vm_compute; reflexivity|].
  refine (proj1 (deferred_content_flags toy_hash (repeat_byte 8 Byte.x00) _ [RNoop; RPut 0 [Byte.x61] []] _)).
  split; [split; vm_compute; reflexivity|]. split.
  - repeat apply Forall_cons_2; try apply Forall_nil_2; vm_compute; repeat split; (discriminate || reflexivity).
  - split; [vm_compute; reflexivity|]. split; [exact I|vm_compute; reflexivity].
Defined.

(** Integrity codes are consistent: computing them from the bytes of a
    batch gives the codes that would have been collected while it was built,
    whatever the hash, and a batch with such codes passes [VerifyChecksum]. *)
Theorem protection_info_consistent (Hash64 : bytes -> Z -> Z) (XXH3_64bits : bytes -> Z)
    (hdr : bytes) (b : WriteBatch) (rs : list Rec) (checksum : option Z) :
  represents Hash64 hdr b rs ->
  (prot_info_ b = None ->
     let (s, b') := UpdateProtectionInfo Hash64 XXH3_64bits b 8 checksum in
     prot_info_ b' = Some (codes Hash64 rs) /\ rep_ b' = rep_ b /\
     ok s = (match checksum with Some c => XXH3_64bits (rep_ b) =? c | None => true end)) /\
  VerifyChecksum Hash64 b = OK.
Proof.
  intros Hr. split.
  - intros Hp. unfold UpdateProtectionInfo. change (8 =? 0) with false. change (8 =? 8) with true. cbv iota.
    rewrite Hp, (Iterate_represents _ _ _ _ _ _ (updater_plain Hash64) Hr), replay_updater.
    destruct checksum as [c|]; [|done]. cbn. by destruct (XXH3_64bits (rep_ b) =? c).
  - unfold VerifyChecksum. rewrite (represents_body _ _ _ _ Hr), (represents_count _ _ _ _ Hr).
    destruct Hr as (_ & Hfit & _ & Hp & _). destruct (prot_info_ b) as [es|]; [|done]. subst es.
    rewrite VerifyChecksum_loop_ok by done. by rewrite Z.add_0_l, Z.eqb_refl.
Qed.

Lemma protection_info_consistent_witness :
  VerifyChecksum toy_hash (snd (run_ops toy_hash (WriteBatch_make 0 8 0)
     [OPut 7 [Byte.x61] [Byte.x62]; ODelete 0 [Byte.x63]])) = OK.
Proof.
  refine (proj2 (protection_info_consistent toy_hash (fun _ => 0) (repeat_byte 8 Byte.x00) _
            [RPut 7 [Byte.x61] [Byte.x62]; RDelete 0 [Byte.x63]] None _)).
  split; [split; vm_compute; reflexivity|]. split.
  - repeat apply Forall_cons_2; try apply Forall_nil_2; vm_compute; repeat split; (discriminate || reflexivity).
  - split; [vm_compute; reflexivity|]. split; vm_compute; reflexivity.
Defined.

(** Appending a batch appends its records, their flags and codes, and
    adds the counts; for the write-ahead log it appends the records up to the
    termination point, when one was marked; the byte size is the one
    announced. *)
Theorem append_concatenates (Hash64 : bytes -> Z -> Z) (hdr hdr' : bytes) (dst src : WriteBatch)
    (rs p q : list Rec) (wal_only : bool) :
  represents Hash64 hdr dst rs -> represents Hash64 hdr' src (p ++ q) ->
  num_entries rs + num_entries (p ++ q) < 2 ^ 32 ->
  num_entries rs = 0 \/ (prot_info_ dst = None <-> prot_info_ src = None) ->
  (if wal_only then wal_term_point_ src = point_at p \/ (wal_term_point_ src = SavePoint_clear /\ q = [])
   else q = []) ->
  let (s, dst') := Append dst src wal_only in
  s = OK /\ represents Hash64 hdr dst' (rs ++ p) /\
  (q = [] -> slen (rep_ dst') = AppendedByteSize (slen (rep_ dst)) (slen (rep_ src))).
Proof.
  intros Hd Hs Hn Hprot Hwal. rewrite num_entries_app in Hn. pose proof (num_entries_nonneg q).
  unfold Append. rewrite (represents_consistent _ _ _ _ Hd), (represents_consistent _ _ _ _ Hs). cbn [orb].
  pose proof (append_tail Hash64 hdr dst src hdr' rs p q Hd Hs ltac:(lia) Hprot) as Happ. cbv zeta in Happ.
  assert (Hlen : forall h b rs, represents Hash64 h b rs -> slen (rep_ b) = 12 + slen (encode_recs rs)).
  { intros h b l ((Hh & ->) & _). rewrite !slen_app, slen_EncodeFixed32. lia. }
  assert (Hchoice : (if wal_only && negb (is_cleared (wal_term_point_ src))
      then (sp_size (wal_term_point_ src) - kHeader, sp_count (wal_term_point_ src),
            sp_content_flags (wal_term_point_ src))
      else (slen (rep_ src) - kHeader, Count src, content_flags_ src)) =
    (slen (encode_recs p), num_entries p, flags_of p)).
  { assert (Hwhole : q = [] -> (slen (rep_ src) - kHeader, Count src, content_flags_ src) =
                               (slen (encode_recs p), num_entries p, flags_of p)).
    { intros ->. rewrite app_nil_r in Hs. rewrite (Hlen _ _ _ Hs), (represents_count _ _ _ _ Hs).
      destruct Hs as (_ & _ & _ & _ & ->). unfold kHeader. f_equal. f_equal. lia. }
    destruct wal_only; cbn [andb]; [|by apply Hwhole]. destruct Hwal as [->|[-> Hq]].
    - rewrite point_at_not_cleared. cbn [negb point_at sp_size sp_count sp_content_flags].
      unfold kHeader. f_equal. f_equal. lia.
    - by apply Hwhole. }
  rewrite Hchoice. split; [done|]. split; [exact Happ|]. intros ->.
  rewrite (Hlen _ _ _ Happ), (Hlen _ _ _ Hd), (Hlen _ _ _ Hs), app_nil_r, encode_recs_app, slen_app.
  unfold AppendedByteSize, kHeader. slen_facts. repeat zcase; cbn [orb]; lia.
Qed.

Lemma append_concatenates_witness :
  let b1 := snd (run_ops toy_hash (WriteBatch_make 0 0 0) [OPut 7 [Byte.x61] [Byte.x62]]) in
  let b2 := snd (run_ops toy_hash (MarkWalTerminationPoint (WriteBatch_make 0 0 0)) [ODelete 0 [Byte.x63]]) in
  represents toy_hash (repeat_byte 8 Byte.x00) (snd (Append b1 b2 true)) [RPut 7 [Byte.x61] [Byte.x62]].
Proof.
  cbv zeta.
  refine (proj1 (proj2 (append_concatenates toy_hash (repeat_byte 8 Byte.x00) (repeat_byte 8 Byte.x00)
    (snd (run_ops toy_hash (WriteBatch_make 0 0 0) [OPut 7 [Byte.x61] [Byte.x62]]))
    (snd (run_ops toy_hash (MarkWalTerminationPoint (WriteBatch_make 0 0 0)) [ODelete 0 [Byte.x63]]))
    [RPut 7 [Byte.x61] [Byte.x62]] [] [RDelete 0 [Byte.x63]] true _ _ _ _ _))).
  1-2: split; [split; vm_compute; reflexivity|]; split;
    [repeat apply Forall_cons_2; try apply Forall_nil_2; vm_compute; repeat split; (discriminate || reflexivity)|];
    (split; [vm_compute; reflexivity|]); split; [exact I|vm_compute; reflexivity].
  - vm_compute. reflexivity.
  - right. split; reflexivity.
  - left. vm_compute. reflexivity.
Defined.
