(* ===== verification/Crc32c.v ===== *)
(** * CRC-32C (util/crc32c.h, util/crc32c.cc)

    The checksum of log records and blocks: the portable, table-driven
    [ExtendImpl<DefaultCRC32>] (the hardware variants are instruction
    intrinsics), the masking of stored checksums, and [Crc32cCombine], which
    computes the checksum of a concatenation from the checksums of its parts by
    multiplication in the field of the CRC polynomial.

    The reference is a shift register that consumes one bit at a time. All
    operations are linear over exclusive or, so equalities between them are
    decided on the 32 one-bit words. *)

From S2P Require Import Prelude Coding.

(** ** The tables *)

Definition table0_ : list Z := [
    0x00000000; 0xf26b8303; 0xe13b70f7; 0x1350f3f4; 0xc79a971f; 0x35f1141c; 0x26a1e7e8; 0xd4ca64eb;
    0x8ad958cf; 0x78b2dbcc; 0x6be22838; 0x9989ab3b; 0x4d43cfd0; 0xbf284cd3; 0xac78bf27; 0x5e133c24;
    0x105ec76f; 0xe235446c; 0xf165b798; 0x030e349b; 0xd7c45070; 0x25afd373; 0x36ff2087; 0xc494a384;
    0x9a879fa0; 0x68ec1ca3; 0x7bbcef57; 0x89d76c54; 0x5d1d08bf; 0xaf768bbc; 0xbc267848; 0x4e4dfb4b;
    0x20bd8ede; 0xd2d60ddd; 0xc186fe29; 0x33ed7d2a; 0xe72719c1; 0x154c9ac2; 0x061c6936; 0xf477ea35;
    0xaa64d611; 0x580f5512; 0x4b5fa6e6; 0xb93425e5; 0x6dfe410e; 0x9f95c20d; 0x8cc531f9; 0x7eaeb2fa;
    0x30e349b1; 0xc288cab2; 0xd1d83946; 0x23b3ba45; 0xf779deae; 0x05125dad; 0x1642ae59; 0xe4292d5a;
    0xba3a117e; 0x4851927d; 0x5b016189; 0xa96ae28a; 0x7da08661; 0x8fcb0562; 0x9c9bf696; 0x6ef07595;
    0x417b1dbc; 0xb3109ebf; 0xa0406d4b; 0x522bee48; 0x86e18aa3; 0x748a09a0; 0x67dafa54; 0x95b17957;
    0xcba24573; 0x39c9c670; 0x2a993584; 0xd8f2b687; 0x0c38d26c; 0xfe53516f; 0xed03a29b; 0x1f682198;
    0x5125dad3; 0xa34e59d0; 0xb01eaa24; 0x42752927; 0x96bf4dcc; 0x64d4cecf; 0x77843d3b; 0x85efbe38;
    0xdbfc821c; 0x2997011f; 0x3ac7f2eb; 0xc8ac71e8; 0x1c661503; 0xee0d9600; 0xfd5d65f4; 0x0f36e6f7;
    0x61c69362; 0x93ad1061; 0x80fde395; 0x72966096; 0xa65c047d; 0x5437877e; 0x4767748a; 0xb50cf789;
    0xeb1fcbad; 0x197448ae; 0x0a24bb5a; 0xf84f3859; 0x2c855cb2; 0xdeeedfb1; 0xcdbe2c45; 0x3fd5af46;
    0x7198540d; 0x83f3d70e; 0x90a324fa; 0x62c8a7f9; 0xb602c312; 0x44694011; 0x5739b3e5; 0xa55230e6;
    0xfb410cc2; 0x092a8fc1; 0x1a7a7c35; 0xe811ff36; 0x3cdb9bdd; 0xceb018de; 0xdde0eb2a; 0x2f8b6829;
    0x82f63b78; 0x709db87b; 0x63cd4b8f; 0x91a6c88c; 0x456cac67; 0xb7072f64; 0xa457dc90; 0x563c5f93;
    0x082f63b7; 0xfa44e0b4; 0xe9141340; 0x1b7f9043; 0xcfb5f4a8; 0x3dde77ab; 0x2e8e845f; 0xdce5075c;
    0x92a8fc17; 0x60c37f14; 0x73938ce0; 0x81f80fe3; 0x55326b08; 0xa759e80b; 0xb4091bff; 0x466298fc;
    0x1871a4d8; 0xea1a27db; 0xf94ad42f; 0x0b21572c; 0xdfeb33c7; 0x2d80b0c4; 0x3ed04330; 0xccbbc033;
    0xa24bb5a6; 0x502036a5; 0x4370c551; 0xb11b4652; 0x65d122b9; 0x97baa1ba; 0x84ea524e; 0x7681d14d;
    0x2892ed69; 0xdaf96e6a; 0xc9a99d9e; 0x3bc21e9d; 0xef087a76; 0x1d63f975; 0x0e330a81; 0xfc588982;
    0xb21572c9; 0x407ef1ca; 0x532e023e; 0xa145813d; 0x758fe5d6; 0x87e466d5; 0x94b49521; 0x66df1622;
    0x38cc2a06; 0xcaa7a905; 0xd9f75af1; 0x2b9cd9f2; 0xff56bd19; 0x0d3d3e1a; 0x1e6dcdee; 0xec064eed;
    0xc38d26c4; 0x31e6a5c7; 0x22b65633; 0xd0ddd530; 0x0417b1db; 0xf67c32d8; 0xe52cc12c; 0x1747422f;
    0x49547e0b; 0xbb3ffd08; 0xa86f0efc; 0x5a048dff; 0x8ecee914; 0x7ca56a17; 0x6ff599e3; 0x9d9e1ae0;
    0xd3d3e1ab; 0x21b862a8; 0x32e8915c; 0xc083125f; 0x144976b4; 0xe622f5b7; 0xf5720643; 0x07198540;
    0x590ab964; 0xab613a67; 0xb831c993; 0x4a5a4a90; 0x9e902e7b; 0x6cfbad78; 0x7fab5e8c; 0x8dc0dd8f;
    0xe330a81a; 0x115b2b19; 0x020bd8ed; 0xf0605bee; 0x24aa3f05; 0xd6c1bc06; 0xc5914ff2; 0x37faccf1;
    0x69e9f0d5; 0x9b8273d6; 0x88d28022; 0x7ab90321; 0xae7367ca; 0x5c18e4c9; 0x4f48173d; 0xbd23943e;
    0xf36e6f75; 0x0105ec76; 0x12551f82; 0xe03e9c81; 0x34f4f86a; 0xc69f7b69; 0xd5cf889d; 0x27a40b9e;
    0x79b737ba; 0x8bdcb4b9; 0x988c474d; 0x6ae7c44e; 0xbe2da0a5; 0x4c4623a6; 0x5f16d052; 0xad7d5351].

Definition table1_ : list Z := [
    0x00000000; 0x13a29877; 0x274530ee; 0x34e7a899; 0x4e8a61dc; 0x5d28f9ab; 0x69cf5132; 0x7a6dc945;
    0x9d14c3b8; 0x8eb65bcf; 0xba51f356; 0xa9f36b21; 0xd39ea264; 0xc03c3a13; 0xf4db928a; 0xe7790afd;
    0x3fc5f181; 0x2c6769f6; 0x1880c16f; 0x0b225918; 0x714f905d; 0x62ed082a; 0x560aa0b3; 0x45a838c4;
    0xa2d13239; 0xb173aa4e; 0x859402d7; 0x96369aa0; 0xec5b53e5; 0xfff9cb92; 0xcb1e630b; 0xd8bcfb7c;
    0x7f8be302; 0x6c297b75; 0x58ced3ec; 0x4b6c4b9b; 0x310182de; 0x22a31aa9; 0x1644b230; 0x05e62a47;
    0xe29f20ba; 0xf13db8cd; 0xc5da1054; 0xd6788823; 0xac154166; 0xbfb7d911; 0x8b507188; 0x98f2e9ff;
    0x404e1283; 0x53ec8af4; 0x670b226d; 0x74a9ba1a; 0x0ec4735f; 0x1d66eb28; 0x298143b1; 0x3a23dbc6;
    0xdd5ad13b; 0xcef8494c; 0xfa1fe1d5; 0xe9bd79a2; 0x93d0b0e7; 0x80722890; 0xb4958009; 0xa737187e;
    0xff17c604; 0xecb55e73; 0xd852f6ea; 0xcbf06e9d; 0xb19da7d8; 0xa23f3faf; 0x96d89736; 0x857a0f41;
    0x620305bc; 0x71a19dcb; 0x45463552; 0x56e4ad25; 0x2c896460; 0x3f2bfc17; 0x0bcc548e; 0x186eccf9;
    0xc0d23785; 0xd370aff2; 0xe797076b; 0xf4359f1c; 0x8e585659; 0x9dface2e; 0xa91d66b7; 0xbabffec0;
    0x5dc6f43d; 0x4e646c4a; 0x7a83c4d3; 0x69215ca4; 0x134c95e1; 0x00ee0d96; 0x3409a50f; 0x27ab3d78;
    0x809c2506; 0x933ebd71; 0xa7d915e8; 0xb47b8d9f; 0xce1644da; 0xddb4dcad; 0xe9537434; 0xfaf1ec43;
    0x1d88e6be; 0x0e2a7ec9; 0x3acdd650; 0x296f4e27; 0x53028762; 0x40a01f15; 0x7447b78c; 0x67e52ffb;
    0xbf59d487; 0xacfb4cf0; 0x981ce469; 0x8bbe7c1e; 0xf1d3b55b; 0xe2712d2c; 0xd69685b5; 0xc5341dc2;
    0x224d173f; 0x31ef8f48; 0x050827d1; 0x16aabfa6; 0x6cc776e3; 0x7f65ee94; 0x4b82460d; 0x5820de7a;
    0xfbc3faf9; 0xe861628e; 0xdc86ca17; 0xcf245260; 0xb5499b25; 0xa6eb0352; 0x920cabcb; 0x81ae33bc;
    0x66d73941; 0x7575a136; 0x419209af; 0x523091d8; 0x285d589d; 0x3bffc0ea; 0x0f186873; 0x1cbaf004;
    0xc4060b78; 0xd7a4930f; 0xe3433b96; 0xf0e1a3e1; 0x8a8c6aa4; 0x992ef2d3; 0xadc95a4a; 0xbe6bc23d;
    0x5912c8c0; 0x4ab050b7; 0x7e57f82e; 0x6df56059; 0x1798a91c; 0x043a316b; 0x30dd99f2; 0x237f0185;
    0x844819fb; 0x97ea818c; 0xa30d2915; 0xb0afb162; 0xcac27827; 0xd960e050; 0xed8748c9; 0xfe25d0be;
    0x195cda43; 0x0afe4234; 0x3e19eaad; 0x2dbb72da; 0x57d6bb9f; 0x447423e8; 0x70938b71; 0x63311306;
    0xbb8de87a; 0xa82f700d; 0x9cc8d894; 0x8f6a40e3; 0xf50789a6; 0xe6a511d1; 0xd242b948; 0xc1e0213f;
    0x26992bc2; 0x353bb3b5; 0x01dc1b2c; 0x127e835b; 0x68134a1e; 0x7bb1d269; 0x4f567af0; 0x5cf4e287;
    0x04d43cfd; 0x1776a48a; 0x23910c13; 0x30339464; 0x4a5e5d21; 0x59fcc556; 0x6d1b6dcf; 0x7eb9f5b8;
    0x99c0ff45; 0x8a626732; 0xbe85cfab; 0xad2757dc; 0xd74a9e99; 0xc4e806ee; 0xf00fae77; 0xe3ad3600;
    0x3b11cd7c; 0x28b3550b; 0x1c54fd92; 0x0ff665e5; 0x759baca0; 0x663934d7; 0x52de9c4e; 0x417c0439;
    0xa6050ec4; 0xb5a796b3; 0x81403e2a; 0x92e2a65d; 0xe88f6f18; 0xfb2df76f; 0xcfca5ff6; 0xdc68c781;
    0x7b5fdfff; 0x68fd4788; 0x5c1aef11; 0x4fb87766; 0x35d5be23; 0x26772654; 0x12908ecd; 0x013216ba;
    0xe64b1c47; 0xf5e98430; 0xc10e2ca9; 0xd2acb4de; 0xa8c17d9b; 0xbb63e5ec; 0x8f844d75; 0x9c26d502;
    0x449a2e7e; 0x5738b609; 0x63df1e90; 0x707d86e7; 0x0a104fa2; 0x19b2d7d5; 0x2d557f4c; 0x3ef7e73b;
    0xd98eedc6; 0xca2c75b1; 0xfecbdd28; 0xed69455f; 0x97048c1a; 0x84a6146d; 0xb041bcf4; 0xa3e32483].

Definition table2_ : list Z := [
    0x00000000; 0xa541927e; 0x4f6f520d; 0xea2ec073; 0x9edea41a; 0x3b9f3664; 0xd1b1f617; 0x74f06469;
    0x38513ec5; 0x9d10acbb; 0x773e6cc8; 0xd27ffeb6; 0xa68f9adf; 0x03ce08a1; 0xe9e0c8d2; 0x4ca15aac;
    0x70a27d8a; 0xd5e3eff4; 0x3fcd2f87; 0x9a8cbdf9; 0xee7cd990; 0x4b3d4bee; 0xa1138b9d; 0x045219e3;
    0x48f3434f; 0xedb2d131; 0x079c1142; 0xa2dd833c; 0xd62de755; 0x736c752b; 0x9942b558; 0x3c032726;
    0xe144fb14; 0x4405696a; 0xae2ba919; 0x0b6a3b67; 0x7f9a5f0e; 0xdadbcd70; 0x30f50d03; 0x95b49f7d;
    0xd915c5d1; 0x7c5457af; 0x967a97dc; 0x333b05a2; 0x47cb61cb; 0xe28af3b5; 0x08a433c6; 0xade5a1b8;
    0x91e6869e; 0x34a714e0; 0xde89d493; 0x7bc846ed; 0x0f382284; 0xaa79b0fa; 0x40577089; 0xe516e2f7;
    0xa9b7b85b; 0x0cf62a25; 0xe6d8ea56; 0x43997828; 0x37691c41; 0x92288e3f; 0x78064e4c; 0xdd47dc32;
    0xc76580d9; 0x622412a7; 0x880ad2d4; 0x2d4b40aa; 0x59bb24c3; 0xfcfab6bd; 0x16d476ce; 0xb395e4b0;
    0xff34be1c; 0x5a752c62; 0xb05bec11; 0x151a7e6f; 0x61ea1a06; 0xc4ab8878; 0x2e85480b; 0x8bc4da75;
    0xb7c7fd53; 0x12866f2d; 0xf8a8af5e; 0x5de93d20; 0x29195949; 0x8c58cb37; 0x66760b44; 0xc337993a;
    0x8f96c396; 0x2ad751e8; 0xc0f9919b; 0x65b803e5; 0x1148678c; 0xb409f5f2; 0x5e273581; 0xfb66a7ff;
    0x26217bcd; 0x8360e9b3; 0x694e29c0; 0xcc0fbbbe; 0xb8ffdfd7; 0x1dbe4da9; 0xf7908dda; 0x52d11fa4;
    0x1e704508; 0xbb31d776; 0x511f1705; 0xf45e857b; 0x80aee112; 0x25ef736c; 0xcfc1b31f; 0x6a802161;
    0x56830647; 0xf3c29439; 0x19ec544a; 0xbcadc634; 0xc85da25d; 0x6d1c3023; 0x8732f050; 0x2273622e;
    0x6ed23882; 0xcb93aafc; 0x21bd6a8f; 0x84fcf8f1; 0xf00c9c98; 0x554d0ee6; 0xbf63ce95; 0x1a225ceb;
    0x8b277743; 0x2e66e53d; 0xc448254e; 0x6109b730; 0x15f9d359; 0xb0b84127; 0x5a968154; 0xffd7132a;
    0xb3764986; 0x1637dbf8; 0xfc191b8b; 0x595889f5; 0x2da8ed9c; 0x88e97fe2; 0x62c7bf91; 0xc7862def;
    0xfb850ac9; 0x5ec498b7; 0xb4ea58c4; 0x11abcaba; 0x655baed3; 0xc01a3cad; 0x2a34fcde; 0x8f756ea0;
    0xc3d4340c; 0x6695a672; 0x8cbb6601; 0x29faf47f; 0x5d0a9016; 0xf84b0268; 0x1265c21b; 0xb7245065;
    0x6a638c57; 0xcf221e29; 0x250cde5a; 0x804d4c24; 0xf4bd284d; 0x51fcba33; 0xbbd27a40; 0x1e93e83e;
    0x5232b292; 0xf77320ec; 0x1d5de09f; 0xb81c72e1; 0xccec1688; 0x69ad84f6; 0x83834485; 0x26c2d6fb;
    0x1ac1f1dd; 0xbf8063a3; 0x55aea3d0; 0xf0ef31ae; 0x841f55c7; 0x215ec7b9; 0xcb7007ca; 0x6e3195b4;
    0x2290cf18; 0x87d15d66; 0x6dff9d15; 0xc8be0f6b; 0xbc4e6b02; 0x190ff97c; 0xf321390f; 0x5660ab71;
    0x4c42f79a; 0xe90365e4; 0x032da597; 0xa66c37e9; 0xd29c5380; 0x77ddc1fe; 0x9df3018d; 0x38b293f3;
    0x7413c95f; 0xd1525b21; 0x3b7c9b52; 0x9e3d092c; 0xeacd6d45; 0x4f8cff3b; 0xa5a23f48; 0x00e3ad36;
    0x3ce08a10; 0x99a1186e; 0x738fd81d; 0xd6ce4a63; 0xa23e2e0a; 0x077fbc74; 0xed517c07; 0x4810ee79;
    0x04b1b4d5; 0xa1f026ab; 0x4bdee6d8; 0xee9f74a6; 0x9a6f10cf; 0x3f2e82b1; 0xd50042c2; 0x7041d0bc;
    0xad060c8e; 0x08479ef0; 0xe2695e83; 0x4728ccfd; 0x33d8a894; 0x96993aea; 0x7cb7fa99; 0xd9f668e7;
    0x9557324b; 0x3016a035; 0xda386046; 0x7f79f238; 0x0b899651; 0xaec8042f; 0x44e6c45c; 0xe1a75622;
    0xdda47104; 0x78e5e37a; 0x92cb2309; 0x378ab177; 0x437ad51e; 0xe63b4760; 0x0c158713; 0xa954156d;
    0xe5f54fc1; 0x40b4ddbf; 0xaa9a1dcc; 0x0fdb8fb2; 0x7b2bebdb; 0xde6a79a5; 0x3444b9d6; 0x91052ba8].

Definition table3_ : list Z := [
    0x00000000; 0xdd45aab8; 0xbf672381; 0x62228939; 0x7b2231f3; 0xa6679b4b; 0xc4451272; 0x1900b8ca;
    0xf64463e6; 0x2b01c95e; 0x49234067; 0x9466eadf; 0x8d665215; 0x5023f8ad; 0x32017194; 0xef44db2c;
    0xe964b13d; 0x34211b85; 0x560392bc; 0x8b463804; 0x924680ce; 0x4f032a76; 0x2d21a34f; 0xf06409f7;
    0x1f20d2db; 0xc2657863; 0xa047f15a; 0x7d025be2; 0x6402e328; 0xb9474990; 0xdb65c0a9; 0x06206a11;
    0xd725148b; 0x0a60be33; 0x6842370a; 0xb5079db2; 0xac072578; 0x71428fc0; 0x136006f9; 0xce25ac41;
    0x2161776d; 0xfc24ddd5; 0x9e0654ec; 0x4343fe54; 0x5a43469e; 0x8706ec26; 0xe524651f; 0x3861cfa7;
    0x3e41a5b6; 0xe3040f0e; 0x81268637; 0x5c632c8f; 0x45639445; 0x98263efd; 0xfa04b7c4; 0x27411d7c;
    0xc805c650; 0x15406ce8; 0x7762e5d1; 0xaa274f69; 0xb327f7a3; 0x6e625d1b; 0x0c40d422; 0xd1057e9a;
    0xaba65fe7; 0x76e3f55f; 0x14c17c66; 0xc984d6de; 0xd0846e14; 0x0dc1c4ac; 0x6fe34d95; 0xb2a6e72d;
    0x5de23c01; 0x80a796b9; 0xe2851f80; 0x3fc0b538; 0x26c00df2; 0xfb85a74a; 0x99a72e73; 0x44e284cb;
    0x42c2eeda; 0x9f874462; 0xfda5cd5b; 0x20e067e3; 0x39e0df29; 0xe4a57591; 0x8687fca8; 0x5bc25610;
    0xb4868d3c; 0x69c32784; 0x0be1aebd; 0xd6a40405; 0xcfa4bccf; 0x12e11677; 0x70c39f4e; 0xad8635f6;
    0x7c834b6c; 0xa1c6e1d4; 0xc3e468ed; 0x1ea1c255; 0x07a17a9f; 0xdae4d027; 0xb8c6591e; 0x6583f3a6;
    0x8ac7288a; 0x57828232; 0x35a00b0b; 0xe8e5a1b3; 0xf1e51979; 0x2ca0b3c1; 0x4e823af8; 0x93c79040;
    0x95e7fa51; 0x48a250e9; 0x2a80d9d0; 0xf7c57368; 0xeec5cba2; 0x3380611a; 0x51a2e823; 0x8ce7429b;
    0x63a399b7; 0xbee6330f; 0xdcc4ba36; 0x0181108e; 0x1881a844; 0xc5c402fc; 0xa7e68bc5; 0x7aa3217d;
    0x52a0c93f; 0x8fe56387; 0xedc7eabe; 0x30824006; 0x2982f8cc; 0xf4c75274; 0x96e5db4d; 0x4ba071f5;
    0xa4e4aad9; 0x79a10061; 0x1b838958; 0xc6c623e0; 0xdfc69b2a; 0x02833192; 0x60a1b8ab; 0xbde41213;
    0xbbc47802; 0x6681d2ba; 0x04a35b83; 0xd9e6f13b; 0xc0e649f1; 0x1da3e349; 0x7f816a70; 0xa2c4c0c8;
    0x4d801be4; 0x90c5b15c; 0xf2e73865; 0x2fa292dd; 0x36a22a17; 0xebe780af; 0x89c50996; 0x5480a32e;
    0x8585ddb4; 0x58c0770c; 0x3ae2fe35; 0xe7a7548d; 0xfea7ec47; 0x23e246ff; 0x41c0cfc6; 0x9c85657e;
    0x73c1be52; 0xae8414ea; 0xcca69dd3; 0x11e3376b; 0x08e38fa1; 0xd5a62519; 0xb784ac20; 0x6ac10698;
    0x6ce16c89; 0xb1a4c631; 0xd3864f08; 0x0ec3e5b0; 0x17c35d7a; 0xca86f7c2; 0xa8a47efb; 0x75e1d443;
    0x9aa50f6f; 0x47e0a5d7; 0x25c22cee; 0xf8878656; 0xe1873e9c; 0x3cc29424; 0x5ee01d1d; 0x83a5b7a5;
    0xf90696d8; 0x24433c60; 0x4661b559; 0x9b241fe1; 0x8224a72b; 0x5f610d93; 0x3d4384aa; 0xe0062e12;
    0x0f42f53e; 0xd2075f86; 0xb025d6bf; 0x6d607c07; 0x7460c4cd; 0xa9256e75; 0xcb07e74c; 0x16424df4;
    0x106227e5; 0xcd278d5d; 0xaf050464; 0x7240aedc; 0x6b401616; 0xb605bcae; 0xd4273597; 0x09629f2f;
    0xe6264403; 0x3b63eebb; 0x59416782; 0x8404cd3a; 0x9d0475f0; 0x4041df48; 0x22635671; 0xff26fcc9;
    0x2e238253; 0xf36628eb; 0x9144a1d2; 0x4c010b6a; 0x5501b3a0; 0x88441918; 0xea669021; 0x37233a99;
    0xd867e1b5; 0x05224b0d; 0x6700c234; 0xba45688c; 0xa345d046; 0x7e007afe; 0x1c22f3c7; 0xc167597f;
    0xc747336e; 0x1a0299d6; 0x782010ef; 0xa565ba57; 0xbc65029d; 0x6120a825; 0x0302211c; 0xde478ba4;
    0x31035088; 0xec46fa30; 0x8e647309; 0x5321d9b1; 0x4a21617b; 0x9764cbc3; 0xf54642fa; 0x2803e842].

Definition tbl (table : list Z) (c : Z) : Z := nth (Z.to_nat c) table 0.

(** ** Extend *)

Definition LE_LOAD32 (p : bytes) : Z := DecodeFixed32 p.

(** One half of [DefaultCRC32]. *)
Definition CRC32_word (l : Z) (p : bytes) : Z * bytes :=
  let c := u32 (Z.lxor l (LE_LOAD32 p)) in
  let p := sdrop 4 p in
  (Z.lxor (Z.lxor (Z.lxor (tbl table3_ (Z.land c 255)) (tbl table2_ (Z.land (Z.shiftr c 8) 255)))
                  (tbl table1_ (Z.land (Z.shiftr c 16) 255)))
          (tbl table0_ (Z.shiftr c 24)), p).

Definition DefaultCRC32 (l : Z) (p : bytes) : Z * bytes :=
  let '(l, p) := CRC32_word l p in CRC32_word l p.

Definition STEP1 (l : Z) (b : byte) : Z :=
  let c := Z.lxor (Z.land l 255) (ub b) in
  Z.lxor (tbl table0_ c) (Z.shiftr l 8).

(** [while (p != x) STEP1], for [n] bytes. *)
Fixpoint step1_loop (n : nat) (l : Z) (p : bytes) : Z * bytes :=
  match n, p with
  | S n', b :: p' => step1_loop n' (STEP1 l b) p'
  | _, _ => (l, p)
  end.

(** [while ((e - p) >= 16)] and [while ((e - p) >= 8)]; [gap] is [e - p]. *)
Fixpoint by16_loop (fuel : nat) (l : Z) (p : bytes) (gap : Z) : Z * bytes * Z :=
  match fuel with
  | O => (l, p, gap)
  | S fuel' =>
      if 16 <=? gap then
        let '(l, p) := DefaultCRC32 l p in
        let '(l, p) := DefaultCRC32 l p in
        by16_loop fuel' l p (gap - 16)
      else (l, p, gap)
  end.

Fixpoint by8_loop (fuel : nat) (l : Z) (p : bytes) (gap : Z) : Z * bytes * Z :=
  match fuel with
  | O => (l, p, gap)
  | S fuel' =>
      if 8 <=? gap then
        let '(l, p) := DefaultCRC32 l p in by8_loop fuel' l p (gap - 8)
      else (l, p, gap)
  end.

(** Point at the first 16-byte aligned address. *)
Definition ALIGN (n m : Z) : Z :=
  Z.land (n + (Z.shiftl 1 m - 1)) (Z.lnot (Z.shiftl 1 m - 1)).

(** [pval] is the address of [buf]. The loops run at most once per byte. *)
Definition ExtendImpl (pval : Z) (crc : Z) (buf : bytes) : Z :=
  let size := slen buf in
  let l := Z.lxor crc 0xffffffff in
  let x := ALIGN pval 4 in
  let '(l, p) := if x <=? pval + size then step1_loop (Z.to_nat (x - pval)) l buf else (l, buf) in
  let gap := slen p in
  let '(l, p, gap) := by16_loop (length buf) l p gap in
  let '(l, p, gap) := by8_loop (length buf) l p gap in
  let '(l, _) := step1_loop (Z.to_nat gap) l p in
  Z.lxor l 0xffffffff.

(** [Extend]; by [extend_any_address] the address does not matter. *)
Definition Extend (crc : Z) (buf : bytes) : Z := ExtendImpl 0 crc buf.

Definition Value (data : bytes) : Z := Extend 0 data.

(** ** Masking *)

Definition kMaskDelta : Z := 0xa282ead8.

Definition Mask (crc : Z) : Z :=
  u32 (Z.lor (Z.shiftr crc 15) (u32 (Z.shiftl crc 17)) + kMaskDelta).

Definition Unmask (masked_crc : Z) : Z :=
  let rot := u32 (masked_crc - kMaskDelta) in
  Z.lor (Z.shiftr rot 17) (u32 (Z.shiftl rot 15)).

(** ** Combine *)

(** [gf_multiply_sw_1] from [i] with [n = 32 - i] steps to go. *)
Fixpoint gf_multiply_sw_1 (n : nat) (p a b m : Z) : Z :=
  match n with
  | O => p
  | S n' =>
      gf_multiply_sw_1 n'
        (Z.lxor p (Z.land (u32 (0 - Z.land (Z.shiftr b 31) 1)) a))
        (Z.lxor (Z.shiftr a 1) (Z.land (u32 (0 - Z.land a 1)) m))
        (u32 (Z.shiftl b 1)) m
  end.

Definition gf_multiply_sw (a b m : Z) : Z := gf_multiply_sw_1 32 0 a b m.

Definition gf_square_sw (a m : Z) : Z := gf_multiply_sw a a m.

Fixpoint gf_powers_memo (i : nat) (m : Z) : Z :=
  match i with
  | O => m
  | S i' => gf_square_sw (gf_powers_memo i' m) m
  end.

(** [gf_powers_make] over the indices below [n]. *)
Definition gf_powers_make (n : nat) (m : Z) : list Z := (fun i => gf_powers_memo i m) <$> seq 0 n.

Definition crc32c_m : Z := 0x82f63b78.

Definition crc32c_powers : list Z := gf_powers_make 62 crc32c_m.

(** [CountTrailingZeroBits] of a non-zero 64-bit word. *)
Fixpoint ctz_pos (p : positive) : nat :=
  match p with xO p' => S (ctz_pos p') | _ => O end.

Definition CountTrailingZeroBits (v : Z) : nat :=
  match v with Zpos p => ctz_pos p | _ => O end.

(** [powers] is the part of the array at and after the pointer. The loop runs
    once per set bit of the 64-bit [len_bits]. *)
Fixpoint append_zeroes_loop (fuel : nat) (crc len_bits : Z) (polynomial : Z) (powers : list Z) : Z :=
  match fuel with
  | O => crc
  | S fuel' =>
      if len_bits =? 0 then crc
      else
        let r := CountTrailingZeroBits len_bits in
        let len_bits := Z.shiftr len_bits (Z.of_nat r) in
        let powers := drop r powers in
        let crc := gf_multiply_sw crc (nth 0 powers 0) polynomial in
        append_zeroes_loop fuel' crc (Z.shiftr len_bits 1) polynomial (drop 1 powers)
  end.

Definition Crc32AppendZeroes (crc len_over_4 polynomial : Z) (powers_array : list Z) : Z :=
  append_zeroes_loop 64 crc len_over_4 polynomial powers_array.

Definition InvertedToPure (crc : Z) : Z := u32 (Z.lnot crc).
Definition PureToInverted (crc : Z) : Z := u32 (Z.lnot crc).

Definition PureExtend (crc : Z) (buf : bytes) : Z :=
  InvertedToPure (Extend (PureToInverted crc) buf).

Definition Crc32cCombine (crc1 crc2 crc2len : Z) : Z :=
  let pure_crc1_with_init := InvertedToPure crc1 in
  let pure_crc2_with_init := InvertedToPure crc2 in
  let pure_crc2_init := u32 (-1) in
  let zeros := replicate 4 (to_byte 0) in
  let len := Z.land crc2len 3 in
  let tmp := Z.lxor pure_crc1_with_init pure_crc2_init in
  let tmp := if len =? 0 then tmp else PureExtend tmp (stake len zeros) in
  PureToInverted
    (Z.lxor (Crc32AppendZeroes tmp (crc2len / 4) crc32c_m crc32c_powers) pure_crc2_with_init).

(** ** The reference: a shift register *)

(** One step of the register: a division by the (reflected) polynomial. *)
Definition crc_shift (x : Z) : Z := Z.lxor (Z.shiftr x 1) (if Z.odd x then crc32c_m else 0).

Definition shifts (k : Z) (x : Z) : Z := Nat.iter (Z.to_nat k) crc_shift x.

(** The bits of the message enter at the low end, the lowest bit of each byte
    first. *)
Definition crc_bit (l : Z) (b : bool) : Z := crc_shift (Z.lxor l (Z.b2z b)).
Definition crc_byte (l : Z) (b : byte) : Z :=
  fold_left crc_bit ((fun i => Z.testbit (ub b) i) <$> [0; 1; 2; 3; 4; 5; 6; 7]) l.
Definition crc_reg (l : Z) (data : bytes) : Z := fold_left crc_byte data l.

(** The register starts from all ones, and its complement is returned. *)
Definition crc32c (crc : Z) (data : bytes) : Z :=
  Z.lxor (crc_reg (Z.lxor crc 0xffffffff) data) 0xffffffff.

(** ** Linear functions on words *)

Definition linear (f : Z -> Z) : Prop := forall x y, f (Z.lxor x y) = Z.lxor (f x) (f y).

Lemma land_lxor_l a b c : Z.land (Z.lxor a b) c = Z.lxor (Z.land a c) (Z.land b c).
Proof.
  apply Z.bits_inj'. intros i Hi. rewrite !Z.land_spec, !Z.lxor_spec, !Z.land_spec.
  by destruct (Z.testbit a i), (Z.testbit b i), (Z.testbit c i).
Qed.

Lemma lxor_lt a b n : 0 <= n -> 0 <= a < 2 ^ n -> 0 <= b < 2 ^ n -> 0 <= Z.lxor a b < 2 ^ n.
Proof.
  intros Hn Ha Hb.
  rewrite <- (Z.mod_small a (2 ^ n)), <- (Z.mod_small b (2 ^ n)) by lia.
  rewrite <- !Z.land_ones, <- land_lxor_l, Z.land_ones by lia.
  apply Z.mod_pos_bound. by apply pow2_pos.
Qed.

Lemma is_u32_lxor a b : is_u32 a -> is_u32 b -> is_u32 (Z.lxor a b).
Proof. intros. apply (lxor_lt a b 32); [lia|done|done]. Qed.

Lemma is_u32_shiftr a n : 0 <= n -> is_u32 a -> is_u32 (Z.shiftr a n).
Proof.
  intros Hn [Ha1 Ha2]. split; [by apply Z.shiftr_nonneg|].
  rewrite shiftr_div by lia. pose proof (pow2_pos n Hn).
  apply Z.le_lt_trans with a; [apply Z.div_le_upper_bound; nia|done].
Qed.

Lemma lxor_swap a b c d : Z.lxor (Z.lxor a b) (Z.lxor c d) = Z.lxor (Z.lxor a c) (Z.lxor b d).
Proof.
  rewrite !Z.lxor_assoc. f_equal. rewrite <- !Z.lxor_assoc. f_equal. apply Z.lxor_comm.
Qed.

Lemma linear_0 f : linear f -> f 0 = 0.
Proof. intros H. rewrite <- (Z.lxor_nilpotent 0) at 1. rewrite H. apply Z.lxor_nilpotent. Qed.

Lemma linear_id : linear (fun x => x).
Proof. by intros x y. Qed.

Lemma linear_lxor f g : linear f -> linear g -> linear (fun x => Z.lxor (f x) (g x)).
Proof. intros Hf Hg x y. rewrite Hf, Hg. apply lxor_swap. Qed.

Lemma linear_comp f g : linear f -> linear g -> linear (fun x => g (f x)).
Proof. intros Hf Hg x y. by rewrite Hf, Hg. Qed.

Lemma linear_shiftr n f : linear f -> linear (fun x => Z.shiftr (f x) n).
Proof. intros Hf x y. rewrite Hf. apply Z.shiftr_lxor. Qed.

Lemma linear_land c f : linear f -> linear (fun x => Z.land (f x) c).
Proof. intros Hf x y. rewrite Hf. apply land_lxor_l. Qed.

Lemma crc_shift_linear : linear crc_shift.
Proof.
  intros x y. unfold crc_shift. rewrite Z.shiftr_lxor.
  replace (Z.odd (Z.lxor x y)) with (xorb (Z.odd x) (Z.odd y))
    by (rewrite <- !Z.bit0_odd; symmetry; apply Z.lxor_spec).
  rewrite lxor_swap. f_equal. by destruct (Z.odd x), (Z.odd y).
Qed.

Lemma shifts_linear k f : linear f -> linear (fun x => shifts k (f x)).
Proof.
  intros Hf. unfold shifts. induction (Z.to_nat k) as [|n IH]; [done|].
  intros x y. rewrite !Nat.iter_succ, IH. apply crc_shift_linear.
Qed.

Create HintDb linear.
#[export] Hint Resolve linear_id linear_lxor linear_shiftr linear_land crc_shift_linear shifts_linear : linear.

(** A linear function on words is determined by the one-bit words. *)
Lemma linear_ext n f g : linear f -> linear g ->
  forallb (fun i => f (2 ^ Z.of_nat i) =? g (2 ^ Z.of_nat i)) (seq 0 n) = true ->
  forall x, 0 <= x < 2 ^ Z.of_nat n -> f x = g x.
Proof.
  intros Hf Hg Hb. induction n as [|n IH]; intros x Hx.
  - replace x with 0 by (cbn in Hx; lia). by rewrite !linear_0.
  - rewrite seq_S, forallb_app in Hb. apply andb_prop in Hb as [Hb Hn].
    cbn in Hn. rewrite andb_true_r in Hn. apply Z.eqb_eq in Hn.
    specialize (IH Hb).
    replace (Z.of_nat (S n)) with (Z.of_nat n + 1) in Hx by lia.
    rewrite Z.pow_add_r in Hx by lia. change (2 ^ 1) with 2 in Hx.
    destruct (Z.lt_ge_cases x (2 ^ Z.of_nat n)) as [Hlt|Hge]; [apply IH; lia|].
    assert (x = Z.lxor (x - 2 ^ Z.of_nat n) (2 ^ Z.of_nat n)) as ->.
    { rewrite <- Z.add_nocarry_lxor; [lia|].
      apply Z.bits_inj'. intros i Hi. rewrite Z.land_spec, Z.pow2_bits_eqb, Z.bits_0 by lia.
      destruct (Z.eqb_spec (Z.of_nat n) i) as [<-|]; [|by rewrite andb_false_r].
      by rewrite (testbit_small _ (Z.of_nat n)) by lia. }
    rewrite Hf, Hg, Hn, IH by lia. done.
Qed.

Lemma bilinear_ext n f g :
  (forall a, linear (f a)) -> (forall a, linear (g a)) ->
  (forall b, linear (fun a => f a b)) -> (forall b, linear (fun a => g a b)) ->
  forallb (fun i => forallb (fun j =>
    f (2 ^ Z.of_nat j) (2 ^ Z.of_nat i) =? g (2 ^ Z.of_nat j) (2 ^ Z.of_nat i)) (seq 0 n)) (seq 0 n) = true ->
  forall a b, 0 <= a < 2 ^ Z.of_nat n -> 0 <= b < 2 ^ Z.of_nat n -> f a b = g a b.
Proof.
  intros Hf Hg Hf' Hg' Hb a b Ha Hb'. apply (linear_ext n (f a) (g a)); [done|done| |done].
  rewrite forallb_forall in Hb. apply forallb_forall. intros i Hi. apply Z.eqb_eq.
  by apply (linear_ext n (fun a => f a _) (fun a => g a _)); [| |apply Hb|].
Qed.

(** Closes [f x = g x] for a 32-bit [x] by evaluating both sides on the basis. *)
Ltac by_basis f g x n :=
  let E := fresh in
  assert (E : f x = g x) by
    (apply (linear_ext n f g);
     [eauto 20 with linear | eauto 20 with linear | vm_compute; reflexivity | try assumption]);
  exact E.

(** ** The tables hold the register's answers *)

Definition below (n : nat) (P : Z -> bool) : bool := forallb (fun i => P (Z.of_nat i)) (seq 0 n).

Lemma below_spec n P z : below n P = true -> 0 <= z < Z.of_nat n -> P z = true.
Proof.
  unfold below. rewrite forallb_forall. intros H Hz.
  specialize (H (Z.to_nat z)). rewrite Z2Nat.id in H by lia. apply H. apply in_seq. lia.
Qed.

Lemma table_spec table k c :
  below 256 (fun c => tbl table c =? shifts k c) = true -> 0 <= c < 256 -> tbl table c = shifts k c.
Proof. intros H Hc. apply Z.eqb_eq. by apply (below_spec 256 _ c H). Qed.

Lemma table0_spec c : 0 <= c < 256 -> tbl table0_ c = shifts 8 c.
Proof. apply table_spec. by vm_compute. Qed.
Lemma table1_spec c : 0 <= c < 256 -> tbl table1_ c = shifts 16 c.
Proof. apply table_spec. by vm_compute. Qed.
Lemma table2_spec c : 0 <= c < 256 -> tbl table2_ c = shifts 24 c.
Proof. apply table_spec. by vm_compute. Qed.
Lemma table3_spec c : 0 <= c < 256 -> tbl table3_ c = shifts 32 c.
Proof. apply table_spec. by vm_compute. Qed.

Lemma shifts_add j k x : 0 <= j -> 0 <= k -> shifts (j + k) x = shifts j (shifts k x).
Proof. intros. unfold shifts. rewrite Z2Nat.inj_add by lia. apply Nat.iter_add. Qed.

Lemma shifts_0 x : shifts 0 x = x.
Proof. reflexivity. Qed.

Lemma crc_shift_range x : is_u32 x -> is_u32 (crc_shift x).
Proof.
  intros. apply is_u32_lxor; [by apply is_u32_shiftr|]. destruct (Z.odd x); unfold is_u32, crc32c_m; lia.
Qed.

Lemma shifts_range k x : is_u32 x -> is_u32 (shifts k x).
Proof.
  intros. unfold shifts. induction (Z.to_nat k) as [|n IH]; [done|].
  rewrite Nat.iter_succ. by apply crc_shift_range.
Qed.

Lemma is_u32_ub b : is_u32 (ub b).
Proof. pose proof (ub_range b). unfold is_u32. lia. Qed.

#[export] Hint Resolve is_u32_lxor is_u32_shiftr shifts_range is_u32_ub : rocks.

Lemma land_255_range c : 0 <= Z.land c 255 < 256.
Proof. rewrite land_255. by apply Z.mod_pos_bound. Qed.

Lemma lxor_byte_range a b : 0 <= a < 256 -> 0 <= b < 256 -> 0 <= Z.lxor a b < 256.
Proof. intros. by apply (lxor_lt a b 8). Qed.

(** Eight shifts of a word: the table for its low byte, and the rest. *)
Lemma shifts_8 x : is_u32 x -> shifts 8 x = Z.lxor (shifts 8 (Z.land x 255)) (Z.shiftr x 8).
Proof.
  intros Hx. by_basis (fun x => shifts 8 x)
    (fun x => Z.lxor (shifts 8 (Z.land x 255)) (Z.shiftr x 8)) x 32%nat.
Qed.

(** Thirty-two shifts: a table for each byte. *)
Lemma shifts_32 x : is_u32 x ->
  shifts 32 x =
  Z.lxor (Z.lxor (Z.lxor (shifts 32 (Z.land x 255)) (shifts 24 (Z.land (Z.shiftr x 8) 255)))
                 (shifts 16 (Z.land (Z.shiftr x 16) 255)))
         (shifts 8 (Z.shiftr x 24)).
Proof.
  intros Hx. by_basis (fun x => shifts 32 x)
    (fun x => Z.lxor (Z.lxor (Z.lxor (shifts 32 (Z.land x 255)) (shifts 24 (Z.land (Z.shiftr x 8) 255)))
                 (shifts 16 (Z.land (Z.shiftr x 16) 255))) (shifts 8 (Z.shiftr x 24))) x 32%nat.
Qed.

Lemma shifts_lxor k x y : shifts k (Z.lxor x y) = Z.lxor (shifts k x) (shifts k y).
Proof. apply (shifts_linear k (fun x => x)), linear_id. Qed.

(** A byte enters the register at once. *)
Lemma crc_byte_shifts l b : crc_byte l b = shifts 8 (Z.lxor l (ub b)).
Proof.
  assert (below 256 (fun c => fold_left crc_bit ((fun i => Z.testbit c i) <$> [0;1;2;3;4;5;6;7]) 0
                              =? shifts 8 c) = true) as Hb by by vm_compute.
  assert (forall bs l, fold_left crc_bit bs l = Z.lxor (fold_left crc_bit bs 0) (shifts (slen bs) l)) as Hl.
  { induction bs as [|c bs IH]; intros l'; [done|].
    cbn [fold_left]. rewrite (IH (crc_bit l' c)), (IH (crc_bit 0 c)), slen_cons.
    rewrite (Z.add_comm 1), (shifts_add (slen bs) 1) by (try apply slen_nonneg; lia).
    rewrite Z.lxor_assoc. f_equal. rewrite <- shifts_lxor. f_equal.
    change (shifts 1 l') with (crc_shift l'). unfold crc_bit.
    rewrite <- crc_shift_linear. f_equal. rewrite Z.lxor_0_l. apply Z.lxor_comm. }
  unfold crc_byte. rewrite Hl.
  pose proof (below_spec 256 _ (ub b) Hb (ub_range b)) as E%Z.eqb_eq. rewrite E.
  rewrite shifts_lxor, Z.lxor_comm. done.
Qed.

Lemma crc_byte_range l b : is_u32 l -> is_u32 (crc_byte l b).
Proof. intros. rewrite crc_byte_shifts. auto with rocks. Qed.

Lemma crc_reg_range data l : is_u32 l -> is_u32 (crc_reg l data).
Proof.
  revert l. induction data as [|b data IH]; intros l Hl; [done|]. apply IH. by apply crc_byte_range.
Qed.

Lemma crc_reg_app l a b : crc_reg l (a ++ b) = crc_reg (crc_reg l a) b.
Proof. apply fold_left_app. Qed.

Lemma crc_reg_cons l b data : crc_reg l (b :: data) = crc_reg (crc_byte l b) data.
Proof. reflexivity. Qed.

(** What a change of the register's start does to its end. *)
Lemma crc_reg_lxor data l l' :
  crc_reg (Z.lxor l l') data = Z.lxor (crc_reg l data) (shifts (8 * slen data) l').
Proof.
  revert l l'. induction data as [|b data IH]; intros l l'; [reflexivity|].
  rewrite !crc_reg_cons, slen_cons, !crc_byte_shifts.
  replace (Z.lxor (Z.lxor l l') (ub b)) with (Z.lxor (Z.lxor l (ub b)) l')
    by (rewrite !Z.lxor_assoc; f_equal; apply Z.lxor_comm).
  rewrite shifts_lxor, IH. f_equal.
  replace (8 * (1 + slen data)) with (8 * slen data + 8) by lia.
  symmetry. apply shifts_add; slia.
Qed.

(** ** ExtendImpl is the register *)

Lemma STEP1_spec l b : is_u32 l -> STEP1 l b = crc_byte l b.
Proof.
  intros Hl. unfold STEP1. rewrite crc_byte_shifts.
  pose proof (ub_range b). pose proof (land_255_range l).
  rewrite table0_spec by by apply lxor_byte_range.
  rewrite (shifts_8 (Z.lxor l (ub b))) by auto with rocks.
  rewrite land_lxor_l, Z.shiftr_lxor. rewrite (land_255 (ub b)), (Z.mod_small (ub b)) by lia.
  rewrite (shiftr_div (ub b) 8), (Z.div_small (ub b)) by lia. by rewrite Z.lxor_0_r.
Qed.

Lemma step1_loop_spec n l p : is_u32 l -> (n <= length p)%nat ->
  step1_loop n l p = (crc_reg l (take n p), drop n p).
Proof.
  revert l p. induction n as [|n IH]; intros l p Hl Hn; [by destruct p|].
  destruct p as [|b p]; [cbn in Hn; lia|]. cbn [step1_loop take drop].
  rewrite STEP1_spec, IH by (first [by apply crc_byte_range | cbn in Hn; lia | done]). done.
Qed.

(** Up to four bytes enter the register at once, as a little-endian word. *)
Lemma crc_reg_word p l : slen p <= 4 -> is_u32 l ->
  crc_reg l p = shifts (8 * slen p) (Z.lxor l (le_combine p)).
Proof.
  revert l. induction p as [|b p IH]; intros l Hp Hl.
  { change (le_combine []) with 0. by rewrite Z.lxor_0_r. }
  rewrite slen_cons in Hp. rewrite crc_reg_cons, slen_cons, IH by (first [by apply crc_byte_range | lia]).
  replace (8 * (1 + slen p)) with (8 * slen p + 8) by lia.
  rewrite shifts_add by slia. f_equal. rewrite crc_byte_shifts, le_combine_cons.
  pose proof (le_combine_take_range (length p) p) as Hr. rewrite take_ge in Hr by lia.
  assert (2 ^ (8 * Z.of_nat (length p)) <= 2 ^ 24) as Hle by (apply Z.pow_le_mono_r; unfold slen in Hp; lia).
  assert (is_u32 (Z.shiftl (le_combine p) 8)) as Hw.
  { unfold is_u32. rewrite Z.shiftl_mul_pow2 by lia. lia. }
  replace (Z.lor (ub b) (Z.shiftl (le_combine p) 8)) with (Z.lxor (ub b) (Z.shiftl (le_combine p) 8)).
  2:{ pose proof (ub_range b). rewrite lor_shiftl_add by lia.
      rewrite <- Z.shiftl_mul_pow2 by lia. symmetry. apply Z.add_nocarry_lxor.
      apply Z.bits_inj'. intros i Hi. rewrite Z.land_spec, Z.bits_0.
      destruct (Z.lt_ge_cases i 8); [rewrite Z.shiftl_spec_low by lia; apply andb_false_r|].
      by rewrite (testbit_small (ub b) 8) by lia. }
  rewrite <- Z.lxor_assoc, (shifts_lxor 8 (Z.lxor l (ub b))). f_equal.
  rewrite shifts_8 by done. rewrite land_255, Z.shiftr_shiftl_l by lia.
  rewrite Z.shiftl_mul_pow2, Z.mod_mul by lia.
  change (8 - 8) with 0. by rewrite Z.shiftl_0_r.
Qed.

Lemma CRC32_word_spec l p : is_u32 l -> 4 <= slen p ->
  CRC32_word l p = (crc_reg l (stake 4 p), sdrop 4 p).
Proof.
  intros Hl Hp. unfold CRC32_word, LE_LOAD32. f_equal.
  pose proof (DecodeFixed32_range p) as Hd.
  assert (is_u32 (Z.lxor l (DecodeFixed32 p))) as Hc by auto with rocks.
  rewrite (u32_id _ Hc). remember (Z.lxor l (DecodeFixed32 p)) as c eqn:Ec.
  rewrite table3_spec, table2_spec, table1_spec, table0_spec, <- shifts_32;
    try apply land_255_range; [| done |].
  - rewrite crc_reg_word, slen_stake by (rewrite ?slen_stake; try done; lia). subst c. reflexivity.
  - rewrite shiftr_div by lia. unfold is_u32 in Hc. split; [apply Z.div_pos; lia|].
    apply Z.div_lt_upper_bound; lia.
Qed.

Lemma DefaultCRC32_spec l p : is_u32 l -> 8 <= slen p ->
  DefaultCRC32 l p = (crc_reg l (stake 8 p), sdrop 8 p).
Proof.
  intros Hl Hp. unfold DefaultCRC32. rewrite CRC32_word_spec by (done || lia).
  rewrite CRC32_word_spec by (first [by apply crc_reg_range | rewrite slen_sdrop; lia]).
  rewrite <- crc_reg_app. unfold stake, sdrop. rewrite drop_drop. do 2 f_equal.
  apply (take_take_drop p 4 4).
Qed.

(** The state of the loops: what the register has consumed, and the rest. *)
Definition consumed (l0 : Z) (buf : bytes) (l : Z) (p : bytes) : Prop :=
  exists q, buf = q ++ p /\ l = crc_reg l0 q.

Lemma consumed_step l0 buf l p n :
  consumed l0 buf l p -> consumed l0 buf (crc_reg l (stake n p)) (sdrop n p).
Proof.
  intros (q & -> & ->). exists (q ++ stake n p). rewrite <- app_assoc, stake_sdrop, crc_reg_app. done.
Qed.

Lemma by8_loop_spec l0 buf fuel l p gap : is_u32 l -> consumed l0 buf l p -> gap = slen p ->
  exists l' p', by8_loop fuel l p gap = (l', p', slen p') /\ is_u32 l' /\ consumed l0 buf l' p'.
Proof.
  revert l p gap. induction fuel as [|fuel IH]; intros l p gap Hl Hc ->; cbn [by8_loop]; [by eauto|].
  zcase; [|by eauto]. rewrite DefaultCRC32_spec by done.
  apply IH; [by apply crc_reg_range | by apply consumed_step | rewrite slen_sdrop; lia].
Qed.

Lemma by16_loop_spec l0 buf fuel l p gap : is_u32 l -> consumed l0 buf l p -> gap = slen p ->
  exists l' p', by16_loop fuel l p gap = (l', p', slen p') /\ is_u32 l' /\ consumed l0 buf l' p'.
Proof.
  revert l p gap. induction fuel as [|fuel IH]; intros l p gap Hl Hc ->; cbn [by16_loop]; [by eauto|].
  zcase; [|by eauto]. rewrite DefaultCRC32_spec by (done || lia).
  rewrite DefaultCRC32_spec by (first [by apply crc_reg_range | rewrite slen_sdrop; lia]).
  apply IH; [by repeat apply crc_reg_range | by apply consumed_step, consumed_step |].
  rewrite !slen_sdrop; rewrite ?slen_sdrop; lia.
Qed.

Lemma ALIGN_ge n : 0 <= n -> n <= ALIGN n 4.
Proof.
  intros Hn. unfold ALIGN. change (Z.shiftl 1 4 - 1) with (Z.ones 4).
  rewrite <- Z.ldiff_land, Z.ldiff_ones_r by lia. rewrite Z.shiftl_mul_pow2, shiftr_div by lia.
  change (Z.ones 4) with 15. change (2 ^ 4) with 16.
  pose proof (Z.div_mod (n + 15) 16). pose proof (Z.mod_pos_bound (n + 15) 16). lia.
Qed.

(** The loops compute the register whatever the address of the buffer. *)
Lemma ExtendImpl_spec pval crc buf : 0 <= pval -> is_u32 crc -> ExtendImpl pval crc buf = crc32c crc buf.
Proof.
  intros Hp Hcrc. unfold ExtendImpl, crc32c.
  set (l0 := Z.lxor crc 0xffffffff).
  assert (is_u32 l0) as Hl0 by (apply is_u32_lxor; [done|unfold is_u32; lia]).
  destruct (if _ <=? _ then _ else _) as [l p] eqn:E.
  assert (is_u32 l /\ consumed l0 buf l p) as [Hl Hc].
  { revert E. pose proof (ALIGN_ge pval Hp). zcase; intros E; injection E as <- <- || idtac.
    - rewrite step1_loop_spec in E by (done || unfold slen in *; lia). injection E as <- <-.
      split; [by apply crc_reg_range|]. exists (take (Z.to_nat (ALIGN pval 4 - pval)) buf).
      by rewrite take_drop.
    - split; [done|]. by exists []. }
  clear E.
  destruct (by16_loop_spec l0 buf (length buf) l p _ Hl Hc eq_refl) as (l1 & p1 & -> & Hl1 & Hc1).
  destruct (by8_loop_spec l0 buf (length buf) l1 p1 _ Hl1 Hc1 eq_refl) as (l2 & p2 & -> & Hl2 & (q & -> & ->)).
  rewrite step1_loop_spec by (done || unfold slen; lia).
  rewrite <- crc_reg_app. unfold slen. by rewrite Nat2Z.id, firstn_all.
Qed.

Lemma Extend_spec crc buf : is_u32 crc -> Extend crc buf = crc32c crc buf.
Proof. by apply ExtendImpl_spec. Qed.

(** ** Multiplication in the field *)

(** [0u - bit] is a mask. *)
Lemma mask_bit b x : is_u32 x -> Z.land (u32 (0 - Z.b2z b)) x = if b then x else 0.
Proof.
  intros Hx. destruct b; [|done]. change (u32 (0 - Z.b2z true)) with (Z.ones 32).
  rewrite Z.land_comm, Z.land_ones by lia. by apply u32_id.
Qed.

Lemma land_1_odd x : Z.land x 1 = Z.b2z (Z.odd x).
Proof. rewrite <- Z.bit0_odd, Z.bit0_mod. apply (land_ones_mod x 1). lia. Qed.

Lemma crc32c_m_range : is_u32 crc32c_m.
Proof. unfold is_u32, crc32c_m. lia. Qed.

(** The step of [gf_multiply_sw_1] on words. *)
Lemma gf_multiply_S n p a b : is_u32 a ->
  gf_multiply_sw_1 (S n) p a b crc32c_m =
  gf_multiply_sw_1 n (Z.lxor p (if Z.testbit b 31 then a else 0)) (crc_shift a) (u32 (Z.shiftl b 1)) crc32c_m.
Proof.
  intros Ha. cbn [gf_multiply_sw_1]. rewrite !land_1_odd, !mask_bit by (done || apply crc32c_m_range).
  rewrite <- Z.bit0_odd, Z.shiftr_spec by lia. rewrite Z.add_0_l. reflexivity.
Qed.

Lemma gf_multiply_0 p a b m : gf_multiply_sw_1 0 p a b m = p.
Proof. reflexivity. Qed.

Lemma gf_multiply_lin_a n p q a a' b : is_u32 a -> is_u32 a' ->
  gf_multiply_sw_1 n (Z.lxor p q) (Z.lxor a a') b crc32c_m =
  Z.lxor (gf_multiply_sw_1 n p a b crc32c_m) (gf_multiply_sw_1 n q a' b crc32c_m).
Proof.
  revert p q a a' b. induction n as [|n IH]; intros p q a a' b Ha Ha'; [done|].
  rewrite !gf_multiply_S by auto with rocks. rewrite crc_shift_linear, <- IH by by apply crc_shift_range.
  f_equal. rewrite lxor_swap. f_equal. by destruct (Z.testbit b 31).
Qed.

Lemma u32_lxor a b : u32 (Z.lxor a b) = Z.lxor (u32 a) (u32 b).
Proof. unfold u32. rewrite <- !Z.land_ones by lia. apply land_lxor_l. Qed.

Lemma gf_multiply_lin_b n p q a b b' : is_u32 a ->
  gf_multiply_sw_1 n (Z.lxor p q) a (Z.lxor b b') crc32c_m =
  Z.lxor (gf_multiply_sw_1 n p a b crc32c_m) (gf_multiply_sw_1 n q a b' crc32c_m).
Proof.
  revert p q a b b'. induction n as [|n IH]; intros p q a b b' Ha; [done|].
  rewrite !gf_multiply_S by done. rewrite Z.shiftl_lxor, u32_lxor, <- IH by by apply crc_shift_range.
  f_equal. rewrite lxor_swap, Z.lxor_spec. f_equal.
  by destruct (Z.testbit b 31), (Z.testbit b' 31); rewrite ?Z.lxor_0_r, ?Z.lxor_0_l, ?Z.lxor_nilpotent.
Qed.

(** The product, on all integers so that it is linear. *)
Definition mul (a b : Z) : Z := gf_multiply_sw (u32 a) b crc32c_m.

Lemma mul_linear_a b f : linear f -> linear (fun a => mul (f a) b).
Proof.
  intros Hf x y. unfold mul, gf_multiply_sw. rewrite Hf, u32_lxor.
  change 0 with (Z.lxor 0 0) at 1. apply gf_multiply_lin_a; apply u32_range.
Qed.

Lemma mul_linear_b a f : linear f -> linear (fun b => mul a (f b)).
Proof.
  intros Hf x y. unfold mul, gf_multiply_sw. rewrite Hf.
  change 0 with (Z.lxor 0 0) at 1. apply gf_multiply_lin_b; apply u32_range.
Qed.

Lemma gf_multiply_mul a b : is_u32 a -> gf_multiply_sw a b crc32c_m = mul a b.
Proof. intros. unfold mul. by rewrite u32_id. Qed.

Lemma mul_range a b : is_u32 (mul a b).
Proof.
  unfold mul, gf_multiply_sw. assert (is_u32 0) as H0 by done. revert H0.
  generalize 0 as p. generalize (u32_range a). generalize (u32 a) as x. revert b.
  generalize 32%nat as n. induction n as [|n IH]; intros b x Hx p Hp; [done|]. rewrite gf_multiply_S by done.
  apply IH; [by apply crc_shift_range|]. apply is_u32_lxor; [done|]. by destruct (Z.testbit b 31).
Qed.

(** The unit is the highest bit, and a shift of a factor is a shift of the
    product: both are checked on one-bit words. *)
Definition one : Z := 2 ^ 31.

Lemma mul_one a : is_u32 a -> mul a one = a.
Proof.
  intros Ha. apply (linear_ext 32 (fun a => mul a one) (fun a : Z => a)); [| |by vm_compute|done].
  - apply (mul_linear_a one (fun a => a)), linear_id.
  - apply linear_id.
Qed.

Lemma mul_crc_shift a b : is_u32 a -> is_u32 b -> mul a (crc_shift b) = crc_shift (mul a b).
Proof.
  apply (bilinear_ext 32 (fun a b => mul a (crc_shift b)) (fun a b => crc_shift (mul a b))).
  - intros x. apply (mul_linear_b x crc_shift), crc_shift_linear.
  - intros x. apply (linear_comp (fun b => mul x b)), crc_shift_linear.
    apply (mul_linear_b x (fun b => b)), linear_id.
  - intros y. apply (mul_linear_a _ (fun a => a)), linear_id.
  - intros y. apply (linear_comp (fun a => mul a y)), crc_shift_linear.
    apply (mul_linear_a y (fun a => a)), linear_id.
  - by vm_compute.
Qed.

Lemma one_range : is_u32 one.
Proof. unfold is_u32, one. lia. Qed.

(** Multiplying by the word after [k] shifts of the unit is [k] shifts. *)
Lemma mul_shifts_one a k : is_u32 a -> mul a (shifts k one) = shifts k a.
Proof.
  intros Ha. unfold shifts. induction (Z.to_nat k) as [|n IH]; [by apply mul_one|].
  rewrite !Nat.iter_succ, mul_crc_shift, IH; [done | done |].
  rewrite <- (Nat2Z.id n). apply (shifts_range (Z.of_nat n) one one_range).
Qed.

(** ** Crc32AppendZeroes *)

(** The [i]-th power is the word after [32 * 2^i] shifts. *)
Lemma gf_powers_memo_spec i : gf_powers_memo i crc32c_m = shifts (32 * 2 ^ Z.of_nat i) one.
Proof.
  induction i as [|i IH]; [by vm_compute|]. cbn [gf_powers_memo]. unfold gf_square_sw. rewrite IH.
  assert (is_u32 (shifts (32 * 2 ^ Z.of_nat i) one)) by apply shifts_range, one_range.
  rewrite gf_multiply_mul, mul_shifts_one by done.
  assert (0 < 2 ^ Z.of_nat i) by (apply pow2_pos; lia).
  rewrite <- shifts_add by lia. f_equal.
  rewrite Nat2Z.inj_succ, Z.pow_succ_r by lia. lia.
Qed.

Lemma crc32c_powers_nth j r : (j + r < 62)%nat ->
  nth 0 (drop r (drop j crc32c_powers)) 0 = shifts (32 * 2 ^ Z.of_nat (j + r)) one.
Proof.
  intros H. rewrite drop_drop, nth_skipn, Nat.add_0_r, <- gf_powers_memo_spec.
  unfold crc32c_powers, gf_powers_make. change (fmap ?f ?l) with (map f l).
  rewrite (nth_indep _ 0 (gf_powers_memo 0 crc32c_m)) by (rewrite length_map, length_seq; lia).
  rewrite (map_nth (fun i => gf_powers_memo i crc32c_m)), seq_nth by lia. done.
Qed.

Lemma ctz_spec v : 0 < v ->
  v = 2 ^ Z.of_nat (CountTrailingZeroBits v) *
      (2 * Z.shiftr (Z.shiftr v (Z.of_nat (CountTrailingZeroBits v))) 1 + 1).
Proof.
  destruct v as [|p|p]; [lia| |lia]. intros _. unfold CountTrailingZeroBits.
  rewrite !shiftr_div by lia.
  assert (exists q, Zpos p = 2 ^ Z.of_nat (ctz_pos p) * (2 * q + 1)) as [q Hq].
  { induction p as [p IH|p [q IH]|]; cbn [ctz_pos].
    - exists (Zpos p). change (2 ^ Z.of_nat 0) with 1. lia.
    - exists q. rewrite Nat2Z.inj_succ, Z.pow_succ_r by lia. lia.
    - by exists 0. }
  assert (Zpos p / 2 ^ Z.of_nat (ctz_pos p) = q * 2 + 1) as ->.
  { rewrite Hq, Z.mul_comm, Z.div_mul by (apply Z.pow_nonzero; lia). lia. }
  change (2 ^ 1) with 2. rewrite Z.div_add_l by lia. change (1 / 2) with 0. lia.
Qed.

Lemma append_zeroes_loop_spec fuel crc len j : is_u32 crc -> (j <= 62)%nat ->
  0 <= len < 2 ^ (62 - Z.of_nat j) -> len < 2 ^ Z.of_nat fuel ->
  append_zeroes_loop fuel crc len crc32c_m (drop j crc32c_powers) = shifts (32 * 2 ^ Z.of_nat j * len) crc.
Proof.
  revert crc len j. induction fuel as [|fuel IH]; intros crc len j Hcrc Hj Hlen Hf.
  { replace len with 0 by (cbn in Hf; lia). by rewrite Z.mul_0_r. }
  cbn [append_zeroes_loop]. destruct (Z.eqb_spec len 0) as [->|Hnz]; [by rewrite Z.mul_0_r|].
  pose proof (ctz_spec len ltac:(lia)) as Hr. set (r := CountTrailingZeroBits len) in *.
  set (q := Z.shiftr (Z.shiftr len (Z.of_nat r)) 1) in *.
  assert (0 <= q) as Hq by (unfold q; rewrite !Z.shiftr_nonneg; lia).
  clearbody r q. assert (0 < 2 ^ Z.of_nat r) as Hpr by (apply pow2_pos; lia).
  assert (0 < 2 ^ Z.of_nat j) as Hpj by (apply pow2_pos; lia).
  assert (j + r < 62)%nat as Hjr.
  { enough (Z.of_nat r < 62 - Z.of_nat j) by lia. apply (Z.pow_lt_mono_r_iff 2); nia. }
  rewrite crc32c_powers_nth by done.
  rewrite gf_multiply_mul, mul_shifts_one by done. rewrite !drop_drop.
  rewrite IH; [| by apply shifts_range | lia | split; [done|] | ].
  - rewrite <- shifts_add by (try apply Z.mul_nonneg_nonneg; lia).
    f_equal. rewrite Hr, !Nat2Z.inj_add, !Z.pow_add_r by lia. change (2 ^ Z.of_nat 1) with 2. ring.
  - apply (Z.mul_lt_mono_pos_l (2 ^ Z.of_nat (r + 1))); [apply pow2_pos; lia|].
    rewrite <- Z.pow_add_r by lia.
    replace (Z.of_nat (r + 1) + (62 - Z.of_nat (j + (r + 1)))) with (62 - Z.of_nat j) by lia.
    rewrite Nat2Z.inj_add, Z.pow_add_r by lia. change (2 ^ Z.of_nat 1) with 2.
    apply Z.le_lt_trans with len; [rewrite Hr; lia | apply Hlen].
  - rewrite Nat2Z.inj_succ, Z.pow_succ_r in Hf by lia. nia.
Qed.

Lemma Crc32AppendZeroes_spec crc n : is_u32 crc -> 0 <= n < 2 ^ 62 ->
  Crc32AppendZeroes crc n crc32c_m crc32c_powers = shifts (32 * n) crc.
Proof.
  intros Hcrc Hn. unfold Crc32AppendZeroes.
  rewrite <- (drop_0 crc32c_powers) at 1. rewrite append_zeroes_loop_spec; [|done|lia|done|lia].
  by rewrite Z.mul_1_r.
Qed.

(** ** Complements *)

Lemma lnot_u32 x : is_u32 x -> u32 (Z.lnot x) = Z.lxor x 0xffffffff.
Proof.
  intros Hx. unfold u32. rewrite <- Z.lxor_m1_r, <- Z.land_ones by lia. rewrite land_lxor_l.
  rewrite (Z.land_ones x) by lia. rewrite Z.mod_small by done. reflexivity.
Qed.

Lemma lxor_ones_cancel x : Z.lxor (Z.lxor x 0xffffffff) 0xffffffff = x.
Proof. by rewrite Z.lxor_assoc, Z.lxor_nilpotent, Z.lxor_0_r. Qed.

Lemma ones_u32 : is_u32 0xffffffff.
Proof. unfold is_u32. lia. Qed.
#[export] Hint Resolve ones_u32 crc_reg_range : rocks.

Lemma crc32c_range crc data : is_u32 crc -> is_u32 (crc32c crc data).
Proof. intros. unfold crc32c. auto with rocks. Qed.

Lemma Value_reg data : Value data = Z.lxor (crc_reg 0xffffffff data) 0xffffffff.
Proof. unfold Value. by rewrite Extend_spec. Qed.

Lemma Value_range data : is_u32 (Value data).
Proof. rewrite Value_reg. auto with rocks. Qed.

Lemma Extend_app crc a b : is_u32 crc -> Extend crc (a ++ b) = Extend (Extend crc a) b.
Proof.
  intros. rewrite !Extend_spec; try done; rewrite ?Extend_spec by done; [|by apply crc32c_range].
  unfold crc32c. by rewrite lxor_ones_cancel, crc_reg_app.
Qed.

(** Feeding zeros shifts the register. *)
Lemma crc_reg_zeros n l : crc_reg l (replicate n (to_byte 0)) = shifts (8 * Z.of_nat n) l.
Proof.
  rewrite <- (Z.lxor_0_l l) at 1. rewrite crc_reg_lxor, slen_replicate.
  replace (crc_reg 0 (replicate n (to_byte 0))) with 0; [apply Z.lxor_0_l|].
  induction n as [|n IH]; [done|]. cbn [replicate]. rewrite crc_reg_cons.
  change (crc_byte 0 (to_byte 0)) with 0. done.
Qed.

Lemma PureExtend_zeros tmp n : is_u32 tmp ->
  PureExtend tmp (replicate n (to_byte 0)) = shifts (8 * Z.of_nat n) tmp.
Proof.
  intros Ht. unfold PureExtend, InvertedToPure, PureToInverted. rewrite (lnot_u32 tmp) by done.
  assert (is_u32 (Z.lxor tmp 0xffffffff)) by auto with rocks.
  rewrite Extend_spec, lnot_u32 by (try apply crc32c_range; done).
  unfold crc32c. rewrite !lxor_ones_cancel. apply crc_reg_zeros.
Qed.

(** The checksum of a concatenation from the checksums of its parts. *)
Lemma Crc32cCombine_spec a b : slen b < 2 ^ 64 -> Crc32cCombine (Value a) (Value b) (slen b) = Value (a ++ b).
Proof.
  intros Hb. pose proof (slen_nonneg b) as Hb0. unfold Crc32cCombine, InvertedToPure, PureToInverted.
  rewrite !(lnot_u32 (Value _)) by apply Value_range. rewrite !Value_reg, !lxor_ones_cancel, crc_reg_app.
  change (u32 (-1)) with 0xffffffff. set (A := crc_reg 0xffffffff a).
  assert (is_u32 A) as HA by (apply crc_reg_range, ones_u32).
  assert (is_u32 (Z.lxor A 0xffffffff)) as HA' by auto with rocks.
  change (Z.land (slen b) 3) with (Z.land (slen b) (Z.ones 2)). rewrite land_ones_mod by lia.
  change (2 ^ 2) with 4. pose proof (Z.mod_pos_bound (slen b) 4 ltac:(lia)) as Hm.
  assert ((if slen b mod 4 =? 0 then Z.lxor A 0xffffffff
           else PureExtend (Z.lxor A 0xffffffff) (stake (slen b mod 4) (replicate 4 (to_byte 0)))) =
          shifts (8 * (slen b mod 4)) (Z.lxor A 0xffffffff)) as ->.
  { zcase; [by replace (slen b mod 4) with 0|]. unfold stake. rewrite take_replicate.
    rewrite PureExtend_zeros by done. do 2 f_equal. lia. }
  pose proof (Z.div_mod (slen b) 4 ltac:(lia)) as Hdm.
  rewrite Crc32AppendZeroes_spec by (try apply shifts_range; try done; lia).
  rewrite <- shifts_add by lia.
  replace (32 * (slen b / 4) + 8 * (slen b mod 4)) with (8 * slen b) by lia.
  rewrite lnot_u32 by (apply is_u32_lxor; [by apply shifts_range | auto with rocks]). f_equal.
  rewrite Z.lxor_comm, <- crc_reg_lxor. f_equal.
  rewrite Z.lxor_comm, Z.lxor_assoc, Z.lxor_nilpotent. apply Z.lxor_0_r.
Qed.

(** ** Masks *)

Definition rotate (c k : Z) : Z := Z.lor (Z.shiftr c k) (u32 (Z.shiftl c (32 - k))).

Lemma rotate_val c k : is_u32 c -> 0 < k < 32 -> rotate c k = c / 2 ^ k + (c mod 2 ^ k) * 2 ^ (32 - k).
Proof.
  intros Hc Hk. unfold rotate, u32. rewrite shiftr_div, Z.shiftl_mul_pow2 by lia.
  assert (2 ^ 32 = 2 ^ k * 2 ^ (32 - k)) as E by (rewrite <- Z.pow_add_r by lia; f_equal; lia).
  assert (0 < 2 ^ k) by (apply pow2_pos; lia). assert (0 < 2 ^ (32 - k)) by (apply pow2_pos; lia).
  rewrite E, Z.mul_mod_distr_r by lia. rewrite <- (Z.shiftl_mul_pow2 (c mod 2 ^ k)) at 1 by lia.
  apply lor_shiftl_add; [lia|]. unfold is_u32 in Hc.
  split; [apply Z.div_pos; lia|]. apply Z.div_lt_upper_bound; lia.
Qed.

Lemma rotate_back c k : is_u32 c -> 0 < k < 32 -> is_u32 (rotate c k) /\ rotate (rotate c k) (32 - k) = c.
Proof.
  intros Hc Hk. unfold is_u32 in *.
  assert (2 ^ 32 = 2 ^ k * 2 ^ (32 - k)) as E by (rewrite <- Z.pow_add_r by lia; f_equal; lia).
  assert (0 < 2 ^ k) by (apply pow2_pos; lia). assert (0 < 2 ^ (32 - k)) by (apply pow2_pos; lia).
  pose proof (Z.div_mod c (2 ^ k)). pose proof (Z.mod_pos_bound c (2 ^ k)).
  assert (0 <= c / 2 ^ k < 2 ^ (32 - k)) as Hd
    by (split; [apply Z.div_pos; lia | apply Z.div_lt_upper_bound; lia]).
  assert (is_u32 (rotate c k)) as Hr by (rewrite rotate_val by done; unfold is_u32; nia).
  split; [done|]. rewrite (rotate_val (rotate c k)) by (done || lia). rewrite rotate_val by done.
  rewrite Z.div_add, Z.mod_add, (Z.div_small (c / 2 ^ k)), (Z.mod_small (c / 2 ^ k)) by lia.
  replace (32 - (32 - k)) with k by lia. lia.
Qed.

Lemma Mask_rotate c : Mask c = u32 (rotate c 15 + kMaskDelta).
Proof. reflexivity. Qed.

Lemma Unmask_rotate c : Unmask c = rotate (u32 (c - kMaskDelta)) 17.
Proof. reflexivity. Qed.

Lemma Unmask_Mask c : is_u32 c -> Unmask (Mask c) = c.
Proof.
  intros Hc. destruct (rotate_back c 15 Hc ltac:(lia)) as [Hr Hb].
  rewrite Mask_rotate, Unmask_rotate. unfold u32 at 1 2. rewrite Zminus_mod_idemp_l.
  replace (rotate c 15 + kMaskDelta - kMaskDelta) with (rotate c 15) by lia.
  rewrite Z.mod_small by done. exact Hb.
Qed.

Lemma Mask_Unmask c : is_u32 c -> Mask (Unmask c) = c.
Proof.
  intros Hc. rewrite Mask_rotate, Unmask_rotate.
  destruct (rotate_back (u32 (c - kMaskDelta)) 17 (u32_range _) ltac:(lia)) as [Hr Hb].
  change (32 - 17) with 15 in Hb. rewrite Hb. unfold u32. rewrite Zplus_mod_idemp_l.
  replace (c - kMaskDelta + kMaskDelta) with c by lia. by apply Z.mod_small.
Qed.

Lemma Mask_range c : is_u32 (Mask c).
Proof. apply u32_range. Qed.

(** ** Properties *)

(** [C27] The table-driven loops of [ExtendImpl], which consume the unaligned
    head byte by byte and the rest sixteen and eight bytes at a time, compute
    the CRC-32C of the bit-serial shift register, for every buffer, starting
    checksum and address of the buffer; so extending the checksum of [a] by [b]
    gives the checksum of the concatenation. *)
Theorem crc32c_extend (pval crc : Z) (a b : bytes) :
  0 <= pval -> is_u32 crc ->
  ExtendImpl pval crc a = crc32c crc a /\
  Extend crc (a ++ b) = Extend (Extend crc a) b.
Proof. intros Hp Hc. split; [by apply ExtendImpl_spec | by apply Extend_app]. Qed.

Lemma crc32c_extend_witness :
  let digits := to_byte <$> [49; 50; 51; 52; 53; 54; 55; 56; 57] in
  Value digits = 0xe3069283 /\ ExtendImpl 4091 0 digits = crc32c 0 digits /\
  Extend 0 (digits ++ digits) = Extend (Extend 0 digits) digits.
Proof.
  split; [by vm_compute|]. apply crc32c_extend; [lia | unfold is_u32; lia].
Defined.

(** [C26] [Crc32cCombine] of the checksums of two strings, given only the
    length of the second, is the checksum of their concatenation, for every
    length a [size_t] can hold; and masking a stored checksum is undone by
    unmasking, in both directions. *)
Theorem crc32c_combine (a b : bytes) (crc : Z) :
  slen b < 2 ^ 64 -> is_u32 crc ->
  Crc32cCombine (Value a) (Value b) (slen b) = Value (a ++ b) /\
  Unmask (Mask crc) = crc /\ Mask (Unmask crc) = crc.
Proof.
  intros Hb Hc. split; [by apply Crc32cCombine_spec|]. split; [by apply Unmask_Mask | by apply Mask_Unmask].
Qed.

Lemma crc32c_combine_witness :
  let a := to_byte <$> [1; 2; 3; 4; 5; 6; 7] in
  let b := to_byte <$> [8; 9; 10; 11; 12; 13; 14; 15; 16; 17; 18] in
  Crc32cCombine (Value a) (Value b) 11 = Value (a ++ b) /\
  Unmask (Mask 0xdeadbeef) = 0xdeadbeef /\ Mask (Unmask 0xdeadbeef) = 0xdeadbeef.
Proof.
  intros a b. apply (crc32c_combine a b 0xdeadbeef); [by vm_compute | unfold is_u32; lia].
Defined.
