(* ===== verification/LogWriter.v ===== *)
(** * The write-ahead log: writing (db/log_format.h, db/log_writer.cc)

    A log is a sequence of 32 KiB blocks. [Writer::AddRecord] cuts a record
    into fragments that do not cross a block boundary, each behind a header
    with a masked CRC-32C, the length, the fragment type and, for recycled log
    files, the log number; a block tail too short for a header is filled with
    zeros.

    The destination ([WritableFileWriter]) and the streaming compressor are
    interfaces: the class [WritableFile] states what the writer relies on, and
    is instantiated by a file in memory and by a file that runs out of space. *)

From S2P Require Import Prelude Coding Crc32c.

(** ** log_format.h *)

Definition kZeroType : Z := 0.
Definition kFullType : Z := 1.
Definition kFirstType : Z := 2.
Definition kMiddleType : Z := 3.
Definition kLastType : Z := 4.
Definition kRecyclableFullType : Z := 5.
Definition kRecyclableFirstType : Z := 6.
Definition kRecyclableMiddleType : Z := 7.
Definition kRecyclableLastType : Z := 8.
Definition kSetCompressionType : Z := 9.
Definition kUserDefinedTimestampSizeType : Z := 10.
Definition kRecyclableUserDefinedTimestampSizeType : Z := 11.
Definition kMaxRecordType : Z := kRecyclableUserDefinedTimestampSizeType.

Definition kBlockSize : Z := 32768.
Definition kHeaderSize : Z := 4 + 2 + 1.
Definition kRecyclableHeaderSize : Z := 4 + 2 + 1 + 4.

(** ** Interfaces *)

(** What the log writer uses of [WritableFileWriter]: an append that succeeds
    adds its bytes, one that fails adds some prefix of them, and flushing does
    not change what has been accepted. *)
Class WritableFile (D : Type) := {
  w_contents : D -> bytes;
  w_Append : D -> bytes -> Status * D;
  w_Flush : D -> Status * D;
  w_Close : D -> Status * D;
  w_seen_error : D -> bool;
  w_BufferIsEmpty : D -> bool;
  w_Append_ok : forall d b s d', w_Append d b = (s, d') -> ok s = true -> w_contents d' = w_contents d ++ b;
  w_Append_err : forall d b s d', w_Append d b = (s, d') -> ok s = false ->
    exists p q, b = p ++ q /\ w_contents d' = w_contents d ++ p;
  w_Flush_contents : forall d s d', w_Flush d = (s, d') -> w_contents d' = w_contents d
}.

(** What it uses of [StreamingCompress] (util/compression.h): [Compress] is
    called with the whole input until it returns 0, and hands out a chunk of
    output each time; a negative result is an error. *)
Class StreamingCompress (C : Type) := {
  c_Create : Z -> Z -> option C;
  c_Reset : C -> C;
  c_Compress : C -> bytes -> Z * bytes * C
}.

(** ** Records with a fixed layout *)

(** [CompressionTypeRecord::EncodeTo] (util/compression.h). *)
Definition kNoCompression : Z := 0.
Definition kZSTD : Z := 7.
Definition CompressionTypeRecord_EncodeTo (dst : bytes) (compression_type : Z) : bytes :=
  PutFixed32 dst compression_type.

(** [UserDefinedTimestampSizeRecord::EncodeTo] (util/udt_util.h). *)
Definition UDTSizeRecord_EncodeTo (dst : bytes) (cf_to_ts_sz : list (Z * Z)) : bytes :=
  fold_left (fun dst '(cf_id, ts_sz) => PutFixed16 (PutFixed32 dst cf_id) (u16 ts_sz)) cf_to_ts_sz dst.

(** ** Writer *)

Section Writer.

Context {D C : Type} `{!WritableFile D} `{!StreamingCompress C}.

Record Writer := {
  dest_ : D;
  block_offset_ : Z;
  log_number_ : Z;
  recycle_log_files_ : bool;
  manual_flush_ : bool;
  compression_type_ : Z;
  compress_ : option C;
  recorded_cf_to_ts_sz_ : gmap Z Z
}.

Definition Writer_make (dest : D) (log_number : Z) (recycle_log_files manual_flush : bool)
    (compression_type : Z) : Writer :=
  {| dest_ := dest; block_offset_ := 0; log_number_ := log_number;
     recycle_log_files_ := recycle_log_files; manual_flush_ := manual_flush;
     compression_type_ := compression_type; compress_ := None; recorded_cf_to_ts_sz_ := ∅ |}.

Definition w_dest (w : Writer) (d : D) : Writer :=
  {| dest_ := d; block_offset_ := block_offset_ w; log_number_ := log_number_ w;
     recycle_log_files_ := recycle_log_files_ w; manual_flush_ := manual_flush_ w;
     compression_type_ := compression_type_ w; compress_ := compress_ w;
     recorded_cf_to_ts_sz_ := recorded_cf_to_ts_sz_ w |}.

Definition w_offset (w : Writer) (o : Z) : Writer :=
  {| dest_ := dest_ w; block_offset_ := o; log_number_ := log_number_ w;
     recycle_log_files_ := recycle_log_files_ w; manual_flush_ := manual_flush_ w;
     compression_type_ := compression_type_ w; compress_ := compress_ w;
     recorded_cf_to_ts_sz_ := recorded_cf_to_ts_sz_ w |}.

Definition w_compress (w : Writer) (t : Z) (c : option C) : Writer :=
  {| dest_ := dest_ w; block_offset_ := block_offset_ w; log_number_ := log_number_ w;
     recycle_log_files_ := recycle_log_files_ w; manual_flush_ := manual_flush_ w;
     compression_type_ := t; compress_ := c;
     recorded_cf_to_ts_sz_ := recorded_cf_to_ts_sz_ w |}.

Definition w_recorded (w : Writer) (m : gmap Z Z) : Writer :=
  {| dest_ := dest_ w; block_offset_ := block_offset_ w; log_number_ := log_number_ w;
     recycle_log_files_ := recycle_log_files_ w; manual_flush_ := manual_flush_ w;
     compression_type_ := compression_type_ w; compress_ := compress_ w;
     recorded_cf_to_ts_sz_ := m |}.

Definition header_size (recycle : bool) : Z := if recycle then kRecyclableHeaderSize else kHeaderSize.

(** [type_crc_[t]]. *)
Definition type_crc (t : Z) : Z := Value [to_byte t].

(** The test of [EmitPhysicalRecord] for the legacy format. *)
Definition is_legacy (t : Z) : bool :=
  (t <? kRecyclableFullType) || (t =? kSetCompressionType) || (t =? kUserDefinedTimestampSizeType).

(** The header of a physical record, as [EmitPhysicalRecord] formats it. *)
Definition format_header (log_number t : Z) (payload : bytes) : bytes :=
  let n := slen payload in
  let lognum := if is_legacy t then [] else EncodeFixed32 (u32 log_number) in
  let crc := if is_legacy t then type_crc t else Extend (type_crc t) lognum in
  let crc := Mask (Crc32cCombine crc (Value payload) n) in
  EncodeFixed32 crc ++ [to_byte (Z.land n 255); to_byte (Z.shiftr n 8); to_byte t] ++ lognum.

Definition EmitPhysicalRecord (w : Writer) (t : Z) (payload : bytes) : Status * Writer :=
  let header := format_header (log_number_ w) t payload in
  let '(s, d) := w_Append (dest_ w) header in
  let '(s, d) := if ok s then w_Append d payload else (s, d) in
  (s, w_offset (w_dest w d) (block_offset_ w + slen header + slen payload)).

(** The choice of the fragment type. *)
Definition fragment_type (recycle begin end_ : bool) : Z :=
  if begin && end_ then (if recycle then kRecyclableFullType else kFullType)
  else if begin then (if recycle then kRecyclableFirstType else kFirstType)
  else if end_ then (if recycle then kRecyclableLastType else kLastType)
  else (if recycle then kRecyclableMiddleType else kMiddleType).

(** Switching to a new block: the trailer is filled with zeros. *)
Definition switch_block (w : Writer) : Status * Writer :=
  let leftover := kBlockSize - block_offset_ w in
  if leftover <? header_size (recycle_log_files_ w) then
    if 0 <? leftover then
      let '(s, d) := w_Append (dest_ w) (replicate (Z.to_nat leftover) (to_byte 0)) in
      let w := w_dest w d in
      if ok s then (s, w_offset w 0) else (s, w)
    else (OK, w_offset w 0)
  else (OK, w).

(** The [do] loop of [AddRecord]; [rest] is what [ptr] and [left] denote.
    [None]: out of fuel. *)
Fixpoint AddRecord_loop (fuel : nat) (w : Writer) (slice rest : bytes) (begin : bool)
    (compress_remaining : Z) (compress_start : bool) : option (Status * Writer) :=
  match fuel with
  | O => None
  | S fuel' =>
      let '(s, w) := switch_block w in
      if negb (ok s) then Some (s, w)
      else
        let avail := kBlockSize - block_offset_ w - header_size (recycle_log_files_ w) in
        (* compress; [inl] breaks out of the loop *)
        let step : (Status * Writer) + (Writer * bytes * Z * bool) :=
          match compress_ w with
          | Some c =>
              if compress_start || (slen rest =? 0) then
                let '(remaining, out, c) := c_Compress c slice in
                let w := w_compress w (compression_type_ w) (Some c) in
                if remaining <? 0 then inl (IOError "Unexpected WAL compression error", w)
                else if (slen out =? 0) && negb compress_start then inl (s, w)
                else inr (w, out, remaining, false)
              else inr (w, rest, compress_remaining, compress_start)
          | None => inr (w, rest, compress_remaining, compress_start)
          end in
        match step with
        | inl r => Some r
        | inr (w, rest, compress_remaining, compress_start) =>
            let fragment_length := if slen rest <? avail then slen rest else avail in
            let end_ := (slen rest =? fragment_length) && (compress_remaining =? 0) in
            let type := fragment_type (recycle_log_files_ w) begin end_ in
            let '(s, w) := EmitPhysicalRecord w type (stake fragment_length rest) in
            let rest := sdrop fragment_length rest in
            if ok s && ((0 <? slen rest) || (0 <? compress_remaining))
            then AddRecord_loop fuel' w slice rest false compress_remaining compress_start
            else Some (s, w)
        end
  end.

(** The flush at the end of an operation. *)
Definition maybe_flush (s : Status) (w : Writer) : Status * Writer :=
  if ok s && negb (manual_flush_ w) then let '(s, d) := w_Flush (dest_ w) in (s, w_dest w d) else (s, w).

(** [PrepareIOOptions] only copies the options of the write. *)
Definition AddRecord (fuel : nat) (w : Writer) (slice : bytes) : option (Status * Writer) :=
  let w := match compress_ w with
           | Some c => w_compress w (compression_type_ w) (Some (c_Reset c))
           | None => w
           end in
  let compress_start := match compress_ w with Some _ => true | None => false end in
  match AddRecord_loop fuel w slice slice true 0 compress_start with
  | None => None
  | Some (s, w) => Some (maybe_flush s w)
  end.

(** Without compression every iteration but the first writes at least a byte
    of the record. *)
Definition AddRecord_fuel (slice : bytes) : nat := length slice + 2.

Definition AddCompressionTypeRecord (w : Writer) : Status * Writer :=
  if compression_type_ w =? kNoCompression then (OK, w)
  else
    let encode := CompressionTypeRecord_EncodeTo [] (compression_type_ w) in
    let '(s, w) := EmitPhysicalRecord w kSetCompressionType encode in
    if ok s then
      let '(s, w) := maybe_flush s w in
      let max_output_buffer_len := kBlockSize - header_size (recycle_log_files_ w) in
      (s, w_compress w (compression_type_ w) (c_Create (compression_type_ w) max_output_buffer_len))
    else (s, w_compress w kNoCompression (compress_ w)).

(** The column families of the map in the order in which it is iterated over,
    which is not specified: [cf_to_ts_sz] is the list of its entries. *)
Fixpoint ts_sz_to_record (recorded : gmap Z Z) (cf_to_ts_sz : list (Z * Z)) : list (Z * Z) * gmap Z Z :=
  match cf_to_ts_sz with
  | [] => ([], recorded)
  | (cf_id, ts_sz) :: l =>
      match recorded !! cf_id with
      | Some _ => ts_sz_to_record recorded l
      | None =>
          if negb (ts_sz =? 0) then
            let '(r, m) := ts_sz_to_record (<[cf_id := ts_sz]> recorded) l in ((cf_id, ts_sz) :: r, m)
          else ts_sz_to_record recorded l
      end
  end.

Definition MaybeAddUserDefinedTimestampSizeRecord (w : Writer) (cf_to_ts_sz : list (Z * Z)) : Status * Writer :=
  let '(to_record, recorded) := ts_sz_to_record (recorded_cf_to_ts_sz_ w) cf_to_ts_sz in
  let w := w_recorded w recorded in
  match to_record with
  | [] => (OK, w)
  | _ =>
      let type := if recycle_log_files_ w then kRecyclableUserDefinedTimestampSizeType
                  else kUserDefinedTimestampSizeType in
      EmitPhysicalRecord w type (UDTSizeRecord_EncodeTo [] to_record)
  end.

Definition WriteBuffer (w : Writer) : Status * Writer :=
  if w_seen_error (dest_ w) then (IOError "Seen error. Skip writing buffer.", w)
  else let '(s, d) := w_Flush (dest_ w) in (s, w_dest w d).

(** [Close]: the status, and the destination the writer lets go of. *)
Definition Close (w : Writer) : Status * D := w_Close (dest_ w).

(** ** The layout of a log *)

(** A physical record: header and payload. *)
Definition phys (log_number t : Z) (payload : bytes) : bytes := format_header log_number t payload ++ payload.

(** The trailer before a record that starts at [off] in a block, and where its
    first fragment starts. *)
Definition pad (recycle : bool) (off : Z) : bytes :=
  if kBlockSize - off <? header_size recycle then replicate (Z.to_nat (kBlockSize - off)) (to_byte 0) else [].
Definition start (recycle : bool) (off : Z) : Z :=
  if kBlockSize - off <? header_size recycle then 0 else off.

(** The bytes of the fragments of [rest] from offset [off], and the offset after
    them. *)
Fixpoint layout (fuel : nat) (recycle : bool) (log_number : Z) (off : Z) (rest : bytes) (begin : bool)
    : option (bytes * Z) :=
  match fuel with
  | O => None
  | S fuel' =>
      let n := Z.min (slen rest) (kBlockSize - start recycle off - header_size recycle) in
      let end_ := slen rest =? n in
      let p := pad recycle off ++ phys log_number (fragment_type recycle begin end_) (stake n rest) in
      let off' := start recycle off + header_size recycle + n in
      if end_ then Some (p, off')
      else match layout fuel' recycle log_number off' (sdrop n rest) false with
           | None => None
           | Some (b, o) => Some (p ++ b, o)
           end
  end.

End Writer.
Arguments Writer : clear implicits.

(** ** Headers *)

Lemma slen_format_header l t p :
  slen (format_header l t p) = if is_legacy t then kHeaderSize else kRecyclableHeaderSize.
Proof.
  unfold format_header. destruct (is_legacy t);
    rewrite !slen_app, ?slen_EncodeFixed32, !slen_cons; reflexivity.
Qed.

Lemma fragment_type_legacy recycle b e : is_legacy (fragment_type recycle b e) = negb recycle.
Proof. by destruct recycle, b, e. Qed.

Lemma slen_header recycle l b e p :
  slen (format_header l (fragment_type recycle b e) p) = header_size recycle.
Proof. rewrite slen_format_header, fragment_type_legacy. by destruct recycle. Qed.

Lemma header_size_range recycle : 7 <= header_size recycle <= 11.
Proof. destruct recycle; unfold header_size, kRecyclableHeaderSize, kHeaderSize; lia. Qed.

(** The checksum of the header covers the type, the log number and the payload. *)
Lemma format_header_crc l t p : slen p < 2 ^ 64 ->
  format_header l t p =
  let lognum := if is_legacy t then [] else EncodeFixed32 (u32 l) in
  EncodeFixed32 (Mask (Value (to_byte t :: lognum ++ p))) ++
  [to_byte (Z.land (slen p) 255); to_byte (Z.shiftr (slen p) 8); to_byte t] ++ lognum.
Proof.
  intros Hp. unfold format_header. cbv zeta. do 3 f_equal.
  destruct (is_legacy t).
  - unfold type_crc. by rewrite Crc32cCombine_spec.
  - assert (Extend (type_crc t) (EncodeFixed32 (u32 l)) = Value (to_byte t :: EncodeFixed32 (u32 l))) as ->.
    { unfold type_crc, Value. by rewrite <- Extend_app. }
    by rewrite Crc32cCombine_spec.
Qed.

Lemma slen_phys recycle l b e p : slen (phys l (fragment_type recycle b e) p) = header_size recycle + slen p.
Proof. unfold phys. by rewrite slen_app, slen_header. Qed.

(** ** The writer lays records out *)

Lemma start_range recycle off : 0 <= off <= kBlockSize ->
  0 <= start recycle off /\ start recycle off + header_size recycle <= kBlockSize.
Proof.
  intros. pose proof (header_size_range recycle). unfold start. zcase; unfold kBlockSize in *; lia.
Qed.

(** A fragment that is not the last one ends its block. *)
Lemma fragment_fits recycle off (rest : bytes) : 0 <= off <= kBlockSize ->
  let n := Z.min (slen rest) (kBlockSize - start recycle off - header_size recycle) in
  0 <= n <= slen rest /\ start recycle off + header_size recycle + n <= kBlockSize /\
  (n < slen rest -> start recycle off + header_size recycle + n = kBlockSize).
Proof. intros H. pose proof (start_range recycle off H). cbv zeta. slia. Qed.

Lemma start_full recycle : start recycle kBlockSize = 0.
Proof. destruct recycle; reflexivity. Qed.

Lemma pad_full recycle : pad recycle kBlockSize = [].
Proof. destruct recycle; reflexivity. Qed.

(** Enough fuel for the layout: one iteration may write an empty first
    fragment, every other one writes a byte or ends. *)
Lemma layout_fresh recycle l fuel rest begin : (length rest + 1 <= fuel)%nat ->
  exists r, layout fuel recycle l kBlockSize rest begin = Some r.
Proof.
  revert rest begin. induction fuel as [|fuel IH]; intros rest begin Hf; [lia|].
  cbn [layout]. rewrite start_full. pose proof (header_size_range recycle) as Hh.
  set (n := Z.min _ _). destruct (Z.eqb_spec (slen rest) n) as [|Hn]; [by eauto|].
  replace (0 + header_size recycle + n) with kBlockSize
    by (unfold n in *; pose proof (slen_nonneg rest); unfold kBlockSize in *; lia).
  destruct (IH (sdrop n rest) false) as [[b o] ->]; [|by eauto].
  unfold sdrop. rewrite length_drop. unfold n, slen, kBlockSize in *. lia.
Qed.

Lemma layout_total recycle l fuel off rest begin : 0 <= off <= kBlockSize ->
  (length rest + 2 <= fuel)%nat -> exists r, layout fuel recycle l off rest begin = Some r.
Proof.
  intros Hoff Hf. destruct fuel as [|fuel]; [lia|]. cbn [layout].
  pose proof (fragment_fits recycle off rest Hoff) as (Hn & Hle & Hfull).
  set (n := Z.min _ _) in *. destruct (Z.eqb_spec (slen rest) n) as [|Hne]; [by eauto|].
  rewrite Hfull by lia.
  destruct (layout_fresh recycle l fuel (sdrop n rest) false) as [[b o] ->]; [|by eauto].
  unfold sdrop. rewrite length_drop. lia.
Qed.

Lemma layout_mono recycle l f1 f2 off rest begin r : (f1 <= f2)%nat ->
  layout f1 recycle l off rest begin = Some r -> layout f2 recycle l off rest begin = Some r.
Proof.
  revert f2 off rest begin r. induction f1 as [|f1 IH]; intros f2 off rest begin r Hle; [done|].
  destruct f2 as [|f2]; [lia|]. cbn [layout]. destruct (_ =? _); [done|].
  destruct (layout f1 _ _ _ _ _) as [[b o]|] eqn:E; [|done].
  rewrite (IH f2 _ _ _ (b, o)) by (done || lia). done.
Qed.

(** One fragment of a layout, and the rest. *)
Lemma layout_inv recycle l fuel off rest begin b o : 0 <= off <= kBlockSize ->
  layout (S fuel) recycle l off rest begin = Some (b, o) ->
  exists payload rest' e b', rest = payload ++ rest' /\
    b = pad recycle off ++ phys l (fragment_type recycle begin e) payload ++ b' /\
    start recycle off + header_size recycle + slen payload <= kBlockSize /\
    ((e = true /\ rest' = [] /\ b' = [] /\ o = start recycle off + header_size recycle + slen payload) \/
     (e = false /\ start recycle off + header_size recycle + slen payload = kBlockSize /\
      layout fuel recycle l kBlockSize rest' false = Some (b', o))).
Proof.
  intros Hoff. cbn [layout]. pose proof (fragment_fits recycle off rest Hoff) as (Hn & Hle & Hfull).
  set (n := Z.min _ _) in *. intros HL.
  exists (stake n rest), (sdrop n rest), (slen rest =? n). rewrite stake_sdrop, slen_stake by done.
  destruct (Z.eqb_spec (slen rest) n) as [En|Hne].
  - injection HL as <- <-. exists []. rewrite app_nil_r. split_and!; [done|done|done|].
    left. split_and!; try done. apply sdrop_all. lia.
  - rewrite Hfull in HL by lia. destruct (layout fuel _ _ _ _ _) as [[b' o']|]; [|done]. injection HL as <- <-.
    exists b'. rewrite <- app_assoc. split_and!; [done|done|done|]. right. split_and!; [done|lia|done].
Qed.

(** The position of the first fragment in its block. *)
Lemma pad_start recycle off pos : 0 <= off <= kBlockSize -> (pos - off) mod kBlockSize = 0 ->
  (pos + slen (pad recycle off)) mod kBlockSize = start recycle off.
Proof.
  intros Hoff Hcong. pose proof (header_size_range recycle).
  apply Z.mod_divide in Hcong as [q Hq]; [|done]. assert (pos = off + q * kBlockSize) as -> by lia.
  unfold pad, start. zcase.
  - rewrite slen_replicate, Z2Nat.id by lia.
    replace (off + q * kBlockSize + (kBlockSize - off)) with ((q + 1) * kBlockSize) by lia. by apply Z.mod_mul.
  - rewrite slen_nil, Z.add_0_r, Z.mod_add by done. apply Z.mod_small. lia.
Qed.

(** The offset after a record is within its block. *)
Lemma layout_offset recycle l fuel off rest begin b o : 0 <= off <= kBlockSize ->
  layout fuel recycle l off rest begin = Some (b, o) ->
  0 <= o <= kBlockSize /\ (slen b + off - o) mod kBlockSize = 0.
Proof.
  revert off rest begin b o. induction fuel as [|fuel IH]; intros off rest begin b o Hoff HL; [done|].
  apply layout_inv in HL as (p & rest' & e & b' & -> & -> & Hfit & HL); [|done].
  pose proof (header_size_range recycle). pose proof (start_range recycle off Hoff).
  assert ((slen (pad recycle off) + off - start recycle off) mod kBlockSize = 0) as Hp.
  { unfold pad, start. zcase; [rewrite slen_replicate, Z2Nat.id by lia | rewrite slen_nil]; cbn.
    - replace (kBlockSize - off + off - 0) with kBlockSize by lia. done.
    - by rewrite Z.sub_diag. }
  rewrite !slen_app, slen_phys. apply Z.mod_divide in Hp as [q Hq]; [|done].
  destruct HL as [(-> & -> & -> & ->)|(-> & Hfull & HL)].
  - split; [slia|]. apply Z.mod_divide; [done|]. exists q. snil. lia.
  - apply IH in HL as [Ho Hm]; [|done]. split; [done|]. apply Z.mod_divide in Hm as [q' Hq']; [|done].
    apply Z.mod_divide; [done|]. exists (q + q'). lia.
Qed.

Section WriterSpec.

Context {D C : Type} `{!WritableFile D} `{!StreamingCompress C}.
Implicit Types w : Writer D C.

(** The part of the writer that writing a record does not touch. *)
Definition keeps w w' : Prop :=
  log_number_ w' = log_number_ w /\ recycle_log_files_ w' = recycle_log_files_ w /\
  manual_flush_ w' = manual_flush_ w /\ compress_ w' = compress_ w /\
  compression_type_ w' = compression_type_ w /\ recorded_cf_to_ts_sz_ w' = recorded_cf_to_ts_sz_ w.

(** The destination has received a prefix of [b], and all of it on success. *)
Definition wrote w (b : bytes) (s : Status) w' : Prop :=
  exists p q, b = p ++ q /\ w_contents (dest_ w') = w_contents (dest_ w) ++ p /\ (ok s = true -> q = []).

Lemma keeps_refl w : keeps w w.
Proof. by repeat split. Qed.

Lemma keeps_trans w1 w2 w3 : keeps w1 w2 -> keeps w2 w3 -> keeps w1 w3.
Proof. unfold keeps. intros (?&?&?&?&?&?) (?&?&?&?&?&?). split_and!; congruence. Qed.

Lemma wrote_nil w s w' : dest_ w' = dest_ w -> wrote w [] s w'.
Proof. intros E. exists [], []. rewrite E. split_and!; [done | by rewrite app_nil_r | done]. Qed.

(** A failed write, or a successful one followed by another. *)
Lemma wrote_stop w b c s w' : wrote w b s w' -> ok s = false -> wrote w (b ++ c) s w'.
Proof.
  intros (p & q & -> & Hc & _) Hs. exists p, (q ++ c). rewrite app_assoc. split_and!; [done|done|congruence].
Qed.

Lemma wrote_seq w b s w' c s' w'' : wrote w b s w' -> ok s = true -> wrote w' c s' w'' -> wrote w (b ++ c) s' w''.
Proof.
  intros (p & q & -> & Hc & Hq) Hs (p' & q' & -> & Hc' & Hq'). rewrite (Hq Hs), app_nil_r in *.
  exists (p ++ p'), q'. rewrite Hc', Hc, !app_assoc. done.
Qed.

Lemma append_wrote w b s d : w_Append (dest_ w) b = (s, d) -> wrote w b s (w_dest w d).
Proof.
  intros E. destruct (ok s) eqn:Hs.
  - exists b, []. rewrite app_nil_r. split_and!; [done| |done]. by apply (w_Append_ok _ _ s).
  - destruct (w_Append_err _ _ _ _ E Hs) as (p & q & Hb & Hc). exists p, q. split_and!; [done|done|congruence].
Qed.

Lemma switch_block_spec w s w' : block_offset_ w <= kBlockSize -> switch_block w = (s, w') ->
  keeps w w' /\ wrote w (pad (recycle_log_files_ w) (block_offset_ w)) s w' /\
  (ok s = true -> block_offset_ w' = start (recycle_log_files_ w) (block_offset_ w)).
Proof.
  intros Hoff. unfold switch_block, pad, start. destruct (_ <? header_size _).
  2:{ intros [= <- <-]. split_and!; [apply keeps_refl | by apply wrote_nil | done]. }
  zcase.
  - destruct (w_Append _ _) as [s1 d] eqn:E. pose proof (append_wrote _ _ _ _ E) as Hw.
    destruct (ok s1) eqn:Hs; intros [= <- <-]; split_and!; try done; congruence.
  - intros [= <- <-]. replace (Z.to_nat (kBlockSize - block_offset_ w)) with 0%nat by lia.
    split_and!; [by repeat split | by apply wrote_nil | done].
Qed.

Lemma EmitPhysicalRecord_spec w t payload s w' : EmitPhysicalRecord w t payload = (s, w') ->
  keeps w w' /\ wrote w (phys (log_number_ w) t payload) s w' /\
  block_offset_ w' = block_offset_ w + slen (format_header (log_number_ w) t payload) + slen payload.
Proof.
  unfold EmitPhysicalRecord, phys. destruct (w_Append _ _) as [s1 d1] eqn:E1.
  pose proof (append_wrote _ _ _ _ E1) as Hw1. destruct (ok s1) eqn:Hs1.
  - destruct (w_Append d1 payload) as [s2 d2] eqn:E2. intros [= <- <-]. split_and!; [by repeat split| |done].
    eapply wrote_seq; [exact Hw1 | done |]. by apply (append_wrote (w_dest w d1)).
  - intros [= <- <-]. split_and!; [by repeat split| |done]. by apply wrote_stop.
Qed.

(** Without compression the loop writes the layout, or a prefix of it when the
    destination fails. *)
Lemma AddRecord_loop_spec fuel w slice rest begin b o :
  compress_ w = None -> 0 <= block_offset_ w <= kBlockSize ->
  layout fuel (recycle_log_files_ w) (log_number_ w) (block_offset_ w) rest begin = Some (b, o) ->
  exists s w', AddRecord_loop fuel w slice rest begin 0 false = Some (s, w') /\
    keeps w w' /\ wrote w b s w' /\ (ok s = true -> block_offset_ w' = o).
Proof.
  revert w rest begin b o. induction fuel as [|fuel IH]; intros w rest begin b o Hc Hoff; [done|].
  cbn [layout AddRecord_loop].
  pose proof (fragment_fits (recycle_log_files_ w) _ rest Hoff) as (Hn & Hle & Hfull).
  set (n := Z.min _ _) in *.
  destruct (switch_block w) as [s1 w1] eqn:E1.
  apply switch_block_spec in E1 as (Hk1 & Hw1 & Ho1); [|lia].
  destruct (ok s1) eqn:Hs1; cbn [negb].
  2:{ intros HL. exists s1, w1. split_and!; [done|done| |congruence].
      destruct (slen rest =? n); [injection HL as <- <-; by apply wrote_stop|].
      destruct (layout fuel _ _ _ _ _) as [[b' o']|]; [|done]. injection HL as <- <-.
      rewrite <- app_assoc. by apply wrote_stop. }
  specialize (Ho1 eq_refl). pose proof Hk1 as (El & Er & _ & Ec & _).
  rewrite Ec, Hc. cbv iota. rewrite Er, Ho1.
  replace (if slen rest <? _ then slen rest else _) with n by (unfold n; zcase).
  change (0 =? 0) with true. change (0 <? 0) with false. rewrite andb_true_r, orb_false_r.
  destruct (EmitPhysicalRecord w1 _ _) as [s2 w2] eqn:E2.
  apply EmitPhysicalRecord_spec in E2 as (Hk2 & Hw2 & Ho2).
  rewrite El, slen_header, slen_stake, Ho1 in Ho2 by done. rewrite El in Hw2.
  assert (keeps w w2) as Hk by by eapply keeps_trans.
  pose proof (wrote_seq _ _ _ _ _ _ _ Hw1 Hs1 Hw2) as Hw.
  rewrite slen_sdrop by lia.
  destruct (Z.eqb_spec (slen rest) n) as [En|Hne].
  - intros [= <- <-]. replace (0 <? slen rest - n) with false by (symmetry; apply Z.ltb_ge; lia).
    rewrite andb_false_r. exists s2, w2. by split_and!.
  - replace (0 <? slen rest - n) with true by (symmetry; apply Z.ltb_lt; lia). rewrite andb_true_r.
    destruct (layout fuel _ _ _ _ _) as [[b' o']|] eqn:EL; [|done]. intros [= <- <-].
    destruct (ok s2) eqn:Hs2.
    + pose proof Hk as (El2 & Er2 & _ & Ec2 & _).
      destruct (IH w2 (sdrop n rest) false b' o') as (s & w' & Hl & Hk' & Hw' & Ho');
        [congruence | pose proof (header_size_range (recycle_log_files_ w)); pose proof (start_range (recycle_log_files_ w) _ Hoff); lia
        | by rewrite Er2, El2, Ho2 |].
      exists s, w'. split_and!; [done | by eapply keeps_trans | | done]. by eapply wrote_seq.
    + exists s2, w2. split_and!; [done|done| |congruence]. by apply wrote_stop.
Qed.

(** The layout of a record written at [off]. *)
Definition record_layout (recycle : bool) (log_number off : Z) (slice : bytes) : bytes * Z :=
  default ([], off) (layout (AddRecord_fuel slice) recycle log_number off slice true).

Lemma record_layout_spec recycle l off slice : 0 <= off <= kBlockSize ->
  layout (AddRecord_fuel slice) recycle l off slice true = Some (record_layout recycle l off slice).
Proof.
  intros Hoff. unfold record_layout.
  destruct (layout_total recycle l (AddRecord_fuel slice) off slice true Hoff) as [r ->]; [|done].
  unfold AddRecord_fuel. lia.
Qed.

(** [AddRecord] as a whole. *)
Lemma AddRecord_spec w slice :
  compress_ w = None -> 0 <= block_offset_ w <= kBlockSize ->
  let '(b, o) := record_layout (recycle_log_files_ w) (log_number_ w) (block_offset_ w) slice in
  exists s w', AddRecord (AddRecord_fuel slice) w slice = Some (s, w') /\
    keeps w w' /\ wrote w b s w' /\ (ok s = true -> block_offset_ w' = o).
Proof.
  intros Hc Hoff. destruct (record_layout _ _ _ _) as [b o] eqn:E.
  pose proof (record_layout_spec (recycle_log_files_ w) (log_number_ w) _ slice Hoff) as HL. rewrite E in HL.
  destruct (AddRecord_loop_spec _ w slice slice true b o Hc Hoff HL) as (s & w' & Hl & Hk & Hw & Ho).
  unfold AddRecord. rewrite !Hc, Hl. unfold maybe_flush.
  destruct (ok s) eqn:Hs; cbn [andb]; [|exists s, w'; rewrite Hs; by split_and!].
  destruct (manual_flush_ w'); cbn [negb]; [exists s, w'; rewrite Hs; by split_and!|].
  destruct (w_Flush (dest_ w')) as [s2 d2] eqn:Ef. exists s2, (w_dest w' d2). split_and!; [done| | |by intros _; apply Ho].
  - eapply keeps_trans; [exact Hk|]. by repeat split.
  - destruct Hw as (p & q & Hb & Hct & Hq). exists p, q. cbn. rewrite (w_Flush_contents _ _ _ Ef).
    split_and!; [done|done|]. intros _. by apply Hq.
Qed.

End WriterSpec.

(** ** Several records *)

Fixpoint log_layout (recycle : bool) (log_number off : Z) (rs : list bytes) : bytes :=
  match rs with
  | [] => []
  | x :: rs =>
      let '(b, o) := record_layout recycle log_number off x in b ++ log_layout recycle log_number o rs
  end.

Fixpoint log_offset (recycle : bool) (log_number off : Z) (rs : list bytes) : Z :=
  match rs with
  | [] => off
  | x :: rs => log_offset recycle log_number (snd (record_layout recycle log_number off x)) rs
  end.

(** [AddRecord] for each record until one fails. *)
Fixpoint AddRecords `{!WritableFile D} `{!StreamingCompress C} (w : Writer D C) (rs : list bytes)
    : option (Status * Writer D C) :=
  match rs with
  | [] => Some (OK, w)
  | x :: rs =>
      match AddRecord (AddRecord_fuel x) w x with
      | None => None
      | Some (s, w) => if ok s then AddRecords w rs else Some (s, w)
      end
  end.

Lemma record_layout_offset recycle l off x b o : 0 <= off <= kBlockSize ->
  record_layout recycle l off x = (b, o) -> 0 <= o <= kBlockSize /\ (slen b + off - o) mod kBlockSize = 0.
Proof. intros Hoff E. eapply layout_offset; [exact Hoff|]. by rewrite record_layout_spec, E. Qed.

Lemma AddRecords_spec `{!WritableFile D} `{!StreamingCompress C} (w : Writer D C) rs :
  compress_ w = None -> 0 <= block_offset_ w <= kBlockSize ->
  exists s w', AddRecords w rs = Some (s, w') /\ keeps w w' /\
    wrote w (log_layout (recycle_log_files_ w) (log_number_ w) (block_offset_ w) rs) s w' /\
    (ok s = true -> block_offset_ w' = log_offset (recycle_log_files_ w) (log_number_ w) (block_offset_ w) rs).
Proof.
  revert w. induction rs as [|x rs IH]; intros w Hc Hoff; cbn [AddRecords log_layout log_offset].
  { exists OK, w. split_and!; [done | apply keeps_refl | by apply wrote_nil | done]. }
  pose proof (AddRecord_spec w x Hc Hoff) as HA.
  destruct (record_layout _ _ _ x) as [b o] eqn:EL. destruct HA as (s & w1 & -> & Hk & Hw & Ho).
  destruct (ok s) eqn:Hs.
  - specialize (Ho eq_refl). pose proof Hk as (El & Er & _ & Ec & _).
    destruct (record_layout_offset _ _ _ _ _ _ Hoff EL) as [Hor _].
    destruct (IH w1) as (s2 & w2 & -> & Hk2 & Hw2 & Ho2); [congruence | by rewrite Ho |].
    rewrite Er, El, Ho in Hw2, Ho2. exists s2, w2.
    split_and!; [done | by eapply keeps_trans | by eapply wrote_seq | done].
  - exists s, w1. split_and!; [done | done | by apply wrote_stop | congruence].
Qed.

(** ** Files *)

(** A file in memory accepts everything. *)
#[export] Program Instance MemFile : WritableFile bytes := {|
  w_contents d := d;
  w_Append d b := (OK, d ++ b);
  w_Flush d := (OK, d);
  w_Close d := (OK, d);
  w_seen_error _ := false;
  w_BufferIsEmpty _ := true
|}.
Next Obligation. intros d b s d' [= <- <-] _. done. Qed.
Next Obligation. intros d b s d' [= <- <-]. done. Qed.
Next Obligation. intros d s d' [= <- <-]. done. Qed.

(** A file on a device with limited space: what it holds and what is free. *)
Record SmallFile := { sf_data : bytes; sf_free : nat }.

#[export] Program Instance SmallFile_writable : WritableFile SmallFile := {|
  w_contents := sf_data;
  w_Append d b :=
    (if (length b <=? sf_free d)%nat then OK else IOError "No space left on device",
     {| sf_data := sf_data d ++ take (sf_free d) b; sf_free := sf_free d - length b |});
  w_Flush d := (OK, d);
  w_Close d := (OK, d);
  w_seen_error _ := false;
  w_BufferIsEmpty _ := true
|}.
Next Obligation.
  intros d b s d' [= <- <-]. cbn. destruct (Nat.leb_spec (length b) (sf_free d)); [|done].
  intros _. by rewrite take_ge.
Qed.
Next Obligation.
  intros d b s d' [= <- <-] _. exists (take (sf_free d) b), (drop (sf_free d) b). by rewrite take_drop.
Qed.
Next Obligation. intros d s d' [= <- <-]. done. Qed.

(** A compressor for writers that do not compress. *)
#[export] Instance NoCompress : StreamingCompress Empty_set := {|
  c_Create _ _ := None; c_Reset c := c; c_Compress := fun (c : Empty_set) _ => match c with end
|}.

(** ** Properties *)

(** The offset the writer keeps is the position in the last block of the file;
    a block may be exactly full. *)
Definition aligned `{!WritableFile D} {C} (w : Writer D C) : Prop :=
  0 <= block_offset_ w <= kBlockSize /\ (slen (w_contents (dest_ w)) - block_offset_ w) mod kBlockSize = 0.

(** [C34] Without compression [AddRecord] returns for every record and every
    destination, with a number of iterations bounded by the length of the
    record. On success the file has grown by exactly the layout of the record
    (zero fill, then fragments of which none crosses the end of a block) and the
    offset kept by the writer is again the position in the last block; on
    failure the file has grown by a prefix of that layout. *)
Theorem add_record_layout `{!WritableFile D} `{!StreamingCompress C} (w : Writer D C) (slice : bytes) :
  compress_ w = None -> aligned w ->
  exists s w', AddRecord (AddRecord_fuel slice) w slice = Some (s, w') /\ keeps w w' /\
    let '(b, o) := record_layout (recycle_log_files_ w) (log_number_ w) (block_offset_ w) slice in
    exists p q, b = p ++ q /\ w_contents (dest_ w') = w_contents (dest_ w) ++ p /\
      (ok s = true -> q = [] /\ block_offset_ w' = o /\ aligned w').
Proof.
  intros Hc [Hoff Hal]. pose proof (AddRecord_spec w slice Hc Hoff) as HA.
  destruct (record_layout _ _ _ slice) as [b o] eqn:EL.
  destruct (record_layout_offset _ _ _ _ _ _ Hoff EL) as [Ho Hm].
  destruct HA as (s & w' & E & Hk & (p & q & Hb & Hct & Hq) & Hoff').
  exists s, w'. split_and!; [done|done|]. exists p, q. split_and!; [done|done|].
  intros Hs. rewrite (Hq Hs), app_nil_r in *. subst b. split_and!; [done | by apply Hoff' |].
  split; rewrite (Hoff' Hs); [done|]. rewrite Hct, slen_app.
  apply Z.mod_divide in Hal as [x Hx]; [|done]. apply Z.mod_divide in Hm as [y Hy]; [|done].
  apply Z.mod_divide; [done|]. exists (x + y). lia.
Qed.

Lemma add_record_layout_witness :
  let w := Writer_make (D:=bytes) (C:=Empty_set) [] 7 true false kNoCompression in
  let slice := to_byte <$> [1; 2; 3] in
  exists s w', AddRecord (AddRecord_fuel slice) w slice = Some (s, w') /\ keeps w w' /\
    let '(b, o) := record_layout (recycle_log_files_ w) (log_number_ w) (block_offset_ w) slice in
    exists p q, b = p ++ q /\ w_contents (dest_ w') = w_contents (dest_ w) ++ p /\
      (ok s = true -> q = [] /\ block_offset_ w' = o /\ aligned w').
Proof.
  intros w slice. apply (add_record_layout w slice); [reflexivity|].
  split; [unfold kBlockSize; cbn; lia | reflexivity].
Defined.
