(* ===== verification/LogReader.v ===== *)
(** * The write-ahead log: reading (db/log_reader.h, db/log_reader.cc)

    [Reader::ReadPhysicalRecord] reads the file block by block and checks each
    physical record (length, log number, CRC-32C); [Reader::ReadRecord] puts
    the fragments of a record together again and reacts to damaged data
    according to the recovery mode.

    The file ([SequentialFileReader]), the streaming hash (XXH3) and the
    streaming decompressor are interfaces. Slices into the reader's buffers are
    modelled by the bytes they denote while they are valid, that is until the
    next call. *)

From S2P Require Import Prelude Coding Crc32c LogWriter.

(** ** Interfaces *)

(** What the reader uses of [SequentialFileReader]: a read hands out the next
    bytes of the file, at most as many as asked for, and a successful read hands
    out fewer only at the end of the file. [remaining] is what is left to read;
    [healthy] files never fail. *)
Class SequentialFile (F : Type) := {
  Read : F -> Z -> Status * bytes * F;
  remaining : F -> bytes;
  healthy : F -> Prop;
  Read_spec : forall f n s b f', 0 <= n -> Read f n = (s, b, f') ->
    remaining f = b ++ remaining f' /\ slen b <= n /\
    (ok s = true -> slen b < n -> remaining f' = []);
  Read_healthy : forall f n s b f', healthy f -> Read f n = (s, b, f') -> ok s = true /\ healthy f'
}.

(** XXH3 (util/xxhash.h): the digest of a state fed with pieces is the hash of
    their concatenation. *)
Class StreamingHash (H : Type) := {
  XXH3_64bits : bytes -> Z;
  XXH3_64bits_reset : H;
  XXH3_64bits_update : H -> bytes -> H;
  XXH3_64bits_digest : H -> Z;
  XXH3_digest_spec : forall l,
    XXH3_64bits_digest (fold_left XXH3_64bits_update l XXH3_64bits_reset) = XXH3_64bits (concat l)
}.

(** [StreamingUncompress] (util/compression.h): [u_Uncompress] is called with
    an input, then without one, and hands out the output piece by piece.
    [u_Create] is [None] in a build without the library. The result is negative
    for an error and otherwise the number of input bytes left. A call hands out
    at most [max_output_len], which the reader sets to [kBlockSize]; a call that
    leaves input or fills the output has done some of the work there is,
    [u_left]. *)
Class StreamingUncompress (U : Type) := {
  u_Create : option U;
  u_Reset : U -> U;
  u_Uncompress : U -> option bytes -> Z * bytes * U;
  u_left : U -> option bytes -> nat;
  u_Uncompress_bound : forall u input n out u', u_Uncompress u input = (n, out, u') -> slen out <= kBlockSize;
  u_Uncompress_progress : forall u input n out u', u_Uncompress u input = (n, out, u') ->
    0 <= n -> 0 < n \/ slen out = kBlockSize -> (u_left u' None < u_left u input)%nat
}.

(** What [ZSTDStreamingUncompress] uses of the zstd library:
    [ZSTD_decompressStream] gets the unread input and the room for the output,
    and fails or hands out output and the number of input bytes it consumed.
    As zstd.h documents, a call that leaves input or fills the output has to be
    repeated, and goes forward: it consumes input, hands out output, or fails
    after a fixed number of calls that do neither. [zstd_work] counts what is
    left of these three. *)
Class ZSTD (D : Type) := {
  ZSTD_createDCtx : D;
  ZSTD_DCtx_reset : D -> D;
  ZSTD_decompressStream : D -> bytes -> Z -> option (bytes * Z) * D;
  zstd_work : D -> bytes -> nat;
  ZSTD_decompressStream_bound : forall d input room out k d', 0 < room ->
    ZSTD_decompressStream d input room = (Some (out, k), d') -> slen out <= room /\ 0 <= k <= slen input;
  ZSTD_decompressStream_forward : forall d input room out k d', 0 < room ->
    ZSTD_decompressStream d input room = (Some (out, k), d') -> k < slen input \/ slen out = room ->
    (zstd_work d' (sdrop k input) < zstd_work d input)%nat
}.

(** ** ZSTDStreamingUncompress (util/compression.cc) *)

(** [dctx_] and what [input_buffer_] has left. *)
Record ZSTDStreamingUncompress (D : Type) := { dctx_ : D; input_buffer_ : bytes }.
Arguments dctx_ {D}.
Arguments input_buffer_ {D}.

Definition ZSTD_Reset `{!ZSTD D} (u : ZSTDStreamingUncompress D) : ZSTDStreamingUncompress D :=
  {| dctx_ := ZSTD_DCtx_reset (dctx_ u); input_buffer_ := [] |}.

(** The reader passes [length] as the size of the input in every call, and stops
    after the first one when it is zero. *)
Definition ZSTD_Uncompress `{!ZSTD D} (u : ZSTDStreamingUncompress D) (input : option bytes)
    : Z * bytes * ZSTDStreamingUncompress D :=
  match input with
  | Some [] => (0, [], u)
  | _ =>
      let buf := match input with Some b => b | None => input_buffer_ u end in
      match ZSTD_decompressStream (dctx_ u) buf kBlockSize with
      | (None, d) => (-1, [], ZSTD_Reset {| dctx_ := d; input_buffer_ := buf |})
      | (Some (out, k), d) =>
          let rest := sdrop k buf in
          (slen rest, out, {| dctx_ := d; input_buffer_ := rest |})
      end
  end.

#[export] Program Instance ZSTDStreaming `{!ZSTD D} : StreamingUncompress (ZSTDStreamingUncompress D) := {|
  u_Create := Some {| dctx_ := ZSTD_createDCtx; input_buffer_ := [] |};
  u_Reset := ZSTD_Reset;
  u_Uncompress := ZSTD_Uncompress;
  u_left u input := zstd_work (dctx_ u) (match input with Some b => b | None => input_buffer_ u end)
|}.
Next Obligation.
  intros D HD u input n out u'. unfold ZSTD_Uncompress.
  destruct input as [[|x b]|]; [by intros [= <- <- <-]| |];
    destruct (ZSTD_decompressStream _ _ _) as [[[o k]|] d] eqn:E; intros [= <- <- <-]; try done;
    by apply ZSTD_decompressStream_bound in E as [??].
Qed.
Next Obligation.
  intros D HD u input n out u'. unfold ZSTD_Uncompress.
  assert (forall buf, match ZSTD_decompressStream (dctx_ u) buf kBlockSize with
      | (None, d) => (-1, [], ZSTD_Reset {| dctx_ := d; input_buffer_ := buf |})
      | (Some (o, k), d) => (slen (sdrop k buf), o, {| dctx_ := d; input_buffer_ := sdrop k buf |})
      end = (n, out, u') -> 0 <= n -> 0 < n \/ slen out = kBlockSize ->
      (zstd_work (dctx_ u') (input_buffer_ u') < zstd_work (dctx_ u) buf)%nat) as Hgo.
  { intros buf. destruct (ZSTD_decompressStream _ _ _) as [[[o k]|] d] eqn:E; intros [= <- <- <-] Hn Hgo; [|done].
    pose proof (ZSTD_decompressStream_bound _ _ kBlockSize _ _ _ eq_refl E) as [_ Hk].
    apply (ZSTD_decompressStream_forward _ _ kBlockSize _ _ _ eq_refl E).
    destruct Hgo as [Hgo|]; [left | by right]. rewrite slen_sdrop in Hgo by lia. lia. }
  destruct input as [[|x b]|]; [|apply Hgo..]. intros [= <- <- <-] _ [?|?]; [lia|done].
Qed.

(** ** Records with a fixed layout *)

Definition CompressionTypeRecord_DecodeFrom `{!StreamingUncompress U} (src : bytes)
    : Status * Z * bytes :=
  match GetFixed32 src with
  | None => (Corruption "CompressionTypeRecord: Error decoding WAL compression type", kNoCompression, src)
  | Some (val, src) =>
      let compression_type := val mod 256 in
      if (compression_type =? kNoCompression) ||
         ((compression_type =? kZSTD) && match u_Create with Some _ => true | None => false end)
      then (OK, compression_type, src)
      else (Corruption "CompressionTypeRecord: WAL compression type not supported", kNoCompression, src)
  end.

Definition kSizePerColumnFamily : Z := 4 + 2.

Fixpoint UDTSizeRecord_entries (num_of_entries : nat) (src : bytes) (acc : list (Z * Z))
    : Status * list (Z * Z) * bytes :=
  match num_of_entries with
  | O => (OK, acc, src)
  | S n =>
      match GetFixed32 src with
      | None => (Corruption "Error decoding user-defined timestamp size record entry", acc, src)
      | Some (cf_id, src) =>
          match GetFixed16 src with
          | None => (Corruption "Error decoding user-defined timestamp size record entry", acc, src)
          | Some (ts_sz, src) => UDTSizeRecord_entries n src (acc ++ [(cf_id, ts_sz)])
          end
      end
  end.

Definition UDTSizeRecord_DecodeFrom (src : bytes) : Status * list (Z * Z) * bytes :=
  let total_size := slen src in
  if negb (total_size mod kSizePerColumnFamily =? 0)
  then (Corruption ("User-defined timestamp size record length: " +:+ pretty total_size +:+
                    " is not a multiple of " +:+ pretty kSizePerColumnFamily +:+ String (Ascii.ascii_of_nat 10) ""), [], src)
  else UDTSizeRecord_entries (Z.to_nat (total_size / kSizePerColumnFamily)) src [].

(** ** Reader *)

Inductive WALRecoveryMode :=
| kTolerateCorruptedTailRecords | kAbsoluteConsistency | kPointInTimeRecovery | kSkipAnyCorruptedRecords.

Definition kEof : Z := kMaxRecordType + 1.
Definition kBadRecord : Z := kMaxRecordType + 2.
Definition kBadHeader : Z := kMaxRecordType + 3.
Definition kOldRecord : Z := kMaxRecordType + 4.
Definition kBadRecordLen : Z := kMaxRecordType + 5.
Definition kBadRecordChecksum : Z := kMaxRecordType + 6.

Section Reader.

Context {F H U : Type} `{!SequentialFile F} `{!StreamingHash H} `{!StreamingUncompress U}.

(** [reporter_] is the list of what has been reported, or [None] without a
    reporter. *)
Record Reader := {
  file_ : F;
  reporter_ : option (list (Z * Status));
  checksum_ : bool;
  buffer_ : bytes;
  eof_ : bool;
  read_error_ : bool;
  eof_offset_ : Z;
  last_record_offset_ : Z;
  end_of_buffer_offset_ : Z;
  rd_log_number_ : Z;
  recycled_ : bool;
  first_record_read_ : bool;
  rd_compression_type_ : Z;
  compression_type_record_read_ : bool;
  uncompress_ : option U;
  hash_state_ : option H;
  uncompress_hash_state_ : option H;
  rd_recorded_cf_to_ts_sz_ : gmap Z Z
}.

Definition r_reporter (r : Reader) (v0 : option (list (Z * Status))) : Reader :=
  {| file_ := file_ r; reporter_ := v0; checksum_ := checksum_ r; buffer_ := buffer_ r; eof_ := eof_ r;
     read_error_ := read_error_ r; eof_offset_ := eof_offset_ r; last_record_offset_ := last_record_offset_ r;
     end_of_buffer_offset_ := end_of_buffer_offset_ r; rd_log_number_ := rd_log_number_ r;
     recycled_ := recycled_ r; first_record_read_ := first_record_read_ r;
     rd_compression_type_ := rd_compression_type_ r;
     compression_type_record_read_ := compression_type_record_read_ r; uncompress_ := uncompress_ r;
     hash_state_ := hash_state_ r; uncompress_hash_state_ := uncompress_hash_state_ r;
     rd_recorded_cf_to_ts_sz_ := rd_recorded_cf_to_ts_sz_ r |}.

Definition r_buffer (r : Reader) (v0 : bytes) : Reader :=
  {| file_ := file_ r; reporter_ := reporter_ r; checksum_ := checksum_ r; buffer_ := v0; eof_ := eof_ r;
     read_error_ := read_error_ r; eof_offset_ := eof_offset_ r; last_record_offset_ := last_record_offset_ r;
     end_of_buffer_offset_ := end_of_buffer_offset_ r; rd_log_number_ := rd_log_number_ r;
     recycled_ := recycled_ r; first_record_read_ := first_record_read_ r;
     rd_compression_type_ := rd_compression_type_ r;
     compression_type_record_read_ := compression_type_record_read_ r; uncompress_ := uncompress_ r;
     hash_state_ := hash_state_ r; uncompress_hash_state_ := uncompress_hash_state_ r;
     rd_recorded_cf_to_ts_sz_ := rd_recorded_cf_to_ts_sz_ r |}.

Definition r_read (r : Reader) (v0 : F) (v1 : bytes) (v2 : Z) : Reader :=
  {| file_ := v0; reporter_ := reporter_ r; checksum_ := checksum_ r; buffer_ := v1; eof_ := eof_ r;
     read_error_ := read_error_ r; eof_offset_ := eof_offset_ r; last_record_offset_ := last_record_offset_ r;
     end_of_buffer_offset_ := v2; rd_log_number_ := rd_log_number_ r; recycled_ := recycled_ r;
     first_record_read_ := first_record_read_ r; rd_compression_type_ := rd_compression_type_ r;
     compression_type_record_read_ := compression_type_record_read_ r; uncompress_ := uncompress_ r;
     hash_state_ := hash_state_ r; uncompress_hash_state_ := uncompress_hash_state_ r;
     rd_recorded_cf_to_ts_sz_ := rd_recorded_cf_to_ts_sz_ r |}.

Definition r_eof (r : Reader) (v0 : bool) (v1 : Z) : Reader :=
  {| file_ := file_ r; reporter_ := reporter_ r; checksum_ := checksum_ r; buffer_ := buffer_ r; eof_ := v0;
     read_error_ := read_error_ r; eof_offset_ := v1; last_record_offset_ := last_record_offset_ r;
     end_of_buffer_offset_ := end_of_buffer_offset_ r; rd_log_number_ := rd_log_number_ r;
     recycled_ := recycled_ r; first_record_read_ := first_record_read_ r;
     rd_compression_type_ := rd_compression_type_ r;
     compression_type_record_read_ := compression_type_record_read_ r; uncompress_ := uncompress_ r;
     hash_state_ := hash_state_ r; uncompress_hash_state_ := uncompress_hash_state_ r;
     rd_recorded_cf_to_ts_sz_ := rd_recorded_cf_to_ts_sz_ r |}.

Definition r_read_error (r : Reader) (v0 : bool) : Reader :=
  {| file_ := file_ r; reporter_ := reporter_ r; checksum_ := checksum_ r; buffer_ := buffer_ r;
     eof_ := eof_ r; read_error_ := v0; eof_offset_ := eof_offset_ r;
     last_record_offset_ := last_record_offset_ r; end_of_buffer_offset_ := end_of_buffer_offset_ r;
     rd_log_number_ := rd_log_number_ r; recycled_ := recycled_ r; first_record_read_ := first_record_read_ r;
     rd_compression_type_ := rd_compression_type_ r;
     compression_type_record_read_ := compression_type_record_read_ r; uncompress_ := uncompress_ r;
     hash_state_ := hash_state_ r; uncompress_hash_state_ := uncompress_hash_state_ r;
     rd_recorded_cf_to_ts_sz_ := rd_recorded_cf_to_ts_sz_ r |}.

Definition r_last (r : Reader) (v0 : Z) : Reader :=
  {| file_ := file_ r; reporter_ := reporter_ r; checksum_ := checksum_ r; buffer_ := buffer_ r;
     eof_ := eof_ r; read_error_ := read_error_ r; eof_offset_ := eof_offset_ r; last_record_offset_ := v0;
     end_of_buffer_offset_ := end_of_buffer_offset_ r; rd_log_number_ := rd_log_number_ r;
     recycled_ := recycled_ r; first_record_read_ := first_record_read_ r;
     rd_compression_type_ := rd_compression_type_ r;
     compression_type_record_read_ := compression_type_record_read_ r; uncompress_ := uncompress_ r;
     hash_state_ := hash_state_ r; uncompress_hash_state_ := uncompress_hash_state_ r;
     rd_recorded_cf_to_ts_sz_ := rd_recorded_cf_to_ts_sz_ r |}.

Definition r_recycled (r : Reader) (v0 : bool) : Reader :=
  {| file_ := file_ r; reporter_ := reporter_ r; checksum_ := checksum_ r; buffer_ := buffer_ r;
     eof_ := eof_ r; read_error_ := read_error_ r; eof_offset_ := eof_offset_ r;
     last_record_offset_ := last_record_offset_ r; end_of_buffer_offset_ := end_of_buffer_offset_ r;
     rd_log_number_ := rd_log_number_ r; recycled_ := v0; first_record_read_ := first_record_read_ r;
     rd_compression_type_ := rd_compression_type_ r;
     compression_type_record_read_ := compression_type_record_read_ r; uncompress_ := uncompress_ r;
     hash_state_ := hash_state_ r; uncompress_hash_state_ := uncompress_hash_state_ r;
     rd_recorded_cf_to_ts_sz_ := rd_recorded_cf_to_ts_sz_ r |}.

Definition r_first_read (r : Reader) (v0 : bool) : Reader :=
  {| file_ := file_ r; reporter_ := reporter_ r; checksum_ := checksum_ r; buffer_ := buffer_ r;
     eof_ := eof_ r; read_error_ := read_error_ r; eof_offset_ := eof_offset_ r;
     last_record_offset_ := last_record_offset_ r; end_of_buffer_offset_ := end_of_buffer_offset_ r;
     rd_log_number_ := rd_log_number_ r; recycled_ := recycled_ r; first_record_read_ := v0;
     rd_compression_type_ := rd_compression_type_ r;
     compression_type_record_read_ := compression_type_record_read_ r; uncompress_ := uncompress_ r;
     hash_state_ := hash_state_ r; uncompress_hash_state_ := uncompress_hash_state_ r;
     rd_recorded_cf_to_ts_sz_ := rd_recorded_cf_to_ts_sz_ r |}.

Definition r_compression (r : Reader) (v0 : Z) (v1 : bool) (v2 : option U) : Reader :=
  {| file_ := file_ r; reporter_ := reporter_ r; checksum_ := checksum_ r; buffer_ := buffer_ r;
     eof_ := eof_ r; read_error_ := read_error_ r; eof_offset_ := eof_offset_ r;
     last_record_offset_ := last_record_offset_ r; end_of_buffer_offset_ := end_of_buffer_offset_ r;
     rd_log_number_ := rd_log_number_ r; recycled_ := recycled_ r; first_record_read_ := first_record_read_ r;
     rd_compression_type_ := v0; compression_type_record_read_ := v1; uncompress_ := v2;
     hash_state_ := hash_state_ r; uncompress_hash_state_ := uncompress_hash_state_ r;
     rd_recorded_cf_to_ts_sz_ := rd_recorded_cf_to_ts_sz_ r |}.

Definition r_uncompress (r : Reader) (v0 : option U) : Reader :=
  {| file_ := file_ r; reporter_ := reporter_ r; checksum_ := checksum_ r; buffer_ := buffer_ r;
     eof_ := eof_ r; read_error_ := read_error_ r; eof_offset_ := eof_offset_ r;
     last_record_offset_ := last_record_offset_ r; end_of_buffer_offset_ := end_of_buffer_offset_ r;
     rd_log_number_ := rd_log_number_ r; recycled_ := recycled_ r; first_record_read_ := first_record_read_ r;
     rd_compression_type_ := rd_compression_type_ r;
     compression_type_record_read_ := compression_type_record_read_ r; uncompress_ := v0;
     hash_state_ := hash_state_ r; uncompress_hash_state_ := uncompress_hash_state_ r;
     rd_recorded_cf_to_ts_sz_ := rd_recorded_cf_to_ts_sz_ r |}.

Definition r_hash (r : Reader) (v0 : option H) : Reader :=
  {| file_ := file_ r; reporter_ := reporter_ r; checksum_ := checksum_ r; buffer_ := buffer_ r;
     eof_ := eof_ r; read_error_ := read_error_ r; eof_offset_ := eof_offset_ r;
     last_record_offset_ := last_record_offset_ r; end_of_buffer_offset_ := end_of_buffer_offset_ r;
     rd_log_number_ := rd_log_number_ r; recycled_ := recycled_ r; first_record_read_ := first_record_read_ r;
     rd_compression_type_ := rd_compression_type_ r;
     compression_type_record_read_ := compression_type_record_read_ r; uncompress_ := uncompress_ r;
     hash_state_ := v0; uncompress_hash_state_ := uncompress_hash_state_ r;
     rd_recorded_cf_to_ts_sz_ := rd_recorded_cf_to_ts_sz_ r |}.

Definition r_uhash (r : Reader) (v0 : option H) : Reader :=
  {| file_ := file_ r; reporter_ := reporter_ r; checksum_ := checksum_ r; buffer_ := buffer_ r;
     eof_ := eof_ r; read_error_ := read_error_ r; eof_offset_ := eof_offset_ r;
     last_record_offset_ := last_record_offset_ r; end_of_buffer_offset_ := end_of_buffer_offset_ r;
     rd_log_number_ := rd_log_number_ r; recycled_ := recycled_ r; first_record_read_ := first_record_read_ r;
     rd_compression_type_ := rd_compression_type_ r;
     compression_type_record_read_ := compression_type_record_read_ r; uncompress_ := uncompress_ r;
     hash_state_ := hash_state_ r; uncompress_hash_state_ := v0;
     rd_recorded_cf_to_ts_sz_ := rd_recorded_cf_to_ts_sz_ r |}.

Definition r_recorded (r : Reader) (v0 : gmap Z Z) : Reader :=
  {| file_ := file_ r; reporter_ := reporter_ r; checksum_ := checksum_ r; buffer_ := buffer_ r;
     eof_ := eof_ r; read_error_ := read_error_ r; eof_offset_ := eof_offset_ r;
     last_record_offset_ := last_record_offset_ r; end_of_buffer_offset_ := end_of_buffer_offset_ r;
     rd_log_number_ := rd_log_number_ r; recycled_ := recycled_ r; first_record_read_ := first_record_read_ r;
     rd_compression_type_ := rd_compression_type_ r;
     compression_type_record_read_ := compression_type_record_read_ r; uncompress_ := uncompress_ r;
     hash_state_ := hash_state_ r; uncompress_hash_state_ := uncompress_hash_state_ r;
     rd_recorded_cf_to_ts_sz_ := v0 |}.

Definition Reader_make (file : F) (reporter : option (list (Z * Status))) (checksum : bool) (log_num : Z)
    : Reader :=
  {| file_ := file; reporter_ := reporter; checksum_ := checksum; buffer_ := []; eof_ := false;
     read_error_ := false; eof_offset_ := 0; last_record_offset_ := 0; end_of_buffer_offset_ := 0;
     rd_log_number_ := log_num; recycled_ := false; first_record_read_ := false;
     rd_compression_type_ := kNoCompression; compression_type_record_read_ := false;
     uncompress_ := None; hash_state_ := None; uncompress_hash_state_ := None;
     rd_recorded_cf_to_ts_sz_ := ∅ |}.

Definition ReportDrop (r : Reader) (bytes : Z) (reason : Status) : Reader :=
  r_reporter r (match reporter_ r with None => None | Some l => Some (l ++ [(bytes, reason)]) end).

Definition ReportCorruption (r : Reader) (bytes : Z) (reason : string) : Reader :=
  ReportDrop r bytes (Corruption reason).

Definition LastRecordOffset (r : Reader) : Z := last_record_offset_ r.
Definition LastRecordEnd (r : Reader) : Z := end_of_buffer_offset_ r - slen (buffer_ r).

(** [ReadMore]: [None] when it returns true, otherwise the error and the size of
    the dropped data. *)
Definition ReadMore (r : Reader) : Reader * option (Z * Z) :=
  if negb (eof_ r) && negb (read_error_ r) then
    let '(status, b, f) := Read (file_ r) kBlockSize in
    let r := r_read r f b (end_of_buffer_offset_ r + slen b) in
    if negb (ok status) then
      (r_read_error (ReportDrop (r_buffer r []) kBlockSize status) true, Some (kEof, 0))
    else if slen b <? kBlockSize then (r_eof r true (slen b), None)
    else (r, None)
  else if negb (slen (buffer_ r) =? 0) then (r_buffer r [], Some (kBadHeader, slen (buffer_ r)))
  else (r_buffer r [], Some (kEof, 0)).

(** The block ends in the middle of a block: read its rest behind what is left
    in the buffer. *)
Definition UnmarkEOFInternal (r : Reader) : Reader :=
  let remaining_ := kBlockSize - eof_offset_ r in
  let '(status, b, f) := Read (file_ r) remaining_ in
  let added := slen b in
  let end_ := end_of_buffer_offset_ r + added in
  if negb (ok status) then
    let r := r_read r f (buffer_ r) end_ in
    let r := if 0 <? added then ReportDrop r added status else r in
    r_read_error r true
  else
    let r := r_read r f (buffer_ r ++ b) end_ in
    if added <? remaining_ then r_eof r true (eof_offset_ r + added)
    else r_eof r (eof_ r) 0.

Definition UnmarkEOF (r : Reader) : Reader :=
  if read_error_ r then r
  else
    let r := r_eof r false (eof_offset_ r) in
    if eof_offset_ r =? 0 then r else UnmarkEOFInternal r.

(** [const unsigned int type = header[6]] with a signed [char]. *)
Definition char_to_uint (b : byte) : Z := if ub b <? 128 then ub b else ub b + 2 ^ 32 - 256.

Definition is_recyclable_type (type : Z) : bool :=
  ((kRecyclableFullType <=? type) && (type <=? kRecyclableLastType)) ||
  (type =? kRecyclableUserDefinedTimestampSizeType).

(** The [do] loop over the output of the decompressor; [inl] is its error. The
    work there is bounds the number of calls. *)
Fixpoint uncompress_loop (fuel : nat) (u : U) (input : option bytes) (hash : option H) (acc : bytes)
    : option ((U * option H) + (U * option H * bytes)) :=
  match fuel with
  | O => None
  | S fuel' =>
      let '(remaining_, out, u) := u_Uncompress u input in
      if remaining_ <? 0 then Some (inl (u, hash))
      else
        let hash := if 0 <? slen out then (fun h => XXH3_64bits_update h out) <$> hash else hash in
        let acc := acc ++ out in
        if (0 <? remaining_) || (slen out =? kBlockSize)
        then uncompress_loop fuel' u None hash acc
        else Some (inr (u, hash, acc))
  end.

(** Type or error, fragment, drop size, [*fragment_checksum] and the reader. *)
Definition Physical : Type := Z * bytes * Z * option Z * Reader.

(** The end of [ReadPhysicalRecord]: the fragment is taken from the buffer or
    decompressed. [fragment_checksum] is [None] for a null pointer. *)
Definition finish_record (r : Reader) (type : Z) (payload : bytes) (fragment_checksum : option Z)
    : option Physical :=
  match uncompress_ r with
  | Some u =>
      if (type =? kSetCompressionType) || (type =? kUserDefinedTimestampSizeType) ||
         (type =? kRecyclableUserDefinedTimestampSizeType)
      then Some (type, payload, 0, fragment_checksum, r)
      else
        let hash := match fragment_checksum with Some _ => Some XXH3_64bits_reset | None => None end in
        let store u hash r :=
          let r := r_uncompress r (Some u) in
          match hash with Some _ => r_uhash r hash | None => r end in
        match uncompress_loop (S (u_left u (Some payload))) u (Some payload) hash [] with
        | None => None
        | Some (inl (u, hash)) => Some (kBadRecord, [], 0, fragment_checksum, r_buffer (store u hash r) [])
        | Some (inr (u, hash, record)) =>
            let r := store u hash r in
            match hash with
            | Some h =>
                let sum := XXH3_64bits_digest h in
                if negb (sum =? XXH3_64bits record) then Some (kBadRecord, [], 0, Some sum, r)
                else Some (type, record, 0, Some sum, r)
            | None => Some (type, record, 0, fragment_checksum, r)
            end
        end
  | None => Some (type, payload, 0, fragment_checksum, r)
  end.

(** The part of [ReadPhysicalRecord] after the header has been found to be
    complete. *)
Definition parse_record (r : Reader) (type length header_size : Z) (fragment_checksum : option Z)
    : option Physical :=
  let header := buffer_ r in
  if slen (buffer_ r) <? header_size + length
  then Some (kBadRecordLen, [], slen (buffer_ r), fragment_checksum, r_buffer r [])
  else if is_recyclable_type type && negb (DecodeFixed32 (sdrop 7 header) =? rd_log_number_ r)
  then Some (kOldRecord, [], 0, fragment_checksum, r_buffer r (sdrop (header_size + length) header))
  else if (type =? kZeroType) && (length =? 0)
  then Some (kBadRecord, [], 0, fragment_checksum, r_buffer r [])
  else if checksum_ r &&
          negb (Value (stake (length + header_size - 6) (sdrop 6 header)) =? Unmask (DecodeFixed32 header))
  then Some (kBadRecordChecksum, [], slen (buffer_ r), fragment_checksum, r_buffer r [])
  else
    let payload := stake length (sdrop header_size header) in
    finish_record (r_buffer r (sdrop (header_size + length) header)) type payload fragment_checksum.

(** The loop of [ReadPhysicalRecord]. *)
Fixpoint ReadPhysicalRecord_loop (fuel : nat) (r : Reader) (fragment_checksum : option Z) : option Physical :=
  match fuel with
  | O => None
  | S fuel' =>
      let more r :=
        match ReadMore r with
        | (r, Some (error, drop_size)) => Some (error, [], drop_size, fragment_checksum, r)
        | (r, None) => ReadPhysicalRecord_loop fuel' r fragment_checksum
        end in
      if slen (buffer_ r) <? kHeaderSize then more r
      else
        let header := buffer_ r in
        let a := at_ header 4 in
        let b := at_ header 5 in
        let type := char_to_uint (nth 6 header (to_byte 0)) in
        let length := Z.lor a (Z.shiftl b 8) in
        if is_recyclable_type type then
          let r := if end_of_buffer_offset_ r - slen (buffer_ r) =? 0 then r_recycled r true else r in
          if slen (buffer_ r) <? kRecyclableHeaderSize then more r
          else parse_record r type length kRecyclableHeaderSize fragment_checksum
        else parse_record r type length kHeaderSize fragment_checksum
  end.

(** After a read of the file the buffer holds a whole block or the end of the
    file has been seen, so the loop runs at most three times. *)
Definition ReadPhysicalRecord (r : Reader) (fragment_checksum : option Z) : option Physical :=
  ReadPhysicalRecord_loop 3 r fragment_checksum.

Definition InitCompression (r : Reader) (compression_type : Z) : Reader :=
  r_compression r compression_type true (if compression_type =? kZSTD then u_Create else None).

Fixpoint UpdateRecordedTimestampSize (r : Reader) (cf_to_ts_sz : list (Z * Z)) : Status * Reader :=
  match cf_to_ts_sz with
  | [] => (OK, r)
  | (cf, ts_sz) :: l =>
      if ts_sz =? 0
      then (Corruption "User-defined timestamp size record contains zero timestamp size.", r)
      else match rd_recorded_cf_to_ts_sz_ r !! cf with
           | Some _ => (Corruption "User-defined timestamp size record contains update to recorded column family.", r)
           | None => UpdateRecordedTimestampSize (r_recorded r (<[cf := ts_sz]> (rd_recorded_cf_to_ts_sz_ r))) l
           end
  end.

Definition state_of (s : Status) : string :=
  match s with
  | Corruption m | NotSupported m | InvalidArgument m | IOError m | MemoryLimit m => m
  | _ => ""
  end.

(** ** ReadRecord *)

(** The local variables of the loop. *)
Record Locals := {
  scratch : bytes; in_fragmented_record : bool; prospective_record_offset : Z; record_checksum : option Z
}.

Definition l_drop (l : Locals) : Locals :=
  {| scratch := []; in_fragmented_record := false; prospective_record_offset := prospective_record_offset l;
     record_checksum := record_checksum l |}.
Definition l_clear (l : Locals) (off : Z) : Locals :=
  {| scratch := []; in_fragmented_record := in_fragmented_record l; prospective_record_offset := off;
     record_checksum := record_checksum l |}.
Definition l_append (l : Locals) (b : bytes) : Locals :=
  {| scratch := scratch l ++ b; in_fragmented_record := in_fragmented_record l;
     prospective_record_offset := prospective_record_offset l; record_checksum := record_checksum l |}.
Definition l_checksum (l : Locals) (c : option Z) : Locals :=
  {| scratch := scratch l; in_fragmented_record := in_fragmented_record l;
     prospective_record_offset := prospective_record_offset l; record_checksum := c |}.

(** An iteration returns true with a record, returns false, or goes on. *)
Inductive Iteration :=
| Return_true (record : bytes) (record_checksum : option Z) (r : Reader)
| Return_false (record_checksum : option Z) (r : Reader)
| Again (r : Reader) (l : Locals).

Definition strict (m : WALRecoveryMode) : bool :=
  match m with kAbsoluteConsistency | kPointInTimeRecovery => true | _ => false end.
Definition tolerate (m : WALRecoveryMode) : bool :=
  match m with kTolerateCorruptedTailRecords => true | _ => false end.
Definition skip (m : WALRecoveryMode) : bool :=
  match m with kSkipAnyCorruptedRecords => true | _ => false end.

Definition update_hash (r : Reader) (l : Locals) (fragment : bytes) : Reader :=
  match record_checksum l with
  | Some _ => r_hash r ((fun h => XXH3_64bits_update h fragment) <$> hash_state_ r)
  | None => r
  end.

Definition on_full (physical_record_offset : Z) (fragment : bytes) (r : Reader) (l : Locals) : Iteration :=
  let r := if in_fragmented_record l && negb (slen (scratch l) =? 0)
           then ReportCorruption r (slen (scratch l)) "partial record without end(1)" else r in
  let c := match record_checksum l, uncompress_ r with
           | Some _, None => Some (XXH3_64bits fragment)
           | c, _ => c
           end in
  Return_true fragment c (r_first_read (r_last r physical_record_offset) true).

Definition on_first (physical_record_offset : Z) (fragment : bytes) (r : Reader) (l : Locals) : Iteration :=
  let r := if in_fragmented_record l && negb (slen (scratch l) =? 0)
           then r_hash (ReportCorruption r (slen (scratch l)) "partial record without end(2)")
                       ((fun _ => XXH3_64bits_reset) <$> hash_state_ r)
           else r in
  Again (update_hash r l fragment)
    {| scratch := fragment; in_fragmented_record := true;
       prospective_record_offset := physical_record_offset; record_checksum := record_checksum l |}.

Definition on_middle (fragment : bytes) (r : Reader) (l : Locals) : Iteration :=
  if negb (in_fragmented_record l)
  then Again (ReportCorruption r (slen fragment) "missing start of fragmented record(1)") l
  else Again (update_hash r l fragment) (l_append l fragment).

Definition on_last (fragment : bytes) (r : Reader) (l : Locals) : Iteration :=
  if negb (in_fragmented_record l)
  then Again (ReportCorruption r (slen fragment) "missing start of fragmented record(2)") l
  else
    let r := update_hash r l fragment in
    let c := match record_checksum l, hash_state_ r with
             | Some _, Some h => Some (XXH3_64bits_digest h)
             | c, _ => c
             end in
    Return_true (scratch l ++ fragment) c
      (r_first_read (r_last r (prospective_record_offset l)) true).

Definition on_set_compression (physical_record_offset : Z) (fragment : bytes) (r : Reader) (l : Locals)
    : Iteration :=
  let r := if compression_type_record_read_ r
           then ReportCorruption r (slen fragment) "read multiple SetCompressionType records" else r in
  let r := if first_record_read_ r
           then ReportCorruption r (slen fragment) "SetCompressionType not the first record" else r in
  let r := r_last r physical_record_offset in
  let '(s, t, fragment) := CompressionTypeRecord_DecodeFrom (U := U) fragment in
  Again (if ok s then InitCompression r t
         else ReportCorruption r (slen fragment) "could not decode SetCompressionType record")
        (l_clear l physical_record_offset).

Definition on_timestamp_size (physical_record_offset : Z) (fragment : bytes) (r : Reader) (l : Locals)
    : Iteration :=
  let r := if in_fragmented_record l && negb (slen (scratch l) =? 0)
           then ReportCorruption r (slen (scratch l))
                  "user-defined timestamp size record interspersed partial record" else r in
  let r := r_last r physical_record_offset in
  let '(s, cf_to_ts_sz, fragment) := UDTSizeRecord_DecodeFrom fragment in
  let r := if ok s then
             let '(s, r) := UpdateRecordedTimestampSize r cf_to_ts_sz in
             if ok s then r else ReportCorruption r (slen fragment) (state_of s)
           else ReportCorruption r (slen fragment) "could not decode user-defined timestamp size record" in
  Again r (l_clear l physical_record_offset).

Definition on_eof (mode : WALRecoveryMode) (r : Reader) (l : Locals) : Iteration :=
  Return_false (record_checksum l)
    (if in_fragmented_record l && strict mode
     then ReportCorruption r (slen (scratch l)) "error reading trailing data" else r).

Definition on_bad_record (r : Reader) (l : Locals) : Iteration :=
  if in_fragmented_record l
  then Again (ReportCorruption r (slen (scratch l)) "error in middle of record") (l_drop l)
  else Again r l.

Definition on_checksum (mode : WALRecoveryMode) (what : string) (drop_size : Z) (r : Reader) (l : Locals)
    : Iteration :=
  if recycled_ r && tolerate mode then Return_false (record_checksum l) r
  else on_bad_record (ReportCorruption r drop_size what) l.

Definition on_unknown (record_type : Z) (fragment : bytes) (r : Reader) (l : Locals) : Iteration :=
  Again (ReportCorruption r (slen fragment + if in_fragmented_record l then slen (scratch l) else 0)
           ("unknown record type " +:+ pretty record_type)) (l_drop l).

(** The switch of the loop. *)
Definition dispatch (mode : WALRecoveryMode) (physical_record_offset record_type : Z) (fragment : bytes)
    (drop_size : Z) (r : Reader) (l : Locals) : Iteration :=
  if (record_type =? kFullType) || (record_type =? kRecyclableFullType)
  then on_full physical_record_offset fragment r l
  else if (record_type =? kFirstType) || (record_type =? kRecyclableFirstType)
  then on_first physical_record_offset fragment r l
  else if (record_type =? kMiddleType) || (record_type =? kRecyclableMiddleType)
  then on_middle fragment r l
  else if (record_type =? kLastType) || (record_type =? kRecyclableLastType)
  then on_last fragment r l
  else if record_type =? kSetCompressionType
  then on_set_compression physical_record_offset fragment r l
  else if (record_type =? kUserDefinedTimestampSizeType) ||
          (record_type =? kRecyclableUserDefinedTimestampSizeType)
  then on_timestamp_size physical_record_offset fragment r l
  else if record_type =? kBadHeader
  then on_eof mode (if strict mode then ReportCorruption r drop_size "truncated header" else r) l
  else if record_type =? kEof then on_eof mode r l
  else if record_type =? kOldRecord
  then if skip mode then on_bad_record r l else on_eof mode r l
  else if record_type =? kBadRecord then on_bad_record r l
  else if record_type =? kBadRecordLen then
    if eof_ r then
      Return_false (record_checksum l)
        (if strict mode then ReportCorruption r drop_size "truncated record body" else r)
    else on_checksum mode "bad record length" drop_size r l
  else if record_type =? kBadRecordChecksum
  then on_checksum mode "checksum mismatch" drop_size r l
  else on_unknown record_type fragment r l.

Fixpoint ReadRecord_loop (fuel : nat) (mode : WALRecoveryMode) (r : Reader) (l : Locals)
    : option (bool * bytes * option Z * Reader) :=
  match fuel with
  | O => None
  | S fuel' =>
      let physical_record_offset := end_of_buffer_offset_ r - slen (buffer_ r) in
      match ReadPhysicalRecord r (record_checksum l) with
      | None => None
      | Some (record_type, fragment, drop_size, c, r) =>
          match dispatch mode physical_record_offset record_type fragment drop_size r (l_checksum l c) with
          | Return_true record c r => Some (true, record, c, r)
          | Return_false c r => Some (false, [], c, r)
          | Again r l => ReadRecord_loop fuel' mode r l
          end
      end
  end.

(** Every iteration that goes on consumes part of the file. *)
Definition ReadRecord_fuel (r : Reader) : nat := S (length (buffer_ r) + length (remaining (file_ r))).

(** Whether a record was read, the record, [*record_checksum] ([None] for a null
    pointer) and the reader. *)
Definition ReadRecord (r : Reader) (mode : WALRecoveryMode) (checksum : option Z)
    : option (bool * bytes * option Z * Reader) :=
  let r := match checksum with Some _ => r_hash r (Some XXH3_64bits_reset) | None => r end in
  let r := match uncompress_ r with Some u => r_uncompress r (Some (u_Reset u)) | None => r end in
  ReadRecord_loop (ReadRecord_fuel r) mode r
    {| scratch := []; in_fragmented_record := false; prospective_record_offset := 0;
       record_checksum := checksum |}.

End Reader.
Arguments Reader : clear implicits.

(** ** Instances *)

(** A file in memory. *)
#[export] Program Instance MemSeq : SequentialFile bytes := {|
  Read f n := (OK, stake n f, sdrop n f);
  remaining f := f;
  healthy _ := True
|}.
Next Obligation.
  intros f n s b f' Hn [= <- <- <-]. rewrite stake_sdrop. split_and!; [done| |].
  - unfold slen, stake. rewrite length_take. lia.
  - intros _ Hlt. apply sdrop_all. unfold slen, stake in *. rewrite length_take in Hlt. lia.
Qed.
Next Obligation. intros f n s b f' _ [= <- <- <-]. done. Qed.

(** A streaming hash that collects its input. *)
#[export] Program Instance BufferedHash : StreamingHash bytes := {|
  XXH3_64bits b := Value b;
  XXH3_64bits_reset := [];
  XXH3_64bits_update h b := h ++ b;
  XXH3_64bits_digest h := Value h
|}.
Next Obligation.
  intros l. f_equal. rewrite <- (app_nil_l (concat l)). generalize (@nil byte).
  induction l as [|x l IH]; intros h; cbn; [by rewrite app_nil_r|]. rewrite IH. by rewrite app_assoc.
Qed.

(** A build without a streaming decompressor. *)
#[export] Program Instance NoUncompress : StreamingUncompress Empty_set := {|
  u_Create := None; u_Reset u := u; u_Uncompress := fun (u : Empty_set) _ => match u with end;
  u_left _ _ := O
|}.
Next Obligation. by intros []. Qed.
Next Obligation. by intros []. Qed.

(** A decompressor for data that is stored as it is: the context holds what has
    been read and not yet handed out. *)
#[export] Program Instance Stored : ZSTD bytes := {|
  ZSTD_createDCtx := [];
  ZSTD_DCtx_reset _ := [];
  ZSTD_decompressStream d input room :=
    (Some (stake room (d ++ input), slen input), sdrop room (d ++ input));
  zstd_work d input := (length d + length input)%nat
|}.
Next Obligation.
  intros d input room out k d' Hr [= <- <- <-]. unfold slen, stake. rewrite length_take. lia.
Qed.
Next Obligation.
  intros d input room out k d' Hr [= <- <- <-] [?|Hout]; [lia|].
  rewrite (sdrop_all (slen input)) by lia. unfold slen, stake, sdrop in *. rewrite length_take in Hout.
  rewrite length_app in Hout. rewrite length_drop, length_app. cbn [length]. lia.
Qed.

(** ** Reading terminates *)

Section Termination.

Context {F H U : Type} `{!SequentialFile F} `{!StreamingHash H} `{!StreamingUncompress U}.
Implicit Types r : Reader F H U.

(** What has not been consumed yet. *)
Definition unread r : nat := length (buffer_ r) + length (remaining (file_ r)).

(** Every call of the decompressor that has to be repeated does some of the
    work. *)
Lemma uncompress_loop_total fuel : forall (u : U) input (hash : option H) acc,
  (u_left u input < fuel)%nat -> exists res, uncompress_loop fuel u input hash acc = Some res.
Proof.
  induction fuel as [|fuel IH]; intros u input hash acc Hf; [lia|]. cbn [uncompress_loop].
  destruct (u_Uncompress u input) as [[n out] u'] eqn:E. destruct (Z.ltb_spec n 0); [by eexists|].
  destruct ((0 <? n) || (slen out =? kBlockSize)) eqn:Hgo; [|by eexists].
  apply IH. apply u_Uncompress_progress in E; [lia|lia|].
  apply orb_true_iff in Hgo as [?|?]; [left|right]; lia.
Qed.

Lemma ReadMore_more r r1 : ReadMore r = (r1, None) ->
  (unread r1 <= unread r)%nat /\ (kBlockSize <= slen (buffer_ r1) \/ eof_ r1 = true).
Proof.
  unfold ReadMore, unread. destruct (negb (eof_ r) && negb (read_error_ r)); [|by destruct (negb _)].
  destruct (Read (file_ r) kBlockSize) as [[s b] f] eqn:E.
  destruct (Read_spec (file_ r) kBlockSize s b f ltac:(done) E) as (Hrem & _ & _).
  destruct (negb (ok s)); [done|]. rewrite Hrem, length_app.
  zcase; intros [= <-]; cbn; (split; [lia|]); [by right | by left].
Qed.

Lemma ReadMore_stop r r1 e d : ReadMore r = (r1, Some (e, d)) -> e = kEof \/ e = kBadHeader.
Proof.
  unfold ReadMore. destruct (negb (eof_ r) && negb (read_error_ r)).
  - destruct (Read (file_ r) kBlockSize) as [[s b] f]. destruct (negb (ok s)); [intros [= <- <- <-]; by left|].
    by destruct (_ <? _).
  - destruct (negb _); intros [= <- <- <-]; auto.
Qed.

Lemma ReadMore_no_more r : eof_ r = true -> exists r1 e d, ReadMore r = (r1, Some (e, d)).
Proof. unfold ReadMore. intros ->. cbn. destruct (negb _); by eexists _, _, _. Qed.

(** A record that has been read, and a record that makes no progress. *)
Definition progress r (p : option Physical) : Prop :=
  exists ty frag d c r', p = Some (ty, frag, d, c, r') /\
    ((ty = kEof \/ ty = kBadHeader) \/ (unread r' < unread r)%nat).

Lemma finish_record_total r ty payload c :
  exists ty' frag d c' r', finish_record r ty payload c = Some (ty', frag, d, c', r') /\
    (unread r' <= unread r)%nat.
Proof.
  unfold finish_record. destruct (uncompress_ r) as [u|]; [|by eexists _, _, _, _, _].
  destruct (_ || _); [by eexists _, _, _, _, _|].
  edestruct (uncompress_loop_total (S (u_left u (Some payload))) u (Some payload)) as [[[u' h]|[[u' h] rec]] ->];
    [lia| |].
  - eexists _, _, _, _, _. split; [done|]. unfold unread. destruct h; cbn; lia.
  - destruct h as [h|]; [|by eexists _, _, _, _, _]. by destruct (negb _); eexists _, _, _, _, _.
Qed.

Lemma parse_record_progress r ty len hs c : 0 < hs -> 0 <= len ->
  7 <= slen (buffer_ r) -> progress r (parse_record r ty len hs c).
Proof.
  intros Hhs Hlen Hb. unfold parse_record, progress, unread.
  assert (0 < length (buffer_ r))%nat by (unfold slen in Hb; lia).
  destruct (Z.ltb_spec (slen (buffer_ r)) (hs + len)).
  { eexists _, _, _, _, _. split; [done|]. right. cbn. lia. }
  assert (length (sdrop (hs + len) (buffer_ r)) < length (buffer_ r))%nat
    by (unfold sdrop; rewrite length_drop; unfold slen in *; lia).
  destruct (_ && negb (DecodeFixed32 _ =? _)).
  { eexists _, _, _, _, _. split; [done|]. right. cbn. lia. }
  destruct (_ && (len =? 0)).
  { eexists _, _, _, _, _. split; [done|]. right. cbn. lia. }
  destruct (_ && _).
  { eexists _, _, _, _, _. split; [done|]. right. cbn. lia. }
  edestruct finish_record_total as (ty' & frag & d & c' & r' & -> & Hle).
  eexists _, _, _, _, _. split; [done|]. right. unfold unread in Hle. cbn in Hle. lia.
Qed.

Lemma progress_weaken r r' p : (unread r' <= unread r)%nat -> progress r' p -> progress r p.
Proof.
  intros Hle (ty & frag & d & c & r2 & -> & Hp). eexists _, _, _, _, _. split; [done|].
  destruct Hp; [by left | right; lia].
Qed.

Lemma more_progress (k : Reader F H U -> option Physical) r c :
  (forall r1, kRecyclableHeaderSize <= slen (buffer_ r1) \/ eof_ r1 = true -> progress r1 (k r1)) \/ eof_ r = true ->
  progress r (match ReadMore r with
              | (r, Some (error, drop_size)) => Some (error, [], drop_size, c, r)
              | (r, None) => k r
              end).
Proof.
  intros Hk. destruct (ReadMore r) as [r1 [[e d]|]] eqn:E.
  - eexists _, _, _, _, _. split; [done|]. left. by eapply ReadMore_stop.
  - destruct Hk as [Hk|Heof].
    + apply ReadMore_more in E as [Hle Hb]. apply (progress_weaken _ r1); [done|]. apply Hk.
      destruct Hb; [left; unfold kBlockSize, kRecyclableHeaderSize in *; lia | by right].
    + destruct (ReadMore_no_more r Heof) as (? & ? & ? & ?). congruence.
Qed.

Lemma loop_step_progress n r c :
  (forall r1, kRecyclableHeaderSize <= slen (buffer_ r1) \/ eof_ r1 = true ->
     progress r1 (ReadPhysicalRecord_loop n r1 c)) \/
  kRecyclableHeaderSize <= slen (buffer_ r) \/ eof_ r = true ->
  progress r (ReadPhysicalRecord_loop (S n) r c).
Proof.
  intros Hk. cbn [ReadPhysicalRecord_loop].
  assert (0 <= Z.lor (at_ (buffer_ r) 4) (Z.shiftl (at_ (buffer_ r) 5) 8)) as Hlen.
  { assert (forall p i, 0 <= at_ p i) by (intros p i; unfold at_; case_match; [apply ub_range|done]).
    apply Z.lor_nonneg. split; [done|]. by apply Z.shiftl_nonneg. }
  destruct (Z.ltb_spec (slen (buffer_ r)) kHeaderSize) as [Hs|Hs].
  { apply more_progress. destruct Hk as [?|[?|?]]; [by left | | by right].
    unfold kRecyclableHeaderSize, kHeaderSize in *. lia. }
  unfold kHeaderSize in Hs. destruct (is_recyclable_type _); [|by apply parse_record_progress].
  set (r2 := if _ =? 0 then r_recycled r true else r).
  assert (unread r2 = unread r /\ eof_ r2 = eof_ r /\ buffer_ r2 = buffer_ r) as (E1 & E2 & E3)
    by (unfold r2; by destruct (_ =? 0)).
  apply (progress_weaken _ r2); [lia|]. rewrite E3.
  destruct (Z.ltb_spec (slen (buffer_ r)) kRecyclableHeaderSize).
  - apply more_progress. destruct Hk as [?|[?|?]]; [by left | lia | right; congruence].
  - apply parse_record_progress; [done|done|]. by rewrite E3.
Qed.

(** After a read the buffer holds a block or the file has ended: two iterations
    are enough. *)
Lemma ReadPhysicalRecord_progress r c : progress r (ReadPhysicalRecord r c).
Proof. apply loop_step_progress. left. intros r1 H1. apply loop_step_progress. auto. Qed.

Lemma UpdateRecordedTimestampSize_unread l r s r' :
  UpdateRecordedTimestampSize r l = (s, r') -> unread r' = unread r.
Proof.
  revert r. induction l as [|[cf ts] l IH]; intros r; cbn; [by intros [= <- <-]|].
  destruct (ts =? 0); [by intros [= <- <-]|]. destruct (_ !! cf); [by intros [= <- <-]|].
  intros E. by apply IH in E.
Qed.

(** The switch does not touch the file and stops at its end. *)
Lemma dispatch_unread mode po ty frag d r l r' l' :
  dispatch mode po ty frag d r l = Again r' l' -> unread r' = unread r /\ ty <> kEof /\ ty <> kBadHeader.
Proof.
  intros E. split; [|split; intros ->; discriminate E]. revert E. unfold dispatch.
  assert (on_bad_record r l = Again r' l' -> unread r' = unread r) as Hbad
    by (unfold on_bad_record; by destruct (in_fragmented_record l); intros [= <- <-]).
  assert (forall what, on_checksum mode what d r l = Again r' l' -> unread r' = unread r) as Hsum.
  { intros what. unfold on_checksum, on_bad_record. destruct (_ && _); [done|].
    by destruct (in_fragmented_record l); intros [= <- <-]. }
  repeat match goal with |- (if ?b then _ else _) = _ -> _ => destruct b end;
    unfold on_full, on_eof; try done; try apply Hbad; try apply Hsum.
  - unfold on_first, update_hash. intros [= <- <-]. by destruct (_ && _), (record_checksum l).
  - unfold on_middle, update_hash. destruct (negb _); intros [= <- <-]; [done|]. by destruct (record_checksum l).
  - unfold on_last. by destruct (negb _); intros [= <- <-].
  - unfold on_set_compression. destruct (CompressionTypeRecord_DecodeFrom frag) as [[s t] rest].
    intros [= <- <-]. destruct (compression_type_record_read_ r); cbn [first_record_read_ ReportCorruption ReportDrop r_reporter];
      by destruct (first_record_read_ r), (ok s).
  - unfold on_timestamp_size. destruct (UDTSizeRecord_DecodeFrom frag) as [[s m] rest].
    intros [= <- <-]. destruct (ok s); [|by destruct (_ && _)].
    destruct (UpdateRecordedTimestampSize _ m) as [s2 r2] eqn:E2.
    apply UpdateRecordedTimestampSize_unread in E2.
    assert (unread r2 = unread r) as E3 by (rewrite E2; by destruct (_ && _)). by destruct (ok s2).
  - unfold on_unknown. by intros [= <- <-].
Qed.

Lemma ReadRecord_loop_total mode fuel : forall r l, (unread r < fuel)%nat ->
  exists res, ReadRecord_loop fuel mode r l = Some res.
Proof.
  induction fuel as [|fuel IH]; intros r l Hf; [lia|]. cbn [ReadRecord_loop].
  destruct (ReadPhysicalRecord_progress r (record_checksum l)) as (ty & frag & d & c & r1 & -> & Hp).
  destruct (dispatch _ _ _ _ _ _ _) as [x c' r2|c' r2|r2 l2] eqn:E; [by eexists..|].
  apply dispatch_unread in E as (E & Hne1 & Hne2). apply IH.
  destruct Hp as [[|]|]; [done|done|lia].
Qed.

(** [C35] Reading terminates on every file, damaged or not, from every state of
    the reader and in every recovery mode: every iteration of [ReadRecord] that
    goes on consumes part of the file, [ReadPhysicalRecord] reads at most one
    block before it makes progress or sees the end of the file, and the loop
    over the decompressor calls it at most once more than there is work left in
    the fragment, of which every call that has to be repeated does some (the
    law of [StreamingUncompress]; [ZSTDStreamingUncompress] has it when
    [ZSTD_decompressStream] goes forward). *)
Theorem read_record_terminates r (mode : WALRecoveryMode) (checksum : option Z) :
  (exists found x c r', ReadRecord r mode checksum = Some (found, x, c, r')) /\
  (exists ty frag d c r', ReadPhysicalRecord r checksum = Some (ty, frag, d, c, r') /\
    (ty = kEof \/ ty = kBadHeader \/ (unread r' < unread r)%nat)) /\
  forall (u : U) (payload : bytes) (hash : option H),
    exists res, uncompress_loop (S (u_left u (Some payload))) u (Some payload) hash [] = Some res.
Proof.
  split_and!.
  - unfold ReadRecord, ReadRecord_fuel. edestruct (ReadRecord_loop_total mode) as [[[[found x] c] r'] ->];
      [unfold unread; lia | by eexists _, _, _, _].
  - destruct (ReadPhysicalRecord_progress r checksum) as (ty & frag & d & c & r' & -> & Hp).
    eexists _, _, _, _, _. split; [done|]. tauto.
  - intros u payload hash. apply uncompress_loop_total. lia.
Qed.

End Termination.

(** A damaged file of 40 bytes, read with a decompressor. *)
Lemma read_record_terminates_witness :
  let r := Reader_make (F:=bytes) (H:=bytes) (U:=ZSTDStreamingUncompress bytes)
             (to_byte <$> repeat 200 40) (Some []) true 7 in
  (exists found x c r', ReadRecord r kSkipAnyCorruptedRecords (Some 0) = Some (found, x, c, r')) /\
  exists ty frag d c r', ReadPhysicalRecord r (Some 0) = Some (ty, frag, d, c, r') /\
    (ty = kEof \/ ty = kBadHeader \/ (unread r' < unread r)%nat).
Proof.
  intros r. destruct (read_record_terminates r kSkipAnyCorruptedRecords (Some 0)) as (H1 & H2 & _). by split.
Defined.

(** A fragment that holds 40000 bytes takes two calls of the decompressor. *)
Example uncompress_two_calls :
  uncompress_loop (H:=bytes) 1 {| dctx_ := []; input_buffer_ := [] |} (Some (repeat (to_byte 7) (Z.to_nat 40000))) None [] = None /\
  (match uncompress_loop (H:=bytes) 2 {| dctx_ := []; input_buffer_ := [] |} (Some (repeat (to_byte 7) (Z.to_nat 40000))) None []
   with Some (inr (_, _, out)) => slen out | _ => 0 end) = 40000.
Proof. split; vm_compute; reflexivity. Qed.
