(* ===== verification/LogRoundtrip.v ===== *)
(** * The write-ahead log: what is written is read back

    Proves that the reader of LogReader.v reads back what the writer of
    LogWriter.v has laid out, also when the file has been cut off anywhere.
    [at_pos] relates a reader to the number of bytes it has consumed;
    [loop_read] reads one record, [loop_cut] meets the end of the file inside
    one, [read_all] puts them together for a whole log. *)

From S2P Require Import Prelude Coding Crc32c LogWriter LogReader.

(** ** Where the reader is *)

(** Where a cut falls in a concatenation. *)
Lemma app_cut {A} (b R T Q : list A) : b ++ R = T ++ Q ->
  (exists S, T = b ++ S /\ R = S ++ Q) \/ (exists Q', Q' <> [] /\ b = T ++ Q' /\ Q = Q' ++ R).
Proof.
  intros HF. apply app_eq_inv in HF as [(k & Hb & HQ)|(k & HS & HR)]; [|left; by exists k].
  destruct k as [|y k]; [|right; by exists (y :: k)]. rewrite app_nil_r in Hb. cbn in HQ.
  left. exists []. by rewrite app_nil_r.
Qed.

Section ReaderSpec.

Context {F H U : Type} `{!SequentialFile F} `{!StreamingHash H} `{!StreamingUncompress U}.
Implicit Types r : Reader F H U.

(** What reading does not change when nothing is damaged. *)
Definition conf r := (checksum_ r, rd_log_number_ r, reporter_ r, uncompress_ r).

(** The end of the block that [pos] is in, or ends. *)
Definition blk_end (pos : Z) : Z := kBlockSize * ((pos + kBlockSize - 1) / kBlockSize).

(** The reader has consumed the first [pos] bytes of the file [Fc]; the buffer
    holds what has been read of the current block. *)
Record at_pos (Fc : bytes) (pos : Z) r : Prop := {
  ap_err : read_error_ r = false;
  ap_healthy : healthy (file_ r);
  ap_pos : 0 <= pos <= slen Fc;
  ap_buf : sdrop pos Fc = buffer_ r ++ remaining (file_ r);
  ap_len : slen (buffer_ r) = end_of_buffer_offset_ r - pos;
  ap_blk : if eof_ r then remaining (file_ r) = [] /\ slen Fc <= blk_end pos
           else end_of_buffer_offset_ r = blk_end pos
}.

(** The same with the block that starts at or contains [pos] in the buffer. *)
Record loaded (Fc : bytes) (pos : Z) r : Prop := {
  ld_err : read_error_ r = false;
  ld_healthy : healthy (file_ r);
  ld_pos : 0 <= pos <= slen Fc;
  ld_buf : sdrop pos Fc = buffer_ r ++ remaining (file_ r);
  ld_len : slen (buffer_ r) = end_of_buffer_offset_ r - pos;
  ld_blk : if eof_ r then remaining (file_ r) = [] /\ slen Fc <= kBlockSize * (pos / kBlockSize + 1)
           else end_of_buffer_offset_ r = kBlockSize * (pos / kBlockSize + 1)
}.

Lemma blk_end_mid pos : pos mod kBlockSize <> 0 -> blk_end pos = kBlockSize * (pos / kBlockSize + 1).
Proof.
  intros H0. unfold blk_end, kBlockSize in *. f_equal.
  pose proof (Z.div_mod pos 32768 ltac:(lia)). pose proof (Z.mod_pos_bound pos 32768 ltac:(lia)).
  symmetry. apply (Z.div_unique _ _ _ (pos mod 32768 - 1)); lia.
Qed.

Lemma blk_end_aligned pos : pos mod kBlockSize = 0 -> blk_end pos = pos.
Proof.
  intros H0. unfold blk_end, kBlockSize in *. pose proof (Z.div_mod pos 32768 ltac:(lia)).
  rewrite <- (Z.div_unique (pos + 32768 - 1) 32768 (pos / 32768) 32767); lia.
Qed.

(** Inside a block. *)
Lemma block_of pos d : 0 <= d -> pos mod kBlockSize + d < kBlockSize ->
  (pos + d) / kBlockSize = pos / kBlockSize /\ (pos + d) mod kBlockSize = pos mod kBlockSize + d.
Proof.
  unfold kBlockSize. intros Hd Hlt. pose proof (Z.div_mod pos 32768 ltac:(lia)).
  pose proof (Z.mod_pos_bound pos 32768 ltac:(lia)).
  split; [symmetry; apply (Z.div_unique _ _ _ (pos mod 32768 + d)) | symmetry; apply (Z.mod_unique _ _ (pos / 32768))]; lia.
Qed.

(** Consuming bytes of the loaded block. *)
Lemma blk_end_within pos d : 0 < d -> pos mod kBlockSize + d <= kBlockSize ->
  blk_end (pos + d) = kBlockSize * (pos / kBlockSize + 1).
Proof.
  intros Hd Hle. destruct (Z.eq_dec (pos mod kBlockSize + d) kBlockSize) as [E|].
  - pose proof (Z.div_mod pos kBlockSize ltac:(done)).
    replace (pos + d) with (kBlockSize * (pos / kBlockSize + 1)) by (unfold kBlockSize in *; lia).
    apply blk_end_aligned. rewrite Z.mul_comm. by apply Z.mod_mul.
  - destruct (block_of pos d) as [E1 E2]; [lia|lia|]. rewrite blk_end_mid, E1; [done|].
    rewrite E2. pose proof (Z.mod_pos_bound pos kBlockSize ltac:(done)). lia.
Qed.

(** A read at a block boundary loads the next block. *)
Lemma ReadMore_loads Fc pos r : at_pos Fc pos r -> pos mod kBlockSize = 0 -> eof_ r = false ->
  exists r1, ReadMore r = (r1, None) /\ loaded Fc pos r1 /\ conf r1 = conf r /\ hash_state_ r1 = hash_state_ r.
Proof.
  intros [He Hh Hp Hb Hl Hk] Hm Heof. rewrite Heof in Hk. rewrite blk_end_aligned in Hk by done.
  unfold ReadMore. rewrite Heof, He. cbn [negb andb].
  destruct (Read (file_ r) kBlockSize) as [[s b] f] eqn:E.
  destruct (Read_spec (file_ r) kBlockSize s b f ltac:(done) E) as (Hrem & Hle & Hshort).
  destruct (Read_healthy _ _ _ _ _ Hh E) as [Hok Hh']. rewrite Hok. cbn [negb].
  assert (buffer_ r = []) as Hnil by (apply slen_0_nil; lia). rewrite Hnil, Hrem in Hb. cbn in Hb.
  assert (kBlockSize * (pos / kBlockSize + 1) = pos + kBlockSize) as Ek.
  { pose proof (Z.div_mod pos kBlockSize ltac:(done)). unfold kBlockSize in *. lia. }
  assert (slen (b ++ remaining f) = slen Fc - pos) as Htot by (rewrite <- Hb; by apply slen_sdrop).
  rewrite slen_app in Htot.
  zcase; eexists; (split; [reflexivity|]); (split; [|done]); constructor; cbn; try done; try lia.
  - rewrite (Hshort Hok) in * by done. rewrite slen_nil in Htot. split; [done|lia].
  - rewrite Heof. lia.
Qed.

(** The position is in a block that has been read, or a read loads it. *)
Lemma ReadPhysicalRecord_loads Fc pos r c : at_pos Fc pos r ->
  exists n r1, (1 <= n)%nat /\ ReadPhysicalRecord r c = ReadPhysicalRecord_loop (S n) r1 c /\
    loaded Fc pos r1 /\ conf r1 = conf r /\ hash_state_ r1 = hash_state_ r.
Proof.
  intros Hat. pose proof Hat as [He Hh Hp Hb Hl Hk].
  destruct (decide (pos mod kBlockSize = 0 /\ eof_ r = false)) as [[Hm Heof]|Hne].
  - destruct (ReadMore_loads _ _ _ Hat Hm Heof) as (r1 & Hrm & Hld & Hc & Hs).
    exists 1%nat, r1. split_and!; [lia| |done..].
    rewrite Heof, blk_end_aligned in Hk by done.
    unfold ReadPhysicalRecord. cbn [ReadPhysicalRecord_loop].
    replace (slen (buffer_ r) <? kHeaderSize) with true by (symmetry; apply Z.ltb_lt; unfold kHeaderSize; lia).
    by rewrite Hrm.
  - exists 2%nat, r. split_and!; [lia|done| |done..]. constructor; try done.
    destruct (eof_ r) eqn:Heof.
    + destruct Hk as [Hr Hk]. split; [done|].
      destruct (decide (pos mod kBlockSize = 0)) as [Hm|Hm].
      * rewrite blk_end_aligned in Hk by done. pose proof (Z.div_mod pos kBlockSize ltac:(done)).
        unfold kBlockSize in *. lia.
      * by rewrite blk_end_mid in Hk.
    + rewrite blk_end_mid in Hk; [done|]. intros Hm. by apply Hne.
Qed.

(** What a good record looks like to the reader: it starts the buffer. *)
Lemma loaded_prefix Fc pos r b S : loaded Fc pos r -> sdrop pos Fc = b ++ S ->
  pos mod kBlockSize + slen b <= kBlockSize -> exists S', buffer_ r = b ++ S'.
Proof.
  intros [He Hh Hp Hb Hl Hk] HF Hfit.
  assert (slen b <= slen (buffer_ r)) as Hle.
  { pose proof (Z.div_mod pos kBlockSize ltac:(done)). destruct (eof_ r).
    - destruct Hk as [Hr _]. rewrite Hr, app_nil_r in Hb. rewrite <- Hb, HF, slen_app. slia.
    - rewrite Hl, Hk. unfold kBlockSize in *. lia. }
  exists (sdrop (slen b) (buffer_ r)). rewrite <- (stake_sdrop (slen b) (buffer_ r)) at 1. f_equal.
  rewrite <- (stake_app_le (slen b) (buffer_ r) (remaining (file_ r))) by done.
  rewrite <- Hb, HF. by apply stake_app.
Qed.

(** Dropping a prefix of the loaded block. *)
Lemma loaded_consume Fc pos r b S' r' : loaded Fc pos r -> buffer_ r = b ++ S' -> 0 < slen b ->
  buffer_ r' = S' -> file_ r' = file_ r -> eof_ r' = eof_ r -> read_error_ r' = read_error_ r ->
  end_of_buffer_offset_ r' = end_of_buffer_offset_ r -> at_pos Fc (pos + slen b) r'.
Proof.
  intros [He Hh Hp Hb Hl Hk] Hbuf Hpos Ebuf Ef Eeof Eerr Eend.
  rewrite Hbuf, slen_app in Hl. rewrite Hbuf, <- app_assoc in Hb.
  assert (slen (sdrop pos Fc) = slen Fc - pos) as HlF by by apply slen_sdrop.
  rewrite Hb, !slen_app in HlF.
  assert (pos mod kBlockSize + slen b <= kBlockSize) as Hfit.
  { pose proof (Z.div_mod pos kBlockSize ltac:(done)). destruct (eof_ r); unfold kBlockSize in *; slia. }
  constructor; rewrite ?Ebuf, ?Ef, ?Eeof, ?Eerr, ?Eend; try done; try slia.
  - unfold sdrop in *. rewrite Z2Nat.inj_add, <- drop_drop, Hb by slia. apply (sdrop_app (slen b)). done.
  - rewrite blk_end_within by done. done.
Qed.

(** Parsing a length-prefixed header. *)
Lemma header_length n : 0 <= n < 2 ^ 16 ->
  Z.lor (ub (to_byte (Z.land n 255))) (Z.shiftl (ub (to_byte (Z.shiftr n 8))) 8) = n.
Proof.
  intros Hn. rewrite land_255, shiftr_div by lia. change (2 ^ 8) with 256.
  pose proof (Z.div_mod n 256 ltac:(lia)). pose proof (Z.mod_pos_bound n 256 ltac:(lia)).
  assert (0 <= n / 256 < 256) by (split; [apply Z.div_pos | apply Z.div_lt_upper_bound]; lia).
  rewrite !ub_to_byte, lor_shiftl_add by (try lia; change (2 ^ 8) with 256; lia).
  change (2 ^ 8) with 256. lia.
Qed.

Lemma fragment_type_range recycle b e : 1 <= fragment_type recycle b e <= 8.
Proof. destruct recycle, b, e; by vm_compute. Qed.

Lemma fragment_type_recyclable recycle b e : is_recyclable_type (fragment_type recycle b e) = recycle.
Proof. by destruct recycle, b, e. Qed.

Lemma char_to_uint_small t : 0 <= t < 128 -> char_to_uint (to_byte t) = t.
Proof. intros. unfold char_to_uint. rewrite ub_to_byte by lia. zcase. Qed.

Lemma EncodeFixed32_4 v : exists a b c d, EncodeFixed32 v = [a; b; c; d].
Proof.
  pose proof (slen_EncodeFixed32 v) as Hl. unfold slen in Hl.
  destruct (EncodeFixed32 v) as [|a [|b [|c [|d [|]]]]]; cbn in Hl; try lia. by exists a, b, c, d.
Qed.

(** The fields of a header at the front of the buffer. *)
Lemma format_header_fields l t p S :
  slen p < 2 ^ 16 -> 0 <= t < 128 -> 
  let B := format_header l t p ++ p ++ S in
  Z.lor (at_ B 4) (Z.shiftl (at_ B 5) 8) = slen p /\
  char_to_uint (nth 6 B (to_byte 0)) = t /\
  DecodeFixed32 B = Mask (Value (to_byte t :: (if is_legacy t then [] else EncodeFixed32 (u32 l)) ++ p)) /\
  sdrop 6 B = to_byte t :: (if is_legacy t then [] else EncodeFixed32 (u32 l)) ++ p ++ S /\
  (is_legacy t = false -> DecodeFixed32 (sdrop 7 B) = u32 l).
Proof.
  intros Hp Ht. rewrite format_header_crc by lia. cbv zeta.
  set (lognum := if is_legacy t then [] else _). set (v := Mask _).
  assert (is_u32 v) as Hv by apply Mask_range.
  rewrite <- !app_assoc. split_and!.
  - destruct (EncodeFixed32_4 v) as (a & b & c & d & ->). cbn [app]. rewrite !at_cons_S, !at_cons_0.
    apply header_length. slia.
  - destruct (EncodeFixed32_4 v) as (a & b & c & d & ->). cbn [app nth]. by apply char_to_uint_small.
  - by apply DecodeFixed32_Encode.
  - destruct (EncodeFixed32_4 v) as (a & b & c & d & ->). done.
  - intros Hleg. unfold lognum. rewrite Hleg.
    destruct (EncodeFixed32_4 v) as (a & b & c & d & ->). apply (DecodeFixed32_Encode (u32 l)), u32_range.
Qed.

(** The reader after the header has been seen: a recyclable record at the start
    of the file marks it as recycled. *)
Definition seen (recycle : bool) r : Reader F H U :=
  if recycle && (end_of_buffer_offset_ r - slen (buffer_ r) =? 0) then r_recycled r true else r.

Lemma seen_same recycle r :
  buffer_ (seen recycle r) = buffer_ r /\ conf (seen recycle r) = conf r /\
  hash_state_ (seen recycle r) = hash_state_ r /\ eof_ (seen recycle r) = eof_ r /\
  forall Fc pos, loaded Fc pos r -> loaded Fc pos (seen recycle r).
Proof.
  unfold seen. destruct (_ && _); split_and!; try done. intros Fc pos [? ? ? ? ? ?]. by constructor.
Qed.

(** A complete header is parsed. *)
Lemma header_found recycle b e r c n :
  let t := char_to_uint (nth 6 (buffer_ r) (to_byte 0)) in
  t = fragment_type recycle b e -> header_size recycle <= slen (buffer_ r) ->
  ReadPhysicalRecord_loop (S n) r c =
  parse_record (seen recycle r) t (Z.lor (at_ (buffer_ r) 4) (Z.shiftl (at_ (buffer_ r) 5) 8))
    (header_size recycle) c.
Proof.
  cbv zeta. intros Et Hs. cbn [ReadPhysicalRecord_loop]. rewrite Et, fragment_type_recyclable.
  pose proof (header_size_range recycle).
  replace (slen (buffer_ r) <? kHeaderSize) with false by (symmetry; apply Z.ltb_ge; unfold kHeaderSize; lia).
  unfold seen. destruct recycle; cbn [andb]; [|done].
  replace (slen (buffer_ (if _ : bool then r_recycled r true else r)) <? kRecyclableHeaderSize) with false; [done|].
  symmetry. apply Z.ltb_ge. unfold header_size in Hs. by destruct (_ =? 0).
Qed.

(** Reading a good fragment. *)
Lemma read_good recycle l b e payload Fc pos r c n S :
  loaded Fc pos r -> uncompress_ r = None -> (recycle = true -> rd_log_number_ r = l /\ is_u32 l) ->
  sdrop pos Fc = phys l (fragment_type recycle b e) payload ++ S ->
  pos mod kBlockSize + header_size recycle + slen payload <= kBlockSize ->
  exists r', ReadPhysicalRecord_loop (Datatypes.S n) r c = Some (fragment_type recycle b e, payload, 0, c, r') /\
    at_pos Fc (pos + header_size recycle + slen payload) r' /\ conf r' = conf r /\ hash_state_ r' = hash_state_ r.
Proof.
  intros Hld Hu Hlog HF Hfit. set (t := fragment_type recycle b e) in *.
  pose proof (fragment_type_range recycle b e) as Ht. fold t in Ht.
  pose proof (header_size_range recycle) as Hhs.
  pose proof (slen_phys recycle l b e payload) as Hlp. fold t in Hlp.
  destruct (loaded_prefix _ _ _ _ _ Hld HF) as [S' HB]; [lia|].
  assert (slen payload < 2 ^ 16) as Hp16.
  { pose proof (Z.mod_pos_bound pos kBlockSize ltac:(done)). unfold kBlockSize in *. lia. }
  destruct (format_header_fields l t payload S' Hp16 ltac:(lia)) as (Hlen & Hty & Hcrc & H6 & H7).
  assert (slen (buffer_ r) = header_size recycle + slen payload + slen S') as Hbl by (rewrite HB, slen_app; lia).
  assert (HB' := HB). unfold phys in HB'. rewrite <- app_assoc in HB'. rewrite <- HB' in *.
  rewrite (header_found recycle b e) by (done || slia). rewrite Hty, Hlen.
  destruct (seen_same recycle r) as (Eb & Ec & Eh & _ & El). specialize (El _ _ Hld).
  set (r1 := seen recycle r) in *. clearbody r1. unfold parse_record. rewrite Eb.
  assert (is_legacy t = negb recycle) as Hleg by apply fragment_type_legacy.
  assert (is_recyclable_type t = recycle) as Hrec by apply fragment_type_recyclable.
  assert (rd_log_number_ r1 = rd_log_number_ r /\ uncompress_ r1 = uncompress_ r) as [Elog Eu]
    by (unfold conf in Ec; split; congruence).
  replace (slen (buffer_ r) <? _) with false by (symmetry; apply Z.ltb_ge; slia).
  replace (is_recyclable_type t && _) with false.
  2:{ rewrite Hrec, Elog. destruct recycle; [|done]. destruct (Hlog eq_refl) as [-> Hl].
      rewrite H7 by done. rewrite u32_id by done. by rewrite Z.eqb_refl. }
  replace (t =? kZeroType) with false by (symmetry; apply Z.eqb_neq; unfold kZeroType; lia). cbn [andb].
  replace (checksum_ r1 && _) with false.
  2:{ rewrite Hcrc, Unmask_Mask, H6 by apply Value_range. symmetry. apply andb_false_intro2.
      rewrite app_comm_cons, app_assoc, stake_app, Z.eqb_refl; [done|].
      rewrite slen_app, slen_cons, Hleg. destruct recycle; cbn [negb]; [rewrite slen_EncodeFixed32|];
      unfold header_size, kRecyclableHeaderSize, kHeaderSize; rewrite ?slen_nil; lia. }
  unfold finish_record. cbn [uncompress_ r_buffer]. rewrite Eu, Hu.
  assert (stake (slen payload) (sdrop (header_size recycle) (buffer_ r)) = payload) as ->
    by (rewrite HB', sdrop_app by apply slen_header; by apply stake_app).
  assert (sdrop (header_size recycle + slen payload) (buffer_ r) = S') as ->
    by (rewrite HB; by apply sdrop_app).
  exists (r_buffer r1 S'). split_and!; [done| |exact Ec|exact Eh].
  rewrite <- Z.add_assoc, <- Hlp. eapply (loaded_consume _ _ r1 (phys l t payload) S'); try done.
  by rewrite Eb.
Qed.

Lemma at_app_l (T Q : bytes) i : (i < length T)%nat -> at_ (T ++ Q) i = at_ T i.
Proof. intros. unfold at_. by rewrite lookup_app_l. Qed.

(** The file ends inside the loaded block. *)
Lemma loaded_end Fc pos r : loaded Fc pos r -> pos mod kBlockSize + slen (sdrop pos Fc) < kBlockSize ->
  eof_ r = true /\ buffer_ r = sdrop pos Fc.
Proof.
  intros [He Hh Hp Hb Hl Hk] Hlt. destruct (eof_ r) eqn:Heof.
  - destruct Hk as [Hr _]. by rewrite Hb, Hr, app_nil_r.
  - rewrite Hb, slen_app in Hlt. pose proof (Z.div_mod pos kBlockSize ltac:(done)).
    unfold kBlockSize in *. slia.
Qed.

(** At the end of the file no more is read. *)
Lemma ReadMore_eof r : eof_ r = true ->
  exists ty dr, ReadMore r = (r_buffer r [], Some (ty, dr)) /\
    (ty = kEof /\ buffer_ r = [] \/ ty = kBadHeader /\ buffer_ r <> []).
Proof.
  intros Heof. unfold ReadMore. rewrite Heof. cbn [negb andb]. destruct (Z.eqb_spec (slen (buffer_ r)) 0) as [E|E].
  - exists kEof, 0. split; [done|]. left. split; [done|]. by apply slen_0_nil.
  - exists kBadHeader, (slen (buffer_ r)). split; [done|]. right. split; [done|]. intros E'. by rewrite E' in E.
Qed.

(** A physical record whose end is missing. *)
Lemma read_cut recycle l b e payload Fc pos r c n Q :
  loaded Fc pos r -> Q <> [] ->
  phys l (fragment_type recycle b e) payload = sdrop pos Fc ++ Q ->
  pos mod kBlockSize + header_size recycle + slen payload <= kBlockSize ->
  exists ty dr r', ReadPhysicalRecord_loop (S n) r c = Some (ty, [], dr, c, r') /\
    (ty = kEof /\ sdrop pos Fc = [] \/ (ty = kBadHeader \/ ty = kBadRecordLen) /\ sdrop pos Fc <> []) /\
    eof_ r' = true /\ conf r' = conf r /\ hash_state_ r' = hash_state_ r.
Proof.
  intros Hld HQ HF Hfit. set (t := fragment_type recycle b e) in *.
  pose proof (fragment_type_range recycle b e) as Ht. fold t in Ht.
  pose proof (header_size_range recycle) as Hhs.
  pose proof (slen_phys recycle l b e payload) as Hlp. fold t in Hlp.
  assert (0 < slen Q) as HQ0 by (destruct Q; [done|]; rewrite slen_cons; slia).
  assert (slen (sdrop pos Fc) + slen Q = header_size recycle + slen payload) as HlT
    by (rewrite <- Hlp, HF, slen_app; done).
  assert (slen payload < 2 ^ 16) as Hp16.
  { pose proof (Z.mod_pos_bound pos kBlockSize ltac:(done)). unfold kBlockSize in *. lia. }
  destruct (loaded_end _ _ _ Hld ltac:(slia)) as [Heof Hbuf]. set (T := sdrop pos Fc) in *.
  destruct (Z.lt_ge_cases (slen T) kHeaderSize) as [Hshort|Hlong].
  { cbn [ReadPhysicalRecord_loop]. rewrite Hbuf.
    replace (slen T <? kHeaderSize) with true by (symmetry; by apply Z.ltb_lt).
    destruct (ReadMore_eof r Heof) as (ty & dr & -> & Hty). rewrite Hbuf in Hty.
    exists ty, dr, (r_buffer r []). split_and!; try done.
    destruct Hty as [[-> ?]|[-> ?]]; [by left | by right; auto]. }
  destruct (format_header_fields l t payload [] Hp16 ltac:(lia)) as (Hlen & Hty & _ & _ & _).
  rewrite app_nil_r in Hlen, Hty. fold (phys l t payload) in Hlen, Hty. rewrite HF in Hlen, Hty.
  unfold kHeaderSize in Hlong. assert (7 <= length T)%nat by (unfold slen in Hlong; lia).
  rewrite !at_app_l in Hlen by lia. rewrite app_nth1 in Hty by lia. rewrite <- Hbuf in Hlen, Hty.
  assert (T <> []) as HT by (intros E; rewrite E in Hlong; snil; lia).
  destruct (seen_same recycle r) as (Eb & Ec & Eh & Ee & _).
  destruct (Z.lt_ge_cases (slen T) (header_size recycle)) as [Hsh|Hhead].
  - assert (recycle = true) as -> by (destruct recycle; [done|]; unfold header_size, kHeaderSize in Hsh; lia).
    cbn [ReadPhysicalRecord_loop]. rewrite Hty. unfold t at 1. rewrite fragment_type_recyclable.
    replace (slen (buffer_ r) <? kHeaderSize) with false
      by (symmetry; apply Z.ltb_ge; rewrite Hbuf; unfold kHeaderSize; lia).

    change (if end_of_buffer_offset_ r - slen (buffer_ r) =? 0 then r_recycled r true else r) with (seen true r).
    cbv zeta. rewrite Eb. replace (slen (buffer_ r) <? kRecyclableHeaderSize) with true
      by (symmetry; apply Z.ltb_lt; rewrite Hbuf; exact Hsh).
    destruct (ReadMore_eof (seen true r)) as (ty & dr & -> & Hr); [by rewrite Ee|].
    rewrite Eb, Hbuf in Hr. exists ty, dr, (r_buffer (seen true r) []). split_and!; try done.
    + destruct Hr as [[-> ?]|[-> ?]]; [done | by right; auto].
    + cbn. by rewrite Ee.
  - rewrite (header_found recycle b e) by (done || by rewrite Hbuf). rewrite Hty, Hlen.
    unfold parse_record. rewrite Eb, Hbuf.
    replace (slen T <? header_size recycle + slen payload) with true by (symmetry; apply Z.ltb_lt; lia).
    exists kBadRecordLen, (slen T), (r_buffer (seen recycle r) []). split_and!; try done; [by right; auto|].
    cbn. by rewrite Ee.
Qed.

(** ** Trailers *)

Lemma read_zeros r c n j : buffer_ r = replicate j (to_byte 0) -> (7 <= j)%nat ->
  ReadPhysicalRecord_loop (S n) r c = Some (kBadRecord, [], 0, c, r_buffer r []).
Proof.
  intros Hb Hj. cbn [ReadPhysicalRecord_loop].
  do 7 (destruct j as [|j]; [lia|]). cbn [replicate] in Hb.
  assert (7 <= slen (buffer_ r)) by (rewrite Hb, !slen_cons; slia).
  replace (slen (buffer_ r) <? kHeaderSize) with false by (symmetry; apply Z.ltb_ge; unfold kHeaderSize; lia).
  replace (char_to_uint (nth 6 (buffer_ r) (to_byte 0))) with 0 by (by rewrite Hb).
  replace (Z.lor (at_ (buffer_ r) 4) (Z.shiftl (at_ (buffer_ r) 5) 8)) with 0 by (by rewrite Hb).
  change (is_recyclable_type 0) with false. cbv iota zeta. unfold parse_record.
  replace (slen (buffer_ r) <? kHeaderSize + 0) with false by (symmetry; apply Z.ltb_ge; unfold kHeaderSize; lia).
  done.
Qed.

(** The rest of an iteration of [ReadRecord]. *)
Definition continue_with (fuel : nat) (mode : WALRecoveryMode) (po : Z) (p : option (Physical (F:=F) (H:=H) (U:=U)))
    (l : Locals) : option (bool * bytes * option Z * Reader F H U) :=
  match p with
  | None => None
  | Some (record_type, fragment, drop_size, c, r) =>
      match dispatch mode po record_type fragment drop_size r (l_checksum l c) with
      | Return_true record c r => Some (true, record, c, r)
      | Return_false c r => Some (false, [], c, r)
      | Again r l => ReadRecord_loop fuel mode r l
      end
  end.

Lemma ReadRecord_loop_S fuel mode r l :
  ReadRecord_loop (S fuel) mode r l =
  continue_with fuel mode (end_of_buffer_offset_ r - slen (buffer_ r))
    (ReadPhysicalRecord r (record_checksum l)) l.
Proof. reflexivity. Qed.

Lemma l_checksum_same l : l_checksum l (record_checksum l) = l.
Proof. by destruct l. Qed.

(** A trailer in the middle of the file is in the buffer alone. *)
Lemma loaded_trailer Fc pos r P R : loaded Fc pos r -> sdrop pos Fc = P ++ R -> R <> [] ->
  pos mod kBlockSize + slen P = kBlockSize -> P <> [] ->
  eof_ r = false /\ buffer_ r = P /\ at_pos Fc (pos + slen P) (r_buffer r []).
Proof.
  intros Hld HF HR Hk HP. pose proof Hld as [He Hh Hp Hb Hl Hblk].
  assert (0 < slen R) by (destruct R; [done|]; rewrite slen_cons; slia).
  assert (0 < slen P) by (destruct P; [done|]; rewrite slen_cons; slia).
  assert (slen (sdrop pos Fc) = slen Fc - pos) as HlF by by apply slen_sdrop.
  rewrite HF, slen_app in HlF. pose proof (Z.div_mod pos kBlockSize ltac:(done)).
  assert (eof_ r = false) as Heof by (destruct (eof_ r); [|done]; unfold kBlockSize in *; lia).
  rewrite Heof in Hblk.
  destruct (loaded_prefix _ _ _ _ _ Hld HF ltac:(lia)) as [S' HB].
  assert (S' = []) as ->.
  { apply slen_0_nil. rewrite HB, slen_app in Hl. unfold kBlockSize in *. slia. }
  rewrite app_nil_r in HB. split_and!; [done|done|].
  eapply (loaded_consume _ _ r P []); try done. by rewrite app_nil_r.
Qed.

(** A trailer that is not empty ends its block. *)
Lemma pad_facts recycle off pos : pad recycle off <> [] -> 0 <= off <= kBlockSize -> (pos - off) mod kBlockSize = 0 ->
  pad recycle off = replicate (Z.to_nat (kBlockSize - off)) (to_byte 0) /\ off <> kBlockSize /\
  slen (pad recycle off) = kBlockSize - off /\ (pos + slen (pad recycle off)) mod kBlockSize = 0 /\
  pos mod kBlockSize + slen (pad recycle off) = kBlockSize.
Proof.
  intros Hp Hoff Hcong.
  assert (off <> kBlockSize) as Hnf by (intros ->; by rewrite pad_full in Hp).
  assert (pad recycle off = replicate (Z.to_nat (kBlockSize - off)) (to_byte 0)) as Epad
    by (unfold pad in *; by destruct (_ <? _)).
  assert (slen (pad recycle off) = kBlockSize - off) as Hls by (rewrite Epad, slen_replicate; lia).
  apply Z.mod_divide in Hcong as [q Hq]; [|done].
  assert (pos = off + q * kBlockSize) as -> by lia.
  split_and!; try done; rewrite Hls.
  - replace (off + q * kBlockSize + (kBlockSize - off)) with ((q + 1) * kBlockSize) by lia. by apply Z.mod_mul.
  - rewrite Z.mod_add, Z.mod_small by (done || lia). lia.
Qed.

(** The reader skips the trailer in front of a record. *)
Lemma loop_skip_pad recycle off Fc pos r l mode f R :
  at_pos Fc pos r -> 0 <= off <= kBlockSize -> (pos - off) mod kBlockSize = 0 ->
  sdrop pos Fc = pad recycle off ++ R -> R <> [] ->
  (in_fragmented_record l = false \/ off = kBlockSize) -> (length (sdrop pos Fc) <= f)%nat ->
  exists f' po r2 n, (length R <= f')%nat /\
    ReadRecord_loop (S f) mode r l =
    continue_with f' mode po (ReadPhysicalRecord_loop (S n) r2 (record_checksum l)) l /\
    loaded Fc (pos + slen (pad recycle off)) r2 /\ conf r2 = conf r /\ hash_state_ r2 = hash_state_ r.
Proof.
  intros Hat Hoff Hcong HF HR Hl Hf.
  destruct (ReadPhysicalRecord_loads Fc pos r (record_checksum l) Hat) as (n & r1 & Hn & Erp & Hld & Ec & Eh).
  rewrite ReadRecord_loop_S, Erp.
  destruct (decide (pad recycle off = [])) as [Hp|Hp].
  { rewrite Hp in *. rewrite slen_nil, Z.add_0_r. cbn [app] in HF. rewrite HF in Hf.
    exists f, (end_of_buffer_offset_ r - slen (buffer_ r)), r1, n. by split_and!. }
  destruct (pad_facts recycle off pos Hp Hoff Hcong) as (Epad & Hnf & Hls & Hm1 & Hend).
  destruct (loaded_trailer _ _ _ _ _ Hld HF HR Hend Hp) as (Heof & Hbuf & Hat1).
  destruct (Z.lt_ge_cases (slen (buffer_ r1)) kHeaderSize) as [Hlt|Hge].
  - destruct (ReadMore_loads _ _ _ Hat1 Hm1 Heof) as (r2 & Erm & Hld2 & Ec2 & Eh2).
    destruct n as [|n]; [lia|].
    exists f, (end_of_buffer_offset_ r - slen (buffer_ r)), r2, n. split_and!.
    + rewrite HF, length_app in Hf. lia.
    + f_equal. cbn [ReadPhysicalRecord_loop].
      replace (slen (buffer_ r1) <? kHeaderSize) with true by (symmetry; by apply Z.ltb_lt).
      assert (ReadMore r1 = ReadMore (r_buffer r1 [])) as ->
        by (unfold ReadMore; cbn; rewrite Heof, (ld_err _ _ _ Hld); done).
      by rewrite Erm.
    + done.
    + rewrite Ec2. exact Ec.
    + rewrite Eh2. exact Eh.
  - rewrite (read_zeros _ _ _ (Z.to_nat (kBlockSize - off)));
      [|by rewrite Hbuf | rewrite Hbuf, Hls in Hge; unfold kHeaderSize in Hge; lia].
    cbn [continue_with]. rewrite l_checksum_same. destruct Hl as [Hl|]; [|done].
    change (dispatch mode ?a kBadRecord [] 0 ?b l) with (on_bad_record b l). unfold on_bad_record. rewrite Hl.
    destruct f as [|f]; [rewrite HF, length_app in Hf; unfold slen in Hls; destruct R; cbn in *; lia|].
    destruct (ReadPhysicalRecord_loads _ _ _ (record_checksum l) Hat1) as (n2 & r2 & Hn2 & Erp2 & Hld2 & Ec2 & Eh2).
    rewrite ReadRecord_loop_S, Erp2.
    exists f, (end_of_buffer_offset_ (r_buffer r1 []) - slen (buffer_ (r_buffer r1 []))), r2, n2. split_and!.
    + rewrite HF, length_app in Hf. destruct (pad recycle off); [done|]. cbn in Hf. lia.
    + done.
    + done.
    + rewrite Ec2. exact Ec.
    + rewrite Eh2. exact Eh.
Qed.

(** ** Reading records back *)

(** The hash state has been fed with what is in [scratch]. *)
Definition hash_inv r (l : Locals) : Prop :=
  record_checksum l = None \/
  exists ps, hash_state_ r = Some (fold_left XXH3_64bits_update ps XXH3_64bits_reset) /\ concat ps = scratch l.

Lemma update_hash_inv r l frag : hash_inv r l -> conf (update_hash r l frag) = conf r /\
  (record_checksum l = None \/ exists ps,
     hash_state_ (update_hash r l frag) = Some (fold_left XXH3_64bits_update ps XXH3_64bits_reset) /\
     concat ps = scratch l ++ frag) /\
  forall Fc pos, at_pos Fc pos r -> at_pos Fc pos (update_hash r l frag).
Proof.
  unfold update_hash. intros [Hn|(ps & Hs & Hc)].
  - rewrite Hn. split_and!; [done | by left | done].
  - destruct (record_checksum l); [|split_and!; [done | by left | done]]. split_and!; [done| |].
    + right. exists (ps ++ [frag]). cbn. rewrite Hs, fold_left_app, concat_app, Hc. cbn. by rewrite app_nil_r.
    + intros Fc pos [? ? ? ? ? ?]. by constructor.
Qed.

Lemma dispatch_fragment mode po recycle b e frag dr r l :
  dispatch mode po (fragment_type recycle b e) frag dr r l =
  match b, e with
  | true, true => on_full po frag r l
  | true, false => on_first po frag r l
  | false, false => on_middle frag r l
  | false, true => on_last frag r l
  end.
Proof. by destruct recycle, b, e. Qed.

(** What the loop knows at the start of a fragment. *)
Definition in_record (begin : bool) (off : Z) (l : Locals) : Prop :=
  if begin then in_fragmented_record l = false /\ scratch l = []
  else in_fragmented_record l = true /\ off = kBlockSize.

(** The last fragment gives the record. *)
Lemma dispatch_end mode po recycle begin frag dr r l off Fc pos : in_record begin off l -> hash_inv r l ->
  uncompress_ r = None -> at_pos Fc pos r ->
  exists r', dispatch mode po (fragment_type recycle begin true) frag dr r l =
      Return_true (scratch l ++ frag) ((fun _ => XXH3_64bits (scratch l ++ frag)) <$> record_checksum l) r' /\
    at_pos Fc pos r' /\ conf r' = conf r.
Proof.
  intros Hin Hh Hu Hat. rewrite dispatch_fragment. destruct begin; cbn in Hin; destruct Hin as [Hi Hs].
  - unfold on_full. rewrite Hi, Hs. cbn [andb app]. rewrite Hu. eexists. split_and!.
    + by destruct (record_checksum l).
    + destruct Hat; by constructor.
    + done.
  - unfold on_last. rewrite Hi. cbn [negb].
    destruct (update_hash_inv r l frag Hh) as (Ec & Hps & Hat'). eexists. split_and!.
    + f_equal. destruct Hps as [->|(ps & -> & Hc)]; [done|]. rewrite XXH3_digest_spec, Hc.
      by destruct (record_checksum l).
    + destruct (Hat' _ _ Hat); by constructor.
    + exact Ec.
Qed.

(** Any other fragment is put into [scratch]. *)
Lemma dispatch_more mode po recycle begin frag dr r l off Fc pos : in_record begin off l -> hash_inv r l ->
  at_pos Fc pos r ->
  exists r' l', dispatch mode po (fragment_type recycle begin false) frag dr r l = Again r' l' /\
    in_record false kBlockSize l' /\ scratch l' = scratch l ++ frag /\ record_checksum l' = record_checksum l /\
    hash_inv r' l' /\ at_pos Fc pos r' /\ conf r' = conf r.
Proof.
  intros Hin Hh Hat. rewrite dispatch_fragment.
  destruct (update_hash_inv r l frag Hh) as (Ec & Hps & Hat').
  destruct begin; cbn in Hin; destruct Hin as [Hi Hs].
  - unfold on_first. rewrite Hi. cbn [andb]. eexists _, _. split; [reflexivity|].
    rewrite Hs. rewrite Hs in Hps. cbn [app] in *. split_and!; try done. by apply Hat'.
  - unfold on_middle. rewrite Hi. cbn [negb]. eexists _, _. split; [reflexivity|].
    split_and!; try done. by apply Hat'.
Qed.

Lemma phys_nonempty lg t p b : phys lg t p ++ b <> [].
Proof.
  unfold phys. intros E. apply (f_equal slen) in E. rewrite !slen_app, slen_format_header in E.
  snil. pose proof (slen_nonneg p). pose proof (slen_nonneg b).
  destruct (is_legacy t); unfold kHeaderSize, kRecyclableHeaderSize in E; lia.
Qed.

(** The hypotheses under which a log is read by the reader it was written for. *)
Definition reads recycle lg r : Prop :=
  uncompress_ r = None /\ (recycle = true -> rd_log_number_ r = lg /\ is_u32 lg).

Lemma reads_conf recycle lg r r' : conf r' = conf r -> reads recycle lg r -> reads recycle lg r'.
Proof. unfold conf, reads. intros [= _ E _ E']. by rewrite E, E'. Qed.

(** The reader gets to the first fragment of a layout. *)
Lemma loop_fragment recycle lg begin e payload b' S off Fc pos r l mode f :
  at_pos Fc pos r -> reads recycle lg r -> 0 <= off <= kBlockSize -> (pos - off) mod kBlockSize = 0 ->
  sdrop pos Fc = pad recycle off ++ phys lg (fragment_type recycle begin e) payload ++ b' ++ S ->
  start recycle off + header_size recycle + slen payload <= kBlockSize ->
  in_record begin off l -> (length (sdrop pos Fc) <= f)%nat ->
  exists f' po r1, (length (b' ++ S) < f')%nat /\
    ReadRecord_loop (Datatypes.S f) mode r l =
      continue_with f' mode po (Some (fragment_type recycle begin e, payload, 0, record_checksum l, r1)) l /\
    at_pos Fc (pos + slen (pad recycle off ++ phys lg (fragment_type recycle begin e) payload)) r1 /\
    conf r1 = conf r /\ hash_state_ r1 = hash_state_ r.
Proof.
  intros Hat [Hu Hlog] Hoff Hcong HF Hfit Hin Hf.
  destruct (loop_skip_pad recycle off Fc pos r l mode f _ Hat Hoff Hcong HF) as (f' & po & r2 & n & Hf' & E & Hld & Ec & Eh);
    [apply phys_nonempty | destruct begin; [left|right]; apply Hin | done |].
  assert (uncompress_ r2 = None /\ rd_log_number_ r2 = rd_log_number_ r) as [Hu2 Hl2]
    by (unfold conf in Ec; split; congruence).
  destruct (read_good recycle lg begin e payload Fc _ r2 (record_checksum l) n (b' ++ S) Hld Hu2)
    as (r3 & E3 & Hat3 & Ec3 & Eh3).
  - by rewrite Hl2.
  - unfold sdrop in *. rewrite Z2Nat.inj_add, <- drop_drop, HF; [|apply Hat|apply slen_nonneg].
    by apply (sdrop_app (slen (pad recycle off))).
  - by rewrite pad_start.
  - exists f', po, r3. split_and!.
    + unfold phys in Hf'. rewrite !length_app in Hf'. rewrite length_app.
      pose proof (slen_header recycle lg begin e payload) as Hh. pose proof (header_size_range recycle).
      unfold slen in Hh. lia.
    + by rewrite E, E3.
    + rewrite slen_app, slen_phys. by rewrite !Z.add_assoc in *.
    + by rewrite Ec3.
    + by rewrite Eh3.
Qed.

(** After a fragment that is not the last, a block starts. *)
Lemma next_fragment recycle lg begin payload R off (Fc : bytes) pos :
  0 <= off <= kBlockSize -> (pos - off) mod kBlockSize = 0 -> 0 <= pos <= slen Fc ->
  sdrop pos Fc = pad recycle off ++ phys lg (fragment_type recycle begin false) payload ++ R ->
  start recycle off + header_size recycle + slen payload = kBlockSize ->
  let pos1 := pos + slen (pad recycle off ++ phys lg (fragment_type recycle begin false) payload) in
  sdrop pos1 Fc = R /\ (pos1 - kBlockSize) mod kBlockSize = 0.
Proof.
  intros Hoff Hcong Hpos HF Hfull. cbv zeta. split.
  - unfold sdrop in *. rewrite Z2Nat.inj_add, <- drop_drop, HF; [|apply Hpos|apply slen_nonneg].
    rewrite app_assoc. by apply (sdrop_app (slen (pad recycle off ++ _))).
  - pose proof (pad_start recycle off pos Hoff Hcong) as Hps. rewrite slen_app, slen_phys.
    apply Z.mod_divide; [done|]. pose proof (Z.div_mod (pos + slen (pad recycle off)) kBlockSize ltac:(done)).
    exists ((pos + slen (pad recycle off)) / kBlockSize). lia.
Qed.

(** A whole layout is read back as its record. *)
Lemma loop_read recycle lg mode fuel : forall begin off rest b o S Fc pos r l f,
  layout fuel recycle lg off rest begin = Some (b, o) ->
  at_pos Fc pos r -> reads recycle lg r -> 0 <= off <= kBlockSize -> (pos - off) mod kBlockSize = 0 ->
  sdrop pos Fc = b ++ S -> in_record begin off l -> hash_inv r l -> (length (sdrop pos Fc) <= f)%nat ->
  exists r', ReadRecord_loop (Datatypes.S f) mode r l =
      Some (true, scratch l ++ rest, (fun _ => XXH3_64bits (scratch l ++ rest)) <$> record_checksum l, r') /\
    at_pos Fc (pos + slen b) r' /\ conf r' = conf r.
Proof.
  induction fuel as [|fuel IH]; intros begin off rest b o S Fc pos r l f HL Hat Hrd Hoff Hcong HF Hin Hh Hf; [done|].
  apply layout_inv in HL as (payload & rest' & e & b' & -> & -> & Hfit & HL); [|done].
  rewrite <- !app_assoc in HF.
  destruct (loop_fragment recycle lg begin e payload b' S off Fc pos r l mode f)
    as (f' & po & r1 & Hf' & -> & Hat1 & Ec1 & Eh1); try done.
  assert (hash_inv r1 l) as Hh1 by (unfold hash_inv in *; by rewrite Eh1).
  cbn [continue_with]. rewrite l_checksum_same.
  destruct HL as [(-> & -> & -> & _)|(-> & Hfull & HL)].
  - rewrite !app_nil_r in *.
    edestruct (dispatch_end mode po recycle begin payload 0 r1 l off Fc) as (r2 & -> & Hat2 & Ec2);
      [exact Hin | exact Hh1 | by apply (reads_conf _ _ _ _ Ec1 Hrd) | exact Hat1 |].
    exists r2. split_and!; [done|done|congruence].
  - destruct (dispatch_more mode po recycle begin payload 0 r1 l off Fc _ Hin Hh1 Hat1)
      as (r2 & l2 & -> & Hin2 & Hs2 & Hc2 & Hh2 & Hat2 & Ec2).
    destruct f' as [|f']; [lia|].
    destruct (next_fragment recycle lg begin payload (b' ++ S) off Fc pos Hoff Hcong (ap_pos _ _ _ Hat) HF Hfull)
      as [HF1 Hcong1].
    set (pos1 := pos + slen (pad recycle off ++ phys lg (fragment_type recycle begin false) payload)) in *.
    destruct (IH false kBlockSize rest' b' o S Fc pos1 r2 l2 f' HL Hat2) as (r3 & -> & Hat3 & Ec3); try done.
    + eapply reads_conf; [|exact Hrd]. congruence.
    + rewrite HF1. lia.
    + exists r3. rewrite Hs2, Hc2, <- app_assoc. split_and!; [done| |congruence].
      rewrite (app_assoc (pad recycle off)), slen_app, Z.add_assoc. exact Hat3.
Qed.

(** ** Reading a log that has been cut off *)

(** Something has been reported. *)
Definition grew r r' : Prop :=
  forall L, reporter_ r = Some L -> exists x xs, reporter_ r' = Some (L ++ x :: xs).

Lemma grew_report r r0 n s : conf r0 = conf r -> grew r (ReportCorruption r0 n s).
Proof.
  unfold conf. intros [= _ _ E _] L HL. cbn. rewrite E, HL. by eexists _, [].
Qed.

Lemma grew_report_again r r' n s : grew r r' -> grew r (ReportCorruption r' n s).
Proof.
  intros Hg L HL. destruct (Hg L HL) as (x & xs & E). cbn. rewrite E. exists x.
  eexists. by rewrite <- app_assoc.
Qed.

Lemma grew_conf r r0 r' : conf r0 = conf r -> grew r0 r' -> grew r r'.
Proof. unfold conf. intros [= _ _ E _] Hg L HL. apply Hg. congruence. Qed.

(** The ways in which [ReadRecord] gives up at the end of the file: silently, or
    with a report in the strict modes if a record has begun. *)
Definition gives_up (mode : WALRecoveryMode) (torn : Prop) r (l : Locals)
    (res : option (bool * bytes * option Z * Reader F H U)) : Prop :=
  exists r', res = Some (false, [], record_checksum l, r') /\
    (strict mode = false -> conf r' = conf r) /\ (strict mode = true -> torn -> grew r r').

Lemma gives_up_conf mode torn r r0 l res :
  conf r0 = conf r -> gives_up mode torn r0 l res -> gives_up mode torn r l res.
Proof.
  intros E (r' & -> & H1 & H2). exists r'. split_and!; [done | intros Hs; by rewrite H1 |].
  intros Hs Ht. by eapply grew_conf; [|apply H2].
Qed.

Lemma continue_eof fuel mode po dr r l :
  gives_up mode (in_fragmented_record l = true) r l
    (continue_with fuel mode po (Some (kEof, [], dr, record_checksum l, r)) l).
Proof.
  cbn [continue_with]. rewrite l_checksum_same.
  change (dispatch mode po kEof [] dr r l) with (on_eof mode r l). unfold on_eof.
  eexists. split_and!; [done| |].
  - intros ->. by rewrite andb_false_r.
  - intros -> ->. cbn [andb]. by apply grew_report.
Qed.

Lemma continue_bad_header fuel mode po dr r l :
  gives_up mode True r l (continue_with fuel mode po (Some (kBadHeader, [], dr, record_checksum l, r)) l).
Proof.
  cbn [continue_with]. rewrite l_checksum_same.
  change (dispatch mode po kBadHeader [] dr r l)
    with (on_eof mode (if strict mode then ReportCorruption r dr "truncated header" else r) l). unfold on_eof.
  eexists. split_and!; [done| |].
  - intros ->. by rewrite andb_false_r.
  - intros -> _. rewrite andb_true_r.
    assert (grew r (ReportCorruption r dr "truncated header")) by by apply grew_report.
    destruct (in_fragmented_record l); [by apply grew_report_again | done].
Qed.

Lemma continue_bad_len fuel mode po dr r l : eof_ r = true ->
  gives_up mode True r l (continue_with fuel mode po (Some (kBadRecordLen, [], dr, record_checksum l, r)) l).
Proof.
  intros He. cbn [continue_with]. rewrite l_checksum_same.
  change (dispatch mode po kBadRecordLen [] dr r l) with
    (if eof_ r then Return_false (record_checksum l)
       (if strict mode then ReportCorruption r dr "truncated record body" else r)
     else on_checksum mode "bad record length" dr r l).
  rewrite He. eexists. split_and!; [done|by intros ->|]. intros -> _. by apply grew_report.
Qed.

(** Nothing is left. *)
Lemma read_nothing Fc pos r c n : loaded Fc pos r -> sdrop pos Fc = [] ->
  exists r', ReadPhysicalRecord_loop (S n) r c = Some (kEof, [], 0, c, r') /\ conf r' = conf r.
Proof.
  intros Hld HF.
  destruct (loaded_end _ _ _ Hld) as [Heof Hbuf].
  { rewrite HF, slen_nil. pose proof (Z.mod_pos_bound pos kBlockSize ltac:(done)). lia. }
  rewrite HF in Hbuf. cbn [ReadPhysicalRecord_loop]. unfold ReadMore. rewrite Hbuf, Heof. cbn.
  by eexists.
Qed.

Lemma loop_eof Fc pos r l mode f : at_pos Fc pos r -> sdrop pos Fc = [] ->
  gives_up mode (in_fragmented_record l = true) r l (ReadRecord_loop (S f) mode r l).
Proof.
  intros Hat HF. rewrite ReadRecord_loop_S.
  destruct (ReadPhysicalRecord_loads Fc pos r (record_checksum l) Hat) as (n & r1 & Hn & -> & Hld & Ec & _).
  destruct (read_nothing Fc pos r1 (record_checksum l) n Hld HF) as (r2 & -> & Ec2).
  apply (gives_up_conf _ _ _ r2); [congruence|]. apply continue_eof.
Qed.

(** Between records the end of the file is not reported in any mode. *)
Lemma loop_eof_quiet Fc pos r l mode f : at_pos Fc pos r -> sdrop pos Fc = [] -> in_fragmented_record l = false ->
  exists r', ReadRecord_loop (S f) mode r l = Some (false, [], record_checksum l, r') /\ conf r' = conf r.
Proof.
  intros Hat HF Hl. rewrite ReadRecord_loop_S.
  destruct (ReadPhysicalRecord_loads Fc pos r (record_checksum l) Hat) as (n & r1 & Hn & -> & Hld & Ec & _).
  destruct (read_nothing Fc pos r1 (record_checksum l) n Hld HF) as (r2 & -> & Ec2).
  exists r2. cbn [continue_with]. rewrite l_checksum_same.
  change (dispatch mode ?po kEof [] 0 r2 l) with (on_eof mode r2 l). unfold on_eof. rewrite Hl.
  split; [done|congruence].
Qed.

(** What is left is part of a trailer. *)
Lemma loaded_last_trailer Fc pos r : loaded Fc pos r -> sdrop pos Fc <> [] ->
  pos mod kBlockSize + slen (sdrop pos Fc) <= kBlockSize ->
  buffer_ r = sdrop pos Fc /\ at_pos Fc (pos + slen (sdrop pos Fc)) (r_buffer r []) /\
  (eof_ r = false -> pos mod kBlockSize + slen (sdrop pos Fc) = kBlockSize).
Proof.
  intros Hld HT Hle. pose proof (Z.div_mod pos kBlockSize ltac:(done)) as Hdm.
  assert (0 < slen (sdrop pos Fc)) by (destruct (sdrop pos Fc); [done|]; rewrite slen_cons; slia).
  destruct (loaded_prefix _ _ _ (sdrop pos Fc) [] Hld) as [S' HB]; [by rewrite app_nil_r|done|].
  assert (S' = []) as ->.
  { pose proof (ld_buf _ _ _ Hld) as Hb. rewrite HB in Hb. apply (f_equal slen) in Hb.
    rewrite !slen_app in Hb. apply slen_0_nil. slia. }
  rewrite app_nil_r in HB. split_and!; [done| |].
  - eapply (loaded_consume _ _ r (sdrop pos Fc) []); try done. by rewrite app_nil_r.
  - intros Heof. pose proof (ld_blk _ _ _ Hld) as Hk. rewrite Heof in Hk.
    pose proof (ld_len _ _ _ Hld) as Hl. rewrite HB in Hl. unfold kBlockSize in *. lia.
Qed.

Lemma sdrop_end (Fc : bytes) pos : 0 <= pos <= slen Fc -> sdrop (pos + slen (sdrop pos Fc)) Fc = [].
Proof. intros Hp. apply sdrop_all. rewrite slen_sdrop by done. lia. Qed.

Lemma loop_short r c n : slen (buffer_ r) < kHeaderSize ->
  ReadPhysicalRecord_loop (S n) r c =
  match ReadMore r with
  | (r, Some (error, drop_size)) => Some (error, [], drop_size, c, r)
  | (r, None) => ReadPhysicalRecord_loop n r c
  end.
Proof.
  intros Hs. cbn [ReadPhysicalRecord_loop].
  by replace (slen (buffer_ r) <? kHeaderSize) with true by (symmetry; by apply Z.ltb_lt).
Qed.

(** A reader that does not know yet that the file has ended reads once more. *)
Lemma cut_short_trailer Fc pos r l mode f po n :
  loaded Fc pos r -> buffer_ r <> [] -> slen (buffer_ r) < kHeaderSize -> (1 <= n)%nat ->
  at_pos Fc (pos + slen (sdrop pos Fc)) (r_buffer r []) ->
  sdrop (pos + slen (sdrop pos Fc)) Fc = [] ->
  (eof_ r = false -> (pos + slen (sdrop pos Fc)) mod kBlockSize = 0) -> in_fragmented_record l = false ->
  gives_up mode False r l
    (continue_with f mode po (ReadPhysicalRecord_loop (S n) r (record_checksum l)) l).
Proof.
  intros Hld Hne Hlt Hn Hat1 Hend1 Hfull Hl. rewrite loop_short by done. destruct (eof_ r) eqn:Heof.
  - destruct (ReadMore_eof r Heof) as (ty & dr & -> & [[-> ?]|[-> _]]); [congruence|].
    destruct (continue_bad_header f mode po dr (r_buffer r []) l) as (r' & E & H1 & _).
    exists r'. by split_and!.
  - assert (ReadMore r = ReadMore (r_buffer r [])) as ->
      by (unfold ReadMore; cbn; rewrite Heof, (ld_err _ _ _ Hld); done).
    destruct (ReadMore_loads _ _ _ Hat1 (Hfull eq_refl) Heof) as (r2 & -> & Hld2 & Ec2 & _).
    destruct n as [|n]; [lia|].
    destruct (read_nothing _ _ r2 (record_checksum l) n Hld2 Hend1) as (r3 & -> & Ec3).
    destruct (continue_eof f mode po 0 r3 l) as (r' & E & H1 & _). exists r'.
    split_and!; [done| |done]. intros Hs. rewrite H1, Ec3, Ec2 by done. done.
Qed.

Lemma loop_cut_pad recycle off Fc pos r l mode f Q :
  at_pos Fc pos r -> 0 <= off <= kBlockSize -> (pos - off) mod kBlockSize = 0 ->
  pad recycle off = sdrop pos Fc ++ Q -> in_fragmented_record l = false -> (length (sdrop pos Fc) <= f)%nat ->
  gives_up mode False r l (ReadRecord_loop (S f) mode r l).
Proof.
  intros Hat Hoff Hcong HF Hl Hf. set (T := sdrop pos Fc) in *.
  destruct (decide (T = [])) as [HT|HT].
  { destruct (loop_eof Fc pos r l mode f Hat HT) as (r' & E & H1 & _). exists r'. by split_and!. }
  assert (pad recycle off <> []) as Hp by (rewrite HF; by destruct T).
  destruct (pad_facts recycle off pos Hp Hoff Hcong) as (Epad & Hnf & Hls & Hm1 & Hend).
  assert (slen T <= slen (pad recycle off)) by (rewrite HF, slen_app; slia).
  assert (T = replicate (length T) (to_byte 0)) as ET.
  { symmetry. apply replicate_as_elem_of. split; [done|]. intros x Hx. rewrite Epad in HF.
    assert (x ∈ replicate (Z.to_nat (kBlockSize - off)) (to_byte 0)) as Hx'
      by (rewrite HF; apply elem_of_app; by left).
    by apply elem_of_replicate in Hx' as [-> _]. }
  destruct (ReadPhysicalRecord_loads Fc pos r (record_checksum l) Hat) as (n & r1 & Hn & Erp & Hld & Ec & _).
  destruct (loaded_last_trailer Fc pos r1 Hld HT ltac:(fold T; lia)) as (Hbuf & Hat1 & Hfull).
  pose proof (sdrop_end Fc pos (ap_pos _ _ _ Hat)) as Hend1. fold T in Hat1, Hend1, Hbuf, Hfull.
  rewrite ReadRecord_loop_S, Erp. apply (gives_up_conf _ _ _ r1); [done|].
  destruct (Z.lt_ge_cases (slen T) kHeaderSize) as [Hlt|Hge].
  - apply (cut_short_trailer Fc pos r1); fold T; try done; [congruence | by rewrite Hbuf |].
    intros Heof. specialize (Hfull Heof). by replace (slen T) with (slen (pad recycle off)) by lia.
  - rewrite (read_zeros _ _ _ (length T)); [|congruence | unfold slen, kHeaderSize in Hge; lia].
    cbn [continue_with]. rewrite l_checksum_same.
    change (dispatch mode ?a kBadRecord [] 0 ?b l) with (on_bad_record b l). unfold on_bad_record. rewrite Hl.
    destruct f as [|f]; [destruct T; cbn in *; [done|lia]|].
    destruct (loop_eof Fc _ _ l mode f Hat1 Hend1) as (r' & E & H1 & _). exists r'. by split_and!.
Qed.

(** The file ends inside a fragment. *)
Lemma loop_cut_fragment recycle lg begin e payload off Fc pos r l mode f T1 Q1 :
  at_pos Fc pos r -> 0 <= off <= kBlockSize -> (pos - off) mod kBlockSize = 0 ->
  start recycle off + header_size recycle + slen payload <= kBlockSize ->
  sdrop pos Fc = pad recycle off ++ T1 -> T1 <> [] -> Q1 <> [] ->
  phys lg (fragment_type recycle begin e) payload = T1 ++ Q1 -> in_record begin off l ->
  (length (sdrop pos Fc) <= f)%nat ->
  gives_up mode True r l (ReadRecord_loop (S f) mode r l).
Proof.
  intros Hat Hoff Hcong Hfit HF HT1 HQ1 Hph Hin Hf.
  destruct (loop_skip_pad recycle off Fc pos r l mode f T1 Hat Hoff Hcong HF HT1)
    as (f' & po & r2 & n & _ & -> & Hld & Ec & _); [destruct begin; [left|right]; apply Hin | done |].
  assert (sdrop (pos + slen (pad recycle off)) Fc = T1) as HF1.
  { unfold sdrop in *. rewrite Z2Nat.inj_add, <- drop_drop, HF; [|apply Hat|apply slen_nonneg].
    by apply (sdrop_app (slen (pad recycle off))). }
  destruct (read_cut recycle lg begin e payload Fc _ r2 (record_checksum l) n Q1 Hld HQ1)
    as (ty & dr & r' & -> & Hty & Heof & Ec' & _); [by rewrite HF1 | by rewrite pad_start |].
  apply (gives_up_conf _ _ _ r'); [congruence|].
  destruct Hty as [[_ ?]|[[-> | ->] _]]; [congruence | apply continue_bad_header | by apply continue_bad_len].
Qed.

Lemma gives_up_weaken mode (P Q : Prop) r l res : (Q -> P) -> gives_up mode P r l res -> gives_up mode Q r l res.
Proof. intros HPQ (r' & E & H1 & H2). exists r'. split_and!; auto. Qed.

(** A record that has lost its end is not read. In the strict modes this is
    reported, unless the file ends in the trailer in front of the record. *)
Lemma loop_cut recycle lg mode fuel : forall begin off rest b o Q Fc pos r l f,
  layout fuel recycle lg off rest begin = Some (b, o) ->
  at_pos Fc pos r -> reads recycle lg r -> 0 <= off <= kBlockSize -> (pos - off) mod kBlockSize = 0 ->
  b = sdrop pos Fc ++ Q -> Q <> [] -> in_record begin off l -> hash_inv r l -> (length (sdrop pos Fc) <= f)%nat ->
  gives_up mode (begin = false \/ slen (pad recycle off) < slen (sdrop pos Fc)) r l
    (ReadRecord_loop (Datatypes.S f) mode r l).
Proof.
  induction fuel as [|fuel IH]; intros begin off rest b o Q Fc pos r l f HL Hat Hrd Hoff Hcong HF HQ Hin Hh Hf; [done|].
  apply layout_inv in HL as (payload & rest' & e & b' & -> & -> & Hfit & HL); [|done].
  symmetry in HF. apply app_eq_inv in HF as [(T1 & HT & HR)|(k & Hp & _)].
  2:{ destruct begin; cbn in Hin.
      - eapply gives_up_weaken; [|eapply loop_cut_pad; try done; apply Hin].
        rewrite Hp, slen_app. intros [|]; [done|slia].
      - destruct Hin as [Hi ->]. rewrite pad_full in Hp. symmetry in Hp. apply app_nil in Hp as [HT _].
        eapply gives_up_weaken; [|by eapply loop_eof]. done. }
  destruct (decide (T1 = [])) as [->|HT1].
  { rewrite app_nil_r in HT. destruct begin; cbn in Hin.
    - eapply gives_up_weaken; [|eapply (loop_cut_pad recycle off _ _ _ _ _ _ []); try done;
        [by rewrite app_nil_r | apply Hin]]. rewrite HT. intros [|]; [done|lia].
    - destruct Hin as [Hi ->]. rewrite pad_full in HT.
      eapply gives_up_weaken; [|by eapply loop_eof]. done. }
  destruct (app_cut _ _ _ _ HR) as [(T2 & -> & Hb')|(k & Hk & Hph & _)].
  2:{ eapply gives_up_weaken; [|by eapply loop_cut_fragment]. done. }
  destruct HL as [(-> & -> & -> & _)|(-> & Hfull & HL)]; [by destruct T2, Q|].
  destruct (loop_fragment recycle lg begin false payload T2 [] off Fc pos r l mode f)
    as (f' & po & r1 & Hf' & -> & Hat1 & Ec1 & Eh1); try done; [by rewrite app_nil_r|].
  assert (hash_inv r1 l) as Hh1 by (unfold hash_inv in *; by rewrite Eh1).
  cbn [continue_with]. rewrite l_checksum_same.
  destruct (dispatch_more mode po recycle begin payload 0 r1 l off Fc _ Hin Hh1 Hat1)
    as (r2 & l2 & -> & Hin2 & Hs2 & Hc2 & Hh2 & Hat2 & Ec2).
  destruct f' as [|f']; [lia|]. rewrite app_nil_r in Hf'.
  destruct (next_fragment recycle lg begin payload T2 off Fc pos Hoff Hcong (ap_pos _ _ _ Hat) HT Hfull) as [HF1 Hcong1].
  set (pos1 := pos + slen (pad recycle off ++ phys lg (fragment_type recycle begin false) payload)) in *.
  destruct (IH false kBlockSize rest' b' o Q Fc pos1 r2 l2 f' HL Hat2) as (r3 & E & H1 & H2); try done.
  - eapply reads_conf; [|exact Hrd]. congruence.
  - by rewrite HF1.
  - rewrite HF1. lia.
  - exists r3. rewrite E, Hc2. split_and!; [done | intros Hs; rewrite H1 by done; congruence |].
    intros Hs _. apply (grew_conf _ r2); [congruence|]. apply H2; [done|by left].
Qed.

(** ** Whole logs *)

(** Records until [ReadRecord] returns false, each with its checksum. *)
Fixpoint ReadAll (fuel : nat) (mode : WALRecoveryMode) (checksum : option Z) r
    : option (list (bytes * option Z) * Reader F H U) :=
  match fuel with
  | O => None
  | S fuel' =>
      match ReadRecord r mode checksum with
      | None => None
      | Some (false, _, _, r) => Some ([], r)
      | Some (true, x, c, r) =>
          match ReadAll fuel' mode checksum r with
          | None => None
          | Some (l, r) => Some ((x, c) :: l, r)
          end
      end
  end.

Lemma ReadAll_S fuel mode c r :
  ReadAll (S fuel) mode c r =
  match ReadRecord r mode c with
  | None => None
  | Some (false, _, _, r) => Some ([], r)
  | Some (true, x, c', r) =>
      match ReadAll fuel mode c r with None => None | Some (l, r) => Some ((x, c') :: l, r) end
  end.
Proof. reflexivity. Qed.

(** What reading [x] gives when a checksum is wanted or not. *)
Definition with_checksum (checksum : option Z) (x : bytes) : bytes * option Z :=
  (x, (fun _ => XXH3_64bits x) <$> checksum).

(** The reads of a log in the file [Fc] one by one: each record leaves the
    reader as it was but for the position, and the last call finds no more. *)
Inductive read_seq (mode : WALRecoveryMode) (c : option Z) (Fc : bytes)
    : Reader F H U -> list bytes -> Reader F H U -> Prop :=
| seq_end pos r x c' r' :
    at_pos Fc pos r -> ReadRecord r mode c = Some (false, x, c', r') ->
    read_seq mode c Fc r [] r'
| seq_next pos r x r1 l r' :
    at_pos Fc pos r ->
    ReadRecord r mode c = Some (true, x, (fun _ => XXH3_64bits x) <$> c, r1) ->
    conf r1 = conf r -> read_seq mode c Fc r1 l r' -> read_seq mode c Fc r (x :: l) r'.

Lemma read_seq_ReadAll mode c Fc r l r' fuel : read_seq mode c Fc r l r' -> (length l < fuel)%nat ->
  ReadAll fuel mode c r = Some (with_checksum c <$> l, r').
Proof.
  intros Hs. revert fuel. induction Hs as [pos r x c' r' _ E|pos r x r1 l r' _ E _ _ IH];
    intros [|fuel] Hf; cbn [length] in *; try lia; rewrite ReadAll_S, E; [done|].
  rewrite IH by lia. done.
Qed.

(** [ReadRecord] is the loop from a fresh state. *)
Lemma ReadRecord_start Fc pos r mode c : at_pos Fc pos r -> uncompress_ r = None ->
  exists r1 l, ReadRecord r mode c = ReadRecord_loop (S (length (sdrop pos Fc))) mode r1 l /\
    at_pos Fc pos r1 /\ conf r1 = conf r /\ hash_inv r1 l /\ record_checksum l = c /\ scratch l = [] /\
    forall off, in_record true off l.
Proof.
  intros Hat Hu. unfold ReadRecord, ReadRecord_fuel.
  set (r1 := match c with Some _ => r_hash r (Some XXH3_64bits_reset) | None => r end).
  assert (at_pos Fc pos r1 /\ conf r1 = conf r) as [Hat1 Ec].
  { destruct c; [|done]. split; [|done]. destruct Hat; by constructor. }
  assert (uncompress_ r1 = None) as -> by (unfold conf in Ec; congruence).
  exists r1, {| scratch := []; in_fragmented_record := false; prospective_record_offset := 0; record_checksum := c |}.
  split_and!; [|done|done| |done|done|by intros].
  - rewrite (ap_buf _ _ _ Hat1), length_app. done.
  - unfold hash_inv. destruct c; [right|by left]. by exists [].
Qed.

Lemma at_pos_next Fc pos r b S : at_pos Fc pos r -> sdrop pos Fc = b ++ S -> sdrop (pos + slen b) Fc = S.
Proof.
  intros Hat HF. unfold sdrop in *. rewrite Z2Nat.inj_add, <- drop_drop, HF; [|apply Hat|apply slen_nonneg].
  by apply (sdrop_app (slen b)).
Qed.

(** The verdict on a log that may have been cut off: [k] records are read. *)
Definition recovered recycle lg off (mode : WALRecoveryMode) (rs : list bytes) (left_ : bytes) (k : nat) r r' : Prop :=
  (k <= length rs)%nat /\
  slen (log_layout recycle lg off (take k rs)) <= slen left_ /\
  ((k < length rs)%nat -> slen left_ < slen (log_layout recycle lg off (take (S k) rs))) /\
  (strict mode = false -> conf r' = conf r) /\
  (strict mode = true ->
   slen (log_layout recycle lg off (take k rs)) + slen (pad recycle (log_offset recycle lg off (take k rs)))
     < slen left_ -> grew r r').

Lemma read_all recycle lg mode c rs : forall off Fc pos r Q,
  at_pos Fc pos r -> reads recycle lg r -> 0 <= off <= kBlockSize -> (pos - off) mod kBlockSize = 0 ->
  log_layout recycle lg off rs = sdrop pos Fc ++ Q ->
  exists k r', read_seq mode c Fc r (take k rs) r' /\
    recovered recycle lg off mode rs (sdrop pos Fc) k r r' /\ (Q = [] -> k = length rs /\ conf r' = conf r).
Proof.
  induction rs as [|x rs IH]; intros off Fc pos r Q Hat Hrd Hoff Hcong HF.
  all: destruct (ReadRecord_start Fc pos r mode c Hat (proj1 Hrd)) as (r1 & l & E & Hat1 & Ec1 & Hh & Hc & Hs & Hin).
  { cbn in HF. symmetry in HF. apply app_nil in HF as [HT ->].
    destruct (loop_eof_quiet Fc pos r1 l mode (length (sdrop pos Fc)) Hat1 HT) as (r' & Hr & E1);
      [apply (Hin off)|]. rewrite Hr in E.
    exists 0%nat, r'. split; [by eapply seq_end|]. rewrite HT. split; [|split; [done|congruence]]. unfold recovered. cbn.
    split_and!; try done; [lia | congruence |]. intros _. pose proof (slen_nonneg (pad recycle off)). snil. lia. }
  pose proof (record_layout_spec recycle lg off x Hoff) as HL.
  destruct (record_layout recycle lg off x) as [b o] eqn:EL.
  destruct (record_layout_offset _ _ _ _ _ _ Hoff EL) as [Ho Hob].
  assert (reads recycle lg r1) as Hrd1 by by apply (reads_conf _ _ _ _ Ec1).
  cbn [log_layout] in HF. rewrite EL in HF.
  destruct (app_cut _ _ _ _ HF) as [(S & HS & HR)|(Q' & HQ' & Hb & HQ)].
  - destruct (loop_read recycle lg mode _ true off x b o S Fc pos r1 l (length (sdrop pos Fc)) HL)
      as (r2 & Hr & Hat2 & Ec2); try done. rewrite Hr in E.
    pose proof (at_pos_next _ _ _ _ _ Hat HS) as HF2.
    destruct (IH o Fc (pos + slen b) r2 Q Hat2) as (k & r3 & E3 & (Hk & Hk1 & Hk2 & Hk3 & Hk4) & HQ);
      [apply (reads_conf _ _ _ _ Ec2 Hrd1) | done | | by rewrite HF2 |].
    { apply Z.mod_divide in Hcong as [q Hq]; [|done]. apply Z.mod_divide in Hob as [q' Hq']; [|done].
      apply Z.mod_divide; [done|]. exists (q + q'). lia. }
    rewrite HF2 in *. rewrite Hs, Hc in E. cbn [app] in E.
    exists (Datatypes.S k), r3. split; [eapply seq_next; [done|exact E|congruence|exact E3]|]. split; [|intros HQ0; destruct (HQ HQ0); split; [cbn; lia|congruence]].
    unfold recovered. cbn [take log_layout log_offset length]. rewrite EL. cbn [snd]. rewrite HS, !slen_app.
    split_and!; [lia | lia | intros; specialize (Hk2 ltac:(lia)); cbn [take] in Hk2; lia | |].
    + intros Hst. rewrite Hk3 by done. congruence.
    + intros Hst Hlt. apply (grew_conf _ r2); [congruence|]. apply Hk4; [done|lia].
  - destruct (loop_cut recycle lg mode _ true off x b o Q' Fc pos r1 l (length (sdrop pos Fc)) HL)
      as (r2 & Hr & H1 & H2); try done. rewrite Hr in E.
    exists 0%nat, r2. split; [by eapply seq_end|]. split; [|intros ->; by destruct Q'].
    unfold recovered. cbn [take log_layout log_offset length]. rewrite EL, Hb, !slen_app. snil.
    assert (0 < slen Q') by (destruct Q'; [done|]; rewrite slen_cons; slia).
    split_and!; [lia | slia | intros _; slia | intros Hst; rewrite H1; [done|done] |].
    intros Hst Hlt. apply (grew_conf _ r1); [congruence|]. apply H2; [done|]. right. lia.
Qed.

End ReaderSpec.

(** ** Properties *)

Section Properties.

Context {D C F H U : Type} `{!WritableFile D} `{!StreamingCompress C}.
Context `{!SequentialFile F} `{!StreamingHash H} `{!StreamingUncompress U}.

Lemma at_pos_start (f : F) reporter checksum lg : healthy f ->
  at_pos (remaining f) 0 (Reader_make (H:=H) (U:=U) f reporter checksum lg).
Proof. intros Hf. constructor; cbn; try done. pose proof (slen_nonneg (remaining f)). lia. Qed.

(** A file that holds a prefix of the log of [rs]. *)
Lemma read_prefix recycle lg rs (f : F) reporter checksum mode c Q :
  (recycle = true -> is_u32 lg) -> healthy f -> log_layout recycle lg 0 rs = remaining f ++ Q ->
  exists k r', let r := Reader_make (H:=H) (U:=U) f reporter checksum lg in
    read_seq mode c (remaining f) r (take k rs) r' /\
    recovered recycle lg 0 mode rs (remaining f) k r r' /\
    (Q = [] -> k = length rs /\ conf r' = conf r).
Proof.
  intros Hlg Hf HF.
  apply (read_all recycle lg mode c rs 0 (remaining f) 0 _ Q); try done.
  - by apply at_pos_start.
  - split; [done|]. intros Hr. split; [done|]. by apply Hlg.
Qed.

Lemma AddRecords_fresh d lg recycle manual_flush rs s (w' : Writer D C) :
  w_contents d = [] ->
  AddRecords (Writer_make d lg recycle manual_flush kNoCompression) rs = Some (s, w') ->
  exists q, log_layout recycle lg 0 rs = w_contents (dest_ w') ++ q /\ (ok s = true -> q = []).
Proof.
  intros Hd HA. destruct (AddRecords_spec (Writer_make d lg recycle manual_flush kNoCompression) rs)
    as (s1 & w1 & E & _ & (p & q & HL & Hc & Hq) & _); [done|done|].
  rewrite HA in E. injection E as <- <-. cbn in HL, Hc. rewrite Hd in Hc. cbn in Hc.
  exists q. by rewrite Hc.
Qed.

(** [C25] Whatever records are written to an empty log, with or without
    recycling, a reader of the resulting file returns exactly these records in
    order, in every recovery mode, reports nothing, and computes the checksum
    of each record when asked to. *)
Theorem wal_roundtrip (d : D) (lg : Z) (recycle manual_flush : bool) (rs : list bytes) (w' : Writer D C)
    (f : F) (reporter : option (list (Z * Status))) (checksum : bool)
    (mode : WALRecoveryMode) (c : option Z) :
  w_contents d = [] -> (recycle = true -> is_u32 lg) ->
  AddRecords (Writer_make d lg recycle manual_flush kNoCompression) rs = Some (OK, w') ->
  healthy f -> remaining f = w_contents (dest_ w') ->
  exists r', ReadAll (S (length rs)) mode c (Reader_make (H:=H) (U:=U) f reporter checksum lg) =
      Some (with_checksum (H:=H) c <$> rs, r') /\ reporter_ r' = reporter.
Proof.
  intros Hd Hlg HA Hf Hrem. destruct (AddRecords_fresh _ _ _ _ _ _ _ Hd HA) as (q & HL & Hq).
  rewrite Hq in HL by done. rewrite <- Hrem in HL.
  destruct (read_prefix recycle lg rs f reporter checksum mode c [] Hlg Hf HL) as (k & r' & E & _ & HQ).
  destruct (HQ eq_refl) as [-> Ec]. rewrite firstn_all in E. exists r'.
  split; [eapply read_seq_ReadAll; [exact E|lia]|].
  unfold conf in Ec. cbn in Ec. congruence.
Qed.

(** [C1] Crash recovery: let any records be written to an empty log, up to a
    failure of the destination if there is one, and let the file survive only
    up to some byte. Then the reader returns exactly the records that are
    complete in the surviving bytes, with their checksums, and nothing else. In
    the modes that tolerate an incomplete tail it reports nothing; in the strict
    modes it reports a corruption whenever part of a further record has
    survived. *)
Theorem wal_crash_recovery (d : D) (lg : Z) (recycle manual_flush : bool) (rs : list bytes) (s : Status)
    (w' : Writer D C) (n : Z) (f : F) (reports : list (Z * Status)) (checksum : bool)
    (mode : WALRecoveryMode) (c : option Z) :
  w_contents d = [] -> (recycle = true -> is_u32 lg) ->
  AddRecords (Writer_make d lg recycle manual_flush kNoCompression) rs = Some (s, w') ->
  healthy f -> remaining f = stake n (w_contents (dest_ w')) ->
  exists k r', ReadAll (S (length rs)) mode c (Reader_make (H:=H) (U:=U) f (Some reports) checksum lg) =
      Some (with_checksum (H:=H) c <$> take k rs, r') /\
    (k <= length rs)%nat /\ slen (log_layout recycle lg 0 (take k rs)) <= slen (remaining f) /\
    ((k < length rs)%nat -> slen (remaining f) < slen (log_layout recycle lg 0 (take (S k) rs))) /\
    (strict mode = false -> reporter_ r' = Some reports) /\
    (strict mode = true ->
     slen (log_layout recycle lg 0 (take k rs) ++ pad recycle (log_offset recycle lg 0 (take k rs)))
       < slen (remaining f) ->
     exists x xs, reporter_ r' = Some (reports ++ x :: xs)).
Proof.
  intros Hd Hlg HA Hf Hrem. destruct (AddRecords_fresh _ _ _ _ _ _ _ Hd HA) as (q & HL & _).
  rewrite <- (stake_sdrop n (w_contents (dest_ w'))), <- Hrem, <- app_assoc in HL.
  destruct (read_prefix recycle lg rs f (Some reports) checksum mode c _ Hlg Hf HL)
    as (k & r' & E & (Hk & Hk1 & Hk2 & Hk3 & Hk4) & _).
  exists k, r'. split_and!; try done.
  - eapply read_seq_ReadAll; [exact E|]. rewrite length_take. lia.
  - intros Hs. specialize (Hk3 Hs). unfold conf in Hk3. cbn in Hk3. congruence.
  - intros Hs Hlt. rewrite slen_app in Hlt. by apply (Hk4 Hs Hlt).
Qed.

End Properties.

(** Three records, the second of them empty. *)
Definition sample_log : list bytes := [to_byte <$> [1; 2; 3]; []; to_byte <$> [4; 5; 6; 7; 8]].

Lemma wal_roundtrip_witness :
  exists (w' : Writer bytes Empty_set) (r' : Reader bytes bytes Empty_set),
    AddRecords (Writer_make [] 7 true false kNoCompression) sample_log = Some (OK, w') /\
    slen (w_contents (dest_ w')) = 3 * 11 + 8 /\
    ReadAll 4 kAbsoluteConsistency (Some 0) (Reader_make (dest_ w') (Some []) true 7) =
      Some (with_checksum (H:=bytes) (Some 0) <$> sample_log, r') /\
    reporter_ r' = Some [].
Proof.
  destruct (AddRecords (C:=Empty_set) (Writer_make [] 7 true false kNoCompression) sample_log)
    as [[s w']|] eqn:E; [|vm_compute in E; discriminate].
  assert (s = OK /\ slen (w_contents (dest_ w')) = 41) as [-> Hl] by (vm_compute in E; by injection E as <- <-).
  assert (true = true -> is_u32 7) as H7 by (intros _; unfold is_u32; lia).
  pose proof (wal_roundtrip (D:=bytes) (C:=Empty_set) (F:=bytes) (H:=bytes) (U:=Empty_set) [] 7 true false sample_log w' (dest_ w') (Some []) true
              kAbsoluteConsistency (Some 0)) as HR.
  destruct (HR eq_refl H7 E I eq_refl) as (r' & Hr & Hrep).
  exists w', r'. exact (conj eq_refl (conj Hl (conj Hr Hrep))).
Defined.

(** The device is full after 30 bytes: one record is complete. *)
Lemma wal_crash_recovery_witness :
  exists (s : Status) (w' : Writer SmallFile Empty_set) (k : nat) (r' : Reader bytes bytes Empty_set),
    AddRecords (Writer_make {| sf_data := []; sf_free := 30 |} 7 true false kNoCompression) sample_log = Some (s, w') /\
    ok s = false /\
    ReadAll 4 kTolerateCorruptedTailRecords None
      (Reader_make (stake 24 (w_contents (dest_ w'))) (Some []) true 7) =
      Some (with_checksum (H:=bytes) None <$> take k sample_log, r') /\
    k = 1%nat /\ reporter_ r' = Some [].
Proof.
  destruct (AddRecords (C:=Empty_set) (Writer_make {| sf_data := []; sf_free := 30 |} 7 true false kNoCompression) sample_log)
    as [[s w']|] eqn:E; [|vm_compute in E; discriminate].
  assert (true = true -> is_u32 7) as H7 by (intros _; unfold is_u32; lia).
  pose proof (wal_crash_recovery (D:=SmallFile) (C:=Empty_set) (F:=bytes) (H:=bytes) (U:=Empty_set) {| sf_data := []; sf_free := 30 |} 7 true false
              sample_log s w' 24 (stake 24 (w_contents (dest_ w'))) [] true kTolerateCorruptedTailRecords None) as HR.
  destruct (HR eq_refl H7 E I eq_refl) as (k & r' & Hr & Hk & Hk1 & Hk2 & Hk3 & _).
  assert (ok s = false /\ slen (stake 24 (w_contents (dest_ w'))) = 24) as [Hs Hl]
    by (vm_compute in E; injection E as <- <-; split; vm_compute; reflexivity).
  exists s, w', k, r'. refine (conj eq_refl (conj Hs (conj Hr (conj _ (Hk3 eq_refl))))).
  assert (slen (log_layout true 7 0 (take 1 sample_log)) = 14) as E1 by (vm_compute; reflexivity).
  assert (slen (log_layout true 7 0 (take 2 sample_log)) = 25) as E2 by (vm_compute; reflexivity).
  assert (slen (log_layout true 7 0 (take 3 sample_log)) = 41) as E3 by (vm_compute; reflexivity).
  change (remaining ?x) with x in Hk1, Hk2. rewrite Hl in Hk1, Hk2. clear - Hk Hk1 Hk2 E1 E2 E3.
  change (length sample_log) with 3%nat in *.
  destruct k as [|[|[|[|k]]]]; [specialize (Hk2 ltac:(lia)); lia | done | lia | lia | lia].
Defined.

(** ** Where the log falls short *)

(** Write a record that leaves 8 bytes of the first block, the timestamp size
    of a column family, and a second record; then read the file. The result:
    the offset in the block after the timestamp size, the lengths of the records
    that are read, and the reports. *)
Definition crossing_log : option (Z * list Z * option (list (Z * Status))) :=
  let w := Writer_make (D:=bytes) (C:=Empty_set) [] 7 false true kNoCompression in
  match AddRecords w [replicate (Z.to_nat (kBlockSize - 7 - 8)) (to_byte 1)] with
  | Some (OK, w) =>
      match MaybeAddUserDefinedTimestampSizeRecord w [(1, 8)] with
      | (OK, w) =>
          match AddRecords w [to_byte <$> [4; 5; 6]] with
          | Some (OK, w') =>
              match ReadAll 3 kTolerateCorruptedTailRecords None
                      (Reader_make (F:=bytes) (H:=bytes) (U:=Empty_set) (dest_ w') (Some []) true 7) with
              | Some (l, r) => Some (block_offset_ w, (fun p => slen (fst p)) <$> l, reporter_ r)
              | None => None
              end
          | _ => None
          end
      | _ => None
      end
  | _ => None
  end.

(** The record of timestamp sizes is emitted without looking at the room that is
    left in the block: its 13 bytes cross the end of the block by 5 bytes. The
    reader cannot read them, and the record that was written behind them without
    an error is lost. *)
Theorem timestamp_sizes_cross_block :
  crossing_log = Some (kBlockSize + 5, [kBlockSize - 15], Some [(8, Corruption "bad record length")]).
Proof. vm_compute. reflexivity. Qed.

(** A fragmented record that is interrupted by a record of an old log, and a
    whole record behind it. *)
Definition interrupted_log : bytes :=
  phys 7 kRecyclableFirstType [to_byte 1] ++ phys 9 kRecyclableFullType [to_byte 2] ++
  phys 7 kRecyclableFirstType [to_byte 3] ++ phys 7 kRecyclableLastType [to_byte 4].

(** In the mode that skips damaged records, the streaming hash is not reset when
    a fragmented record is dropped: the next record is returned with a checksum
    that covers the dropped fragment, too. *)
Theorem stale_record_checksum :
  exists r' : Reader bytes bytes Empty_set,
    ReadRecord (Reader_make interrupted_log (Some []) true 7) kSkipAnyCorruptedRecords (Some 0) =
      Some (true, [to_byte 3; to_byte 4], Some (XXH3_64bits [to_byte 1; to_byte 3; to_byte 4]), r') /\
    XXH3_64bits [to_byte 1; to_byte 3; to_byte 4] <> XXH3_64bits [to_byte 3; to_byte 4].
Proof. eexists. split; [vm_compute; reflexivity | vm_compute; discriminate]. Qed.
