(* ===== verification/TableFormat.v ===== *)
(** * The format of table files

    Models table/format.h and table/format.cc: the handles that locate a block
    in a file, the values of index entries, the checksums of blocks with their
    context, and the footer of a file; [VerifyBlockChecksum] of
    table/block_based/reader_common.cc, and the block trailer that
    [BlockBasedTableBuilder::WriteMaybeCompressedBlock] writes.

    The xxHash functions are vendored: they are the operations of the class
    [XXHash], with the documented relation of the streaming and the one-shot
    interface as its laws. *)

From S2P Require Import Prelude Coding Slice Comparator Crc32c.

(** ** Block handles *)

Record BlockHandle := BH { bh_offset : Z; bh_size : Z }.

#[export] Instance BlockHandle_eq_dec : EqDecision BlockHandle.
Proof. solve_decision. Defined.

(** The default constructor: "uninitialized". *)
Definition BlockHandle_default : BlockHandle := BH (2 ^ 64 - 1) (2 ^ 64 - 1).

Definition NullBlockHandle : BlockHandle := BH 0 0.

Definition IsNull (h : BlockHandle) : bool := (bh_offset h =? 0) && (bh_size h =? 0).

Definition BlockHandle_kMaxEncodedLength : Z := 2 * kMaxVarint64Length.

(** Both overloads of [EncodeTo]: the bytes that are appended to the string and
    those that are written through the pointer. *)
Definition BlockHandle_EncodeTo (h : BlockHandle) (dst : bytes) : bytes :=
  PutVarint64Varint64 dst (bh_offset h) (bh_size h).
Definition BlockHandle_EncodeTo_ptr (h : BlockHandle) : bytes :=
  EncodeVarint64 (bh_offset h) ++ EncodeVarint64 (bh_size h).

(** The status, the handle and what is left of the input. *)
Definition BlockHandle_DecodeFrom (input : bytes) : Status * BlockHandle * bytes :=
  match GetVarint64 input with
  | Some (offset, input) =>
      match GetVarint64 input with
      | Some (size, input) => (OK, BH offset size, input)
      | None => (Corruption "bad block handle", BH 0 0, input)
      end
  | None => (Corruption "bad block handle", BH 0 0, input)
  end.

Definition BlockHandle_DecodeSizeFrom (offset : Z) (input : bytes) : Status * BlockHandle * bytes :=
  match GetVarint64 input with
  | Some (size, input) => (OK, BH offset size, input)
  | None => (Corruption "bad block handle", BH 0 0, input)
  end.

Definition BlockHandle_ToString (h : BlockHandle) (hex : bool) : bytes :=
  let handle_str := BlockHandle_EncodeTo h [] in
  if hex then ToString true handle_str else handle_str.

(** ** Index values *)

Definition kBlockTrailerSize : Z := 5.

Record IndexValue := IV { iv_handle : BlockHandle; iv_first_internal_key : bytes }.

Definition IndexValue_EncodeTo (v : IndexValue) (dst : bytes) (have_first_key : bool)
    (previous_handle : option BlockHandle) : bytes :=
  let dst :=
    match previous_handle with
    | Some p => PutVarsignedint64 dst (s64 (u64 (bh_size (iv_handle v) - bh_size p)))
    | None => BlockHandle_EncodeTo (iv_handle v) dst
    end in
  if have_first_key then PutLengthPrefixedSlice dst (iv_first_internal_key v) else dst.

(** [v] is the object decoded into: a failure leaves part of it. *)
Definition IndexValue_DecodeFrom (v : IndexValue) (input : bytes) (have_first_key : bool)
    (previous_handle : option BlockHandle) : Status * IndexValue * bytes :=
  let '(s, handle, input) :=
    match previous_handle with
    | Some p =>
        match GetVarsignedint64 input with
        | None => (Corruption "bad delta-encoded index value", iv_handle v, input)
        | Some (delta, input) =>
            (OK, BH (u64 (bh_offset p + bh_size p + kBlockTrailerSize)) (u64 (bh_size p + delta)), input)
        end
    | None => BlockHandle_DecodeFrom input
    end in
  if negb (ok s) then (s, IV handle (iv_first_internal_key v), input)
  else if negb have_first_key then (OK, IV handle [], input)
  else match GetLengthPrefixedSlice input with
       | None => (Corruption "bad first key in block info", IV handle (iv_first_internal_key v), input)
       | Some (k, input) => (OK, IV handle k, input)
       end.

Definition IndexValue_ToString (v : IndexValue) (hex have_first_key : bool) : bytes :=
  let s := IndexValue_EncodeTo v [] have_first_key None in
  if hex then ToString true s else s.

(** ** Checksums of blocks *)

Definition kNoChecksum : Z := 0.
Definition kCRC32c : Z := 1.
Definition kxxHash : Z := 2.
Definition kxxHash64 : Z := 3.
Definition kXXH3 : Z := 4.

(** The argument is a [char]. *)
Definition IsSupportedChecksumType (type : Z) : bool := (kNoChecksum <=? type) && (type <=? kXXH3).

Definition Upper32of64 (v : Z) : Z := u32 (Z.shiftr v 32).
Definition Lower32of64 (v : Z) : Z := u32 v.

Class XXHash := {
  XXH32 : bytes -> Z -> Z;
  XXH64 : bytes -> Z -> Z;
  XXH3_64 : bytes -> Z;
  XXH32_state : Type;
  XXH32_reset : Z -> XXH32_state;
  XXH32_update : XXH32_state -> bytes -> XXH32_state;
  XXH32_digest : XXH32_state -> Z;
  XXH64_state : Type;
  XXH64_reset : Z -> XXH64_state;
  XXH64_update : XXH64_state -> bytes -> XXH64_state;
  XXH64_digest : XXH64_state -> Z
}.

(** The streaming interface hashes the concatenation; hashes have their width. *)
Class XXHashOk (x : XXHash) : Prop := {
  XXH32_stream a b seed : XXH32_digest (XXH32_update (XXH32_update (XXH32_reset seed) a) b) = XXH32 (a ++ b) seed;
  XXH64_stream a b seed : XXH64_digest (XXH64_update (XXH64_update (XXH64_reset seed) a) b) = XXH64 (a ++ b) seed;
  XXH32_range a seed : is_u32 (XXH32 a seed)
}.

Section Checksums.
Context {xx : XXHash}.

Definition ModifyChecksumForLastByte (checksum : Z) (last_byte : byte) : Z :=
  Z.lxor checksum (u32 (ub last_byte * 0x6b9083d9)).

Definition ComputeBuiltinChecksum (type : Z) (data : bytes) : Z :=
  if type =? kCRC32c then Mask (Value data)
  else if type =? kxxHash then XXH32 data 0
  else if type =? kxxHash64 then Lower32of64 (XXH64 data 0)
  else if type =? kXXH3 then
    if slen data =? 0 then 0
    else ModifyChecksumForLastByte (Lower32of64 (XXH3_64 (stake (slen data - 1) data)))
           (to_byte (at_ data (Z.to_nat (slen data - 1))))
  else 0.

Definition ComputeBuiltinChecksumWithLastByte (type : Z) (data : bytes) (last_byte : byte) : Z :=
  if type =? kCRC32c then
    let crc := Value data in
    let crc := Extend crc [last_byte] in
    Mask crc
  else if type =? kxxHash then
    let state := XXH32_reset 0 in
    let state := XXH32_update state data in
    let state := XXH32_update state [last_byte] in
    XXH32_digest state
  else if type =? kxxHash64 then
    let state := XXH64_reset 0 in
    let state := XXH64_update state data in
    let state := XXH64_update state [last_byte] in
    Lower32of64 (XXH64_digest state)
  else if type =? kXXH3 then
    ModifyChecksumForLastByte (Lower32of64 (XXH3_64 data)) last_byte
  else 0.

Definition ChecksumModifierForContext (base_context_checksum offset : Z) : Z :=
  let all_or_nothing := u32 (0 - Z.b2z (negb (base_context_checksum =? 0))) in
  let modifier := Z.lxor base_context_checksum (u32 (Lower32of64 offset + Upper32of64 offset)) in
  Z.land modifier all_or_nothing.

(** The trailer of a block of [WriteMaybeCompressedBlock]. *)
Definition block_trailer (checksum_type comp_type base_context_checksum offset : Z)
    (block_contents : bytes) : bytes :=
  let checksum := ComputeBuiltinChecksumWithLastByte checksum_type block_contents (to_byte comp_type) in
  let checksum := u32 (checksum + ChecksumModifierForContext base_context_checksum offset) in
  to_byte comp_type :: EncodeFixed32 checksum.

(** [data] is the block with its trailer; [type] and [base] come from the
    footer. *)
Definition VerifyBlockChecksum (type base_context_checksum : Z) (data : bytes) (block_size : Z)
    (file_name : string) (offset : Z) : Status :=
  let len := block_size + 1 in
  let stored := DecodeFixed32 (sdrop len data) in
  let computed := ComputeBuiltinChecksum type (stake len data) in
  let modifier := ChecksumModifierForContext base_context_checksum offset in
  let stored := u32 (stored - modifier) in
  if stored =? computed then OK
  else
    let '(stored, computed) :=
      if type =? kCRC32c then (Unmask stored, Unmask computed) else (stored, computed) in
    Corruption ("block checksum mismatch: stored" +:+
      (if negb (modifier =? 0) then "(context removed)" else "") +:+ " = " +:+
      pretty stored +:+ ", computed = " +:+ pretty computed +:+ ", type = " +:+ pretty type +:+
      "  in " +:+ file_name +:+ " offset " +:+ pretty offset +:+ " size " +:+ pretty block_size).

(** ** The footer *)

Definition kMagicNumberLengthByte : Z := 8.
Definition kBlockBasedTableMagicNumber : Z := 0x88e241b785f4cff7.
Definition kLegacyBlockBasedTableMagicNumber : Z := 0xdb4775248b80fb57.
Definition kPlainTableMagicNumber : Z := 0x8242229663bf9564.
Definition kLegacyPlainTableMagicNumber : Z := 0x4f3418eb7a8f13b8.
Definition kCuckooTableMagicNumber : Z := 0x926789d0c5f17873.

Definition IsLegacyFooterFormat (magic_number : Z) : bool :=
  (magic_number =? kLegacyBlockBasedTableMagicNumber) || (magic_number =? kLegacyPlainTableMagicNumber).

Definition UpconvertLegacyFooterFormat (magic_number : Z) : Z :=
  if magic_number =? kLegacyBlockBasedTableMagicNumber then kBlockBasedTableMagicNumber
  else if magic_number =? kLegacyPlainTableMagicNumber then kPlainTableMagicNumber
  else magic_number.

Definition DownconvertToLegacyFooterFormat (magic_number : Z) : Z :=
  if magic_number =? kBlockBasedTableMagicNumber then kLegacyBlockBasedTableMagicNumber
  else if magic_number =? kPlainTableMagicNumber then kLegacyPlainTableMagicNumber
  else magic_number.

Definition BlockTrailerSizeForMagicNumber (magic_number : Z) : Z :=
  if (magic_number =? kBlockBasedTableMagicNumber) || (magic_number =? kLegacyBlockBasedTableMagicNumber)
  then kBlockTrailerSize else 0.

Definition kExtendedMagic : bytes := [Byte.x3e; Byte.x00; Byte.x7a; Byte.x00].
Definition kFooterPart2Size : Z := 2 * BlockHandle_kMaxEncodedLength.
Definition kVersion0EncodedLength : Z := 2 * BlockHandle_kMaxEncodedLength + kMagicNumberLengthByte.
Definition kMinEncodedLength : Z := kVersion0EncodedLength.
Definition kNewVersionsEncodedLength : Z :=
  1 + 2 * BlockHandle_kMaxEncodedLength + 4 + kMagicNumberLengthByte.
Definition kNullTableMagicNumber : Z := 0.
Definition kInvalidFormatVersion : Z := 0xffffffff.
Definition kInvalidChecksumType : Z := 256.
Definition kLatestFormatVersion : Z := 6.

Definition IsSupportedFormatVersion (version : Z) : bool := version <=? kLatestFormatVersion.

Definition zero_bytes (n : Z) : bytes := replicate (Z.to_nat n) Byte.x00.

(** Part 1 and part 3 of a footer. *)
Definition footer_part1 (format_version checksum_type : Z) : bytes :=
  if 0 <? format_version then [to_byte checksum_type] else [].
Definition footer_part3 (format_version magic_number : Z) : bytes :=
  if 0 <? format_version then EncodeFixed32 format_version ++ EncodeFixed64 magic_number
  else EncodeFixed64 (DownconvertToLegacyFooterFormat magic_number).

(** [FooterBuilder::Build]; the slice is [None] when the status is an error. *)
Definition Build (magic_number format_version footer_offset checksum_type : Z)
    (metaindex_handle index_handle : BlockHandle) (base_context_checksum : Z)
    : Status * option bytes :=
  let part1 := footer_part1 format_version checksum_type in
  let part3 := footer_part3 format_version magic_number in
  if 6 <=? format_version then
    let metaindex_size := u32 (bh_size metaindex_handle) in
    if negb (metaindex_size =? bh_size metaindex_handle)
    then (NotSupported "Metaindex block size > 4GB", None)
    else
      let data checksum :=
        part1 ++ (kExtendedMagic ++ EncodeFixed32 checksum ++ EncodeFixed32 base_context_checksum ++
                  EncodeFixed32 metaindex_size ++ zero_bytes 24) ++ part3 in
      let checksum := ComputeBuiltinChecksum checksum_type (data 0) in
      let checksum := u32 (checksum + ChecksumModifierForContext base_context_checksum footer_offset) in
      (OK, Some (data checksum))
  else
    let handles := BlockHandle_EncodeTo_ptr metaindex_handle ++ BlockHandle_EncodeTo_ptr index_handle in
    (OK, Some (part1 ++ (handles ++ zero_bytes (kFooterPart2Size - slen handles)) ++ part3)).

Record Footer := {
  table_magic_number_ : Z;
  format_version_ : Z;
  base_context_checksum_ : Z;
  metaindex_handle_ : BlockHandle;
  index_handle_ : BlockHandle;
  checksum_type_ : Z;
  block_trailer_size_ : Z
}.

Definition Footer_init : Footer :=
  {| table_magic_number_ := kNullTableMagicNumber; format_version_ := kInvalidFormatVersion;
     base_context_checksum_ := 0; metaindex_handle_ := BlockHandle_default;
     index_handle_ := BlockHandle_default; checksum_type_ := kInvalidChecksumType;
     block_trailer_size_ := 0 |}.

(** Part 2 of [Footer::DecodeFrom], for the two layouts. *)
Definition decode_part2_v6 (f : Footer) (input : bytes) (computed_checksum footer_offset : Z)
    : Status * Footer :=
  let ext_magic := stake 4 input in
  if negb (compare ext_magic kExtendedMagic =? 0)
  then (Corruption ("Bad extended magic number: 0x" +:+ String.string_of_list_byte (ToString true ext_magic)), f)
  else
    let input := remove_prefix input 4 in
    let stored_checksum := DecodeFixed32 input in
    let input := sdrop 4 input in
    let base := DecodeFixed32 input in
    let input := sdrop 4 input in
    let f := {| table_magic_number_ := table_magic_number_ f; format_version_ := format_version_ f;
                base_context_checksum_ := base; metaindex_handle_ := metaindex_handle_ f;
                index_handle_ := index_handle_ f; checksum_type_ := checksum_type_ f;
                block_trailer_size_ := block_trailer_size_ f |} in
    if ChecksumModifierForContext base 0 =? 0 then (Corruption "Invalid base context checksum", f)
    else
      let computed_checksum := u32 (computed_checksum + ChecksumModifierForContext base footer_offset) in
      if negb (computed_checksum =? stored_checksum)
      then (Corruption ("Footer at " +:+ pretty footer_offset +:+ " checksum mismatch"), f)
      else
        let metaindex_size := DecodeFixed32 input in
        let input := sdrop 4 input in
        let metaindex_end := u64 (footer_offset - block_trailer_size_ f) in
        let f := {| table_magic_number_ := table_magic_number_ f; format_version_ := format_version_ f;
                    base_context_checksum_ := base;
                    metaindex_handle_ := BH (u64 (metaindex_end - metaindex_size)) metaindex_size;
                    index_handle_ := NullBlockHandle; checksum_type_ := checksum_type_ f;
                    block_trailer_size_ := block_trailer_size_ f |} in
        let input := remove_prefix input 16 in
        let reserved := DecodeFixed64 input in
        if negb (reserved =? 0)
        then (NotSupported "File uses a future feature not supported in this version", f)
        else (OK, f).

Definition decode_part2_handles (f : Footer) (input : bytes) : Status * Footer :=
  let '(result, metaindex, input) := BlockHandle_DecodeFrom input in
  let '(result, index, input) :=
    if ok result then BlockHandle_DecodeFrom input else (result, index_handle_ f, input) in
  (result,
   {| table_magic_number_ := table_magic_number_ f; format_version_ := format_version_ f;
      base_context_checksum_ := base_context_checksum_ f; metaindex_handle_ := metaindex;
      index_handle_ := index; checksum_type_ := checksum_type_ f;
      block_trailer_size_ := block_trailer_size_ f |}).

Definition Footer_DecodeFrom (f : Footer) (input : bytes) (input_offset enforce_table_magic_number : Z)
    : Status * Footer :=
  let magic := DecodeFixed64 (sdrop (slen input - kMagicNumberLengthByte) input) in
  let legacy := IsLegacyFooterFormat magic in
  let magic := if legacy then UpconvertLegacyFooterFormat magic else magic in
  if negb (enforce_table_magic_number =? 0) && negb (enforce_table_magic_number =? magic)
  then (Corruption ("Bad table magic number: expected " +:+ pretty enforce_table_magic_number +:+
                    ", found " +:+ pretty magic), f)
  else
    let with_version version checksum_type :=
      {| table_magic_number_ := magic; format_version_ := version;
         base_context_checksum_ := base_context_checksum_ f; metaindex_handle_ := metaindex_handle_ f;
         index_handle_ := index_handle_ f; checksum_type_ := checksum_type;
         block_trailer_size_ := BlockTrailerSizeForMagicNumber magic |} in
    if legacy then
      decode_part2_handles (with_version 0 kCRC32c) (remove_prefix input (slen input - kVersion0EncodedLength))
    else
      let version := DecodeFixed32 (sdrop (slen input - kMagicNumberLengthByte - 4) input) in
      if negb (IsSupportedFormatVersion version)
      then (Corruption ("Corrupt or unsupported format_version: " +:+ pretty version),
            with_version version (checksum_type_ f))
      else if slen input <? kNewVersionsEncodedLength
      then (Corruption "Input is too short to be an SST file", with_version version (checksum_type_ f))
      else
        let adjustment := slen input - kNewVersionsEncodedLength in
        let input := remove_prefix input adjustment in
        let footer_offset := u64 (input_offset + adjustment) in
        let chksum := char_of (to_byte (at_ input 0)) in
        let f := with_version version chksum in
        if negb (IsSupportedChecksumType chksum)
        then (Corruption ("Corrupt or unsupported checksum type: " +:+ pretty (at_ input 0)), f)
        else
          let computed_checksum :=
            if negb (chksum =? kNoChecksum) && (6 <=? version)
            then ComputeBuiltinChecksum chksum (stake 5 input ++ EncodeFixed32 0 ++ sdrop 9 input)
            else 0 in
          let input := remove_prefix input 1 in
          if 6 <=? version then decode_part2_v6 f input computed_checksum footer_offset
          else decode_part2_handles f input.

End Checksums.

(** ** Lemmas *)


Lemma BlockHandle_decode h rest : is_u64 (bh_offset h) -> is_u64 (bh_size h) ->
  BlockHandle_DecodeFrom (BlockHandle_EncodeTo_ptr h ++ rest) = (OK, h, rest).
Proof.
  intros. unfold BlockHandle_DecodeFrom, BlockHandle_EncodeTo_ptr. rewrite <- app_assoc.
  rewrite GetVarint64_Encode by done. rewrite GetVarint64_Encode by done. by destruct h.
Qed.

Lemma BlockHandle_encode_app h dst : BlockHandle_EncodeTo h dst = dst ++ BlockHandle_EncodeTo_ptr h.
Proof. unfold BlockHandle_EncodeTo, PutVarint64Varint64, BlockHandle_EncodeTo_ptr. by rewrite ?app_assoc. Qed.

Lemma slen_EncodeVarint64 v : 1 <= slen (EncodeVarint64 v) <= 10.
Proof. pose proof (encode_loop_length 9 v). unfold EncodeVarint64. lia. Qed.

Lemma slen_BlockHandle_encode h : 2 <= slen (BlockHandle_EncodeTo_ptr h) <= BlockHandle_kMaxEncodedLength.
Proof.
  unfold BlockHandle_EncodeTo_ptr, BlockHandle_kMaxEncodedLength, kMaxVarint64Length. rewrite slen_app.
  pose proof (slen_EncodeVarint64 (bh_offset h)). pose proof (slen_EncodeVarint64 (bh_size h)). lia.
Qed.

(** *** The context of a checksum *)

Lemma modifier_disabled offset : ChecksumModifierForContext 0 offset = 0.
Proof. unfold ChecksumModifierForContext. by rewrite Z.land_0_r. Qed.

Lemma modifier_val base offset : is_u32 base -> base <> 0 ->
  ChecksumModifierForContext base offset = Z.lxor base (u32 (Lower32of64 offset + Upper32of64 offset)).
Proof.
  intros Hb H0. unfold ChecksumModifierForContext. rewrite Z.land_comm, mask_bit.
  - by destruct (Z.eqb_spec base 0).
  - apply is_u32_lxor; [done|apply u32_range].
Qed.

Lemma modifier_range base offset : is_u32 base -> is_u32 (ChecksumModifierForContext base offset).
Proof.
  intros Hb. destruct (Z.eq_dec base 0) as [->|H0].
  - rewrite modifier_disabled. unfold is_u32. lia.
  - rewrite modifier_val by done. apply is_u32_lxor; [done|apply u32_range].
Qed.

Lemma modifier_at_0 base : is_u32 base -> ChecksumModifierForContext base 0 = base.
Proof.
  intros Hb. destruct (Z.eq_dec base 0) as [->|H0]; [apply modifier_disabled|].
  rewrite modifier_val by done. apply Z.lxor_0_r.
Qed.

Lemma lxor_cancel_l a x y : Z.lxor a x = Z.lxor a y -> x = y.
Proof.
  intros H. apply (f_equal (Z.lxor a)) in H.
  by rewrite <- !Z.lxor_assoc, Z.lxor_nilpotent, !Z.lxor_0_l in H.
Qed.

(** The halves of an offset, added up in 32 bits. *)
Definition folded (offset : Z) : Z := (offset mod 2 ^ 32 + offset / 2 ^ 32) mod 2 ^ 32.

(** Modifiers tell offsets apart exactly by this sum. *)
Lemma modifier_folded base o1 o2 : is_u32 base -> base <> 0 -> is_u64 o1 -> is_u64 o2 ->
  ChecksumModifierForContext base o1 = ChecksumModifierForContext base o2 <-> folded o1 = folded o2.
Proof.
  intros Hb H0 H1 H2. rewrite !modifier_val by done.
  assert (forall o, is_u64 o -> u32 (Lower32of64 o + Upper32of64 o) = folded o) as Hf.
  { intros o Ho. unfold Upper32of64, Lower32of64, folded. rewrite shiftr_div by lia. unfold u32, is_u64 in *.
    rewrite (Z.mod_small (o / 2 ^ 32)); [done|]. Z.div_mod_to_equations. lia. }
  rewrite !Hf by done. split; [apply lxor_cancel_l|by intros ->].
Qed.

Lemma modifier_sum base sum o1 o2 : is_u32 base -> base <> 0 -> is_u64 o1 -> is_u64 o2 ->
  u32 (sum + ChecksumModifierForContext base o1) = u32 (sum + ChecksumModifierForContext base o2) <-> folded o1 = folded o2.
Proof.
  intros Hb H0 H1 H2. rewrite <- (modifier_folded base) by done. split; [|by intros ->].
  pose proof (modifier_range base o1 Hb). pose proof (modifier_range base o2 Hb).
  unfold u32, is_u32 in *. intros. Z.div_mod_to_equations. lia.
Qed.

(** Offsets with the same sum are equal or almost 4 GiB apart. *)
Lemma folded_near o1 o2 : is_u64 o1 -> is_u64 o2 -> folded o1 = folded o2 -> o1 = o2 \/ 2 ^ 32 - 1 <= Z.abs (o1 - o2).
Proof. unfold folded, is_u64. intros. Z.div_mod_to_equations. lia. Qed.

Lemma modifier_offset_inj base o1 o2 : is_u32 base -> base <> 0 -> is_u64 o1 -> is_u64 o2 ->
  ChecksumModifierForContext base o1 = ChecksumModifierForContext base o2 ->
  o1 = o2 \/ 2 ^ 32 - 1 <= Z.abs (o1 - o2).
Proof. intros Hb H0 H1 H2 H%modifier_folded; [|done..]. by apply folded_near. Qed.

Lemma modifier_base_inj b1 b2 o : is_u32 b1 -> is_u32 b2 -> b1 <> 0 -> b2 <> 0 ->
  ChecksumModifierForContext b1 o = ChecksumModifierForContext b2 o -> b1 = b2.
Proof.
  intros ? ? ? ?. rewrite !modifier_val by done. rewrite !(Z.lxor_comm _ (u32 _)).
  apply lxor_cancel_l.
Qed.

Section Lemmas.
Context {xx : XXHash} `{!XXHashOk xx}.

Lemma checksum_range type data : is_u32 (ComputeBuiltinChecksum type data).
Proof.
  unfold ComputeBuiltinChecksum. repeat zcase; try (unfold is_u32; lia).
  - apply Mask_range.
  - apply XXH32_range.
  - apply u32_range.
  - apply is_u32_lxor; apply u32_range.
Qed.

Lemma at_last (data : bytes) b : at_ (data ++ [b]) (Z.to_nat (slen data)) = ub b.
Proof. by rewrite at_to_nat. Qed.

(** The two ways to checksum a block and the byte behind it agree. *)
Lemma checksum_last_byte type data b :
  ComputeBuiltinChecksumWithLastByte type data b = ComputeBuiltinChecksum type (data ++ [b]).
Proof.
  unfold ComputeBuiltinChecksumWithLastByte, ComputeBuiltinChecksum.
  assert (slen (data ++ [b]) = slen data + 1) as Hl by (rewrite slen_app; done).
  pose proof (slen_nonneg data).
  repeat zcase; try done.
  - unfold Value. rewrite (Extend_app 0 data) by (unfold is_u32; lia). done.
  - apply XXH32_stream.
  - by rewrite XXH64_stream.
  - replace (slen (data ++ [b]) - 1) with (slen data) by lia.
    rewrite stake_app by done. by rewrite at_last, byte.of_Z_unsigned.
Qed.

Lemma u32_sub_mod x y : is_u32 x -> u32 (u32 (x + y) - y) = x.
Proof. unfold u32, is_u32. intros. Z.div_mod_to_equations. lia. Qed.

(** What is left of the test once the block is read back. *)
Lemma verify_trailer type comp base off base' off' contents name :
  is_u32 base ->
  let data := contents ++ block_trailer type comp base off contents in
  let m := ChecksumModifierForContext base off in
  let m' := ChecksumModifierForContext base' off' in
  let c := ComputeBuiltinChecksum type (contents ++ [to_byte comp]) in
  ok (VerifyBlockChecksum type base' data (slen contents) name off') = (u32 (u32 (c + m) - m') =? c).
Proof.
  intros Hb. cbv zeta. unfold VerifyBlockChecksum, block_trailer.
  rewrite checksum_last_byte. set (c := ComputeBuiltinChecksum type (contents ++ [to_byte comp])).
  set (t := EncodeFixed32 _).
  change (contents ++ to_byte comp :: t) with (contents ++ [to_byte comp] ++ t).
  rewrite app_assoc.
  assert (slen (contents ++ [to_byte comp]) = slen contents + 1) as Hl by (rewrite slen_app; done).
  rewrite sdrop_app, stake_app by done. fold c. subst t.
  rewrite <- (app_nil_r (EncodeFixed32 _)), DecodeFixed32_Encode by apply u32_range.
  by destruct (_ =? c), (type =? kCRC32c).
Qed.
End Lemmas.

(** *** Footers *)

Section FooterLemmas.
Context {xx : XXHash} `{!XXHashOk xx}.

Lemma drop_tail (a b : bytes) n : slen b = n -> sdrop (slen (a ++ b) - n) (a ++ b) = b.
Proof. intros <-. apply sdrop_app. rewrite slen_app. lia. Qed.

Lemma slen_zero_bytes n : 0 <= n -> slen (zero_bytes n) = n.
Proof. unfold zero_bytes. intros. rewrite slen_replicate. lia. Qed.

Lemma slen_footer_part1 v t : slen (footer_part1 v t) = if 0 <? v then 1 else 0.
Proof. unfold footer_part1. by zcase. Qed.

Lemma slen_footer_part3 v m : slen (footer_part3 v m) = if 0 <? v then 12 else 8.
Proof.
  unfold footer_part3. zcase; by rewrite ?slen_app, ?slen_EncodeFixed32, ?slen_EncodeFixed64.
Qed.

Definition known_magic (magic version : Z) : Prop :=
  magic = kBlockBasedTableMagicNumber \/ magic = kPlainTableMagicNumber \/
  (magic = kCuckooTableMagicNumber /\ 0 < version).

(** The head of [DecodeFrom]: magic number, version and checksum type. *)
Lemma decode_new_version f magic version ctype part2 junk input_offset enforce :
  known_magic magic version -> 0 < version <= 6 -> IsSupportedChecksumType ctype = true ->
  slen part2 = kFooterPart2Size -> enforce = 0 \/ enforce = magic ->
  let body := footer_part1 version ctype ++ part2 ++ footer_part3 version magic in
  let f' := {| table_magic_number_ := magic; format_version_ := version;
               base_context_checksum_ := base_context_checksum_ f; metaindex_handle_ := metaindex_handle_ f;
               index_handle_ := index_handle_ f; checksum_type_ := ctype;
               block_trailer_size_ := BlockTrailerSizeForMagicNumber magic |} in
  let sum :=
    if negb (ctype =? kNoChecksum) && (6 <=? version)
    then ComputeBuiltinChecksum ctype
           (stake 5 body ++ EncodeFixed32 0 ++ sdrop 9 body) else 0 in
  Footer_DecodeFrom f (junk ++ body) input_offset enforce =
  if 6 <=? version
  then decode_part2_v6 f' (part2 ++ footer_part3 version magic) sum (u64 (input_offset + slen junk))
  else decode_part2_handles f' (part2 ++ footer_part3 version magic).
Proof.
  intros Hm Hv Hc Hp He. cbv zeta.
  assert (is_u64 magic) as Hm64
    by (destruct Hm as [-> | [-> | [-> _]]]; unfold is_u64; vm_compute; split; congruence).
  assert (IsLegacyFooterFormat magic = false) as Hleg by (destruct Hm as [-> | [-> | [-> _]]]; done).
  set (body := footer_part1 version ctype ++ part2 ++ footer_part3 version magic).
  assert (slen body = kNewVersionsEncodedLength) as Hlen.
  { subst body. rewrite !slen_app, slen_footer_part1, slen_footer_part3, Hp. by zcase. }
  assert (exists a, slen a = slen junk + 41 /\
    junk ++ body = a ++ EncodeFixed32 version ++ EncodeFixed64 magic) as (a & Ha & Hsplit).
  { exists (junk ++ footer_part1 version ctype ++ part2). split.
    - rewrite !slen_app, slen_footer_part1, Hp. change kFooterPart2Size with 40. zcase.
    - subst body. unfold footer_part3. zcase. by rewrite <- !app_assoc. }
  unfold Footer_DecodeFrom.
  assert (DecodeFixed64 (sdrop (slen (junk ++ body) - kMagicNumberLengthByte) (junk ++ body)) = magic) as ->.
  { rewrite Hsplit, app_assoc, drop_tail by apply slen_EncodeFixed64.
    rewrite <- (app_nil_r (EncodeFixed64 _)). by apply DecodeFixed64_Encode. }
  rewrite Hleg.
  assert (negb (enforce =? 0) && negb (enforce =? magic) = false) as ->.
  { destruct He as [-> | ->]; [done|]. rewrite Z.eqb_refl. apply andb_false_r. }
  assert (DecodeFixed32 (sdrop (slen (junk ++ body) - kMagicNumberLengthByte - 4) (junk ++ body)) = version) as ->.
  { replace (slen (junk ++ body) - kMagicNumberLengthByte - 4) with (slen (junk ++ body) - 12)
      by (change kMagicNumberLengthByte with 8; lia).
    rewrite Hsplit, drop_tail by (by rewrite slen_app, slen_EncodeFixed32, slen_EncodeFixed64).
    apply DecodeFixed32_Encode. unfold is_u32; lia. }
  assert (IsSupportedFormatVersion version = true) as -> by (apply Z.leb_le; unfold kLatestFormatVersion; lia).
  cbn [negb]. rewrite slen_app, Hlen. pose proof (slen_nonneg junk).
  destruct (Z.ltb_spec (slen junk + kNewVersionsEncodedLength) kNewVersionsEncodedLength); [lia|].
  replace (slen junk + kNewVersionsEncodedLength - kNewVersionsEncodedLength) with (slen junk) by lia.
  unfold remove_prefix. rewrite sdrop_app by done.
  assert (body = to_byte ctype :: part2 ++ footer_part3 version magic) as Hb.
  { subst body. unfold footer_part1. by zcase. }
  assert (char_of (to_byte (at_ body 0)) = ctype) as ->.
  { rewrite Hb, at_cons_0, byte.of_Z_unsigned. unfold IsSupportedChecksumType, kNoChecksum, kXXH3 in Hc.
    apply andb_prop in Hc as [H1%Z.leb_le H2%Z.leb_le]. unfold char_of. rewrite byte.unsigned_of_Z.
    unfold byte.wrap. rewrite Z.mod_small by lia. zcase. }
  rewrite Hc. cbn [negb].
  assert (sdrop 1 body = part2 ++ footer_part3 version magic) as -> by (by rewrite Hb). done.
Qed.

Lemma decode_part2_handles_enc f metaindex index rest :
  is_u64 (bh_offset metaindex) -> is_u64 (bh_size metaindex) ->
  is_u64 (bh_offset index) -> is_u64 (bh_size index) ->
  decode_part2_handles f ((BlockHandle_EncodeTo_ptr metaindex ++ BlockHandle_EncodeTo_ptr index) ++ rest) =
  (OK, {| table_magic_number_ := table_magic_number_ f; format_version_ := format_version_ f;
          base_context_checksum_ := base_context_checksum_ f; metaindex_handle_ := metaindex;
          index_handle_ := index; checksum_type_ := checksum_type_ f;
          block_trailer_size_ := block_trailer_size_ f |}).
Proof.
  intros. unfold decode_part2_handles. rewrite <- app_assoc, BlockHandle_decode by done.
  cbn [ok]. rewrite BlockHandle_decode by done. done.
Qed.

Lemma decode_part2_v6_enc f base msize sum off footer_offset rest :
  is_u32 base -> base <> 0 -> is_u32 msize -> is_u32 sum ->
  let stored := u32 (sum + ChecksumModifierForContext base footer_offset) in
  let f1 := {| table_magic_number_ := table_magic_number_ f; format_version_ := format_version_ f;
               base_context_checksum_ := base; metaindex_handle_ := metaindex_handle_ f;
               index_handle_ := index_handle_ f; checksum_type_ := checksum_type_ f;
               block_trailer_size_ := block_trailer_size_ f |} in
  decode_part2_v6 f
    ((kExtendedMagic ++ EncodeFixed32 stored ++ EncodeFixed32 base ++ EncodeFixed32 msize ++ zero_bytes 24) ++ rest)
    sum off =
  if u32 (sum + ChecksumModifierForContext base off) =? stored then
    (OK, {| table_magic_number_ := table_magic_number_ f; format_version_ := format_version_ f;
            base_context_checksum_ := base;
            metaindex_handle_ := BH (u64 (u64 (off - block_trailer_size_ f) - msize)) msize;
            index_handle_ := NullBlockHandle; checksum_type_ := checksum_type_ f;
            block_trailer_size_ := block_trailer_size_ f |})
  else (Corruption ("Footer at " +:+ pretty off +:+ " checksum mismatch"), f1).
Proof.
  intros Hb H0 Hm Hs stored f1. unfold decode_part2_v6. rewrite <- !app_assoc.
  unfold remove_prefix. rewrite stake_app, sdrop_app by done.
  replace (compare kExtendedMagic kExtendedMagic =? 0) with true by reflexivity. cbn [negb].
  rewrite DecodeFixed32_Encode by apply u32_range. rewrite sdrop_app by apply slen_EncodeFixed32.
  rewrite DecodeFixed32_Encode by done. rewrite sdrop_app by apply slen_EncodeFixed32.
  rewrite modifier_at_0 by done. destruct (Z.eqb_spec base 0); [done|].
  rewrite DecodeFixed32_Encode by done. rewrite sdrop_app by apply slen_EncodeFixed32.
  destruct (_ =? stored); [|done]. cbn [negb].
  change (zero_bytes 24) with (zero_bytes 16 ++ EncodeFixed64 0). rewrite <- app_assoc, sdrop_app by done.
  rewrite DecodeFixed64_Encode by (unfold is_u64; lia). done.
Qed.
End FooterLemmas.

(** *** Index values *)

Lemma GetVarsignedint64_Put v rest : is_s64 v -> GetVarsignedint64 (PutVarsignedint64 [] v ++ rest) = Some (v, rest).
Proof.
  intros Hv. unfold GetVarsignedint64, PutVarsignedint64, PutVarint64. cbn [app].
  change GetVarint64Ptr with GetVarint64. rewrite GetVarint64_Encode by by apply i64ToZigzag_range.
  by rewrite zigzag_inverse.
Qed.

Lemma s64_range z : is_s64 (s64 z).
Proof. unfold is_s64, s64. Z.div_mod_to_equations. lia. Qed.

Lemma size_delta a b : is_u64 a -> u64 (b + s64 (u64 (a - b))) = a.
Proof. unfold u64, s64, is_u64. intros. Z.div_mod_to_equations. lia. Qed.

(** The handle of the block behind the one [p] locates. *)
Definition follows (p h : BlockHandle) : Prop :=
  bh_offset h = bh_offset p + bh_size p + kBlockTrailerSize.

Lemma IndexValue_decode v v0 have prev rest :
  is_u64 (bh_offset (iv_handle v)) -> is_u64 (bh_size (iv_handle v)) ->
  slen (iv_first_internal_key v) < 2 ^ 32 ->
  match prev with Some p => follows p (iv_handle v) | None => True end ->
  IndexValue_DecodeFrom v0 (IndexValue_EncodeTo v [] have prev ++ rest) have prev =
    (OK, IV (iv_handle v) (if have then iv_first_internal_key v else []), rest).
Proof.
  intros Ho Hs Hk Hp. destruct v as [h k]. cbn [iv_handle iv_first_internal_key] in *.
  set (tail := if have then PutLengthPrefixedSlice [] k else []).
  assert (forall d, (if have then PutLengthPrefixedSlice d k else d) = d ++ tail) as Htail.
  { intros d. unfold tail. destruct have; [|by rewrite app_nil_r]. by rewrite PutLengthPrefixedSlice_app. }
  unfold IndexValue_EncodeTo. cbn [iv_handle iv_first_internal_key]. rewrite Htail, <- app_assoc.
  unfold IndexValue_DecodeFrom. unfold tail. destruct prev as [p|].
  - rewrite GetVarsignedint64_Put by apply s64_range. rewrite size_delta by done.
    unfold follows in Hp. rewrite <- Hp, u64_id by done.
    destruct h, have; [|done]. cbn [ok negb]. rewrite GetLengthPrefixedSlice_Put; [done|unfold is_u32; slia].
  - rewrite BlockHandle_encode_app. cbn [app]. rewrite BlockHandle_decode by done.
    destruct h, have; [|done]. cbn [ok negb]. rewrite GetLengthPrefixedSlice_Put; [done|unfold is_u32; slia].
Qed.

(** ** Properties *)

(** The hash used by the witnesses: the sum of the bytes. *)
Definition byte_sum (data : bytes) (seed : Z) : Z := u32 (fold_left (fun h b => h + ub b) data seed).

Definition sum_hash : XXHash :=
  {| XXH32 := byte_sum; XXH64 := byte_sum; XXH3_64 := fun d => byte_sum d 7;
     XXH32_state := bytes * Z; XXH32_reset := fun s => ([], s);
     XXH32_update := fun st b => (st.1 ++ b, st.2); XXH32_digest := fun st => byte_sum st.1 st.2;
     XXH64_state := bytes * Z; XXH64_reset := fun s => ([], s);
     XXH64_update := fun st b => (st.1 ++ b, st.2); XXH64_digest := fun st => byte_sum st.1 st.2 |}.

Lemma sum_hash_ok : XXHashOk sum_hash.
Proof. split; intros; [done|done|apply u32_range]. Qed.

(** Index values are read back as they were written, whether the handle is
    stored in full or as the difference of its size to that of the preceding
    block, with or without the first key, and whatever the sizes (the
    difference may wrap around in 64 bits); the bytes behind the value are
    left; a handle takes at most 20 bytes. *)
Theorem index_value_roundtrip (v v0 : IndexValue) (have_first_key : bool)
    (previous_handle : option BlockHandle) (dst rest : bytes) :
  is_u64 (bh_offset (iv_handle v)) -> is_u64 (bh_size (iv_handle v)) ->
  slen (iv_first_internal_key v) < 2 ^ 32 ->
  match previous_handle with Some p => follows p (iv_handle v) | None => True end ->
  IndexValue_DecodeFrom v0 (IndexValue_EncodeTo v [] have_first_key previous_handle ++ rest)
    have_first_key previous_handle =
    (OK, IV (iv_handle v) (if have_first_key then iv_first_internal_key v else []), rest) /\
  BlockHandle_DecodeFrom (BlockHandle_EncodeTo (iv_handle v) [] ++ rest) = (OK, iv_handle v, rest) /\
  BlockHandle_EncodeTo (iv_handle v) dst = dst ++ BlockHandle_EncodeTo_ptr (iv_handle v) /\
  slen (BlockHandle_EncodeTo_ptr (iv_handle v)) <= BlockHandle_kMaxEncodedLength.
Proof.
  intros. split; [by apply IndexValue_decode|]. rewrite !BlockHandle_encode_app.
  split; [by apply BlockHandle_decode|]. split; [done|apply slen_BlockHandle_encode].
Qed.

(** A block that is smaller than the one before it, with its first key. *)
Lemma index_value_roundtrip_witness :
  IndexValue_DecodeFrom (IV NullBlockHandle [])
    (IndexValue_EncodeTo (IV (BH 1005 7) [Byte.x61]) [] true (Some (BH 0 1000)) ++ [Byte.x78]) true
    (Some (BH 0 1000)) = (OK, IV (BH 1005 7) [Byte.x61], [Byte.x78]).
Proof.
  apply (index_value_roundtrip (IV (BH 1005 7) [Byte.x61]) (IV NullBlockHandle []) true
           (Some (BH 0 1000)) [] [Byte.x78]); try reflexivity; unfold is_u64; cbn; lia.
Defined.

(** Block checksums: the trailer written behind a block verifies when the
    block is read where it was written, for every checksum type; and with a
    context checksum (format version 6) a block read from another place of the
    file, less than 4 GiB - 1 away, or from a file with another context,
    does not, even when the checksum type is [kNoChecksum]. *)
Theorem block_checksum_context {xx : XXHash} (Hxx : XXHashOk xx) (type comp base off base' off' : Z)
    (contents : bytes) (name : string) :
  is_u32 base -> is_u64 off -> is_u32 base' -> is_u64 off' ->
  let data := contents ++ block_trailer type comp base off contents in
  VerifyBlockChecksum type base data (slen contents) name off = OK /\
  (base <> 0 -> off' <> off -> Z.abs (off' - off) < 2 ^ 32 - 1 ->
   ok (VerifyBlockChecksum type base data (slen contents) name off') = false) /\
  (base <> 0 -> base' <> 0 -> base' <> base ->
   ok (VerifyBlockChecksum type base' data (slen contents) name off) = false).
Proof.
  intros Hb Ho Hb' Ho'. cbv zeta.
  set (c := ComputeBuiltinChecksum type (contents ++ [to_byte comp])).
  assert (is_u32 c) as Hc by apply checksum_range.
  assert (forall m m', is_u32 m -> is_u32 m' -> u32 (u32 (c + m) - m') = c -> m' = m) as Hinj.
  { unfold u32, is_u32 in *. intros m m' Hm Hm' H. Z.div_mod_to_equations. lia. }
  split; [|split].
  - pose proof (verify_trailer type comp base off base off contents name Hb) as H. cbv zeta in H.
    rewrite u32_sub_mod, Z.eqb_refl in H by apply checksum_range. by destruct (VerifyBlockChecksum _ _ _ _ _ _).
  - intros H0 Hne Hfar. rewrite verify_trailer by done. apply Z.eqb_neq. fold c.
    intros H%Hinj; [|by apply modifier_range..].
    destruct (modifier_offset_inj _ _ _ Hb H0 Ho' Ho H); lia.
  - intros H0 H0' Hne. rewrite verify_trailer by done. apply Z.eqb_neq. fold c.
    intros H%Hinj; [|by apply modifier_range..]. by apply modifier_base_inj in H.
Qed.

Lemma block_checksum_context_witness :
  let data := [Byte.x61; Byte.x62] ++ @block_trailer sum_hash kXXH3 0 77 4096 [Byte.x61; Byte.x62] in
  @VerifyBlockChecksum sum_hash kXXH3 77 data 2 "f" 4096 = OK /\
  ok (@VerifyBlockChecksum sum_hash kXXH3 77 data 2 "f" 0) = false /\
  ok (@VerifyBlockChecksum sum_hash kXXH3 78 data 2 "f" 4096) = false.
Proof.
  pose proof (block_checksum_context sum_hash_ok kXXH3 0 77 4096 78 0 [Byte.x61; Byte.x62] "f") as H.
  assert (is_u32 77 /\ is_u64 4096 /\ is_u32 78 /\ is_u64 0) as (H1 & H2 & H3 & H4)
    by (unfold is_u32, is_u64; lia).
  destruct (H H1 H2 H3 H4) as (Ha & Hb & Hc). split; [exact Ha|].
  split; [apply Hb; lia|apply Hc; lia].
Defined.

(** The arguments [Build] is called with: the format version determines what a
    footer can hold. *)
Definition footer_args (magic version offset ctype : Z) (metaindex index : BlockHandle) (base : Z) : Prop :=
  known_magic magic version /\ 0 <= version <= 6 /\ IsSupportedChecksumType ctype = true /\
  is_u64 (bh_offset metaindex) /\ is_u64 (bh_size metaindex) /\
  is_u64 (bh_offset index) /\ is_u64 (bh_size index) /\ is_u64 offset /\
  (version = 0 -> ctype = kCRC32c) /\ (version < 6 -> base = 0) /\
  (6 <= version -> magic = kBlockBasedTableMagicNumber /\ is_u32 base /\ base <> 0 /\
     is_u32 (bh_size metaindex) /\
     bh_offset metaindex + bh_size metaindex = offset - kBlockTrailerSize).

(** What is read back: from version 6 on the index handle is in the metaindex. *)
Definition footer_of (magic version ctype : Z) (metaindex index : BlockHandle) (base : Z) : Footer :=
  {| table_magic_number_ := magic; format_version_ := version; base_context_checksum_ := base;
     metaindex_handle_ := metaindex;
     index_handle_ := if 6 <=? version then NullBlockHandle else index;
     checksum_type_ := ctype; block_trailer_size_ := BlockTrailerSizeForMagicNumber magic |}.

(** The bytes of a version 6 footer with checksum field [stored]. *)
Definition v6_bytes (magic version ctype base msize stored : Z) : bytes :=
  footer_part1 version ctype ++
  (kExtendedMagic ++ EncodeFixed32 stored ++ EncodeFixed32 base ++ EncodeFixed32 msize ++ zero_bytes 24) ++
  footer_part3 version magic.

Section FooterProof.
Context {xx : XXHash} `{!XXHashOk xx}.
Variables (magic version ctype base : Z) (input_offset enforce : Z) (junk : bytes).
Hypotheses (Hm : known_magic magic version) (Hc : IsSupportedChecksumType ctype = true)
  (He : enforce = 0 \/ enforce = magic).

Lemma slen_v6_part2 stored msize :
  slen (kExtendedMagic ++ EncodeFixed32 stored ++ EncodeFixed32 base ++ EncodeFixed32 msize ++ zero_bytes 24) =
  kFooterPart2Size.
Proof using Type. rewrite !slen_app, !slen_EncodeFixed32. reflexivity. Qed.

(** The checksum is over the footer with a zero checksum field. *)
Lemma v6_cleared msize stored : 6 <= version ->
  let body := v6_bytes magic version ctype base msize stored in
  stake 5 body ++ EncodeFixed32 0 ++ sdrop 9 body = v6_bytes magic version ctype base msize 0.
Proof using Type.
  intros Hv. cbv zeta. unfold v6_bytes.
  assert (footer_part1 version ctype = [to_byte ctype]) as -> by (unfold footer_part1; zcase; done).
  set (rest := EncodeFixed32 base ++ EncodeFixed32 msize ++ zero_bytes 24).
  set (p3 := footer_part3 version magic).
  assert (forall e, [to_byte ctype] ++ (kExtendedMagic ++ e ++ rest) ++ p3 =
    ([to_byte ctype] ++ kExtendedMagic) ++ e ++ rest ++ p3) as Hre
    by (intros e; by rewrite <- !app_assoc).
  rewrite !Hre. rewrite stake_app by done. rewrite (app_assoc _ (EncodeFixed32 stored)).
  rewrite sdrop_app by (by rewrite slen_app, slen_EncodeFixed32). done.
Qed.

Lemma decode_v6 msize sum offset : version = 6 -> is_u32 base -> base <> 0 -> is_u32 msize ->
  sum = ComputeBuiltinChecksum ctype (v6_bytes magic version ctype base msize 0) ->
  is_u64 (input_offset + slen junk) ->
  let off := input_offset + slen junk in
  let stored := u32 (sum + ChecksumModifierForContext base offset) in
  let r := Footer_DecodeFrom Footer_init (junk ++ v6_bytes magic version ctype base msize stored)
             input_offset enforce in
  if u32 (sum + ChecksumModifierForContext base off) =? stored then
    r = (OK, {| table_magic_number_ := magic; format_version_ := version; base_context_checksum_ := base;
                metaindex_handle_ := BH (u64 (u64 (off - BlockTrailerSizeForMagicNumber magic) - msize)) msize;
                index_handle_ := NullBlockHandle; checksum_type_ := ctype;
                block_trailer_size_ := BlockTrailerSizeForMagicNumber magic |})
  else fst r = Corruption ("Footer at " +:+ pretty off +:+ " checksum mismatch").
Proof using All.
  intros Hv Hb H0 Hms Hsum Hoff. cbv zeta.
  set (stored := u32 (sum + ChecksumModifierForContext base offset)).
  pose proof (decode_new_version Footer_init magic version ctype
    (kExtendedMagic ++ EncodeFixed32 stored ++ EncodeFixed32 base ++ EncodeFixed32 msize ++ zero_bytes 24)
    junk input_offset enforce Hm ltac:(lia) Hc (slen_v6_part2 _ _) He) as Hdec.
  cbv zeta in Hdec. fold (v6_bytes magic version ctype base msize stored) in Hdec.
  rewrite v6_cleared, <- Hsum, u64_id in Hdec by (done || lia).
  assert ((if negb (ctype =? kNoChecksum) && (6 <=? version) then sum else 0) = sum) as Hs.
  { destruct (Z.leb_spec 6 version); [|lia]. rewrite andb_true_r.
    destruct (Z.eqb_spec ctype kNoChecksum) as [Hct|]; [|done]. by rewrite Hsum, Hct. }
  rewrite Hs in Hdec. destruct (Z.leb_spec 6 version); [|lia].
  rewrite Hdec. unfold stored. rewrite decode_part2_v6_enc by (done || (rewrite Hsum; apply checksum_range)).
  destruct (u32 _ =? u32 _); reflexivity.
Qed.

Lemma decode_handles metaindex index :
  0 <= version < 6 -> (version = 0 -> ctype = kCRC32c) ->
  is_u64 (bh_offset metaindex) -> is_u64 (bh_size metaindex) ->
  is_u64 (bh_offset index) -> is_u64 (bh_size index) ->
  forall pad, let hs := BlockHandle_EncodeTo_ptr metaindex ++ BlockHandle_EncodeTo_ptr index in
  slen (hs ++ pad) = kFooterPart2Size ->
  Footer_DecodeFrom Footer_init
    (junk ++ footer_part1 version ctype ++ (hs ++ pad) ++ footer_part3 version magic) input_offset enforce =
  (OK, footer_of magic version ctype metaindex index 0).
Proof using All.
  intros Hv H0 Hmo Hms Hio His pad hs Hl. unfold footer_of.
  destruct (Z.leb_spec 6 version); [lia|]. destruct (Z.eq_dec version 0) as [Hv0|Hv0].
  - rewrite (H0 Hv0). unfold footer_part1, footer_part3. rewrite Hv0. cbn [Z.ltb Z.compare app].
    assert (forall m, is_u64 m -> IsLegacyFooterFormat m = true ->
      UpconvertLegacyFooterFormat m = magic ->
      Footer_DecodeFrom Footer_init (junk ++ (hs ++ pad) ++ EncodeFixed64 m) input_offset enforce =
      decode_part2_handles {| table_magic_number_ := magic; format_version_ := 0;
         base_context_checksum_ := 0; metaindex_handle_ := BlockHandle_default;
         index_handle_ := BlockHandle_default; checksum_type_ := kCRC32c;
         block_trailer_size_ := BlockTrailerSizeForMagicNumber magic |} ((hs ++ pad) ++ EncodeFixed64 m)) as Hd.
    { intros m Hm64 Hleg Hup. unfold Footer_DecodeFrom.
      replace (sdrop (slen (junk ++ (hs ++ pad) ++ EncodeFixed64 m) - kMagicNumberLengthByte)
                 (junk ++ (hs ++ pad) ++ EncodeFixed64 m)) with (EncodeFixed64 m ++ [])
        by (rewrite (app_assoc junk), drop_tail by apply slen_EncodeFixed64; apply app_nil_r).
      rewrite DecodeFixed64_Encode, Hleg, Hup by done.
      assert (negb (enforce =? 0) && negb (enforce =? magic) = false) as ->
        by (destruct He as [-> | ->]; [done|]; rewrite Z.eqb_refl; apply andb_false_r).
      unfold remove_prefix. rewrite drop_tail; [done|].
      rewrite slen_app, Hl, slen_EncodeFixed64. done. }
    destruct Hm as [-> | [-> | [_ ?]]]; [..|lia].
    + rewrite Hd by (done || (unfold is_u64; vm_compute; split; congruence)).
      rewrite <- app_assoc. unfold hs. by rewrite decode_part2_handles_enc.
    + rewrite Hd by (done || (unfold is_u64; vm_compute; split; congruence)).
      rewrite <- app_assoc. unfold hs. by rewrite decode_part2_handles_enc.
  - rewrite decode_new_version by (done || lia). destruct (Z.leb_spec 6 version); [lia|].
    rewrite <- app_assoc. unfold hs. by rewrite decode_part2_handles_enc.
Qed.
End FooterProof.

(** [C38] Footers of every supported version are read back, from a buffer that
    ends with the footer and may hold more of the file in front of it, with or
    without an expected magic number; a footer has 48 bytes in version 0 and 53
    bytes after that. A version 6 footer that is found at another offset is
    accepted exactly if the upper and the lower half of the offset have the same
    32-bit sum, and reported as a checksum mismatch otherwise; so it is always
    rejected less than 4 GiB - 1 away from its place. *)
Theorem footer_roundtrip {xx : XXHash} (Hxx : XXHashOk xx) (magic version offset ctype : Z)
    (metaindex index : BlockHandle) (base enforce input_offset : Z) (junk : bytes) :
  footer_args magic version offset ctype metaindex index base ->
  enforce = 0 \/ enforce = magic -> 0 <= input_offset -> is_u64 (input_offset + slen junk) ->
  exists slice,
    Build magic version offset ctype metaindex index base = (OK, Some slice) /\
    slen slice = (if version =? 0 then kVersion0EncodedLength else kNewVersionsEncodedLength) /\
    (input_offset + slen junk = offset ->
     Footer_DecodeFrom Footer_init (junk ++ slice) input_offset enforce =
       (OK, footer_of magic version ctype metaindex index base)) /\
    (6 <= version ->
     fst (Footer_DecodeFrom Footer_init (junk ++ slice) input_offset enforce) =
       if folded (input_offset + slen junk) =? folded offset then OK
       else Corruption ("Footer at " +:+ pretty (input_offset + slen junk) +:+ " checksum mismatch")) /\
    (6 <= version -> input_offset + slen junk <> offset ->
     Z.abs (input_offset + slen junk - offset) < 2 ^ 32 - 1 ->
     folded (input_offset + slen junk) <> folded offset).
Proof.
  intros (Hm & Hv & Hc & Hmo & Hms & Hio & His & Ho & H0 & Hold & H6) He Hin Hoff.
  unfold Build. destruct (Z.leb_spec 6 version) as [Hge|Hlt].
  - destruct (H6 Hge) as (-> & Hb & Hb0 & Hmu & Hend).
    rewrite (u32_id (bh_size metaindex)), Z.eqb_refl by done. cbn [negb].
    exists (v6_bytes kBlockBasedTableMagicNumber version ctype base (bh_size metaindex)
      (u32 (ComputeBuiltinChecksum ctype (v6_bytes kBlockBasedTableMagicNumber version ctype base
         (bh_size metaindex) 0) + ChecksumModifierForContext base offset))).
    split; [reflexivity|]. split.
    { unfold v6_bytes at 1. rewrite !slen_app, !slen_EncodeFixed32, slen_footer_part1, slen_footer_part3. repeat zcase. done. }
    pose proof (decode_v6 _ version ctype base input_offset enforce junk Hm Hc He (bh_size metaindex)
      _ offset ltac:(lia) Hb Hb0 Hmu eq_refl Hoff) as Hd. cbv zeta in Hd.
    set (m := ChecksumModifierForContext base) in *.
    set (sum := ComputeBuiltinChecksum ctype (v6_bytes _ _ _ _ _ 0)) in *.
    pose proof (modifier_sum base sum _ _ Hb Hb0 Hoff Ho) as Hmod. fold m in Hmod.
    assert (Hnear := folded_near _ _ Hoff Ho).
    destruct (Z.eqb_spec (u32 (sum + m (input_offset + slen junk))) (u32 (sum + m offset))) as [Heq|Hne].
    + split; [|split; [|lia]].
      * intros Hat. rewrite Hd, Hat. unfold footer_of. destruct (Z.leb_spec 6 version); [|lia].
        repeat f_equal. change (BlockTrailerSizeForMagicNumber _) with kBlockTrailerSize.
        unfold is_u64, kBlockTrailerSize in *. rewrite (u64_id (offset - 5)) by (unfold is_u64; lia).
        replace (offset - 5 - bh_size metaindex) with (bh_offset metaindex) by lia.
        rewrite u64_id by done. by destruct metaindex.
      * intros _. rewrite Hd. apply Hmod in Heq. by rewrite Heq, Z.eqb_refl.
    + split; [intros Hat; by rewrite Hat in Hne|]. split; [|lia]. intros _.
      rewrite (proj2 (Z.eqb_neq _ _)); [exact Hd|]. by rewrite <- Hmod.
  - rewrite (Hold Hlt). eexists. split; [done|].
    set (hs := BlockHandle_EncodeTo_ptr metaindex ++ BlockHandle_EncodeTo_ptr index).
    assert (slen (hs ++ zero_bytes (kFooterPart2Size - slen hs)) = kFooterPart2Size) as Hl2.
    { rewrite slen_app, slen_zero_bytes; [lia|]. subst hs. rewrite slen_app. unfold kFooterPart2Size.
      pose proof (slen_BlockHandle_encode metaindex). pose proof (slen_BlockHandle_encode index). lia. }
    split.
    { rewrite !(slen_app (footer_part1 _ _)), !(slen_app (hs ++ _)), Hl2, slen_footer_part1, slen_footer_part3.
      by repeat zcase. }
    split; [|split; lia]. intros _. apply decode_handles; try done; lia.
Qed.

Lemma footer_roundtrip_witness :
  exists slice,
    @Build sum_hash kBlockBasedTableMagicNumber 6 105 kXXH3 (BH 90 10) NullBlockHandle 77 = (OK, Some slice) /\
    @Footer_DecodeFrom sum_hash Footer_init ([Byte.x00] ++ slice) 104 kBlockBasedTableMagicNumber =
      (OK, footer_of kBlockBasedTableMagicNumber 6 kXXH3 (BH 90 10) NullBlockHandle 77).
Proof.
  destruct (footer_roundtrip sum_hash_ok kBlockBasedTableMagicNumber 6 105 kXXH3 (BH 90 10) NullBlockHandle
    77 kBlockBasedTableMagicNumber 104 [Byte.x00]) as (slice & Hb & _ & Hd & _).
  - unfold footer_args, known_magic, is_u64, is_u32. cbn. split; [by left|]. repeat match goal with |- _ /\ _ => split | |- _ -> _ => intro end; reflexivity || lia.
  - by right.
  - lia.
  - change (slen [Byte.x00]) with 1. unfold is_u64. lia.
  - exists slice. split; [exact Hb|]. by apply Hd.
Defined.
