(* ===== verification/BlockBuilder.v ===== *)
(** * Building blocks

    Models table/block_based/block_builder.h and block_builder.cc,
    table/block_based/data_block_footer.cc, and
    table/block_based/data_block_hash_index.h and .cc, with [Hash] and
    [GetSliceHash] of util/hash.h and util/hash.cc.

    A block is a sequence of entries, each a key with the bytes it shares with
    the key before it removed, and a value; then the offsets of the entries
    that share nothing (restart points), optionally a hash index, and a footer.
    The lemmas show that a builder's state always represents the entries that
    were added: [built_layout] is what the iterators of [Block] rely on. *)

From S2P Require Import Prelude Binary64 Coding Slice Comparator DbFormat TableFormat.
From Stdlib Require Import SpecFloat.

(** ** Hash (util/hash.cc) *)

(** [static_cast<uint32_t>(static_cast<int8_t>(data[i]))]. *)
Definition sign_extend (b : byte) : Z := u32 (char_of b).

Definition Hash_word (h w : Z) : Z :=
  let h := u32 (h + w) in
  let h := u32 (h * 0xc6a4a793) in
  Z.lxor h (Z.shiftr h 16).

Fixpoint Hash_loop (h : Z) (data : bytes) : Z :=
  match data with
  | b0 :: b1 :: b2 :: b3 :: data => Hash_loop (Hash_word h (DecodeFixed32 [b0; b1; b2; b3])) data
  | rest =>
      let h := match rest with
               | [_; _; b2] => u32 (h + u32 (Z.shiftl (sign_extend b2) 16)) | _ => h end in
      let h := match rest with
               | [_; b1; _] | [_; b1] => u32 (h + u32 (Z.shiftl (sign_extend b1) 8)) | _ => h end in
      match rest with
      | b0 :: _ =>
          let h := u32 (h + sign_extend b0) in
          let h := u32 (h * 0xc6a4a793) in
          Z.lxor h (Z.shiftr h 24)
      | [] => h
      end
  end.

(** [n * m] is computed in [size_t], and the exclusive or is cut to 32 bits. *)
Definition Hash (data : bytes) (seed : Z) : Z :=
  Hash_loop (u32 (Z.lxor seed (u64 (slen data * 0xc6a4a793)))) data.

Definition GetSliceHash (s : bytes) : Z := Hash s 397.

(** ** The block footer *)

Inductive DataBlockIndexType := kDataBlockBinarySearch | kDataBlockBinaryAndHash.

#[export] Instance DataBlockIndexType_eq_dec : EqDecision DataBlockIndexType.
Proof. solve_decision. Defined.

Definition kDataBlockIndexTypeBitShift : Z := 31.
Definition kMaxNumRestarts : Z := u32 (Z.shiftl 1 kDataBlockIndexTypeBitShift) - 1.
Definition kNumRestartsMask : Z := u32 (Z.shiftl 1 kDataBlockIndexTypeBitShift) - 1.

Definition PackIndexTypeAndNumRestarts (index_type : DataBlockIndexType) (num_restarts : Z) : Z :=
  match index_type with
  | kDataBlockBinaryAndHash => Z.lor num_restarts (Z.shiftl 1 kDataBlockIndexTypeBitShift)
  | kDataBlockBinarySearch => num_restarts
  end.

Definition UnPackIndexTypeAndNumRestarts (block_footer : Z) : DataBlockIndexType * Z :=
  (if negb (Z.land block_footer (Z.shiftl 1 kDataBlockIndexTypeBitShift) =? 0)
   then kDataBlockBinaryAndHash else kDataBlockBinarySearch,
   Z.land block_footer kNumRestartsMask).

(** ** The hash index *)

Definition kNoEntry : Z := 255.
Definition kCollision : Z := 254.
Definition kMaxRestartSupportedByHashIndex : Z := 253.
Definition kMaxBlockSizeSupportedByHashIndex : Z := Z.shiftl 1 16.

(** [0.75] *)
Definition kDefaultUtilRatio : double := S754_finite false 6755399441055744 (-53).

(** [static_cast<uint16_t>] truncates; the conversion of a number that does not
    fit is undefined, and taken modulo [2^16] here. *)
Definition dbl_to_u16 (d : double) : Z :=
  match d with
  | S754_finite s m e => let n := Z.shiftl (Zpos m) e in u16 (if s then - n else n)
  | _ => 0
  end.

Record DataBlockHashIndexBuilder := {
  bucket_per_key_ : double;
  estimated_num_buckets_ : double;
  valid_ : bool;
  hash_and_restart_pairs_ : list (Z * Z)
}.

Definition HIB_init : DataBlockHashIndexBuilder :=
  {| bucket_per_key_ := dbl_minus_1; estimated_num_buckets_ := dbl_0; valid_ := false;
     hash_and_restart_pairs_ := [] |}.

Definition HIB_Initialize (b : DataBlockHashIndexBuilder) (util_ratio : double) : DataBlockHashIndexBuilder :=
  let util_ratio := if dbl_leb util_ratio dbl_0 then kDefaultUtilRatio else util_ratio in
  {| bucket_per_key_ := dbl_div dbl_1 util_ratio; estimated_num_buckets_ := estimated_num_buckets_ b;
     valid_ := true; hash_and_restart_pairs_ := hash_and_restart_pairs_ b |}.

Definition HIB_Valid (b : DataBlockHashIndexBuilder) : bool := valid_ b && dbl_ltb dbl_0 (bucket_per_key_ b).

Definition HIB_EstimateSize (b : DataBlockHashIndexBuilder) : Z :=
  let estimated_num_buckets := dbl_to_u16 (estimated_num_buckets_ b) in
  let estimated_num_buckets := Z.lor estimated_num_buckets 1 in
  2 + estimated_num_buckets.

Definition HIB_Add (b : DataBlockHashIndexBuilder) (key : bytes) (restart_index : Z)
    : DataBlockHashIndexBuilder :=
  if kMaxRestartSupportedByHashIndex <? restart_index then
    {| bucket_per_key_ := bucket_per_key_ b; estimated_num_buckets_ := estimated_num_buckets_ b;
       valid_ := false; hash_and_restart_pairs_ := hash_and_restart_pairs_ b |}
  else
    {| bucket_per_key_ := bucket_per_key_ b;
       estimated_num_buckets_ := dbl_add (estimated_num_buckets_ b) (bucket_per_key_ b);
       valid_ := valid_ b;
       hash_and_restart_pairs_ := hash_and_restart_pairs_ b ++ [(GetSliceHash key, restart_index)] |}.

(** One pair of the loop that fills the buckets. *)
Definition fill_bucket (num_buckets : Z) (buckets : list Z) (entry : Z * Z) : list Z :=
  let (hash_value, restart_index) := entry in
  let buck_idx := Z.to_nat (u16 (hash_value mod num_buckets)) in
  match buckets !! buck_idx with
  | Some old =>
      if old =? kNoEntry then <[buck_idx := restart_index]> buckets
      else if negb (old =? restart_index) then <[buck_idx := kCollision]> buckets
      else buckets
  | None => buckets
  end.

Definition HIB_num_buckets (b : DataBlockHashIndexBuilder) : Z :=
  let num_buckets := dbl_to_u16 (estimated_num_buckets_ b) in
  let num_buckets := if num_buckets =? 0 then 1 else num_buckets in
  Z.lor num_buckets 1.

Definition HIB_buckets (b : DataBlockHashIndexBuilder) : list Z :=
  let num_buckets := HIB_num_buckets b in
  fold_left (fill_bucket num_buckets) (hash_and_restart_pairs_ b)
    (replicate (Z.to_nat num_buckets) kNoEntry).

Definition HIB_Finish (b : DataBlockHashIndexBuilder) (buffer : bytes) : bytes :=
  let buffer := buffer ++ (to_byte <$> HIB_buckets b) in
  PutFixed16 buffer (HIB_num_buckets b).

Definition HIB_Reset (b : DataBlockHashIndexBuilder) : DataBlockHashIndexBuilder :=
  {| bucket_per_key_ := bucket_per_key_ b; estimated_num_buckets_ := dbl_0; valid_ := true;
     hash_and_restart_pairs_ := [] |}.

(** The reader's side: [num_buckets_] and the offset of the map. *)
Definition HI_Initialize (data : bytes) (size : Z) : Z * Z :=
  let num_buckets := DecodeFixed16 (sdrop (size - 2) data) in
  (num_buckets, u16 (size - 2 - num_buckets)).

(** [None]: a division by zero, or a read behind the block. *)
Definition HI_Lookup (num_buckets : Z) (data : bytes) (map_offset : Z) (key : bytes) : option Z :=
  let hash_value := GetSliceHash key in
  if num_buckets =? 0 then None
  else
    let idx := u16 (hash_value mod num_buckets) in
    ub <$> data !! Z.to_nat (map_offset + idx).

(** ** BlockBuilder *)

Record BlockBuilder := {
  block_restart_interval_ : Z;
  use_delta_encoding_ : bool;
  use_value_delta_encoding_ : bool;
  strip_ts_sz_ : Z;
  bb_is_user_key_ : bool;
  buffer_ : bytes;
  restarts_ : list Z;
  estimate_ : Z;
  counter_ : Z;
  finished_ : bool;
  last_key_ : bytes;
  data_block_hash_index_builder_ : DataBlockHashIndexBuilder
}.

(** The same configuration with another state. *)
Definition with_state (b : BlockBuilder) (buffer : bytes) (restarts : list Z) (estimate counter : Z)
    (finished : bool) (last_key : bytes) (hib : DataBlockHashIndexBuilder) : BlockBuilder :=
  {| block_restart_interval_ := block_restart_interval_ b; use_delta_encoding_ := use_delta_encoding_ b;
     use_value_delta_encoding_ := use_value_delta_encoding_ b; strip_ts_sz_ := strip_ts_sz_ b;
     bb_is_user_key_ := bb_is_user_key_ b; buffer_ := buffer; restarts_ := restarts;
     estimate_ := estimate; counter_ := counter; finished_ := finished; last_key_ := last_key;
     data_block_hash_index_builder_ := hib |}.

Definition BlockBuilder_make (block_restart_interval : Z) (use_delta_encoding use_value_delta_encoding : bool)
    (index_type : DataBlockIndexType) (data_block_hash_table_util_ratio : double) (ts_sz : Z)
    (persist_user_defined_timestamps is_user_key : bool) : BlockBuilder :=
  {| block_restart_interval_ := block_restart_interval; use_delta_encoding_ := use_delta_encoding;
     use_value_delta_encoding_ := use_value_delta_encoding;
     strip_ts_sz_ := if persist_user_defined_timestamps then 0 else ts_sz;
     bb_is_user_key_ := is_user_key; buffer_ := []; restarts_ := [0]; estimate_ := 4 + 4; counter_ := 0;
     finished_ := false; last_key_ := [];
     data_block_hash_index_builder_ :=
       match index_type with
       | kDataBlockBinarySearch => HIB_init
       | kDataBlockBinaryAndHash => HIB_Initialize HIB_init data_block_hash_table_util_ratio
       end |}.

Definition BlockBuilder_Reset (b : BlockBuilder) : BlockBuilder :=
  with_state b [] (take 1 (restarts_ b)) (4 + 4) 0 false []
    (if HIB_Valid (data_block_hash_index_builder_ b) then HIB_Reset (data_block_hash_index_builder_ b)
     else data_block_hash_index_builder_ b).

(** The contents go to the caller's buffer. *)
Definition SwapAndReset (b : BlockBuilder) (buffer : bytes) : BlockBuilder * bytes :=
  (BlockBuilder_Reset (with_state b buffer (restarts_ b) (estimate_ b) (counter_ b) (finished_ b)
     (last_key_ b) (data_block_hash_index_builder_ b)), buffer_ b).

Definition CurrentSizeEstimate (b : BlockBuilder) : Z :=
  estimate_ b + (if HIB_Valid (data_block_hash_index_builder_ b)
                 then HIB_EstimateSize (data_block_hash_index_builder_ b) else 0).

Definition BlockBuilder_empty (b : BlockBuilder) : bool := bool_decide (buffer_ b = []).

Definition EstimateSizeAfterKV (b : BlockBuilder) (key value : bytes) : Z :=
  let estimate := CurrentSizeEstimate b in
  let estimate := estimate + slen key in
  let estimate := if 0 <? strip_ts_sz_ b then estimate - strip_ts_sz_ b else estimate in
  let restart := block_restart_interval_ b <=? counter_ b in
  let estimate :=
    estimate + (if negb (use_value_delta_encoding_ b) || restart then slen value else slen value / 2) in
  let estimate := if restart then estimate + 4 else estimate in
  let estimate := estimate + 4 in
  let estimate := estimate + VarintLength (slen key) in
  if negb (use_value_delta_encoding_ b) || restart then estimate + VarintLength (slen value) else estimate.

Definition MaybeStripTimestampFromKey (b : BlockBuilder) (key : bytes) : bytes :=
  if 0 <? strip_ts_sz_ b then
    if bb_is_user_key_ b then remove_suffix key (strip_ts_sz_ b)
    else StripTimestampFromInternalKey [] key (strip_ts_sz_ b)
  else key.

Definition AddWithLastKeyImpl (b : BlockBuilder) (key value last_key : bytes) (delta_value : option bytes)
    (buffer_size : Z) : BlockBuilder :=
  let key_to_persist := MaybeStripTimestampFromKey b key in
  let last_key_persisted := if slen last_key =? 0 then last_key else MaybeStripTimestampFromKey b last_key in
  let '(restarts, estimate, counter, shared) :=
    if block_restart_interval_ b <=? counter_ b
    then (restarts_ b ++ [u32 buffer_size], estimate_ b + 4, 0, 0)
    else (restarts_ b, estimate_ b, counter_ b,
          if use_delta_encoding_ b then difference_offset key_to_persist last_key_persisted else 0) in
  let non_shared := slen key_to_persist - shared in
  let buffer :=
    if use_value_delta_encoding_ b
    then PutVarint32Varint32 (buffer_ b) (u32 shared) (u32 non_shared)
    else PutVarint32Varint32Varint32 (buffer_ b) (u32 shared) (u32 non_shared) (u32 (slen value)) in
  let buffer := buffer ++ stake non_shared (sdrop shared key_to_persist) in
  let buffer :=
    if negb (shared =? 0) && use_value_delta_encoding_ b
    then buffer ++ default [] delta_value else buffer ++ value in
  let hib := data_block_hash_index_builder_ b in
  let hib := if HIB_Valid hib then HIB_Add hib (ExtractUserKey key) (slen restarts - 1) else hib in
  with_state b buffer restarts (estimate + (slen buffer - buffer_size)) (counter + 1) (finished_ b)
    (last_key_ b) hib.

Definition BlockBuilder_Add (b : BlockBuilder) (key value : bytes) (delta_value : option bytes) : BlockBuilder :=
  let b := AddWithLastKeyImpl b key value (last_key_ b) delta_value (slen (buffer_ b)) in
  if use_delta_encoding_ b
  then with_state b (buffer_ b) (restarts_ b) (estimate_ b) (counter_ b) (finished_ b) key
         (data_block_hash_index_builder_ b)
  else b.

Definition AddWithLastKey (b : BlockBuilder) (key value last_key_param : bytes)
    (delta_value : option bytes) : BlockBuilder :=
  let buffer_size := slen (buffer_ b) in
  let last_key := stake (slen last_key_param * Z.b2z (0 <? buffer_size)) last_key_param in
  AddWithLastKeyImpl b key value last_key delta_value buffer_size.

(** The state afterwards; [buffer_] is the slice that is returned. *)
Definition BlockBuilder_Finish (b : BlockBuilder) : BlockBuilder :=
  let buffer := fold_left PutFixed32 (restarts_ b) (buffer_ b) in
  let num_restarts := u32 (slen (restarts_ b)) in
  let hib := data_block_hash_index_builder_ b in
  let '(buffer, index_type) :=
    if HIB_Valid hib && (CurrentSizeEstimate b <=? kMaxBlockSizeSupportedByHashIndex)
    then (HIB_Finish hib buffer, kDataBlockBinaryAndHash)
    else (buffer, kDataBlockBinarySearch) in
  let block_footer := PackIndexTypeAndNumRestarts index_type num_restarts in
  with_state b (PutFixed32 buffer block_footer) (restarts_ b) (estimate_ b) (counter_ b) true
    (last_key_ b) hib.

(** ** The entries of a block *)

(** An entry as it is stored: the key (without a timestamp that is not
    persisted), how many bytes of it are not stored again, and the bytes of the
    value. *)
Record Ent := mkEnt { e_shared : Z; e_key : bytes; e_val : bytes }.

(** [v4]: the size of the value is not stored. *)
Definition enc_hdr (v4 : bool) (e : Ent) : bytes :=
  let ns := slen (e_key e) - e_shared e in
  EncodeVarint32 (e_shared e) ++ EncodeVarint32 ns ++
  (if v4 then [] else EncodeVarint32 (slen (e_val e))).

Definition enc_ent (v4 : bool) (e : Ent) : bytes :=
  enc_hdr v4 e ++ sdrop (e_shared e) (e_key e) ++ e_val e.

Definition enc_ents (v4 : bool) (es : list Ent) : bytes := concat (enc_ent v4 <$> es).

(** The offset of the [i]th entry. *)
Definition offs (v4 : bool) (es : list Ent) (i : nat) : Z := slen (enc_ents v4 (take i es)).

(** How many restart points [len] entries have. *)
Definition nrestarts (r len : nat) : nat := match len with O => 1%nat | S n => (n / r + 1)%nat end.

(** What the iterators rely on. *)
Definition shares (es : list Ent) (i : nat) (e : Ent) : Prop :=
  e_shared e = 0 \/
  exists p, (0 < i)%nat /\ es !! (i - 1)%nat = Some p /\ e_shared e <= slen (e_key p) /\
    stake (e_shared e) (e_key e) = stake (e_shared e) (e_key p).

Record layout (v4 : bool) (r : nat) (es : list Ent) (rs : list Z) : Prop := {
  lay_pos : (0 < r)%nat;
  lay_ent : forall i e, es !! i = Some e ->
    0 <= e_shared e <= slen (e_key e) /\ slen (e_key e) < 2 ^ 32 /\ slen (e_val e) < 2 ^ 32 /\
    (Nat.modulo i r = 0%nat -> e_shared e = 0) /\ shares es i e;
  lay_rs : rs = (fun j => offs v4 es (j * r)) <$> seq 0 (nrestarts r (length es))
}.

Lemma enc_ents_app v4 a b : enc_ents v4 (a ++ b) = enc_ents v4 a ++ enc_ents v4 b.
Proof. unfold enc_ents. by rewrite fmap_app, concat_app. Qed.

Lemma enc_ents_snoc v4 a e : enc_ents v4 (a ++ [e]) = enc_ents v4 a ++ enc_ent v4 e.
Proof. rewrite enc_ents_app. unfold enc_ents at 2. cbn. by rewrite app_nil_r. Qed.

Lemma offs_S v4 es i e : es !! i = Some e -> offs v4 es (S i) = offs v4 es i + slen (enc_ent v4 e).
Proof. intros He. unfold offs. rewrite (take_S_r _ _ e) by done. by rewrite enc_ents_snoc, slen_app. Qed.

Lemma offs_app v4 es e i : (i <= length es)%nat -> offs v4 (es ++ [e]) i = offs v4 es i.
Proof. intros. unfold offs. by rewrite take_app_le. Qed.

Lemma offs_all v4 es i : (length es <= i)%nat -> offs v4 es i = slen (enc_ents v4 es).
Proof. intros. unfold offs. by rewrite take_ge. Qed.

Lemma offs_0 v4 es : offs v4 es 0 = 0.
Proof. done. Qed.

Lemma nrestarts_pos r len : (0 < nrestarts r len)%nat.
Proof. destruct len; cbn; lia. Qed.

Lemma mod_S n r : (0 < r)%nat ->
  (S n mod r = if n mod r + 1 =? r then 0 else n mod r + 1)%nat /\
  (S n / r = if n mod r + 1 =? r then n / r + 1 else n / r)%nat.
Proof.
  intros Hr. pose proof (Nat.div_mod n r ltac:(lia)) as Hd. pose proof (Nat.mod_upper_bound n r ltac:(lia)).
  destruct (Nat.eqb_spec (n mod r + 1) r) as [He|He].
  - split; symmetry; [apply (Nat.mod_unique _ _ (n / r + 1)) | apply (Nat.div_unique _ _ _ 0)]; nia.
  - split; symmetry; [apply (Nat.mod_unique _ _ (n / r)) | apply (Nat.div_unique _ _ _ (n mod r + 1))]; nia.
Qed.

Lemma mod_S_zero n r : (0 < r)%nat -> (S n mod r =? 0)%nat = (n mod r + 1 =? r)%nat.
Proof. intros Hr. destruct (mod_S n r Hr) as [-> _]. destruct (Nat.eqb_spec (n mod r + 1) r); [done|]. apply Nat.eqb_neq. lia. Qed.

(** The number of entries since the last restart point, after [len] entries. *)
Definition since_restart (r len : nat) : Z :=
  match len with O => 0 | S n => Z.of_nat (n mod r) + 1 end.

Lemma since_restart_full r len : (0 < r)%nat ->
  (Z.of_nat r <=? since_restart r len) = negb (len =? 0)%nat && (len mod r =? 0)%nat.
Proof.
  intros Hr. destruct len as [|n]; [cbn; zcase|]. unfold since_restart. cbn [Nat.eqb negb andb].
  rewrite mod_S_zero by done. pose proof (Nat.mod_upper_bound n r ltac:(lia)).
  zcase; destruct (Nat.eqb_spec (n mod r + 1) r); done || lia.
Qed.

Lemma since_restart_S r len : (0 < r)%nat ->
  since_restart r (S len) =
  (if negb (len =? 0)%nat && (len mod r =? 0)%nat then 0 else since_restart r len) + 1.
Proof.
  intros Hr. destruct len as [|n]; [cbn; rewrite Nat.Div0.mod_0_l; lia|].
  unfold since_restart. cbn [Nat.eqb negb andb]. rewrite mod_S_zero by done.
  destruct (mod_S n r Hr) as [-> _]. destruct (Nat.eqb_spec (n mod r + 1) r); lia.
Qed.

(** The restart points after one more entry. *)
Lemma restarts_snoc v4 r es e : (0 < r)%nat ->
  (fun j => offs v4 (es ++ [e]) (j * r)) <$> seq 0 (nrestarts r (length (es ++ [e]))) =
  ((fun j => offs v4 es (j * r)) <$> seq 0 (nrestarts r (length es))) ++
  (if negb (length es =? 0)%nat && (length es mod r =? 0)%nat then [slen (enc_ents v4 es)] else []).
Proof.
  intros Hr. rewrite length_app, Nat.add_comm. cbn [length Nat.add nrestarts].
  set (n := length es).
  assert (forall m, (m * r <= n + r - 1)%nat -> (forall j, (j < m)%nat -> (j * r <= n)%nat)) as Hle by nia.
  assert ((fun j => offs v4 (es ++ [e]) (j * r)) <$> seq 0 (n / r + 1) =
          (fun j => offs v4 es (j * r)) <$> seq 0 (n / r + 1)) as ->.
  { apply list_fmap_ext. intros j x Hj%lookup_seq. apply offs_app. fold n.
    pose proof (Nat.div_mod n r ltac:(lia)). nia. }
  destruct n as [|n'] eqn:Hn.
  - cbn [Nat.eqb negb andb]. rewrite Nat.Div0.div_0_l. cbn. done.
  - cbn [Nat.eqb negb andb nrestarts]. rewrite mod_S_zero by done.
    destruct (mod_S n' r Hr) as [Hm Hd].
    destruct (Nat.eqb_spec (n' mod r + 1) r); rewrite Hd; [|by rewrite app_nil_r].
    rewrite (seq_app (n' / r + 1) 1), fmap_app. f_equal. cbn. f_equal.
    apply offs_all. fold n. pose proof (Nat.div_mod (S n') r ltac:(lia)). lia.
Qed.

(** ** What a builder holds *)

(** A key, its value, and the value's difference to the one before it. *)
Definition KVD : Type := bytes * bytes * option bytes.
Definition kvd_key (x : KVD) : bytes := x.1.1.

Definition Add_kvd (b : BlockBuilder) (x : KVD) : BlockBuilder := BlockBuilder_Add b x.1.1 x.1.2 x.2.

Lemma with_state_eta b : b = with_state b (buffer_ b) (restarts_ b) (estimate_ b) (counter_ b)
  (finished_ b) (last_key_ b) (data_block_hash_index_builder_ b).
Proof. by destruct b. Qed.

Section Built.
(** A builder that was just constructed or reset. *)
Variable b0 : BlockBuilder.
Let r := Z.to_nat (block_restart_interval_ b0).
Let v4 := use_value_delta_encoding_ b0.

(** The entry that is added after [len] others, the last one with key [last]. *)
Definition mk_ent (len : nat) (last : bytes) (x : KVD) : Ent :=
  let '(k, v, d) := x in
  let kp := MaybeStripTimestampFromKey b0 k in
  let lp := if slen last =? 0 then last else MaybeStripTimestampFromKey b0 last in
  let shared :=
    if negb (len =? 0)%nat && (len mod r =? 0)%nat then 0
    else if use_delta_encoding_ b0 then difference_offset kp lp else 0 in
  mkEnt shared kp (if negb (shared =? 0) && v4 then default [] d else v).

Definition ents_step (a : list Ent * bytes) (x : KVD) : list Ent * bytes :=
  (a.1 ++ [mk_ent (length a.1) a.2 x], if use_delta_encoding_ b0 then kvd_key x else a.2).

Definition ents_run (kvs : list KVD) : list Ent * bytes := fold_left ents_step kvs ([], []).
Definition ents (kvs : list KVD) : list Ent := (ents_run kvs).1.

Definition rs_of (es : list Ent) : list Z := (fun j => offs v4 es (j * r)) <$> seq 0 (nrestarts r (length es)).

(** The hash index builder, which is told the restart interval of every key. *)
Definition hib_step (a : DataBlockHashIndexBuilder * nat) (x : KVD) : DataBlockHashIndexBuilder * nat :=
  (if HIB_Valid a.1 then HIB_Add a.1 (ExtractUserKey (kvd_key x)) (Z.of_nat (a.2 / r)) else a.1, S a.2).

Definition hib_run (kvs : list KVD) : DataBlockHashIndexBuilder :=
  (fold_left hib_step kvs (data_block_hash_index_builder_ b0, O)).1.

Definition built (kvs : list KVD) (last : bytes) : BlockBuilder :=
  let es := ents kvs in
  with_state b0 (enc_ents v4 es) (rs_of es) (4 + 4 * slen (rs_of es) + slen (enc_ents v4 es))
    (since_restart r (length es)) false last (hib_run kvs).

Definition is_fresh : Prop :=
  1 <= block_restart_interval_ b0 /\ 0 <= strip_ts_sz_ b0 /\
  buffer_ b0 = [] /\ restarts_ b0 = [0] /\ estimate_ b0 = 4 + 4 /\ counter_ b0 = 0 /\
  finished_ b0 = false /\ last_key_ b0 = [].

(** Sizes fit in 32 bits, and a timestamp that is stripped is there. *)
Definition kvd_ok (x : KVD) : Prop :=
  slen x.1.1 < 2 ^ 32 /\ slen x.1.2 < 2 ^ 32 /\ slen (default [] x.2) < 2 ^ 32 /\
  (0 < strip_ts_sz_ b0 -> strip_ts_sz_ b0 + (if bb_is_user_key_ b0 then 0 else 8) <= slen x.1.1).

Hypothesis Hfresh : is_fresh.

Lemma r_pos : (0 < r)%nat.
Proof using Hfresh. destruct Hfresh. unfold r. lia. Qed.

Lemma ents_run_snoc kvs x : ents_run (kvs ++ [x]) = ents_step (ents_run kvs) x.
Proof using Type. unfold ents_run. by rewrite fold_left_app. Qed.

Lemma length_ents kvs : length (ents kvs) = length kvs.
Proof using Type.
  induction kvs as [|x kvs IH] using rev_ind; [done|]. unfold ents in *.
  rewrite ents_run_snoc. cbn. rewrite !length_app. cbn. lia.
Qed.

Lemma ents_snoc kvs x : ents (kvs ++ [x]) = ents kvs ++ [mk_ent (length kvs) (ents_run kvs).2 x].
Proof using Type. rewrite <- (length_ents kvs). unfold ents. by rewrite ents_run_snoc. Qed.

Lemma hib_run_snoc kvs x :
  hib_run (kvs ++ [x]) =
  if HIB_Valid (hib_run kvs)
  then HIB_Add (hib_run kvs) (ExtractUserKey (kvd_key x)) (Z.of_nat (length kvs / r)) else hib_run kvs.
Proof using Type.
  unfold hib_run. rewrite fold_left_app. cbn [fold_left].
  assert (forall l b n, (fold_left hib_step l (b, n)).2 = (n + length l)%nat) as Hc.
  { induction l as [|y l IH]; intros b n; cbn [fold_left length]; [cbn; lia|].
    unfold hib_step at 2. rewrite IH. cbn [snd]. lia. }
  unfold hib_step at 1. by rewrite Hc.
Qed.

Lemma MaybeStrip_len k : 0 <= strip_ts_sz_ b0 ->
  (0 < strip_ts_sz_ b0 -> strip_ts_sz_ b0 + (if bb_is_user_key_ b0 then 0 else 8) <= slen k) ->
  slen (MaybeStripTimestampFromKey b0 k) = slen k - strip_ts_sz_ b0.
Proof using Type.
  intros H0 H. unfold MaybeStripTimestampFromKey. zcase. specialize (H ltac:(lia)).
  destruct (bb_is_user_key_ b0).
  - unfold remove_suffix. rewrite slen_stake; lia.
  - unfold StripTimestampFromInternalKey, kNumInternalBytes. cbn [app]. pose proof (slen_nonneg k).
    rewrite slen_app, slen_stake by lia. rewrite slen_stake; [lia|rewrite slen_sdrop; lia].
Qed.

Lemma shared_range len last x : 0 <= strip_ts_sz_ b0 ->
  0 <= e_shared (mk_ent len last x) <= slen (e_key (mk_ent len last x)).
Proof using Type.
  intros _. destruct x as [[k v] d]. unfold mk_ent. cbn [e_shared e_key].
  set (kp := MaybeStripTimestampFromKey b0 k). pose proof (slen_nonneg kp).
  destruct (negb _ && _); [lia|]. destruct (use_delta_encoding_ b0); [|lia].
  set (lp := if slen last =? 0 then last else MaybeStripTimestampFromKey b0 last).
  destruct (difference_offset_spec kp lp) as (p & a' & b' & -> & _ & <- & _).
  rewrite slen_app. pose proof (slen_nonneg a'). pose proof (slen_nonneg p). lia.
Qed.

(** One [Add]. *)
Lemma Impl_built kvs last lk x buf_sz :
  kvd_ok x -> buf_sz = slen (enc_ents v4 (ents kvs)) ->
  slen (enc_ents v4 (ents kvs)) < 2 ^ 32 ->
  last = (ents_run kvs).2 \/ use_delta_encoding_ b0 = false ->
  AddWithLastKeyImpl (built kvs lk) x.1.1 x.1.2 last x.2 buf_sz = built (kvs ++ [x]) lk.
Proof using Hfresh.
  intros Hx -> Hsz Hlast. pose proof r_pos as Hr. destruct Hfresh as (Hint & Hstrip & _).
  unfold built at 2. rewrite ents_snoc. set (e := mk_ent (length kvs) (ents_run kvs).2 x).
  pose proof (shared_range (length kvs) (ents_run kvs).2 x Hstrip) as Hsh. fold e in Hsh.
  assert (e_key e = MaybeStripTimestampFromKey b0 x.1.1) as Hkey by (by destruct x as [[k v] d]).
  assert (slen (e_key e) < 2 ^ 32) as Hkl.
  { rewrite Hkey. destruct Hx as (Hk & _ & _ & Hts).
    pose proof (MaybeStrip_len x.1.1 Hstrip Hts). lia. }
  unfold AddWithLastKeyImpl.
  change (block_restart_interval_ (built kvs lk)) with (block_restart_interval_ b0).
  change (counter_ (built kvs lk)) with (since_restart r (length (ents kvs))).
  replace (block_restart_interval_ b0) with (Z.of_nat r) by (unfold r; lia).
  rewrite since_restart_full, length_ents by done.
  set (full := negb (length kvs =? 0)%nat && (length kvs mod r =? 0)%nat).
  change (MaybeStripTimestampFromKey (built kvs lk)) with (MaybeStripTimestampFromKey b0).
  rewrite <- Hkey. set (lp := if slen last =? 0 then last else MaybeStripTimestampFromKey b0 last).
  assert ((if full then 0 else if use_delta_encoding_ (built kvs lk) then difference_offset (e_key e) lp else 0)
          = e_shared e) as Hshared.
  { unfold e, mk_ent. destruct x as [[k v] d]. cbn [e_shared e_key]. fold full.
    change (use_delta_encoding_ (built kvs lk)) with (use_delta_encoding_ b0).
    destruct full; [done|]. destruct Hlast as [<- | ->]; done. }
  assert ((if full then (restarts_ (built kvs lk) ++ [u32 (slen (enc_ents v4 (ents kvs)))],
                         estimate_ (built kvs lk) + 4, 0, 0)
           else (restarts_ (built kvs lk), estimate_ (built kvs lk), since_restart r (length kvs),
                 if use_delta_encoding_ (built kvs lk) then difference_offset (e_key e) lp else 0)) =
          (rs_of (ents kvs ++ [e]),
           4 + 4 * slen (rs_of (ents kvs ++ [e])) + slen (enc_ents v4 (ents kvs)),
           since_restart r (S (length kvs)) - 1, e_shared e)) as ->.
  { assert (rs_of (ents kvs ++ [e]) = rs_of (ents kvs) ++ (if full then [slen (enc_ents v4 (ents kvs))] else [])) as ->.
    { unfold rs_of. rewrite restarts_snoc by done. by rewrite length_ents. }
    rewrite since_restart_S by done. fold full. rewrite <- Hshared.
    destruct full.
    - rewrite u32_id by (unfold is_u32; slia). rewrite slen_app.
      change (slen [slen (enc_ents v4 (ents kvs))]) with 1.
      unfold built, with_state. cbn [estimate_ restarts_]. repeat apply (f_equal2 pair); done || lia.
    - rewrite app_nil_r. unfold built, with_state. cbn [estimate_ restarts_].
      repeat apply (f_equal2 pair); done || lia. }
  cbv beta iota zeta. unfold built, with_state.
  cbn [block_restart_interval_ use_delta_encoding_ use_value_delta_encoding_ strip_ts_sz_ bb_is_user_key_
       buffer_ restarts_ estimate_ counter_ finished_ last_key_ data_block_hash_index_builder_].
  fold v4. rewrite enc_ents_snoc, slen_app, hib_run_snoc, length_app, length_ents.
  change (length [e]) with 1%nat. rewrite Nat.add_1_r.
  assert (slen (rs_of (ents kvs ++ [e])) - 1 = Z.of_nat (length kvs / r)) as ->.
  { unfold rs_of, slen. rewrite length_fmap, length_seq, length_app, length_ents, Nat.add_1_r. cbn. lia. }
  rewrite (stake_all _ (sdrop _ _)) by (rewrite slen_sdrop; lia).
  assert (is_u32 (e_shared e) /\ is_u32 (slen (e_key e) - e_shared e)) as [Hu1 Hu2] by (unfold is_u32; lia).
  rewrite (u32_id _ Hu1), (u32_id _ Hu2).
  assert (e_val e = if negb (e_shared e =? 0) && v4 then default [] x.2 else x.1.2) as Hval
    by (destruct x as [[k v] d]; done).
  assert (u32 (slen x.1.2) = slen x.1.2) as -> by (apply u32_id; destruct Hx; unfold is_u32; slia).
  assert ((if negb (e_shared e =? 0) && v4
     then (if v4 then PutVarint32Varint32 (enc_ents v4 (ents kvs)) (e_shared e) (slen (e_key e) - e_shared e)
           else PutVarint32Varint32Varint32 (enc_ents v4 (ents kvs)) (e_shared e) (slen (e_key e) - e_shared e)
                  (slen x.1.2)) ++ sdrop (e_shared e) (e_key e) ++ default [] x.2
     else (if v4 then PutVarint32Varint32 (enc_ents v4 (ents kvs)) (e_shared e) (slen (e_key e) - e_shared e)
           else PutVarint32Varint32Varint32 (enc_ents v4 (ents kvs)) (e_shared e) (slen (e_key e) - e_shared e)
                  (slen x.1.2)) ++ sdrop (e_shared e) (e_key e) ++ x.1.2) =
     enc_ents v4 (ents kvs) ++ enc_ent v4 e) as Hbuf.
  { unfold enc_ent, enc_hdr, PutVarint32Varint32, PutVarint32Varint32Varint32. rewrite Hval.
    clearbody v4. destruct v4; [rewrite andb_true_r; destruct (e_shared e =? 0)|rewrite andb_false_r].
    all: cbn [negb]; by rewrite <- !app_assoc. }
  rewrite <- !app_assoc, Hbuf, slen_app. f_equal; lia.
Qed.

Lemma fresh_built : b0 = built [] [].
Proof using Hfresh.
  destruct Hfresh as (_ & _ & H1 & H2 & H3 & H4 & H5 & H6).
  rewrite (with_state_eta b0) at 1. by rewrite H1, H2, H3, H4, H5, H6.
Qed.

Lemma last_run kvs : (ents_run kvs).2 = if use_delta_encoding_ b0 then default [] (kvd_key <$> list.last kvs) else [].
Proof using Type.
  induction kvs as [|x kvs IH] using rev_ind; [by destruct (use_delta_encoding_ b0)|].
  rewrite ents_run_snoc, last_snoc. cbn. rewrite IH. by destruct (use_delta_encoding_ b0).
Qed.

(** Adding entries to a fresh builder. *)
Lemma Add_built kvs : Forall kvd_ok kvs -> slen (enc_ents v4 (ents kvs)) < 2 ^ 32 ->
  fold_left Add_kvd kvs b0 = built kvs (ents_run kvs).2.
Proof using Hfresh.
  induction kvs as [|x kvs IH] using rev_ind; intros Hok Hsz; [apply fresh_built|].
  apply Forall_app in Hok as [Hok Hx]. apply Forall_inv in Hx.
  rewrite ents_snoc, enc_ents_snoc, slen_app in Hsz.
  assert (slen (enc_ents v4 (ents kvs)) < 2 ^ 32) as Hsz' by slia.
  rewrite fold_left_app, (IH Hok Hsz'). cbn [fold_left]. unfold Add_kvd, BlockBuilder_Add.
  rewrite (Impl_built kvs _ _ x _ Hx eq_refl Hsz' (or_introl eq_refl)). rewrite ents_run_snoc. cbn [ents_step snd].
  change (use_delta_encoding_ (built (kvs ++ [x]) (ents_run kvs).2)) with (use_delta_encoding_ b0).
  by destruct (use_delta_encoding_ b0).
Qed.

(** The entry of an added key. *)
Lemma ents_lookup kvs i x : kvs !! i = Some x ->
  exists e, ents kvs !! i = Some e /\ e_key e = MaybeStripTimestampFromKey b0 (kvd_key x) /\
    e_val e = if negb (e_shared e =? 0) && v4 then default [] x.2 else x.1.2.
Proof using Type.
  induction kvs as [|y kvs IH] using rev_ind; [done|]. rewrite ents_snoc.
  intros [Hi|[Hi [Hi0 ->]%list_lookup_singleton_Some]]%lookup_app_Some.
  - destruct (IH Hi) as (e & He & Hr). exists e. split; [by apply lookup_app_l_Some|done].
  - exists (mk_ent (length kvs) (ents_run kvs).2 x). split.
    + rewrite lookup_app_r; rewrite length_ents; [|done]. by replace (i - length kvs)%nat with 0%nat by lia.
    + by destruct x as [[k v] d].
Qed.

(** What a new entry shares is in the entry before it. *)
Lemma mk_ent_shares kvs x : let e := mk_ent (length kvs) (ents_run kvs).2 x in
  shares (ents kvs ++ [e]) (length kvs) e.
Proof using Type.
  intros e. unfold shares. destruct (Z.eq_dec (e_shared e) 0) as [|Hne]; [by left|]. right.
  assert (exists k, e_key e = k /\ use_delta_encoding_ b0 = true /\
    e_shared e = difference_offset k
      (if slen (ents_run kvs).2 =? 0 then (ents_run kvs).2
       else MaybeStripTimestampFromKey b0 (ents_run kvs).2)) as (k & Hk & Hd & Hsh).
  { unfold e, mk_ent in *. destruct x as [[k v] d]. cbn [e_shared e_key] in *. eexists. split; [done|].
    destruct (negb _ && _); [done|]. by destruct (use_delta_encoding_ b0). }
  rewrite last_run, Hd in Hsh. destruct (difference_offset_spec k (if slen (default [] (kvd_key <$> list.last kvs)) =? 0
    then default [] (kvd_key <$> list.last kvs)
    else MaybeStripTimestampFromKey b0 (default [] (kvd_key <$> list.last kvs)))) as (p & a' & b' & Ha & Hb & Hp & _).
  rewrite <- Hp in Hsh. clear Hp.
  destruct (Z.eqb_spec (slen (default [] (kvd_key <$> list.last kvs))) 0) as [H0|H0].
  { rewrite Hb, slen_app in H0. exfalso. apply Hne. rewrite Hsh. slia. }
  destruct kvs as [|y kvs _] using rev_ind; [done|]. rewrite last_snoc in Hb. cbn in Hb.
  destruct (ents_lookup (kvs ++ [y]) (length kvs) y) as (q & Hq & Hqk & _); [by apply list_lookup_middle|].
  exists q. rewrite length_app, Nat.add_1_r. split; [lia|]. split.
  { cbn [Nat.sub]. rewrite Nat.sub_0_r. by apply lookup_app_l_Some. }
  rewrite Hqk, Hb, Hk, Ha, Hsh. split; [rewrite slen_app; slia|]. by rewrite !stake_app.
Qed.

Lemma built_layout kvs : Forall kvd_ok kvs -> layout v4 r (ents kvs) (rs_of (ents kvs)).
Proof using Hfresh.
  intros Hok. pose proof r_pos as Hr. destruct Hfresh as (Hint & Hstrip & _).
  split; [done| |done]. induction kvs as [|x kvs IH] using rev_ind; [done|].
  apply Forall_app in Hok as [Hok Hx]. apply Forall_inv in Hx. specialize (IH Hok). rewrite ents_snoc.
  intros i e [Hi|[Hi [Hi0 <-]%list_lookup_singleton_Some]]%lookup_app_Some.
  - destruct (IH i e Hi) as (H1 & H2 & H3 & H4 & H5). split_and!; try done; try lia.
    destruct H5 as [?|(p & ? & Hp & ?)]; [by left|]. right. exists p. split; [done|].
    split; [by apply lookup_app_l_Some|done].
  - rewrite length_ents in *. assert (i = length kvs) as ->.
    { lia. }
    pose proof (mk_ent_shares kvs x) as Hshares. cbv zeta in Hshares.
    pose proof (shared_range (length kvs) (ents_run kvs).2 x Hstrip) as Hsr.
    assert (e_key (mk_ent (length kvs) (ents_run kvs).2 x) = MaybeStripTimestampFromKey b0 x.1.1) as Hkey
      by (by destruct x as [[k v] d]).
    destruct Hx as (Hk & Hv & Hd & Hts). pose proof (MaybeStrip_len _ Hstrip Hts) as Hl.
    split_and!; try done; try lia; try (rewrite Hkey; lia).
    + assert (forall (e : bytes) (b : bool), e = (if b then default [] x.2 else x.1.2) -> slen e < 2 ^ 32) as Hif
        by (by intros ? [] ->).
      apply (Hif _ (negb (e_shared (mk_ent (length kvs) (ents_run kvs).2 x) =? 0) && v4)).
      by destruct x as [[k v] d].
    + intros Hm. destruct x as [[k v] d]. unfold mk_ent. cbn [e_shared]. rewrite Hm.
      destruct kvs as [|y kvs]; [|done]. cbn. destruct (use_delta_encoding_ b0); [|done].
      by destruct (MaybeStripTimestampFromKey b0 k).
Qed.
End Built.

(** ** The finished block *)

Lemma fold_PutFixed32 rs buf : fold_left PutFixed32 rs buf = buf ++ concat (EncodeFixed32 <$> rs).
Proof.
  revert buf. induction rs as [|x rs IH]; intros buf; cbn; [by rewrite app_nil_r|].
  rewrite IH. unfold PutFixed32. by rewrite <- app_assoc.
Qed.

Lemma slen_restarts rs : slen (concat (EncodeFixed32 <$> rs)) = 4 * slen rs.
Proof. induction rs as [|x rs IH]; [done|]. cbn. rewrite slen_app, IH, slen_EncodeFixed32, slen_cons. lia. Qed.

(** Whether [Finish] writes a hash index. *)
Definition hash_used (b : BlockBuilder) : bool :=
  HIB_Valid (data_block_hash_index_builder_ b) && (CurrentSizeEstimate b <=? kMaxBlockSizeSupportedByHashIndex).

Definition hash_bytes (b : BlockBuilder) : bytes :=
  if hash_used b then
    (to_byte <$> HIB_buckets (data_block_hash_index_builder_ b)) ++
    EncodeFixed16 (HIB_num_buckets (data_block_hash_index_builder_ b))
  else [].

Definition index_type_of (b : BlockBuilder) : DataBlockIndexType :=
  if hash_used b then kDataBlockBinaryAndHash else kDataBlockBinarySearch.

Lemma Finish_buffer b :
  buffer_ (BlockBuilder_Finish b) =
  buffer_ b ++ concat (EncodeFixed32 <$> restarts_ b) ++ hash_bytes b ++
  EncodeFixed32 (PackIndexTypeAndNumRestarts (index_type_of b) (u32 (slen (restarts_ b)))).
Proof.
  unfold BlockBuilder_Finish, hash_bytes, index_type_of. fold (hash_used b).
  destruct (hash_used b); cbn; rewrite fold_PutFixed32; unfold PutFixed32.
  - unfold HIB_Finish, PutFixed16. by rewrite <- !app_assoc.
  - by rewrite <- app_assoc.
Qed.

(** *** The buckets *)

Lemma length_fill nb bs p : length (fill_bucket nb bs p) = length bs.
Proof. destruct p as [h i]. unfold fill_bucket. repeat case_match; by rewrite ?length_insert. Qed.

Lemma length_buckets b : length (HIB_buckets b) = Z.to_nat (HIB_num_buckets b).
Proof.
  unfold HIB_buckets. set (nb := HIB_num_buckets b). clearbody nb.
  assert (forall l bs, length (fold_left (fill_bucket nb) l bs) = length bs) as ->.
  { induction l as [|p l IH]; intros bs; [done|]. cbn. by rewrite IH, length_fill. }
  apply length_replicate.
Qed.

Lemma dbl_to_u16_range d : is_u16 (dbl_to_u16 d).
Proof. unfold dbl_to_u16. destruct d; try (unfold is_u16; lia). apply Z.mod_pos_bound. lia. Qed.

Lemma lor_1_val n : Z.lor n 1 = if Z.odd n then n else n + 1.
Proof.
  destruct (Z.odd n) eqn:Ho.
  - apply Z.bits_inj'. intros i Hi. rewrite Z.lor_spec. destruct (Z.eq_dec i 0) as [->|].
    + rewrite Z.bit0_odd, Ho. done.
    + assert (Z.testbit 1 i = false) as -> by (destruct i; try done; lia). by rewrite orb_false_r.
  - assert (Z.land n 1 = 0) as Hl.
    { change 1 with (Z.ones 1). rewrite Z.land_ones by lia. change (2 ^ 1) with 2. rewrite Zmod_odd, Ho. done. }
    rewrite <- Z.lxor_lor by done. symmetry. by apply Z.add_nocarry_lxor.
Qed.

Lemma num_buckets_range b : 1 <= HIB_num_buckets b < 2 ^ 16.
Proof.
  unfold HIB_num_buckets. pose proof (dbl_to_u16_range (estimated_num_buckets_ b)) as H. unfold is_u16 in H.
  rewrite lor_1_val. destruct (Z.eqb_spec (dbl_to_u16 (estimated_num_buckets_ b)) 0); [done|].
  destruct (Z.odd _) eqn:Ho; [lia|]. split; [lia|].
  assert (dbl_to_u16 (estimated_num_buckets_ b) <> 65535) by (intros E; by rewrite E in Ho). lia.
Qed.

Lemma estimate_buckets b : HIB_EstimateSize b = 2 + HIB_num_buckets b.
Proof. unfold HIB_EstimateSize, HIB_num_buckets. 
  destruct (Z.eqb_spec (dbl_to_u16 (estimated_num_buckets_ b)) 0) as [E|E]; [by rewrite E|done].
Qed.

Lemma slen_hash_bytes b : slen (hash_bytes b) =
  if hash_used b then HIB_EstimateSize (data_block_hash_index_builder_ b) else 0.
Proof.
  unfold hash_bytes. destruct (hash_used b); [|done].
  rewrite slen_app, slen_EncodeFixed16, estimate_buckets. unfold slen.
  rewrite length_fmap, length_buckets. pose proof (num_buckets_range (data_block_hash_index_builder_ b)). lia.
Qed.

(** What the bucket of a hash value holds once the pairs [ps] were added. *)
Definition bucket_ok (nb : Z) (ps : list (Z * Z)) (i : nat) (v : Z) : Prop :=
  (v = kNoEntry /\ forall h j, (h, j) ∈ ps -> Z.to_nat (u16 (h mod nb)) <> i) \/
  v = kCollision \/
  (v <= kMaxRestartSupportedByHashIndex /\ 0 <= v /\ (exists h, (h, v) ∈ ps) /\
   forall h j, (h, j) ∈ ps -> Z.to_nat (u16 (h mod nb)) = i -> j = v).

Lemma fill_bucket_ok nb ps bs p :
  0 <= p.2 <= kMaxRestartSupportedByHashIndex ->
  (forall i v, bs !! i = Some v -> bucket_ok nb ps i v) ->
  forall i v, fill_bucket nb bs p !! i = Some v -> bucket_ok nb (ps ++ [p]) i v.
Proof.
  destruct p as [h j]. cbn [snd]. intros Hj IH i v Hv. unfold fill_bucket in Hv.
  set (k := Z.to_nat (u16 (h mod nb))) in *.
  assert (forall w, i <> k -> bucket_ok nb ps i w -> bucket_ok nb (ps ++ [(h, j)]) i w) as Hother.
  { intros w Hik [[-> H]|[->|(H1 & H2 & [h0 H0] & H)]]; [left|right; by left|right; right].
    - split; [done|]. intros h' j' [?|[= -> ->]%list_elem_of_singleton]%elem_of_app; [by apply (H h' j')|done].
    - split_and!; [done..|exists h0; apply elem_of_app; by left|].
      intros h' j' [?|[= -> ->]%list_elem_of_singleton]%elem_of_app; [by apply (H h' j')|done]. }
  destruct (bs !! k) as [old|] eqn:Hk.
  2: { destruct (decide (i = k)) as [->|Hik]; [congruence|]. apply Hother; auto. }
  destruct (decide (i = k)) as [->|Hik].
  - specialize (IH k old Hk).
    destruct (Z.eqb_spec old kNoEntry) as [->|Hne].
    + rewrite list_lookup_insert_eq in Hv by (by eapply lookup_lt_Some). injection Hv as <-. right; right.
      split_and!; [lia..|exists h; apply elem_of_app; right; by apply list_elem_of_singleton|].
      intros h' j' [Hin|[= -> ->]%list_elem_of_singleton]%elem_of_app Hb; [|done].
      destruct IH as [[_ H]|[?|(? & _)]]; [by exfalso; eapply H|done|done].
    + destruct (Z.eqb_spec old j) as [->|Hnj]; cbn [negb] in Hv.
      * rewrite Hk in Hv. injection Hv as <-.
        destruct IH as [[? _]|[->|(H1 & H2 & _ & H)]]; [done|by right; left|right; right].
        split_and!; [done..|exists h; apply elem_of_app; right; by apply list_elem_of_singleton|]. intros h' j' [Hin|[= -> ->]%list_elem_of_singleton]%elem_of_app Hb; [by eapply H|done].
      * rewrite list_lookup_insert_eq in Hv by (by eapply lookup_lt_Some). injection Hv as <-. by right; left.
  - apply Hother; [done|]. apply IH.
    destruct (old =? kNoEntry); [by rewrite list_lookup_insert_ne in Hv by done|].
    destruct (negb (old =? j)); [by rewrite list_lookup_insert_ne in Hv by done|done].
Qed.

Lemma fill_all_ok nb ps bs qs :
  Forall (fun p => 0 <= p.2 <= kMaxRestartSupportedByHashIndex) qs ->
  (forall i v, bs !! i = Some v -> bucket_ok nb ps i v) ->
  forall i v, fold_left (fill_bucket nb) qs bs !! i = Some v -> bucket_ok nb (ps ++ qs) i v.
Proof.
  revert ps bs. induction qs as [|q qs IH]; intros ps bs Hq Hbs i v; cbn [fold_left].
  - rewrite app_nil_r. apply Hbs.
  - inversion Hq; subst. replace (ps ++ q :: qs) with ((ps ++ [q]) ++ qs) by (by rewrite <- app_assoc).
    apply IH; [done|]. by apply fill_bucket_ok.
Qed.

Lemma buckets_ok b i v :
  Forall (fun p => 0 <= p.2 <= kMaxRestartSupportedByHashIndex) (hash_and_restart_pairs_ b) ->
  HIB_buckets b !! i = Some v -> bucket_ok (HIB_num_buckets b) (hash_and_restart_pairs_ b) i v.
Proof.
  intros Hp. unfold HIB_buckets. apply (fill_all_ok _ []); [done|].
  intros j w [-> _]%lookup_replicate. left. split; [done|]. intros ? ? H. by apply not_elem_of_nil in H.
Qed.

Lemma unpack_pack_restarts t n : 0 <= n <= kMaxNumRestarts ->
  UnPackIndexTypeAndNumRestarts (PackIndexTypeAndNumRestarts t n) = (t, n) /\
  is_u32 (PackIndexTypeAndNumRestarts t n).
Proof.
  intros Hn. change kMaxNumRestarts with (2 ^ 31 - 1) in Hn.
  unfold UnPackIndexTypeAndNumRestarts, PackIndexTypeAndNumRestarts.
  change kNumRestartsMask with (Z.ones 31). change (Z.shiftl 1 kDataBlockIndexTypeBitShift) with (2 ^ 31).
  assert (Z.land n (2 ^ 31) = 0) as Hl.
  { apply Z.bits_inj'. intros i Hi. rewrite Z.land_spec, Z.bits_0, Z.pow2_bits_eqb by lia.
    destruct (Z.eqb_spec 31 i) as [<-|]; [|apply andb_false_r].
    rewrite (Z.bits_above_log2 n 31); [done|lia|]. destruct (Z.eq_dec n 0) as [->|]; [done|].
    apply Z.log2_lt_pow2; lia. }
  destruct t.
  - rewrite Hl, Z.land_ones, Z.mod_small by lia. cbn. unfold is_u32. split; [done|lia].
  - assert (Z.lor n (2 ^ 31) = n + 2 ^ 31) as -> by (rewrite <- Z.lxor_lor by done; symmetry; by apply Z.add_nocarry_lxor).
    split; [|unfold is_u32; lia]. f_equal.
    + assert (Z.land (n + 2 ^ 31) (2 ^ 31) = 2 ^ 31) as ->; [|done].
      rewrite Z.add_nocarry_lxor, Z.lxor_lor, Z.land_lor_distr_l, Hl, Z.land_diag by done. done.
    + rewrite Z.land_ones by lia. Z.div_mod_to_equations. lia.
Qed.

(** *** The pairs of the hash index *)

Section Pairs.
Variable b0 : BlockBuilder.
Let r := Z.to_nat (block_restart_interval_ b0).
Hypothesis Hnone : hash_and_restart_pairs_ (data_block_hash_index_builder_ b0) = [].

Definition pairs_of (kvs : list KVD) : list (Z * Z) :=
  imap (fun i x => (GetSliceHash (ExtractUserKey (kvd_key x)), Z.of_nat (i / r))) kvs.

Lemma hib_pairs kvs : HIB_Valid (hib_run b0 kvs) = true ->
  hash_and_restart_pairs_ (hib_run b0 kvs) = pairs_of kvs /\
  Forall (fun p => 0 <= p.2 <= kMaxRestartSupportedByHashIndex) (pairs_of kvs).
Proof using Hnone.
  induction kvs as [|x kvs IH] using rev_ind; [intros _; by split|].
  rewrite hib_run_snoc. destruct (HIB_Valid (hib_run b0 kvs)) eqn:Hv; [|congruence].
  destruct (IH eq_refl) as [Hp Hf]. unfold HIB_Add. fold r.
  destruct (Z.ltb_spec kMaxRestartSupportedByHashIndex (Z.of_nat (length kvs / r))) as [Hbig|Hsm];
    [unfold HIB_Valid; by cbn|].
  intros _. cbn [hash_and_restart_pairs_]. unfold pairs_of. rewrite imap_app. cbn [imap]. rewrite Nat.add_0_r.
  unfold pairs_of in *. rewrite Hp. split; [done|]. apply Forall_app. split; [done|].
  apply Forall_cons_2; [cbn [snd]; lia|by apply Forall_nil_2].
Qed.
End Pairs.

(** *** Sizes *)

Lemma encode_loop_mono f a b : 0 <= a <= b ->
  slen (EncodeVarint64_loop f a) <= slen (EncodeVarint64_loop f b).
Proof.
  revert a b. induction f as [|f IH]; intros a b Hab; [done|]. rewrite !encode_loop_S.
  zcase; zcase; rewrite ?slen_cons; snil; try lia.
  - specialize (IH (a / 128) (b / 128)). enough (0 <= a / 128 <= b / 128) by lia.
    split; [apply Z.div_pos; lia | apply Z.div_le_mono; lia].
  - slia.
Qed.

Lemma varint32_len v : is_u32 v -> slen (EncodeVarint32 v) = VarintLength v.
Proof.
  intros Hv. rewrite EncodeVarint32_64 by done. unfold VarintLength, EncodeVarint64.
  rewrite VarintLength_loop_spec. lia.
Qed.

Lemma VarintLength_mono a b : 0 <= a <= b -> VarintLength a <= VarintLength b.
Proof. intros. unfold VarintLength. rewrite !VarintLength_loop_spec. pose proof (encode_loop_mono 9 a b). lia. Qed.

Lemma slen_enc_ent v4 e : 0 <= e_shared e <= slen (e_key e) -> slen (e_key e) < 2 ^ 32 -> slen (e_val e) < 2 ^ 32 ->
  slen (enc_ent v4 e) = VarintLength (e_shared e) + VarintLength (slen (e_key e) - e_shared e) +
    (if v4 then 0 else VarintLength (slen (e_val e))) + (slen (e_key e) - e_shared e) + slen (e_val e).
Proof.
  intros Hs Hk Hv. unfold enc_ent, enc_hdr. destruct v4; rewrite !slen_app, ?slen_nil, !varint32_len, slen_sdrop by (unfold is_u32; slia); lia.
Qed.

(** *** Both ways to add *)

Definition AddLast_kvd (a : BlockBuilder * bytes) (x : KVD) : BlockBuilder * bytes :=
  (AddWithLastKey a.1 x.1.1 x.1.2 a.2 x.2, kvd_key x).

Lemma enc_ent_pos v4 e : 0 < slen (enc_ent v4 e).
Proof.
  unfold enc_ent, enc_hdr. rewrite !slen_app.
  assert (forall v, 0 < slen (EncodeVarint32 v)) as H.
  { intros v. unfold EncodeVarint32. repeat case_match; rewrite ?slen_cons; slia. }
  pose proof (H (e_shared e)). slia.
Qed.

Lemma AddLast_built b0 kvs junk : is_fresh b0 -> Forall (kvd_ok b0) kvs ->
  slen (enc_ents (use_value_delta_encoding_ b0) (ents b0 kvs)) < 2 ^ 32 ->
  fold_left AddLast_kvd kvs (b0, junk) = (built b0 kvs [], default junk (kvd_key <$> list.last kvs)).
Proof.
  intros Hf. induction kvs as [|x kvs IH] using rev_ind; intros Hok Hsz.
  { cbn. by rewrite <- fresh_built. }
  apply Forall_app in Hok as [Hok Hx]. apply Forall_inv in Hx.
  rewrite ents_snoc, enc_ents_snoc, slen_app in Hsz.
  assert (slen (enc_ents (use_value_delta_encoding_ b0) (ents b0 kvs)) < 2 ^ 32) as Hsz' by slia.
  rewrite fold_left_app, (IH Hok Hsz'), last_snoc. cbn [fold_left fmap option_fmap option_map default from_option].
  unfold AddLast_kvd, AddWithLastKey. cbn [fst snd]. f_equal.
  set (l := default junk _). apply (Impl_built b0 Hf kvs); try done.
  destruct (use_delta_encoding_ b0) eqn:Hd; [left|by right]. rewrite last_run, Hd.
  destruct kvs as [|y kvs _] using rev_ind; [by rewrite Z.mul_0_r|].
  rewrite last_snoc. subst l. rewrite last_snoc. cbn.
  assert (0 < slen (enc_ents (use_value_delta_encoding_ b0) (ents b0 (kvs ++ [y])))) as Hpos.
  { rewrite ents_snoc, enc_ents_snoc, slen_app.
    pose proof (enc_ent_pos (use_value_delta_encoding_ b0) (mk_ent b0 (length kvs) (ents_run b0 kvs).2 y)). slia. }
  destruct (Z.ltb_spec 0 (slen (enc_ents (use_value_delta_encoding_ b0) (ents b0 (kvs ++ [y]))))); [|lia].
  apply stake_all. cbn. lia.
Qed.

(** *** Estimates *)

Lemma Finish_size b : estimate_ b = 4 + 4 * slen (restarts_ b) + slen (buffer_ b) ->
  slen (buffer_ (BlockBuilder_Finish b)) =
  estimate_ b + (if hash_used b then HIB_EstimateSize (data_block_hash_index_builder_ b) else 0).
Proof.
  intros He. rewrite Finish_buffer, !slen_app, slen_restarts, slen_EncodeFixed32, slen_hash_bytes. lia.
Qed.

Lemma hib_run_disabled b0 kvs : HIB_Valid (data_block_hash_index_builder_ b0) = false ->
  HIB_Valid (hib_run b0 kvs) = false.
Proof.
  intros H. induction kvs as [|x kvs IH] using rev_ind; [done|]. by rewrite hib_run_snoc, IH.
Qed.

(** What [CurrentSizeEstimate] counts for the hash index. *)
Definition hash_size (b : BlockBuilder) : Z :=
  if HIB_Valid (data_block_hash_index_builder_ b) then HIB_EstimateSize (data_block_hash_index_builder_ b) else 0.

Lemma hash_size_disabled b0 kvs last : HIB_Valid (data_block_hash_index_builder_ b0) = false -> hash_size (built b0 kvs last) = 0.
Proof. intros H. unfold hash_size, built, with_state. cbn [data_block_hash_index_builder_]. by rewrite hib_run_disabled. Qed.

(** What [EstimateSizeAfterKV] does not count: the value that is stored beyond
    half of the full one when values are delta-encoded, and the fifth byte of
    a shared length of 2^28 or more. *)
Definition uncounted (b : BlockBuilder) (x : KVD) : Z :=
  (if use_value_delta_encoding_ b then Z.max (slen x.1.2) (slen (default [] x.2)) - slen x.1.2 / 2 else 0) +
  (if slen (kvd_key x) <? 2 ^ 28 then 0 else 1).

(** The estimate of the next entry against what the entry takes. *)
Lemma estimate_next b0 kvs x last last' : is_fresh b0 -> kvd_ok b0 x ->
  let b := built b0 kvs last in let b' := built b0 (kvs ++ [x]) last' in
  CurrentSizeEstimate b' <= EstimateSizeAfterKV b (kvd_key x) x.1.2 + (hash_size b' - hash_size b) + uncounted b x.
Proof.
  intros Hf Hx. cbv zeta. pose proof (r_pos b0 Hf) as Hr. destruct Hf as (Hint & Hstrip & _).
  destruct Hx as (Hk & Hv & Hd & Hts). pose proof (MaybeStrip_len b0 _ Hstrip Hts) as Hkp.
  unfold EstimateSizeAfterKV, uncounted. assert (Hc : forall b, CurrentSizeEstimate b = estimate_ b + hash_size b) by done.
  rewrite !Hc. clear Hc. generalize (hash_size (built b0 (kvs ++ [x]) last')) as h', (hash_size (built b0 kvs last)) as h. intros h' h.
  unfold built, with_state.
  cbn [estimate_ strip_ts_sz_ block_restart_interval_ counter_ use_value_delta_encoding_].
  set (r := Z.to_nat (block_restart_interval_ b0)) in *.
  replace (block_restart_interval_ b0) with (Z.of_nat r) by lia.
  rewrite since_restart_full, length_ents by done.
  rewrite ents_snoc, enc_ents_snoc, slen_app. set (e := mk_ent b0 (length kvs) (ents_run b0 kvs).2 x).
  assert (slen (rs_of b0 (ents b0 kvs ++ [e])) = slen (rs_of b0 (ents b0 kvs)) +
    if negb (length kvs =? 0)%nat && (length kvs mod r =? 0)%nat then 1 else 0) as ->.
  { unfold rs_of. rewrite restarts_snoc, slen_app, length_ents by done. by destruct (_ && _). }
  pose proof (shared_range b0 (length kvs) (ents_run b0 kvs).2 x Hstrip) as Hs. fold e in Hs.
  assert (Hek : e_key e = MaybeStripTimestampFromKey b0 (kvd_key x)) by (by destruct x as [[k v] d]).
  assert (Hev : slen (e_val e) <= (if use_value_delta_encoding_ b0 then Z.max (slen x.1.2) (slen (default [] x.2)) else slen x.1.2)
    /\ (negb (length kvs =? 0)%nat && (length kvs mod r =? 0)%nat = true \/ use_value_delta_encoding_ b0 = false -> e_val e = x.1.2)).
  { destruct x as [[k v] d]. unfold e, mk_ent. fold r. cbn [e_val fst snd]. destruct (use_value_delta_encoding_ b0).
    - destruct (negb (length kvs =? 0)%nat && (length kvs mod r =? 0)%nat); [cbn; split; [lia|done]|].
      split; [destruct (_ && _); lia|intros [?|?]; done].
    - rewrite andb_false_r. split; [lia|done]. }
  destruct Hev as [Hev Hev']. change (kvd_key x) with x.1.1 in *. rewrite Hek, Hkp in Hs.
  assert (Hval : slen (e_val e) < 2 ^ 32) by (destruct (use_value_delta_encoding_ b0); lia).
  rewrite slen_enc_ent by (rewrite ?Hek, ?Hkp; lia). rewrite Hek, Hkp.
  pose proof (slen_nonneg x.1.1). pose proof (slen_nonneg x.1.2).
  assert (V1 : VarintLength (e_shared e) <= 4 + if slen x.1.1 <? 2 ^ 28 then 0 else 1).
  { destruct (Z.ltb_spec (slen x.1.1) (2 ^ 28)).
    - pose proof (VarintLength_mono (e_shared e) (2 ^ 28 - 1) ltac:(lia)) as V. by change (VarintLength (2 ^ 28 - 1)) with 4 in V.
    - pose proof (VarintLength_mono (e_shared e) (2 ^ 32 - 1) ltac:(lia)) as V. by change (VarintLength (2 ^ 32 - 1)) with 5 in V. }
  pose proof (VarintLength_mono (slen x.1.1 - strip_ts_sz_ b0 - e_shared e) (slen x.1.1) ltac:(lia)) as V2.
  pose proof (VarintLength_mono 0 (slen x.1.2) ltac:(lia)) as V3. change (VarintLength 0) with 1 in V3.
  assert (slen x.1.2 / 2 <= slen x.1.2) by (Z.div_mod_to_equations; lia).
  destruct (use_value_delta_encoding_ b0), (negb (length kvs =? 0)%nat && (length kvs mod r =? 0)%nat); cbn [negb orb];
    rewrite ?Hev' by auto; zcase.
Qed.

(** ** Properties *)

(** The two ways to add entries build the same block: [AddWithLastKey],
    given the key added before (anything on the first call), leads to the same
    size estimate and the same finished bytes as [Add]. *)
Theorem add_with_last_key_agrees (b0 : BlockBuilder) (kvs : list KVD) (junk : bytes) :
  is_fresh b0 -> Forall (kvd_ok b0) kvs ->
  slen (enc_ents (use_value_delta_encoding_ b0) (ents b0 kvs)) < 2 ^ 32 ->
  let b := fold_left Add_kvd kvs b0 in
  let b' := (fold_left AddLast_kvd kvs (b0, junk)).1 in
  CurrentSizeEstimate b' = CurrentSizeEstimate b /\
  buffer_ (BlockBuilder_Finish b') = buffer_ (BlockBuilder_Finish b).
Proof.
  intros Hf Hok Hsz. cbv zeta. rewrite (Add_built b0 Hf kvs Hok Hsz), AddLast_built by done.
  cbn [fst]. by rewrite !Finish_buffer.
Qed.

(** The options of an ordinary data block: a restart point every 2 entries. *)
Definition data_builder : BlockBuilder :=
  BlockBuilder_make 2 true false kDataBlockBinarySearch dbl_0 0 true false.

Definition hash_builder : BlockBuilder :=
  BlockBuilder_make 2 true false kDataBlockBinaryAndHash kDefaultUtilRatio 0 true false.

Lemma fresh_make i ude uvde it ratio ts persist uk : 1 <= i -> 0 <= ts ->
  is_fresh (BlockBuilder_make i ude uvde it ratio ts persist uk).
Proof. intros. unfold is_fresh, BlockBuilder_make. cbn. destruct persist; split_and!; done || lia. Qed.

(** Three entries whose keys share a prefix. *)
Definition sample_ikey (c : byte) (s : Z) : bytes := AppendInternalKeyFooter [Byte.x61; c] s kTypeValue.
Definition sample_kvs : list KVD :=
  [(sample_ikey Byte.x61 3, [Byte.x31], None); (sample_ikey Byte.x62 2, [], None);
   (sample_ikey Byte.x63 1, [Byte.x32; Byte.x33], None)].

Lemma sample_kvs_ok b : strip_ts_sz_ b = 0 -> Forall (kvd_ok b) sample_kvs.
Proof. intros H. unfold sample_kvs, kvd_ok. rewrite H. repeat constructor; cbn; done. Qed.

Lemma add_with_last_key_agrees_witness :
  buffer_ (BlockBuilder_Finish (fold_left AddLast_kvd sample_kvs (hash_builder, [Byte.x7a])).1) =
  buffer_ (BlockBuilder_Finish (fold_left Add_kvd sample_kvs hash_builder)).
Proof.
  apply (add_with_last_key_agrees hash_builder sample_kvs [Byte.x7a]).
  - by apply fresh_make.
  - by apply sample_kvs_ok.
  - by vm_compute.
Defined.

(** [C40] Size estimates: [CurrentSizeEstimate] is never less than the size of
    the finished block, and it is exactly that size unless the block outgrew
    its hash index; a block with a hash index fits the 64 KiB its offsets can
    address. [EstimateSizeAfterKV] underestimates the estimate after the next
    entry at most by what it leaves out: the growth of the hash index, what is
    stored of a delta-encoded value beyond half of the full one, and a fifth
    byte for a shared length of 2^28 or more; so never without hash index and
    delta-encoded values, for keys below 2^28 bytes. *)
Theorem block_size_estimate (b0 : BlockBuilder) (kvs : list KVD) (x : KVD) :
  is_fresh b0 -> Forall (kvd_ok b0) (kvs ++ [x]) ->
  slen (enc_ents (use_value_delta_encoding_ b0) (ents b0 (kvs ++ [x]))) < 2 ^ 32 ->
  let b := fold_left Add_kvd kvs b0 in
  slen (buffer_ (BlockBuilder_Finish b)) <= CurrentSizeEstimate b /\
  (hash_used b = HIB_Valid (data_block_hash_index_builder_ b) ->
   slen (buffer_ (BlockBuilder_Finish b)) = CurrentSizeEstimate b) /\
  (hash_used b = true -> slen (buffer_ (BlockBuilder_Finish b)) <= kMaxBlockSizeSupportedByHashIndex) /\
  CurrentSizeEstimate (Add_kvd b x) <=
    EstimateSizeAfterKV b (kvd_key x) x.1.2 + (hash_size (Add_kvd b x) - hash_size b) + uncounted b x /\
  (use_value_delta_encoding_ b0 = false -> HIB_Valid (data_block_hash_index_builder_ b0) = false ->
   slen (kvd_key x) < 2 ^ 28 ->
   CurrentSizeEstimate (Add_kvd b x) <= EstimateSizeAfterKV b (kvd_key x) x.1.2).
Proof.
  intros Hf Hok Hsz. cbv zeta. apply Forall_app in Hok as [Hok Hx]. apply Forall_inv in Hx as Hx'.
  assert (slen (enc_ents (use_value_delta_encoding_ b0) (ents b0 kvs)) < 2 ^ 32) as Hsz'.
  { rewrite ents_snoc, enc_ents_snoc, slen_app in Hsz. slia. }
  assert (Add_kvd (fold_left Add_kvd kvs b0) x = fold_left Add_kvd (kvs ++ [x]) b0) as -> by (by rewrite fold_left_app).
  rewrite (Add_built b0 Hf (kvs ++ [x])) by (done || by apply Forall_app). rewrite (Add_built b0 Hf kvs) by done.
  set (b := built b0 kvs _).
  pose proof (Finish_size b eq_refl) as Hsize. rewrite Hsize.
  assert (0 <= HIB_EstimateSize (data_block_hash_index_builder_ b)) as Hpos.
  { rewrite estimate_buckets. pose proof (num_buckets_range (data_block_hash_index_builder_ b)). lia. }
  unfold CurrentSizeEstimate at 1 2. split_and!.
  - unfold hash_used. destruct (HIB_Valid (data_block_hash_index_builder_ b)); cbn [andb]; [|lia].
    destruct (_ <=? _); lia.
  - by intros ->.
  - intros Hu. rewrite Hu. unfold hash_used in Hu. apply andb_prop in Hu as [Hu1 Hu2%Z.leb_le].
    unfold CurrentSizeEstimate in Hu2. by rewrite Hu1 in Hu2.
  - by apply estimate_next.
  - intros Hv4 Hh Hk. pose proof (estimate_next b0 kvs x (ents_run b0 kvs).2 (ents_run b0 (kvs ++ [x])).2 Hf Hx') as Hn.
    cbv zeta in Hn. rewrite !hash_size_disabled in Hn by done. fold b in Hn. unfold uncounted in Hn.
    change (use_value_delta_encoding_ b) with (use_value_delta_encoding_ b0) in Hn.
    rewrite Hv4, (proj2 (Z.ltb_lt _ _)) in Hn by done. lia.
Qed.

Lemma block_size_estimate_witness :
  let b := fold_left Add_kvd (take 2 sample_kvs) data_builder in
  let x := (sample_ikey Byte.x63 1, [Byte.x32; Byte.x33], None) in
  slen (buffer_ (BlockBuilder_Finish b)) = CurrentSizeEstimate b /\
  CurrentSizeEstimate (Add_kvd b x) <= EstimateSizeAfterKV b (kvd_key x) x.1.2.
Proof.
  destruct (block_size_estimate data_builder (take 2 sample_kvs)
    (sample_ikey Byte.x63 1, [Byte.x32; Byte.x33], None)) as (_ & H1 & _ & _ & H2).
  - by apply fresh_make.
  - exact (sample_kvs_ok data_builder eq_refl).
  - by vm_compute.
  - split; [apply H1; reflexivity|]. apply H2; reflexivity.
Defined.

(** With delta-encoded values the estimate can fall short: a key that shares
    nothing with the one before is stored with its full value. *)
Lemma estimate_falls_short :
  let b := Add_kvd (BlockBuilder_make 2 true true kDataBlockBinarySearch dbl_0 0 true true)
             ([Byte.x61], replicate 20 Byte.x00, None) in
  let x := ([Byte.x62], replicate 20 Byte.x00, None) in
  EstimateSizeAfterKV b (kvd_key x) x.1.2 < CurrentSizeEstimate (Add_kvd b x).
Proof. by vm_compute. Qed.

(** [Reset] does not bring back a hash index that was given up because a block
    had more than 253 restart points: [BlockBuilder::Reset] resets the hash
    index builder only when it is valid, so every later block of the builder
    is written without one. The comment of [Reset] says "as if the
    BlockBuilder was just constructed". *)
Lemma reset_keeps_hash_index_disabled (b : BlockBuilder) :
  HIB_Valid (data_block_hash_index_builder_ b) = false ->
  data_block_hash_index_builder_ (BlockBuilder_Reset b) = data_block_hash_index_builder_ b.
Proof. intros H. unfold BlockBuilder_Reset. cbn. by rewrite H. Qed.

(** Otherwise it does what it says. *)
Lemma reset_fresh (b0 : BlockBuilder) (kvs : list KVD) : is_fresh b0 -> Forall (kvd_ok b0) kvs ->
  slen (enc_ents (use_value_delta_encoding_ b0) (ents b0 kvs)) < 2 ^ 32 ->
  is_fresh (BlockBuilder_Reset (fold_left Add_kvd kvs b0)).
Proof.
  intros Hf Hok Hsz. rewrite (Add_built b0 Hf kvs Hok Hsz). unfold is_fresh, BlockBuilder_Reset, built.
  destruct Hf as (Hi & Hs & _). cbn. split_and!; try done. unfold rs_of.
  pose proof (nrestarts_pos (Z.to_nat (block_restart_interval_ b0)) (length (ents b0 kvs))).
  destruct (nrestarts _ _) as [|n]; [lia|]. cbn. by rewrite offs_0.
Qed.
