(* ===== verification/Block.v ===== *)
(** * Reading blocks

    Models table/block_based/block.h and block.cc: the class [Block], which
    finds the restart points and the hash index in the bytes of a block, and
    the iterators over its entries. [BlockIter<TValue>] is the record [St]
    over the members of its subclass, with a configuration [Cfg] that is
    fixed by [Initialize]; [DataBlockIter], [MetaBlockIter] and
    [IndexBlockIter] are the three instances. Virtual calls are arguments.

    Pointers into the block are offsets. A read outside the block, and a loop
    that runs out of fuel, is [None]: that operations return [Some] is part of
    every theorem. The key buffer [raw_key_] is the abstract key of [IterKey],
    to which the buffer of the code is proved equivalent there.

    Not modelled: the read amplification bitmap (statistics), and prefix
    indexes ([prefix_index_] is null: total order seek). *)

From S2P Require Import Prelude Coding Slice Comparator DbFormat IterKey KvChecksum TableFormat BlockBuilder.

(** ** Decoding entries *)

Section Decode.
Variable data : bytes.

(** The bytes [data[off .. off + n)], which must be in the block. *)
Definition bread (off n : Z) : option bytes :=
  if (0 <=? off) && (0 <=? n) && (off + n <=? slen data) then Some (stake n (sdrop off data)) else None.

(** [GetVarint32Ptr(p, limit, &v)]: the value and the new [p]. *)
Definition getv (p limit : Z) : option (Z * Z) :=
  match GetVarint32Ptr (stake (limit - p) (sdrop p data)) with
  | Some (v, rest) => Some (v, limit - slen rest)
  | None => None
  end.

(** The slow path of the decoders. *)
Definition get_three (p limit : Z) : option (Z * Z * Z * Z) :=
  match getv p limit with
  | None => None
  | Some (shared, p) =>
      match getv p limit with
      | None => None
      | Some (non_shared, p) =>
          match getv p limit with
          | None => None
          | Some (value_length, p) => Some (p, shared, non_shared, value_length)
          end
      end
  end.

(** A decoder returns [p] (null is [None]), [shared], [non_shared] and
    [value_length]. The outer [option] is the access to the three bytes. *)
Definition DecodeEntry (p limit : Z) : option (option (Z * Z * Z * Z)) :=
  b ← bread p 3;
  let shared := at_ b 0 in
  let non_shared := at_ b 1 in
  let value_length := at_ b 2 in
  Some (if Z.lor (Z.lor shared non_shared) value_length <? 128
        then Some (p + 3, shared, non_shared, value_length)
        else get_three p limit).

Definition CheckAndDecodeEntry (p limit : Z) : option (option (Z * Z * Z * Z)) :=
  if limit - p <? 3 then Some None
  else
    r ← DecodeEntry p limit;
    Some (match r with
          | None => None
          | Some (p, shared, non_shared, value_length) =>
              if u32 (limit - p) <? u32 (non_shared + value_length) then None
              else Some (p, shared, non_shared, value_length)
          end).

Definition DecodeKey (p limit : Z) : option (option (Z * Z * Z)) :=
  r ← DecodeEntry p limit;
  Some (match r with Some (p, shared, non_shared, _) => Some (p, shared, non_shared) | None => None end).

Definition DecodeKeyV4 (p limit : Z) : option (option (Z * Z * Z)) :=
  if limit - p <? 3 then Some None
  else
    b ← bread p 2;
    let shared := at_ b 0 in
    let non_shared := at_ b 1 in
    Some (if Z.lor shared non_shared <? 128 then Some (p + 2, shared, non_shared)
          else match getv p limit with
               | None => None
               | Some (shared, p) =>
                   match getv p limit with
                   | None => None
                   | Some (non_shared, p) => Some (p, shared, non_shared)
                   end
               end).

Definition DecodeEntryV4 (p limit : Z) : option (option (Z * Z * Z * Z)) :=
  r ← DecodeKeyV4 p limit;
  Some (match r with Some (p, shared, non_shared) => Some (p, shared, non_shared, 0) | None => None end).

End Decode.

(** ** Block *)

Record Block := {
  b_data : bytes;
  size_ : Z;
  restart_offset_ : Z;
  b_num_restarts_ : Z;
  b_num_buckets_ : Z;             (** [data_block_hash_index_]; 0: not valid *)
  b_kv_checksum_ : option bytes;
  checksum_size_ : Z;
  b_block_restart_interval_ : Z;
  b_protection_bytes_per_key_ : Z
}.

Definition NumRestarts (data : bytes) (size : Z) : Z :=
  let block_footer := DecodeFixed32 (sdrop (size - 4) data) in
  if kMaxBlockSizeSupportedByHashIndex <? size then block_footer
  else snd (UnPackIndexTypeAndNumRestarts block_footer).

Definition IndexType (data : bytes) (size : Z) : DataBlockIndexType :=
  if kMaxBlockSizeSupportedByHashIndex <? size then kDataBlockBinarySearch
  else
    let block_footer := DecodeFixed32 (sdrop (size - 4) data) in
    fst (UnPackIndexTypeAndNumRestarts block_footer).

(** The constructor. *)
Definition Block_make (contents : bytes) : Block :=
  let blk size restart_offset num_restarts num_buckets :=
    {| b_data := contents; size_ := size; restart_offset_ := restart_offset;
       b_num_restarts_ := num_restarts; b_num_buckets_ := num_buckets; b_kv_checksum_ := None;
       checksum_size_ := 0; b_block_restart_interval_ := 0; b_protection_bytes_per_key_ := 0 |} in
  let size := slen contents in
  if size <? 4 then blk 0 0 0 0
  else
    let num_restarts := NumRestarts contents size in
    match IndexType contents size with
    | kDataBlockBinarySearch =>
        let restart_offset := u32 (u32 size - u32 (1 + num_restarts) * 4) in
        blk (if size - 4 <? restart_offset then 0 else size) restart_offset num_restarts 0
    | kDataBlockBinaryAndHash =>
        if size <? 4 + 2 then blk 0 0 num_restarts 0
        else
          let (num_buckets, map_offset) := HI_Initialize contents (u16 (size - 4)) in
          let restart_offset := u32 (map_offset - num_restarts * 4) in
          blk (if map_offset <? restart_offset then 0 else size) restart_offset num_restarts num_buckets
    end.

(** ** The iterators' state *)

(** What [InitializeBase] fixes; [c_data] is [None] when [data_] is null. *)
Record Cfg := {
  c_ucmp : Comparator;
  c_data : option bytes;
  c_restarts : Z;
  c_num_restarts : Z;
  c_global_seqno : Z;
  c_ts_sz : Z;
  c_pad_min_timestamp : bool;
  c_kv_checksum : option bytes;
  c_block_restart_interval : Z;
  c_protection_bytes_per_key : Z;
  c_block_contents_pinned : bool
}.

(** A slice into the block: offset and size. *)
Definition BSlice : Type := Z * Z.

Record St (X : Type) := mkSt {
  restart_index_ : Z;
  current_ : Z;
  raw_key_ : AbsKey;
  value_ : BSlice;
  status_ : Status;
  ukey_ : bytes;            (** [key_], the key to be exposed to users *)
  key_pinned_ : bool;
  cur_entry_idx_ : Z;
  sub_ : X                  (** the members of the subclass *)
}.
Arguments mkSt {X}.
Arguments restart_index_ {X}.
Arguments current_ {X}.
Arguments raw_key_ {X}.
Arguments value_ {X}.
Arguments status_ {X}.
Arguments ukey_ {X}.
Arguments key_pinned_ {X}.
Arguments cur_entry_idx_ {X}.
Arguments sub_ {X}.

Section Setters.
Context {X : Type} (s : St X).
Definition set_pos (current restart_index : Z) : St X :=
  mkSt restart_index current (raw_key_ s) (value_ s) (status_ s) (ukey_ s) (key_pinned_ s) (cur_entry_idx_ s) (sub_ s).
Definition set_raw_key (k : AbsKey) : St X :=
  mkSt (restart_index_ s) (current_ s) k (value_ s) (status_ s) (ukey_ s) (key_pinned_ s) (cur_entry_idx_ s) (sub_ s).
Definition set_value (v : BSlice) : St X :=
  mkSt (restart_index_ s) (current_ s) (raw_key_ s) v (status_ s) (ukey_ s) (key_pinned_ s) (cur_entry_idx_ s) (sub_ s).
Definition set_status (st : Status) : St X :=
  mkSt (restart_index_ s) (current_ s) (raw_key_ s) (value_ s) st (ukey_ s) (key_pinned_ s) (cur_entry_idx_ s) (sub_ s).
Definition set_ukey (k : bytes) (pinned : bool) : St X :=
  mkSt (restart_index_ s) (current_ s) (raw_key_ s) (value_ s) (status_ s) k pinned (cur_entry_idx_ s) (sub_ s).
Definition set_idx (i : Z) : St X :=
  mkSt (restart_index_ s) (current_ s) (raw_key_ s) (value_ s) (status_ s) (ukey_ s) (key_pinned_ s) i (sub_ s).
Definition set_sub (x : X) : St X :=
  mkSt (restart_index_ s) (current_ s) (raw_key_ s) (value_ s) (status_ s) (ukey_ s) (key_pinned_ s) (cur_entry_idx_ s) x.
End Setters.

Section BlockIter.

(** [wild] is where the static empty string of a cleared slice lies relative to
    the block; [Hash64] is the hash of the integrity codes. *)
Variable wild : Z.
Variable Hash64 : bytes -> Z -> Z.
Variable c : Cfg.
Context {X : Type}.
Implicit Types s : St X.

Definition dat : bytes := default [] (c_data c).

Definition Iter_Valid (s : St X) : bool := current_ s <? c_restarts c.

Definition NextEntryOffset (s : St X) : Z := u32 (fst (value_ s) + snd (value_ s)).

Definition GetRestartPoint (index : Z) : option Z :=
  b ← bread dat (c_restarts c + index * 4) 4;
  Some (DecodeFixed32 b).

Definition SeekToRestartPoint (s : St X) (index : Z) : option (St X) :=
  let s := set_raw_key s (spec (raw_key_ s) OClear) in
  let s := set_pos s (current_ s) index in
  offset ← GetRestartPoint index;
  Some (set_value s (offset, 0)).

Definition CorruptionError (s : St X) (error_msg : string) : St X :=
  let s := set_pos s (c_restarts c) (c_num_restarts c) in
  let s := set_status s (Corruption error_msg) in
  let s := set_raw_key s (spec (raw_key_ s) OClear) in
  set_value s (wild, 0).

Definition bad_entry : string := "bad entry in block".

Definition PerKVChecksumCorruptionError (s : St X) : St X :=
  CorruptionError s ("Corrupted block entry: per key-value checksum verification failed." +:+
    " Offset: " +:+ pretty (current_ s) +:+ "." +:+
    " Entry index: " +:+ pretty (cur_entry_idx_ s) +:+ ".").

Definition UpdateRawKeyAndMaybePadMinTimestamp (s : St X) (key : bytes) : St X :=
  let k := raw_key_ s in
  set_raw_key s
    (if c_pad_min_timestamp c then
       let buf := if a_user k then AppendKeyWithMinTimestamp [] key (c_ts_sz c)
                  else PadInternalKeyWithMinTimestamp [] key (c_ts_sz c) in
       spec k (OSetKey buf true)
     else spec k (OSetKey key false)).

(** [raw_key_.GetUserKey()] *)
Definition raw_user_key (s : St X) : bytes :=
  let k := raw_key_ s in
  if a_user k then a_key k else stake (slen (a_key k) - kNumInternalBytes) (a_key k).

Definition CompareCurrentKey (s : St X) (other : bytes) : Z :=
  let k := raw_key_ s in
  if a_user k then Compare (c_ucmp c) (raw_user_key s) other
  else if c_global_seqno c =? kDisableGlobalSequenceNumber then IKCompare (c_ucmp c) (a_key k) other
  else IKCompare_global (c_ucmp c) (a_key k) (c_global_seqno c) other kDisableGlobalSequenceNumber.

(** [value_] as bytes. *)
Definition value_bytes (s : St X) : option bytes := bread dat (fst (value_ s)) (snd (value_ s)).

(** The loop of [ParseNextKey] that catches up with the restart points. *)
Fixpoint catch_up (fuel : nat) (ri cur : Z) : option Z :=
  match fuel with
  | O => None
  | S fuel =>
      if ri + 1 <? c_num_restarts c then
        p ← GetRestartPoint (ri + 1);
        if p <? cur then catch_up fuel (ri + 1) cur else Some ri
      else Some ri
  end.

(** The result, [*is_shared] and the new state. *)
Definition ParseNextKey (Decode : bytes -> Z -> Z -> option (option (Z * Z * Z * Z))) (s : St X)
    : option (bool * bool * St X) :=
  let s := set_pos s (NextEntryOffset s) (restart_index_ s) in
  let p := current_ s in
  let limit := c_restarts c in
  if limit <=? p then Some (false, false, set_pos s (c_restarts c) (c_num_restarts c))
  else
    r ← Decode dat p limit;
    match r with
    | None => Some (false, false, CorruptionError s bad_entry)
    | Some (p, shared, non_shared, value_length) =>
        if slen (a_key (raw_key_ s)) <? shared then Some (false, false, CorruptionError s bad_entry)
        else
          delta ← bread dat p non_shared;
          let s :=
            if shared =? 0 then UpdateRawKeyAndMaybePadMinTimestamp s delta
            else set_raw_key s
                   (if c_pad_min_timestamp c
                    then spec (raw_key_ s) (OTrimAppendWithTimestamp shared delta (c_ts_sz c))
                    else spec (raw_key_ s) (OTrimAppend shared delta)) in
          let s := set_value s (p + non_shared, value_length) in
          if shared =? 0 then
            ri ← catch_up (S (Z.to_nat (c_num_restarts c))) (restart_index_ s) (current_ s);
            Some (true, false, set_pos s (current_ s) ri)
          else Some (true, true, s)
    end.

(** The loop of [BinarySeek]: [left] ([lo]), [right] ([hi]) and [*skip_linear_scan]; [inl]
    when it returns false. *)
Fixpoint BinarySeek_loop (fuel : nat) (DecodeKeyFunc : bytes -> Z -> Z -> option (option (Z * Z * Z)))
    (target : bytes) (lo hi : Z) (skip : bool) (s : St X) : option (St X + Z * bool * St X) :=
  if lo =? hi then Some (inr (lo, skip, s))
  else match fuel with
  | O => None
  | S fuel =>
      let mid := lo + Z.quot (hi - lo + 1) 2 in
      region_offset ← GetRestartPoint (u32 mid);
      r ← DecodeKeyFunc dat region_offset (c_restarts c);
      match r with
      | None => Some (inl (CorruptionError s bad_entry))
      | Some (key_ptr, shared, non_shared) =>
          if negb (shared =? 0) then Some (inl (CorruptionError s bad_entry))
          else
            mid_key ← bread dat key_ptr non_shared;
            let s := UpdateRawKeyAndMaybePadMinTimestamp s mid_key in
            let cmp := CompareCurrentKey s target in
            if cmp <? 0 then BinarySeek_loop fuel DecodeKeyFunc target mid hi skip s
            else if 0 <? cmp then BinarySeek_loop fuel DecodeKeyFunc target lo (mid - 1) skip s
            else BinarySeek_loop fuel DecodeKeyFunc target mid mid true s
      end
  end.

(** [inl]: false; [inr]: true, with [*index] and [*skip_linear_scan]. *)
Definition BinarySeek (DecodeKeyFunc : bytes -> Z -> Z -> option (option (Z * Z * Z)))
    (target : bytes) (s : St X) : option (St X + Z * bool * St X) :=
  if c_restarts c =? 0 then Some (inl s)
  else
    r ← BinarySeek_loop (S (Z.to_nat (c_num_restarts c))) DecodeKeyFunc target (-1)
          (c_num_restarts c - 1) false s;
    Some (match r with
          | inl s => inl s
          | inr (l, skip, s) => if l =? -1 then inr (0, true, s) else inr (u32 l, skip, s)
          end).

(** Every entry takes a byte, so that no scan is longer than the block. *)
Definition scan_fuel : nat := S (Z.to_nat (c_restarts c)).

(** The [while (true)] of [FindKeyAfterBinarySeek]. *)
Fixpoint linear_scan (fuel : nat) (NextImpl : St X -> option (St X)) (target : bytes) (max_offset : Z)
    (s : St X) : option (St X) :=
  match fuel with
  | O => None
  | S fuel =>
      s ← NextImpl s;
      if negb (Iter_Valid s) then Some s
      else if current_ s =? max_offset then Some s
      else if 0 <=? CompareCurrentKey s target then Some s
      else linear_scan fuel NextImpl target max_offset s
  end.

Definition FindKeyAfterBinarySeek (NextImpl : St X -> option (St X)) (target : bytes) (index : Z)
    (skip_linear_scan : bool) (s : St X) : option (St X) :=
  s ← SeekToRestartPoint s index;
  let s := set_idx s (s32 (u32 (index * c_block_restart_interval c)) - 1) in
  s ← NextImpl s;
  if negb skip_linear_scan then
    max_offset ← (if index + 1 <? c_num_restarts c then GetRestartPoint (index + 1) else Some (2 ^ 32 - 1));
    linear_scan scan_fuel NextImpl target max_offset s
  else Some s.

(** [while (GetRestartPoint(restart_index_) >= original)]; the flag says that
    there are no more entries. *)
Fixpoint back_up (fuel : nat) (original : Z) (s : St X) : option (bool * St X) :=
  match fuel with
  | O => None
  | S fuel =>
      p ← GetRestartPoint (restart_index_ s);
      if original <=? p then
        if restart_index_ s =? 0 then Some (true, set_pos s (c_restarts c) (c_num_restarts c))
        else back_up fuel original (set_pos s (current_ s) (restart_index_ s - 1))
      else Some (false, s)
  end.

(** [while (Parse() && NextEntryOffset() < bound) ++count]. *)
Fixpoint skip_to (fuel : nat) (Parse : St X -> option (bool * bool * St X)) (bound count : Z) (s : St X)
    : option (St X) :=
  match fuel with
  | O => None
  | S fuel =>
      r ← Parse s;
      let '(ok, _, s) := r in
      if ok && (NextEntryOffset s <? bound)
      then skip_to fuel Parse bound count (set_idx s (cur_entry_idx_ s + count))
      else Some s
  end.

(** [while (Valid() && CompareCurrentKey(seek_key) > 0) PrevImpl()]. *)
Fixpoint prev_loop (fuel : nat) (PrevImpl : St X -> option (St X)) (seek_key : bytes) (s : St X)
    : option (St X) :=
  if Iter_Valid s && (0 <? CompareCurrentKey s seek_key) then
    match fuel with
    | O => None
    | S fuel => s ← PrevImpl s; prev_loop fuel PrevImpl seek_key s
    end
  else Some s.

Definition UpdateKey (s : St X) : option (St X) :=
  if negb (Iter_Valid s) then Some s
  else
    let k := raw_key_ s in
    let s :=
      if a_user k then set_ukey s (raw_user_key s) (a_pinned k)
      else if c_global_seqno c =? kDisableGlobalSequenceNumber then set_ukey s (a_key k) (a_pinned k)
      else set_ukey s (raw_user_key s ++ EncodeFixed64
                         (PackSequenceAndType (c_global_seqno c) (ExtractValueType (a_key k)))) false in
    if 0 <? c_protection_bytes_per_key c then
      v ← value_bytes s;
      let off := c_protection_bytes_per_key c * cur_entry_idx_ s in
      sum ← bread (default [] (c_kv_checksum c)) off (c_protection_bytes_per_key c);
      if Verify (kv_val (ProtectKV 64 Hash64 (PI 0) (a_key k) v)) (c_protection_bytes_per_key c) sum
      then Some s else Some (PerKVChecksumCorruptionError s)
    else Some s.

(** Some functions of the base class, over the virtual functions they call. *)
Fixpoint count_next (fuel : nat) (NextImpl : St X -> option (St X)) (bound count : Z) (s : St X)
    : option (Z * St X) :=
  match fuel with
  | O => None
  | S fuel =>
      if (NextEntryOffset s <? bound) && ok (status_ s) then
        s ← NextImpl s;
        count_next fuel NextImpl bound (u32 (count + 1)) s
      else Some (count, s)
  end.

Definition GetRestartInterval (SeekToFirstImpl NextImpl : St X -> option (St X)) (s : St X)
    : option (Z * St X) :=
  if (c_num_restarts c <=? 1) || bool_decide (c_data c = None) then Some (0, s)
  else
    s ← SeekToFirstImpl s;
    end_index ← GetRestartPoint 1;
    count_next scan_fuel NextImpl end_index 1 s.

Definition NumberOfKeys (NextImpl : St X -> option (St X)) (block_restart_interval : Z) (s : St X)
    : option (Z * St X) :=
  if (c_num_restarts c =? 0) || bool_decide (c_data c = None) then Some (0, s)
  else
    let count := u32 ((c_num_restarts c - 1) * block_restart_interval) in
    s ← SeekToRestartPoint s (c_num_restarts c - 1);
    count_next scan_fuel NextImpl (c_restarts c) count s.

End BlockIter.

(** The state after construction and [InitializeBase]. *)
Definition St_init {X} (wild : Z) (c : Cfg) (is_user_key : bool) (x : X) : St X :=
  mkSt (c_num_restarts c) (c_restarts c) {| a_key := []; a_user := is_user_key; a_pinned := false |}
    (wild, 0) OK [] false (-1) x.

Definition InitializeBase (raw_ucmp : Comparator) (data : bytes) (restarts num_restarts global_seqno : Z)
    (block_contents_pinned user_defined_timestamp_persisted : bool) (protection_bytes_per_key : Z)
    (kv_checksum : option bytes) (block_restart_interval : Z) : Cfg :=
  let ts_sz := timestamp_size raw_ucmp in
  {| c_ucmp := raw_ucmp; c_data := Some data; c_restarts := restarts; c_num_restarts := num_restarts;
     c_global_seqno := global_seqno; c_ts_sz := ts_sz;
     c_pad_min_timestamp := (0 <? ts_sz) && negb user_defined_timestamp_persisted;
     c_kv_checksum := kv_checksum; c_block_restart_interval := block_restart_interval;
     c_protection_bytes_per_key := protection_bytes_per_key;
     c_block_contents_pinned := block_contents_pinned |}.

(** [Invalidate(s)] of a new iterator: no data, not valid, status [s]. *)
Definition Invalidate_cfg (ucmp : Comparator) : Cfg :=
  {| c_ucmp := ucmp; c_data := None; c_restarts := 0; c_num_restarts := 0; c_global_seqno := 0; c_ts_sz := 0;
     c_pad_min_timestamp := false; c_kv_checksum := None; c_block_restart_interval := 0;
     c_protection_bytes_per_key := 0; c_block_contents_pinned := false |}.

(** ** DataBlockIter *)

Record CachedPrevEntry := {
  pe_offset : Z;
  pe_key_ptr : option bytes;
  pe_key_offset : Z;
  pe_key_size : Z;
  pe_value : BSlice
}.

Record DataSub := {
  prev_entries_keys_buff_ : bytes;
  prev_entries_ : list CachedPrevEntry;
  prev_entries_idx_ : Z
}.

Definition DataSub_init : DataSub :=
  {| prev_entries_keys_buff_ := []; prev_entries_ := []; prev_entries_idx_ := -1 |}.

Module DataBlockIter.
Section Data.
Variable wild : Z.
Variable Hash64 : bytes -> Z -> Z.
Variable c : Cfg.
(** [num_buckets_] of [data_block_hash_index_], [None] when it is null. *)
Variable hash_index : option Z.

Definition It : Type := St DataSub.

Definition ParseNextDataKey (s : It) : option (bool * bool * It) := ParseNextKey wild c DecodeEntry s.

Definition NextImpl (s : It) : option It :=
  r ← ParseNextDataKey s;
  let '(_, _, s) := r in
  Some (set_idx s (cur_entry_idx_ s + 1)).

(** The [do ... while] that caches the entries before [original]. *)
Fixpoint cache_loop (fuel : nat) (original : Z) (s : It) : option It :=
  match fuel with
  | O => None
  | S fuel =>
      r ← ParseNextDataKey s;
      let '(ok, _, s) := r in
      if negb ok then Some s
      else
        let k := raw_key_ s in
        let x := sub_ s in
        let x :=
          if a_pinned k then
            {| prev_entries_keys_buff_ := prev_entries_keys_buff_ x;
               prev_entries_ := prev_entries_ x ++
                 [{| pe_offset := current_ s; pe_key_ptr := Some (a_key k); pe_key_offset := 0;
                     pe_key_size := slen (a_key k); pe_value := value_ s |}];
               prev_entries_idx_ := prev_entries_idx_ x |}
          else
            {| prev_entries_keys_buff_ := prev_entries_keys_buff_ x ++ a_key k;
               prev_entries_ := prev_entries_ x ++
                 [{| pe_offset := current_ s; pe_key_ptr := None;
                     pe_key_offset := slen (prev_entries_keys_buff_ x);
                     pe_key_size := slen (a_key k); pe_value := value_ s |}];
               prev_entries_idx_ := prev_entries_idx_ x |} in
        let s := set_sub s x in
        if NextEntryOffset s <? original then cache_loop fuel original s else Some s
  end.

Definition PrevImpl (s : It) : option It :=
  let s := set_idx s (cur_entry_idx_ s - 1) in
  let x := sub_ s in
  let hit :=
    if 0 <? prev_entries_idx_ x then
      match prev_entries_ x !! Z.to_nat (prev_entries_idx_ x) with
      | Some e => pe_offset e =? current_ s
      | None => false
      end
    else false in
  if hit then
    let idx := prev_entries_idx_ x - 1 in
    e ← prev_entries_ x !! Z.to_nat idx;
    let '(current_key, raw_key_cached) :=
      match pe_key_ptr e with
      | Some p => (Some (stake (pe_key_size e) p), false)
      | None => (bread (prev_entries_keys_buff_ x) (pe_key_offset e) (pe_key_size e), true)
      end in
    current_key ← current_key;
    let s := set_sub s {| prev_entries_keys_buff_ := prev_entries_keys_buff_ x;
                          prev_entries_ := prev_entries_ x; prev_entries_idx_ := idx |} in
    let s := set_pos s (pe_offset e) (restart_index_ s) in
    let s := set_raw_key s (spec (raw_key_ s) (OSetKey current_key raw_key_cached)) in
    Some (set_value s (pe_value e))
  else
    let s := set_sub s DataSub_init in
    let original := current_ s in
    r ← back_up c (S (Z.to_nat (restart_index_ s))) original s;
    let '(at_end, s) := r in
    if (at_end : bool) then Some s
    else
      s ← SeekToRestartPoint c s (restart_index_ s);
      s ← cache_loop (scan_fuel c) original s;
      let x := sub_ s in
      Some (set_sub s {| prev_entries_keys_buff_ := prev_entries_keys_buff_ x;
                         prev_entries_ := prev_entries_ x;
                         prev_entries_idx_ := slen (prev_entries_ x) - 1 |}).

Definition SeekImpl (target : bytes) (s : It) : option It :=
  match c_data c with
  | None => Some s
  | Some _ =>
      r ← BinarySeek wild c DecodeKey target s;
      match r with
      | inl s => Some s
      | inr (index, skip, s) => FindKeyAfterBinarySeek c NextImpl target index skip s
      end
  end.

Definition SeekToFirstImpl (s : It) : option It :=
  match c_data c with
  | None => Some s
  | Some _ =>
      s ← SeekToRestartPoint c s 0;
      r ← ParseNextDataKey s;
      let '(_, _, s) := r in
      Some (set_idx s 0)
  end.

Definition SeekToLastImpl (s : It) : option It :=
  match c_data c with
  | None => Some s
  | Some _ =>
      s ← SeekToRestartPoint c s (c_num_restarts c - 1);
      let s := set_idx s (s32 (u32 ((c_num_restarts c - 1) * c_block_restart_interval c))) in
      skip_to (scan_fuel c) ParseNextDataKey (c_restarts c) 1 s
  end.

Definition SeekForPrevImpl (target : bytes) (s : It) : option It :=
  match c_data c with
  | None => Some s
  | Some _ =>
      r ← BinarySeek wild c DecodeKey target s;
      match r with
      | inl s => Some s
      | inr (index, skip, s) =>
          s ← FindKeyAfterBinarySeek c NextImpl target index skip s;
          if negb (Iter_Valid c s)
          then if ok (status_ s) then SeekToLastImpl s else Some s
          else prev_loop c (scan_fuel c) PrevImpl target s
      end
  end.

(** The loop of [SeekForGetImpl]. *)
Fixpoint get_loop (fuel : nat) (target : bytes) (limit : Z) (s : It) : option It :=
  if current_ s <? limit then
    match fuel with
    | O => None
    | S fuel =>
        let s := set_idx s (cur_entry_idx_ s + 1) in
        r ← ParseNextDataKey s;
        let '(ok, _, s) := r in
        if negb ok || (0 <=? CompareCurrentKey c s target) then Some s
        else get_loop fuel target limit s
    end
  else Some s.

Definition get_supported (value_type : Z) : bool :=
  (value_type =? kTypeValue) || (value_type =? kTypeDeletion) || (value_type =? kTypeMerge) ||
  (value_type =? kTypeSingleDeletion) || (value_type =? kTypeBlobIndex) ||
  (value_type =? kTypeWideColumnEntity).

Definition SeekForGetImpl (num_buckets : Z) (target : bytes) (s : It) : option (bool * It) :=
  let target_user_key := ExtractUserKey target in
  let map_offset := u32 (c_restarts c + c_num_restarts c * 4) in
  entry ← HI_Lookup num_buckets (dat c) map_offset target_user_key;
  if entry =? kCollision then s ← SeekImpl target s; Some (true, s)
  else
    let restart_index := if entry =? kNoEntry then (c_num_restarts c - 1) mod 2 ^ 8 else entry in
    s ← SeekToRestartPoint c s restart_index;
    cur ← GetRestartPoint c restart_index;
    let s := set_pos s cur (restart_index_ s) in
    let s := set_idx s (s32 (u32 (restart_index * c_block_restart_interval c)) - 1) in
    limit ← (if restart_index + 1 <? c_num_restarts c then GetRestartPoint c (restart_index + 1)
             else Some (c_restarts c));
    s ← get_loop (S (scan_fuel c)) target limit s;
    if current_ s =? c_restarts c then Some (true, s)
    else if negb (Compare (c_ucmp c) (raw_user_key s) target_user_key =? 0) then Some (false, s)
    else if negb (get_supported (ExtractValueType (a_key (raw_key_ s))))
    then s ← SeekImpl target s; Some (true, s)
    else Some (true, s).

(** The public functions. *)
Definition SeekToFirst (s : It) : option It := s ← SeekToFirstImpl s; UpdateKey wild Hash64 c s.
Definition SeekToLast (s : It) : option It := s ← SeekToLastImpl s; UpdateKey wild Hash64 c s.
Definition Seek (target : bytes) (s : It) : option It := s ← SeekImpl target s; UpdateKey wild Hash64 c s.
Definition SeekForPrev (target : bytes) (s : It) : option It :=
  s ← SeekForPrevImpl target s; UpdateKey wild Hash64 c s.
Definition Next (s : It) : option It := s ← NextImpl s; UpdateKey wild Hash64 c s.
Definition Prev (s : It) : option It := s ← PrevImpl s; UpdateKey wild Hash64 c s.

Definition SeekForGet (target : bytes) (s : It) : option (bool * It) :=
  match hash_index with
  | None => s ← SeekImpl target s; s ← UpdateKey wild Hash64 c s; Some (true, s)
  | Some num_buckets =>
      r ← SeekForGetImpl num_buckets target s;
      let '(res, s) := r in
      s ← UpdateKey wild Hash64 c s;
      Some (res, s)
  end.

End Data.
End DataBlockIter.

(** ** MetaBlockIter *)

Module MetaBlockIter.
Section Meta.
Variable wild : Z.
Variable Hash64 : bytes -> Z -> Z.
Variable c : Cfg.

Definition It : Type := St unit.

Definition ParseNextMetaKey (s : It) : option (bool * bool * It) := ParseNextKey wild c CheckAndDecodeEntry s.

Definition NextImpl (s : It) : option It :=
  r ← ParseNextMetaKey s;
  let '(_, _, s) := r in
  Some (set_idx s (cur_entry_idx_ s + 1)).

Definition PrevImpl (s : It) : option It :=
  let original := current_ s in
  r ← back_up c (S (Z.to_nat (restart_index_ s))) original s;
  let '(at_end, s) := r in
  if (at_end : bool) then Some s
  else
    s ← SeekToRestartPoint c s (restart_index_ s);
    s ← skip_to (scan_fuel c) ParseNextMetaKey original 0 s;
    Some (set_idx s (cur_entry_idx_ s - 1)).

Definition SeekImpl (target : bytes) (s : It) : option It :=
  match c_data c with
  | None => Some s
  | Some _ =>
      r ← BinarySeek wild c DecodeKey target s;
      match r with
      | inl s => Some s
      | inr (index, skip, s) => FindKeyAfterBinarySeek c NextImpl target index skip s
      end
  end.

Definition SeekToFirstImpl (s : It) : option It :=
  match c_data c with
  | None => Some s
  | Some _ =>
      s ← SeekToRestartPoint c s 0;
      r ← ParseNextMetaKey s;
      let '(_, _, s) := r in
      Some (set_idx s 0)
  end.

Definition SeekToLastImpl (s : It) : option It :=
  match c_data c with
  | None => Some s
  | Some _ =>
      s ← SeekToRestartPoint c s (c_num_restarts c - 1);
      let s := set_idx s (s32 (u32 ((c_num_restarts c - 1) * c_block_restart_interval c))) in
      skip_to (scan_fuel c) ParseNextMetaKey (c_restarts c) 1 s
  end.

Definition SeekForPrevImpl (target : bytes) (s : It) : option It :=
  match c_data c with
  | None => Some s
  | Some _ =>
      r ← BinarySeek wild c DecodeKey target s;
      match r with
      | inl s => Some s
      | inr (index, skip, s) =>
          s ← FindKeyAfterBinarySeek c NextImpl target index skip s;
          if negb (Iter_Valid c s)
          then if ok (status_ s) then SeekToLastImpl s else Some s
          else prev_loop c (scan_fuel c) PrevImpl target s
      end
  end.

Definition SeekToFirst (s : It) : option It := s ← SeekToFirstImpl s; UpdateKey wild Hash64 c s.
Definition SeekToLast (s : It) : option It := s ← SeekToLastImpl s; UpdateKey wild Hash64 c s.
Definition Seek (target : bytes) (s : It) : option It := s ← SeekImpl target s; UpdateKey wild Hash64 c s.
Definition SeekForPrev (target : bytes) (s : It) : option It :=
  s ← SeekForPrevImpl target s; UpdateKey wild Hash64 c s.
Definition Next (s : It) : option It := s ← NextImpl s; UpdateKey wild Hash64 c s.
Definition Prev (s : It) : option It := s ← PrevImpl s; UpdateKey wild Hash64 c s.

(** [GetRestartInterval] and [NumberOfKeys] are overridden. *)
Definition Meta_GetRestartInterval (s : It) : Z * It := (1, s).
Definition Meta_NumberOfKeys (s : It) : Z * It := (c_num_restarts c, s).

End Meta.
End MetaBlockIter.

(** ** IndexBlockIter *)

Record IndexCfg := {
  value_delta_encoded_ : bool;
  have_first_key_ : bool;
  idx_global_seqno_ : option Z          (** [global_seqno_state_] *)
}.

Module IndexBlockIter.
Section Index.
Variable wild : Z.
Variable Hash64 : bytes -> Z -> Z.
Variable c : Cfg.
Variable ic : IndexCfg.

(** The member is [decoded_value_]. *)
Definition It : Type := St IndexValue.

Definition DecodeCurrentValue (is_shared : bool) (s : It) : option It :=
  let voff := fst (value_ s) in
  v ← bread (dat c) voff (c_restarts c - voff);
  let old := sub_ s in
  let '(_, d, rest) :=
    IndexValue_DecodeFrom old v (have_first_key_ ic)
      (if value_delta_encoded_ ic && is_shared then Some (iv_handle old) else None) in
  let s := set_value s (voff, slen v - slen rest) in
  let d :=
    match idx_global_seqno_ ic with
    | None => d
    | Some g =>
        let k := spec {| a_key := []; a_user := false; a_pinned := false |}
                   (OSetInternalKey (iv_first_internal_key d) true) in
        let value_type := ExtractValueType (a_key k) in
        let k := spec k (OUpdateInternalKey g value_type None) in
        IV (iv_handle d) (a_key k)
    end in
  let d :=
    if c_pad_min_timestamp c && negb (slen (iv_first_internal_key d) =? 0)
    then IV (iv_handle d) (PadInternalKeyWithMinTimestamp [] (iv_first_internal_key d) (c_ts_sz c))
    else d in
  Some (set_sub s d).

Definition decodes_value : bool :=
  value_delta_encoded_ ic || bool_decide (idx_global_seqno_ ic <> None) || c_pad_min_timestamp c.

Definition ParseNextIndexKey (s : It) : option (bool * bool * It) :=
  r ← (if value_delta_encoded_ ic then ParseNextKey wild c DecodeEntryV4 s
       else ParseNextKey wild c DecodeEntry s);
  let '(ok, is_shared, s) := r in
  if ok && decodes_value then
    s ← DecodeCurrentValue is_shared s;
    Some (ok, is_shared, s)
  else Some (ok, is_shared, s).

Definition NextImpl (s : It) : option It :=
  r ← ParseNextIndexKey s;
  let '(_, _, s) := r in
  Some (set_idx s (cur_entry_idx_ s + 1)).

Definition PrevImpl (s : It) : option It :=
  let original := current_ s in
  r ← back_up c (S (Z.to_nat (restart_index_ s))) original s;
  let '(at_end, s) := r in
  if (at_end : bool) then Some s
  else
    s ← SeekToRestartPoint c s (restart_index_ s);
    s ← skip_to (scan_fuel c) ParseNextIndexKey original 0 s;
    Some (set_idx s (cur_entry_idx_ s - 1)).

Definition SeekImpl (target : bytes) (s : It) : option It :=
  match c_data c with
  | None => Some s
  | Some _ =>
      let seek_key := if a_user (raw_key_ s) then ExtractUserKey target else target in
      let s := set_status s OK in
      r ← (if value_delta_encoded_ ic then BinarySeek wild c DecodeKeyV4 seek_key s
           else BinarySeek wild c DecodeKey seek_key s);
      match r with
      | inl s => Some s
      | inr (index, skip, s) => FindKeyAfterBinarySeek c NextImpl seek_key index skip s
      end
  end.

Definition SeekForPrevImpl (s : It) : It :=
  let s := set_pos s (c_restarts c) (c_num_restarts c) in
  let s := set_status s (InvalidArgument
    "RocksDB internal error: should never call SeekForPrev() on index blocks") in
  let s := set_raw_key s (spec (raw_key_ s) OClear) in
  set_value s (wild, 0).

Definition SeekToFirstImpl (s : It) : option It :=
  match c_data c with
  | None => Some s
  | Some _ =>
      let s := set_status s OK in
      s ← SeekToRestartPoint c s 0;
      r ← ParseNextIndexKey s;
      let '(_, _, s) := r in
      Some (set_idx s 0)
  end.

Definition SeekToLastImpl (s : It) : option It :=
  match c_data c with
  | None => Some s
  | Some _ =>
      let s := set_status s OK in
      s ← SeekToRestartPoint c s (c_num_restarts c - 1);
      let s := set_idx s (s32 (u32 ((c_num_restarts c - 1) * c_block_restart_interval c))) in
      skip_to (scan_fuel c) ParseNextIndexKey (c_restarts c) 1 s
  end.

(** [value()] *)
Definition index_value (s : It) : option IndexValue :=
  if decodes_value then Some (sub_ s)
  else
    v ← value_bytes c s;
    let '(_, entry, _) := IndexValue_DecodeFrom (IV BlockHandle_default []) v (have_first_key_ ic) None in
    Some entry.

Definition SeekToFirst (s : It) : option It := s ← SeekToFirstImpl s; UpdateKey wild Hash64 c s.
Definition SeekToLast (s : It) : option It := s ← SeekToLastImpl s; UpdateKey wild Hash64 c s.
Definition Seek (target : bytes) (s : It) : option It := s ← SeekImpl target s; UpdateKey wild Hash64 c s.
Definition Next (s : It) : option It := s ← NextImpl s; UpdateKey wild Hash64 c s.
Definition Prev (s : It) : option It := s ← PrevImpl s; UpdateKey wild Hash64 c s.

End Index.
End IndexBlockIter.

(** ** Iterators of a block, and per-entry checksums *)

Section Blocks.
Variable wild : Z.
Variable Hash64 : bytes -> Z -> Z.

(** An iterator with its configuration; [hash_index] of a data iterator. *)
Definition NewDataIterator (blk : Block) (raw_ucmp : Comparator) (global_seqno : Z)
    (block_contents_pinned user_defined_timestamps_persisted : bool)
    : Cfg * option Z * DataBlockIter.It :=
  if size_ blk <? 2 * 4 then
    let c := Invalidate_cfg raw_ucmp in
    (c, None, set_status (St_init wild c false DataSub_init) (Corruption "bad block contents"))
  else if b_num_restarts_ blk =? 0 then
    let c := Invalidate_cfg raw_ucmp in (c, None, St_init wild c false DataSub_init)
  else
    let c := InitializeBase raw_ucmp (b_data blk) (restart_offset_ blk) (b_num_restarts_ blk) global_seqno
               block_contents_pinned user_defined_timestamps_persisted (b_protection_bytes_per_key_ blk)
               (b_kv_checksum_ blk) (b_block_restart_interval_ blk) in
    (c, if b_num_buckets_ blk =? 0 then None else Some (b_num_buckets_ blk), St_init wild c false DataSub_init).

Definition NewMetaIterator (blk : Block) (block_contents_pinned : bool) : Cfg * MetaBlockIter.It :=
  if size_ blk <? 2 * 4 then
    let c := Invalidate_cfg BytewiseComparator in
    (c, set_status (St_init wild c true tt) (Corruption "bad block contents"))
  else if b_num_restarts_ blk =? 0 then
    let c := Invalidate_cfg BytewiseComparator in (c, St_init wild c true tt)
  else
    let c := InitializeBase BytewiseComparator (b_data blk) (restart_offset_ blk) (b_num_restarts_ blk)
               kDisableGlobalSequenceNumber block_contents_pinned true (b_protection_bytes_per_key_ blk)
               (b_kv_checksum_ blk) (b_block_restart_interval_ blk) in
    (c, St_init wild c true tt).

Definition NewIndexIterator (blk : Block) (raw_ucmp : Comparator) (global_seqno : Z)
    (have_first_key key_includes_seq value_is_full block_contents_pinned user_defined_timestamps_persisted : bool)
    : Cfg * IndexCfg * IndexBlockIter.It :=
  let ic := {| value_delta_encoded_ := negb value_is_full; have_first_key_ := have_first_key;
               idx_global_seqno_ :=
                 if have_first_key && negb (global_seqno =? kDisableGlobalSequenceNumber)
                 then Some global_seqno else None |} in
  let v0 := IV BlockHandle_default [] in
  if size_ blk <? 2 * 4 then
    let c := Invalidate_cfg raw_ucmp in
    (c, ic, set_status (St_init wild c (negb key_includes_seq) v0) (Corruption "bad block contents"))
  else if b_num_restarts_ blk =? 0 then
    let c := Invalidate_cfg raw_ucmp in (c, ic, St_init wild c (negb key_includes_seq) v0)
  else
    let c := InitializeBase raw_ucmp (b_data blk) (restart_offset_ blk) (b_num_restarts_ blk)
               kDisableGlobalSequenceNumber block_contents_pinned user_defined_timestamps_persisted
               (b_protection_bytes_per_key_ blk) (b_kv_checksum_ blk) (b_block_restart_interval_ blk) in
    (c, ic, St_init wild c (negb key_includes_seq) v0).

Definition GenerateKVChecksum (checksum_len : Z) (key value : bytes) : option bytes :=
  Encode (kv_val (ProtectKV 64 Hash64 (PI 0) key value)) checksum_len.

(** The loop over all entries that fills [kv_checksum_], a buffer of [size]
    bytes; a write behind its end is [None]. *)
Fixpoint checksum_loop {X} (fuel : nat) (c : Cfg) (Next : St X -> option (St X)) (protection_bytes_per_key size : Z)
    (sums : bytes) (s : St X) : option (bytes * St X) :=
  if Iter_Valid c s then
    match fuel with
    | O => None
    | S fuel =>
        v ← value_bytes c s;
        sum ← GenerateKVChecksum protection_bytes_per_key (ukey_ s) v;
        if slen sums + slen sum <=? size then
          s ← Next s;
          checksum_loop fuel c Next protection_bytes_per_key size (sums ++ sum) s
        else None
    end
  else Some (sums, s).

Definition with_protection (blk : Block) (size prot : Z) (sums : option bytes) (sum_size interval : Z) : Block :=
  {| b_data := b_data blk; size_ := size; restart_offset_ := restart_offset_ blk;
     b_num_restarts_ := b_num_restarts_ blk; b_num_buckets_ := b_num_buckets_ blk;
     b_kv_checksum_ := sums; checksum_size_ := sum_size; b_block_restart_interval_ := interval;
     b_protection_bytes_per_key_ := prot |}.

(** What the three functions do with their iterator. *)
Definition initialize_protection {X} (blk : Block) (protection_bytes_per_key : Z) (c : Cfg) (s : St X)
    (GetRestartInterval : St X -> option (Z * St X)) (NumberOfKeys : Z -> St X -> option (Z * St X))
    (SeekToFirst Next : St X -> option (St X)) : option Block :=
  r ← (if ok (status_ s) then GetRestartInterval s else Some (b_block_restart_interval_ blk, s));
  let '(interval, s) := r in
  r ← (if ok (status_ s) then NumberOfKeys interval s else Some (0, s));
  let '(num_keys, s) := r in
  r ← (if ok (status_ s) then
         let size := u32 (num_keys * protection_bytes_per_key) in
         s ← SeekToFirst s;
         r ← checksum_loop (scan_fuel c) c Next protection_bytes_per_key size [] s;
         let '(sums, s) := r in
         Some (Some sums, size, s)
       else Some (b_kv_checksum_ blk, checksum_size_ blk, s));
  let '(sums, sum_size, s) := r in
  if negb (ok (status_ s)) then Some (with_protection blk 0 0 sums sum_size interval)
  else Some (with_protection blk (size_ blk) protection_bytes_per_key sums sum_size interval).

Definition no_protection (blk : Block) : Block :=
  with_protection blk (size_ blk) 0 (b_kv_checksum_ blk) (checksum_size_ blk) (b_block_restart_interval_ blk).

Definition InitializeDataBlockProtectionInfo (blk : Block) (protection_bytes_per_key : Z)
    (raw_ucmp : Comparator) : option Block :=
  let blk := no_protection blk in
  if (0 <? protection_bytes_per_key) && (0 <? b_num_restarts_ blk) then
    let '(c, _, s) := NewDataIterator blk raw_ucmp kDisableGlobalSequenceNumber true true in
    initialize_protection blk protection_bytes_per_key c s
      (GetRestartInterval c (DataBlockIter.SeekToFirstImpl wild c) (DataBlockIter.NextImpl wild c))
      (NumberOfKeys c (DataBlockIter.NextImpl wild c))
      (DataBlockIter.SeekToFirst wild Hash64 c) (DataBlockIter.Next wild Hash64 c)
  else Some blk.

Definition InitializeIndexBlockProtectionInfo (blk : Block) (protection_bytes_per_key : Z)
    (raw_ucmp : Comparator) (value_is_full index_has_first_key : bool) : option Block :=
  let blk := no_protection blk in
  if (0 <? b_num_restarts_ blk) && (0 <? protection_bytes_per_key) then
    let '(c, ic, s) := NewIndexIterator blk raw_ucmp kDisableGlobalSequenceNumber index_has_first_key false
                         value_is_full true true in
    initialize_protection blk protection_bytes_per_key c s
      (GetRestartInterval c (IndexBlockIter.SeekToFirstImpl wild c ic) (IndexBlockIter.NextImpl wild c ic))
      (NumberOfKeys c (IndexBlockIter.NextImpl wild c ic))
      (IndexBlockIter.SeekToFirst wild Hash64 c ic) (IndexBlockIter.Next wild Hash64 c ic)
  else Some blk.

Definition InitializeMetaIndexBlockProtectionInfo (blk : Block) (protection_bytes_per_key : Z) : option Block :=
  let blk := no_protection blk in
  if (0 <? b_num_restarts_ blk) && (0 <? protection_bytes_per_key) then
    let '(c, s) := NewMetaIterator blk true in
    initialize_protection blk protection_bytes_per_key c s
      (fun s => Some (MetaBlockIter.Meta_GetRestartInterval s))
      (fun _ s => Some (MetaBlockIter.Meta_NumberOfKeys c s))
      (MetaBlockIter.SeekToFirst wild Hash64 c) (MetaBlockIter.Next wild Hash64 c)
  else Some blk.

End Blocks.
