(* ===== verification/BlockIter.v ===== *)
(** * Correctness of the block iterators

    For a block whose bytes have a [layout] (which [BlockBuilder] produces), the
    operations of the iterators are proved to move a cursor over the list of
    entries: the generic part of this file is about [BlockIter<TValue>], for any
    subclass whose parse function meets [Parse_ok]; then come the three
    subclasses. *)

From S2P Require Import Prelude Coding Slice Comparator DbFormat IterKey KvChecksum TableFormat BlockBuilder Block.

(** ** Bytes of a block *)

Lemma bread_app data pre mid post off n :
  data = pre ++ mid ++ post -> slen pre = off -> slen mid = n -> bread data off n = Some mid.
Proof.
  intros -> Hp Hm. unfold bread. rewrite !slen_app. slen_facts.
  destruct (Z.leb_spec 0 off); [|lia]. destruct (Z.leb_spec 0 n); [|lia].
  destruct (Z.leb_spec (off + n) (slen pre + (slen mid + slen post))); [|lia]. cbn.
  by rewrite sdrop_app, stake_app.
Qed.

Lemma concat_fixed32_split rs j x : rs !! j = Some x ->
  exists a b, concat (EncodeFixed32 <$> rs) = a ++ EncodeFixed32 x ++ b /\ slen a = 4 * Z.of_nat j.
Proof.
  intros Hj. exists (concat (EncodeFixed32 <$> take j rs)), (concat (EncodeFixed32 <$> drop (S j) rs)). split.
  - rewrite <- (take_drop_middle _ _ _ Hj) at 1. rewrite fmap_app, concat_app. done.
  - rewrite slen_restarts. apply lookup_lt_Some in Hj. unfold slen. rewrite length_take. lia.
Qed.

Lemma enc_ents_split v4 es i e : es !! i = Some e ->
  enc_ents v4 es = enc_ents v4 (take i es) ++ enc_ent v4 e ++ enc_ents v4 (drop (S i) es).
Proof.
  intros Hi. rewrite <- (take_drop_middle _ _ _ Hi) at 1. rewrite enc_ents_app. f_equal.
Qed.

Lemma varint32_first v rest : is_u32 v ->
  exists b bs, EncodeVarint32 v ++ rest = b :: bs /\ (ub b < 128 -> v = ub b /\ bs = rest).
Proof.
  intros Hv. rewrite EncodeVarint32_loop by done. change 4%nat with (S 3). rewrite encode_loop_S.
  destruct (Z.leb_spec 128 v).
  - eexists _, _. split; [done|]. rewrite ub_cont_byte. pose proof (Z.mod_pos_bound v 128). lia.
  - eexists _, _. split; [done|]. unfold is_u32 in Hv. rewrite ub_to_byte by lia. done.
Qed.

Lemma lor_lt_128 a b : 0 <= a -> 0 <= b -> Z.lor a b < 128 -> a < 128 /\ b < 128.
Proof.
  intros Ha Hb H. assert (forall x y, 0 <= x -> 0 <= y -> x <= Z.lor x y) as Hle.
  { intros x y Hx Hy. apply Z.ldiff_le.
    - by apply Z.lor_nonneg.
    - apply Z.bits_inj'. intros i Hi. rewrite Z.ldiff_spec, Z.lor_spec, Z.bits_0.
      destruct (Z.testbit x i); [cbn|done]. done. }
  pose proof (Hle a b Ha Hb). pose proof (Hle b a Hb Ha) as Hb'. rewrite Z.lor_comm in Hb'. lia.
Qed.

(** ** The generic iterator *)

Section Layout.

Variable wild : Z.
Variable c : Cfg.
Variable v4 : bool.
Variable r : nat.
Variable es : list Ent.
Variable rs : list Z.
Variable tail : bytes.
(** Whether the keys of the block are user keys. *)
Variable uk : bool.

Let data := enc_ents v4 es ++ concat (EncodeFixed32 <$> rs) ++ tail.

Hypothesis Hlay : layout v4 r es rs.
Hypothesis Hdata : c_data c = Some data.
Hypothesis Hrestarts : c_restarts c = slen (enc_ents v4 es).
Hypothesis Hnum : c_num_restarts c = slen rs.
(** "We don't support blocks bigger than 2GB". *)
Hypothesis Hsize : slen data < 2 ^ 31.
(** Values are not empty when their size is not stored. *)
Hypothesis Hv4 : v4 = true -> Forall (fun e => 0 < slen (e_val e)) es.
(** Internal keys are long enough for a timestamp to be padded. *)
Hypothesis Hpad : c_pad_min_timestamp c = true ->
  0 <= c_ts_sz c /\ (uk = false -> Forall (fun e => kNumInternalBytes <= slen (e_key e)) es).

(** The key that is seen for a stored key. *)
Definition disp (k : bytes) : bytes :=
  if c_pad_min_timestamp c then
    if uk then AppendKeyWithMinTimestamp [] k (c_ts_sz c)
    else PadInternalKeyWithMinTimestamp [] k (c_ts_sz c)
  else k.

Lemma dat_data : dat c = data.
Proof. unfold dat. by rewrite Hdata. Qed.

Lemma length_rs : length rs = nrestarts r (length es).
Proof. rewrite (lay_rs _ _ _ _ Hlay). by rewrite length_fmap, length_seq. Qed.

Lemma num_pos : 0 < c_num_restarts c.
Proof. rewrite Hnum. unfold slen. rewrite length_rs. pose proof (nrestarts_pos r (length es)). lia. Qed.

Lemma rs_lookup j : (j < length rs)%nat -> rs !! j = Some (offs v4 es (j * r)).
Proof.
  intros Hj. rewrite length_rs in Hj. rewrite (lay_rs _ _ _ _ Hlay).
  rewrite list_lookup_fmap, lookup_seq_lt by done. done.
Qed.

(** A restart point is an entry, unless the block is empty. *)
Lemma restart_entry j : (0 < length es)%nat -> (j < length rs)%nat -> (j * r < length es)%nat.
Proof.
  intros Hlen Hj. rewrite length_rs in Hj. pose proof (lay_pos _ _ _ _ Hlay) as Hr.
  destruct (length es) as [|n]; [lia|]. cbn in Hj.
  pose proof (Nat.div_mod n r ltac:(lia)). nia.
Qed.

Lemma offs_le_all i : offs v4 es i <= slen (enc_ents v4 es).
Proof.
  unfold offs. rewrite <- (take_drop i es) at 2. rewrite enc_ents_app, slen_app. slia.
Qed.

Lemma offs_lt i j : (i < j <= length es)%nat -> offs v4 es i < offs v4 es j.
Proof.
  intros [Hij Hj]. induction j as [|j IH]; [lia|].
  destruct (lookup_lt_is_Some_2 es j) as [e He]; [lia|].
  rewrite (offs_S _ _ _ e) by done. pose proof (enc_ent_pos v4 e).
  destruct (decide (i = j)) as [->|]; [lia|]. specialize (IH ltac:(lia) ltac:(lia)). lia.
Qed.

Lemma offs_inj i j : (i <= length es)%nat -> (j <= length es)%nat -> offs v4 es i = offs v4 es j -> i = j.
Proof.
  intros Hi Hj H. destruct (lt_eq_lt_dec i j) as [[Hlt|]|Hlt]; [|done|].
  - pose proof (offs_lt i j ltac:(lia)). lia.
  - pose proof (offs_lt j i ltac:(lia)). lia.
Qed.

Lemma length_es_le : Z.of_nat (length es) <= slen (enc_ents v4 es).
Proof.
  assert (forall i, (i <= length es)%nat -> Z.of_nat i <= offs v4 es i) as H.
  { induction i as [|i IH]; intros Hi; [done|]. pose proof (offs_lt i (S i) ltac:(lia)). lia. }
  specialize (H (length es) ltac:(lia)). by rewrite offs_all in H by lia.
Qed.

Lemma enc_size : slen (enc_ents v4 es) + 4 * slen rs <= slen data.
Proof. unfold data. rewrite !slen_app, slen_restarts. slia. Qed.

Lemma offs_u32 i : is_u32 (offs v4 es i).
Proof.
  pose proof (offs_le_all i). pose proof enc_size. unfold is_u32, offs in *. slia.
Qed.

Lemma GetRestartPoint_ok j : (j < length rs)%nat -> GetRestartPoint c (Z.of_nat j) = Some (offs v4 es (j * r)).
Proof.
  intros Hj. unfold GetRestartPoint. rewrite dat_data.
  destruct (concat_fixed32_split rs j _ (rs_lookup j Hj)) as (a & b & Hab & Ha).
  erewrite bread_app; first last.
  - apply slen_EncodeFixed32.
  - instantiate (1 := enc_ents v4 es ++ a). rewrite slen_app, Ha, Hrestarts. lia.
  - unfold data. rewrite Hab, <- !app_assoc. done.
  - cbn [mbind option_bind]. rewrite <- (app_nil_r (EncodeFixed32 _)), DecodeFixed32_Encode by apply offs_u32. done.
Qed.

Lemma GetRestartPoint_Z j : 0 <= j < c_num_restarts c ->
  GetRestartPoint c j = Some (offs v4 es (Z.to_nat j * r)).
Proof.
  intros Hj. rewrite <- GetRestartPoint_ok by (rewrite Hnum in Hj; unfold slen in Hj; lia).
  by rewrite Z2Nat.id by lia.
Qed.

(** *** Decoding an entry *)

Definition hdr_len (e : Ent) : Z := slen (enc_hdr v4 e).

Lemma ent_facts i e : es !! i = Some e ->
  0 <= e_shared e <= slen (e_key e) /\ is_u32 (e_shared e) /\ is_u32 (slen (e_key e) - e_shared e) /\
  is_u32 (slen (e_val e)).
Proof.
  intros He. destruct (lay_ent _ _ _ _ Hlay i e He) as (H1 & H2 & H3 & _).
  pose proof (slen_nonneg (e_val e)). unfold is_u32. split_and!; lia.
Qed.

Lemma slen_enc_ent_parts i e : es !! i = Some e ->
  slen (enc_ent v4 e) = hdr_len e + (slen (e_key e) - e_shared e) + slen (e_val e).
Proof.
  intros He. destruct (ent_facts i e He) as (H1 & _). unfold enc_ent, hdr_len.
  rewrite !slen_app, slen_sdrop by lia. lia.
Qed.

(** What lies behind the offset of an entry, and up to the restart array. *)
Lemma data_at i e : es !! i = Some e -> exists rest,
  sdrop (offs v4 es i) data = enc_ent v4 e ++ rest /\
  stake (c_restarts c - offs v4 es i) (sdrop (offs v4 es i) data) = enc_ent v4 e ++ enc_ents v4 (drop (S i) es) /\
  c_restarts c = offs v4 es i + slen (enc_ent v4 e) + slen (enc_ents v4 (drop (S i) es)).
Proof.
  intros He. exists (enc_ents v4 (drop (S i) es) ++ concat (EncodeFixed32 <$> rs) ++ tail).
  assert (data = enc_ents v4 (take i es) ++ (enc_ent v4 e ++ enc_ents v4 (drop (S i) es)) ++
    concat (EncodeFixed32 <$> rs) ++ tail) as Hd.
  { unfold data. rewrite (enc_ents_split v4 es i e He), <- !app_assoc. done. }
  assert (c_restarts c = offs v4 es i + slen (enc_ent v4 e) + slen (enc_ents v4 (drop (S i) es))) as Hr.
  { rewrite Hrestarts, (enc_ents_split v4 es i e He), !slen_app. unfold offs. lia. }
  rewrite Hd, sdrop_app by done. split; [by rewrite <- app_assoc|]. split; [|done].
  apply stake_app. rewrite slen_app. lia.
Qed.

(** [getv] reads a varint that lies before the restart array. *)
Lemma getv_ok p v rest : is_u32 v -> 0 <= p ->
  stake (c_restarts c - p) (sdrop p data) = EncodeVarint32 v ++ rest ->
  getv data p (c_restarts c) = Some (v, c_restarts c - slen rest).
Proof.
  intros Hv Hp Hd. unfold getv. rewrite Hd. change GetVarint32Ptr with GetVarint32.
  by rewrite GetVarint32_Encode.
Qed.

Lemma stake_sdrop_next p a rest : 0 <= p ->
  stake (c_restarts c - p) (sdrop p data) = a ++ rest ->
  stake (c_restarts c - (p + slen a)) (sdrop (p + slen a) data) = rest.
Proof.
  intros Hp H. pose proof (slen_nonneg a).
  apply (f_equal (sdrop (slen a))) in H. rewrite sdrop_app in H by done. rewrite <- H.
  unfold stake, sdrop. rewrite skipn_firstn_comm, drop_drop. f_equal; [lia|]. f_equal. lia.
Qed.

Lemma at_stake (b : bytes) n k : (k < n)%nat -> at_ (stake (Z.of_nat n) b) k = at_ b k.
Proof. intros. unfold at_, stake. rewrite Nat2Z.id. by rewrite lookup_take_lt. Qed.

Lemma at_nonneg l k : 0 <= at_ l k.
Proof. unfold at_. destruct (l !! k) as [x|]; [|done]. cbn. pose proof (byte.unsigned_range x). lia. Qed.

(** A first byte below 128 is the whole varint. *)
Lemma one_byte v rest : is_u32 v -> at_ (EncodeVarint32 v ++ rest) 0 < 128 ->
  at_ (EncodeVarint32 v ++ rest) 0 = v /\ slen (EncodeVarint32 v) = 1 /\
  forall k, at_ (EncodeVarint32 v ++ rest) (S k) = at_ rest k.
Proof.
  intros Hv H0. destruct (varint32_first v rest Hv) as (x & xs & Ex & Hx).
  rewrite Ex, at_cons_0 in H0. destruct (Hx H0) as [-> ->]. rewrite Ex. split; [apply at_cons_0|].
  split; [|intros; apply at_cons_S]. apply (f_equal slen) in Ex. rewrite slen_app, slen_cons in Ex. lia.
Qed.

(** The fast paths: bytes below 128 are the values. *)
Lemma fast_two a b rest bs : is_u32 a -> is_u32 b ->
  bs = EncodeVarint32 a ++ EncodeVarint32 b ++ rest -> Z.lor (at_ bs 0) (at_ bs 1) < 128 ->
  at_ bs 0 = a /\ at_ bs 1 = b /\ slen (EncodeVarint32 a) = 1 /\ slen (EncodeVarint32 b) = 1 /\
  forall k, at_ bs (S (S k)) = at_ rest k.
Proof.
  intros Ha Hb -> Hlt. destruct (lor_lt_128 _ _ (at_nonneg _ _) (at_nonneg _ _) Hlt) as [H0 H1].
  destruct (one_byte a _ Ha H0) as (Ea & La & Ra). rewrite Ra in H1.
  destruct (one_byte b _ Hb H1) as (Eb & Lb & Rb). split_and!; try done; [by rewrite Ra|].
  intros k. by rewrite Ra, Rb.
Qed.

Lemma fast_three a b d rest bs : is_u32 a -> is_u32 b -> is_u32 d ->
  bs = EncodeVarint32 a ++ EncodeVarint32 b ++ EncodeVarint32 d ++ rest ->
  Z.lor (Z.lor (at_ bs 0) (at_ bs 1)) (at_ bs 2) < 128 ->
  at_ bs 0 = a /\ at_ bs 1 = b /\ at_ bs 2 = d /\
  slen (EncodeVarint32 a) = 1 /\ slen (EncodeVarint32 b) = 1 /\ slen (EncodeVarint32 d) = 1.
Proof.
  intros Ha Hb Hd Hbs Hlt.
  destruct (lor_lt_128 _ _ (proj2 (Z.lor_nonneg _ _) (conj (at_nonneg _ _) (at_nonneg _ _)))
    (at_nonneg _ _) Hlt) as [H01 H2].
  destruct (fast_two a b _ bs Ha Hb Hbs H01) as (Ea & Eb & La & Lb & R). rewrite R in H2.
  destruct (one_byte d _ Hd H2) as (Ed & Ld & _). split_and!; try done. by rewrite R.
Qed.

Lemma slen_hdr_false e : is_u32 (e_shared e) -> is_u32 (slen (e_key e) - e_shared e) -> is_u32 (slen (e_val e)) ->
  slen (enc_hdr false e) = slen (EncodeVarint32 (e_shared e)) + slen (EncodeVarint32 (slen (e_key e) - e_shared e)) +
    slen (EncodeVarint32 (slen (e_val e))) /\ 3 <= slen (enc_hdr false e).
Proof.
  intros Ha Hb Hd. unfold enc_hdr. rewrite !slen_app.
  assert (forall v, 1 <= slen (EncodeVarint32 v)) as H.
  { intros v. unfold EncodeVarint32. repeat case_match; rewrite ?slen_cons; slia. }
  pose proof (H (e_shared e)). pose proof (H (slen (e_key e) - e_shared e)). pose proof (H (slen (e_val e))). lia.
Qed.

Lemma DecodeEntry_ok i e : v4 = false -> es !! i = Some e ->
  DecodeEntry data (offs v4 es i) (c_restarts c) =
  Some (Some (offs v4 es i + hdr_len e, e_shared e, slen (e_key e) - e_shared e, slen (e_val e))).
Proof.
  intros Hf He. destruct (ent_facts i e He) as (Hs & Ha & Hb & Hd).
  destruct (data_at i e He) as (rest & Hdrop & Hstake & Hrest).
  set (p := offs v4 es i) in *. assert (0 <= p) as Hp by apply offs_u32.
  unfold hdr_len, enc_ent in *. rewrite Hf in *.
  destruct (slen_hdr_false e Ha Hb Hd) as [Hh1 Hh3]. unfold enc_hdr in *.
  cbv beta iota zeta in Hdrop, Hstake, Hrest, Hh1, Hh3 |- *. rewrite <- !app_assoc in *.
  set (V1 := EncodeVarint32 (e_shared e)) in *. set (V2 := EncodeVarint32 (slen (e_key e) - e_shared e)) in *.
  set (V3 := EncodeVarint32 (slen (e_val e))) in *.
  unfold DecodeEntry, bread. rewrite Hdrop.
  assert (p + 3 <= slen data) as Hin.
  { apply (f_equal slen) in Hdrop. rewrite !slen_app in Hdrop. rewrite !slen_app in Hh3.
    destruct (Z.leb_spec p (slen data)) as [Hle|Hgt]; [rewrite slen_sdrop in Hdrop by lia; slia|].
    rewrite sdrop_all in Hdrop by lia. change (@slen byte []) with 0 in Hdrop. slia. }
  destruct (Z.leb_spec 0 p); [|lia]. destruct (Z.leb_spec (p + 3) (slen data)); [|lia].
  cbn [andb mbind option_bind Z.leb Z.compare]. rewrite !slen_app in Hrest. rewrite !slen_app.
  change 3 with (Z.of_nat 3). rewrite !at_stake by lia.
  destruct (Z.ltb_spec (Z.lor (Z.lor
    (at_ (V1 ++ V2 ++ V3 ++ sdrop (e_shared e) (e_key e) ++ e_val e ++ rest) 0)
    (at_ (V1 ++ V2 ++ V3 ++ sdrop (e_shared e) (e_key e) ++ e_val e ++ rest) 1))
    (at_ (V1 ++ V2 ++ V3 ++ sdrop (e_shared e) (e_key e) ++ e_val e ++ rest) 2)) 128) as [Hlt|_].
  - destruct (fast_three _ _ _ _ _ Ha Hb Hd eq_refl Hlt) as (E1 & E2 & E3 & H1 & H2 & H3).
    fold V1 V2 V3 in E1, E2, E3, H1, H2, H3. rewrite E1, E2, E3. repeat f_equal. lia.
  - unfold get_three. pose proof (slen_nonneg V1). pose proof (slen_nonneg V2).
    rewrite (getv_ok p _ _ Ha Hp Hstake).
    pose proof (stake_sdrop_next p V1 _ Hp Hstake) as Hs2.
    replace (c_restarts c - _) with (p + slen V1) by (rewrite !slen_app; lia).
    rewrite (getv_ok (p + slen V1) _ _ Hb ltac:(lia) Hs2).
    pose proof (stake_sdrop_next (p + slen V1) V2 _ ltac:(lia) Hs2) as Hs3.
    replace (c_restarts c - _) with (p + slen V1 + slen V2) by (rewrite !slen_app; lia).
    rewrite (getv_ok (p + slen V1 + slen V2) _ _ Hd ltac:(lia) Hs3).
    repeat f_equal. rewrite !slen_app. lia.
Qed.

Lemma DecodeKey_ok i e : v4 = false -> es !! i = Some e ->
  DecodeKey data (offs v4 es i) (c_restarts c) =
  Some (Some (offs v4 es i + hdr_len e, e_shared e, slen (e_key e) - e_shared e)).
Proof. intros Hf He. unfold DecodeKey. by rewrite (DecodeEntry_ok i e Hf He). Qed.

Lemma ent_end i e : es !! i = Some e -> offs v4 es i + slen (enc_ent v4 e) <= c_restarts c.
Proof. intros He. destruct (data_at i e He) as (_ & _ & _ & ->). slia. Qed.

Lemma CheckAndDecodeEntry_ok i e : v4 = false -> es !! i = Some e ->
  CheckAndDecodeEntry data (offs v4 es i) (c_restarts c) =
  Some (Some (offs v4 es i + hdr_len e, e_shared e, slen (e_key e) - e_shared e, slen (e_val e))).
Proof.
  intros Hf He. unfold CheckAndDecodeEntry. rewrite (DecodeEntry_ok i e Hf He). cbn [mbind option_bind].
  pose proof (ent_end i e He) as Hend. rewrite (slen_enc_ent_parts i e He) in Hend.
  destruct (ent_facts i e He) as (Hs & Ha & Hb & Hd).
  assert (3 <= hdr_len e) by (unfold hdr_len; rewrite Hf; by apply slen_hdr_false).
  pose proof enc_size as Hes. pose proof (offs_u32 i) as Hu. unfold is_u32 in *. slen_facts.
  destruct (Z.ltb_spec (c_restarts c - offs v4 es i) 3); [lia|].
  rewrite !u32_id by (unfold is_u32; lia).
  destruct (Z.ltb_spec (c_restarts c - (offs v4 es i + hdr_len e)) (slen (e_key e) - e_shared e + slen (e_val e))); [lia|done].
Qed.

Lemma DecodeKeyV4_ok i e : v4 = true -> es !! i = Some e ->
  DecodeKeyV4 data (offs v4 es i) (c_restarts c) =
  Some (Some (offs v4 es i + hdr_len e, e_shared e, slen (e_key e) - e_shared e)).
Proof.
  intros Ht He. destruct (ent_facts i e He) as (Hs & Ha & Hb & Hd).
  pose proof (ent_end i e He) as Hend. pose proof enc_size as Hes.
  destruct (data_at i e He) as (rest & Hdrop & Hstake & Hrest).
  assert (0 < slen (e_val e)) as Hval by (eapply Forall_lookup_1 in Hv4; eauto).
  set (p := offs v4 es i) in *. assert (0 <= p) as Hp by apply offs_u32.
  rewrite (slen_enc_ent_parts i e He) in Hend.
  unfold hdr_len, enc_ent, enc_hdr in *. rewrite Ht in *.
  cbv beta iota zeta in Hdrop, Hstake, Hrest, Hend |- *. rewrite ?app_nil_r, <- ?app_assoc in *.
  set (V1 := EncodeVarint32 (e_shared e)) in *. set (V2 := EncodeVarint32 (slen (e_key e) - e_shared e)) in *.
  assert (forall v, 1 <= slen (EncodeVarint32 v)) as H1.
  { intros v. unfold EncodeVarint32. repeat case_match; rewrite ?slen_cons; slia. }
  pose proof (H1 (e_shared e)) as Hl1. pose proof (H1 (slen (e_key e) - e_shared e)) as Hl2. fold V1 V2 in Hl1, Hl2.
  rewrite !slen_app in Hend. rewrite !slen_app in Hrest. slen_facts.
  unfold DecodeKeyV4, bread. rewrite Hdrop.
  destruct (Z.ltb_spec (c_restarts c - p) 3); [lia|].
  destruct (Z.leb_spec 0 p); [|lia]. destruct (Z.leb_spec (p + 2) (slen data)); [|lia].
  cbn [andb mbind option_bind Z.leb Z.compare]. rewrite !slen_app.
  change 2 with (Z.of_nat 2). rewrite !at_stake by lia. change (Z.of_nat 2) with 2.
  set (bs := V1 ++ V2 ++ sdrop (e_shared e) (e_key e) ++ e_val e ++ rest).
  destruct (Z.ltb_spec (Z.lor (at_ bs 0) (at_ bs 1)) 128) as [Hlt|_].
  - destruct (fast_two _ _ _ bs Ha Hb eq_refl Hlt) as (E1 & E2 & L1 & L2 & _). fold V1 V2 in L1, L2.
    rewrite E1, E2. repeat f_equal. lia.
  - rewrite (getv_ok p _ _ Ha Hp Hstake).
    pose proof (stake_sdrop_next p V1 _ Hp Hstake) as Hs2.
    replace (c_restarts c - _) with (p + slen V1) by (rewrite !slen_app; lia).
    rewrite (getv_ok (p + slen V1) _ _ Hb ltac:(lia) Hs2).
    repeat f_equal. rewrite !slen_app. lia.
Qed.

Lemma DecodeEntryV4_ok i e : v4 = true -> es !! i = Some e ->
  DecodeEntryV4 data (offs v4 es i) (c_restarts c) =
  Some (Some (offs v4 es i + hdr_len e, e_shared e, slen (e_key e) - e_shared e, 0)).
Proof. intros Ht He. unfold DecodeEntryV4. by rewrite (DecodeKeyV4_ok i e Ht He). Qed.

Lemma bread_key i e : es !! i = Some e ->
  bread data (offs v4 es i + hdr_len e) (slen (e_key e) - e_shared e) = Some (sdrop (e_shared e) (e_key e)).
Proof.
  intros He. destruct (ent_facts i e He) as (Hs & _).
  apply (bread_app _ (enc_ents v4 (take i es) ++ enc_hdr v4 e) _
    (e_val e ++ enc_ents v4 (drop (S i) es) ++ concat (EncodeFixed32 <$> rs) ++ tail)).
  - unfold data. rewrite (enc_ents_split v4 es i e He). unfold enc_ent. by rewrite <- !app_assoc.
  - rewrite slen_app. done.
  - rewrite slen_sdrop; lia.
Qed.

Lemma bread_value i e : es !! i = Some e ->
  bread data (offs v4 es i + hdr_len e + (slen (e_key e) - e_shared e)) (slen (e_val e)) = Some (e_val e).
Proof.
  intros He. destruct (ent_facts i e He) as (Hs & _).
  apply (bread_app _ (enc_ents v4 (take i es) ++ enc_hdr v4 e ++ sdrop (e_shared e) (e_key e)) _
    (enc_ents v4 (drop (S i) es) ++ concat (EncodeFixed32 <$> rs) ++ tail)).
  - unfold data. rewrite (enc_ents_split v4 es i e He). unfold enc_ent. by rewrite <- !app_assoc.
  - rewrite !slen_app, slen_sdrop by lia. unfold offs, hdr_len. lia.
  - done.
Qed.

(** *** Keys *)

Lemma bool_cases b : b = true \/ b = false.
Proof. destruct b; auto. Qed.

Lemma Pad_Strip k ts_sz : 0 <= ts_sz -> kNumInternalBytes <= slen k ->
  StripTimestampFromInternalKey [] (PadInternalKeyWithMinTimestamp [] k ts_sz) ts_sz = k.
Proof.
  intros Hts Hk. destruct (internal_key_shape k) as (u & w & _ & ->); [done|].
  rewrite PadMin_app, Strip_app; [done|]. by apply slen_repeat_byte.
Qed.

Lemma disp_longer k : (c_pad_min_timestamp c = true -> uk = false -> kNumInternalBytes <= slen k) ->
  slen k <= slen (disp k).
Proof.
  intros Hk. unfold disp. destruct (c_pad_min_timestamp c) eqn:Hp; [|lia]. destruct uk.
  - unfold AppendKeyWithMinTimestamp. cbn [app]. rewrite slen_app. slia.
  - destruct (internal_key_shape k) as (u & w & _ & ->); [by apply Hk|].
    rewrite PadMin_app, !slen_app. slia.
Qed.

Lemma long_keys i e : es !! i = Some e ->
  c_pad_min_timestamp c = true -> uk = false -> kNumInternalBytes <= slen (e_key e).
Proof. intros He Hp Hu. destruct (Hpad Hp) as [_ H]. specialize (H Hu). by eapply Forall_lookup_1 in H. Qed.

(** Appending what is stored to what is shared gives the key. *)
Lemma disp_trim i e p (k : AbsKey) delta : es !! (i - 1)%nat = Some p -> es !! i = Some e ->
  a_user k = uk -> a_key k = disp (e_key p) ->
  0 <= e_shared e <= slen (e_key p) -> stake (e_shared e) (e_key e) = stake (e_shared e) (e_key p) ->
  delta = sdrop (e_shared e) (e_key e) ->
  a_key (if c_pad_min_timestamp c then spec k (OTrimAppendWithTimestamp (e_shared e) delta (c_ts_sz c))
         else spec k (OTrimAppend (e_shared e) delta)) = disp (e_key e).
Proof.
  intros Hp He Hu Hk Hs Heq ->. unfold disp in *.
  destruct (bool_cases (c_pad_min_timestamp c)) as [Hpd|Hpd]; rewrite Hpd in Hk |- *; cbn [spec a_key]; rewrite Hk.
  2: { rewrite <- Heq. apply stake_sdrop. }
  destruct (Hpad Hpd) as [Hts _]. rewrite Hu. destruct (bool_cases uk) as [Huk|Huk]; rewrite Huk.
  - unfold AppendKeyWithMinTimestamp. cbn [app]. rewrite stake_app_le by lia.
    by rewrite <- Heq, (app_assoc (stake _ _)), stake_sdrop.
  - rewrite Pad_Strip; [|done|by apply (long_keys _ _ Hp)]. by rewrite <- Heq, stake_sdrop.
Qed.

(** *** States *)

(** The iterator will parse entry [i] next. *)
Record ready {X} (s : St X) (i : nat) : Prop := {
  rd_le : (i <= length es)%nat;
  rd_off : fst (value_ s) + snd (value_ s) = offs v4 es i;
  rd_user : a_user (raw_key_ s) = uk;
  rd_key : forall e, es !! i = Some e -> e_shared e <> 0 ->
    exists p, (0 < i)%nat /\ es !! (i - 1)%nat = Some p /\ a_key (raw_key_ s) = disp (e_key p)
}.

(** Entry [i] has been parsed; [vl] is the size of the value. *)
Record parsed {X} (s : St X) (i : nat) (e : Ent) (vl : Z) : Prop := {
  pr_ent : es !! i = Some e;
  pr_cur : current_ s = offs v4 es i;
  pr_user : a_user (raw_key_ s) = uk;
  pr_key : a_key (raw_key_ s) = disp (e_key e);
  pr_val : value_ s = (offs v4 es i + hdr_len e + (slen (e_key e) - e_shared e), vl);
  pr_ri : 0 <= restart_index_ s < c_num_restarts c
}.

(** Two states that differ in the position and the current key and value. *)
Definition same_rest {X} (s s' : St X) : Prop :=
  status_ s' = status_ s /\ ukey_ s' = ukey_ s /\ key_pinned_ s' = key_pinned_ s /\
  cur_entry_idx_ s' = cur_entry_idx_ s /\ sub_ s' = sub_ s.

Lemma parsed_ready {X} (s : St X) i e : parsed s i e (slen (e_val e)) -> ready s (S i).
Proof.
  intros [He Hc Hu Hk Hv Hr]. split.
  - by apply lookup_lt_Some in He.
  - rewrite Hv, (offs_S _ _ _ e He), (slen_enc_ent_parts i e He). cbn [fst snd]. lia.
  - done.
  - intros e' _ _. exists e. split; [lia|]. cbn. by rewrite Nat.sub_0_r.
Qed.

Lemma ready_next {X} (s : St X) i : ready s i -> NextEntryOffset s = offs v4 es i.
Proof. intros H. unfold NextEntryOffset. rewrite (rd_off s i H). apply u32_id, offs_u32. Qed.

Lemma catch_up_ok fuel ri cur : 0 <= ri < c_num_restarts c -> c_num_restarts c - ri < Z.of_nat fuel ->
  exists ri', catch_up c fuel ri cur = Some ri' /\ 0 <= ri' < c_num_restarts c.
Proof.
  revert ri. induction fuel as [|fuel IH]; intros ri Hri Hf; [lia|]. cbn [catch_up].
  destruct (Z.ltb_spec (ri + 1) (c_num_restarts c)); [|eauto].
  rewrite GetRestartPoint_Z by lia. cbn [mbind option_bind].
  destruct (_ <? cur); [|eauto]. apply IH; lia.
Qed.

Lemma ParseNextKey_end {X} Decode (s : St X) : ready s (length es) ->
  ParseNextKey wild c Decode s = Some (false, false, set_pos s (c_restarts c) (c_num_restarts c)).
Proof.
  intros H. unfold ParseNextKey. cbn [current_ set_pos]. rewrite (ready_next _ _ H), offs_all, <- Hrestarts by lia.
  by rewrite Z.leb_refl.
Qed.

Lemma ParseNextKey_entry {X} Decode vl (s : St X) i e : ready s i -> es !! i = Some e ->
  Decode data (offs v4 es i) (c_restarts c) =
    Some (Some (offs v4 es i + hdr_len e, e_shared e, slen (e_key e) - e_shared e, vl)) ->
  0 <= restart_index_ s < c_num_restarts c ->
  exists s', ParseNextKey wild c Decode s = Some (true, negb (e_shared e =? 0), s') /\
    parsed s' i e vl /\ same_rest s s'.
Proof.
  intros Hr He Hdec Hri. destruct (ent_facts i e He) as (Hs & _).
  destruct (lay_ent _ _ _ _ Hlay i e He) as (_ & _ & _ & _ & Hsh).
  unfold ParseNextKey. cbn [current_ set_pos restart_index_ raw_key_]. rewrite (ready_next _ _ Hr), dat_data.
  pose proof (ent_end i e He) as Hend. pose proof (enc_ent_pos v4 e) as Hpos.
  destruct (Z.leb_spec (c_restarts c) (offs v4 es i)); [lia|]. rewrite Hdec. cbn [mbind option_bind].
  assert (e_shared e <= slen (a_key (raw_key_ s))) as Hle.
  { destruct (Z.eq_dec (e_shared e) 0) as [Hz|Hz]; [slia|].
    destruct (rd_key _ _ Hr e He Hz) as (p & Hi & Hp & ->). destruct Hsh as [|(p' & _ & Hp' & Hle & _)]; [done|].
    assert (p' = p) as -> by congruence. pose proof (disp_longer (e_key p) (long_keys _ _ Hp)). lia. }
  destruct (Z.ltb_spec (slen (a_key (raw_key_ s))) (e_shared e)); [lia|].
  rewrite (bread_key i e He). cbn [mbind option_bind]. destruct (Z.eqb_spec (e_shared e) 0) as [Hz|Hz].
  - unfold UpdateRawKeyAndMaybePadMinTimestamp. cbn [set_value set_raw_key restart_index_ current_ set_pos raw_key_].
    destruct (catch_up_ok (S (Z.to_nat (c_num_restarts c))) (restart_index_ s) (offs v4 es i) Hri) as (ri & -> & Hri'); [lia|].
    cbn [mbind option_bind]. eexists. split; [done|]. split; [|done].
    split; cbn [set_pos set_value current_ raw_key_ value_ restart_index_]; try done.
    + destruct (c_pad_min_timestamp c); apply (rd_user _ _ Hr).
    + rewrite Hz. change (sdrop 0 (e_key e)) with (e_key e). unfold disp. rewrite (rd_user _ _ Hr).
      by destruct (c_pad_min_timestamp c), uk.
  - destruct (rd_key _ _ Hr e He Hz) as (p & Hi & Hp & Hk). destruct Hsh as [|(p' & _ & Hp' & Hle' & Hst)]; [done|].
    assert (p' = p) as -> by congruence.
    eexists. split; [done|]. split; [|done].
    split; cbn [set_pos set_value current_ raw_key_ value_ restart_index_]; try done.
    + destruct (c_pad_min_timestamp c); apply (rd_user _ _ Hr).
    + apply (disp_trim i e p); try done; [apply (rd_user _ _ Hr)|lia].
Qed.

Lemma SeekToRestartPoint_ready {X} (s : St X) j : (j < length rs)%nat -> a_user (raw_key_ s) = uk ->
  exists s', SeekToRestartPoint c s (Z.of_nat j) = Some s' /\ ready s' (Nat.min (j * r) (length es)) /\
    restart_index_ s' = Z.of_nat j /\ current_ s' = current_ s /\ same_rest s s'.
Proof.
  intros Hj Hu. unfold SeekToRestartPoint. rewrite GetRestartPoint_ok by done. cbn [mbind option_bind].
  eexists. split; [done|]. split; [|done]. split; cbn.
  - lia.
  - rewrite Z.add_0_r. destruct (Nat.min_spec (j * r) (length es)) as [[? ->]|[? ->]]; [done|].
    rewrite !offs_all by lia. done.
  - done.
  - intros e He H0. exfalso. apply H0.
    assert (j * r < length es)%nat as Hlt by (apply lookup_lt_Some in He; lia).
    rewrite Nat.min_l in He by lia. destruct (lay_ent _ _ _ _ Hlay _ e He) as (_ & _ & _ & Hm & _).
    apply Hm. apply Nat.Div0.mod_mul.
Qed.

(** *** Comparing keys *)

(** How the key [k] of an entry compares with a target. *)
Definition cmpk (k t : bytes) : Z :=
  if uk then Compare (c_ucmp c) k t
  else if c_global_seqno c =? kDisableGlobalSequenceNumber then IKCompare (c_ucmp c) k t
  else IKCompare_global (c_ucmp c) k (c_global_seqno c) t kDisableGlobalSequenceNumber.

(** The comparison of the [i]th entry with the target; [0] past the end. *)
Definition K (i : nat) (t : bytes) : Z := match es !! i with Some e => cmpk (disp (e_key e)) t | None => 0 end.

Lemma K_lookup i e t : es !! i = Some e -> K i t = cmpk (disp (e_key e)) t.
Proof. intros He. unfold K. by rewrite He. Qed.

Lemma CompareCurrentKey_raw {X} (s : St X) k t : a_user (raw_key_ s) = uk -> a_key (raw_key_ s) = k ->
  CompareCurrentKey c s t = cmpk k t.
Proof.
  intros Hu Hk. unfold CompareCurrentKey, cmpk, raw_user_key. rewrite Hu, Hk. by destruct uk.
Qed.

Lemma parsed_compare {X} (s : St X) i e vl t : parsed s i e vl -> CompareCurrentKey c s t = K i t.
Proof.
  intros H. rewrite (CompareCurrentKey_raw s _ t (pr_user _ _ _ _ H) (pr_key _ _ _ _ H)).
  by rewrite (K_lookup i e) by apply H.
Qed.

(** Entries are in strictly increasing order. *)
Definition increasing (t : bytes) : Prop :=
  forall i j, (i < j < length es)%nat -> K j t <= 0 -> K i t < 0.

(** *** Binary search over the restart points *)

(** States that differ in the current key only. *)
Definition same_pos {X} (s s' : St X) : Prop :=
  current_ s' = current_ s /\ restart_index_ s' = restart_index_ s /\ value_ s' = value_ s /\
  a_user (raw_key_ s') = a_user (raw_key_ s) /\ same_rest s s'.

Section Search.
Context {X : Type}.
Variable DK : bytes -> Z -> Z -> option (option (Z * Z * Z)).
Hypothesis DK_ok : forall i e, es !! i = Some e ->
  DK data (offs v4 es i) (c_restarts c) =
    Some (Some (offs v4 es i + hdr_len e, e_shared e, slen (e_key e) - e_shared e)).
Variable t : bytes.
Hypothesis Hinc : increasing t.

(** The comparison of the [j]th restart key. *)
Definition Kr (j : Z) : Z := K (Z.to_nat j * r) t.

(** One step of the loop reads the restart key [mid]. *)
Lemma restart_key_step (s : St X) mid : (0 < length es)%nat -> 0 <= mid < c_num_restarts c ->
  a_user (raw_key_ s) = uk ->
  exists e, es !! (Z.to_nat mid * r)%nat = Some e /\ e_shared e = 0 /\
    bread data (offs v4 es (Z.to_nat mid * r) + hdr_len e) (slen (e_key e) - 0) = Some (e_key e) /\
    CompareCurrentKey c (UpdateRawKeyAndMaybePadMinTimestamp c s (e_key e)) t = Kr mid /\
    same_pos s (UpdateRawKeyAndMaybePadMinTimestamp c s (e_key e)).
Proof.
  intros Hlen Hmid Hu.
  assert (Z.to_nat mid < length rs)%nat as Hj by (rewrite Hnum in Hmid; unfold slen in Hmid; lia).
  destruct (lookup_lt_is_Some_2 es (Z.to_nat mid * r)) as [e He]; [by apply restart_entry|].
  destruct (lay_ent _ _ _ _ Hlay _ e He) as (_ & _ & _ & Hm & _).
  specialize (Hm (Nat.Div0.mod_mul _ _)). exists e. split; [done|]. split; [done|]. split.
  { pose proof (bread_key _ e He) as Hb. by rewrite Hm in Hb. }
  unfold UpdateRawKeyAndMaybePadMinTimestamp. split.
  - rewrite (CompareCurrentKey_raw _ (disp (e_key e))).
    + unfold Kr. by rewrite (K_lookup _ e).
    + cbn. by destruct (c_pad_min_timestamp c).
    + cbn. unfold disp. rewrite Hu. by destruct (c_pad_min_timestamp c), uk.
  - split_and!; try done. cbn. by destruct (c_pad_min_timestamp c).
Qed.

Lemma Kr_mono i j : (0 < length es)%nat -> 0 <= i < j -> j < c_num_restarts c -> 0 <= Kr i -> 0 < Kr j.
Proof.
  intros Hlen Hij Hj Hi. destruct (Z.ltb_spec 0 (Kr j)) as [|Hle]; [done|].
  pose proof (restart_entry (Z.to_nat j) Hlen) as He. rewrite Hnum in Hj. unfold slen in Hj.
  pose proof (lay_pos _ _ _ _ Hlay). specialize (He ltac:(lia)).
  enough (Kr i < 0) by lia. apply (Hinc _ (Z.to_nat j * r)%nat); [nia|done].
Qed.

Lemma same_pos_trans (a b d : St X) : same_pos a b -> same_pos b d -> same_pos a d.
Proof. unfold same_pos, same_rest. intros (?&?&?&?&?&?&?&?&?) (?&?&?&?&?&?&?&?&?). split_and!; congruence. Qed.

(** What the loop has found: [skip] is set on equality. *)
Definition found (l : Z) (skip : bool) : Prop :=
  -1 <= l < c_num_restarts c /\
  if skip then 0 <= l /\ Kr l = 0
  else (0 <= l -> Kr l < 0) /\ (forall j, l < j < c_num_restarts c -> 0 < Kr j).

Lemma BinarySeek_loop_ok fuel lo hi (s : St X) : (0 < length es)%nat -> a_user (raw_key_ s) = uk ->
  -1 <= lo <= hi -> hi < c_num_restarts c -> hi - lo < Z.of_nat fuel ->
  (0 <= lo -> Kr lo < 0) -> (forall j, hi < j < c_num_restarts c -> 0 < Kr j) ->
  exists l skip s', BinarySeek_loop wild c fuel DK t lo hi false s = Some (inr (l, skip, s')) /\
    found l skip /\ same_pos s s'.
Proof.
  intros Hlen. revert lo hi s. induction fuel as [|fuel IH]; intros lo hi s Hu Hlo Hhi Hf Hl Hh; [lia|].
  cbn [BinarySeek_loop]. destruct (Z.eqb_spec lo hi) as [->|Hne].
  { exists hi, false, s. split; [done|]. split; [|done]. split; [lia|done]. }
  set (mid := lo + Z.quot (hi - lo + 1) 2).
  assert (lo < mid <= hi) as Hmid.
  { unfold mid. rewrite Z.quot_div_nonneg by lia. Z.div_mod_to_equations. lia. }
  pose proof enc_size as Hes. pose proof (slen_nonneg (enc_ents v4 es)).
  rewrite u32_id by (unfold is_u32; rewrite Hnum in Hhi; lia).
  rewrite GetRestartPoint_Z, dat_data by lia. cbn [mbind option_bind].
  destruct (restart_key_step s mid Hlen ltac:(lia) Hu) as (e & He & H0 & Hb & Hc & Hsp).
  rewrite (DK_ok _ e He), H0. cbn [mbind option_bind Z.eqb negb]. rewrite Hb. cbn [mbind option_bind].
  rewrite Hc. set (s1 := UpdateRawKeyAndMaybePadMinTimestamp c s (e_key e)) in *.
  assert (a_user (raw_key_ s1) = uk) as Hu1 by (destruct Hsp as (_ & _ & _ & -> & _); done).
  destruct (Z.ltb_spec (Kr mid) 0) as [Hlt|Hge]; [|destruct (Z.ltb_spec 0 (Kr mid)) as [Hgt|Heq]].
  - destruct (IH mid hi s1 Hu1 ltac:(lia) Hhi ltac:(lia) (fun _ => Hlt) Hh) as (l & sk & s' & -> & Hfd & Hs).
    exists l, sk, s'. split_and!; try done. by apply (same_pos_trans _ s1).
  - assert (forall j, mid - 1 < j < c_num_restarts c -> 0 < Kr j) as Hh'.
    { intros j Hj. destruct (Z.eq_dec j mid) as [->|]; [done|]. apply (Kr_mono mid); lia. }
    destruct (IH lo (mid - 1) s1 Hu1 ltac:(lia) ltac:(lia) ltac:(lia) Hl Hh') as (l & sk & s' & -> & Hfd & Hs).
    exists l, sk, s'. split_and!; try done. by apply (same_pos_trans _ s1).
  - exists mid, true, s1. assert (found mid true) by (unfold found; lia).
    destruct fuel as [|fuel]; cbn [BinarySeek_loop]; rewrite Z.eqb_refl; done.
Qed.

(** [BinarySeek] returns where to start: at a restart key that is the answer
    ([skip]), or before all entries that are not less than the target. *)
Lemma BinarySeek_ok (s : St X) : (0 < length es)%nat -> a_user (raw_key_ s) = uk ->
  exists j skip s', BinarySeek wild c DK t s = Some (inr (Z.of_nat j, skip, s')) /\ (j < length rs)%nat /\
    same_pos s s' /\
    if skip then 0 <= K (j * r) t /\ (forall i, (i < j * r)%nat -> K i t < 0)
    else K (j * r) t < 0 /\ (forall j', (j < j' < length rs)%nat -> 0 < K (j' * r) t).
Proof.
  intros Hlen Hu. pose proof length_es_le. pose proof num_pos as Hn. pose proof enc_size as Hes.
  unfold BinarySeek. destruct (Z.eqb_spec (c_restarts c) 0); [lia|].
  destruct (BinarySeek_loop_ok (S (Z.to_nat (c_num_restarts c))) (-1) (c_num_restarts c - 1) s Hlen Hu
    ltac:(lia) ltac:(lia) ltac:(lia) ltac:(lia) ltac:(lia)) as (l & sk & s' & -> & [Hl Hfd] & Hs).
  cbn [mbind option_bind].
  assert (forall j', (j' < length rs)%nat -> (j' * r < length es)%nat) as Hre by (intros; by apply restart_entry).
  assert (forall j', Kr (Z.of_nat j') = K (j' * r) t) as HKr by (intros; unfold Kr; by rewrite Nat2Z.id).
  destruct (Z.eqb_spec l (-1)) as [->|Hl1].
  - exists 0%nat, true, s'. split; [done|]. destruct sk; [lia|]. destruct Hfd as [_ Hfd].
    assert (0 < length rs)%nat by (rewrite Hnum in Hn; unfold slen in Hn; lia).
    split_and!; try done; [|lia]. specialize (Hfd 0 ltac:(lia)). change 0 with (Z.of_nat 0) in Hfd at 2.
    rewrite HKr in Hfd. lia.
  - assert (l = Z.of_nat (Z.to_nat l)) as Hlz by lia. set (j := Z.to_nat l) in *.
    assert (j < length rs)%nat as Hj by (rewrite Hnum in Hl; unfold slen in Hl; lia).
    exists j, sk, s'. rewrite u32_id by (unfold is_u32; rewrite Hnum in Hl; slia). rewrite Hlz.
    split_and!; try done. rewrite Hlz in Hfd. destruct sk.
    + rewrite HKr in Hfd. split; [lia|]. intros i Hi. apply (Hinc i (j * r)%nat); [|lia].
      split; [done|]. by apply Hre.
    + rewrite HKr in Hfd. destruct Hfd as [Hlt Hgt]. split; [lia|]. intros j' Hj'.
      rewrite <- HKr. apply Hgt. rewrite Hnum. unfold slen. lia.
Qed.
End Search.

Lemma fuel_enough : (length es < scan_fuel c)%nat.
Proof. unfold scan_fuel. rewrite Hrestarts. pose proof length_es_le. lia. Qed.

(** Going back to a restart point before entry [i]. *)
Lemma back_up_ok {X} fuel (s : St X) i : (i < length es)%nat -> 0 <= restart_index_ s < c_num_restarts c ->
  restart_index_ s < Z.of_nat fuel ->
  exists j, (j < length rs)%nat /\
    back_up c fuel (offs v4 es i) s =
      (if (i =? 0)%nat then Some (true, set_pos s (c_restarts c) (c_num_restarts c))
       else Some (false, set_pos s (current_ s) (Z.of_nat j))) /\
    (i <> 0 -> j * r < i)%nat.
Proof.
  revert s. induction fuel as [|fuel IH]; intros s Hi Hri Hf; [lia|]. cbn [back_up].
  set (j := Z.to_nat (restart_index_ s)).
  assert (j < length rs)%nat as Hj by (rewrite Hnum in Hri; unfold slen in Hri; lia).
  rewrite GetRestartPoint_Z by done. fold j. cbn [mbind option_bind].
  pose proof (restart_entry j ltac:(lia) Hj) as Hlt. pose proof (lay_pos _ _ _ _ Hlay) as Hrp.
  destruct (Z.leb_spec (offs v4 es i) (offs v4 es (j * r))) as [Hle|Hgt].
  - assert (i <= j * r)%nat as Hij.
    { destruct (le_lt_dec i (j * r)); [done|]. pose proof (offs_lt (j * r) i ltac:(lia)). lia. }
    destruct (Z.eqb_spec (restart_index_ s) 0) as [H0|H0].
    + exists 0%nat. assert (j = 0)%nat as Hj0 by lia. rewrite Hj0 in Hij.
      assert (i = 0)%nat as -> by lia. split; [lia|]. split; [done|lia].
    + destruct (IH (set_pos s (current_ s) (restart_index_ s - 1))) as (j' & Hj' & -> & Hlt'); cbn; try lia.
      exists j'. split; [done|]. split; [|done]. by destruct (i =? 0)%nat.
  - exists j. split; [done|]. assert (j * r < i)%nat as Hji.
    { destruct (le_lt_dec i (j * r)) as [Hle|]; [|done]. destruct (decide (i = j * r)%nat) as [->|]; [lia|].
      pose proof (offs_lt i (j * r) ltac:(lia)). lia. }
    destruct (Nat.eqb_spec i 0); [lia|]. split; [|done]. repeat f_equal.
    destruct s. unfold set_pos, j. cbn in *. f_equal. lia.
Qed.

(** *** Moving *)

Section Moves.
Context {X : Type}.
Variable Parse : St X -> option (bool * bool * St X).
(** What holds of the members of the subclass: always, before parsing entry [i],
    and at entry [i]. *)
Variable Xg : X -> Prop.
Variables Xr Xp : X -> nat -> Prop.
(** Whether [cur_entry_idx_] is the index of the current entry. *)
Variable trk : bool.

Hypothesis Xp_g : forall x i, Xp x i -> Xg x.
Hypothesis Xp_next : forall x i, Xp x i -> Xr x (S i).
Hypothesis Xr_g : forall x i, Xr x i -> Xg x.
Hypothesis Xr_restart : forall x i, Xg x -> (forall e, es !! i = Some e -> e_shared e = 0) -> Xr x i.
Hypothesis Parse_end : forall s, ready s (length es) ->
  Parse s = Some (false, false, set_pos s (c_restarts c) (c_num_restarts c)).
Hypothesis Parse_ok : forall s i e, ready s i -> Xr (sub_ s) i -> es !! i = Some e ->
  0 <= restart_index_ s < c_num_restarts c ->
  exists sh s', Parse s = Some (true, sh, s') /\ parsed s' i e (slen (e_val e)) /\ Xp (sub_ s') i /\
    status_ s' = status_ s /\ cur_entry_idx_ s' = cur_entry_idx_ s.
Hypothesis Htrk : trk = true ->
  c_block_restart_interval c = Z.of_nat r \/ (length rs = 1%nat /\ c_block_restart_interval c = 0).

Record prep (s : St X) (i : nat) : Prop := {
  pp_ready : ready s i;
  pp_x : Xr (sub_ s) i;
  pp_ri : 0 <= restart_index_ s < c_num_restarts c;
  pp_status : status_ s = OK
}.

(** The state at a position of the cursor: an entry, or none. *)
Definition at_pos (s : St X) (p : option nat) : Prop :=
  status_ s = OK /\ a_user (raw_key_ s) = uk /\ Xg (sub_ s) /\
  match p with
  | Some i => exists e, parsed s i e (slen (e_val e)) /\ Xp (sub_ s) i /\
                (trk = true -> cur_entry_idx_ s = Z.of_nat i)
  | None => current_ s = c_restarts c
  end.

Definition posn (i : nat) : option nat := if decide (i < length es)%nat then Some i else None.

Definition Next_of (s : St X) : option (St X) :=
  r ← Parse s;
  let '(_, _, s) := r in
  Some (set_idx s (cur_entry_idx_ s + 1)).

Lemma at_pos_prep s i : at_pos s (Some i) -> prep s (S i).
Proof.
  intros (Hs & _ & _ & e & Hp & Hx & _). split; [by eapply parsed_ready|by apply Xp_next|apply Hp|done].
Qed.

Lemma at_pos_valid s p : at_pos s p -> Iter_Valid c s = bool_decide (p <> None).
Proof.
  intros (_ & _ & _ & H). unfold Iter_Valid. destruct p as [i|].
  - destruct H as (e & Hp & _). rewrite (pr_cur _ _ _ _ Hp), bool_decide_true by done.
    pose proof (ent_end i e (pr_ent _ _ _ _ Hp)). pose proof (enc_ent_pos v4 e). apply Z.ltb_lt. lia.
  - rewrite H, Z.ltb_irrefl, bool_decide_false by auto. done.
Qed.

(** One parse, with the index of the entry adjusted afterwards. *)
Lemma parse_prep s i idx : prep s i -> (trk = true -> idx = Z.of_nat i) ->
  exists ok sh s', Parse s = Some (ok, sh, s') /\ ok = bool_decide (i < length es)%nat /\
    cur_entry_idx_ s' = cur_entry_idx_ s /\ (ok = true -> ready s' (S i)) /\
    at_pos (set_idx s' idx) (posn i).
Proof.
  intros [Hr Hx Hri Hst] Hidx. unfold posn. destruct (decide (i < length es)%nat) as [Hlt|Hge].
  - destruct (lookup_lt_is_Some_2 es i Hlt) as [e He].
    destruct (Parse_ok s i e Hr Hx He Hri) as (sh & s' & HP & Hp & Hxp & Hst' & Hi').
    exists true, sh, s'. rewrite bool_decide_true by done. split; [done|]. split; [done|]. split; [done|].
    split; [intros _; by eapply parsed_ready|].
    split; [cbn; congruence|]. split; [apply Hp|]. split; [by eapply Xp_g|].
    exists e. split; [|done]. destruct Hp. by split.
  - assert (i = length es) as -> by (pose proof (rd_le _ _ Hr); lia).
    exists false, false, (set_pos s (c_restarts c) (c_num_restarts c)). rewrite bool_decide_false by lia.
    split; [by apply Parse_end|]. split; [done|]. split; [done|]. split; [done|].
    split; [done|]. split; [apply (rd_user _ _ Hr)|]. split; [by eapply Xr_g|done].
Qed.

Lemma Next_prep s i : prep s i -> (trk = true -> cur_entry_idx_ s = Z.of_nat i - 1) ->
  exists s', Next_of s = Some s' /\ at_pos s' (posn i).
Proof.
  intros Hp Hidx. destruct (parse_prep s i (cur_entry_idx_ s + 1) Hp) as (ok & sh & s' & HP & _ & Hi & _ & Hat).
  { intros Ht. specialize (Hidx Ht). lia. }
  unfold Next_of. rewrite HP. cbn [mbind option_bind]. rewrite Hi. eauto.
Qed.

Lemma Next_ok s i : at_pos s (Some i) -> exists s', Next_of s = Some s' /\ at_pos s' (posn (S i)).
Proof.
  intros H. apply Next_prep; [by apply at_pos_prep|]. destruct H as (_ & _ & _ & e & _ & _ & Ht).
  intros Htr. specialize (Ht Htr). lia.
Qed.

Lemma restart_prep s j : (j < length rs)%nat -> a_user (raw_key_ s) = uk -> Xg (sub_ s) -> status_ s = OK ->
  exists s', SeekToRestartPoint c s (Z.of_nat j) = Some s' /\ prep s' (Nat.min (j * r) (length es)) /\
    same_rest s s' /\ current_ s' = current_ s /\ restart_index_ s' = Z.of_nat j.
Proof.
  intros Hj Hu Hg Hst. destruct (SeekToRestartPoint_ready s j Hj Hu) as (s' & HS & Hr & Hri & Hc & Hsame).
  exists s'. split; [done|]. split; [|done]. destruct Hsame as (Hs' & _ & _ & _ & Hx). split; try done.
  - rewrite Hx. apply Xr_restart; [done|]. intros e He.
    assert (j * r < length es)%nat as Hlt by (apply lookup_lt_Some in He; lia).
    rewrite Nat.min_l in He by lia. destruct (lay_ent _ _ _ _ Hlay _ e He) as (_ & _ & _ & Hm & _).
    apply Hm, Nat.Div0.mod_mul.
  - rewrite Hri, Hnum. unfold slen. lia.
  - congruence.
Qed.

(** The index of the first entry of a restart interval. *)
Lemma restart_idx j : (j < length rs)%nat -> trk = true ->
  s32 (u32 (Z.of_nat j * c_block_restart_interval c)) = Z.of_nat (Nat.min (j * r) (length es)).
Proof.
  intros Hj Ht. pose proof length_es_le as Hle. pose proof enc_size as Hes. slen_facts.
  assert (Z.of_nat j * c_block_restart_interval c = Z.of_nat (Nat.min (j * r) (length es))) as ->.
  { destruct (Htrk Ht) as [-> | [Hone ->]].
    - destruct (decide (0 < length es)%nat) as [Hp|].
      + pose proof (restart_entry j Hp Hj). lia.
      + rewrite length_rs in Hj. destruct (length es) eqn:El; [|lia]. cbn in Hj. assert (j = 0)%nat as -> by lia. lia.
    - assert (j = 0)%nat as -> by lia. lia. }
  rewrite u32_id by (unfold is_u32; lia). unfold s32.
  rewrite Z.mod_small by lia. lia.
Qed.

Lemma posn_lt i : (i < length es)%nat -> posn i = Some i.
Proof. intros. unfold posn. by rewrite decide_True. Qed.

Lemma posn_ge i : (length es <= i)%nat -> posn i = None.
Proof. intros. unfold posn. rewrite decide_False by lia. done. Qed.

(** **** Seek *)

(** The first entry that is not less than the target, or none. *)
Definition is_seek (t : bytes) (p : option nat) : Prop :=
  match p with
  | Some i => 0 <= K i t /\ forall j, (j < i)%nat -> K j t < 0
  | None => forall j, (j < length es)%nat -> K j t < 0
  end.

Lemma below t i : increasing t -> (i < length es)%nat -> K i t < 0 -> forall j, (j <= i)%nat -> K j t < 0.
Proof.
  intros Hinc Hi HK j Hj. destruct (decide (j = i)) as [->|]; [done|]. apply (Hinc j i); lia.
Qed.

Lemma linear_scan_ok fuel t s i mo : increasing t -> at_pos s (Some i) -> K i t < 0 ->
  (mo = 2 ^ 32 - 1 \/ exists m, (i < m < length es)%nat /\ mo = offs v4 es m /\ 0 < K m t) ->
  (length es < i + 1 + fuel)%nat ->
  exists s' p, linear_scan c fuel Next_of t mo s = Some s' /\ at_pos s' p /\ is_seek t p.
Proof.
  intros Hinc. revert s i. induction fuel as [|fuel IH]; intros s i Hat HK Hmo Hf.
  { destruct Hat as (_ & _ & _ & e & Hp & _). pose proof (lookup_lt_Some _ _ _ (pr_ent _ _ _ _ Hp)). lia. }
  assert (i < length es)%nat as Hi.
  { destruct Hat as (_ & _ & _ & e & Hp & _). apply (lookup_lt_Some _ _ _ (pr_ent _ _ _ _ Hp)). }
  cbn [linear_scan]. destruct (Next_ok s i Hat) as (s' & -> & Hat'). cbn [mbind option_bind].
  rewrite (at_pos_valid _ _ Hat'). unfold posn in *. destruct (decide (S i < length es)%nat) as [Hlt|Hge].
  2: { rewrite bool_decide_false by auto. exists s', None. split_and!; try done.
       intros j Hj. apply (below t i Hinc Hi HK). lia. }
  rewrite bool_decide_true by done. cbn [negb].
  destruct (Hat') as (_ & _ & _ & e & Hp & _). rewrite (parsed_compare _ _ _ _ t Hp), (pr_cur _ _ _ _ Hp).
  assert (forall j, (j < S i)%nat -> K j t < 0) as Hbelow by (intros; apply (below t i Hinc Hi HK); lia).
  destruct (Z.eqb_spec (offs v4 es (S i)) mo) as [Heq|Hne].
  - destruct Hmo as [->|(m & Hm & -> & HKm)].
    { pose proof (offs_le_all (S i)). pose proof enc_size. slen_facts. lia. }
    assert (S i = m) as <- by (apply offs_inj; done || lia).
    exists s', (Some (S i)). split; [done|]. split; [done|]. split; [lia|done].
  - destruct (Z.leb_spec 0 (K (S i) t)) as [Hge|HKS].
    + exists s', (Some (S i)). split; [done|]. split; [done|]. split; done.
    + apply (IH s' (S i)); try done; [|lia]. destruct Hmo as [?|(m & Hm & -> & HKm)]; [by left|right].
      exists m. split; [|done]. split; [|lia]. destruct (decide (m = S i)) as [->|]; [done|lia].
Qed.

Lemma FindKeyAfter_ok t s j (skip : bool) : increasing t -> (0 < length es)%nat -> (j < length rs)%nat ->
  status_ s = OK -> a_user (raw_key_ s) = uk -> Xg (sub_ s) ->
  (if skip then 0 <= K (j * r) t /\ (forall i, (i < j * r)%nat -> K i t < 0)
   else K (j * r) t < 0 /\ (forall j', (j < j' < length rs)%nat -> 0 < K (j' * r) t)) ->
  exists s' p, FindKeyAfterBinarySeek c Next_of t (Z.of_nat j) skip s = Some s' /\ at_pos s' p /\ is_seek t p.
Proof.
  intros Hinc Hlen Hj Hst Hu Hg Hfound. unfold FindKeyAfterBinarySeek.
  destruct (restart_prep s j Hj Hu Hg Hst) as (s1 & -> & Hprep & Hsame & _). cbn [mbind option_bind].
  pose proof (restart_entry j Hlen Hj) as Hlt. rewrite Nat.min_l in Hprep by lia.
  destruct (Next_prep (set_idx s1 (s32 (u32 (Z.of_nat j * c_block_restart_interval c)) - 1)) (j * r))
    as (s2 & -> & Hat).
  { destruct Hprep as [Hr ? ? ?]. split; try done. destruct Hr. by split. }
  { intros Ht. cbn [cur_entry_idx_ set_idx]. rewrite restart_idx, Nat.min_l by (done || lia). done. }
  cbn [mbind option_bind]. rewrite posn_lt in Hat by done. destruct skip; cbn [negb].
  - exists s2, (Some (j * r)%nat). split_and!; try done; apply Hfound.
  - destruct Hfound as [HK Hnext].
    assert (exists mo, (if Z.of_nat j + 1 <? c_num_restarts c then GetRestartPoint c (Z.of_nat j + 1)
      else Some (2 ^ 32 - 1)) = Some mo /\
      (mo = 2 ^ 32 - 1 \/ exists m, (j * r < m < length es)%nat /\ mo = offs v4 es m /\ 0 < K m t)) as (mo & -> & Hmo).
    { destruct (Z.ltb_spec (Z.of_nat j + 1) (c_num_restarts c)) as [Hl|]; [|eexists; split; [done|by left]].
      rewrite Hnum in Hl. unfold slen in Hl. replace (Z.of_nat j + 1) with (Z.of_nat (S j)) by lia.
      rewrite GetRestartPoint_ok by lia. eexists. split; [done|]. right. exists (S j * r)%nat.
      pose proof (restart_entry (S j) Hlen ltac:(lia)). pose proof (lay_pos _ _ _ _ Hlay).
      split; [nia|]. split; [done|]. apply Hnext. lia. }
    cbn [mbind option_bind]. apply (linear_scan_ok _ t s2 (j * r)); try done. pose proof fuel_enough. lia.
Qed.

(** [SeekImpl] of the three subclasses. *)
Definition Seek_of (DK : bytes -> Z -> Z -> option (option (Z * Z * Z))) (t : bytes) (s : St X) : option (St X) :=
  r ← BinarySeek wild c DK t s;
  match r with
  | inl s => Some s
  | inr (index, skip, s) => FindKeyAfterBinarySeek c Next_of t index skip s
  end.

Lemma no_entries s p : at_pos s p -> length es = 0%nat -> p = None.
Proof.
  intros (_ & _ & _ & H) Hl. destruct p as [i|]; [|done]. destruct H as (e & Hp & _).
  pose proof (lookup_lt_Some _ _ _ (pr_ent _ _ _ _ Hp)). lia.
Qed.

Lemma Seek_ok DK t s p :
  (forall i e, es !! i = Some e -> DK data (offs v4 es i) (c_restarts c) =
     Some (Some (offs v4 es i + hdr_len e, e_shared e, slen (e_key e) - e_shared e))) ->
  increasing t -> at_pos s p ->
  exists s' p', Seek_of DK t s = Some s' /\ at_pos s' p' /\ is_seek t p'.
Proof.
  intros HDK Hinc Hat. unfold Seek_of. destruct (decide (length es = 0)%nat) as [Hl|Hl].
  - unfold BinarySeek. assert (c_restarts c = 0) as ->.
    { rewrite Hrestarts. by destruct es. }
    exists s, None. cbn. split; [done|]. pose proof (no_entries s p Hat Hl) as ->. split; [done|].
    intros j Hj. lia.
  - destruct (BinarySeek_ok DK HDK t Hinc s) as (j & skip & s1 & -> & Hj & Hsp & Hfd); [lia|apply Hat|].
    cbn [mbind option_bind]. destruct Hsp as (_ & _ & _ & Hu & Hs & _ & _ & _ & Hx).
    destruct Hat as (Hst & Hu0 & Hg & _).
    apply FindKeyAfter_ok; try done; try lia; congruence.
Qed.

(** **** First and last *)

Definition SeekToFirst_of (s : St X) : option (St X) :=
  s ← SeekToRestartPoint c s 0;
  r ← Parse s;
  let '(_, _, s) := r in
  Some (set_idx s 0).

Lemma SeekToFirst_ok s : status_ s = OK -> a_user (raw_key_ s) = uk -> Xg (sub_ s) ->
  exists s', SeekToFirst_of s = Some s' /\ at_pos s' (posn 0).
Proof.
  intros Hst Hu Hg. unfold SeekToFirst_of. pose proof num_pos as Hn. rewrite Hnum in Hn. unfold slen in Hn.
  destruct (restart_prep s 0 ltac:(lia) Hu Hg Hst) as (s1 & HS & Hprep & _).
  change (Z.of_nat 0) with 0 in HS. rewrite HS. cbn [mbind option_bind].
  destruct (parse_prep s1 0 0 Hprep ltac:(done)) as (ok & sh & s2 & -> & _ & _ & _ & Hat).
  cbn [mbind option_bind]. eauto.
Qed.

(** [skip_to] stops at the entry before [m]; [count] is added for every entry
    but the last. *)
Lemma skip_to_ok fuel s i m count : prep s i -> (i < m <= length es)%nat -> (m <= i + fuel)%nat ->
  exists s', skip_to fuel Parse (offs v4 es m) count s = Some s' /\
    cur_entry_idx_ s' = cur_entry_idx_ s + count * (Z.of_nat m - 1 - Z.of_nat i) /\
    forall idx, (trk = true -> idx = Z.of_nat m - 1) -> at_pos (set_idx s' idx) (Some (m - 1)%nat).
Proof.
  revert s i. induction fuel as [|fuel IH]; intros s i Hprep Him Hf; [lia|]. cbn [skip_to].
  destruct (parse_prep s i (Z.of_nat i) Hprep ltac:(done)) as (ok & sh & s1 & -> & -> & Hidx & Hr & Hat).
  cbn [mbind option_bind]. rewrite bool_decide_true by lia. cbn [andb].
  rewrite posn_lt in Hat by lia. rewrite bool_decide_true in Hr by lia. specialize (Hr eq_refl).
  rewrite (ready_next _ _ Hr). destruct (decide (S i = m)) as [<-|Hne].
  - rewrite Z.ltb_irrefl. exists s1. split; [done|]. split; [lia|].
    intros idx Hi. cbn. rewrite Nat.sub_0_r. destruct Hat as (H1 & H2 & H3 & e & Hp & Hx & Ht).
    split; [done|]. split; [done|]. split; [done|]. exists e. split_and!; try done; [destruct Hp; by split|].
    intros Htr. cbn. rewrite (Hi Htr). lia.
  - pose proof (offs_lt (S i) m ltac:(lia)). destruct (Z.ltb_spec (offs v4 es (S i)) (offs v4 es m)); [|lia].
    destruct (IH (set_idx s1 (cur_entry_idx_ s1 + count)) (S i)) as (s2 & -> & Hi2 & Hat2).
    + apply at_pos_prep in Hat as [? ? ? ?]. split; try done. destruct Hr. by split.
    + lia.
    + lia.
    + exists s2. split; [done|]. split; [|done]. rewrite Hi2. cbn. rewrite Hidx. lia.
Qed.

Definition SeekToLast_of (s : St X) : option (St X) :=
  s ← SeekToRestartPoint c s (c_num_restarts c - 1);
  let s := set_idx s (s32 (u32 ((c_num_restarts c - 1) * c_block_restart_interval c))) in
  skip_to (scan_fuel c) Parse (c_restarts c) 1 s.

Lemma prep_set_idx s i idx : prep s i -> prep (set_idx s idx) i.
Proof. intros [Hr ? ? ?]. split; try done. destruct Hr. by split. Qed.

Lemma at_pos_same_idx s p : at_pos (set_idx s (cur_entry_idx_ s)) p -> at_pos s p.
Proof. by destruct s. Qed.

Lemma SeekToLast_ok s : status_ s = OK -> a_user (raw_key_ s) = uk -> Xg (sub_ s) ->
  exists s', SeekToLast_of s = Some s' /\ at_pos s' (posn (length es - 1)).
Proof.
  intros Hst Hu Hg. unfold SeekToLast_of. pose proof num_pos as Hn. rewrite Hnum in Hn. unfold slen in Hn.
  set (j := (length rs - 1)%nat). assert (c_num_restarts c - 1 = Z.of_nat j) as -> by (rewrite Hnum; unfold slen; lia).
  destruct (restart_prep s j ltac:(lia) Hu Hg Hst) as (s1 & -> & Hprep & _). cbn [mbind option_bind].
  apply (prep_set_idx _ _ (s32 (u32 (Z.of_nat j * c_block_restart_interval c)))) in Hprep.
  destruct (decide (length es = 0)%nat) as [Hl|Hl].
  - rewrite Nat.min_r in Hprep by lia. pose proof fuel_enough. destruct (scan_fuel c) as [|f]; [lia|].
    cbn [skip_to]. rewrite Parse_end by apply Hprep. cbn. eexists. split; [done|]. rewrite posn_ge by lia.
    destruct Hprep as [Hr Hx Hri Hs1]. split; [done|]. split; [apply (rd_user _ _ Hr)|]. split; [by eapply Xr_g|done].
  - pose proof (restart_entry j ltac:(lia) ltac:(lia)) as Hlt. rewrite Nat.min_l in Hprep by lia.
    rewrite Hrestarts. rewrite <- (offs_all v4 es (length es)) by lia.
    destruct (skip_to_ok (scan_fuel c) _ (j * r) (length es) 1 Hprep) as (s2 & -> & Hi2 & Hat).
    + lia.
    + pose proof fuel_enough. lia.
    + exists s2. split; [done|]. rewrite posn_lt by lia. apply at_pos_same_idx, Hat.
      intros Ht. rewrite Hi2. cbn [cur_entry_idx_ set_idx]. rewrite restart_idx by (done || lia). lia.
Qed.

(** **** Backwards *)

(** [PrevImpl] of the index and meta iterators. *)
Definition Prev_of (s : St X) : option (St X) :=
  let original := current_ s in
  r ← back_up c (S (Z.to_nat (restart_index_ s))) original s;
  let '(at_end, s) := r in
  if (at_end : bool) then Some s
  else
    s ← SeekToRestartPoint c s (restart_index_ s);
    s ← skip_to (scan_fuel c) Parse original 0 s;
    Some (set_idx s (cur_entry_idx_ s - 1)).

Definition prev_pos (i : nat) : option nat := match i with O => None | S i => Some i end.

Lemma Prev_of_ok s i : at_pos s (Some i) -> exists s', Prev_of s = Some s' /\ at_pos s' (prev_pos i).
Proof.
  intros (Hst & Hu & Hg & e & Hp & Hx & Ht). pose proof (lookup_lt_Some _ _ _ (pr_ent _ _ _ _ Hp)) as Hi.
  unfold Prev_of. rewrite (pr_cur _ _ _ _ Hp). pose proof (pr_ri _ _ _ _ Hp) as Hri.
  destruct (back_up_ok (S (Z.to_nat (restart_index_ s))) s i Hi Hri ltac:(lia)) as (j & Hj & -> & Hji).
  destruct i as [|i]; cbn [Nat.eqb mbind option_bind].
  { eexists. split; [done|]. split; [done|]. split; [done|]. split; done. }
  set (s0 := set_pos s (current_ s) (Z.of_nat j)). change (restart_index_ s0) with (Z.of_nat j).
  destruct (restart_prep s0 j Hj Hu Hg Hst) as (s1 & -> & Hprep & (_ & _ & _ & Hidx & _) & _).
  cbn [mbind option_bind]. rewrite Nat.min_l in Hprep by lia.
  destruct (skip_to_ok (scan_fuel c) s1 (j * r) (S i) 0 Hprep) as (s2 & -> & Hi2 & Hat); [lia|pose proof fuel_enough; lia|].
  cbn [mbind option_bind]. eexists. split; [done|]. cbn [prev_pos].
  replace (Some i) with (Some (S i - 1)%nat) by (f_equal; lia). apply Hat.
  intros Htr. rewrite Hi2, Hidx. cbn. rewrite (Ht Htr). lia.
Qed.

(** **** SeekForPrev *)

(** The last entry that is not greater than the target, or none. *)
Definition is_seek_prev (t : bytes) (p : option nat) : Prop :=
  match p with
  | Some i => K i t <= 0 /\ forall j, (i < j < length es)%nat -> 0 < K j t
  | None => forall j, (j < length es)%nat -> 0 < K j t
  end.

Section SeekForPrev.
Variable Prev : St X -> option (St X).
Hypothesis Prev_ok : forall s i, at_pos s (Some i) -> exists s', Prev s = Some s' /\ at_pos s' (prev_pos i).

Definition SeekForPrev_of (DK : bytes -> Z -> Z -> option (option (Z * Z * Z))) (t : bytes) (s : St X)
    : option (St X) :=
  r ← BinarySeek wild c DK t s;
  match r with
  | inl s => Some s
  | inr (index, skip, s) =>
      s ← FindKeyAfterBinarySeek c Next_of t index skip s;
      if negb (Iter_Valid c s)
      then if ok (status_ s) then SeekToLast_of s else Some s
      else prev_loop c (scan_fuel c) Prev t s
  end.

Lemma above t i : increasing t -> 0 <= K i t -> forall j, (i < j < length es)%nat -> 0 < K j t.
Proof.
  intros Hinc Hi j Hj. destruct (Z.ltb_spec 0 (K j t)) as [|Hle]; [done|]. pose proof (Hinc i j Hj Hle). lia.
Qed.

Lemma prev_loop_ok fuel t s i : increasing t -> (0 < fuel)%nat -> at_pos s (Some i) -> is_seek t (Some i) ->
  exists s' p, prev_loop c fuel Prev t s = Some s' /\ at_pos s' p /\ is_seek_prev t p.
Proof.
  intros Hinc Hf Hat [Hge Hlt]. destruct fuel as [|fuel]; [lia|]. cbn [prev_loop].
  rewrite (at_pos_valid _ _ Hat), bool_decide_true by done. cbn [andb].
  destruct (Hat) as (_ & _ & _ & e & Hp & _). rewrite (parsed_compare _ _ _ _ t Hp).
  destruct (Z.ltb_spec 0 (K i t)) as [Hgt|Heq].
  2: { exists s, (Some i). split; [done|]. split; [done|]. split; [lia|]. by apply above. }
  destruct (Prev_ok s i Hat) as (s' & -> & Hat'). cbn [mbind option_bind].
  destruct i as [|i]; cbn [prev_pos] in Hat'.
  - exists s', None. destruct fuel; cbn [prev_loop]; rewrite (at_pos_valid _ _ Hat'), bool_decide_false by auto.
    all: split; [done|]; split; [done|]; intros [|j] Hj; [done|]; apply (above t 0); done || lia.
  - specialize (Hlt i ltac:(lia)). exists s', (Some i).
    destruct (Hat') as (_ & _ & _ & e' & Hp' & _).
    destruct fuel; cbn [prev_loop]; rewrite (parsed_compare _ _ _ _ t Hp').
    all: destruct (Z.ltb_spec 0 (K i t)); [lia|]; rewrite andb_false_r; split; [done|]; split; [done|].
    all: split; [lia|]; intros j Hj; destruct (decide (j = S i)) as [->|]; [done|]; apply (above t (S i)); done || lia.
Qed.

Lemma SeekForPrev_ok DK t s p :
  (forall i e, es !! i = Some e -> DK data (offs v4 es i) (c_restarts c) =
     Some (Some (offs v4 es i + hdr_len e, e_shared e, slen (e_key e) - e_shared e))) ->
  increasing t -> at_pos s p ->
  exists s' p', SeekForPrev_of DK t s = Some s' /\ at_pos s' p' /\ is_seek_prev t p'.
Proof.
  intros HDK Hinc Hat. pose proof (Seek_ok DK t s p HDK Hinc Hat) as (s1 & p1 & HS & Hat1 & Hsk).
  unfold SeekForPrev_of. unfold Seek_of in HS.
  destruct (BinarySeek wild c DK t s) as [[s2|[[index skip] s2]]|] eqn:HB; [| |done]; cbn [mbind option_bind] in HS |- *.
  - injection HS as ->. exists s1, p1. split; [done|]. split; [done|].
    destruct (decide (length es = 0)%nat) as [Hl|Hl].
    + pose proof (no_entries s1 p1 Hat1 Hl) as ->. intros j Hj. lia.
    + destruct (BinarySeek_ok DK HDK t Hinc s ltac:(lia)) as (j & sk & s' & HB' & _); [apply Hat|]. congruence.
  - rewrite HS. cbn [mbind option_bind]. rewrite (at_pos_valid _ _ Hat1). destruct p1 as [i|].
    + rewrite bool_decide_true by done. cbn [negb]. apply (prev_loop_ok _ t s1 i); try done.
      pose proof fuel_enough. lia.
    + rewrite bool_decide_false by auto. cbn [negb]. destruct Hat1 as (Hst & Hu & Hg & _). rewrite Hst. cbn [ok].
      destruct (SeekToLast_ok s1 Hst Hu Hg) as (s3 & -> & Hat3). exists s3, (posn (length es - 1)).
      split; [done|]. split; [done|]. unfold posn. destruct (decide (length es - 1 < length es)%nat).
      * split; [|intros; lia]. specialize (Hsk (length es - 1)%nat ltac:(lia)). lia.
      * intros j Hj. lia.
Qed.
End SeekForPrev.
End Moves.

(** ** DataBlockIter *)

Section Data.
Hypothesis Hf : v4 = false.
Variable trk : bool.
Hypothesis Htrk : trk = true ->
  c_block_restart_interval c = Z.of_nat r \/ (length rs = 1%nat /\ c_block_restart_interval c = 0).

(** A cached entry is entry [i] of the block. *)
Definition cached_entry (buff : bytes) (i : nat) (pe : CachedPrevEntry) : Prop :=
  exists e, es !! i = Some e /\ pe_offset pe = offs v4 es i /\
    pe_value pe = (offs v4 es i + hdr_len e + (slen (e_key e) - e_shared e), slen (e_val e)) /\
    match pe_key_ptr pe with
    | Some p => stake (pe_key_size pe) p = disp (e_key e)
    | None => bread buff (pe_key_offset pe) (pe_key_size pe) = Some (disp (e_key e))
    end.

(** The cache holds consecutive entries, from entry [i0] on. *)
Definition cached (x : DataSub) (i0 : nat) : Prop :=
  forall k pe, prev_entries_ x !! k = Some pe -> cached_entry (prev_entries_keys_buff_ x) (i0 + k) pe.

Definition cache_ok (x : DataSub) : Prop := exists i0, cached x i0.

Lemma Data_Parse_end (s : St DataSub) : ready s (length es) ->
  DataBlockIter.ParseNextDataKey wild c s = Some (false, false, set_pos s (c_restarts c) (c_num_restarts c)).
Proof. apply ParseNextKey_end. Qed.

Lemma Data_Parse_ok (s : St DataSub) i e : ready s i -> cache_ok (sub_ s) -> es !! i = Some e ->
  0 <= restart_index_ s < c_num_restarts c ->
  exists sh s', DataBlockIter.ParseNextDataKey wild c s = Some (true, sh, s') /\
    parsed s' i e (slen (e_val e)) /\ cache_ok (sub_ s') /\
    status_ s' = status_ s /\ cur_entry_idx_ s' = cur_entry_idx_ s.
Proof.
  intros Hr Hx He Hri.
  destruct (ParseNextKey_entry DecodeEntry (slen (e_val e)) s i e Hr He (DecodeEntry_ok i e Hf He) Hri)
    as (s' & HP & Hp & Hst & _ & _ & Hi & Hsub).
  eexists _, s'. split; [exact HP|]. split; [done|]. by rewrite Hsub.
Qed.

Let dpos := at_pos (X := DataSub) cache_ok (fun x _ => cache_ok x) trk.

Lemma bread_extend (b more : bytes) off n v : bread b off n = Some v -> bread (b ++ more) off n = Some v.
Proof.
  unfold bread. rewrite slen_app. slen_facts.
  destruct (Z.leb_spec 0 off), (Z.leb_spec 0 n); cbn [andb]; try done.
  destruct (Z.leb_spec (off + n) (slen b)); [|done]. destruct (Z.leb_spec (off + n) (slen b + slen more)); [|lia].
  cbn [andb]. intros [= <-]. f_equal. rewrite sdrop_app_le by lia.
  rewrite stake_app_le; [done|]. rewrite slen_sdrop; lia.
Qed.

Lemma bread_tail (b v : bytes) : bread (b ++ v) (slen b) (slen v) = Some v.
Proof. apply (bread_app _ b v []); [by rewrite app_nil_r|done..]. Qed.

(** One turn of the caching loop. *)
Definition cache_push (s : St DataSub) : DataSub :=
  let k := raw_key_ s in
  let x := sub_ s in
  if a_pinned k then
    {| prev_entries_keys_buff_ := prev_entries_keys_buff_ x;
       prev_entries_ := prev_entries_ x ++
         [{| pe_offset := current_ s; pe_key_ptr := Some (a_key k); pe_key_offset := 0;
             pe_key_size := slen (a_key k); pe_value := value_ s |}];
       prev_entries_idx_ := prev_entries_idx_ x |}
  else
    {| prev_entries_keys_buff_ := prev_entries_keys_buff_ x ++ a_key k;
       prev_entries_ := prev_entries_ x ++
         [{| pe_offset := current_ s; pe_key_ptr := None; pe_key_offset := slen (prev_entries_keys_buff_ x);
             pe_key_size := slen (a_key k); pe_value := value_ s |}];
       prev_entries_idx_ := prev_entries_idx_ x |}.

Lemma cache_push_ok s i e i0 : parsed s i e (slen (e_val e)) -> cached (sub_ s) i0 ->
  i = (i0 + length (prev_entries_ (sub_ s)))%nat ->
  cached (cache_push s) i0 /\ length (prev_entries_ (cache_push s)) = S (length (prev_entries_ (sub_ s))).
Proof.
  intros [He Hc Hu Hk Hv _] Hx ->. unfold cache_push. destruct (a_pinned (raw_key_ s)); cbn [prev_entries_ prev_entries_keys_buff_].
  - split; [|rewrite length_app; cbn; lia]. intros k pe [Hin|[Hge [Hk0 <-]%list_lookup_singleton_Some]]%lookup_app_Some; [by apply Hx|].
    assert (i0 + k = i0 + length (prev_entries_ (sub_ s)))%nat as -> by lia.
    exists e. cbn. split_and!; try done. by rewrite stake_all by lia.
  - split; [|rewrite length_app; cbn; lia]. intros k pe [Hin|[Hge [Hk0 <-]%list_lookup_singleton_Some]]%lookup_app_Some.
    + destruct (Hx k pe Hin) as (e' & H1 & H2 & H3 & H4). exists e'. split_and!; try done.
      cbn. destruct (pe_key_ptr pe); [done|]. by apply bread_extend.
    + assert (i0 + k = i0 + length (prev_entries_ (sub_ s)))%nat as -> by lia.
      exists e. cbn. split_and!; try done. by rewrite bread_tail, Hk.
Qed.

Lemma cache_loop_ok fuel s i0 i m : ready s i -> 0 <= restart_index_ s < c_num_restarts c -> status_ s = OK ->
  cached (sub_ s) i0 -> i = (i0 + length (prev_entries_ (sub_ s)))%nat -> (i < m <= length es)%nat ->
  (m <= i + fuel)%nat ->
  exists s' e, DataBlockIter.cache_loop wild c fuel (offs v4 es m) s = Some s' /\
    parsed s' (m - 1) e (slen (e_val e)) /\ cached (sub_ s') i0 /\
    m = (i0 + length (prev_entries_ (sub_ s')))%nat /\
    status_ s' = OK /\ cur_entry_idx_ s' = cur_entry_idx_ s.
Proof.
  revert s i. induction fuel as [|fuel IH]; intros s i Hr Hri Hst Hx Hi Him Hfu; [lia|].
  cbn [DataBlockIter.cache_loop]. destruct (lookup_lt_is_Some_2 es i) as [e He]; [lia|].
  destruct (ParseNextKey_entry DecodeEntry (slen (e_val e)) s i e Hr He (DecodeEntry_ok i e Hf He) Hri)
    as (s1 & HP & Hp & Hst1 & _ & _ & Hi1 & Hsub). unfold DataBlockIter.ParseNextDataKey. rewrite HP.
  cbn [mbind option_bind negb]. fold (cache_push s1).
  destruct (cache_push_ok s1 i e i0 Hp) as [Hx1 Hl1]; [by rewrite Hsub|by rewrite Hsub|].
  set (s2 := set_sub s1 (cache_push s1)).
  assert (parsed s2 i e (slen (e_val e))) as Hp2 by (destruct Hp; by split).
  pose proof (parsed_ready s2 i e Hp2) as Hr2. rewrite (ready_next _ _ Hr2).
  destruct (decide (S i = m)) as [<-|Hne].
  - rewrite Z.ltb_irrefl. exists s2, e. cbn [Nat.sub]. rewrite Nat.sub_0_r. split_and!; try done.
    + cbn. rewrite Hl1, Hsub. lia.
    + cbn. congruence.
  - pose proof (offs_lt (S i) m ltac:(lia)). destruct (Z.ltb_spec (offs v4 es (S i)) (offs v4 es m)); [|lia].
    destruct (IH s2 (S i)) as (s' & e' & -> & Hres); try done; try lia.
    + apply Hp2.
    + cbn. congruence.
    + cbn. rewrite Hl1, Hsub. lia.
    + exists s', e'. destruct Hres as (? & ? & ? & ? & Hres). split_and!; try done. rewrite Hres. by cbn.
Qed.

Lemma Data_Prev_ok s i : dpos s (Some i) ->
  exists s', DataBlockIter.PrevImpl wild c s = Some s' /\ dpos s' (prev_pos i).
Proof.
  intros (Hst & Hu & [i0 Hx] & e & Hp & _ & Ht). pose proof (lookup_lt_Some _ _ _ (pr_ent _ _ _ _ Hp)) as Hi.
  unfold DataBlockIter.PrevImpl. cbn [set_idx sub_ current_ restart_index_ raw_key_]. rewrite (pr_cur _ _ _ _ Hp).
  set (x := sub_ s) in *. set (hit := if 0 <? prev_entries_idx_ x then _ else false).
  destruct hit eqn:Hhit.
  - (* from the cache *)
    unfold hit in Hhit. destruct (Z.ltb_spec 0 (prev_entries_idx_ x)) as [Hidx|]; [|done].
    destruct (prev_entries_ x !! Z.to_nat (prev_entries_idx_ x)) as [pe|] eqn:Hpe; [|done].
    apply Z.eqb_eq in Hhit. destruct (Hx _ _ Hpe) as (e1 & He1 & Ho1 & _).
    assert (i0 + Z.to_nat (prev_entries_idx_ x) = i)%nat as Hii.
    { apply lookup_lt_Some in He1. apply offs_inj; lia. }
    destruct (lookup_lt_is_Some_2 (prev_entries_ x) (Z.to_nat (prev_entries_idx_ x - 1))) as [pe2 Hpe2].
    { apply lookup_lt_Some in Hpe. lia. }
    rewrite Hpe2. cbn [mbind option_bind]. destruct (Hx _ _ Hpe2) as (e2 & He2 & Ho2 & Hv2 & Hk2).
    replace (i0 + Z.to_nat (prev_entries_idx_ x - 1))%nat with (i - 1)%nat in * by lia.
    assert (exists b, match pe_key_ptr pe2 with
      | Some p => (Some (stake (pe_key_size pe2) p), false)
      | None => (bread (prev_entries_keys_buff_ x) (pe_key_offset pe2) (pe_key_size pe2), true)
      end = (Some (disp (e_key e2)), b)) as [b ->].
    { destruct (pe_key_ptr pe2); rewrite Hk2; eauto. }
    cbn [mbind option_bind]. eexists. split; [done|]. destruct i as [|i]; [lia|]. cbn [prev_pos].
    cbn [Nat.sub] in *. rewrite Nat.sub_0_r in *.
    split; [done|]. split; [done|]. split; [by exists i0|]. exists e2. split; [|split; [by exists i0|]].
    + split; cbn; try done. apply Hp.
    + intros Htr. cbn. specialize (Ht Htr). lia.
  - (* by scanning *)
    clear hit Hhit. set (s0 := set_sub _ DataSub_init). pose proof (pr_ri _ _ _ _ Hp) as Hri.
    change (restart_index_ s0) with (restart_index_ s). change (current_ s0) with (current_ s).
    rewrite (pr_cur _ _ _ _ Hp).
    destruct (back_up_ok (X := DataSub) (S (Z.to_nat (restart_index_ s))) s0 i Hi Hri ltac:(cbn; lia)) as (j & Hj & -> & Hji).
    destruct i as [|i]; cbn [Nat.eqb mbind option_bind].
    { eexists. split; [done|]. split; [done|]. split; [done|]. split; [by exists 0%nat|done]. }
    set (s1 := set_pos s0 (current_ s0) (Z.of_nat j)). change (restart_index_ s1) with (Z.of_nat j).
    destruct (SeekToRestartPoint_ready s1 j Hj Hu) as (s2 & -> & Hr2 & Hri2 & _ & Hst2 & _ & _ & Hi2 & Hx2).
    cbn [mbind option_bind]. rewrite Nat.min_l in Hr2 by lia.
    destruct (cache_loop_ok (scan_fuel c) s2 (j * r) (j * r) (S i)) as (s3 & e3 & -> & Hp3 & Hx3 & _ & Hst3 & Hi3); try done.
    + rewrite Hri2, Hnum. unfold slen. lia.
    + rewrite Hst2. done.
    + rewrite Hx2. done.
    + rewrite Hx2. cbn. lia.
    + lia.
    + pose proof (fuel_enough). lia.
    + cbn [mbind option_bind]. eexists. split; [done|]. cbn [prev_pos]. cbn [Nat.sub] in Hp3. rewrite Nat.sub_0_r in Hp3.
      split; [done|]. split; [apply Hp3|]. split; [by exists (j * r)%nat|].
      exists e3. split; [destruct Hp3; by split|]. split; [by exists (j * r)%nat|].
      intros Htr. cbn. rewrite Hi3, Hi2. cbn. specialize (Ht Htr). lia.
Qed.
End Data.
End Layout.
