(* ===== verification/BlockRefine.v ===== *)
(** * Blocks, from building to iterating

    The theorems about a data block as its users see it: what [BlockBuilder]
    wrote is what a [DataBlockIter] over the block shows, for every sequence of
    its operations, with delta encoding on or off, with user-defined timestamps
    that are not persisted, with a global sequence number, and with or without
    per-entry checksums; and a point lookup through the hash index finds what a
    search finds. *)

From Stdlib Require Import Sorting.Sorted.
From S2P Require Import Prelude Coding Slice Comparator DbFormat IterKey KvChecksum TableFormat.
From S2P Require Import Binary64 BlockBuilder Block BlockIter.

(** ** The block that was built *)

Definition finished (b0 : BlockBuilder) (kvs : list KVD) : bytes :=
  buffer_ (BlockBuilder_Finish (fold_left Add_kvd kvs b0)).

Section Parsed.
Variable b0 : BlockBuilder.
Variable kvs : list KVD.
Let v4 := use_value_delta_encoding_ b0.
Let es := ents b0 kvs.
Let rs := rs_of b0 es.
Let b := built b0 kvs (ents_run b0 kvs).2.

Definition block_tail : bytes :=
  hash_bytes (built b0 kvs (ents_run b0 kvs).2) ++
  EncodeFixed32 (PackIndexTypeAndNumRestarts (index_type_of (built b0 kvs (ents_run b0 kvs).2))
    (u32 (slen (rs_of b0 (ents b0 kvs))))).

Hypothesis Hfresh : is_fresh b0.
Hypothesis Hok : Forall (kvd_ok b0) kvs.
Hypothesis Hsize : slen (enc_ents v4 es) + 4 * slen rs + slen block_tail < 2 ^ 31.

Lemma enc_small : slen (enc_ents v4 es) < 2 ^ 32.
Proof. slia. Qed.

Lemma finished_bytes : finished b0 kvs = enc_ents v4 es ++ concat (EncodeFixed32 <$> rs) ++ block_tail.
Proof.
  unfold finished. rewrite (Add_built b0 Hfresh kvs Hok enc_small), Finish_buffer. done.
Qed.

Lemma finished_size : slen (finished b0 kvs) = slen (enc_ents v4 es) + 4 * slen rs + slen block_tail.
Proof. rewrite finished_bytes, !slen_app, slen_restarts. lia. Qed.

(** [Block] finds the parts. *)
Lemma Block_make_finished :
  Block_make (finished b0 kvs) =
  {| b_data := finished b0 kvs; size_ := slen (finished b0 kvs); restart_offset_ := slen (enc_ents v4 es);
     b_num_restarts_ := slen rs;
     b_num_buckets_ := if hash_used b then HIB_num_buckets (data_block_hash_index_builder_ b) else 0;
     b_kv_checksum_ := None; checksum_size_ := 0; b_block_restart_interval_ := 0;
     b_protection_bytes_per_key_ := 0 |} /\ 8 <= slen (finished b0 kvs) /\ 0 < slen rs.
Proof.
  pose proof finished_size as Hfs. pose proof finished_bytes as Hfb.
  assert (0 < slen rs) as Hrs.
  { unfold rs, rs_of, slen. rewrite length_fmap, length_seq.
    pose proof (nrestarts_pos (Z.to_nat (block_restart_interval_ b0)) (length es)). unfold es in *. lia. }
  pose proof (slen_hash_bytes b) as Hhl.
  pose proof (num_buckets_range (data_block_hash_index_builder_ b)) as Hnb.
  pose proof (estimate_buckets (data_block_hash_index_builder_ b)) as Heb.
  assert (u32 (slen rs) = slen rs) as Hu by (apply u32_id; unfold is_u32; slia).
  destruct (unpack_pack_restarts (index_type_of b) (slen rs)) as [Hun Hpu].
  { change kMaxNumRestarts with (2 ^ 31 - 1). slia. }
  assert (block_tail = hash_bytes b ++ EncodeFixed32 (PackIndexTypeAndNumRestarts (index_type_of b) (slen rs))) as Htail.
  { unfold block_tail. fold b es rs. by rewrite Hu. }
  set (footer := PackIndexTypeAndNumRestarts (index_type_of b) (slen rs)) in *.
  assert (slen block_tail = slen (hash_bytes b) + 4) as Htl by (rewrite Htail, slen_app, slen_EncodeFixed32; done).
  slen_facts. split; [|lia]. unfold Block_make.
  destruct (Z.ltb_spec (slen (finished b0 kvs)) 4); [lia|].
  assert (DecodeFixed32 (sdrop (slen (finished b0 kvs) - 4) (finished b0 kvs)) = footer) as Hft.
  { rewrite Hfb, Htail, !app_assoc, drop_tail by apply slen_EncodeFixed32.
    rewrite <- (app_nil_r (EncodeFixed32 _)). by apply DecodeFixed32_Encode. }
  unfold NumRestarts, IndexType. rewrite Hft, Hun. cbn [fst snd].
  unfold index_type_of in *. destruct (hash_used b) eqn:Hhu.
  - (* with a hash index *)
    assert (slen (finished b0 kvs) <= 2 ^ 16) as Hsm.
    { unfold finished. rewrite (Add_built b0 Hfresh kvs Hok enc_small). fold b.
      rewrite (Finish_size b eq_refl), Hhu. unfold hash_used in Hhu.
      apply andb_prop in Hhu as [Hv Hle%Z.leb_le]. unfold CurrentSizeEstimate in Hle. by rewrite Hv in Hle. }
    change kMaxBlockSizeSupportedByHashIndex with (2 ^ 16).
    destruct (Z.ltb_spec (2 ^ 16) (slen (finished b0 kvs))); [lia|].
    destruct (Z.ltb_spec (slen (finished b0 kvs)) (4 + 2)); [lia|].
    rewrite (u16_id (slen (finished b0 kvs) - 4)) by (unfold is_u16; lia).
    unfold HI_Initialize.
    assert (DecodeFixed16 (sdrop (slen (finished b0 kvs) - 4 - 2) (finished b0 kvs)) =
            HIB_num_buckets (data_block_hash_index_builder_ b)) as ->.
    { rewrite Hfb, Htail. unfold hash_bytes. rewrite Hhu, <- app_assoc, !app_assoc.
      rewrite <- (app_assoc _ (EncodeFixed16 _)).
      replace (slen _ - 4 - 2) with (slen (((enc_ents v4 es ++ concat (EncodeFixed32 <$> rs)) ++
        (to_byte <$> HIB_buckets (data_block_hash_index_builder_ b))) ++
        EncodeFixed16 (HIB_num_buckets (data_block_hash_index_builder_ b)) ++ EncodeFixed32 footer) - 6) by lia.
      rewrite drop_tail by (rewrite slen_app, slen_EncodeFixed16, slen_EncodeFixed32; done).
      apply DecodeFixed16_Encode. unfold is_u16. lia. }
    rewrite u16_id by (unfold is_u16; lia).
    replace (slen (finished b0 kvs) - 4 - 2 - HIB_num_buckets (data_block_hash_index_builder_ b) - slen rs * 4)
      with (slen (enc_ents v4 es)) by lia.
    rewrite u32_id by (unfold is_u32; lia).
    destruct (Z.ltb_spec (slen (finished b0 kvs) - 4 - 2 - HIB_num_buckets (data_block_hash_index_builder_ b))
      (slen (enc_ents v4 es))); [lia|done].
  - (* without *)
    assert ((if kMaxBlockSizeSupportedByHashIndex <? slen (finished b0 kvs) then footer else slen rs) = slen rs) as ->.
    { by destruct (_ <? _). }
    assert ((if kMaxBlockSizeSupportedByHashIndex <? slen (finished b0 kvs) then kDataBlockBinarySearch
             else kDataBlockBinarySearch) = kDataBlockBinarySearch) as -> by (by destruct (_ <? _)).
    rewrite !u32_id by (unfold is_u32; rewrite ?u32_id; unfold is_u32; lia).
    replace (slen (finished b0 kvs) - (1 + slen rs) * 4) with (slen (enc_ents v4 es)) by lia.
    destruct (Z.ltb_spec (slen (finished b0 kvs) - 4) (slen (enc_ents v4 es))); [lia|done].
Qed.
End Parsed.

(** ** Keys as they are shown *)

(** The key of an entry after the timestamp, if it is not persisted, was
    replaced by the minimum, and a global sequence number was applied. *)
Definition shown_key (ts_sz : Z) (persisted : bool) (g : Z) (k : bytes) : bytes :=
  let k := if (0 <? ts_sz) && negb persisted then ReplaceInternalKeyWithMinTimestamp [] k ts_sz else k in
  if g =? kDisableGlobalSequenceNumber then k
  else ExtractUserKey k ++ EncodeFixed64 (PackSequenceAndType g (ExtractValueType k)).

Section Keys.
Context (ucmp : Comparator) {Hc : ComparatorOk ucmp}.

Lemma IKCompare_strict a b t : 8 <= slen a -> 8 <= slen b -> 8 <= slen t ->
  IKCompare ucmp a b < 0 -> IKCompare ucmp b t <= 0 -> IKCompare ucmp a t < 0.
Proof.
  intros Ha Hb Ht. destruct (internal_key_shape a Ha) as (u & w & Hw & ->).
  destruct (internal_key_shape b Hb) as (v & x & Hx & ->). destruct (internal_key_shape t Ht) as (y & z & Hz & ->).
  rewrite !IKCompare_app by done. intros H1 H2.
  destruct (Z.ltb_spec (ik_order ucmp u w y z) 0) as [|Hge]; [done|exfalso].
  assert (ik_order ucmp y z u w <= 0) as H3.
  { destruct (Z.leb_spec (ik_order ucmp y z u w) 0) as [|Hgt]; [done|].
    apply (proj2 (ik_order_flip ucmp u w y z)) in Hgt. lia. }
  pose proof (ik_order_trans ucmp _ _ _ _ _ _ H2 H3) as H4.
  apply (proj1 (ik_order_flip ucmp u w v x)) in H1. lia.
Qed.

Lemma IKCompare_global_shown k g t : 8 <= slen k -> 8 <= slen t -> valid_seq g ->
  IKCompare_global ucmp k g t kDisableGlobalSequenceNumber =
  IKCompare ucmp (ExtractUserKey k ++ EncodeFixed64 (PackSequenceAndType g (ExtractValueType k))) t.
Proof.
  intros Hk Ht Hg. destruct (internal_key_shape k Hk) as (u & w & Hw & ->).
  destruct (internal_key_shape t Ht) as (y & z & Hz & ->).
  set (ty := ExtractValueType (u ++ EncodeFixed64 w)).
  assert (is_u64 (PackSequenceAndType g ty)) as Hpk.
  { apply pack_range; [done|]. unfold ty, ExtractValueType. rewrite ExtractInternalKeyFooter_app by done.
    apply (unpack_range w Hw). }
  rewrite ExtractUserKey_app, IKCompare_app by done. unfold IKCompare_global.
  rewrite !ExtractUserKey_app, Z.eqb_refl. fold ty.
  assert (g <> kDisableGlobalSequenceNumber) as Hne.
  { unfold valid_seq in Hg. rewrite kMaxSequenceNumber_val in Hg. unfold kDisableGlobalSequenceNumber. lia. }
  destruct (Z.eqb_spec g kDisableGlobalSequenceNumber); [done|].
  rewrite !ExtractInternalKeyFooter_app by done. unfold ik_order. repeat zcase.
Qed.
End Keys.

(** Stripping when the block is written and padding when it is read. *)
Lemma pad_strip_key k ts_sz : 0 < ts_sz -> ts_sz + 8 <= slen k ->
  PadInternalKeyWithMinTimestamp [] (StripTimestampFromInternalKey [] k ts_sz) ts_sz =
  ReplaceInternalKeyWithMinTimestamp [] k ts_sz /\ 8 <= slen (ReplaceInternalKeyWithMinTimestamp [] k ts_sz) /\
  8 <= slen (StripTimestampFromInternalKey [] k ts_sz).
Proof.
  intros Hts Hk. destruct (internal_key_shape k) as (u' & w & Hw & ->); [lia|].
  rewrite slen_app, slen_EncodeFixed64 in Hk.
  rewrite <- (stake_sdrop (slen u' - ts_sz) u').
  rewrite Strip_app, PadMin_app, Replace_app by (rewrite slen_sdrop; lia).
  rewrite !slen_app, slen_EncodeFixed64. split; [done|slia].
Qed.

(** ** The iterator over a built data block *)

Inductive IterOp := OpSeekToFirst | OpSeekToLast | OpSeek (target : bytes) | OpSeekForPrev (target : bytes)
| OpNext | OpPrev.

(** The cursor: the positions of the keys that satisfy a test. *)
Definition positions (P : bytes -> bool) (ks : list bytes) : list nat :=
  filter (fun i => P (default [] (ks !! i)) = true) (seq 0 (length ks)).

(** A step of the abstract cursor over a sorted list of keys; [None] when the
    operation is not allowed. *)
Definition cursor_step (cmp : bytes -> bytes -> Z) (ks : list bytes) (p : option nat) (o : IterOp)
    : option (option nat) :=
  match o with
  | OpSeekToFirst => Some (if (0 <? length ks)%nat then Some 0%nat else None)
  | OpSeekToLast => Some (if (0 <? length ks)%nat then Some (length ks - 1)%nat else None)
  | OpSeek t => if slen t <? 8 then None else Some (head (positions (fun k => 0 <=? cmp k t) ks))
  | OpSeekForPrev t => if slen t <? 8 then None else Some (list.last (positions (fun k => cmp k t <=? 0) ks))
  | OpNext => i ← p; Some (if (S i <? length ks)%nat then Some (S i) else None)
  | OpPrev => i ← p; Some (match i with O => None | S i => Some i end)
  end.

Definition cursor_run (cmp : bytes -> bytes -> Z) (ks : list bytes) (os : list IterOp) : option (option nat) :=
  foldl (fun p o => p ← p; cursor_step cmp ks p o) (Some None) os.

Definition data_step (wild : Z) (Hash64 : bytes -> Z -> Z) (c : Cfg) (s : DataBlockIter.It) (o : IterOp)
    : option DataBlockIter.It :=
  match o with
  | OpSeekToFirst => DataBlockIter.SeekToFirst wild Hash64 c s
  | OpSeekToLast => DataBlockIter.SeekToLast wild Hash64 c s
  | OpSeek t => DataBlockIter.Seek wild Hash64 c t s
  | OpSeekForPrev t => DataBlockIter.SeekForPrev wild Hash64 c t s
  | OpNext => DataBlockIter.Next wild Hash64 c s
  | OpPrev => DataBlockIter.Prev wild Hash64 c s
  end.

Definition data_run (wild : Z) (Hash64 : bytes -> Z -> Z) (c : Cfg) (s : DataBlockIter.It) (os : list IterOp)
    : option DataBlockIter.It :=
  foldl (fun s o => s ← s; data_step wild Hash64 c s o) (Some s) os.

(** What a user sees: validity, status, key and value. *)
Definition shows (c : Cfg) (s : DataBlockIter.It) (kvs : list (bytes * bytes)) (p : option nat) : Prop :=
  status_ s = OK /\ Iter_Valid c s = bool_decide (p <> None) /\
  forall i, p = Some i -> exists k v, kvs !! i = Some (k, v) /\ ukey_ s = k /\ value_bytes c s = Some v.

Section FilterSeq.
Context (P : nat -> Prop) `{!forall i, Decision (P i)}.

Lemma filter_none a n : (forall j, (a <= j < a + n)%nat -> ~ P j) -> filter P (seq a n) = [].
Proof.
  revert a. induction n as [|n IH]; intros a Hn; [done|]. cbn [seq].
  rewrite filter_cons_False by (apply Hn; lia). apply IH. intros j Hj. apply Hn. lia.
Qed.

Lemma filter_seq_first n p :
  match p with
  | Some i => (i < n)%nat /\ P i /\ forall j, (j < i)%nat -> ~ P j
  | None => forall j, (j < n)%nat -> ~ P j
  end -> head (filter P (seq 0 n)) = p.
Proof.
  destruct p as [i|]; intros Hp.
  - destruct Hp as (Hi & HP & Hlt). replace n with (i + S (n - i - 1))%nat by lia.
    rewrite seq_app, list.filter_app, (filter_none 0 i) by (intros; apply Hlt; lia). cbn [seq Nat.add app].
    by rewrite filter_cons_True.
  - rewrite filter_none; [done|]. intros j Hj. apply Hp. lia.
Qed.

Lemma filter_seq_last n p :
  match p with
  | Some i => (i < n)%nat /\ P i /\ forall j, (i < j < n)%nat -> ~ P j
  | None => forall j, (j < n)%nat -> ~ P j
  end -> list.last (filter P (seq 0 n)) = p.
Proof.
  destruct p as [i|]; intros Hp.
  - destruct Hp as (Hi & HP & Hlt). replace n with (i + S (n - i - 1))%nat by lia.
    rewrite seq_app, list.filter_app. cbn [seq Nat.add].
    rewrite filter_cons_True by done. rewrite (filter_none (S i)) by (intros; apply Hlt; lia).
    apply last_snoc.
  - rewrite filter_none; [done|]. intros j Hj. apply Hp. lia.
Qed.
End FilterSeq.

(** ** Data iterators *)

(** Per-entry checksum of a stored entry. *)
Definition sum_of (Hash64 : bytes -> Z -> Z) (prot : Z) (e : Ent) : bytes :=
  default [] (GenerateKVChecksum Hash64 prot (e_key e) (e_val e)).

(** The supported sizes of a per-entry checksum. *)
Definition prot_ok (prot : Z) : Prop := prot = 1 \/ prot = 2 \/ prot = 4 \/ prot = 8.

Lemma Encode_some x prot : prot_ok prot -> exists s, Encode x prot = Some s /\ slen s = prot.
Proof.
  intros [->|[->|[->| ->]]]; eexists.
  all: split; [reflexivity|]. all: first [apply slen_EncodeFixed16 | apply slen_EncodeFixed32 | apply slen_EncodeFixed64 | done].
Qed.

Lemma sum_of_ok Hash64 prot e : prot_ok prot ->
  GenerateKVChecksum Hash64 prot (e_key e) (e_val e) = Some (sum_of Hash64 prot e) /\
  slen (sum_of Hash64 prot e) = prot.
Proof.
  intros Hp. unfold sum_of. destruct (Encode_some (kv_val (ProtectKV 64 Hash64 (PI 0) (e_key e) (e_val e))) prot Hp)
    as (s & Hs & Hl). unfold GenerateKVChecksum. rewrite Hs. done.
Qed.

Lemma slen_sums Hash64 prot es : prot_ok prot -> slen (concat (sum_of Hash64 prot <$> es)) = prot * slen es.
Proof.
  intros Hp. induction es as [|e es IH]; [cbn; rewrite Z.mul_0_r; done|]. cbn.
  rewrite slen_app, IH, (proj2 (sum_of_ok _ _ _ Hp)), slen_cons. lia.
Qed.

Lemma read_sum Hash64 prot es i e : prot_ok prot -> es !! i = Some e ->
  bread (concat (sum_of Hash64 prot <$> es)) (prot * Z.of_nat i) prot = Some (sum_of Hash64 prot e).
Proof.
  intros Hp He. apply (bread_app _ (concat (sum_of Hash64 prot <$> take i es)) _
    (concat (sum_of Hash64 prot <$> drop (S i) es))).
  - rewrite <- (take_drop_middle _ _ _ He) at 1. by rewrite fmap_app, concat_app.
  - rewrite slen_sums by done. apply lookup_lt_Some in He. unfold slen. rewrite length_take. lia.
  - by apply sum_of_ok.
Qed.

(** The restart interval as it is found from a block: 0 when there is only one
    restart point. *)
Definition found_interval (r : nat) (rs : list Z) : Z := if (1 <? length rs)%nat then Z.of_nat r else 0.

Section DataIter.
Variable wild : Z.
Variable Hash64 : bytes -> Z -> Z.
Variable c : Cfg.
Variable r : nat.
Variable es : list Ent.
Variable rs : list Z.
Variable tail : bytes.

Hypothesis Hlay : layout false r es rs.
Hypothesis Hdata : c_data c = Some (enc_ents false es ++ concat (EncodeFixed32 <$> rs) ++ tail).
Hypothesis Hrestarts : c_restarts c = slen (enc_ents false es).
Hypothesis Hnum : c_num_restarts c = slen rs.
Hypothesis Hsize : slen (enc_ents false es ++ concat (EncodeFixed32 <$> rs) ++ tail) < 2 ^ 31.
Hypothesis Hpad : c_pad_min_timestamp c = true ->
  0 <= c_ts_sz c /\ Forall (fun e => kNumInternalBytes <= slen (e_key e)) es.

Let prot := c_protection_bytes_per_key c.

(** Checksums are off, or those of the entries, whose keys are shown as they are
    stored. *)
Hypothesis Hprot : prot = 0 \/ prot_ok prot /\ c_pad_min_timestamp c = false /\
  (c_block_restart_interval c = Z.of_nat r \/ (length rs = 1%nat /\ c_block_restart_interval c = 0)) /\
  c_kv_checksum c = Some (concat (sum_of Hash64 prot <$> es)).

Let trk := 0 <? prot.
Let cok := cache_ok c false es false.

Definition dpos : DataBlockIter.It -> option nat -> Prop :=
  at_pos c false es false (cache_ok c false es false) (fun x _ => cache_ok c false es false x)
    (0 <? c_protection_bytes_per_key c).

Let Hv4 : false = true -> Forall (fun e => 0 < slen (e_val e)) es.
Proof. done. Qed.

Let Hpad' : c_pad_min_timestamp c = true ->
  0 <= c_ts_sz c /\ (false = false -> Forall (fun e => kNumInternalBytes <= slen (e_key e)) es).
Proof. intros H. destruct (Hpad H). done. Qed.

Let Htrk : trk = true ->
  c_block_restart_interval c = Z.of_nat r \/ (length rs = 1%nat /\ c_block_restart_interval c = 0).
Proof. intros H%Z.ltb_lt. destruct Hprot as [|(_ & _ & ? & _)]; [lia|done]. Qed.

Let Parse := DataBlockIter.ParseNextDataKey wild c.

Let Parse_end s : ready c false es false s (length es) ->
  Parse s = Some (false, false, set_pos s (c_restarts c) (c_num_restarts c)).
Proof. by apply (Data_Parse_end wild c false es rs tail). Qed.

Let Parse_ok s i e : ready c false es false s i -> cok (sub_ s) -> es !! i = Some e ->
  0 <= restart_index_ s < c_num_restarts c ->
  exists sh s', Parse s = Some (true, sh, s') /\ parsed c false es false s' i e (slen (e_val e)) /\
    cok (sub_ s') /\ status_ s' = status_ s /\ cur_entry_idx_ s' = cur_entry_idx_ s.
Proof. by eapply Data_Parse_ok. Qed.

Lemma dpos_Next s i : dpos s (Some i) -> exists s', DataBlockIter.NextImpl wild c s = Some s' /\ dpos s' (posn es (S i)).
Proof.
  apply (Next_ok c false r es rs false Hlay Parse cok (fun x _ => cok x) (fun x _ => cok x) trk); auto.
Qed.

Lemma dpos_Prev s i : dpos s (Some i) ->
  exists s', DataBlockIter.PrevImpl wild c s = Some s' /\ dpos s' (prev_pos i).
Proof. by eapply Data_Prev_ok. Qed.

(** Repositioning only needs a good state. *)
Definition sane (s : DataBlockIter.It) : Prop :=
  status_ s = OK /\ a_user (raw_key_ s) = false /\ cache_ok c false es false (sub_ s).

Lemma dpos_sane s p : dpos s p -> sane s.
Proof. by intros (? & ? & ? & _). Qed.

Lemma dpos_SeekToFirst s : sane s ->
  exists s', DataBlockIter.SeekToFirstImpl wild c s = Some s' /\ dpos s' (posn es 0).
Proof.
  intros (H1 & H2 & H3). unfold DataBlockIter.SeekToFirstImpl. rewrite Hdata.
  by apply (SeekToFirst_ok c false r es rs tail false Hlay Hdata Hrestarts Hnum Hsize Parse cok
    (fun x _ => cok x) (fun x _ => cok x) trk); auto.
Qed.

Lemma dpos_SeekToLast s : sane s ->
  exists s', DataBlockIter.SeekToLastImpl wild c s = Some s' /\ dpos s' (posn es (length es - 1)).
Proof.
  intros (H1 & H2 & H3). unfold DataBlockIter.SeekToLastImpl. rewrite Hdata.
  by apply (SeekToLast_ok c false r es rs tail false Hlay Hdata Hrestarts Hnum Hsize Parse cok
    (fun x _ => cok x) (fun x _ => cok x) trk); auto.
Qed.

Lemma dpos_DecodeKey i e : es !! i = Some e ->
  DecodeKey (enc_ents false es ++ concat (EncodeFixed32 <$> rs) ++ tail) (offs false es i) (c_restarts c) =
  Some (Some (offs false es i + hdr_len false e, e_shared e, slen (e_key e) - e_shared e)).
Proof. intros He. by apply (DecodeKey_ok c false r). Qed.

Lemma dpos_Seek t s p : increasing c es false t -> dpos s p ->
  exists s' p', DataBlockIter.SeekImpl wild c t s = Some s' /\ dpos s' p' /\ is_seek c es false t p'.
Proof.
  intros Hinc Hat. unfold DataBlockIter.SeekImpl. rewrite Hdata.
  apply (Seek_ok wild c false r es rs tail false Hlay Hdata Hrestarts Hnum Hsize Hv4 Hpad' Parse cok
    (fun x _ => cok x) (fun x _ => cok x) trk ltac:(auto) ltac:(auto) ltac:(auto) ltac:(auto) Parse_end Parse_ok Htrk
    DecodeKey t s p dpos_DecodeKey Hinc Hat).
Qed.

Lemma dpos_SeekForPrev t s p : increasing c es false t -> dpos s p ->
  exists s' p', DataBlockIter.SeekForPrevImpl wild c t s = Some s' /\ dpos s' p' /\ is_seek_prev c es false t p'.
Proof.
  intros Hinc Hat.
  pose proof (SeekForPrev_ok wild c false r es rs tail false Hlay Hdata Hrestarts Hnum Hsize Hv4 Hpad' Parse cok
    (fun x _ => cok x) (fun x _ => cok x) trk ltac:(auto) ltac:(auto) ltac:(auto) ltac:(auto) Parse_end Parse_ok Htrk
    _ dpos_Prev DecodeKey t s p dpos_DecodeKey Hinc Hat) as H.
  unfold DataBlockIter.SeekForPrevImpl, DataBlockIter.SeekToLastImpl. rewrite Hdata. exact H.
Qed.

(** The key that [UpdateKey] shows for a parsed key. *)
Definition expose (k : bytes) : bytes :=
  if c_global_seqno c =? kDisableGlobalSequenceNumber then k
  else ExtractUserKey k ++ EncodeFixed64 (PackSequenceAndType (c_global_seqno c) (ExtractValueType k)).

Definition exposed (s : DataBlockIter.It) (p : option nat) : Prop :=
  forall i, p = Some i -> exists e, es !! i = Some e /\ ukey_ s = expose (disp c false (e_key e)) /\
    value_bytes c s = Some (e_val e).

Lemma dpos_value s i e : dpos s (Some i) -> es !! i = Some e -> value_bytes c s = Some (e_val e).
Proof.
  intros (_ & _ & _ & e' & Hp & _) He. pose proof (pr_ent _ _ _ _ _ _ _ _ Hp) as He'. simplify_eq.
  unfold value_bytes, dat. rewrite Hdata, (pr_val _ _ _ _ _ _ _ _ Hp). cbn [fst snd default].
  by apply (bread_value false r).
Qed.

Lemma dpos_valid s p : dpos s p -> Iter_Valid c s = bool_decide (p <> None).
Proof. by apply (at_pos_valid c false r es rs tail). Qed.

Lemma UpdateKey_ok s p : dpos s p -> exists s', UpdateKey wild Hash64 c s = Some s' /\ dpos s' p /\ exposed s' p.
Proof.
  intros Hat. unfold UpdateKey. rewrite (dpos_valid s p Hat). destruct p as [i|]; cycle 1.
  { rewrite bool_decide_false by auto. exists s. split; [done|]. by split. }
  rewrite bool_decide_true by done. cbn [negb]. pose proof Hat as (Hst & Hu & Hx & e & Hp & Hx' & Hidx). rewrite Hu.
  set (s1 := if _ =? _ then _ else _).
  pose proof (pr_ent _ _ _ _ _ _ _ _ Hp) as He. pose proof (pr_key _ _ _ _ _ _ _ _ Hp) as Hk.
  assert (dpos s1 (Some i) /\ ukey_ s1 = expose (disp c false (e_key e))) as [Hd Hsh].
  { unfold s1, expose, raw_user_key. rewrite Hu, Hk. destruct (c_global_seqno c =? kDisableGlobalSequenceNumber).
    all: split; [|done]; do 3 (split; [done|]); exists e; (split; [by destruct Hp|]); done. }
  assert (exposed s1 (Some i)) as Hex.
  { intros j [= <-]. exists e. split; [done|]. split; [done|]. by apply (dpos_value s1 i). }
  destruct (Z.ltb_spec 0 (c_protection_bytes_per_key c)) as [Hpos|_]; [|by exists s1].
  rewrite (dpos_value s1 i e Hd He). cbn [mbind option_bind].
  assert (cur_entry_idx_ s1 = Z.of_nat i) as ->.
  { destruct Hd as (_ & _ & _ & e' & _ & _ & H). apply H. by apply Z.ltb_lt. }
  destruct Hprot as [|(Hpr & Hpadf & _ & ->)]; [lia|]. cbn [default id].
  change (c_protection_bytes_per_key c) with prot. rewrite (read_sum _ _ _ _ e Hpr He). cbn [mbind option_bind].
  assert (a_key (raw_key_ s) = e_key e) as -> by (rewrite Hk; unfold disp; by rewrite Hpadf).
  destruct (sum_of_ok Hash64 prot e Hpr) as [Hsum _]. unfold GenerateKVChecksum in Hsum.
  rewrite (proj2 (Encode_Verify _ _ _ _ Hsum) eq_refl). by exists s1.
Qed.

(** Before entry [i] is parsed. *)
Definition dprep_at : DataBlockIter.It -> nat -> Prop :=
  prep c false es false (fun x _ => cache_ok c false es false x).

(** *** Counting and checksumming the entries *)

Section Scan.
Hypothesis Hoff : c_protection_bytes_per_key c = 0.

Let dprep := dprep_at.

Lemma dprep_Next s i : dprep s i -> exists s', DataBlockIter.NextImpl wild c s = Some s' /\ dpos s' (posn es i).
Proof.
  intros Hp. unfold dpos.
  apply (Next_prep c false r es rs false Hlay Parse cok (fun x _ => cok x) (fun x _ => cok x)
    (0 <? c_protection_bytes_per_key c)); auto.
  rewrite Hoff. done.
Qed.

Lemma dpos_dprep s i : dpos s (Some i) -> dprep s (S i).
Proof. by apply (at_pos_prep c false r es rs false Hlay). Qed.

Lemma dprep_restart s j : (j < length rs)%nat -> sane s ->
  exists s', SeekToRestartPoint c s (Z.of_nat j) = Some s' /\ dprep s' (Nat.min (j * r) (length es)).
Proof.
  intros Hj (Hst & Hu & Hx).
  destruct (restart_prep c false r es rs tail false Hlay Hdata Hrestarts Hnum Hsize cok (fun x _ => cok x) trk
    ltac:(auto) Htrk s j Hj Hu Hx Hst) as (s' & E & Hp & _). by exists s'.
Qed.

Lemma dprep_sane s i : dprep s i -> sane s.
Proof. intros [Hr Hx _ Hst]. split; [done|]. split; [apply Hr|done]. Qed.

Lemma count_next_ok fuel s i m cnt : dprep s i -> (i <= m <= length es)%nat -> (m - i < fuel)%nat ->
  0 <= cnt -> cnt + Z.of_nat (m - i) < 2 ^ 32 ->
  exists s', count_next fuel (DataBlockIter.NextImpl wild c) (offs false es m) cnt s =
    Some (cnt + Z.of_nat (m - i), s') /\ sane s'.
Proof.
  revert s i cnt. induction fuel as [|fuel IH]; intros s i cnt Hp Him Hf Hcnt Hmax; [lia|]. cbn [count_next].
  rewrite (ready_next c false es rs tail false Hsize s i (pp_ready _ _ _ _ _ _ _ Hp)), (pp_status _ _ _ _ _ _ _ Hp).
  cbn [ok]. rewrite andb_true_r. destruct (Z.ltb_spec (offs false es i) (offs false es m)) as [Hlt|Hge].
  - assert (i < m)%nat as Hi by (destruct (decide (i = m)) as [->|]; lia).
    destruct (dprep_Next s i Hp) as (s1 & -> & Hd). cbn [mbind option_bind]. rewrite posn_lt in Hd by lia.
    rewrite (u32_id (cnt + 1)) by (unfold is_u32; lia).
    destruct (IH s1 (S i) (cnt + 1) (dpos_dprep _ _ Hd)) as (s' & -> & Hs); try lia.
    exists s'. split; [|done]. do 2 f_equal. lia.
  - assert (i = m) as ->.
    { destruct (decide (i = m)) as [|Hne]; [done|]. pose proof (offs_lt false es i m ltac:(lia)). lia. }
    exists s. split; [by rewrite Nat.sub_diag, Z.add_0_r|]. by eapply dprep_sane.
Qed.

Let Hsz : Z.of_nat (length es) < 2 ^ 31.
Proof. pose proof (length_es_le false es). pose proof (enc_size false es rs tail). slia. Qed.

Lemma GetRestartInterval_ok s : sane s -> exists s',
  GetRestartInterval c (DataBlockIter.SeekToFirstImpl wild c) (DataBlockIter.NextImpl wild c) s = Some (found_interval r rs, s') /\
  sane s'.
Proof.
  intros Hs. unfold GetRestartInterval, found_interval. rewrite Hnum, Hdata, bool_decide_false, orb_false_r by done.
  unfold slen at 1. destruct (Z.leb_spec (Z.of_nat (length rs)) 1), (Nat.ltb_spec 1 (length rs)); try lia; [by exists s|].
  destruct (dpos_SeekToFirst s Hs) as (s1 & -> & Hd). cbn [mbind option_bind].
  change (GetRestartPoint c 1) with (GetRestartPoint c (Z.of_nat 1)).
  rewrite (GetRestartPoint_ok c false r es rs tail) by done. cbn [mbind option_bind].
  rewrite Nat.mul_1_l. assert (0 < length es)%nat as Hlen.
  { pose proof (length_rs false r es rs Hlay) as Hl. destruct (length es); [cbn in Hl; lia|lia]. }
  pose proof (restart_entry false r es rs Hlay 1 Hlen ltac:(lia)) as Hr1. pose proof (lay_pos _ _ _ _ Hlay) as Hrp.
  rewrite posn_lt in Hd by done.
  destruct (count_next_ok (scan_fuel c) s1 1 r 1 (dpos_dprep _ _ Hd)) as (s' & -> & Hs'); try lia.
  - pose proof (fuel_enough c false es Hrestarts). lia.
  - exists s'. split; [|done]. do 2 f_equal. lia.
Qed.

Lemma NumberOfKeys_ok s : sane s -> exists s',
  NumberOfKeys c (DataBlockIter.NextImpl wild c) (found_interval r rs) s = Some (slen es, s') /\ sane s'.
Proof.
  intros Hs. unfold NumberOfKeys, found_interval. rewrite Hnum, Hdata, bool_decide_false, orb_false_r by done.
  pose proof (length_rs false r es rs Hlay) as Hlr. pose proof (nrestarts_pos r (length es)) as Hpos.
  destruct (Z.eqb_spec (slen rs) 0) as [E|_]; [unfold slen in E; lia|].
  assert (slen rs - 1 = Z.of_nat (length rs - 1)) as -> by (unfold slen; lia).
  destruct (dprep_restart s (length rs - 1) ltac:(lia) Hs) as (s1 & -> & Hd). cbn [mbind option_bind].
  rewrite Hrestarts, <- (offs_all false es (length es)) by lia.
  assert (Z.of_nat (length rs - 1) * (if (1 <? length rs)%nat then Z.of_nat r else 0) =
    Z.of_nat (Nat.min ((length rs - 1) * r) (length es))) as ->.
  { destruct (Nat.ltb_spec 1 (length rs)); [|replace (length rs - 1)%nat with 0%nat by lia; lia].
    destruct (decide (0 < length es)%nat) as [Hl|Hl].
    - pose proof (restart_entry false r es rs Hlay (length rs - 1) Hl ltac:(lia)). lia.
    - replace (length es) with 0%nat in * by lia. cbn in Hlr. lia. }
  rewrite u32_id by (unfold is_u32; lia).
  destruct (count_next_ok (scan_fuel c) s1 _ (length es) (Z.of_nat (Nat.min ((length rs - 1) * r) (length es))) Hd)
    as (s' & -> & Hs'); try lia.
  - pose proof (fuel_enough c false es Hrestarts). lia.
  - exists s'. split; [|done]. do 2 f_equal. unfold slen. lia.
Qed.

Lemma checksum_loop_ok p size fuel s i sums : prot_ok p -> slen sums + p * slen (drop i es) <= size -> c_global_seqno c = kDisableGlobalSequenceNumber ->
  c_pad_min_timestamp c = false -> dpos s (posn es i) -> exposed s (posn es i) -> (length es - i < fuel)%nat ->
  exists s', checksum_loop Hash64 fuel c (DataBlockIter.Next wild Hash64 c) p size sums s =
    Some (sums ++ concat (sum_of Hash64 p <$> drop i es), s') /\ sane s'.
Proof.
  intros Hp Hfit Hgs Hnp. revert s i sums Hfit. induction fuel as [|fuel IH]; intros s i sums Hfit Hd He Hf; [lia|].
  cbn [checksum_loop]. rewrite (dpos_valid _ _ Hd). unfold posn in *.
  destruct (decide (i < length es)%nat) as [Hi|Hi]; cycle 1.
  { rewrite bool_decide_false by auto. exists s. rewrite drop_ge by lia. rewrite app_nil_r. split; [done|].
    by eapply dpos_sane. }
  rewrite bool_decide_true by done. destruct (He i eq_refl) as (e & Hie & Hk & ->). cbn [mbind option_bind].
  assert (ukey_ s = e_key e) as ->.
  { rewrite Hk. unfold expose, disp. by rewrite Hgs, Hnp, Z.eqb_refl. }
  destruct (sum_of_ok Hash64 p e Hp) as [-> Hsl]. cbn [mbind option_bind].
  rewrite (drop_S _ _ _ Hie), slen_cons in Hfit. pose proof (slen_nonneg (drop (S i) es)).
  assert (0 < p) by (unfold prot_ok in Hp; lia).
  destruct (Z.leb_spec (slen sums + slen (sum_of Hash64 p e)) size); [|nia].
  destruct (dpos_Next s i Hd) as (s1 & E1 & Hd1). destruct (UpdateKey_ok s1 _ Hd1) as (s2 & E2 & Hd2 & He2).
  assert (DataBlockIter.Next wild Hash64 c s = Some s2) as -> by (unfold DataBlockIter.Next; by rewrite E1).
  cbn [mbind option_bind]. destruct (IH s2 (S i) (sums ++ sum_of Hash64 p e) ltac:(rewrite slen_app; lia) Hd2 He2 ltac:(lia)) as (s' & -> & Hs'). exists s'. split; [|done].
  by rewrite (drop_S _ _ _ Hie), fmap_cons, <- app_assoc.
Qed.
End Scan.

(** *** The iterator follows the cursor *)

Section Sorted.
Let ucmp := c_ucmp c.
Context {Hc : ComparatorOk ucmp}.
Hypothesis Hg : valid_global (c_global_seqno c).
Hypothesis Hlong : Forall (fun e => 8 <= slen (disp c false (e_key e))) es.

Definition shown_entries : list (bytes * bytes) := (fun e => (expose (disp c false (e_key e)), e_val e)) <$> es.
Definition shown_keys : list bytes := fst <$> shown_entries.

Hypothesis Hsorted : forall i j a b, (i < j)%nat -> shown_keys !! i = Some a -> shown_keys !! j = Some b ->
  IKCompare ucmp a b < 0.

Lemma shown_keys_lookup i e : es !! i = Some e -> shown_keys !! i = Some (expose (disp c false (e_key e))).
Proof. intros He. unfold shown_keys, shown_entries. by rewrite !list_lookup_fmap, He. Qed.

Lemma length_shown : length shown_keys = length es.
Proof. unfold shown_keys, shown_entries. by rewrite !length_fmap. Qed.

Lemma expose_long i e : es !! i = Some e -> 8 <= slen (expose (disp c false (e_key e))).
Proof.
  intros He. pose proof (Forall_lookup_1 _ _ _ _ Hlong He) as Hl. cbn in Hl. unfold expose.
  destruct (_ =? _); [done|]. rewrite slen_app, slen_EncodeFixed64. slia.
Qed.

Lemma K_shown i e t : es !! i = Some e -> 8 <= slen t ->
  K c es false i t = IKCompare ucmp (expose (disp c false (e_key e))) t.
Proof.
  intros He Ht. rewrite (K_lookup _ _ _ _ e) by done. unfold cmpk, expose.
  destruct (Z.eqb_spec (c_global_seqno c) kDisableGlobalSequenceNumber) as [|Hne]; [done|].
  destruct Hg as [|Hg']; [done|]. apply IKCompare_global_shown; try done.
  apply (Forall_lookup_1 _ _ _ _ Hlong He).
Qed.

Lemma sorted_increasing t : 8 <= slen t -> increasing c es false t.
Proof.
  intros Ht i j [Hij Hj] Hle. destruct (lookup_lt_is_Some_2 es i) as [a Ha]; [lia|].
  destruct (lookup_lt_is_Some_2 es j) as [b Hb]; [lia|]. rewrite (K_shown j b) in Hle by done.
  rewrite (K_shown i a) by done. eapply IKCompare_strict; [..|exact Hle]; try done.
  - by eapply expose_long.
  - by eapply expose_long.
  - by eapply Hsorted; [exact Hij|apply shown_keys_lookup..].
Qed.

Lemma K_test i t : 8 <= slen t -> (i < length es)%nat ->
  K c es false i t = IKCompare ucmp (default [] (shown_keys !! i)) t.
Proof.
  intros Ht Hi. destruct (lookup_lt_is_Some_2 es i) as [a Ha]; [done|].
  by rewrite (shown_keys_lookup i a), (K_shown i a).
Qed.

Lemma is_seek_head t p s : 8 <= slen t -> dpos s p -> is_seek c es false t p ->
  head (positions (fun k => 0 <=? IKCompare ucmp k t) shown_keys) = p.
Proof.
  intros Ht Hat Hs. unfold positions. apply filter_seq_first. rewrite length_shown.
  assert (forall j, (j < length es)%nat -> K c es false j t < 0 ->
    ~ ((0 <=? IKCompare ucmp (default [] (shown_keys !! j)) t) = true)) as Hneg.
  { intros j Hj Hk Hb. apply Z.leb_le in Hb. rewrite <- K_test in Hb by done. lia. }
  destruct p as [i|].
  - destruct Hs as [Hge Hlt]. destruct Hat as (_ & _ & _ & e & Hp & _).
    pose proof (lookup_lt_Some _ _ _ (pr_ent _ _ _ _ _ _ _ _ Hp)) as Hi. split; [done|].
    split; [apply Z.leb_le; by rewrite <- K_test|]. intros j Hj. apply Hneg; [lia|]. by apply Hlt.
  - intros j Hj. apply Hneg; [done|]. by apply Hs.
Qed.

Lemma is_seek_prev_last t p s : 8 <= slen t -> dpos s p -> is_seek_prev c es false t p ->
  list.last (positions (fun k => IKCompare ucmp k t <=? 0) shown_keys) = p.
Proof.
  intros Ht Hat Hs. unfold positions. apply filter_seq_last. rewrite length_shown.
  assert (forall j, (j < length es)%nat -> 0 < K c es false j t ->
    ~ ((IKCompare ucmp (default [] (shown_keys !! j)) t <=? 0) = true)) as Hneg.
  { intros j Hj Hk Hb. apply Z.leb_le in Hb. rewrite <- K_test in Hb by done. lia. }
  destruct p as [i|].
  - destruct Hs as [Hge Hlt]. destruct Hat as (_ & _ & _ & e & Hp & _).
    pose proof (lookup_lt_Some _ _ _ (pr_ent _ _ _ _ _ _ _ _ Hp)) as Hi. split; [done|].
    split; [apply Z.leb_le; by rewrite <- K_test|]. intros j Hj. apply Hneg; [lia|]. by apply Hlt.
  - intros j Hj. apply Hneg; [done|]. by apply Hs.
Qed.

Lemma posn_if i : posn es i = if (i <? length shown_keys)%nat then Some i else None.
Proof. rewrite length_shown. unfold posn. by destruct (Nat.ltb_spec i (length es)), (decide (i < length es)%nat); try lia. Qed.

(** An implementation function that follows the cursor gives a public function
    that does, too. *)
Lemma update_after (impl : option DataBlockIter.It) p : (exists s', impl = Some s' /\ dpos s' p) ->
  exists s', (s ← impl; UpdateKey wild Hash64 c s) = Some s' /\ dpos s' p /\ exposed s' p.
Proof. intros (s' & -> & Hat). cbn [mbind option_bind]. by apply UpdateKey_ok. Qed.

Lemma data_step_ok s p o p' : cursor_step (IKCompare ucmp) shown_keys p o = Some p' -> dpos s p ->
  exists s', data_step wild Hash64 c s o = Some s' /\ dpos s' p' /\ exposed s' p'.
Proof.
  intros Ho Hat. pose proof (dpos_sane _ _ Hat) as Hs. destruct o as [| |t|t| |]; cbn [cursor_step data_step] in *.
  - injection Ho as <-. apply update_after. rewrite <- posn_if. by apply dpos_SeekToFirst.
  - injection Ho as <-. apply update_after. destruct (dpos_SeekToLast s Hs) as (s' & E & Hd). exists s'. split; [done|].
    rewrite posn_if, length_shown in Hd. rewrite length_shown.
    destruct (Nat.ltb_spec 0 (length es)), (Nat.ltb_spec (length es - 1) (length es)); done || lia.
  - destruct (Z.ltb_spec (slen t) 8); [done|]. injection Ho as <-. apply update_after.
    destruct (dpos_Seek t s p (sorted_increasing t ltac:(lia)) Hat) as (s' & q & E & Hd & Hq). exists s'. split; [done|].
    by rewrite (is_seek_head t q s').
  - destruct (Z.ltb_spec (slen t) 8); [done|]. injection Ho as <-. apply update_after.
    destruct (dpos_SeekForPrev t s p (sorted_increasing t ltac:(lia)) Hat) as (s' & q & E & Hd & Hq). exists s'. split; [done|].
    by rewrite (is_seek_prev_last t q s').
  - destruct p as [i|]; [|done]. cbn [mbind option_bind] in Ho. injection Ho as <-. apply update_after.
    rewrite <- posn_if. by apply dpos_Next.
  - destruct p as [i|]; [|done]. cbn [mbind option_bind] in Ho. injection Ho as <-. apply update_after.
    by apply dpos_Prev.
Qed.

Lemma exposed_shows s p : dpos s p -> exposed s p -> shows c s shown_entries p.
Proof.
  intros Hat He. split; [apply Hat|]. split; [by apply dpos_valid|]. intros i ->.
  destruct (He i eq_refl) as (e & Hi & Hk & Hv). eexists _, _. split; [|split; [exact Hk|exact Hv]].
  unfold shown_entries. by rewrite list_lookup_fmap, Hi.
Qed.

Lemma data_run_ok s0 os p : cursor_run (IKCompare ucmp) shown_keys os = Some p -> dpos s0 None ->
  exists s, data_run wild Hash64 c s0 os = Some s /\ dpos s p /\ shows c s shown_entries p.
Proof.
  unfold cursor_run, data_run. revert p. induction os as [|o os IH] using rev_ind; intros p Hp Hs0.
  { injection Hp as <-. exists s0. split; [done|]. split; [done|]. by apply exposed_shows. }
  rewrite (foldl_app _ os [o]) in Hp. rewrite (foldl_app _ os [o]). cbn [foldl] in Hp |- *.
  destruct (foldl _ (Some None) os) as [q|] eqn:Hq; [|done]. cbn [mbind option_bind] in Hp.
  destruct (IH q eq_refl Hs0) as (s & -> & Hd & _). cbn [mbind option_bind].
  destruct (data_step_ok s q o p Hp Hd) as (s' & -> & Hd' & He'). exists s'. split; [done|]. split; [done|].
  by apply exposed_shows.
Qed.
(** *** Point lookups *)

Section Get.
Hypothesis Hnopad : c_pad_min_timestamp c = false.
Hypothesis Hbytes : forall a b, Compare ucmp a b = 0 -> a = b.
Variable t : bytes.
Hypothesis Ht : 8 <= slen t.

Let uk (e : Ent) : bytes := ExtractUserKey (e_key e).

(** What a bucket of the hash index says about the target: it was filled from
    several restart intervals, or from none, or from one. *)
Definition lookup_ok (entry : Z) : Prop :=
  entry = kCollision \/
  (entry = kNoEntry /\ slen rs <= 256 /\
   forall i e, es !! i = Some e -> ExtractUserKey (e_key e) <> ExtractUserKey t) \/
  (exists j, entry = Z.of_nat j /\ (j < length rs)%nat /\ entry <= kMaxRestartSupportedByHashIndex /\
   forall i e, es !! i = Some e -> ExtractUserKey (e_key e) = ExtractUserKey t -> (i / r)%nat = j).

Lemma K_user i e : es !! i = Some e ->
  (Compare ucmp (uk e) (ExtractUserKey t) < 0 -> K c es false i t < 0) /\
  (0 < Compare ucmp (uk e) (ExtractUserKey t) -> 0 < K c es false i t).
Proof.
  intros He. rewrite (K_lookup _ _ _ _ e) by done. unfold cmpk, disp. rewrite Hnopad. fold (uk e).
  unfold IKCompare, IKCompare_global. fold (uk e) ucmp. split; repeat zcase.
Qed.

(** The user keys of entries are ordered. *)
Lemma uk_order i j a b : (i < j)%nat -> es !! i = Some a -> es !! j = Some b -> Compare ucmp (uk a) (uk b) <= 0.
Proof.
  intros Hij Ha Hb. pose proof (Hsorted i j _ _ Hij (shown_keys_lookup i a Ha) (shown_keys_lookup j b Hb)) as Hlt.
  assert (forall k, 8 <= slen k -> ExtractUserKey (expose k) = ExtractUserKey k) as Hex.
  { intros k Hk. unfold expose. destruct (_ =? _); [done|]. apply ExtractUserKey_app. }
  unfold IKCompare in Hlt. rewrite !Hex in Hlt.
  - unfold disp in Hlt. rewrite Hnopad in Hlt. unfold uk. destruct (Z.leb_spec (Compare ucmp (ExtractUserKey (e_key a))
      (ExtractUserKey (e_key b))) 0); [done|]. revert Hlt. repeat zcase.
  - apply (Forall_lookup_1 _ _ _ _ Hlong Hb).
  - apply (Forall_lookup_1 _ _ _ _ Hlong Ha).
Qed.

Let m_of (j : nat) : nat := Nat.min ((j + 1) * r) (length es).

(** Where the scan of restart interval [j] stops. *)
Definition get_stop (j : nat) (q : option nat) : Prop :=
  match q with
  | Some k => (j * r <= k <= Nat.min ((j + 1) * r) (length es))%nat /\
      (0 <= K c es false k t \/ k = Nat.min ((j + 1) * r) (length es)) /\
      forall i, (j * r <= i < k)%nat -> K c es false i t < 0
  | None => (length es <= (j + 1) * r)%nat /\ forall i, (j * r <= i < length es)%nat -> K c es false i t < 0
  end.

Lemma get_loop_ok fuel s i j : dprep_at s i -> (j * r <= i <= m_of j)%nat -> current_ s < offs false es (m_of j) ->
  (trk = true -> cur_entry_idx_ s = Z.of_nat i - 1) -> (m_of j - i < fuel)%nat ->
  (forall k, (j * r <= k < i)%nat -> K c es false k t < 0) ->
  exists s' q, DataBlockIter.get_loop wild c fuel t (offs false es (m_of j)) s = Some s' /\ dpos s' q /\ get_stop j q.
Proof.
  revert s i. induction fuel as [|fuel IH]; intros s i Hp Hi Hcur Hidx Hf Hlt; [lia|]. cbn [DataBlockIter.get_loop].
  destruct (Z.ltb_spec (current_ s) (offs false es (m_of j))); [|lia].
  set (s1 := set_idx s (cur_entry_idx_ s + 1)).
  assert (dprep_at s1 i) as Hp1 by (destruct Hp as [Hr Hx Hri Hst]; split; [destruct Hr; by split|done..]).
  destruct (parse_prep c false r es rs false Hlay Parse cok (fun x _ => cok x) (fun x _ => cok x) trk
    ltac:(auto) ltac:(auto) Parse_end Parse_ok Htrk s1 i (cur_entry_idx_ s1) Hp1)
    as (ok & sh & s2 & E & Hok & Hi2 & Hready & Hat).
  { intros Htr. cbn. specialize (Hidx Htr). lia. }
  change (DataBlockIter.ParseNextDataKey wild c s1) with (Parse s1). rewrite E. cbn [mbind option_bind].
  rewrite <- Hi2 in Hat. apply at_pos_same_idx in Hat. fold (dpos s2 (posn es i)) in Hat.
  destruct (decide (i < length es)%nat) as [Hlt'|Hge].
  - rewrite Hok, bool_decide_true by done. cbn [negb orb]. rewrite posn_lt in Hat by done.
    destruct (Hat) as (_ & _ & _ & e & Hpar & _ & Hidx2). rewrite (parsed_compare _ _ _ _ Hpad' _ _ _ _ t Hpar).
    destruct (Z.leb_spec 0 (K c es false i t)) as [Hge|Hneg].
    { exists s2, (Some i). split; [done|]. split; [done|]. split; [done|]. split; [by left|done]. }
    destruct (decide (i = m_of j)) as [Him|Him].
    { exists s2, (Some i). split; [|split; [done|]; split; [done|]; split; [by right|done]].
      destruct fuel; cbn [DataBlockIter.get_loop]; rewrite (pr_cur _ _ _ _ _ _ _ _ Hpar), Him, Z.ltb_irrefl; done. }
    apply (IH s2 (S i)); try lia.
    + destruct Hpar. split; [apply Hready; rewrite Hok; by apply bool_decide_true|apply Hat|done|apply Hat].
    + rewrite (pr_cur _ _ _ _ _ _ _ _ Hpar). apply offs_lt. unfold m_of in *. lia.
    + intros Htr. specialize (Hidx2 Htr). lia.
    + intros k Hk. destruct (decide (k = i)) as [->|]; [done|]. apply Hlt. lia.
  - rewrite Hok, bool_decide_false by lia. cbn [negb orb]. unfold posn in Hat. rewrite decide_False in Hat by done.
    exists s2, None. split; [done|]. split; [done|]. unfold m_of in Hi. split; [lia|]. intros k Hk. apply Hlt. lia.
Qed.

(** The loop, from the beginning of a restart interval. *)
Lemma get_scan_ok s j s1 : (j < length rs)%nat -> sane s -> SeekToRestartPoint c s (Z.of_nat j) = Some s1 ->
  exists s' q, DataBlockIter.get_loop wild c (S (scan_fuel c)) t
      (if (j + 1 <? length rs)%nat then offs false es ((j + 1) * r) else c_restarts c)
      (set_idx (set_pos s1 (offs false es (j * r)) (restart_index_ s1))
         (s32 (u32 (Z.of_nat j * c_block_restart_interval c)) - 1)) = Some s' /\ dpos s' q /\ get_stop j q.
Proof.
  intros Hj (Hst & Hu & Hx) E. pose proof (lay_pos _ _ _ _ Hlay) as Hr. pose proof (length_rs _ _ _ _ Hlay) as Hlr.
  destruct (restart_prep c false r es rs tail false Hlay Hdata Hrestarts Hnum Hsize cok (fun x _ => cok x) trk
    ltac:(auto) Htrk s j Hj Hu Hx Hst) as (s1' & E' & Hp & _). rewrite E in E'. injection E' as <-.
  set (s2 := set_idx _ _).
  assert (dprep_at s2 (Nat.min (j * r) (length es))) as Hp2.
  { destruct Hp as [[? ? ? ?] ? ? ?]. split; [by split|done..]. }
  assert (trk = true -> cur_entry_idx_ s2 = Z.of_nat (Nat.min (j * r) (length es)) - 1) as Hidx.
  { intros Htr. cbn. f_equal. by apply (restart_idx c false r es rs tail false Hlay Hsize Parse trk Parse_end Htrk). }
  assert ((if (j + 1 <? length rs)%nat then offs false es ((j + 1) * r) else c_restarts c) = offs false es (m_of j)) as ->.
  { unfold m_of. destruct (Nat.ltb_spec (j + 1) (length rs)) as [Hlt|Hge].
    - assert (0 < length es)%nat as Hpos by (destruct (length es); [cbn in Hlr; lia|lia]).
      pose proof (restart_entry false r es rs Hlay (j + 1) Hpos Hlt). by rewrite Nat.min_l by lia.
    - rewrite Hrestarts, <- (offs_all false es (length es)) by lia. f_equal.
      destruct (length es) as [|n] eqn:Hn; [lia|]. cbn in Hlr. pose proof (Nat.div_mod n r ltac:(lia)).
      pose proof (Nat.mod_upper_bound n r ltac:(lia)). nia. }
  destruct (decide (0 < length es)%nat) as [Hpos|Hzero].
  - pose proof (restart_entry false r es rs Hlay j Hpos Hj) as Hje. rewrite Nat.min_l in Hp2, Hidx by lia.
    apply (get_loop_ok _ s2 (j * r) j); unfold m_of; try done; try lia.
    + apply offs_lt. nia.
    + pose proof (fuel_enough c false es Hrestarts). lia.
  - replace (m_of j) with 0%nat by (unfold m_of; lia). exists s2, None.
    assert (offs false es (j * r) = 0) as H0 by (rewrite offs_all by lia; destruct es; [done|cbn in Hzero; lia]).
    cbn [DataBlockIter.get_loop]. change (current_ s2) with (offs false es (j * r)). rewrite H0, offs_0. cbn.
    split; [done|]. split; [|split; lia]. destruct Hp2 as [[? ? ? ?] ? ? ?]. split; [done|]. split; [done|]. split; [done|].
    change (current_ s2) with (offs false es (j * r)). rewrite H0, Hrestarts. destruct es; [done|cbn in Hzero; lia].
Qed.

(** What is promised for a lookup. *)
Definition get_ok (res : bool) (q : option nat) : Prop :=
  if res then is_seek c es false t q
  else forall i e, es !! i = Some e -> ExtractUserKey (e_key e) = ExtractUserKey t -> K c es false i t < 0.

Let Hinc : increasing c es false t := sorted_increasing t Ht.

Lemma all_below i : (i < length es)%nat -> K c es false i t < 0 -> forall k, (k <= i)%nat -> K c es false k t < 0.
Proof. intros Hi Hk k Hki. destruct (decide (k = i)) as [->|]; [done|]. apply (Hinc k i); lia. Qed.

Lemma seek_none j : (j < length rs)%nat -> get_stop j None -> is_seek c es false t None.
Proof.
  intros Hj [Hend Hlt] k Hk. pose proof (restart_entry false r es rs Hlay j ltac:(lia) Hj).
  apply (all_below (length es - 1)); try lia. apply Hlt. lia.
Qed.

(** The scan found the user key. *)
Lemma seek_found j k e : get_stop j (Some k) -> es !! k = Some e -> uk e = ExtractUserKey t ->
  (forall i e, es !! i = Some e -> uk e = ExtractUserKey t -> (i / r)%nat = j) -> is_seek c es false t (Some k).
Proof.
  intros (Hk & Hge & Hlt) He Heq Hall. pose proof (lay_pos _ _ _ _ Hlay) as Hr.
  pose proof (lookup_lt_Some _ _ _ He) as Hkl. pose proof (Hall k e He Heq) as Hkj.
  pose proof (Nat.div_mod k r ltac:(lia)) as Hdm. pose proof (Nat.mod_upper_bound k r ltac:(lia)) as Hmb.
  destruct Hge as [Hge|Hm]; [|nia]. split; [done|]. intros i Hi.
  destruct (decide (j * r <= i)%nat) as [Hin|Hout]; [apply Hlt; lia|].
  destruct (lookup_lt_is_Some_2 es i) as [a Ha]; [lia|]. apply (proj1 (K_user i a Ha)). rewrite <- Heq.
  pose proof (uk_order i k a e Hi Ha He) as Hord.
  destruct (Z.eq_dec (Compare ucmp (uk a) (uk e)) 0) as [H0|]; [|lia]. exfalso.
  apply Hbytes in H0. pose proof (Hall i a Ha ltac:(congruence)) as Hij.
  pose proof (Nat.div_mod i r ltac:(lia)). nia.
Qed.

(** The scan found another user key. *)
Lemma seek_missed j k e : get_stop j (Some k) -> es !! k = Some e -> uk e <> ExtractUserKey t ->
  (forall i e, es !! i = Some e -> uk e = ExtractUserKey t -> (i / r)%nat = j) -> get_ok false None.
Proof.
  intros (Hk & Hge & Hlt) He Hne Hall i a Ha Heq. pose proof (lay_pos _ _ _ _ Hlay) as Hr.
  pose proof (Hall i a Ha Heq) as Hij. pose proof (Nat.div_mod i r ltac:(lia)) as Hdm.
  pose proof (Nat.mod_upper_bound i r ltac:(lia)) as Hmb. pose proof (lookup_lt_Some _ _ _ Ha) as Hil.
  destruct (lt_eq_lt_dec i k) as [[Hik| ->]|Hki].
  - apply Hlt. nia.
  - exfalso. rewrite He in Ha. injection Ha as ->. done.
  - exfalso. destruct Hge as [Hge|Hm]; [|nia]. pose proof (uk_order k i e a Hki He Ha) as Hord. fold (uk a) in Heq.
    rewrite Heq in Hord. destruct (Z.eq_dec (Compare ucmp (uk e) (ExtractUserKey t)) 0) as [H0|Hn0].
    + by apply Hbytes in H0.
    + pose proof (proj1 (K_user k e He)). lia.
Qed.

Variables nb entry : Z.
Hypothesis Hentry : HI_Lookup nb (dat c) (u32 (c_restarts c + c_num_restarts c * 4)) (ExtractUserKey t) = Some entry.
Hypothesis Hlookup : lookup_ok entry.

Lemma SeekForGetImpl_ok s p : dpos s p ->
  exists res s' q, DataBlockIter.SeekForGetImpl wild c nb t s = Some (res, s') /\ dpos s' q /\ get_ok res q.
Proof.
  intros Hat. pose proof (dpos_sane _ _ Hat) as Hs. unfold DataBlockIter.SeekForGetImpl.
  rewrite Hentry. cbn [mbind option_bind].
  destruct (dpos_Seek t s p Hinc Hat) as (sk & qk & Ek & Hdk & Hqk).
  destruct (Z.eqb_spec entry kCollision) as [Hcol|Hncol].
  { rewrite Ek. by exists true, sk, qk. }
  assert (exists j, (if entry =? kNoEntry then (c_num_restarts c - 1) mod 2 ^ 8 else entry) = Z.of_nat j /\
    (j < length rs)%nat /\
    forall i e, es !! i = Some e -> uk e = ExtractUserKey t -> (i / r)%nat = j) as (j & -> & Hj & Hall).
  { destruct Hlookup as [|[(-> & Hle & Hno)|(j & -> & Hj & Hmax & Hall)]]; [done| |].
    - exists (length rs - 1)%nat. pose proof (length_rs _ _ _ _ Hlay) as Hlr.
      pose proof (nrestarts_pos r (length es)) as Hn. rewrite Hnum. unfold slen in *.
      rewrite Z.eqb_refl, Z.mod_small by lia. split; [lia|]. split; [lia|].
      intros i e He Heq. by destruct (Hno i e He).
    - exists j. split; [|done]. destruct (Z.eqb_spec (Z.of_nat j) kNoEntry) as [E|]; [|done].
      rewrite E in Hmax. by vm_compute in Hmax. }
  destruct (SeekToRestartPoint_ready c false r es rs tail false Hlay Hdata Hrestarts Hsize s j Hj)
    as (s1 & E1 & _); [apply Hs|]. rewrite E1. cbn [mbind option_bind].
  rewrite (GetRestartPoint_ok c false r es rs tail) by done. cbn [mbind option_bind].
  assert ((if Z.of_nat j + 1 <? c_num_restarts c then GetRestartPoint c (Z.of_nat j + 1) else Some (c_restarts c)) =
    Some (if (j + 1 <? length rs)%nat then offs false es ((j + 1) * r) else c_restarts c)) as ->.
  { rewrite Hnum. unfold slen. destruct (Z.ltb_spec (Z.of_nat j + 1) (Z.of_nat (length rs))), (Nat.ltb_spec (j + 1) (length rs));
      try lia; [|done]. replace (Z.of_nat j + 1) with (Z.of_nat (j + 1)) by lia.
    by rewrite (GetRestartPoint_ok c false r es rs tail). }
  cbn [mbind option_bind]. destruct (get_scan_ok s j s1 Hj Hs E1) as (s2 & q & -> & Hd2 & Hstop). cbn [mbind option_bind].
  pose proof (dpos_valid s2 q Hd2) as Hv. unfold Iter_Valid in Hv. destruct q as [k|].
  - rewrite bool_decide_true in Hv by done. apply Z.ltb_lt in Hv.
    destruct (Z.eqb_spec (current_ s2) (c_restarts c)); [lia|].
    destruct (Hd2) as (_ & Hu2 & _ & e & Hpar & _). pose proof (pr_ent _ _ _ _ _ _ _ _ Hpar) as He.
    assert (raw_user_key s2 = uk e) as ->.
    { unfold raw_user_key. rewrite Hu2, (pr_key _ _ _ _ _ _ _ _ Hpar). unfold disp. by rewrite Hnopad. }
    fold ucmp. destruct (Z.eqb_spec (Compare ucmp (uk e) (ExtractUserKey t)) 0) as [H0|Hn0]; cbn [negb].
    + apply Hbytes in H0. destruct (negb (DataBlockIter.get_supported _)).
      * destruct (dpos_Seek t s2 (Some k) Hinc Hd2) as (s3 & q3 & -> & Hd3 & Hq3). by exists true, s3, q3.
      * exists true, s2, (Some k). split; [done|]. split; [done|]. by eapply seek_found.
    + exists false, s2, (Some k). split; [done|]. split; [done|]. apply (seek_missed j k e Hstop He); [|done].
      intros E. rewrite E, Compare_refl in Hn0. done.
  - rewrite bool_decide_false in Hv by auto. apply Z.ltb_ge in Hv.
    assert (current_ s2 = c_restarts c) as -> by apply Hd2. rewrite Z.eqb_refl.
    exists true, s2, None. split; [done|]. split; [done|]. by eapply seek_none.
Qed.
End Get.
End Sorted.
End DataIter.

(** ** A data block, from the builder to the iterator *)

(** A builder of data blocks for a column family: internal keys, whole values,
    and timestamps stripped when they are not persisted. *)
Record data_builder_ok (ucmp : Comparator) (persisted : bool) (b0 : BlockBuilder) : Prop := {
  db_fresh : is_fresh b0;
  db_v4 : use_value_delta_encoding_ b0 = false;
  db_user : bb_is_user_key_ b0 = false;
  db_strip : strip_ts_sz_ b0 = if persisted then 0 else timestamp_size ucmp;
  db_ts : 0 <= timestamp_size ucmp
}.

(** An entry that may be added: an internal key, with a timestamp if it is to be
    stripped; sizes fit in 32 bits. *)
Definition data_entry_ok (ucmp : Comparator) (persisted : bool) (b0 : BlockBuilder) (x : KVD) : Prop :=
  kvd_ok b0 x /\ 8 + (if persisted then 0 else timestamp_size ucmp) <= slen (kvd_key x).

(** The size of the finished block. *)
Definition built_size (b0 : BlockBuilder) (kvs : list KVD) : Z :=
  slen (enc_ents (use_value_delta_encoding_ b0) (ents b0 kvs)) + 4 * slen (rs_of b0 (ents b0 kvs)) +
  slen (block_tail b0 kvs).

(** The number of buckets of its hash index. *)
Definition built_index (b0 : BlockBuilder) (kvs : list KVD) : option Z :=
  let b := built b0 kvs (ents_run b0 kvs).2 in
  if hash_used b then Some (HIB_num_buckets (data_block_hash_index_builder_ b)) else None.

(** What a reader of the block is to see. *)
Definition visible (ucmp : Comparator) (persisted : bool) (g : Z) (kvs : list KVD) : list (bytes * bytes) :=
  (fun x : KVD => (shown_key (timestamp_size ucmp) persisted g (kvd_key x), x.1.2)) <$> kvs.

Section DataBlock.
Variable wild : Z.
Variable Hash64 : bytes -> Z -> Z.
Context (ucmp : Comparator) {Hc : ComparatorOk ucmp}.
Variable b0 : BlockBuilder.
Variable kvs : list KVD.
Variable persisted : bool.

Let es := ents b0 kvs.
Let rs := rs_of b0 es.
Let r := Z.to_nat (block_restart_interval_ b0).
Let ts_sz := timestamp_size ucmp.
Let blk0 := Block_make (finished b0 kvs).

Hypothesis Hb : data_builder_ok ucmp persisted b0.
Hypothesis Hkvs : Forall (data_entry_ok ucmp persisted b0) kvs.
Hypothesis Hsz : built_size b0 kvs < 2 ^ 31.

Let Hok : Forall (kvd_ok b0) kvs.
Proof. eapply Forall_impl; [|exact Hkvs]. by intros x []. Qed.

Lemma data_layout : layout false r es rs.
Proof. unfold rs, es. rewrite <- (db_v4 _ _ _ Hb). apply built_layout; [apply Hb|done]. Qed.

Lemma data_size : slen (enc_ents false es ++ concat (EncodeFixed32 <$> rs) ++ block_tail b0 kvs) < 2 ^ 31.
Proof.
  unfold built_size in Hsz. rewrite (db_v4 _ _ _ Hb) in Hsz. rewrite !slen_app, slen_restarts. fold es rs in Hsz. lia.
Qed.

Definition entry_shown (x : KVD) (e : Ent) : Prop :=
  e_val e = x.1.2 /\
  (if (0 <? ts_sz) && negb persisted then PadInternalKeyWithMinTimestamp [] (e_key e) ts_sz else e_key e) =
  (if (0 <? ts_sz) && negb persisted then ReplaceInternalKeyWithMinTimestamp [] (kvd_key x) ts_sz else kvd_key x) /\
  8 <= slen (e_key e) /\
  8 <= slen (if (0 <? ts_sz) && negb persisted then PadInternalKeyWithMinTimestamp [] (e_key e) ts_sz else e_key e).

Lemma stored_entry i x : kvs !! i = Some x -> exists e, es !! i = Some e /\ entry_shown x e.
Proof.
  intros Hx. destruct (ents_lookup b0 kvs i x Hx) as (e & He & Hk & Hv). exists e. split; [done|].
  destruct Hb as [_ Hv4 Hu Hs Hts]. rewrite Hv4, andb_false_r in Hv. split; [done|].
  pose proof (Forall_lookup_1 _ _ _ _ Hkvs Hx) as [_ Hl]. unfold MaybeStripTimestampFromKey in Hk.
  rewrite Hu, Hs in Hk. fold ts_sz in Hk, Hl, Hts. destruct persisted; cbn [negb] in Hk, Hl |- *; rewrite ?andb_false_r, ?andb_true_r.
  - cbn in Hk. rewrite Hk. split_and!; done || lia.
  - destruct (Z.ltb_spec 0 ts_sz) as [Hpos|]; [|rewrite Hk; split_and!; done || lia].
    destruct (pad_strip_key (kvd_key x) ts_sz Hpos ltac:(lia)) as (Hp & H8 & H8'). rewrite Hk, Hp. done.
Qed.

Lemma length_es : length es = length kvs.
Proof. apply length_ents. Qed.

Lemma stored_keys_long : Forall (fun e => kNumInternalBytes <= slen (e_key e)) es.
Proof.
  apply Forall_lookup_2. intros i e He. destruct (lookup_lt_is_Some_2 kvs i) as [x Hx].
  { rewrite <- length_es. by eapply lookup_lt_Some. }
  destruct (stored_entry i x Hx) as (e' & He' & _ & _ & Hl & _). rewrite He in He'. by injection He' as <-.
Qed.

(** The configuration of an iterator, with or without checksums. *)
Section Config.
Variables prot sum_sz interval g : Z.
Variable sums : option bytes.
Variables pinned pers : bool.
Let blk := with_protection blk0 (size_ blk0) prot sums sum_sz interval.
Let c := InitializeBase ucmp (finished b0 kvs) (slen (enc_ents false es)) (slen rs) g pinned pers prot sums interval.

Lemma NewDataIterator_built : NewDataIterator wild blk ucmp g pinned pers =
  (c, built_index b0 kvs, St_init wild c false DataSub_init).
Proof.
  destruct (Block_make_finished b0 kvs (db_fresh _ _ _ Hb) Hok Hsz) as (Hmk & H8 & Hrs).
  unfold c, blk, blk0. rewrite Hmk. unfold NewDataIterator, with_protection.
  cbn [size_ b_num_restarts_ b_data restart_offset_ b_num_buckets_ b_kv_checksum_ b_block_restart_interval_
       b_protection_bytes_per_key_].
  destruct (Z.ltb_spec (slen (finished b0 kvs)) (2 * 4)); [lia|].
  destruct (Z.eqb_spec (slen (rs_of b0 (ents b0 kvs))) 0); [lia|]. rewrite (db_v4 _ _ _ Hb).
  unfold built_index. pose proof (num_buckets_range (data_block_hash_index_builder_ (built b0 kvs (ents_run b0 kvs).2))).
  destruct (hash_used (built b0 kvs (ents_run b0 kvs).2)); [|done]. destruct (Z.eqb_spec (HIB_num_buckets
    (data_block_hash_index_builder_ (built b0 kvs (ents_run b0 kvs).2))) 0); [lia|done].
Qed.

Lemma built_data : c_data c = Some (enc_ents false es ++ concat (EncodeFixed32 <$> rs) ++ block_tail b0 kvs).
Proof.
  cbn. rewrite (finished_bytes b0 kvs (db_fresh _ _ _ Hb) Hok Hsz). by rewrite (db_v4 _ _ _ Hb).
Qed.

Lemma built_pad : c_pad_min_timestamp c = true ->
  0 <= c_ts_sz c /\ Forall (fun e => kNumInternalBytes <= slen (e_key e)) es.
Proof. intros _. split; [apply Hb|apply stored_keys_long]. Qed.

Lemma init_dpos : dpos c es (St_init wild c false DataSub_init) None.
Proof. split; [done|]. split; [done|]. split; [by exists 0%nat|done]. Qed.
End Config.

Let blk_prot (prot : Z) : Block :=
  with_protection blk0 (size_ blk0) prot (Some (concat (sum_of Hash64 prot <$> es))) (u32 (slen es * prot))
    (found_interval r rs).

(** [InitializeDataBlockProtectionInfo] computes the checksum of every entry. *)
Lemma Initialize_ok prot : prot_ok prot -> slen kvs * prot < 2 ^ 32 ->
  InitializeDataBlockProtectionInfo wild Hash64 blk0 prot ucmp = Some (blk_prot prot).
Proof.
  intros Hp Hfit. unfold InitializeDataBlockProtectionInfo.
  destruct (Block_make_finished b0 kvs (db_fresh _ _ _ Hb) Hok Hsz) as (Hmk & H8 & Hrs).
  assert (0 < b_num_restarts_ blk0) as Hn by (unfold blk0; rewrite Hmk; done).
  unfold no_protection. change (b_num_restarts_ (with_protection blk0 _ _ _ _ _)) with (b_num_restarts_ blk0).
  assert ((0 <? prot) && (0 <? b_num_restarts_ blk0) = true) as ->.
  { apply andb_true_intro; split; apply Z.ltb_lt; [unfold prot_ok in Hp; lia|done]. }
  rewrite (NewDataIterator_built 0 (checksum_size_ blk0) (b_block_restart_interval_ blk0) kDisableGlobalSequenceNumber
    (b_kv_checksum_ blk0) true true). unfold initialize_protection.
  set (c := InitializeBase _ _ _ _ _ _ _ _ _ _).
  assert (c_pad_min_timestamp c = false) as Hnp by (cbn; apply andb_false_r).
  pose proof (built_data 0 (b_block_restart_interval_ blk0) kDisableGlobalSequenceNumber (b_kv_checksum_ blk0) true true)
    as Hd. fold c in Hd.
  assert (c_pad_min_timestamp c = true ->
    0 <= c_ts_sz c /\ Forall (fun e => kNumInternalBytes <= slen (e_key e)) es) as Hpad by (rewrite Hnp; done).
  pose proof (init_dpos 0 (b_block_restart_interval_ blk0) kDisableGlobalSequenceNumber (b_kv_checksum_ blk0) true true)
    as Hinit. fold c in Hinit.
  destruct (GetRestartInterval_ok wild Hash64 c r es rs _ data_layout Hd eq_refl eq_refl data_size Hpad
    (or_introl eq_refl) eq_refl _ (dpos_sane _ _ _ _ Hinit)) as (s1 & -> & Hs1).
  cbn [St_init status_ ok mbind option_bind]. rewrite (proj1 Hs1). cbn [ok].
  destruct (NumberOfKeys_ok wild Hash64 c r es rs _ data_layout Hd eq_refl eq_refl data_size Hpad
    (or_introl eq_refl) eq_refl _ Hs1) as (s2 & -> & Hs2).
  cbn [mbind option_bind]. rewrite (proj1 Hs2). cbn [ok].
  destruct (dpos_SeekToFirst wild Hash64 c r es rs _ data_layout Hd eq_refl eq_refl data_size Hpad
    (or_introl eq_refl) _ Hs2) as (s3 & E3 & Hd3).
  destruct (UpdateKey_ok wild Hash64 c r es rs _ data_layout Hd eq_refl (or_introl eq_refl) _ _ Hd3) as (s4 & E4 & Hd4 & He4).
  unfold DataBlockIter.SeekToFirst. rewrite E3. cbn [mbind option_bind]. rewrite E4. cbn [mbind option_bind].
  destruct (checksum_loop_ok wild Hash64 c r es rs _ data_layout Hd eq_refl eq_refl data_size Hpad
    (or_introl eq_refl) prot (u32 (slen es * prot)) (scan_fuel c) s4 0 [] Hp) as (s5 & -> & Hs5); try done.
  { rewrite u32_id.
    - change (@slen byte []) with 0. rewrite drop_0, Z.mul_comm. lia.
    - pose proof length_es. unfold is_u32, slen in *. unfold prot_ok in Hp. nia. }
  { pose proof (fuel_enough c false es eq_refl). lia. }
  cbn [mbind option_bind]. rewrite (proj1 Hs5). done.
Qed.

(** What the iterator shows is [visible]. *)
Lemma visible_ok c g : c_pad_min_timestamp c = (0 <? ts_sz) && negb persisted -> c_ts_sz c = ts_sz ->
  c_global_seqno c = g ->
  shown_entries c es = visible ucmp persisted g kvs /\ Forall (fun e => 8 <= slen (disp c false (e_key e))) es.
Proof.
  intros Hp Hts Hgs. split.
  - apply list_eq. intros i. unfold shown_entries, visible. rewrite !list_lookup_fmap.
    destruct (kvs !! i) as [x|] eqn:Hx; cbn [fmap option_fmap option_map].
    + destruct (stored_entry i x Hx) as (e & -> & Hv & Hk & _). cbn. rewrite Hv. do 2 f_equal.
      unfold expose, disp, shown_key. rewrite Hp, Hts, Hgs, Hk. done.
    + destruct (es !! i) eqn:He; [|done]. apply lookup_lt_Some in He. apply lookup_ge_None in Hx.
      rewrite length_es in He. lia.
  - apply Forall_lookup_2. intros i e He. destruct (lookup_lt_is_Some_2 kvs i) as [x Hx].
    { rewrite <- length_es. by eapply lookup_lt_Some. }
    destruct (stored_entry i x Hx) as (e' & He' & _ & _ & _ & Hl). rewrite He in He'. injection He' as <-.
    unfold disp. by rewrite Hp, Hts.
Qed.

(** The iterator that is opened, and its entries. *)
Section Opened.
Variables prot g : Z.
Variable pinned : bool.
Hypothesis Hprot : prot = 0 \/ prot_ok prot /\ (persisted = true \/ ts_sz = 0) /\ slen kvs * prot < 2 ^ 32.

Definition opens (c : Cfg) : Prop :=
  c_data c = Some (enc_ents false (ents b0 kvs) ++ concat (EncodeFixed32 <$> rs_of b0 (ents b0 kvs)) ++ block_tail b0 kvs) /\
  c_restarts c = slen (enc_ents false (ents b0 kvs)) /\ c_num_restarts c = slen (rs_of b0 (ents b0 kvs)) /\
  c_ucmp c = ucmp /\ c_global_seqno c = g /\ c_ts_sz c = timestamp_size ucmp /\
  c_pad_min_timestamp c = (0 <? timestamp_size ucmp) && negb persisted /\
  let p := c_protection_bytes_per_key c in
  (p = 0 \/ prot_ok p /\ c_pad_min_timestamp c = false /\
     (c_block_restart_interval c = Z.of_nat (Z.to_nat (block_restart_interval_ b0)) \/
      (length (rs_of b0 (ents b0 kvs)) = 1%nat /\ c_block_restart_interval c = 0)) /\
     c_kv_checksum c = Some (concat (sum_of Hash64 p <$> ents b0 kvs))).

Lemma open_ok : exists blk c, InitializeDataBlockProtectionInfo wild Hash64 blk0 prot ucmp = Some blk /\
  NewDataIterator wild blk ucmp g pinned persisted = (c, built_index b0 kvs, St_init wild c false DataSub_init) /\
  opens c.
Proof.
  assert (exists sums sz iv, InitializeDataBlockProtectionInfo wild Hash64 blk0 prot ucmp =
    Some (with_protection blk0 (size_ blk0) prot sums sz iv) /\
    (prot = 0 \/ prot_ok prot /\ (0 <? ts_sz) && negb persisted = false /\
     (iv = Z.of_nat r \/ (length rs = 1%nat /\ iv = 0)) /\ sums = Some (concat (sum_of Hash64 prot <$> es))))
    as (sums & sz & iv & -> & Hpr).
  { destruct Hprot as [->|(Hp & Hpers & Hfit)].
    - eexists _, _, _. split; [done|]. by left.
    - eexists _, _, _. split; [by apply Initialize_ok|]. right. split; [done|]. split.
      { destruct Hpers as [->| ->]; [apply andb_false_r|done]. }
      split; [|done]. unfold found_interval. destruct (Nat.ltb_spec 1 (length rs)); [by left|right].
      pose proof (length_rs _ _ _ _ data_layout). pose proof (nrestarts_pos r (length es)). split; [lia|done]. }
  eexists _, _. split; [done|]. rewrite (NewDataIterator_built prot sz iv g sums pinned persisted). split; [done|].
  split; [apply built_data|]. by split_and!.
Qed.

Lemma opens_pad c : c_ts_sz c = ts_sz -> c_pad_min_timestamp c = true ->
  0 <= c_ts_sz c /\ Forall (fun e => kNumInternalBytes <= slen (e_key e)) es.
Proof. intros -> _. split; [apply Hb|apply stored_keys_long]. Qed.

Hypothesis Hg : valid_global g.
Hypothesis Hsort : StronglySorted (fun a b => IKCompare ucmp a b < 0) (visible ucmp persisted g kvs).*1.

Lemma opened_sorted c : shown_entries c es = visible ucmp persisted g kvs -> forall i j a b, (i < j)%nat ->
  shown_keys c es !! i = Some a -> shown_keys c es !! j = Some b -> IKCompare ucmp a b < 0.
Proof.
  unfold shown_keys. intros -> i j a b Hij Ha Hbb. exact (StronglySorted_lookup _ _ i j a b Hsort Hij Ha Hbb).
Qed.

Lemma opened_run c os p : opens c ->
  cursor_run (IKCompare ucmp) (visible ucmp persisted g kvs).*1 os = Some p ->
  exists s, data_run wild Hash64 c (St_init wild c false DataSub_init) os = Some s /\ dpos c es s p /\
    shows c s (visible ucmp persisted g kvs) p.
Proof.
  intros (Hd & Hr & Hn & Hu & Hgs & Hts & Hpad & Hpr) Hrun.
  destruct (visible_ok c g Hpad Hts Hgs) as [Hvis Hlong]. rewrite <- Hvis. rewrite <- Hvis in Hrun. rewrite <- Hu in Hrun.
  assert (ComparatorOk (c_ucmp c)) by (by rewrite Hu). assert (valid_global (c_global_seqno c)) as Hgc by (by rewrite Hgs).
  apply (data_run_ok wild Hash64 c r es rs _ data_layout Hd Hr Hn data_size (opens_pad c Hts) Hpr Hgc Hlong); [|done|].
  - rewrite Hu. by apply opened_sorted.
  - split; [done|]. split; [done|]. split; [by exists 0%nat|done].
Qed.

(** *** The hash index of a built block *)

Section Lookup.
Hypothesis Hnone : hash_and_restart_pairs_ (data_block_hash_index_builder_ b0) = [].
Hypothesis Hts0 : ts_sz = 0.

Let hib := hib_run b0 kvs.

Lemma stored_key i x e : kvs !! i = Some x -> es !! i = Some e -> e_key e = kvd_key x.
Proof.
  intros Hx He. destruct (stored_entry i x Hx) as (e' & He' & _ & Hk & _). rewrite He in He'. injection He' as <-.
  rewrite Hts0 in Hk. done.
Qed.

Lemma pairs_lookup i x : kvs !! i = Some x ->
  (GetSliceHash (ExtractUserKey (kvd_key x)), Z.of_nat (i / r)) ∈ pairs_of b0 kvs.
Proof. intros Hx. apply list_elem_of_lookup. exists i. unfold pairs_of. by rewrite list_lookup_imap, Hx. Qed.

Lemma pairs_inv h j : (h, j) ∈ pairs_of b0 kvs -> exists i x, kvs !! i = Some x /\ j = Z.of_nat (i / r).
Proof.
  intros [i Hi]%list_elem_of_lookup. unfold pairs_of in Hi. rewrite list_lookup_imap in Hi.
  destruct (kvs !! i) as [x|] eqn:Hx; [|done]. cbn in Hi. injection Hi as _ <-. by exists i, x.
Qed.

Lemma restart_of i : (i < length es)%nat -> (i / r < length rs)%nat.
Proof.
  intros Hi. rewrite (length_rs _ _ _ _ data_layout). pose proof (lay_pos _ _ _ _ data_layout) as Hr.
  destruct (length es) as [|n]; [lia|]. cbn. pose proof (Nat.Div0.div_le_mono i n r ltac:(lia)). lia.
Qed.

(** The byte that [Lookup] reads is a bucket. *)
Lemma Lookup_bucket key : hash_used (built b0 kvs (ents_run b0 kvs).2) = true ->
  exists v, HIB_buckets hib !! Z.to_nat (u16 (GetSliceHash key mod HIB_num_buckets hib)) = Some v /\
    HI_Lookup (HIB_num_buckets hib) (enc_ents false es ++ concat (EncodeFixed32 <$> rs) ++ block_tail b0 kvs)
      (u32 (slen (enc_ents false es) + slen rs * 4)) key = Some (ub (to_byte v)).
Proof.
  intros Hu. pose proof (num_buckets_range hib) as Hnb. pose proof data_size as Hds. rewrite !slen_app, slen_restarts in Hds.
  set (idx := u16 (GetSliceHash key mod HIB_num_buckets hib)).
  pose proof (Z.mod_pos_bound (GetSliceHash key) (HIB_num_buckets hib) ltac:(lia)) as Hmod.
  assert (idx = GetSliceHash key mod HIB_num_buckets hib) as Hidx by (apply u16_id; unfold is_u16; lia).
  destruct (lookup_lt_is_Some_2 (HIB_buckets hib) (Z.to_nat idx)) as [v Hv]; [rewrite length_buckets; lia|].
  exists v. split; [done|]. unfold HI_Lookup. rewrite (proj2 (Z.eqb_neq _ _)) by lia. fold idx.
  rewrite u32_id by (unfold is_u32; slia).
  unfold block_tail, hash_bytes. rewrite Hu. change (data_block_hash_index_builder_ (built b0 kvs _)) with hib.
  rewrite app_assoc, <- !app_assoc, app_assoc.
  rewrite lookup_app_r; rewrite length_app.
  2: { pose proof (slen_restarts rs). unfold slen in *. lia. }
  assert (Z.to_nat (slen (enc_ents false es) + slen rs * 4 + idx) -
    (length (enc_ents false es) + length (concat (EncodeFixed32 <$> rs))) = Z.to_nat idx)%nat as ->.
  { pose proof (slen_restarts rs) as Hl. unfold slen in *. lia. }
  rewrite lookup_app_l by (rewrite length_fmap, length_buckets; lia).
  by rewrite list_lookup_fmap, Hv.
Qed.

Lemma built_lookup t : hash_used (built b0 kvs (ents_run b0 kvs).2) = true ->
  exists entry,
    HI_Lookup (HIB_num_buckets hib) (enc_ents false es ++ concat (EncodeFixed32 <$> rs) ++ block_tail b0 kvs)
      (u32 (slen (enc_ents false es) + slen rs * 4)) (ExtractUserKey t) = Some entry /\ lookup_ok r es rs t entry.
Proof.
  intros Hu. destruct (Lookup_bucket (ExtractUserKey t) Hu) as (v & Hv & ->). eexists. split; [done|].
  apply andb_prop in Hu as [Hvalid _]. destruct (hib_pairs b0 Hnone kvs Hvalid) as [Hp Hf].
  rewrite <- Hp in Hf. pose proof (buckets_ok hib _ v Hf Hv) as Hbk. unfold hib in Hbk. rewrite Hp in Hbk. rewrite Hp in Hf.
  assert (forall i e, es !! i = Some e -> exists x, kvs !! i = Some x /\ e_key e = kvd_key x) as Hx.
  { intros i e He. destruct (lookup_lt_is_Some_2 kvs i) as [x Hx]; [rewrite <- length_es; by eapply lookup_lt_Some|].
    exists x. split; [done|]. by eapply stored_key. }
  destruct Hbk as [[-> Hno]|[->|(Hmax & Hmin & [h0 Hin] & Hall)]].
  - right; left. split; [done|]. split.
    + unfold slen. rewrite (length_rs _ _ _ _ data_layout). destruct (length es) as [|n] eqn:Hn; [cbn; lia|]. cbn.
      destruct (lookup_lt_is_Some_2 kvs n) as [x Hxn]; [rewrite <- length_es; lia|].
      pose proof (proj1 (list.Forall_forall _ _) Hf _ (pairs_lookup n x Hxn)) as Hle. cbn in Hle.
      change kMaxRestartSupportedByHashIndex with 253 in Hle. unfold r in *. lia.
    + intros i e He Heq. destruct (Hx i e He) as (x & Hxi & Hk). apply (Hno _ _ (pairs_lookup i x Hxi)).
      by rewrite <- Hk, Heq.
  - left. done.
  - right; right. destruct (pairs_inv _ _ Hin) as (i0 & x0 & Hx0 & ->). exists (i0 / r)%nat.
    rewrite ub_to_byte by (change kMaxRestartSupportedByHashIndex with 253 in Hmax; lia). split; [done|].
    split; [apply restart_of; rewrite length_es; by eapply lookup_lt_Some|]. split; [done|].
    intros i e He Heq. destruct (Hx i e He) as (x & Hxi & Hk).
    pose proof (Hall _ _ (pairs_lookup i x Hxi)) as H. rewrite <- Hk, Heq in H. specialize (H eq_refl). lia.
Qed.
End Lookup.

Lemma opened_get c t s p : opens c ->
  hash_and_restart_pairs_ (data_block_hash_index_builder_ b0) = [] ->
  (HIB_Valid (data_block_hash_index_builder_ b0) = true -> ts_sz = 0 /\ forall a b, Compare ucmp a b = 0 -> a = b) ->
  8 <= slen t -> dpos c es s p ->
  exists res s', DataBlockIter.SeekForGet wild Hash64 c (built_index b0 kvs) t s = Some (res, s') /\ status_ s' = OK /\
    if res then shows c s' (visible ucmp persisted g kvs)
                  (head (positions (fun k => 0 <=? IKCompare ucmp k t) (visible ucmp persisted g kvs).*1))
    else forall k, k ∈ (visible ucmp persisted g kvs).*1 -> ExtractUserKey k = ExtractUserKey t ->
           IKCompare ucmp k t < 0.
Proof.
  intros (Hd & Hr & Hn & Hu & Hgs & Hts & Hpad & Hpr) Hnone Hhash Ht Hat.
  destruct (visible_ok c g Hpad Hts Hgs) as [Hvis Hlong]. rewrite <- Hvis.
  assert (ComparatorOk (c_ucmp c)) as Hcc by (by rewrite Hu). assert (valid_global (c_global_seqno c)) as Hgc by (by rewrite Hgs).
  assert (forall i j a b, (i < j)%nat -> shown_keys c es !! i = Some a -> shown_keys c es !! j = Some b ->
    IKCompare (c_ucmp c) a b < 0) as Hso by (rewrite Hu; by apply opened_sorted).
  assert (exists res s1 q, (match built_index b0 kvs with
      | None => s ← DataBlockIter.SeekImpl wild c t s; Some (true, s)
      | Some nb => DataBlockIter.SeekForGetImpl wild c nb t s end) = Some (res, s1) /\ dpos c es s1 q /\
      get_ok c es t res q /\ (res = false -> c_pad_min_timestamp c = false)) as (res & s1 & q & HG & Hd1 & Hok1 & Hnp).
  { unfold built_index. destruct (hash_used (built b0 kvs (ents_run b0 kvs).2)) eqn:Hused.
    - assert (HIB_Valid (data_block_hash_index_builder_ b0) = true) as Hv.
      { destruct (HIB_Valid (data_block_hash_index_builder_ b0)) eqn:E; [done|].
        apply andb_prop in Hused as [Hused _]. cbn in Hused.
        rewrite hib_run_disabled in Hused by done. done. }
      destruct (Hhash Hv) as [Hts0 Hbytes].
      assert (c_pad_min_timestamp c = false) as Hnopad by (rewrite Hpad; fold ts_sz; by rewrite Hts0).
      destruct (built_lookup Hnone Hts0 t Hused) as (entry & Hentry & Hlookup).
      destruct (SeekForGetImpl_ok wild Hash64 c r es rs _ data_layout Hd Hr Hn data_size (opens_pad c Hts) Hpr Hgc Hlong Hso
        Hnopad ltac:(by rewrite Hu) t Ht _ entry ltac:(unfold dat; by rewrite Hd, Hr, Hn) Hlookup s p Hat)
        as (res & s1 & q & H). exists res, s1, q. by destruct H as (? & ? & ?).
    - destruct (dpos_Seek wild Hash64 c r es rs _ data_layout Hd Hr Hn data_size (opens_pad c Hts) Hpr t s p
        (sorted_increasing Hash64 c r es rs [] Hpr Hgc Hlong Hso t Ht) Hat) as (s1 & q & -> & Hd1 & Hq). by exists true, s1, q. }
  destruct (UpdateKey_ok wild Hash64 c r es rs _ data_layout Hd Hr Hpr s1 q Hd1) as (s2 & HU & Hd2 & He2).
  exists res, s2. split.
  { unfold DataBlockIter.SeekForGet. destruct (built_index b0 kvs) as [nb|].
    - rewrite HG. cbn [mbind option_bind]. by rewrite HU.
    - destruct (DataBlockIter.SeekImpl wild c t s) as [sx|]; [|done]. cbn [mbind option_bind] in HG |- *.
      injection HG as <- ->. by rewrite HU. }
  split; [apply Hd2|]. destruct res; cbn [get_ok] in Hok1.
  - fold (shown_keys c es). rewrite <- Hu.
    rewrite (is_seek_head Hash64 c r es rs Hpr Hgc Hlong t q s1 Ht Hd1 Hok1).
    apply (exposed_shows Hash64 c r es rs [] Hr Hpr s2 q Hd2 He2).
  - intros k [i Hk]%list_elem_of_lookup Heq. fold (shown_keys c es) in Hk.
    destruct (lookup_lt_is_Some_2 es i) as [e He].
    { rewrite <- (length_shown c es). by eapply lookup_lt_Some. }
    rewrite (shown_keys_lookup c es i e He) in Hk. injection Hk as <-.
    rewrite <- Hu, <- (K_shown c es Hgc Hlong i e t He Ht). apply (Hok1 i e He). rewrite <- Heq.
    unfold expose, disp. rewrite (Hnp eq_refl). destruct (_ =? _); [done|]. by rewrite ExtractUserKey_app.
Qed.
End Opened.
End DataBlock.

(** [C5] A data block shows what was put into it. Add sorted internal keys to a
    fresh [BlockBuilder], finish it, open the bytes as a [Block], let
    [InitializeDataBlockProtectionInfo] compute per-entry checksums (or none),
    and run any sequence of [SeekToFirst], [SeekToLast], [Seek], [SeekForPrev],
    [Next] and [Prev] on a [DataBlockIter]: every operation returns, and the
    iterator stands where a cursor over the list of entries stands, with an OK
    status, the same validity, and the key (with the minimum timestamp and the
    global sequence number where they apply) and the value of that entry. *)
Theorem data_block_iter_refinement (wild : Z) (Hash64 : bytes -> Z -> Z) (ucmp : Comparator) (Hc : ComparatorOk ucmp)
    (b0 : BlockBuilder) (kvs : list KVD) (persisted pinned : bool) (prot g : Z) (os : list IterOp) (p : option nat) :
  data_builder_ok ucmp persisted b0 -> Forall (data_entry_ok ucmp persisted b0) kvs -> built_size b0 kvs < 2 ^ 31 ->
  prot = 0 \/ prot_ok prot /\ (persisted = true \/ timestamp_size ucmp = 0) /\ slen kvs * prot < 2 ^ 32 ->
  valid_global g ->
  StronglySorted (fun a b => IKCompare ucmp a b < 0) (visible ucmp persisted g kvs).*1 ->
  cursor_run (IKCompare ucmp) (visible ucmp persisted g kvs).*1 os = Some p ->
  exists blk, InitializeDataBlockProtectionInfo wild Hash64 (Block_make (finished b0 kvs)) prot ucmp = Some blk /\
    let '(c, _, s0) := NewDataIterator wild blk ucmp g pinned persisted in
    exists s, data_run wild Hash64 c s0 os = Some s /\ shows c s (visible ucmp persisted g kvs) p.
Proof.
  intros Hb Hkvs Hsz Hprot Hg Hsort Hrun.
  destruct (open_ok wild Hash64 ucmp b0 kvs persisted Hb Hkvs Hsz prot g pinned Hprot) as (blk & c & Hi & Hn & Ho).
  exists blk. split; [done|]. rewrite Hn.
  destruct (opened_run wild Hash64 ucmp b0 kvs persisted Hb Hkvs Hsz g Hg Hsort c os p Ho Hrun) as (s & Hs & _ & Hsh).
  by exists s.
Qed.

Definition sample_ops : list IterOp :=
  [OpSeekToLast; OpPrev; OpNext; OpSeek (sample_ikey Byte.x62 99); OpPrev; OpSeekForPrev (sample_ikey Byte.x7a 1); OpPrev].

Lemma data_block_iter_refinement_witness :
  exists blk, InitializeDataBlockProtectionInfo 0 (fun b seed => seed + slen b) (Block_make (finished data_builder sample_kvs)) 4
      BytewiseComparator = Some blk /\
    let '(c, _, s0) := NewDataIterator 0 blk BytewiseComparator 77 false true in
    exists s, data_run 0 (fun b seed => seed + slen b) c s0 sample_ops = Some s /\
      shows c s (visible BytewiseComparator true 77 sample_kvs) (Some 1%nat).
Proof.
  apply (data_block_iter_refinement 0 (fun b seed => seed + slen b) BytewiseComparator _ data_builder sample_kvs
    true false 4 77 sample_ops (Some 1%nat)).
  - split; [by apply fresh_make|done..].
  - repeat (constructor; [split; [split_and!|]; vm_compute; done|]). constructor.
  - vm_compute. reflexivity.
  - right. split; [unfold prot_ok; lia|]. split; [by left|reflexivity].
  - right. vm_compute. split; done.
  - repeat constructor.
  - vm_compute. reflexivity.
Defined.

(** [C19] Point lookups. After any sequence of operations, [SeekForGet] for an
    internal key returns, with an OK status; when it returns true the iterator
    stands where [Seek] would put it, and when it returns false the block has no
    entry of that user key at or after the target. The hash index (a bucket with
    no entry, with one restart interval, or with a collision) only decides where
    to look. *)
Theorem seek_for_get_correct (wild : Z) (Hash64 : bytes -> Z -> Z) (ucmp : Comparator) (Hc : ComparatorOk ucmp)
    (b0 : BlockBuilder) (kvs : list KVD) (persisted pinned : bool) (prot g : Z) (os : list IterOp) (p : option nat)
    (target : bytes) :
  data_builder_ok ucmp persisted b0 -> Forall (data_entry_ok ucmp persisted b0) kvs -> built_size b0 kvs < 2 ^ 31 ->
  prot = 0 \/ prot_ok prot /\ (persisted = true \/ timestamp_size ucmp = 0) /\ slen kvs * prot < 2 ^ 32 ->
  valid_global g ->
  StronglySorted (fun a b => IKCompare ucmp a b < 0) (visible ucmp persisted g kvs).*1 ->
  hash_and_restart_pairs_ (data_block_hash_index_builder_ b0) = [] ->
  (HIB_Valid (data_block_hash_index_builder_ b0) = true ->
     timestamp_size ucmp = 0 /\ forall a b, Compare ucmp a b = 0 -> a = b) ->
  8 <= slen target ->
  cursor_run (IKCompare ucmp) (visible ucmp persisted g kvs).*1 os = Some p ->
  exists blk, InitializeDataBlockProtectionInfo wild Hash64 (Block_make (finished b0 kvs)) prot ucmp = Some blk /\
    let '(c, index, s0) := NewDataIterator wild blk ucmp g pinned persisted in
    exists s res s', data_run wild Hash64 c s0 os = Some s /\
      DataBlockIter.SeekForGet wild Hash64 c index target s = Some (res, s') /\ status_ s' = OK /\
      if res then shows c s' (visible ucmp persisted g kvs)
                    (head (positions (fun k => 0 <=? IKCompare ucmp k target) (visible ucmp persisted g kvs).*1))
      else forall k, k ∈ (visible ucmp persisted g kvs).*1 -> ExtractUserKey k = ExtractUserKey target ->
             IKCompare ucmp k target < 0.
Proof.
  intros Hb Hkvs Hsz Hprot Hg Hsort Hnone Hhash Ht Hrun.
  destruct (open_ok wild Hash64 ucmp b0 kvs persisted Hb Hkvs Hsz prot g pinned Hprot) as (blk & c & Hi & Hn & Ho).
  exists blk. split; [done|]. rewrite Hn.
  destruct (opened_run wild Hash64 ucmp b0 kvs persisted Hb Hkvs Hsz g Hg Hsort c os p Ho Hrun) as (s & Hs & Hd & _).
  exists s. destruct (opened_get wild Hash64 ucmp b0 kvs persisted Hb Hkvs Hsz g Hg Hsort c target s p Ho Hnone Hhash Ht Hd)
    as (res & s' & HG & Hst & Hres). by exists res, s'.
Qed.

Lemma seek_for_get_correct_witness :
  exists blk, InitializeDataBlockProtectionInfo 0 (fun b seed => seed + slen b) (Block_make (finished hash_builder sample_kvs)) 8
      BytewiseComparator = Some blk /\
    let '(c, index, s0) := NewDataIterator 0 blk BytewiseComparator kDisableGlobalSequenceNumber false true in
    exists s res s', data_run 0 (fun b seed => seed + slen b) c s0 [OpSeekToFirst; OpNext] = Some s /\
      DataBlockIter.SeekForGet 0 (fun b seed => seed + slen b) c index (sample_ikey Byte.x63 5) s = Some (res, s') /\
      status_ s' = OK /\
      if res then shows c s' (visible BytewiseComparator true kDisableGlobalSequenceNumber sample_kvs)
                    (head (positions (fun k => 0 <=? IKCompare BytewiseComparator k (sample_ikey Byte.x63 5))
                       (visible BytewiseComparator true kDisableGlobalSequenceNumber sample_kvs).*1))
      else forall k, k ∈ (visible BytewiseComparator true kDisableGlobalSequenceNumber sample_kvs).*1 ->
             ExtractUserKey k = ExtractUserKey (sample_ikey Byte.x63 5) ->
             IKCompare BytewiseComparator k (sample_ikey Byte.x63 5) < 0.
Proof.
  apply (seek_for_get_correct 0 (fun b seed => seed + slen b) BytewiseComparator _ hash_builder sample_kvs
    true false 8 kDisableGlobalSequenceNumber [OpSeekToFirst; OpNext] (Some 1%nat) (sample_ikey Byte.x63 5)).
  - split; [by apply fresh_make|done..].
  - repeat (constructor; [split; [split_and!|]; vm_compute; done|]). constructor.
  - vm_compute. reflexivity.
  - right. split; [unfold prot_ok; lia|]. split; [by left|reflexivity].
  - by left.
  - repeat constructor.
  - done.
  - intros _. split; [done|]. intros a b; cbn [BytewiseComparator Compare]; rewrite compare_lex; apply lex_eq.
  - vm_compute. discriminate.
  - vm_compute. reflexivity.
Defined.

(** The other half of the promise in block.cc, that after false "the last key of
    this block has a greater user_key", does not hold: for a user key beyond the
    block whose bucket was filled from an interval that is not the last,
    [SeekForGet] returns false. *)
Definition beyond_key : bytes := AppendInternalKeyFooter [Byte.x62; Byte.x63] 9 kTypeValue.

Lemma seek_for_get_false_positive :
  let '(c, index, s0) := NewDataIterator 0 (Block_make (finished hash_builder sample_kvs)) BytewiseComparator
                           kDisableGlobalSequenceNumber false true in
  fst <$> DataBlockIter.SeekForGet 0 (fun _ _ => 0) c index beyond_key s0 = Some false /\
  Forall (fun k => Compare BytewiseComparator (ExtractUserKey k) (ExtractUserKey beyond_key) < 0)
    (visible BytewiseComparator true kDisableGlobalSequenceNumber sample_kvs).*1.
Proof.
  set (it := NewDataIterator _ _ _ _ _ _).
  assert (fst <$> DataBlockIter.SeekForGet 0 (fun _ _ => 0) it.1.1 it.1.2 beyond_key it.2 = Some false) as H
    by (vm_compute; reflexivity).
  clearbody it. destruct it as [[c index] s0]. split; [exact H|]. repeat constructor.
Qed.

(** ** Corrupted blocks *)

(** The bound of [CheckAndDecodeEntry] is computed in 32 bits: an entry that
    claims [2^32 - 1] bytes of key and two of value passes, although the key
    is not in the block. *)
Definition long_entry : bytes :=
  EncodeVarint32 0 ++ EncodeVarint32 (2 ^ 32 - 1) ++ EncodeVarint32 2 ++ [Byte.x61; Byte.x62; Byte.x63].

Lemma check_and_decode_entry_wraps :
  CheckAndDecodeEntry long_entry 0 (slen long_entry) = Some (Some (7, 0, 2 ^ 32 - 1, 2)) /\
  bread long_entry 7 (2 ^ 32 - 1) = None.
Proof. split; vm_compute; reflexivity. Qed.

(** [Block] computes the offset of the restart array in 32 bits: a block of 8
    bytes whose footer claims [2^30 + 1] restart points is accepted, and
    [SeekToLast] reads outside of it. *)
Definition wrapped_block : bytes := EncodeFixed32 0 ++ EncodeFixed32 (2 ^ 30 + 1).

Lemma block_restarts_wrap :
  size_ (Block_make wrapped_block) = 8 /\ b_num_restarts_ (Block_make wrapped_block) = 2 ^ 30 + 1 /\
  let '(c, _, s0) := NewDataIterator 0 (Block_make wrapped_block) BytewiseComparator kDisableGlobalSequenceNumber false true in
  status_ s0 = OK /\ GetRestartPoint c (c_num_restarts c - 1) = None.
Proof. split_and!; vm_compute; reflexivity || (split; reflexivity). Qed.

(** Checksums of keys without timestamps do not verify against the keys that
    are shown: with timestamps that are not persisted, the first entry of an
    intact block is reported as corrupted. *)
Definition ts_builder : BlockBuilder :=
  BlockBuilder_make 16 true false kDataBlockBinarySearch dbl_0 8 false false.
Definition ts_kvs : list KVD :=
  [([Byte.x61] ++ EncodeFixed64 5 ++ EncodeFixed64 (PackSequenceAndType 3 kTypeValue), [Byte.x31], None)].
Definition length_hash (b : bytes) (seed : Z) : Z := seed + slen b.

Lemma checksum_without_timestamps :
  match InitializeDataBlockProtectionInfo 0 length_hash (Block_make (finished ts_builder ts_kvs)) 8
          (ComparatorWithU64Ts BytewiseComparator) with
  | None => False
  | Some blk =>
      let '(c, _, s0) := NewDataIterator 0 blk (ComparatorWithU64Ts BytewiseComparator) kDisableGlobalSequenceNumber
                           false false in
      match DataBlockIter.SeekToFirst 0 length_hash c s0 with
      | Some s => ok (status_ s) = false
      | None => False
      end
  end.
Proof. vm_compute. reflexivity. Qed.
