(* ===== verification/IndexBuilder.v ===== *)
(** * The index of a table

    Models [ShortenedIndexBuilder] of table/block_based/index_builder.h and
    index_builder.cc: for every data block it adds a key that separates the
    block from the next one, with the handle of the block (the difference to
    the handle before it, where the keys share a prefix) and optionally the
    first key of the block.

    The hash and the partitioned index builders are not modelled. *)

From S2P Require Import Prelude Coding Slice Comparator DbFormat TableFormat BlockBuilder.

Inductive IndexShorteningMode := kNoShortening | kShortenSeparators | kShortenSeparatorsAndSuccessor.

#[export] Instance IndexShorteningMode_eq_dec : EqDecision IndexShorteningMode.
Proof. solve_decision. Defined.

Section Separators.
Variable ucmp : Comparator.

Definition FindShortestInternalKeySeparator (start limit : bytes) : bytes :=
  let user_start := ExtractUserKey start in
  let user_limit := ExtractUserKey limit in
  let tmp := FindShortestSeparator ucmp user_start user_limit in
  if (slen tmp <=? slen user_start) && (Compare ucmp user_start tmp <? 0)
  then PutFixed64 tmp (PackSequenceAndType kMaxSequenceNumber kValueTypeForSeek)
  else start.

Definition FindShortInternalKeySuccessor (key : bytes) : bytes :=
  let user_key := ExtractUserKey key in
  let tmp := FindShortSuccessor ucmp user_key in
  if (slen tmp <=? slen user_key) && (Compare ucmp user_key tmp <? 0)
  then PutFixed64 tmp (PackSequenceAndType kMaxSequenceNumber kValueTypeForSeek)
  else key.
End Separators.

(** The members of [IndexBuilder] and [ShortenedIndexBuilder]. *)
Record ShortenedIndexBuilder := {
  ib_comparator_ : Comparator;              (** [comparator_->user_comparator()] *)
  ib_ts_sz_ : Z;
  persist_user_defined_timestamps_ : bool;
  index_size_ : Z;
  index_block_builder_ : BlockBuilder;
  index_block_builder_without_seq_ : BlockBuilder;
  ib_use_value_delta_encoding_ : bool;
  seperator_is_key_plus_seq_ : bool;
  include_first_key_ : bool;
  shortening_mode_ : IndexShorteningMode;
  last_encoded_handle_ : BlockHandle;
  current_block_first_internal_key_ : bytes
}.

Definition ShortenedIndexBuilder_make (ucmp : Comparator) (index_block_restart_interval format_version : Z)
    (use_value_delta_encoding : bool) (shortening_mode : IndexShorteningMode) (include_first_key : bool)
    (ts_sz : Z) (persist_user_defined_timestamps : bool) : ShortenedIndexBuilder :=
  let builder is_user_key :=
    BlockBuilder_make index_block_restart_interval true use_value_delta_encoding kDataBlockBinarySearch
      kDefaultUtilRatio ts_sz persist_user_defined_timestamps is_user_key in
  {| ib_comparator_ := ucmp; ib_ts_sz_ := ts_sz;
     persist_user_defined_timestamps_ := persist_user_defined_timestamps; index_size_ := 0;
     index_block_builder_ := builder false; index_block_builder_without_seq_ := builder true;
     ib_use_value_delta_encoding_ := use_value_delta_encoding;
     seperator_is_key_plus_seq_ := format_version <=? 2; include_first_key_ := include_first_key;
     shortening_mode_ := shortening_mode; last_encoded_handle_ := NullBlockHandle;
     current_block_first_internal_key_ := [] |}.

Definition ShouldUseKeyPlusSeqAsSeparator (b : ShortenedIndexBuilder)
    (last_key_in_current_block first_key_in_next_block : bytes) : bool :=
  let l_user_key := ExtractUserKey last_key_in_current_block in
  let r_user_key := ExtractUserKey first_key_in_next_block in
  if persist_user_defined_timestamps_ b then Compare (ib_comparator_ b) l_user_key r_user_key =? 0
  else CompareWithoutTimestamp (ib_comparator_ b) l_user_key true r_user_key true =? 0.

Definition with_index (b : ShortenedIndexBuilder) (builder without_seq : BlockBuilder) (plus_seq : bool)
    (handle : BlockHandle) (first_key : bytes) (size : Z) : ShortenedIndexBuilder :=
  {| ib_comparator_ := ib_comparator_ b; ib_ts_sz_ := ib_ts_sz_ b;
     persist_user_defined_timestamps_ := persist_user_defined_timestamps_ b; index_size_ := size;
     index_block_builder_ := builder; index_block_builder_without_seq_ := without_seq;
     ib_use_value_delta_encoding_ := ib_use_value_delta_encoding_ b; seperator_is_key_plus_seq_ := plus_seq;
     include_first_key_ := include_first_key_ b; shortening_mode_ := shortening_mode_ b;
     last_encoded_handle_ := handle; current_block_first_internal_key_ := first_key |}.

Definition OnKeyAdded (b : ShortenedIndexBuilder) (key : bytes) : ShortenedIndexBuilder :=
  if include_first_key_ b && bool_decide (current_block_first_internal_key_ b = [])
  then with_index b (index_block_builder_ b) (index_block_builder_without_seq_ b) (seperator_is_key_plus_seq_ b)
         (last_encoded_handle_ b) key (index_size_ b)
  else b.

(** The first part of [AddIndexEntry]: the new [*last_key_in_current_block] and
    [seperator_is_key_plus_seq_]. *)
Definition AddIndexEntry_separator (b : ShortenedIndexBuilder) (last_key_in_current_block : bytes)
    (first_key_in_next_block : option bytes) : bytes * bool :=
  match first_key_in_next_block with
  | Some first_key =>
      let sep := if negb (bool_decide (shortening_mode_ b = kNoShortening))
                 then FindShortestInternalKeySeparator (ib_comparator_ b) last_key_in_current_block first_key
                 else last_key_in_current_block in
      (sep, if negb (seperator_is_key_plus_seq_ b) && ShouldUseKeyPlusSeqAsSeparator b sep first_key
            then true else seperator_is_key_plus_seq_ b)
  | None =>
      (if bool_decide (shortening_mode_ b = kShortenSeparatorsAndSuccessor)
       then FindShortInternalKeySuccessor (ib_comparator_ b) last_key_in_current_block
       else last_key_in_current_block, seperator_is_key_plus_seq_ b)
  end.

(** The new builder and [*last_key_in_current_block], which becomes the
    separator. *)
Definition AddIndexEntry (b : ShortenedIndexBuilder) (last_key_in_current_block : bytes)
    (first_key_in_next_block : option bytes) (block_handle : BlockHandle) : ShortenedIndexBuilder * bytes :=
  let '(sep, plus_seq) := AddIndexEntry_separator b last_key_in_current_block first_key_in_next_block in
  let first_internal_key :=
    if negb (bool_decide (current_block_first_internal_key_ b = [])) && (0 <? ib_ts_sz_ b) &&
       negb (persist_user_defined_timestamps_ b)
    then StripTimestampFromInternalKey [] (current_block_first_internal_key_ b) (ib_ts_sz_ b)
    else current_block_first_internal_key_ b in
  let entry := IV block_handle first_internal_key in
  let encoded_entry := IndexValue_EncodeTo entry [] (include_first_key_ b) None in
  let delta_encoded_entry :=
    if ib_use_value_delta_encoding_ b && negb (IsNull (last_encoded_handle_ b))
    then IndexValue_EncodeTo entry [] (include_first_key_ b) (Some (last_encoded_handle_ b))
    else [] in
  let builder := BlockBuilder_Add (index_block_builder_ b) sep encoded_entry (Some delta_encoded_entry) in
  let without_seq :=
    if negb plus_seq
    then BlockBuilder_Add (index_block_builder_without_seq_ b) (ExtractUserKey sep) encoded_entry
           (Some delta_encoded_entry)
    else index_block_builder_without_seq_ b in
  (with_index b builder without_seq plus_seq block_handle [] (index_size_ b), sep).

(** The contents of the index block. *)
Definition Index_Finish (b : ShortenedIndexBuilder) : ShortenedIndexBuilder * bytes :=
  let builder := if seperator_is_key_plus_seq_ b then BlockBuilder_Finish (index_block_builder_ b)
                 else index_block_builder_ b in
  let without_seq := if seperator_is_key_plus_seq_ b then index_block_builder_without_seq_ b
                     else BlockBuilder_Finish (index_block_builder_without_seq_ b) in
  let contents := if seperator_is_key_plus_seq_ b then buffer_ builder else buffer_ without_seq in
  (with_index b builder without_seq (seperator_is_key_plus_seq_ b) (last_encoded_handle_ b)
     (current_block_first_internal_key_ b) (slen contents), contents).

(** ** Separators *)

Section SeparatorLemmas.
Context (ucmp : Comparator) {Hc : ComparatorOk ucmp}.

(** The contract of [FindShortestSeparator] says nothing when the keys are
    equal; what is needed is that the key is not moved forward then. *)
Definition separator_stays : Prop :=
  forall a b, Compare ucmp a b = 0 -> 0 <= Compare ucmp a (FindShortestSeparator ucmp a b).

Lemma seek_footer_u64 : is_u64 (PackSequenceAndType kMaxSequenceNumber kValueTypeForSeek).
Proof. unfold is_u64. vm_compute. split; [discriminate|done]. Qed.

(** The order of internal keys with different user keys is that of these. *)
Lemma IKCompare_user a b : 8 <= slen a -> 8 <= slen b ->
  (Compare ucmp (ExtractUserKey a) (ExtractUserKey b) < 0 -> IKCompare ucmp a b < 0) /\
  (IKCompare ucmp a b < 0 -> Compare ucmp (ExtractUserKey a) (ExtractUserKey b) <= 0) /\
  (IKCompare ucmp a b <= 0 -> Compare ucmp (ExtractUserKey a) (ExtractUserKey b) <= 0).
Proof. intros _ _. unfold IKCompare. split_and!; repeat zcase. Qed.

Lemma IKCompare_refl a : IKCompare ucmp a a = 0.
Proof. unfold IKCompare. rewrite Compare_refl. cbn. repeat zcase. Qed.

Lemma InternalKeySeparator_between start limit : separator_stays -> 8 <= slen start -> 8 <= slen limit ->
  IKCompare ucmp start limit < 0 ->
  let sep := FindShortestInternalKeySeparator ucmp start limit in
  IKCompare ucmp start sep <= 0 /\ IKCompare ucmp sep limit < 0 /\ 8 <= slen sep <= slen start.
Proof.
  intros Hstay Hs Hl Hlt. cbv zeta. unfold FindShortestInternalKeySeparator.
  set (us := ExtractUserKey start). set (ul := ExtractUserKey limit). set (tmp := FindShortestSeparator ucmp us ul).
  destruct (Z.leb_spec (slen tmp) (slen us)) as [Hlen|]; cbn [andb]; [|rewrite IKCompare_refl; lia].
  destruct (Z.ltb_spec (Compare ucmp us tmp) 0) as [Hcmp|]; [|rewrite IKCompare_refl; lia].
  assert (Compare ucmp tmp ul < 0) as Htl.
  { pose proof (proj1 (proj2 (IKCompare_user start limit Hs Hl)) Hlt) as Hle. fold us ul in Hle.
    destruct (Z.eq_dec (Compare ucmp us ul) 0) as [H0|]; [pose proof (Hstay us ul H0) as Hx; fold tmp in Hx; lia|].
    apply Separator_between. lia. }
  unfold PutFixed64. set (sep := tmp ++ EncodeFixed64 _).
  assert (ExtractUserKey sep = tmp) as Hu by apply ExtractUserKey_app.
  assert (8 <= slen sep <= slen start) as Hsl.
  { unfold sep. rewrite slen_app, slen_EncodeFixed64. split; [slia|]. unfold us in Hlen.
    destruct (internal_key_shape start Hs) as (u & w & _ & E). rewrite E, ExtractUserKey_app in Hlen.
    rewrite E, slen_app, slen_EncodeFixed64. lia. }
  split; [|split; [|done]].
  - apply Z.lt_le_incl. apply IKCompare_user; [done|lia|]. by rewrite Hu.
  - apply IKCompare_user; [lia|done|]. by rewrite Hu.
Qed.

Lemma InternalKeySuccessor_above key : 8 <= slen key ->
  let succ := FindShortInternalKeySuccessor ucmp key in
  IKCompare ucmp key succ <= 0 /\ 8 <= slen succ <= slen key.
Proof.
  intros Hk. cbv zeta. unfold FindShortInternalKeySuccessor. set (us := ExtractUserKey key).
  set (tmp := FindShortSuccessor ucmp us).
  destruct (Z.leb_spec (slen tmp) (slen us)) as [Hlen|]; cbn [andb]; [|rewrite IKCompare_refl; lia].
  destruct (Z.ltb_spec (Compare ucmp us tmp) 0) as [Hcmp|]; [|rewrite IKCompare_refl; lia].
  unfold PutFixed64. set (sep := tmp ++ EncodeFixed64 _).
  assert (ExtractUserKey sep = tmp) as Hu by apply ExtractUserKey_app.
  assert (8 <= slen sep <= slen key) as Hsl.
  { unfold sep. rewrite slen_app, slen_EncodeFixed64. split; [slia|]. unfold us in Hlen.
    destruct (internal_key_shape key Hk) as (u & w & _ & E). rewrite E, ExtractUserKey_app in Hlen.
    rewrite E, slen_app, slen_EncodeFixed64. lia. }
  split; [|done]. apply Z.lt_le_incl. apply IKCompare_user; [done|lia|]. by rewrite Hu.
Qed.
End SeparatorLemmas.

(** ** Building the index of a sequence of data blocks *)

(** A data block as the index builder sees it: its keys and where it is. *)
Record DBlock := { d_first : bytes; d_more : list bytes; d_handle : BlockHandle }.
Definition d_keys (d : DBlock) : list bytes := d_first d :: d_more d.
Definition d_last (d : DBlock) : bytes := List.last (d_keys d) [].

(** The calls for one block: every key, then the entry. *)
Definition add_block (b : ShortenedIndexBuilder) (d : DBlock) (next : option bytes) : ShortenedIndexBuilder :=
  fst (AddIndexEntry (fold_left OnKeyAdded (d_keys d) b) (d_last d) next (d_handle d)).

Definition next_first (ds : list DBlock) : option bytes := d_first <$> head ds.

Fixpoint add_blocks (b : ShortenedIndexBuilder) (ds : list DBlock) : ShortenedIndexBuilder :=
  match ds with
  | [] => b
  | d :: ds => add_blocks (add_block b d (next_first ds)) ds
  end.

(** The separators and the values of the entries. *)
Definition separator (ucmp : Comparator) (mode : IndexShorteningMode) (d : DBlock) (next : option bytes) : bytes :=
  match next with
  | Some first_key => if bool_decide (mode = kNoShortening) then d_last d
                      else FindShortestInternalKeySeparator ucmp (d_last d) first_key
  | None => if bool_decide (mode = kShortenSeparatorsAndSuccessor) then FindShortInternalKeySuccessor ucmp (d_last d)
            else d_last d
  end.

Definition entry_value (b : ShortenedIndexBuilder) (d : DBlock) : IndexValue :=
  IV (d_handle d)
    (if include_first_key_ b then
       if (0 <? ib_ts_sz_ b) && negb (persist_user_defined_timestamps_ b)
       then StripTimestampFromInternalKey [] (d_first d) (ib_ts_sz_ b) else d_first d
     else []).

Fixpoint index_entries (b : ShortenedIndexBuilder) (ds : list DBlock) : list (bytes * IndexValue) :=
  match ds with
  | [] => []
  | d :: ds => (separator (ib_comparator_ b) (shortening_mode_ b) d (next_first ds), entry_value b d) ::
               index_entries b ds
  end.

(** What is added to the block builders. *)
Fixpoint index_kvds (have v4 : bool) (last : BlockHandle) (l : list (bytes * IndexValue)) : list KVD :=
  match l with
  | [] => []
  | (k, v) :: l =>
      (k, IndexValue_EncodeTo v [] have None,
       Some (if v4 && negb (IsNull last) then IndexValue_EncodeTo v [] have (Some last) else [])) ::
      index_kvds have v4 (iv_handle v) l
  end.

(** Whether internal keys are needed: some separator has the user key of the
    next block's first key. *)
Fixpoint needs_seq (b : ShortenedIndexBuilder) (ds : list DBlock) : bool :=
  match ds with
  | [] => false
  | d :: ds =>
      (match next_first ds with
       | Some f => ShouldUseKeyPlusSeqAsSeparator b (separator (ib_comparator_ b) (shortening_mode_ b) d (Some f)) f
       | None => false
       end) || needs_seq b ds
  end.

Definition user_keys (l : list (bytes * IndexValue)) : list (bytes * IndexValue) :=
  (fun e => (ExtractUserKey e.1, e.2)) <$> l.

Definition same_options (b b' : ShortenedIndexBuilder) : Prop :=
  ib_comparator_ b' = ib_comparator_ b /\ ib_ts_sz_ b' = ib_ts_sz_ b /\
  persist_user_defined_timestamps_ b' = persist_user_defined_timestamps_ b /\
  ib_use_value_delta_encoding_ b' = ib_use_value_delta_encoding_ b /\
  include_first_key_ b' = include_first_key_ b /\ shortening_mode_ b' = shortening_mode_ b.

Lemma same_options_entries b b' ds : same_options b b' ->
  index_entries b' ds = index_entries b ds /\ needs_seq b' ds = needs_seq b ds.
Proof.
  intros (H1 & H2 & H3 & H4 & H5 & H6). induction ds as [|d ds [IH1 IH2]]; [done|]. cbn [index_entries needs_seq].
  unfold entry_value, ShouldUseKeyPlusSeqAsSeparator. by rewrite IH1, IH2, H1, H2, H3, H5, H6.
Qed.

Lemma OnKeyAdded_all b ks k : current_block_first_internal_key_ b = [] -> k <> [] ->
  fold_left OnKeyAdded (k :: ks) b =
  with_index b (index_block_builder_ b) (index_block_builder_without_seq_ b) (seperator_is_key_plus_seq_ b)
    (last_encoded_handle_ b) (if include_first_key_ b then k else []) (index_size_ b).
Proof.
  intros H0 Hk. cbn [fold_left]. unfold OnKeyAdded at 2. rewrite H0, bool_decide_true, andb_true_r by done.
  destruct (include_first_key_ b) eqn:Hi.
  - set (b1 := with_index _ _ _ _ _ k _). assert (current_block_first_internal_key_ b1 <> []) as Hne by done.
    clearbody b1. induction ks as [|k' ks IH]; [done|]. cbn [fold_left]. unfold OnKeyAdded at 2.
    rewrite (bool_decide_false (_ = [])), andb_false_r by done. exact IH.
  - assert (fold_left OnKeyAdded ks b = b) as ->.
    { induction ks as [|k' ks IH]; [done|]. cbn [fold_left]. unfold OnKeyAdded at 2. by rewrite Hi. }
    destruct b; cbn in *. by rewrite H0.
Qed.

(** One block adds one entry. *)
Lemma add_block_ok b d next : current_block_first_internal_key_ b = [] -> d_first d <> [] ->
  let sep := separator (ib_comparator_ b) (shortening_mode_ b) d next in
  let v := entry_value b d in
  let kvd k := (k, IndexValue_EncodeTo v [] (include_first_key_ b) None,
    Some (if ib_use_value_delta_encoding_ b && negb (IsNull (last_encoded_handle_ b))
          then IndexValue_EncodeTo v [] (include_first_key_ b) (Some (last_encoded_handle_ b)) else [])) in
  let b' := add_block b d next in
  same_options b b' /\ current_block_first_internal_key_ b' = [] /\ last_encoded_handle_ b' = d_handle d /\
  index_block_builder_ b' = Add_kvd (index_block_builder_ b) (kvd sep) /\
  seperator_is_key_plus_seq_ b' = seperator_is_key_plus_seq_ b ||
    (match next with Some f => ShouldUseKeyPlusSeqAsSeparator b sep f | None => false end) /\
  (seperator_is_key_plus_seq_ b' = false ->
     index_block_builder_without_seq_ b' = Add_kvd (index_block_builder_without_seq_ b) (kvd (ExtractUserKey sep))).
Proof.
  intros H0 Hd. cbv zeta. unfold add_block, d_keys. rewrite OnKeyAdded_all by done.
  set (b1 := with_index b _ _ _ _ _ _). unfold AddIndexEntry.
  assert (AddIndexEntry_separator b1 (d_last d) next = (separator (ib_comparator_ b) (shortening_mode_ b) d next,
      seperator_is_key_plus_seq_ b || (match next with
        | Some f => ShouldUseKeyPlusSeqAsSeparator b (separator (ib_comparator_ b) (shortening_mode_ b) d next) f
        | None => false end))) as ->.
  { unfold AddIndexEntry_separator. change (shortening_mode_ b1) with (shortening_mode_ b).
    change (ib_comparator_ b1) with (ib_comparator_ b).
    change (seperator_is_key_plus_seq_ b1) with (seperator_is_key_plus_seq_ b).
    destruct next as [f|]; cbn [separator]; [|by rewrite orb_false_r].
    destruct (bool_decide (shortening_mode_ b = kNoShortening)); cbn [negb].
    all: f_equal; destruct (seperator_is_key_plus_seq_ b); cbn [negb andb orb]; try done.
    all: unfold ShouldUseKeyPlusSeqAsSeparator; cbn; by destruct (persist_user_defined_timestamps_ b), (_ =? 0). }
  set (sep := separator _ _ d next). set (plus := _ || _).
  assert ((if negb (bool_decide (current_block_first_internal_key_ b1 = [])) && (0 <? ib_ts_sz_ b1) &&
       negb (persist_user_defined_timestamps_ b1)
    then StripTimestampFromInternalKey [] (current_block_first_internal_key_ b1) (ib_ts_sz_ b1)
    else current_block_first_internal_key_ b1) = iv_first_internal_key (entry_value b d)) as Hfirst.
  { unfold entry_value, b1. cbn. destruct (include_first_key_ b).
    - by rewrite bool_decide_false.
    - done. }
  cbv zeta. rewrite Hfirst. change (IV (d_handle d) (iv_first_internal_key (entry_value b d))) with (entry_value b d).
  split; [by split_and!|]. split; [done|]. split; [done|]. split; [done|]. split; [done|].
  cbn [fst with_index seperator_is_key_plus_seq_]. intros ->. done.
Qed.

(** The block builders hold the entries. *)
Lemma add_blocks_ok ds b : current_block_first_internal_key_ b = [] -> Forall (fun d => d_first d <> []) ds ->
  let b' := add_blocks b ds in
  same_options b b' /\
  index_block_builder_ b' = fold_left Add_kvd
    (index_kvds (include_first_key_ b) (ib_use_value_delta_encoding_ b) (last_encoded_handle_ b) (index_entries b ds))
    (index_block_builder_ b) /\
  seperator_is_key_plus_seq_ b' = seperator_is_key_plus_seq_ b || needs_seq b ds /\
  (seperator_is_key_plus_seq_ b' = false ->
   index_block_builder_without_seq_ b' = fold_left Add_kvd
     (index_kvds (include_first_key_ b) (ib_use_value_delta_encoding_ b) (last_encoded_handle_ b)
        (user_keys (index_entries b ds)))
     (index_block_builder_without_seq_ b)).
Proof.
  revert b. induction ds as [|d ds IH]; intros b H0 Hds; cbv zeta; cbn [add_blocks].
  { split; [by split_and!|]. split; [done|]. split; [by rewrite orb_false_r|done]. }
  inversion Hds as [|? ? Hd Hds']; subst.
  destruct (add_block_ok b d (next_first ds) H0 Hd) as (Hso & H0' & Hh & Hb & Hp & Hw).
  set (b1 := add_block b d (next_first ds)) in *.
  destruct (IH b1 H0' Hds') as (Hso' & Hb' & Hp' & Hw'). destruct (same_options_entries b b1 ds Hso) as [He Hns].
  rewrite He in Hb', Hw'. rewrite Hns in Hp'.
  destruct (Hso) as (_ & _ & _ & Hv4 & Hinc & _). rewrite Hh, Hv4, Hinc in Hb', Hw'.
  split; [destruct Hso as (? & ? & ? & ? & ? & ?), Hso' as (? & ? & ? & ? & ? & ?); split_and!; congruence|].
  split; [by rewrite Hb', Hb|].
  split.
  { rewrite Hp', Hp. cbn [needs_seq]. destruct (next_first ds); by rewrite <- orb_assoc. }
  intros Hf. rewrite Hw' by done. rewrite Hp' in Hf. apply orb_false_elim in Hf as [Hf _]. by rewrite (Hw Hf).
Qed.
