(* ===== verification/IndexRefine.v ===== *)
(** * Index blocks, from building to searching

    An [IndexBlockIter] over a block that holds encoded index values (handles in
    full, or as differences to the handle before them) shows the keys and the
    values that were added; and in the index that [ShortenedIndexBuilder] makes
    of a sequence of data blocks, [Seek] finds the block a key is in. *)

From Stdlib Require Import Sorting.Sorted.
From S2P Require Import Prelude Coding Slice Comparator DbFormat IterKey KvChecksum TableFormat.
From S2P Require Import BlockBuilder Block BlockIter BlockRefine IndexBuilder.

Lemma varint64_pos v : 0 < slen (EncodeVarint64 v).
Proof. unfold EncodeVarint64. pose proof (encode_loop_length 9 v). lia. Qed.

(** The operations of an index iterator; [SeekForPrev] is not one of them. *)
Definition index_step (wild : Z) (Hash64 : bytes -> Z -> Z) (c : Cfg) (ic : IndexCfg) (s : IndexBlockIter.It) (o : IterOp)
    : option IndexBlockIter.It :=
  match o with
  | OpSeekToFirst => IndexBlockIter.SeekToFirst wild Hash64 c ic s
  | OpSeekToLast => IndexBlockIter.SeekToLast wild Hash64 c ic s
  | OpSeek t => IndexBlockIter.Seek wild Hash64 c ic t s
  | OpSeekForPrev _ => UpdateKey wild Hash64 c (IndexBlockIter.SeekForPrevImpl wild c s)
  | OpNext => IndexBlockIter.Next wild Hash64 c ic s
  | OpPrev => IndexBlockIter.Prev wild Hash64 c ic s
  end.

Definition index_run (wild : Z) (Hash64 : bytes -> Z -> Z) (c : Cfg) (ic : IndexCfg) (s : IndexBlockIter.It)
    (os : list IterOp) : option IndexBlockIter.It :=
  foldl (fun s o => s ← s; index_step wild Hash64 c ic s o) (Some s) os.

Definition is_index_op (o : IterOp) : bool := match o with OpSeekForPrev _ => false | _ => true end.

(** Index entries are compared by user key if they have no sequence number. *)
Definition index_cmp (ucmp : Comparator) (uk : bool) (k t : bytes) : Z :=
  if uk then Compare ucmp k (ExtractUserKey t) else IKCompare ucmp k t.

Definition index_order (ucmp : Comparator) (uk : bool) (a b : bytes) : Z :=
  if uk then Compare ucmp a b else IKCompare ucmp a b.

Definition index_shows (c : Cfg) (ic : IndexCfg) (s : IndexBlockIter.It) (l : list (bytes * IndexValue)) (p : option nat)
    : Prop :=
  status_ s = OK /\ Iter_Valid c s = bool_decide (p <> None) /\
  forall i, p = Some i -> exists k v, l !! i = Some (k, v) /\ ukey_ s = k /\
    IndexBlockIter.index_value c ic s = Some v.

Lemma Compare_strict ucmp `{!ComparatorOk ucmp} a b t : Compare ucmp a b < 0 -> Compare ucmp b t <= 0 -> Compare ucmp a t < 0.
Proof.
  intros Hab Hbt. destruct (Z.ltb_spec (Compare ucmp a t) 0) as [|Hge]; [done|exfalso].
  assert (Compare ucmp t a <= 0) as Hta.
  { destruct (Z.leb_spec (Compare ucmp t a) 0) as [|Hgt]; [done|]. apply Compare_flip in Hgt. lia. }
  pose proof (Compare_trans b t a Hbt Hta). apply Compare_flip in Hab. lia.
Qed.

(** ** The iterator *)

Section IndexIter.
Variable wild : Z.
Variable Hash64 : bytes -> Z -> Z.
Variable c : Cfg.
Variable ic : IndexCfg.
Variable r : nat.
Variable es : list Ent.
Variable rs : list Z.
Variable tail : bytes.
Variable uk : bool.
(** The values that the entries encode. *)
Variable ivs : list IndexValue.

Variables v4 have : bool.
Hypothesis Hic : value_delta_encoded_ ic = v4.
Hypothesis Hhave : have_first_key_ ic = have.

Hypothesis Hlay : layout v4 r es rs.
Hypothesis Hdata : c_data c = Some (enc_ents v4 es ++ concat (EncodeFixed32 <$> rs) ++ tail).
Hypothesis Hrestarts : c_restarts c = slen (enc_ents v4 es).
Hypothesis Hnum : c_num_restarts c = slen rs.
Hypothesis Hsize : slen (enc_ents v4 es ++ concat (EncodeFixed32 <$> rs) ++ tail) < 2 ^ 31.
Hypothesis Hpad : c_pad_min_timestamp c = true ->
  0 <= c_ts_sz c /\ (uk = false -> Forall (fun e => kNumInternalBytes <= slen (e_key e)) es).
Hypothesis Hprot : c_protection_bytes_per_key c = 0.
Hypothesis Hnoseq : c_global_seqno c = kDisableGlobalSequenceNumber.

(** The handle that an entry is encoded against. *)
Definition base_handle (delta : bool) (i : nat) (e : Ent) : option BlockHandle :=
  if delta && negb (e_shared e =? 0) then iv_handle <$> (ivs !! (i - 1)%nat) else None.

Definition iv_ok (v : IndexValue) : Prop :=
  is_u64 (bh_offset (iv_handle v)) /\ is_u64 (bh_size (iv_handle v)) /\ slen (iv_first_internal_key v) < 2 ^ 32.

Hypothesis Hvals : forall i e, es !! i = Some e -> exists v, ivs !! i = Some v /\ iv_ok v /\
  e_val e = IndexValue_EncodeTo v [] have (base_handle v4 i e) /\
  match base_handle v4 i e with Some p => follows p (iv_handle v) | None => True end.

(** A value as it is shown: the first key only if it is stored, with the
    global sequence number and the minimum timestamp where they apply. *)
Definition shown_first_key (k : bytes) : bytes :=
  let k := match idx_global_seqno_ ic with
           | Some g => ExtractUserKey k ++ EncodeFixed64 (PackSequenceAndType g (ExtractValueType k))
           | None => k
           end in
  if c_pad_min_timestamp c && negb (slen k =? 0) then PadInternalKeyWithMinTimestamp [] k (c_ts_sz c) else k.

Definition shown_value (v : IndexValue) : IndexValue :=
  IV (iv_handle v) (shown_first_key (if have_first_key_ ic then iv_first_internal_key v else [])).

(** The decoded value is that of the current entry; before an entry that is
    delta encoded, it is that of the entry before. *)
Definition value_at (x : IndexValue) (i : nat) : Prop :=
  IndexBlockIter.decodes_value c ic = true -> exists v, ivs !! i = Some v /\ x = shown_value v.
Definition value_before (x : IndexValue) (i : nat) : Prop :=
  value_delta_encoded_ ic = true -> forall e, es !! i = Some e -> e_shared e <> 0 ->
  (0 < i)%nat /\ exists v, ivs !! (i - 1)%nat = Some v /\ iv_handle x = iv_handle v.

Let Hv4 : v4 = true -> Forall (fun e => 0 < slen (e_val e)) es.
Proof.
  intros _. apply Forall_lookup_2. intros i e He. destruct (Hvals i e He) as (v & _ & _ & -> & _).
  unfold IndexValue_EncodeTo. set (d := match base_handle v4 i e with Some _ => _ | None => _ end).
  assert (0 < slen d) as Hd.
  { unfold d, PutVarsignedint64, PutVarint64. destruct (base_handle v4 i e); cbn [app].
    - apply varint64_pos.
    - rewrite BlockHandle_encode_app, slen_app. unfold BlockHandle_EncodeTo_ptr. rewrite slen_app.
      pose proof (varint64_pos (bh_offset (iv_handle v))). slia. }
  destruct have; [|done]. rewrite PutLengthPrefixedSlice_app, slen_app. slia.
Qed.

(** *** Parsing an entry *)

(** What lies between the value of an entry and the restart array. *)
Lemma value_rest i e : es !! i = Some e ->
  let voff := offs v4 es i + hdr_len v4 e + (slen (e_key e) - e_shared e) in
  bread (dat c) voff (c_restarts c - voff) = Some (e_val e ++ enc_ents v4 (drop (S i) es)).
Proof.
  intros He. cbv zeta. destruct (ent_facts v4 r es rs Hlay i e He) as (Hs & _). unfold dat. rewrite Hdata. cbn [default id].
  assert (slen (enc_ents v4 es) = slen (enc_ents v4 (take i es)) + slen (enc_ent v4 e) + slen (enc_ents v4 (drop (S i) es))) as Hsplit.
  { rewrite (enc_ents_split v4 es i e He) at 1. rewrite !slen_app. lia. }
  apply (bread_app _ (enc_ents v4 (take i es) ++ enc_hdr v4 e ++ sdrop (e_shared e) (e_key e)) _
    (concat (EncodeFixed32 <$> rs) ++ tail)).
  - rewrite (enc_ents_split v4 es i e He) at 1. unfold enc_ent. by rewrite <- !app_assoc.
  - rewrite !slen_app, slen_sdrop by lia. unfold hdr_len, offs. lia.
  - rewrite Hrestarts, Hsplit, slen_app. rewrite (slen_enc_ent_parts v4 r es rs Hlay i e He). unfold offs. lia.
Qed.

Lemma DecodeCurrentValue_ok (s : IndexBlockIter.It) i e vl : parsed c v4 es uk s i e vl -> value_before (sub_ s) i ->
  exists s' v, IndexBlockIter.DecodeCurrentValue c ic (negb (e_shared e =? 0)) s = Some s' /\
    parsed c v4 es uk s' i e (slen (e_val e)) /\ ivs !! i = Some v /\ sub_ s' = shown_value v /\
    status_ s' = status_ s /\ cur_entry_idx_ s' = cur_entry_idx_ s.
Proof.
  intros Hp Hx. pose proof (pr_ent _ _ _ _ _ _ _ _ Hp) as He. destruct (Hvals i e He) as (v & Hv & (H1 & H2 & H3) & Henc & Hf).
  unfold IndexBlockIter.DecodeCurrentValue. rewrite (pr_val _ _ _ _ _ _ _ _ Hp). cbn [fst].
  rewrite (value_rest i e He). cbn [mbind option_bind].
  assert ((if value_delta_encoded_ ic && negb (e_shared e =? 0) then Some (iv_handle (sub_ s)) else None) =
    base_handle v4 i e) as ->.
  { unfold base_handle. rewrite Hic. destruct (bool_cases v4) as [E|E]; rewrite E; [|done]. cbn [andb].
    destruct (Z.eqb_spec (e_shared e) 0) as [|Hne]; [done|].
    cbn [negb]. destruct (Hx ltac:(by rewrite Hic) e He Hne) as (_ & w & -> & ->). done. }
  pose proof (IndexValue_decode v (sub_ s) have (base_handle v4 i e) (enc_ents v4 (drop (S i) es)) H1 H2 H3 Hf) as Hdec.
  rewrite <- Henc in Hdec. rewrite Hhave, Hdec. eexists _, v. split; [done|]. split; [|split; [done|split; [|done]]].
  - destruct Hp. split; cbn; try done. f_equal. rewrite slen_app. lia.
  - unfold shown_value, shown_first_key. rewrite Hhave. cbn [sub_ set_sub iv_handle iv_first_internal_key].
    destruct (idx_global_seqno_ ic) as [g|]; cbn [iv_handle iv_first_internal_key spec a_key default].
    + rewrite Z.sub_0_r. fold (ExtractUserKey (if have then iv_first_internal_key v else [])). cbn [app].
      destruct (_ && _); done.
    + destruct (_ && _); done.
Qed.

Let Parse := IndexBlockIter.ParseNextIndexKey wild c ic.

Lemma Index_Parse_end s : ready c v4 es uk s (length es) ->
  Parse s = Some (false, false, set_pos s (c_restarts c) (c_num_restarts c)).
Proof.
  intros Hr. unfold Parse, IndexBlockIter.ParseNextIndexKey.
  rewrite !(ParseNextKey_end wild c v4 es rs tail uk Hrestarts Hsize _ s Hr). by destruct (value_delta_encoded_ ic).
Qed.

(** The value is decoded after the key has been parsed. *)
Lemma finish_parse s s1 i e vl : parsed c v4 es uk s1 i e vl -> same_rest s s1 -> value_before (sub_ s) i ->
  (IndexBlockIter.decodes_value c ic = false -> vl = slen (e_val e)) ->
  exists s', (if IndexBlockIter.decodes_value c ic
              then s2 ← IndexBlockIter.DecodeCurrentValue c ic (negb (e_shared e =? 0)) s1;
                   Some (true, negb (e_shared e =? 0), s2)
              else Some (true, negb (e_shared e =? 0), s1)) = Some (true, negb (e_shared e =? 0), s') /\
    parsed c v4 es uk s' i e (slen (e_val e)) /\ value_at (sub_ s') i /\
    status_ s' = status_ s /\ cur_entry_idx_ s' = cur_entry_idx_ s.
Proof.
  intros Hp (Hst & _ & _ & Hidx & Hsub) Hx Hvl. destruct (IndexBlockIter.decodes_value c ic) eqn:Hd.
  - rewrite <- Hsub in Hx. destruct (DecodeCurrentValue_ok s1 i e vl Hp Hx) as (s2 & v & -> & Hp2 & Hv & Hs2 & Hst2 & Hi2).
    cbn [mbind option_bind]. exists s2. split; [done|]. split; [done|]. split; [intros _; eauto|]. split; congruence.
  - exists s1. split; [done|]. rewrite (Hvl eq_refl) in Hp. split; [done|]. split; [unfold value_at; congruence|]. by split.
Qed.

Lemma Index_Parse_ok s i e : ready c v4 es uk s i -> value_before (sub_ s) i -> es !! i = Some e ->
  0 <= restart_index_ s < c_num_restarts c ->
  exists sh s', Parse s = Some (true, sh, s') /\ parsed c v4 es uk s' i e (slen (e_val e)) /\ value_at (sub_ s') i /\
    status_ s' = status_ s /\ cur_entry_idx_ s' = cur_entry_idx_ s.
Proof.
  intros Hr Hx He Hri. unfold Parse, IndexBlockIter.ParseNextIndexKey. exists (negb (e_shared e =? 0)).
  destruct (bool_cases v4) as [E|E].
  - assert (value_delta_encoded_ ic = true) as -> by congruence. destruct (ParseNextKey_entry wild c v4 r es rs tail uk Hlay Hdata Hrestarts Hnum Hsize Hpad DecodeEntryV4 0 s i e Hr He
      (DecodeEntryV4_ok c v4 r es rs tail Hlay Hrestarts Hsize Hv4 i e E He) Hri) as (s1 & -> & Hp & Hs).
    apply (finish_parse s s1 i e 0 Hp Hs Hx). unfold IndexBlockIter.decodes_value. by rewrite Hic, E.
  - assert (value_delta_encoded_ ic = false) as -> by congruence.
    destruct (ParseNextKey_entry wild c v4 r es rs tail uk Hlay Hdata Hrestarts Hnum Hsize Hpad DecodeEntry _ s i e Hr He
      (DecodeEntry_ok c v4 r es rs tail Hlay Hrestarts Hsize Hv4 i e E He) Hri) as (s1 & -> & Hp & Hs).
    by apply (finish_parse s s1 i e _ Hp Hs Hx).
Qed.

(** *** Operations *)

Definition ipos : IndexBlockIter.It -> option nat -> Prop := at_pos c v4 es uk (fun _ => True) value_at false.

Let Htrk : false = true ->
  c_block_restart_interval c = Z.of_nat r \/ (length rs = 1%nat /\ c_block_restart_interval c = 0).
Proof. done. Qed.

Let Hnext x i : value_at x i -> value_before x (S i).
Proof.
  intros Hx Hd e He Hne. split; [lia|]. cbn [Nat.sub]. rewrite Nat.sub_0_r.
  destruct Hx as (v & Hv & ->); [unfold IndexBlockIter.decodes_value; by rewrite Hd|]. by exists v.
Qed.

Let Hrestart x i : True -> (forall e, es !! i = Some e -> e_shared e = 0) -> value_before x i.
Proof. intros _ H _ e He Hne. by destruct (Hne (H e He)). Qed.

Let isane (s : IndexBlockIter.It) : Prop := status_ s = OK /\ a_user (raw_key_ s) = uk.

Lemma ipos_Next s i : ipos s (Some i) ->
  exists s', IndexBlockIter.NextImpl wild c ic s = Some s' /\ ipos s' (posn es (S i)).
Proof.
  apply (Next_ok c v4 r es rs uk Hlay Parse (fun _ => True) value_before value_at false
    (fun _ _ _ => I) Hnext (fun _ _ _ => I) Index_Parse_end Index_Parse_ok Htrk).
Qed.

Lemma ipos_Prev s i : ipos s (Some i) ->
  exists s', IndexBlockIter.PrevImpl wild c ic s = Some s' /\ ipos s' (prev_pos i).
Proof.
  apply (Prev_of_ok c v4 r es rs tail uk Hlay Hdata Hrestarts Hnum Hsize Parse (fun _ => True) value_before value_at false
    (fun _ _ _ => I) Hnext (fun _ _ _ => I) Hrestart Index_Parse_end Index_Parse_ok Htrk).
Qed.

Lemma ipos_SeekToFirst s : isane s ->
  exists s', IndexBlockIter.SeekToFirstImpl wild c ic s = Some s' /\ ipos s' (posn es 0).
Proof.
  intros [Hst Hu]. unfold IndexBlockIter.SeekToFirstImpl. rewrite Hdata.
  by apply (SeekToFirst_ok c v4 r es rs tail uk Hlay Hdata Hrestarts Hnum Hsize Parse (fun _ => True) value_before value_at
    false (fun _ _ _ => I) (fun _ _ _ => I) Hrestart Index_Parse_end Index_Parse_ok Htrk (set_status s OK)).
Qed.

Lemma ipos_SeekToLast s : isane s ->
  exists s', IndexBlockIter.SeekToLastImpl wild c ic s = Some s' /\ ipos s' (posn es (length es - 1)).
Proof.
  intros [Hst Hu]. unfold IndexBlockIter.SeekToLastImpl. rewrite Hdata.
  by apply (SeekToLast_ok c v4 r es rs tail uk Hlay Hdata Hrestarts Hnum Hsize Parse (fun _ => True) value_before value_at
    false (fun _ _ _ => I) Hnext (fun _ _ _ => I) Hrestart Index_Parse_end Index_Parse_ok Htrk (set_status s OK)).
Qed.

Lemma ipos_Seek t s p : increasing c es uk (if uk then ExtractUserKey t else t) -> ipos s p ->
  exists s' p', IndexBlockIter.SeekImpl wild c ic t s = Some s' /\ ipos s' p' /\
    is_seek c es uk (if uk then ExtractUserKey t else t) p'.
Proof.
  intros Hinc Hat. unfold IndexBlockIter.SeekImpl. rewrite Hdata. destruct (Hat) as (Hst & Hu & _). rewrite Hu.
  assert (set_status s OK = s) as -> by (destruct s; cbn in *; by rewrite Hst).
  pose proof (fun DK HDK => Seek_ok wild c v4 r es rs tail uk Hlay Hdata Hrestarts Hnum Hsize Hv4 Hpad Parse (fun _ => True)
    value_before value_at false (fun _ _ _ => I) Hnext (fun _ _ _ => I) Hrestart Index_Parse_end Index_Parse_ok Htrk
    DK (if uk then ExtractUserKey t else t) s p HDK Hinc Hat) as H.
  destruct (bool_cases v4) as [E|E].
  - assert (value_delta_encoded_ ic = true) as -> by congruence. apply (H DecodeKeyV4).
    intros i e He. by apply (DecodeKeyV4_ok c v4 r).
  - assert (value_delta_encoded_ ic = false) as -> by congruence. apply (H DecodeKey).
    intros i e He. by apply (DecodeKey_ok c v4 r).
Qed.

Lemma ipos_valid s p : ipos s p -> Iter_Valid c s = bool_decide (p <> None).
Proof. by apply (at_pos_valid c v4 r es rs tail). Qed.

(** What is shown. *)
Definition index_shown : list (bytes * IndexValue) := zip (disp c uk ∘ e_key <$> es) (shown_value <$> ivs).

Definition iexposed (s : IndexBlockIter.It) (p : option nat) : Prop :=
  forall i, p = Some i -> exists e, es !! i = Some e /\ ukey_ s = disp c uk (e_key e).

Lemma iUpdateKey_ok s p : ipos s p -> exists s', UpdateKey wild Hash64 c s = Some s' /\ ipos s' p /\ iexposed s' p.
Proof.
  intros Hat. unfold UpdateKey. rewrite (ipos_valid s p Hat). destruct p as [i|]; cycle 1.
  { rewrite bool_decide_false by auto. exists s. split; [done|]. by split. }
  rewrite bool_decide_true by done. cbn [negb]. pose proof Hat as (Hst & Hu & _ & e & Hp & Hx & _).
  rewrite Hprot, Hnoseq, Z.eqb_refl. cbn. pose proof (pr_key _ _ _ _ _ _ _ _ Hp) as Hk.
  assert ((if a_user (raw_key_ s) then set_ukey s (raw_user_key s) (a_pinned (raw_key_ s))
    else set_ukey s (a_key (raw_key_ s)) (a_pinned (raw_key_ s))) =
    set_ukey s (disp c uk (e_key e)) (a_pinned (raw_key_ s))) as ->.
  { unfold raw_user_key. rewrite Hk. by destruct (a_user (raw_key_ s)). }
  eexists. split; [done|]. split.
  - split; [done|]. split; [done|]. split; [done|]. exists e. split; [by destruct Hp|done].
  - intros j [= <-]. exists e. split; [apply Hp|done].
Qed.

Lemma ipos_index_value s i : ipos s (Some i) ->
  exists v, ivs !! i = Some v /\ IndexBlockIter.index_value c ic s = Some (shown_value v).
Proof.
  intros (_ & _ & _ & e & Hp & Hx & _). pose proof (pr_ent _ _ _ _ _ _ _ _ Hp) as He.
  destruct (Hvals i e He) as (v & Hv & (H1 & H2 & H3) & Henc & Hf). exists v. split; [done|].
  unfold IndexBlockIter.index_value. destruct (IndexBlockIter.decodes_value c ic) eqn:Hd.
  { destruct (Hx Hd) as (w & Hw & ->). congruence. }
  unfold value_bytes, dat. rewrite Hdata, (pr_val _ _ _ _ _ _ _ _ Hp). cbn [fst snd default id].
  rewrite (bread_value v4 r es rs tail Hlay i e He). cbn [mbind option_bind].
  unfold IndexBlockIter.decodes_value in Hd. apply orb_false_elim in Hd as [[Hd1 Hd2]%orb_false_elim Hd3].
  assert (base_handle v4 i e = None) as Hb by (unfold base_handle; by rewrite <- Hic, Hd1).
  rewrite Hb in Henc, Hf.
  pose proof (IndexValue_decode v (IV BlockHandle_default []) have None [] H1 H2 H3 Hf) as Hdec.
  rewrite app_nil_r, <- Henc in Hdec. rewrite Hhave, Hdec. unfold shown_value, shown_first_key. rewrite Hhave, Hd3.
  apply bool_decide_eq_false in Hd2. destruct (idx_global_seqno_ ic); [by destruct Hd2|done].
Qed.

(** *** The iterator follows the cursor *)

Section Sorted.
Let ucmp := c_ucmp c.
Context {Hc : ComparatorOk ucmp}.
Hypothesis Hlen : length ivs = length es.
(** Internal keys have a footer. *)
Hypothesis Hlong : uk = false -> Forall (fun e => 8 <= slen (disp c uk (e_key e))) es.
Hypothesis Hsorted : forall i j a b, (i < j)%nat -> index_shown.*1 !! i = Some a -> index_shown.*1 !! j = Some b ->
  index_order ucmp uk a b < 0.

Lemma index_keys : index_shown.*1 = disp c uk ∘ e_key <$> es.
Proof. unfold index_shown. rewrite fst_zip; [done|]. rewrite !length_fmap. lia. Qed.

Lemma index_keys_lookup i e : es !! i = Some e -> index_shown.*1 !! i = Some (disp c uk (e_key e)).
Proof. intros He. by rewrite index_keys, list_lookup_fmap, He. Qed.

Lemma length_index : length index_shown.*1 = length es.
Proof. by rewrite index_keys, length_fmap. Qed.

Let st (t : bytes) : bytes := if uk then ExtractUserKey t else t.

Lemma K_index i e t : es !! i = Some e -> K c es uk i (st t) = index_cmp ucmp uk (disp c uk (e_key e)) t.
Proof.
  intros He. rewrite (K_lookup _ _ _ _ e) by done. unfold cmpk, index_cmp, st.
  destruct (bool_cases uk) as [E|E]; rewrite E; [done|]. by rewrite Hnoseq, Z.eqb_refl.
Qed.

Lemma index_increasing t : 8 <= slen t -> increasing c es uk (st t).
Proof.
  intros Ht i j [Hij Hj] Hle. destruct (lookup_lt_is_Some_2 es i) as [a Ha]; [lia|].
  destruct (lookup_lt_is_Some_2 es j) as [b Hb]; [lia|]. rewrite (K_index j b) in Hle by done. rewrite (K_index i a) by done.
  pose proof (Hsorted i j _ _ Hij (index_keys_lookup i a Ha) (index_keys_lookup j b Hb)) as Hlt.
  unfold index_cmp, index_order in *. destruct (bool_cases uk) as [E|E].
  - rewrite E in *. by eapply Compare_strict.
  - pose proof (Hlong E) as Hl. rewrite E in Hlt, Hle, Hl |- *. eapply IKCompare_strict; [..|exact Hlt|exact Hle]; try done.
    + apply (Forall_lookup_1 _ _ _ _ Hl Ha).
    + apply (Forall_lookup_1 _ _ _ _ Hl Hb).
Qed.

Lemma index_seek_head t p s : 8 <= slen t -> ipos s p -> is_seek c es uk (st t) p ->
  head (positions (fun k => 0 <=? index_cmp ucmp uk k t) index_shown.*1) = p.
Proof.
  intros Ht Hat Hs. unfold positions. apply filter_seq_first. rewrite length_index.
  assert (forall j, (j < length es)%nat ->
    index_cmp ucmp uk (default [] (index_shown.*1 !! j)) t = K c es uk j (st t)) as HK.
  { intros j Hj. destruct (lookup_lt_is_Some_2 es j) as [e He]; [done|]. by rewrite (index_keys_lookup j e He), (K_index j e). }
  destruct p as [i|].
  - destruct Hs as [Hge Hlt]. destruct Hat as (_ & _ & _ & e & Hp & _).
    pose proof (lookup_lt_Some _ _ _ (pr_ent _ _ _ _ _ _ _ _ Hp)) as Hi. split; [done|].
    split; [apply Z.leb_le; by rewrite HK|]. intros j Hj Hb%Z.leb_le. rewrite HK in Hb by lia. specialize (Hlt j Hj). lia.
  - intros j Hj Hb%Z.leb_le. rewrite HK in Hb by lia. specialize (Hs j Hj). lia.
Qed.

Lemma index_posn i : posn es i = if (i <? length index_shown.*1)%nat then Some i else None.
Proof. rewrite length_index. unfold posn. by destruct (Nat.ltb_spec i (length es)), (decide (i < length es)%nat); try lia. Qed.

Lemma iupdate_after (impl : option IndexBlockIter.It) p : (exists s', impl = Some s' /\ ipos s' p) ->
  exists s', (s ← impl; UpdateKey wild Hash64 c s) = Some s' /\ ipos s' p /\ iexposed s' p.
Proof. intros (s' & -> & Hat). cbn [mbind option_bind]. by apply iUpdateKey_ok. Qed.

Lemma index_step_ok s p o p' : is_index_op o = true ->
  cursor_step (index_cmp ucmp uk) index_shown.*1 p o = Some p' -> ipos s p ->
  exists s', index_step wild Hash64 c ic s o = Some s' /\ ipos s' p' /\ iexposed s' p'.
Proof.
  intros Hop Ho Hat. assert (isane s) as Hs by (destruct Hat as (? & ? & _); by split).
  destruct o as [| |t|t| |]; cbn [cursor_step index_step] in *; [..|done| |].
  - injection Ho as <-. apply iupdate_after. rewrite <- index_posn. by apply ipos_SeekToFirst.
  - injection Ho as <-. apply iupdate_after. destruct (ipos_SeekToLast s Hs) as (s' & E & Hd). exists s'. split; [done|].
    rewrite index_posn, length_index in Hd. rewrite length_index.
    destruct (Nat.ltb_spec 0 (length es)), (Nat.ltb_spec (length es - 1) (length es)); done || lia.
  - destruct (Z.ltb_spec (slen t) 8); [done|]. injection Ho as <-. apply iupdate_after.
    destruct (ipos_Seek t s p (index_increasing t ltac:(lia)) Hat) as (s' & q & E & Hd & Hq). exists s'. split; [done|].
    by rewrite (index_seek_head t q s').
  - destruct p as [i|]; [|done]. cbn [mbind option_bind] in Ho. injection Ho as <-. apply iupdate_after.
    rewrite <- index_posn. by apply ipos_Next.
  - destruct p as [i|]; [|done]. cbn [mbind option_bind] in Ho. injection Ho as <-. apply iupdate_after.
    by apply ipos_Prev.
Qed.

Lemma iexposed_shows s p : ipos s p -> iexposed s p -> index_shows c ic s index_shown p.
Proof.
  intros Hat He. split; [apply Hat|]. split; [by apply ipos_valid|]. intros i ->.
  destruct (He i eq_refl) as (e & Hi & Hk). destruct (ipos_index_value s i Hat) as (v & Hv & Hval).
  eexists _, _. split; [|split; [exact Hk|exact Hval]].
  unfold index_shown. apply lookup_zip_with_Some. exists (disp c uk (e_key e)), (shown_value v). split; [done|].
  by rewrite !list_lookup_fmap, Hi, Hv.
Qed.

Lemma index_run_ok s0 os p : Forall (fun o => is_index_op o = true) os ->
  cursor_run (index_cmp ucmp uk) index_shown.*1 os = Some p -> ipos s0 None ->
  exists s, index_run wild Hash64 c ic s0 os = Some s /\ ipos s p /\ index_shows c ic s index_shown p.
Proof.
  unfold cursor_run, index_run. revert p. induction os as [|o os IH] using rev_ind; intros p Hops Hp Hs0.
  { injection Hp as <-. exists s0. split; [done|]. split; [done|]. by apply iexposed_shows. }
  apply Forall_app in Hops as [Hops Ho]. apply Forall_inv in Ho.
  rewrite (foldl_app _ os [o]) in Hp. rewrite (foldl_app _ os [o]). cbn [foldl] in Hp |- *.
  destruct (foldl _ (Some None) os) as [q|] eqn:Hq; [|done]. cbn [mbind option_bind] in Hp.
  destruct (IH q Hops eq_refl Hs0) as (s & -> & Hd & _). cbn [mbind option_bind].
  destruct (index_step_ok s q o p Ho Hp Hd) as (s' & -> & Hd' & He'). exists s'. split; [done|]. split; [done|].
  by apply iexposed_shows.
Qed.
End Sorted.
End IndexIter.

(** ** An index block, from the builder to the iterator *)

Lemma index_kvds_lookup have v4 last l i x : index_kvds have v4 last l !! i = Some x ->
  exists k v p, l !! i = Some (k, v) /\
    p = (match i with O => last | S j => default last (iv_handle ∘ snd <$> (l !! j)) end) /\
    x = (k, IndexValue_EncodeTo v [] have None,
         Some (if v4 && negb (IsNull p) then IndexValue_EncodeTo v [] have (Some p) else [])).
Proof.
  revert last i. induction l as [|[k v] l IH]; intros last i Hi; [done|]. cbn [index_kvds] in Hi.
  destruct i as [|i]; cbn in Hi.
  - injection Hi as <-. by exists k, v, last.
  - destruct (IH _ _ Hi) as (k' & v' & p & Hl & Hp & ->). exists k', v', p. split; [done|]. split; [|done].
    rewrite Hp. destruct i as [|i]; [done|]. apply lookup_lt_Some in Hl.
    destruct (lookup_lt_is_Some_2 l i) as [y Hy]; [lia|]. change (((k, v) :: l) !! S i) with (l !! i). by rewrite Hy.
Qed.

Lemma length_index_kvds have v4 last l : length (index_kvds have v4 last l) = length l.
Proof. revert last. induction l as [|[k v] l IH]; intros last; [done|]. cbn. by rewrite IH. Qed.

Lemma slen_IndexValue v have p : slen (IndexValue_EncodeTo v [] have p) <= 25 + slen (iv_first_internal_key v).
Proof.
  unfold IndexValue_EncodeTo. set (d := match p with Some _ => _ | None => _ end).
  assert (slen d <= 20) as Hd.
  { unfold d, PutVarsignedint64, PutVarint64. destruct p; cbn [app].
    - unfold EncodeVarint64. pose proof (encode_loop_length 9 (i64ToZigzag (s64 (u64 (bh_size (iv_handle v) - bh_size b))))). lia.
    - rewrite BlockHandle_encode_app. cbn [app]. apply slen_BlockHandle_encode. }
  destruct have; [|slia]. rewrite PutLengthPrefixedSlice_app, slen_app.
  unfold PutLengthPrefixedSlice, PutVarint32. cbn [app]. rewrite slen_app.
  assert (slen (EncodeVarint32 (u32 (slen (iv_first_internal_key v)))) <= 5); [|lia].
  rewrite EncodeVarint32_loop by apply u32_range. pose proof (encode_loop_length 4 (u32 (slen (iv_first_internal_key v)))). lia.
Qed.

(** Handles of blocks that follow each other in the file. *)
Fixpoint contiguous (l : list (bytes * IndexValue)) : Prop :=
  match l with
  | a :: (b :: _) as l => follows (iv_handle a.2) (iv_handle b.2) /\ contiguous l
  | _ => True
  end.

Lemma contiguous_lookup l i a b : contiguous l -> l !! i = Some a -> l !! S i = Some b ->
  follows (iv_handle a.2) (iv_handle b.2).
Proof.
  revert i. induction l as [|x [|y l] IH]; intros i Hc Ha Hb; [done|destruct i; done|].
  destruct Hc as [Hf Hc]. destruct i as [|i]; cbn in Ha, Hb; [congruence|]. by apply (IH i).
Qed.

Section IndexBlock.
Variable wild : Z.
Variable Hash64 : bytes -> Z -> Z.
Context (ucmp : Comparator) {Hc : ComparatorOk ucmp}.
Variable b0 : BlockBuilder.
Variable l : list (bytes * IndexValue).
Variables have v4 uk pinned persisted : bool.
Variable g : Z.

(** Timestamps are stripped, and the minimum timestamp is shown. *)
Let ts_sz := timestamp_size ucmp.
Let unpersisted := (0 <? ts_sz) && negb persisted.

Let kvs := index_kvds have v4 NullBlockHandle l.
Let es := ents b0 kvs.
Let rs := rs_of b0 es.
Let r := Z.to_nat (block_restart_interval_ b0).
Let blk := Block_make (finished b0 kvs).

Hypothesis Hfresh : is_fresh b0.
Hypothesis Hv4b : use_value_delta_encoding_ b0 = v4.
Hypothesis Hstrip : strip_ts_sz_ b0 = if persisted then 0 else ts_sz.
Hypothesis Huser : bb_is_user_key_ b0 = uk.
Hypothesis Hsz : built_size b0 kvs < 2 ^ 31.
Hypothesis Hl : Forall (fun e : bytes * IndexValue => slen e.1 < 2 ^ 32 /\ iv_ok e.2 /\
  slen (iv_first_internal_key e.2) < 2 ^ 31 /\ IsNull (iv_handle e.2) = false) l.
Hypothesis Hcont : v4 = true -> contiguous l.
Hypothesis Hkeys : unpersisted = true ->
  Forall (fun e : bytes * IndexValue => ts_sz + (if uk then 0 else 8) <= slen e.1) l.

Lemma stripped : strip_ts_sz_ b0 = if unpersisted then ts_sz else 0.
Proof.
  assert (0 <= strip_ts_sz_ b0) as H0 by apply Hfresh. rewrite Hstrip in *. unfold unpersisted.
  destruct persisted; [by rewrite andb_false_r|]. rewrite andb_true_r. destruct (Z.ltb_spec 0 ts_sz); [done|lia].
Qed.

Lemma unpersisted_pos : unpersisted = true -> 0 < ts_sz.
Proof. unfold unpersisted. intros [H%Z.ltb_lt _]%andb_prop. done. Qed.

Lemma index_kvd_ok : Forall (kvd_ok b0) kvs.
Proof.
  apply Forall_lookup_2. intros i x Hx. destruct (index_kvds_lookup _ _ _ _ _ _ Hx) as (k & v & p & Hlk & _ & ->).
  destruct (Forall_lookup_1 _ _ _ _ Hl Hlk) as (Hk & _ & Hf & _). cbn in Hk, Hf. unfold kvd_ok. cbn.
  pose proof (slen_IndexValue v have None). split; [done|]. split; [lia|]. split.
  { destruct (v4 && negb (IsNull p)); [pose proof (slen_IndexValue v have (Some p)); lia|done]. }
  rewrite stripped, Huser. destruct unpersisted eqn:E; [|lia]. intros _. exact (Forall_lookup_1 _ _ _ _ (Hkeys eq_refl) Hlk).
Qed.

Lemma index_layout : layout v4 r es rs.
Proof. unfold rs, es. rewrite <- Hv4b. apply built_layout; [done|apply index_kvd_ok]. Qed.

Lemma index_data_size : slen (enc_ents v4 es ++ concat (EncodeFixed32 <$> rs) ++ block_tail b0 kvs) < 2 ^ 31.
Proof.
  unfold built_size in Hsz. rewrite Hv4b in Hsz. rewrite !slen_app, slen_restarts. fold es rs in Hsz. lia.
Qed.

(** The entry of the block for the [i]th index entry. *)
Lemma index_ent i e : es !! i = Some e -> exists k v, l !! i = Some (k, v) /\
  e_key e = MaybeStripTimestampFromKey b0 k /\
  e_val e = IndexValue_EncodeTo v [] have (base_handle (l.*2) v4 i e) /\
  match base_handle (l.*2) v4 i e with Some p => follows p (iv_handle v) | None => True end.
Proof.
  intros He. destruct (lookup_lt_is_Some_2 kvs i) as [x Hx].
  { rewrite <- (length_ents b0 kvs). by eapply lookup_lt_Some. }
  destruct (ents_lookup b0 kvs i x Hx) as (e' & He' & Hk & Hv). fold es in He'. rewrite He in He'. injection He' as <-.
  destruct (index_kvds_lookup _ _ _ _ _ _ Hx) as (k & v & p & Hlk & Hp & ->). exists k, v. split; [done|].
  split; [done|]. rewrite Hv4b in Hv. cbn [fst snd default] in Hv.
  unfold base_handle. destruct (Z.eqb_spec (e_shared e) 0) as [H0|Hne]; cbn [negb andb] in Hv |- *.
  { rewrite andb_false_r. by split. }
  destruct (bool_cases v4) as [E|E]; rewrite E in Hv |- *; cbn [andb] in Hv |- *; [|by split].
  destruct i as [|i].
  { destruct (lay_ent _ _ _ _ index_layout 0 e He) as (_ & _ & _ & Hm & _). destruct Hne. apply Hm, Nat.Div0.mod_0_l. }
  cbn [Nat.sub]. rewrite Nat.sub_0_r. destruct (lookup_lt_is_Some_2 l i) as [y Hy]; [apply lookup_lt_Some in Hlk; lia|].
  rewrite Hy in Hp. cbn in Hp. rewrite list_lookup_fmap, Hy. cbn.
  pose proof (Forall_lookup_1 _ _ _ _ Hl Hy) as (_ & _ & _ & Hnn). rewrite Hp, Hnn in Hv. cbn [negb] in Hv. split; [done|].
  exact (contiguous_lookup l i y (k, v) (Hcont E) Hy Hlk).
Qed.

Definition index_cfg : IndexCfg :=
  {| value_delta_encoded_ := v4; have_first_key_ := have;
     idx_global_seqno_ := if have && negb (g =? kDisableGlobalSequenceNumber) then Some g else None |}.

Let c := InitializeBase ucmp (finished b0 kvs) (slen (enc_ents v4 es)) (slen rs) kDisableGlobalSequenceNumber pinned persisted
           0 None 0.

Lemma NewIndexIterator_built :
  NewIndexIterator wild blk ucmp g have (negb uk) (negb v4) pinned persisted =
  (c, index_cfg, St_init wild c uk (IV BlockHandle_default [])).
Proof.
  destruct (Block_make_finished b0 kvs Hfresh index_kvd_ok Hsz) as (Hmk & H8 & Hrs).
  unfold c, blk, index_cfg. rewrite Hmk. unfold NewIndexIterator.
  cbn [size_ b_num_restarts_ b_data restart_offset_ b_num_buckets_ b_kv_checksum_ b_block_restart_interval_
       b_protection_bytes_per_key_].
  destruct (Z.ltb_spec (slen (finished b0 kvs)) (2 * 4)); [lia|].
  destruct (Z.eqb_spec (slen (rs_of b0 (ents b0 kvs))) 0); [lia|]. by rewrite Hv4b, !negb_involutive.
Qed.

(** The key of an entry, and the first key of its block, as a reader sees them. *)
Definition shown_key (k : bytes) : bytes :=
  if unpersisted then
    if uk then AppendKeyWithMinTimestamp [] (remove_suffix k ts_sz) ts_sz
    else PadInternalKeyWithMinTimestamp [] (StripTimestampFromInternalKey [] k ts_sz) ts_sz
  else k.

Definition visible_first_key (k : bytes) : bytes :=
  if have then
    let k := if negb (g =? kDisableGlobalSequenceNumber)
             then ExtractUserKey k ++ EncodeFixed64 (PackSequenceAndType g (ExtractValueType k))
             else k in
    if unpersisted && negb (slen k =? 0) then PadInternalKeyWithMinTimestamp [] k ts_sz else k
  else [].

(** What a reader sees. *)
Definition visible_index : list (bytes * IndexValue) :=
  (fun e => (shown_key e.1, IV (iv_handle e.2) (visible_first_key (iv_first_internal_key e.2)))) <$> l.

Lemma slen_shown_key k : (unpersisted = true -> ts_sz + (if uk then 0 else 8) <= slen k) ->
  slen (shown_key k) = slen k.
Proof.
  pose proof unpersisted_pos as Hpos. intros H. unfold shown_key. destruct unpersisted; [|done].
  specialize (H eq_refl). specialize (Hpos eq_refl). destruct uk.
  - unfold AppendKeyWithMinTimestamp, remove_suffix. cbn [app]. rewrite slen_app, slen_repeat_byte by lia.
    rewrite slen_stake; lia.
  - unfold PadInternalKeyWithMinTimestamp, StripTimestampFromInternalKey, kNumInternalBytes. cbn [app].
    rewrite !slen_app, slen_repeat_byte by lia. repeat (rewrite slen_stake || rewrite slen_sdrop || rewrite slen_app); lia.
Qed.

Lemma disp_stored k : disp c uk (MaybeStripTimestampFromKey b0 k) = shown_key k.
Proof.
  unfold disp, shown_key, MaybeStripTimestampFromKey. rewrite stripped, Huser.
  change (c_pad_min_timestamp c) with unpersisted. change (c_ts_sz c) with ts_sz.
  destruct unpersisted eqn:E; [|done]. apply andb_prop in E as [-> _]. by destruct uk.
Qed.

Lemma index_shown_visible : index_shown c index_cfg es uk l.*2 = visible_index.
Proof.
  assert (length es = length l) as Hlen by (unfold es; rewrite length_ents; apply length_index_kvds).
  apply list_eq. intros i. unfold index_shown, visible_index. rewrite lookup_zip_with, !list_lookup_fmap.
  destruct (es !! i) as [e|] eqn:He; cbn [fmap option_fmap option_map mbind option_bind].
  - destruct (index_ent i e He) as (k & v & Hlk & Hk & _). rewrite Hlk.
    cbn [fmap option_fmap option_map mbind option_bind fst snd compose]. rewrite Hk, disp_stored.
    unfold shown_value, shown_first_key, visible_first_key. cbn [have_first_key_ index_cfg idx_global_seqno_].
    change (c_pad_min_timestamp c) with unpersisted. change (c_ts_sz c) with ts_sz.
    do 3 f_equal. destruct have; cbn [andb]; [by destruct (negb (g =? kDisableGlobalSequenceNumber))|].
    by rewrite andb_false_r.
  - apply lookup_ge_None in He. rewrite Hlen in He. by rewrite (proj2 (lookup_ge_None l i) He).
Qed.

Lemma index_block_run os p :
  (uk = false -> Forall (fun e : bytes * IndexValue => 8 <= slen e.1) l) ->
  StronglySorted (fun a b => index_order ucmp uk a b < 0) visible_index.*1 ->
  Forall (fun o => is_index_op o = true) os ->
  cursor_run (index_cmp ucmp uk) visible_index.*1 os = Some p ->
  let '(c, ic, s0) := NewIndexIterator wild blk ucmp g have (negb uk) (negb v4) pinned persisted in
  exists s, index_run wild Hash64 c ic s0 os = Some s /\ index_shows c ic s visible_index p.
Proof.
  intros Hlong Hsort Hops Hrun. rewrite NewIndexIterator_built.
  assert (Hstored : forall i e k v, es !! i = Some e -> l !! i = Some (k, v) ->
    slen (MaybeStripTimestampFromKey b0 k) = slen k - (if unpersisted then ts_sz else 0)).
  { intros i e k v He Hlk. rewrite MaybeStrip_len, stripped; [done|apply Hfresh|].
    rewrite stripped, Huser. destruct unpersisted eqn:E; [|lia]. intros _.
    exact (Forall_lookup_1 _ _ _ _ (Hkeys eq_refl) Hlk). }
  assert (length es = length l) as Hlen by (unfold es; rewrite length_ents; apply length_index_kvds).
  destruct (index_run_ok wild Hash64 c index_cfg r es rs (block_tail b0 kvs) uk l.*2 v4 have eq_refl eq_refl index_layout)
    with (s0 := St_init wild c uk (IV BlockHandle_default [])) (os := os) (p := p) as (s & Hs & _ & Hsh).
  - cbn. rewrite (finished_bytes b0 kvs Hfresh index_kvd_ok Hsz). by rewrite Hv4b.
  - done.
  - done.
  - apply index_data_size.
  - intros Hp. split; [by apply Z.lt_le_incl, unpersisted_pos|]. intros E. apply Forall_lookup_2. intros i e He.
    destruct (index_ent i e He) as (k & v & Hlk & Hk & _). rewrite Hk, (Hstored i e k v He Hlk).
    change (unpersisted = true) in Hp. rewrite Hp. pose proof (Forall_lookup_1 _ _ _ _ (Hkeys Hp) Hlk) as Hle.
    rewrite E in Hle. cbn in Hle. unfold kNumInternalBytes. lia.
  - done.
  - done.
  - intros i e He. destruct (index_ent i e He) as (k & v & Hlk & _ & Hev & Hf). exists v.
    rewrite list_lookup_fmap, Hlk. split; [done|]. split; [|done].
    apply (Forall_lookup_1 _ _ _ _ Hl Hlk).
  - exact Hc.
  - by rewrite length_fmap.
  - intros E. apply Forall_lookup_2. intros i e He. destruct (index_ent i e He) as (k & v & Hlk & Hk & _).
    rewrite Hk, disp_stored. rewrite slen_shown_key; [by apply (Forall_lookup_1 _ _ _ _ (Hlong E) Hlk)|].
    intros Hp. exact (Forall_lookup_1 _ _ _ _ (Hkeys Hp) Hlk).
  - rewrite index_shown_visible. intros i j a b Hij Ha Hb. exact (StronglySorted_lookup _ _ i j a b Hsort Hij Ha Hb).
  - done.
  - by rewrite index_shown_visible.
  - split; [done|]. split; [done|]. split; done.
  - exists s. split; [done|]. by rewrite <- index_shown_visible.
Qed.
End IndexBlock.

(** ** The index of a table *)

Lemma StronglySorted_of_lookup {A} (R : A -> A -> Prop) l :
  (forall i j a b, (i < j)%nat -> l !! i = Some a -> l !! j = Some b -> R a b) -> StronglySorted R l.
Proof.
  induction l as [|x l IH]; intros H; [constructor|]. constructor.
  - apply IH. intros i j a b Hij Ha Hb. apply (H (S i) (S j)); done || lia.
  - apply Forall_lookup_2. intros i a Ha. apply (H 0%nat (S i)); done || lia.
Qed.

Lemma contiguous_of_lookup l : (forall i a b, l !! i = Some a -> l !! S i = Some b ->
  follows (iv_handle a.2) (iv_handle b.2)) -> contiguous l.
Proof.
  induction l as [|x [|y l] IH]; intros H; [done..|]. split; [by apply (H 0%nat)|]. apply IH.
  intros i a b Ha Hb. by apply (H (S i)).
Qed.

Lemma positions_In P ks i : i ∈ positions P ks <-> exists k, ks !! i = Some k /\ P k = true.
Proof.
  unfold positions. rewrite list_elem_of_filter, elem_of_seq. split.
  - intros [HP Hi]. destruct (lookup_lt_is_Some_2 ks i) as [k Hk]; [lia|]. rewrite Hk in HP. by exists k.
  - intros (k & Hk & HP). rewrite Hk. split; [done|]. apply lookup_lt_Some in Hk. lia.
Qed.

Lemma positions_head_Some P ks i : head (positions P ks) = Some i ->
  exists k, ks !! i = Some k /\ P k = true /\ forall j k', (j < i)%nat -> ks !! j = Some k' -> P k' = false.
Proof.
  intros Hh. assert (i ∈ positions P ks) as Hin.
  { destruct (positions P ks); [done|]. injection Hh as ->. apply elem_of_cons. by left. }
  apply positions_In in Hin as (k & Hk & HP). exists k. split; [done|]. split; [done|]. intros j k' Hj Hk'.
  destruct (P k') eqn:E; [exfalso|done]. assert (j ∈ positions P ks) as Hjn by (apply positions_In; eauto).
  assert (forall a n, head (filter (fun i => P (default [] (ks !! i)) = true) (seq a n)) = Some i ->
    forall j, (a <= j < a + n)%nat -> P (default [] (ks !! j)) = true -> (i <= j)%nat) as H.
  { intros a n. revert a. induction n as [|n IH]; intros a; cbn [seq]; [done|]. rewrite filter_cons.
    destruct (decide (P (default [] (ks !! a)) = true)) as [Ha|Ha].
    - intros [= ->] q Hq _. lia.
    - intros Hh' q Hq HPq. apply (IH (S a)); [done|..]; [|done]. destruct (decide (q = a)) as [->|]; [done|lia]. }
  apply lookup_lt_Some in Hk' as Hlt. specialize (H 0%nat (length ks) Hh j ltac:(lia)). rewrite Hk' in H. specialize (H E). lia.
Qed.

Lemma positions_head_None P ks : head (positions P ks) = None -> forall j k, ks !! j = Some k -> P k = false.
Proof.
  intros Hh j k Hk. destruct (P k) eqn:E; [exfalso|done]. assert (j ∈ positions P ks) as Hj by (apply positions_In; eauto).
  destruct (positions P ks); [by apply not_elem_of_nil in Hj|done].
Qed.

Section Order.
Context (ucmp : Comparator) {Hc : ComparatorOk ucmp}.

Lemma IKCompare_le_trans a b t : 8 <= slen a -> 8 <= slen b -> 8 <= slen t ->
  IKCompare ucmp a b <= 0 -> IKCompare ucmp b t <= 0 -> IKCompare ucmp a t <= 0.
Proof.
  intros Ha Hb Ht. destruct (internal_key_shape a Ha) as (u & w & Hw & ->).
  destruct (internal_key_shape b Hb) as (v & x & Hx & ->). destruct (internal_key_shape t Ht) as (y & z & Hz & ->).
  rewrite !IKCompare_app by done. by apply ik_order_trans.
Qed.

Lemma IKCompare_le_lt a b t : 8 <= slen a -> 8 <= slen b -> 8 <= slen t ->
  IKCompare ucmp a b <= 0 -> IKCompare ucmp b t < 0 -> IKCompare ucmp a t < 0.
Proof.
  intros Ha Hb Ht H1 H2. destruct (Z.ltb_spec (IKCompare ucmp a t) 0) as [|Hge]; [done|exfalso].
  assert (IKCompare ucmp t a <= 0) as H3.
  { destruct (Z.leb_spec (IKCompare ucmp t a) 0) as [|Hgt]; [done|].
    destruct (internal_key_shape a Ha) as (u & w & Hw & ->). destruct (internal_key_shape t Ht) as (y & z & Hz & ->).
    rewrite IKCompare_app in Hge, Hgt by done. apply (proj2 (ik_order_flip ucmp u w y z)) in Hgt. lia. }
  pose proof (IKCompare_strict ucmp b t a Hb Ht Ha H2 H3) as H4.
  destruct (internal_key_shape a Ha) as (u & w & Hw & ->). destruct (internal_key_shape b Hb) as (v & x & Hx & ->).
  rewrite IKCompare_app in H1, H4 by done. apply (proj1 (ik_order_flip ucmp v x u w)) in H4. lia.
Qed.

Lemma IKCompare_ge_flip a b : 8 <= slen a -> 8 <= slen b -> 0 <= IKCompare ucmp b a -> IKCompare ucmp a b <= 0.
Proof.
  intros Ha Hb Hge. destruct (Z.leb_spec (IKCompare ucmp a b) 0) as [|Hgt]; [done|].
  destruct (internal_key_shape a Ha) as (u & w & Hw & ->). destruct (internal_key_shape b Hb) as (y & z & Hz & ->).
  rewrite IKCompare_app in Hge, Hgt by done. apply (proj2 (ik_order_flip ucmp y z u w)) in Hgt. lia.
Qed.

Lemma Compare_ge_flip a b : 0 <= Compare ucmp b a -> Compare ucmp a b <= 0.
Proof.
  intros Hge. destruct (Z.leb_spec (Compare ucmp a b) 0) as [|Hgt]; [done|]. apply Compare_flip in Hgt. lia.
Qed.

Lemma Compare_le_lt a b t : Compare ucmp a b <= 0 -> Compare ucmp b t < 0 -> Compare ucmp a t < 0.
Proof.
  intros H1 H2. destruct (Z.ltb_spec (Compare ucmp a t) 0) as [|Hge]; [done|exfalso].
  assert (Compare ucmp t a <= 0) as H3.
  { destruct (Z.leb_spec (Compare ucmp t a) 0) as [|Hgt]; [done|]. apply Compare_flip in Hgt. lia. }
  pose proof (Compare_strict ucmp b t a H2 H3) as H4. apply Compare_flip in H4. lia.
Qed.
End Order.

Definition table_keys (ds : list DBlock) : list bytes := concat (d_keys <$> ds).

(** The blocks of a table: all keys sorted, and sizes within bounds. *)
Record table_ok (ucmp : Comparator) (v4 : bool) (ds : list DBlock) : Prop := {
  tb_sorted : StronglySorted (fun a b => IKCompare ucmp a b < 0) (table_keys ds);
  tb_keys : Forall (fun k => 8 <= slen k < 2 ^ 31) (table_keys ds);
  tb_handles : Forall (fun d => is_u64 (bh_offset (d_handle d)) /\ is_u64 (bh_size (d_handle d)) /\
    IsNull (d_handle d) = false) ds;
  tb_follows : v4 = true -> forall i a b, ds !! i = Some a -> ds !! S i = Some b -> follows (d_handle a) (d_handle b)
}.

Lemma StronglySorted_app_inv {A} (R : A -> A -> Prop) l1 l2 : StronglySorted R (l1 ++ l2) ->
  StronglySorted R l1 /\ StronglySorted R l2 /\ forall a b, a ∈ l1 -> b ∈ l2 -> R a b.
Proof.
  induction l1 as [|x l1 IH]; cbn; intros Hs.
  - split; [constructor|]. split; [done|]. intros a b Ha. by apply not_elem_of_nil in Ha.
  - inversion Hs as [|? ? Hs' Hx]; subst. destruct (IH Hs') as (H1 & H2 & H3). apply Forall_app in Hx as [Hx1 Hx2].
    split; [by constructor|]. split; [done|]. intros a b [->|Ha]%elem_of_cons Hb; [|by apply H3].
    apply (proj1 (list.Forall_forall _ _) Hx2 b Hb).
Qed.

Section Table.
Context (ucmp : Comparator) {Hc : ComparatorOk ucmp}.

Lemma table_keys_lookup ds i d k : ds !! i = Some d -> k ∈ d_keys d -> k ∈ table_keys ds.
Proof.
  intros Hd Hk. unfold table_keys. apply list_elem_of_In, in_concat. exists (d_keys d).
  split; [|by apply list_elem_of_In]. apply list_elem_of_In, list_elem_of_fmap. exists d. split; [done|].
  by eapply list_elem_of_lookup_2.
Qed.

Lemma d_last_in d : d_last d ∈ d_keys d.
Proof.
  unfold d_last, d_keys. destruct (exists_last (l := d_first d :: d_more d)) as (l & x & ->); [done|].
  rewrite List.last_last. apply elem_of_app. right. by apply list_elem_of_singleton.
Qed.

Lemma d_first_in d : d_first d ∈ d_keys d.
Proof. apply elem_of_cons. by left. Qed.

(** Keys within a block, and in different blocks. *)
Lemma block_keys ds i d k : StronglySorted (fun a b => IKCompare ucmp a b < 0) (table_keys ds) ->
  ds !! i = Some d -> k ∈ d_keys d ->
  IKCompare ucmp k (d_last d) <= 0 /\ IKCompare ucmp (d_first d) k <= 0.
Proof.
  intros Hs Hd Hk. assert (StronglySorted (fun a b => IKCompare ucmp a b < 0) (d_keys d)) as Hds.
  { revert i Hd Hs. induction ds as [|d' ds IH]; intros i Hd Hs; [done|]. cbn in Hs.
    apply (StronglySorted_app_inv _ (d_keys d')) in Hs as (H1 & H2 & _).
    destruct i; cbn in Hd; [congruence|]. by eapply IH. }
  split.
  - unfold d_last. destruct (exists_last (l := d_keys d)) as (l & x & E); [done|]. rewrite E in *.
    rewrite List.last_last. apply StronglySorted_app_inv in Hds as (_ & _ & H).
    apply elem_of_app in Hk as [Hk|Hk].
    + apply Z.lt_le_incl, H; [done|]. by apply list_elem_of_singleton.
    + apply list_elem_of_singleton in Hk as ->. by rewrite IKCompare_refl.
  - unfold d_keys in *. inversion Hds as [|? ? _ Hx]; subst. apply elem_of_cons in Hk as [->|Hk].
    + by rewrite IKCompare_refl.
    + apply Z.lt_le_incl. apply (proj1 (list.Forall_forall _ _) Hx k Hk).
Qed.

Lemma blocks_keys ds i j d d' a b : StronglySorted (fun a b => IKCompare ucmp a b < 0) (table_keys ds) ->
  (i < j)%nat -> ds !! i = Some d -> ds !! j = Some d' -> a ∈ d_keys d -> b ∈ d_keys d' -> IKCompare ucmp a b < 0.
Proof.
  revert i j. induction ds as [|x ds IH]; intros i j Hs Hij Hd Hd' Ha Hb; [done|]. cbn in Hs.
  apply (StronglySorted_app_inv _ (d_keys x)) in Hs as (_ & Hs & H). destruct j as [|j]; [lia|]. cbn in Hd'.
  destruct i as [|i]; cbn in Hd.
  - injection Hd as ->. apply H; [done|]. by eapply table_keys_lookup.
  - apply (IH i j); done || lia.
Qed.
End Table.

Lemma index_entries_lookup b ds i x : index_entries b ds !! i = Some x ->
  exists d, ds !! i = Some d /\
    x = (separator (ib_comparator_ b) (shortening_mode_ b) d (d_first <$> (ds !! S i)), entry_value b d).
Proof.
  revert i. induction ds as [|d ds IH]; intros i Hi; [done|]. cbn [index_entries] in Hi. destruct i as [|i]; cbn in Hi.
  - injection Hi as <-. exists d. split; [done|]. by destruct ds.
  - destruct (IH i Hi) as (d' & Hd & ->). by exists d'.
Qed.

Lemma length_index_entries b ds : length (index_entries b ds) = length ds.
Proof. induction ds as [|d ds IH]; [done|]. cbn. by rewrite IH. Qed.

Lemma needs_seq_lookup b ds i d f : needs_seq b ds = false -> ds !! i = Some d -> d_first <$> (ds !! S i) = Some f ->
  ShouldUseKeyPlusSeqAsSeparator b (separator (ib_comparator_ b) (shortening_mode_ b) d (Some f)) f = false.
Proof.
  revert i. induction ds as [|x ds IH]; intros i Hn Hd Hf; [done|]. cbn [needs_seq] in Hn.
  apply orb_false_elim in Hn as [H1 H2]. destruct i as [|i]; cbn in Hd, Hf; [|by apply (IH i)].
  injection Hd as ->. destruct ds as [|y ds]; [done|]. cbn in Hf, H1. injection Hf as <-. done.
Qed.

(** Nothing changes for a reader when timestamps are persisted. *)
Lemma visible_persisted ucmp l have uk g : (visible_index ucmp l have uk true g).*1 = l.*1.
Proof.
  unfold visible_index, shown_key. rewrite andb_false_r, <- list_fmap_compose. by apply list_fmap_ext.
Qed.

Section IndexTable.
Variable wild : Z.
Variable Hash64 : bytes -> Z -> Z.
Context (ucmp : Comparator) {Hc : ComparatorOk ucmp}.
Variables interval format_version ts_sz : Z.
Variables v4 have persist : bool.
Variable mode : IndexShorteningMode.
Variable ds : list DBlock.

Let b0 := ShortenedIndexBuilder_make ucmp interval format_version v4 mode have ts_sz persist.

Hypothesis Hint : 1 <= interval.
Hypothesis Hstay : separator_stays ucmp.
Hypothesis Htab : table_ok ucmp v4 ds.
(** Timestamps that are to be stripped are there. *)
Hypothesis Hstamped : persist = false ->
  ts_sz = timestamp_size ucmp /\ 0 <= ts_sz /\ Forall (fun d => 8 + ts_sz <= slen (d_first d)) ds.

Let l := index_entries b0 ds.
(** Whether the keys are internal keys. *)
Definition plus_seq : bool :=
  (format_version <=? 2) ||
  needs_seq (ShortenedIndexBuilder_make ucmp interval format_version v4 mode have ts_sz persist) ds.

(** The block builder that is used, and its entries. *)
Definition used_builder : BlockBuilder :=
  BlockBuilder_make interval true v4 kDataBlockBinarySearch kDefaultUtilRatio ts_sz persist (negb plus_seq).
Definition used_entries : list (bytes * IndexValue) :=
  let l := index_entries (ShortenedIndexBuilder_make ucmp interval format_version v4 mode have ts_sz persist) ds in
  if plus_seq then l else user_keys l.

Lemma key_long i d k : ds !! i = Some d -> k ∈ d_keys d -> 8 <= slen k < 2 ^ 31.
Proof.
  intros Hd Hk. apply (proj1 (list.Forall_forall _ _) (tb_keys _ _ _ Htab)). by eapply table_keys_lookup.
Qed.

Lemma Index_contents : (Index_Finish (add_blocks b0 ds)).2 =
    finished used_builder (index_kvds have v4 NullBlockHandle used_entries) /\
  seperator_is_key_plus_seq_ (add_blocks b0 ds) = plus_seq.
Proof.
  destruct (add_blocks_ok ds b0 eq_refl) as (_ & Hb & Hp & Hw).
  { apply Forall_lookup_2. intros i d Hd E. pose proof (key_long i d _ Hd (d_first_in d)) as Hl. rewrite E in Hl. change (@slen byte []) with 0 in Hl. lia. }
  change (seperator_is_key_plus_seq_ b0 || needs_seq b0 ds) with plus_seq in Hp. split; [|done].
  unfold Index_Finish, finished, used_builder, used_entries. cbn [snd]. rewrite Hp.
  destruct plus_seq; cbn [negb]; [by rewrite Hb|by rewrite Hw].
Qed.

(** A separator lies between its block and the next one. *)
Lemma separator_between i d : ds !! i = Some d ->
  let sep := separator ucmp mode d (d_first <$> (ds !! S i)) in
  IKCompare ucmp (d_last d) sep <= 0 /\ 8 <= slen sep < 2 ^ 31 /\
  forall d', ds !! S i = Some d' -> IKCompare ucmp sep (d_first d') < 0.
Proof.
  intros Hd. cbv zeta. pose proof (key_long i d _ Hd (d_last_in d)) as Hl.
  destruct (ds !! S i) as [d'|] eqn:Hd'; cbn [fmap option_fmap option_map separator].
  - pose proof (key_long (S i) d' _ Hd' (d_first_in d')) as Hf.
    assert (IKCompare ucmp (d_last d) (d_first d') < 0) as Hlt.
    { eapply (blocks_keys ucmp ds i (S i)); [apply Htab|lia|done|done|apply d_last_in|apply d_first_in]. }
    destruct (bool_decide (mode = kNoShortening)).
    + rewrite (IKCompare_refl ucmp). split; [done|]. split; [done|]. by intros ? [= <-].
    + destruct (InternalKeySeparator_between ucmp (d_last d) (d_first d') Hstay) as (H1 & H2 & H3); [lia|lia|done|].
      split; [done|]. split; [lia|]. by intros ? [= <-].
  - destruct (bool_decide (mode = kShortenSeparatorsAndSuccessor)).
    + destruct (InternalKeySuccessor_above ucmp (d_last d)) as (H1 & H2); [lia|]. split; [done|]. split; [lia|done].
    + rewrite (IKCompare_refl ucmp). split; [done|]. by split.
Qed.

Let uk := negb plus_seq.

Definition entry_key (k : bytes) : bytes := if plus_seq then k else ExtractUserKey k.

Lemma used_lookup i x : used_entries !! i = Some x -> exists d, ds !! i = Some d /\
  x = (entry_key (separator ucmp mode d (d_first <$> (ds !! S i))), entry_value b0 d).
Proof.
  unfold used_entries, entry_key. destruct plus_seq; cbn; intros Hx.
  - destruct (index_entries_lookup _ _ _ _ Hx) as (d & Hd & ->). by exists d.
  - unfold user_keys in Hx. rewrite list_lookup_fmap in Hx. destruct (index_entries _ ds !! i) as [y|] eqn:Hy; [|done].
    injection Hx as <-. destruct (index_entries_lookup _ _ _ _ Hy) as (d & Hd & ->). by exists d.
Qed.

Lemma length_used : length used_entries = length ds.
Proof.
  unfold used_entries. destruct plus_seq; [apply length_index_entries|].
  unfold user_keys. rewrite length_fmap. apply length_index_entries.
Qed.

(** An entry's key compared with a key of a later block, and with a key of its
    own block. *)
Lemma entry_after i d k : ds !! i = Some d -> k ∈ d_keys d ->
  index_order ucmp uk (entry_key k) (entry_key (separator ucmp mode d (d_first <$> (ds !! S i)))) <= 0.
Proof.
  intros Hd Hk. destruct (separator_between i d Hd) as (Hge & Hsl & _). destruct (key_long i d k Hd Hk) as [H8 _].
  destruct (key_long i d _ Hd (d_last_in d)) as [H8' _].
  pose proof (IKCompare_le_trans ucmp k (d_last d) _ H8 H8' (proj1 Hsl)
    (proj1 (block_keys ucmp ds i d k (tb_sorted _ _ _ Htab) Hd Hk)) Hge) as Hle.
  unfold index_order, entry_key, uk. destruct plus_seq; cbn [negb]; [done|].
  by apply (IKCompare_user ucmp k); [lia|lia|].
Qed.

Lemma entry_before i j d d' k : persist = true -> (i < j)%nat -> ds !! i = Some d -> ds !! j = Some d' -> k ∈ d_keys d' ->
  index_order ucmp uk (entry_key (separator ucmp mode d (d_first <$> (ds !! S i)))) (entry_key k) < 0.
Proof.
  intros Hper Hij Hd Hd' Hk. destruct (separator_between i d Hd) as (_ & Hsl & Hlt). destruct (key_long j d' k Hd' Hk) as [H8 _].
  destruct (lookup_lt_is_Some_2 ds (S i)) as [n Hn]; [apply lookup_lt_Some in Hd'; lia|]. specialize (Hlt n Hn).
  destruct (key_long (S i) n _ Hn (d_first_in n)) as [H8' _].
  assert (IKCompare ucmp (d_first n) k <= 0) as Hfk.
  { destruct (decide (j = S i)) as [->|].
    - rewrite Hn in Hd'. injection Hd' as ->. apply (block_keys ucmp ds (S i)); [apply Htab|done..].
    - apply Z.lt_le_incl. apply (blocks_keys ucmp ds (S i) j n d'); [apply Htab|lia|done|done|apply d_first_in|done]. }
  unfold index_order, entry_key, uk. destruct plus_seq eqn:Hps; cbn [negb].
  - eapply IKCompare_strict; [..|exact Hfk]; done || lia.
  - apply orb_false_elim in Hps as [_ Hns].
    assert (d_first <$> (ds !! S i) = Some (d_first n)) as Hf by (by rewrite Hn).
    pose proof (needs_seq_lookup _ ds i d _ Hns Hd Hf) as Hsh. unfold ShouldUseKeyPlusSeqAsSeparator in Hsh.
    cbn [persist_user_defined_timestamps_ ShortenedIndexBuilder_make] in Hsh. rewrite Hper in Hsh.
    change ((Compare ucmp (ExtractUserKey (separator ucmp mode d (Some (d_first n)))) (ExtractUserKey (d_first n)) =? 0) = false)
      in Hsh. apply Z.eqb_neq in Hsh. rewrite Hf in Hlt, Hsl |- *.
    assert (Compare ucmp (ExtractUserKey (separator ucmp mode d (Some (d_first n)))) (ExtractUserKey (d_first n)) < 0) as H1.
    { pose proof (proj1 (proj2 (IKCompare_user ucmp _ (d_first n) (proj1 Hsl) H8')) Hlt). lia. }
    eapply Compare_strict; [done|exact H1|]. by apply (IKCompare_user ucmp (d_first n) k).
Qed.

Lemma used_sorted : persist = true -> StronglySorted (fun a b => index_order ucmp uk a b < 0) used_entries.*1.
Proof.
  intros Hper. apply StronglySorted_of_lookup. intros i j a b Hij Ha Hb. rewrite list_lookup_fmap in Ha, Hb.
  destruct (used_entries !! i) as [x|] eqn:Hx; [|done]. destruct (used_entries !! j) as [y|] eqn:Hy; [|done].
  cbn in Ha, Hb. injection Ha as <-. injection Hb as <-.
  destruct (used_lookup i x Hx) as (d & Hd & ->). destruct (used_lookup j y Hy) as (d' & Hd' & ->). cbn [fst].
  pose proof (entry_before i j d d' _ Hper Hij Hd Hd' (d_last_in d')) as H1.
  pose proof (entry_after j d' _ Hd' (d_last_in d')) as H2.
  destruct (separator_between i d Hd) as (_ & Hs & _). destruct (separator_between j d' Hd') as (_ & Hs' & _).
  destruct (key_long j d' _ Hd' (d_last_in d')) as [H8 _].
  unfold index_order, entry_key, uk in *. destruct plus_seq; cbn [negb] in *.
  - eapply IKCompare_strict; [..|exact H1|exact H2]; done || lia.
  - by eapply Compare_strict.
Qed.

Lemma used_ok : Forall (fun e : bytes * IndexValue => slen e.1 < 2 ^ 32 /\ iv_ok e.2 /\
  slen (iv_first_internal_key e.2) < 2 ^ 31 /\ IsNull (iv_handle e.2) = false) used_entries.
Proof.
  apply Forall_lookup_2. intros i x Hx. destruct (used_lookup i x Hx) as (d & Hd & ->). cbn [fst snd].
  destruct (separator_between i d Hd) as (_ & Hs & _). destruct (key_long i d _ Hd (d_first_in d)) as [_ Hf].
  destruct (Forall_lookup_1 _ _ _ _ (tb_handles _ _ _ Htab) Hd) as (Ho & Hz & Hn).
  assert (slen (iv_first_internal_key (entry_value b0 d)) < 2 ^ 31) as Hfk.
  { unfold entry_value, b0. cbn. destruct have; [|change (@slen byte []) with 0; lia].
    destruct ((0 <? ts_sz) && negb persist) eqn:E; [|done]. apply andb_prop in E as [H0%Z.ltb_lt E].
    destruct persist; [done|]. destruct (Hstamped eq_refl) as (_ & _ & Hlong).
    pose proof (Forall_lookup_1 _ _ _ _ Hlong Hd) as Hld. cbn in Hld.
    unfold StripTimestampFromInternalKey, kNumInternalBytes. cbn [app]. rewrite slen_app.
    repeat (rewrite slen_stake || rewrite slen_sdrop); lia. }
  split; [|split; [split; [done|split; [done|lia]]|done]]. unfold entry_key. destruct plus_seq; [lia|].
  unfold ExtractUserKey, stake. set (s := separator _ _ _ _) in *. unfold slen in *. rewrite length_take. lia.
Qed.

Lemma used_contiguous : v4 = true -> contiguous used_entries.
Proof.
  intros Hv. apply contiguous_of_lookup. intros i x y Hx Hy. destruct (used_lookup i x Hx) as (d & Hd & ->).
  destruct (used_lookup (S i) y Hy) as (d' & Hd' & ->). by eapply (tb_follows _ _ _ Htab Hv i).
Qed.

Lemma used_long : uk = false -> Forall (fun e : bytes * IndexValue => 8 <= slen e.1) used_entries.
Proof.
  intros E. apply Forall_lookup_2. intros i x Hx. destruct (used_lookup i x Hx) as (d & Hd & ->). cbn [fst].
  destruct (separator_between i d Hd) as (_ & Hs & _). unfold entry_key. unfold uk in E. by destruct plus_seq; [lia|].
Qed.

Hypothesis Hsz : built_size used_builder (index_kvds have v4 NullBlockHandle used_entries) < 2 ^ 31.

Lemma table_index_run g pinned os p :
  (persist = false -> Forall (fun e : bytes * IndexValue => ts_sz + (if plus_seq then 8 else 0) <= slen e.1) used_entries) ->
  let shown := visible_index ucmp used_entries have (negb plus_seq) persist g in
  (persist = false -> StronglySorted (fun a b => index_order ucmp (negb plus_seq) a b < 0) shown.*1) ->
  Forall (fun o => is_index_op o = true) os ->
  cursor_run (index_cmp ucmp (negb plus_seq)) shown.*1 os = Some p ->
  let '(c, ic, s0) := NewIndexIterator wild (Block_make (Index_Finish (add_blocks b0 ds)).2) ucmp g have
                        (seperator_is_key_plus_seq_ (add_blocks b0 ds)) (negb v4) pinned persist in
  exists s, index_run wild Hash64 c ic s0 os = Some s /\ index_shows c ic s shown p.
Proof.
  intros Hlong shown Hsort Hops Hrun. destruct Index_contents as [-> ->].
  pose proof (index_block_run wild Hash64 ucmp used_builder used_entries have v4 uk pinned persist g) as H.
  unfold uk in H. rewrite negb_involutive in H. apply H; try done.
  - unfold is_fresh, used_builder, BlockBuilder_make. cbn. split_and!; try done. destruct persist; [done|].
    by destruct (Hstamped eq_refl) as (_ & ? & _).
  - unfold used_builder, BlockBuilder_make. cbn. destruct persist; [done|]. by destruct (Hstamped eq_refl) as (-> & _).
  - apply used_ok.
  - apply used_contiguous.
  - intros [H0 E]%andb_prop. destruct persist; [done|]. destruct (Hstamped eq_refl) as (<- & _ & _).
    specialize (Hlong eq_refl). by destruct plus_seq.
  - apply used_long.
  - destruct (bool_cases persist) as [E|E]; [|by apply Hsort]. rewrite E, visible_persisted. by apply used_sorted.
Qed.

(** Where [Seek] leads: the first entry whose key is not less than the target. *)
Lemma first_block t : persist = true -> 8 <= slen t ->
  match head (positions (fun k => 0 <=? index_cmp ucmp (negb plus_seq) k t) used_entries.*1) with
  | Some i => exists d, ds !! i = Some d /\
      (forall j d' k, (j < i)%nat -> ds !! j = Some d' -> k ∈ d_keys d' -> IKCompare ucmp k t < 0) /\
      (forall d' k, ds !! S i = Some d' -> k ∈ d_keys d' -> IKCompare ucmp t k < 0)
  | None => forall k, k ∈ table_keys ds -> IKCompare ucmp k t < 0
  end.
Proof.
  intros Hper Ht. set (P := fun k => 0 <=? index_cmp ucmp (negb plus_seq) k t).
  assert (forall j x d' k, used_entries !! j = Some x -> P x.1 = false -> ds !! j = Some d' -> k ∈ d_keys d' ->
    IKCompare ucmp k t < 0) as Hbelow.
  { intros j x d' k Hx HP Hd' Hk. apply Z.leb_gt in HP. destruct (used_lookup j x Hx) as (d & Hd & ->).
    rewrite Hd in Hd'. injection Hd' as ->. cbn [fst] in HP. pose proof (entry_after j d' k Hd Hk) as Hle.
    destruct (separator_between j d' Hd) as (_ & Hs & _). destruct (key_long j d' k Hd Hk) as [H8 _].
    unfold index_cmp, index_order, entry_key, uk in *. destruct plus_seq; cbn [negb] in *.
    - eapply IKCompare_le_lt; [..|exact Hle|exact HP]; done || lia.
    - apply (IKCompare_user ucmp k t); [done..|]. by eapply Compare_le_lt. }
  assert (forall j, (j < length ds)%nat -> exists x d, used_entries !! j = Some x /\ ds !! j = Some d) as Hboth.
  { intros j Hj. destruct (lookup_lt_is_Some_2 used_entries j) as [x Hx]; [by rewrite length_used|].
    destruct (lookup_lt_is_Some_2 ds j) as [d Hd]; [done|]. eauto. }
  destruct (head (positions P used_entries.*1)) as [i|] eqn:Hh.
  - apply positions_head_Some in Hh as (x1 & Hx1 & HP & Hlt). rewrite list_lookup_fmap in Hx1.
    destruct (used_entries !! i) as [x|] eqn:Hx; [|done]. injection Hx1 as <-.
    destruct (used_lookup i x Hx) as (d & Hd & Hxe). exists d. split; [done|]. split.
    + intros j d' k Hj Hd' Hk. destruct (Hboth j) as (y & _ & Hy & _); [by eapply lookup_lt_Some|].
      apply (Hbelow j y d' k Hy); try done. apply (Hlt j); [done|]. by rewrite list_lookup_fmap, Hy.
    + intros d' k Hd' Hk. subst x. apply Z.leb_le in HP. cbn [fst] in HP.
      pose proof (entry_before i (S i) d d' k Hper ltac:(lia) Hd Hd' Hk) as Hlt'.
      destruct (separator_between i d Hd) as (_ & Hs & _). destruct (key_long (S i) d' k Hd' Hk) as [H8 _].
      unfold index_cmp, index_order, entry_key, uk in *. destruct plus_seq; cbn [negb] in *.
      * eapply IKCompare_le_lt; [..|exact Hlt']; try done; try lia. apply (IKCompare_ge_flip ucmp); done || lia.
      * apply (IKCompare_user ucmp t k); [done..|]. eapply Compare_le_lt; [done| |exact Hlt']. by apply Compare_ge_flip.
  - intros k Hk. unfold table_keys in Hk. apply list_elem_of_In, in_concat in Hk as (ks & Hks & Hk).
    apply list_elem_of_In, list_elem_of_fmap in Hks as (d & -> & Hd). apply list_elem_of_lookup in Hd as [j Hd].
    apply list_elem_of_In in Hk. destruct (Hboth j) as (y & _ & Hy & _); [by eapply lookup_lt_Some|].
    apply (Hbelow j y d k Hy); try done. apply (positions_head_None _ _ Hh j). by rewrite list_lookup_fmap, Hy.
Qed.
End IndexTable.

(** ** Properties *)



(** Two data blocks that follow each other, with keys of the same user key in
    both. *)
Definition sample_blocks : list DBlock :=
  [{| d_first := sample_ikey Byte.x61 7; d_more := [sample_ikey Byte.x62 6; sample_ikey Byte.x63 5]; d_handle := BH 0 100 |};
   {| d_first := sample_ikey Byte.x63 4; d_more := [sample_ikey Byte.x64 3]; d_handle := BH 105 80 |};
   {| d_first := sample_ikey Byte.x70 2; d_more := []; d_handle := BH 190 300 |}].

Lemma sample_blocks_ok : table_ok BytewiseComparator true sample_blocks.
Proof.
  split.
  - repeat constructor.
  - repeat (constructor; [vm_compute; split; [discriminate|reflexivity]|]). constructor.
  - repeat (constructor; [split; [vm_compute; split; [discriminate|reflexivity]|
      split; [vm_compute; split; [discriminate|reflexivity]|reflexivity]]|]). constructor.
  - intros _ [|[|[|i]]] a b Ha Hb; cbn in Ha, Hb; try done.
    all: injection Ha as <-; injection Hb as <-; reflexivity.
Qed.

Lemma bytewise_separator_stays : separator_stays BytewiseComparator.
Proof.
  intros a b. cbn. rewrite compare_lex. intros ->%lex_eq. unfold Bytewise_FindShortestSeparator.
  assert (difference_offset b b = slen b) as ->.
  { destruct (difference_offset_spec b b) as (p & a' & b' & Ha & Hb & Hp & Hd). rewrite <- Hp.
    assert (a' = b') as -> by (rewrite Ha in Hb at 1; by apply app_inv_head in Hb).
    destruct b' as [|x b']; [|done]. by rewrite Hb, app_nil_r at 1. }
  rewrite Z.min_id, Z.leb_refl. by rewrite compare_lex, lex_refl.
Qed.




(** [C18] Searching the index finds the block: [Seek] on the index of a sorted
    table returns with an OK status; if it finds an entry, its handle is that of
    a block such that all keys of the blocks before it are less than the target
    and all keys of the next block are greater, so that the first key not less
    than the target is in that block or is the first key behind it; if it
    finds none, every key of the table is less than the target. *)
Theorem index_seek_finds_block (wild : Z) (Hash64 : bytes -> Z -> Z) (ucmp : Comparator) (Hc : ComparatorOk ucmp)
    (interval format_version ts_sz g : Z) (v4 have pinned : bool) (mode : IndexShorteningMode) (ds : list DBlock)
    (target : bytes) :
  1 <= interval -> separator_stays ucmp -> table_ok ucmp v4 ds ->
  built_size (used_builder ucmp interval format_version ts_sz v4 have true mode ds)
    (index_kvds have v4 NullBlockHandle (used_entries ucmp interval format_version ts_sz v4 have true mode ds)) < 2 ^ 31 ->
  8 <= slen target ->
  let b := add_blocks (ShortenedIndexBuilder_make ucmp interval format_version v4 mode have ts_sz true) ds in
  let '(c, ic, s0) := NewIndexIterator wild (Block_make (Index_Finish b).2) ucmp g have
                        (seperator_is_key_plus_seq_ b) (negb v4) pinned true in
  exists s, IndexBlockIter.Seek wild Hash64 c ic target s0 = Some s /\ status_ s = OK /\
    if Iter_Valid c s then
      exists i d v, ds !! i = Some d /\ IndexBlockIter.index_value c ic s = Some v /\ iv_handle v = d_handle d /\
        (forall j d' k, (j < i)%nat -> ds !! j = Some d' -> k ∈ d_keys d' -> IKCompare ucmp k target < 0) /\
        (forall d' k, ds !! S i = Some d' -> k ∈ d_keys d' -> IKCompare ucmp target k < 0)
    else forall k, k ∈ table_keys ds -> IKCompare ucmp k target < 0.
Proof.
  intros Hi Hst Htab Hsz Ht b.
  set (l := used_entries ucmp interval format_version ts_sz v4 have true mode ds) in *.
  set (ps := plus_seq ucmp interval format_version ts_sz v4 have true mode ds).
  pose proof (table_index_run wild Hash64 ucmp interval format_version ts_sz v4 have true mode ds Hi Hst Htab ltac:(done) Hsz
    g pinned [OpSeek target] (head (positions (fun k => 0 <=? index_cmp ucmp (negb ps) k target) l.*1)) ltac:(done)) as H.
  pose proof (first_block ucmp interval format_version ts_sz v4 have true mode ds Hst Htab target eq_refl Ht) as Hfb.
  cbv zeta in H. rewrite visible_persisted in H. specialize (H ltac:(done)).
  fold l ps b in H, Hfb. destruct (NewIndexIterator _ _ _ _ _ _ _ _ _) as [[c ic] s0]. destruct H as (s & Hs & Hsh).
  { by repeat constructor. }
  { unfold cursor_run. cbn. destruct (Z.ltb_spec (slen target) 8); [lia|done]. }
  cbn in Hs. exists s. split; [done|]. destruct Hsh as (Hok & Hv & Hk). split; [done|]. rewrite Hv.
  destruct (head _) as [i|]; cycle 1.
  { rewrite bool_decide_false by auto. done. }
  rewrite bool_decide_true by done. destruct (Hk i eq_refl) as (k & v & Hlk & _ & Hval). destruct Hfb as (d & Hd & H1 & H2).
  exists i, d, v. split; [done|]. split; [done|]. split; [|done].
  unfold visible_index in Hlk. rewrite list_lookup_fmap in Hlk. destruct (l !! i) as [x|] eqn:Hx; [|done].
  injection Hlk as _ <-. destruct (used_lookup ucmp interval format_version ts_sz v4 have true mode ds i x Hx) as (d' & Hd' & ->).
  rewrite Hd in Hd'. by injection Hd' as ->.
Qed.

Lemma index_seek_finds_block_witness :
  let b := add_blocks (ShortenedIndexBuilder_make BytewiseComparator 2 5 true kShortenSeparatorsAndSuccessor false 0 true)
             sample_blocks in
  let '(c, ic, s0) := NewIndexIterator 0 (Block_make (Index_Finish b).2) BytewiseComparator kDisableGlobalSequenceNumber false
                        (seperator_is_key_plus_seq_ b) (negb true) false true in
  exists s, IndexBlockIter.Seek 0 (fun _ _ => 0) c ic (sample_ikey Byte.x63 4) s0 = Some s /\ status_ s = OK /\
    if Iter_Valid c s then
      exists i d v, sample_blocks !! i = Some d /\ IndexBlockIter.index_value c ic s = Some v /\ iv_handle v = d_handle d /\
        (forall j d' k, (j < i)%nat -> sample_blocks !! j = Some d' -> k ∈ d_keys d' ->
           IKCompare BytewiseComparator k (sample_ikey Byte.x63 4) < 0) /\
        (forall d' k, sample_blocks !! S i = Some d' -> k ∈ d_keys d' ->
           IKCompare BytewiseComparator (sample_ikey Byte.x63 4) k < 0)
    else forall k, k ∈ table_keys sample_blocks -> IKCompare BytewiseComparator k (sample_ikey Byte.x63 4) < 0.
Proof.
  apply (index_seek_finds_block 0 (fun _ _ => 0) BytewiseComparator _ 2 5 0 kDisableGlobalSequenceNumber true false false
    kShortenSeparatorsAndSuccessor sample_blocks (sample_ikey Byte.x63 4)).
  - lia.
  - apply bytewise_separator_stays.
  - apply sample_blocks_ok.
  - vm_compute. reflexivity.
  - vm_compute. discriminate.
Defined.
