(* ===== verification/WalEdit.v ===== *)
(** Write-ahead logs as the manifest tracks them (db/wal_edit.h,
    db/wal_edit.cc): the records of additions and deletions with their
    encodings, and [WalSet], the set of live logs kept by the version set.

    A decoder that takes [Slice* input] gives back the object and what is left
    of the input, or the status it fails with; its callers drop the object and
    the input on failure. The class [ManifestPart] is what the records promise
    to the version edit that contains them. *)

From S2P Require Import Prelude Records StdMap Coding.

(** What a decoder returns: a failing status, or the object and the rest. *)
Abbreviation Decoded T := (Status + (T * bytes))%type.

Notation "'Try' x := e 'Else' s 'Then' k" :=
  (match e with Some x => k | None => s end)
  (at level 10, x strict pattern, e at level 100, s at level 100, k at level 200) : rocks_scope.

(** [Status::Corruption(class_name, msg)]. *)
Definition Corruption2 (class_name msg : string) : Status :=
  Corruption (class_name ++ ": " ++ msg)%string.

(** A record nested in a version edit: what is appended to [dst], how it is
    read back, and the values its fields may hold. *)
Class ManifestPart (T : Type) := {
  part_encode : bytes -> T -> bytes;
  part_decode : bytes -> Decoded T;
  part_wf : T -> Prop;
  part_append dst t : part_encode dst t = dst ++ part_encode [] t;
  part_roundtrip t rest : part_wf t -> part_decode (part_encode [] t ++ rest) = inr (t, rest);
  part_shorter input t rest : part_decode input = inr (t, rest) -> (length rest < length input)%nat;
  part_typed input t rest : part_decode input = inr (t, rest) -> part_wf t;
  part_error input s : part_decode input = inl s -> exists msg, s = Corruption msg
}.

(** ** WalMetadata *)

Definition kUnknownWalSize : Z := 2 ^ 64 - 1.

(** [synced_size_bytes_]. *)
Record WalMetadata := { synced_size_bytes_ : Z }.

Definition WalMetadata_default : WalMetadata := {| synced_size_bytes_ := kUnknownWalSize |}.

Definition HasSyncedSize (m : WalMetadata) : bool := negb (synced_size_bytes_ m =? kUnknownWalSize).

Definition SetSyncedSizeInBytes (m : WalMetadata) (size : Z) : WalMetadata :=
  {| synced_size_bytes_ := size |}.

(** ** WalAddition and WalDeletion *)

Module WalAdditionTag.

Definition kTerminate : Z := 1.
Definition kSyncedSize : Z := 2.

End WalAdditionTag.

Record WalAddition := { wa_number_ : Z; wa_metadata_ : WalMetadata }.

Definition WalAddition_EncodeTo (dst : bytes) (w : WalAddition) : bytes :=
  let dst := PutVarint64 dst (wa_number_ w) in
  let dst :=
    if HasSyncedSize (wa_metadata_ w)
    then PutVarint64 (PutVarint32 dst WalAdditionTag.kSyncedSize)
           (synced_size_bytes_ (wa_metadata_ w))
    else dst in
  PutVarint32 dst WalAdditionTag.kTerminate.

(** The loop over the tags. Every round consumes input, so the length of the
    input is fuel enough ([WalAddition_tags_error]). *)
Fixpoint WalAddition_tags (fuel : nat) (w : WalAddition) (src : bytes) : Decoded WalAddition :=
  Try (tag_value, src) := GetVarint32 src
    Else inl (Corruption2 "WalAddition" "Error decoding tag") Then
  if tag_value =? WalAdditionTag.kSyncedSize then
    Try (size, src) := GetVarint64 src
      Else inl (Corruption2 "WalAddition" "Error decoding WAL file size") Then
    match fuel with
    | O => inl TryAgain
    | S fuel => WalAddition_tags fuel
        {| wa_number_ := wa_number_ w;
           wa_metadata_ := SetSyncedSizeInBytes (wa_metadata_ w) size |} src
    end
  else if tag_value =? WalAdditionTag.kTerminate then inr (w, src)
  else inl (Corruption2 "WalAddition" ("Unknown tag " ++ pretty tag_value)).

(** On a default-constructed addition, as the version edit calls it. *)
Definition WalAddition_DecodeFrom (src : bytes) : Decoded WalAddition :=
  Try (number, src) := GetVarint64 src
    Else inl (Corruption2 "WalAddition" "Error decoding WAL log number") Then
  WalAddition_tags (length src)
    {| wa_number_ := number; wa_metadata_ := WalMetadata_default |} src.

(** [number_]; [kEmpty] is no deletion. *)
Record WalDeletion := { wd_number_ : Z }.

Definition WalDeletion_kEmpty : Z := 0.

Definition WalDeletion_default : WalDeletion := {| wd_number_ := WalDeletion_kEmpty |}.

Definition WalDeletion_IsEmpty (w : WalDeletion) : bool := wd_number_ w =? WalDeletion_kEmpty.

(** [WalDeletion::Reset]. *)
Definition WalDeletion_Reset (w : WalDeletion) : WalDeletion := {| wd_number_ := WalDeletion_kEmpty |}.

Definition WalDeletion_EncodeTo (dst : bytes) (w : WalDeletion) : bytes :=
  PutVarint64 dst (wd_number_ w).

Definition WalDeletion_DecodeFrom (src : bytes) : Decoded WalDeletion :=
  Try (number, src) := GetVarint64 src
    Else inl (Corruption2 "WalDeletion" "Error decoding WAL log number") Then
  inr ({| wd_number_ := number |}, src).

(** ** WalSet *)

Record WalSet := {
  wals_ : list (Z * WalMetadata);   (* std::map<WalNumber, WalMetadata> *)
  min_wal_number_to_keep_ : Z
}.

#[export] Instance WalSet_Settable : Settable WalSet :=
  fun s => Build_WalSet (wals_ s) (min_wal_number_to_keep_ s).

Definition WalSet_new : WalSet := {| wals_ := []; min_wal_number_to_keep_ := 0 |}.

Definition AddWal (s : WalSet) (wal : WalAddition) : Status * WalSet :=
  let number := wa_number_ wal in
  if number <? min_wal_number_to_keep_ s then (OK, s)
  else match map_find number (wals_ s) with
       | None => (OK, s <| wals_ := map_insert number (wa_metadata_ wal) (wals_ s) |>)
       | Some existing =>
           if negb (HasSyncedSize (wa_metadata_ wal)) then
             (Corruption2 "WalSet::AddWal" ("WAL " ++ pretty number ++ " is created more than once"), s)
           else if HasSyncedSize existing &&
                   (synced_size_bytes_ (wa_metadata_ wal) <=? synced_size_bytes_ existing)
           then (OK, s)
           else (OK, s <| wals_ := map_insert number
                            (SetSyncedSizeInBytes existing (synced_size_bytes_ (wa_metadata_ wal)))
                            (wals_ s) |>)
       end.



Definition WalSet_Reset (s : WalSet) : WalSet := {| wals_ := []; min_wal_number_to_keep_ := 0 |}.

(** [CheckWals]: [logs_on_disk] gives the file name of a log number and
    [GetFileSize] is the environment's answer for a file name. *)
Fixpoint CheckWals_loop (GetFileSize : string -> Status * Z) (logs_on_disk : gmap Z string)
    (wals : list (Z * WalMetadata)) : Status :=
  match wals with
  | [] => OK
  | (log_number, wal_meta) :: wals' =>
      if negb (HasSyncedSize wal_meta) then CheckWals_loop GetFileSize logs_on_disk wals'
      else match logs_on_disk !! log_number with
           | None => Corruption ("Missing WAL with log number: " ++ pretty log_number ++ ".")%string
           | Some fname =>
               let '(s, log_file_size) := GetFileSize fname in
               if negb (ok s) then s
               else if log_file_size <? synced_size_bytes_ wal_meta then
                 Corruption ("Size mismatch: WAL (log number: " ++ pretty log_number ++
                   ") in MANIFEST is " ++ pretty (synced_size_bytes_ wal_meta) ++
                   " bytes , but actually is " ++ pretty log_file_size ++ " bytes on disk.")%string
               else CheckWals_loop GetFileSize logs_on_disk wals'
           end
  end.

Definition CheckWals (s : WalSet) (GetFileSize : string -> Status * Z)
    (logs_on_disk : gmap Z string) : Status :=
  CheckWals_loop GetFileSize logs_on_disk (wals_ s).

(** ** Round trips of the records *)

Lemma WalAddition_encode_app dst w :
  WalAddition_EncodeTo dst w = dst ++ WalAddition_EncodeTo [] w.
Proof.
  unfold WalAddition_EncodeTo, PutVarint64, PutVarint32.
  destruct (HasSyncedSize _); by rewrite <- !app_assoc.
Qed.

Definition WalAddition_wf (w : WalAddition) : Prop :=
  is_u64 (wa_number_ w) /\ is_u64 (synced_size_bytes_ (wa_metadata_ w)).

Lemma WalAddition_tags_end fuel w rest :
  WalAddition_tags fuel w (EncodeVarint32 WalAdditionTag.kTerminate ++ rest) = inr (w, rest).
Proof.
  destruct fuel; cbn [WalAddition_tags]; by rewrite GetVarint32_Encode by done.
Qed.

Lemma WalAddition_tags_size fuel w size rest : is_u64 size ->
  WalAddition_tags (S fuel) w
    (EncodeVarint32 WalAdditionTag.kSyncedSize ++ EncodeVarint64 size ++ rest) =
  WalAddition_tags fuel {| wa_number_ := wa_number_ w;
                           wa_metadata_ := {| synced_size_bytes_ := size |} |} rest.
Proof.
  intros Hs. cbn [WalAddition_tags]. rewrite GetVarint32_Encode by done.
  change (WalAdditionTag.kSyncedSize =? WalAdditionTag.kSyncedSize) with true. cbv iota beta.
  by rewrite GetVarint64_Encode by done.
Qed.

Lemma WalAddition_roundtrip w rest : WalAddition_wf w ->
  WalAddition_DecodeFrom (WalAddition_EncodeTo [] w ++ rest) = inr (w, rest).
Proof.
  intros [Hn Hs]. destruct w as [n [sz]]; cbn [wa_number_ wa_metadata_ synced_size_bytes_] in *.
  unfold WalAddition_EncodeTo, WalAddition_DecodeFrom, PutVarint64, PutVarint32, HasSyncedSize.
  cbn [wa_number_ wa_metadata_ synced_size_bytes_].
  destruct (Z.eqb_spec sz kUnknownWalSize) as [->|Hk]; cbn [negb]; rewrite <- !app_assoc, app_nil_l;
    rewrite GetVarint64_Encode by done.
  - apply WalAddition_tags_end.
  - rewrite length_app. change (length (EncodeVarint32 _)) with 1%nat.
    rewrite Nat.add_1_l, WalAddition_tags_size by done. apply WalAddition_tags_end.
Qed.

Lemma GetVarint32_shorter input v rest :
  GetVarint32 input = Some (v, rest) -> (length rest < length input)%nat.
Proof.
  intros (_ & used & -> & Hu)%GetVarint32_safe. rewrite length_app. unfold slen in *. lia.
Qed.

Lemma GetVarint64_shorter input v rest :
  GetVarint64 input = Some (v, rest) -> (length rest < length input)%nat.
Proof.
  intros (_ & used & -> & Hu)%GetVarint64_safe. rewrite length_app. unfold slen in *. lia.
Qed.

Lemma GetLengthPrefixedSlice_shorter input v rest :
  GetLengthPrefixedSlice input = Some (v, rest) -> (length rest < length input)%nat.
Proof.
  intros (_ & used & -> & Hu)%GetLengthPrefixedSlice_safe. rewrite !length_app.
  unfold slen in *. lia.
Qed.

#[export] Hint Resolve GetVarint32_shorter GetVarint64_shorter GetLengthPrefixedSlice_shorter : rocks.

(** Every read of a decoder consumes input: the equations of the reads met so
    far, as inequalities between the lengths. *)
Ltac shorter :=
  repeat match goal with
  | H : GetVarint32 _ = Some _ |- _ => apply GetVarint32_shorter in H
  | H : GetVarint64 _ = Some _ |- _ => apply GetVarint64_shorter in H
  | H : GetLengthPrefixedSlice _ = Some _ |- _ => apply GetLengthPrefixedSlice_shorter in H
  end; simpl in *; try lia.

Lemma WalAddition_tags_shorter fuel w src w' rest :
  WalAddition_tags fuel w src = inr (w', rest) -> (length rest < length src)%nat.
Proof.
  revert w src; induction fuel as [|fuel IH]; intros w src; simpl;
    destruct (GetVarint32 src) as [[tag src']|] eqn:E; try done; repeat zcase; try done.
  - by destruct (GetVarint64 src') as [[??]|].
  - intros [= _ <-]. shorter.
  - destruct (GetVarint64 src') as [[sz src'']|] eqn:E2; [|done]. intros H%IH. shorter.
  - intros [= _ <-]. shorter.
Qed.

Lemma WalAddition_tags_typed fuel w src w' rest : WalAddition_wf w ->
  WalAddition_tags fuel w src = inr (w', rest) -> WalAddition_wf w'.
Proof.
  revert w src; induction fuel as [|fuel IH]; intros w src Hw; simpl;
    destruct (GetVarint32 src) as [[tag src']|] eqn:E; try done; repeat zcase; try done.
  - by destruct (GetVarint64 src') as [[??]|].
  - by intros [= <- _].
  - destruct (GetVarint64 src') as [[sz src'']|] eqn:E2; [|done]. apply IH.
    apply GetVarint64_safe in E2 as [Hz _]. split; [apply Hw|done].
  - by intros [= <- _].
Qed.

(** The length of the input is fuel enough: the loop never runs dry. *)
Lemma WalAddition_tags_error fuel w src s : (length src <= fuel)%nat ->
  WalAddition_tags fuel w src = inl s -> exists msg, s = Corruption msg.
Proof.
  revert w src; induction fuel as [|fuel IH]; intros w src Hf; simpl;
    destruct (GetVarint32 src) as [[tag src']|] eqn:E; try (intros [= <-]; by eexists); repeat zcase;
    try (intros [= <-]; by eexists); try done.
  - destruct (GetVarint64 src') as [[??]|]; [shorter|intros [= <-]; by eexists].
  - destruct (GetVarint64 src') as [[sz src'']|] eqn:E2; [|intros [= <-]; by eexists].
    apply IH. shorter.
Qed.

#[export] Instance WalAddition_part : ManifestPart WalAddition.
Proof.
  refine {| part_encode := WalAddition_EncodeTo; part_decode := WalAddition_DecodeFrom;
            part_wf := WalAddition_wf; part_append := WalAddition_encode_app;
            part_roundtrip := WalAddition_roundtrip |};
    intros input; unfold WalAddition_DecodeFrom;
    destruct (GetVarint64 input) as [[n src]|] eqn:E; try done.
  - intros t rest H%WalAddition_tags_shorter. shorter.
  - intros t rest. apply WalAddition_tags_typed. by apply GetVarint64_safe in E as [Hn _].
  - intros s. by apply WalAddition_tags_error.
  - intros s [= <-]. by eexists.
Defined.

#[export] Instance WalDeletion_part : ManifestPart WalDeletion.
Proof.
  refine {| part_encode := WalDeletion_EncodeTo; part_decode := WalDeletion_DecodeFrom;
            part_wf := fun w => is_u64 (wd_number_ w) |}.
  - done.
  - intros [n] rest Hn. unfold WalDeletion_DecodeFrom, WalDeletion_EncodeTo, PutVarint64. simpl in *.
    by rewrite GetVarint64_Encode by done.
  - intros input t rest. unfold WalDeletion_DecodeFrom.
    destruct (GetVarint64 input) as [[n src]|] eqn:E; [|done]. intros [= _ <-]. shorter.
  - intros input t rest. unfold WalDeletion_DecodeFrom.
    destruct (GetVarint64 input) as [[n src]|] eqn:E; [|done]. intros [= <- _].
    by apply GetVarint64_safe in E as [Hn _].
  - intros input s. unfold WalDeletion_DecodeFrom.
    destruct (GetVarint64 input) as [[n src]|] eqn:E; [done|]. intros [= <-]. by eexists.
Defined.

(** ** What a WalSet records *)




(** [wals_] is ordered and holds no log below the minimum. *)
Definition WalSet_inv (s : WalSet) : Prop :=
  keys_from (min_wal_number_to_keep_ s) (wals_ s) = true.










(** ** The invariant, and one call *)



(** ** A run of calls *)








Lemma CheckWals_loop_spec GetFileSize logs wals :
  CheckWals_loop GetFileSize logs wals = OK <->
  forall n m, In (n, m) wals -> HasSyncedSize m = true ->
    exists fname size, logs !! n = Some fname /\ GetFileSize fname = (OK, size) /\
      synced_size_bytes_ m <= size.
Proof.
  induction wals as [|[n m] wals IH]; [simpl; by split|].
  assert (Hcons : (forall n' m', In (n', m') ((n, m) :: wals) -> HasSyncedSize m' = true ->
      exists fname size, logs !! n' = Some fname /\ GetFileSize fname = (OK, size) /\
        synced_size_bytes_ m' <= size) <->
    (HasSyncedSize m = true -> exists fname size, logs !! n = Some fname /\
        GetFileSize fname = (OK, size) /\ synced_size_bytes_ m <= size) /\
    CheckWals_loop GetFileSize logs wals = OK).
  { rewrite IH. split.
    - intros H. split; [apply H; by left|]. intros n' m' Hin. apply H. by right.
    - intros [H1 H2] n' m' [[= <- <-]|Hin]; [done|by apply H2]. }
  rewrite Hcons. clear Hcons IH. simpl. destruct (HasSyncedSize m); simpl; [|by split; [split|intros [??]]].
  destruct (logs !! n) as [fname|] eqn:El; [|split; [done|]; by intros [(?&?&?&?) ?]].
  destruct (GetFileSize fname) as [st size] eqn:Eg.
  destruct st; simpl;
    try (split; [done|]; intros [(f & z & [= <-] & Hg & _) _]; [done|]; congruence).
  zcase.
  - split; [done|]. intros [(f & z & [= <-] & Hg & Hz) _]; [done|].
    rewrite Eg in Hg. injection Hg as <-. lia.
  - split; [|by intros [??]]. intros Hr. split; [|done]. by exists fname, size.
Qed.

(** ** Theorems *)















(** [CheckWals] accepts exactly the disks that hold every synced log with at
    least its synced size. *)
Theorem check_wals_exact (s : WalSet) (GetFileSize : string -> Status * Z) (logs : gmap Z string) :
  WalSet_inv s ->
  CheckWals s GetFileSize logs = OK <->
  forall n m, map_find n (wals_ s) = Some m -> HasSyncedSize m = true ->
    exists fname size, logs !! n = Some fname /\ GetFileSize fname = (OK, size) /\
      synced_size_bytes_ m <= size.
Proof.
  intros Hs. unfold CheckWals. rewrite CheckWals_loop_spec.
  split; intros H n m Hn; apply H; by apply (map_find_In _ _ _ _ Hs).
Qed.

(** A log may be added for the first time with a synced size: the header of
    [AddWal] announces a corruption when no unclosed log exists. *)
Lemma closed_wal_without_creation (n size : Z) :
  0 <= n -> size <> kUnknownWalSize ->
  AddWal WalSet_new {| wa_number_ := n; wa_metadata_ := {| synced_size_bytes_ := size |} |} =
  (OK, {| wals_ := [(n, {| synced_size_bytes_ := size |})]; min_wal_number_to_keep_ := 0 |}).
Proof. intros ??. unfold AddWal. simpl. by zcase. Qed.
