(* ===== verification/BlobIndex.v ===== *)
(** References to blobs (db/blob/blob_index.h): the value an internal key of
    type [kTypeBlobIndex] carries, in its three encodings. *)

From S2P Require Import Prelude Records Coding WalEdit.

(** [BlobIndex::Type]. *)
Definition kInlinedTTL : Z := 0.
Definition kBlob : Z := 1.
Definition kBlobTTL : Z := 2.
Definition kUnknownBlob : Z := 3.

Record BlobIndex := {
  bi_type_ : Z;
  expiration_ : Z;
  bi_value_ : bytes;
  bi_file_number_ : Z;
  bi_offset_ : Z;
  bi_size_ : Z;
  compression_ : Z
}.

#[export] Instance BlobIndex_Settable : Settable BlobIndex :=
  fun r => Build_BlobIndex (bi_type_ r) (expiration_ r) (bi_value_ r) (bi_file_number_ r)
    (bi_offset_ r) (bi_size_ r) (compression_ r).

Definition BlobIndex_new : BlobIndex :=
  {| bi_type_ := kUnknownBlob; expiration_ := 0; bi_value_ := []; bi_file_number_ := 0;
     bi_offset_ := 0; bi_size_ := 0; compression_ := 0 |}.

Definition IsInlined (b : BlobIndex) : bool := bi_type_ b =? kInlinedTTL.

Definition HasTTL (b : BlobIndex) : bool := (bi_type_ b =? kInlinedTTL) || (bi_type_ b =? kBlobTTL).

(** The part of [DecodeFrom] after the type and the expiration. *)
Definition DecodeBlobPosition (b : BlobIndex) (slice : bytes) : Status * BlobIndex :=
  if IsInlined b then (OK, b <| bi_value_ := slice |>)
  else
    let bad b := (Corruption2 "Error while decoding blob index" "Corrupted blob offset", b) in
    Try (n, slice) := GetVarint64 slice Else bad b Then
    let b := b <| bi_file_number_ := n |> in
    Try (o, slice) := GetVarint64 slice Else bad b Then
    let b := b <| bi_offset_ := o |> in
    Try (z, slice) := GetVarint64 slice Else bad b Then
    let b := b <| bi_size_ := z |> in
    if slen slice =? 1 then (OK, b <| compression_ := at_ slice 0 |>) else bad b.

(** [BlobIndex::DecodeFrom]; the value is not empty. *)
Definition BlobIndex_DecodeFrom (b : BlobIndex) (slice : bytes) : Status * BlobIndex :=
  let kErrorMessage := "Error while decoding blob index" in
  let t := at_ slice 0 in
  let b := b <| bi_type_ := t |> in
  if kUnknownBlob <=? t then
    (Corruption2 kErrorMessage
       ("Unknown blob index type: " ++ pretty (if t <? 128 then t else t - 256)), b)
  else
    let slice := sdrop 1 slice in
    if HasTTL b then
      Try (x, slice) := GetVarint64 slice
        Else (Corruption2 kErrorMessage "Corrupted expiration", b) Then
      DecodeBlobPosition (b <| expiration_ := x |>) slice
    else DecodeBlobPosition b slice.

Definition EncodeInlinedTTL (expiration : Z) (value : bytes) : bytes :=
  PutVarint64 [to_byte kInlinedTTL] expiration ++ value.

Definition EncodeBlob (file_number offset size compression : Z) : bytes :=
  PutVarint64 (PutVarint64 (PutVarint64 [to_byte kBlob] file_number) offset) size
    ++ [to_byte compression].

Definition EncodeBlobTTL (expiration file_number offset size compression : Z) : bytes :=
  PutVarint64 (PutVarint64 (PutVarint64 (PutVarint64 [to_byte kBlobTTL] expiration) file_number) offset) size
    ++ [to_byte compression].

(** ** Round trips *)

Lemma sdrop_1 {A} (x : A) l : sdrop 1 (x :: l) = l.
Proof. done. Qed.

Lemma DecodeBlobPosition_Encode b n o z c :
  IsInlined b = false -> is_u64 n -> is_u64 o -> is_u64 z -> is_u8 c ->
  DecodeBlobPosition b (EncodeVarint64 n ++ EncodeVarint64 o ++ EncodeVarint64 z ++ [to_byte c]) =
  (OK, b <| bi_file_number_ := n |> <| bi_offset_ := o |> <| bi_size_ := z |> <| compression_ := c |>).
Proof.
  intros Hb Hn Ho Hz Hc. unfold DecodeBlobPosition. rewrite Hb.
  do 3 rewrite GetVarint64_Encode by done. cbv zeta.
  change (slen [to_byte c] =? 1) with true. cbv iota.
  by rewrite at_cons_0, ub_to_byte by (unfold is_u8 in Hc; lia).
Qed.

(** Every encoding of a blob index is decoded to what was encoded; a reference
    without expiration keeps the expiration of the object. *)
Lemma blob_index_roundtrip (b : BlobIndex) (x n o z c : Z) (v : bytes) :
  is_u64 x -> is_u64 n -> is_u64 o -> is_u64 z -> is_u8 c ->
  BlobIndex_DecodeFrom b (EncodeInlinedTTL x v) =
    (OK, b <| bi_type_ := kInlinedTTL |> <| expiration_ := x |> <| bi_value_ := v |>) /\
  BlobIndex_DecodeFrom b (EncodeBlob n o z c) =
    (OK, b <| bi_type_ := kBlob |> <| bi_file_number_ := n |> <| bi_offset_ := o |>
           <| bi_size_ := z |> <| compression_ := c |>) /\
  BlobIndex_DecodeFrom b (EncodeBlobTTL x n o z c) =
    (OK, b <| bi_type_ := kBlobTTL |> <| expiration_ := x |> <| bi_file_number_ := n |>
           <| bi_offset_ := o |> <| bi_size_ := z |> <| compression_ := c |>).
Proof.
  intros Hx Hn Ho Hz Hc. unfold EncodeInlinedTTL, EncodeBlob, EncodeBlobTTL, PutVarint64.
  rewrite <- !app_assoc. unfold BlobIndex_DecodeFrom. cbn [app]. rewrite !at_cons_0.
  split_and!.
  - rewrite (sdrop_1 (to_byte kInlinedTTL)). change (ub (to_byte kInlinedTTL)) with 0.
    cbv beta zeta. change (kUnknownBlob <=? 0) with false. cbv iota.
    change (HasTTL _) with true. cbv iota. by rewrite GetVarint64_Encode by done.
  - rewrite (sdrop_1 (to_byte kBlob)). change (ub (to_byte kBlob)) with 1.
    cbv beta zeta. change (kUnknownBlob <=? 1) with false. cbv iota.
    change (HasTTL _) with false. cbv iota. by rewrite DecodeBlobPosition_Encode.
  - rewrite (sdrop_1 (to_byte kBlobTTL)). change (ub (to_byte kBlobTTL)) with 2.
    cbv beta zeta. change (kUnknownBlob <=? 2) with false. cbv iota.
    change (HasTTL _) with true. cbv iota. rewrite GetVarint64_Encode by done.
    by rewrite DecodeBlobPosition_Encode.
Qed.
