(* ===== verification/BlobEdit.v ===== *)
(** The blob-file records of a version edit (db/blob/blob_file_addition.h/.cc,
    db/blob/blob_file_garbage.h/.cc): a new blob file, and garbage found in an
    existing one, each followed by custom fields that a reader may skip unless
    they are marked as forward incompatible. *)

From S2P Require Import Prelude Records StdMap Coding WalEdit.

Definition kInvalidBlobFileNumber : Z := 0.

(** [CustomFieldTags] of both classes. *)
Definition kEndMarker : Z := 0.
Definition kForwardIncompatibleMask : Z := Z.shiftl 1 6.

(** The loop of both decoders over the custom fields: what is left after the
    end marker. A round consumes input, so its length is fuel enough
    ([skip_custom_fields_error]). *)
Fixpoint skip_custom_fields (class_name : string) (fuel : nat) (input : bytes) : Status + bytes :=
  Try (custom_field_tag, input) := GetVarint32 input
    Else inl (Corruption2 class_name "Error decoding custom field tag") Then
  if custom_field_tag =? kEndMarker then inr input
  else if negb (Z.land custom_field_tag kForwardIncompatibleMask =? 0)
  then inl (Corruption2 class_name "Forward incompatible custom field encountered")
  else
    Try (_, input) := GetLengthPrefixedSlice input
      Else inl (Corruption2 class_name "Error decoding custom field value") Then
    match fuel with
    | O => inl TryAgain
    | S fuel => skip_custom_fields class_name fuel input
    end.

Record BlobFileAddition := {
  blob_file_number_ : Z;
  total_blob_count_ : Z;
  total_blob_bytes_ : Z;
  checksum_method_ : bytes;
  checksum_value_ : bytes
}.

Definition BlobFileAddition_EncodeTo (output : bytes) (b : BlobFileAddition) : bytes :=
  let output := PutVarint64 output (blob_file_number_ b) in
  let output := PutVarint64 output (total_blob_count_ b) in
  let output := PutVarint64 output (total_blob_bytes_ b) in
  let output := PutLengthPrefixedSlice output (checksum_method_ b) in
  let output := PutLengthPrefixedSlice output (checksum_value_ b) in
  PutVarint32 output kEndMarker.

Definition BlobFileAddition_DecodeFrom (input : bytes) : Decoded BlobFileAddition :=
  let class_name := "BlobFileAddition" in
  Try (number, input) := GetVarint64 input
    Else inl (Corruption2 class_name "Error decoding blob file number") Then
  Try (count, input) := GetVarint64 input
    Else inl (Corruption2 class_name "Error decoding total blob count") Then
  Try (total, input) := GetVarint64 input
    Else inl (Corruption2 class_name "Error decoding total blob bytes") Then
  Try (checksum_method, input) := GetLengthPrefixedSlice input
    Else inl (Corruption2 class_name "Error decoding checksum method") Then
  Try (checksum_value, input) := GetLengthPrefixedSlice input
    Else inl (Corruption2 class_name "Error decoding checksum value") Then
  match skip_custom_fields class_name (length input) input with
  | inl s => inl s
  | inr input =>
      inr ({| blob_file_number_ := number; total_blob_count_ := count; total_blob_bytes_ := total;
              checksum_method_ := checksum_method; checksum_value_ := checksum_value |}, input)
  end.

Record BlobFileGarbage := {
  garbage_file_number_ : Z;
  garbage_blob_count_ : Z;
  garbage_blob_bytes_ : Z
}.

Definition BlobFileGarbage_EncodeTo (output : bytes) (g : BlobFileGarbage) : bytes :=
  let output := PutVarint64 output (garbage_file_number_ g) in
  let output := PutVarint64 output (garbage_blob_count_ g) in
  let output := PutVarint64 output (garbage_blob_bytes_ g) in
  PutVarint32 output kEndMarker.

Definition BlobFileGarbage_DecodeFrom (input : bytes) : Decoded BlobFileGarbage :=
  let class_name := "BlobFileGarbage" in
  Try (number, input) := GetVarint64 input
    Else inl (Corruption2 class_name "Error decoding blob file number") Then
  Try (count, input) := GetVarint64 input
    Else inl (Corruption2 class_name "Error decoding garbage blob count") Then
  Try (total, input) := GetVarint64 input
    Else inl (Corruption2 class_name "Error decoding garbage blob bytes") Then
  match skip_custom_fields class_name (length input) input with
  | inl s => inl s
  | inr input =>
      inr ({| garbage_file_number_ := number; garbage_blob_count_ := count;
              garbage_blob_bytes_ := total |}, input)
  end.

(** ** Lemmas *)

Lemma skip_custom_fields_end cls fuel rest :
  skip_custom_fields cls fuel (EncodeVarint32 kEndMarker ++ rest) = inr rest.
Proof. destruct fuel; cbn [skip_custom_fields]; by rewrite GetVarint32_Encode by done. Qed.

Lemma skip_custom_fields_shorter cls fuel input rest :
  skip_custom_fields cls fuel input = inr rest -> (length rest < length input)%nat.
Proof.
  revert input; induction fuel as [|fuel IH]; intros input; simpl;
    destruct (GetVarint32 input) as [[tag p]|] eqn:E; try done; zcase;
    try (intros [= <-]; shorter; fail); case_match; try done;
    destruct (GetLengthPrefixedSlice p) as [[v q]|] eqn:E2; try done.
  intros Hs%IH. shorter.
Qed.

Lemma skip_custom_fields_error cls fuel input s : (length input <= fuel)%nat ->
  skip_custom_fields cls fuel input = inl s -> exists msg, s = Corruption msg.
Proof.
  revert input; induction fuel as [|fuel IH]; intros input Hf; simpl;
    destruct (GetVarint32 input) as [[tag p]|] eqn:E; try (intros [= <-]; by eexists);
    zcase; try done; case_match; try (intros [= <-]; by eexists);
    destruct (GetLengthPrefixedSlice p) as [[v q]|] eqn:E2; try (intros [= <-]; by eexists).
  - shorter.
  - apply IH. shorter.
Qed.

Definition BlobFileAddition_wf (b : BlobFileAddition) : Prop :=
  is_u64 (blob_file_number_ b) /\ is_u64 (total_blob_count_ b) /\ is_u64 (total_blob_bytes_ b) /\
  is_u32 (slen (checksum_method_ b)) /\ is_u32 (slen (checksum_value_ b)).

Definition BlobFileGarbage_wf (g : BlobFileGarbage) : Prop :=
  is_u64 (garbage_file_number_ g) /\ is_u64 (garbage_blob_count_ g) /\ is_u64 (garbage_blob_bytes_ g).

#[export] Instance BlobFileAddition_part : ManifestPart BlobFileAddition.
Proof.
  refine {| part_encode := BlobFileAddition_EncodeTo; part_decode := BlobFileAddition_DecodeFrom;
            part_wf := BlobFileAddition_wf |}.
  - intros dst t. unfold BlobFileAddition_EncodeTo, PutLengthPrefixedSlice, PutVarint64, PutVarint32.
    by rewrite <- !app_assoc.
  - intros [n c b m v] rest (? & ? & ? & ? & ?).
    unfold BlobFileAddition_DecodeFrom, BlobFileAddition_EncodeTo, PutVarint64, PutVarint32;
      cbn [blob_file_number_ total_blob_count_ total_blob_bytes_ checksum_method_ checksum_value_] in *.
    rewrite (PutLengthPrefixedSlice_app (PutLengthPrefixedSlice _ _)), (PutLengthPrefixedSlice_app (_ ++ _)).
    rewrite <- !app_assoc, app_nil_l.
    do 3 rewrite GetVarint64_Encode by done.
    do 2 rewrite GetLengthPrefixedSlice_Put by done. by rewrite skip_custom_fields_end.
  - intros input t rest. unfold BlobFileAddition_DecodeFrom. repeat case_match; try done.
    intros [= _ <-]. simplify_eq.
    match goal with H : skip_custom_fields _ _ _ = _ |- _ => apply skip_custom_fields_shorter in H end.
    shorter.
  - intros input t rest. unfold BlobFileAddition_DecodeFrom. repeat case_match; try done.
    intros [= <- _]. simplify_eq. unfold BlobFileAddition_wf; cbn.
    repeat match goal with
    | H : GetVarint64 _ = Some _ |- _ => apply GetVarint64_safe in H as [? _]
    | H : GetLengthPrefixedSlice _ = Some _ |- _ => apply GetLengthPrefixedSlice_safe in H as [? _]
    end. tauto.
  - intros input s. unfold BlobFileAddition_DecodeFrom.
    repeat case_match; try (intros [= <-]; by eexists); try done.
    intros [= <-]. by eapply skip_custom_fields_error.
Defined.

#[export] Instance BlobFileGarbage_part : ManifestPart BlobFileGarbage.
Proof.
  refine {| part_encode := BlobFileGarbage_EncodeTo; part_decode := BlobFileGarbage_DecodeFrom;
            part_wf := BlobFileGarbage_wf |}.
  - intros dst t. unfold BlobFileGarbage_EncodeTo, PutVarint64, PutVarint32. by rewrite <- !app_assoc.
  - intros [n c b] rest (? & ? & ?).
    unfold BlobFileGarbage_DecodeFrom, BlobFileGarbage_EncodeTo, PutVarint64, PutVarint32;
      cbn [garbage_file_number_ garbage_blob_count_ garbage_blob_bytes_] in *.
    rewrite <- !app_assoc, app_nil_l.
    do 3 rewrite GetVarint64_Encode by done. by rewrite skip_custom_fields_end.
  - intros input t rest. unfold BlobFileGarbage_DecodeFrom. repeat case_match; try done.
    intros [= _ <-]. simplify_eq.
    match goal with H : skip_custom_fields _ _ _ = _ |- _ => apply skip_custom_fields_shorter in H end.
    shorter.
  - intros input t rest. unfold BlobFileGarbage_DecodeFrom. repeat case_match; try done.
    intros [= <- _]. simplify_eq. unfold BlobFileGarbage_wf; cbn.
    repeat match goal with
    | H : GetVarint64 _ = Some _ |- _ => apply GetVarint64_safe in H as [? _]
    | H : GetLengthPrefixedSlice _ = Some _ |- _ => apply GetLengthPrefixedSlice_safe in H as [? _]
    end. tauto.
  - intros input s. unfold BlobFileGarbage_DecodeFrom.
    repeat case_match; try (intros [= <-]; by eexists); try done.
    intros [= <-]. by eapply skip_custom_fields_error.
Defined.
