(* ===== verification/VersionEdit.v ===== *)
(** Version edits (db/version_edit.h, db/version_edit.cc): the records of the
    manifest. [VersionEdit] is the object with its flags, [EncodeTo] and
    [DecodeFrom] its persisted form; [FileMetaData] describes one table file.
    The code is modelled as compiled with [NDEBUG]: assertions are not
    executed. Temporaries that every use overwrites before it reads them (the
    [level], [str], [key] and [f] of [DecodeFrom]) are local to the step that
    uses them. *)

From S2P Require Import Prelude Records StdMap Coding DbFormat WalEdit BlobIndex BlobEdit.

(** ** Tags *)

Module Tag.

Definition kComparator : Z := 1.
Definition kLogNumber : Z := 2.
Definition kNextFileNumber : Z := 3.
Definition kLastSequence : Z := 4.
Definition kCompactCursor : Z := 5.
Definition kDeletedFile : Z := 6.
Definition kNewFile : Z := 7.
Definition kPrevLogNumber : Z := 9.
Definition kMinLogNumberToKeep : Z := 10.
Definition kNewFile2 : Z := 100.
Definition kNewFile3 : Z := 102.
Definition kNewFile4 : Z := 103.
Definition kColumnFamily : Z := 200.
Definition kColumnFamilyAdd : Z := 201.
Definition kColumnFamilyDrop : Z := 202.
Definition kMaxColumnFamily : Z := 203.
Definition kInAtomicGroup : Z := 300.
Definition kBlobFileAddition : Z := 400.
Definition kBlobFileGarbage : Z := 401.
Definition kTagSafeIgnoreMask : Z := Z.shiftl 1 13.
Definition kDbId : Z := kTagSafeIgnoreMask + 1.
Definition kBlobFileAddition_DEPRECATED : Z := kTagSafeIgnoreMask + 2.
Definition kBlobFileGarbage_DEPRECATED : Z := kTagSafeIgnoreMask + 3.
Definition kWalAddition : Z := kTagSafeIgnoreMask + 4.
Definition kWalDeletion : Z := kTagSafeIgnoreMask + 5.
Definition kFullHistoryTsLow : Z := kTagSafeIgnoreMask + 6.
Definition kWalAddition2 : Z := kTagSafeIgnoreMask + 7.
Definition kWalDeletion2 : Z := kTagSafeIgnoreMask + 8.
Definition kPersistUserDefinedTimestamps : Z := kTagSafeIgnoreMask + 9.

End Tag.

Module NewFileCustomTag.

Definition kTerminate : Z := 1.
Definition kNeedCompaction : Z := 2.
Definition kMinLogNumberToKeepHack : Z := 3.
Definition kOldestBlobFileNumber : Z := 4.
Definition kOldestAncesterTime : Z := 5.
Definition kFileCreationTime : Z := 6.
Definition kFileChecksum : Z := 7.
Definition kFileChecksumFuncName : Z := 8.
Definition kTemperature : Z := 9.
Definition kMinTimestamp : Z := 10.
Definition kMaxTimestamp : Z := 11.
Definition kUniqueId : Z := 12.
Definition kEpochNumber : Z := 13.
Definition kCompensatedRangeDeletionSize : Z := 14.
Definition kTailSize : Z := 15.
Definition kUserDefinedTimestampsPersisted : Z := 16.
Definition kCustomTagNonSafeIgnoreMask : Z := Z.shiftl 1 6.
Definition kPathId : Z := kCustomTagNonSafeIgnoreMask + 1.

End NewFileCustomTag.

(** ** Files *)

Definition kFileNumberMask : Z := 0x3FFFFFFFFFFFFFFF.
Definition kUnknownOldestAncesterTime : Z := 0.
Definition kUnknownFileCreationTime : Z := 0.
Definition kUnknownEpochNumber : Z := 0.

Definition PackFileNumberAndPathId (number path_id : Z) : Z :=
  Z.lor number (u64 (path_id * u64 (kFileNumberMask + 1))).

(** [table_reader] is the identity of a reader, if one is open. *)
Record FileDescriptor := {
  table_reader : option Z;
  packed_number_and_path_id : Z;
  file_size : Z;
  smallest_seqno : Z;
  largest_seqno : Z
}.

(** The constructor with the five arguments, and the one with three. *)
Definition mkFileDescriptor (number path_id size smallest largest : Z) : FileDescriptor :=
  {| table_reader := None; packed_number_and_path_id := PackFileNumberAndPathId number path_id;
     file_size := size; smallest_seqno := smallest; largest_seqno := largest |}.

Definition mkFileDescriptor3 (number path_id size : Z) : FileDescriptor :=
  mkFileDescriptor number path_id size kMaxSequenceNumber 0.

Definition GetNumber (fd : FileDescriptor) : Z :=
  Z.land (packed_number_and_path_id fd) kFileNumberMask.

Definition GetPathId (fd : FileDescriptor) : Z :=
  u32 (packed_number_and_path_id fd / (kFileNumberMask + 1)).

(** [Temperature] (include/rocksdb/advanced_options.h), a [uint8_t]. *)
Definition Temperature_kUnknown : Z := 0.
Definition Temperature_kCold : Z := 12.

(** [UniqueId64x2] and its null value. *)
Definition kNullUniqueId64x2 : Z * Z := (0, 0).

Definition kUnknownFileChecksum : bytes := [].
Definition kUnknownFileChecksumFuncName : bytes := String.list_byte_of_string "Unknown".

(** [table_reader_handle] is the identity of a cache handle and
    [num_reads_sampled] the counter of [stats]. *)
Record FileMetaData := {
  fd : FileDescriptor;
  smallest : bytes;
  largest : bytes;
  table_reader_handle : option Z;
  num_reads_sampled : Z;
  compensated_file_size : Z;
  num_entries : Z;
  num_deletions : Z;
  raw_key_size : Z;
  raw_value_size : Z;
  num_range_deletions : Z;
  compensated_range_deletion_size : Z;
  file_refs : Z;
  being_compacted : bool;
  init_stats_from_file : bool;
  marked_for_compaction : bool;
  temperature : Z;
  oldest_blob_file_number : Z;
  oldest_ancester_time : Z;
  file_creation_time : Z;
  epoch_number : Z;
  file_checksum : bytes;
  file_checksum_func_name : bytes;
  unique_id : Z * Z;
  tail_size : Z;
  user_defined_timestamps_persisted : bool
}.

#[export] Instance FileMetaData_Settable : Settable FileMetaData :=
  fun r => Build_FileMetaData
    (fd r) (smallest r) (largest r) (table_reader_handle r) (num_reads_sampled r)
    (compensated_file_size r) (num_entries r) (num_deletions r) (raw_key_size r) (raw_value_size
    r) (num_range_deletions r) (compensated_range_deletion_size r) (file_refs r)
    (being_compacted r) (init_stats_from_file r) (marked_for_compaction r) (temperature r)
    (oldest_blob_file_number r) (oldest_ancester_time r) (file_creation_time r) (epoch_number r)
    (file_checksum r) (file_checksum_func_name r) (unique_id r) (tail_size r)
    (user_defined_timestamps_persisted r).

(** [FileMetaData()]. *)
Definition FileMetaData_default : FileMetaData := {|
  fd := mkFileDescriptor3 0 0 0; smallest := []; largest := []; table_reader_handle := None;
  num_reads_sampled := 0; compensated_file_size := 0; num_entries := 0; num_deletions := 0;
  raw_key_size := 0; raw_value_size := 0; num_range_deletions := 0;
  compensated_range_deletion_size := 0; file_refs := 0; being_compacted := false;
  init_stats_from_file := false; marked_for_compaction := false;
  temperature := Temperature_kUnknown; oldest_blob_file_number := kInvalidBlobFileNumber;
  oldest_ancester_time := kUnknownOldestAncesterTime;
  file_creation_time := kUnknownFileCreationTime; epoch_number := kUnknownEpochNumber;
  file_checksum := kUnknownFileChecksum; file_checksum_func_name := kUnknownFileChecksumFuncName;
  unique_id := kNullUniqueId64x2; tail_size := 0; user_defined_timestamps_persisted := true |}.

(** The constructor with all persisted fields. *)
Definition mkFileMetaData (file file_path_id size : Z) (smallest_key largest_key : bytes)
    (smallest_seq largest_seq : Z) (marked_for_compact : bool)
    (temp oldest_blob_file oldest_time creation_time epoch : Z)
    (checksum checksum_func_name : bytes) (id : Z * Z) (range_deletion_size tail : Z)
    (udt_persisted : bool) : FileMetaData :=
  FileMetaData_default
    <| fd := mkFileDescriptor file file_path_id size smallest_seq largest_seq |>
    <| smallest := smallest_key |> <| largest := largest_key |>
    <| compensated_range_deletion_size := range_deletion_size |>
    <| marked_for_compaction := marked_for_compact |> <| temperature := temp |>
    <| oldest_blob_file_number := oldest_blob_file |> <| oldest_ancester_time := oldest_time |>
    <| file_creation_time := creation_time |> <| epoch_number := epoch |>
    <| file_checksum := checksum |> <| file_checksum_func_name := checksum_func_name |>
    <| unique_id := id |> <| tail_size := tail |>
    <| user_defined_timestamps_persisted := udt_persisted |>.

(** [UpdateBoundaries]: the status and the metadata after an entry was added. *)
Definition UpdateBoundaries (f : FileMetaData) (key value : bytes) (seqno value_type : Z)
    : Status * FileMetaData :=
  let extend f :=
    let f := if slen (smallest f) =? 0 then f <| smallest := InternalKey.DecodeFrom key |> else f in
    let f := f <| largest := InternalKey.DecodeFrom key |> in
    (OK, f <| fd ::= fun d => {| table_reader := table_reader d;
                                 packed_number_and_path_id := packed_number_and_path_id d;
                                 file_size := file_size d;
                                 smallest_seqno := Z.min (smallest_seqno d) seqno;
                                 largest_seqno := Z.max (largest_seqno d) seqno |} |>) in
  if value_type =? kTypeBlobIndex then
    let '(s, blob_index) := BlobIndex_DecodeFrom BlobIndex_new value in
    if negb (ok s) then (s, f)
    else if negb (IsInlined blob_index) && negb (HasTTL blob_index) then
      if bi_file_number_ blob_index =? kInvalidBlobFileNumber
      then (Corruption "Invalid blob file number", f)
      else extend (if (oldest_blob_file_number f =? kInvalidBlobFileNumber)
                      || (bi_file_number_ blob_index <? oldest_blob_file_number f)
                   then f <| oldest_blob_file_number := bi_file_number_ blob_index |> else f)
    else extend f
  else extend f.

(** [UpdateBoundariesForRange]. *)
Definition UpdateBoundariesForRange (icmp_compare : bytes -> bytes -> Z) (f : FileMetaData)
    (start limit : bytes) (seqno : Z) : FileMetaData :=
  let f := if (slen (smallest f) =? 0) || (icmp_compare start (smallest f) <? 0)
           then f <| smallest := start |> else f in
  let f := if (slen (largest f) =? 0) || (icmp_compare (largest f) limit <? 0)
           then f <| largest := limit |> else f in
  f <| fd ::= fun d => {| table_reader := table_reader d;
                          packed_number_and_path_id := packed_number_and_path_id d;
                          file_size := file_size d;
                          smallest_seqno := Z.min (smallest_seqno d) seqno;
                          largest_seqno := Z.max (largest_seqno d) seqno |} |>.

(** [EncodeUniqueIdBytes], [DecodeUniqueIdBytes] (table/unique_id.cc) on a
    [UniqueId64x2], which is not extended. *)
Definition EncodeUniqueIdBytes (id : Z * Z) : bytes := EncodeFixed64 id.1 ++ EncodeFixed64 id.2.

Definition DecodeUniqueIdBytes (unique_id : bytes) : Status + (Z * Z) :=
  if negb (slen unique_id =? 16) then inl (NotSupported "Not a valid unique_id")
  else inr (DecodeFixed64 unique_id, DecodeFixed64 (sdrop 8 unique_id)).

(** ** VersionEdit *)

(** [std::pair<int, uint64_t>] in the order of [std::set]. *)
Definition level_file_lt (a b : Z * Z) : bool :=
  (a.1 <? b.1) || ((a.1 =? b.1) && (a.2 <? b.2)).

Record VersionEdit := {
  max_level_ : Z;
  db_id_ : bytes;
  comparator_ : bytes;
  log_number_ : Z;
  prev_log_number_ : Z;
  next_file_number_ : Z;
  max_column_family_ : Z;
  min_log_number_to_keep_ : Z;
  last_sequence_ : Z;
  has_db_id_ : bool;
  has_comparator_ : bool;
  has_log_number_ : bool;
  has_prev_log_number_ : bool;
  has_next_file_number_ : bool;
  has_max_column_family_ : bool;
  has_min_log_number_to_keep_ : bool;
  has_last_sequence_ : bool;
  has_persist_user_defined_timestamps_ : bool;
  compact_cursors_ : list (Z * bytes);
  deleted_files_ : list (Z * Z);               (* std::set<std::pair<int, uint64_t>> *)
  new_files_ : list (Z * FileMetaData);
  blob_file_additions_ : list BlobFileAddition;
  blob_file_garbages_ : list BlobFileGarbage;
  wal_additions_ : list WalAddition;
  wal_deletion_ : WalDeletion;
  column_family_ : Z;
  is_column_family_drop_ : bool;
  is_column_family_add_ : bool;
  column_family_name_ : bytes;
  is_in_atomic_group_ : bool;
  remaining_entries_ : Z;
  full_history_ts_low_ : bytes;
  persist_user_defined_timestamps_ : bool;
  files_to_quarantine_ : list Z
}.

#[export] Instance VersionEdit_Settable : Settable VersionEdit :=
  fun r => Build_VersionEdit
    (max_level_ r) (db_id_ r) (comparator_ r) (log_number_ r) (prev_log_number_ r)
    (next_file_number_ r) (max_column_family_ r) (min_log_number_to_keep_ r) (last_sequence_ r)
    (has_db_id_ r) (has_comparator_ r) (has_log_number_ r) (has_prev_log_number_ r)
    (has_next_file_number_ r) (has_max_column_family_ r) (has_min_log_number_to_keep_ r)
    (has_last_sequence_ r) (has_persist_user_defined_timestamps_ r) (compact_cursors_ r)
    (deleted_files_ r) (new_files_ r) (blob_file_additions_ r) (blob_file_garbages_ r)
    (wal_additions_ r) (wal_deletion_ r) (column_family_ r) (is_column_family_drop_ r)
    (is_column_family_add_ r) (column_family_name_ r) (is_in_atomic_group_ r)
    (remaining_entries_ r) (full_history_ts_low_ r) (persist_user_defined_timestamps_ r)
    (files_to_quarantine_ r).

(** [VersionEdit()]. *)
Definition VersionEdit_new : VersionEdit := {|
  max_level_ := 0; db_id_ := []; comparator_ := []; log_number_ := 0; prev_log_number_ := 0;
  next_file_number_ := 0; max_column_family_ := 0; min_log_number_to_keep_ := 0;
  last_sequence_ := 0; has_db_id_ := false; has_comparator_ := false; has_log_number_ := false;
  has_prev_log_number_ := false; has_next_file_number_ := false; has_max_column_family_ := false;
  has_min_log_number_to_keep_ := false; has_last_sequence_ := false;
  has_persist_user_defined_timestamps_ := false; compact_cursors_ := []; deleted_files_ := [];
  new_files_ := []; blob_file_additions_ := []; blob_file_garbages_ := []; wal_additions_ := [];
  wal_deletion_ := WalDeletion_default; column_family_ := 0; is_column_family_drop_ := false;
  is_column_family_add_ := false; column_family_name_ := []; is_in_atomic_group_ := false;
  remaining_entries_ := 0; full_history_ts_low_ := []; persist_user_defined_timestamps_ := true;
  files_to_quarantine_ := [] |}.

(** [VersionEdit::Clear] gives every field the value the constructor gives it,
    except the two fields of the timestamp flag and the list of files to
    quarantine, which it does not touch. *)
Definition VersionEdit_Clear (e : VersionEdit) : VersionEdit :=
  VersionEdit_new
    <| has_persist_user_defined_timestamps_ := has_persist_user_defined_timestamps_ e |>
    <| persist_user_defined_timestamps_ := persist_user_defined_timestamps_ e |>
    <| files_to_quarantine_ := files_to_quarantine_ e |>.

(** *** Setters *)

Definition SetDBId (e : VersionEdit) (db_id : bytes) : VersionEdit :=
  e <| has_db_id_ := true |> <| db_id_ := db_id |>.
Definition SetComparatorName (e : VersionEdit) (name : bytes) : VersionEdit :=
  e <| has_comparator_ := true |> <| comparator_ := name |>.
Definition SetPersistUserDefinedTimestamps (e : VersionEdit) (b : bool) : VersionEdit :=
  e <| has_persist_user_defined_timestamps_ := true |> <| persist_user_defined_timestamps_ := b |>.
Definition SetLogNumber (e : VersionEdit) (num : Z) : VersionEdit :=
  e <| has_log_number_ := true |> <| log_number_ := num |>.
Definition SetPrevLogNumber (e : VersionEdit) (num : Z) : VersionEdit :=
  e <| has_prev_log_number_ := true |> <| prev_log_number_ := num |>.
Definition SetNextFile (e : VersionEdit) (num : Z) : VersionEdit :=
  e <| has_next_file_number_ := true |> <| next_file_number_ := num |>.
Definition SetMaxColumnFamily (e : VersionEdit) (max_column_family : Z) : VersionEdit :=
  e <| has_max_column_family_ := true |> <| max_column_family_ := max_column_family |>.
Definition SetMinLogNumberToKeep (e : VersionEdit) (num : Z) : VersionEdit :=
  e <| has_min_log_number_to_keep_ := true |> <| min_log_number_to_keep_ := num |>.
Definition SetLastSequence (e : VersionEdit) (seq : Z) : VersionEdit :=
  e <| has_last_sequence_ := true |> <| last_sequence_ := seq |>.
Definition DeleteFile (e : VersionEdit) (level file : Z) : VersionEdit :=
  e <| deleted_files_ ::= set_insert level_file_lt (level, file) |>.

(** [AddFile(int, const FileMetaData&)]; the overload with the fields builds
    the metadata with [mkFileMetaData]. *)
Definition AddFile (e : VersionEdit) (level : Z) (f : FileMetaData) : VersionEdit :=
  let e := e <| new_files_ ::= fun l => l ++ [(level, f)] |>
             <| files_to_quarantine_ ::= fun l => l ++ [GetNumber (fd f)] |> in
  if negb (has_last_sequence_ e) || (last_sequence_ e <? largest_seqno (fd f))
  then SetLastSequence e (largest_seqno (fd f)) else e.

Definition AddCompactCursor (e : VersionEdit) (level : Z) (cursor : bytes) : VersionEdit :=
  e <| compact_cursors_ ::= fun l => l ++ [(level, cursor)] |>.
Definition SetCompactCursors (e : VersionEdit) (by_level : list bytes) : VersionEdit :=
  e <| compact_cursors_ := filter (fun p => InternalKey.Valid p.2)
         (imap (fun i key => (Z.of_nat i, key)) by_level) |>.
Definition AddBlobFile (e : VersionEdit) (b : BlobFileAddition) : VersionEdit :=
  e <| blob_file_additions_ ::= fun l => l ++ [b] |>
    <| files_to_quarantine_ ::= fun l => l ++ [blob_file_number_ b] |>.
Definition SetBlobFileAdditions (e : VersionEdit) (bs : list BlobFileAddition) : VersionEdit :=
  e <| blob_file_additions_ := bs |>
    <| files_to_quarantine_ ::= fun l => l ++ map blob_file_number_ bs |>.
Definition AddBlobFileGarbage (e : VersionEdit) (g : BlobFileGarbage) : VersionEdit :=
  e <| blob_file_garbages_ ::= fun l => l ++ [g] |>.
Definition SetBlobFileGarbages (e : VersionEdit) (gs : list BlobFileGarbage) : VersionEdit :=
  e <| blob_file_garbages_ := gs |>.
Definition VersionEdit_AddWal (e : VersionEdit) (number : Z) (metadata : WalMetadata) : VersionEdit :=
  e <| wal_additions_ ::= fun l => l ++ [{| wa_number_ := number; wa_metadata_ := metadata |}] |>.
Definition VersionEdit_DeleteWalsBefore (e : VersionEdit) (number : Z) : VersionEdit :=
  e <| wal_deletion_ := {| wd_number_ := number |} |>.
Definition SetColumnFamily (e : VersionEdit) (id : Z) : VersionEdit := e <| column_family_ := id |>.
Definition AddColumnFamily (e : VersionEdit) (name : bytes) : VersionEdit :=
  e <| is_column_family_add_ := true |> <| column_family_name_ := name |>.
Definition DropColumnFamily (e : VersionEdit) : VersionEdit := e <| is_column_family_drop_ := true |>.
Definition MarkAtomicGroup (e : VersionEdit) (remaining_entries : Z) : VersionEdit :=
  e <| is_in_atomic_group_ := true |> <| remaining_entries_ := remaining_entries |>.
Definition SetRemainingEntries (e : VersionEdit) (remaining_entries : Z) : VersionEdit :=
  e <| remaining_entries_ := remaining_entries |>.
Definition SetFullHistoryTsLow (e : VersionEdit) (ts : bytes) : VersionEdit :=
  e <| full_history_ts_low_ := ts |>.

(** *** Queries *)

Definition NumEntries (e : VersionEdit) : Z :=
  slen (new_files_ e) + slen (deleted_files_ e) + slen (blob_file_additions_ e) +
  slen (blob_file_garbages_ e) + slen (wal_additions_ e) +
  (if WalDeletion_IsEmpty (wal_deletion_ e) then 0 else 1).
Definition IsWalAddition (e : VersionEdit) : bool := negb (slen (wal_additions_ e) =? 0).
Definition IsWalDeletion (e : VersionEdit) : bool := negb (WalDeletion_IsEmpty (wal_deletion_ e)).
Definition IsWalManipulation (e : VersionEdit) : bool :=
  let entries := NumEntries e in
  (0 <? entries) &&
  ((entries =? slen (wal_additions_ e)) ||
   (entries =? (if WalDeletion_IsEmpty (wal_deletion_ e) then 0 else 1))).
Definition IsColumnFamilyManipulation (e : VersionEdit) : bool :=
  is_column_family_add_ e || is_column_family_drop_ e.
Definition HasFullHistoryTsLow (e : VersionEdit) : bool := negb (slen (full_history_ts_low_ e) =? 0).

(** ** EncodeTo *)

(** One custom field of a new file: its tag and its length-prefixed bytes. *)
Definition PutCustomField (dst : bytes) (tag : Z) (field : bytes) : bytes :=
  PutLengthPrefixedSlice (PutVarint32 dst tag) field.

(** A custom field written under a condition. *)
Definition PutCustomFieldIf (b : bool) (dst : bytes) (tag : Z) (field : bytes) : bytes :=
  if b then PutCustomField dst tag field else dst.

Definition EncodeFileBoundaries (dst : bytes) (meta : FileMetaData) (ts_sz : Z) : bytes :=
  if (ts_sz =? 0) || user_defined_timestamps_persisted meta then
    PutLengthPrefixedSlice (PutLengthPrefixedSlice dst (smallest meta)) (largest meta)
  else
    PutLengthPrefixedSlice
      (PutLengthPrefixedSlice dst (StripTimestampFromInternalKey [] (smallest meta) ts_sz))
      (StripTimestampFromInternalKey [] (largest meta) ts_sz).

(** The customized fields of a new file; [min_log] is the value of the
    kMinLogNumberToKeep hack, when this file carries it. *)
Definition EncodeCustomFields (dst : bytes) (f : FileMetaData) (min_log : option Z) : bytes :=
  let dst := PutCustomField dst NewFileCustomTag.kOldestAncesterTime
               (PutVarint64 [] (oldest_ancester_time f)) in
  let dst := PutCustomField dst NewFileCustomTag.kFileCreationTime
               (PutVarint64 [] (file_creation_time f)) in
  let dst := PutCustomField dst NewFileCustomTag.kEpochNumber (PutVarint64 [] (epoch_number f)) in
  let dst := PutCustomField dst NewFileCustomTag.kFileChecksum (file_checksum f) in
  let dst := PutCustomField dst NewFileCustomTag.kFileChecksumFuncName (file_checksum_func_name f) in
  let dst := PutCustomFieldIf (negb (GetPathId (fd f) =? 0)) dst NewFileCustomTag.kPathId
               [to_byte (GetPathId (fd f))] in
  let dst := PutCustomFieldIf (negb (temperature f =? Temperature_kUnknown)) dst
               NewFileCustomTag.kTemperature [to_byte (temperature f)] in
  let dst := PutCustomFieldIf (marked_for_compaction f) dst NewFileCustomTag.kNeedCompaction
               [to_byte 1] in
  let dst := match min_log with
             | Some n => PutCustomField dst NewFileCustomTag.kMinLogNumberToKeepHack (PutFixed64 [] n)
             | None => dst
             end in
  let dst := PutCustomFieldIf (negb (oldest_blob_file_number f =? kInvalidBlobFileNumber)) dst
               NewFileCustomTag.kOldestBlobFileNumber
               (PutVarint64 [] (oldest_blob_file_number f)) in
  let dst := PutCustomFieldIf (negb (bool_decide (unique_id f = kNullUniqueId64x2))) dst
               NewFileCustomTag.kUniqueId (EncodeUniqueIdBytes (unique_id f)) in
  let dst := PutCustomFieldIf (negb (compensated_range_deletion_size f =? 0)) dst
               NewFileCustomTag.kCompensatedRangeDeletionSize
               (PutVarint64 [] (compensated_range_deletion_size f)) in
  let dst := PutCustomFieldIf (negb (tail_size f =? 0)) dst NewFileCustomTag.kTailSize
               (PutVarint64 [] (tail_size f)) in
  PutCustomFieldIf (negb (user_defined_timestamps_persisted f)) dst
    NewFileCustomTag.kUserDefinedTimestampsPersisted [to_byte 0].

(** The body of the loop over [new_files_] for one file that is written. *)
Definition EncodeNewFile4 (dst : bytes) (level : Z) (f : FileMetaData) (ts_sz : Z)
    (min_log : option Z) : bytes :=
  let dst := PutVarint32 dst Tag.kNewFile4 in
  let dst := PutVarint32Varint64 dst (u32 level) (GetNumber (fd f)) in
  let dst := PutVarint64 dst (file_size (fd f)) in
  let dst := EncodeFileBoundaries dst f ts_sz in
  let dst := PutVarint64Varint64 dst (smallest_seqno (fd f)) (largest_seqno (fd f)) in
  let dst := EncodeCustomFields dst f min_log in
  PutVarint32 dst NewFileCustomTag.kTerminate.

(** How [EncodeTo] ends: with its result, or with the exception of
    [ts_sz.value()] when no timestamp size was given. *)
Inductive EncodeResult :=
| Encoded (result : bool) (dst : bytes)
| BadOptionalAccess.

(** The loop over [new_files_]; [pending_min_log] is the hack's value as long
    as no file has written it. *)
Fixpoint EncodeNewFiles (dst : bytes) (files : list (Z * FileMetaData)) (ts_sz : option Z)
    (pending_min_log : option Z) : EncodeResult :=
  match files with
  | [] => Encoded true dst
  | (level, f) :: files' =>
      if negb (InternalKey.Valid (smallest f)) || negb (InternalKey.Valid (largest f))
         || (epoch_number f =? kUnknownEpochNumber)
      then Encoded false dst
      else match ts_sz with
           | None => BadOptionalAccess
           | Some sz => EncodeNewFiles (EncodeNewFile4 dst level f sz pending_min_log) files' ts_sz None
           end
  end.

Definition EncodeCompactCursor (dst : bytes) (c : Z * bytes) : bytes :=
  if InternalKey.Valid c.2
  then PutLengthPrefixedSlice (PutVarint32 (PutVarint32 dst Tag.kCompactCursor) (u32 c.1)) c.2
  else dst.

Definition EncodeDeletedFile (dst : bytes) (d : Z * Z) : bytes :=
  PutVarint32Varint32Varint64 dst Tag.kDeletedFile (u32 d.1) d.2.

(** The fields before the new files. *)
Definition EncodeHead (e : VersionEdit) (dst : bytes) : bytes :=
  let dst := if has_db_id_ e then PutLengthPrefixedSlice (PutVarint32 dst Tag.kDbId) (db_id_ e) else dst in
  let dst := if has_comparator_ e
             then PutLengthPrefixedSlice (PutVarint32 dst Tag.kComparator) (comparator_ e) else dst in
  let dst := if has_log_number_ e then PutVarint32Varint64 dst Tag.kLogNumber (log_number_ e) else dst in
  let dst := if has_prev_log_number_ e
             then PutVarint32Varint64 dst Tag.kPrevLogNumber (prev_log_number_ e) else dst in
  let dst := if has_next_file_number_ e
             then PutVarint32Varint64 dst Tag.kNextFileNumber (next_file_number_ e) else dst in
  let dst := if has_max_column_family_ e
             then PutVarint32Varint32 dst Tag.kMaxColumnFamily (max_column_family_ e) else dst in
  let dst := if has_min_log_number_to_keep_ e
             then PutVarint32Varint64 dst Tag.kMinLogNumberToKeep (min_log_number_to_keep_ e) else dst in
  let dst := if has_last_sequence_ e
             then PutVarint32Varint64 dst Tag.kLastSequence (last_sequence_ e) else dst in
  let dst := fold_left EncodeCompactCursor (compact_cursors_ e) dst in
  fold_left EncodeDeletedFile (deleted_files_ e) dst.

Definition EncodeBlobFileAddition (dst : bytes) (b : BlobFileAddition) : bytes :=
  BlobFileAddition_EncodeTo (PutVarint32 dst Tag.kBlobFileAddition) b.

Definition EncodeBlobFileGarbage (dst : bytes) (g : BlobFileGarbage) : bytes :=
  BlobFileGarbage_EncodeTo (PutVarint32 dst Tag.kBlobFileGarbage) g.

Definition EncodeWalAddition (dst : bytes) (w : WalAddition) : bytes :=
  PutLengthPrefixedSlice (PutVarint32 dst Tag.kWalAddition2) (WalAddition_EncodeTo [] w).

(** The fields after the new files. *)
Definition EncodeTail (e : VersionEdit) (dst : bytes) : bytes :=
  let dst := fold_left EncodeBlobFileAddition (blob_file_additions_ e) dst in
  let dst := fold_left EncodeBlobFileGarbage (blob_file_garbages_ e) dst in
  let dst := fold_left EncodeWalAddition (wal_additions_ e) dst in
  let dst := if negb (WalDeletion_IsEmpty (wal_deletion_ e))
             then PutLengthPrefixedSlice (PutVarint32 dst Tag.kWalDeletion2)
                    (WalDeletion_EncodeTo [] (wal_deletion_ e)) else dst in
  let dst := if negb (column_family_ e =? 0)
             then PutVarint32Varint32 dst Tag.kColumnFamily (column_family_ e) else dst in
  let dst := if is_column_family_add_ e
             then PutLengthPrefixedSlice (PutVarint32 dst Tag.kColumnFamilyAdd) (column_family_name_ e)
             else dst in
  let dst := if is_column_family_drop_ e then PutVarint32 dst Tag.kColumnFamilyDrop else dst in
  let dst := if is_in_atomic_group_ e
             then PutVarint32 (PutVarint32 dst Tag.kInAtomicGroup) (remaining_entries_ e) else dst in
  let dst := if HasFullHistoryTsLow e
             then PutLengthPrefixedSlice (PutVarint32 dst Tag.kFullHistoryTsLow) (full_history_ts_low_ e)
             else dst in
  if has_persist_user_defined_timestamps_ e
  then PutLengthPrefixedSlice (PutVarint32 dst Tag.kPersistUserDefinedTimestamps)
         [to_byte (if persist_user_defined_timestamps_ e then 1 else 0)]
  else dst.

Definition VersionEdit_EncodeTo (e : VersionEdit) (dst : bytes) (ts_sz : option Z) : EncodeResult :=
  match EncodeNewFiles (EncodeHead e dst) (new_files_ e) ts_sz
          (if has_min_log_number_to_keep_ e then Some (min_log_number_to_keep_ e) else None) with
  | Encoded true dst => Encoded true (EncodeTail e dst)
  | r => r
  end.

(** ** DecodeFrom *)

Definition VersionEdit_GetInternalKey (input : bytes) : option (bytes * bytes) :=
  match GetLengthPrefixedSlice input with
  | Some (str, input) =>
      let key := InternalKey.DecodeFrom str in
      if InternalKey.Valid key then Some (key, input) else None
  | None => None
  end.

(** [GetLevel]: the level is an [int] made of an [uint32_t], and the highest
    level seen is kept in the edit. *)
Definition GetLevel (e : VersionEdit) (input : bytes) : option (Z * VersionEdit * bytes) :=
  match GetVarint32 input with
  | Some (v, input) =>
      let level := s32 v in
      Some (level, if max_level_ e <? level then e <| max_level_ := level |> else e, input)
  | None => None
  end.

(** One round of the [switch] of [DecodeNewFile4From] on a custom field: the
    message it returns, or the edit, the metadata and the path id after it. *)
Definition DecodeCustomField (e : VersionEdit) (f : FileMetaData) (path_id tag : Z) (field : bytes)
    : string + (VersionEdit * FileMetaData * Z) :=
  if tag =? NewFileCustomTag.kPathId then
    if negb (slen field =? 1) then inl "path_id field wrong size"
    else let path_id := at_ field 0 in
         if 3 <? path_id then inl "path_id wrong vaue" else inr (e, f, path_id)
  else if tag =? NewFileCustomTag.kOldestAncesterTime then
    Try (v, _) := GetVarint64 field Else inl "invalid oldest ancester time" Then
    inr (e, f <| oldest_ancester_time := v |>, path_id)
  else if tag =? NewFileCustomTag.kFileCreationTime then
    Try (v, _) := GetVarint64 field Else inl "invalid file creation time" Then
    inr (e, f <| file_creation_time := v |>, path_id)
  else if tag =? NewFileCustomTag.kEpochNumber then
    Try (v, _) := GetVarint64 field Else inl "invalid epoch number" Then
    inr (e, f <| epoch_number := v |>, path_id)
  else if tag =? NewFileCustomTag.kFileChecksum then
    inr (e, f <| file_checksum := field |>, path_id)
  else if tag =? NewFileCustomTag.kFileChecksumFuncName then
    inr (e, f <| file_checksum_func_name := field |>, path_id)
  else if tag =? NewFileCustomTag.kNeedCompaction then
    if negb (slen field =? 1) then inl "need_compaction field wrong size"
    else inr (e, f <| marked_for_compaction := at_ field 0 =? 1 |>, path_id)
  else if tag =? NewFileCustomTag.kMinLogNumberToKeepHack then
    Try (v, _) := GetFixed64 field Else inl "deleted log number malformatted" Then
    inr (e <| min_log_number_to_keep_ := v |> <| has_min_log_number_to_keep_ := true |>, f, path_id)
  else if tag =? NewFileCustomTag.kOldestBlobFileNumber then
    Try (v, _) := GetVarint64 field Else inl "invalid oldest blob file number" Then
    inr (e, f <| oldest_blob_file_number := v |>, path_id)
  else if tag =? NewFileCustomTag.kTemperature then
    if negb (slen field =? 1) then inl "temperature field wrong size"
    else inr (e, if at_ field 0 <=? Temperature_kCold then f <| temperature := at_ field 0 |> else f,
              path_id)
  else if tag =? NewFileCustomTag.kUniqueId then
    match DecodeUniqueIdBytes field with
    | inl _ => inl "invalid unique id"
    | inr id => inr (e, f <| unique_id := id |>, path_id)
    end
  else if tag =? NewFileCustomTag.kCompensatedRangeDeletionSize then
    Try (v, _) := GetVarint64 field Else inl "Invalid compensated range deletion size" Then
    inr (e, f <| compensated_range_deletion_size := v |>, path_id)
  else if tag =? NewFileCustomTag.kTailSize then
    Try (v, _) := GetVarint64 field Else inl "invalid tail start offset" Then
    inr (e, f <| tail_size := v |>, path_id)
  else if tag =? NewFileCustomTag.kUserDefinedTimestampsPersisted then
    if negb (slen field =? 1) then inl "user-defined timestamps persisted field wrong size"
    else inr (e, f <| user_defined_timestamps_persisted := at_ field 0 =? 1 |>, path_id)
  else if negb (Z.land tag NewFileCustomTag.kCustomTagNonSafeIgnoreMask =? 0)
  then inl "new-file4 custom field not supported"
  else inr (e, f, path_id).

(** The loop over the custom fields: the edit, and the message or the metadata,
    the path id and the input after the terminating tag. A round consumes
    input, so its length is fuel enough. *)
Fixpoint DecodeCustomFields (fuel : nat) (e : VersionEdit) (f : FileMetaData) (path_id : Z)
    (input : bytes) : VersionEdit * (string + (FileMetaData * Z * bytes)) :=
  Try (custom_tag, input) := GetVarint32 input Else (e, inl "new-file4 custom field") Then
  if custom_tag =? NewFileCustomTag.kTerminate then (e, inr (f, path_id, input))
  else
    Try (field, input) := GetLengthPrefixedSlice input
      Else (e, inl "new-file4 custom field length prefixed slice error") Then
    match DecodeCustomField e f path_id custom_tag field with
    | inl msg => (e, inl msg)
    | inr (e, f, path_id) =>
        match fuel with
        | O => (e, inl "")
        | S fuel => DecodeCustomFields fuel e f path_id input
        end
    end.

(** What one round of [DecodeFrom] leaves: the loop goes on with the rest of
    the input, ends with a message, or returns a status. *)
Inductive DecodeStep :=
| Go (e : VersionEdit) (input : bytes)
| Msg (e : VersionEdit) (msg : string)
| Ret (e : VersionEdit) (s : Status).

Definition DecodeNewFile4From (e : VersionEdit) (input : bytes) : DecodeStep :=
  let bad e := Msg e "new-file4 entry" in
  Try (level, e, input) := GetLevel e input Else bad e Then
  Try (number, input) := GetVarint64 input Else bad e Then
  Try (size, input) := GetVarint64 input Else bad e Then
  Try (small, input) := VersionEdit_GetInternalKey input Else bad e Then
  Try (large, input) := VersionEdit_GetInternalKey input Else bad e Then
  Try (smallest_seq, input) := GetVarint64 input Else bad e Then
  Try (largest_seq, input) := GetVarint64 input Else bad e Then
  let f := FileMetaData_default <| smallest := small |> <| largest := large |> in
  match DecodeCustomFields (length input) e f 0 input with
  | (e, inl msg) => Msg e msg
  | (e, inr (f, path_id, input)) =>
      let f := f <| fd := mkFileDescriptor number path_id size smallest_seq largest_seq |> in
      Go (e <| new_files_ ::= fun l => l ++ [(level, f)] |>) input
  end.

(** The older records of a new file: format 1, 2 and 3. *)
Definition DecodeNewFile (e : VersionEdit) (input : bytes) : DecodeStep :=
  let bad e := Msg e "new-file entry" in
  Try (level, e, input) := GetLevel e input Else bad e Then
  Try (number, input) := GetVarint64 input Else bad e Then
  Try (size, input) := GetVarint64 input Else bad e Then
  Try (small, input) := VersionEdit_GetInternalKey input Else bad e Then
  Try (large, input) := VersionEdit_GetInternalKey input Else bad e Then
  let f := FileMetaData_default <| smallest := small |> <| largest := large |>
             <| fd := mkFileDescriptor3 number 0 size |> in
  Go (e <| new_files_ ::= fun l => l ++ [(level, f)] |>) input.

Definition DecodeNewFile2 (e : VersionEdit) (input : bytes) : DecodeStep :=
  let bad e := Msg e "new-file2 entry" in
  Try (level, e, input) := GetLevel e input Else bad e Then
  Try (number, input) := GetVarint64 input Else bad e Then
  Try (size, input) := GetVarint64 input Else bad e Then
  Try (small, input) := VersionEdit_GetInternalKey input Else bad e Then
  Try (large, input) := VersionEdit_GetInternalKey input Else bad e Then
  Try (smallest_seq, input) := GetVarint64 input Else bad e Then
  Try (largest_seq, input) := GetVarint64 input Else bad e Then
  let f := FileMetaData_default <| smallest := small |> <| largest := large |>
             <| fd := mkFileDescriptor number 0 size smallest_seq largest_seq |> in
  Go (e <| new_files_ ::= fun l => l ++ [(level, f)] |>) input.

Definition DecodeNewFile3 (e : VersionEdit) (input : bytes) : DecodeStep :=
  let bad e := Msg e "new-file3 entry" in
  Try (level, e, input) := GetLevel e input Else bad e Then
  Try (number, input) := GetVarint64 input Else bad e Then
  Try (path_id, input) := GetVarint32 input Else bad e Then
  Try (size, input) := GetVarint64 input Else bad e Then
  Try (small, input) := VersionEdit_GetInternalKey input Else bad e Then
  Try (large, input) := VersionEdit_GetInternalKey input Else bad e Then
  Try (smallest_seq, input) := GetVarint64 input Else bad e Then
  Try (largest_seq, input) := GetVarint64 input Else bad e Then
  let f := FileMetaData_default <| smallest := small |> <| largest := large |>
             <| fd := mkFileDescriptor number path_id size smallest_seq largest_seq |> in
  Go (e <| new_files_ ::= fun l => l ++ [(level, f)] |>) input.

(** A nested record, decoded from the input itself or from a length-prefixed
    part of it. *)
Definition DecodePart {T} (decode : bytes -> Decoded T) (e : VersionEdit)
    (add : VersionEdit -> T -> VersionEdit) (input : bytes) : DecodeStep :=
  match decode input with
  | inl s => Ret e s
  | inr (t, input) => Go (add e t) input
  end.

Definition DecodePrefixedPart {T} (decode : bytes -> Decoded T) (e : VersionEdit)
    (add : VersionEdit -> T -> VersionEdit) (msg : string) (input : bytes) : DecodeStep :=
  Try (encoded, input) := GetLengthPrefixedSlice input Else Msg e msg Then
  match decode encoded with
  | inl s => Ret e s
  | inr (t, _) => Go (add e t) input
  end.

Definition add_wal (e : VersionEdit) (w : WalAddition) : VersionEdit :=
  e <| wal_additions_ ::= fun l => l ++ [w] |>.
Definition set_wal_deletion (e : VersionEdit) (w : WalDeletion) : VersionEdit :=
  e <| wal_deletion_ := w |>.

(** The [switch] of [DecodeFrom] on a tag that was just read. *)
Definition DecodeTag (e : VersionEdit) (tag : Z) (input : bytes) : DecodeStep :=
  if tag =? Tag.kDbId then
    Try (str, input) := GetLengthPrefixedSlice input Else Msg e "db id" Then
    Go (e <| db_id_ := str |> <| has_db_id_ := true |>) input
  else if tag =? Tag.kComparator then
    Try (str, input) := GetLengthPrefixedSlice input Else Msg e "comparator name" Then
    Go (e <| comparator_ := str |> <| has_comparator_ := true |>) input
  else if tag =? Tag.kLogNumber then
    Try (v, input) := GetVarint64 input Else Msg e "log number" Then
    Go (e <| log_number_ := v |> <| has_log_number_ := true |>) input
  else if tag =? Tag.kPrevLogNumber then
    Try (v, input) := GetVarint64 input Else Msg e "previous log number" Then
    Go (e <| prev_log_number_ := v |> <| has_prev_log_number_ := true |>) input
  else if tag =? Tag.kNextFileNumber then
    Try (v, input) := GetVarint64 input Else Msg e "next file number" Then
    Go (e <| next_file_number_ := v |> <| has_next_file_number_ := true |>) input
  else if tag =? Tag.kMaxColumnFamily then
    Try (v, input) := GetVarint32 input Else Msg e "max column family" Then
    Go (e <| max_column_family_ := v |> <| has_max_column_family_ := true |>) input
  else if tag =? Tag.kMinLogNumberToKeep then
    Try (v, input) := GetVarint64 input Else Msg e "min log number to kee" Then
    Go (e <| min_log_number_to_keep_ := v |> <| has_min_log_number_to_keep_ := true |>) input
  else if tag =? Tag.kLastSequence then
    Try (v, input) := GetVarint64 input Else Msg e "last sequence number" Then
    Go (e <| last_sequence_ := v |> <| has_last_sequence_ := true |>) input
  else if tag =? Tag.kCompactCursor then
    Try (level, e, input) := GetLevel e input Else Msg e "compaction cursor" Then
    Try (key, input) := VersionEdit_GetInternalKey input Else Msg e "compaction cursor" Then
    Go (e <| compact_cursors_ ::= fun l => l ++ [(level, key)] |>) input
  else if tag =? Tag.kDeletedFile then
    Try (level, e, input) := GetLevel e input Else Msg e "deleted file" Then
    Try (number, input) := GetVarint64 input Else Msg e "deleted file" Then
    Go (e <| deleted_files_ ::= set_insert level_file_lt (level, number) |>) input
  else if tag =? Tag.kNewFile then DecodeNewFile e input
  else if tag =? Tag.kNewFile2 then DecodeNewFile2 e input
  else if tag =? Tag.kNewFile3 then DecodeNewFile3 e input
  else if tag =? Tag.kNewFile4 then DecodeNewFile4From e input
  else if (tag =? Tag.kBlobFileAddition) || (tag =? Tag.kBlobFileAddition_DEPRECATED) then
    DecodePart BlobFileAddition_DecodeFrom e AddBlobFile input
  else if (tag =? Tag.kBlobFileGarbage) || (tag =? Tag.kBlobFileGarbage_DEPRECATED) then
    DecodePart BlobFileGarbage_DecodeFrom e AddBlobFileGarbage input
  else if tag =? Tag.kWalAddition then DecodePart WalAddition_DecodeFrom e add_wal input
  else if tag =? Tag.kWalAddition2 then
    DecodePrefixedPart WalAddition_DecodeFrom e add_wal "WalAddition not prefixed by length" input
  else if tag =? Tag.kWalDeletion then DecodePart WalDeletion_DecodeFrom e set_wal_deletion input
  else if tag =? Tag.kWalDeletion2 then
    DecodePrefixedPart WalDeletion_DecodeFrom e set_wal_deletion
      "WalDeletion not prefixed by length" input
  else if tag =? Tag.kColumnFamily then
    Try (v, input) := GetVarint32 input Else Msg e "set column family id" Then
    Go (e <| column_family_ := v |>) input
  else if tag =? Tag.kColumnFamilyAdd then
    Try (str, input) := GetLengthPrefixedSlice input Else Msg e "column family add" Then
    Go (e <| is_column_family_add_ := true |> <| column_family_name_ := str |>) input
  else if tag =? Tag.kColumnFamilyDrop then Go (e <| is_column_family_drop_ := true |>) input
  else if tag =? Tag.kInAtomicGroup then
    let e := e <| is_in_atomic_group_ := true |> in
    Try (v, input) := GetVarint32 input Else Msg e "remaining entries" Then
    Go (e <| remaining_entries_ := v |>) input
  else if tag =? Tag.kFullHistoryTsLow then
    Try (str, input) := GetLengthPrefixedSlice input Else Msg e "full_history_ts_low" Then
    if slen str =? 0 then Msg e "full_history_ts_low: empty"
    else Go (e <| full_history_ts_low_ := str |>) input
  else if tag =? Tag.kPersistUserDefinedTimestamps then
    Try (str, input) := GetLengthPrefixedSlice input
      Else Msg e "persist_user_defined_timestamps" Then
    if negb (slen str =? 1) then Msg e "persist_user_defined_timestamps field wrong size"
    else Go (e <| persist_user_defined_timestamps_ := at_ str 0 =? 1 |>
               <| has_persist_user_defined_timestamps_ := true |>) input
  else if negb (Z.land tag Tag.kTagSafeIgnoreMask =? 0) then
    Try (field_len, input) := GetVarint32 input
      Else Msg e "safely ignoreable tag length error" Then
    if slen input <? field_len then Msg e "safely ignoreable tag length error"
    else Go e (sdrop field_len input)
  else Msg e "unknown tag".

(** The loop of [DecodeFrom]. Every round reads a tag, so the length of the
    input is fuel enough. *)
Fixpoint DecodeFrom_loop (fuel : nat) (e : VersionEdit) (input : bytes) : Status * VersionEdit :=
  match GetVarint32 input with
  | None => (if slen input =? 0 then OK else Corruption2 "VersionEdit" "invalid tag", e)
  | Some (tag, input) =>
      match DecodeTag e tag input with
      | Msg e msg => (Corruption2 "VersionEdit" msg, e)
      | Ret e s => (s, e)
      | Go e input =>
          match fuel with
          | O => (TryAgain, e)
          | S fuel => DecodeFrom_loop fuel e input
          end
      end
  end.

Definition VersionEdit_DecodeFrom (e : VersionEdit) (src : bytes) : Status * VersionEdit :=
  DecodeFrom_loop (length src) (VersionEdit_Clear e) src.
