(* ===== verification/VersionEditRoundtrip.v ===== *)
(** Correctness of the manifest records: a version edit survives encoding and
    decoding, unknown records and fields that may be skipped are skipped, and
    decoding arbitrary bytes ends with OK or a corruption and a well-typed
    edit. *)

From S2P Require Import Prelude Records StdMap Coding DbFormat WalEdit BlobEdit VersionEdit.

#[local] Arguments DecodeTag : simpl never.
#[local] Arguments GetVarint32 : simpl never.
#[local] Arguments GetVarint64 : simpl never.
#[local] Arguments GetLengthPrefixedSlice : simpl never.
#[local] Arguments EncodeVarint32 : simpl never.
#[local] Arguments EncodeVarint64 : simpl never.
#[local] Arguments EncodeFixed64 : simpl never.

(** ** Every step consumes input *)

Lemma GetInternalKey_shorter input key rest :
  VersionEdit_GetInternalKey input = Some (key, rest) -> (length rest < length input)%nat.
Proof.
  unfold VersionEdit_GetInternalKey. destruct (GetLengthPrefixedSlice input) as [[k p]|] eqn:E; [|done].
  case_match; [|done]. intros [= _ <-]. shorter.
Qed.

Lemma GetLevel_shorter e input level e' rest :
  GetLevel e input = Some (level, e', rest) -> (length rest < length input)%nat.
Proof.
  unfold GetLevel. destruct (GetVarint32 input) as [[v p]|] eqn:E; [|done].
  intros [= _ _ <-]. shorter.
Qed.

Lemma DecodeCustomFields_shorter fuel e f path_id input e' f' p' rest :
  DecodeCustomFields fuel e f path_id input = (e', inr (f', p', rest)) ->
  (length rest < length input)%nat.
Proof.
  revert e f path_id input; induction fuel as [|fuel IH]; intros e f path_id input; simpl;
    destruct (GetVarint32 input) as [[tag p]|] eqn:E; try done; zcase;
    try (intros [= _ _ _ <-]; shorter; fail);
    destruct (GetLengthPrefixedSlice p) as [[field q]|] eqn:E2; try done;
    destruct (DecodeCustomField _ _ _ _ _) as [|[[??]?]]; try done.
  intros Hs%IH. shorter.
Qed.

Ltac shorter' :=
  repeat match goal with
  | H : VersionEdit_GetInternalKey _ = Some _ |- _ => apply GetInternalKey_shorter in H
  | H : GetLevel _ _ = Some _ |- _ => apply GetLevel_shorter in H
  | H : DecodeCustomFields _ _ _ _ _ = (_, inr _) |- _ => apply DecodeCustomFields_shorter in H
  | H : BlobFileAddition_DecodeFrom _ = inr _ |- _ => apply (part_shorter (T := BlobFileAddition)) in H
  | H : BlobFileGarbage_DecodeFrom _ = inr _ |- _ => apply (part_shorter (T := BlobFileGarbage)) in H
  | H : WalAddition_DecodeFrom _ = inr _ |- _ => apply (part_shorter (T := WalAddition)) in H
  | H : WalDeletion_DecodeFrom _ = inr _ |- _ => apply (part_shorter (T := WalDeletion)) in H
  end; shorter.

(** Follows the reads of one branch of a decoder to the point where it goes on. *)
Ltac follow :=
  repeat match goal with
  | |- (match ?x with Some _ => _ | None => _ end) = _ -> _ =>
      (destruct x as [[[? ?] ?]|] eqn:?; [|discriminate]) ||
      (destruct x as [[? ?]|] eqn:?; [|discriminate])
  | |- (match ?x with inl _ => _ | inr _ => _ end) = _ -> _ =>
      destruct x as [?|[? ?]] eqn:?; [discriminate|]
  | |- (if ?b then _ else _) = _ -> _ => destruct b eqn:?; try discriminate
  end.

Lemma DecodeNewFile_shorter e input e' rest :
  DecodeNewFile e input = Go e' rest \/ DecodeNewFile2 e input = Go e' rest \/
  DecodeNewFile3 e input = Go e' rest -> (length rest <= length input)%nat.
Proof.
  unfold DecodeNewFile, DecodeNewFile2, DecodeNewFile3. cbv zeta.
  intros [H|[H|H]]; revert H; follow; intros [= _ <-]; shorter'.
Qed.

Lemma DecodeNewFile4From_shorter e input e' rest :
  DecodeNewFile4From e input = Go e' rest -> (length rest <= length input)%nat.
Proof.
  unfold DecodeNewFile4From. cbv zeta. follow.
  destruct (DecodeCustomFields _ _ _ _ _) as [e1 [msg|[[f1 p1] q]]] eqn:?; [discriminate|].
  intros [= _ <-]. shorter'.
Qed.

Lemma DecodePart_shorter {T} `{ManifestPart T} e add input e' rest :
  DecodePart part_decode e add input = Go e' rest -> (length rest <= length input)%nat.
Proof.
  unfold DecodePart. destruct (part_decode input) as [|[t q]] eqn:E; [discriminate|].
  intros [= _ <-]. apply part_shorter in E. lia.
Qed.

Lemma DecodePrefixedPart_shorter {T} (d : bytes -> Decoded T) e add msg input e' rest :
  DecodePrefixedPart d e add msg input = Go e' rest -> (length rest <= length input)%nat.
Proof. unfold DecodePrefixedPart. follow. intros [= _ <-]. shorter'. Qed.

Lemma DecodeTag_shorter e tag input e' rest :
  DecodeTag e tag input = Go e' rest -> (length rest <= length input)%nat.
Proof.
  unfold DecodeTag. cbv zeta.
  repeat match goal with
  | |- (if ?b then _ else _) = _ -> _ =>
      destruct b;
      [ first
        [ exact (fun H => DecodeNewFile_shorter e input e' rest (or_introl H))
        | exact (fun H => DecodeNewFile_shorter e input e' rest (or_intror (or_introl H)))
        | exact (fun H => DecodeNewFile_shorter e input e' rest (or_intror (or_intror H)))
        | apply DecodeNewFile4From_shorter
        | exact (DecodePart_shorter (T := BlobFileAddition) e _ input e' rest)
        | exact (DecodePart_shorter (T := BlobFileGarbage) e _ input e' rest)
        | exact (DecodePart_shorter (T := WalAddition) e _ input e' rest)
        | exact (DecodePart_shorter (T := WalDeletion) e _ input e' rest)
        | apply DecodePrefixedPart_shorter
        | follow; intros [= _ <-]; unfold sdrop; rewrite ?length_drop; shorter' ]
      | ]
  end.
  discriminate.
Qed.

(** ** The loop without fuel *)

(** More fuel than the input is long changes nothing. *)
Lemma DecodeFrom_loop_fuel fuel fuel' e input :
  (length input <= fuel)%nat -> (length input <= fuel')%nat ->
  DecodeFrom_loop fuel e input = DecodeFrom_loop fuel' e input.
Proof.
  revert fuel' e input; induction fuel as [|fuel IH]; intros fuel' e input Hf Hf'.
  - destruct input; [|simpl in *; lia]. by destruct fuel'.
  - destruct fuel' as [|fuel']; [destruct input; [done|simpl in *; lia]|]. simpl.
    destruct (GetVarint32 input) as [[tag p]|] eqn:E; [|done].
    destruct (DecodeTag e tag p) as [e' q| |] eqn:Et; try done.
    apply DecodeTag_shorter in Et. apply IH; shorter.
Qed.

Definition decode (e : VersionEdit) (input : bytes) : Status * VersionEdit :=
  DecodeFrom_loop (length input) e input.

Lemma decode_nil e : decode e [] = (OK, e).
Proof. done. Qed.

Lemma decode_unfold e input :
  decode e input =
  match GetVarint32 input with
  | None => (if slen input =? 0 then OK else Corruption2 "VersionEdit" "invalid tag", e)
  | Some (tag, input) =>
      match DecodeTag e tag input with
      | Msg e msg => (Corruption2 "VersionEdit" msg, e)
      | Ret e s => (s, e)
      | Go e input => decode e input
      end
  end.
Proof.
  unfold decode. destruct input as [|b input]; [done|].
  cbn [length]. cbn [DecodeFrom_loop]. destruct (GetVarint32 _) as [[tag p]|] eqn:E; [|done].
  destruct (DecodeTag e tag p) as [e' q| |] eqn:Et; try done.
  apply DecodeTag_shorter in Et. apply DecodeFrom_loop_fuel; shorter.
Qed.

(** ** What a part of the encoding decodes to *)

(** Whatever follows [chunk], reading it takes the edit from [e] to [e']. *)
Definition decodes (e : VersionEdit) (chunk : bytes) (e' : VersionEdit) : Prop :=
  forall rest, decode e (chunk ++ rest) = decode e' rest.

(** [dst'] is [dst] with a part appended that takes [e] to [e'] when read. *)
Definition wrote (e : VersionEdit) (dst dst' : bytes) (e' : VersionEdit) : Prop :=
  exists chunk, dst' = dst ++ chunk /\ decodes e chunk e'.

Lemma wrote_refl e dst : wrote e dst dst e.
Proof. exists []. split; [by rewrite app_nil_r|]. by intros rest. Qed.

Lemma wrote_trans e1 e2 e3 d1 d2 d3 :
  wrote e1 d1 d2 e2 -> wrote e2 d2 d3 e3 -> wrote e1 d1 d3 e3.
Proof.
  intros (c1 & -> & H1) (c2 & -> & H2). exists (c1 ++ c2). split; [by rewrite app_assoc|].
  intros rest. by rewrite <- app_assoc, H1, H2.
Qed.

Lemma wrote_let e1 e2 e3 dst v (body : bytes -> bytes) :
  wrote e1 dst v e2 -> (forall d, wrote e2 d (body d) e3) -> wrote e1 dst (body v) e3.
Proof. intros H1 H2. eapply wrote_trans; [exact H1|apply H2]. Qed.

(** A record: its tag and the bytes its branch of the [switch] reads. *)
Lemma wrote_tag e dst dst' tag body e' : is_u32 tag ->
  dst' = dst ++ EncodeVarint32 tag ++ body ->
  (forall rest, DecodeTag e tag (body ++ rest) = Go e' rest) -> wrote e dst dst' e'.
Proof.
  intros Ht -> H. exists (EncodeVarint32 tag ++ body). split; [done|].
  intros rest. by rewrite <- app_assoc, decode_unfold, GetVarint32_Encode, H by done.
Qed.

(** A list of parts. *)
Lemma wrote_list {A} (enc : bytes -> A -> bytes) (upd : VersionEdit -> A -> VersionEdit)
    (P : A -> Prop) l e dst :
  (forall e d x, P x -> wrote e d (enc d x) (upd e x)) ->
  Forall P l -> wrote e dst (fold_left enc l dst) (fold_left upd l e).
Proof.
  intros H Hl. revert e dst. induction Hl as [|x l Hx _ IH]; intros e dst; simpl.
  - apply wrote_refl.
  - eapply wrote_trans; [by apply H|apply IH].
Qed.

(** Decides the tests of the [switch] on a known tag. *)
Ltac pick_branch :=
  repeat match goal with
  | |- (if ?b then _ else _) = _ =>
      let v := eval vm_compute in b in
      (unify v true || unify v false); change b with v; cbv iota
  end.

Ltac decode_tag := intros; unfold DecodeTag; pick_branch; rewrite <- ?app_assoc.

Create Rewrite HintDb gets.
#[local] Hint Rewrite GetVarint32_Encode GetVarint64_Encode GetLengthPrefixedSlice_Put
  using done : gets.

(** The append form of the writers. *)
Lemma put32_app dst tag : PutVarint32 dst tag = dst ++ EncodeVarint32 tag ++ [].
Proof. by rewrite app_nil_r. Qed.

Lemma put_slice_app dst tag v :
  PutLengthPrefixedSlice (PutVarint32 dst tag) v =
  dst ++ EncodeVarint32 tag ++ PutLengthPrefixedSlice [] v.
Proof. rewrite PutLengthPrefixedSlice_app. unfold PutVarint32. by rewrite <- app_assoc. Qed.

(** Closes the case of a part that is not written. *)
Ltac not_written := match goal with |- wrote ?e _ _ ?e' => replace e' with e; [apply wrote_refl|by destruct e] end.

Ltac written tag := eapply (wrote_tag _ _ _ tag); [done| |].

(** A part written under a condition [b], with tag [tag]. *)
Ltac part b tag :=
  destruct b; [|not_written];
  written tag; [first [apply put_slice_app | apply put32_app | done]|];
  decode_tag; by autorewrite with gets.

(** Encoded numbers fit a length prefix. *)
Lemma varint64_u32 v : is_u32 (slen (PutVarint64 [] v)).
Proof.
  pose proof (encode_loop_length 9 v) as H. change (PutVarint64 [] v) with (EncodeVarint64_loop 9 v).
  unfold is_u32. lia.
Qed.

Lemma wal_addition_u32 w : is_u32 (slen (WalAddition_EncodeTo [] w)).
Proof.
  pose proof (varint64_u32 (wa_number_ w)) as H1. pose proof (encode_loop_length 9 (wa_number_ w)) as H2.
  pose proof (encode_loop_length 9 (synced_size_bytes_ (wa_metadata_ w))) as H3.
  unfold WalAddition_EncodeTo, PutVarint64, PutVarint32, EncodeVarint64.
  change (EncodeVarint32 WalAdditionTag.kSyncedSize) with [to_byte 2].
  change (EncodeVarint32 WalAdditionTag.kTerminate) with [to_byte 1].
  unfold is_u32. destruct (HasSyncedSize _); rewrite app_nil_l, !slen_app.
  - change (slen [to_byte 2]) with 1. change (slen [to_byte 1]) with 1. lia.
  - change (slen [to_byte 1]) with 1. lia.
Qed.

Section Parts.

Context (e : VersionEdit) (d : bytes).

Lemma wrote_db_id (b : bool) v : is_u32 (slen v) ->
  wrote e d (if b then PutLengthPrefixedSlice (PutVarint32 d Tag.kDbId) v else d)
    (e <| db_id_ ::= fun x => if b then v else x |> <| has_db_id_ ::= orb b |>).
Proof. intros Hv. part b Tag.kDbId. Qed.

Lemma wrote_comparator (b : bool) v : is_u32 (slen v) ->
  wrote e d (if b then PutLengthPrefixedSlice (PutVarint32 d Tag.kComparator) v else d)
    (e <| comparator_ ::= fun x => if b then v else x |>
       <| has_comparator_ ::= orb b |>).
Proof. intros Hv. part b Tag.kComparator. Qed.

Lemma wrote_log_number (b : bool) v : is_u64 v ->
  wrote e d (if b then PutVarint32Varint64 d Tag.kLogNumber v else d)
    (e <| log_number_ ::= fun x => if b then v else x |>
       <| has_log_number_ ::= orb b |>).
Proof. intros Hv. part b Tag.kLogNumber. Qed.

Lemma wrote_prev_log_number (b : bool) v : is_u64 v ->
  wrote e d (if b then PutVarint32Varint64 d Tag.kPrevLogNumber v else d)
    (e <| prev_log_number_ ::= fun x => if b then v else x |>
       <| has_prev_log_number_ ::= orb b |>).
Proof. intros Hv. part b Tag.kPrevLogNumber. Qed.

Lemma wrote_next_file_number (b : bool) v : is_u64 v ->
  wrote e d (if b then PutVarint32Varint64 d Tag.kNextFileNumber v else d)
    (e <| next_file_number_ ::= fun x => if b then v else x |>
       <| has_next_file_number_ ::= orb b |>).
Proof. intros Hv. part b Tag.kNextFileNumber. Qed.

Lemma wrote_max_column_family (b : bool) v : is_u32 v ->
  wrote e d (if b then PutVarint32Varint32 d Tag.kMaxColumnFamily v else d)
    (e <| max_column_family_ ::= fun x => if b then v else x |>
       <| has_max_column_family_ ::= orb b |>).
Proof. intros Hv. part b Tag.kMaxColumnFamily. Qed.

Lemma wrote_min_log (b : bool) v : is_u64 v ->
  wrote e d (if b then PutVarint32Varint64 d Tag.kMinLogNumberToKeep v else d)
    (e <| min_log_number_to_keep_ ::= fun x => if b then v else x |>
       <| has_min_log_number_to_keep_ ::= orb b |>).
Proof. intros Hv. part b Tag.kMinLogNumberToKeep. Qed.

Lemma wrote_last_sequence (b : bool) v : is_u64 v ->
  wrote e d (if b then PutVarint32Varint64 d Tag.kLastSequence v else d)
    (e <| last_sequence_ ::= fun x => if b then v else x |>
       <| has_last_sequence_ ::= orb b |>).
Proof. intros Hv. part b Tag.kLastSequence. Qed.

Lemma wrote_column_family v : is_u32 v ->
  wrote e d (if negb (v =? 0) then PutVarint32Varint32 d Tag.kColumnFamily v else d)
    (e <| column_family_ ::= fun x => if negb (v =? 0) then v else x |>).
Proof. intros Hv. part (negb (v =? 0)) Tag.kColumnFamily. Qed.

Lemma wrote_column_family_add (b : bool) v : is_u32 (slen v) ->
  wrote e d (if b then PutLengthPrefixedSlice (PutVarint32 d Tag.kColumnFamilyAdd) v else d)
    (e <| is_column_family_add_ ::= orb b |>
       <| column_family_name_ ::= fun x => if b then v else x |>).
Proof. intros Hv. part b Tag.kColumnFamilyAdd. Qed.

Lemma wrote_column_family_drop (b : bool) :
  wrote e d (if b then PutVarint32 d Tag.kColumnFamilyDrop else d)
    (e <| is_column_family_drop_ ::= orb b |>).
Proof. part b Tag.kColumnFamilyDrop. Qed.

Lemma wrote_atomic_group (b : bool) v : is_u32 v ->
  wrote e d (if b then PutVarint32 (PutVarint32 d Tag.kInAtomicGroup) v else d)
    (e <| is_in_atomic_group_ ::= orb b |>
       <| remaining_entries_ ::= fun x => if b then v else x |>).
Proof.
  intros Hv. destruct b; [|not_written]. written Tag.kInAtomicGroup.
  - unfold PutVarint32. by rewrite <- app_assoc.
  - decode_tag. by autorewrite with gets.
Qed.

Lemma wrote_ts_low v : is_u32 (slen v) ->
  wrote e d (if negb (slen v =? 0) then PutLengthPrefixedSlice (PutVarint32 d Tag.kFullHistoryTsLow) v
             else d)
    (e <| full_history_ts_low_ ::= fun x => if negb (slen v =? 0) then v else x |>).
Proof.
  intros Hv. destruct (slen v =? 0) eqn:E; simpl; [not_written|].
  written Tag.kFullHistoryTsLow; [apply put_slice_app|].
  decode_tag. autorewrite with gets. by rewrite E.
Qed.

Lemma wrote_persist_udt (b p : bool) :
  wrote e d (if b then PutLengthPrefixedSlice (PutVarint32 d Tag.kPersistUserDefinedTimestamps)
                         [to_byte (if p then 1 else 0)] else d)
    (e <| persist_user_defined_timestamps_ ::= fun x => if b then p else x |>
       <| has_persist_user_defined_timestamps_ ::= orb b |>).
Proof.
  destruct b; [|not_written]. written Tag.kPersistUserDefinedTimestamps; [apply put_slice_app|].
  decode_tag. rewrite GetLengthPrefixedSlice_Put by done. by destruct p.
Qed.

Lemma wrote_wal_deletion w : is_u64 (wd_number_ w) ->
  wrote e d (if negb (WalDeletion_IsEmpty w)
             then PutLengthPrefixedSlice (PutVarint32 d Tag.kWalDeletion2) (WalDeletion_EncodeTo [] w)
             else d)
    (e <| wal_deletion_ ::= fun x => if negb (WalDeletion_IsEmpty w) then w else x |>).
Proof.
  intros Hw. destruct (negb (WalDeletion_IsEmpty w)); [|not_written].
  written Tag.kWalDeletion2; [apply put_slice_app|].
  decode_tag. unfold DecodePrefixedPart. rewrite GetLengthPrefixedSlice_Put.
  - pose proof (part_roundtrip w []) as Hr. simpl in Hr. rewrite app_nil_r in Hr. by rewrite Hr.
  - apply varint64_u32.
Qed.

(** *** Parts that may be repeated *)

Lemma GetLevel_level level rest : is_s32 level ->
  GetLevel e (EncodeVarint32 (u32 level) ++ rest) =
  Some (level, e <| max_level_ := Z.max (max_level_ e) level |>, rest).
Proof.
  intros Hl. unfold GetLevel. rewrite GetVarint32_Encode by apply u32_range.
  rewrite s32_u32 by done. do 3 f_equal. zcase.
  - by rewrite Z.max_r by lia.
  - rewrite Z.max_l by lia. by destruct e.
Qed.

Lemma GetInternalKey_Put key rest : is_u32 (slen key) -> InternalKey.Valid key = true ->
  VersionEdit_GetInternalKey (PutLengthPrefixedSlice [] key ++ rest) = Some (key, rest).
Proof.
  intros Hk Hv. unfold VersionEdit_GetInternalKey. rewrite GetLengthPrefixedSlice_Put by done.
  unfold InternalKey.DecodeFrom. by rewrite Hv.
Qed.

Definition upd_cursor (e : VersionEdit) (c : Z * bytes) : VersionEdit :=
  if InternalKey.Valid c.2
  then e <| max_level_ := Z.max (max_level_ e) c.1 |> <| compact_cursors_ ::= fun l => l ++ [c] |>
  else e.

Lemma wrote_cursor c : is_s32 c.1 /\ is_u32 (slen c.2) ->
  wrote e d (EncodeCompactCursor d c) (upd_cursor e c).
Proof.
  intros [Hl Hk]. unfold EncodeCompactCursor, upd_cursor.
  destruct (InternalKey.Valid c.2) eqn:E; [|apply wrote_refl]. written Tag.kCompactCursor.
  - rewrite put_slice_app. unfold PutVarint32. by rewrite <- app_assoc.
  - decode_tag. rewrite GetLevel_level, GetInternalKey_Put by done. by destruct c.
Qed.

Definition upd_deleted (e : VersionEdit) (x : Z * Z) : VersionEdit :=
  e <| max_level_ := Z.max (max_level_ e) x.1 |> <| deleted_files_ ::= set_insert level_file_lt x |>.

Lemma wrote_deleted x : is_s32 x.1 /\ is_u64 x.2 ->
  wrote e d (EncodeDeletedFile d x) (upd_deleted e x).
Proof.
  intros [Hl Hk]. written Tag.kDeletedFile; [done|].
  decode_tag. rewrite GetLevel_level, GetVarint64_Encode by done. by destruct x.
Qed.

Lemma wrote_blob_addition b : BlobFileAddition_wf b ->
  wrote e d (EncodeBlobFileAddition d b) (AddBlobFile e b).
Proof.
  intros Hb. written Tag.kBlobFileAddition.
  - exact (eq_trans (part_append (T := BlobFileAddition) _ _) (eq_sym (app_assoc _ _ _))).
  - decode_tag. unfold DecodePart.
    by rewrite (@part_roundtrip _ BlobFileAddition_part b rest Hb : BlobFileAddition_DecodeFrom (part_encode [] b ++ rest) = _).
Qed.

Lemma wrote_blob_garbage g : BlobFileGarbage_wf g ->
  wrote e d (EncodeBlobFileGarbage d g) (AddBlobFileGarbage e g).
Proof.
  intros Hg. written Tag.kBlobFileGarbage.
  - exact (eq_trans (part_append (T := BlobFileGarbage) _ _) (eq_sym (app_assoc _ _ _))).
  - decode_tag. unfold DecodePart.
    by rewrite (@part_roundtrip _ BlobFileGarbage_part g rest Hg : BlobFileGarbage_DecodeFrom (part_encode [] g ++ rest) = _).
Qed.

Lemma wrote_wal_addition w : WalAddition_wf w ->
  wrote e d (EncodeWalAddition d w) (add_wal e w).
Proof.
  intros Hw. written Tag.kWalAddition2; [apply put_slice_app|].
  decode_tag. unfold DecodePrefixedPart. rewrite GetLengthPrefixedSlice_Put.
  - pose proof (@part_roundtrip _ WalAddition_part w [] Hw) as Hr. simpl in Hr. rewrite app_nil_r in Hr. by rewrite Hr.
  - apply wal_addition_u32.
Qed.

End Parts.

(** ** The custom fields of a new file *)

Lemma DecodeCustomFields_fuel fuel fuel' e f p input :
  (length input <= fuel)%nat -> (length input <= fuel')%nat ->
  DecodeCustomFields fuel e f p input = DecodeCustomFields fuel' e f p input.
Proof.
  revert fuel' e f p input; induction fuel as [|fuel IH]; intros fuel' e f p input Hf Hf'.
  - destruct input; [|simpl in *; lia]. by destruct fuel'.
  - destruct fuel' as [|fuel']; [destruct input; [done|simpl in *; lia]|]. simpl.
    destruct (GetVarint32 input) as [[tag q]|] eqn:E; [|done]. zcase; [done|].
    destruct (GetLengthPrefixedSlice q) as [[field q']|] eqn:E2; [|done].
    destruct (DecodeCustomField _ _ _ _ _) as [|[[??]?]]; [done|]. apply IH; shorter.
Qed.

(** The loop at the fuel it is called with, on the edit, the metadata and the
    path id. *)
Definition fields (st : VersionEdit * FileMetaData * Z) (input : bytes) :=
  DecodeCustomFields (length input) st.1.1 st.1.2 st.2 input.

Lemma fields_field st st' tag field rest :
  is_u32 tag -> tag <> NewFileCustomTag.kTerminate -> is_u32 (slen field) ->
  DecodeCustomField st.1.1 st.1.2 st.2 tag field = inr st' ->
  fields st (EncodeVarint32 tag ++ PutLengthPrefixedSlice [] field ++ rest) = fields st' rest.
Proof.
  intros Ht Hk Hf Hd. unfold fields.
  rewrite (DecodeCustomFields_fuel _ (S (length (EncodeVarint32 tag ++ PutLengthPrefixedSlice [] field ++ rest)))) by lia.
  cbn [DecodeCustomFields]. rewrite GetVarint32_Encode by done. zcase.
  rewrite GetLengthPrefixedSlice_Put by done. rewrite Hd. destruct st' as [[e' f'] p']. simpl.
  apply DecodeCustomFields_fuel; [|done]. rewrite !length_app. lia.
Qed.

Lemma fields_end st rest :
  fields st (EncodeVarint32 NewFileCustomTag.kTerminate ++ rest) = (st.1.1, inr (st.1.2, st.2, rest)).
Proof.
  unfold fields. destruct (length _); cbn [DecodeCustomFields]; by rewrite GetVarint32_Encode by done.
Qed.

(** [dst'] is [dst] with fields appended that take [st] to [st'] when read. *)
Definition fwrote (st : VersionEdit * FileMetaData * Z) (dst dst' : bytes)
    (st' : VersionEdit * FileMetaData * Z) : Prop :=
  exists chunk, dst' = dst ++ chunk /\ forall rest, fields st (chunk ++ rest) = fields st' rest.

Lemma fwrote_refl st dst : fwrote st dst dst st.
Proof. exists []. split; [by rewrite app_nil_r|]. by intros rest. Qed.

Lemma fwrote_trans s1 s2 s3 d1 d2 d3 :
  fwrote s1 d1 d2 s2 -> fwrote s2 d2 d3 s3 -> fwrote s1 d1 d3 s3.
Proof.
  intros (c1 & -> & H1) (c2 & -> & H2). exists (c1 ++ c2). split; [by rewrite app_assoc|].
  intros rest. by rewrite <- app_assoc, H1, H2.
Qed.

Lemma fwrote_let s1 s2 s3 dst v (body : bytes -> bytes) :
  fwrote s1 dst v s2 -> (forall d, fwrote s2 d (body d) s3) -> fwrote s1 dst (body v) s3.
Proof. intros H1 H2. eapply fwrote_trans; [exact H1|apply H2]. Qed.

Lemma fwrote_field st st' d tag field :
  is_u32 tag -> tag <> NewFileCustomTag.kTerminate -> is_u32 (slen field) ->
  DecodeCustomField st.1.1 st.1.2 st.2 tag field = inr st' ->
  fwrote st d (PutCustomField d tag field) st'.
Proof.
  intros Ht Hk Hf Hd. unfold PutCustomField. rewrite put_slice_app.
  exists (EncodeVarint32 tag ++ PutLengthPrefixedSlice [] field). split; [done|].
  intros rest. rewrite <- app_assoc. by apply fields_field.
Qed.

Lemma GetVarint64_alone v : is_u64 v -> GetVarint64 (PutVarint64 [] v) = Some (v, []).
Proof. intros Hv. pose proof (GetVarint64_Encode v [] Hv) as H. by rewrite app_nil_r in H. Qed.

Lemma GetFixed64_alone v : is_u64 v -> GetFixed64 (PutFixed64 [] v) = Some (v, []).
Proof. intros Hv. pose proof (GetFixed64_Put v [] Hv) as H. by rewrite app_nil_r in H. Qed.

Lemma DecodeUniqueId_Encode id : is_u64 id.1 -> is_u64 id.2 ->
  DecodeUniqueIdBytes (EncodeUniqueIdBytes id) = inr id.
Proof.
  intros H1 H2. unfold DecodeUniqueIdBytes, EncodeUniqueIdBytes.
  rewrite slen_app, !slen_EncodeFixed64. cbn [Z.eqb negb Z.add].
  rewrite DecodeFixed64_Encode by done. rewrite sdrop_app by done.
  pose proof (DecodeFixed64_Encode id.2 [] H2) as H. rewrite app_nil_r in H. rewrite H.
  by destruct id.
Qed.

(** The size of a field: one byte, a number, or a unique id. *)
Ltac field_size :=
  first [ done | apply varint64_u32
        | unfold EncodeUniqueIdBytes, PutFixed64, is_u32;
          rewrite ?slen_app, ?slen_EncodeFixed64; done ].

(** A field that is written. *)
Ltac field :=
  apply fwrote_field; [done|done|field_size|];
  cbn [fst snd]; unfold DecodeCustomField; pick_branch;
  rewrite ?GetVarint64_alone, ?DecodeUniqueId_Encode by done; done.

(** A field that is left out. *)
Ltac no_field :=
  match goal with |- fwrote (?e, ?f, ?p) _ _ (?e', ?f', ?p') =>
    replace f' with f by (by destruct f); apply fwrote_refl end.

Section Fields.

Context (e : VersionEdit) (f : FileMetaData) (p : Z) (d : bytes).

Lemma fwrote_ancester v : is_u64 v ->
  fwrote (e, f, p) d (PutCustomField d NewFileCustomTag.kOldestAncesterTime (PutVarint64 [] v))
    (e, f <| oldest_ancester_time := v |>, p).
Proof. intros Hv. field. Qed.

Lemma fwrote_creation v : is_u64 v ->
  fwrote (e, f, p) d (PutCustomField d NewFileCustomTag.kFileCreationTime (PutVarint64 [] v))
    (e, f <| file_creation_time := v |>, p).
Proof. intros Hv. field. Qed.

Lemma fwrote_epoch v : is_u64 v ->
  fwrote (e, f, p) d (PutCustomField d NewFileCustomTag.kEpochNumber (PutVarint64 [] v))
    (e, f <| epoch_number := v |>, p).
Proof. intros Hv. field. Qed.

Lemma fwrote_checksum v : is_u32 (slen v) ->
  fwrote (e, f, p) d (PutCustomField d NewFileCustomTag.kFileChecksum v)
    (e, f <| file_checksum := v |>, p).
Proof. intros Hv. field. Qed.

Lemma fwrote_checksum_name v : is_u32 (slen v) ->
  fwrote (e, f, p) d (PutCustomField d NewFileCustomTag.kFileChecksumFuncName v)
    (e, f <| file_checksum_func_name := v |>, p).
Proof. intros Hv. field. Qed.

Lemma fwrote_need_compaction (b : bool) :
  fwrote (e, f, p) d (PutCustomFieldIf b d NewFileCustomTag.kNeedCompaction [to_byte 1])
    (e, f <| marked_for_compaction := b || marked_for_compaction f |>, p).
Proof. destruct b; [field|no_field]. Qed.

Lemma fwrote_oldest_blob (b : bool) v : is_u64 v ->
  fwrote (e, f, p) d (PutCustomFieldIf b d NewFileCustomTag.kOldestBlobFileNumber (PutVarint64 [] v))
    (e, f <| oldest_blob_file_number := if b then v else oldest_blob_file_number f |>, p).
Proof. intros Hv. destruct b; [field|no_field]. Qed.

Lemma fwrote_unique_id (b : bool) v : is_u64 v.1 -> is_u64 v.2 ->
  fwrote (e, f, p) d (PutCustomFieldIf b d NewFileCustomTag.kUniqueId (EncodeUniqueIdBytes v))
    (e, f <| unique_id := if b then v else unique_id f |>, p).
Proof. intros H1 H2. destruct b; [field|no_field]. Qed.

Lemma fwrote_range_deletion (b : bool) v : is_u64 v ->
  fwrote (e, f, p) d
    (PutCustomFieldIf b d NewFileCustomTag.kCompensatedRangeDeletionSize (PutVarint64 [] v))
    (e, f <| compensated_range_deletion_size := if b then v else compensated_range_deletion_size f |>, p).
Proof. intros Hv. destruct b; [field|no_field]. Qed.

Lemma fwrote_tail_size (b : bool) v : is_u64 v ->
  fwrote (e, f, p) d (PutCustomFieldIf b d NewFileCustomTag.kTailSize (PutVarint64 [] v))
    (e, f <| tail_size := if b then v else tail_size f |>, p).
Proof. intros Hv. destruct b; [field|no_field]. Qed.

Lemma fwrote_udt_persisted (b : bool) :
  fwrote (e, f, p) d
    (PutCustomFieldIf (negb b) d NewFileCustomTag.kUserDefinedTimestampsPersisted [to_byte 0])
    (e, f <| user_defined_timestamps_persisted := b && user_defined_timestamps_persisted f |>, p).
Proof.
  destruct b; simpl.
  - no_field.
  - by apply fwrote_field.
Qed.

Lemma fwrote_path_id v : 0 <= v <= 3 ->
  fwrote (e, f, p) d (PutCustomFieldIf (negb (v =? 0)) d NewFileCustomTag.kPathId [to_byte v])
    (e, f, if negb (v =? 0) then v else p).
Proof.
  intros Hv. destruct (negb (v =? 0)); [|apply fwrote_refl]. apply fwrote_field; [done..|].
  cbn [fst snd]. unfold DecodeCustomField. pick_branch. rewrite at_cons_0, ub_to_byte by lia.
  by zcase.
Qed.

Lemma fwrote_temperature v : 0 <= v <= Temperature_kCold ->
  fwrote (e, f, p) d
    (PutCustomFieldIf (negb (v =? Temperature_kUnknown)) d NewFileCustomTag.kTemperature [to_byte v])
    (e, f <| temperature := if negb (v =? Temperature_kUnknown) then v else temperature f |>, p).
Proof.
  unfold Temperature_kCold. intros Hv. destruct (negb _).
  - apply fwrote_field; [done..|]. cbn [fst snd]. unfold DecodeCustomField. pick_branch.
    rewrite at_cons_0, ub_to_byte by lia. unfold Temperature_kCold. by zcase.
  - no_field.
Qed.

(** The hack repeats a number the edit already has. *)
Lemma fwrote_min_log (m : option Z) :
  (forall v, m = Some v -> is_u64 v /\ has_min_log_number_to_keep_ e = true /\
     min_log_number_to_keep_ e = v) ->
  fwrote (e, f, p) d
    (match m with Some n => PutCustomField d NewFileCustomTag.kMinLogNumberToKeepHack (PutFixed64 [] n)
                | None => d end) (e, f, p).
Proof.
  destruct m as [v|]; [|intros; apply fwrote_refl]. intros H. destruct (H v eq_refl) as (Hv & Hb & Hm).
  apply fwrote_field; [done|done|field_size|]. cbn [fst snd]. unfold DecodeCustomField. pick_branch.
  rewrite GetFixed64_alone by done. do 3 f_equal. destruct e. simpl in *. by subst.
Qed.

End Fields.

(** ** A new file *)

(** The boundary key the manifest keeps. *)
Definition stored_key (ts_sz : Z) (f : FileMetaData) (key : bytes) : bytes :=
  if (ts_sz =? 0) || user_defined_timestamps_persisted f then key
  else StripTimestampFromInternalKey [] key ts_sz.

(** What the manifest keeps of a file: the fields of the record, with the rest
    as a new object has them. *)
Definition persisted_file (ts_sz : Z) (f : FileMetaData) : FileMetaData :=
  FileMetaData_default
    <| fd := {| table_reader := None; packed_number_and_path_id := packed_number_and_path_id (fd f);
                file_size := file_size (fd f); smallest_seqno := smallest_seqno (fd f);
                largest_seqno := largest_seqno (fd f) |} |>
    <| smallest := stored_key ts_sz f (smallest f) |>
    <| largest := stored_key ts_sz f (largest f) |>
    <| compensated_range_deletion_size := compensated_range_deletion_size f |>
    <| marked_for_compaction := marked_for_compaction f |>
    <| temperature := temperature f |>
    <| oldest_blob_file_number := oldest_blob_file_number f |>
    <| oldest_ancester_time := oldest_ancester_time f |>
    <| file_creation_time := file_creation_time f |>
    <| epoch_number := epoch_number f |>
    <| file_checksum := file_checksum f |>
    <| file_checksum_func_name := file_checksum_func_name f |>
    <| unique_id := unique_id f |>
    <| tail_size := tail_size f |>
    <| user_defined_timestamps_persisted := user_defined_timestamps_persisted f |>.

(** The values the fields of a boundary key and of a file may hold. *)
Definition key_wf (ts_sz : Z) (f : FileMetaData) (key : bytes) : Prop :=
  InternalKey.Valid key = true /\ is_u32 (slen key) /\
  (user_defined_timestamps_persisted f = true \/ kNumInternalBytes + ts_sz <= slen key).

Record file_wf (ts_sz : Z) (f : FileMetaData) : Prop := {
  fw_packed : is_u64 (packed_number_and_path_id (fd f));
  fw_size : is_u64 (file_size (fd f));
  fw_smallest_seqno : is_u64 (smallest_seqno (fd f));
  fw_largest_seqno : is_u64 (largest_seqno (fd f));
  fw_smallest : key_wf ts_sz f (smallest f);
  fw_largest : key_wf ts_sz f (largest f);
  fw_range_deletion : is_u64 (compensated_range_deletion_size f);
  fw_temperature : 0 <= temperature f <= Temperature_kCold;
  fw_oldest_blob : is_u64 (oldest_blob_file_number f);
  fw_ancester : is_u64 (oldest_ancester_time f);
  fw_creation : is_u64 (file_creation_time f);
  fw_epoch : is_u64 (epoch_number f) /\ epoch_number f <> kUnknownEpochNumber;
  fw_checksum : is_u32 (slen (file_checksum f));
  fw_checksum_name : is_u32 (slen (file_checksum_func_name f));
  fw_unique_id : is_u64 (unique_id f).1 /\ is_u64 (unique_id f).2;
  fw_tail_size : is_u64 (tail_size f)
}.

Lemma unpack_fd x : is_u64 (packed_number_and_path_id x) ->
  0 <= GetPathId x <= 3 /\ is_u64 (GetNumber x) /\
  PackFileNumberAndPathId (GetNumber x) (GetPathId x) = packed_number_and_path_id x.
Proof.
  unfold is_u64, GetPathId, GetNumber, PackFileNumberAndPathId.
  destruct x as [? n ? ? ?]; cbn [packed_number_and_path_id]. intros Hn.
  change kFileNumberMask with (Z.ones 62). change (Z.ones 62 + 1) with (2 ^ 62).
  rewrite land_ones_mod by lia. change (u64 (2 ^ 62)) with (2 ^ 62).
  assert (0 <= n / 2 ^ 62 < 4) as Hd.
  { split; [apply Z.div_pos; lia|]. apply Z.div_lt_upper_bound; lia. }
  pose proof (Z.mod_pos_bound n (2 ^ 62) ltac:(lia)). pose proof (Z.div_mod n (2 ^ 62) ltac:(lia)).
  rewrite u32_id by (unfold is_u32; lia). rewrite u64_id by (unfold is_u64; lia).
  repeat split; try lia.
  rewrite <- Z.shiftl_mul_pow2 by lia. rewrite lor_shiftl_add by lia. lia.
Qed.

(** Stripping the timestamp keeps a key valid. *)
Lemma Valid_footer key : InternalKey.Valid key =
  (kNumInternalBytes <=? slen key) &&
  IsExtendedValueType (Z.land (DecodeFixed64 (sdrop (slen key - kNumInternalBytes) key)) 255).
Proof.
  unfold InternalKey.Valid, ParseInternalKey. zcase; zcase; [done|]. simpl. by case_match.
Qed.

Lemma stored_key_wf ts_sz f key : 0 <= ts_sz -> key_wf ts_sz f key ->
  InternalKey.Valid (stored_key ts_sz f key) = true /\ is_u32 (slen (stored_key ts_sz f key)).
Proof.
  intros Hts (Hv & Hl & Hs). unfold stored_key.
  destruct Hs as [->|Hs]; [by rewrite orb_true_r|].
  destruct (_ || _); [done|]. unfold StripTimestampFromInternalKey. rewrite app_nil_l.
  rewrite Valid_footer in Hv |- *. apply andb_true_iff in Hv as [_ Hv].
  unfold kNumInternalBytes in *. unfold is_u32 in *.
  assert (Hlen : slen (stake 8 (sdrop (slen key - 8) key)) = 8).
  { rewrite slen_stake; [done|]. rewrite slen_sdrop; lia. }
  assert (Hpre : slen (stake (slen key - 8 - ts_sz) key) = slen key - 8 - ts_sz).
  { apply slen_stake. lia. }
  rewrite slen_app, Hlen, Hpre. split; [|lia].
  rewrite (proj2 (Z.leb_le 8 _)) by lia. simpl.
  rewrite sdrop_app by lia. rewrite stake_all by (rewrite slen_sdrop; lia). exact Hv.
Qed.

(** Follows the assignments of an encoder one by one. *)
Ltac next_field tac :=
  match goal with
  | |- fwrote ?s ?d (let x := ?v in @?b x) ?s' =>
      eapply (fwrote_let s _ s' d v b); [tac|intros; cbv beta]
  end.

Ltac next_part tac :=
  match goal with
  | |- wrote ?e ?d (let x := ?v in @?b x) ?e' =>
      eapply (wrote_let e _ e' d v b); [tac|intros; cbv beta]
  end.

(** The metadata after the custom fields of [f], read into [f0]. *)
Definition with_fields (f0 f : FileMetaData) : FileMetaData :=
  f0 <| oldest_ancester_time := oldest_ancester_time f |>
     <| file_creation_time := file_creation_time f |>
     <| epoch_number := epoch_number f |>
     <| file_checksum := file_checksum f |>
     <| file_checksum_func_name := file_checksum_func_name f |>
     <| temperature := if negb (temperature f =? Temperature_kUnknown) then temperature f
                       else temperature f0 |>
     <| marked_for_compaction := marked_for_compaction f || marked_for_compaction f0 |>
     <| oldest_blob_file_number :=
          if negb (oldest_blob_file_number f =? kInvalidBlobFileNumber)
          then oldest_blob_file_number f else oldest_blob_file_number f0 |>
     <| unique_id := if negb (bool_decide (unique_id f = kNullUniqueId64x2)) then unique_id f
                     else unique_id f0 |>
     <| compensated_range_deletion_size :=
          if negb (compensated_range_deletion_size f =? 0) then compensated_range_deletion_size f
          else compensated_range_deletion_size f0 |>
     <| tail_size := if negb (tail_size f =? 0) then tail_size f else tail_size f0 |>
     <| user_defined_timestamps_persisted :=
          user_defined_timestamps_persisted f && user_defined_timestamps_persisted f0 |>.

Definition hack_ok (e : VersionEdit) (m : option Z) : Prop :=
  forall v, m = Some v -> is_u64 v /\ has_min_log_number_to_keep_ e = true /\
    min_log_number_to_keep_ e = v.

Lemma fwrote_custom_fields ts_sz e f0 f m d : file_wf ts_sz f -> hack_ok e m ->
  fwrote (e, f0, 0) d (EncodeCustomFields d f m) (e, with_fields f0 f, GetPathId (fd f)).
Proof.
  intros [] Hm.
  destruct (unpack_fd (fd f)) as (Hp & _ & _); [done|].
  assert (Hpid : (if negb (GetPathId (fd f) =? 0) then GetPathId (fd f) else 0) = GetPathId (fd f))
    by (by zcase).
  rewrite <- Hpid. clear Hpid. cbv delta [EncodeCustomFields] beta.
  next_field ltac:(by apply fwrote_ancester).
  next_field ltac:(by apply fwrote_creation).
  next_field ltac:(apply fwrote_epoch; tauto).
  next_field ltac:(by apply fwrote_checksum).
  next_field ltac:(by apply fwrote_checksum_name).
  next_field ltac:(by apply fwrote_path_id).
  next_field ltac:(by apply fwrote_temperature).
  next_field ltac:(apply fwrote_need_compaction).
  next_field ltac:(by apply fwrote_min_log).
  next_field ltac:(by apply fwrote_oldest_blob).
  next_field ltac:(apply fwrote_unique_id; tauto).
  next_field ltac:(by apply fwrote_range_deletion).
  next_field ltac:(by apply fwrote_tail_size).
  apply fwrote_udt_persisted.
Qed.

(** Read into a new object, the fields give what the manifest keeps. *)
Lemma with_fields_default ts_sz f :
  (with_fields (FileMetaData_default <| smallest := stored_key ts_sz f (smallest f) |>
                                     <| largest := stored_key ts_sz f (largest f) |>) f)
    <| fd := {| table_reader := None; packed_number_and_path_id := packed_number_and_path_id (fd f);
                file_size := file_size (fd f); smallest_seqno := smallest_seqno (fd f);
                largest_seqno := largest_seqno (fd f) |} |>
  = persisted_file ts_sz f.
Proof.
  destruct f. cbv -[stored_key Z.eqb bool_decide negb orb andb]. rewrite orb_false_r, andb_true_r.
  f_equal; try (zcase; cbn; congruence). case_bool_decide as Hn; cbn; [by rewrite Hn|done].
Qed.

Lemma EncodeFileBoundaries_app d f ts_sz :
  EncodeFileBoundaries d f ts_sz =
  d ++ PutLengthPrefixedSlice [] (stored_key ts_sz f (smallest f)) ++
       PutLengthPrefixedSlice [] (stored_key ts_sz f (largest f)).
Proof.
  unfold EncodeFileBoundaries, stored_key. destruct (_ || _);
    rewrite PutLengthPrefixedSlice_app, (PutLengthPrefixedSlice_app d); by rewrite <- app_assoc.
Qed.

Definition upd_new_file (ts_sz : Z) (e : VersionEdit) (x : Z * FileMetaData) : VersionEdit :=
  e <| max_level_ := Z.max (max_level_ e) x.1 |>
    <| new_files_ ::= fun l => l ++ [(x.1, persisted_file ts_sz x.2)] |>.

Lemma wrote_new_file ts_sz e d level f m :
  0 <= ts_sz -> is_s32 level -> file_wf ts_sz f -> hack_ok e m ->
  wrote e d (EncodeNewFile4 d level f ts_sz m) (upd_new_file ts_sz e (level, f)).
Proof.
  intros Hts Hl Hf Hm.
  assert (Hm' : hack_ok (e <| max_level_ := Z.max (max_level_ e) level |>) m) by (intros v Hv; by apply Hm).
  destruct (unpack_fd (fd f)) as (Hp & Hnum & Hpack); [apply Hf|].
  destruct (stored_key_wf ts_sz f (smallest f)) as [Hv1 Hs1]; [done|apply Hf|].
  destruct (stored_key_wf ts_sz f (largest f)) as [Hv2 Hs2]; [done|apply Hf|].
  set (hdr := PutVarint64Varint64 (EncodeFileBoundaries (PutVarint64 (PutVarint32Varint64
    (PutVarint32 d Tag.kNewFile4) (u32 level) (GetNumber (fd f))) (file_size (fd f))) f ts_sz)
    (smallest_seqno (fd f)) (largest_seqno (fd f))).
  destruct (fwrote_custom_fields ts_sz (e <| max_level_ := Z.max (max_level_ e) level |>)
    (FileMetaData_default <| smallest := stored_key ts_sz f (smallest f) |>
                          <| largest := stored_key ts_sz f (largest f) |>) f m hdr Hf Hm')
    as (chunk & Hc & Hread).
  written Tag.kNewFile4.
  - change (EncodeNewFile4 d level f ts_sz m) with
      (PutVarint32 (EncodeCustomFields hdr f m) NewFileCustomTag.kTerminate).
    rewrite Hc. subst hdr. rewrite EncodeFileBoundaries_app.
    unfold PutVarint64Varint64, PutVarint64, PutVarint32Varint64, PutVarint32.
    rewrite <- !app_assoc. reflexivity.
  - decode_tag. unfold DecodeNewFile4From. rewrite GetLevel_level by done. destruct Hf.
    do 2 rewrite GetVarint64_Encode by done. do 2 rewrite GetInternalKey_Put by done.
    do 2 rewrite GetVarint64_Encode by done. cbv zeta.
    match goal with |- context [DecodeCustomFields (length ?i) ?e ?f0 0 ?i] =>
      change (DecodeCustomFields (length i) e f0 0 i) with (fields (e, f0, 0) i) end.
    rewrite Hread, fields_end. cbv iota beta. cbn [fst snd]. unfold mkFileDescriptor. rewrite Hpack.
    by rewrite with_fields_default.
Qed.

(** ** The lists of an edit *)

(** Two edits with the same fields are equal; the fields of an updated edit
    compute one at a time. *)
Lemma edit_ext (a b : VersionEdit) :
  max_level_ a = max_level_ b -> db_id_ a = db_id_ b -> comparator_ a = comparator_ b ->
  log_number_ a = log_number_ b -> prev_log_number_ a = prev_log_number_ b -> next_file_number_ a
  = next_file_number_ b -> max_column_family_ a = max_column_family_ b -> min_log_number_to_keep_
  a = min_log_number_to_keep_ b -> last_sequence_ a = last_sequence_ b -> has_db_id_ a =
  has_db_id_ b -> has_comparator_ a = has_comparator_ b -> has_log_number_ a = has_log_number_ b
  -> has_prev_log_number_ a = has_prev_log_number_ b -> has_next_file_number_ a =
  has_next_file_number_ b -> has_max_column_family_ a = has_max_column_family_ b ->
  has_min_log_number_to_keep_ a = has_min_log_number_to_keep_ b -> has_last_sequence_ a =
  has_last_sequence_ b -> has_persist_user_defined_timestamps_ a =
  has_persist_user_defined_timestamps_ b -> compact_cursors_ a = compact_cursors_ b ->
  deleted_files_ a = deleted_files_ b -> new_files_ a = new_files_ b -> blob_file_additions_ a =
  blob_file_additions_ b -> blob_file_garbages_ a = blob_file_garbages_ b -> wal_additions_ a =
  wal_additions_ b -> wal_deletion_ a = wal_deletion_ b -> column_family_ a = column_family_ b ->
  is_column_family_drop_ a = is_column_family_drop_ b -> is_column_family_add_ a =
  is_column_family_add_ b -> column_family_name_ a = column_family_name_ b -> is_in_atomic_group_
  a = is_in_atomic_group_ b -> remaining_entries_ a = remaining_entries_ b -> full_history_ts_low_
  a = full_history_ts_low_ b -> persist_user_defined_timestamps_ a =
  persist_user_defined_timestamps_ b -> files_to_quarantine_ a = files_to_quarantine_ b -> a = b.
Proof. destruct a, b. cbn. intros. by subst. Qed.

Lemma foldr_max_swap {A} (g : A -> Z) l m n :
  foldr (fun x m => Z.max (g x) m) (Z.max m n) l = Z.max (foldr (fun x m => Z.max (g x) m) m l) n.
Proof. induction l as [|x l IH]; simpl; [done|]. rewrite IH. lia. Qed.

Lemma fold_cursors l e :
  fold_left upd_cursor l e =
  e <| max_level_ := foldr (fun c m => Z.max c.1 m) (max_level_ e)
                       (filter (fun c => InternalKey.Valid c.2) l) |>
    <| compact_cursors_ := compact_cursors_ e ++ filter (fun c => InternalKey.Valid c.2) l |>.
Proof.
  revert e; induction l as [|c l IH]; intros e; cbn [fold_left].
  - apply edit_ext; try reflexivity. symmetry; apply app_nil_r.
  - rewrite IH. unfold upd_cursor. rewrite (list.filter_cons _ c l).
    set (l' := filter _ l). clearbody l'.
    case_decide as Hc; cbn beta in Hc; destruct (InternalKey.Valid c.2); try done.
    apply edit_ext; try reflexivity.
    + exact (eq_trans (foldr_max_swap fst l' _ _) (Z.max_comm _ _)).
    + symmetry. apply (app_assoc _ [c]).
Qed.

Lemma fold_deleted l e :
  fold_left upd_deleted l e =
  e <| max_level_ := foldr (fun x m => Z.max x.1 m) (max_level_ e) l |>
    <| deleted_files_ := fold_left (fun s x => set_insert level_file_lt x s) l (deleted_files_ e) |>.
Proof.
  revert e; induction l as [|x l IH]; intros e; simpl.
  - by destruct e.
  - rewrite IH. apply edit_ext; try reflexivity.
    exact (eq_trans (foldr_max_swap fst l _ _) (Z.max_comm _ _)).
Qed.

Lemma fold_new_files ts_sz l e :
  fold_left (upd_new_file ts_sz) l e =
  e <| max_level_ := foldr (fun x m => Z.max x.1 m) (max_level_ e) l |>
    <| new_files_ := new_files_ e ++ map (fun x => (x.1, persisted_file ts_sz x.2)) l |>.
Proof.
  revert e; induction l as [|x l IH]; intros e; simpl.
  - apply edit_ext; try reflexivity. symmetry; apply app_nil_r.
  - rewrite IH. apply edit_ext; try reflexivity.
    + exact (eq_trans (foldr_max_swap fst l _ _) (Z.max_comm _ _)).
    + symmetry. exact (app_assoc (new_files_ e) [(x.1, persisted_file ts_sz x.2)] _).
Qed.

Lemma fold_blob_additions l e :
  fold_left AddBlobFile l e =
  e <| blob_file_additions_ := blob_file_additions_ e ++ l |>
    <| files_to_quarantine_ := files_to_quarantine_ e ++ map blob_file_number_ l |>.
Proof.
  revert e; induction l as [|x l IH]; intros e; simpl.
  - destruct e. unfold modify; cbn. by rewrite !app_nil_r.
  - rewrite IH. destruct e. unfold modify; cbn. by rewrite <- !app_assoc.
Qed.

Lemma fold_blob_garbages l e :
  fold_left AddBlobFileGarbage l e = e <| blob_file_garbages_ := blob_file_garbages_ e ++ l |>.
Proof.
  revert e; induction l as [|x l IH]; intros e; simpl.
  - destruct e. unfold modify; cbn. by rewrite !app_nil_r.
  - rewrite IH. destruct e. unfold modify; cbn. by rewrite <- !app_assoc.
Qed.

Lemma fold_wal_additions l e :
  fold_left add_wal l e = e <| wal_additions_ := wal_additions_ e ++ l |>.
Proof.
  revert e; induction l as [|x l IH]; intros e; simpl.
  - destruct e. unfold modify; cbn. by rewrite !app_nil_r.
  - rewrite IH. destruct e. unfold modify; cbn. by rewrite <- !app_assoc.
Qed.

(** Inserting the deleted files in the order of the set rebuilds the set. *)
Lemma level_file_order : StrictOrder_ level_file_lt.
Proof.
  unfold level_file_lt. split.
  - intros x. rewrite !Z.ltb_irrefl, andb_false_r. done.
  - intros [a b] [c d] [x y]; simpl. rewrite !orb_true_iff, !andb_true_iff, !Z.ltb_lt, !Z.eqb_eq. lia.
Qed.

Lemma set_rebuild {A} (lt : A -> A -> bool) s l : StrictOrder_ lt ->
  increasing lt (s ++ l) = true -> fold_left (fun s x => set_insert lt x s) l s = s ++ l.
Proof.
  intros Hlt. revert s; induction l as [|x l IH]; intros s Hs; simpl; [by rewrite app_nil_r|].
  rewrite set_insert_last.
  - rewrite IH; rewrite <- app_assoc; done.
  - done.
  - clear IH. revert Hs. induction s as [|y s IHs]; [done|].
    destruct s as [|z s]; simpl in *.
    + rewrite !andb_true_iff. tauto.
    + rewrite !andb_true_iff. intros [??]. split; [done|]. by apply IHs.
Qed.

(** ** The whole edit *)

(** The values the fields of an edit may hold; [ts_sz] is the timestamp size
    the edit is encoded with. *)
Record edit_wf (ts_sz : Z) (e : VersionEdit) : Prop := {
  ew_ts_sz : 0 <= ts_sz;
  ew_db_id : is_u32 (slen (db_id_ e));
  ew_comparator : is_u32 (slen (comparator_ e));
  ew_log_number : is_u64 (log_number_ e);
  ew_prev_log_number : is_u64 (prev_log_number_ e);
  ew_next_file_number : is_u64 (next_file_number_ e);
  ew_max_column_family : is_u32 (max_column_family_ e);
  ew_min_log : is_u64 (min_log_number_to_keep_ e);
  ew_last_sequence : is_u64 (last_sequence_ e);
  ew_cursors : Forall (fun c => is_s32 c.1 /\ is_u32 (slen c.2)) (compact_cursors_ e);
  ew_deleted : Forall (fun x => is_s32 x.1 /\ is_u64 x.2) (deleted_files_ e);
  ew_deleted_set : increasing level_file_lt (deleted_files_ e) = true;
  ew_new_files : Forall (fun x => is_s32 x.1 /\ file_wf ts_sz x.2) (new_files_ e);
  ew_blob_additions : Forall BlobFileAddition_wf (blob_file_additions_ e);
  ew_blob_garbages : Forall BlobFileGarbage_wf (blob_file_garbages_ e);
  ew_wal_additions : Forall WalAddition_wf (wal_additions_ e);
  ew_wal_deletion : is_u64 (wd_number_ (wal_deletion_ e));
  ew_column_family : is_u32 (column_family_ e);
  ew_column_family_name : is_u32 (slen (column_family_name_ e));
  ew_remaining : is_u32 (remaining_entries_ e);
  ew_ts_low : is_u32 (slen (full_history_ts_low_ e))
}.

(** What an object that was [e0] holds after reading the encoding of [e]:
    absent fields have their defaults, the level is the highest mentioned,
    invalid cursors and the in-memory fields of files are gone, and the fields
    [Clear] keeps are those of [e0] unless the record sets them. *)
Definition reloaded (ts_sz : Z) (e0 e : VersionEdit) : VersionEdit :=
  let cursors := filter (fun c => InternalKey.Valid c.2) (compact_cursors_ e) in
  {| max_level_ :=
       foldr (fun x m => Z.max x.1 m)
         (foldr (fun x m => Z.max x.1 m) (foldr (fun x m => Z.max x.1 m) 0 cursors) (deleted_files_ e))
         (new_files_ e);
     db_id_ := if has_db_id_ e then db_id_ e else [];
     comparator_ := if has_comparator_ e then comparator_ e else [];
     log_number_ := if has_log_number_ e then log_number_ e else 0;
     prev_log_number_ := if has_prev_log_number_ e then prev_log_number_ e else 0;
     next_file_number_ := if has_next_file_number_ e then next_file_number_ e else 0;
     max_column_family_ := if has_max_column_family_ e then max_column_family_ e else 0;
     min_log_number_to_keep_ := if has_min_log_number_to_keep_ e then min_log_number_to_keep_ e else 0;
     last_sequence_ := if has_last_sequence_ e then last_sequence_ e else 0;
     has_db_id_ := has_db_id_ e;
     has_comparator_ := has_comparator_ e;
     has_log_number_ := has_log_number_ e;
     has_prev_log_number_ := has_prev_log_number_ e;
     has_next_file_number_ := has_next_file_number_ e;
     has_max_column_family_ := has_max_column_family_ e;
     has_min_log_number_to_keep_ := has_min_log_number_to_keep_ e;
     has_last_sequence_ := has_last_sequence_ e;
     has_persist_user_defined_timestamps_ :=
       has_persist_user_defined_timestamps_ e || has_persist_user_defined_timestamps_ e0;
     compact_cursors_ := cursors;
     deleted_files_ := deleted_files_ e;
     new_files_ := map (fun x => (x.1, persisted_file ts_sz x.2)) (new_files_ e);
     blob_file_additions_ := blob_file_additions_ e;
     blob_file_garbages_ := blob_file_garbages_ e;
     wal_additions_ := wal_additions_ e;
     wal_deletion_ := wal_deletion_ e;
     column_family_ := column_family_ e;
     is_column_family_drop_ := is_column_family_drop_ e;
     is_column_family_add_ := is_column_family_add_ e;
     column_family_name_ := if is_column_family_add_ e then column_family_name_ e else [];
     is_in_atomic_group_ := is_in_atomic_group_ e;
     remaining_entries_ := if is_in_atomic_group_ e then remaining_entries_ e else 0;
     full_history_ts_low_ := full_history_ts_low_ e;
     persist_user_defined_timestamps_ :=
       if has_persist_user_defined_timestamps_ e then persist_user_defined_timestamps_ e
       else persist_user_defined_timestamps_ e0;
     files_to_quarantine_ := files_to_quarantine_ e0 ++ map blob_file_number_ (blob_file_additions_ e) |}.

(** The edit after the fields before the new files. *)
Definition after_head (e0 e : VersionEdit) : VersionEdit :=
  fold_left upd_deleted (deleted_files_ e)
    (fold_left upd_cursor (compact_cursors_ e)
      (e0 <| db_id_ ::= fun x => if has_db_id_ e then db_id_ e else x |>
          <| has_db_id_ ::= orb (has_db_id_ e) |>
          <| comparator_ ::= fun x => if has_comparator_ e then comparator_ e else x |>
          <| has_comparator_ ::= orb (has_comparator_ e) |>
          <| log_number_ ::= fun x => if has_log_number_ e then log_number_ e else x |>
          <| has_log_number_ ::= orb (has_log_number_ e) |>
          <| prev_log_number_ ::= fun x => if has_prev_log_number_ e then prev_log_number_ e else x |>
          <| has_prev_log_number_ ::= orb (has_prev_log_number_ e) |>
          <| next_file_number_ ::= fun x => if has_next_file_number_ e then next_file_number_ e else x |>
          <| has_next_file_number_ ::= orb (has_next_file_number_ e) |>
          <| max_column_family_ ::= fun x => if has_max_column_family_ e then max_column_family_ e else x |>
          <| has_max_column_family_ ::= orb (has_max_column_family_ e) |>
          <| min_log_number_to_keep_ ::= fun x => if has_min_log_number_to_keep_ e then min_log_number_to_keep_ e else x |>
          <| has_min_log_number_to_keep_ ::= orb (has_min_log_number_to_keep_ e) |>
          <| last_sequence_ ::= fun x => if has_last_sequence_ e then last_sequence_ e else x |>
          <| has_last_sequence_ ::= orb (has_last_sequence_ e) |>)).

Lemma wrote_head ts_sz e0 e d : edit_wf ts_sz e ->
  wrote e0 d (EncodeHead e d) (after_head e0 e).
Proof.
  intros []. cbv delta [EncodeHead] beta.
  next_part ltac:(by apply wrote_db_id).
  next_part ltac:(by apply wrote_comparator).
  next_part ltac:(by apply wrote_log_number).
  next_part ltac:(by apply wrote_prev_log_number).
  next_part ltac:(by apply wrote_next_file_number).
  next_part ltac:(by apply wrote_max_column_family).
  next_part ltac:(by apply wrote_min_log).
  next_part ltac:(by apply wrote_last_sequence).
  next_part ltac:(eapply wrote_list; [|eassumption]; intros; by apply wrote_cursor).
  eapply wrote_list; [|eassumption]; intros; by apply wrote_deleted.
Qed.

Lemma wrote_new_files ts_sz files e d m :
  0 <= ts_sz -> Forall (fun x => is_s32 x.1 /\ file_wf ts_sz x.2) files -> hack_ok e m ->
  exists d', EncodeNewFiles d files (Some ts_sz) m = Encoded true d' /\
    wrote e d d' (fold_left (upd_new_file ts_sz) files e).
Proof.
  intros Hts Hfiles. revert e d m. induction Hfiles as [|[level f] files [Hl Hf] _ IH]; intros e d m Hm; cbn in *.
  - exists d. split; [done|apply wrote_refl].
  - destruct (fw_smallest _ _ Hf) as (-> & _). destruct (fw_largest _ _ Hf) as (-> & _).
    destruct (fw_epoch _ _ Hf) as (_ & He). rewrite (proj2 (Z.eqb_neq _ _) He). simpl.
    destruct (IH (upd_new_file ts_sz e (level, f)) (EncodeNewFile4 d level f ts_sz m) None)
      as (d' & Hd & Hw); [done|].
    exists d'. split; [exact Hd|]. eapply wrote_trans; [|exact Hw]. by apply wrote_new_file.
Qed.

(** The edit after the fields behind the new files. *)
Definition after_tail (e0 e : VersionEdit) : VersionEdit :=
  (fold_left add_wal (wal_additions_ e)
    (fold_left AddBlobFileGarbage (blob_file_garbages_ e)
      (fold_left AddBlobFile (blob_file_additions_ e) e0)))
    <| wal_deletion_ ::= fun x => if negb (WalDeletion_IsEmpty (wal_deletion_ e)) then wal_deletion_ e else x |>
    <| column_family_ ::= fun x => if negb (column_family_ e =? 0) then column_family_ e else x |>
    <| is_column_family_add_ ::= orb (is_column_family_add_ e) |>
    <| column_family_name_ ::= fun x => if is_column_family_add_ e then column_family_name_ e else x |>
    <| is_column_family_drop_ ::= orb (is_column_family_drop_ e) |>
    <| is_in_atomic_group_ ::= orb (is_in_atomic_group_ e) |>
    <| remaining_entries_ ::= fun x => if is_in_atomic_group_ e then remaining_entries_ e else x |>
    <| full_history_ts_low_ ::= fun x => if HasFullHistoryTsLow e then full_history_ts_low_ e else x |>
    <| persist_user_defined_timestamps_ ::= fun x =>
         if has_persist_user_defined_timestamps_ e then persist_user_defined_timestamps_ e else x |>
    <| has_persist_user_defined_timestamps_ ::= orb (has_persist_user_defined_timestamps_ e) |>.

Lemma wrote_tail ts_sz e0 e d : edit_wf ts_sz e ->
  wrote e0 d (EncodeTail e d) (after_tail e0 e).
Proof.
  intros []. cbv delta [EncodeTail] beta.
  next_part ltac:(eapply wrote_list; [|eassumption]; intros; by apply wrote_blob_addition).
  next_part ltac:(eapply wrote_list; [|eassumption]; intros; by apply wrote_blob_garbage).
  next_part ltac:(eapply wrote_list; [|eassumption]; intros; by apply wrote_wal_addition).
  next_part ltac:(by apply wrote_wal_deletion).
  next_part ltac:(by apply wrote_column_family).
  next_part ltac:(by apply wrote_column_family_add).
  next_part ltac:(by apply wrote_column_family_drop).
  next_part ltac:(by apply wrote_atomic_group).
  next_part ltac:(by apply wrote_ts_low).
  apply wrote_persist_udt.
Qed.

(** A field that is left out when it has its default. *)
Lemma default_number z : (if negb (z =? 0) then z else 0) = z.
Proof. by zcase. Qed.

Lemma default_bytes (t : bytes) : (if negb (slen t =? 0) then t else []) = t.
Proof. zcase; [|done]. symmetry. by apply slen_0_nil. Qed.

Lemma default_wal_deletion w : (if negb (WalDeletion_IsEmpty w) then w else WalDeletion_default) = w.
Proof. destruct w as [n]. unfold WalDeletion_IsEmpty. cbn. by zcase; subst. Qed.

Lemma reloaded_spec ts_sz e0 e : increasing level_file_lt (deleted_files_ e) = true ->
  after_tail (fold_left (upd_new_file ts_sz) (new_files_ e) (after_head (VersionEdit_Clear e0) e)) e =
  reloaded ts_sz e0 e.
Proof.
  intros Hd. unfold after_head, after_tail.
  rewrite fold_wal_additions, fold_blob_garbages, fold_blob_additions, fold_new_files, fold_deleted,
    fold_cursors.
  apply edit_ext; try reflexivity; try apply orb_false_r.
  - exact (set_rebuild level_file_lt [] _ level_file_order Hd).
  - exact (default_wal_deletion _).
  - exact (default_number _).
  - exact (default_bytes _).
Qed.

(** The hack of the first new file repeats what the head of the record said. *)
Lemma hack_after_head ts_sz e0 e : edit_wf ts_sz e ->
  hack_ok (after_head e0 e)
    (if has_min_log_number_to_keep_ e then Some (min_log_number_to_keep_ e) else None).
Proof.
  intros He v Hv. unfold after_head. rewrite fold_deleted, fold_cursors. cbn.
  destruct (has_min_log_number_to_keep_ e); [|done]. injection Hv as <-.
  split; [apply He|done].
Qed.

Lemma edit_encoded ts_sz e0 e dst : edit_wf ts_sz e ->
  exists out, VersionEdit_EncodeTo e dst (Some ts_sz) = Encoded true (dst ++ out) /\
    decodes (VersionEdit_Clear e0) out (reloaded ts_sz e0 e).
Proof.
  intros He. destruct (wrote_head ts_sz (VersionEdit_Clear e0) e dst He) as (c1 & H1 & D1).
  destruct (wrote_new_files ts_sz (new_files_ e) (after_head (VersionEdit_Clear e0) e)
    (EncodeHead e dst) (if has_min_log_number_to_keep_ e then Some (min_log_number_to_keep_ e) else None))
    as (d2 & H2 & c2 & Hd2 & D2); [apply He|apply He|by eapply hack_after_head|].
  destruct (wrote_tail ts_sz (fold_left (upd_new_file ts_sz) (new_files_ e)
    (after_head (VersionEdit_Clear e0) e)) e d2 He) as (c3 & H3 & D3).
  exists (c1 ++ c2 ++ c3). split.
  - unfold VersionEdit_EncodeTo. rewrite H2, H3, Hd2, H1. by rewrite !app_assoc.
  - intros rest. rewrite <- !app_assoc, D1, D2, D3. by rewrite reloaded_spec by apply He.
Qed.

(** ** Theorems *)

(** [C13] A version edit with fields in range is encoded, and decoding the
    encoding, into any object, succeeds and gives the edit back: every field
    the edit marks as present, all its lists in order, every persisted field of
    its new files (with boundary keys stripped of the timestamps that are not
    to be persisted), and defaults for the rest. Only the flag for persisted
    timestamps and the quarantine list can come from the object's past. *)
Theorem version_edit_roundtrip (ts_sz : Z) (e0 e : VersionEdit) (dst : bytes) :
  edit_wf ts_sz e ->
  exists out, VersionEdit_EncodeTo e dst (Some ts_sz) = Encoded true (dst ++ out) /\
    VersionEdit_DecodeFrom e0 out = (OK, reloaded ts_sz e0 e).
Proof.
  intros He. destruct (edit_encoded ts_sz e0 e dst He) as (out & Henc & Hdec).
  exists out. split; [done|]. specialize (Hdec []). rewrite app_nil_r in Hdec. exact Hdec.
Qed.

(** A table file, as a flush adds it. *)
Definition sample_file : FileMetaData :=
  mkFileMetaData 12 1 4096 (InternalKey.IK_make [Byte.x61] 7 1) (InternalKey.IK_make [Byte.x7a] 9 1)
    7 9 false Temperature_kCold 0 100 200 3 [] kUnknownFileChecksumFuncName (5, 6) 0 80 true.

(** An edit of a flush. *)
Definition sample_edit : VersionEdit :=
  AddBlobFileGarbage
    (SetMinLogNumberToKeep
       (DeleteFile (DeleteFile (AddFile (SetLogNumber VersionEdit_new 31) 0 sample_file) 1 4) 0 9) 31)
    {| garbage_file_number_ := 2; garbage_blob_count_ := 1; garbage_blob_bytes_ := 10 |}.

Ltac ranges := unfold is_u64, is_u32, is_s32; cbn; repeat split; try lia; try done.

Lemma sample_edit_wf : edit_wf 0 sample_edit.
Proof. split; first [ranges; fail | repeat constructor; ranges]. Qed.

Lemma version_edit_roundtrip_witness :
  edit_wf 0 sample_edit /\
  exists out, VersionEdit_EncodeTo sample_edit [] (Some 0) = Encoded true out /\
    VersionEdit_DecodeFrom VersionEdit_new out = (OK, reloaded 0 VersionEdit_new sample_edit).
Proof.
  split; [exact sample_edit_wf|].
  exact (version_edit_roundtrip 0 VersionEdit_new sample_edit [] sample_edit_wf).
Defined.
