(* ===== verification/VersionEditSafe.v ===== *)
(** Decoding of arbitrary bytes: [DecodeFrom] always ends, with OK or a
    corruption, and whatever it read the edit is well typed; records and fields
    of later releases are skipped when they are marked as ignorable and refused
    otherwise. *)

From S2P Require Import Prelude Records StdMap Coding DbFormat WalEdit BlobEdit VersionEdit VersionEditRoundtrip.

#[local] Arguments DecodeTag : simpl never.
#[local] Arguments GetVarint32 : simpl never.
#[local] Arguments GetVarint64 : simpl never.
#[local] Arguments GetLengthPrefixedSlice : simpl never.
#[local] Arguments EncodeVarint32 : simpl never.
#[local] Arguments EncodeVarint64 : simpl never.
#[local] Arguments EncodeFixed64 : simpl never.

(** ** Well-typed edits *)

(** A key read from the manifest. *)
Definition key_typed (key : bytes) : Prop := InternalKey.Valid key = true /\ is_u32 (slen key).

(** A descriptor: its words, and a path id of two bits. *)
Definition fd_typed (x : FileDescriptor) : Prop :=
  is_u64 (packed_number_and_path_id x) /\ is_u64 (file_size x) /\ is_u64 (smallest_seqno x) /\
  is_u64 (largest_seqno x).

(** The fields of the metadata that the custom fields set. *)
Record fields_typed (f : FileMetaData) : Prop := {
  ft_range_deletion : is_u64 (compensated_range_deletion_size f);
  ft_temperature : 0 <= temperature f <= Temperature_kCold;
  ft_oldest_blob : is_u64 (oldest_blob_file_number f);
  ft_ancester : is_u64 (oldest_ancester_time f);
  ft_creation : is_u64 (file_creation_time f);
  ft_epoch : is_u64 (epoch_number f);
  ft_checksum : is_u32 (slen (file_checksum f));
  ft_checksum_name : is_u32 (slen (file_checksum_func_name f));
  ft_unique_id : is_u64 (unique_id f).1 /\ is_u64 (unique_id f).2;
  ft_tail_size : is_u64 (tail_size f);
  ft_smallest : key_typed (smallest f);
  ft_largest : key_typed (largest f)
}.

Definition file_typed (x : Z * FileMetaData) : Prop :=
  is_s32 x.1 /\ fields_typed x.2 /\ fd_typed (fd x.2).

(** The words and strings of an edit. *)
Record words_typed (e : VersionEdit) : Prop := {
  wt_db_id : is_u32 (slen (db_id_ e));
  wt_comparator : is_u32 (slen (comparator_ e));
  wt_log_number : is_u64 (log_number_ e);
  wt_prev_log_number : is_u64 (prev_log_number_ e);
  wt_next_file_number : is_u64 (next_file_number_ e);
  wt_max_column_family : is_u32 (max_column_family_ e);
  wt_min_log : is_u64 (min_log_number_to_keep_ e);
  wt_last_sequence : is_u64 (last_sequence_ e);
  wt_wal_deletion : is_u64 (wd_number_ (wal_deletion_ e));
  wt_column_family : is_u32 (column_family_ e);
  wt_column_family_name : is_u32 (slen (column_family_name_ e));
  wt_remaining : is_u32 (remaining_entries_ e);
  wt_ts_low : is_u32 (slen (full_history_ts_low_ e))
}.

(** The lists of an edit: levels are [int]s not above [max_level_], keys are
    valid, the deleted files are a set. *)
Record lists_typed (e : VersionEdit) : Prop := {
  lt_cursors : Forall (fun c => is_s32 c.1 /\ c.1 <= max_level_ e /\ key_typed c.2) (compact_cursors_ e);
  lt_deleted : Forall (fun x => is_s32 x.1 /\ x.1 <= max_level_ e /\ is_u64 x.2) (deleted_files_ e);
  lt_deleted_set : increasing level_file_lt (deleted_files_ e) = true;
  lt_new_files : Forall (fun x => x.1 <= max_level_ e /\ file_typed x) (new_files_ e);
  lt_blob_additions : Forall BlobFileAddition_wf (blob_file_additions_ e);
  lt_blob_garbages : Forall BlobFileGarbage_wf (blob_file_garbages_ e);
  lt_wal_additions : Forall WalAddition_wf (wal_additions_ e)
}.

Definition edit_typed (e : VersionEdit) : Prop := words_typed e /\ lists_typed e.

(** ** The reads *)

Lemma GetInternalKey_typed input key rest :
  VersionEdit_GetInternalKey input = Some (key, rest) -> key_typed key.
Proof.
  unfold VersionEdit_GetInternalKey. destruct (GetLengthPrefixedSlice input) as [[k q]|] eqn:E; [|done].
  apply GetLengthPrefixedSlice_safe in E as [? _]. unfold InternalKey.DecodeFrom.
  destruct (InternalKey.Valid k) eqn:Ev; [|done]. by intros [= <- _].
Qed.

Lemma s32_range v : is_s32 (s32 v).
Proof. unfold is_s32, s32. pose proof (Z.mod_pos_bound (v + 2 ^ 31) (2 ^ 32) ltac:(lia)). lia. Qed.

(** Raising the highest level keeps everything typed. *)
Lemma raise_level_typed e m : max_level_ e <= m -> edit_typed e -> edit_typed (e <| max_level_ := m |>).
Proof.
  intros Hm [[] []]. split; constructor; cbn; try done;
    (eapply list.Forall_impl; [eassumption|]); cbn; intros; intuition lia.
Qed.

Lemma GetLevel_typed e input level e' rest : edit_typed e ->
  GetLevel e input = Some (level, e', rest) ->
  is_s32 level /\ level <= max_level_ e' /\ edit_typed e'.
Proof.
  intros He. unfold GetLevel. destruct (GetVarint32 input) as [[v q]|]; [|done].
  intros [= <- <- _]. split; [apply s32_range|]. zcase; cbn.
  - split; [lia|]. apply raise_level_typed; [lia|done].
  - by split.
Qed.

Lemma PackFileNumberAndPathId_range n p : is_u64 n -> is_u64 (PackFileNumberAndPathId n p).
Proof.
  intros Hn. unfold PackFileNumberAndPathId, is_u64. apply lor_lt; [lia|exact Hn|apply u64_range].
Qed.

Lemma mkFileDescriptor_typed n p size s l :
  is_u64 n -> is_u64 size -> is_u64 s -> is_u64 l -> fd_typed (mkFileDescriptor n p size s l).
Proof. intros. unfold fd_typed, mkFileDescriptor; cbn. auto using PackFileNumberAndPathId_range. Qed.

Lemma default_fields_typed s l : key_typed s -> key_typed l ->
  fields_typed (FileMetaData_default <| smallest := s |> <| largest := l |>).
Proof.
  intros Hs Hl. constructor; cbn; try done; unfold is_u64, is_u32, Temperature_kUnknown, Temperature_kCold; lia.
Qed.

(** The facts of the reads met so far. *)
Ltac read_facts :=
  repeat match goal with
  | H : GetVarint32 _ = Some _ |- _ => apply GetVarint32_safe in H as [? _]
  | H : GetVarint64 _ = Some _ |- _ => apply GetVarint64_safe in H as [? _]
  | H : GetLengthPrefixedSlice _ = Some _ |- _ => apply GetLengthPrefixedSlice_safe in H as [? _]
  | H : VersionEdit_GetInternalKey _ = Some _ |- _ => apply GetInternalKey_typed in H
  end.

Lemma GetFixed64_typed input v rest : GetFixed64 input = Some (v, rest) -> is_u64 v.
Proof. unfold GetFixed64. case_match; [done|]. intros [= <- _]. apply DecodeFixed64_range. Qed.

Lemma DecodeUniqueId_typed field id :
  DecodeUniqueIdBytes field = inr id -> is_u64 id.1 /\ is_u64 id.2.
Proof.
  unfold DecodeUniqueIdBytes. case_match; [done|]. intros [= <-]. cbn. split; apply DecodeFixed64_range.
Qed.

(** Adding a file to the list. *)
Lemma add_file_typed e level f : edit_typed e -> is_s32 level -> level <= max_level_ e ->
  fields_typed f -> fd_typed (fd f) ->
  edit_typed (e <| new_files_ ::= fun l => l ++ [(level, f)] |>).
Proof.
  intros [[] []] ????. split; constructor; cbn; try done.
  apply Forall_app. split; [done|]. apply Forall_singleton. unfold file_typed. tauto.
Qed.

(** ** The custom fields *)

Lemma DecodeCustomField_typed e f p tag field e' f' p' :
  is_u32 (slen field) -> edit_typed e -> fields_typed f ->
  DecodeCustomField e f p tag field = inr (e', f', p') ->
  edit_typed e' /\ fields_typed f' /\ max_level_ e' = max_level_ e.
Proof.
  intros Hfield He Hf. unfold DecodeCustomField.
  repeat match goal with
  | |- (if ?b then _ else _) = _ -> _ => destruct b eqn:?; try done
  | |- (match GetVarint64 ?x with _ => _ end) = _ -> _ =>
      destruct (GetVarint64 x) as [[v q]|] eqn:Hr; [apply GetVarint64_safe in Hr as [Hr _]|done]
  | |- (match GetFixed64 ?x with _ => _ end) = _ -> _ =>
      destruct (GetFixed64 x) as [[v q]|] eqn:Hr; [apply GetFixed64_typed in Hr|done]
  | |- (match DecodeUniqueIdBytes ?x with _ => _ end) = _ -> _ =>
      destruct (DecodeUniqueIdBytes x) as [|id] eqn:Hr; [done|apply DecodeUniqueId_typed in Hr]
  end; intros [= <- <- <-]; try done.
  all: try (split; [done|]; split; [|done]; destruct Hf; constructor; cbn; done).
  - split; [|done]. destruct He as [[] []]. split; constructor; cbn; done.
  - split; [done|]. split; [|done]. zcase; [|done]. destruct Hf; constructor; cbn; try done.
    split; [|done]. unfold at_. case_match; [|done]. apply ub_range.
Qed.

Lemma DecodeCustomFields_typed fuel e f p input e' r :
  edit_typed e -> fields_typed f -> DecodeCustomFields fuel e f p input = (e', r) ->
  edit_typed e' /\ max_level_ e' = max_level_ e /\
  match r with inr (f', _, _) => fields_typed f' | inl _ => True end.
Proof.
  revert e f p input; induction fuel as [|fuel IH]; intros e f p input He Hf; simpl;
    destruct (GetVarint32 input) as [[tag q]|]; try (by intros [= <- <-]); zcase;
    try (by intros [= <- <-]);
    destruct (GetLengthPrefixedSlice q) as [[field q']|] eqn:E2; try (by intros [= <- <-]);
    apply GetLengthPrefixedSlice_safe in E2 as [Hfield _];
    destruct (DecodeCustomField _ _ _ _ _) as [|[[e1 f1] p1]] eqn:E3; try (by intros [= <- <-]);
    apply DecodeCustomField_typed in E3 as (He1 & Hf1 & Hm); try done.
  - by intros [= <- <-].
  - intros H. destruct (IH _ _ _ _ He1 Hf1 H) as (? & Hm' & ?). rewrite Hm', Hm. done.
Qed.

(** ** One record *)

Definition step_typed (r : DecodeStep) : Prop :=
  match r with
  | Go e _ | Msg e _ => edit_typed e
  | Ret e s => edit_typed e /\ exists msg, s = Corruption msg
  end.

(** Splits the reads of a decoder. *)
Ltac typed_reads :=
  repeat match goal with
  | |- step_typed (match GetLevel ?e ?x with _ => _ end) =>
      let H := fresh "Hl" in
      destruct (GetLevel e x) as [[[? ?] ?]|] eqn:H; [apply GetLevel_typed in H as (? & ? & ?)|]; [|done|done]
  | |- step_typed (match ?x with Some _ => _ | None => _ end) =>
      destruct x as [[? ?]|] eqn:?; [|try done]
  end.

Lemma DecodeNewFile4_typed e input : edit_typed e -> step_typed (DecodeNewFile4From e input).
Proof.
  intros He. unfold DecodeNewFile4From. typed_reads. cbv zeta.
  match goal with |- context [DecodeCustomFields ?n ?e ?f ?p ?i] =>
    destruct (DecodeCustomFields n e f p i) as [e1 r] eqn:Hc end.
  apply DecodeCustomFields_typed in Hc as (He1 & Hm & Hr); [|done|read_facts; by apply default_fields_typed].
  destruct r as [msg|[[f1 p1] q]]; [done|]. cbn. read_facts. apply add_file_typed; [done|done|lia| |].
  - destruct Hr. constructor; done.
  - by apply mkFileDescriptor_typed.
Qed.

Lemma DecodeNewFile_typed e input : edit_typed e ->
  step_typed (DecodeNewFile e input) /\ step_typed (DecodeNewFile2 e input) /\
  step_typed (DecodeNewFile3 e input).
Proof.
  intros He. unfold DecodeNewFile, DecodeNewFile2, DecodeNewFile3, mkFileDescriptor3. cbv zeta.
  split; [|split]; typed_reads; read_facts; cbn; apply add_file_typed; try done.
  all: try (apply mkFileDescriptor_typed; try done; unfold is_u64, kMaxSequenceNumber; cbn; lia).
  all: match goal with H1 : key_typed ?s, H2 : key_typed ?l |- _ =>
         destruct (default_fields_typed s l H1 H2); constructor; done end.
Qed.

Lemma DecodePart_typed {T} `{ManifestPart T} e add input : edit_typed e ->
  (forall t, part_wf t -> edit_typed (add e t)) -> step_typed (DecodePart part_decode e add input).
Proof.
  intros He Hadd. unfold DecodePart. destruct (part_decode input) as [s|[t q]] eqn:E.
  - split; [done|]. by apply part_error in E.
  - apply part_typed in E. by apply Hadd.
Qed.

Lemma DecodePrefixedPart_typed {T} `{ManifestPart T} e add msg input : edit_typed e ->
  (forall t, part_wf t -> edit_typed (add e t)) ->
  step_typed (DecodePrefixedPart part_decode e add msg input).
Proof.
  intros He Hadd. unfold DecodePrefixedPart.
  destruct (GetLengthPrefixedSlice input) as [[encoded q]|]; [|done].
  destruct (part_decode encoded) as [s|[t q']] eqn:E.
  - split; [done|]. by apply part_error in E.
  - apply part_typed in E. by apply Hadd.
Qed.

Lemma add_parts_typed e : edit_typed e ->
  (forall t, BlobFileAddition_wf t -> edit_typed (AddBlobFile e t)) /\
  (forall t, BlobFileGarbage_wf t -> edit_typed (AddBlobFileGarbage e t)) /\
  (forall t, WalAddition_wf t -> edit_typed (add_wal e t)) /\
  (forall t, is_u64 (wd_number_ t) -> edit_typed (set_wal_deletion e t)).
Proof.
  intros [[] []]. split_and!; intros t Ht; split; constructor; cbn; try done;
    apply Forall_app; split; try done; by apply Forall_singleton.
Qed.

Lemma level_file_total a b : level_file_lt a b = false -> level_file_lt b a = false -> a = b.
Proof.
  destruct a as [x y], b as [u v]. unfold level_file_lt; cbn.
  rewrite !orb_false_iff, !andb_false_iff, !Z.ltb_ge, !Z.eqb_neq. intros. f_equal; lia.
Qed.

Lemma delete_file_typed e level number : edit_typed e -> is_s32 level -> level <= max_level_ e ->
  is_u64 number -> edit_typed (e <| deleted_files_ ::= set_insert level_file_lt (level, number) |>).
Proof.
  intros [[] []] ???. split; constructor; cbn; try done.
  - by apply Forall_set_insert.
  - apply set_insert_increasing; [exact level_file_total|done].
Qed.

Lemma add_cursor_typed e level key : edit_typed e -> is_s32 level -> level <= max_level_ e ->
  key_typed key -> edit_typed (e <| compact_cursors_ ::= fun l => l ++ [(level, key)] |>).
Proof.
  intros [[] []] ???. split; constructor; cbn; try done.
  apply Forall_app. split; [done|]. by apply Forall_singleton.
Qed.

Lemma DecodeTag_typed e tag input : edit_typed e -> step_typed (DecodeTag e tag input).
Proof.
  intros He. destruct (DecodeNewFile_typed e input He) as (H1 & H2 & H3).
  pose proof (DecodeNewFile4_typed e input He) as H4.
  destruct (add_parts_typed e He) as (Ha & Hg & Hw & Hd). unfold DecodeTag.
  repeat match goal with
  | |- step_typed (if ?b then _ else _) =>
      destruct b;
      [first
       [ done
       | exact (DecodePart_typed (T := BlobFileAddition) e _ input He Ha)
       | exact (DecodePart_typed (T := BlobFileGarbage) e _ input He Hg)
       | exact (DecodePart_typed (T := WalAddition) e _ input He Hw)
       | exact (DecodePart_typed (T := WalDeletion) e _ input He Hd)
       | exact (DecodePrefixedPart_typed (T := WalAddition) e _ _ input He Hw)
       | exact (DecodePrefixedPart_typed (T := WalDeletion) e _ _ input He Hd)
       | typed_reads; read_facts; cbn; first [by apply delete_file_typed | by apply add_cursor_typed]
       | cbv zeta; typed_reads; read_facts; repeat case_match; try done;
         destruct He as [[] []]; split; constructor; done ]
      |]
  end.
  done.
Qed.

Lemma DecodeFrom_loop_typed fuel e input st e' : (length input <= fuel)%nat -> edit_typed e ->
  DecodeFrom_loop fuel e input = (st, e') ->
  edit_typed e' /\ (st = OK \/ exists msg, st = Corruption msg).
Proof.
  revert e input; induction fuel as [|fuel IH]; intros e input Hf He; simpl;
    destruct (GetVarint32 input) as [[tag q]|] eqn:E.
  - shorter.
  - intros [= <- <-]. split; [done|]. case_match; [by left|right; by eexists].
  - pose proof (DecodeTag_typed e tag q He) as Ht.
    destruct (DecodeTag e tag q) as [e1 q1|e1 msg|e1 s] eqn:Et.
    + apply DecodeTag_shorter in Et. apply IH; [shorter|done].
    + intros [= <- <-]. split; [done|]. right. by eexists.
    + intros [= <- <-]. destruct Ht as [Ht Hs]. split; [done|by right].
  - intros [= <- <-]. split; [done|]. case_match; [by left|right; by eexists].
Qed.

Lemma new_edit_typed : edit_typed VersionEdit_new.
Proof.
  split; constructor; cbn; try done; unfold is_u64, is_u32, WalDeletion_kEmpty; lia.
Qed.

Lemma Clear_typed e : edit_typed (VersionEdit_Clear e).
Proof. destruct new_edit_typed as [[] []]. split; constructor; done. Qed.

(** Well-typed edits whose files have an epoch number can be encoded again. *)
Lemma typed_wf e : edit_typed e ->
  Forall (fun x => epoch_number x.2 <> kUnknownEpochNumber) (new_files_ e) -> edit_wf 0 e.
Proof.
  intros [[] []] He. constructor; try done.
  - eapply list.Forall_impl; [eassumption|]. cbn. intros x (? & ? & ? & ?). done.
  - eapply list.Forall_impl; [eassumption|]. cbn. tauto.
  - apply Forall_forall. intros x Hx. rewrite Forall_forall in He. specialize (He x Hx).
    match goal with H : Forall _ (new_files_ e) |- _ => rewrite Forall_forall in H; destruct (H x Hx) as (_ & Hl & [] & (? & ? & ? & ?)) end.
    split; [done|]. constructor; try done; unfold key_wf, key_typed in *; cbn in *;
      split_and!; try tauto; right; unfold kNumInternalBytes.
    all: match goal with H : InternalKey.Valid ?k = true /\ _ |- _ <= slen ?k =>
      destruct H as [H _]; rewrite Valid_footer in H; apply andb_true_iff in H as [H _];
      apply Z.leb_le in H; exact H end.
Qed.

(** ** Theorems *)

(** [C14] Decoding any bytes, into any object, ends with OK or with a
    corruption, and leaves a well-typed edit: words in the range of their
    types, levels that are [int]s not above [max_level_], valid boundary and
    cursor keys, path ids of two bits, deleted files in the order of the set
    without duplicates, and well-formed nested records. If the files it read
    carry epoch numbers, the edit can be encoded again. *)
Theorem decode_well_typed (e0 : VersionEdit) (src : bytes) :
  let '(st, e) := VersionEdit_DecodeFrom e0 src in
  (st = OK \/ exists msg, st = Corruption msg) /\ edit_typed e /\
  (Forall (fun x => epoch_number x.2 <> kUnknownEpochNumber) (new_files_ e) ->
   exists out, VersionEdit_EncodeTo e [] (Some 0) = Encoded true out).
Proof.
  unfold VersionEdit_DecodeFrom. destruct (DecodeFrom_loop _ _ _) as [st e] eqn:E.
  apply DecodeFrom_loop_typed in E as [He Hst]; [|done|apply Clear_typed].
  split; [done|]. split; [done|]. intros Hep.
  destruct (edit_encoded 0 e0 e [] (typed_wf e He Hep)) as (out & Ho & _). by exists out.
Qed.

(** ** Records and fields of later releases *)

(** The tags this release writes or reads. *)
Definition known_tag (tag : Z) : bool :=
  existsb (Z.eqb tag)
    [Tag.kDbId; Tag.kComparator; Tag.kLogNumber; Tag.kPrevLogNumber; Tag.kNextFileNumber;
     Tag.kMaxColumnFamily; Tag.kMinLogNumberToKeep; Tag.kLastSequence; Tag.kCompactCursor;
     Tag.kDeletedFile; Tag.kNewFile; Tag.kNewFile2; Tag.kNewFile3; Tag.kNewFile4;
     Tag.kBlobFileAddition; Tag.kBlobFileAddition_DEPRECATED; Tag.kBlobFileGarbage;
     Tag.kBlobFileGarbage_DEPRECATED; Tag.kWalAddition; Tag.kWalAddition2; Tag.kWalDeletion;
     Tag.kWalDeletion2; Tag.kColumnFamily; Tag.kColumnFamilyAdd; Tag.kColumnFamilyDrop;
     Tag.kInAtomicGroup; Tag.kFullHistoryTsLow; Tag.kPersistUserDefinedTimestamps].

Definition known_custom_tag (tag : Z) : bool :=
  existsb (Z.eqb tag)
    [NewFileCustomTag.kPathId; NewFileCustomTag.kOldestAncesterTime; NewFileCustomTag.kFileCreationTime;
     NewFileCustomTag.kEpochNumber; NewFileCustomTag.kFileChecksum;
     NewFileCustomTag.kFileChecksumFuncName; NewFileCustomTag.kNeedCompaction;
     NewFileCustomTag.kMinLogNumberToKeepHack; NewFileCustomTag.kOldestBlobFileNumber;
     NewFileCustomTag.kTemperature; NewFileCustomTag.kUniqueId;
     NewFileCustomTag.kCompensatedRangeDeletionSize; NewFileCustomTag.kTailSize;
     NewFileCustomTag.kUserDefinedTimestampsPersisted; NewFileCustomTag.kTerminate].

(** Takes apart the knowledge that a tag is none of a list. *)
Ltac split_unknown H :=
  cbn [existsb] in H;
  repeat match type of H with
  | _ || _ = false => apply orb_false_iff in H as [? H]
  end.

Ltac refute_tests :=
  repeat match goal with
  | H : (?a =? ?b) = false |- context [?a =? ?b] => rewrite H; clear H
  end; cbn [orb].

Lemma DecodeTag_unknown e tag input : known_tag tag = false ->
  DecodeTag e tag input =
  if negb (Z.land tag Tag.kTagSafeIgnoreMask =? 0) then
    match GetVarint32 input with
    | Some (field_len, input) =>
        if slen input <? field_len then Msg e "safely ignoreable tag length error"
        else Go e (sdrop field_len input)
    | None => Msg e "safely ignoreable tag length error"
    end
  else Msg e "unknown tag".
Proof. unfold known_tag. intros H. split_unknown H. unfold DecodeTag. refute_tests. done. Qed.

Lemma DecodeCustomField_unknown e f p tag field : known_custom_tag tag = false ->
  DecodeCustomField e f p tag field =
  if negb (Z.land tag NewFileCustomTag.kCustomTagNonSafeIgnoreMask =? 0)
  then inl "new-file4 custom field not supported"%string else inr (e, f, p).
Proof. unfold known_custom_tag. intros H. split_unknown H. unfold DecodeCustomField. refute_tests. done. Qed.

Lemma decode_ignorable e tag payload rest : is_u32 tag -> known_tag tag = false ->
  Z.land tag Tag.kTagSafeIgnoreMask <> 0 -> is_u32 (slen payload) ->
  decode e (EncodeVarint32 tag ++ PutLengthPrefixedSlice [] payload ++ rest) = decode e rest.
Proof.
  intros Ht Hk Hm Hp. rewrite decode_unfold, GetVarint32_Encode by done.
  rewrite DecodeTag_unknown, (proj2 (Z.eqb_neq _ _) Hm) by done. cbn [negb].
  unfold PutLengthPrefixedSlice, PutVarint32. rewrite app_nil_l, <- app_assoc, u32_id by done.
  rewrite GetVarint32_Encode by done. rewrite slen_app. pose proof (slen_nonneg rest).
  zcase. by rewrite sdrop_app.
Qed.

Lemma decode_refused e tag rest : is_u32 tag -> known_tag tag = false ->
  Z.land tag Tag.kTagSafeIgnoreMask = 0 ->
  decode e (EncodeVarint32 tag ++ rest) = (Corruption2 "VersionEdit" "unknown tag", e).
Proof.
  intros Ht Hk Hm. rewrite decode_unfold, GetVarint32_Encode by done.
  by rewrite DecodeTag_unknown, (proj2 (Z.eqb_eq _ _) Hm) by done.
Qed.

(** What follows an encoded edit is read from the edit it encodes. *)
Lemma decode_after ts_sz e0 e out rest : edit_wf ts_sz e ->
  VersionEdit_EncodeTo e [] (Some ts_sz) = Encoded true out ->
  VersionEdit_DecodeFrom e0 (out ++ rest) = decode (reloaded ts_sz e0 e) rest.
Proof.
  intros He Henc. destruct (edit_encoded ts_sz e0 e [] He) as (out' & Henc' & Hd).
  rewrite Henc in Henc'. injection Henc' as ->. exact (Hd rest).
Qed.

(** [C30] Forward compatibility of the manifest: behind an encoded edit, a
    record with an unknown tag that has the bit [kTagSafeIgnoreMask] is skipped
    whatever it holds, and the records after it are read as if it were not
    there; an unknown tag without the bit is refused as a corruption. Likewise
    an unknown custom field of a new file is skipped, unless its tag has the
    bit [kCustomTagNonSafeIgnoreMask]. *)
Theorem manifest_forward_compatible (ts_sz : Z) (e0 e : VersionEdit) (out : bytes) (tag : Z)
    (payload rest : bytes) (f : FileMetaData) (path_id : Z) :
  edit_wf ts_sz e ->
  VersionEdit_EncodeTo e [] (Some ts_sz) = Encoded true out ->
  is_u32 tag -> is_u32 (slen payload) ->
  (known_tag tag = false ->
   (Z.land tag Tag.kTagSafeIgnoreMask <> 0 ->
    VersionEdit_DecodeFrom e0 (out ++ EncodeVarint32 tag ++ PutLengthPrefixedSlice [] payload ++ rest) =
    VersionEdit_DecodeFrom e0 (out ++ rest)) /\
   (Z.land tag Tag.kTagSafeIgnoreMask = 0 ->
    VersionEdit_DecodeFrom e0 (out ++ EncodeVarint32 tag ++ rest) =
    (Corruption2 "VersionEdit" "unknown tag", reloaded ts_sz e0 e))) /\
  (known_custom_tag tag = false ->
   DecodeCustomFields (length (PutCustomField [] tag payload ++ rest)) e f path_id
     (PutCustomField [] tag payload ++ rest) =
   if Z.land tag NewFileCustomTag.kCustomTagNonSafeIgnoreMask =? 0
   then DecodeCustomFields (length rest) e f path_id rest
   else (e, inl "new-file4 custom field not supported"%string)).
Proof.
  intros He Henc Ht Hp. split.
  - intros Hk. rewrite !(decode_after ts_sz e0 e out) by done. split; intros Hm.
    + by apply decode_ignorable.
    + by apply decode_refused.
  - intros Hk. pose proof (DecodeCustomField_unknown e f path_id tag payload Hk) as Hd.
    assert (Hterm : tag <> NewFileCustomTag.kTerminate) by (intros ->; done).
    unfold PutCustomField. rewrite put_slice_app, app_nil_l, <- app_assoc.
    destruct (Z.eqb_spec (Z.land tag NewFileCustomTag.kCustomTagNonSafeIgnoreMask) 0) as [Hm|Hm]; cbn [negb] in Hd.
    + exact (fields_field (e, f, path_id) (e, f, path_id) tag payload rest Ht Hterm Hp Hd).
    + destruct (length _); cbn [DecodeCustomFields]; rewrite GetVarint32_Encode by done; zcase;
        rewrite GetLengthPrefixedSlice_Put by done; by rewrite Hd.
Qed.

Lemma manifest_forward_compatible_witness :
  exists out, VersionEdit_EncodeTo sample_edit [] (Some 0) = Encoded true out /\
  VersionEdit_DecodeFrom VersionEdit_new
    (out ++ EncodeVarint32 (Tag.kTagSafeIgnoreMask + 77) ++ PutLengthPrefixedSlice [] [Byte.x01] ++ []) =
  VersionEdit_DecodeFrom VersionEdit_new (out ++ []).
Proof.
  destruct (VersionEdit_EncodeTo sample_edit [] (Some 0)) as [[] out|] eqn:E; try discriminate.
  exists out. split; [reflexivity|].
  refine (proj1 (proj1 (manifest_forward_compatible 0 VersionEdit_new sample_edit out
    (Tag.kTagSafeIgnoreMask + 77) [Byte.x01] [] FileMetaData_default 0 sample_edit_wf E _ _) _) _).
  - split; vm_compute; congruence.
  - split; vm_compute; congruence.
  - reflexivity.
  - vm_compute. discriminate.
Defined.

(** ** Two edges of the format *)

(** [Clear] keeps the timestamp flag: a record without that field, decoded into
    an object that had it, has it. *)
Lemma clear_keeps_timestamp_flag (e : VersionEdit) (b : bool) :
  VersionEdit_DecodeFrom (SetPersistUserDefinedTimestamps e b) [] =
  (OK, VersionEdit_Clear (SetPersistUserDefinedTimestamps e b)) /\
  has_persist_user_defined_timestamps_
    (VersionEdit_DecodeFrom (SetPersistUserDefinedTimestamps e b) []).2 = true.
Proof. by split. Qed.

(** The packed number of a file holds its path id modulo 4. *)
Lemma path_id_wraps (number path_id size : Z) :
  0 <= number <= kFileNumberMask -> is_u32 path_id ->
  GetPathId (mkFileDescriptor3 number path_id size) = path_id mod 4.
Proof.
  intros Hn Hp. unfold GetPathId, mkFileDescriptor3, mkFileDescriptor, PackFileNumberAndPathId. cbn.
  assert (Hw : u64 (path_id * u64 (kFileNumberMask + 1)) = (path_id mod 4) * 2 ^ 62).
  { change (u64 (kFileNumberMask + 1)) with (2 ^ 62). unfold u64.
    change (2 ^ 64) with (4 * 2 ^ 62). by rewrite Z.mul_mod_distr_r. }
  rewrite Hw. change (kFileNumberMask + 1) with (2 ^ 62) in *. change kFileNumberMask with (2 ^ 62 - 1) in Hn.
  rewrite <- Z.shiftl_mul_pow2, <- Z.shiftr_div_pow2, Z.shiftr_lor, Z.shiftr_shiftl_l, Z.sub_diag by lia.
  rewrite (Z.shiftr_div_pow2 number), Z.div_small by lia. cbn [Z.lor].
  rewrite Z.shiftl_0_r. unfold u32. apply Z.mod_small. pose proof (Z.mod_pos_bound path_id 4). lia.
Qed.
