(* ===== verification/ManifestAtomic.v ===== *)
(** The manifest across a crash: the edits that reach a handler are those of
    the units - single edits and whole atomic groups - that are complete in the
    surviving bytes of the file, in the order they were written. *)

From S2P Require Import Prelude Records StdMap Coding Crc32c WalEdit BlobEdit VersionEdit VersionEditRoundtrip.
From S2P Require Import LogWriter LogReader LogRoundtrip ManifestReplay.

(** ** Units of the manifest *)

(** An edit on its own or an atomic group, each edit with the timestamp size it
    is encoded with. *)
Inductive manifest_unit :=
| Single (e : VersionEdit) (ts_sz : Z)
| Group (es : list (VersionEdit * Z)).

(** The records of a unit, in the order of writing. *)
Definition unit_edits (u : manifest_unit) : list (VersionEdit * Z) :=
  match u with
  | Single e ts => [(e, ts)]
  | Group es => zip (mark_atomic_group (map fst es) (slen es)) (map snd es)
  end.

Definition unit_ok (u : manifest_unit) : Prop :=
  match u with
  | Single e ts => is_in_atomic_group_ e = false /\ edit_wf ts e
  | Group es => es <> [] /\ is_u32 (slen es) /\ Forall (fun p => edit_wf p.2 p.1) es
  end.

(** What reading a record of [e] gives. *)
Definition read_edit (p : VersionEdit * Z) : VersionEdit := reloaded p.2 VersionEdit_new p.1.

Definition unit_read (u : manifest_unit) : list VersionEdit := map read_edit (unit_edits u).

(** The edits of the units that are complete within the first [k] records. *)
Fixpoint complete (k : nat) (us : list manifest_unit) : list VersionEdit :=
  match us with
  | [] => []
  | u :: us' =>
      if (length (unit_edits u) <=? k)%nat
      then unit_read u ++ complete (k - length (unit_edits u)) us' else []
  end.

(** ** The read buffer *)

Section Buffer.

Context {S : Type} `{!EditHandler S}.

(** The decoded edits one after the other, as long as the status is OK. *)
Fixpoint HandleEdits (st : S) (buf : AtomicGroupReadBuffer) (edits : list VersionEdit)
    : Status * S * AtomicGroupReadBuffer :=
  match edits with
  | [] => (OK, st, buf)
  | e :: edits' =>
      let '(s, st, buf) := HandleEdit st buf e in
      if ok s then HandleEdits st buf edits' else (s, st, buf)
  end.

(** Edits that continue a group: each says how many follow. *)
Fixpoint counts_down (edits : list VersionEdit) : Prop :=
  match edits with
  | [] => True
  | e :: edits' => is_in_atomic_group_ e = true /\ remaining_entries_ e = slen edits' /\ counts_down edits'
  end.

(** The buffer after [pre], when [n] edits are still to come. *)
Definition filling (pre : list VersionEdit) (n : nat) : AtomicGroupReadBuffer :=
  match pre with
  | [] => AtomicGroupReadBuffer_new
  | _ => {| read_edits_in_atomic_group_ := slen pre;
            replay_buffer_ := pre ++ replicate n VersionEdit_new |}
  end.

Definition full (pre : list VersionEdit) : AtomicGroupReadBuffer :=
  {| read_edits_in_atomic_group_ := slen pre; replay_buffer_ := pre |}.

Lemma slen_pos {A} (x : A) l : (slen (x :: l) =? 0) = false.
Proof. rewrite slen_cons. pose proof (slen_nonneg l). by zcase. Qed.

(** One edit of a group takes its place in the buffer. *)
Lemma AddEdit_group pre e rest :
  counts_down (e :: rest) -> slen (pre ++ e :: rest) < 2 ^ 32 ->
  AddEdit (filling pre (length (e :: rest))) e =
  (OK, {| read_edits_in_atomic_group_ := slen (pre ++ [e]);
          replay_buffer_ := (pre ++ [e]) ++ replicate (length rest) VersionEdit_new |}).
Proof.
  intros (Ha & Hr & _) Hlen. unfold AddEdit. rewrite Ha, Hr.
  rewrite slen_app, slen_cons in Hlen. pose proof (slen_nonneg rest). pose proof (slen_nonneg pre).
  set (b := if slen (replay_buffer_ (filling pre (length (e :: rest)))) =? 0
            then vector_resize (Z.to_nat (u32 (slen rest + 1))) VersionEdit_new
                   (replay_buffer_ (filling pre (length (e :: rest))))
            else replay_buffer_ (filling pre (length (e :: rest)))).
  assert (b = pre ++ replicate (length (e :: rest)) VersionEdit_new /\
    read_edits_in_atomic_group_ (filling pre (length (e :: rest))) = slen pre) as [Hb Hn].
  { subst b. destruct pre as [|p pre]; cbn [filling replay_buffer_ read_edits_in_atomic_group_ AtomicGroupReadBuffer_new].
    - split; [|done]. rewrite slen_nil in Hlen. rewrite u32_id by (unfold is_u32; lia). unfold vector_resize, slen. cbn.
      rewrite firstn_nil. replace (Z.to_nat (Z.of_nat (length rest) + 1)) with (Datatypes.S (length rest)) by lia. done.
    - split; [|done]. by rewrite <- app_comm_cons, slen_pos. }
  rewrite Hb, Hn. clear b Hb Hn. cbv zeta.
  rewrite (u64_id (slen pre + 1)) by (unfold is_u64; lia). rewrite u64_id by (unfold is_u64; lia).
  rewrite slen_app, slen_replicate, u32_id by (unfold is_u32; cbn [length]; unfold slen in *; lia).
  rewrite (proj2 (Z.eqb_eq _ _)) by (cbn [length]; unfold slen; lia). cbn [negb].
  rewrite slen_app. change (slen [e]) with 1. do 2 f_equal.
  replace (Z.to_nat (slen pre + 1 - 1)) with (length pre + 0)%nat by (unfold slen; lia).
  rewrite insert_app_r. rewrite <- app_assoc. done.
Qed.

Lemma IsFull_filling pre n :
  Buffer_IsFull {| read_edits_in_atomic_group_ := slen pre;
                   replay_buffer_ := pre ++ replicate n VersionEdit_new |} = (n =? 0)%nat.
Proof.
  unfold Buffer_IsFull. cbn. rewrite slen_app, slen_replicate.
  destruct (Nat.eqb_spec n 0); [subst; apply Z.eqb_eq|apply Z.eqb_neq]; lia.
Qed.

(** A group that is read to its end is applied as a whole; one that is cut off
    leaves the handler as it was. *)
Lemma HandleEdits_group st pre es rest :
  es <> [] -> counts_down es -> slen (pre ++ es) < 2 ^ 32 ->
  HandleEdits st (filling pre (length es)) (es ++ rest) =
  let '(s, st') := ApplyAll st (pre ++ es) in
  if ok s then HandleEdits st' AtomicGroupReadBuffer_new rest else (s, st', full (pre ++ es)).
Proof.
  revert pre; induction es as [|e es IH]; intros pre Hne Hc Hlen; [done|].
  cbn [app HandleEdits]. unfold HandleEdit. rewrite AddEdit_group by done. cbn [ok negb].
  rewrite (proj1 Hc), IsFull_filling. destruct es as [|e' es].
  - cbn [length Nat.eqb replay_buffer_ replicate]. rewrite app_nil_r.
    destruct (ApplyAll st (pre ++ [e])) as [s st'] eqn:E. destruct s; done.
  - cbn [length Nat.eqb]. cbn [ok]. destruct Hc as (_ & _ & Hc).
    specialize (IH (pre ++ [e])). rewrite <- app_assoc in IH. cbn [app] in IH.
    unfold filling in IH. destruct (pre ++ [e]) as [|p0 pre0] eqn:Ep; [by destruct pre|].
    exact (IH ltac:(done) Hc Hlen).
Qed.

Lemma HandleEdits_cut st pre es k :
  counts_down es -> slen (pre ++ es) < 2 ^ 32 -> (k < length es)%nat ->
  exists buf, HandleEdits st (filling pre (length es)) (take k es) = (OK, st, buf).
Proof.
  revert pre es; induction k as [|k IH]; intros pre es Hc Hlen Hk; [by eexists|].
  destruct es as [|e es]; [cbn in Hk; lia|]. cbn [take HandleEdits]. unfold HandleEdit.
  rewrite AddEdit_group by done. cbn [ok negb]. rewrite (proj1 Hc), IsFull_filling.
  cbn [length] in Hk. destruct (Nat.eqb_spec (length es) 0); [lia|]. cbn [ok].
  destruct Hc as (_ & _ & Hc). destruct (IH (pre ++ [e]) es) as [buf Hb]; [done|by rewrite <- app_assoc|lia|].
  exists buf. unfold filling in Hb. destruct (pre ++ [e]) as [|p0 pre0] eqn:Ep; [by destruct pre|]. exact Hb.
Qed.

Lemma ApplyAll_app st l1 l2 :
  ApplyAll st (l1 ++ l2) =
  let '(s, st') := ApplyAll st l1 in if ok s then ApplyAll st' l2 else (s, st').
Proof.
  revert st; induction l1 as [|e l1 IH]; intros st; [done|]. cbn [app ApplyAll].
  destruct (h_ApplyVersionEdit st e) as [s st']. destruct (ok s) eqn:Es; [apply IH|by rewrite Es].
Qed.

End Buffer.

(** ** Units *)

Lemma unit_read_length u : length (unit_read u) = length (unit_edits u).
Proof. apply length_map. Qed.

Lemma mark_length es n : length (mark_atomic_group es n) = length es.
Proof. revert n; induction es as [|e es IH]; intros n; cbn; [done|]. by rewrite IH. Qed.

Lemma group_counts_down es : is_u32 (slen es) -> counts_down (unit_read (Group es)).
Proof.
  unfold unit_read. cbn [unit_edits]. induction es as [|[e ts] es IH]; intros Hn; [done|].
  rewrite slen_cons in *. unfold is_u32 in *. pose proof (slen_nonneg es). cbn [map fst snd mark_atomic_group zip zip_with].
  replace (1 + slen es - 1) with (slen es) by lia. cbn [counts_down]. split; [done|]. split; [|apply IH; lia].
  unfold read_edit. cbn [fst snd]. rewrite u32_id by (unfold is_u32; lia).
  unfold slen. rewrite length_map, length_zip_with, mark_length, !length_map.
  change (remaining_entries_ (reloaded ts VersionEdit_new (MarkAtomicGroup e (Z.of_nat (length es)))))
    with (Z.of_nat (length es)). lia.
Qed.

Lemma group_length es : length (unit_read (Group es)) = length es.
Proof. unfold unit_read. cbn [unit_edits]. rewrite length_map, length_zip_with, mark_length, !length_map. lia. Qed.

Section Units.

Context {S : Type} `{!EditHandler S}.

Lemma HandleEdits_unit (st : S) u rest : unit_ok u ->
  (let '(s, st') := ApplyAll st (unit_read u) in
   if ok s then HandleEdits st (AtomicGroupReadBuffer_new) (unit_read u ++ rest) =
     HandleEdits st' AtomicGroupReadBuffer_new rest
   else exists buf, HandleEdits st AtomicGroupReadBuffer_new (unit_read u ++ rest) = (s, st', buf)).
Proof.
  destruct u as [e ts|es]; intros Hu.
  - destruct Hu as [Ha _]. cbn [unit_read unit_edits map app ApplyAll HandleEdits].
    unfold HandleEdit, AddEdit. change (is_in_atomic_group_ (read_edit (e, ts))) with (is_in_atomic_group_ e).
    rewrite Ha. cbn [replay_buffer_ AtomicGroupReadBuffer_new]. change (slen (@nil VersionEdit) =? 0) with true.
    cbn [negb ok]. destruct (h_ApplyVersionEdit st (read_edit (e, ts))) as [s st']. destruct (ok s) eqn:Es.
    + cbn. by rewrite ?Es.
    + rewrite ?Es. by eexists.
  - destruct Hu as (Hne & Hn & _). pose proof (group_counts_down es Hn) as Hc.
    pose proof (group_length es) as Hl.
    assert (unit_read (Group es) <> []) as Hne'.
    { intros Hx. rewrite Hx in Hl. cbn in Hl. destruct es; [done|cbn in Hl; lia]. }
    pose proof (HandleEdits_group st [] (unit_read (Group es)) rest Hne' Hc) as HG. cbn [filling app] in HG.
    destruct (ApplyAll st (unit_read (Group es))) as [s st'].
    assert (slen (unit_read (Group es)) < 2 ^ 32) as Hlen by (unfold is_u32, slen in *; lia).
    specialize (HG Hlen). destruct (ok s); [exact HG|]. by eexists.
Qed.

Lemma HandleEdits_units us : forall k (st : S), Forall unit_ok us ->
  exists buf, HandleEdits st AtomicGroupReadBuffer_new (take k (concat (map unit_read us))) =
    let '(s, st') := ApplyAll st (complete k us) in (s, st', buf).
Proof.
  induction us as [|u us IH]; intros k st Hus.
  { cbn. rewrite take_nil. by eexists. }
  apply list.Forall_cons in Hus as [Hu Hus]. cbn [map concat complete].
  destruct (Nat.leb_spec (length (unit_edits u)) k) as [Hk|Hk].
  - rewrite take_app_ge by (by rewrite unit_read_length). rewrite ApplyAll_app.
    pose proof (HandleEdits_unit st u (take (k - length (unit_read u)) (concat (map unit_read us))) Hu) as Hh.
    rewrite unit_read_length in *. destruct (ApplyAll st (unit_read u)) as [s st']. destruct (ok s) eqn:Es.
    + rewrite Hh. apply IH. done.
    + destruct Hh as [buf Hb]. rewrite Hb. by eexists.
  - rewrite take_app_le by (rewrite unit_read_length; lia). cbn [ApplyAll].
    destruct u as [e ts|es]; [cbn in Hk; assert (k = 0)%nat as -> by lia; by eexists|].
    destruct Hu as (Hne & Hn & _).
    destruct (HandleEdits_cut st [] (unit_read (Group es)) k) as [buf Hb].
    + by apply group_counts_down.
    + cbn [app]. pose proof (group_length es). unfold is_u32, slen in *. lia.
    + by rewrite unit_read_length.
    + exists buf. exact Hb.
Qed.

End Units.

(** ** Records *)

(** [r] is the encoding of an edit, and reads back as such. *)
Definition record_of (p : VersionEdit * Z) (r : bytes) : Prop :=
  VersionEdit_EncodeTo p.1 [] (Some p.2) = Encoded true r /\
  VersionEdit_DecodeFrom VersionEdit_new r = (OK, read_edit p).

Lemma record_of_wf p : edit_wf p.2 p.1 -> exists r, record_of p r.
Proof.
  intros He. destruct (edit_encoded p.2 VersionEdit_new p.1 [] He) as (r & Henc & Hd).
  exists r. split; [exact Henc|]. specialize (Hd []). rewrite app_nil_r in Hd. exact Hd.
Qed.

Lemma records_of_wf ps : Forall (fun p => edit_wf p.2 p.1) ps -> exists rs, Forall2 record_of ps rs.
Proof.
  induction 1 as [|p ps Hp _ [rs IH]]; [by exists []|].
  destruct (record_of_wf p Hp) as [r Hr]. exists (r :: rs). by constructor.
Qed.

Lemma MarkAtomicGroup_wf ts e n : edit_wf ts e -> is_u32 n -> edit_wf ts (MarkAtomicGroup e n).
Proof. intros [] Hn. constructor; done. Qed.

Lemma mark_wf es n : Forall (fun p => edit_wf p.2 p.1) es ->
  Forall (fun p => edit_wf p.2 p.1) (zip (mark_atomic_group (map fst es) n) (map snd es)).
Proof.
  intros Hes. revert n. induction Hes as [|[e ts] es He _ IH]; intros n; cbn; [constructor|].
  constructor; [|apply IH]. cbn in *. apply MarkAtomicGroup_wf; [done|apply u32_range].
Qed.

Lemma units_wf us : Forall unit_ok us -> Forall (fun p => edit_wf p.2 p.1) (concat (map unit_edits us)).
Proof.
  induction 1 as [|[e ts|es] us Hu _ IH]; cbn [map concat]; [constructor| |]; apply Forall_app; split; try done.
  - destruct Hu. by apply Forall_singleton.
  - apply mark_wf. apply Hu.
Qed.

Lemma unit_read_concat us : map read_edit (concat (map unit_edits us)) = concat (map unit_read us).
Proof. rewrite concat_map, map_map. done. Qed.

(** ** The log *)

Section Log.

Context {D C F H U S : Type} `{!WritableFile D} `{!StreamingCompress C}.
Context `{!SequentialFile F} `{!StreamingHash H} `{!StreamingUncompress U} `{!EditHandler S}.

Lemma WriteEdits_records dbg (w : Writer D C) ps rs q s w' q' :
  Forall2 record_of ps rs ->
  WriteEdits dbg w (map (fun p => (p.1, Some p.2)) ps) q = Some (s, w', q') ->
  AddRecords w rs = Some (s, w').
Proof.
  intros Hrs. revert w q. induction Hrs as [|p r ps rs [He _] _ IH]; intros w q; cbn [map WriteEdits AddRecords].
  - by intros [= <- <- _].
  - rewrite He. destruct (AddRecord _ w r) as [[io w1]|]; [|done].
    destruct (ok io); [apply IH|by intros [= <- <- _]].
Qed.

Lemma HandleRecord_record (st : S) buf p r : record_of p r ->
  HandleRecord st buf r = HandleEdit st buf (read_edit p).
Proof. intros [_ Hd]. unfold HandleRecord. by rewrite Hd. Qed.

(** The loop sees the records of the log one by one. *)
Lemma Iterate_loop_seq max Fc (r : Reader F H U) l r' ps :
  read_seq kTolerateCorruptedTailRecords None Fc r l r' ->
  reporter_ r = Some [] -> reporter_ r' = Some [] -> slen Fc < max -> Forall2 record_of ps l ->
  forall fuel (st : S) buf, (length l < fuel)%nat ->
  exists r'', log_read_status r'' = OK /\
    ManifestIterate_loop max fuel OK st buf r =
    Some (let '(s, st, buf) := HandleEdits st buf (map read_edit ps) in (s, st, buf, r'')).
Proof.
  intros Hs. revert ps. induction Hs as [pos r x c' r' Hat E|pos r x r1 l r' Hat E Hconf _ IH];
    intros ps Hr Hr' Hmax Hps [|fuel] st buf Hf; cbn [length] in Hf; try lia.
  all: assert ((LastRecordEnd r <? max) && ok OK = true) as Hgo
    by (unfold LastRecordEnd; rewrite (ap_len _ _ _ Hat); pose proof (ap_pos _ _ _ Hat); cbn; rewrite andb_true_r;
        apply Z.ltb_lt; lia).
  all: cbn [ManifestIterate_loop]; rewrite Hgo, E.
  - apply Forall2_nil_inv_r in Hps as ->. exists r'. split; [|done]. unfold log_read_status. by rewrite Hr'.
  - apply Forall2_cons_inv_r in Hps as (p & ps' & Hp & Hps & ->).
    assert (reporter_ r1 = Some []) as Hr1 by (unfold conf in Hconf; congruence).
    assert (log_read_status r1 = OK) as Hl1 by (unfold log_read_status; by rewrite Hr1).
    rewrite Hl1. cbn [ok negb map HandleEdits]. rewrite (HandleRecord_record st buf p x Hp).
    destruct (HandleEdit st buf (read_edit p)) as [[s st1] buf1]. destruct (ok s) eqn:Es.
    + assert (s = OK) as -> by (by destruct s). apply (IH ps'); [done..|lia].
    + exists r1. split; [done|]. destruct fuel; cbn [ManifestIterate_loop]; rewrite Es, andb_false_r; done.
Qed.

(** [C2] The manifest is atomic across crashes. Let a sequence of edits and
    atomic groups be written to an empty manifest, up to a failure of the
    device if there is one, and let the file survive up to any byte. Then
    reading the manifest, whatever the handler, applies exactly the edits of
    the units all of whose records are complete in the surviving bytes, in
    order and as they were written, or stops at the first edit the handler
    refuses; of a group that is cut off nothing is applied, and the read ends
    with the status of the handler alone. *)
Theorem manifest_crash_atomic (dbg : VersionEdit -> string) (d : D) (manual_flush : bool)
    (us : list manifest_unit) (s : Status) (w' : Writer D C) (q : list (list Z)) (n : Z)
    (f : F) (fuel : nat) (checksum : bool) (max : Z) (st0 st : S) (file_name : string) :
  w_contents d = [] -> Forall unit_ok us ->
  WriteEdits dbg (Writer_make d 0 false manual_flush kNoCompression)
    (map (fun p => (p.1, Some p.2)) (concat (map unit_edits us))) [] = Some (s, w', q) ->
  healthy f -> remaining f = stake n (w_contents (dest_ w')) -> slen (remaining f) < max ->
  (length (concat (map unit_edits us)) < fuel)%nat ->
  h_Initialize st0 = (OK, st) ->
  exists rs k buf r',
    Forall2 (fun p r => VersionEdit_EncodeTo p.1 [] (Some p.2) = Encoded true r)
      (concat (map unit_edits us)) rs /\
    slen (log_layout false 0 0 (take k rs)) <= slen (remaining f) /\
    ((k < length rs)%nat -> slen (remaining f) < slen (log_layout false 0 0 (take (Datatypes.S k) rs))) /\
    ManifestIterate max fuel file_name st0 AtomicGroupReadBuffer_new
      (Reader_make (H:=H) (U:=U) f (Some []) checksum 0) =
    let '(s, st) := ApplyAll st (complete k us) in
    let '(s, st) := h_CheckIterationResult st (GetReadOffset r') s in
    Some (if ok s then None else Some (name_file file_name s), st, buf, r').
Proof.
  intros Hd Hus HW Hf Hrem Hmax Hfuel Hinit.
  destruct (records_of_wf _ (units_wf us Hus)) as [rs Hrs].
  pose proof (WriteEdits_records dbg _ _ rs _ _ _ _ Hrs HW) as HA.
  destruct (AddRecords_fresh _ _ _ _ _ _ _ Hd HA) as (q' & HL & _).
  rewrite <- (stake_sdrop n (w_contents (dest_ w'))), <- Hrem, <- app_assoc in HL.
  destruct (read_prefix (H:=H) (U:=U) false 0 rs f (Some []) checksum kTolerateCorruptedTailRecords None _
    ltac:(done) Hf HL) as (k & r1 & Hseq & (Hk & Hk1 & Hk2 & Hk3 & _) & _).
  assert (reporter_ r1 = Some []) as Hr1.
  { specialize (Hk3 eq_refl). unfold conf in Hk3. cbn in Hk3. congruence. }
  pose proof (Forall2_take _ _ _ k Hrs) as Hrsk. pose proof (Forall2_length Hrs) as Hlen.
  destruct (Iterate_loop_seq max _ _ _ _ _ Hseq eq_refl Hr1 Hmax Hrsk fuel st AtomicGroupReadBuffer_new)
    as (r' & Hlog & Hit); [rewrite length_take; lia|].
  rewrite <- firstn_map, unit_read_concat in Hit.
  destruct (HandleEdits_units us k st Hus) as [buf Hb]. rewrite Hb in Hit.
  exists rs, k, buf, r'. split; [eapply Forall2_impl; [|exact Hrs]; by intros ?? []|].
  split; [done|]. split; [done|]. unfold ManifestIterate. rewrite Hinit, Hit.
  destruct (ApplyAll st (complete k us)) as [s1 st1]. rewrite Hlog. done.
Qed.

End Log.

(** Two column families are created in one atomic group. *)
Definition sample_group : manifest_unit :=
  Group [(SetColumnFamily (AddColumnFamily VersionEdit_new [Byte.x61]) 1, 0);
         (SetColumnFamily (AddColumnFamily VersionEdit_new [Byte.x62]) 2, 0)].

Lemma sample_group_ok : unit_ok sample_group.
Proof.
  split; [done|]. split; [split; vm_compute; congruence|].
  repeat (apply List.Forall_cons; [constructor; first [ranges; fail | constructor]|]). constructor.
Qed.

(** The file is cut off in the second record of the group: nothing is applied. *)
Lemma manifest_crash_atomic_witness :
  exists (w' : Writer bytes Empty_set) (q : list (list Z)) rs k buf (r' : Reader bytes bytes Empty_set),
    WriteEdits (fun _ => ""%string) (Writer_make [] 0 false false kNoCompression)
      (map (fun p => (p.1, Some p.2)) (concat (map unit_edits [sample_group]))) [] = Some (OK, w', q) /\
    Forall2 (fun p r => VersionEdit_EncodeTo p.1 [] (Some p.2) = Encoded true r)
      (concat (map unit_edits [sample_group])) rs /\
    slen (log_layout false 0 0 (take k rs)) <= 20 /\
    ManifestIterate 1000 3 "MANIFEST-000001" ListColumnFamiliesHandler_new AtomicGroupReadBuffer_new
      (Reader_make (H:=bytes) (U:=Empty_set) (stake 20 (w_contents (dest_ w'))) (Some []) true 0) =
    (let '(s, st) := ApplyAll ListColumnFamiliesHandler_new (complete k [sample_group]) in
     Some (if ok s then None else Some (name_file "MANIFEST-000001" s), st, buf, r')).
Proof.
  destruct (WriteEdits (D:=bytes) (C:=Empty_set) (fun _ => ""%string)
    (Writer_make [] 0 false false kNoCompression)
    (map (fun p => (p.1, Some p.2)) (concat (map unit_edits [sample_group]))) []) as [[[s w'] q]|] eqn:E;
    [|vm_compute in E; discriminate].
  assert (s = OK /\ slen (stake 20 (w_contents (dest_ w'))) = 20) as [-> Hl]
    by (vm_compute in E; by injection E as <- <- <-).
  destruct (manifest_crash_atomic (D:=bytes) (C:=Empty_set) (F:=bytes) (H:=bytes) (U:=Empty_set)
    (fun _ => ""%string) [] false [sample_group] OK w' q 20 (stake 20 (w_contents (dest_ w'))) 3 true 1000
    ListColumnFamiliesHandler_new ListColumnFamiliesHandler_new "MANIFEST-000001")
    as (rs & k & buf & r' & Hrs & Hk & _ & Hit).
  - reflexivity.
  - apply Forall_singleton. exact sample_group_ok.
  - exact E.
  - exact I.
  - reflexivity.
  - cbn [remaining]. change (slen (stake 20 (w_contents (dest_ w'))) < 1000). rewrite Hl. lia.
  - vm_compute. lia.
  - reflexivity.
  - exists w', q, rs, k, buf, r'. split; [reflexivity|]. split; [exact Hrs|].
    change (remaining (stake 20 (w_contents (dest_ w')))) with (stake 20 (w_contents (dest_ w'))) in Hk.
    rewrite Hl in Hk. split; [exact Hk|]. exact Hit.
Defined.
