(* ===== verification/VersionStorage.v ===== *)
(** * The contents of a version

    Models db/blob/blob_file_meta.h and the part of [VersionStorageInfo]
    (db/version_set.h, db/version_set.cc) that [VersionBuilder] reads and fills:
    the table files of each level, the index from file numbers to places, the
    blob files, the cursors of round-robin compaction and the statistics.

    Versions share the objects [FileMetaData]. A pointer to one is a [FilePtr]:
    its address and the fields of the object, which the modelled code does not
    write once the object exists. The exception is the reference count, which
    lives in a store of its own from addresses to counts ([FileRefs]); an address
    that is not in the store was freed. *)

From stdpp Require Import gmap.
From S2P Require Import Prelude Records StdMap DbFormat Slice Comparator VersionEdit.

(** ** Blob files (db/blob/blob_file_meta.h) *)

Record SharedBlobFileMetaData := {
  sm_blob_file_number_ : Z;
  sm_total_blob_count_ : Z;
  sm_total_blob_bytes_ : Z;
  sm_checksum_method_ : bytes;
  sm_checksum_value_ : bytes
}.

(** [LinkedSsts] is an [unordered_set] that is only searched and compared. *)
Record BlobFileMetaData := {
  bm_shared_meta_ : SharedBlobFileMetaData;
  bm_linked_ssts_ : gset Z;
  bm_garbage_blob_count_ : Z;
  bm_garbage_blob_bytes_ : Z
}.

#[export] Instance BlobFileMetaData_Settable : Settable BlobFileMetaData :=
  fun r => Build_BlobFileMetaData
    (bm_shared_meta_ r) (bm_linked_ssts_ r) (bm_garbage_blob_count_ r) (bm_garbage_blob_bytes_
    r).

Definition GetBlobFileNumber (m : BlobFileMetaData) : Z := sm_blob_file_number_ (bm_shared_meta_ m).

(** ** Pointers to files *)

Record FilePtr := { fp_addr : Z; fp_meta : FileMetaData }.

Definition FileNumber (f : FilePtr) : Z := GetNumber (fd (fp_meta f)).

Abbreviation FileRefs := (gmap Z Z).

(** [m.emplace(k, v)] of an [unordered_map]: an entry that is there stays. *)
Definition emplace {V : Type} (k : Z) (v : V) (m : gmap Z V) : gmap Z V :=
  match m !! k with Some _ => m | None => <[k := v]> m end.

(** ** VersionStorageInfo *)

Inductive EpochNumberRequirement := kMightMissing | kMustPresent.

#[export] Instance EpochNumberRequirement_eq_dec : EqDecision EpochNumberRequirement.
Proof. solve_decision. Defined.

(** [FileLocation]: level and position; [Invalid()] has level -1. *)
Record FileLocation := { loc_level_ : Z; loc_position_ : Z }.

Definition FileLocation_Invalid : FileLocation := {| loc_level_ := -1; loc_position_ := 0 |}.
Definition FileLocation_IsValid (l : FileLocation) : bool := 0 <=? loc_level_ l.

(** [files_] has one list for each of the [num_levels_] levels;
    [file_locations_] is an [unordered_map]. *)
Record VersionStorageInfo := {
  num_levels_ : Z;
  files_ : list (list FilePtr);
  file_locations_ : gmap Z FileLocation;
  blob_files_ : list BlobFileMetaData;
  compact_cursor_ : list bytes;
  accumulated_file_size_ : Z;
  accumulated_raw_key_size_ : Z;
  accumulated_raw_value_size_ : Z;
  accumulated_num_non_deletions_ : Z;
  accumulated_num_deletions_ : Z;
  current_num_non_deletions_ : Z;
  current_num_deletions_ : Z;
  current_num_samples_ : Z;
  force_consistency_checks_ : bool;
  epoch_number_requirement_ : EpochNumberRequirement
}.

#[export] Instance VersionStorageInfo_Settable : Settable VersionStorageInfo :=
  fun r => Build_VersionStorageInfo
    (num_levels_ r) (files_ r) (file_locations_ r) (blob_files_ r) (compact_cursor_ r)
    (accumulated_file_size_ r) (accumulated_raw_key_size_ r) (accumulated_raw_value_size_ r)
    (accumulated_num_non_deletions_ r) (accumulated_num_deletions_ r)
    (current_num_non_deletions_ r) (current_num_deletions_ r) (current_num_samples_ r)
    (force_consistency_checks_ r) (epoch_number_requirement_ r).

(** [compact_cursor_.resize(n)], new cursors being empty keys. *)
Definition resize_cursors (n : nat) (l : list bytes) : list bytes :=
  take n l ++ replicate (n - length l) [].

(** The constructor; [ref] is the version the statistics and cursors are taken
    over from. *)
Definition VersionStorageInfo_make (levels : Z) (ref : option VersionStorageInfo)
    (force : bool) (requirement : EpochNumberRequirement) : VersionStorageInfo :=
  let v := {|
    num_levels_ := levels; files_ := replicate (Z.to_nat levels) []; file_locations_ := ∅;
    blob_files_ := []; compact_cursor_ := replicate (Z.to_nat levels) [];
    accumulated_file_size_ := 0; accumulated_raw_key_size_ := 0;
    accumulated_raw_value_size_ := 0; accumulated_num_non_deletions_ := 0;
    accumulated_num_deletions_ := 0; current_num_non_deletions_ := 0;
    current_num_deletions_ := 0; current_num_samples_ := 0;
    force_consistency_checks_ := force; epoch_number_requirement_ := requirement |} in
  match ref with
  | None => v
  | Some r =>
      v <| accumulated_file_size_ := accumulated_file_size_ r |>
        <| accumulated_raw_key_size_ := accumulated_raw_key_size_ r |>
        <| accumulated_raw_value_size_ := accumulated_raw_value_size_ r |>
        <| accumulated_num_non_deletions_ := accumulated_num_non_deletions_ r |>
        <| accumulated_num_deletions_ := accumulated_num_deletions_ r |>
        <| current_num_non_deletions_ := current_num_non_deletions_ r |>
        <| current_num_deletions_ := current_num_deletions_ r |>
        <| current_num_samples_ := current_num_samples_ r |>
        <| compact_cursor_ := resize_cursors (Z.to_nat levels) (compact_cursor_ r) |>
  end.

(** [files_[level]]; an access outside the array is undefined. *)
Definition LevelFiles (v : VersionStorageInfo) (level : Z) : option (list FilePtr) :=
  if level <? 0 then None else files_ v !! Z.to_nat level.

(** [f->refs++] and [f->refs--]; the second also says whether the count is
    used up. *)
Definition file_ref (refs : FileRefs) (f : FilePtr) : option FileRefs :=
  r ← refs !! fp_addr f; Some (<[fp_addr f := s32 (r + 1)]> refs).

Definition file_unref (refs : FileRefs) (f : FilePtr) : option (FileRefs * bool) :=
  r ← refs !! fp_addr f;
  let r := s32 (r - 1) in Some (<[fp_addr f := r]> refs, r <=? 0).

(** [VersionStorageInfo::AddFile]. *)
Definition VSI_AddFile (v : VersionStorageInfo) (refs : FileRefs) (level : Z) (f : FilePtr)
    : option (VersionStorageInfo * FileRefs) :=
  level_files ← LevelFiles v level;
  refs ← file_ref refs f;
  Some (v <| files_ ::= <[Z.to_nat level := level_files ++ [f]]> |>, refs).

(** [VersionStorageInfo::AddBlobFile]. *)
Definition VSI_AddBlobFile (v : VersionStorageInfo) (m : BlobFileMetaData) : VersionStorageInfo :=
  v <| blob_files_ ::= fun l => l ++ [m] |>.

Definition UpdateAccumulatedStats (v : VersionStorageInfo) (f : FileMetaData) : VersionStorageInfo :=
  let non_deletions := u64 (num_entries f - num_deletions f) in
  v <| accumulated_file_size_ ::= fun x => u64 (x + file_size (fd f)) |>
    <| accumulated_raw_key_size_ ::= fun x => u64 (x + raw_key_size f) |>
    <| accumulated_raw_value_size_ ::= fun x => u64 (x + raw_value_size f) |>
    <| accumulated_num_non_deletions_ ::= fun x => u64 (x + non_deletions) |>
    <| accumulated_num_deletions_ ::= fun x => u64 (x + num_deletions f) |>
    <| current_num_non_deletions_ ::= fun x => u64 (x + non_deletions) |>
    <| current_num_deletions_ ::= fun x => u64 (x + num_deletions f) |>
    <| current_num_samples_ ::= fun x => u64 (x + 1) |>.

Definition RemoveCurrentStats (v : VersionStorageInfo) (f : FileMetaData) : VersionStorageInfo :=
  if init_stats_from_file f then
    v <| current_num_non_deletions_ ::= fun x => u64 (x - u64 (num_entries f - num_deletions f)) |>
      <| current_num_deletions_ ::= fun x => u64 (x - num_deletions f) |>
      <| current_num_samples_ ::= fun x => u64 (x - 1) |>
  else v.

(** [compact_cursor_[level] = key]. *)
Definition AddCursorForOneLevel (v : VersionStorageInfo) (level : Z) (key : bytes)
    : option VersionStorageInfo :=
  if (level <? 0) || (slen (compact_cursor_ v) <=? level) then None
  else Some (v <| compact_cursor_ ::= <[Z.to_nat level := key]> |>).

(** The files from [GetBlobFileMetaDataLB(number)] to the end: a [lower_bound]
    in the vector sorted by number. *)
Definition GetBlobFileMetaDataLB (v : VersionStorageInfo) (number : Z) : list BlobFileMetaData :=
  let fix lower_bound l :=
    match l with
    | [] => []
    | m :: l' => if GetBlobFileNumber m <? number then lower_bound l' else l
    end in
  lower_bound (blob_files_ v).

Definition GetBlobFileMetaData (v : VersionStorageInfo) (number : Z) : option BlobFileMetaData :=
  match GetBlobFileMetaDataLB v number with
  | m :: _ => if GetBlobFileNumber m =? number then Some m else None
  | [] => None
  end.

Definition GetFileLocation (v : VersionStorageInfo) (number : Z) : FileLocation :=
  default FileLocation_Invalid (file_locations_ v !! number).

(** [GetFileMetaDataByNumber]: [Some None] is a null pointer, [None] an access
    outside an array. *)
Definition GetFileMetaDataByNumber (v : VersionStorageInfo) (number : Z) : option (option FilePtr) :=
  let location := GetFileLocation v number in
  if negb (FileLocation_IsValid location) then Some None
  else level_files ← LevelFiles v (loc_level_ location);
       f ← level_files !! Z.to_nat (loc_position_ location);
       Some (Some f).

(** [GenerateFileLocationIndex]: the loops over the levels and over the files
    of one. *)
Fixpoint index_level (level pos : Z) (fs : list FilePtr) (m : gmap Z FileLocation)
    : gmap Z FileLocation :=
  match fs with
  | [] => m
  | f :: fs' =>
      index_level level (pos + 1) fs'
        (emplace (FileNumber f) {| loc_level_ := level; loc_position_ := pos |} m)
  end.

Fixpoint index_levels (level : Z) (fss : list (list FilePtr)) (m : gmap Z FileLocation)
    : gmap Z FileLocation :=
  match fss with
  | [] => m
  | fs :: fss' => index_levels (level + 1) fss' (index_level level 0 fs m)
  end.

Definition GenerateFileLocationIndex (v : VersionStorageInfo) : VersionStorageInfo :=
  v <| file_locations_ ::= index_levels 0 (files_ v) |>.

Definition HasMissingEpochNumber (v : VersionStorageInfo) : bool :=
  existsb (existsb (fun f => epoch_number (fp_meta f) =? kUnknownEpochNumber)) (files_ v).

Definition GetMaxEpochNumberOfFiles (v : VersionStorageInfo) : Z :=
  fold_left (fun m fs => fold_left (fun m f => Z.max m (epoch_number (fp_meta f))) fs m)
    (files_ v) kUnknownEpochNumber.

(** ** Orders of files *)

(** [NewestFirstBySeqNo] (db/version_builder.h). *)
Definition NewestFirstBySeqNo (lhs rhs : FilePtr) : bool :=
  let l := fd (fp_meta lhs) in
  let r := fd (fp_meta rhs) in
  if negb (largest_seqno l =? largest_seqno r) then largest_seqno r <? largest_seqno l
  else if negb (smallest_seqno l =? smallest_seqno r) then smallest_seqno r <? smallest_seqno l
  else FileNumber rhs <? FileNumber lhs.

(** [NewestFirstByEpochNumber] and [BySmallestKey] (db/version_builder.cc). *)
Definition NewestFirstByEpochNumber (lhs rhs : FilePtr) : bool :=
  if negb (epoch_number (fp_meta lhs) =? epoch_number (fp_meta rhs))
  then epoch_number (fp_meta rhs) <? epoch_number (fp_meta lhs)
  else NewestFirstBySeqNo lhs rhs.

Definition BySmallestKey (c : Comparator) (lhs rhs : FilePtr) : bool :=
  let r := IKCompare c (smallest (fp_meta lhs)) (smallest (fp_meta rhs)) in
  if negb (r =? 0) then r <? 0 else FileNumber lhs <? FileNumber rhs.
