(* ===== verification/VersionBuilder.v ===== *)
(** * Applying version edits

    Models [VersionBuilder::Rep] (db/version_builder.cc): the changes that a
    sequence of edits makes to a base version are accumulated in one object, and
    [SaveTo] merges them with the base into a new version. The class
    [VersionBuilder] only forwards to it.

    A run is a computation in [option]: it fails ([None]) when the code would
    index an array out of bounds, follow a null pointer, or use a freed object.
    The code is that of a release build: assertions are not executed and the
    consistency checks run when the version asks for them. *)

From stdpp Require Import gmap pretty.
From S2P Require Import Prelude Records StdMap DbFormat Slice Comparator WalEdit BlobEdit VersionEdit VersionStorage.

(** ** State *)

(** [deleted_files] is an [unordered_set] and [added_files] an
    [unordered_map]. *)
Record LevelState := {
  deleted_files : gset Z;
  added_files : gmap Z FilePtr
}.

#[export] Instance LevelState_Settable : Settable LevelState :=
  fun r => Build_LevelState
    (deleted_files r) (added_files r).

Definition LevelState_new : LevelState := {| deleted_files := ∅; added_files := ∅ |}.

Record BlobFileMetaDataDelta := {
  additional_garbage_count_ : Z;
  additional_garbage_bytes_ : Z;
  newly_linked_ssts_ : gset Z;
  newly_unlinked_ssts_ : gset Z
}.

#[export] Instance BlobFileMetaDataDelta_Settable : Settable BlobFileMetaDataDelta :=
  fun r => Build_BlobFileMetaDataDelta
    (additional_garbage_count_ r) (additional_garbage_bytes_ r) (newly_linked_ssts_ r)
    (newly_unlinked_ssts_ r).

Definition Delta_new : BlobFileMetaDataDelta :=
  {| additional_garbage_count_ := 0; additional_garbage_bytes_ := 0;
     newly_linked_ssts_ := ∅; newly_unlinked_ssts_ := ∅ |}.

Definition Delta_IsEmpty (d : BlobFileMetaDataDelta) : bool :=
  (additional_garbage_count_ d =? 0) && (additional_garbage_bytes_ d =? 0) &&
  bool_decide (newly_linked_ssts_ d = ∅) && bool_decide (newly_unlinked_ssts_ d = ∅).

Definition Delta_AddGarbage (d : BlobFileMetaDataDelta) (count bytes : Z) : BlobFileMetaDataDelta :=
  d <| additional_garbage_count_ ::= fun x => u64 (x + count) |>
    <| additional_garbage_bytes_ ::= fun x => u64 (x + bytes) |>.

Definition Delta_LinkSst (d : BlobFileMetaDataDelta) (n : Z) : BlobFileMetaDataDelta :=
  if bool_decide (n ∈ newly_unlinked_ssts_ d)
  then d <| newly_unlinked_ssts_ ::= fun s => s ∖ {[n]} |>
  else d <| newly_linked_ssts_ ::= fun s => {[n]} ∪ s |>.

Definition Delta_UnlinkSst (d : BlobFileMetaDataDelta) (n : Z) : BlobFileMetaDataDelta :=
  if bool_decide (n ∈ newly_linked_ssts_ d)
  then d <| newly_linked_ssts_ ::= fun s => s ∖ {[n]} |>
  else d <| newly_unlinked_ssts_ ::= fun s => {[n]} ∪ s |>.

Record MutableBlobFileMetaData := {
  mb_shared_meta_ : SharedBlobFileMetaData;
  delta_ : BlobFileMetaDataDelta;
  mb_linked_ssts_ : gset Z;
  mb_garbage_blob_count_ : Z;
  mb_garbage_blob_bytes_ : Z
}.

#[export] Instance MutableBlobFileMetaData_Settable : Settable MutableBlobFileMetaData :=
  fun r => Build_MutableBlobFileMetaData
    (mb_shared_meta_ r) (delta_ r) (mb_linked_ssts_ r) (mb_garbage_blob_count_ r)
    (mb_garbage_blob_bytes_ r).

(** The constructors for new and for existing blob files. *)
Definition Mutable_of_shared (m : SharedBlobFileMetaData) : MutableBlobFileMetaData :=
  {| mb_shared_meta_ := m; delta_ := Delta_new; mb_linked_ssts_ := ∅;
     mb_garbage_blob_count_ := 0; mb_garbage_blob_bytes_ := 0 |}.

Definition Mutable_of_meta (m : BlobFileMetaData) : MutableBlobFileMetaData :=
  {| mb_shared_meta_ := bm_shared_meta_ m; delta_ := Delta_new; mb_linked_ssts_ := bm_linked_ssts_ m;
     mb_garbage_blob_count_ := bm_garbage_blob_count_ m;
     mb_garbage_blob_bytes_ := bm_garbage_blob_bytes_ m |}.

Definition HasDelta (m : MutableBlobFileMetaData) : bool := negb (Delta_IsEmpty (delta_ m)).

Definition Mutable_AddGarbage (m : MutableBlobFileMetaData) (count bytes : Z)
    : bool * MutableBlobFileMetaData :=
  if (sm_total_blob_count_ (mb_shared_meta_ m) <? u64 (mb_garbage_blob_count_ m + count)) ||
     (sm_total_blob_bytes_ (mb_shared_meta_ m) <? u64 (mb_garbage_blob_bytes_ m + bytes))
  then (false, m)
  else (true, m <| delta_ ::= fun d => Delta_AddGarbage d count bytes |>
                <| mb_garbage_blob_count_ ::= fun x => u64 (x + count) |>
                <| mb_garbage_blob_bytes_ ::= fun x => u64 (x + bytes) |>).

Definition Mutable_LinkSst (n : Z) (m : MutableBlobFileMetaData) : MutableBlobFileMetaData :=
  m <| delta_ ::= fun d => Delta_LinkSst d n |> <| mb_linked_ssts_ ::= fun s => {[n]} ∪ s |>.

Definition Mutable_UnlinkSst (n : Z) (m : MutableBlobFileMetaData) : MutableBlobFileMetaData :=
  m <| delta_ ::= fun d => Delta_UnlinkSst d n |> <| mb_linked_ssts_ ::= fun s => s ∖ {[n]} |>.

(** [VersionBuilder::Rep]; [levels_] has [num_levels_] elements. *)
Record Rep := {
  base_vstorage_ : VersionStorageInfo;
  levels_ : list LevelState;
  invalid_level_sizes_ : gmap Z Z;
  has_invalid_levels_ : bool;
  table_file_levels_ : gmap Z Z;
  updated_compact_cursors_ : gmap Z bytes;
  mutable_blob_file_metas_ : list (Z * MutableBlobFileMetaData)
}.

#[export] Instance Rep_Settable : Settable Rep :=
  fun r => Build_Rep
    (base_vstorage_ r) (levels_ r) (invalid_level_sizes_ r) (has_invalid_levels_ r)
    (table_file_levels_ r) (updated_compact_cursors_ r) (mutable_blob_file_metas_ r).

Definition Rep_num_levels_ (r : Rep) : Z := num_levels_ (base_vstorage_ r).

Definition Rep_new (base : VersionStorageInfo) : Rep := {|
  base_vstorage_ := base; levels_ := replicate (Z.to_nat (num_levels_ base)) LevelState_new;
  invalid_level_sizes_ := ∅; has_invalid_levels_ := false; table_file_levels_ := ∅;
  updated_compact_cursors_ := ∅; mutable_blob_file_metas_ := [] |}.

(** What the builder shares with the rest of the process: the reference counts
    of the files, the handles of table readers it gave back to the table cache,
    and the manager of the memory reserved for file metadata, if there is one. *)
Record World (M : Type) := mkWorld {
  w_refs : FileRefs;
  w_released : list Z;
  file_metadata_cache_res_mgr_ : option M
}.
Arguments mkWorld {M}.
Arguments w_refs {M}.
Arguments w_released {M}.
Arguments file_metadata_cache_res_mgr_ {M}.

(** [CacheReservationManager::UpdateCacheReservation(usage, increase)]. *)
Class CacheReservationManager (M : Type) :=
  UpdateCacheReservation : M -> Z -> bool -> Status * M.

(** A loop that returns the first status that is not OK. *)
Fixpoint for_each {S A : Type} (f : S -> A -> option (Status * S)) (s : S) (l : list A)
    : option (Status * S) :=
  match l with
  | [] => Some (OK, s)
  | x :: l' =>
      '(st, s) ← f s x;
      if ok st then for_each f s l' else Some (st, s)
  end.

Definition VB_Corruption (msg : string) : Status := Corruption2 "VersionBuilder" msg.
Arguments VB_Corruption msg%_string.

(** ** Printing of keys in messages *)

(** [EscapeString] (util/string_util.cc): printable characters as they are,
    others as [\x] with two digits. *)
Definition hex_digit (v : Z) : byte := if v <? 10 then to_byte (48 + v) else to_byte (87 + v).

Fixpoint EscapeString (value : bytes) : bytes :=
  match value with
  | [] => []
  | b :: value' =>
      (if (32 <=? ub b) && (ub b <=? 126) then [b]
       else [to_byte 92; to_byte 120; hex_digit (Z.shiftr (ub b) 4); hex_digit (Z.land (ub b) 15)])
        ++ EscapeString value'
  end.

(** [InternalKey::DebugString]. *)
Definition InternalKey_DebugString (hex : bool) (rep : bytes) : string :=
  match ParseInternalKey rep false with
  | (OK, Some parsed) => DebugString parsed true hex
  | _ => ("(bad)" ++ String.string_of_list_byte (EscapeString rep))%string
  end.

Section Builder.

(** The user comparator of [InternalComparator()]. *)
Context (c : Comparator).
Context {M : Type} `{!CacheReservationManager M}.

(** The size of the allocation of a [FileMetaData] ([malloc_usable_size] or
    [sizeof], as the build has it). *)
Context (object_usage : Z).

Implicit Types (r : Rep) (w : World M) (v : VersionStorageInfo).

(** ** Reference counts *)

Definition ApproximateMemoryUsage (f : FileMetaData) : Z :=
  u64 (object_usage + slen (smallest f) + slen (largest f) + slen (file_checksum f) +
       slen (file_checksum_func_name f)).

(** The reservation is changed if there is a manager; without one, OK. *)
Definition update_reservation w (f : FileMetaData) (increase : bool) : Status * World M :=
  match file_metadata_cache_res_mgr_ w with
  | None => (OK, w)
  | Some m =>
      let '(s, m) := UpdateCacheReservation m (ApproximateMemoryUsage f) increase in
      (s, mkWorld (w_refs w) (w_released w) (Some m))
  end.

Definition UnrefFile w (f : FilePtr) : option (World M) :=
  match file_unref (w_refs w) f with
  | None => None
  | Some (refs, unused) =>
      let w := mkWorld refs (w_released w) (file_metadata_cache_res_mgr_ w) in
      if (unused : bool) then
        let w := match table_reader_handle (fp_meta f) with
                 | Some h => mkWorld (w_refs w) (w_released w ++ [h])%list (file_metadata_cache_res_mgr_ w)
                 | None => w
                 end in
        let '(_, w) := update_reservation w (fp_meta f) false in
        Some (mkWorld (delete (fp_addr f) (w_refs w)) (w_released w) (file_metadata_cache_res_mgr_ w))
      else Some w
  end.

(** [new FileMetaData(meta)] followed by [refs = 1]: an address that is not in
    use. *)
Definition new_address w : Z := 1 + foldr Z.max 0 (map_to_list (w_refs w)).*1.

Definition new_file w (meta : FileMetaData) : World M * FilePtr :=
  let a := new_address w in
  (mkWorld (<[a := 1]> (w_refs w)) (w_released w) (file_metadata_cache_res_mgr_ w),
   {| fp_addr := a; fp_meta := meta |}).

Definition delete_file w (f : FilePtr) : World M :=
  mkWorld (delete (fp_addr f) (w_refs w)) (w_released w) (file_metadata_cache_res_mgr_ w).

(** The destructor: the added files of every level are given back. *)
Fixpoint UnrefFiles w (fs : list FilePtr) : option (World M) :=
  match fs with
  | [] => Some w
  | f :: fs' => w ← UnrefFile w f; UnrefFiles w fs'
  end.

Fixpoint destroy_levels w (ls : list LevelState) : option (World M) :=
  match ls with
  | [] => Some w
  | l :: ls' => w ← UnrefFiles w (map_to_list (added_files l)).*2; destroy_levels w ls'
  end.

Definition Rep_destroy r w : option (World M) := destroy_levels w (levels_ r).

(** ** Consistency of a version *)

(** [unordered_map] of sets; [operator[]] of a blob file that is not there is an
    empty set. *)
Abbreviation ExpectedLinkedSsts := (gmap Z (gset Z)).

Definition expected_for (m : ExpectedLinkedSsts) (blob_file_number : Z) : gset Z :=
  default ∅ (m !! blob_file_number).

Definition UpdateExpectedLinkedSsts (table_file_number blob_file_number : Z)
    (m : ExpectedLinkedSsts) : ExpectedLinkedSsts :=
  if blob_file_number =? kInvalidBlobFileNumber then m
  else <[blob_file_number := {[table_file_number]} ∪ expected_for m blob_file_number]> m.

Definition expect_file (f : FilePtr) (m : ExpectedLinkedSsts) : ExpectedLinkedSsts :=
  UpdateExpectedLinkedSsts (FileNumber f) (oldest_blob_file_number (fp_meta f)) m.

(** The loop of [CheckConsistencyDetailsForLevel] after the first file. *)
Fixpoint check_pairs (checker : FilePtr -> FilePtr -> Status) (lhs : FilePtr) (fs : list FilePtr)
    (m : ExpectedLinkedSsts) : Status * ExpectedLinkedSsts :=
  match fs with
  | [] => (OK, m)
  | rhs :: fs' =>
      let m := expect_file rhs m in
      let s := checker lhs rhs in
      if ok s then check_pairs checker rhs fs' m else (s, m)
  end.

Definition CheckConsistencyDetailsForLevel (level_files : list FilePtr)
    (checker : FilePtr -> FilePtr -> Status) (m : ExpectedLinkedSsts) : Status * ExpectedLinkedSsts :=
  match level_files with
  | [] => (OK, m)
  | f :: fs => check_pairs checker f fs (expect_file f m)
  end.

Definition l0_checker (requirement : EpochNumberRequirement) (lhs rhs : FilePtr) : Status :=
  let l := fp_meta lhs in
  let r := fp_meta rhs in
  match requirement with
  | kMightMissing =>
      if negb (NewestFirstBySeqNo lhs rhs) then
        VB_Corruption ("L0 files are not sorted properly: files #" ++ pretty (FileNumber lhs) ++
          " with seqnos (largest, smallest) " ++ pretty (largest_seqno (fd l)) ++ " , " ++
          pretty (smallest_seqno (fd l)) ++ ", #" ++ pretty (FileNumber rhs) ++
          " with seqnos (largest, smallest) " ++ pretty (largest_seqno (fd r)) ++ " , " ++
          pretty (smallest_seqno (fd r)))
      else OK
  | kMustPresent =>
      if (epoch_number l =? epoch_number r) &&
         ((IKCompare c (smallest l) (largest r) <=? 0) &&
          (0 <=? IKCompare c (largest l) (smallest r)))
      then
        VB_Corruption ("L0 files of same epoch number but overlapping range #" ++
          pretty (FileNumber lhs) ++ " , smallest key: " ++ InternalKey_DebugString true (smallest l) ++
          " , largest key: " ++ InternalKey_DebugString true (largest l) ++ " , epoch number: " ++
          pretty (epoch_number l) ++ " vs. file #" ++ pretty (FileNumber rhs) ++
          " , smallest key: " ++ InternalKey_DebugString true (smallest r) ++
          " , largest key: " ++ InternalKey_DebugString true (largest r) ++ " , epoch number: " ++
          pretty (epoch_number r))
      else if negb (NewestFirstByEpochNumber lhs rhs) then
        VB_Corruption ("L0 files are not sorted properly: files #" ++ pretty (FileNumber lhs) ++
          " with epoch number " ++ pretty (epoch_number l) ++ ", #" ++ pretty (FileNumber rhs) ++
          " with epoch number " ++ pretty (epoch_number r))
      else OK
  end.

Definition level_checker (level : Z) (lhs rhs : FilePtr) : Status :=
  if negb (BySmallestKey c lhs rhs) then
    VB_Corruption ("L" ++ pretty level ++ " files are not sorted properly: files #" ++
      pretty (FileNumber lhs) ++ ", #" ++ pretty (FileNumber rhs))
  else if 0 <=? IKCompare c (largest (fp_meta lhs)) (smallest (fp_meta rhs)) then
    VB_Corruption ("L" ++ pretty level ++ " has overlapping ranges: file #" ++
      pretty (FileNumber lhs) ++ " largest key: " ++
      InternalKey_DebugString true (largest (fp_meta lhs)) ++ " vs. file #" ++
      pretty (FileNumber rhs) ++ " smallest key: " ++
      InternalKey_DebugString true (smallest (fp_meta rhs)))
  else OK.

(** The loop over levels 1 and up. *)
Fixpoint check_levels (level : Z) (fss : list (list FilePtr)) (m : ExpectedLinkedSsts)
    : Status * ExpectedLinkedSsts :=
  match fss with
  | [] => (OK, m)
  | fs :: fss' =>
      let '(s, m) := CheckConsistencyDetailsForLevel fs (level_checker level) m in
      if ok s then check_levels (level + 1) fss' m else (s, m)
  end.

Fixpoint check_blob_files (blob_files : list BlobFileMetaData) (m : ExpectedLinkedSsts) : Status :=
  match blob_files with
  | [] => OK
  | b :: blob_files' =>
      if sm_total_blob_count_ (bm_shared_meta_ b) <=? bm_garbage_blob_count_ b then
        VB_Corruption ("Blob file #" ++ pretty (GetBlobFileNumber b) ++ " consists entirely of garbage")
      else if negb (bool_decide (bm_linked_ssts_ b = expected_for m (GetBlobFileNumber b))) then
        VB_Corruption ("Links are inconsistent between table files and blob file #" ++
                       pretty (GetBlobFileNumber b))
      else check_blob_files blob_files' m
  end.

(** [CheckConsistencyDetails]; the levels of the version are those of the
    builder. *)
Definition CheckConsistencyDetails v : Status :=
  match files_ v with
  | [] => check_blob_files (blob_files_ v) ∅
  | l0 :: levels =>
      let '(s, m) := CheckConsistencyDetailsForLevel l0 (l0_checker (epoch_number_requirement_ v)) ∅ in
      if negb (ok s) then s
      else
        let '(s, m) := check_levels 1 levels m in
        if negb (ok s) then s else check_blob_files (blob_files_ v) m
  end.

Definition CheckConsistency v : Status :=
  if negb (force_consistency_checks_ v) then OK
  else match CheckConsistencyDetails v with
       | Corruption msg => Corruption2 "force_consistency_checks" msg
       | s => s
       end.

(** Whether there are no files on levels outside the array; the sizes are
    searched for one that is not zero. *)
Definition CheckConsistencyForNumLevels r : bool :=
  negb (has_invalid_levels_ r) && forallb (fun p => p.2 =? 0) (map_to_list (invalid_level_sizes_ r)).

(** ** Blob files *)

Definition IsBlobFileInVersion r (blob_file_number : Z) : bool :=
  match map_find blob_file_number (mutable_blob_file_metas_ r) with
  | Some _ => true
  | None => bool_decide (is_Some (GetBlobFileMetaData (base_vstorage_ r) blob_file_number))
  end.

(** The entry and the builder in which it exists; [None] is the null pointer. *)
Definition GetOrCreateMutableBlobFileMetaData r (blob_file_number : Z)
    : option MutableBlobFileMetaData * Rep :=
  match map_find blob_file_number (mutable_blob_file_metas_ r) with
  | Some m => (Some m, r)
  | None =>
      match GetBlobFileMetaData (base_vstorage_ r) blob_file_number with
      | Some meta =>
          let m := Mutable_of_meta meta in
          (Some m, r <| mutable_blob_file_metas_ ::= map_insert blob_file_number m |>)
      | None => (None, r)
      end
  end.

Definition ApplyBlobFileAddition r (a : BlobFileAddition) : option (Status * Rep) :=
  let number := blob_file_number_ a in
  if IsBlobFileInVersion r number
  then Some (VB_Corruption ("Blob file #" ++ pretty number ++ " already added"), r)
  else
    let shared := {| sm_blob_file_number_ := number; sm_total_blob_count_ := total_blob_count_ a;
                     sm_total_blob_bytes_ := total_blob_bytes_ a;
                     sm_checksum_method_ := checksum_method_ a;
                     sm_checksum_value_ := checksum_value_ a |} in
    Some (OK, r <| mutable_blob_file_metas_ ::= map_insert number (Mutable_of_shared shared) |>).

Definition ApplyBlobFileGarbage r (g : BlobFileGarbage) : option (Status * Rep) :=
  let number := garbage_file_number_ g in
  match GetOrCreateMutableBlobFileMetaData r number with
  | (None, r) => Some (VB_Corruption ("Blob file #" ++ pretty number ++ " not found"), r)
  | (Some m, r) =>
      match Mutable_AddGarbage m (garbage_blob_count_ g) (garbage_blob_bytes_ g) with
      | (false, _) => Some (VB_Corruption ("Garbage overflow for blob file #" ++ pretty number), r)
      | (true, m) => Some (OK, r <| mutable_blob_file_metas_ ::= map_insert number m |>)
      end
  end.

(** [GetOrCreateMutableBlobFileMetaData] and, if it finds one, an update of
    the entry: what files do to the blob file they refer to. *)
Definition update_blob_links r (blob_file_number : Z)
    (f : MutableBlobFileMetaData -> MutableBlobFileMetaData) : Rep :=
  if blob_file_number =? kInvalidBlobFileNumber then r
  else match GetOrCreateMutableBlobFileMetaData r blob_file_number with
       | (None, r) => r
       | (Some m, r) => r <| mutable_blob_file_metas_ ::= map_insert blob_file_number (f m) |>
       end.

(** ** Table files *)

Definition GetCurrentLevelForTableFile r (file_number : Z) : Z :=
  match table_file_levels_ r !! file_number with
  | Some level => level
  | None => loc_level_ (GetFileLocation (base_vstorage_ r) file_number)
  end.

(** [levels_[level]]. *)
Definition level_state r (level : Z) : option LevelState :=
  if level <? 0 then None else levels_ r !! Z.to_nat level.

Definition set_level_state r (level : Z) (l : LevelState) : Rep :=
  r <| levels_ ::= <[Z.to_nat level := l]> |>.

Definition GetOldestBlobFileNumberForTableFile r (level file_number : Z) : option Z :=
  l ← level_state r level;
  match added_files l !! file_number with
  | Some f => Some (oldest_blob_file_number (fp_meta f))
  | None =>
      meta ← GetFileMetaDataByNumber (base_vstorage_ r) file_number;
      f ← meta;
      Some (oldest_blob_file_number (fp_meta f))
  end.

Definition ApplyFileDeletion (s : Rep * World M) (deleted : Z * Z) : option (Status * (Rep * World M)) :=
  let '(r, w) := s in
  let '(level, file_number) := deleted in
  let current_level := GetCurrentLevelForTableFile r file_number in
  if negb (level =? current_level) then
    let r := if Rep_num_levels_ r <=? level then r <| has_invalid_levels_ := true |> else r in
    Some (VB_Corruption ("Cannot delete table file #" ++ pretty file_number ++ " from level " ++
            pretty level ++ " since it is " ++
            (if current_level =? loc_level_ FileLocation_Invalid then "not in the LSM tree"
             else "on level " ++ pretty current_level)), (r, w))
  else if Rep_num_levels_ r <=? level then
    Some (OK, (r <| invalid_level_sizes_ ::=
                      fun m => <[level := u64 (default 0 (m !! level) - 1)]> m |>
                 <| table_file_levels_ ::= <[file_number := loc_level_ FileLocation_Invalid]> |>, w))
  else
    blob_file_number ← GetOldestBlobFileNumberForTableFile r level file_number;
    let r := update_blob_links r blob_file_number (Mutable_UnlinkSst file_number) in
    l ← level_state r level;
    w ← match added_files l !! file_number with
        | Some f => UnrefFile w f
        | None => Some w
        end;
    let l := l <| added_files ::= delete file_number |>
               <| deleted_files ::= fun s => {[file_number]} ∪ s |> in
    Some (OK, ((set_level_state r level l)
                 <| table_file_levels_ ::= <[file_number := loc_level_ FileLocation_Invalid]> |>, w)).

Definition ApplyFileAddition (s : Rep * World M) (added : Z * FileMetaData)
    : option (Status * (Rep * World M)) :=
  let '(r, w) := s in
  let '(level, meta) := added in
  let file_number := GetNumber (fd meta) in
  let current_level := GetCurrentLevelForTableFile r file_number in
  if negb (current_level =? loc_level_ FileLocation_Invalid) then
    let r := if Rep_num_levels_ r <=? level then r <| has_invalid_levels_ := true |> else r in
    Some (VB_Corruption ("Cannot add table file #" ++ pretty file_number ++ " to level " ++
            pretty level ++ " since it is already in the LSM tree on level " ++
            pretty current_level), (r, w))
  else if Rep_num_levels_ r <=? level then
    Some (OK, (r <| invalid_level_sizes_ ::=
                      fun m => <[level := u64 (default 0 (m !! level) + 1)]> m |>
                 <| table_file_levels_ ::= <[file_number := level]> |>, w))
  else
    l ← level_state r level;
    let l := l <| deleted_files ::= fun s => s ∖ {[file_number]} |> in
    let r := set_level_state r level l in
    let '(w, f) := new_file w meta in
    let '(s, w) := update_reservation w meta true in
    if negb (ok s) then Some (MemoryLimit ("Can't allocate " ++ "FileMetadata" ++
           " due to exceeding the memory limit based on cache capacity"), (r, delete_file w f))
    else
      let r := set_level_state r level (l <| added_files ::= emplace file_number f |>) in
      let r := update_blob_links r (oldest_blob_file_number meta) (Mutable_LinkSst file_number) in
      Some (OK, (r <| table_file_levels_ ::= <[file_number := level]> |>, w)).

Definition ApplyCompactCursors r (cursor : Z * bytes) : option (Status * Rep) :=
  let '(level, key) := cursor in
  if level <? 0 then
    Some (VB_Corruption ("Cannot add compact cursor (" ++ pretty level ++ "," ++ text key ++
            " due to invalid level (level = " ++ pretty level ++ ")"), r)
  else if level <? Rep_num_levels_ r
  then Some (OK, r <| updated_compact_cursors_ ::= <[level := key]> |>)
  else Some (OK, r).

(** An operation on the builder alone. *)
Definition on_rep {A : Type} (f : Rep -> A -> option (Status * Rep)) (s : Rep * World M) (x : A)
    : option (Status * (Rep * World M)) :=
  match f s.1 x with
  | Some (st, r) => Some (st, (r, s.2))
  | None => None
  end.

(** [Apply]. *)
Definition Apply (s : Rep * World M) (edit : VersionEdit) : option (Status * (Rep * World M)) :=
  let then_ (x : option (Status * (Rep * World M))) k :=
    match x with
    | Some (st, s) => if ok st then k s else Some (st, s)
    | None => None
    end in
  let st := CheckConsistency (base_vstorage_ s.1) in
  if negb (ok st) then Some (st, s)
  else then_ (for_each (on_rep ApplyBlobFileAddition) s (blob_file_additions_ edit)) (fun s =>
       then_ (for_each (on_rep ApplyBlobFileGarbage) s (blob_file_garbages_ edit)) (fun s =>
       then_ (for_each ApplyFileDeletion s (deleted_files_ edit)) (fun s =>
       then_ (for_each ApplyFileAddition s (new_files_ edit)) (fun s =>
       for_each (on_rep ApplyCompactCursors) s (compact_cursors_ edit))))).

(** ** Saving *)

(** [MergeBlobFileMetas] over the base files and the changed files from the
    first one to be processed; the function objects return whether to go on. *)
Section Merge.

Context {S : Type}.
Context (process_base : S -> BlobFileMetaData -> bool * S).
Context (process_mutable : S -> MutableBlobFileMetaData -> bool * S).
Context (process_both : S -> BlobFileMetaData -> MutableBlobFileMetaData -> bool * S).

Fixpoint merge_mutable_rest (s : S) (ms : list (Z * MutableBlobFileMetaData)) : S :=
  match ms with
  | [] => s
  | (_, m) :: ms' => let '(go, s) := process_mutable s m in
                     if go then merge_mutable_rest s ms' else s
  end.

Fixpoint merge_base_rest (s : S) (bs : list BlobFileMetaData) : S :=
  match bs with
  | [] => s
  | b :: bs' => let '(go, s) := process_base s b in
                if go then merge_base_rest s bs' else s
  end.

Fixpoint merge_metas (s : S) (bs : list BlobFileMetaData)
    : list (Z * MutableBlobFileMetaData) -> S :=
  match bs with
  | [] => merge_mutable_rest s
  | b :: bs' =>
      (fix merge_mutable s (ms : list (Z * MutableBlobFileMetaData)) : S :=
         match ms with
         | [] => merge_base_rest s (b :: bs')
         | (n, m) :: ms' =>
             if GetBlobFileNumber b <? n then
               let '(go, s) := process_base s b in
               if go then merge_metas s bs' ms else s
             else if n <? GetBlobFileNumber b then
               let '(go, s) := process_mutable s m in
               if go then merge_mutable s ms' else s
             else
               let '(go, s) := process_both s b m in
               if go then merge_metas s bs' ms' else s
         end) s
  end.

Definition MergeBlobFileMetas r (first_blob_file : Z) (s : S) : S :=
  merge_metas s (GetBlobFileMetaDataLB (base_vstorage_ r) first_blob_file)
    (map_erase_below first_blob_file (mutable_blob_file_metas_ r)).

End Merge.

(** [CheckLinkedSsts]: the state is [min_oldest_blob_file_num]. *)
Definition CheckLinkedSsts (linked : gset Z) (number : Z) (min_oldest : Z) : bool * Z :=
  if negb (bool_decide (linked = ∅)) then (false, number) else (true, min_oldest).

Definition CheckLinkedSsts_mutable (min_oldest : Z) (m : MutableBlobFileMetaData) : bool * Z :=
  CheckLinkedSsts (mb_linked_ssts_ m) (sm_blob_file_number_ (mb_shared_meta_ m)) min_oldest.

Definition GetMinOldestBlobFileNumber r : Z :=
  MergeBlobFileMetas
    (fun min_oldest b => CheckLinkedSsts (bm_linked_ssts_ b) (GetBlobFileNumber b) min_oldest)
    CheckLinkedSsts_mutable (fun min_oldest _ m => CheckLinkedSsts_mutable min_oldest m)
    r kInvalidBlobFileNumber kInvalidBlobFileNumber.

Definition CreateBlobFileMetaData (m : MutableBlobFileMetaData) : BlobFileMetaData :=
  {| bm_shared_meta_ := mb_shared_meta_ m; bm_linked_ssts_ := mb_linked_ssts_ m;
     bm_garbage_blob_count_ := mb_garbage_blob_count_ m;
     bm_garbage_blob_bytes_ := mb_garbage_blob_bytes_ m |}.

Definition AddBlobFileIfNeeded v (b : BlobFileMetaData) : VersionStorageInfo :=
  if bool_decide (bm_linked_ssts_ b = ∅) &&
     (sm_total_blob_count_ (bm_shared_meta_ b) <=? bm_garbage_blob_count_ b)
  then v else VSI_AddBlobFile v b.

Definition SaveBlobFilesTo r v : VersionStorageInfo :=
  let oldest_blob_file_with_linked_ssts := GetMinOldestBlobFileNumber r in
  if oldest_blob_file_with_linked_ssts =? kInvalidBlobFileNumber then v
  else MergeBlobFileMetas
         (fun v b => (true, AddBlobFileIfNeeded v b))
         (fun v m => (true, AddBlobFileIfNeeded v (CreateBlobFileMetaData m)))
         (fun v b m => (true, AddBlobFileIfNeeded v (if HasDelta m then CreateBlobFileMetaData m else b)))
         r oldest_blob_file_with_linked_ssts v.

(** What saving writes: the new version, and the reference counts. *)
Abbreviation Saved := (VersionStorageInfo * FileRefs)%type.

Definition MaybeAddFile r (level : Z) (s : Saved) (f : FilePtr) : option Saved :=
  l ← level_state r level;
  if bool_decide (FileNumber f ∈ deleted_files l) then Some (RemoveCurrentStats s.1 (fp_meta f), s.2)
  else match added_files l !! FileNumber f with
       | Some g => if negb (fp_addr g =? fp_addr f)
                   then Some (RemoveCurrentStats s.1 (fp_meta f), s.2)
                   else VSI_AddFile s.1 s.2 level f
       | None => VSI_AddFile s.1 s.2 level f
       end.

Fixpoint MaybeAddFiles r (level : Z) (s : Saved) (fs : list FilePtr) : option Saved :=
  match fs with
  | [] => Some s
  | f :: fs' => s ← MaybeAddFile r level s f; MaybeAddFiles r level s fs'
  end.

(** The order in which the loop of [SaveSSTFilesTo] visits the added and the
    base files. *)
Fixpoint merge_files (cmp : FilePtr -> FilePtr -> bool) (added : list FilePtr)
    : list FilePtr -> list FilePtr :=
  match added with
  | [] => fun base => base
  | a :: added' =>
      fix merge_base base :=
        match base with
        | [] => a :: added'
        | b :: base' => if cmp a b then a :: merge_files cmp added' base
                        else b :: merge_base base'
        end
  end.

Definition SaveSSTFilesTo_level r (s : Saved) (level : Z) (cmp : FilePtr -> FilePtr -> bool)
    : option Saved :=
  base_files ← LevelFiles (base_vstorage_ r) level;
  l ← level_state r level;
  let added := std_sort cmp (map_to_list (added_files l)).*2 in
  MaybeAddFiles r level s (merge_files cmp added base_files).

Definition PromoteEpochNumberRequirementIfNeeded r v : bool * VersionStorageInfo :=
  if HasMissingEpochNumber v then (false, v)
  else if existsb (fun l => existsb (fun p => epoch_number (fp_meta p.2) =? kUnknownEpochNumber)
                              (map_to_list (added_files l))) (levels_ r)
  then (false, v)
  else (true, v <| epoch_number_requirement_ := kMustPresent |>).

(** The levels from [level] on, [n] of them. *)
Fixpoint save_levels r (n : nat) (level : Z) (s : Saved) : option Saved :=
  match n with
  | O => Some s
  | S n => s ← SaveSSTFilesTo_level r s level (BySmallestKey c); save_levels r n (level + 1) s
  end.

Definition SaveSSTFilesTo r (s : Saved) : option Saved :=
  if Rep_num_levels_ r =? 0 then Some s
  else
    let v := match epoch_number_requirement_ s.1 with
             | kMightMissing => (PromoteEpochNumberRequirementIfNeeded r s.1).2
             | kMustPresent => s.1
             end in
    s ← SaveSSTFilesTo_level r (v, s.2) 0
          (match epoch_number_requirement_ v with
           | kMightMissing => NewestFirstBySeqNo
           | kMustPresent => NewestFirstByEpochNumber
           end);
    save_levels r (Z.to_nat (Rep_num_levels_ r) - 1) 1 s.

Fixpoint save_cursors v (cursors : list (Z * bytes)) : option VersionStorageInfo :=
  match cursors with
  | [] => Some v
  | (level, key) :: cursors' => v ← AddCursorForOneLevel v level key; save_cursors v cursors'
  end.

Definition SaveCompactCursorsTo r v : option VersionStorageInfo :=
  save_cursors v (map_to_list (updated_compact_cursors_ r)).

Definition SaveTo r (s : Saved) : option (Status * Saved) :=
  let st := CheckConsistency s.1 in
  if negb (ok st) then Some (st, s)
  else
    s ← SaveSSTFilesTo r s;
    let v := SaveBlobFilesTo r s.1 in
    v ← SaveCompactCursorsTo r v;
    Some (CheckConsistency v, (v, s.2)).

End Builder.
