(* ===== verification/VersionSpec.v ===== *)
(** * What version edits mean

    The abstract state of a column family: which table files are on which
    level, the blob files with their garbage and links, and the compaction
    cursors, as finite maps; and what each part of a version edit does to it.
    [lsm_of] reads this state off a version. [VersionApply] and [VersionSave]
    show that [VersionBuilder] implements it.

    Also here: what the builder relies on in its base version ([base_ok]). *)

From stdpp Require Import gmap sorting.
From S2P Require Import Prelude Records StdMap DbFormat Comparator BlobEdit VersionEdit VersionStorage.

(** ** Abstract state *)

Record Lsm := {
  lsm_files : gmap Z (Z * FileMetaData);
  lsm_blobs : gmap Z BlobFileMetaData;
  lsm_cursors : gmap Z bytes
}.

#[export] Instance Lsm_Settable : Settable Lsm :=
  fun r => Build_Lsm
    (lsm_files r) (lsm_blobs r) (lsm_cursors r).

(** *** Operations; [None] is a corruption *)

Definition lsm_add_blob (s : Lsm) (a : BlobFileAddition) : option Lsm :=
  match lsm_blobs s !! blob_file_number_ a with
  | Some _ => None
  | None =>
      Some (s <| lsm_blobs ::= <[blob_file_number_ a := {|
        bm_shared_meta_ := {|
          sm_blob_file_number_ := blob_file_number_ a; sm_total_blob_count_ := total_blob_count_ a;
          sm_total_blob_bytes_ := total_blob_bytes_ a; sm_checksum_method_ := checksum_method_ a;
          sm_checksum_value_ := checksum_value_ a |};
        bm_linked_ssts_ := ∅; bm_garbage_blob_count_ := 0; bm_garbage_blob_bytes_ := 0 |}]> |>)
  end.

Definition lsm_garbage (s : Lsm) (g : BlobFileGarbage) : option Lsm :=
  b ← lsm_blobs s !! garbage_file_number_ g;
  let count := u64 (bm_garbage_blob_count_ b + garbage_blob_count_ g) in
  let bytes := u64 (bm_garbage_blob_bytes_ b + garbage_blob_bytes_ g) in
  if (sm_total_blob_count_ (bm_shared_meta_ b) <? count) ||
     (sm_total_blob_bytes_ (bm_shared_meta_ b) <? bytes)
  then None
  else Some (s <| lsm_blobs ::= <[garbage_file_number_ g :=
                     b <| bm_garbage_blob_count_ := count |> <| bm_garbage_blob_bytes_ := bytes |>]> |>).

(** A table file and the blob file it refers to. *)
Definition lsm_links (blob : Z) (f : gset Z -> gset Z) (bs : gmap Z BlobFileMetaData)
    : gmap Z BlobFileMetaData :=
  if blob =? kInvalidBlobFileNumber then bs
  else alter (fun b => b <| bm_linked_ssts_ ::= f |>) blob bs.

(** Files on levels the column family does not have ([num_levels <= level]) are
    remembered and take no part in links. *)
Definition lsm_delete (num_levels : Z) (s : Lsm) (x : Z * Z) : option Lsm :=
  let '(level, n) := x in
  '(l, f) ← lsm_files s !! n;
  if level =? l then
    let s := s <| lsm_files ::= delete n |> in
    Some (if num_levels <=? level then s
          else s <| lsm_blobs ::= lsm_links (oldest_blob_file_number f) (fun x => x ∖ {[n]}) |>)
  else None.

Definition lsm_add (num_levels : Z) (s : Lsm) (x : Z * FileMetaData) : option Lsm :=
  let '(level, f) := x in
  let n := GetNumber (fd f) in
  match lsm_files s !! n with
  | Some _ => None
  | None =>
      let s := s <| lsm_files ::= <[n := (level, f)]> |> in
      Some (if num_levels <=? level then s
            else s <| lsm_blobs ::= lsm_links (oldest_blob_file_number f) (fun x => {[n]} ∪ x) |>)
  end.

Definition lsm_cursor (num_levels : Z) (s : Lsm) (x : Z * bytes) : option Lsm :=
  let '(level, key) := x in
  if level <? 0 then None
  else Some (if level <? num_levels then s <| lsm_cursors ::= <[level := key]> |> else s).

Fixpoint lsm_all {A : Type} (f : Lsm -> A -> option Lsm) (s : Lsm) (l : list A) : option Lsm :=
  match l with
  | [] => Some s
  | x :: l' => s ← f s x; lsm_all f s l'
  end.

Definition lsm_apply (num_levels : Z) (s : Lsm) (e : VersionEdit) : option Lsm :=
  s ← lsm_all lsm_add_blob s (blob_file_additions_ e);
  s ← lsm_all lsm_garbage s (blob_file_garbages_ e);
  s ← lsm_all (lsm_delete num_levels) s (deleted_files_ e);
  s ← lsm_all (lsm_add num_levels) s (new_files_ e);
  lsm_all (lsm_cursor num_levels) s (compact_cursors_ e).

(** *** The blob files that a new version keeps: those with garbage only are
    dropped, and so are those below the oldest one in use. *)

Definition blob_in_use (b : BlobFileMetaData) : bool := negb (bool_decide (bm_linked_ssts_ b = ∅)).

Definition lsm_oldest_blob (bs : gmap Z BlobFileMetaData) : option Z :=
  foldr (fun p o => if blob_in_use p.2
                    then Some (match o with Some x => Z.min p.1 x | None => p.1 end) else o)
    None (map_to_list bs).

Definition blob_kept (bs : gmap Z BlobFileMetaData) (p : Z * BlobFileMetaData) : Prop :=
  match lsm_oldest_blob bs with
  | None => False
  | Some oldest =>
      oldest <= p.1 /\
      (blob_in_use p.2 = true \/
       bm_garbage_blob_count_ p.2 < sm_total_blob_count_ (bm_shared_meta_ p.2))
  end.

#[export] Instance blob_kept_dec bs p : Decision (blob_kept bs p).
Proof. unfold blob_kept. destruct (lsm_oldest_blob bs); apply _. Defined.

Definition lsm_live (s : Lsm) : Lsm := s <| lsm_blobs := filter (blob_kept (lsm_blobs s)) (lsm_blobs s) |>.

(** *** The state of a version *)

Fixpoint levels_map (level : Z) (fss : list (list FilePtr)) : gmap Z (Z * FileMetaData) :=
  match fss with
  | [] => ∅
  | fs :: fss' =>
      list_to_map ((fun f => (FileNumber f, (level, fp_meta f))) <$> fs) ∪ levels_map (level + 1) fss'
  end.

Definition lsm_of (v : VersionStorageInfo) : Lsm := {|
  lsm_files := levels_map 0 (files_ v);
  lsm_blobs := list_to_map ((fun b => (GetBlobFileNumber b, b)) <$> blob_files_ v);
  lsm_cursors := list_to_map (imap (fun i k => (Z.of_nat i, k)) (compact_cursor_ v))
|}.

(** ** Well-formed versions *)

Definition keys_ok (f : FileMetaData) : Prop := 8 <= slen (smallest f) /\ 8 <= slen (largest f).

(** A table file of the version on a level that exists. *)
Definition on_level (v : VersionStorageInfo) (l : Z) (f : FilePtr) : Prop :=
  exists fs, LevelFiles v l = Some fs /\ f ∈ fs.

Record version_ok (v : VersionStorageInfo) : Prop := {
  vo_num_levels : 0 <= num_levels_ v;
  vo_files : length (files_ v) = Z.to_nat (num_levels_ v);
  vo_cursors : length (compact_cursor_ v) = Z.to_nat (num_levels_ v);
  vo_numbers : NoDup (FileNumber <$> mjoin (files_ v));
  vo_keys : Forall (fun f => keys_ok (fp_meta f)) (mjoin (files_ v));
  vo_blobs : StronglySorted (fun a b => GetBlobFileNumber a < GetBlobFileNumber b) (blob_files_ v);
  vo_blob_words : Forall (fun b => 0 < GetBlobFileNumber b /\ is_u64 (bm_garbage_blob_count_ b) /\
                                   is_u64 (bm_garbage_blob_bytes_ b)) (blob_files_ v)
}.

(** What a builder relies on: a well-formed version whose index of places is
    up to date, that is consistent. *)
Definition indexed (v : VersionStorageInfo) : Prop :=
  forall n l p, file_locations_ v !! n = Some {| loc_level_ := l; loc_position_ := p |} <->
    0 <= p /\ exists fs f, LevelFiles v l = Some fs /\ fs !! Z.to_nat p = Some f /\ FileNumber f = n.

(** The links between table files and blob files are those of the table files. *)
Definition links_exact (v : VersionStorageInfo) : Prop :=
  forall b, b ∈ blob_files_ v -> forall n,
    n ∈ bm_linked_ssts_ b <->
    exists l f, on_level v l f /\ FileNumber f = n /\
      oldest_blob_file_number (fp_meta f) = GetBlobFileNumber b.

(** ** Lookups in versions *)

Lemma concat_key_unique {A B : Type} (g : A -> B) (fss : list (list A)) i j i' j' fs fs' x y :
  NoDup (g <$> mjoin fss) ->
  fss !! i = Some fs -> fs !! j = Some x -> fss !! i' = Some fs' -> fs' !! j' = Some y ->
  g x = g y -> i = i' /\ j = j'.
Proof.
  revert i i'. induction fss as [|gs fss IH]; intros i i' Hn Hi Hj Hi' Hj' Hg; [done|].
  simpl in Hn. rewrite fmap_app in Hn. apply list.NoDup_app in Hn as (Hn1 & Hd & Hn2).
  assert (Hcross : forall x y k hs j j', gs !! j = Some x -> fss !! k = Some hs -> hs !! j' = Some y ->
            g x <> g y).
  { intros a b k hs ja jb Ha Hk Hb E. apply (Hd (g a)).
    - apply list_elem_of_fmap. exists a. split; [done|by eapply list_elem_of_lookup_2].
    - rewrite E. apply list_elem_of_fmap. exists b. split; [done|]. apply list_elem_of_join.
      exists hs. split; by eapply list_elem_of_lookup_2. }
  destruct i as [|i], i' as [|i']; simpl in Hi, Hi'; simplify_eq.
  - split; [done|]. eapply (NoDup_lookup _ _ _ (g y) Hn1); rewrite list_lookup_fmap.
    + by rewrite Hj; simpl; rewrite Hg.
    + by rewrite Hj'.
  - by destruct (Hcross x y i' fs' j j').
  - by destruct (Hcross y x i fs j' j).
  - destruct (IH i i') as [-> ->]; done.
Qed.

Lemma LevelFiles_Some v l fs : LevelFiles v l = Some fs <-> 0 <= l /\ files_ v !! Z.to_nat l = Some fs.
Proof. unfold LevelFiles. zcase; split; [done|lia|tauto|tauto]. Qed.

Lemma on_level_lookup v l f :
  on_level v l f <-> 0 <= l /\ exists fs j, files_ v !! Z.to_nat l = Some fs /\ fs !! j = Some f.
Proof.
  unfold on_level. setoid_rewrite LevelFiles_Some. setoid_rewrite list_elem_of_lookup.
  split; [intros (fs & [H0 Hl] & j & Hj)|intros (H0 & fs & j & Hl & Hj)]; eauto 10.
Qed.

Lemma on_level_concat v l f : on_level v l f -> f ∈ mjoin (files_ v).
Proof.
  intros (fs & Hl & Hf). apply LevelFiles_Some in Hl as [_ Hl]. apply list_elem_of_join.
  exists fs. split; [done|]. by eapply list_elem_of_lookup_2.
Qed.

Lemma on_level_range v l f : version_ok v -> on_level v l f -> 0 <= l < num_levels_ v.
Proof.
  intros Hv (fs & Hl & _). apply LevelFiles_Some in Hl as [H0 Hl].
  apply lookup_lt_Some in Hl. rewrite (vo_files v Hv) in Hl. pose proof (vo_num_levels v Hv). lia.
Qed.

(** A file number is on one level, once. *)
Lemma on_level_unique v l l' f f' : version_ok v ->
  on_level v l f -> on_level v l' f' -> FileNumber f = FileNumber f' -> l = l' /\ f = f'.
Proof.
  intros Hv (H0 & fs & j & Hl & Hj)%on_level_lookup (H0' & fs' & j' & Hl' & Hj')%on_level_lookup E.
  destruct (concat_key_unique FileNumber (files_ v) _ _ _ _ fs fs' f f' (vo_numbers v Hv) Hl Hj Hl' Hj' E)
    as [Ei ->].
  assert (l = l') as -> by lia. simplify_eq. done.
Qed.

(** The file with a number on a level. *)
Definition base_file (v : VersionStorageInfo) (l n : Z) : option FilePtr :=
  fs ← LevelFiles v l; snd <$> list_find (fun f => FileNumber f = n) fs.

Lemma base_file_Some v l n f : version_ok v ->
  base_file v l n = Some f <-> on_level v l f /\ FileNumber f = n.
Proof.
  intros Hv. unfold base_file. split.
  - intros (fs & Hl & H)%bind_Some. apply fmap_Some in H as ([i g] & Hf & ->).
    apply list_find_Some in Hf as (Hi & Hg & _). split; [|done]. exists fs. split; [done|].
    by eapply list_elem_of_lookup_2.
  - intros [(fs & Hl & Hf) Hn]. rewrite Hl. simpl.
    destruct (list_find_elem_of (fun f => FileNumber f = n) fs f Hf Hn) as [[i g] Hg].
    rewrite Hg. simpl. f_equal. apply list_find_Some in Hg as (Hi & Hgn & _).
    apply (on_level_unique v l l g f Hv); [|by exists fs|congruence].
    exists fs. split; [done|]. by eapply list_elem_of_lookup_2.
Qed.

Lemma levels_map_spec k fss n l m :
  NoDup (FileNumber <$> mjoin fss) ->
  levels_map k fss !! n = Some (l, m) <->
  exists i fs f, l = k + Z.of_nat i /\ fss !! i = Some fs /\ f ∈ fs /\ FileNumber f = n /\ fp_meta f = m.
Proof.
  revert k. induction fss as [|fs fss IH]; intros k Hn; simpl.
  { rewrite lookup_empty. split; [done|]. intros (i & gs & f & _ & H & _). done. }
  simpl in Hn. rewrite fmap_app in Hn. apply list.NoDup_app in Hn as (Hn1 & Hd & Hn2).
  assert (Hn1' : NoDup ((fun f => (FileNumber f, (k, fp_meta f))) <$> fs).*1).
  { by rewrite <- list_fmap_compose. }
  rewrite lookup_union_Some_raw, (IH (k + 1) Hn2), <- elem_of_list_to_map by done.
  rewrite list_elem_of_fmap. split.
  - intros [(f & E & Hf)|[_ (i & gs & f & -> & Hi & Hf & Hfn & Hm)]].
    + injection E as -> -> ->. exists 0%nat, fs, f. repeat split; [lia|done].
    + exists (S i), gs, f. repeat split; [lia|done..].
  - intros ([|i] & gs & f & -> & Hi & Hf & <- & <-).
    + left. exists f. simpl in Hi. simplify_eq. split; [|done]. f_equal. f_equal. lia.
    + right. split.
      * apply not_elem_of_list_to_map. rewrite <- list_fmap_compose. intros Hin.
        apply (Hd (FileNumber f)).
        -- apply list_elem_of_fmap in Hin as (g & E & Hg). apply list_elem_of_fmap. by exists g.
        -- apply list_elem_of_fmap. exists f. split; [done|]. apply list_elem_of_join.
           exists gs. split; [done|]. by eapply list_elem_of_lookup_2.
      * exists i, gs, f. repeat split; [lia|done..].
Qed.

Lemma lsm_of_files v n l m : version_ok v ->
  lsm_files (lsm_of v) !! n = Some (l, m) <->
  exists f, on_level v l f /\ FileNumber f = n /\ fp_meta f = m.
Proof.
  intros Hv. cbn. rewrite levels_map_spec by apply (vo_numbers v Hv). split.
  - intros (i & fs & f & -> & Hi & Hf & Hn & Hm). exists f. split; [|done]. exists fs. split; [|done].
    apply LevelFiles_Some. split; [lia|]. by rewrite Z.add_0_l, Nat2Z.id.
  - intros (f & (fs & Hl & Hf) & Hn & Hm). apply LevelFiles_Some in Hl as [H0 Hl].
    exists (Z.to_nat l), fs, f. repeat split; [lia|done..].
Qed.

(** *** Blob files *)

Lemma filter_all {A : Type} (P : A -> Prop) `{!forall x, Decision (P x)} (l : list A) :
  Forall P l -> filter P l = l.
Proof. induction 1 as [|x l Hx Hl IH]; [done|]. by rewrite list.filter_cons, decide_True, IH. Qed.

Definition blobs_sorted (bs : list BlobFileMetaData) : Prop :=
  StronglySorted (fun a b => GetBlobFileNumber a < GetBlobFileNumber b) bs.

Lemma GetBlobFileMetaDataLB_spec v n : blobs_sorted (blob_files_ v) ->
  GetBlobFileMetaDataLB v n = filter (fun b => n <= GetBlobFileNumber b) (blob_files_ v).
Proof.
  unfold GetBlobFileMetaDataLB. induction 1 as [|b bs Hs IH Hb]; [done|].
  rewrite list.filter_cons. zcase.
  - rewrite decide_False by lia. done.
  - rewrite decide_True by lia. f_equal. symmetry. apply filter_all.
    apply (list.Forall_impl _ _ _ Hb). intros. lia.
Qed.

Lemma GetBlobFileMetaData_Some v n b : blobs_sorted (blob_files_ v) ->
  GetBlobFileMetaData v n = Some b <-> b ∈ blob_files_ v /\ GetBlobFileNumber b = n.
Proof.
  intros Hs. unfold GetBlobFileMetaData. rewrite GetBlobFileMetaDataLB_spec by done.
  induction Hs as [|a bs Hs IH Hb]; [rewrite elem_of_nil; split; [done|by intros [??]]|].
  rewrite list.filter_cons, elem_of_cons. rewrite list.Forall_forall in Hb. case_decide as Ha.
  - zcase.
    + split; [intros [= <-]; auto|]. intros [[->|Hin] E]; [done|]. specialize (Hb b Hin). lia.
    + split; [done|]. intros [[->|Hin] E]; [done|]. specialize (Hb b Hin). lia.
  - rewrite IH. split; [tauto|]. intros [[->|Hin] E]; [lia|done].
Qed.

Lemma blobs_sorted_NoDup bs : blobs_sorted bs -> NoDup (GetBlobFileNumber <$> bs).
Proof.
  induction 1 as [|b bs Hs IH Hb]; simpl; constructor; [|done].
  rewrite list_elem_of_fmap. intros (x & E & Hx). rewrite list.Forall_forall in Hb.
  specialize (Hb x Hx). lia.
Qed.

Lemma lsm_of_blobs v n : version_ok v -> lsm_blobs (lsm_of v) !! n = GetBlobFileMetaData v n.
Proof.
  intros Hv. apply option_eq. intros b. cbn.
  rewrite GetBlobFileMetaData_Some by apply (vo_blobs v Hv).
  rewrite <- elem_of_list_to_map.
  - rewrite list_elem_of_fmap. split; [by intros (x & [= -> ->] & Hx)|]. intros [Hx <-]. by exists b.
  - rewrite <- list_fmap_compose. apply (blobs_sorted_NoDup _ (vo_blobs v Hv)).
Qed.

(** *** The index of places *)

Lemma index_level_spec level pos fs m n loc :
  NoDup (FileNumber <$> fs) -> (forall f, f ∈ fs -> m !! FileNumber f = None) ->
  index_level level pos fs m !! n = Some loc <->
  m !! n = Some loc \/
  exists i f, fs !! i = Some f /\ FileNumber f = n /\
    loc = {| loc_level_ := level; loc_position_ := pos + Z.of_nat i |}.
Proof.
  revert pos m. induction fs as [|f fs IH]; intros pos m Hn Hm; simpl.
  { split; [tauto|]. intros [?|(i & f & H & _)]; done. }
  inversion_clear Hn as [|?? Hf Hn']. unfold emplace. rewrite (Hm f) by constructor.
  rewrite IH; [|done|].
  - rewrite lookup_insert_Some. split.
    + intros [[[<- <-]|[Hne H]]|(i & g & Hg & <- & ->)]; [right|tauto|right].
      * exists 0%nat, f. repeat split. f_equal. lia.
      * exists (S i), g. repeat split; [done|]. f_equal. lia.
    + intros [H|([|i] & g & Hg & <- & ->)].
      * left. right. split; [|done]. intros <-. rewrite Hm in H by constructor. done.
      * left. left. injection Hg as ->. split; [done|]. f_equal. lia.
      * right. exists i, g. repeat split; [done|]. f_equal. lia.
  - intros g Hg. rewrite lookup_insert_ne; [apply Hm; by constructor|].
    intros E. apply Hf. rewrite E. by apply list_elem_of_fmap_2.
Qed.

Lemma index_levels_spec level fss m n loc :
  NoDup (FileNumber <$> mjoin fss) -> (forall f, f ∈ mjoin fss -> m !! FileNumber f = None) ->
  index_levels level fss m !! n = Some loc <->
  m !! n = Some loc \/
  exists i j fs f, fss !! i = Some fs /\ fs !! j = Some f /\ FileNumber f = n /\
    loc = {| loc_level_ := level + Z.of_nat i; loc_position_ := Z.of_nat j |}.
Proof.
  revert level m. induction fss as [|fs fss IH]; intros level m Hn Hm; simpl.
  { split; [tauto|]. intros [?|(i & j & fs & f & H & _)]; done. }
  simpl in Hn, Hm. rewrite fmap_app in Hn. apply list.NoDup_app in Hn as (Hn1 & Hd & Hn2).
  assert (Hm1 : forall f, f ∈ fs -> m !! FileNumber f = None).
  { intros f Hf. apply Hm. apply elem_of_app. by left. }
  rewrite IH, index_level_spec; [| done..|].
  - split.
    + intros [[H|(i & f & Hi & <- & ->)]|(i & j & gs & f & Hi & Hj & <- & ->)]; [tauto|right..].
      * exists 0%nat, i, fs, f. repeat split; [done|]. f_equal; lia.
      * exists (S i), j, gs, f. repeat split; [done..|]. f_equal; lia.
    + intros [H|([|i] & j & gs & f & Hi & Hj & <- & ->)]; [tauto| |].
      * left. right. injection Hi as ->. exists j, f. repeat split; [done|]. f_equal; lia.
      * right. exists i, j, gs, f. repeat split; [done..|]. f_equal; lia.
  - intros f Hf. destruct (index_level level 0 fs m !! FileNumber f) eqn:E; [|done]. exfalso.
    apply index_level_spec in E as [E|(i & g & Hi & Eg & _)]; [| |done..].
    + rewrite Hm in E; [done|]. apply elem_of_app. by right.
    + apply (Hd (FileNumber g)).
      * apply list_elem_of_fmap_2. by eapply list_elem_of_lookup_2.
      * rewrite Eg. by apply list_elem_of_fmap_2.
Qed.

(** After [GenerateFileLocationIndex] on a version without an index, the index
    is exact. *)
Lemma GenerateFileLocationIndex_indexed v : version_ok v -> file_locations_ v = ∅ ->
  indexed (GenerateFileLocationIndex v).
Proof.
  intros Hv H0 n l p.
  change (file_locations_ (GenerateFileLocationIndex v)) with (index_levels 0 (files_ v) (file_locations_ v)).
  change (LevelFiles (GenerateFileLocationIndex v) l) with (LevelFiles v l).
  rewrite H0, index_levels_spec by (try apply (vo_numbers v Hv); intros; apply lookup_empty).
  rewrite lookup_empty. setoid_rewrite LevelFiles_Some. split.
  - intros [?|(i & j & fs & f & Hi & Hj & Hn & [= -> ->])]; [done|]. split; [lia|].
    exists fs, f. rewrite Z.add_0_l, !Nat2Z.id. repeat split; [lia|done..].
  - intros (Hp & fs & f & [Hl Hfs] & Hf & Hn). right. exists (Z.to_nat l), (Z.to_nat p), fs, f.
    repeat split; [done..|]. f_equal; lia.
Qed.

Lemma GetFileLocation_on_level v n : version_ok v -> indexed v ->
  (forall l f, on_level v l f -> FileNumber f = n ->
     loc_level_ (GetFileLocation v n) = l /\ GetFileMetaDataByNumber v n = Some (Some f)) /\
  ((forall l f, on_level v l f -> FileNumber f <> n) -> loc_level_ (GetFileLocation v n) = -1).
Proof.
  intros Hv Hi. unfold GetFileMetaDataByNumber, GetFileLocation. split.
  - intros l f (H0 & fs & j & Hl & Hj)%on_level_lookup Hn.
    assert (E : file_locations_ v !! n = Some {| loc_level_ := l; loc_position_ := Z.of_nat j |}).
    { apply Hi. split; [lia|]. exists fs, f. rewrite LevelFiles_Some, Nat2Z.id. done. }
    rewrite E. cbn [default loc_level_ FileLocation_IsValid]. split; [done|].
    unfold FileLocation_IsValid. cbn. rewrite (proj2 (Z.leb_le 0 l)) by done. cbn [negb].
    rewrite (proj2 (LevelFiles_Some v l fs)) by done. simpl. by rewrite Nat2Z.id, Hj.
  - intros Hno. destruct (file_locations_ v !! n) as [[l p]|] eqn:E; [|done]. exfalso.
    apply Hi in E as (Hp & fs & f & Hl & Hf & Hn). apply (Hno l f); [|done].
    exists fs. split; [done|]. by eapply list_elem_of_lookup_2.
Qed.
