(* ===== verification/VersionApply.v ===== *)
(** * Applying edits to a builder refines the abstract state

    [repr] relates a builder over a base version to the abstract state it
    stands for: the base overlaid with the changes. Every operation of
    [VersionBuilder::Rep] keeps the relation when the abstract operation
    succeeds, and reports a corruption exactly when it does not. *)

From stdpp Require Import gmap sorting.
From S2P Require Import Prelude Records StdMap DbFormat Comparator BlobEdit VersionEdit VersionStorage VersionBuilder VersionSpec.

Section Apply.

Context {M : Type} `{!CacheReservationManager M}.
Context (object_usage : Z).
Context (base : VersionStorageInfo) (refs0 : FileRefs).

(** Whether the memory of file metadata is reserved. *)
Context (managed : bool).

Abbreviation num := (num_levels_ base).

Implicit Types (r : Rep) (w : World M) (fs : gmap Z (Z * FileMetaData))
  (bs : gmap Z BlobFileMetaData) (ls : LevelState).

(** ** The representation of files *)

(** The file with number [n] on a level: an added one, or the one of the base
    unless it was deleted. *)
Definition overlay ls (b : option FilePtr) (n : Z) : option FilePtr :=
  match added_files ls !! n with
  | Some p => Some p
  | None => if decide (n ∈ deleted_files ls) then None else b
  end.

Definition at_level fs (l n : Z) : option FileMetaData :=
  '(l', f) ← fs !! n; if l' =? l then Some f else None.

Definition level_of fs (n : Z) : Z := match fs !! n with Some (l, _) => l | None => -1 end.

Record files_repr r fs : Prop := {
  fr_base : base_vstorage_ r = base;
  fr_length : length (levels_ r) = Z.to_nat num;
  fr_level : forall n, GetCurrentLevelForTableFile r n = level_of fs n;
  fr_at : forall l ls n, level_state r l = Some ls ->
    fp_meta <$> overlay ls (base_file base l n) n = at_level fs l n;
  fr_added : forall l ls n p, level_state r l = Some ls -> added_files ls !! n = Some p ->
    FileNumber p = n /\ n ∉ deleted_files ls;
  fr_wf : forall n l f, fs !! n = Some (l, f) -> 0 <= l /\ GetNumber (fd f) = n
}.

(** ** The representation of blob files *)

Definition blob_at r (n : Z) : option BlobFileMetaData :=
  match map_find n (mutable_blob_file_metas_ r) with
  | Some m => Some (CreateBlobFileMetaData m)
  | None => GetBlobFileMetaData base n
  end.

(** The recorded changes of a blob file of the base are the difference. *)
Record delta_ok (b : BlobFileMetaData) (m : MutableBlobFileMetaData) : Prop := {
  do_shared : mb_shared_meta_ m = bm_shared_meta_ b;
  do_linked : newly_linked_ssts_ (delta_ m) = mb_linked_ssts_ m ∖ bm_linked_ssts_ b;
  do_unlinked : newly_unlinked_ssts_ (delta_ m) = bm_linked_ssts_ b ∖ mb_linked_ssts_ m;
  do_count : mb_garbage_blob_count_ m =
    u64 (bm_garbage_blob_count_ b + additional_garbage_count_ (delta_ m));
  do_bytes : mb_garbage_blob_bytes_ m =
    u64 (bm_garbage_blob_bytes_ b + additional_garbage_bytes_ (delta_ m))
}.

Definition blob_wf (n : Z) (b : BlobFileMetaData) : Prop :=
  GetBlobFileNumber b = n /\ 0 < n /\ is_u64 (bm_garbage_blob_count_ b) /\
  is_u64 (bm_garbage_blob_bytes_ b).

Record blobs_repr r bs : Prop := {
  br_base : base_vstorage_ r = base;
  br_sorted : keys_from 0 (mutable_blob_file_metas_ r) = true;
  br_at : forall n, bs !! n = blob_at r n;
  br_wf : forall n b, bs !! n = Some b -> blob_wf n b;
  br_delta : forall n m b, map_find n (mutable_blob_file_metas_ r) = Some m ->
    GetBlobFileMetaData base n = Some b -> delta_ok b m
}.

(** Blob files of the base have the links that their table files say. *)
Definition links_repr fs bs : Prop :=
  forall n b, bs !! n = Some b -> is_Some (GetBlobFileMetaData base n) -> forall x,
    x ∈ bm_linked_ssts_ b <->
    exists l f, fs !! x = Some (l, f) /\ l < num /\ oldest_blob_file_number f = n.

(** ** Cursors, levels that do not exist, reference counts *)

Record cursors_repr r (cursors : gmap Z bytes) : Prop := {
  cr_union : cursors = updated_compact_cursors_ r ∪ lsm_cursors (lsm_of base);
  cr_range : forall l k, updated_compact_cursors_ r !! l = Some k -> 0 <= l < num
}.

Definition files_on (l : Z) fs : gmap Z (Z * FileMetaData) := filter (fun p => p.2.1 = l) fs.

Record sizes_repr r fs : Prop := {
  sr_flag : has_invalid_levels_ r = false;
  sr_size : forall l, num <= l ->
    default 0 (invalid_level_sizes_ r !! l) = Z.of_nat (size (files_on l fs));
  sr_valid : forall l, l < num -> invalid_level_sizes_ r !! l = None
}.

(** The added files have one reference, the others what they had. *)
Definition added_at r (l n : Z) (p : FilePtr) : Prop :=
  exists ls, level_state r l = Some ls /\ added_files ls !! n = Some p.

Record heap_repr r w : Prop := {
  hr_added : forall l n p, added_at r l n p ->
    refs0 !! fp_addr p = None /\ w_refs w !! fp_addr p = Some 1;
  hr_inj : forall l n p l' n' p', added_at r l n p -> added_at r l' n' p' ->
    fp_addr p = fp_addr p' -> l = l' /\ n = n';
  hr_other : forall a, (forall l n p, added_at r l n p -> fp_addr p <> a) ->
    w_refs w !! a = refs0 !! a
}.

Record repr r w (s : Lsm) : Prop := {
  rp_files : files_repr r (lsm_files s);
  rp_blobs : blobs_repr r (lsm_blobs s);
  rp_links : links_repr (lsm_files s) (lsm_blobs s);
  rp_cursors : cursors_repr r (lsm_cursors s);
  rp_sizes : sizes_repr r (lsm_files s);
  rp_heap : heap_repr r w;
  rp_managed : managed = false -> file_metadata_cache_res_mgr_ w = None
}.

(** ** Levels *)

Lemma level_state_Some r l : length (levels_ r) = Z.to_nat num -> 0 <= l < num ->
  exists ls, level_state r l = Some ls.
Proof.
  intros Hlen Hl. unfold level_state. zcase. apply lookup_lt_is_Some. lia.
Qed.

Lemma level_state_range r l ls : length (levels_ r) = Z.to_nat num ->
  level_state r l = Some ls -> 0 <= l < num.
Proof.
  intros Hlen. unfold level_state. zcase; [done|]. intros Hx%lookup_lt_Some. lia.
Qed.

Lemma level_state_set r l ls l' : length (levels_ r) = Z.to_nat num -> 0 <= l < num ->
  level_state (set_level_state r l ls) l' = if l' =? l then Some ls else level_state r l'.
Proof.
  intros Hlen Hl. unfold level_state, set_level_state. cbn. zcase.
  - by zcase.
  - zcase.
    + subst l'. apply list_lookup_insert_eq. lia.
    + apply list_lookup_insert_ne. lia.
Qed.

(** The added files of a builder in which one level was replaced. *)
Lemma added_at_of r r' l ls0 l' n' p : length (levels_ r) = Z.to_nat num -> 0 <= l < num ->
  levels_ r' = <[Z.to_nat l := ls0]> (levels_ r) ->
  added_at r' l' n' p <->
  (l' = l /\ added_files ls0 !! n' = Some p) \/ (l' <> l /\ added_at r l' n' p).
Proof.
  intros Hlen Hl Hlev. pose proof (level_state_set r l ls0 l' Hlen Hl) as Hs.
  assert (E : level_state r' l' = if l' =? l then Some ls0 else level_state r l').
  { rewrite <- Hs. unfold level_state, set_level_state. cbn. by rewrite Hlev. }
  unfold added_at. rewrite E. zcase; split.
  - intros (x & [= <-] & H). tauto.
  - intros [[_ H]|[? _]]; [|done]. by exists ls0.
  - intros H. right. tauto.
  - intros [[? _]|[_ H]]; done.
Qed.

(** What the file part reads of a builder. *)
Lemma files_repr_ext r r' fs :
  base_vstorage_ r' = base_vstorage_ r -> levels_ r' = levels_ r ->
  table_file_levels_ r' = table_file_levels_ r -> files_repr r fs -> files_repr r' fs.
Proof.
  intros Hb Hl Ht H. constructor.
  - by rewrite Hb, (fr_base _ _ H).
  - by rewrite Hl, (fr_length _ _ H).
  - intros n. unfold GetCurrentLevelForTableFile. rewrite Ht, Hb. apply (fr_level _ _ H).
  - intros l ls n. unfold level_state. rewrite Hl. apply (fr_at _ _ H).
  - intros l ls n p. unfold level_state. rewrite Hl. apply (fr_added _ _ H).
  - apply (fr_wf _ _ H).
Qed.

(** The current level after one entry of [table_file_levels_] changed. *)
Lemma current_level_set r r' n l n' :
  base_vstorage_ r' = base_vstorage_ r -> table_file_levels_ r' = <[n := l]> (table_file_levels_ r) ->
  GetCurrentLevelForTableFile r' n' = if n' =? n then l else GetCurrentLevelForTableFile r n'.
Proof.
  intros Hb Ht. unfold GetCurrentLevelForTableFile. rewrite Ht, Hb. zcase.
  - subst n'. rewrite lookup_insert_eq. done.
  - by rewrite lookup_insert_ne.
Qed.

Lemma level_of_insert fs n l f n' : level_of (<[n := (l, f)]> fs) n' = if n' =? n then l else level_of fs n'.
Proof.
  unfold level_of. zcase; [subst; by rewrite lookup_insert_eq|by rewrite lookup_insert_ne].
Qed.

Lemma level_of_delete fs n n' : level_of (delete n fs) n' = if n' =? n then -1 else level_of fs n'.
Proof.
  unfold level_of. zcase; [subst; by rewrite lookup_delete_eq|by rewrite lookup_delete_ne].
Qed.

Lemma at_level_insert fs n l f l' n' :
  at_level (<[n := (l, f)]> fs) l' n' =
  if n' =? n then (if l =? l' then Some f else None) else at_level fs l' n'.
Proof.
  unfold at_level. destruct (Z.eqb_spec n' n) as [->|]; [by rewrite lookup_insert_eq|].
  by rewrite lookup_insert_ne.
Qed.

Lemma at_level_delete fs n l' n' :
  at_level (delete n fs) l' n' = if n' =? n then None else at_level fs l' n'.
Proof.
  unfold at_level. destruct (Z.eqb_spec n' n) as [->|]; [by rewrite lookup_delete_eq|].
  by rewrite lookup_delete_ne.
Qed.

(** The state of a level after the deletion or the addition of a file. *)
Definition ls_delete (n : Z) ls : LevelState :=
  ls <| added_files ::= delete n |> <| deleted_files ::= fun s => {[n]} ∪ s |>.

Definition ls_add (n : Z) (p : FilePtr) ls : LevelState :=
  ls <| deleted_files ::= fun s => s ∖ {[n]} |> <| added_files ::= emplace n p |>.

Lemma overlay_delete ls b n n' :
  overlay (ls_delete n ls) b n' = if n' =? n then None else overlay ls b n'.
Proof.
  unfold overlay, ls_delete. cbn. destruct (Z.eqb_spec n' n) as [->|Hne].
  - rewrite lookup_delete_eq, decide_True by set_solver. done.
  - rewrite lookup_delete_ne by done. destruct (added_files ls !! n'); [done|].
    apply decide_ext. set_solver.
Qed.

Lemma overlay_add ls b n p n' : added_files ls !! n = None ->
  overlay (ls_add n p ls) b n' = if n' =? n then Some p else overlay ls b n'.
Proof.
  intros Hn. unfold overlay, ls_add, emplace. cbn. rewrite Hn. destruct (Z.eqb_spec n' n) as [->|Hne].
  - by rewrite lookup_insert_eq.
  - rewrite lookup_insert_ne by done. destruct (added_files ls !! n'); [done|].
    apply decide_ext. set_solver.
Qed.

(** A level of a builder in which one level was replaced. *)
Lemma level_state_of r r' l ls0 l' ls : length (levels_ r) = Z.to_nat num -> 0 <= l < num ->
  levels_ r' = <[Z.to_nat l := ls0]> (levels_ r) -> level_state r' l' = Some ls ->
  (l' = l /\ ls = ls0) \/ (l' <> l /\ level_state r l' = Some ls).
Proof.
  intros Hlen Hl E H. pose proof (level_state_set r l ls0 l' Hlen Hl) as Hs.
  unfold level_state in H, Hs. rewrite E in H. unfold set_level_state in Hs. cbn in Hs.
  rewrite Hs in H. destruct (Z.eqb_spec l' l); [left; split; congruence|right; done].
Qed.

Lemma files_repr_delete r r' fs l ls n f :
  files_repr r fs -> fs !! n = Some (l, f) -> 0 <= l < num -> level_state r l = Some ls ->
  base_vstorage_ r' = base_vstorage_ r -> levels_ r' = <[Z.to_nat l := ls_delete n ls]> (levels_ r) ->
  table_file_levels_ r' = <[n := -1]> (table_file_levels_ r) ->
  files_repr r' (delete n fs).
Proof.
  intros H E Hl Hls Hb Hlev Ht. pose proof (fr_length _ _ H) as Hlen. constructor.
  - by rewrite Hb, (fr_base _ _ H).
  - by rewrite Hlev, length_insert.
  - intros n'. rewrite (current_level_set r r' n (-1)), level_of_delete, (fr_level _ _ H) by done. done.
  - intros l' ls' n' Hs. rewrite at_level_delete.
    destruct (level_state_of r r' l _ l' ls' Hlen Hl Hlev Hs) as [[-> ->]|[Hne Hs']].
    + rewrite overlay_delete. zcase; [done|]. by apply (fr_at _ _ H).
    + rewrite (fr_at _ _ H l' ls' n' Hs'). zcase; [|done]. subst n'. unfold at_level. rewrite E. cbn.
      zcase. done.
  - intros l' ls' n' p Hs Hp.
    destruct (level_state_of r r' l _ l' ls' Hlen Hl Hlev Hs) as [[-> ->]|[Hne Hs']];
      [|by apply (fr_added _ _ H l' ls')].
    unfold ls_delete in *. cbn in Hp |- *. apply lookup_delete_Some in Hp as [Hnn Hp].
    destruct (fr_added _ _ H l ls n' p Hls Hp). split; [done|]. set_solver.
  - intros n' l' f' Hn'. apply lookup_delete_Some in Hn' as [_ Hn']. by apply (fr_wf _ _ H n').
Qed.

Lemma not_added r fs l ls n : files_repr r fs -> level_state r l = Some ls -> fs !! n = None ->
  added_files ls !! n = None.
Proof.
  intros H Hls E. pose proof (fr_at _ _ H l ls n Hls) as Hat. unfold at_level in Hat. rewrite E in Hat.
  cbn in Hat. apply fmap_None in Hat. unfold overlay in Hat. by destruct (added_files ls !! n).
Qed.

Lemma files_repr_add r r' fs l ls n f p :
  files_repr r fs -> fs !! n = None -> 0 <= l < num -> level_state r l = Some ls ->
  GetNumber (fd f) = n -> fp_meta p = f ->
  base_vstorage_ r' = base_vstorage_ r -> levels_ r' = <[Z.to_nat l := ls_add n p ls]> (levels_ r) ->
  table_file_levels_ r' = <[n := l]> (table_file_levels_ r) ->
  files_repr r' (<[n := (l, f)]> fs).
Proof.
  intros H E Hl Hls Hn Hp Hb Hlev Ht. pose proof (fr_length _ _ H) as Hlen.
  pose proof (not_added r fs l ls n H Hls E) as Hna. constructor.
  - by rewrite Hb, (fr_base _ _ H).
  - by rewrite Hlev, length_insert.
  - intros n'. rewrite (current_level_set r r' n l), level_of_insert, (fr_level _ _ H) by done. done.
  - intros l' ls' n' Hs. rewrite at_level_insert.
    destruct (level_state_of r r' l _ l' ls' Hlen Hl Hlev Hs) as [[-> ->]|[Hne Hs']].
    + rewrite overlay_add, Z.eqb_refl by done. zcase; [by cbn; rewrite Hp|]. by apply (fr_at _ _ H).
    + rewrite (fr_at _ _ H l' ls' n' Hs'). zcase; [|done]. subst n'. unfold at_level. rewrite E. cbn.
      zcase. done.
  - intros l' ls' n' q Hs Hq.
    destruct (level_state_of r r' l _ l' ls' Hlen Hl Hlev Hs) as [[-> ->]|[Hne Hs']];
      [|by apply (fr_added _ _ H l' ls')].
    unfold ls_add, emplace in *. cbn in Hq |- *. rewrite Hna in Hq.
    apply lookup_insert_Some in Hq as [[<- <-]|[Hnn Hq]].
    + split; [|set_solver]. unfold FileNumber. by rewrite Hp.
    + destruct (fr_added _ _ H l ls n' q Hls Hq). split; [done|]. set_solver.
  - intros n' l' f' Hn'. apply lookup_insert_Some in Hn' as [[<- [= <- <-]]|[_ Hn']]; [split; [lia|done]|].
    by apply (fr_wf _ _ H n').
Qed.

(** Files on levels that do not exist change [table_file_levels_] only. *)
Lemma files_repr_outside r r' fs fs' n l :
  files_repr r fs -> base_vstorage_ r' = base_vstorage_ r -> levels_ r' = levels_ r ->
  table_file_levels_ r' = <[n := l]> (table_file_levels_ r) ->
  (forall n', level_of fs' n' = if n' =? n then l else level_of fs n') ->
  (forall l' n', l' < num -> at_level fs' l' n' = at_level fs l' n') ->
  (forall n l f, fs' !! n = Some (l, f) -> 0 <= l /\ GetNumber (fd f) = n) ->
  files_repr r' fs'.
Proof.
  intros H Hb Hl Ht Hlev Hat Hwf. pose proof (fr_length _ _ H) as Hlen. constructor.
  - by rewrite Hb, (fr_base _ _ H).
  - by rewrite Hl.
  - intros n'. rewrite (current_level_set r r' n l), Hlev, (fr_level _ _ H) by done. done.
  - intros l' ls' n' Hs. unfold level_state in Hs. rewrite Hl in Hs.
    pose proof (level_state_range r l' ls' Hlen Hs). rewrite Hat by lia. by apply (fr_at _ _ H).
  - intros l' ls' n' p Hs. unfold level_state in Hs. rewrite Hl in Hs. by apply (fr_added _ _ H l').
  - done.
Qed.

(** ** Files on levels that do not exist *)

Lemma size_bounded {A : Type} (m : gmap Z A) (N : Z) :
  0 <= N -> (forall k x, m !! k = Some x -> 0 <= k < N) -> Z.of_nat (size m) <= N.
Proof.
  intros HN H. rewrite <- size_dom.
  assert (Hsub : dom m ⊆ (list_to_set (seqZ 0 N) : gset Z)).
  { intros k [x Hk]%elem_of_dom. apply elem_of_list_to_set, elem_of_seqZ. specialize (H k x Hk). lia. }
  apply subseteq_size in Hsub. rewrite size_list_to_set in Hsub by apply NoDup_seqZ.
  rewrite length_seqZ in Hsub. lia.
Qed.

(** File numbers have 62 bits, so the counters cannot overflow. *)
Lemma files_on_bound fs l : (forall n l f, fs !! n = Some (l, f) -> 0 <= l /\ GetNumber (fd f) = n) ->
  Z.of_nat (size (files_on l fs)) <= 2 ^ 62.
Proof.
  intros H. apply size_bounded; [lia|]. intros n [l' f] [E _]%map_lookup_filter_Some.
  destruct (H n l' f E) as [_ <-]. unfold GetNumber, kFileNumberMask.
  change 4611686018427387903 with (Z.ones 62). rewrite Z.land_ones by lia. apply Z.mod_pos_bound. lia.
Qed.

Lemma files_on_insert l fs n l' f : fs !! n = None ->
  size (files_on l (<[n := (l', f)]> fs)) =
  (size (files_on l fs) + if (l' =? l)%Z then 1 else 0)%nat.
Proof.
  intros E. unfold files_on. zcase.
  - rewrite map_filter_insert_True by done. rewrite map_size_insert_None; [lia|].
    apply map_lookup_filter_None. left. done.
  - rewrite map_filter_insert_False by done. rewrite delete_id by done. lia.
Qed.

Lemma files_on_delete l fs n l' f : fs !! n = Some (l', f) ->
  size (files_on l fs) = (size (files_on l (delete n fs)) + if (l' =? l)%Z then 1 else 0)%nat.
Proof.
  intros E. rewrite <- (insert_delete_id fs n (l', f) E) at 1.
  apply files_on_insert. apply lookup_delete_eq.
Qed.

Lemma sizes_repr_inside r r' fs fs' : sizes_repr r fs ->
  has_invalid_levels_ r' = has_invalid_levels_ r ->
  invalid_level_sizes_ r' = invalid_level_sizes_ r ->
  (forall l, num <= l -> size (files_on l fs') = size (files_on l fs)) -> sizes_repr r' fs'.
Proof.
  intros H Hf Hs Hsz. constructor.
  - by rewrite Hf, (sr_flag _ _ H).
  - intros l Hl. by rewrite Hs, Hsz, (sr_size _ _ H) by done.
  - intros l Hl. by rewrite Hs, (sr_valid _ _ H).
Qed.

Lemma sizes_repr_outside r r' fs fs' l d : sizes_repr r fs -> num <= l ->
  has_invalid_levels_ r' = has_invalid_levels_ r ->
  invalid_level_sizes_ r' = <[l := u64 (default 0 (invalid_level_sizes_ r !! l) + d)]> (invalid_level_sizes_ r) ->
  (forall k, Z.of_nat (size (files_on k fs')) =
             Z.of_nat (size (files_on k fs)) + if l =? k then d else 0) ->
  Z.of_nat (size (files_on l fs')) <= 2 ^ 62 -> sizes_repr r' fs'.
Proof.
  intros H Hl Hf Hs Hsz Hb. constructor.
  - by rewrite Hf, (sr_flag _ _ H).
  - intros k Hk. rewrite Hs, Hsz. destruct (Z.eqb_spec l k) as [<-|Hne].
    + rewrite lookup_insert_eq. cbn [default]. rewrite (sr_size _ _ H) by done.
      specialize (Hsz l). rewrite Z.eqb_refl in Hsz. apply u64_id. unfold is_u64. lia.
    + rewrite lookup_insert_ne by done. rewrite (sr_size _ _ H) by done. lia.
  - intros k Hk. rewrite Hs, lookup_insert_ne by lia. by apply (sr_valid _ _ H).
Qed.

(** ** Reference counts *)

Lemma heap_repr_ext r r' w w' : levels_ r' = levels_ r -> w_refs w' = w_refs w ->
  heap_repr r w -> heap_repr r' w'.
Proof.
  intros Hl Hw [H1 H2 H3].
  assert (Ha : forall l n p, added_at r' l n p <-> added_at r l n p).
  { intros l n p. unfold added_at, level_state. by rewrite Hl. }
  constructor; setoid_rewrite Ha; rewrite ?Hw; eauto.
Qed.

Lemma new_address_fresh w : w_refs w !! new_address w = None.
Proof.
  unfold new_address. apply eq_None_not_Some. intros [x Hx].
  apply elem_of_map_to_list in Hx. apply (list_elem_of_fmap_2 fst) in Hx. cbn [fst] in Hx.
  assert (Hmax : forall (l : list Z) k, k ∈ l -> k <= foldr Z.max 0 l).
  { intros l k. induction 1; simpl; lia. }
  apply Hmax in Hx. lia.
Qed.

Lemma heap_repr_delete_base r r' w l n ls : heap_repr r w ->
  length (levels_ r) = Z.to_nat num -> 0 <= l < num ->
  level_state r l = Some ls -> added_files ls !! n = None ->
  levels_ r' = <[Z.to_nat l := ls_delete n ls]> (levels_ r) -> heap_repr r' w.
Proof.
  intros [H1 H2 H3] Hlen Hl Hls Hn Hlev.
  assert (Ha : forall l' n' p, added_at r' l' n' p <-> added_at r l' n' p).
  { intros l' n' p. rewrite (added_at_of r r' l (ls_delete n ls)) by done.
    unfold ls_delete. cbn. rewrite delete_id by done. split; [|intros (x & Hx & Hp)].
    - intros [[-> Hp]|[_ Hp]]; [by exists ls|done].
    - destruct (decide (l' = l)) as [->|]; [left|right]; split; try done; [congruence|by exists x]. }
  constructor; setoid_rewrite Ha; eauto.
Qed.

Lemma heap_repr_delete_added r r' w w' l n ls p : heap_repr r w ->
  length (levels_ r) = Z.to_nat num -> 0 <= l < num ->
  level_state r l = Some ls -> added_files ls !! n = Some p ->
  levels_ r' = <[Z.to_nat l := ls_delete n ls]> (levels_ r) ->
  w_refs w' = delete (fp_addr p) (w_refs w) -> heap_repr r' w'.
Proof.
  intros [H1 H2 H3] Hlen Hl Hls Hn Hlev Hw.
  assert (Hp : added_at r l n p) by (by exists ls).
  assert (Ha : forall l' n' q, added_at r' l' n' q <-> added_at r l' n' q /\ (l', n') <> (l, n)).
  { intros l' n' q. rewrite (added_at_of r r' l (ls_delete n ls)) by done.
    unfold ls_delete. cbn. rewrite lookup_delete_Some. split.
    - intros [(-> & Hne & Hq)|[Hne Hq]]; (split; [|congruence]); [by exists ls|done].
    - intros [Hq Hne]. destruct (decide (l' = l)) as [->|]; [left|by right].
      split; [done|]. split; [congruence|]. destruct Hq as (x & Hx & Hq). congruence. }
  constructor; setoid_rewrite Ha.
  - intros l' n' q [Hq Hne]. destruct (H1 l' n' q Hq) as [Hq0 Hq1]. split; [done|].
    rewrite Hw, lookup_delete_ne; [done|]. intros E.
    destruct (H2 l n p l' n' q Hp Hq E) as [-> ->]. done.
  - intros l1 n1 p1 l2 n2 p2 [Hq1 _] [Hq2 _]. eauto.
  - intros a Hno. rewrite Hw. destruct (decide (a = fp_addr p)) as [->|Hne].
    + rewrite lookup_delete_eq. symmetry. apply (H1 l n p Hp).
    + rewrite lookup_delete_ne by done. apply H3. intros l' n' q Hq E.
      destruct (decide ((l', n') = (l, n))) as [E'|Hne'].
      * injection E' as -> ->. destruct Hp as (x & Hx & Hxp), Hq as (y & Hy & Hyq). congruence.
      * by apply (Hno l' n' q).
Qed.

Lemma heap_repr_add r r' w w' l n ls p : heap_repr r w ->
  (forall a x, refs0 !! a = Some x -> is_Some (w_refs w !! a)) ->
  length (levels_ r) = Z.to_nat num -> 0 <= l < num ->
  level_state r l = Some ls -> added_files ls !! n = None ->
  levels_ r' = <[Z.to_nat l := ls_add n p ls]> (levels_ r) ->
  w_refs w !! fp_addr p = None -> w_refs w' = <[fp_addr p := 1]> (w_refs w) -> heap_repr r' w'.
Proof.
  intros [H1 H2 H3] Hsub Hlen Hl Hls Hn Hlev Hfresh Hw.
  assert (Ha : forall l' n' q, added_at r' l' n' q <->
            ((l', n') = (l, n) /\ q = p) \/ (added_at r l' n' q /\ (l', n') <> (l, n))).
  { intros l' n' q. rewrite (added_at_of r r' l (ls_add n p ls)) by done.
    unfold ls_add, emplace. cbn. rewrite Hn, lookup_insert_Some. split.
    - intros [(-> & [[<- <-]|[Hne Hq]])|[Hne Hq]]; [left; done|right..]; (split; [|congruence]);
        [by exists ls|done].
    - intros [[[= -> ->] ->]|[Hq Hne]]; [left; auto|].
      destruct (decide (l' = l)) as [->|]; [left|by right].
      split; [done|]. right. split; [congruence|]. destruct Hq as (x & Hx & Hq). congruence. }
  assert (Hold : forall l' n' q, added_at r l' n' q -> fp_addr q <> fp_addr p).
  { intros l' n' q Hq E. apply H1 in Hq as [_ Hq]. congruence. }
  assert (Hp0 : refs0 !! fp_addr p = None).
  { destruct (refs0 !! fp_addr p) eqn:E; [|done]. apply Hsub in E as [x E]. congruence. }
  constructor; setoid_rewrite Ha.
  - intros l' n' q [[[= -> ->] ->]|[Hq _]]; rewrite Hw.
    + by rewrite lookup_insert_eq.
    + rewrite lookup_insert_ne by (symmetry; by eapply Hold). eauto.
  - intros l1 n1 p1 l2 n2 p2 [[[= -> ->] ->]|[Hq1 _]] [[[= -> ->] ->]|[Hq2 _]] E; [done| | |eauto].
    + by destruct (Hold l2 n2 p2 Hq2).
    + by destruct (Hold l1 n1 p1 Hq1).
  - intros a Hno. rewrite Hw. rewrite lookup_insert_ne by (apply (Hno l n p); left; done).
    apply H3. intros l' n' q Hq E. apply (Hno l' n' q); [|done].
    destruct (decide ((l', n') = (l, n))) as [E'|]; [|by right]. injection E' as -> ->.
    destruct Hq as (x & Hx & Hq). congruence.
Qed.

(** Nothing that was there before is freed. *)
Lemma heap_repr_sub r w : heap_repr r w -> forall a x, refs0 !! a = Some x -> w_refs w !! a = Some x.
Proof.
  intros [H1 H2 H3] a x Ha. rewrite H3; [done|]. intros l n p Hp E. apply H1 in Hp as [Hp _]. congruence.
Qed.

(** ** Blob files *)

Lemma blobs_repr_ext r r' bs : base_vstorage_ r' = base_vstorage_ r ->
  mutable_blob_file_metas_ r' = mutable_blob_file_metas_ r -> blobs_repr r bs -> blobs_repr r' bs.
Proof.
  intros Hb Hm [H1 H2 H3 H4 H5]. constructor; rewrite ?Hb, ?Hm; try done.
  intros n. rewrite H3. unfold blob_at. by rewrite Hm.
Qed.

Lemma delta_ok_new b : is_u64 (bm_garbage_blob_count_ b) -> is_u64 (bm_garbage_blob_bytes_ b) ->
  delta_ok b (Mutable_of_meta b).
Proof.
  intros Hc Hb. constructor; cbn; [done|set_solver|set_solver| |]; by rewrite Z.add_0_r, u64_id.
Qed.

Lemma blobs_repr_insert r bs n m : blobs_repr r bs -> blob_wf n (CreateBlobFileMetaData m) ->
  (forall b, GetBlobFileMetaData base n = Some b -> delta_ok b m) ->
  blobs_repr (r <| mutable_blob_file_metas_ ::= map_insert n m |>)
             (<[n := CreateBlobFileMetaData m]> bs).
Proof.
  intros [H1 H2 H3 H4 H5] Hwf Hd. pose proof Hwf as (_ & Hn0 & _).
  constructor; cbn.
  - done.
  - apply map_insert_sorted; [done|lia].
  - intros n'. unfold blob_at. cbn. rewrite (map_find_insert 0) by done.
    destruct (decide (n' = n)) as [->|Hne].
    + by rewrite lookup_insert_eq, Z.eqb_refl.
    + rewrite lookup_insert_ne by done. rewrite (proj2 (Z.eqb_neq _ _)) by done.
      apply H3.
  - intros n' b. rewrite lookup_insert_Some. intros [[<- <-]|[_ E]]; [done|eauto].
  - intros n' m' b. rewrite (map_find_insert 0) by done. zcase; [|apply H5].
    subst n'. intros [= <-]. apply Hd.
Qed.

Lemma alter_Some {A : Type} (g : A -> A) (m : gmap Z A) k x :
  m !! k = Some x -> alter g k m = <[k := g x]> m.
Proof.
  intros Hx. apply map_eq. intros i. destruct (decide (i = k)) as [->|].
  - by rewrite lookup_alter_eq, Hx, lookup_insert_eq.
  - by rewrite lookup_alter_ne, lookup_insert_ne.
Qed.

Lemma alter_None {A : Type} (g : A -> A) (m : gmap Z A) k : m !! k = None -> alter g k m = m.
Proof.
  intros Hx. apply map_eq. intros i. destruct (decide (i = k)) as [->|].
  - by rewrite lookup_alter_eq, Hx.
  - by rewrite lookup_alter_ne.
Qed.

(** The entry that is found or made stands for the blob file of the state. *)
Lemma get_or_create_spec r bs n : blobs_repr r bs ->
  match GetOrCreateMutableBlobFileMetaData r n with
  | (None, r') => r' = r /\ bs !! n = None
  | (Some m, r') =>
      bs !! n = Some (CreateBlobFileMetaData m) /\ blobs_repr r' bs /\
      (exists ms, r' = r <| mutable_blob_file_metas_ := ms |>) /\
      (forall b, GetBlobFileMetaData base n = Some b -> delta_ok b m)
  end.
Proof.
  intros H. pose proof (br_at _ _ H n) as Hat. unfold GetOrCreateMutableBlobFileMetaData.
  unfold blob_at in Hat. rewrite (br_base _ _ H).
  destruct (map_find n (mutable_blob_file_metas_ r)) as [m|] eqn:Em.
  - split; [done|]. split; [done|]. split.
    + exists (mutable_blob_file_metas_ r). by destruct r.
    + intros b Hb. by apply (br_delta _ _ H n).
  - destruct (GetBlobFileMetaData base n) as [b|] eqn:Eb; [|done].
    pose proof (br_wf _ _ H n b Hat) as Hwf.
    assert (Ec : CreateBlobFileMetaData (Mutable_of_meta b) = b) by (by destruct b).
    assert (Hd : delta_ok b (Mutable_of_meta b)) by (apply delta_ok_new; apply Hwf).
    split; [by rewrite Ec|]. split; [|split].
    + rewrite <- (insert_id bs n (CreateBlobFileMetaData (Mutable_of_meta b))) by (by rewrite Ec).
      apply blobs_repr_insert; [done|by rewrite Ec|]. intros b'. rewrite Eb. by intros [= <-].
    + by eexists.
    + by intros b' [= <-].
Qed.

(** *** Links *)

Lemma delta_ok_link b m x : delta_ok b m -> x ∉ mb_linked_ssts_ m -> delta_ok b (Mutable_LinkSst x m).
Proof.
  intros [H1 H2 H3 H4 H5] Hx.
  constructor; cbn; unfold Delta_LinkSst; try (case_bool_decide as Hu); cbn; try done; rewrite ?H2, ?H3;
    rewrite H3 in Hu; set_solver.
Qed.

Lemma unlink_unlinked (Lm Lb : gset Z) x : x ∈ Lm ->
  Lb ∖ (Lm ∖ {[x]}) = if decide (x ∈ Lm ∖ Lb) then Lb ∖ Lm else {[x]} ∪ (Lb ∖ Lm).
Proof.
  intros Hx. apply set_eq. intros y. case_decide as Hu.
  - destruct (decide (y = x)); set_solver.
  - assert (x ∈ Lb) by (destruct (decide (x ∈ Lb)); set_solver).
    destruct (decide (y = x)) as [->|]; set_solver.
Qed.

Lemma delta_ok_unlink b m x : delta_ok b m -> x ∈ mb_linked_ssts_ m -> delta_ok b (Mutable_UnlinkSst x m).
Proof.
  intros [H1 H2 H3 H4 H5] Hx.
  constructor; cbn; unfold Delta_UnlinkSst; try (case_bool_decide as Hu); cbn; try done; rewrite ?H2, ?H3;
    rewrite H2 in Hu.
  - set_solver.
  - set_solver.
  - by rewrite unlink_unlinked, decide_True.
  - by rewrite unlink_unlinked, decide_False.
Qed.

(** Links of one table file are changed, in the builder and in the state. *)
Lemma update_blob_links_spec r bs n f g : blobs_repr r bs ->
  (forall m, CreateBlobFileMetaData (f m) = (CreateBlobFileMetaData m) <| bm_linked_ssts_ ::= g |>) ->
  (forall b m, GetBlobFileMetaData base n = Some b -> bs !! n = Some (CreateBlobFileMetaData m) ->
     delta_ok b m -> delta_ok b (f m)) ->
  exists ms, update_blob_links r n f = r <| mutable_blob_file_metas_ := ms |> /\
    blobs_repr (update_blob_links r n f) (lsm_links n g bs).
Proof.
  intros H Hf Hd. unfold update_blob_links, lsm_links.
  assert (Hr : r = r <| mutable_blob_file_metas_ := mutable_blob_file_metas_ r |>) by (by destruct r).
  zcase; [eexists; split; [exact Hr|done]|].
  pose proof (get_or_create_spec r bs n H) as Hg.
  destruct (GetOrCreateMutableBlobFileMetaData r n) as [[m|] r'].
  - destruct Hg as (Hn & Hr' & (ms & ->) & Hdm). eexists. split; [reflexivity|].
    rewrite (alter_Some _ bs n (CreateBlobFileMetaData m)) by done.
    rewrite <- Hf. apply blobs_repr_insert; [done| |].
    + pose proof (br_wf _ _ H n _ Hn) as Hwf. rewrite Hf. done.
    + intros b Hb. apply Hd; auto.
  - destruct Hg as [-> Hn]. eexists. split; [exact Hr|]. by rewrite alter_None.
Qed.

Lemma links_repr_other fs fs' bs : links_repr fs bs ->
  (forall x l f, fs' !! x = Some (l, f) /\ l < num <-> fs !! x = Some (l, f) /\ l < num) ->
  links_repr fs' bs.
Proof.
  intros H Hfs n b Hn Hb x. rewrite (H n b Hn Hb x). split; intros (l & f & Hx & Hl & Ho); exists l, f.
  - destruct (proj2 (Hfs x l f) (conj Hx Hl)). done.
  - destruct (proj1 (Hfs x l f) (conj Hx Hl)). done.
Qed.

Context (Hbase : version_ok base) (Hidx : indexed base) (Hlinks : links_exact base).

(** ** The start *)

Lemma level_state_new l ls : level_state (Rep_new base) l = Some ls -> ls = LevelState_new.
Proof.
  unfold level_state, Rep_new. cbn. zcase; [done|]. intros Hx. by apply lookup_replicate in Hx as [-> _].
Qed.

Lemma files_repr_new : files_repr (Rep_new base) (lsm_files (lsm_of base)).
Proof.
  assert (Hof : forall n l f, lsm_files (lsm_of base) !! n = Some (l, f) -> 0 <= l < num /\ GetNumber (fd f) = n).
  { intros n l f H. apply lsm_of_files in H as (p & Hp & <- & <-); [|done].
    split; [by eapply on_level_range|done]. }
  constructor; cbn [Rep_new base_vstorage_ levels_]; [done|by rewrite length_replicate| | | |].
  - intros n. unfold GetCurrentLevelForTableFile, level_of. cbn [Rep_new table_file_levels_ base_vstorage_].
    rewrite lookup_empty. destruct (GetFileLocation_on_level base n Hbase Hidx) as [Hon Hoff].
    destruct (lsm_files (lsm_of base) !! n) as [[l f]|] eqn:E.
    + apply lsm_of_files in E as (p & Hp & Hn & _); [|done]. by apply (Hon l p).
    + apply Hoff. intros l p Hp Hn.
      assert (lsm_files (lsm_of base) !! n = Some (l, fp_meta p)) as E'; [|congruence].
      apply lsm_of_files; [done|]. by exists p.
  - intros l ls n ->%level_state_new. unfold overlay. cbn [LevelState_new added_files deleted_files].
    rewrite lookup_empty, decide_False by set_solver. unfold at_level.
    apply option_eq. intros f. rewrite fmap_Some, bind_Some. setoid_rewrite base_file_Some; [|done].
    split.
    + intros (p & [Hp Hn] & ->). exists (l, fp_meta p). split; [apply lsm_of_files; eauto|].
      cbn. by rewrite Z.eqb_refl.
    + intros ([l' g] & E & H). cbn in H. destruct (Z.eqb_spec l' l) as [->|]; [|done].
      injection H as ->. apply lsm_of_files in E as (p & Hp & Hn & <-); [|done]. by exists p.
  - intros l ls n p ->%level_state_new. cbn. by rewrite lookup_empty.
  - intros n l f H. apply Hof in H. lia.
Qed.

Lemma blob_words n b : GetBlobFileMetaData base n = Some b -> 0 < n /\ blob_wf n b /\ b ∈ blob_files_ base.
Proof.
  intros [Hin <-]%GetBlobFileMetaData_Some; [|apply (vo_blobs base Hbase)].
  pose proof (vo_blob_words base Hbase) as Hw. rewrite list.Forall_forall in Hw.
  destruct (Hw b Hin) as (H0 & Hc & Hb). unfold blob_wf. split_and!; try done; lia.
Qed.

Lemma blobs_repr_new : blobs_repr (Rep_new base) (lsm_blobs (lsm_of base)).
Proof.
  constructor; [done|done| | |done].
  - intros n. rewrite lsm_of_blobs by done. done.
  - intros n b. rewrite lsm_of_blobs by done. intros H. by apply blob_words in H as (_ & ? & _).
Qed.

Lemma links_repr_new : links_repr (lsm_files (lsm_of base)) (lsm_blobs (lsm_of base)).
Proof.
  intros n b E _ x. rewrite lsm_of_blobs in E by done.
  apply blob_words in E as (_ & (Hn & _) & Hin). rewrite (Hlinks b Hin x), Hn.
  setoid_rewrite lsm_of_files; [|done]. split.
  - intros (l & f & Hl & Hx & Hb). exists l, (fp_meta f). split; [by exists f|].
    split; [by eapply on_level_range|done].
  - intros (l & m & (f & Hl & Hx & <-) & _ & Hb). by exists l, f.
Qed.

Lemma files_on_none l fs : (forall n l' f, fs !! n = Some (l', f) -> l' <> l) -> files_on l fs = ∅.
Proof.
  intros H. apply map_empty. intros n. apply map_lookup_filter_None. right. intros [l' f] E.
  cbn. by eapply H.
Qed.

Lemma repr_new w : w_refs w = refs0 -> (managed = false -> file_metadata_cache_res_mgr_ w = None) ->
  repr (Rep_new base) w (lsm_of base).
Proof.
  intros Hw Hm. constructor; [..|exact Hm].
  - apply files_repr_new.
  - apply blobs_repr_new.
  - apply links_repr_new.
  - constructor; cbn [Rep_new updated_compact_cursors_]; [by rewrite (left_id_L ∅ (∪))|done].
  - constructor; cbn [Rep_new has_invalid_levels_ invalid_level_sizes_]; [done| |done].
    intros l Hl. rewrite lookup_empty, files_on_none; [done|]. intros n l' f E ->.
    apply lsm_of_files in E as (p & Hp & _); [|done]. apply on_level_range in Hp; [lia|done].
  - assert (Hno : forall l n p, ~ added_at (Rep_new base) l n p).
    { intros l n p (ls & ->%level_state_new & H). cbn in H. by rewrite lookup_empty in H. }
    constructor.
    + intros l n p H. by apply Hno in H.
    + intros l n p l' n' p' H. by apply Hno in H.
    + intros a _. by rewrite Hw.
Qed.

(** ** Files of one number *)

Lemma files_repr_overlay r fs l ls n f : files_repr r fs -> level_state r l = Some ls ->
  fs !! n = Some (l, f) -> exists p, overlay ls (base_file base l n) n = Some p /\ fp_meta p = f.
Proof.
  intros H Hl E. pose proof (fr_at r fs H l ls n Hl) as Hat. unfold at_level in Hat.
  rewrite E in Hat. cbn in Hat. rewrite Z.eqb_refl in Hat. apply fmap_Some in Hat as (q & Hq & ->).
  by exists q.
Qed.

(** ** Operations *)

(** An outcome against the abstract one: success with a state it stands for,
    a corruption that the abstract operation reports too, or memory that could
    not be reserved. *)
Definition refines (out : option (Status * (Rep * World M))) (s' : option Lsm) : Prop :=
  match out with
  | None => False
  | Some (st, (r', w')) =>
      (st = OK /\ exists s, s' = Some s /\ repr r' w' s) \/
      ((exists msg, st = Corruption msg) /\ s' = None) \/
      ((exists msg, st = MemoryLimit msg) /\ managed = true)
  end.

Lemma refines_ok r w s : repr r w s -> refines (Some (OK, (r, w))) (Some s).
Proof. intros H. left. eauto. Qed.

Lemma refines_corruption msg r w : refines (Some (Corruption msg, (r, w))) None.
Proof. right. left. eauto. Qed.

Lemma ApplyBlobFileAddition_refines r w s a : repr r w s -> 0 < blob_file_number_ a ->
  refines (on_rep ApplyBlobFileAddition (r, w) a) (lsm_add_blob s a).
Proof.
  intros H H0. unfold on_rep, ApplyBlobFileAddition, lsm_add_blob, IsBlobFileInVersion. cbn [fst snd].
  pose proof (rp_blobs _ _ _ H) as Hb. pose proof (br_at _ _ Hb (blob_file_number_ a)) as Hat.
  unfold blob_at in Hat. rewrite (br_base _ _ Hb).
  destruct (map_find _ _) as [m|] eqn:Em; [rewrite Hat; apply refines_corruption|].
  rewrite Hat. destruct (GetBlobFileMetaData base _) as [b|] eqn:Eb; case_bool_decide as Hd.
  - apply refines_corruption.
  - by destruct Hd.
  - by destruct Hd.
  - apply refines_ok. destruct H. constructor; cbn; try done.
    + by apply (files_repr_ext r).
    + apply (blobs_repr_insert r _ (blob_file_number_ a) (Mutable_of_shared _)); [done| |].
      * unfold blob_wf. cbn. split_and!; try done; unfold is_u64; lia.
      * intros b. by rewrite Eb.
    + intros n b Hn Hbase' x. apply (rp_links0 n b); [|done].
      apply lookup_insert_Some in Hn as [[<- _]|[_ Hn]]; [|done]. rewrite Eb in Hbase'. by destruct Hbase'.
    + by destruct rp_cursors0.
    + by apply (sizes_repr_inside r _ (lsm_files s)).
    + by apply (heap_repr_ext r _ w).
Qed.

Lemma delta_ok_garbage b m count bytes :
  delta_ok b m -> delta_ok b (Mutable_AddGarbage m count bytes).2.
Proof.
  intros [H1 H2 H3 H4 H5]. unfold Mutable_AddGarbage. destruct (_ || _); [done|].
  constructor; cbn; try done.
  - rewrite H4. unfold u64. rewrite Zplus_mod_idemp_l, Zplus_mod_idemp_r. f_equal. lia.
  - rewrite H5. unfold u64. rewrite Zplus_mod_idemp_l, Zplus_mod_idemp_r. f_equal. lia.
Qed.

(** A state in which only the blob files changed, and their links did not. *)
Lemma repr_blobs r w s ms bs : repr r w s ->
  blobs_repr (r <| mutable_blob_file_metas_ := ms |>) bs -> links_repr (lsm_files s) bs ->
  repr (r <| mutable_blob_file_metas_ := ms |>) w (s <| lsm_blobs := bs |>).
Proof.
  intros H Hb Hl. destruct H. constructor; cbn; try done.
  - by apply (files_repr_ext r).
  - by destruct rp_cursors0.
  - by apply (sizes_repr_inside r _ (lsm_files s)).
  - by apply (heap_repr_ext r _ w).
Qed.

Lemma ApplyBlobFileGarbage_refines r w s g : repr r w s ->
  refines (on_rep ApplyBlobFileGarbage (r, w) g) (lsm_garbage s g).
Proof.
  intros H. unfold on_rep, ApplyBlobFileGarbage, lsm_garbage. cbn [fst snd].
  pose proof (rp_blobs _ _ _ H) as Hb. set (n := garbage_file_number_ g).
  pose proof (get_or_create_spec r _ n Hb) as Hg.
  destruct (GetOrCreateMutableBlobFileMetaData r n) as [[m|] r'];
    [|destruct Hg as [-> ->]; apply refines_corruption].
  destruct Hg as (Hn & Hr' & (ms & ->) & Hdm). rewrite Hn. cbn [mbind option_bind].
  pose proof (delta_ok_garbage) as Hdg. specialize (fun b => Hdg b m (garbage_blob_count_ g) (garbage_blob_bytes_ g)).
  unfold Mutable_AddGarbage in Hdg |- *.
  change (bm_shared_meta_ (CreateBlobFileMetaData m)) with (mb_shared_meta_ m).
  change (bm_garbage_blob_count_ (CreateBlobFileMetaData m)) with (mb_garbage_blob_count_ m).
  change (bm_garbage_blob_bytes_ (CreateBlobFileMetaData m)) with (mb_garbage_blob_bytes_ m).
  destruct (_ || _); [apply refines_corruption|]. apply refines_ok. cbn [snd] in Hdg.
  pose proof (br_wf _ _ Hb n _ Hn) as Hwf.
  apply (repr_blobs r w s (map_insert n _ ms) (<[n := _]> (lsm_blobs s)) H).
  - refine (blobs_repr_insert _ _ n (m <| delta_ ::= fun d => Delta_AddGarbage d _ _ |>
      <| mb_garbage_blob_count_ ::= _ |> <| mb_garbage_blob_bytes_ ::= _ |>) Hr' _ _);
      [|intros b Hbb; apply Hdg, Hdm; done].
    destruct Hwf as (Hw1 & Hw2 & _). split; [exact Hw1|]. split; [done|]. split; apply u64_range.
  - intros n' b Hb' Hbase' x. apply lookup_insert_Some in Hb' as [[<- <-]|[_ Hb']].
    + apply (rp_links _ _ _ H n _ Hn Hbase' x).
    + apply (rp_links _ _ _ H n' b Hb' Hbase' x).
Qed.

(** *** Deletion of table files *)

(** The blob file of a table file on an existing level. *)
Lemma oldest_blob_spec r fs l n f : files_repr r fs -> fs !! n = Some (l, f) -> l < num ->
  GetOldestBlobFileNumberForTableFile r l n = Some (oldest_blob_file_number f).
Proof.
  intros H E Hl. destruct (fr_wf _ _ H n l f E) as [H0 _].
  destruct (level_state_Some r l (fr_length _ _ H)) as [ls Hls]; [lia|].
  destruct (files_repr_overlay r fs l ls n f H Hls E) as (p & Hp & <-).
  unfold GetOldestBlobFileNumberForTableFile. rewrite Hls. cbn [mbind option_bind].
  unfold overlay in Hp. destruct (added_files ls !! n) as [q|]; [by injection Hp as ->|].
  case_decide; [done|]. apply base_file_Some in Hp as [Hon Hn]; [|done].
  rewrite (fr_base _ _ H). destruct (GetFileLocation_on_level base n Hbase Hidx) as [Hl' _].
  by destruct (Hl' l p Hon Hn) as [_ ->].
Qed.

(** The links of a blob file of the base after a change. *)
Lemma lsm_links_base blob g bs k b : lsm_links blob g bs !! k = Some b ->
  is_Some (GetBlobFileMetaData base k) ->
  exists b0, bs !! k = Some b0 /\
    bm_linked_ssts_ b = (if blob =? k then g (bm_linked_ssts_ b0) else bm_linked_ssts_ b0).
Proof.
  unfold lsm_links. intros Hk [b1 Hkb]. apply blob_words in Hkb as [Hk0 _].
  destruct (Z.eqb_spec blob kInvalidBlobFileNumber) as [E0|].
  - exists b. split; [done|]. unfold kInvalidBlobFileNumber in E0. by zcase.
  - zcase.
    + subst k. rewrite lookup_alter_eq in Hk. apply fmap_Some in Hk as (b0 & Hb0 & ->). by exists b0.
    + rewrite lookup_alter_ne in Hk by done. by exists b.
Qed.

(** Deleting a file and unlinking it keeps the links exact. *)
Lemma links_repr_delete fs bs n l f : links_repr fs bs -> fs !! n = Some (l, f) -> l < num ->
  links_repr (delete n fs) (lsm_links (oldest_blob_file_number f) (fun x => x ∖ {[n]}) bs).
Proof.
  intros H E Hl k b Hk Hkb x. destruct (lsm_links_base _ _ _ k b Hk Hkb) as (b0 & Hb0 & ->). specialize (H k b0 Hb0 Hkb x).
  setoid_rewrite lookup_delete_Some. zcase.
  - rewrite elem_of_difference, elem_of_singleton, H. split.
    + intros [(l' & f' & Hx & Hrest) Hne]. exists l', f'. auto.
    + intros (l' & f' & [Hne Hx] & Hrest). split; [by exists l', f'|done].
  - rewrite H. split.
    + intros (l' & f' & Hx & Hrest). exists l', f'. split; [split; [|done]|done].
      intros <-. rewrite E in Hx. injection Hx as <- <-. tauto.
    + intros (l' & f' & [Hne Hx] & Hrest). by exists l', f'.
Qed.

Lemma UnrefFile_last w p : w_refs w !! fp_addr p = Some 1 ->
  exists w', UnrefFile object_usage w p = Some w' /\ w_refs w' = delete (fp_addr p) (w_refs w) /\
    (file_metadata_cache_res_mgr_ w = None -> file_metadata_cache_res_mgr_ w' = None).
Proof.
  intros E. unfold UnrefFile, file_unref. rewrite E.
  change (s32 (1 - 1)) with 0. cbn -[update_reservation]. unfold update_reservation.
  destruct (table_reader_handle _), w as [refs rel [m|]]; cbn in *; try destruct (UpdateCacheReservation _ _ _);
    eexists; (split; [reflexivity|]); (split; [apply delete_insert_eq|done]).
Qed.

(** The state after a deletion, outside and inside the levels that exist. *)
Lemma repr_delete_outside r w s l n f : repr r w s -> lsm_files s !! n = Some (l, f) -> num <= l ->
  repr (r <| invalid_level_sizes_ ::= fun m => <[l := u64 (default 0 (m !! l) - 1)]> m |>
          <| table_file_levels_ ::= <[n := -1]> |>) w (s <| lsm_files ::= delete n |>).
Proof.
  intros H E Hout. pose proof (fr_wf _ _ (rp_files _ _ _ H)) as Hwf. destruct H.
  constructor; cbn; try done.
  - apply (files_repr_outside r _ (lsm_files s) _ n (-1)); try done.
    + intros n'. by rewrite level_of_delete.
    + intros l' n' Hl'. rewrite at_level_delete. zcase; [|done]. subst n'. unfold at_level. rewrite E.
      cbn. zcase. done.
    + intros n' l' f' Hn'. apply lookup_delete_Some in Hn' as [_ Hn']. eauto.
  - by apply (blobs_repr_ext r).
  - apply (links_repr_other (lsm_files s)); [done|]. intros x l' f'. rewrite lookup_delete_Some.
    split; [tauto|]. intros [Hx Hl']. split; [|done]. split; [|done]. intros <-.
    rewrite E in Hx. injection Hx as <- <-. lia.
  - by destruct rp_cursors0.
  - apply (sizes_repr_outside r _ (lsm_files s) _ l (-1)); try done.
    + intros k. pose proof (files_on_delete k (lsm_files s) n l f E). zcase; lia.
    + apply files_on_bound. intros n' l' f' Hn'. apply lookup_delete_Some in Hn' as [_ Hn']. eauto.
  - by apply (heap_repr_ext r _ w).
Qed.

Lemma repr_delete_inside r w w' s l n f ls ms : repr r w s -> lsm_files s !! n = Some (l, f) ->
  0 <= l < num -> level_state r l = Some ls ->
  let s' := s <| lsm_files ::= delete n |>
              <| lsm_blobs ::= lsm_links (oldest_blob_file_number f) (fun x => x ∖ {[n]}) |> in
  let r1 := r <| mutable_blob_file_metas_ := ms |> in
  let r' := (set_level_state r1 l (ls_delete n ls)) <| table_file_levels_ ::= <[n := -1]> |> in
  blobs_repr r1 (lsm_blobs s') -> heap_repr r' w' ->
  (managed = false -> file_metadata_cache_res_mgr_ w' = None) -> repr r' w' s'.
Proof.
  intros H E Hl Hls s' r1 r' Hb Hh Hm. destruct H. constructor; cbn; try done.
  - by apply (files_repr_delete r _ (lsm_files s) l ls n f).
  - by apply (blobs_repr_ext r1).
  - apply (links_repr_delete _ _ n l f); [done..|lia].
  - by destruct rp_cursors0.
  - apply (sizes_repr_inside r _ (lsm_files s)); try done. intros k Hk.
    pose proof (files_on_delete k (lsm_files s) n l f E) as Hsz. zcase_in Hsz; lia.
Qed.

Lemma ApplyFileDeletion_refines r w s x : repr r w s -> 0 <= x.1 ->
  refines (ApplyFileDeletion object_usage (r, w) x) (lsm_delete num s x).
Proof.
  destruct x as [level n]. cbn [fst]. intros H H0. unfold ApplyFileDeletion, lsm_delete.
  pose proof (rp_files _ _ _ H) as Hf. rewrite (fr_level _ _ Hf). unfold level_of, Rep_num_levels_.
  rewrite (fr_base _ _ Hf). destruct (lsm_files s !! n) as [[l f]|] eqn:E; cbn [mbind option_bind].
  2:{ rewrite (proj2 (Z.eqb_neq level (-1))) by lia. apply refines_corruption. }
  destruct (Z.eqb_spec level l) as [->|]; [|apply refines_corruption]. cbn [negb].
  destruct (Z.leb_spec num l) as [Hout|Hin]; [by eapply refines_ok, repr_delete_outside|].
  rewrite (oldest_blob_spec r _ l n f Hf E Hin). cbn [mbind option_bind].
  destruct (update_blob_links_spec r (lsm_blobs s) (oldest_blob_file_number f) (Mutable_UnlinkSst n)
              (fun y => y ∖ {[n]}) (rp_blobs _ _ _ H)) as (ms & Hms & Hb'); [done| |].
  { intros b m Hb Hm Hd. apply delta_ok_unlink; [done|].
    apply (proj2 (rp_links _ _ _ H _ _ Hm (mk_is_Some _ _ Hb) n)). exists l, f. done. }
  rewrite Hms in Hb' |- *. clear Hms.
  change (level_state (r <| mutable_blob_file_metas_ := ms |>) l) with (level_state r l).
  destruct (level_state_Some r l (fr_length _ _ Hf)) as [ls Hls]; [lia|]. rewrite Hls. cbn [mbind option_bind].
  destruct (added_files ls !! n) as [p|] eqn:Ep.
  - destruct (hr_added _ _ (rp_heap _ _ _ H) l n p) as [_ Hp]; [by exists ls|].
    destruct (UnrefFile_last w p Hp) as (w' & Hw' & Hrefs & Hmg). rewrite Hw'. cbn [mbind option_bind].
    apply refines_ok, (repr_delete_inside r w w' s l n f ls ms); try done.
    + by apply (heap_repr_delete_added r _ w w' l n ls p (rp_heap _ _ _ H) (fr_length _ _ Hf)).
    + intros Hm. apply Hmg, (rp_managed _ _ _ H Hm).
  - cbn [mbind option_bind]. apply refines_ok, (repr_delete_inside r w w s l n f ls ms); try done.
    + by apply (heap_repr_delete_base r _ w l n ls (rp_heap _ _ _ H) (fr_length _ _ Hf)).
    + apply (rp_managed _ _ _ H).
Qed.

(** *** Addition of table files *)

Lemma links_repr_add fs bs n l f : links_repr fs bs -> fs !! n = None -> l < num ->
  links_repr (<[n := (l, f)]> fs) (lsm_links (oldest_blob_file_number f) (fun x => {[n]} ∪ x) bs).
Proof.
  intros H E Hl k b Hk Hkb x. destruct (lsm_links_base _ _ _ k b Hk Hkb) as (b0 & Hb0 & ->). specialize (H k b0 Hb0 Hkb x).
  setoid_rewrite lookup_insert_Some. zcase.
  - rewrite elem_of_union, elem_of_singleton, H. split.
    + intros [->|(l' & f' & Hx & Hrest)]; [exists l, f; auto|]. exists l', f'. split; [|done].
      right. split; [|done]. intros <-. congruence.
    + intros (l' & f' & [[<- [= <- <-]]|[Hne Hx]] & Hrest); [by left|right]. by exists l', f'.
  - rewrite H. split.
    + intros (l' & f' & Hx & Hrest). exists l', f'. split; [|done]. right. split; [|done]. intros <-. congruence.
    + intros (l' & f' & [[<- [= <- <-]]|[Hne Hx]] & Hrest); [tauto|]. by exists l', f'.
Qed.

Lemma repr_add_outside r w s l f : repr r w s -> lsm_files s !! GetNumber (fd f) = None ->
  num <= l ->
  repr (r <| invalid_level_sizes_ ::= fun m => <[l := u64 (default 0 (m !! l) + 1)]> m |>
          <| table_file_levels_ ::= <[GetNumber (fd f) := l]> |>) w
       (s <| lsm_files ::= <[GetNumber (fd f) := (l, f)]> |>).
Proof.
  intros H E Hout. pose proof (fr_wf _ _ (rp_files _ _ _ H)) as Hwf.
  pose proof (vo_num_levels base Hbase) as Hn0. set (n := GetNumber (fd f)) in *.
  assert (Hwf' : forall n' l' f', <[n := (l, f)]> (lsm_files s) !! n' = Some (l', f') ->
            0 <= l' /\ GetNumber (fd f') = n').
  { intros n' l' f'. rewrite lookup_insert_Some. intros [[<- [= <- <-]]|[_ Hx]]; [split; [lia|done]|eauto]. }
  destruct H. constructor; cbn; try done.
  - apply (files_repr_outside r _ (lsm_files s) _ n l); try done.
    + intros n'. by rewrite level_of_insert.
    + intros l' n' Hl'. rewrite at_level_insert. destruct (Z.eqb_spec n' n) as [->|]; [|done].
      rewrite (proj2 (Z.eqb_neq l l')) by lia. unfold at_level. by rewrite E.
  - by apply (blobs_repr_ext r).
  - apply (links_repr_other (lsm_files s)); [done|]. intros x l' f'. rewrite lookup_insert_Some. split.
    + intros [[[<- [= <- <-]]|[_ Hx]] Hl']; [lia|done].
    + intros [Hx Hl']. split; [|done]. right. split; [|done]. intros <-. congruence.
  - by destruct rp_cursors0.
  - apply (sizes_repr_outside r _ (lsm_files s) _ l 1); try done.
    + intros k. rewrite files_on_insert by done. destruct (l =? k); lia.
    + by apply files_on_bound.
  - by apply (heap_repr_ext r _ w).
Qed.

Lemma repr_add_inside r w w' s l f ls p r2 : repr r w s -> lsm_files s !! GetNumber (fd f) = None ->
  0 <= l < num -> level_state r l = Some ls -> fp_meta p = f ->
  let n := GetNumber (fd f) in
  let s' := s <| lsm_files ::= <[n := (l, f)]> |>
              <| lsm_blobs ::= lsm_links (oldest_blob_file_number f) (fun x => {[n]} ∪ x) |> in
  levels_ r2 = <[Z.to_nat l := ls_add n p ls]> (levels_ r) ->
  invalid_level_sizes_ r2 = invalid_level_sizes_ r -> has_invalid_levels_ r2 = has_invalid_levels_ r ->
  updated_compact_cursors_ r2 = updated_compact_cursors_ r -> base_vstorage_ r2 = base_vstorage_ r ->
  table_file_levels_ r2 = table_file_levels_ r ->
  blobs_repr r2 (lsm_blobs s') ->
  w_refs w !! fp_addr p = None -> w_refs w' = <[fp_addr p := 1]> (w_refs w) ->
  (managed = false -> file_metadata_cache_res_mgr_ w' = None) ->
  repr (r2 <| table_file_levels_ ::= <[n := l]> |>) w' s'.
Proof.
  intros H E Hl Hls Hp n s' Hlev Hsz Hflag Hcur Hbs Htfl Hb Hfresh Hrefs Hm.
  pose proof (heap_repr_sub _ _ (rp_heap _ _ _ H)) as Hsub.
  pose proof (not_added r _ l ls n (rp_files _ _ _ H) Hls E) as Hna.
  pose proof (fr_length _ _ (rp_files _ _ _ H)) as Hlen. destruct H. constructor; cbn; try done.
  - apply (files_repr_add r _ (lsm_files s) l ls n f p); cbn; try done. by rewrite Htfl.
  - by apply (blobs_repr_ext r2).
  - apply links_repr_add; [done..|lia].
  - destruct rp_cursors0. by constructor; cbn; rewrite Hcur.
  - apply (sizes_repr_inside r _ (lsm_files s)); cbn; try done. intros k Hk.
    rewrite files_on_insert by done. rewrite (proj2 (Z.eqb_neq l k)) by lia. lia.
  - apply (heap_repr_add r _ w w' l n ls p); cbn; try done. intros a x Ha. rewrite (Hsub a x Ha). by eexists.
Qed.

Lemma ApplyFileAddition_refines r w s x : repr r w s -> 0 <= x.1 ->
  refines (ApplyFileAddition object_usage (r, w) x) (lsm_add num s x).
Proof.
  destruct x as [level f]. cbn [fst]. intros H H0. unfold ApplyFileAddition, lsm_add.
  set (n := GetNumber (fd f)). pose proof (rp_files _ _ _ H) as Hf.
  rewrite (fr_level _ _ Hf). unfold level_of, Rep_num_levels_. rewrite (fr_base _ _ Hf).
  destruct (lsm_files s !! n) as [[l g]|] eqn:E.
  { destruct (fr_wf _ _ Hf n l g E) as [Hl0 _]. change (loc_level_ FileLocation_Invalid) with (-1).
    rewrite (proj2 (Z.eqb_neq l (-1))) by lia. apply refines_corruption. }
  cbn [negb Z.eqb loc_level_ FileLocation_Invalid Pos.eqb].
  destruct (Z.leb_spec num level) as [Hout|Hin]; [by apply refines_ok, repr_add_outside|].
  destruct (level_state_Some r level (fr_length _ _ Hf)) as [ls Hls]; [lia|]. rewrite Hls. cbn [mbind option_bind].
  unfold new_file. set (a := new_address w). set (p := {| fp_addr := a; fp_meta := f |}).
  destruct (update_reservation _ _ f true) as [st w'] eqn:Er. destruct (negb (ok st)) eqn:Eok.
  { right. right. split; [by eexists|]. destruct managed eqn:Em; [done|]. unfold update_reservation in Er.
    cbn in Er. rewrite (rp_managed _ _ _ H Em) in Er. by injection Er as <- <-. }
  set (r1 := set_level_state (set_level_state r level _) level _).
  destruct (update_blob_links_spec r1 (lsm_blobs s) (oldest_blob_file_number f) (Mutable_LinkSst n)
              (fun y => {[n]} ∪ y)) as (ms & Hms & Hb').
  - apply (blobs_repr_ext r); [done..|apply (rp_blobs _ _ _ H)].
  - done.
  - intros b m Hb Hm Hd. apply delta_ok_link; [done|]. intros Hin'.
    apply (proj1 (rp_links _ _ _ H _ _ Hm (mk_is_Some _ _ Hb) n)) in Hin' as (l' & f' & Hx & _). congruence.
  - rewrite Hms in Hb' |- *. apply refines_ok.
    apply (repr_add_inside r w w' s level f ls p (r1 <| mutable_blob_file_metas_ := ms |>)); try done.
    + unfold r1. cbn. by rewrite list_insert_insert_eq.
    + apply new_address_fresh.
    + unfold update_reservation in Er. cbn in Er. destruct (file_metadata_cache_res_mgr_ w).
      * destruct (UpdateCacheReservation _ _ _). by injection Er as <- <-.
      * by injection Er as <- <-.
    + intros Hm. unfold update_reservation in Er. cbn in Er. rewrite (rp_managed _ _ _ H Hm) in Er.
      by injection Er as <- <-.
Qed.

(** *** Cursors and whole edits *)

Lemma ApplyCompactCursors_refines r w s x : repr r w s ->
  refines (on_rep ApplyCompactCursors (r, w) x) (lsm_cursor num s x).
Proof.
  destruct x as [level key]. intros H. unfold on_rep, ApplyCompactCursors, lsm_cursor, Rep_num_levels_.
  cbn [fst snd]. rewrite (fr_base _ _ (rp_files _ _ _ H)).
  destruct (Z.ltb_spec level 0); [apply refines_corruption|].
  destruct (Z.ltb_spec level num); [|by apply refines_ok]. apply refines_ok.
  destruct H. constructor; cbn; try done.
  - by apply (files_repr_ext r).
  - by apply (blobs_repr_ext r).
  - destruct rp_cursors0 as [Hu Hr]. constructor; cbn.
    + rewrite Hu. by rewrite insert_union_l.
    + intros l k. rewrite lookup_insert_Some. intros [[<- _]|[_ Hk]]; [lia|eauto].
  - by apply (sizes_repr_inside r _ (lsm_files s)).
  - by apply (heap_repr_ext r _ w).
Qed.

Lemma for_each_refines {A : Type} (f : Rep * World M -> A -> option (Status * (Rep * World M)))
    (g : Lsm -> A -> option Lsm) (P : A -> Prop) r w s l :
  (forall r w s x, P x -> repr r w s -> refines (f (r, w) x) (g s x)) ->
  Forall P l -> repr r w s -> refines (for_each f (r, w) l) (lsm_all g s l).
Proof.
  intros Hf Hl. revert r w s. induction Hl as [|x l Hx Hl IH]; intros r w s H; cbn [for_each lsm_all].
  { by apply refines_ok. }
  specialize (Hf r w s x Hx H). unfold refines in Hf.
  destruct (f (r, w) x) as [[st [r' w']]|]; [|done]. cbn [mbind option_bind].
  destruct Hf as [(-> & s' & -> & H')|[[(msg & ->) ->]|[(msg & ->) Hm]]]; cbn [ok mbind option_bind].
  - by apply IH.
  - apply refines_corruption.
  - right. right. split; [by eexists|done].
Qed.

(** What the code takes for granted of an edit: levels that are not negative
    and valid blob file numbers. *)
Record edit_ranges (e : VersionEdit) : Prop := {
  er_blobs : Forall (fun a => 0 < blob_file_number_ a) (blob_file_additions_ e);
  er_deleted : Forall (fun x => 0 <= x.1) (deleted_files_ e);
  er_new : Forall (fun x => 0 <= x.1) (new_files_ e)
}.

Lemma refines_then out k s' k' : refines out s' ->
  (forall r w s, repr r w s -> refines (k (r, w)) (k' s)) ->
  refines (match out with
           | Some (st, x) => if ok st then k x else Some (st, x)
           | None => None
           end) (s ← s'; k' s).
Proof.
  intros H Hk. unfold refines in H. destruct out as [[st [r w]]|]; [|done].
  destruct H as [(-> & s & -> & H)|[[(msg & ->) ->]|[(msg & ->) Hm]]]; cbn [ok mbind option_bind].
  - by apply Hk.
  - apply refines_corruption.
  - right. right. split; [by eexists|done].
Qed.

Lemma Apply_refines c r w s e : CheckConsistency c base = OK -> edit_ranges e -> repr r w s ->
  refines (Apply c object_usage (r, w) e) (lsm_apply num s e).
Proof.
  intros Hc [He1 He2 He3] H. unfold Apply, lsm_apply. cbn [fst].
  rewrite (fr_base _ _ (rp_files _ _ _ H)), Hc. cbn [ok negb].
  apply refines_then.
  { eapply for_each_refines; [|exact He1|exact H]. intros. by apply ApplyBlobFileAddition_refines. }
  clear r w s H. intros r w s H. apply refines_then.
  { apply (for_each_refines _ _ (fun _ => True)); [|by apply list.Forall_true|exact H].
    intros. by apply ApplyBlobFileGarbage_refines. }
  clear r w s H. intros r w s H. apply refines_then.
  { eapply for_each_refines; [|exact He2|exact H]. intros. by apply ApplyFileDeletion_refines. }
  clear r w s H. intros r w s H. apply refines_then.
  { eapply for_each_refines; [|exact He3|exact H]. intros. by apply ApplyFileAddition_refines. }
  clear r w s H. intros r w s H.
  apply (for_each_refines _ _ (fun _ => True)); [|by apply list.Forall_true|exact H].
  intros. by apply ApplyCompactCursors_refines.
Qed.

Lemma Apply_all_refines c r w s es : CheckConsistency c base = OK -> Forall edit_ranges es ->
  repr r w s -> refines (for_each (Apply c object_usage) (r, w) es) (lsm_all (lsm_apply num) s es).
Proof.
  intros Hc Hes H. eapply for_each_refines; [|exact Hes|exact H]. intros. by apply Apply_refines.
Qed.

(** [CheckConsistencyForNumLevels] says whether all files are on levels that
    exist. *)
Lemma CheckConsistencyForNumLevels_spec r w s : repr r w s ->
  CheckConsistencyForNumLevels r = true <-> (forall n l f, lsm_files s !! n = Some (l, f) -> l < num).
Proof.
  intros H. pose proof (rp_sizes _ _ _ H) as [Hflag Hsz Hvalid].
  unfold CheckConsistencyForNumLevels. rewrite Hflag. cbn [negb andb]. rewrite forallb_forall. split.
  - intros Hall n l f E. destruct (Z.lt_ge_cases l num) as [|Hl]; [done|].
    specialize (Hsz l Hl). assert (Hpos : size (files_on l (lsm_files s)) <> 0%nat).
    { apply map_size_ne_0_lookup. exists n. exists (l, f). apply map_lookup_filter_Some. done. }
    destruct (invalid_level_sizes_ r !! l) as [k|] eqn:Ek; cbn in Hsz; [|lia].
    specialize (Hall (l, k)). cbn in Hall. rewrite Z.eqb_eq in Hall. rewrite Hall in Hsz; [lia|].
    apply list_elem_of_In, elem_of_map_to_list. done.
  - intros Hall [l k] Hin%list_elem_of_In. apply elem_of_map_to_list in Hin. cbn. apply Z.eqb_eq.
    destruct (Z.lt_ge_cases l num) as [Hl|Hl]; [by rewrite (Hvalid l Hl) in Hin|].
    specialize (Hsz l Hl). rewrite Hin in Hsz. cbn in Hsz. rewrite Hsz, files_on_none; [done|].
    intros n l' f E ->. specialize (Hall n l f E). lia.
Qed.

End Apply.
