(* ===== verification/VersionOrder.v ===== *)
(** * The orders of table files

    What [VersionBuilder] needs of the three orders it sorts files by
    ([FileOrder]), that they have it, and what follows for sorting and for the
    merge of added and base files. *)

From stdpp Require Import gmap sorting.
From S2P Require Import Prelude StdMap DbFormat Comparator VersionEdit VersionStorage VersionBuilder VersionSpec.

(** ** Strict orders of files *)

(** On files with well-formed keys: a strict weak order in which files with
    different numbers are not equivalent. *)
Class FileOrder (cmp : FilePtr -> FilePtr -> bool) : Prop := {
  fo_asym a b : keys_ok (fp_meta a) -> keys_ok (fp_meta b) -> cmp a b = true -> cmp b a = false;
  fo_negtrans a b d : keys_ok (fp_meta a) -> keys_ok (fp_meta b) -> keys_ok (fp_meta d) ->
    cmp a b = false -> cmp b d = false -> cmp a d = false;
  fo_total a b : keys_ok (fp_meta a) -> keys_ok (fp_meta b) -> FileNumber a <> FileNumber b ->
    cmp a b = true \/ cmp b a = true
}.

#[export] Instance NewestFirstBySeqNo_order : FileOrder NewestFirstBySeqNo.
Proof.
  constructor; intros; unfold NewestFirstBySeqNo in *; cbv zeta in *;
    repeat (zcase || match goal with
                     | H : context [Z.eqb ?x ?y] |- _ => destruct (Z.eqb_spec x y)
                     | H : context [Z.ltb ?x ?y] |- _ => destruct (Z.ltb_spec x y)
                     end; cbn [negb] in *); try done; lia || auto.
Qed.

#[export] Instance NewestFirstByEpochNumber_order : FileOrder NewestFirstByEpochNumber.
Proof.
  constructor; unfold NewestFirstByEpochNumber.
  - intros a b Ha Hb.
    destruct (Z.eqb_spec (epoch_number (fp_meta a)) (epoch_number (fp_meta b))) as [E|E]; cbn [negb].
    + rewrite E, Z.eqb_refl. by apply fo_asym.
    + rewrite (proj2 (Z.eqb_neq (epoch_number (fp_meta b)) (epoch_number (fp_meta a)))) by lia. cbn [negb].
      rewrite Z.ltb_lt, Z.ltb_ge. lia.
  - intros a b d Ha Hb Hd.
    destruct (Z.eqb_spec (epoch_number (fp_meta a)) (epoch_number (fp_meta b))) as [E1|E1],
      (Z.eqb_spec (epoch_number (fp_meta b)) (epoch_number (fp_meta d))) as [E2|E2]; cbn [negb];
      rewrite ?Z.ltb_ge; intros H1 H2;
      destruct (Z.eqb_spec (epoch_number (fp_meta a)) (epoch_number (fp_meta d))) as [E3|E3]; cbn [negb];
      rewrite ?Z.ltb_ge; try lia.
    by apply (fo_negtrans a b d).
  - intros a b Ha Hb Hn.
    destruct (Z.eqb_spec (epoch_number (fp_meta a)) (epoch_number (fp_meta b))) as [E|E]; cbn [negb].
    + rewrite E, Z.eqb_refl. by apply fo_total.
    + rewrite (proj2 (Z.eqb_neq (epoch_number (fp_meta b)) (epoch_number (fp_meta a)))) by lia. cbn [negb].
      rewrite !Z.ltb_lt. lia.
Qed.

Section IK.

Context (c : Comparator) `{!ComparatorOk c}.

(** The internal comparator on well-formed keys. *)
Lemma IK_flip a b : 8 <= slen a -> 8 <= slen b -> IKCompare c a b < 0 <-> 0 < IKCompare c b a.
Proof.
  intros Ha Hb. destruct (internal_key_shape a Ha) as (u & w & Hw & ->).
  destruct (internal_key_shape b Hb) as (v & x & Hx & ->). rewrite !IKCompare_app by done.
  by apply ik_order_flip.
Qed.

Lemma IK_trans a b d : 8 <= slen a -> 8 <= slen b -> 8 <= slen d ->
  IKCompare c a b <= 0 -> IKCompare c b d <= 0 -> IKCompare c a d <= 0.
Proof.
  intros Ha Hb Hd. destruct (internal_key_shape a Ha) as (u & w & Hw & ->).
  destruct (internal_key_shape b Hb) as (v & x & Hx & ->).
  destruct (internal_key_shape d Hd) as (y & z & Hz & ->). rewrite !IKCompare_app by done.
  by apply ik_order_trans.
Qed.

(** Strict steps in chains. *)
Lemma IK_lt_trans a b d : 8 <= slen a -> 8 <= slen b -> 8 <= slen d ->
  IKCompare c a b <= 0 -> IKCompare c b d <= 0 -> IKCompare c a b < 0 \/ IKCompare c b d < 0 ->
  IKCompare c a d < 0.
Proof.
  intros Ha Hb Hd H1 H2 H3. pose proof (IK_trans a b d Ha Hb Hd H1 H2).
  pose proof (IK_flip a d Ha Hd). pose proof (IK_flip d a Hd Ha).
  destruct (Z.lt_ge_cases (IKCompare c a d) 0) as [|Hge]; [done|].
  assert (Hda : IKCompare c d a <= 0) by lia. destruct H3 as [H3|H3].
  - pose proof (IK_trans b d a Hb Hd Ha H2 Hda). pose proof (IK_flip a b Ha Hb). lia.
  - pose proof (IK_trans d a b Hd Ha Hb Hda H1). pose proof (IK_flip b d Hb Hd). lia.
Qed.

#[export] Instance BySmallestKey_order : FileOrder (BySmallestKey c).
Proof.
  constructor; unfold BySmallestKey.
  - intros a b [Ha _] [Hb _]. pose proof (IK_flip _ _ Ha Hb). pose proof (IK_flip _ _ Hb Ha).
    repeat (zcase; cbn [negb]); done.
  - intros a b d [Ha _] [Hb _] [Hd _]. cbv zeta.
    pose proof (IK_flip _ _ Ha Hb). pose proof (IK_flip _ _ Hb Ha).
    pose proof (IK_flip _ _ Hb Hd). pose proof (IK_flip _ _ Hd Hb).
    pose proof (IK_flip _ _ Ha Hd). pose proof (IK_flip _ _ Hd Ha).
    pose proof (IK_trans _ _ _ Hd Hb Ha). pose proof (IK_lt_trans _ _ _ Hd Hb Ha).
    pose proof (IK_trans _ _ _ Ha Hb Hd).
    repeat (zcase; cbn [negb]); try done; intros; lia.
  - intros a b [Ha _] [Hb _] Hn. pose proof (IK_flip _ _ Ha Hb). pose proof (IK_flip _ _ Hb Ha).
    cbv zeta. repeat (zcase; cbn [negb]); auto; lia.
Qed.

End IK.

(** ** Sorting and merging *)

Section Order.

Context (cmp : FilePtr -> FilePtr -> bool) `{!FileOrder cmp}.

Abbreviation ok_files := (Forall (fun f : FilePtr => keys_ok (fp_meta f))).
Abbreviation before := (fun a b => cmp a b = true).
Abbreviation not_after := (fun a b => cmp b a = false).

Lemma fo_trans a b d : keys_ok (fp_meta a) -> keys_ok (fp_meta b) -> keys_ok (fp_meta d) ->
  cmp a b = true -> cmp b d = true -> cmp a d = true.
Proof.
  intros Ha Hb Hd H1 H2. destruct (cmp a d) eqn:E; [done|].
  rewrite (fo_negtrans a d b) in H1; [done..|]. by apply fo_asym.
Qed.

(** Files with different numbers are sorted strictly. *)
Lemma sort_files_sorted l : ok_files l -> NoDup (FileNumber <$> l) ->
  StronglySorted before (std_sort cmp l).
Proof.
  intros Hl Hn. apply (std_sort_sorted cmp (fun f => keys_ok (fp_meta f))).
  - apply fo_trans.
  - done.
  - intros a b Ha Hb Hne. rewrite list.Forall_forall in Hl. apply fo_total; auto. intros E. apply Hne.
    apply list_elem_of_lookup in Ha as [i Ha], Hb as [j Hb].
    assert (i = j) as ->; [|congruence].
    apply (NoDup_lookup _ i j (FileNumber b) Hn); rewrite list_lookup_fmap; [rewrite Ha|rewrite Hb];
      simpl; congruence.
  - by eapply NoDup_fmap_1.
Qed.

Lemma before_not_after l : ok_files l -> StronglySorted before l -> StronglySorted not_after l.
Proof.
  intros Hl Hs. induction Hs as [|x l Hs IH Hx]; constructor; inversion_clear Hl as [|?? Hkx Hkl]; auto.
  rewrite list.Forall_forall in Hx, Hkl |- *. intros y Hy. apply fo_asym; auto.
Qed.

(** Without two files of one number the weak order is the strict one. *)
Lemma not_after_before l : ok_files l -> NoDup (FileNumber <$> l) ->
  StronglySorted not_after l -> StronglySorted before l.
Proof.
  intros Hl Hn Hs. induction Hs as [|x l Hs IH Hx]; constructor; inversion_clear Hl as [|?? Hkx Hkl];
    inversion_clear Hn as [|?? Hxl Hn']; auto.
  rewrite list.Forall_forall in Hx, Hkl |- *. intros y Hy.
  destruct (fo_total x y) as [?|E]; auto.
  - intros E. apply Hxl. rewrite E. by apply list_elem_of_fmap_2.
  - specialize (Hx y Hy). cbn in Hx. congruence.
Qed.

Lemma merge_files_Permutation added base : merge_files cmp added base ≡ₚ added ++ base.
Proof.
  revert base. induction added as [|a added IH]; intros base; [done|].
  induction base as [|b base IHb]; simpl; [by rewrite app_nil_r|]. destruct (cmp a b).
  - by rewrite IH.
  - rewrite IHb. simpl. rewrite <- Permutation_middle. constructor.
Qed.

Lemma merge_files_sorted added base : ok_files added -> ok_files base ->
  StronglySorted not_after added -> StronglySorted not_after base ->
  StronglySorted not_after (merge_files cmp added base).
Proof.
  intros Ha Hb Hsa. revert base Hb. induction Hsa as [|a added Hsa IH Haa]; intros base Hb Hsb; [done|].
  inversion_clear Ha as [|?? Hka Ha'].
  induction Hsb as [|b base Hsb IHb Hbb]; [simpl; by constructor|].
  inversion_clear Hb as [|?? Hkb Hb']. cbn [merge_files]. destruct (cmp a b) eqn:E.
  - constructor; [apply IH; [done|by constructor|by constructor]|].
    rewrite merge_files_Permutation. apply list.Forall_app. split; [done|].
    assert (Hba : cmp b a = false) by (by apply fo_asym).
    constructor; [done|]. rewrite list.Forall_forall in Hbb, Hb' |- *. intros x Hx.
    apply (fo_negtrans x b a); auto.
  - constructor; [by apply IHb|].
    change (Forall (fun x => cmp x b = false) (merge_files cmp (a :: added) base)).
    rewrite merge_files_Permutation. apply list.Forall_app. split; [|done].
    constructor; [done|]. rewrite list.Forall_forall in Haa, Ha' |- *. intros x Hx.
    apply (fo_negtrans x a b); auto.
Qed.

Lemma StronglySorted_filter {A : Type} (R : A -> A -> Prop) (P : A -> Prop) `{!forall x, Decision (P x)} l :
  StronglySorted R l -> StronglySorted R (filter P l).
Proof.
  induction 1 as [|x l Hs IH Hx]; [constructor|]. rewrite list.filter_cons. case_decide; [|done].
  constructor; [done|]. rewrite list.Forall_forall in Hx |- *. intros y Hy.
  apply list_elem_of_filter in Hy as [_ Hy]. auto.
Qed.

End Order.
