(* ===== verification/VersionSave.v ===== *)
(** * Saving a builder

    [SaveTo] writes the state that the builder stands for into a new version:
    every level holds exactly the files of the abstract state, sorted; the blob
    files are those still in use; the cursors are taken over; every file of the
    new version gained one reference. *)

From stdpp Require Import gmap sorting.
From S2P Require Import Prelude Records StdMap DbFormat Comparator BlobEdit VersionEdit VersionStorage VersionBuilder VersionSpec VersionApply VersionOrder.

Section Save.

Context (c : Comparator) `{!ComparatorOk c}.
Context {M : Type} `{!CacheReservationManager M}.
Context (base : VersionStorageInfo) (refs0 : FileRefs) (managed : bool).

Abbreviation num := (num_levels_ base).
Abbreviation repr := (repr base refs0 managed (M := M)).

Implicit Types (r : Rep) (w : World M) (v : VersionStorageInfo) (refs : FileRefs).

(** ** One level *)

(** Whether [MaybeAddFile] adds the file. *)
Definition keeps (ls : LevelState) (f : FilePtr) : Prop :=
  (FileNumber f ∉ deleted_files ls) /\
  match added_files ls !! FileNumber f with
  | Some g => fp_addr g = fp_addr f
  | None => True
  end.

#[local] Instance keeps_dec ls f : Decision (keeps ls f).
Proof. unfold keeps. destruct (added_files ls !! FileNumber f); apply _. Defined.

(** The files of a level in the new version. *)
Definition kept (ls : LevelState) (base_files : list FilePtr) (cmp : FilePtr -> FilePtr -> bool)
    : list FilePtr :=
  filter (keeps ls) (merge_files cmp (std_sort cmp (map_to_list (added_files ls)).*2) base_files).

(** One more reference for each of the files. *)
Definition ref_all refs (fs : list FilePtr) : FileRefs :=
  fold_left (fun m f => <[fp_addr f := s32 (default 0 (m !! fp_addr f) + 1)]> m) fs refs.

(** What saving files leaves alone. *)
Record same_rest v v' : Prop := {
  sm_num : num_levels_ v' = num_levels_ v;
  sm_locations : file_locations_ v' = file_locations_ v;
  sm_blobs : blob_files_ v' = blob_files_ v;
  sm_cursors : compact_cursor_ v' = compact_cursor_ v;
  sm_force : force_consistency_checks_ v' = force_consistency_checks_ v;
  sm_requirement : epoch_number_requirement_ v' = epoch_number_requirement_ v
}.

#[local] Instance same_rest_refl : Reflexive same_rest.
Proof. intros v. by constructor. Qed.

#[local] Instance same_rest_trans : Transitive same_rest.
Proof. intros v1 v2 v3 [] []. constructor; congruence. Qed.

Lemma RemoveCurrentStats_rest v f :
  files_ (RemoveCurrentStats v f) = files_ v /\ same_rest v (RemoveCurrentStats v f).
Proof. unfold RemoveCurrentStats. by destruct (init_stats_from_file f). Qed.

Lemma ref_all_dom refs fs a : is_Some (refs !! a) -> is_Some (ref_all refs fs !! a).
Proof.
  revert refs. induction fs as [|f fs IH]; intros refs H; [done|]. apply IH.
  destruct (decide (fp_addr f = a)) as [->|]; [rewrite lookup_insert_eq; by eexists|by rewrite lookup_insert_ne].
Qed.

Lemma MaybeAddFiles_spec r l ls v refs old fs :
  level_state r l = Some ls -> LevelFiles v l = Some old ->
  Forall (fun f => is_Some (refs !! fp_addr f)) fs ->
  exists v', MaybeAddFiles r l (v, refs) fs = Some (v', ref_all refs (filter (keeps ls) fs)) /\
    files_ v' = <[Z.to_nat l := old ++ filter (keeps ls) fs]> (files_ v) /\ same_rest v v'.
Proof.
  intros Hls. revert v refs old. induction fs as [|f fs IH]; intros v refs old Hold Hr; cbn [MaybeAddFiles].
  { exists v. split; [done|]. split; [|done]. apply LevelFiles_Some in Hold as [_ Hold].
    rewrite app_nil_r. symmetry. by apply list_insert_id. }
  inversion_clear Hr as [|?? [x Hx] Hr'].
  assert (Hskip : ~ keeps ls f -> MaybeAddFile r l (v, refs) f = Some (RemoveCurrentStats v (fp_meta f), refs)).
  { intros Hk. unfold MaybeAddFile, keeps in *. rewrite Hls. cbn [mbind option_bind fst snd].
    case_bool_decide; [done|]. destruct (added_files ls !! FileNumber f) as [g|]; [|tauto].
    destruct (Z.eqb_spec (fp_addr g) (fp_addr f)); [tauto|done]. }
  assert (Hadd : keeps ls f -> MaybeAddFile r l (v, refs) f = VSI_AddFile v refs l f).
  { intros [Hd Ha]. unfold MaybeAddFile. rewrite Hls. cbn [mbind option_bind fst snd].
    rewrite bool_decide_false by done. destruct (added_files ls !! FileNumber f) as [g|]; [|done].
    by rewrite Ha, Z.eqb_refl. }
  rewrite list.filter_cons. destruct (decide (keeps ls f)) as [Hk|Hk].
  - rewrite Hadd by done. unfold VSI_AddFile, file_ref. rewrite Hold. cbn [mbind option_bind]. rewrite Hx.
    cbn [mbind option_bind].
    destruct (IH (v <| files_ ::= <[Z.to_nat l := old ++ [f]]> |>) (<[fp_addr f := s32 (x + 1)]> refs)
                (old ++ [f])) as (v' & Hv' & Hf & Hs).
    + apply LevelFiles_Some in Hold as [H0 Hold]. apply LevelFiles_Some. split; [done|]. cbn.
      apply list_lookup_insert_eq. by eapply lookup_lt_Some.
    + apply (list.Forall_impl _ _ _ Hr'). intros g Hg.
      destruct (decide (fp_addr f = fp_addr g)) as [E|]; [rewrite E, lookup_insert_eq; by eexists|].
      by rewrite lookup_insert_ne.
    + exists v'. rewrite Hv'. cbn [ref_all fold_left]. rewrite Hx. split; [done|]. split.
      * rewrite Hf. cbn. rewrite list_insert_insert_eq, <- app_assoc. done.
      * etrans; [|exact Hs]. by constructor.
  - rewrite Hskip by done. cbn [mbind option_bind].
    destruct (RemoveCurrentStats_rest v (fp_meta f)) as [Ef Hs0].
    destruct (IH (RemoveCurrentStats v (fp_meta f)) refs old) as (v' & Hv' & Hf & Hs); [|done|].
    + unfold LevelFiles. by rewrite Ef.
    + exists v'. rewrite Hv', Hf, Ef. split; [done|]. split; [done|]. by etrans.
Qed.

(** ** The files of a level are those of the state *)

Context (Hbase : version_ok base) (Hidx : indexed base) (Hlinks : links_exact base).
Context (Hlive : forall l f, on_level base l f -> is_Some (refs0 !! fp_addr f)).

(** Added files are new objects. *)
Lemma added_not_base r w s l n p l' f : repr r w s -> added_at r l n p -> on_level base l' f ->
  fp_addr p <> fp_addr f.
Proof.
  intros H Hp Hf E. destruct (hr_added _ _ _ (rp_heap _ _ _ _ _ _ H) l n p Hp) as [Hn _].
  destruct (Hlive l' f Hf) as [x Hx]. congruence.
Qed.

Lemma added_number r w s l n p : repr r w s -> added_at r l n p -> FileNumber p = n.
Proof.
  intros H (ls & Hls & Hp). by destruct (fr_added _ _ _ (rp_files _ _ _ _ _ _ H) l ls n p Hls Hp).
Qed.

Lemma added_elem ls p : p ∈ (map_to_list (added_files ls)).*2 <-> exists n, added_files ls !! n = Some p.
Proof.
  rewrite list_elem_of_fmap. split.
  - intros ([n q] & -> & Hq%elem_of_map_to_list). by exists n.
  - intros [n Hn]. exists (n, p). split; [done|]. by apply elem_of_map_to_list.
Qed.

Section Level.

Context (r : Rep) (w : World M) (s : Lsm) (l : Z) (ls : LevelState) (bfs : list FilePtr).
Context (H : repr r w s) (Hls : level_state r l = Some ls) (Hbfs : LevelFiles base l = Some bfs).
Context (cmp : FilePtr -> FilePtr -> bool) `{!FileOrder cmp}.

Lemma kept_elem p : p ∈ kept ls bfs cmp <->
  overlay ls (base_file base l (FileNumber p)) (FileNumber p) = Some p.
Proof.
  unfold kept, overlay. rewrite list_elem_of_filter, merge_files_Permutation, elem_of_app,
    std_sort_Permutation, added_elem. unfold keeps. split.
  - intros [[Hd Ha] [[n Hn]|Hp]].
    + assert (FileNumber p = n) as -> by (eapply added_number; [done|by exists ls]). by rewrite Hn.
    + assert (Hon : on_level base l p) by (by exists bfs).
      destruct (added_files ls !! FileNumber p) as [g|] eqn:Eg.
      * destruct (added_not_base r w s l (FileNumber p) g l p); [done|by exists ls|done|done].
      * rewrite decide_False by done. by apply base_file_Some.
  - destruct (added_files ls !! FileNumber p) as [g|] eqn:Eg.
    + intros [= ->].
      destruct (fr_added _ _ _ (rp_files _ _ _ _ _ _ H) l ls (FileNumber p) p Hls Eg) as [_ Hd].
      split; [done|]. left. by eexists.
    + case_decide as Hd; [done|]. intros Hb. apply base_file_Some in Hb as [(fs & Hfs & Hp) _]; [|done].
      split; [done|]. right. congruence.
Qed.

Lemma kept_meta p : p ∈ kept ls bfs cmp -> lsm_files s !! FileNumber p = Some (l, fp_meta p).
Proof.
  intros Hp%kept_elem. pose proof (fr_at _ _ _ (rp_files _ _ _ _ _ _ H) l ls (FileNumber p) Hls) as Hat.
  rewrite Hp in Hat. symmetry in Hat. apply bind_Some in Hat as ([l' f] & E & Hf).
  destruct (Z.eqb_spec l' l) as [->|]; [|done]. injection Hf as ->. done.
Qed.

Lemma kept_complete n f : lsm_files s !! n = Some (l, f) ->
  exists p, p ∈ kept ls bfs cmp /\ FileNumber p = n /\ fp_meta p = f.
Proof.
  intros E. destruct (files_repr_overlay base r (lsm_files s) l ls n f (rp_files _ _ _ _ _ _ H) Hls E)
    as (p & Hp & Hm).
  assert (Hn : FileNumber p = n).
  { unfold FileNumber. rewrite Hm. by destruct (fr_wf _ _ _ (rp_files _ _ _ _ _ _ H) n l f E). }
  exists p. split; [|done]. apply kept_elem. by rewrite Hn.
Qed.

Lemma kept_number_inj p q : p ∈ kept ls bfs cmp -> q ∈ kept ls bfs cmp -> FileNumber p = FileNumber q -> p = q.
Proof. intros Hp%kept_elem Hq%kept_elem E. rewrite E in Hp. congruence. Qed.

Lemma visited_NoDup : NoDup ((std_sort cmp (map_to_list (added_files ls)).*2) ++ bfs).
Proof.
  assert (Hfs : NoDup (FileNumber <$> bfs)).
  { pose proof (vo_numbers base Hbase) as Hn. apply LevelFiles_Some in Hbfs as [_ Hb].
    rewrite <- (take_drop_middle _ _ _ Hb), join_app, fmap_app in Hn.
    apply list.NoDup_app in Hn as (_ & _ & Hn). simpl in Hn. rewrite fmap_app in Hn.
    by apply list.NoDup_app in Hn as (Hn & _ & _). }
  apply list.NoDup_app. split; [|split].
  - rewrite std_sort_Permutation. apply NoDup_fmap_2_strong; [|apply NoDup_map_to_list].
    intros [n p] [n' p'] Hp%elem_of_map_to_list Hp'%elem_of_map_to_list E. cbn in E. subst p'.
    f_equal. rewrite <- (added_number r w s l n p), <- (added_number r w s l n' p); [done|done|by exists ls|done|by exists ls].
  - intros p Hp Hb. rewrite std_sort_Permutation, added_elem in Hp. destruct Hp as [n Hn].
    destruct (added_not_base r w s l n p l p); [done|by exists ls|by exists bfs|done].
  - by eapply NoDup_fmap_1.
Qed.

Lemma kept_numbers : NoDup (FileNumber <$> kept ls bfs cmp).
Proof.
  apply NoDup_fmap_2_strong; [apply kept_number_inj|]. unfold kept.
  apply list.NoDup_filter. rewrite merge_files_Permutation. apply visited_NoDup.
Qed.

Context (Hkeys : forall n l f, lsm_files s !! n = Some (l, f) -> keys_ok f).

Lemma kept_keys : Forall (fun f => keys_ok (fp_meta f)) (kept ls bfs cmp).
Proof. apply list.Forall_forall. intros p Hp%kept_meta. eauto. Qed.

Lemma added_keys : Forall (fun f => keys_ok (fp_meta f)) (map_to_list (added_files ls)).*2.
Proof.
  apply list.Forall_forall. intros p [n Hn]%added_elem.
  assert (E : FileNumber p = n) by (eapply added_number; [done|by exists ls]).
  pose proof (fr_at _ _ _ (rp_files _ _ _ _ _ _ H) l ls n Hls) as Hat. unfold overlay in Hat.
  rewrite Hn in Hat. cbn in Hat. symmetry in Hat. apply bind_Some in Hat as ([l' f] & Ef & Hf).
  destruct (l' =? l); [|done]. injection Hf as ->. eauto.
Qed.

(** The level is sorted if the base level was. *)
Lemma kept_sorted : StronglySorted (fun a b => cmp a b = true) bfs ->
  StronglySorted (fun a b => cmp a b = true) (kept ls bfs cmp).
Proof.
  intros Hs. assert (Hbk : Forall (fun f => keys_ok (fp_meta f)) bfs).
  { apply list.Forall_forall. intros p Hp. pose proof (vo_keys base Hbase) as Hk.
    rewrite list.Forall_forall in Hk. apply Hk, (on_level_concat base l). by exists bfs. }
  apply not_after_before; [done|apply kept_keys|apply kept_numbers|].
  unfold kept. apply StronglySorted_filter, merge_files_sorted; [done| |done| |by apply before_not_after].
  - rewrite std_sort_Permutation. apply added_keys.
  - apply before_not_after; [done|rewrite std_sort_Permutation; apply added_keys|].
    apply sort_files_sorted; [done|apply added_keys|].
    apply NoDup_fmap_2_strong.
    + intros p q [n Hp]%added_elem [n' Hq]%added_elem E.
      assert (FileNumber p = n) by (eapply added_number; [done|by exists ls]).
      assert (FileNumber q = n') by (eapply added_number; [done|by exists ls]). congruence.
    + pose proof visited_NoDup as Hn. apply list.NoDup_app in Hn as (Hn & _ & _).
      by rewrite std_sort_Permutation in Hn.
Qed.

(** All visited files have a count. *)
Lemma visited_counts refs : (forall a, is_Some (w_refs w !! a) -> is_Some (refs !! a)) ->
  Forall (fun f => is_Some (refs !! fp_addr f))
    (merge_files cmp (std_sort cmp (map_to_list (added_files ls)).*2) bfs).
Proof.
  intros Hr. rewrite merge_files_Permutation, std_sort_Permutation. apply list.Forall_app.
  split; apply list.Forall_forall; intros p Hp; apply Hr.
  - apply added_elem in Hp as [n Hn].
    destruct (hr_added _ _ _ (rp_heap _ _ _ _ _ _ H) l n p) as [_ ->]; [by exists ls|by eexists].
  - destruct (Hlive l p) as [x Hx]; [by exists bfs|].
    rewrite (heap_repr_sub _ _ _ (rp_heap _ _ _ _ _ _ H) _ x Hx). by eexists.
Qed.

End Level.

(** ** All levels *)

Section Levels.

Context (r : Rep) (w : World M) (s : Lsm) (H : repr r w s).

(** The files of level [l] of the new version. *)
Definition new_level (cmp : FilePtr -> FilePtr -> bool) (l : Z) : list FilePtr :=
  match level_state r l, LevelFiles base l with
  | Some ls, Some bfs => kept ls bfs cmp
  | _, _ => []
  end.

Lemma level_parts l : 0 <= l < num ->
  exists ls bfs, level_state r l = Some ls /\ LevelFiles base l = Some bfs.
Proof.
  intros Hl. destruct (level_state_Some base r l (fr_length _ _ _ (rp_files _ _ _ _ _ _ H)) Hl) as [ls Hls].
  destruct (lookup_lt_is_Some_2 (files_ base) (Z.to_nat l)) as [bfs Hb].
  { rewrite (vo_files base Hbase). lia. }
  exists ls, bfs. split; [done|]. apply LevelFiles_Some. split; [lia|done].
Qed.

Lemma new_level_eq cmp l ls bfs : level_state r l = Some ls -> LevelFiles base l = Some bfs ->
  new_level cmp l = kept ls bfs cmp.
Proof. intros Hls Hb. unfold new_level. by rewrite Hls, Hb. Qed.

Lemma SaveSSTFilesTo_level_spec v refs l cmp : FileOrder cmp -> 0 <= l < num ->
  LevelFiles v l = Some [] -> (forall a, is_Some (w_refs w !! a) -> is_Some (refs !! a)) ->
  exists v', SaveSSTFilesTo_level r (v, refs) l cmp = Some (v', ref_all refs (new_level cmp l)) /\
    files_ v' = <[Z.to_nat l := new_level cmp l]> (files_ v) /\ same_rest v v'.
Proof.
  intros Ho Hl Hv Hr. destruct (level_parts l Hl) as (ls & bfs & Hls & Hb).
  rewrite (new_level_eq cmp l ls bfs Hls Hb). unfold SaveSSTFilesTo_level.
  rewrite (fr_base _ _ _ (rp_files _ _ _ _ _ _ H)), Hb. cbn [mbind option_bind]. rewrite Hls.
  cbn [mbind option_bind].
  apply (MaybeAddFiles_spec r l ls v refs []); [done..|].
  by apply (visited_counts r w s l ls bfs H Hls Hb cmp).
Qed.

Lemma save_levels_spec n level v refs : 1 <= level -> level + Z.of_nat n = num ->
  length (files_ v) = Z.to_nat num ->
  (forall l, level <= l < num -> LevelFiles v l = Some []) ->
  (forall a, is_Some (w_refs w !! a) -> is_Some (refs !! a)) ->
  let new := new_level (BySmallestKey c) <$> seqZ level (Z.of_nat n) in
  exists v', save_levels c r n level (v, refs) = Some (v', ref_all refs (mjoin new)) /\
    files_ v' = take (Z.to_nat level) (files_ v) ++ new /\ same_rest v v'.
Proof.
  revert level v refs. induction n as [|n IH]; intros level v refs H1 Hn Hlen Hv Hr new; cbn [save_levels].
  { exists v. split; [done|]. split; [|done]. unfold new. change (seqZ level (Z.of_nat 0)) with (@nil Z).
    rewrite app_nil_r, take_ge by lia. done. }
  destruct (SaveSSTFilesTo_level_spec v refs level (BySmallestKey c) _) as (v1 & Hv1 & Hf1 & Hs1);
    [lia|apply Hv; lia|done|].
  rewrite Hv1. cbn [mbind option_bind].
  destruct (IH (level + 1) v1 (ref_all refs (new_level (BySmallestKey c) level))) as (v' & Hv' & Hf' & Hs').
  - lia.
  - lia.
  - by rewrite Hf1, length_insert.
  - intros l Hl. specialize (Hv l ltac:(lia)). apply LevelFiles_Some in Hv as [H0 Hv].
    apply LevelFiles_Some. split; [done|]. rewrite Hf1, list_lookup_insert_ne by lia. done.
  - intros a Ha. by apply ref_all_dom, Hr.
  - exists v'. rewrite Hv'. unfold new. rewrite (seqZ_cons level) by lia.
    rewrite fmap_cons. cbn [mjoin list_join].
    replace (Z.pred (Z.of_nat (S n))) with (Z.of_nat n) by lia.
    replace (Z.succ level) with (level + 1) by lia. split; [|split].
    + f_equal. f_equal. unfold ref_all. by rewrite fold_left_app.
    + rewrite Hf', Hf1. replace (Z.to_nat (level + 1)) with (S (Z.to_nat level)) by lia.
      rewrite (take_S_r _ _ (new_level (BySmallestKey c) level)).
      * rewrite take_insert_ge by lia. by rewrite <- app_assoc.
      * apply list_lookup_insert_eq. lia.
    + by etrans.
Qed.

(** The requirement the new version ends with, and the order of its level 0. *)
Definition final_requirement v : EpochNumberRequirement :=
  match epoch_number_requirement_ v with
  | kMightMissing => epoch_number_requirement_ (PromoteEpochNumberRequirementIfNeeded r v).2
  | kMustPresent => kMustPresent
  end.

Definition l0_order (requirement : EpochNumberRequirement) : FilePtr -> FilePtr -> bool :=
  match requirement with
  | kMightMissing => NewestFirstBySeqNo
  | kMustPresent => NewestFirstByEpochNumber
  end.

#[local] Instance l0_order_order requirement : FileOrder (l0_order requirement).
Proof. destruct requirement; apply _. Qed.

Definition new_files v : list (list FilePtr) :=
  match files_ base with
  | [] => []
  | _ => new_level (l0_order (final_requirement v)) 0 ::
         (new_level (BySmallestKey c) <$> seqZ 1 (num - 1))
  end.

Lemma SaveSSTFilesTo_spec v refs : files_ v = replicate (Z.to_nat num) [] ->
  (forall a, is_Some (w_refs w !! a) -> is_Some (refs !! a)) ->
  exists v', SaveSSTFilesTo c r (v, refs) = Some (v', ref_all refs (mjoin (new_files v))) /\
    files_ v' = new_files v /\
    same_rest (if num =? 0 then v else v <| epoch_number_requirement_ := final_requirement v |>) v'.
Proof.
  intros Hv Hr. pose proof (vo_num_levels base Hbase) as Hn0. pose proof (vo_files base Hbase) as Hlen.
  unfold SaveSSTFilesTo, new_files, Rep_num_levels_. rewrite (fr_base _ _ _ (rp_files _ _ _ _ _ _ H)).
  destruct (Z.eqb_spec num 0) as [E0|E0].
  { rewrite E0 in *. destruct (files_ base); [|done]. exists v. by rewrite Hv. }
  destruct (files_ base) as [|b0 bs] eqn:Eb; [cbn in Hlen; lia|]. clear Eb b0 bs Hlen. cbn [fst snd].
  set (v1 := match epoch_number_requirement_ v with kMightMissing => _ | kMustPresent => _ end).
  assert (Hv1 : v1 = v <| epoch_number_requirement_ := final_requirement v |>).
  { assert (Eta : forall v, v = v <| epoch_number_requirement_ := epoch_number_requirement_ v |>) by (by intros []).
    unfold v1, final_requirement. destruct (epoch_number_requirement_ v) eqn:Er; [|rewrite <- Er; apply Eta].
    unfold PromoteEpochNumberRequirementIfNeeded.
    destruct (HasMissingEpochNumber v); [apply Eta|]. destruct (existsb _ _); [apply Eta|done]. }
  assert (Hcmp : (match epoch_number_requirement_ v1 with
                  | kMightMissing => NewestFirstBySeqNo
                  | kMustPresent => NewestFirstByEpochNumber
                  end) = l0_order (final_requirement v)) by (by rewrite Hv1).
  rewrite Hcmp. clear Hcmp. set (cmp0 := l0_order (final_requirement v)).
  destruct (SaveSSTFilesTo_level_spec v1 refs 0 cmp0 _) as (v2 & Hv2 & Hf2 & Hs2); [lia| |done|].
  { rewrite Hv1. apply LevelFiles_Some. split; [done|]. cbn. rewrite Hv. apply lookup_replicate_2. lia. }
  rewrite Hv2. cbn [mbind option_bind].
  assert (Hfv1 : files_ v1 = replicate (Z.to_nat num) []) by (rewrite Hv1; done).
  destruct (save_levels_spec (Z.to_nat num - 1) 1 v2 (ref_all refs (new_level cmp0 0)))
    as (v3 & Hv3 & Hf3 & Hs3).
  - lia.
  - lia.
  - by rewrite Hf2, Hfv1, length_insert, length_replicate.
  - intros l Hl. apply LevelFiles_Some. split; [lia|].
    rewrite Hf2, Hfv1, list_lookup_insert_ne by lia. apply lookup_replicate_2. lia.
  - intros a Ha. by apply ref_all_dom, Hr.
  - replace (Z.of_nat (Z.to_nat num - 1)) with (num - 1) in * by lia.
    exists v3. rewrite Hv3. cbn [mjoin list_join]. split; [|split].
    + f_equal. f_equal. unfold ref_all. by rewrite fold_left_app.
    + rewrite Hf3, Hf2, Hfv1. destruct (Z.to_nat num) eqn:En; [lia|]. done.
    + rewrite <- Hv1. by etrans.
Qed.

End Levels.

(** ** Blob files *)

(** What [MergeBlobFileMetas] visits, in order. *)
Inductive visit :=
| VBase (b : BlobFileMetaData)
| VMutable (m : MutableBlobFileMetaData)
| VBoth (b : BlobFileMetaData) (m : MutableBlobFileMetaData).

Fixpoint visits (bs : list BlobFileMetaData) : list (Z * MutableBlobFileMetaData) -> list visit :=
  match bs with
  | [] => fmap (fun p => VMutable p.2)
  | b :: bs' =>
      fix visit_mutable ms :=
        match ms with
        | [] => VBase <$> (b :: bs')
        | (n, m) :: ms' =>
            if GetBlobFileNumber b <? n then VBase b :: visits bs' ms
            else if n <? GetBlobFileNumber b then VMutable m :: visit_mutable ms'
            else VBoth b m :: visits bs' ms'
        end
  end.

Section Visits.

Context {S : Type}.
Context (process_base : S -> BlobFileMetaData -> bool * S).
Context (process_mutable : S -> MutableBlobFileMetaData -> bool * S).
Context (process_both : S -> BlobFileMetaData -> MutableBlobFileMetaData -> bool * S).

Definition process (s : S) (x : visit) : bool * S :=
  match x with
  | VBase b => process_base s b
  | VMutable m => process_mutable s m
  | VBoth b m => process_both s b m
  end.

Fixpoint process_all (s : S) (l : list visit) : S :=
  match l with
  | [] => s
  | x :: l' => let '(go, s) := process s x in if go then process_all s l' else s
  end.

Lemma merge_metas_visits s bs ms :
  merge_metas process_base process_mutable process_both s bs ms = process_all s (visits bs ms).
Proof.
  revert s ms. induction bs as [|b bs IH]; intros s ms; cbn [merge_metas visits].
  { revert s. induction ms as [|[n m] ms IHm]; intros s; cbn; [done|].
    destruct (process_mutable s m) as [[] s']; [apply IHm|done]. }
  revert s. induction ms as [|[n m] ms IHm]; intros s.
  { change (merge_base_rest process_base s (b :: bs) = process_all s (VBase <$> (b :: bs))).
    clear IH. revert s. generalize (b :: bs). induction l as [|x l IHl]; intros s; cbn; [done|].
    destruct (process_base s x) as [[] s']; [apply IHl|done]. }
  destruct (GetBlobFileNumber b <? n); [|destruct (n <? GetBlobFileNumber b)]; cbn [process_all process].
  - destruct (process_base s b) as [[] s']; [apply IH|done].
  - destruct (process_mutable s m) as [[] s']; [apply IHm|done].
  - destruct (process_both s b m) as [[] s']; [apply IH|done].
Qed.

End Visits.

(** The blob file that a visit stands for. *)
Definition visit_blob (x : visit) : BlobFileMetaData :=
  match x with
  | VBase b => b
  | VMutable m | VBoth _ m => CreateBlobFileMetaData m
  end.

Definition mutable_sorted (lo : Z) (ms : list (Z * MutableBlobFileMetaData)) : Prop :=
  keys_from lo ms = true /\ Forall (fun p => sm_blob_file_number_ (mb_shared_meta_ p.2) = p.1) ms.

Lemma mutable_sorted_cons lo n m ms : mutable_sorted lo ((n, m) :: ms) ->
  lo <= n /\ sm_blob_file_number_ (mb_shared_meta_ m) = n /\ mutable_sorted (n + 1) ms.
Proof.
  intros [Hk Hf]. apply keys_from_cons in Hk as [Hlo Hk]. inversion_clear Hf as [|?? Hm Hf'].
  split_and!; [done|done|by split].
Qed.

Lemma mutable_sorted_lt lo ms p : mutable_sorted lo ms -> p ∈ ms -> lo <= GetBlobFileNumber (CreateBlobFileMetaData p.2).
Proof.
  intros Hs Hp. revert lo Hs. induction Hp as [[n m] ms|p [n m] ms Hp IH]; intros lo Hs;
    apply mutable_sorted_cons in Hs as (Hlo & Hm & Hs'); [unfold GetBlobFileNumber; cbn; lia|]. specialize (IH _ Hs'). lia.
Qed.

Lemma visits_elem bs ms x : x ∈ visits bs ms ->
  (exists b, b ∈ bs /\ (x = VBase b \/ exists m, (GetBlobFileNumber b, m) ∈ ms /\ x = VBoth b m)) \/
  (exists p, p ∈ ms /\ x = VMutable p.2).
Proof.
  revert ms. induction bs as [|b bs IH]; intros ms; cbn [visits].
  { intros (p & -> & Hp)%list_elem_of_fmap. right. by exists p. }
  induction ms as [|[n m] ms IHm].
  { intros (y & -> & Hy)%list_elem_of_fmap. left. exists y. auto. }
  destruct (Z.ltb_spec (GetBlobFileNumber b) n); [|destruct (Z.ltb_spec n (GetBlobFileNumber b))];
    intros [->|Hx]%elem_of_cons.
  - left. exists b. split; [constructor|by left].
  - apply IH in Hx as [(y & Hy & Hr)|Hr]; [left; exists y; split; [by constructor|done]|by right].
  - right. exists (n, m). split; [constructor|done].
  - apply IHm in Hx as [(y & Hy & [->|(m' & Hm' & ->)])|(p & Hp & ->)].
    + left. exists y. auto.
    + left. exists y. split; [done|]. right. exists m'. split; [by constructor|done].
    + right. exists p. split; [by constructor|done].
  - left. exists b. split; [constructor|]. right. exists m.
    split; [|done]. replace (GetBlobFileNumber b) with n by lia. constructor.
  - apply IH in Hx as [(y & Hy & [->|(m' & Hm' & ->)])|(p & Hp & ->)].
    + left. exists y. split; [by constructor|by left].
    + left. exists y. split; [by constructor|]. right. exists m'. split; [by constructor|done].
    + right. exists p. split; [by constructor|done].
Qed.

(** Visits go up in blob file numbers. *)
Lemma visits_above bs ms k : Forall (fun b => k < GetBlobFileNumber b) bs -> mutable_sorted (k + 1) ms ->
  Forall (fun b => k < GetBlobFileNumber b) (visit_blob <$> visits bs ms).
Proof.
  intros Hb Hm. rewrite list.Forall_forall in Hb. apply list.Forall_forall.
  intros y (x & -> & Hx)%list_elem_of_fmap.
  apply visits_elem in Hx as [(b & Hin & [->|(m & Hin' & ->)])|(p & Hin & ->)]; cbn [visit_blob].
  - by apply Hb.
  - pose proof (mutable_sorted_lt _ _ _ Hm Hin') as Hk. cbn [snd] in Hk. lia.
  - pose proof (mutable_sorted_lt _ _ _ Hm Hin). lia.
Qed.

Lemma visits_sorted lo bs ms : blobs_sorted bs -> mutable_sorted lo ms ->
  blobs_sorted (visit_blob <$> visits bs ms).
Proof.
  intros Hb. revert lo ms. induction Hb as [|b bs Hb IH Hbb]; intros lo ms Hm; cbn [visits].
  { revert lo Hm. induction ms as [|[n m] ms IHm]; intros lo Hm; [constructor|].
    apply mutable_sorted_cons in Hm as (_ & Hn & Hm). cbn. constructor; [by eapply IHm|].
    apply (list.Forall_impl (fun x => n < GetBlobFileNumber x)); [|intros x Hx; unfold GetBlobFileNumber at 1; cbn; lia].
    apply (visits_above [] ms n); [constructor|done]. }
  revert lo Hm. induction ms as [|[n m] ms IHm]; intros lo Hm.
  { rewrite <- list_fmap_compose. rewrite list_fmap_id. by constructor. }
  pose proof (mutable_sorted_cons _ _ _ _ Hm) as (_ & Hn & Hm').
  assert (Hm1 : GetBlobFileNumber b < n -> mutable_sorted (GetBlobFileNumber b + 1) ((n, m) :: ms)).
  { intros Hlt. destruct Hm as [Hk Hf]. apply keys_from_cons in Hk as [_ Hk]. split; [|done].
    apply keys_from_cons. split; [lia|done]. }
  assert (Hbn : n <= GetBlobFileNumber b -> Forall (fun x => n < GetBlobFileNumber x) bs).
  { intros Hle. apply (list.Forall_impl _ _ _ Hbb). cbn. lia. }
  destruct (Z.ltb_spec (GetBlobFileNumber b) n); [|destruct (Z.ltb_spec n (GetBlobFileNumber b))];
    rewrite fmap_cons; constructor; cbn [visit_blob].
  - by eapply IH.
  - apply visits_above; auto.
  - by eapply IHm.
  - apply (list.Forall_impl (fun x => n < GetBlobFileNumber x)); [|intros x Hx; unfold GetBlobFileNumber at 1; cbn; lia].
    apply (visits_above (b :: bs) ms n); [|done]. constructor; [done|]. apply Hbn. lia.
  - by eapply IH.
  - apply (list.Forall_impl (fun x => n < GetBlobFileNumber x)); [|intros x Hx; unfold GetBlobFileNumber at 1; cbn; lia].
    apply visits_above; [|done]. apply Hbn. lia.
Qed.

(** Every blob file is visited, the changed one if there is a change. *)
Lemma visits_complete lo bs ms : blobs_sorted bs -> mutable_sorted lo ms ->
  (forall n m, (n, m) ∈ ms -> CreateBlobFileMetaData m ∈ visit_blob <$> visits bs ms) /\
  (forall b, b ∈ bs -> (forall m, (GetBlobFileNumber b, m) ∉ ms) -> b ∈ visit_blob <$> visits bs ms) /\
  (forall b m, VBase b ∈ visits bs ms -> (GetBlobFileNumber b, m) ∉ ms).
Proof.
  intros Hb. revert lo ms. induction Hb as [|b bs Hb IH Hbb]; intros lo ms Hm; cbn [visits].
  { split_and!.
    - intros n m Hin. rewrite <- list_fmap_compose. apply list_elem_of_fmap. by exists (n, m).
    - intros x Hx. by apply elem_of_nil in Hx.
    - intros x m (p & [=] & _)%list_elem_of_fmap. }
  rewrite list.Forall_forall in Hbb. revert lo Hm. induction ms as [|[n m] ms IHm]; intros lo Hm.
  { split_and!.
    - intros n m Hin. by apply elem_of_nil in Hin.
    - intros x Hx _. apply list_elem_of_fmap. exists (VBase x). split; [done|]. by apply list_elem_of_fmap_2.
    - intros x m _ Hin. by apply elem_of_nil in Hin. }
  pose proof (mutable_sorted_cons _ _ _ _ Hm) as (_ & Hn & Hm').
  assert (Hlt : forall k y, (k, y) ∈ ms -> n < k).
  { intros k y Hin. pose proof (mutable_sorted_lt _ _ _ Hm' Hin) as Hlt. destruct Hm' as [_ Hf].
    rewrite list.Forall_forall in Hf. specialize (Hf _ Hin). unfold GetBlobFileNumber in Hlt. cbn in Hf, Hlt. lia. }
  destruct (Z.ltb_spec (GetBlobFileNumber b) n); [|destruct (Z.ltb_spec n (GetBlobFileNumber b))];
    rewrite fmap_cons; cbn [visit_blob].
  - destruct (IH lo ((n, m) :: ms) Hm) as (H1 & H2 & H3). split_and!.
    + intros k y Hin. constructor. by eapply H1.
    + intros x [->|Hx]%elem_of_cons Hno; [constructor|]. constructor. by apply H2.
    + intros x y [[= ->]|Hx]%elem_of_cons Hin; [|by apply (H3 x y)].
      apply elem_of_cons in Hin as [[= E _]|Hin]; [lia|]. specialize (Hlt _ _ Hin). lia.
  - destruct (IHm (n + 1) Hm') as (H1 & H2 & H3). split_and!.
    + intros k y [[= -> ->]|Hin]%elem_of_cons; [constructor|]. constructor. by eapply H1.
    + intros x Hx Hno. constructor. apply H2; [done|]. intros y Hin. apply (Hno y). by constructor.
    + intros x y [[=]|Hx]%elem_of_cons Hin. apply elem_of_cons in Hin as [[= E _]|Hin]; [|by apply (H3 x y)].
      apply (visits_elem (b :: bs) ms) in Hx as [(z & Hz & [[= ->]|(m' & _ & [=])])|(p & _ & [=])].
      apply elem_of_cons in Hz as [->|Hz]; [lia|]. specialize (Hbb z Hz). lia.
  - destruct (IH (n + 1) ms Hm') as (H1 & H2 & H3). assert (n = GetBlobFileNumber b) as En by lia. split_and!.
    + intros k y [[= -> ->]|Hin]%elem_of_cons; [constructor|]. constructor. by eapply H1.
    + intros x [->|Hx]%elem_of_cons Hno.
      * exfalso. apply (Hno m). rewrite En. constructor.
      * constructor. apply H2; [done|]. intros y Hin. apply (Hno y). by constructor.
    + intros x y [[=]|Hx]%elem_of_cons Hin. apply elem_of_cons in Hin as [[= E _]|Hin]; [|by apply (H3 x y)].
      apply visits_elem in Hx as [(z & Hz & [[= ->]|(m' & _ & [=])])|(p & _ & [=])].
      specialize (Hbb z Hz). lia.
Qed.

Section Blobs.

Context (r : Rep) (bs : gmap Z BlobFileMetaData) (Hb : blobs_repr base r bs).

Definition visits_from (first : Z) : list visit :=
  visits (GetBlobFileMetaDataLB base first) (map_erase_below first (mutable_blob_file_metas_ r)).

Definition blobs_from (first : Z) : list BlobFileMetaData := visit_blob <$> visits_from first.

Lemma mutable_elem first n m : (n, m) ∈ map_erase_below first (mutable_blob_file_metas_ r) <->
  first <= n /\ map_find n (mutable_blob_file_metas_ r) = Some m.
Proof.
  pose proof (br_sorted _ _ _ Hb) as Hs.
  rewrite list_elem_of_In, <- (map_find_In _ _ _ _ (map_erase_below_sorted 0 first _ Hs)).
  rewrite (map_find_erase_below 0) by done. zcase; [|by split; [|intros [_ ?]]].
  split; [done|]. intros [? _]. lia.
Qed.

Lemma mutable_from_sorted first :
  exists lo, mutable_sorted lo (map_erase_below first (mutable_blob_file_metas_ r)).
Proof.
  exists (Z.max 0 first). split; [apply map_erase_below_sorted, (br_sorted _ _ _ Hb)|].
  apply list.Forall_forall. intros [n m] [_ Hm]%mutable_elem. cbn.
  pose proof (br_at _ _ _ Hb n) as Hat. unfold blob_at in Hat. rewrite Hm in Hat.
  by destruct (br_wf _ _ _ Hb n _ Hat).
Qed.

Lemma base_from first b : b ∈ GetBlobFileMetaDataLB base first <->
  first <= GetBlobFileNumber b /\ GetBlobFileMetaData base (GetBlobFileNumber b) = Some b.
Proof.
  pose proof (vo_blobs base Hbase) as Hs. rewrite GetBlobFileMetaDataLB_spec, list_elem_of_filter by done.
  rewrite GetBlobFileMetaData_Some by done. tauto.
Qed.

Lemma base_from_sorted first : blobs_sorted (GetBlobFileMetaDataLB base first).
Proof.
  rewrite GetBlobFileMetaDataLB_spec by apply (vo_blobs base Hbase).
  apply StronglySorted_filter, (vo_blobs base Hbase).
Qed.

(** The visited blob files are those of the state, in order. *)
Lemma blobs_from_sorted first : blobs_sorted (blobs_from first).
Proof.
  destruct (mutable_from_sorted first) as [lo Hlo]. eapply visits_sorted; [apply base_from_sorted|done].
Qed.

Lemma blobs_from_elem first b : b ∈ blobs_from first <->
  first <= GetBlobFileNumber b /\ bs !! GetBlobFileNumber b = Some b.
Proof.
  destruct (mutable_from_sorted first) as [lo Hlo].
  destruct (visits_complete lo _ _ (base_from_sorted first) Hlo) as (H1 & H2 & H3).
  assert (Hmut : forall n m, (n, m) ∈ map_erase_below first (mutable_blob_file_metas_ r) ->
            first <= n /\ GetBlobFileNumber (CreateBlobFileMetaData m) = n /\ bs !! n = Some (CreateBlobFileMetaData m)).
  { intros n m [Hn Hm]%mutable_elem. pose proof (br_at _ _ _ Hb n) as Hat. unfold blob_at in Hat.
    rewrite Hm in Hat. by destruct (br_wf _ _ _ Hb n _ Hat). }
  unfold blobs_from. split.
  - intros (x & -> & Hx)%list_elem_of_fmap. pose proof Hx as Hx'.
    apply visits_elem in Hx' as [(y & Hy & [->|(m & Hm & ->)])|([n m] & Hm & ->)]; cbn [visit_blob snd].
    + apply base_from in Hy as [Hf Hg]. split; [done|]. rewrite (br_at _ _ _ Hb). unfold blob_at.
      destruct (map_find _ _) as [m|] eqn:Em; [|done]. exfalso. apply (H3 y m Hx). by apply mutable_elem.
    + destruct (Hmut _ _ Hm) as (Hf & -> & Hs). done.
    + destruct (Hmut _ _ Hm) as (Hf & -> & Hs). done.
  - intros [Hf Hs]. rewrite (br_at _ _ _ Hb) in Hs. unfold blob_at in Hs.
    destruct (map_find (GetBlobFileNumber b) (mutable_blob_file_metas_ r)) as [m|] eqn:Em.
    + injection Hs as <-. eapply H1. apply mutable_elem. done.
    + apply H2; [by apply base_from|]. intros m [_ Hm]%mutable_elem. congruence.
Qed.

(** *** The oldest blob file in use *)

Lemma oldest_of_list (l : list (Z * BlobFileMetaData)) :
  match foldr (fun p o => if blob_in_use p.2
                 then Some (match o with Some x => Z.min p.1 x | None => p.1 end) else o) None l with
  | None => forall n b, (n, b) ∈ l -> blob_in_use b = false
  | Some x => (exists b, (x, b) ∈ l /\ blob_in_use b = true) /\
              forall n b, (n, b) ∈ l -> blob_in_use b = true -> x <= n
  end.
Proof.
  induction l as [|[k x] l IH]; cbn [foldr].
  { intros n b Hin. by apply elem_of_nil in Hin. }
  cbn [fst snd]. destruct (blob_in_use x) eqn:Ex; destruct (foldr _ None l) as [o|].
  - destruct IH as [(b & Hin & Hu) Hmin]. split.
    + destruct (Z.min_dec k o) as [->| ->]; [exists x; split; [constructor|done]|].
      exists b. split; [by constructor|done].
    + intros n y [[= -> ->]|Hy]%elem_of_cons Huy; [lia|]. specialize (Hmin n y Hy Huy). lia.
  - split; [exists x; split; [constructor|done]|].
    intros n y [[= -> ->]|Hy]%elem_of_cons Huy; [lia|]. by rewrite (IH n y Hy) in Huy.
  - destruct IH as [(b & Hin & Hu) Hmin]. split; [exists b; split; [by constructor|done]|].
    intros n y [[= -> ->]|Hy]%elem_of_cons Huy; [congruence|eauto].
  - intros n y [[= -> ->]|Hy]%elem_of_cons; [done|eauto].
Qed.

Lemma lsm_oldest_spec (m : gmap Z BlobFileMetaData) :
  match lsm_oldest_blob m with
  | None => forall n b, m !! n = Some b -> blob_in_use b = false
  | Some x => (exists b, m !! x = Some b /\ blob_in_use b = true) /\
              forall n b, m !! n = Some b -> blob_in_use b = true -> x <= n
  end.
Proof.
  pose proof (oldest_of_list (map_to_list m)) as Ho. unfold lsm_oldest_blob.
  destruct (foldr _ None (map_to_list m)) as [x|].
  - destruct Ho as [(b & Hin & Hu) Hmin]. split.
    + exists b. split; [by apply elem_of_map_to_list|done].
    + intros n y Hy. by apply Hmin, elem_of_map_to_list.
  - intros n b Hn. by eapply Ho, elem_of_map_to_list.
Qed.

Lemma first_in_use l min :
  process_all (fun min_oldest b => CheckLinkedSsts (bm_linked_ssts_ b) (GetBlobFileNumber b) min_oldest)
    CheckLinkedSsts_mutable (fun min_oldest _ m => CheckLinkedSsts_mutable min_oldest m) min l =
  match list_find (fun b => blob_in_use b = true) (visit_blob <$> l) with
  | Some (_, b) => GetBlobFileNumber b
  | None => min
  end.
Proof.
  induction l as [|x l IH]; [done|].
  assert (Hx : process (fun min_oldest b => CheckLinkedSsts (bm_linked_ssts_ b) (GetBlobFileNumber b) min_oldest)
                 CheckLinkedSsts_mutable (fun min_oldest _ m => CheckLinkedSsts_mutable min_oldest m) min x =
               if blob_in_use (visit_blob x) then (false, GetBlobFileNumber (visit_blob x)) else (true, min)).
  { by destruct x. }
  cbn [process_all]. rewrite Hx, fmap_cons. cbn [list_find].
  destruct (blob_in_use (visit_blob x)) eqn:E.
  - rewrite decide_True by done. done.
  - rewrite decide_False by done. rewrite IH. by destruct (list_find _ _) as [[]|].
Qed.

Lemma GetMinOldestBlobFileNumber_spec :
  GetMinOldestBlobFileNumber r = default kInvalidBlobFileNumber (lsm_oldest_blob bs).
Proof.
  unfold GetMinOldestBlobFileNumber, MergeBlobFileMetas.
  rewrite merge_metas_visits, (br_base _ _ _ Hb), first_in_use.
  change (visit_blob <$> visits _ _) with (blobs_from kInvalidBlobFileNumber).
  pose proof (lsm_oldest_spec bs) as Ho. destruct (list_find _ _) as [[i b]|] eqn:El.
  - apply list_find_Some in El as (Hi & Hu & Hfirst).
    assert (Hin : b ∈ blobs_from kInvalidBlobFileNumber) by (by eapply list_elem_of_lookup_2).
    apply blobs_from_elem in Hin as [_ Hin]. destruct (lsm_oldest_blob bs) as [x|].
    + destruct Ho as [(y & Hy & Huy) Hmin]. cbn. specialize (Hmin _ _ Hin Hu).
      assert (Hny : GetBlobFileNumber y = x) by (by destruct (br_wf _ _ _ Hb x y Hy)).
      assert (Hyin : y ∈ blobs_from kInvalidBlobFileNumber).
      { apply blobs_from_elem. rewrite Hny. split; [|done]. unfold kInvalidBlobFileNumber.
        destruct (br_wf _ _ _ Hb x y Hy) as (_ & ? & _). lia. }
      apply list_elem_of_lookup in Hyin as [j Hj].
      destruct (decide (j = i)) as [->|Hne]; [congruence|].
      destruct (decide (j < i)%nat) as [Hlt|Hge].
      { by destruct (Hfirst j y Hj Hlt). }
      pose proof (blobs_from_sorted kInvalidBlobFileNumber) as Hs.
      assert (Hlt : GetBlobFileNumber b < GetBlobFileNumber y); [|lia].
      apply (StronglySorted_lookup _ _ i j b y Hs); [lia|done|done].
    + by rewrite (Ho _ _ Hin) in Hu.
  - apply list_find_None in El. rewrite list.Forall_forall in El.
    destruct (lsm_oldest_blob bs) as [x|]; [|done]. destruct Ho as [(y & Hy & Huy) _].
    destruct (El y); [|done]. apply blobs_from_elem.
    destruct (br_wf _ _ _ Hb x y Hy) as (-> & ? & _). split; [unfold kInvalidBlobFileNumber; lia|done].
Qed.

(** *** Saving blob files *)

Lemma no_difference (A B : gset Z) : ∅ = A ∖ B -> ∅ = B ∖ A -> A = B.
Proof.
  intros H1 H2. apply set_eq. intros x. split; intros Hx.
  - destruct (decide (x ∈ B)); [done|]. assert (x ∈ A ∖ B) by set_solver. set_solver.
  - destruct (decide (x ∈ A)); [done|]. assert (x ∈ B ∖ A) by set_solver. set_solver.
Qed.

(** Without a difference the object of the base can be kept. *)
Lemma no_delta_same b m : delta_ok b m -> is_u64 (bm_garbage_blob_count_ b) ->
  is_u64 (bm_garbage_blob_bytes_ b) -> HasDelta m = false -> CreateBlobFileMetaData m = b.
Proof.
  intros [H1 H2 H3 H4 H5] Hc Hbt Hd. unfold HasDelta, Delta_IsEmpty in Hd.
  apply negb_false_iff, andb_true_iff in Hd as [[[Ec Eb]%andb_true_iff El]%andb_true_iff Eu].
  apply Z.eqb_eq in Ec, Eb. apply bool_decide_eq_true in El, Eu.
  rewrite El in H2. rewrite Eu in H3. pose proof (no_difference _ _ H2 H3) as Hl. rewrite Ec, Z.add_0_r, u64_id in H4 by done.
  rewrite Eb, Z.add_0_r, u64_id in H5 by done. destruct b. unfold CreateBlobFileMetaData. cbn in *.
  congruence.
Qed.

Definition needed (b : BlobFileMetaData) : Prop :=
  ~ (bm_linked_ssts_ b = ∅ /\ sm_total_blob_count_ (bm_shared_meta_ b) <= bm_garbage_blob_count_ b).

#[local] Instance needed_dec b : Decision (needed b).
Proof. apply _. Defined.

Lemma append_no_blobs v : v <| blob_files_ ::= fun l => l ++ [] |> = v.
Proof. destruct v. unfold modify. cbn. by rewrite app_nil_r. Qed.

Lemma append_blobs v l l' :
  v <| blob_files_ ::= fun o => o ++ l |> <| blob_files_ ::= fun o => o ++ l' |> =
  v <| blob_files_ ::= fun o => o ++ (l ++ l') |>.
Proof. destruct v. unfold modify. cbn. by rewrite app_assoc. Qed.

Lemma AddBlobFileIfNeeded_spec v b :
  AddBlobFileIfNeeded v b = v <| blob_files_ ::= fun l => l ++ filter needed [b] |>.
Proof.
  unfold AddBlobFileIfNeeded, VSI_AddBlobFile. rewrite list.filter_cons.
  destruct (bool_decide (bm_linked_ssts_ b = ∅)) eqn:E1; [apply bool_decide_eq_true in E1|apply bool_decide_eq_false in E1];
    destruct (Z.leb_spec (sm_total_blob_count_ (bm_shared_meta_ b)) (bm_garbage_blob_count_ b)); cbn [andb].
  - rewrite decide_False by (unfold needed; tauto). rewrite filter_nil. symmetry. apply append_no_blobs.
  - rewrite decide_True by (unfold needed; lia). done.
  - rewrite decide_True by (unfold needed; tauto). done.
  - rewrite decide_True by (unfold needed; tauto). done.
Qed.

Definition save_visit v (x : visit) : VersionStorageInfo :=
  AddBlobFileIfNeeded v (match x with
                         | VBase b => b
                         | VMutable m => CreateBlobFileMetaData m
                         | VBoth b m => if HasDelta m then CreateBlobFileMetaData m else b
                         end).

Lemma save_visits v l : (forall x, x ∈ l -> forall v, save_visit v x = AddBlobFileIfNeeded v (visit_blob x)) ->
  process_all (fun v b => (true, AddBlobFileIfNeeded v b))
    (fun v m => (true, AddBlobFileIfNeeded v (CreateBlobFileMetaData m)))
    (fun v b m => (true, AddBlobFileIfNeeded v (if HasDelta m then CreateBlobFileMetaData m else b))) v l =
  v <| blob_files_ ::= fun o => o ++ filter needed (visit_blob <$> l) |>.
Proof.
  revert v. induction l as [|x l IH]; intros v Hl; cbn [process_all].
  { symmetry. apply append_no_blobs. }
  assert (Hx : process (fun v b => (true, AddBlobFileIfNeeded v b))
    (fun v m => (true, AddBlobFileIfNeeded v (CreateBlobFileMetaData m)))
    (fun v b m => (true, AddBlobFileIfNeeded v (if HasDelta m then CreateBlobFileMetaData m else b))) v x =
    (true, save_visit v x)) by (by destruct x).
  rewrite Hx, Hl, IH, AddBlobFileIfNeeded_spec by (try constructor; intros; apply Hl; by constructor).
  rewrite append_blobs, <- list.filter_app. done.
Qed.

(** The saved blob files are the ones the state keeps. *)
Lemma SaveBlobFilesTo_spec v : blob_files_ v = [] ->
  exists l, SaveBlobFilesTo r v = v <| blob_files_ := l |> /\ blobs_sorted l /\
    (forall b, b ∈ l <-> bs !! GetBlobFileNumber b = Some b /\ blob_kept bs (GetBlobFileNumber b, b)).
Proof.
  intros Hv. unfold SaveBlobFilesTo. rewrite GetMinOldestBlobFileNumber_spec.
  pose proof (lsm_oldest_spec bs) as Ho. unfold blob_kept.
  destruct (lsm_oldest_blob bs) as [first|]; cbn [default from_option id].
  2:{ exists []. split; [destruct v; cbn in *; by subst|]. split; [constructor|].
      intros b. rewrite elem_of_nil. tauto. }
  destruct Ho as [(b0 & Hb0 & _) _]. destruct (br_wf _ _ _ Hb first b0 Hb0) as (_ & Hf0 & _).
  rewrite (proj2 (Z.eqb_neq first kInvalidBlobFileNumber)) by (unfold kInvalidBlobFileNumber; lia).
  unfold MergeBlobFileMetas. rewrite merge_metas_visits, (br_base _ _ _ Hb).
  change (visits _ _) with (visits_from first). rewrite save_visits.
  - exists (filter needed (blobs_from first)). split; [destruct v; cbn in *; by subst|]. split.
    { apply StronglySorted_filter, blobs_from_sorted. }
    intros b. rewrite list_elem_of_filter, blobs_from_elem. unfold needed, blob_in_use. cbn [fst snd].
    destruct (decide (bm_linked_ssts_ b = ∅)) as [E|E].
    + rewrite bool_decide_true by done. cbn. split; [intros (Hn & ? & ?)|intros (? & ? & [?|?])]; try done.
      * split_and!; [done|done|]. right. apply Z.nle_gt. tauto.
      * split_and!; [|done|done]. lia.
    + rewrite bool_decide_false by done. cbn. tauto.
  - intros x Hx v'. unfold save_visit. f_equal.
    apply visits_elem in Hx as [(b & Hin & [->|(m & Hm & ->)])|(p & _ & ->)]; [done| |done]. cbn.
    destruct (HasDelta m) eqn:Hd; [done|]. apply base_from in Hin as [_ Hbb].
    apply mutable_elem in Hm as [_ Hm]. destruct (blob_words base Hbase _ _ Hbb) as (_ & (_ & _ & Hc & Hbt) & _).
    symmetry. apply no_delta_same; [by apply (br_delta _ _ _ Hb _ m b Hm)|done..].
Qed.

End Blobs.

(** ** Cursors *)

Lemma save_cursors_spec l v :
  Forall (fun p => 0 <= p.1 < slen (compact_cursor_ v)) l ->
  exists cs, save_cursors v l = Some (v <| compact_cursor_ := cs |>) /\ length cs = length (compact_cursor_ v) /\
    (NoDup l.*1 -> forall i, cs !! i =
       match compact_cursor_ v !! i, (list_to_map l : gmap Z bytes) !! Z.of_nat i with
       | Some _, Some k => Some k
       | x, None => x
       | None, _ => None
       end).
Proof.
  revert v. induction l as [|[lv k] l IH]; intros v Hl; cbn [save_cursors].
  { exists (compact_cursor_ v). split; [by destruct v|]. split; [done|]. intros _ i. cbn.
    rewrite lookup_empty. by destruct (compact_cursor_ v !! i). }
  inversion_clear Hl as [|?? Hr Hl']. cbn [fst] in Hr. unfold AddCursorForOneLevel.
  rewrite (proj2 (Z.ltb_ge lv 0)), (proj2 (Z.leb_gt (slen (compact_cursor_ v)) lv)) by lia. cbn [orb mbind option_bind].
  set (v1 := v <| compact_cursor_ ::= _ |>).
  assert (Hlen : length (compact_cursor_ v1) = length (compact_cursor_ v)) by apply length_insert.
  destruct (IH v1) as (cs & Hcs & Hcl & Hlk).
  { unfold slen in *. by rewrite Hlen. }
  exists cs. split; [rewrite Hcs; by destruct v|]. split; [by rewrite Hcl|].
  intros Hn i. inversion_clear Hn as [|?? Hnl Hn']. rewrite Hlk by done. cbn [list_to_map foldr uncurry fst snd].
  cbn in Hnl. destruct (decide (Z.of_nat i = lv)) as [<-|Hne].
  - rewrite lookup_insert_eq. unfold v1. cbn. rewrite Nat2Z.id, list_lookup_insert_eq by (unfold slen in Hr; lia).
    destruct (lookup_lt_is_Some_2 (compact_cursor_ v) i) as [x ->]; [unfold slen in Hr; lia|].
    by rewrite (not_elem_of_list_to_map_1 l) by done.
  - rewrite (lookup_insert_ne _ lv) by done. unfold v1. cbn. rewrite list_lookup_insert_ne by lia. done.
Qed.

(** ** The new version *)

Lemma NoDup_join {A B : Type} (g : A -> B) (fss : list (list A)) :
  (forall i fs, fss !! i = Some fs -> NoDup (g <$> fs)) ->
  (forall i j fs fs' x y, fss !! i = Some fs -> fss !! j = Some fs' -> x ∈ fs -> y ∈ fs' ->
     g x = g y -> i = j) ->
  NoDup (g <$> mjoin fss).
Proof.
  induction fss as [|fs fss IH]; intros Hn Hd; [constructor|]. cbn [mjoin list_join]. rewrite fmap_app.
  apply list.NoDup_app. split; [by apply (Hn 0%nat)|]. split.
  - intros z (x & -> & Hx)%list_elem_of_fmap (y & E & Hy)%list_elem_of_fmap.
    apply list_elem_of_join in Hy as (fs' & Hy & [j Hj]%list_elem_of_lookup).
    by specialize (Hd 0%nat (S j) fs fs' x y eq_refl Hj Hx Hy E).
  - apply IH; [intros i gs Hi; by apply (Hn (S i))|].
    intros i j gs gs' x y Hi Hj Hx Hy E. by specialize (Hd (S i) (S j) gs gs' x y Hi Hj Hx Hy E) as [= ->].
Qed.

Definition empty_version (force : bool) (requirement : EpochNumberRequirement) : VersionStorageInfo :=
  VersionStorageInfo_make num (Some base) force requirement.

Lemma resize_cursors_id (l : list bytes) : resize_cursors (length l) l = l.
Proof. unfold resize_cursors. rewrite take_ge, Nat.sub_diag by lia. by rewrite app_nil_r. Qed.

Lemma check_levels_empty l n m : check_levels c l (replicate n []) m = (OK, m).
Proof. revert l. induction n as [|n IH]; intros l; [done|]. apply IH. Qed.

Lemma empty_version_consistent force requirement : CheckConsistency c (empty_version force requirement) = OK.
Proof.
  unfold CheckConsistency. destruct (negb _); [done|]. unfold CheckConsistencyDetails. cbn.
  destruct (Z.to_nat num); [done|]. cbn. by rewrite check_levels_empty.
Qed.

Section New.

Context (r : Rep) (w : World M) (s : Lsm) (H : repr r w s) (v0 : VersionStorageInfo).

(** The order of each level. *)
Definition order_at (l : Z) : FilePtr -> FilePtr -> bool :=
  if l =? 0 then l0_order (final_requirement r v0) else BySmallestKey c.

#[local] Instance order_at_order l : FileOrder (order_at l).
Proof. unfold order_at. destruct (l =? 0); [|apply _]. destruct (final_requirement r v0); apply _. Qed.

Lemma new_files_lookup i fs : new_files r v0 !! i = Some fs <->
  Z.of_nat i < num /\ fs = new_level r (order_at (Z.of_nat i)) (Z.of_nat i).
Proof.
  pose proof (vo_files base Hbase) as Hlen. pose proof (vo_num_levels base Hbase) as H0. unfold new_files.
  destruct (files_ base) as [|b0 bs0]; cbn [length] in Hlen.
  { split; [done|]. intros [? _]. lia. }
  destruct i as [|i].
  - change (Z.of_nat 0) with 0. unfold order_at. cbn [Z.eqb]. split; [intros [= <-]; split; [lia|done]|].
    by intros [_ ->].
  - rewrite lookup_cons_ne_0, Nat.pred_succ, list_lookup_fmap, fmap_Some by done.
    unfold order_at. rewrite (proj2 (Z.eqb_neq (Z.of_nat (S i)) 0)) by lia. split.
    + intros (x & Hx & ->). apply lookup_seqZ in Hx as [-> Hi].
      replace (Z.of_nat (S i)) with (1 + Z.of_nat i) by lia. split; [lia|done].
    + intros [Hi ->]. exists (1 + Z.of_nat i). split; [apply lookup_seqZ; lia|].
      f_equal. lia.
Qed.

Lemma new_level_parts l p : p ∈ new_level r (order_at l) l ->
  exists ls bfs, level_state r l = Some ls /\ LevelFiles base l = Some bfs /\ p ∈ kept ls bfs (order_at l).
Proof.
  unfold new_level. destruct (level_state r l) as [ls|]; [|by intros ?%elem_of_nil].
  destruct (LevelFiles base l) as [bfs|]; [|by intros ?%elem_of_nil]. intros Hp. by exists ls, bfs.
Qed.

Lemma new_level_meta l p : p ∈ new_level r (order_at l) l -> lsm_files s !! FileNumber p = Some (l, fp_meta p).
Proof. intros (ls & bfs & Hls & Hb & Hp)%new_level_parts. by eapply kept_meta. Qed.

Lemma new_level_complete l n f : l < num -> lsm_files s !! n = Some (l, f) ->
  exists p, p ∈ new_level r (order_at l) l /\ FileNumber p = n /\ fp_meta p = f.
Proof.
  intros Hl E. destruct (fr_wf _ _ _ (rp_files _ _ _ _ _ _ H) n l f E) as [H0 _].
  destruct (level_parts r w s H l) as (ls & bfs & Hls & Hb); [lia|].
  rewrite (new_level_eq r _ l ls bfs Hls Hb). by apply (kept_complete r w s l ls bfs H).
Qed.

Context (Hkeys : forall n l f, lsm_files s !! n = Some (l, f) -> keys_ok f).

Lemma new_files_numbers : NoDup (FileNumber <$> mjoin (new_files r v0)).
Proof.
  apply NoDup_join.
  - intros i fs [Hi ->]%new_files_lookup. destruct (level_parts r w s H (Z.of_nat i)) as (ls & bfs & Hls & Hb); [lia|].
    rewrite (new_level_eq r _ _ ls bfs Hls Hb). by apply (kept_numbers r w s (Z.of_nat i) ls bfs H).
  - intros i j fs fs' x y [Hi ->]%new_files_lookup [Hj ->]%new_files_lookup Hx%new_level_meta Hy%new_level_meta E.
    rewrite E, Hy in Hx. injection Hx as Hx _. lia.
Qed.

Lemma new_files_keys : Forall (fun f => keys_ok (fp_meta f)) (mjoin (new_files r v0)).
Proof.
  apply list.Forall_forall. intros p (fs & Hp & [i Hi]%list_elem_of_lookup)%list_elem_of_join.
  apply new_files_lookup in Hi as [_ ->]. apply new_level_meta in Hp. eauto.
Qed.

Lemma new_files_length : length (new_files r v0) = Z.to_nat num.
Proof.
  pose proof (vo_files base Hbase) as Hlen. pose proof (vo_num_levels base Hbase). unfold new_files.
  destruct (files_ base); cbn [length] in Hlen |- *; [done|]. rewrite length_fmap, length_seqZ. lia.
Qed.

(** Level [l] is sorted if the base level was sorted by the same order. *)
Lemma new_level_sorted l bfs : 0 <= l < num -> LevelFiles base l = Some bfs ->
  StronglySorted (fun a b => order_at l a b = true) bfs ->
  StronglySorted (fun a b => order_at l a b = true) (new_level r (order_at l) l).
Proof.
  intros Hl Hb Hs. destruct (level_parts r w s H l Hl) as (ls & bfs' & Hls & Hb').
  assert (bfs' = bfs) as -> by congruence. rewrite (new_level_eq r _ _ ls bfs Hls Hb).
  exact (kept_sorted r w s l ls bfs H Hls Hb (order_at l) Hkeys Hs).
Qed.

End New.

Lemma cursors_map_spec (cs : list bytes) l k :
  (list_to_map (imap (fun i k => (Z.of_nat i, k)) cs) : gmap Z bytes) !! l = Some k <->
  0 <= l /\ cs !! Z.to_nat l = Some k.
Proof.
  assert (Hfst : (imap (fun i k => (Z.of_nat i, k)) cs).*1 = Z.of_nat <$> seq 0 (length cs)).
  { apply list_eq. intros i. rewrite !list_lookup_fmap, list_lookup_imap.
    destruct (cs !! i) as [x|] eqn:E; simpl.
    - rewrite lookup_seq_lt by (by eapply lookup_lt_Some). done.
    - rewrite (proj2 (lookup_ge_None (seq 0 (length cs)) i)); [done|].
      rewrite length_seq. by apply lookup_ge_None. }
  rewrite <- elem_of_list_to_map.
  2:{ rewrite Hfst. apply NoDup_fmap_2; [apply _|]. apply NoDup_seq. }
  rewrite list_elem_of_lookup. split.
  - intros [i Hi]. rewrite list_lookup_imap in Hi. apply fmap_Some in Hi as (x & Hx & [= -> ->]).
    rewrite Nat2Z.id. split; [lia|done].
  - intros [H0 Hk]. exists (Z.to_nat l). rewrite list_lookup_imap, Hk. simpl. by rewrite Z2Nat.id.
Qed.

(** The cursors of the base with the updates. *)
Lemma saved_cursors r w s cs v : repr r w s -> compact_cursor_ v = compact_cursor_ base ->
  (forall i, cs !! i = match compact_cursor_ v !! i, updated_compact_cursors_ r !! Z.of_nat i with
                       | Some _, Some k => Some k
                       | x, None => x
                       | None, _ => None
                       end) ->
  list_to_map (imap (fun i k => (Z.of_nat i, k)) cs) = lsm_cursors s.
Proof.
  intros H Hv Hcs. destruct (rp_cursors _ _ _ _ _ _ H) as [-> Hr]. apply map_eq. intros l. apply option_eq. intros k.
  rewrite cursors_map_spec, Hcs, Hv, lookup_union_Some_raw. cbn [lsm_of lsm_cursors]. rewrite cursors_map_spec.
  pose proof (vo_cursors base Hbase) as Hlen. destruct (decide (0 <= l)) as [H0|Hneg].
  - rewrite Z2Nat.id by done. destruct (updated_compact_cursors_ r !! l) as [k'|] eqn:Eu.
    + specialize (Hr l k' Eu). destruct (lookup_lt_is_Some_2 (compact_cursor_ base) (Z.to_nat l)) as [x ->]; [lia|].
      split; [intros [_ [= ->]]; by left|]. intros [[= ->]|[? _]]; done.
    + destruct (compact_cursor_ base !! Z.to_nat l); split.
      * intros [_ E]. right. done.
      * intros [?|[_ [_ E]]]; done.
      * intros [_ ?]. done.
      * intros [?|[_ [_ ?]]]; done.
  - split; [lia|]. intros [Hu|[_ [? _]]]; [|lia]. specialize (Hr l k Hu). lia.
Qed.

Lemma new_version_files r w s v0 v : repr r w s -> version_ok v -> num_levels_ v = num ->
  (forall n l f, lsm_files s !! n = Some (l, f) -> l < num) ->
  files_ v = new_files r v0 -> lsm_files (lsm_of v) = lsm_files s.
Proof.
  intros H Hv Hnum Hvalid Hf. apply map_eq. intros n. apply option_eq. intros [l f].
  rewrite lsm_of_files by done. split.
  - intros (p & (H0 & fs & j & Hl & Hj)%on_level_lookup & <- & <-). rewrite Hf in Hl.
    apply new_files_lookup in Hl as [_ ->]. rewrite Z2Nat.id in Hj by done.
    apply (new_level_meta r w s H v0 l). by eapply list_elem_of_lookup_2.
  - intros E. specialize (Hvalid n l f E).
    destruct (new_level_complete r w s H v0 l n f Hvalid E) as (p & Hp & Hn & Hm).
    exists p. split; [|done]. exists (new_level r (order_at r v0 l) l). split; [|done].
    destruct (fr_wf _ _ _ (rp_files _ _ _ _ _ _ H) n l f E) as [H0 _].
    apply LevelFiles_Some. split; [done|]. rewrite Hf. apply new_files_lookup. by rewrite Z2Nat.id.
Qed.

Lemma new_version_blobs bs (l : list BlobFileMetaData) : blobs_sorted l ->
  (forall n b, bs !! n = Some b -> blob_wf n b) ->
  (forall b, b ∈ l <-> bs !! GetBlobFileNumber b = Some b /\ blob_kept bs (GetBlobFileNumber b, b)) ->
  list_to_map ((fun b => (GetBlobFileNumber b, b)) <$> l) = filter (blob_kept bs) bs.
Proof.
  intros Hs Hwf Hl. apply map_eq. intros n. apply option_eq. intros b.
  rewrite map_lookup_filter_Some, <- elem_of_list_to_map, list_elem_of_fmap.
  2:{ rewrite <- list_fmap_compose. by apply (blobs_sorted_NoDup l). }
  split.
  - intros (x & [= -> ->] & Hx). by apply Hl.
  - intros [E Hk]. destruct (Hwf n b E) as [<- _]. exists b. split; [done|]. by apply Hl.
Qed.

(** [SaveTo] into an empty version: it ends, and the version is the state of
    the builder. *)
Lemma SaveTo_spec r w s force requirement : repr r w s ->
  (forall n l f, lsm_files s !! n = Some (l, f) -> keys_ok f) ->
  (forall n l f, lsm_files s !! n = Some (l, f) -> l < num) ->
  let v0 := empty_version force requirement in
  exists v, SaveTo c r (v0, w_refs w) =
              Some (CheckConsistency c v, (v, ref_all (w_refs w) (mjoin (files_ v)))) /\
    files_ v = new_files r v0 /\ version_ok v /\ lsm_of v = lsm_live s /\
    file_locations_ v = ∅ /\ num_levels_ v = num /\ force_consistency_checks_ v = force /\
    epoch_number_requirement_ v = (if num =? 0 then requirement else final_requirement r v0).
Proof.
  intros H Hkeys Hvalid v0. pose proof (vo_cursors base Hbase) as Hlc.
  assert (Hc0 : compact_cursor_ v0 = compact_cursor_ base).
  { unfold v0, empty_version, VersionStorageInfo_make. cbn. rewrite <- Hlc. apply resize_cursors_id. }
  unfold SaveTo. cbn [fst snd]. unfold v0 at 1. rewrite empty_version_consistent. cbn [ok negb].
  destruct (SaveSSTFilesTo_spec r w s H v0 (w_refs w)) as (v1 & Hv1 & Hf1 & Hs1); [done|done|].
  rewrite Hv1. cbn [mbind option_bind fst snd].
  assert (Hr1 : blob_files_ v1 = [] /\ compact_cursor_ v1 = compact_cursor_ base /\ num_levels_ v1 = num /\
            file_locations_ v1 = ∅ /\ force_consistency_checks_ v1 = force /\
            epoch_number_requirement_ v1 = if num =? 0 then requirement else final_requirement r v0).
  { destruct Hs1 as [E1 E2 E3 E4 E5 E6]. rewrite E1, E2, E3, E4, E5, E6. by destruct (num =? 0). }
  destruct Hr1 as (Hb1 & Hc1 & Hn1 & Hl1 & Hfo1 & Hq1).
  destruct (SaveBlobFilesTo_spec r (lsm_blobs s) (rp_blobs _ _ _ _ _ _ H) v1 Hb1) as (bl & Hbl & Hbs & Hbe).
  rewrite Hbl. unfold SaveCompactCursorsTo.
  destruct (save_cursors_spec (map_to_list (updated_compact_cursors_ r)) (v1 <| blob_files_ := bl |>))
    as (cs & Hcs & Hcl & Hck).
  { apply list.Forall_forall. intros [l k] Hin%elem_of_map_to_list. cbn. rewrite Hc1.
    destruct (cr_range _ _ _ (rp_cursors _ _ _ _ _ _ H) l k Hin). unfold slen. rewrite Hlc. lia. }
  rewrite Hcs. cbn [mbind option_bind]. set (v := v1 <| blob_files_ := bl |> <| compact_cursor_ := cs |>).
  exists v. assert (Hfv : files_ v = new_files r v0) by (unfold v; cbn; done).
  assert (Hok : version_ok v).
  { constructor; unfold v; cbn; rewrite ?Hn1, ?Hf1.
    - apply (vo_num_levels base Hbase).
    - apply (new_files_length r).
    - rewrite Hcl. cbn. by rewrite Hc1.
    - by apply (new_files_numbers r w s H).
    - by apply (new_files_keys r w s H).
    - done.
    - apply list.Forall_forall. intros b [Hin _]%Hbe.
      by destruct (br_wf _ _ _ (rp_blobs _ _ _ _ _ _ H) _ _ Hin) as (_ & ?). }
  split; [by rewrite Hfv|]. split; [done|]. split; [done|]. split; [|done].
  assert (E1 : lsm_files (lsm_of v) = lsm_files s) by (by apply (new_version_files r w s v0)).
  assert (E2 : lsm_blobs (lsm_of v) = filter (blob_kept (lsm_blobs s)) (lsm_blobs s)).
  { apply new_version_blobs; [done|apply (br_wf _ _ _ (rp_blobs _ _ _ _ _ _ H))|done]. }
  assert (E3 : lsm_cursors (lsm_of v) = lsm_cursors s).
  { apply (saved_cursors r w s cs v1 H); [done|]. intros i. rewrite Hck by apply NoDup_fst_map_to_list.
    by rewrite list_to_map_to_list. }
  unfold lsm_live. destruct (lsm_of v), s. unfold modify. cbn in *. by subst.
Qed.
End Save.
