(* ===== verification/VersionCheck.v ===== *)
(** * What the consistency checks establish

    [CheckConsistencyDetails] returns OK exactly for the versions in which
    level 0 is in the order of recency, the files of every other level are
    disjoint and go up in keys, every blob file has live data, and the links
    between table files and blob files agree. *)

From stdpp Require Import gmap sorting.
From S2P Require Import Prelude DbFormat Comparator BlobEdit VersionEdit VersionStorage VersionBuilder VersionSpec VersionOrder.

Section Check.

Context (c : Comparator) `{!ComparatorOk c}.

Implicit Types (v : VersionStorageInfo) (m : gmap Z (gset Z)).

(** ** Loops *)

Definition expect_all (fs : list FilePtr) m : gmap Z (gset Z) :=
  fold_left (fun m f => expect_file f m) fs m.

Lemma check_pairs_spec checker f fs m :
  ((check_pairs checker f fs m).1 = OK <-> Sorted (fun a b => checker a b = OK) (f :: fs)) /\
  ((check_pairs checker f fs m).1 = OK -> (check_pairs checker f fs m).2 = expect_all fs m).
Proof.
  revert f m. induction fs as [|g fs IH]; intros f m; cbn [check_pairs].
  { split; [split; [by repeat constructor|done]|done]. }
  destruct (IH g (expect_file g m)) as [IH1 IH2].
  destruct (checker f g) eqn:E; cbn [ok fst snd];
    [|split; [split; [done|intros Hs; apply Sorted_inv in Hs as [_ Hh]; inversion_clear Hh; congruence]|done]..].
  split; [|exact IH2]. rewrite IH1. split.
  - intros Hs. constructor; [done|by constructor].
  - intros Hs. by apply Sorted_inv in Hs as [Hs _].
Qed.

Lemma check_level_spec checker fs m :
  ((CheckConsistencyDetailsForLevel fs checker m).1 = OK <-> Sorted (fun a b => checker a b = OK) fs) /\
  ((CheckConsistencyDetailsForLevel fs checker m).1 = OK ->
   (CheckConsistencyDetailsForLevel fs checker m).2 = expect_all fs m).
Proof.
  destruct fs as [|f fs]; [split; [split; [constructor|done]|done]|].
  apply (check_pairs_spec checker f fs (expect_file f m)).
Qed.

Lemma check_levels_spec l fss m :
  ((check_levels c l fss m).1 = OK <->
   forall i fs, fss !! i = Some fs -> Sorted (fun a b => level_checker c (l + Z.of_nat i) a b = OK) fs) /\
  ((check_levels c l fss m).1 = OK -> (check_levels c l fss m).2 = expect_all (mjoin fss) m).
Proof.
  revert l m. induction fss as [|fs fss IH]; intros l m; cbn [check_levels]; [done|].
  destruct (check_level_spec (level_checker c l) fs m) as [H1 H2].
  destruct (CheckConsistencyDetailsForLevel fs (level_checker c l) m) as [st m'] eqn:E. cbn [fst snd] in H1, H2.
  assert (Hfail : st <> OK -> ~ forall i gs, (fs :: fss) !! i = Some gs ->
            Sorted (fun a b => level_checker c (l + Z.of_nat i) a b = OK) gs).
  { intros Hne Hall. apply Hne, H1. specialize (Hall 0%nat fs eq_refl). by rewrite Z.add_0_r in Hall. }
  destruct st; cbn [ok fst snd]; [|split; [split; [done|intros Hall; by destruct (Hfail ltac:(done) Hall)]|done]..].
  destruct (IH (l + 1) m') as [IH1 IH2]. split.
  - rewrite IH1. split.
    + intros Hall [|i] gs Hi; [injection Hi as <-; rewrite Z.add_0_r; by apply H1|].
      replace (l + Z.of_nat (S i)) with (l + 1 + Z.of_nat i) by lia. by apply Hall.
    + intros Hall i gs Hi. specialize (Hall (S i) gs Hi).
      by replace (l + 1 + Z.of_nat i) with (l + Z.of_nat (S i)) by lia.
  - intros Hok. rewrite (IH2 Hok), H2 by done. unfold expect_all. cbn [mjoin list_join]. by rewrite fold_left_app.
Qed.

(** ** Links *)

Lemma expected_file f m b x : b <> kInvalidBlobFileNumber ->
  x ∈ expected_for (expect_file f m) b <->
  x ∈ expected_for m b \/ (FileNumber f = x /\ oldest_blob_file_number (fp_meta f) = b).
Proof.
  intros Hb. unfold expect_file, UpdateExpectedLinkedSsts.
  destruct (Z.eqb_spec (oldest_blob_file_number (fp_meta f)) kInvalidBlobFileNumber) as [E|E].
  { split; [tauto|]. intros [?|[_ ?]]; [done|congruence]. }
  unfold expected_for at 1. destruct (decide (oldest_blob_file_number (fp_meta f) = b)) as [<-|Hne].
  - rewrite lookup_insert_eq. cbn. rewrite elem_of_union, elem_of_singleton. intuition.
  - rewrite lookup_insert_ne by done. fold (expected_for m b). tauto.
Qed.

Lemma expected_all fs m b x : b <> kInvalidBlobFileNumber ->
  x ∈ expected_for (expect_all fs m) b <->
  x ∈ expected_for m b \/
  exists f, f ∈ fs /\ FileNumber f = x /\ oldest_blob_file_number (fp_meta f) = b.
Proof.
  intros Hb. revert m. induction fs as [|f fs IH]; intros m.
  { cbn. split; [tauto|]. intros [?|(f & Hf & _)]; [done|by apply elem_of_nil in Hf]. }
  change (expect_all (f :: fs) m) with (expect_all fs (expect_file f m)).
  rewrite IH, expected_file by done. setoid_rewrite elem_of_cons. split.
  - intros [[?|[? ?]]|(g & ? & ?)]; [by left|right; exists f; auto|right; exists g; auto].
  - intros [?|(g & [->|?] & ? & ?)]; [by left; left|left; right; auto|right; exists g; auto].
Qed.

Lemma check_blob_files_spec bs m :
  check_blob_files bs m = OK <->
  Forall (fun b => bm_garbage_blob_count_ b < sm_total_blob_count_ (bm_shared_meta_ b) /\
                   bm_linked_ssts_ b = expected_for m (GetBlobFileNumber b)) bs.
Proof.
  induction bs as [|b bs IH]; cbn [check_blob_files]; [split; [constructor|done]|].
  rewrite list.Forall_cons, <- IH. zcase.
  - split; [done|]. intros [[? _] _]. lia.
  - case_bool_decide; cbn [negb]; [tauto|]. split; [done|]. intros [[_ ?] _]. done.
Qed.

(** ** Consistent versions *)

(** Keys as the file has them: well-formed, the smallest first. *)
Definition range_ok (f : FilePtr) : Prop :=
  keys_ok (fp_meta f) /\ IKCompare c (smallest (fp_meta f)) (largest (fp_meta f)) <= 0.

(** All keys of [a] are below those of [b]. *)
Definition below (a b : FilePtr) : Prop :=
  IKCompare c (largest (fp_meta a)) (smallest (fp_meta b)) < 0.

Definition l0_consistent (requirement : EpochNumberRequirement) (fs : list FilePtr) : Prop :=
  match requirement with
  | kMightMissing => StronglySorted (fun a b => NewestFirstBySeqNo a b = true) fs
  | kMustPresent =>
      StronglySorted (fun a b => NewestFirstByEpochNumber a b = true) fs /\
      Sorted (fun a b => epoch_number (fp_meta a) = epoch_number (fp_meta b) -> below a b \/ below b a) fs
  end.

Record consistent v : Prop := {
  cs_l0 : forall fs, LevelFiles v 0 = Some fs -> l0_consistent (epoch_number_requirement_ v) fs;
  cs_levels : forall l fs, 1 <= l -> LevelFiles v l = Some fs -> StronglySorted below fs;
  cs_garbage : forall b, b ∈ blob_files_ v ->
    bm_garbage_blob_count_ b < sm_total_blob_count_ (bm_shared_meta_ b);
  cs_links : links_exact v
}.

Lemma Sorted_strong {A : Type} (R : A -> A -> Prop) (P : A -> Prop) (l : list A) :
  (forall a b d, P a -> P b -> P d -> R a b -> R b d -> R a d) ->
  Forall P l -> Sorted R l -> StronglySorted R l.
Proof.
  intros Ht Hl Hs. induction Hs as [|a l Hs IH Hh]; [constructor|].
  inversion_clear Hl as [|?? Ha Hl']. specialize (IH Hl'). constructor; [done|].
  destruct Hh as [|b l Hab]; [constructor|]. constructor; [done|].
  apply StronglySorted_inv in IH as [_ Hb]. inversion_clear Hl' as [|?? Pb Pl].
  rewrite list.Forall_forall in Hb, Pl |- *. intros x Hx. by apply (Ht a b x); auto.
Qed.

Lemma Sorted_iff {A : Type} (R R' : A -> A -> Prop) (P : A -> Prop) (l : list A) :
  Forall P l -> (forall a b, P a -> P b -> R a b <-> R' a b) -> Sorted R l <-> Sorted R' l.
Proof.
  intros Hl HR. induction Hl as [|a l Ha Hl IH]; [split; constructor|].
  split; intros [Hs Hh]%Sorted_inv; constructor; try tauto; destruct Hh as [|b l Hab]; constructor;
    inversion_clear Hl; by apply HR.
Qed.

Lemma Sorted_strong_iff {A : Type} (R : A -> A -> Prop) (P : A -> Prop) (l : list A) :
  (forall a b d, P a -> P b -> P d -> R a b -> R b d -> R a d) ->
  Forall P l -> Sorted R l <-> StronglySorted R l.
Proof. intros Ht Hl. split; [by apply (Sorted_strong R P)|apply StronglySorted_Sorted]. Qed.

Lemma below_trans a b d : range_ok a -> range_ok b -> range_ok d -> below a b -> below b d -> below a d.
Proof.
  intros [[_ Ha] _] [[Hb Hb'] Hr] [[Hd _] _] H1 H2. unfold below in *.
  apply (IK_lt_trans c _ (largest (fp_meta b))); try done; [|lia|by right].
  apply (IK_trans c _ (smallest (fp_meta b))); try done. lia.
Qed.

Lemma below_smallest a b : range_ok a -> range_ok b -> below a b -> BySmallestKey c a b = true.
Proof.
  intros [[Ha Ha'] Hr] [[Hb _] _] H. unfold below in H. unfold BySmallestKey.
  assert (Hlt : IKCompare c (smallest (fp_meta a)) (smallest (fp_meta b)) < 0).
  { apply (IK_lt_trans c _ (largest (fp_meta a))); try done; [lia|by right]. }
  rewrite (proj2 (Z.eqb_neq _ 0)) by lia. cbn [negb]. by apply Z.ltb_lt.
Qed.

Lemma level_checker_spec l a b : range_ok a -> range_ok b -> level_checker c l a b = OK <-> below a b.
Proof.
  intros Ha Hb. unfold level_checker, below. destruct (BySmallestKey c a b) eqn:E; cbn [negb].
  - zcase; [|done]. split; [done|lia].
  - split; [done|]. intros H. by rewrite (below_smallest a b Ha Hb H) in E.
Qed.

Lemma l0_checker_spec requirement fs : Forall range_ok fs ->
  Sorted (fun a b => l0_checker c requirement a b = OK) fs <-> l0_consistent requirement fs.
Proof.
  intros Hr. assert (Hk : Forall (fun f => keys_ok (fp_meta f)) fs).
  { apply (list.Forall_impl _ _ _ Hr). by intros f [? _]. }
  destruct requirement; cbn [l0_consistent].
  - rewrite <- (Sorted_strong_iff _ _ _ (fo_trans NewestFirstBySeqNo) Hk).
    apply (Sorted_iff _ _ _ _ Hr). intros a b _ _. unfold l0_checker.
    by destruct (NewestFirstBySeqNo a b).
  - rewrite <- (Sorted_strong_iff _ _ _ (fo_trans NewestFirstByEpochNumber) Hk).
    assert (Hpair : forall a b, range_ok a -> range_ok b -> l0_checker c kMustPresent a b = OK <->
              NewestFirstByEpochNumber a b = true /\
              (epoch_number (fp_meta a) = epoch_number (fp_meta b) -> below a b \/ below b a)).
    { intros a b [[Ha Ha'] _] [[Hb Hb'] _]. unfold l0_checker, below.
      pose proof (IK_flip c _ _ Ha Hb') as F1. pose proof (IK_flip c _ _ Hb' Ha) as F2.
      destruct (Z.eqb_spec (epoch_number (fp_meta a)) (epoch_number (fp_meta b))) as [Ee|Ee];
        destruct (Z.leb_spec (IKCompare c (smallest (fp_meta a)) (largest (fp_meta b))) 0);
        destruct (Z.leb_spec 0 (IKCompare c (largest (fp_meta a)) (smallest (fp_meta b))));
        destruct (NewestFirstByEpochNumber a b); cbn [andb negb]; (split; [try done|]); try done;
        try (intros _; split; [done|]; intros ?; first [done|left; lia|right; lia]);
        intros [? Hor]; first [done|destruct (Hor Ee); lia]. }
    rewrite (Sorted_iff _ _ _ _ Hr Hpair). clear. split.
    + intros Hs. split; (induction Hs as [|a l Hs IH Hh]; constructor; [done|]; destruct Hh; constructor; tauto).
    + intros [H1 H2]. induction H1 as [|a l Hs IH Hh]; constructor; apply Sorted_inv in H2 as [H2 Hh2]; [auto|].
      destruct Hh; constructor. inversion_clear Hh2. tauto.
Qed.

Lemma level_ranges v l fs :
  Forall range_ok (mjoin (files_ v)) -> LevelFiles v l = Some fs -> Forall range_ok fs.
Proof.
  intros Hr Hl. rewrite list.Forall_forall in Hr |- *. intros f Hf. apply Hr, (on_level_concat v l). by exists fs.
Qed.

(** The links the walk over the levels collects are the ones of the version's
    files. *)
Lemma expected_on_level v b n : b <> kInvalidBlobFileNumber ->
  n ∈ expected_for (expect_all (mjoin (files_ v)) ∅) b <->
  exists l f, on_level v l f /\ FileNumber f = n /\ oldest_blob_file_number (fp_meta f) = b.
Proof.
  intros Hb. rewrite expected_all by done. unfold expected_for at 1. rewrite lookup_empty. cbn. split.
  - intros [?%elem_of_empty|(f & (fs & Hf & [i Hi]%list_elem_of_lookup)%list_elem_of_join & Hrest)]; [done|].
    exists (Z.of_nat i), f. split; [|done]. exists fs. split; [|done].
    apply LevelFiles_Some. rewrite Nat2Z.id. split; [lia|done].
  - intros (l & f & Hf%on_level_concat & Hrest). right. by exists f.
Qed.

Lemma blobs_exact v : version_ok v ->
  check_blob_files (blob_files_ v) (expect_all (mjoin (files_ v)) ∅) = OK <->
  (forall b, b ∈ blob_files_ v -> bm_garbage_blob_count_ b < sm_total_blob_count_ (bm_shared_meta_ b)) /\
  links_exact v.
Proof.
  intros Hv. rewrite check_blob_files_spec, list.Forall_forall. unfold links_exact.
  assert (Hb : forall b, b ∈ blob_files_ v ->
            (bm_linked_ssts_ b = expected_for (expect_all (mjoin (files_ v)) ∅) (GetBlobFileNumber b) <->
             forall n, n ∈ bm_linked_ssts_ b <-> exists l f, on_level v l f /\ FileNumber f = n /\
               oldest_blob_file_number (fp_meta f) = GetBlobFileNumber b)).
  { intros b Hin. pose proof (vo_blob_words v Hv) as Hw. rewrite list.Forall_forall in Hw.
    destruct (Hw b Hin) as [H0 _]. rewrite set_eq. setoid_rewrite expected_on_level; [done|].
    unfold kInvalidBlobFileNumber. lia. }
  split.
  - intros Hall. split; [intros b Hin; by apply Hall|]. intros b Hin. apply Hb; [done|]. by apply Hall.
  - intros [H1 H2] b Hin. split; [by apply H1|]. apply Hb; [done|]. by apply H2.
Qed.

Lemma sorted_levels_exact v l0 fss : Forall range_ok (mjoin (files_ v)) -> files_ v = l0 :: fss ->
  (forall i fs, fss !! i = Some fs ->
     Sorted (fun a b => level_checker c (1 + Z.of_nat i) a b = OK) fs) <->
  (forall l fs, 1 <= l -> LevelFiles v l = Some fs -> StronglySorted below fs).
Proof.
  intros Hr Ef.
  assert (Hone : forall l fs, 1 <= l -> LevelFiles v l = Some fs ->
            Sorted (fun a b => level_checker c l a b = OK) fs <-> StronglySorted below fs).
  { intros l fs Hl Hfs. pose proof (level_ranges v l fs Hr Hfs) as Hok.
    rewrite <- (Sorted_strong_iff below range_ok fs below_trans Hok).
    apply (Sorted_iff _ _ range_ok); [done|]. intros a b Ha Hb. by apply level_checker_spec. }
  assert (Hlook : forall i, LevelFiles v (1 + Z.of_nat i) = fss !! i).
  { intros i. unfold LevelFiles. rewrite Ef. rewrite (proj2 (Z.ltb_ge _ _)) by lia.
    by replace (Z.to_nat (1 + Z.of_nat i)) with (S i) by lia. }
  split.
  - intros Hall l fs Hl Hfs. apply (Hone l fs Hl Hfs).
    replace l with (1 + Z.of_nat (Z.to_nat (l - 1))) in Hfs |- * by lia. rewrite Hlook in Hfs. by apply Hall.
  - intros Hall i fs Hi. rewrite <- Hlook in Hi. apply Hone; [lia|done|]. apply (Hall (1 + Z.of_nat i)); [lia|done].
Qed.

(** The check is exact. *)
Lemma check_details_exact v : version_ok v -> Forall range_ok (mjoin (files_ v)) ->
  CheckConsistencyDetails c v = OK <-> consistent v.
Proof.
  intros Hv Hr. pose proof (blobs_exact v Hv) as Hblobs.
  unfold CheckConsistencyDetails. destruct (files_ v) as [|l0 fss] eqn:Ef.
  { change (expect_all (mjoin []) ∅) with (∅ : gmap Z (gset Z)) in Hblobs. rewrite Hblobs. split.
    - intros [H1 H2]. constructor; [| |done|done]; intros; exfalso;
        unfold LevelFiles in *; rewrite Ef in *; by destruct (_ <? _).
    - intros []. done. }
  assert (H0 : LevelFiles v 0 = Some l0) by (unfold LevelFiles; rewrite Ef; done).
  rewrite <- Ef in Hr.
  destruct (check_level_spec (l0_checker c (epoch_number_requirement_ v)) l0 ∅) as [H1 H2].
  rewrite (l0_checker_spec _ _ (level_ranges v 0 l0 Hr H0)) in H1.
  destruct (CheckConsistencyDetailsForLevel l0 _ ∅) as [st m] eqn:E1. cbn [fst snd] in H1, H2.
  destruct (check_levels_spec 1 fss m) as [H3 H4]. destruct (check_levels c 1 fss m) as [st' m'] eqn:E2.
  cbn [fst snd] in H3, H4. rewrite (sorted_levels_exact v l0 fss Hr Ef) in H3.
  assert (Hm : st = OK -> st' = OK -> m' = expect_all (mjoin (l0 :: fss)) ∅).
  { intros E E'. rewrite (H4 E'), (H2 E). unfold expect_all. cbn [mjoin list_join]. by rewrite fold_left_app. }
  destruct (decide (st = OK)) as [->|Hne].
  - cbn [ok negb]. destruct (decide (st' = OK)) as [->|Hne'].
    + cbn [ok negb]. rewrite (Hm eq_refl eq_refl), Hblobs. split.
      * intros [? ?]. constructor; try done; [|by apply H3].
        intros fs Hfs. assert (fs = l0) as -> by congruence. by apply H1.
      * by intros [].
    + split; [by destruct st'|]. intros []. destruct Hne'. by apply H3.
  - split; [by destruct st|]. intros []. destruct Hne. apply H1. auto.
Qed.
End Check.
