(* ===== verification/VersionCorrect.v ===== *)
(** * Building a version from edits

    What a column family does with the edits of a manifest record: a builder on
    the current version applies them, a new version is saved, the builder is
    destroyed. The new version is the one the edits describe ([VersionSpec]),
    and can be the base of the next builder. *)

From stdpp Require Import gmap sorting.
From S2P Require Import Prelude Records StdMap DbFormat Comparator BlobEdit VersionEdit VersionStorage VersionBuilder VersionSpec VersionApply VersionOrder VersionSave VersionCheck.

(** ** Files of edits *)

(** What holds of the files of a state and of the files edits add holds of the
    files after the edits. *)
Section Files.

Context (P : Z * FileMetaData -> Prop).

Definition all_files (s : Lsm) : Prop := forall n x, lsm_files s !! n = Some x -> P x.

Lemma lsm_all_keeps {A : Type} (Q : A -> Prop) (f : Lsm -> A -> option Lsm) :
  (forall s x s', all_files s -> Q x -> f s x = Some s' -> all_files s') ->
  forall l s s', all_files s -> Forall Q l -> lsm_all f s l = Some s' -> all_files s'.
Proof.
  intros Hf l. induction l as [|x l IH]; intros s s' Hs Hl; cbn [lsm_all]; [by intros [= <-]|].
  inversion_clear Hl as [|?? Hx Hl']. intros (s1 & E & H)%bind_Some. apply (IH s1); [|done|done].
  by apply (Hf s x).
Qed.

Lemma lsm_apply_keeps num e s s' : all_files s -> Forall P (new_files_ e) ->
  lsm_apply num s e = Some s' -> all_files s'.
Proof.
  intros Hs He. unfold lsm_apply.
  intros (s1 & E1 & (s2 & E2 & (s3 & E3 & (s4 & E4 & E5)%bind_Some)%bind_Some)%bind_Some)%bind_Some.
  apply (lsm_all_keeps (fun _ => True)) in E1; [|clear|done|by apply list.Forall_true].
  2:{ intros s x s' Hs _. unfold lsm_add_blob. destruct (_ !! _); [done|]. by intros [= <-]. }
  apply (lsm_all_keeps (fun _ => True)) in E2; [|clear|done|by apply list.Forall_true].
  2:{ intros s x s' Hs _. unfold lsm_garbage. intros (b & _ & E)%bind_Some.
      destruct (_ || _); [done|]. by injection E as <-. }
  apply (lsm_all_keeps (fun _ => True)) in E3; [|clear|done|by apply list.Forall_true].
  2:{ intros s [l n] s' Hs _. unfold lsm_delete. intros ([l' f] & _ & E)%bind_Some.
      destruct (l =? l'); [|done]. injection E as <-. intros n' x Hx.
      assert (Hx' : delete n (lsm_files s) !! n' = Some x) by (by destruct (num <=? l)).
      apply lookup_delete_Some in Hx' as [_ Hx']. by apply (Hs n'). }
  apply (lsm_all_keeps P) in E4; [|clear|done|done].
  2:{ intros s [l f] s' Hs HP. unfold lsm_add. destruct (_ !! _); [done|]. intros [= <-] n' x Hx.
      assert (Hx' : <[GetNumber (fd f) := (l, f)]> (lsm_files s) !! n' = Some x) by (by destruct (num <=? l)).
      apply lookup_insert_Some in Hx' as [[_ <-]|[_ Hx']]; [done|by apply (Hs n')]. }
  apply (lsm_all_keeps (fun _ => True)) in E5; [done|clear|done|by apply list.Forall_true].
  intros s [l k] s' Hs _. unfold lsm_cursor. destruct (l <? 0); [done|]. intros [= <-].
  by destruct (l <? num).
Qed.

Lemma lsm_apply_all_keeps num es s s' : all_files s -> Forall (fun e => Forall P (new_files_ e)) es ->
  lsm_all (lsm_apply num) s es = Some s' -> all_files s'.
Proof.
  intros Hs Hes. apply (lsm_all_keeps (fun e => Forall P (new_files_ e))); [|done|done].
  intros s1 e s2 H1 He. by apply lsm_apply_keeps.
Qed.

End Files.

(** ** A version that can be built on *)

Section Correct.

Context (c : Comparator) `{!ComparatorOk c}.

(** A file as it comes in an edit: keys of an internal key's length, smallest
    first. *)
Definition meta_ok (x : Z * FileMetaData) : Prop :=
  keys_ok x.2 /\ IKCompare c (smallest x.2) (largest x.2) <= 0.

(** The files of a version are distinct live objects, its index is up to date
    and it is consistent. *)
Record ready (v : VersionStorageInfo) (refs : FileRefs) : Prop := {
  rd_version : version_ok v;
  rd_ranges : Forall (range_ok c) (mjoin (files_ v));
  rd_addresses : NoDup (fp_addr <$> mjoin (files_ v));
  rd_indexed : indexed v;
  rd_consistent : consistent c v;
  rd_live : forall l f, on_level v l f -> is_Some (refs !! fp_addr f)
}.

Lemma ready_checked v refs : ready v refs -> CheckConsistency c v = OK.
Proof.
  intros [Hv Hr _ _ Hc _]. unfold CheckConsistency. destruct (negb _); [done|].
  by rewrite (proj2 (check_details_exact c v Hv Hr) Hc).
Qed.

Lemma ready_files v refs : ready v refs -> all_files meta_ok (lsm_of v).
Proof.
  intros Hr n [l m] E. apply lsm_of_files in E as (f & Hf & _ & <-); [|apply (rd_version _ _ Hr)].
  pose proof (rd_ranges _ _ Hr) as Hall. rewrite list.Forall_forall in Hall.
  by apply Hall, (on_level_concat v l).
Qed.

(** Edits as they can be applied. *)
Definition edits_ok (es : list VersionEdit) : Prop :=
  Forall edit_ranges es /\ Forall (fun e => Forall meta_ok (new_files_ e)) es.

(** A level of the new version comes back in keys. *)
Lemma version_ranges v s : version_ok v -> lsm_files (lsm_of v) = lsm_files s -> all_files meta_ok s ->
  Forall (range_ok c) (mjoin (files_ v)).
Proof.
  intros Hv E Hs. apply list.Forall_forall. intros f (fs & Hf & [i Hi]%list_elem_of_lookup)%list_elem_of_join.
  apply (Hs (FileNumber f) (Z.of_nat i, fp_meta f)). rewrite <- E. apply lsm_of_files; [done|].
  exists f. split; [|done]. exists fs. split; [|done]. apply LevelFiles_Some. rewrite Nat2Z.id. split; [lia|done].
Qed.

(** A new version is ready once its files are indexed. *)
Lemma ready_indexed v refs : version_ok v -> Forall (range_ok c) (mjoin (files_ v)) ->
  NoDup (fp_addr <$> mjoin (files_ v)) -> file_locations_ v = ∅ -> consistent c v ->
  (forall a, a ∈ fp_addr <$> mjoin (files_ v) -> is_Some (refs !! a)) ->
  ready (GenerateFileLocationIndex v) refs.
Proof.
  intros Hv Hr Ha Hl Hc Hlive. constructor; try done.
  - by destruct Hv.
  - by apply GenerateFileLocationIndex_indexed.
  - by destruct Hc.
  - intros l f Hf. apply Hlive, list_elem_of_fmap_2. by apply (on_level_concat v l).
Qed.

(** ** The builder and its version *)

Section Build.

Context {M : Type} `{!CacheReservationManager M} (object_usage : Z).
Context (base : VersionStorageInfo) (refs0 : FileRefs) (Hready : ready base refs0) (managed : bool).

Abbreviation num := (num_levels_ base).
Abbreviation represents := (repr (M := M) base refs0 managed).

Implicit Types (w : World M) (r : Rep).

Lemma built_repr w : w_refs w = refs0 -> (managed = false -> file_metadata_cache_res_mgr_ w = None) ->
  represents (Rep_new base) w (lsm_of base).
Proof.
  intros Hw Hm. destruct Hready as [Hv Hr _ Hi Hc _]. apply repr_new; try done. apply Hc.
Qed.

Lemma built_refines w es : w_refs w = refs0 ->
  (managed = false -> file_metadata_cache_res_mgr_ w = None) -> Forall edit_ranges es ->
  refines base refs0 managed (for_each (Apply c object_usage) (Rep_new base, w) es)
    (lsm_all (lsm_apply num) (lsm_of base) es).
Proof.
  intros Hw Hm Hes. destruct Hready as [Hv Hr _ Hi Hc _]. apply Apply_all_refines; try done.
  - by apply (ready_checked base refs0).
  - by apply built_repr.
Qed.

Section New.

Context r w s (H : represents r w s) (Hfiles : all_files meta_ok s).
Context (Hvalid : forall n l f, lsm_files s !! n = Some (l, f) -> l < num).
Context (force : bool) (requirement : EpochNumberRequirement).

Abbreviation v0 := (empty_version base force requirement).

Lemma files_keys n l f : lsm_files s !! n = Some (l, f) -> keys_ok f.
Proof. intros E. by destruct (Hfiles n (l, f) E). Qed.

(** A file of the new version is an added one or one of the base. *)
Lemma new_file_origin p : p ∈ mjoin (new_files c base r v0) ->
  (exists l, added_at r l (FileNumber p) p) \/ (exists l, on_level base l p).
Proof.
  intros (fs & Hp & [i Hi]%list_elem_of_lookup)%list_elem_of_join.
  destruct Hready as [Hv _ _ Hidx Hc Hlive]. apply new_files_lookup in Hi as [Hi ->]; [|done].
  apply new_level_parts in Hp as (ls & bfs & Hls & Hb & Hp).
  eapply kept_elem in Hp; [|done..]. unfold overlay in Hp.
  destruct (added_files ls !! FileNumber p) as [g|] eqn:Eg.
  - injection Hp as ->. left. exists (Z.of_nat i). by exists ls.
  - case_decide; [done|]. apply base_file_Some in Hp as [Hp _]; [|done]. right. by exists (Z.of_nat i).
Qed.

Lemma new_addresses : NoDup (fp_addr <$> mjoin (new_files c base r v0)).
Proof.
  destruct Hready as [Hv _ Haddr Hidx Hc Hlive].
  apply NoDup_fmap_2_strong.
  2:{ eapply NoDup_fmap_1, (new_files_numbers c base refs0 managed Hv Hlive r w s H). }
  intros p q Hp Hq E. destruct H as [Hf _ _ _ _ Hh _].
  destruct (new_file_origin p Hp) as [[l Hl]|[l Hl]], (new_file_origin q Hq) as [[l' Hl']|[l' Hl']].
  - destruct (hr_inj _ _ _ Hh _ _ _ _ _ _ Hl Hl' E) as [-> En].
    destruct Hl as (ls & Hls & Hp'), Hl' as (ls' & Hls' & Hq'). congruence.
  - by destruct (added_not_base base refs0 managed Hlive r w s l (FileNumber p) p l' q H).
  - by destruct (added_not_base base refs0 managed Hlive r w s l' (FileNumber q) q l p H).
  - apply on_level_concat in Hl, Hl'.
    apply list_elem_of_lookup in Hl as [i Hi], Hl' as [j Hj].
    assert (i = j) as ->; [|congruence].
    eapply (NoDup_lookup _ _ _ (fp_addr q) Haddr); rewrite list_lookup_fmap; [by rewrite Hi, <- E|by rewrite Hj].
Qed.

(** *** References *)

Lemma ref_all_lookup refs fs a : NoDup (fp_addr <$> fs) ->
  ref_all refs fs !! a =
  if decide (a ∈ fp_addr <$> fs) then Some (s32 (default 0 (refs !! a) + 1)) else refs !! a.
Proof.
  revert refs. induction fs as [|f fs IH]; intros refs Hn.
  { rewrite decide_False; [done|]. apply not_elem_of_nil. }
  rewrite fmap_cons in Hn |- *. apply list.NoDup_cons in Hn as [Hf Hn].
  change (ref_all refs (f :: fs)) with (ref_all (<[fp_addr f := s32 (default 0 (refs !! fp_addr f) + 1)]> refs) fs).
  rewrite IH by done. destruct (decide (a = fp_addr f)) as [->|Hne].
  - rewrite decide_False, decide_True by (done || by left). apply lookup_insert_eq.
  - rewrite lookup_insert_ne by done. destruct (decide (a ∈ fp_addr <$> fs)) as [Hin|Hin].
    + rewrite decide_True; [done|]. by right.
    + rewrite decide_False; [done|]. rewrite elem_of_cons. tauto.
Qed.

(** Giving back a reference that is there. *)
Lemma UnrefFile_spec w1 p n : w_refs w1 !! fp_addr p = Some n -> 1 <= n < 2 ^ 31 ->
  exists w', UnrefFile object_usage w1 p = Some w' /\
    w_refs w' = (if n =? 1 then delete (fp_addr p) (w_refs w1) else <[fp_addr p := n - 1]> (w_refs w1)).
Proof.
  intros E Hn. zcase.
  - subst n. destruct (UnrefFile_last object_usage w1 p E) as (w' & Hw' & Hr & _). eauto.
  - unfold UnrefFile, file_unref. rewrite E. cbn [mbind option_bind].
    rewrite s32_id by (unfold is_s32; lia). rewrite (proj2 (Z.leb_gt _ _)) by lia. eexists. by split.
Qed.

Definition given_back (n : Z) : option Z := if n =? 1 then None else Some (n - 1).

Lemma UnrefFiles_spec ps w1 : NoDup (fp_addr <$> ps) ->
  (forall p, p ∈ ps -> exists n, w_refs w1 !! fp_addr p = Some n /\ 1 <= n < 2 ^ 31) ->
  exists w', UnrefFiles object_usage w1 ps = Some w' /\
    forall a, w_refs w' !! a =
      if decide (a ∈ fp_addr <$> ps) then w_refs w1 !! a ≫= given_back else w_refs w1 !! a.
Proof.
  revert w1. induction ps as [|p ps IH]; intros w1 Hn Hps.
  { exists w1. split; [done|]. intros a. rewrite decide_False; [done|]. apply not_elem_of_nil. }
  rewrite fmap_cons in Hn |- *. apply list.NoDup_cons in Hn as [Hp Hn].
  destruct (Hps p) as (n & En & Hr); [by left|]. destruct (UnrefFile_spec w1 p n En Hr) as (w2 & E2 & Hw2).
  assert (Hsame : forall a, a <> fp_addr p -> w_refs w2 !! a = w_refs w1 !! a).
  { intros a Ha. rewrite Hw2. destruct (n =? 1); [by apply lookup_delete_ne|by apply lookup_insert_ne]. }
  destruct (IH w2 Hn) as (w' & E' & Hw').
  { intros q Hq. rewrite Hsame; [apply Hps; by right|]. intros Ea. apply Hp. rewrite <- Ea. by apply list_elem_of_fmap_2. }
  exists w'. split; [cbn; by rewrite E2|]. intros a. rewrite Hw'. destruct (decide (a = fp_addr p)) as [->|Ha].
  - rewrite decide_False, decide_True by (done || by left). rewrite En, Hw2. cbn. unfold given_back.
    destruct (n =? 1); [apply lookup_delete_eq|apply lookup_insert_eq].
  - rewrite Hsame by done. destruct (decide (a ∈ fp_addr <$> ps)) as [Hin|Hin].
    + rewrite decide_True; [done|]. by right.
    + rewrite decide_False; [done|]. rewrite elem_of_cons. tauto.
Qed.

Lemma UnrefFiles_app ps qs w1 :
  UnrefFiles object_usage w1 (ps ++ qs) = (w2 ← UnrefFiles object_usage w1 ps; UnrefFiles object_usage w2 qs).
Proof.
  revert w1. induction ps as [|p ps IH]; intros w1; [done|]. cbn. destruct (UnrefFile _ w1 p); cbn; [apply IH|done].
Qed.

Definition added_list (lss : list LevelState) : list FilePtr :=
  mjoin ((fun ls => (map_to_list (added_files ls)).*2) <$> lss).

Lemma destroy_levels_eq lss w1 :
  destroy_levels object_usage w1 lss = UnrefFiles object_usage w1 (added_list lss).
Proof.
  revert w1. induction lss as [|ls lss IH]; intros w1; [done|].
  change (added_list (ls :: lss)) with ((map_to_list (added_files ls)).*2 ++ added_list lss).
  rewrite UnrefFiles_app. cbn [destroy_levels]. destruct (UnrefFiles _ w1 _); cbn; [apply IH|done].
Qed.

Lemma added_list_elem p : p ∈ added_list (levels_ r) <-> exists l n, added_at r l n p.
Proof.
  unfold added_list. rewrite list_elem_of_join. split.
  - intros (ps & Hp & Hps). apply list_elem_of_fmap in Hps as (ls & -> & [i Hi]%list_elem_of_lookup).
    apply added_elem in Hp as [n Hn]. exists (Z.of_nat i), n, ls. split; [|done].
    unfold level_state. rewrite (proj2 (Z.ltb_ge _ _)), Nat2Z.id by lia. done.
  - intros (l & n & ls & Hls & Hn). exists (map_to_list (added_files ls)).*2. split; [apply added_elem; eauto|].
    apply list_elem_of_fmap. exists ls. split; [done|]. unfold level_state in Hls. destruct (l <? 0); [done|].
    by eapply list_elem_of_lookup_2.
Qed.

Lemma added_list_addresses : NoDup (fp_addr <$> added_list (levels_ r)).
Proof.
  pose proof (rp_heap _ _ _ _ _ _ H) as Hh. apply NoDup_join.
  - intros i ps Hi. rewrite list_lookup_fmap in Hi. apply fmap_Some in Hi as (ls & Hi & ->).
    assert (Hls : level_state r (Z.of_nat i) = Some ls).
    { unfold level_state. rewrite (proj2 (Z.ltb_ge _ _)), Nat2Z.id by lia. done. }
    rewrite <- list_fmap_compose. apply NoDup_fmap_2_strong; [|apply NoDup_map_to_list].
    intros [n p] [n' p'] Hp%elem_of_map_to_list Hp'%elem_of_map_to_list E. cbn in E.
    destruct (hr_inj _ _ _ Hh (Z.of_nat i) n p (Z.of_nat i) n' p') as [_ ->]; [by exists ls|by exists ls|done|].
    congruence.
  - intros i j ps qs p q Hi Hj Hp Hq E. rewrite list_lookup_fmap in Hi, Hj.
    apply fmap_Some in Hi as (ls & Hi & ->), Hj as (ls' & Hj & ->).
    apply added_elem in Hp as [n Hn], Hq as [n' Hn'].
    destruct (hr_inj _ _ _ Hh (Z.of_nat i) n p (Z.of_nat j) n' q) as [E' _]; [| |done|lia].
    + exists ls. split; [|done]. unfold level_state. rewrite (proj2 (Z.ltb_ge _ _)), Nat2Z.id by lia. done.
    + exists ls'. split; [|done]. unfold level_state. rewrite (proj2 (Z.ltb_ge _ _)), Nat2Z.id by lia. done.
Qed.

Lemma added_kept l n p : added_at r l n p -> p ∈ mjoin (new_files c base r v0).
Proof.
  intros (ls & Hls & Hp). pose proof (rp_files _ _ _ _ _ _ H) as Hf.
  destruct (fr_added _ _ _ Hf l ls n p Hls Hp) as [Hn _].
  pose proof (level_state_range base r l ls (fr_length _ _ _ Hf) Hls) as Hl.
  destruct Hready as [Hv _ _ _ _ Hlive].
  destruct (level_parts base refs0 managed Hv r w s H l Hl) as (ls' & bfs & Hls' & Hb).
  assert (ls' = ls) as -> by congruence. apply list_elem_of_join.
  exists (new_level base r (order_at c r v0 l) l). split.
  - rewrite (new_level_eq base r _ l ls bfs Hls Hb). eapply kept_elem; [done..|].
    unfold overlay. rewrite Hn. by rewrite Hp.
  - apply (list_elem_of_lookup_2 _ (Z.to_nat l)). apply new_files_lookup; [done|].
    rewrite Z2Nat.id by lia. split; [lia|done].
Qed.

(** After the destructor of the builder the files of the new version have one
    more reference than before the builder, new files their first, and no other
    file changed. *)
Lemma built_references released manager :
  exists w', Rep_destroy object_usage r
      (mkWorld (ref_all (w_refs w) (mjoin (new_files c base r v0))) released manager) = Some w' /\
    forall a, w_refs w' !! a =
      if decide (a ∈ fp_addr <$> mjoin (new_files c base r v0)) then Some (s32 (default 0 (refs0 !! a) + 1))
      else refs0 !! a.
Proof.
  pose proof (rp_heap _ _ _ _ _ _ H) as Hh. unfold Rep_destroy. rewrite destroy_levels_eq.
  assert (Hadd : forall p, p ∈ added_list (levels_ r) -> fp_addr p ∈ fp_addr <$> mjoin (new_files c base r v0) /\
            refs0 !! fp_addr p = None /\ w_refs w !! fp_addr p = Some 1).
  { intros p (l & n & Hp)%added_list_elem. destruct (hr_added _ _ _ Hh l n p Hp). split; [|done].
    by eapply list_elem_of_fmap_2, added_kept. }
  destruct (UnrefFiles_spec (added_list (levels_ r))
    (mkWorld (ref_all (w_refs w) (mjoin (new_files c base r v0))) released manager)) as (w' & Hw' & Hr).
  { apply added_list_addresses. }
  { intros p Hp. destruct (Hadd p Hp) as (Hin & _ & E). cbn [w_refs]. exists 2.
    rewrite ref_all_lookup, decide_True, E by (done || apply new_addresses). split; [done|lia]. }
  exists w'. split; [done|]. intros a. rewrite Hr. cbn [w_refs].
  rewrite ref_all_lookup by apply new_addresses. destruct (decide (a ∈ fp_addr <$> added_list _)) as [Ha|Ha].
  - apply list_elem_of_fmap in Ha as (p & -> & Hp). destruct (Hadd p Hp) as (Hin & E0 & E).
    rewrite !decide_True by done. by rewrite E0, E.
  - rewrite (hr_other _ _ _ Hh); [done|]. intros l n p Hp <-. apply Ha, list_elem_of_fmap_2.
    apply added_list_elem. eauto.
Qed.

(** A builder that is destroyed without saving leaves the references as they
    were, and its files are freed. *)
Lemma dropped_references :
  exists w', Rep_destroy object_usage r w = Some w' /\ w_refs w' = refs0.
Proof.
  pose proof (rp_heap _ _ _ _ _ _ H) as Hh. unfold Rep_destroy. rewrite destroy_levels_eq.
  assert (Hadd : forall p, p ∈ added_list (levels_ r) ->
            refs0 !! fp_addr p = None /\ w_refs w !! fp_addr p = Some 1).
  { intros p (l & n & Hp)%added_list_elem. by destruct (hr_added _ _ _ Hh l n p Hp). }
  destruct (UnrefFiles_spec (added_list (levels_ r)) w) as (w' & Hw' & Hr).
  { apply added_list_addresses. }
  { intros p Hp. destruct (Hadd p Hp) as [_ E]. exists 1. split; [done|lia]. }
  exists w'. split; [done|]. apply map_eq. intros a. rewrite Hr.
  destruct (decide (a ∈ fp_addr <$> added_list _)) as [Ha|Ha].
  - apply list_elem_of_fmap in Ha as (p & -> & Hp). destruct (Hadd p Hp) as [E0 E]. by rewrite E0, E.
  - apply (hr_other _ _ _ Hh). intros l n p Hp <-. apply Ha, list_elem_of_fmap_2. apply added_list_elem. eauto.
Qed.

(** *** The new version *)

(** The next builder can start from the new version once its files are indexed,
    if the version is consistent. *)
Lemma saved_version : exists v refs,
  SaveTo c r (v0, w_refs w) = Some (CheckConsistency c v, (v, refs)) /\
  files_ v = new_files c base r v0 /\ refs = ref_all (w_refs w) (mjoin (files_ v)) /\
  version_ok v /\ lsm_of v = lsm_live s /\ num_levels_ v = num /\
  epoch_number_requirement_ v = (if num =? 0 then requirement else final_requirement r v0) /\
  Forall (range_ok c) (mjoin (files_ v)) /\
  (forall refs', consistent c v -> (forall a, a ∈ fp_addr <$> mjoin (files_ v) -> is_Some (refs' !! a)) ->
    ready (GenerateFileLocationIndex v) refs').
Proof.
  destruct Hready as [Hv _ _ Hidx Hc Hlive].
  destruct (SaveTo_spec c base refs0 managed Hv Hidx (cs_links _ _ Hc) Hlive r w s force requirement H)
    as (v & Hst & Hf & Hvok & Hlsm & Hloc & Hnum & _ & Hreq); [exact files_keys|exact Hvalid|].
  exists v, (ref_all (w_refs w) (mjoin (files_ v))). split_and!; try done.
  - apply (version_ranges v s); [done| |done]. by rewrite Hlsm.
  - intros refs' Hcv Hlive'. apply ready_indexed; try done.
    + apply (version_ranges v s); [done| |done]. by rewrite Hlsm.
    + rewrite Hf. apply new_addresses.
Qed.

(** *** Levels *)

Lemma no_missing_epochs v n : files_ v = replicate n [] -> HasMissingEpochNumber v = false.
Proof. unfold HasMissingEpochNumber. intros ->. by induction n. Qed.

Lemma final_requirement_empty v n : files_ v = replicate n [] ->
  final_requirement r v = kMightMissing <->
  epoch_number_requirement_ v = kMightMissing /\
  exists l k p, added_at r l k p /\ epoch_number (fp_meta p) = kUnknownEpochNumber.
Proof.
  intros Hv. unfold final_requirement, PromoteEpochNumberRequirementIfNeeded.
  rewrite (no_missing_epochs v n Hv).
  destruct (epoch_number_requirement_ v) eqn:Er; [|split; [done|by intros [? _]]].
  destruct (existsb _ (levels_ r)) eqn:Eb.
  - split; [|by intros _]. intros _. split; [done|].
    apply existsb_exists in Eb as (ls & Hls & ([k p] & Hp & E)%existsb_exists). apply list_elem_of_In in Hls, Hp.
    destruct (proj1 (added_list_elem p)) as (l & k' & Hl); [|exists l, k', p; split; [done|cbn in E; lia]].
    apply list_elem_of_join. exists (map_to_list (added_files ls)).*2.
    split; [by apply (list_elem_of_fmap_2 snd _ (k, p))|]. apply list_elem_of_fmap. by exists ls.
  - split; [done|]. intros [_ (l & k & p & (ls & Hls & Hp) & E)]. rewrite <- not_true_iff_false in Eb.
    destruct Eb. apply existsb_exists. exists ls. split.
    + apply list_elem_of_In. unfold level_state in Hls. destruct (l <? 0); [done|]. by eapply list_elem_of_lookup_2.
    + apply existsb_exists. exists (k, p). split; [|cbn; lia]. by apply list_elem_of_In, elem_of_map_to_list.
Qed.

(** Epoch numbers stay optional exactly if they were, and a file that the edits
    added, an object without a reference before, has none. *)
Lemma final_requirement_spec : final_requirement r v0 = kMightMissing <->
  requirement = kMightMissing /\
  exists p, p ∈ mjoin (new_files c base r v0) /\ refs0 !! fp_addr p = None /\
            epoch_number (fp_meta p) = kUnknownEpochNumber.
Proof.
  rewrite (final_requirement_empty v0 (Z.to_nat num) eq_refl).
  assert (epoch_number_requirement_ v0 = requirement) as -> by reflexivity.
  pose proof (rp_heap _ _ _ _ _ _ H) as Hh. split; intros [Hq Hex]; (split; [exact Hq|]).
  - destruct Hex as (l & n & p & Hp & E). exists p. split; [by eapply added_kept|].
    split; [by apply (hr_added _ _ _ Hh l n p Hp)|done].
  - destruct Hex as (p & Hp & Hnew & E).
    destruct (new_file_origin p Hp) as [[l Hl]|[l Hl]]; [by exists l, (FileNumber p), p|].
    destruct (rd_live _ _ Hready l p Hl). congruence.
Qed.

(** Of two files the first is newer: by sequence numbers, by epoch number. *)
Definition newer_by_seqno (a b : FileMetaData) : Prop :=
  largest_seqno (fd b) < largest_seqno (fd a) \/
  largest_seqno (fd a) = largest_seqno (fd b) /\
    (smallest_seqno (fd b) < smallest_seqno (fd a) \/
     smallest_seqno (fd a) = smallest_seqno (fd b) /\ GetNumber (fd b) < GetNumber (fd a)).

Definition newer_by_epoch (a b : FileMetaData) : Prop :=
  epoch_number b < epoch_number a \/ epoch_number a = epoch_number b /\ newer_by_seqno a b.

(** Level 0 goes from the newest to the oldest file: by epoch number where all
    files must have one, otherwise by sequence numbers. *)
Definition newest_first (requirement : EpochNumberRequirement) (fs : list FilePtr) : Prop :=
  StronglySorted (fun a b =>
    match requirement with
    | kMustPresent => newer_by_epoch (fp_meta a) (fp_meta b)
    | kMightMissing => newer_by_seqno (fp_meta a) (fp_meta b)
    end) fs.

Lemma NewestFirstBySeqNo_spec a b : NewestFirstBySeqNo a b = true <-> newer_by_seqno (fp_meta a) (fp_meta b).
Proof. unfold NewestFirstBySeqNo, newer_by_seqno, FileNumber. repeat (zcase; cbn [negb]); lia. Qed.

Lemma NewestFirstByEpochNumber_spec a b :
  NewestFirstByEpochNumber a b = true <-> newer_by_epoch (fp_meta a) (fp_meta b).
Proof.
  unfold NewestFirstByEpochNumber, newer_by_epoch.
  destruct (Z.eqb_spec (epoch_number (fp_meta a)) (epoch_number (fp_meta b))); cbn [negb].
  - rewrite NewestFirstBySeqNo_spec. split; [by right|]. intros [?|[_ ?]]; [lia|done].
  - rewrite Z.ltb_lt. split; [by left|]. intros [?|[? _]]; lia.
Qed.

Lemma newest_first_l0_order q fs :
  newest_first q fs <-> StronglySorted (fun a b => l0_order q a b = true) fs.
Proof.
  assert (Hiff : forall (R S : FilePtr -> FilePtr -> Prop), (forall a b, R a b <-> S a b) ->
            StronglySorted R fs -> StronglySorted S fs).
  { intros R S HRS. induction 1 as [|a l Hl IH Ha]; constructor; [done|].
    refine (List.Forall_impl _ _ Ha). intros b. apply HRS. }
  unfold newest_first, l0_order. destruct q; split; apply Hiff; intros a b;
    first [apply NewestFirstBySeqNo_spec | symmetry; apply NewestFirstBySeqNo_spec
          | apply NewestFirstByEpochNumber_spec | symmetry; apply NewestFirstByEpochNumber_spec].
Qed.

(** A consistent version has it. *)
Lemma consistent_newest_first v fs : consistent c v -> LevelFiles v 0 = Some fs ->
  newest_first (epoch_number_requirement_ v) fs.
Proof.
  intros Hc Hfs. apply newest_first_l0_order. pose proof (cs_l0 _ _ Hc fs Hfs) as Hl0. unfold l0_consistent in Hl0.
  destruct (epoch_number_requirement_ v); [done|]. by destruct Hl0.
Qed.

(** The new level 0 is in the order it needs if the old one was. *)
Lemma new_level0_sorted bfs fs : LevelFiles base 0 = Some bfs -> new_files c base r v0 !! 0%nat = Some fs ->
  newest_first (final_requirement r v0) bfs -> newest_first (final_requirement r v0) fs.
Proof.
  intros Hb Hfs Hs. destruct Hready as [Hv _ _ _ _ Hlive].
  apply new_files_lookup in Hfs as [Hnum ->]; [|done]. apply newest_first_l0_order.
  apply newest_first_l0_order in Hs. change (Z.of_nat 0) with 0 in *.
  pose proof (new_level_sorted c base refs0 managed Hv Hlive r w s H v0 files_keys 0 bfs) as Hn.
  assert (order_at c r v0 0 = l0_order (final_requirement r v0)) as E by reflexivity.
  rewrite E in Hn |- *. by apply Hn.
Qed.

Definition disjoint_ranges (f g : FileMetaData) : Prop :=
  IKCompare c (largest f) (smallest g) < 0 \/ IKCompare c (largest g) (smallest f) < 0.

(** The files of a level overlap nowhere. *)
Definition level_disjoint (s : Lsm) (l : Z) : Prop :=
  forall n n' f f', lsm_files s !! n = Some (l, f) -> lsm_files s !! n' = Some (l, f') -> n <> n' ->
    disjoint_ranges f f'.

Lemma base_level_sorted l bfs : 1 <= l -> LevelFiles base l = Some bfs ->
  StronglySorted (fun a b => order_at c r v0 l a b = true) bfs.
Proof.
  intros Hl Hb. unfold order_at. rewrite (proj2 (Z.eqb_neq l 0)) by lia. destruct Hready as [Hv Hr _ _ Hc _].
  pose proof (cs_levels _ _ Hc l bfs Hl Hb) as Hs. pose proof (level_ranges c base l bfs Hr Hb) as Hbr.
  clear -Hs Hbr ComparatorOk0. induction Hs as [|a bfs Hs IH Ha]; constructor; inversion_clear Hbr as [|?? Hra Hrs].
  - by apply IH.
  - rewrite list.Forall_forall in Ha, Hrs |- *. intros x Hx. apply below_smallest; auto.
Qed.

Lemma new_level_below l fs : 1 <= l -> new_files c base r v0 !! Z.to_nat l = Some fs ->
  StronglySorted (below c) fs <-> level_disjoint s l.
Proof.
  intros Hl Hfs. destruct Hready as [Hv _ _ Hidx Hc Hlive].
  apply new_files_lookup in Hfs as [Hnum Efs]; [|done]. rewrite Z2Nat.id in Hnum, Efs by lia.
  assert (Hr : Forall (range_ok c) fs).
  { apply list.Forall_forall. intros p Hp. apply (Hfiles (FileNumber p) (l, fp_meta p)).
    rewrite Efs in Hp. by eapply new_level_meta in Hp. }
  split.
  - intros Hs n n' f f' E E' Hne.
    eapply new_level_complete in E as (p & Hp & <- & <-); [|done..].
    eapply new_level_complete in E' as (q & Hq & <- & <-); [|done..].
    rewrite <- Efs in Hp, Hq. apply list_elem_of_lookup in Hp as [i Hi], Hq as [j Hj].
    destruct (Nat.lt_trichotomy i j) as [Hij|[->|Hij]]; [left|congruence|right].
    + by apply (StronglySorted_lookup (below c) fs i j).
    + by apply (StronglySorted_lookup (below c) fs j i).
  - intros Hd. destruct (level_parts base refs0 managed Hv r w s H l) as (ls & bfs & _ & Hb); [lia|].
    assert (Hs : StronglySorted (fun a b => BySmallestKey c a b = true) fs).
    { pose proof (new_level_sorted c base refs0 managed Hv Hlive r w s H v0 files_keys l bfs) as Hs.
      rewrite <- Efs in Hs. unfold order_at in Hs at 2. rewrite (proj2 (Z.eqb_neq l 0)) in Hs by lia.
      apply Hs; [lia|done|]. by apply base_level_sorted. }
    assert (Hmeta : Forall (fun p => lsm_files s !! FileNumber p = Some (l, fp_meta p)) fs).
    { apply list.Forall_forall. intros p Hp. rewrite Efs in Hp. by eapply new_level_meta in Hp. }
    clear Efs. induction Hs as [|a fs Hs IH Ha]; constructor; inversion_clear Hr as [|?? Hra Hrs];
      inversion_clear Hmeta as [|?? Hma Hms]; [by apply IH|].
    rewrite list.Forall_forall in Ha, Hrs, Hms |- *. intros b Hb'. specialize (Ha b Hb').
    assert (Hflip : BySmallestKey c b a = false).
    { apply (fo_asym (cmp := BySmallestKey c) a b); [by apply Hra|by apply Hrs|done]. }
    destruct (Hd (FileNumber a) (FileNumber b) (fp_meta a) (fp_meta b)) as [?|Hba]; [done|by apply Hms| |done|].
    + intros E. assert (Hab : fp_meta a = fp_meta b) by (pose proof (Hms b Hb') as Hmb; cbv beta in Hma, Hmb; rewrite E, Hmb in Hma; by injection Hma).
      unfold BySmallestKey in Ha, Hflip. rewrite Hab, E in Ha. rewrite Hab, E in Hflip. congruence.
    + rewrite (below_smallest c b a) in Hflip; [done|by apply Hrs|done|done].
Qed.
End New.

End Build.

End Correct.

(** ** Theorems *)

(** [C3] Applying edits to a builder and saving does what the edits say: the
    builder never touches a level, file or reference that is not there; it
    reports a corruption exactly when the edits are wrong (a file added twice,
    one deleted that is not on its level, garbage for an unknown blob file), or
    out-of-memory only with a reservation manager; otherwise the saved version
    has exactly the files, blob files (less the obsolete ones) and cursors the
    edits describe. It may go without epoch numbers exactly if it was asked to
    and an added file has none; its level 0 goes from the newest to the oldest
    file, by epoch number or else by sequence numbers, if the base is kept in
    that order (as it is when it has the same requirement); each level past the
    first is in key order exactly if its files overlap nowhere, and, when it passes the consistency check and the
    builder is destroyed, it is a version the next builder can start from, its
    files having one more reference and the other files what they had. *)
Theorem version_builder_refines (c : Comparator) `{!ComparatorOk c} {M : Type}
    `{!CacheReservationManager M} (object_usage : Z) (base : VersionStorageInfo) (w : World M)
    (es : list VersionEdit) (force : bool) (requirement : EpochNumberRequirement) :
  ready c base (w_refs w) -> edits_ok c es ->
  match for_each (Apply c object_usage) (Rep_new base, w) es with
  | Some (OK, (r, w')) =>
      exists s, lsm_all (lsm_apply (num_levels_ base)) (lsm_of base) es = Some s /\
        (CheckConsistencyForNumLevels r = true <->
         forall n l f, lsm_files s !! n = Some (l, f) -> l < num_levels_ base) /\
        (CheckConsistencyForNumLevels r = true ->
         exists v refs w'',
           SaveTo c r (VersionStorageInfo_make (num_levels_ base) (Some base) force requirement, w_refs w') =
             Some (CheckConsistency c v, (v, refs)) /\
           Rep_destroy object_usage r (mkWorld refs (w_released w') (file_metadata_cache_res_mgr_ w')) =
             Some w'' /\
           lsm_of v = lsm_live s /\
           (0 < num_levels_ base ->
            epoch_number_requirement_ v = kMightMissing <->
            requirement = kMightMissing /\
            exists p, p ∈ mjoin (files_ v) /\ w_refs w !! fp_addr p = None /\
                      epoch_number (fp_meta p) = kUnknownEpochNumber) /\
           (forall fs0 fs, LevelFiles base 0 = Some fs0 -> LevelFiles v 0 = Some fs ->
              epoch_number_requirement_ v = epoch_number_requirement_ base \/
              newest_first (epoch_number_requirement_ v) fs0 ->
              newest_first (epoch_number_requirement_ v) fs) /\
           (forall l fs, 1 <= l -> LevelFiles v l = Some fs ->
              StronglySorted (below c) fs <-> level_disjoint c s l) /\
           (forall a, w_refs w'' !! a =
              if decide (a ∈ fp_addr <$> mjoin (files_ v)) then Some (s32 (default 0 (w_refs w !! a) + 1))
              else w_refs w !! a) /\
           (CheckConsistencyDetails c v = OK -> ready c (GenerateFileLocationIndex v) (w_refs w'')))
  | Some (Corruption _, _) => lsm_all (lsm_apply (num_levels_ base)) (lsm_of base) es = None
  | Some (MemoryLimit _, _) => is_Some (file_metadata_cache_res_mgr_ w)
  | _ => False
  end.
Proof.
  intros Hb [Hes Hnew].
  set (managed := bool_decide (is_Some (file_metadata_cache_res_mgr_ w))).
  assert (H : refines base (w_refs w) managed (for_each (Apply c object_usage) (Rep_new base, w) es)
                (lsm_all (lsm_apply (num_levels_ base)) (lsm_of base) es)).
  { apply built_refines; [done|done|done| |done]. intros Hm%bool_decide_eq_false. by apply eq_None_not_Some. }
  unfold refines in H. destruct (for_each _ _ _) as [[st [r w']]|]; [|done].
  destruct H as [(-> & s & Es & H)|[[(msg & ->) ->]|[(msg & ->) Hm]]]; [|done|by apply bool_decide_eq_true in Hm].
  exists s. split; [done|]. pose proof (CheckConsistencyForNumLevels_spec _ _ _ r w' s H) as Hn.
  split; [done|]. rewrite Hn. intros Hvalid.
  assert (Hfiles : all_files (meta_ok c) s).
  { apply (lsm_apply_all_keeps _ (num_levels_ base) es (lsm_of base)); [by eapply ready_files|done|done]. }
  destruct (saved_version c base (w_refs w) Hb managed r w' s H Hfiles Hvalid force requirement)
    as (v & refs & Hsave & Hf & -> & Hv & Hlsm & Hnum & Hreq & Hr & Hready).
  destruct (built_references c object_usage base (w_refs w) Hb managed r w' s H force requirement
    (w_released w') (file_metadata_cache_res_mgr_ w')) as (w'' & Hd & Hrefs).
  exists v, (ref_all (w_refs w') (mjoin (files_ v))), w''. rewrite Hf.
  split; [by rewrite <- Hf|]. split; [done|]. split; [done|]. split_and!; [| | |done|].
  - intros H0. rewrite Hreq, (proj2 (Z.eqb_neq _ _)) by lia.
    apply (final_requirement_spec c base (w_refs w) Hb managed r w' s H).
  - intros fs0 fs Hfs0 Hfs Hor. apply LevelFiles_Some in Hfs as [_ Hfs]. rewrite Hf in Hfs.
    assert (Hb0 : newest_first (epoch_number_requirement_ v) fs0).
    { destruct Hor as [->|]; [|done]. by eapply (consistent_newest_first c base), Hfs0; apply (rd_consistent _ _ _ Hb). }
    rewrite Hreq in Hb0 |- *. destruct (num_levels_ base =? 0) eqn:E0.
    { exfalso. apply Z.eqb_eq in E0. pose proof (vo_files base (rd_version _ _ _ Hb)) as Hlen. rewrite E0 in Hlen.
      apply LevelFiles_Some in Hfs0 as [_ Hfs0%lookup_lt_Some]. change (Z.to_nat 0) with 0%nat in *. lia. }
    by apply (new_level0_sorted c base (w_refs w) Hb managed r w' s H Hfiles force requirement fs0).
  - intros l fs Hl Hfs. apply LevelFiles_Some in Hfs as [_ Hfs]. rewrite Hf in Hfs.
    by apply (new_level_below c base (w_refs w) Hb managed r w' s H Hfiles force requirement).
  - intros Hc%(check_details_exact c v Hv Hr). apply Hready; [done|]. intros a Ha. rewrite Hrefs, <- Hf.
    rewrite decide_True by done. by eexists.
Qed.

(** [C9] The consistency check accepts a version exactly if it is one that reads
    can rely on: level 0 goes from the newest to the oldest file (by epoch
    number, no two neighbours of an epoch overlapping; or by sequence numbers
    while epoch numbers may be missing), the files of every other level follow
    one another in the key space, no blob file is all garbage, and the table
    files linked to a blob file are those that refer to it. *)
Theorem consistency_check_exact (c : Comparator) `{!ComparatorOk c} (v : VersionStorageInfo) :
  version_ok v -> Forall (range_ok c) (mjoin (files_ v)) ->
  CheckConsistencyDetails c v = OK <-> consistent c v.
Proof. intros Hv Hr. by apply check_details_exact. Qed.

(** ** Examples *)

Definition ex_key (b : byte) (seq : Z) : bytes := AppendInternalKeyFooter [b] seq 1.

(** A file with a range of one-byte keys. *)
Definition ex_meta (number : Z) (lo hi : byte) (seq epoch blob : Z) : FileMetaData :=
  FileMetaData_default <| fd := mkFileDescriptor number 0 100 seq seq |>
    <| smallest := ex_key lo seq |> <| largest := ex_key hi seq |>
    <| epoch_number := epoch |> <| oldest_blob_file_number := blob |>.

Definition ex_blob : BlobFileMetaData := {|
  bm_shared_meta_ := {|
    sm_blob_file_number_ := 3; sm_total_blob_count_ := 10; sm_total_blob_bytes_ := 1000;
    sm_checksum_method_ := []; sm_checksum_value_ := [] |};
  bm_linked_ssts_ := {[ 5 ]}; bm_garbage_blob_count_ := 2; bm_garbage_blob_bytes_ := 200 |}.

(** Files 4 and 5 on levels 0 and 1; 5 refers to blob file 3. *)
Definition ex_version : VersionStorageInfo :=
  (VersionStorageInfo_make 2 None true kMustPresent)
    <| files_ := [[{| fp_addr := 10; fp_meta := ex_meta 4 Byte.x61 Byte.x7a 40 2 0 |}];
                  [{| fp_addr := 11; fp_meta := ex_meta 5 Byte.x61 Byte.x66 30 1 3 |}]] |>
    <| blob_files_ := [ex_blob] |>.

Definition ex_base : VersionStorageInfo := GenerateFileLocationIndex ex_version.
Definition ex_refs : FileRefs := {[ 10 := 1; 11 := 1 ]}.

#[export] Instance no_reservations : CacheReservationManager unit := fun m _ _ => (OK, m).

Definition ex_world : World unit := mkWorld ex_refs [] None.

(** A compaction of file 4 to level 1 above 5, and more garbage in 3. *)
Definition ex_edits : list VersionEdit :=
  [AddFile (DeleteFile VersionEdit_new 0 4) 1 (ex_meta 6 Byte.x67 Byte.x7a 40 2 0);
   VersionEdit_new <| blob_file_garbages_ := [{| garbage_file_number_ := 3; garbage_blob_count_ := 1;
                                                 garbage_blob_bytes_ := 50 |}] |>].

Lemma ex_version_ok : version_ok ex_version.
Proof.
  constructor; [cbn; lia|done|done|..].
  - by apply (bool_decide_unpack _); vm_compute.
  - by apply (bool_decide_unpack _); vm_compute.
  - repeat constructor.
  - by apply (bool_decide_unpack _); vm_compute.
Qed.

Lemma ex_ranges : Forall (range_ok BytewiseComparator) (mjoin (files_ ex_version)).
Proof. repeat constructor; vm_compute; done. Qed.

Lemma ex_ready : ready BytewiseComparator ex_base ex_refs.
Proof.
  apply ready_indexed; [exact ex_version_ok|exact ex_ranges| |done| |].
  - by apply (bool_decide_unpack _); vm_compute.
  - apply check_details_exact; [apply _|exact ex_version_ok|exact ex_ranges|by vm_compute].
  - intros a Ha. vm_compute in Ha. repeat (apply elem_of_cons in Ha as [->|Ha]; [by eexists|]).
    by apply elem_of_nil in Ha.
Qed.

Lemma ex_edits_ok : edits_ok BytewiseComparator ex_edits.
Proof. split; repeat constructor; vm_compute; done. Qed.

Lemma consistency_check_exact_witness : consistent BytewiseComparator ex_version.
Proof.
  apply (consistency_check_exact BytewiseComparator ex_version ex_version_ok ex_ranges). by vm_compute.
Defined.

Lemma version_builder_refines_witness :
  exists s, lsm_all (lsm_apply 2) (lsm_of ex_base) ex_edits = Some s.
Proof.
  pose proof (version_builder_refines BytewiseComparator 0 ex_base ex_world ex_edits true kMustPresent
    ex_ready ex_edits_ok) as H.
  assert (E : exists x, for_each (Apply BytewiseComparator 0) (Rep_new ex_base, ex_world) ex_edits = Some (OK, x))
    by (vm_compute; eauto).
  destruct E as [[r w] E]. rewrite E in H. destruct H as (s & Hs & _). by exists s.
Defined.

(** ** What the checks let through *)

(** Garbage whose count wraps around is accepted, and lowers the garbage. *)
Lemma garbage_wraps :
  exists r s, (ApplyBlobFileGarbage (Rep_new ex_base)
           {| garbage_file_number_ := 3; garbage_blob_count_ := 2 ^ 64 - 1; garbage_blob_bytes_ := 0 |}) =
         Some (OK, r) /\
       map_find 3 (mutable_blob_file_metas_ r) = Some s /\ mb_garbage_blob_count_ s = 1.
Proof. eexists _, _. split; [vm_compute; reflexivity|]. by split. Qed.

(** A deletion at level -1 of a file that is nowhere leaves the array. *)
Lemma negative_level_out_of_bounds :
  ApplyFileDeletion 0 (Rep_new ex_base, ex_world) (-1, 99) = None.
Proof. by vm_compute. Qed.

(** Files of an epoch that overlap but are not neighbours. *)
Definition ex_overlap : VersionStorageInfo :=
  (VersionStorageInfo_make 1 None true kMustPresent)
    <| files_ := [[{| fp_addr := 10; fp_meta := ex_meta 4 Byte.x61 Byte.x63 40 2 0 |};
                   {| fp_addr := 11; fp_meta := ex_meta 5 Byte.x65 Byte.x66 30 2 0 |};
                   {| fp_addr := 12; fp_meta := ex_meta 6 Byte.x61 Byte.x63 20 2 0 |}]] |>.

Lemma overlap_of_non_neighbours : CheckConsistencyDetails BytewiseComparator ex_overlap = OK.
Proof. by vm_compute. Qed.
