(* ===== verification/FileIndexer.v ===== *)
(** * Bounds for the search in the next level

    Models db/file_indexer.h and db/file_indexer.cc. For every file of the
    levels from 1 on, the indexer stores where its smallest and its largest key
    fall among the files of the level below. A lookup that has compared its key
    with a file need not search the whole next level: [GetNextLevelIndex] turns
    the results of the comparisons into bounds.

    The lemmas show that files outside the bounds cannot hold the key. *)

From S2P Require Import Prelude Records Slice DbFormat Comparator VersionEdit VersionStorage.

(** ** Data *)

(** [IndexUnit]. *)
Record IndexUnit := {
  smallest_lb : Z;
  largest_lb : Z;
  smallest_rb : Z;
  largest_rb : Z
}.

#[export] Instance IndexUnit_Settable : Settable IndexUnit :=
  fun r => Build_IndexUnit (smallest_lb r) (largest_lb r) (smallest_rb r) (largest_rb r).

Definition IndexUnit_new : IndexUnit :=
  {| smallest_lb := 0; largest_lb := 0; smallest_rb := -1; largest_rb := -1 |}.

(** An [IndexLevel] is the list of its units. *)
Record FileIndexer := {
  fi_num_levels_ : Z;
  next_level_index_ : list (list IndexUnit);
  level_rb_ : list Z
}.

#[export] Instance FileIndexer_Settable : Settable FileIndexer :=
  fun r => Build_FileIndexer (fi_num_levels_ r) (next_level_index_ r) (level_rb_ r).

Definition FileIndexer_new : FileIndexer :=
  {| fi_num_levels_ := 0; next_level_index_ := []; level_rb_ := [] |}.

Definition kLevelMaxIndex : Z := 2 ^ 31 - 1.

Definition NumLevelIndex (fi : FileIndexer) : Z := slen (next_level_index_ fi).

Definition LevelIndexSize (fi : FileIndexer) (level : Z) : Z :=
  if slen (next_level_index_ fi) <=? level then 0
  else slen (default [] (next_level_index_ fi !! Z.to_nat level)).

(** ** Building *)

(** The loops of [CalculateLB], with positions going up. *)
Fixpoint lb_loop (fuel : nat) (upper_files lower_files : list FilePtr) (cmp_op : FilePtr -> FilePtr -> Z)
    (set_index : Z -> IndexUnit -> IndexUnit) (upper_idx lower_idx : nat) (index : list IndexUnit)
    : option (list IndexUnit) :=
  match fuel with
  | O => None
  | S fuel =>
      match upper_files !! upper_idx, lower_files !! lower_idx with
      | Some a, Some b =>
          let cmp := cmp_op a b in
          if cmp =? 0 then
            lb_loop fuel upper_files lower_files cmp_op set_index (S upper_idx) lower_idx
              (alter (set_index (s32 (Z.of_nat lower_idx))) upper_idx index)
          else if 0 <? cmp then
            lb_loop fuel upper_files lower_files cmp_op set_index upper_idx (S lower_idx) index
          else
            lb_loop fuel upper_files lower_files cmp_op set_index (S upper_idx) lower_idx
              (alter (set_index (s32 (Z.of_nat lower_idx))) upper_idx index)
      | Some _, None =>
          lb_loop fuel upper_files lower_files cmp_op set_index (S upper_idx) lower_idx
            (alter (set_index (s32 (slen lower_files))) upper_idx index)
      | None, _ => Some index
      end
  end.

Definition CalculateLB (upper_files lower_files : list FilePtr) (cmp_op : FilePtr -> FilePtr -> Z)
    (set_index : Z -> IndexUnit -> IndexUnit) (index : list IndexUnit) : option (list IndexUnit) :=
  lb_loop (S (length upper_files + length lower_files)) upper_files lower_files cmp_op set_index 0 0 index.

(** The loops of [CalculateRB], with positions going down: the arguments are
    [upper_idx + 1] and [lower_idx + 1]. *)
Fixpoint rb_loop (fuel : nat) (upper_files lower_files : list FilePtr) (cmp_op : FilePtr -> FilePtr -> Z)
    (set_index : Z -> IndexUnit -> IndexUnit) (upper_end lower_end : nat) (index : list IndexUnit)
    : option (list IndexUnit) :=
  match fuel with
  | O => None
  | S fuel =>
      match upper_end, lower_end with
      | S upper_idx, S lower_idx =>
          a ← upper_files !! upper_idx;
          b ← lower_files !! lower_idx;
          let cmp := cmp_op a b in
          if cmp =? 0 then
            rb_loop fuel upper_files lower_files cmp_op set_index upper_idx lower_end
              (alter (set_index (s32 (Z.of_nat lower_idx))) upper_idx index)
          else if cmp <? 0 then
            rb_loop fuel upper_files lower_files cmp_op set_index upper_end lower_idx index
          else
            rb_loop fuel upper_files lower_files cmp_op set_index upper_idx lower_end
              (alter (set_index (s32 (Z.of_nat lower_idx))) upper_idx index)
      | S upper_idx, O =>
          rb_loop fuel upper_files lower_files cmp_op set_index upper_idx O
            (alter (set_index (-1)) upper_idx index)
      | O, _ => Some index
      end
  end.

Definition CalculateRB (upper_files lower_files : list FilePtr) (cmp_op : FilePtr -> FilePtr -> Z)
    (set_index : Z -> IndexUnit -> IndexUnit) (index : list IndexUnit) : option (list IndexUnit) :=
  rb_loop (S (length upper_files + length lower_files)) upper_files lower_files cmp_op set_index
    (length upper_files) (length lower_files) index.

Section Indexer.

Context (c : Comparator).

(** [ucmp_->CompareWithoutTimestamp(a, b)] of user keys, and the user keys of
    the bounds of a file. *)
Definition user_cmp (a b : bytes) : Z := CompareWithoutTimestamp c a true b true.
Definition smallest_user (f : FilePtr) : bytes := ExtractUserKey (smallest (fp_meta f)).
Definition largest_user (f : FilePtr) : bytes := ExtractUserKey (largest (fp_meta f)).

(** The four passes over a pair of levels. *)
Definition index_units_for (upper_files lower_files : list FilePtr) : option (list IndexUnit) :=
  index ← CalculateLB upper_files lower_files (fun a b => user_cmp (smallest_user a) (largest_user b))
            (fun i u => u <| smallest_lb := i |>) (replicate (length upper_files) IndexUnit_new);
  index ← CalculateLB upper_files lower_files (fun a b => user_cmp (largest_user a) (largest_user b))
            (fun i u => u <| largest_lb := i |>) index;
  index ← CalculateRB upper_files lower_files (fun a b => user_cmp (smallest_user a) (smallest_user b))
            (fun i u => u <| smallest_rb := i |>) index;
  CalculateRB upper_files lower_files (fun a b => user_cmp (largest_user a) (smallest_user b))
    (fun i u => u <| largest_rb := i |>) index.

(** The body of the loop of [UpdateIndex] at a level. *)
Definition update_level (files : list (list FilePtr)) (fi : FileIndexer) (level : nat) : option FileIndexer :=
  upper_files ← files !! level;
  lower_files ← files !! S level;
  let fi := fi <| level_rb_ ::= <[level := s32 (slen upper_files) - 1]> |> in
  match upper_files with
  | [] => Some fi
  | _ => units ← index_units_for upper_files lower_files;
         Some (fi <| next_level_index_ ::= <[level := units]> |>)
  end.

Fixpoint update_levels (files : list (list FilePtr)) (fi : FileIndexer) (levels : list nat) : option FileIndexer :=
  match levels with
  | [] => Some fi
  | level :: levels' => fi ← update_level files fi level; update_levels files fi levels'
  end.

(** [UpdateIndex] of a new indexer. *)
Definition UpdateIndex (num_levels : Z) (files : list (list FilePtr)) : option FileIndexer :=
  if num_levels =? 0 then Some FileIndexer_new
  else
    let n := Z.to_nat num_levels in
    let fi := {| fi_num_levels_ := num_levels; next_level_index_ := replicate n [];
                 level_rb_ := replicate n (-1) |} in
    fi ← update_levels files fi (seq 1 (n - 2));
    last_files ← files !! (n - 1)%nat;
    Some (fi <| level_rb_ ::= <[(n - 1)%nat := s32 (slen last_files) - 1]> |>).

(** ** Using *)

Definition GetNextLevelIndex (fi : FileIndexer) (level file_index cmp_smallest cmp_largest : Z) : option (Z * Z) :=
  if level =? u64 (fi_num_levels_ fi - 1) then Some (0, -1)
  else
    index_units ← next_level_index_ fi !! Z.to_nat level;
    index ← index_units !! Z.to_nat file_index;
    if cmp_smallest <? 0 then
      left_bound ← (if (0 <? level) && (0 <? file_index)
                    then largest_lb <$> index_units !! Z.to_nat (file_index - 1) else Some 0);
      Some (left_bound, smallest_rb index)
    else if cmp_smallest =? 0 then Some (smallest_lb index, smallest_rb index)
    else if cmp_largest <? 0 then Some (smallest_lb index, largest_rb index)
    else if cmp_largest =? 0 then Some (largest_lb index, largest_rb index)
    else
      right_bound ← level_rb_ fi !! Z.to_nat (level + 1);
      Some (largest_lb index, right_bound).

End Indexer.

(** ** The passes *)

Section Passes.

Context (uppers lowers : list FilePtr) (cmp_op : FilePtr -> FilePtr -> Z).
Context (set_index : Z -> IndexUnit -> IndexUnit).
Context (Hsmall : slen lowers < 2 ^ 31).

Lemma s32_pos (n : nat) : (n <= length lowers)%nat -> s32 (Z.of_nat n) = Z.of_nat n.
Proof. intros. unfold slen in Hsmall. apply s32_id. unfold is_s32. lia. Qed.

(** Units from [lo] to [hi] were set, to a position that meets [P]. *)
Definition set_between (P : FilePtr -> Z -> Prop) (lo hi : nat) (index index' : list IndexUnit) : Prop :=
  length index' = length index /\
  forall i x, index !! i = Some x -> exists y, index' !! i = Some y /\
    ((lo <= i < hi)%nat -> forall a, uppers !! i = Some a -> exists k, y = set_index k x /\ P a k) /\
    (~ (lo <= i < hi)%nat -> y = x).

Lemma set_between_refl P n index : set_between P n n index index.
Proof. split; [done|]. intros i x Hx. exists x. split; [done|]. split; [lia|done]. Qed.

(** Adding one more unit at either end. *)
Lemma set_between_first P lo hi a k index index' : (lo < hi)%nat -> uppers !! lo = Some a -> P a k ->
  set_between P (S lo) hi (alter (set_index k) lo index) index' -> set_between P lo hi index index'.
Proof.
  intros Hlt Ha Hk [Hl Hall]. split; [by rewrite Hl, length_alter|]. intros i x Hx.
  destruct (decide (i = lo)) as [->|Hne].
  - destruct (Hall lo (set_index k x)) as (y & Hy & _ & Hout); [by rewrite list_lookup_alter_eq, Hx|].
    exists y. split; [done|]. rewrite Hout by lia. split; [|lia]. intros _ b Hb. exists k. split; [done|congruence].
  - destruct (Hall i x) as (y & Hy & Hin & Hout); [by rewrite list_lookup_alter_ne|].
    exists y. split; [done|]. split; intros; [apply Hin; [lia|done]|apply Hout; lia].
Qed.

Lemma set_between_last P lo hi a k index index' : (lo <= hi)%nat -> uppers !! hi = Some a -> P a k ->
  set_between P lo hi (alter (set_index k) hi index) index' -> set_between P lo (S hi) index index'.
Proof.
  intros Hlt Ha Hk [Hl Hall]. split; [by rewrite Hl, length_alter|]. intros i x Hx.
  destruct (decide (i = hi)) as [->|Hne].
  - destruct (Hall hi (set_index k x)) as (y & Hy & _ & Hout); [by rewrite list_lookup_alter_eq, Hx|].
    exists y. split; [done|]. rewrite Hout by lia. split; [|lia]. intros _ b Hb. exists k. split; [done|congruence].
  - destruct (Hall i x) as (y & Hy & Hin & Hout); [by rewrite list_lookup_alter_ne|].
    exists y. split; [done|]. split; intros; [apply Hin; [lia|done]|apply Hout; lia].
Qed.

(** Files below the left bound compare smaller. *)
Definition lb_ok (a : FilePtr) (k : Z) : Prop :=
  0 <= k <= slen lowers /\ forall i b, lowers !! i = Some b -> Z.of_nat i < k -> 0 < cmp_op a b.

Definition rb_ok (a : FilePtr) (k : Z) : Prop :=
  -1 <= k < slen lowers /\ forall i b, lowers !! i = Some b -> k < Z.of_nat i -> cmp_op a b < 0.

Context (Hmono : forall i j a a' b, (i <= j)%nat -> uppers !! i = Some a -> uppers !! j = Some a' ->
  (0 < cmp_op a b -> 0 < cmp_op a' b) /\ (cmp_op a' b < 0 -> cmp_op a b < 0)).

Lemma lb_loop_spec fuel u l index : (u <= length uppers)%nat -> (l <= length lowers)%nat ->
  (length uppers - u + (length lowers - l) < fuel)%nat ->
  (forall i a j b, (u <= i)%nat -> uppers !! i = Some a -> (j < l)%nat -> lowers !! j = Some b -> 0 < cmp_op a b) ->
  exists index', lb_loop fuel uppers lowers cmp_op set_index u l index = Some index' /\
    set_between lb_ok u (length uppers) index index'.
Proof.
  revert u l index. induction fuel as [|fuel IH]; intros u l index Hu Hl Hf Hinv; [lia|]. cbn [lb_loop].
  destruct (uppers !! u) as [a|] eqn:Ea.
  2:{ apply lookup_ge_None in Ea. exists index. split; [done|]. replace u with (length uppers) by lia. apply set_between_refl. }
  pose proof (lookup_lt_Some _ _ _ Ea) as Hlt.
  assert (Hset : lb_ok a (Z.of_nat l)).
  { split; [unfold slen; lia|]. intros i b Hb Hi. apply (Hinv u a i b); [lia|done|lia|done]. }
  assert (Hstep : exists index', lb_loop fuel uppers lowers cmp_op set_index (S u) l
            (alter (set_index (Z.of_nat l)) u index) = Some index' /\
            set_between lb_ok u (length uppers) index index').
  { destruct (IH (S u) l (alter (set_index (Z.of_nat l)) u index)) as (index' & E & Hs); [lia..| |].
    - intros i b j d Hi. apply (Hinv i); lia.
    - exists index'. split; [done|]. by apply (set_between_first lb_ok _ _ a (Z.of_nat l)). }
  destruct (lowers !! l) as [b|] eqn:Eb.
  - pose proof (lookup_lt_Some _ _ _ Eb). rewrite s32_pos by lia. destruct (Z.eqb_spec (cmp_op a b) 0); [exact Hstep|].
    destruct (Z.ltb_spec 0 (cmp_op a b)); [|exact Hstep]. apply IH; [lia..|].
    intros i d j e Hi Hd Hj He. destruct (decide (j = l)) as [->|]; [|apply (Hinv i d j e); done || lia].
    assert (e = b) as -> by congruence. destruct (Hmono u i a d b) as [Hm _]; [done..|]. apply Hm. lia.
  - apply lookup_ge_None in Eb. assert (l = length lowers) as -> by lia. unfold slen. by rewrite s32_pos.
Qed.

Lemma rb_loop_spec fuel u l index : (u <= length uppers)%nat -> (l <= length lowers)%nat -> (u + l < fuel)%nat ->
  (forall i a j b, (i < u)%nat -> uppers !! i = Some a -> (l <= j)%nat -> lowers !! j = Some b -> cmp_op a b < 0) ->
  exists index', rb_loop fuel uppers lowers cmp_op set_index u l index = Some index' /\
    set_between rb_ok 0 u index index'.
Proof.
  revert u l index. induction fuel as [|fuel IH]; intros u l index Hu Hl Hf Hinv; [lia|]. cbn [rb_loop].
  destruct u as [|u]; [exists index; split; [by destruct l|apply set_between_refl]|].
  destruct (lookup_lt_is_Some_2 uppers u ltac:(lia)) as [a Ea].
  assert (Hset : rb_ok a (Z.of_nat l - 1)).
  { split; [unfold slen; lia|]. intros i b Hb Hi. apply (Hinv u a i b); [lia|done|lia|done]. }
  assert (Hstep : exists index', rb_loop fuel uppers lowers cmp_op set_index u l
            (alter (set_index (Z.of_nat l - 1)) u index) = Some index' /\ set_between rb_ok 0 (S u) index index').
  { destruct (IH u l (alter (set_index (Z.of_nat l - 1)) u index)) as (index' & E & Hs); [lia..| |].
    - intros i b j d Hi. apply (Hinv i); lia.
    - exists index'. split; [done|]. by apply (set_between_last rb_ok _ _ a (Z.of_nat l - 1)); [lia|..]. }
  destruct l as [|l]; [exact Hstep|]. replace (Z.of_nat (S l) - 1) with (Z.of_nat l) in * by lia.
  destruct (lookup_lt_is_Some_2 lowers l ltac:(lia)) as [b Eb]. rewrite Ea, Eb. cbn [mbind option_bind].
  rewrite s32_pos by lia. destruct (Z.eqb_spec (cmp_op a b) 0); [exact Hstep|].
  destruct (Z.ltb_spec (cmp_op a b) 0); [|exact Hstep]. apply IH; [lia|lia|lia|].
  intros i d j e Hi Hd Hj He. destruct (decide (j = l)) as [->|]; [|apply (Hinv i d j e); done || lia].
  assert (e = b) as -> by congruence. destruct (Hmono i u d a b) as [_ Hm]; [lia|done..|]. apply Hm. lia.
Qed.

Lemma CalculateLB_spec index : exists index', CalculateLB uppers lowers cmp_op set_index index = Some index' /\
  set_between lb_ok 0 (length uppers) index index'.
Proof. apply lb_loop_spec; [lia..|]. intros i a j b _ _ Hj. lia. Qed.

Lemma CalculateRB_spec index : exists index', CalculateRB uppers lowers cmp_op set_index index = Some index' /\
  set_between rb_ok 0 (length uppers) index index'.
Proof.
  apply rb_loop_spec; [lia..|]. intros i a j b _ _ Hj Hb. apply lookup_lt_Some in Hb. lia.
Qed.

End Passes.

(** ** What the index says *)

Section IndexOk.

Context (c : Comparator) `{!ComparatorTsOk c}.

Abbreviation ucmp := (user_cmp c).

Lemma ucmp_flip a b : ucmp a b < 0 <-> 0 < ucmp b a.
Proof. apply Cwt_flip. Qed.

Lemma ucmp_trans a b d : ucmp a b <= 0 -> ucmp b d <= 0 -> ucmp a d <= 0.
Proof. apply Cwt_trans. Qed.

Lemma ucmp_flip_le a b : ucmp a b <= 0 <-> 0 <= ucmp b a.
Proof. pose proof (ucmp_flip b a). pose proof (ucmp_flip a b). lia. Qed.

(** A strict step makes a chain strict. *)
Lemma ucmp_lt_trans a b d : ucmp a b <= 0 -> ucmp b d <= 0 -> ucmp a b < 0 \/ ucmp b d < 0 -> ucmp a d < 0.
Proof.
  intros H1 H2 H3. pose proof (ucmp_trans _ _ _ H1 H2). destruct (Z.lt_ge_cases (ucmp a d) 0) as [|Hge]; [done|].
  apply ucmp_flip_le in Hge. destruct H3 as [H3|H3].
  - pose proof (ucmp_trans _ _ _ H2 Hge). pose proof (ucmp_flip a b). lia.
  - pose proof (ucmp_trans _ _ _ Hge H1). pose proof (ucmp_flip b d). lia.
Qed.

(** Levels whose files do not overlap but at their ends. *)
Record level_sorted (fs : list FilePtr) : Prop := {
  ls_range : forall f, f ∈ fs -> ucmp (smallest_user f) (largest_user f) <= 0;
  ls_below : forall i j a b, (i < j)%nat -> fs !! i = Some a -> fs !! j = Some b ->
    ucmp (largest_user a) (smallest_user b) <= 0
}.

Lemma level_sorted_smallest fs i j a b : level_sorted fs -> (i <= j)%nat -> fs !! i = Some a -> fs !! j = Some b ->
  ucmp (smallest_user a) (smallest_user b) <= 0.
Proof.
  intros [Hr Hb] Hij Ha Hb'. destruct (decide (i = j)) as [->|].
  - assert (a = b) as -> by congruence. pose proof (ucmp_flip (smallest_user b) (smallest_user b)). lia.
  - apply (ucmp_trans _ (largest_user a)); [by eapply Hr, list_elem_of_lookup_2|]. by apply (Hb i j); [lia|..].
Qed.

Lemma level_sorted_largest fs i j a b : level_sorted fs -> (i <= j)%nat -> fs !! i = Some a -> fs !! j = Some b ->
  ucmp (largest_user a) (largest_user b) <= 0.
Proof.
  intros [Hr Hb] Hij Ha Hb'. destruct (decide (i = j)) as [->|].
  - assert (a = b) as -> by congruence. pose proof (ucmp_flip (largest_user b) (largest_user b)). lia.
  - apply (ucmp_trans _ (smallest_user b)); [by apply (Hb i j); [lia|..]|]. by eapply Hr, list_elem_of_lookup_2.
Qed.

(** Left of [k] all files are below the key, right of it all are above. *)
Definition left_ok (lowers : list FilePtr) (key : bytes) (k : Z) : Prop :=
  0 <= k <= slen lowers /\ forall i b, lowers !! i = Some b -> Z.of_nat i < k -> 0 < ucmp key (largest_user b).

Definition right_ok (lowers : list FilePtr) (key : bytes) (k : Z) : Prop :=
  -1 <= k < slen lowers /\ forall i b, lowers !! i = Some b -> k < Z.of_nat i -> ucmp key (smallest_user b) < 0.

Lemma left_ok_up lowers key key' k : ucmp key key' <= 0 -> left_ok lowers key k -> left_ok lowers key' k.
Proof.
  intros Hk [Hr Hall]. split; [done|]. intros i b Hb Hi. specialize (Hall i b Hb Hi).
  apply ucmp_flip. apply ucmp_flip in Hall. apply (ucmp_lt_trans _ key); auto; lia.
Qed.

Lemma right_ok_down lowers key key' k : ucmp key' key <= 0 -> right_ok lowers key k -> right_ok lowers key' k.
Proof.
  intros Hk [Hr Hall]. split; [done|]. intros i b Hb Hi. specialize (Hall i b Hb Hi).
  apply (ucmp_lt_trans _ key); auto; lia.
Qed.

Record unit_ok (lowers : list FilePtr) (a : FilePtr) (u : IndexUnit) : Prop := {
  uk_smallest_lb : left_ok lowers (smallest_user a) (smallest_lb u);
  uk_largest_lb : left_ok lowers (largest_user a) (largest_lb u);
  uk_smallest_rb : right_ok lowers (smallest_user a) (smallest_rb u);
  uk_largest_rb : right_ok lowers (largest_user a) (largest_rb u)
}.

(** A comparison that only looks at a key of the upper file is monotone when
    the keys are. *)
Lemma cmp_mono (uppers : list FilePtr) (key key' : FilePtr -> bytes) :
  (forall i j a b, (i <= j)%nat -> uppers !! i = Some a -> uppers !! j = Some b -> ucmp (key a) (key b) <= 0) ->
  forall i j a a' b, (i <= j)%nat -> uppers !! i = Some a -> uppers !! j = Some a' ->
  (0 < ucmp (key a) (key' b) -> 0 < ucmp (key a') (key' b)) /\
  (ucmp (key a') (key' b) < 0 -> ucmp (key a) (key' b) < 0).
Proof.
  intros Hk i j a a' b Hij Ha Ha'. specialize (Hk i j a a' Hij Ha Ha'). rewrite <- !ucmp_flip. split; intros H.
  - apply (ucmp_lt_trans _ (key a)); auto; lia.
  - apply (ucmp_lt_trans _ (key a')); auto; lia.
Qed.

Lemma index_units_ok uppers lowers : level_sorted uppers -> slen lowers < 2 ^ 31 ->
  exists units, index_units_for c uppers lowers = Some units /\ length units = length uppers /\
    forall i a u, uppers !! i = Some a -> units !! i = Some u -> unit_ok lowers a u.
Proof.
  intros Hu Hs. unfold index_units_for. set (start := replicate _ _).
  pose proof (cmp_mono uppers smallest_user largest_user (fun i j a b => level_sorted_smallest uppers i j a b Hu)) as M1.
  pose proof (cmp_mono uppers largest_user largest_user (fun i j a b => level_sorted_largest uppers i j a b Hu)) as M2.
  pose proof (cmp_mono uppers smallest_user smallest_user (fun i j a b => level_sorted_smallest uppers i j a b Hu)) as M3.
  pose proof (cmp_mono uppers largest_user smallest_user (fun i j a b => level_sorted_largest uppers i j a b Hu)) as M4.
  destruct (CalculateLB_spec uppers lowers (fun a b => ucmp (smallest_user a) (largest_user b))
    (fun i u => u <| smallest_lb := i |>) Hs M1 start) as (x1 & -> & L1 & H1). cbn [mbind option_bind].
  destruct (CalculateLB_spec uppers lowers (fun a b => ucmp (largest_user a) (largest_user b))
    (fun i u => u <| largest_lb := i |>) Hs M2 x1) as (x2 & -> & L2 & H2). cbn [mbind option_bind].
  destruct (CalculateRB_spec uppers lowers (fun a b => ucmp (smallest_user a) (smallest_user b))
    (fun i u => u <| smallest_rb := i |>) Hs M3 x2) as (x3 & -> & L3 & H3). cbn [mbind option_bind].
  destruct (CalculateRB_spec uppers lowers (fun a b => ucmp (largest_user a) (smallest_user b))
    (fun i u => u <| largest_rb := i |>) Hs M4 x3) as (x4 & -> & L4 & H4). exists x4. split; [done|].
  assert (Hlen : length start = length uppers) by apply length_replicate. split; [congruence|].
  intros i a u Ha Hx. pose proof (lookup_lt_Some _ _ _ Ha) as Hi.
  destruct (lookup_lt_is_Some_2 start i ltac:(lia)) as [u0 E0].
  destruct (H1 i u0 E0) as (u1 & E1 & I1 & _). destruct (I1 ltac:(lia) a Ha) as (k1 & -> & P1).
  destruct (H2 i _ E1) as (u2 & E2 & I2 & _). destruct (I2 ltac:(lia) a Ha) as (k2 & -> & P2).
  destruct (H3 i _ E2) as (u3 & E3 & I3 & _). destruct (I3 ltac:(lia) a Ha) as (k3 & -> & P3).
  destruct (H4 i _ E3) as (u4 & E4 & I4 & _). destruct (I4 ltac:(lia) a Ha) as (k4 & -> & P4).
  rewrite E4 in Hx. injection Hx as <-. by constructor; cbn.
Qed.

(** An index over the first [n] levels. *)
Record indexer_ok (fi : FileIndexer) (n : nat) (files : list (list FilePtr)) : Prop := {
  ik_levels : fi_num_levels_ fi = Z.of_nat n;
  ik_units : forall l uppers lowers, (1 <= l)%nat -> (S l < n)%nat -> files !! l = Some uppers ->
    files !! S l = Some lowers -> exists units, next_level_index_ fi !! l = Some units /\
      length units = length uppers /\
      forall i a u, uppers !! i = Some a -> units !! i = Some u -> unit_ok lowers a u;
  ik_rb : forall l fs, (1 <= l < n)%nat -> files !! l = Some fs -> level_rb_ fi !! l = Some (slen fs - 1)
}.

(** What one level of the loop leaves. *)
Definition level_indexed (fi : FileIndexer) (l : nat) (uppers lowers : list FilePtr) : Prop :=
  level_rb_ fi !! l = Some (slen uppers - 1) /\
  exists units, next_level_index_ fi !! l = Some units /\ length units = length uppers /\
    forall i a u, uppers !! i = Some a -> units !! i = Some u -> unit_ok lowers a u.

Definition same_but (P : nat -> Prop) (fi fi' : FileIndexer) : Prop :=
  fi_num_levels_ fi' = fi_num_levels_ fi /\ length (level_rb_ fi') = length (level_rb_ fi) /\
  length (next_level_index_ fi') = length (next_level_index_ fi) /\
  forall l, ~ P l -> level_rb_ fi' !! l = level_rb_ fi !! l /\ next_level_index_ fi' !! l = next_level_index_ fi !! l.

Lemma update_level_spec files fi l uppers lowers :
  files !! l = Some uppers -> files !! S l = Some lowers -> (l < length (level_rb_ fi))%nat ->
  next_level_index_ fi !! l = Some [] -> level_sorted uppers -> slen uppers < 2 ^ 31 -> slen lowers < 2 ^ 31 ->
  exists fi', update_level c files fi l = Some fi' /\ level_indexed fi' l uppers lowers /\
    same_but (fun l' => l' = l) fi fi'.
Proof.
  intros Hu Hl Hlen Hn Hs Hsu Hsl. unfold update_level. rewrite Hu, Hl. cbn [mbind option_bind].
  rewrite s32_id by (unfold is_s32; pose proof (slen_nonneg uppers); lia).
  destruct (index_units_ok uppers lowers Hs Hsl) as (units & Eu & Hul & Hunits).
  pose proof (lookup_lt_Some _ _ _ Hn) as Hln. destruct uppers as [|f fs] eqn:Ef.
  - eexists. split; [reflexivity|]. split.
    + split; [unfold modify; cbn; by rewrite list_lookup_insert_eq|]. exists []. by unfold modify; cbn.
    + split; [done|]. unfold modify; cbn. rewrite length_insert. split_and!; [done|done|].
      intros l' Hl'. by rewrite list_lookup_insert_ne by auto.
  - rewrite <- Ef in *. rewrite Eu. cbn [mbind option_bind]. eexists. split; [reflexivity|]. split.
    + split; [unfold modify; cbn; by rewrite list_lookup_insert_eq|]. exists units. unfold modify; cbn.
      by rewrite list_lookup_insert_eq.
    + split; [done|]. unfold modify; cbn. rewrite !length_insert. split_and!; [done|done|].
      intros l' Hl'. by rewrite !list_lookup_insert_ne by auto.
Qed.

Lemma update_levels_spec files k m fi : (0 < m -> k + m < length files)%nat -> (k + m <= length (level_rb_ fi))%nat ->
  (forall l, (k <= l < k + m)%nat -> next_level_index_ fi !! l = Some []) ->
  (forall l fs, (k <= l < k + m)%nat -> files !! l = Some fs -> level_sorted fs) ->
  (forall l fs, files !! l = Some fs -> slen fs < 2 ^ 31) ->
  exists fi', update_levels c files fi (seq k m) = Some fi' /\ same_but (fun l => (k <= l < k + m)%nat) fi fi' /\
    forall l uppers lowers, (k <= l < k + m)%nat -> files !! l = Some uppers -> files !! S l = Some lowers ->
      level_indexed fi' l uppers lowers.
Proof.
  revert k fi. induction m as [|m IH]; intros k fi Hlen Hrb Hn Hs Hsmall; cbn [seq update_levels].
  { exists fi. split; [done|]. split; [by repeat split|]. intros; lia. }
  destruct (lookup_lt_is_Some_2 files k ltac:(lia)) as [us Hus].
  destruct (lookup_lt_is_Some_2 files (S k) ltac:(lia)) as [ls Hls].
  destruct (update_level_spec files fi k us ls Hus Hls ltac:(lia) (Hn k ltac:(lia)) (Hs k us ltac:(lia) Hus)
    (Hsmall k us Hus) (Hsmall _ ls Hls))
    as (fi1 & -> & Hk & Hnum & Hl1 & Hl2 & Hsame). cbn [mbind option_bind].
  destruct (IH (S k) fi1) as (fi2 & -> & (Hnum' & Hl1' & Hl2' & Hsame') & Hall).
  - lia.
  - lia.
  - intros l Hl. destruct (Hsame l ltac:(lia)) as [_ ->]. apply Hn. lia.
  - intros l fs Hl. apply Hs. lia.
  - done.
  - exists fi2. split; [done|]. split.
    + split_and!; [congruence|congruence|congruence|]. intros l Hl. destruct (Hsame' l ltac:(lia)) as [-> ->].
      apply Hsame. lia.
    + intros l uppers lowers Hl Hu Hlo. destruct (decide (l = k)) as [->|]; [|apply Hall; done || lia].
      assert (uppers = us) as -> by congruence. assert (lowers = ls) as -> by congruence.
      unfold level_indexed. destruct (Hsame' k ltac:(lia)) as [-> ->]. exact Hk.
Qed.

Lemma UpdateIndex_ok (n : nat) files : (n <= length files)%nat ->
  (forall l fs, (1 <= l < n)%nat -> files !! l = Some fs -> level_sorted fs) ->
  (forall l fs, files !! l = Some fs -> slen fs < 2 ^ 31) ->
  exists fi, UpdateIndex c (Z.of_nat n) files = Some fi /\ indexer_ok fi n files.
Proof.
  intros Hn Hs Hsmall. unfold UpdateIndex. zcase.
  { exists FileIndexer_new. split; [done|]. destruct n; [|lia]. by constructor; [done|intros; lia..]. }
  rewrite Nat2Z.id. set (fi0 := Build_FileIndexer _ _ _).
  assert (Hlen : length (level_rb_ fi0) = n /\ length (next_level_index_ fi0) = n) by (by cbn; rewrite !length_replicate).
  destruct Hlen as [Hl1 Hl2].
  destruct (update_levels_spec files 1 (n - 2) fi0) as (fi & -> & (Hnum & Hr & Hx & Hsame) & Hall); cbn [mbind option_bind].
  - lia.
  - lia.
  - intros l Hl. cbn. apply lookup_replicate_2. lia.
  - intros l fs Hl. apply Hs. lia.
  - done.
  - destruct (lookup_lt_is_Some_2 files (n - 1) ltac:(lia)) as [last Hlast]. rewrite Hlast. cbn [mbind option_bind].
    rewrite s32_id by (unfold is_s32; pose proof (slen_nonneg last); pose proof (Hsmall _ _ Hlast); lia).
    eexists. split; [reflexivity|]. constructor; unfold modify; cbn.
    + exact Hnum.
    + intros l uppers lowers Hl1' Hl2' Hu Hlo. apply (Hall l uppers lowers ltac:(lia) Hu Hlo).
    + intros l fs Hl Hfs. destruct (decide (l = n - 1)%nat) as [->|].
      * rewrite list_lookup_insert_eq by lia. by assert (fs = last) as -> by congruence.
      * rewrite list_lookup_insert_ne by lia.
        destruct (lookup_lt_is_Some_2 files (S l) ltac:(lia)) as [lowers Hlo].
        apply (Hall l fs lowers ltac:(lia) Hfs Hlo).
Qed.

(** ** The bounds of the next level *)

(** Comparing a key with a file of level [l] gives bounds for level [l + 1]. The
    second comparison counts only if the key is not below the file, and then
    the file before must not be above the key. *)
Lemma next_bounds_ok fi n files (l i : nat) uppers lowers a key cmp_largest :
  indexer_ok fi n files -> (1 <= l)%nat -> (S l < n)%nat -> Z.of_nat n < 2 ^ 64 -> files !! l = Some uppers ->
  files !! S l = Some lowers -> uppers !! i = Some a ->
  (0 <= ucmp key (smallest_user a) -> cmp_largest = ucmp key (largest_user a)) ->
  (ucmp key (smallest_user a) < 0 -> forall b, (0 < i)%nat -> uppers !! (i - 1)%nat = Some b ->
     ucmp (largest_user b) key <= 0) ->
  exists L R, GetNextLevelIndex fi (Z.of_nat l) (Z.of_nat i) (ucmp key (smallest_user a)) cmp_largest = Some (L, R) /\
    left_ok lowers key L /\ right_ok lowers key R.
Proof.
  intros [Hn Hunits Hrb] Hl1 Hl2 Hn64 Hu Hlo Ha Hcl Hprev. unfold GetNextLevelIndex.
  rewrite Hn, (u64_id (Z.of_nat n - 1)) by (unfold is_u64; lia).
  rewrite (proj2 (Z.eqb_neq _ _)) by lia. destruct (Hunits l uppers lowers Hl1 Hl2 Hu Hlo) as (units & Eu & Hlen & Hok).
  rewrite !Nat2Z.id, Eu. cbn [mbind option_bind].
  pose proof (lookup_lt_Some _ _ _ Ha) as Hi. destruct (lookup_lt_is_Some_2 units i ltac:(lia)) as [u Hunit].
  rewrite Hunit. cbn [mbind option_bind]. pose proof (Hok i a u Ha Hunit) as [U1 U2 U3 U4].
  set (cs := ucmp key (smallest_user a)) in *. destruct (Z.ltb_spec cs 0) as [Hcs|Hcs].
  - rewrite (proj2 (Z.ltb_lt 0 (Z.of_nat l))) by lia. cbn [andb].
    assert (Hright : right_ok lowers key (smallest_rb u)) by (apply (right_ok_down _ (smallest_user a)); [lia|done]).
    destruct (Z.ltb_spec 0 (Z.of_nat i)).
    + replace (Z.to_nat (Z.of_nat i - 1)) with (i - 1)%nat by lia.
      destruct (lookup_lt_is_Some_2 units (i - 1) ltac:(lia)) as [u' Hu'].
      destruct (lookup_lt_is_Some_2 uppers (i - 1) ltac:(lia)) as [b Hb]. rewrite Hu'. cbn [fmap option_fmap option_map mbind option_bind].
      eexists _, _. split; [reflexivity|]. split; [|done]. pose proof (Hok _ b u' Hb Hu') as [_ U2' _ _].
      apply (left_ok_up _ (largest_user b)); [|done]. apply Hprev; [done|lia|done].
    + eexists _, _. split; [reflexivity|]. split; [|done]. split; [pose proof (slen_nonneg lowers); lia|]. intros j b _ Hj. lia.
  - specialize (Hcl Hcs). assert (Hle : ucmp (smallest_user a) key <= 0) by (by apply ucmp_flip_le).
    destruct (Z.eqb_spec cs 0) as [E0|E0]; [|destruct (Z.ltb_spec cmp_largest 0); [|destruct (Z.eqb_spec cmp_largest 0)]].
    + eexists _, _. split; [reflexivity|]. split; [by apply (left_ok_up _ (smallest_user a))|].
      apply (right_ok_down _ (smallest_user a)); [lia|done].
    + eexists _, _. split; [reflexivity|]. split; [by apply (left_ok_up _ (smallest_user a))|].
      apply (right_ok_down _ (largest_user a)); [lia|done].
    + eexists _, _. split; [reflexivity|]. split; [apply (left_ok_up _ (largest_user a)); [apply ucmp_flip_le; lia|done]|].
      apply (right_ok_down _ (largest_user a)); [lia|done].
    + replace (Z.to_nat (Z.of_nat l + 1)) with (S l) by lia. rewrite (Hrb (S l) lowers) by done || lia.
      cbn [mbind option_bind]. eexists _, _. split; [reflexivity|].
      split; [apply (left_ok_up _ (largest_user a)); [apply ucmp_flip_le; lia|done]|].
      split; [pose proof (slen_nonneg lowers); lia|]. intros j b Hb Hj. apply lookup_lt_Some in Hb. unfold slen in Hj. lia.
Qed.

End IndexOk.
