(* ===== verification/FilePicker.v ===== *)
(** * Finding the files of a key

    Models the part of db/version_set.cc that looks for files by key: the
    arrays of key ranges that [PrepareForVersionAppend] makes of a version,
    [FindFile], and the class [FilePicker], which yields the files that
    [Version::Get] looks into, level by level, with the bounds of [FileIndexer]
    (fractional cascading).

    A read outside an array is undefined: [None]. *)

From S2P Require Import Prelude Records StdMap Slice DbFormat Comparator VersionEdit VersionStorage FileIndexer.

(** ** Key ranges *)

Record FdWithKeyRange := {
  fk_fd : FileDescriptor;
  fk_file_metadata : FilePtr;
  fk_smallest_key : bytes;
  fk_largest_key : bytes
}.

(** [LevelFilesBrief]: [num_files] and the array [files]. *)
Abbreviation LevelFilesBrief := (list FdWithKeyRange).

Definition DoGenerateLevelFilesBrief (files : list FilePtr) : LevelFilesBrief :=
  (fun f => {| fk_fd := fd (fp_meta f); fk_file_metadata := f;
               fk_smallest_key := smallest (fp_meta f); fk_largest_key := largest (fp_meta f) |}) <$> files.

(** What [PrepareForVersionAppend] computes for lookups. *)
Record LookupData := {
  num_non_empty_levels_ : Z;
  level_files_brief_ : list LevelFilesBrief;
  file_indexer_ : FileIndexer
}.

(** The loop of [UpdateNumNonEmptyLevels] over the levels below [i]. *)
Fixpoint non_empty_levels (i : nat) (files : list (list FilePtr)) : option Z :=
  match i with
  | O => Some 0
  | S i' =>
      fs ← files !! i';
      match fs with [] => non_empty_levels i' files | _ => Some (Z.of_nat i) end
  end.

Definition UpdateNumNonEmptyLevels (v : VersionStorageInfo) : option Z :=
  non_empty_levels (Z.to_nat (num_levels_ v)) (files_ v).

(** [GenerateLevelFilesBrief]. *)
Definition GenerateLevelFilesBrief (num_non_empty_levels : Z) (files : list (list FilePtr)) : list LevelFilesBrief :=
  DoGenerateLevelFilesBrief <$> take (Z.to_nat num_non_empty_levels) files.

Section Find.

Context (c : Comparator).

Definition PrepareForVersionAppend (v : VersionStorageInfo) : option LookupData :=
  n ← UpdateNumNonEmptyLevels v;
  fi ← UpdateIndex c n (files_ v);
  Some {| num_non_empty_levels_ := n; level_files_brief_ := GenerateLevelFilesBrief n (files_ v);
          file_indexer_ := fi |}.

(** ** Searching a level *)

(** Positions in [left, right). *)
Definition FindFileInRange (file_level : LevelFilesBrief) (key : bytes) (left right : Z) : option Z :=
  if right <? left then None
  else Z.of_nat <$> std_lower_bound (fun f => IKCompare c (fk_largest_key f) key <? 0) file_level
                      (Z.to_nat left) (Z.to_nat (right - left)).

Definition FindFile (file_level : LevelFilesBrief) (key : bytes) : option Z :=
  FindFileInRange file_level key 0 (slen file_level).

(** ** FilePicker *)

(** [curr_file_level_] is the level it points to. The indexes in the level are
    not read before [PrepareNextLevel] writes them. *)
Record FilePicker := {
  curr_level_ : Z;
  returned_file_level_ : Z;
  hit_file_level_ : Z;
  search_left_bound_ : Z;
  search_right_bound_ : Z;
  search_ended_ : bool;
  is_hit_file_last_in_level_ : bool;
  curr_file_level_ : option LevelFilesBrief;
  curr_index_in_curr_level_ : Z;
  start_index_in_curr_level_ : Z
}.

#[export] Instance FilePicker_Settable : Settable FilePicker :=
  fun r => Build_FilePicker
    (curr_level_ r) (returned_file_level_ r) (hit_file_level_ r) (search_left_bound_ r)
    (search_right_bound_ r) (search_ended_ r) (is_hit_file_last_in_level_ r) (curr_file_level_ r)
    (curr_index_in_curr_level_ r) (start_index_in_curr_level_ r).

(** The members that do not change. *)
Context (user_key_ ikey_ : bytes) (d : LookupData).

Abbreviation num_levels := (num_non_empty_levels_ d).

(** The whole next level is searched. *)
Definition full_search (p : FilePicker) : FilePicker :=
  p <| search_left_bound_ := 0 |> <| search_right_bound_ := kLevelMaxIndex |>.

Definition next_level (p : FilePicker) : FilePicker := p <| curr_level_ ::= fun l => u32 (l + 1) |>.

(** The loop of [PrepareNextLevel]; the result says whether there is a level to
    search. *)
Fixpoint prepare_loop (fuel : nat) (p : FilePicker) : option (bool * FilePicker) :=
  match fuel with
  | O => None
  | S fuel =>
      if num_levels <=? curr_level_ p then Some (false, p)
      else
        file_level ← level_files_brief_ d !! Z.to_nat (curr_level_ p);
        let p := p <| curr_file_level_ := Some file_level |> in
        if slen file_level =? 0 then prepare_loop fuel (next_level (full_search p))
        else if curr_level_ p =? 0 then
          Some (true, p <| start_index_in_curr_level_ := 0 |> <| curr_index_in_curr_level_ := 0 |>)
        else if search_left_bound_ p <=? search_right_bound_ p then
          let p := if search_right_bound_ p =? kLevelMaxIndex
                   then p <| search_right_bound_ := s32 (slen file_level) - 1 |> else p in
          start_index ← FindFileInRange file_level ikey_ (u32 (search_left_bound_ p))
                          (u32 (u32 (search_right_bound_ p) + 1));
          if start_index =? search_right_bound_ p + 1 then prepare_loop fuel (next_level (full_search p))
          else Some (true, p <| start_index_in_curr_level_ := start_index |>
                             <| curr_index_in_curr_level_ := start_index |>)
        else prepare_loop fuel (next_level (full_search p))
  end.

Definition PrepareNextLevel (p : FilePicker) : option (bool * FilePicker) :=
  prepare_loop (S (length (level_files_brief_ d))) (next_level p).

(** [search_ended_ = !PrepareNextLevel()]. *)
Definition advance (p : FilePicker) : option FilePicker :=
  '(more, p) ← PrepareNextLevel p; Some (p <| search_ended_ := negb more |>).

(** The constructor. *)
Definition FilePicker_new : option FilePicker :=
  advance {|
    curr_level_ := u32 (-1); returned_file_level_ := u32 (-1); hit_file_level_ := u32 (-1);
    search_left_bound_ := 0; search_right_bound_ := kLevelMaxIndex; search_ended_ := false;
    is_hit_file_last_in_level_ := false; curr_file_level_ := None; curr_index_in_curr_level_ := 0;
    start_index_in_curr_level_ := 0 |}.

(** The result is null when the search has ended. *)
Fixpoint next_file_loop (fuel : nat) (p : FilePicker) : option (option FdWithKeyRange * FilePicker) :=
  match fuel with
  | O => None
  | S fuel =>
      if search_ended_ p then Some (None, p)
      else
        file_level ← curr_file_level_ p;
        let index := curr_index_in_curr_level_ p in
        if slen file_level <=? index then p ← advance p; next_file_loop fuel p
        else
          f ← file_level !! Z.to_nat index;
          let p := p <| hit_file_level_ := curr_level_ p |>
                     <| is_hit_file_last_in_level_ := index =? slen file_level - 1 |> in
          let filtering := (1 <? num_levels) || (3 <? slen file_level) in
          let cmp_smallest := if filtering then user_cmp c user_key_ (ExtractUserKey (fk_smallest_key f)) else 0 in
          let cmp_largest := if filtering && (0 <=? cmp_smallest)
                             then user_cmp c user_key_ (ExtractUserKey (fk_largest_key f)) else -1 in
          p ← (if filtering && (0 <? curr_level_ p) then
                 '(left_bound, right_bound) ← GetNextLevelIndex (file_indexer_ d) (curr_level_ p) index cmp_smallest cmp_largest;
                 Some (p <| search_left_bound_ := left_bound |> <| search_right_bound_ := right_bound |>)
               else Some p);
          if filtering && ((cmp_smallest <? 0) || (0 <? cmp_largest)) then
            if curr_level_ p =? 0
            then next_file_loop fuel (p <| curr_index_in_curr_level_ ::= fun i => u32 (i + 1) |>)
            else p ← advance p; next_file_loop fuel p
          else
            let p := p <| returned_file_level_ := curr_level_ p |> in
            p ← (if (0 <? curr_level_ p) && (cmp_largest <? 0) then advance p
                 else Some (p <| curr_index_in_curr_level_ ::= fun i => u32 (i + 1) |>));
            Some (Some f, p)
  end.

(** A level-0 file is passed or a level is left in every round. *)
Definition GetNextFile (p : FilePicker) : option (option FdWithKeyRange * FilePicker) :=
  next_file_loop (2 + length (mjoin (level_files_brief_ d)) + length (level_files_brief_ d)) p.

(** The files the loop of [Version::Get] goes through if none has the answer;
    each call yields another file. *)
Fixpoint get_files (fuel : nat) (p : FilePicker) : option (list FdWithKeyRange) :=
  match fuel with
  | O => None
  | S fuel =>
      '(f, p) ← GetNextFile p;
      match f with
      | None => Some []
      | Some f => fs ← get_files fuel p; Some (f :: fs)
      end
  end.

Definition Get_files : option (list FdWithKeyRange) :=
  p ← FilePicker_new; get_files (S (length (mjoin (level_files_brief_ d)))) p.

End Find.
