(* ===== verification/FilePickerCorrect.v ===== *)
(** * The picker finds exactly the files that can hold a key

    [FilePicker] with the bounds of [FileIndexer] yields the same files as a
    scan of all levels: those of level 0 and then, level by level, those whose
    range contains the key and whose largest key is not before the lookup key. *)

From stdpp Require Import sorting.
From S2P Require Import Prelude Records StdMap Slice DbFormat Comparator VersionEdit VersionStorage VersionSpec VersionOrder VersionCheck VersionCorrect FileIndexer FilePicker.

Section Picker.

Context (c : Comparator) `{!ComparatorOk c} `{!ComparatorTsOk c}.
Context (files : list (list FilePtr)) (n : nat) (fi : FileIndexer).
Context (user_key_ ikey_ : bytes).

Abbreviation ucmp := (user_cmp c).

(** The array entry of a file. *)
Definition brief (f : FilePtr) : FdWithKeyRange :=
  {| fk_fd := fd (fp_meta f); fk_file_metadata := f;
     fk_smallest_key := smallest (fp_meta f); fk_largest_key := largest (fp_meta f) |}.

Definition data : LookupData :=
  {| num_non_empty_levels_ := Z.of_nat n; level_files_brief_ := GenerateLevelFilesBrief (Z.of_nat n) files;
     file_indexer_ := fi |}.

(** A level in the order of the internal comparator. *)
Definition largest_sorted (fs : list FilePtr) : Prop :=
  forall i j a b, (i < j)%nat -> fs !! i = Some a -> fs !! j = Some b ->
    IKCompare c (largest (fp_meta a)) (largest (fp_meta b)) <= 0.

Record levels_ok : Prop := {
  lo_n : (n <= length files)%nat;
  lo_n32 : Z.of_nat n < 2 ^ 31;
  lo_small : forall l fs, files !! l = Some fs -> slen fs < 2 ^ 31;
  lo_keys : forall l fs f, files !! l = Some fs -> f ∈ fs -> keys_ok (fp_meta f);
  lo_sorted : forall l fs, (1 <= l < n)%nat -> files !! l = Some fs -> level_sorted c fs;
  lo_largest : forall l fs, (1 <= l < n)%nat -> files !! l = Some fs -> largest_sorted fs;
  lo_indexer : indexer_ok c fi n files;
  lo_ikey : 8 <= slen ikey_;
  lo_user : ExtractUserKey ikey_ = user_key_
}.

(** ** The files that are wanted *)

Definition covers (f : FilePtr) : bool :=
  (0 <=? ucmp user_key_ (smallest_user f)) && (ucmp user_key_ (largest_user f) <=? 0).

(** Ranges are not looked at in a single level of three files or less. *)
Definition filtered (fs : list FilePtr) : bool := (1 <? Z.of_nat n) || (3 <? slen fs).

Definition wanted (l : nat) (fs : list FilePtr) (f : FilePtr) : bool :=
  negb (filtered fs) ||
  (covers f && ((l =? 0)%nat || (0 <=? IKCompare c (largest (fp_meta f)) ikey_))).

Definition level_wanted (l : nat) : list FilePtr :=
  match files !! l with Some fs => filter (fun f => wanted l fs f = true) fs | None => [] end.

Definition wanted_from (l : nat) : list FilePtr := mjoin (level_wanted <$> seq l (n - l)).

Lemma wanted_from_step l : (l < n)%nat -> wanted_from l = level_wanted l ++ wanted_from (S l).
Proof.
  intros Hl. unfold wanted_from. replace (n - l)%nat with (S (n - S l)) by lia. done.
Qed.

Lemma wanted_from_end : wanted_from n = [].
Proof. unfold wanted_from. by rewrite Nat.sub_diag. Qed.

Context (Hok : levels_ok).

Lemma level_brief l fs : (l < n)%nat -> files !! l = Some fs ->
  level_files_brief_ data !! l = Some (brief <$> fs).
Proof.
  intros Hl Hfs. cbn. unfold GenerateLevelFilesBrief. rewrite list_lookup_fmap, Nat2Z.id, lookup_take_lt, Hfs by done.
  done.
Qed.

Lemma level_exists l : (l < n)%nat -> exists fs, files !! l = Some fs.
Proof. intros Hl. apply lookup_lt_is_Some_2. pose proof (lo_n Hok). lia. Qed.

Lemma slen_fmap {A B : Type} (g : A -> B) (l : list A) : slen (g <$> l) = slen l.
Proof. unfold slen. by rewrite length_fmap. Qed.

(** In the levels that are searched with bounds, files left and right of the
    bounds are not wanted. *)
Lemma wanted_cover_iff l fs f : (1 <= l < n)%nat -> wanted l fs f = true <->
  0 <= ucmp user_key_ (smallest_user f) /\ ucmp user_key_ (largest_user f) <= 0 /\
  0 <= IKCompare c (largest (fp_meta f)) ikey_.
Proof.
  intros Hl. unfold wanted, filtered. rewrite (proj2 (Z.ltb_lt 1 (Z.of_nat n))) by lia. cbn [orb negb].
  rewrite (proj2 (Nat.eqb_neq l 0)) by lia. cbn [orb]. unfold covers. rewrite !andb_true_iff, !Z.leb_le. tauto.
Qed.

(** No file from [i] on is wanted. *)
Lemma filter_wanted_end l fs i : (forall j f, (i <= j)%nat -> fs !! j = Some f -> wanted l fs f = true -> False) ->
  filter (fun f => wanted l fs f = true) (drop i fs) = [].
Proof.
  intros H. destruct (filter _ (drop i fs)) as [|f rest] eqn:E; [done|]. exfalso.
  assert (Hin : f ∈ filter (fun f => wanted l fs f = true) (drop i fs)) by (rewrite E; left).
  apply list_elem_of_filter in Hin as [Hw Hin]. apply list_elem_of_lookup_1 in Hin as [j Hj].
  rewrite lookup_drop in Hj. by apply (H (i + j)%nat f); [lia|..].
Qed.

Lemma filter_wanted_from l fs i : (forall j f, (j < i)%nat -> fs !! j = Some f -> wanted l fs f = true -> False) ->
  filter (fun f => wanted l fs f = true) fs = filter (fun f => wanted l fs f = true) (drop i fs).
Proof.
  intros H. rewrite <- (take_drop i fs) at 1. rewrite list.filter_app.
  destruct (filter _ (take i fs)) as [|f rest] eqn:E; [done|]. exfalso.
  assert (Hin : f ∈ filter (fun f => wanted l fs f = true) (take i fs)) by (rewrite E; left).
  apply list_elem_of_filter in Hin as [Hw Hin]. apply list_elem_of_lookup_1 in Hin as [j Hj].
  apply lookup_take_Some in Hj as [Hj Hlt]. by apply (H j f).
Qed.

(** ** States of the picker *)

(** The bounds for level [l]: everything, or bounds of the indexer. *)
Definition bounds_for (l : nat) (p : FilePicker) : Prop :=
  (search_left_bound_ p = 0 /\ search_right_bound_ p = kLevelMaxIndex) \/
  ((1 <= l)%nat /\ forall fs, (l < n)%nat -> files !! l = Some fs ->
     left_ok c fs user_key_ (search_left_bound_ p) /\ right_ok c fs user_key_ (search_right_bound_ p)).

(** The picker is about to look at file [i] of level [l]. *)
Record at_file (p : FilePicker) (l i : nat) (fs : list FilePtr) : Prop := {
  af_level : curr_level_ p = Z.of_nat l;
  af_l : (l < n)%nat;
  af_files : files !! l = Some fs;
  af_curr : curr_file_level_ p = Some (brief <$> fs);
  af_index : curr_index_in_curr_level_ p = Z.of_nat i;
  af_i : (i <= length fs)%nat;
  af_first : l = 0%nat -> search_left_bound_ p = 0 /\ search_right_bound_ p = kLevelMaxIndex;
  af_reached : (1 <= l)%nat -> forall j f, (i <= j)%nat -> fs !! j = Some f ->
    0 <= IKCompare c (largest (fp_meta f)) ikey_;
  af_passed : (1 <= l)%nat -> forall j f, (j < i)%nat -> fs !! j = Some f ->
    ucmp (largest_user f) user_key_ <= 0;
  af_bounds : (1 <= l)%nat -> i = length fs -> bounds_for (S l) p
}.

Definition remaining (l i : nat) (fs : list FilePtr) : list FilePtr :=
  filter (fun f => wanted l fs f = true) (drop i fs) ++ wanted_from (S l).

(** The internal order refines the order of user keys. *)
Lemma IK_user a b : IKCompare c a b <= 0 -> ucmp (ExtractUserKey a) (ExtractUserKey b) <= 0.
Proof.
  unfold IKCompare. intros H. apply Cwt_coarse. revert H.
  destruct (Z.eqb_spec (Compare c (ExtractUserKey a) (ExtractUserKey b)) 0); lia.
Qed.

Lemma IK_flip_le a b : 8 <= slen a -> 8 <= slen b -> IKCompare c a b <= 0 <-> 0 <= IKCompare c b a.
Proof. intros Ha Hb. pose proof (IK_flip c a b Ha Hb). pose proof (IK_flip c b a Hb Ha). lia. Qed.

Lemma level_key l fs i f : files !! l = Some fs -> fs !! i = Some f -> 8 <= slen (largest (fp_meta f)).
Proof. intros Hfs Hf. by destruct (lo_keys Hok l fs f Hfs (list_elem_of_lookup_2 _ _ _ Hf)). Qed.

(** A binary search between bounds. *)
Lemma find_in_level l fs (L R : Z) : (1 <= l < n)%nat -> files !! l = Some fs -> 0 <= L <= R -> R < slen fs ->
  exists r : nat, FindFileInRange c (brief <$> fs) ikey_ L (R + 1) = Some (Z.of_nat r) /\ L <= Z.of_nat r <= R + 1 /\
    (forall j f, L <= Z.of_nat j < Z.of_nat r -> fs !! j = Some f -> IKCompare c (largest (fp_meta f)) ikey_ < 0) /\
    (forall j f, Z.of_nat r <= Z.of_nat j -> Z.of_nat r <= R -> fs !! j = Some f ->
       0 <= IKCompare c (largest (fp_meta f)) ikey_).
Proof.
  intros Hl Hfs HLR HR. unfold FindFileInRange. rewrite (proj2 (Z.ltb_ge _ _)) by lia.
  pose proof (lo_ikey Hok) as Hik. pose proof (lo_largest Hok l fs Hl Hfs) as Hlg.
  assert (Hup : forall i j a b, (i < j)%nat -> fs !! i = Some a -> fs !! j = Some b ->
            IKCompare c (largest (fp_meta b)) ikey_ < 0 -> IKCompare c (largest (fp_meta a)) ikey_ < 0).
  { intros i j a b Hij Ha Hb Hlt. specialize (Hlg i j a b Hij Ha Hb).
    apply (IK_lt_trans c _ (largest (fp_meta b))); [by eapply level_key..|done|done|lia|by right]. }
  destruct (std_lower_bound_spec (fun f => IKCompare c (fk_largest_key f) ikey_ <? 0) (brief <$> fs)
    (Z.to_nat L) (Z.to_nat (R + 1 - L))) as (r & -> & Hr & Hlo & Hhi).
  - rewrite length_fmap. unfold slen in HR. lia.
  - intros i j x y Hij Hx Hy. rewrite list_lookup_fmap in Hx, Hy.
    destruct (fs !! i) as [a|] eqn:Ea; [|done]. destruct (fs !! j) as [b|] eqn:Eb; [|done].
    injection Hx as <-. injection Hy as <-. cbn. rewrite !Z.ltb_lt. by apply (Hup i j).
  - exists r. split; [done|]. split; [lia|].
    assert (Hat : forall j f, fs !! j = Some f -> (brief <$> fs) !! j = Some (brief f))
      by (intros j f Hf; by rewrite list_lookup_fmap, Hf). split.
    + intros j f Hj Hf. specialize (Hlo j (brief f) ltac:(lia) (Hat j f Hf)). by apply Z.ltb_lt in Hlo.
    + intros j f Hj Hrr Hf. destruct (Z.le_gt_cases (Z.of_nat j) R).
      * specialize (Hhi j (brief f) ltac:(lia) (Hat j f Hf)). by apply Z.ltb_ge in Hhi.
      * destruct (lookup_lt_is_Some_2 fs r) as [g Hg]; [unfold slen in HR; lia|].
        specialize (Hhi r (brief g) ltac:(lia) (Hat r g Hg)). apply Z.ltb_ge in Hhi. cbn in Hhi.
        destruct (Z.lt_ge_cases (IKCompare c (largest (fp_meta f)) ikey_) 0) as [Hlt|]; [|done].
        pose proof (Hup r j g f ltac:(lia) Hg Hf Hlt). lia.
Qed.

Abbreviation prepare_loop := (prepare_loop c ikey_ data).
Abbreviation advance := (advance c ikey_ data).

Lemma next_level_curr p l : curr_level_ p = Z.of_nat l -> (l < n)%nat -> curr_level_ (next_level p) = Z.of_nat (S l).
Proof.
  intros Hp Hl. unfold next_level, modify. cbn. rewrite Hp. pose proof (lo_n32 Hok).
  rewrite u32_id by (unfold is_u32; lia). lia.
Qed.

(** Outside the bounds nothing is wanted. *)
Lemma outside_left l fs L j f : (1 <= l < n)%nat -> left_ok c fs user_key_ L -> fs !! j = Some f ->
  Z.of_nat j < L -> wanted l fs f = true -> False.
Proof. intros Hl [_ H] Hf Hj. rewrite wanted_cover_iff by done. specialize (H j f Hf Hj). lia. Qed.

Lemma outside_right l fs R j f : (1 <= l < n)%nat -> right_ok c fs user_key_ R -> fs !! j = Some f ->
  R < Z.of_nat j -> wanted l fs f = true -> False.
Proof. intros Hl [_ H] Hf Hj. rewrite wanted_cover_iff by done. specialize (H j f Hf Hj). lia. Qed.

Definition prepared (l : nat) (res : bool * FilePicker) : Prop :=
  if res.1 then exists l' i fs, (l <= l')%nat /\ at_file res.2 l' i fs /\ wanted_from l = remaining l' i fs
  else wanted_from l = [].

(** A level without wanted files is passed. *)
Lemma prepared_skip l res fs : (l < n)%nat -> files !! l = Some fs ->
  filter (fun f => wanted l fs f = true) fs = [] -> prepared (S l) res -> prepared l res.
Proof.
  intros Hl Hfs Hnone. unfold prepared. rewrite (wanted_from_step l) by done. unfold level_wanted. rewrite Hfs, Hnone.
  cbn [app]. destruct (res.1); [|done]. intros (l' & i & fs' & ? & ? & ?). exists l', i, fs'. split; [lia|done].
Qed.

Lemma full_search_bounds l p : bounds_for l (full_search p).
Proof. left. done. Qed.

Lemma filter_wanted_none l fs : (forall j f, fs !! j = Some f -> wanted l fs f = true -> False) ->
  filter (fun f => wanted l fs f = true) fs = [].
Proof. intros H. pose proof (filter_wanted_end l fs 0 (fun j f _ => H j f)) as E. by rewrite drop_0 in E. Qed.

(** The bounds with the whole level written out. *)
Lemma bounds_normal l p fs : (1 <= l < n)%nat -> files !! l = Some fs -> slen fs <> 0 -> bounds_for l p ->
  exists R, left_ok c fs user_key_ (search_left_bound_ p) /\ right_ok c fs user_key_ R /\
    ((search_right_bound_ p = kLevelMaxIndex /\ R = slen fs - 1 /\ search_left_bound_ p = 0) \/
     (search_right_bound_ p = R /\ search_right_bound_ p <> kLevelMaxIndex)).
Proof.
  intros Hl Hfs Hne Hb. pose proof (slen_nonneg fs) as Hpos. pose proof (lo_small Hok l fs Hfs) as Hsm.
  destruct Hb as [[HL HR]|[_ H]].
  - exists (slen fs - 1). rewrite HL. split_and!; [split; [lia|intros; lia]| |left; done].
    split; [lia|]. intros i b Hi%lookup_lt_Some Hgt. unfold slen in Hgt. lia.
  - destruct (H fs ltac:(lia) Hfs) as [HL HR]. exists (search_right_bound_ p). split_and!; [done|done|].
    right. split; [done|]. destruct HR as [? _]. unfold kLevelMaxIndex. lia.
Qed.

(** Where a search within bounds stops, and what it passed over. *)
Lemma search_level l fs L R : (1 <= l < n)%nat -> files !! l = Some fs -> left_ok c fs user_key_ L ->
  right_ok c fs user_key_ R -> L <= R ->
  exists r : nat, FindFileInRange c (brief <$> fs) ikey_ L (R + 1) = Some (Z.of_nat r) /\ Z.of_nat r <= R + 1 /\
    (forall j f, (j < r)%nat -> fs !! j = Some f -> ucmp (largest_user f) user_key_ <= 0) /\
    (forall j f, (j < r)%nat -> fs !! j = Some f -> wanted l fs f = true -> False) /\
    (Z.of_nat r = R + 1 -> forall j f, fs !! j = Some f -> wanted l fs f = true -> False) /\
    (Z.of_nat r <> R + 1 -> forall j f, (r <= j)%nat -> fs !! j = Some f -> 0 <= IKCompare c (largest (fp_meta f)) ikey_).
Proof.
  intros Hl Hfs HL HR HLR. destruct (find_in_level l fs L R Hl Hfs) as (r & E & Hr & Hlo & Hhi).
  { destruct HL as [? _]. lia. }
  { destruct HR as [? _]. lia. }
  assert (Hnot : forall j f, (j < r)%nat -> fs !! j = Some f -> wanted l fs f = true -> False).
  { intros j f Hj Hf Hw. destruct (Z.lt_ge_cases (Z.of_nat j) L); [by apply (outside_left l fs L j f)|].
    rewrite wanted_cover_iff in Hw by done. specialize (Hlo j f ltac:(lia) Hf). lia. }
  exists r. split; [done|]. split; [lia|]. split_and!; [|exact Hnot| |].
  - intros j f Hj Hf. destruct (Z.lt_ge_cases (Z.of_nat j) L) as [HjL|HjL].
    + destruct HL as [_ HLx]. specialize (HLx j f Hf HjL). apply ucmp_flip_le; [done|]. lia.
    + specialize (Hlo j f ltac:(lia) Hf). rewrite <- (lo_user Hok). apply IK_user. lia.
  - intros Er j f Hf. destruct (decide (j < r)%nat); [by apply (Hnot j)|].
    by apply (outside_right l fs R j f); [..|lia].
  - intros Er j f Hj. apply Hhi; lia.
Qed.

Lemma prepare_loop_spec fuel p l : curr_level_ p = Z.of_nat l -> (l <= n)%nat -> (n - l < fuel)%nat -> bounds_for l p ->
  exists res, prepare_loop fuel p = Some res /\ prepared l res.
Proof.
  revert p l. induction fuel as [|fuel IH]; intros p l Hp Hln Hfuel Hb; [lia|]. cbn [FilePicker.prepare_loop]. rewrite Hp.
  change (num_non_empty_levels_ data) with (Z.of_nat n). destruct (Z.leb_spec (Z.of_nat n) (Z.of_nat l)) as [Hge|Hlt].
  { exists (false, p). split; [done|]. replace l with n by lia. apply wanted_from_end. }
  destruct (level_exists l ltac:(lia)) as [fs Hfs]. rewrite Nat2Z.id, (level_brief l fs) by done || lia.
  cbn [mbind option_bind]. set (p1 := p <| curr_file_level_ := Some (brief <$> fs) |>).
  assert (Hskip : forall q, curr_level_ q = Z.of_nat l -> filter (fun f => wanted l fs f = true) fs = [] ->
            exists res, prepare_loop fuel (next_level (full_search q)) = Some res /\ prepared l res).
  { intros q Hq Hnone. destruct (IH (next_level (full_search q)) (S l)) as (res & E & Hres);
      [apply next_level_curr; [done|lia]|lia|lia|by left|].
    exists res. split; [done|]. by apply (prepared_skip l res fs); [lia|..]. }
  rewrite slen_fmap. destruct (Z.eqb_spec (slen fs) 0) as [E0|E0].
  { apply Hskip; [done|]. destruct fs; [done|]. rewrite slen_cons in E0. pose proof (slen_nonneg fs). lia. }
  change (curr_level_ p1) with (curr_level_ p). rewrite Hp. destruct (Z.eqb_spec (Z.of_nat l) 0) as [El|El].
  { eexists. split; [reflexivity|]. exists l, 0%nat, fs. cbn [fst snd]. split; [lia|]. split.
    - constructor; try done; try lia. intros _. destruct Hb as [[? ?]|[? _]]; [done|lia].
    - unfold remaining. rewrite drop_0, (wanted_from_step l) by lia. unfold level_wanted. by rewrite Hfs. }
  assert (Hl : (1 <= l < n)%nat) by lia. pose proof (slen_nonneg fs) as Hpos. pose proof (lo_small Hok l fs Hfs) as Hsm.
  destruct (bounds_normal l p fs Hl Hfs E0 Hb) as (R & HL & HR & Hcase).
  change (search_left_bound_ p1) with (search_left_bound_ p). change (search_right_bound_ p1) with (search_right_bound_ p).
  set (L := search_left_bound_ p) in *.
  assert ((L <=? search_right_bound_ p) = (L <=? R)) as ->.
  { destruct Hcase as [(-> & -> & ->)|[-> _]]; [|done]. symmetry.
    rewrite (proj2 (Z.leb_le 0 kLevelMaxIndex)), (proj2 (Z.leb_le 0 (slen fs - 1))) by (unfold kLevelMaxIndex; lia). done. }
  destruct (Z.leb_spec L R) as [HLR|HLR].
  2:{ apply Hskip; [done|]. apply filter_wanted_none. intros j f Hf Hw. destruct (Z.lt_ge_cases (Z.of_nat j) L).
      - by apply (outside_left l fs L j f).
      - by apply (outside_right l fs R j f); [..|lia|]. }
  set (p2 := if search_right_bound_ p =? kLevelMaxIndex then _ else p1).
  assert (Hp2 : curr_level_ p2 = Z.of_nat l /\ search_left_bound_ p2 = L /\ search_right_bound_ p2 = R /\
            curr_file_level_ p2 = Some (brief <$> fs)).
  { unfold p2. destruct Hcase as [(-> & -> & _)|[E Hne]].
    - rewrite Z.eqb_refl, s32_id by (unfold is_s32; lia). done.
    - by rewrite (proj2 (Z.eqb_neq _ _)). }
  destruct Hp2 as (Hc2 & -> & HR2 & Hf2). rewrite HR2. pose proof HL as [HLr _]. pose proof HR as [HRr _].
  rewrite (u32_id L), (u32_id R), (u32_id (R + 1)) by (unfold is_u32; lia).
  destruct (search_level l fs L R Hl Hfs HL HR HLR) as (r & -> & Hr & Hpass & Hnot & Hend & Hreach).
  cbn [mbind option_bind]. destruct (Z.eqb_spec (Z.of_nat r) (R + 1)) as [Er|Er].
  { apply Hskip; [done|]. apply filter_wanted_none. by apply Hend. }
  eexists. split; [reflexivity|]. exists l, r, fs. cbn [fst snd]. split; [lia|]. split.
  - constructor; try done; try lia; [unfold slen in *; lia|by intros _; apply Hreach|intros _ ->; unfold slen in *; lia].
  - unfold remaining. rewrite (wanted_from_step l) by lia. unfold level_wanted. rewrite Hfs. f_equal. by apply filter_wanted_from.
Qed.

(** ** Steps of the picker *)

(** The picker has ended, or is somewhere from level [l] on. *)
Definition state (l : nat) (p : FilePicker) (rest : list FilePtr) : Prop :=
  if search_ended_ p then rest = []
  else exists l' i fs, (l <= l')%nat /\ at_file p l' i fs /\ rest = remaining l' i fs.

(** What matters of a picker. *)
Lemma at_file_ext p q l i fs : at_file p l i fs -> curr_level_ q = curr_level_ p ->
  curr_file_level_ q = curr_file_level_ p -> curr_index_in_curr_level_ q = curr_index_in_curr_level_ p ->
  search_left_bound_ q = search_left_bound_ p -> search_right_bound_ q = search_right_bound_ p -> at_file q l i fs.
Proof.
  intros [] E1 E2 E3 E4 E5. constructor; try congruence; try done.
  - rewrite E4, E5. done.
  - unfold bounds_for in *. rewrite E4, E5. done.
Qed.

Lemma prepared_state l more p : prepared l (more, p) -> state l (p <| search_ended_ := negb more |>) (wanted_from l).
Proof.
  unfold prepared, state. destruct more; cbn; [|done]. intros (l' & i & fs & Hl & Ha & ->). exists l', i, fs.
  split; [done|]. split; [|done]. by apply (at_file_ext p).
Qed.

Lemma advance_spec p l : curr_level_ p = Z.of_nat l -> (l < n)%nat -> bounds_for (S l) p ->
  exists p', advance p = Some p' /\ state (S l) p' (wanted_from (S l)).
Proof.
  intros Hp Hl Hb. unfold FilePicker.advance, PrepareNextLevel.
  destruct (prepare_loop_spec (S (length (level_files_brief_ data))) (next_level p) (S l)) as ([more p'] & -> & Hr).
  - by apply next_level_curr.
  - lia.
  - cbn. unfold GenerateLevelFilesBrief. rewrite length_fmap, length_take, Nat2Z.id. pose proof (lo_n Hok). lia.
  - done.
  - cbn [mbind option_bind]. eexists. split; [reflexivity|]. by apply prepared_state.
Qed.

(** The bounds after a file was compared with the key. *)
Lemma next_index_spec p l i fs f : at_file p l i fs -> (1 <= l)%nat -> fs !! i = Some f ->
  let cs := ucmp user_key_ (smallest_user f) in
  let cl := if 0 <=? cs then ucmp user_key_ (largest_user f) else -1 in
  exists L R, GetNextLevelIndex fi (Z.of_nat l) (Z.of_nat i) cs cl = Some (L, R) /\
    bounds_for (S l) (p <| search_left_bound_ := L |> <| search_right_bound_ := R |>).
Proof.
  intros Ha Hl Hf cs cl. pose proof (af_l _ _ _ _ Ha) as Hln. pose proof (lo_n32 Hok) as H32.
  destruct (decide (S l < n)%nat) as [Hlt|Hge].
  - destruct (level_exists (S l) Hlt) as [lowers Hlo].
    destruct (next_bounds_ok c fi n files l i fs lowers f user_key_ cl (lo_indexer Hok)) as (L & R & E & HL & HR);
      try done; [lia|by apply (af_files _ _ _ _ Ha)| | |].
    + intros Hcs. unfold cl. by rewrite (proj2 (Z.leb_le _ _)).
    + intros _ b Hi Hb. by apply (af_passed _ _ _ _ Ha Hl (i - 1)%nat b); [lia|].
    + exists L, R. split; [done|]. right. split; [lia|]. intros fs' _ Hfs'. by assert (fs' = lowers) as -> by congruence.
  - exists 0, (-1). split.
    + unfold GetNextLevelIndex. rewrite (ik_levels _ _ _ _ (lo_indexer Hok)), u64_id by (unfold is_u64; lia).
      by rewrite (proj2 (Z.eqb_eq _ _)) by lia.
    + right. split; [lia|]. intros. lia.
Qed.

Lemma remaining_cons l i fs f : fs !! i = Some f ->
  remaining l i fs = (if wanted l fs f then [f] else []) ++ remaining l (S i) fs.
Proof.
  intros Hf. unfold remaining. rewrite (drop_S fs f i) by done. rewrite list.filter_cons.
  destruct (wanted l fs f); [by rewrite decide_True|by rewrite decide_False].
Qed.

(** In level [l >= 1] no file after one that begins after the key, or ends
    after it, is wanted. *)
Lemma rest_above p l i fs f : at_file p l i fs -> (1 <= l)%nat -> fs !! i = Some f ->
  ucmp user_key_ (smallest_user f) < 0 -> remaining l i fs = wanted_from (S l).
Proof.
  intros Ha Hl Hf Hcs. pose proof (af_l _ _ _ _ Ha) as Hln. unfold remaining. rewrite filter_wanted_end; [done|].
  intros j g Hj Hg Hw. rewrite wanted_cover_iff in Hw by lia. destruct Hw as [Hw _].
  pose proof (level_sorted_smallest c fs i j f g (lo_sorted Hok l fs ltac:(lia) (af_files _ _ _ _ Ha)) Hj Hf Hg) as Hle.
  pose proof (ucmp_lt_trans c _ _ _ ltac:(apply Z.lt_le_incl, Hcs) Hle (or_introl Hcs)). lia.
Qed.

Lemma rest_inside p l i fs f : at_file p l i fs -> (1 <= l)%nat -> fs !! i = Some f ->
  ucmp user_key_ (largest_user f) < 0 -> remaining l (S i) fs = wanted_from (S l).
Proof.
  intros Ha Hl Hf Hcl. pose proof (af_l _ _ _ _ Ha) as Hln. unfold remaining. rewrite filter_wanted_end; [done|].
  intros j g Hj Hg Hw. rewrite wanted_cover_iff in Hw by lia. destruct Hw as [Hw _].
  pose proof (ls_below c fs (lo_sorted Hok l fs ltac:(lia) (af_files _ _ _ _ Ha)) i j f g ltac:(lia) Hf Hg) as Hle.
  pose proof (ucmp_lt_trans c _ _ _ ltac:(apply Z.lt_le_incl, Hcl) Hle (or_introl Hcl)). lia.
Qed.

(** Passing a file. *)
Lemma at_file_next p l i fs f : at_file p l i fs -> fs !! i = Some f ->
  ((1 <= l)%nat -> ucmp (largest_user f) user_key_ <= 0 /\ bounds_for (S l) p) ->
  at_file (p <| curr_index_in_curr_level_ ::= fun i => u32 (i + 1) |>) l (S i) fs.
Proof.
  intros [] Hf Hnext. pose proof (lookup_lt_Some _ _ _ Hf) as Hi.
  constructor; unfold modify; cbn; try done.
  - rewrite af_index0. pose proof (lo_small Hok l fs af_files0) as Hs. unfold slen in Hs.
    rewrite u32_id by (unfold is_u32; lia). lia.
  - intros Hl j g Hj. apply af_reached0; [done|lia].
  - intros Hl j g Hj Hg. destruct (decide (j = i)) as [->|]; [|apply (af_passed0 Hl j g); done || lia].
    assert (g = f) as -> by congruence. by apply Hnext.
  - intros Hl _. apply Hnext. lia.
Qed.

Abbreviation next_file_loop := (next_file_loop c user_key_ ikey_ data).

(** What a call of [GetNextFile] returns when [rest] is left. *)
Definition yields (rest : list FilePtr) (res : option FdWithKeyRange * FilePicker) : Prop :=
  match res.1 with
  | None => rest = []
  | Some b => exists f rest', b = brief f /\ rest = f :: rest' /\ state 0 res.2 rest'
  end.

(** How many rounds are left. *)
Definition rounds (l i : nat) (fs : list FilePtr) : nat :=
  (n - l + (if (l =? 0)%nat then length fs - i else 0) + 2)%nat.

Lemma state_weaken l p rest : state l p rest -> state 0 p rest.
Proof. unfold state. destruct (search_ended_ p); [done|]. intros (l' & i & fs & _ & ?). exists l', i, fs. split; [lia|done]. Qed.

Section Round.

Context (fuel : nat).
Context (IH : forall p l i fs, search_ended_ p = false -> at_file p l i fs -> (rounds l i fs <= fuel)%nat ->
  exists res, next_file_loop fuel p = Some res /\ yields (remaining l i fs) res).

(** Going on in a later level. *)
Lemma go_on p l : curr_level_ p = Z.of_nat l -> (l < n)%nat -> bounds_for (S l) p -> (n - l + 1 <= fuel)%nat ->
  exists res, (p' ← advance p; next_file_loop fuel p') = Some res /\ yields (wanted_from (S l)) res.
Proof.
  intros Hp Hl Hb Hf. destruct (advance_spec p l Hp Hl Hb) as (p' & -> & Hs). cbn [mbind option_bind].
  unfold state in Hs. destruct (search_ended_ p') eqn:Ee.
  - destruct fuel as [|fuel']; [lia|]. cbn [FilePicker.next_file_loop]. rewrite Ee. eexists. split; [reflexivity|done].
  - destruct Hs as (l' & i & fs & Hl' & Ha & ->). apply IH; [done|done|]. unfold rounds.
    pose proof (af_l _ _ _ _ Ha). destruct l'; [lia|]. cbn [Nat.eqb]. lia.
Qed.

(** The end of the round after a file of level [l >= 1] was compared. *)
Lemma deep_round p l i fs f : at_file p l i fs -> (1 <= l)%nat -> fs !! i = Some f -> bounds_for (S l) p ->
  search_ended_ p = false -> (n - l + 1 <= fuel)%nat ->
  let cs := ucmp user_key_ (smallest_user f) in
  let cl := if 0 <=? cs then ucmp user_key_ (largest_user f) else -1 in
  exists res,
    (if (cs <? 0) || (0 <? cl) then p' ← advance p; next_file_loop fuel p'
     else p' ← (if cl <? 0 then advance (p <| returned_file_level_ := curr_level_ p |>)
                else Some (p <| returned_file_level_ := curr_level_ p |>
                             <| curr_index_in_curr_level_ ::= fun i => u32 (i + 1) |>));
          Some (Some (brief f), p')) = Some res /\ yields (remaining l i fs) res.
Proof.
  intros Ha Hl Hf Hb He Hfuel cs cl. pose proof (af_l _ _ _ _ Ha) as Hln.
  pose proof (af_reached _ _ _ _ Ha Hl i f ltac:(lia) Hf) as Hreach.
  pose proof (level_key l fs i f (af_files _ _ _ _ Ha) Hf) as Hkey. pose proof (lo_ikey Hok) as Hik.
  assert (Hle : ucmp user_key_ (largest_user f) <= 0).
  { rewrite <- (lo_user Hok). apply IK_user. by apply IK_flip_le. }
  destruct (Z.ltb_spec cs 0) as [Hcs|Hcs]; cbn [orb].
  { rewrite (rest_above p l i fs f) by done. by apply go_on; [apply Ha|..]. }
  unfold cl. rewrite (proj2 (Z.leb_le 0 cs)) by done. rewrite (proj2 (Z.ltb_ge 0 _)) by done.
  assert (Hw : wanted l fs f = true) by (by apply wanted_cover_iff; [lia|]).
  rewrite (remaining_cons l i fs f), Hw by done. cbn [app].
  destruct (Z.ltb_spec (ucmp user_key_ (largest_user f)) 0) as [Hcl|Hcl].
  - rewrite (rest_inside p l i fs f) by done.
    destruct (advance_spec (p <| returned_file_level_ := curr_level_ p |>) l) as (p' & -> & Hs);
      [apply Ha|done|done|]. cbn [mbind option_bind]. eexists. split; [reflexivity|].
    eexists _, _. split; [done|]. split; [done|]. by apply state_weaken in Hs.
  - cbn [mbind option_bind]. eexists. split; [reflexivity|]. eexists _, _. split; [done|]. split; [done|]. unfold state. cbn.
    rewrite He. exists l, (S i), fs. split; [lia|]. split; [|done]. apply (at_file_next _ l i fs f); [|done|].
    + by apply (at_file_ext p).
    + intros _. split; [apply ucmp_flip_le; [done|lia]|exact Hb].
Qed.

(** The round in level 0. *)
Lemma first_round p i fs f : at_file p 0 i fs -> fs !! i = Some f -> search_ended_ p = false ->
  (rounds 0 i fs <= S fuel)%nat ->
  let cs := if filtered fs then ucmp user_key_ (smallest_user f) else 0 in
  let cl := if filtered fs && (0 <=? cs) then ucmp user_key_ (largest_user f) else -1 in
  exists res,
    (if filtered fs && ((cs <? 0) || (0 <? cl))
     then next_file_loop fuel (p <| curr_index_in_curr_level_ ::= fun i => u32 (i + 1) |>)
     else Some (Some (brief f), p <| returned_file_level_ := curr_level_ p |>
                                  <| curr_index_in_curr_level_ ::= fun i => u32 (i + 1) |>)) = Some res /\
    yields (remaining 0 i fs) res.
Proof.
  intros Ha Hf He Hfuel cs cl. pose proof (lookup_lt_Some _ _ _ Hf) as Hi.
  assert (Hnext : forall q, at_file q 0 i fs -> at_file (q <| curr_index_in_curr_level_ ::= fun i => u32 (i + 1) |>) 0 (S i) fs).
  { intros q Hq. apply (at_file_next q 0 i fs f); [done|done|lia]. }
  assert (Hskip : wanted 0 fs f = negb (filtered fs && ((cs <? 0) || (0 <? cl)))).
  { unfold wanted, cl, cs, covers. destruct (filtered fs); [|done]. cbn [negb orb andb Nat.eqb]. rewrite andb_true_r.
    set (x := ucmp user_key_ (smallest_user f)). set (y := ucmp user_key_ (largest_user f)).
    destruct (Z.leb_spec 0 x), (Z.ltb_spec x 0), (Z.leb_spec y 0), (Z.ltb_spec 0 y); try lia; done. }
  rewrite (remaining_cons 0 i fs f), Hskip by done. clearbody cs cl. destruct (filtered fs && ((cs <? 0) || (0 <? cl))); cbn [negb app].
  - apply IH; [done|by apply Hnext|]. unfold rounds in *. cbn [Nat.eqb] in *. lia.
  - eexists. split; [reflexivity|]. eexists _, _. split; [done|]. split; [done|]. unfold state. cbn. rewrite He.
    exists 0%nat, (S i), fs. split; [lia|]. split; [|done]. apply Hnext. by apply (at_file_ext p).
Qed.

End Round.

Lemma next_file_loop_spec fuel p l i fs : search_ended_ p = false -> at_file p l i fs -> (rounds l i fs <= fuel)%nat ->
  exists res, next_file_loop fuel p = Some res /\ yields (remaining l i fs) res.
Proof.
  revert p l i fs. induction fuel as [|fuel IH]; intros p l i fs He Ha Hfuel; [unfold rounds in Hfuel; lia|].
  cbn [FilePicker.next_file_loop]. rewrite He, (af_curr _ _ _ _ Ha). cbn [mbind option_bind].
  rewrite (af_index _ _ _ _ Ha), slen_fmap. pose proof (af_l _ _ _ _ Ha) as Hl. pose proof (af_level _ _ _ _ Ha) as Hp.
  destruct (Z.leb_spec (slen fs) (Z.of_nat i)) as [Hge|Hlt].
  { assert (i = length fs) as Hi by (pose proof (af_i _ _ _ _ Ha); unfold slen in Hge; lia).
    assert (remaining l i fs = wanted_from (S l)) as -> by (unfold remaining; by rewrite Hi, drop_all).
    apply (go_on fuel IH p l Hp Hl); [|unfold rounds in Hfuel; lia].
    destruct l as [|l]; [left; by apply (af_first _ _ _ _ Ha)|]. apply (af_bounds _ _ _ _ Ha); [lia|done]. }
  destruct (lookup_lt_is_Some_2 fs i) as [f Hf]; [unfold slen in Hlt; lia|].
  rewrite Nat2Z.id, list_lookup_fmap, Hf. cbn [fmap option_fmap option_map mbind option_bind].
  change (num_non_empty_levels_ data) with (Z.of_nat n). fold (filtered fs).
  change (ExtractUserKey (fk_smallest_key (brief f))) with (smallest_user f).
  change (ExtractUserKey (fk_largest_key (brief f))) with (largest_user f).
  set (p1 := p <| hit_file_level_ := curr_level_ p |> <| is_hit_file_last_in_level_ := Z.of_nat i =? slen fs - 1 |>).
  assert (Ha1 : at_file p1 l i fs) by (by apply (at_file_ext p)). change (curr_level_ p1) with (curr_level_ p). rewrite Hp.
  destruct l as [|l].
  - rewrite andb_false_r. cbn [mbind option_bind].
    change (curr_level_ (p1 <| returned_file_level_ := curr_level_ p1 |>)) with (curr_level_ p).
    change (curr_level_ p1) with (curr_level_ p). rewrite Hp.
    pose proof (first_round fuel IH p1 i fs f Ha1 Hf He Hfuel) as Hd. cbv zeta in Hd.
    change (curr_level_ p1) with (curr_level_ p) in Hd. rewrite Hp in Hd. exact Hd.
  - assert (filtered fs = true) as ->.
    { unfold filtered. by rewrite (proj2 (Z.ltb_lt 1 (Z.of_nat n))) by lia. }
    rewrite (proj2 (Z.ltb_lt 0 (Z.of_nat (S l)))) by lia. cbn [andb].
    change (file_indexer_ data) with fi. destruct (next_index_spec p1 (S l) i fs f Ha1 ltac:(lia) Hf) as (L & R & -> & Hb). cbn [mbind option_bind].
    set (p2 := p1 <| search_left_bound_ := L |> <| search_right_bound_ := R |>) in *.
    assert (Ha2 : at_file p2 (S l) i fs).
    { destruct Ha1. by constructor. }
    change (curr_level_ (p2 <| returned_file_level_ := curr_level_ p2 |>)) with (curr_level_ p).
    change (curr_level_ p2) with (curr_level_ p). rewrite Hp, (proj2 (Z.eqb_neq (Z.of_nat (S l)) 0)) by lia.
    rewrite (proj2 (Z.ltb_lt 0 (Z.of_nat (S l)))) by lia. cbn [andb].
    pose proof (deep_round fuel IH p2 (S l) i fs f Ha2 ltac:(lia) Hf Hb He) as Hd.
    change (curr_level_ p2) with (curr_level_ p) in Hd. rewrite Hp in Hd. apply Hd. unfold rounds in Hfuel. lia.
Qed.

Lemma GetNextFile_spec p rest : state 0 p rest ->
  exists res, GetNextFile c user_key_ ikey_ data p = Some res /\ yields rest res.
Proof.
  unfold state, GetNextFile. destruct (search_ended_ p) eqn:E.
  - intros ->. cbn [Nat.add FilePicker.next_file_loop]. rewrite E. eexists. split; [reflexivity|done].
  - intros (l & i & fs & _ & Ha & ->). apply next_file_loop_spec; [done|done|]. unfold rounds.
    cbn [level_files_brief_ data]. pose proof (lo_n Hok) as Hn. pose proof (af_l _ _ _ _ Ha) as Hl.
    assert (Hlen : length (GenerateLevelFilesBrief (Z.of_nat n) files) = n).
    { unfold GenerateLevelFilesBrief. rewrite length_fmap, length_take, Nat2Z.id. lia. }
    destruct l as [|l]; cbn [Nat.eqb]; [|lia].
    assert (length fs <= length (mjoin (GenerateLevelFilesBrief (Z.of_nat n) files)))%nat; [|lia].
    pose proof (level_brief 0 fs Hl (af_files _ _ _ _ Ha)) as Hb. cbn in Hb.
    destruct (GenerateLevelFilesBrief (Z.of_nat n) files) as [|b bs]; [done|]. injection Hb as ->.
    cbn. rewrite length_app, length_fmap. lia.
Qed.

(** No more files than there are. *)
Lemma wanted_length l : (length (wanted_from l) <= length (mjoin (drop l (take n files))))%nat.
Proof.
  remember (n - l)%nat as k eqn:Ek. revert l Ek. induction k as [|k IH]; intros l Ek.
  - unfold wanted_from. rewrite <- Ek. cbn. lia.
  - rewrite wanted_from_step, length_app by lia. specialize (IH (S l) ltac:(lia)).
    destruct (level_exists l ltac:(lia)) as [fs Hfs].
    rewrite (drop_S _ fs l) by (by rewrite lookup_take_lt by lia).
    change (mjoin (fs :: drop (S l) (take n files))) with (fs ++ mjoin (drop (S l) (take n files))). rewrite length_app.
    unfold level_wanted. rewrite Hfs. pose proof (list.length_filter (fun f => wanted l fs f = true) fs). lia.
Qed.

Lemma get_files_spec fuel p rest : state 0 p rest -> (length rest < fuel)%nat ->
  get_files c user_key_ ikey_ data fuel p = Some (brief <$> rest).
Proof.
  revert p rest. induction fuel as [|fuel IH]; intros p rest Hs Hf; [lia|]. cbn [get_files].
  destruct (GetNextFile_spec p rest Hs) as ([b p'] & -> & Hy). cbn [mbind option_bind]. unfold yields in Hy. cbn [fst snd] in Hy.
  destruct b as [b|]; [|by rewrite Hy]. destruct Hy as (f & rest' & -> & -> & Hs').
  rewrite (IH p' rest' Hs') by (cbn in Hf; lia). done.
Qed.

Lemma length_briefs (fss : list (list FilePtr)) :
  length (mjoin (DoGenerateLevelFilesBrief <$> fss)) = length (mjoin fss).
Proof.
  induction fss as [|fs fss IH]; [done|].
  change (length ((brief <$> fs) ++ mjoin (DoGenerateLevelFilesBrief <$> fss)) = length (fs ++ mjoin fss)).
  by rewrite !length_app, length_fmap, IH.
Qed.

Lemma Get_files_spec : Get_files c user_key_ ikey_ data = Some (brief <$> wanted_from 0).
Proof.
  unfold Get_files, FilePicker_new. set (p0 := Build_FilePicker _ _ _ _ _ _ _ _ _ _).
  unfold FilePicker.advance, PrepareNextLevel.
  assert (Hlen : length (level_files_brief_ data) = n).
  { cbn. unfold GenerateLevelFilesBrief. rewrite length_fmap, length_take, Nat2Z.id. pose proof (lo_n Hok). lia. }
  destruct (prepare_loop_spec (S (length (level_files_brief_ data))) (next_level p0) 0) as ([more p'] & -> & Hr);
    [done|lia|lia|by left|]. cbn [mbind option_bind]. apply get_files_spec; [by apply prepared_state|].
  apply Nat.lt_succ_r. etrans; [apply (wanted_length 0)|]. rewrite drop_0. cbn. unfold GenerateLevelFilesBrief. by rewrite Nat2Z.id, length_briefs.
Qed.

End Picker.

(** ** Versions *)

Lemma non_empty_levels_spec m files : (m <= length files)%nat ->
  exists n : nat, non_empty_levels m files = Some (Z.of_nat n) /\ (n <= m)%nat /\
    forall l, (n <= l < m)%nat -> files !! l = Some [].
Proof.
  induction m as [|m IH]; intros Hm; cbn [non_empty_levels]; [exists 0%nat; split; [done|]; split; lia|].
  destruct (lookup_lt_is_Some_2 files m ltac:(lia)) as [fs Hfs]. rewrite Hfs. cbn [mbind option_bind].
  destruct fs as [|f fs].
  - destruct (IH ltac:(lia)) as (n & -> & Hn & Hall). exists n. split; [done|]. split; [lia|]. intros l Hl.
    destruct (decide (l = m)) as [->|]; [done|]. apply Hall. lia.
  - exists (S m). split; [done|]. split; [lia|]. intros; lia.
Qed.

Section Version.

Context (c : Comparator) `{!ComparatorOk c} `{!ComparatorTsOk c}.

(** A version that can be searched: consistent, with sensible key ranges. *)
Record searchable (v : VersionStorageInfo) : Prop := {
  sv_levels : num_levels_ v = slen (files_ v);
  sv_count : num_levels_ v < 2 ^ 31;
  sv_small : forall l fs, files_ v !! l = Some fs -> slen fs < 2 ^ 31;
  sv_ranges : forall l fs f, files_ v !! l = Some fs -> f ∈ fs -> range_ok c f;
  sv_consistent : forall l fs, (1 <= l)%nat -> files_ v !! l = Some fs -> StronglySorted (below c) fs
}.

Lemma consistent_levels v : consistent c v ->
  forall l fs, (1 <= l)%nat -> files_ v !! l = Some fs -> StronglySorted (below c) fs.
Proof.
  intros Hc l fs Hl Hfs. apply (cs_levels c v Hc (Z.of_nat l)); [lia|]. unfold LevelFiles.
  by rewrite (proj2 (Z.ltb_ge _ _)), Nat2Z.id by lia.
Qed.

Lemma below_level_sorted fs : Forall (range_ok c) fs -> StronglySorted (below c) fs -> level_sorted c fs.
Proof.
  intros Hr Hs. rewrite list.Forall_forall in Hr. constructor.
  - intros f Hf. destruct (Hr f Hf) as [_ H]. by apply IK_user.
  - intros i j a b Hij Ha Hb. apply IK_user; [done|]. pose proof (StronglySorted_lookup _ _ _ _ _ _ Hs Hij Ha Hb) as H.
    unfold below in H. lia.
Qed.

Lemma below_largest_sorted fs : Forall (range_ok c) fs -> StronglySorted (below c) fs -> largest_sorted c fs.
Proof.
  intros Hr Hs i j a b Hij Ha Hb. rewrite list.Forall_forall in Hr.
  destruct (Hr a (list_elem_of_lookup_2 _ _ _ Ha)) as [[_ Hka] _].
  destruct (Hr b (list_elem_of_lookup_2 _ _ _ Hb)) as [[Hkb Hkb'] Hbr].
  pose proof (StronglySorted_lookup _ _ _ _ _ _ Hs Hij Ha Hb) as H. unfold below in H.
  apply (IK_trans c _ (smallest (fp_meta b))); try done. lia.
Qed.

Lemma prepare_spec v : searchable v ->
  exists (n : nat) fi, PrepareForVersionAppend c v = Some (data (files_ v) n fi) /\ (n <= length (files_ v))%nat /\
    indexer_ok c fi n (files_ v) /\ forall l fs, files_ v !! l = Some fs -> (n <= l)%nat -> fs = [].
Proof.
  intros Hv. unfold PrepareForVersionAppend, UpdateNumNonEmptyLevels. rewrite (sv_levels v Hv). unfold slen at 1.
  rewrite Nat2Z.id. destruct (non_empty_levels_spec (length (files_ v)) (files_ v) ltac:(lia)) as (n & -> & Hn & Hempty).
  cbn [mbind option_bind]. destruct (UpdateIndex_ok c n (files_ v) Hn) as (fi & -> & Hfi).
  - intros l fs Hl Hfs. apply below_level_sorted; [|by apply (sv_consistent v Hv l fs); [lia|]].
    apply list.Forall_forall. intros f Hf. by apply (sv_ranges v Hv l fs f).
  - apply (sv_small v Hv).
  - cbn [mbind option_bind]. exists n, fi. split; [done|]. split_and!; [done|done|]. intros l fs Hfs Hl.
    pose proof (lookup_lt_Some _ _ _ Hfs). rewrite (Hempty l) in Hfs by lia. by injection Hfs as <-.
Qed.

Lemma searchable_levels_ok v n fi user ikey : searchable v -> (n <= length (files_ v))%nat -> indexer_ok c fi n (files_ v) ->
  8 <= slen ikey -> ExtractUserKey ikey = user -> levels_ok c (files_ v) n fi user ikey.
Proof.
  intros Hv Hn Hfi Hk Hu. assert (Hr : forall l fs, files_ v !! l = Some fs -> Forall (range_ok c) fs).
  { intros l fs Hfs. apply list.Forall_forall. intros f Hf. by apply (sv_ranges v Hv l fs f). }
  constructor; try done.
  - pose proof (sv_levels v Hv) as E. pose proof (sv_count v Hv). unfold slen in E. lia.
  - apply (sv_small v Hv).
  - intros l fs f Hfs Hf. by destruct (sv_ranges v Hv l fs f Hfs Hf).
  - intros l fs Hl Hfs. apply below_level_sorted; [by eapply Hr|]. by apply (sv_consistent v Hv l fs); [lia|].
  - intros l fs Hl Hfs. apply below_largest_sorted; [by eapply Hr|]. by apply (sv_consistent v Hv l fs); [lia|].
Qed.

Lemma wanted_from_elem files n user ikey l fs f : (l < n)%nat -> files !! l = Some fs -> f ∈ fs ->
  wanted c n user ikey l fs f = true -> f ∈ wanted_from c files n user ikey 0.
Proof.
  intros Hl Hfs Hf Hw. unfold wanted_from. rewrite Nat.sub_0_r. apply list_elem_of_join.
  exists (level_wanted c files n user ikey l). split.
  - unfold level_wanted. rewrite Hfs. by apply list_elem_of_filter.
  - apply list_elem_of_fmap. exists l. split; [done|]. apply elem_of_seq. lia.
Qed.

(** An entry of the user key at or after the lookup key in the range of a file
    makes the file wanted. *)
Lemma entry_wanted n ikey l fs f e : range_ok c f -> 8 <= slen ikey -> 8 <= slen e ->
  IKCompare c (smallest (fp_meta f)) e <= 0 -> IKCompare c e (largest (fp_meta f)) <= 0 ->
  user_cmp c (ExtractUserKey e) (ExtractUserKey ikey) = 0 -> IKCompare c ikey e <= 0 ->
  wanted c n (ExtractUserKey ikey) ikey l fs f = true.
Proof.
  intros [[Hs Hl] _] Hk He H1 H2 Hu H3. unfold wanted. apply orb_true_iff. right. apply andb_true_iff. split.
  - unfold covers. rewrite andb_true_iff, !Z.leb_le. apply IK_user in H1; [|done]. apply IK_user in H2; [|done].
    fold (smallest_user f) in H1. fold (largest_user f) in H2. split.
    + apply ucmp_flip_le; [done|]. by apply (ucmp_trans c _ (ExtractUserKey e)); [|lia].
    + apply (ucmp_trans c _ (ExtractUserKey e)); [|done]. apply ucmp_flip_le; [done|lia].
  - apply orb_true_iff. right. apply Z.leb_le. apply IK_flip_le; try done. by apply (IK_trans c _ e).
Qed.

End Version.

(** [C6] For every searchable version and every lookup key, the picker goes,
    with the bounds of the indexer, through exactly the files that a scan of all
    levels would find: level by level and in the order of the files, those
    whose range of user keys contains the key and, below level 0, that do not
    end before the lookup key (all of them, if there is a single level of at
    most three files). No read leaves an array. In particular, every file whose
    range holds an entry of the user key that is visible to the lookup is among
    them. *)
Theorem file_picker_exact (c : Comparator) `{!ComparatorOk c} `{!ComparatorTsOk c} (v : VersionStorageInfo) (ikey : bytes) :
  searchable c v -> 8 <= slen ikey ->
  exists d, PrepareForVersionAppend c v = Some d /\
    let n := Z.to_nat (num_non_empty_levels_ d) in
    let picked := wanted_from c (files_ v) n (ExtractUserKey ikey) ikey 0 in
    Get_files c (ExtractUserKey ikey) ikey d = Some (brief <$> picked) /\
    forall l fs f e, files_ v !! l = Some fs -> f ∈ fs -> 8 <= slen e ->
      IKCompare c (smallest (fp_meta f)) e <= 0 -> IKCompare c e (largest (fp_meta f)) <= 0 ->
      user_cmp c (ExtractUserKey e) (ExtractUserKey ikey) = 0 -> IKCompare c ikey e <= 0 -> f ∈ picked.
Proof.
  intros Hv Hk. destruct (prepare_spec c v Hv) as (n & fi & Hp & Hn & Hfi & Hempty).
  exists (data (files_ v) n fi). split; [done|]. cbn [num_non_empty_levels_ data]. rewrite Nat2Z.id. cbv zeta. split.
  - apply Get_files_spec; [done|done|]. by apply searchable_levels_ok.
  - intros l fs f e Hfs Hf He H1 H2 Hu H3. destruct (decide (l < n)%nat) as [Hl|Hl].
    + apply (wanted_from_elem c (files_ v) n _ _ l fs f); try done.
      apply (entry_wanted c n ikey l fs f e); try done. by apply (sv_ranges c v Hv l fs f).
    + rewrite (Hempty l fs Hfs ltac:(lia)) in Hf. by apply elem_of_nil in Hf.
Qed.

(** ** An example *)

Definition ex_file (number : Z) (lo hi : byte) : FilePtr :=
  {| fp_addr := number; fp_meta := ex_meta number lo hi 9 0 0 |}.

(** Three levels and an empty one; keys are letters. *)
Definition ex_levels : VersionStorageInfo :=
  (VersionStorageInfo_make 4 None true kMightMissing)
    <| files_ := [[ex_file 4 Byte.x61 Byte.x7a];
                  [ex_file 5 Byte.x61 Byte.x64; ex_file 6 Byte.x66 Byte.x6b; ex_file 7 Byte.x6d Byte.x74];
                  [ex_file 8 Byte.x62 Byte.x63; ex_file 9 Byte.x65 Byte.x67; ex_file 10 Byte.x68 Byte.x70;
                   ex_file 11 Byte.x71 Byte.x7a];
                  []] |>.

Lemma ex_searchable : searchable BytewiseComparator ex_levels.
Proof.
  assert (Hall : forall (P : nat -> list FilePtr -> Prop), P 0%nat [ex_file 4 Byte.x61 Byte.x7a] ->
    P 1%nat [ex_file 5 Byte.x61 Byte.x64; ex_file 6 Byte.x66 Byte.x6b; ex_file 7 Byte.x6d Byte.x74] ->
    P 2%nat [ex_file 8 Byte.x62 Byte.x63; ex_file 9 Byte.x65 Byte.x67; ex_file 10 Byte.x68 Byte.x70;
             ex_file 11 Byte.x71 Byte.x7a] -> P 3%nat [] ->
    forall l fs, files_ ex_levels !! l = Some fs -> P l fs).
  { intros P H0 H1 H2 H3 l fs. destruct l as [|[|[|[|l]]]]; cbn; intros [= <-]; done. }
  constructor; [done|by vm_compute| | |].
  - apply (Hall (fun _ fs => slen fs < 2 ^ 31)); by vm_compute.
  - intros l fs f Hfs. revert f. apply list.Forall_forall. revert l fs Hfs.
    apply (Hall (fun _ fs => Forall (range_ok BytewiseComparator) fs)); repeat constructor; by vm_compute.
  - intros l fs _. revert l fs.
    apply (Hall (fun _ fs => StronglySorted (below BytewiseComparator) fs)); repeat constructor; by vm_compute.
Qed.

(** The letter h is in files 4, 6 and 10. *)
Lemma file_picker_exact_witness : exists d, PrepareForVersionAppend BytewiseComparator ex_levels = Some d /\
  option_map (map (fun b => FileNumber (fk_file_metadata b)))
    (Get_files BytewiseComparator [Byte.x68] (ex_key Byte.x68 100) d) = Some [4; 6; 10].
Proof.
  destruct (file_picker_exact BytewiseComparator ex_levels (ex_key Byte.x68 100) ex_searchable ltac:(by vm_compute))
    as (d & Hd & Hg & _). exists d. split; [done|].
  change (ExtractUserKey (ex_key Byte.x68 100)) with [Byte.x68] in Hg. rewrite Hg. vm_compute in Hd. injection Hd as <-.
  by vm_compute.
Defined.
