(* ===== verification/OverlapInputs.v ===== *)
(** * Files that overlap a range of keys

    Models, of db/version_set.cc, [SomeFileOverlapsRange], [OverlapInLevel],
    [GetOverlappingInputs] with its binary search, and
    [GetCleanInputsWithinInterval]: the questions compaction and ingestion ask
    about the files of a level; and [sstableKeyCompare] of
    db/compaction/compaction.cc.

    A null key is [None]; a read outside an array makes the result [None]. The
    pointers for results are taken to be given: what a caller passes null for it
    does not get. *)

From S2P Require Import Prelude Records StdMap Slice DbFormat Comparator VersionEdit VersionStorage FileIndexer FilePicker.

(** [sstableKeyCompare] (db/compaction/compaction.cc). *)
Definition sstableKeyCompare (c : Comparator) (a b : bytes) : Z :=
  let r := user_cmp c (ExtractUserKey a) (ExtractUserKey b) in
  if negb (r =? 0) then r
  else
    let a_footer := ExtractInternalKeyFooter a in
    let b_footer := ExtractInternalKeyFooter b in
    if a_footer =? kRangeTombstoneSentinel then
      if negb (b_footer =? kRangeTombstoneSentinel) then -1 else 0
    else if b_footer =? kRangeTombstoneSentinel then 1 else 0.

(** What the caller gets: the files, a position of one of them, and the key
    after them. *)
Record OverlapOut := {
  ov_inputs : list FilePtr;
  ov_file_index : Z;
  ov_next_smallest : option bytes
}.

#[export] Instance OverlapOut_Settable : Settable OverlapOut :=
  fun r => Build_OverlapOut (ov_inputs r) (ov_file_index r) (ov_next_smallest r).

Section Overlap.

Context (c : Comparator).

(** ** Is there a file? *)

Definition AfterFile (user_key : option bytes) (f : FdWithKeyRange) : bool :=
  match user_key with
  | Some k => 0 <? user_cmp c k (ExtractUserKey (fk_largest_key f))
  | None => false
  end.

Definition BeforeFile (user_key : option bytes) (f : FdWithKeyRange) : bool :=
  match user_key with
  | Some k => user_cmp c k (ExtractUserKey (fk_smallest_key f)) <? 0
  | None => false
  end.

Definition SomeFileOverlapsRange (disjoint_sorted_files : bool) (file_level : LevelFilesBrief)
    (smallest_user_key largest_user_key : option bytes) : option bool :=
  if negb disjoint_sorted_files then
    Some (existsb (fun f => negb (AfterFile smallest_user_key f || BeforeFile largest_user_key f)) file_level)
  else
    index ← match smallest_user_key with
            | Some k => FindFile c file_level (InternalKey.SetMinPossibleForUserKey [] k)
            | None => Some 0
            end;
    if slen file_level <=? index then Some false
    else f ← file_level !! Z.to_nat index; Some (negb (BeforeFile largest_user_key f)).

Definition OverlapInLevel (d : LookupData) (level : Z) (smallest_user_key largest_user_key : option bytes)
    : option bool :=
  if num_non_empty_levels_ d <=? level then Some false
  else file_level ← level_files_brief_ d !! Z.to_nat level;
       SomeFileOverlapsRange (0 <? level) file_level smallest_user_key largest_user_key.

(** ** Which files? *)

Abbreviation smallest_of := (fun f => smallest (fp_meta (fk_file_metadata f))).
Abbreviation largest_of := (fun f => largest (fp_meta (fk_file_metadata f))).

(** The loops that move a bound to a clean cut: past files that share a user
    key with the one before, and back from files that share one with the next. *)
Fixpoint skip_forward (fuel : nat) (files : LevelFilesBrief) (start_index : nat) : option nat :=
  match fuel with
  | O => None
  | S fuel =>
      if (start_index <? length files)%nat then
        pre ← files !! (start_index - 1)%nat;
        cur ← files !! start_index;
        if sstableKeyCompare c (largest_of pre) (smallest_of cur) =? 0
        then skip_forward fuel files (S start_index) else Some start_index
      else Some start_index
  end.

Fixpoint skip_back (files : LevelFilesBrief) (start_index end_index : nat) : option nat :=
  match end_index with
  | O => Some end_index
  | S before =>
      if (start_index <? end_index)%nat then
        next ← files !! end_index;
        cur ← files !! before;
        if sstableKeyCompare c (largest_of cur) (smallest_of next) =? 0
        then skip_back files start_index before else Some end_index
      else Some end_index
  end.

Definition overlap_start (files : LevelFilesBrief) (begin_ : option bytes) (hint_index : Z) (within_interval : bool)
    : option nat :=
  match begin_ with
  | None => Some O
  | Some k =>
      let file_key f := if within_interval then smallest_of f else largest_of f in
      start_index ← std_lower_bound (fun f => sstableKeyCompare c (file_key f) k <? 0) files 0
                      (Z.to_nat (if hint_index =? -1 then slen files else hint_index));
      if (0 <? start_index)%nat && within_interval
      then skip_forward (S (length files)) files start_index else Some start_index
  end.

Definition overlap_end (files : LevelFilesBrief) (end_ : option bytes) (within_interval : bool) (start_index : nat)
    : option nat :=
  match end_ with
  | None => Some (length files)
  | Some k =>
      let file_key f := if within_interval then largest_of f else smallest_of f in
      end_index ← std_lower_bound (fun f => negb (sstableKeyCompare c k (file_key f) <? 0)) files start_index
                    (length files - start_index);
      if (end_index <? length files)%nat && within_interval
      then skip_back files start_index end_index else Some end_index
  end.

Definition GetOverlappingInputsRangeBinarySearch (files : LevelFilesBrief) (level_files : list FilePtr)
    (begin_ end_ : option bytes) (hint_index : Z) (within_interval : bool) (o : OverlapOut) : option OverlapOut :=
  start_index ← overlap_start files begin_ hint_index within_interval;
  end_index ← overlap_end files end_ within_interval start_index;
  if (start_index =? end_index)%nat then Some (o <| ov_next_smallest := None |>)
  else Some {| ov_inputs := ov_inputs o ++ take (end_index - start_index) (drop start_index level_files);
               ov_file_index := Z.of_nat start_index;
               ov_next_smallest := (fun f => smallest (fp_meta f)) <$> level_files !! end_index |}.

(** A pass over the files of level 0 that were not taken yet. *)
Fixpoint overlap_pass (files : LevelFilesBrief) (level_files : list FilePtr) (expand_range : bool)
    (index : list nat) (user_begin user_end : option bytes) (o : OverlapOut)
    : option (list nat * (option bytes * option bytes) * OverlapOut * bool) :=
  match index with
  | [] => Some ([], (user_begin, user_end), o, false)
  | i :: index' =>
      f ← files !! i;
      let file_start := ExtractUserKey (fk_smallest_key f) in
      let file_limit := ExtractUserKey (fk_largest_key f) in
      if match user_begin with Some b => user_cmp c file_limit b <? 0 | None => false end
         || match user_end with Some e => 0 <? user_cmp c file_start e | None => false end
      then
        '(left_over, r, o, found) ← overlap_pass files level_files expand_range index' user_begin user_end o;
        Some (i :: left_over, r, o, found)
      else
        input ← level_files !! i;
        let o := o <| ov_inputs ::= fun l => l ++ [input] |> in
        let o := if ov_file_index o =? -1 then o <| ov_file_index := Z.of_nat i |> else o in
        let user_begin :=
          match user_begin with
          | Some b => if expand_range && (user_cmp c file_start b <? 0) then Some file_start else Some b
          | None => None
          end in
        let user_end :=
          match user_end with
          | Some e => if expand_range && (0 <? user_cmp c file_limit e) then Some file_limit else Some e
          | None => None
          end in
        '(left_over, r, o, _) ← overlap_pass files level_files expand_range index' user_begin user_end o;
        Some (left_over, r, o, true)
  end.

(** Passes until nothing is found or left. *)
Fixpoint overlap_loop (fuel : nat) (files : LevelFilesBrief) (level_files : list FilePtr) (expand_range : bool)
    (index : list nat) (user_begin user_end : option bytes) (o : OverlapOut) : option OverlapOut :=
  match fuel with
  | O => None
  | S fuel =>
      match index with
      | [] => Some o
      | _ =>
          '(index, (user_begin, user_end), o, found_overlapping_file) ←
            overlap_pass files level_files expand_range index user_begin user_end o;
          if (found_overlapping_file : bool)
          then overlap_loop fuel files level_files expand_range index user_begin user_end o
          else Some o
      end
  end.

Definition GetOverlappingInputs (v : VersionStorageInfo) (d : LookupData) (level : Z) (begin_ end_ : option bytes)
    (hint_index : Z) (expand_range : bool) (o : OverlapOut) : option OverlapOut :=
  if num_non_empty_levels_ d <=? level then Some o
  else
    let o := o <| ov_inputs := [] |> <| ov_file_index := -1 |> in
    files ← level_files_brief_ d !! Z.to_nat level;
    level_files ← files_ v !! Z.to_nat level;
    if 0 <? level then GetOverlappingInputsRangeBinarySearch files level_files begin_ end_ hint_index false o
    else
      overlap_loop (S (length files)) files level_files expand_range (seq 0 (length files))
        (ExtractUserKey <$> begin_) (ExtractUserKey <$> end_) (o <| ov_next_smallest := None |>).

Definition GetCleanInputsWithinInterval (v : VersionStorageInfo) (d : LookupData) (level : Z)
    (begin_ end_ : option bytes) (hint_index : Z) (o : OverlapOut) : option OverlapOut :=
  let o := o <| ov_inputs := [] |> <| ov_file_index := -1 |> in
  if (num_non_empty_levels_ d <=? level) || (level =? 0) then Some o
  else
    files ← level_files_brief_ d !! Z.to_nat level;
    if slen files =? 0 then Some o
    else
      level_files ← files_ v !! Z.to_nat level;
      r ← GetOverlappingInputsRangeBinarySearch files level_files begin_ end_ hint_index true o;
      Some (r <| ov_next_smallest := ov_next_smallest o |>).

End Overlap.
