(* ===== verification/OverlapCorrect.v ===== *)
(** * What the questions about ranges answer

    The order of boundary keys, the binary searches of a level below 0 and its
    clean cuts, the growing range of level 0, and the theorems: the overlapping
    inputs are those a scan would find, the clean inputs are the largest clean
    run, and one look decides whether a level overlaps. *)

From stdpp Require Import sorting.
From S2P Require Import Prelude Records StdMap Coding Slice DbFormat Comparator VersionEdit VersionStorage VersionSpec VersionOrder VersionCheck VersionCorrect FileIndexer FilePicker FilePickerCorrect OverlapInputs.

(** ** The order of boundary keys *)

Section Order.

Context (c : Comparator) `{!ComparatorOk c} `{!ComparatorTsOk c}.

Abbreviation skc := (sstableKeyCompare c).
Abbreviation ucmp := (user_cmp c).

(** Exclusive bounds come first among the bounds of a user key. *)
Definition inclusive (a : bytes) : bool := negb (ExtractInternalKeyFooter a =? kRangeTombstoneSentinel).

Lemma skc_cases a b : let u := ucmp (ExtractUserKey a) (ExtractUserKey b) in
  (u <> 0 /\ skc a b = u) \/
  (u = 0 /\ skc a b = (if inclusive a then 1 else 0) - (if inclusive b then 1 else 0)).
Proof.
  unfold sstableKeyCompare, inclusive.
  destruct (Z.eqb_spec (ucmp (ExtractUserKey a) (ExtractUserKey b)) 0); cbn [negb]; [right|left; done]. split; [done|].
  by destruct (Z.eqb_spec (ExtractInternalKeyFooter a) kRangeTombstoneSentinel),
    (Z.eqb_spec (ExtractInternalKeyFooter b) kRangeTombstoneSentinel).
Qed.

Lemma skc_flip a b : skc a b < 0 <-> 0 < skc b a.
Proof.
  pose proof (ucmp_flip c (ExtractUserKey a) (ExtractUserKey b)). pose proof (ucmp_flip c (ExtractUserKey b) (ExtractUserKey a)).
  destruct (skc_cases a b) as [[? ->]|[? ->]], (skc_cases b a) as [[? ->]|[? ->]]; try lia.
Qed.

Lemma skc_flip_le a b : skc a b <= 0 <-> 0 <= skc b a.
Proof. pose proof (skc_flip a b). pose proof (skc_flip b a). lia. Qed.

Lemma skc_trans a b d : skc a b <= 0 -> skc b d <= 0 -> skc a d <= 0.
Proof.
  set (x := ExtractUserKey a). set (y := ExtractUserKey b). set (z := ExtractUserKey d).
  pose proof (ucmp_trans c x y z) as T. pose proof (ucmp_lt_trans c x y z) as T'.
  destruct (skc_cases a b) as [[? ->]|[? ->]], (skc_cases b d) as [[? ->]|[? ->]], (skc_cases a d) as [[? ->]|[? ->]];
    unfold x, y, z in *; intros; try lia;
    destruct (inclusive a), (inclusive b), (inclusive d); lia.
Qed.

Lemma skc_lt_trans a b d : skc a b <= 0 -> skc b d <= 0 -> skc a b < 0 \/ skc b d < 0 -> skc a d < 0.
Proof.
  intros H1 H2 H3. pose proof (skc_trans _ _ _ H1 H2). destruct (Z.lt_ge_cases (skc a d) 0) as [|Hge]; [done|].
  apply skc_flip_le in Hge. destruct H3 as [H3|H3].
  - pose proof (skc_trans _ _ _ H2 Hge). pose proof (skc_flip a b). lia.
  - pose proof (skc_trans _ _ _ Hge H1). pose proof (skc_flip b d). lia.
Qed.

(** Levels in this order. *)
Record inputs_sorted (fs : list FilePtr) : Prop := {
  is_range : forall f, f ∈ fs -> skc (smallest (fp_meta f)) (largest (fp_meta f)) <= 0;
  is_below : forall i j a b, (i < j)%nat -> fs !! i = Some a -> fs !! j = Some b ->
    skc (largest (fp_meta a)) (smallest (fp_meta b)) <= 0
}.

Lemma inputs_sorted_smallest fs i j a b : inputs_sorted fs -> (i <= j)%nat -> fs !! i = Some a -> fs !! j = Some b ->
  skc (smallest (fp_meta a)) (smallest (fp_meta b)) <= 0.
Proof.
  intros [Hr Hb] Hij Ha Hb'. destruct (decide (i = j)) as [->|].
  - assert (a = b) as -> by congruence. pose proof (skc_flip (smallest (fp_meta b)) (smallest (fp_meta b))). lia.
  - apply (skc_trans _ (largest (fp_meta a))); [by eapply Hr, list_elem_of_lookup_2|]. by apply (Hb i j); [lia|..].
Qed.

Lemma inputs_sorted_largest fs i j a b : inputs_sorted fs -> (i <= j)%nat -> fs !! i = Some a -> fs !! j = Some b ->
  skc (largest (fp_meta a)) (largest (fp_meta b)) <= 0.
Proof.
  intros [Hr Hb] Hij Ha Hb'. destruct (decide (i = j)) as [->|].
  - assert (a = b) as -> by congruence. pose proof (skc_flip (largest (fp_meta b)) (largest (fp_meta b))). lia.
  - apply (skc_trans _ (smallest (fp_meta b))); [by apply (Hb i j); [lia|..]|]. by eapply Hr, list_elem_of_lookup_2.
Qed.

(** Boundary keys as files have them: no type above that of an exclusive bound
    at the largest sequence number. *)
Definition bounds_valid (f : FilePtr) : Prop :=
  ExtractInternalKeyFooter (smallest (fp_meta f)) <= kRangeTombstoneSentinel /\
  ExtractInternalKeyFooter (largest (fp_meta f)) <= kRangeTombstoneSentinel.

(** Without timestamps the internal order refines this one. *)
Lemma IK_skc a b : (forall x y, CompareWithoutTimestamp c x true y true = Compare c x y) ->
  ExtractInternalKeyFooter a <= kRangeTombstoneSentinel -> ExtractInternalKeyFooter b <= kRangeTombstoneSentinel ->
  IKCompare c a b <= 0 -> skc a b <= 0.
Proof.
  intros Hts Ha Hb H. destruct (skc_cases a b) as [[Hne ->]|[E ->]]; [by apply IK_user|].
  unfold user_cmp in E. rewrite Hts in E. unfold IKCompare in H. rewrite E in H. cbn [Z.eqb] in H.
  fold (ExtractInternalKeyFooter a) in H. fold (ExtractInternalKeyFooter b) in H. unfold inclusive.
  destruct (Z.eqb_spec (ExtractInternalKeyFooter a) kRangeTombstoneSentinel),
    (Z.eqb_spec (ExtractInternalKeyFooter b) kRangeTombstoneSentinel); cbn; try lia.
  revert H. repeat zcase.
Qed.

Lemma below_inputs_sorted fs : (forall x y, CompareWithoutTimestamp c x true y true = Compare c x y) ->
  Forall (range_ok c) fs -> Forall bounds_valid fs -> StronglySorted (below c) fs -> inputs_sorted fs.
Proof.
  intros Hts Hr Hv Hs. rewrite list.Forall_forall in Hr, Hv. constructor.
  - intros f Hf. destruct (Hr f Hf) as [_ H], (Hv f Hf). by apply IK_skc.
  - intros i j a b Hij Ha Hb. pose proof (StronglySorted_lookup _ _ _ _ _ _ Hs Hij Ha Hb) as H. unfold below in H.
    destruct (Hv a (list_elem_of_lookup_2 _ _ _ Ha)), (Hv b (list_elem_of_lookup_2 _ _ _ Hb)).
    apply IK_skc; [done..|lia].
Qed.

End Order.

(** ** The binary searches *)

Section Search.

Context (c : Comparator) `{!ComparatorOk c} `{!ComparatorTsOk c}.
Context (fs : list FilePtr) (Hs : inputs_sorted c fs).
Context (begin_ end_ : option bytes).

Abbreviation skc := (sstableKeyCompare c).

(** Not before the range, not after it. *)
Definition reaches (key : FilePtr -> bytes) (f : FilePtr) : Prop :=
  match begin_ with Some k => 0 <= skc (key f) k | None => True end.

Definition within (key : FilePtr -> bytes) (f : FilePtr) : Prop :=
  match end_ with Some k => 0 <= skc k (key f) | None => True end.

Abbreviation small := (fun f : FilePtr => smallest (fp_meta f)).
Abbreviation large := (fun f : FilePtr => largest (fp_meta f)).

(** Keys that do not go down along the level. *)
Definition key_sorted (key : FilePtr -> bytes) : Prop :=
  forall i j a b, (i <= j)%nat -> fs !! i = Some a -> fs !! j = Some b -> skc (key a) (key b) <= 0.

Lemma small_sorted : key_sorted small.
Proof. intros i j a b. by apply inputs_sorted_smallest. Qed.

Lemma large_sorted : key_sorted large.
Proof. intros i j a b. by apply inputs_sorted_largest. Qed.

Lemma brief_lookup (i : nat) : (brief <$> fs) !! i = brief <$> fs !! i.
Proof. apply list_lookup_fmap. Qed.

(** A hint is a file that is not before the range. *)
Definition hint_ok (key : FilePtr -> bytes) (hint : Z) : Prop :=
  hint = -1 \/ 0 <= hint /\ exists f, fs !! Z.to_nat hint = Some f /\ reaches key f.

(** What comes before position [s] is before the range, and nothing else. *)
Definition starts_at (key : FilePtr -> bytes) (s : nat) : Prop :=
  (s <= length fs)%nat /\ forall i f, fs !! i = Some f -> (s <= i)%nat <-> reaches key f.

Lemma search_start (key : FilePtr -> bytes) (bkey : FdWithKeyRange -> bytes) hint k : key_sorted key ->
  (forall f, bkey (brief f) = key f) -> begin_ = Some k -> hint_ok key hint ->
  exists s, std_lower_bound (fun f => skc (bkey f) k <? 0) (brief <$> fs) 0
      (Z.to_nat (if hint =? -1 then slen (brief <$> fs) else hint)) = Some s /\ starts_at key s.
Proof.
  intros Hk Hbk Hb Hh. rewrite slen_fmap. set (len := Z.to_nat _).
  assert (Hlen : (len <= length fs)%nat /\ ((len < length fs)%nat -> exists f, fs !! len = Some f /\ reaches key f)).
  { unfold len, slen. destruct Hh as [->|[H0 (f & Hf & Hr)]]; [cbn; split; lia|].
    rewrite (proj2 (Z.eqb_neq hint (-1))) by lia. pose proof (lookup_lt_Some _ _ _ Hf). split; [lia|]. eauto. }
  destruct Hlen as [Hlen Hhint].
  assert (Hmono : forall i j a b, (i <= j)%nat -> fs !! i = Some a -> fs !! j = Some b -> skc (key b) k < 0 -> skc (key a) k < 0).
  { intros i j a b Hij Ha Hb' Hlt. apply (skc_lt_trans c _ (key b)); [by apply (Hk i j)|lia|by right]. }
  destruct (std_lower_bound_spec (fun f => skc (bkey f) k <? 0) (brief <$> fs) 0 len) as (s & E & Hr & Hlo & Hhi).
  - rewrite length_fmap. lia.
  - intros i j x y Hij Hx Hy. rewrite brief_lookup in Hx, Hy.
    destruct (fs !! i) as [a|] eqn:Ea; [|done]. destruct (fs !! j) as [b|] eqn:Eb; [|done].
    injection Hx as <-. injection Hy as <-. rewrite !Hbk, !Z.ltb_lt. apply (Hmono i j); [lia|done..].
  - exists s. split; [done|]. split; [lia|]. intros i f Hf. unfold reaches. rewrite Hb.
    assert (Hbf : (brief <$> fs) !! i = Some (brief f)) by (by rewrite brief_lookup, Hf). split.
    + intros Hi. destruct (decide (i < len)%nat).
      * specialize (Hhi i _ ltac:(lia) Hbf). rewrite Hbk in Hhi. by apply Z.ltb_ge in Hhi.
      * destruct (Hhint ltac:(apply lookup_lt_Some in Hf; lia)) as (g & Hg & Hrg). unfold reaches in Hrg. rewrite Hb in Hrg.
        destruct (Z.lt_ge_cases (skc (key f) k) 0) as [Hlt|]; [|done]. pose proof (Hmono len i g f ltac:(lia) Hg Hf Hlt). lia.
    + intros Hge. destruct (decide (s <= i)%nat); [done|]. specialize (Hlo i _ ltac:(lia) Hbf). rewrite Hbk in Hlo.
      apply Z.ltb_lt in Hlo. lia.
Qed.

(** Among the files from [s] on, those before [e] are not after the range. *)
Definition ends_at (key : FilePtr -> bytes) (s e : nat) : Prop :=
  (s <= e <= length fs)%nat /\ forall i f, fs !! i = Some f -> (s <= i)%nat -> (i < e)%nat <-> within key f.

Lemma search_end (key : FilePtr -> bytes) (bkey : FdWithKeyRange -> bytes) s k : key_sorted key ->
  (forall f, bkey (brief f) = key f) -> end_ = Some k -> (s <= length fs)%nat ->
  exists e, std_lower_bound (fun f => negb (skc k (bkey f) <? 0)) (brief <$> fs) s (length (brief <$> fs) - s) = Some e /\
    ends_at key s e.
Proof.
  intros Hk Hbk He Hs'. rewrite length_fmap.
  destruct (std_lower_bound_spec (fun f => negb (skc k (bkey f) <? 0)) (brief <$> fs) s (length fs - s))
    as (e & E & Hr & Hlo & Hhi).
  - rewrite length_fmap. lia.
  - intros i j x y Hij Hx Hy. rewrite brief_lookup in Hx, Hy.
    destruct (fs !! i) as [a|] eqn:Ea; [|done]. destruct (fs !! j) as [b|] eqn:Eb; [|done].
    injection Hx as <-. injection Hy as <-. rewrite !Hbk, !negb_true_iff, !Z.ltb_ge. intros Hb.
    apply skc_flip_le; [done|]. apply skc_flip_le in Hb; [|done]. apply (skc_trans c _ (key b)); [apply (Hk i j); [lia|done..]|done].
  - exists e. split; [done|]. split; [lia|]. intros i f Hf Hi. unfold within. rewrite He.
    assert (Hbf : (brief <$> fs) !! i = Some (brief f)) by (by rewrite brief_lookup, Hf).
    pose proof (lookup_lt_Some _ _ _ Hf). destruct (decide (i < e)%nat) as [Hlt|Hge].
    + specialize (Hlo i _ ltac:(lia) Hbf). rewrite Hbk, negb_true_iff, Z.ltb_ge in Hlo. done.
    + specialize (Hhi i _ ltac:(lia) Hbf). rewrite Hbk, negb_false_iff, Z.ltb_lt in Hhi. lia.
Qed.

Lemma overlap_start_spec hint : hint_ok large hint ->
  exists s, overlap_start c (brief <$> fs) begin_ hint false = Some s /\ starts_at large s.
Proof.
  intros Hh. unfold overlap_start. destruct begin_ as [k|] eqn:Eb.
  - destruct (search_start large (fun f => largest (fp_meta (fk_file_metadata f))) hint k large_sorted) as (s & E & H);
      [done..|]. exists s. rewrite E. cbn. by rewrite andb_false_r.
  - exists 0%nat. split; [done|]. split; [lia|]. intros i f _. unfold reaches. rewrite Eb. split; [done|lia].
Qed.

Lemma overlap_end_spec s : (s <= length fs)%nat ->
  exists e, overlap_end c (brief <$> fs) end_ false s = Some e /\ ends_at small s e.
Proof.
  intros Hs'. unfold overlap_end. destruct end_ as [k|] eqn:Ee.
  - destruct (search_end small (fun f => smallest (fp_meta (fk_file_metadata f))) s k small_sorted) as (e & E & H);
      [done..|]. exists e. rewrite E. cbn. by rewrite andb_false_r.
  - exists (length fs). rewrite length_fmap. split; [done|]. split; [lia|]. intros i f Hf _. unfold within. rewrite Ee.
    pose proof (lookup_lt_Some _ _ _ Hf). split; [done|lia].
Qed.

(** A cut in front of position [i] separates no two files that share a user key. *)
Definition clean_at (i : nat) : Prop :=
  forall a b, (0 < i)%nat -> fs !! (i - 1)%nat = Some a -> fs !! i = Some b -> skc (large a) (small b) <> 0.

Lemma skip_forward_spec fuel s : (0 < s <= length fs)%nat -> (length fs - s < fuel)%nat ->
  exists s', skip_forward c fuel (brief <$> fs) s = Some s' /\ (s <= s' <= length fs)%nat /\ clean_at s' /\
    forall i, (s <= i < s')%nat -> ~ clean_at i.
Proof.
  revert s. induction fuel as [|fuel IH]; intros s Hs' Hf; [lia|]. cbn [skip_forward]. rewrite length_fmap.
  destruct (Nat.ltb_spec s (length fs)) as [Hlt|].
  - destruct (lookup_lt_is_Some_2 fs (s - 1)%nat) as [a Ha]; [lia|]. destruct (lookup_lt_is_Some_2 fs s) as [b Hb]; [lia|].
    rewrite !brief_lookup, Ha, Hb. cbn [fmap option_fmap option_map option_bind mbind fk_file_metadata brief]. destruct (Z.eqb_spec (skc (large a) (small b)) 0) as [E|E].
    + destruct (IH (S s)) as (s' & -> & Hr & Hc & Hn); [lia..|]. exists s'. split; [done|]. split; [lia|]. split; [done|].
      intros i Hi. destruct (decide (i = s)) as [->|]; [|apply Hn; lia]. intros Hc'. by apply (Hc' a b); [lia|..].
    + exists s. split; [done|]. split; [lia|]. split; [|intros; lia]. intros a' b' _ Ha' Hb'. congruence.
  - exists s. split; [done|]. split; [lia|]. split; [|intros; lia]. intros a' b' _ _ Hb'. apply lookup_lt_Some in Hb'. lia.
Qed.

Lemma skip_back_spec s e : (s <= e < length fs)%nat ->
  exists e', skip_back c (brief <$> fs) s e = Some e' /\ (s <= e' <= e)%nat /\ ((s < e')%nat -> clean_at e') /\
    forall i, (e' < i <= e)%nat -> ~ clean_at i.
Proof.
  revert s. induction e as [|e IH]; intros s Hs'; cbn [skip_back]; [exists 0%nat; repeat split; intros; lia|].
  destruct (Nat.ltb_spec s (S e)) as [Hlt|]; [|exists (S e); repeat split; intros; lia].
  destruct (lookup_lt_is_Some_2 fs e) as [a Ha]; [lia|]. destruct (lookup_lt_is_Some_2 fs (S e)) as [b Hb]; [lia|].
  rewrite !brief_lookup, Ha, Hb. cbn [fmap option_fmap option_map option_bind mbind fk_file_metadata brief].
  destruct (Z.eqb_spec (skc (large a) (small b)) 0) as [E|E].
  - destruct (IH s) as (e' & -> & Hr & Hc & Hn); [lia|]. exists e'. split; [done|]. split; [lia|]. split; [done|].
    intros i Hi. destruct (decide (i = S e)) as [->|]; [|apply Hn; lia]. intros Hc'.
    apply (Hc' a b); [lia| |done..]. by replace (S e - 1)%nat with e by lia.
  - exists (S e). split; [done|]. split; [lia|]. split; [|intros; lia]. intros _ a' b' _ Ha' Hb'.
    replace (S e - 1)%nat with e in Ha' by lia. congruence.
Qed.

(** A run of files inside the interval, with clean cuts at both ends. *)
Definition clean_run (s e : nat) : Prop :=
  (s < e <= length fs)%nat /\ clean_at s /\ clean_at e /\
  forall i f, (s <= i < e)%nat -> fs !! i = Some f -> reaches small f /\ within large f.

Lemma clean_run_bounds s e i : clean_run s e -> (s <= i < e)%nat -> exists f, fs !! i = Some f /\ reaches small f /\ within large f.
Proof.
  intros (Hse & _ & _ & Hin) Hi. destruct (lookup_lt_is_Some_2 fs i) as [f Hf]; [lia|]. exists f. split; [done|]. by apply (Hin i).
Qed.

Lemma overlap_start_clean hint : hint_ok small hint ->
  exists s, overlap_start c (brief <$> fs) begin_ hint true = Some s /\ (s <= length fs)%nat /\ clean_at s /\
    (forall i f, fs !! i = Some f -> (s <= i)%nat -> reaches small f) /\ (forall s' e', clean_run s' e' -> (s <= s')%nat).
Proof.
  intros Hh. unfold overlap_start. destruct begin_ as [k|] eqn:Eb.
  - destruct (search_start small (fun f => smallest (fp_meta (fk_file_metadata f))) hint k small_sorted) as (s0 & E & Hs0);
      [done..|]. rewrite E. cbn [mbind option_bind]. rewrite andb_true_r. destruct Hs0 as [Hle Hs0].
    assert (Hrun : forall s' e', clean_run s' e' -> (s0 <= s')%nat).
    { intros s' e' Hr. destruct (clean_run_bounds s' e' s' Hr) as (f & Hf & Hb & _); [destruct Hr; lia|]. by apply (Hs0 s' f). }
    destruct (Nat.ltb_spec 0 s0) as [Hpos|Hz].
    + rewrite length_fmap. destruct (skip_forward_spec (S (length fs)) s0) as (s & -> & Hr & Hc & Hn); [lia..|]. exists s.
      split; [done|]. split; [lia|]. split; [done|]. split; [intros i f Hf Hi; apply (Hs0 i f Hf); lia|].
      intros s' e' Hr'. destruct (decide (s <= s')%nat); [done|]. exfalso. apply (Hn s'); [|by destruct Hr' as (_ & ? & _)].
      pose proof (Hrun _ _ Hr'). lia.
    + exists s0. split; [done|]. split; [done|]. split; [intros a b; lia|]. split; [intros i f Hf; by apply Hs0|done].
  - exists 0%nat. split; [done|]. split; [lia|]. split; [intros a b; lia|]. split; [|intros; lia].
    intros i f _ _. unfold reaches. by rewrite Eb.
Qed.

Lemma overlap_end_clean s : (s <= length fs)%nat -> (forall s' e', clean_run s' e' -> (s <= s')%nat) ->
  exists e, overlap_end c (brief <$> fs) end_ true s = Some e /\ (s <= e <= length fs)%nat /\ ((s < e)%nat -> clean_at e) /\
    (forall i f, fs !! i = Some f -> (s <= i < e)%nat -> within large f) /\ (forall s' e', clean_run s' e' -> (e' <= e)%nat).
Proof.
  intros Hs' Hfirst. unfold overlap_end. destruct end_ as [k|] eqn:Ee.
  - destruct (search_end large (fun f => largest (fp_meta (fk_file_metadata f))) s k large_sorted) as (e0 & E & He0);
      [done..|]. rewrite E. cbn [mbind option_bind]. rewrite andb_true_r, length_fmap. destruct He0 as [Hle He0].
    assert (Hrun : forall s' e', clean_run s' e' -> (e' <= e0)%nat).
    { intros s' e' Hr. pose proof (Hfirst _ _ Hr). destruct (clean_run_bounds s' e' (e' - 1) Hr) as (f & Hf & _ & Hw);
        [destruct Hr; lia|]. destruct Hr as [? _]. apply (He0 (e' - 1)%nat f) in Hw; [lia|done|lia]. }
    destruct (Nat.ltb_spec e0 (length fs)) as [Hlt|Hge].
    + destruct (skip_back_spec s e0) as (e & -> & Hr & Hc & Hn); [lia|]. exists e.
      split; [done|]. split; [lia|]. split; [done|]. split; [intros i f Hf Hi; apply (He0 i f Hf); lia|].
      intros s' e' Hr'. destruct (decide (e' <= e)%nat); [done|]. exfalso. apply (Hn e'); [|by destruct Hr' as (_ & _ & ? & _)].
      pose proof (Hrun _ _ Hr'). lia.
    + exists e0. split; [done|]. split; [done|]. split; [|split; [intros i f Hf Hi; apply (He0 i f Hf); lia|done]].
      intros _ a b _ _ Hb. apply lookup_lt_Some in Hb. lia.
  - rewrite length_fmap. exists (length fs). split; [done|]. split; [lia|]. split; [|split].
    + intros _ a b _ _ Hb. apply lookup_lt_Some in Hb. lia.
    + intros i f _ _. unfold within. by rewrite Ee.
    + intros s' e' [? _]. lia.
Qed.

(** ** Runs of files *)

Lemma filter_outside {A : Type} (P : A -> Prop) `{!forall x, Decision (P x)} (l : list A) :
  (forall x, x ∈ l -> ~ P x) -> filter P l = [].
Proof.
  induction l as [|x l IH]; intros Hout; [done|]. rewrite list.filter_cons, decide_False by (apply Hout; left).
  apply IH. intros y Hy. apply Hout. by right.
Qed.

Lemma filter_run {A : Type} (P : A -> Prop) `{!forall x, Decision (P x)} (l : list A) s e : (s <= e <= length l)%nat ->
  (forall i x, l !! i = Some x -> P x <-> (s <= i < e)%nat) -> filter P l = take (e - s) (drop s l).
Proof.
  intros Hse HP. pose proof (take_drop s l) as E1. pose proof (take_drop (e - s) (drop s l)) as E2.
  rewrite <- E1 at 1. rewrite <- E2 at 1. rewrite !list.filter_app, (filter_all P (take (e - s) (drop s l))), (filter_outside P (take s l)), (filter_outside P (drop _ _));
    [by rewrite app_nil_r|..].
  - intros x [i Hx]%list_elem_of_lookup. rewrite !lookup_drop in Hx. rewrite (HP _ _ Hx). lia.
  - intros x [i Hx]%list_elem_of_lookup. apply lookup_take_Some in Hx as [Hx Hi]. rewrite (HP _ _ Hx). lia.
  - apply list.Forall_forall. intros x [i Hx]%list_elem_of_lookup. apply lookup_take_Some in Hx as [Hx Hi].
    rewrite lookup_drop in Hx. apply (HP _ _ Hx). lia.
Qed.

#[export] Instance reaches_dec key f : Decision (reaches key f).
Proof. unfold reaches. destruct begin_; apply _. Defined.

#[export] Instance within_dec key f : Decision (within key f).
Proof. unfold within. destruct end_; apply _. Defined.

(** What the search returns for the run of files from [s] to [e]. *)
Definition run_result (o : OverlapOut) (s e : nat) : OverlapOut :=
  if (s =? e)%nat then o <| ov_next_smallest := None |>
  else {| ov_inputs := ov_inputs o ++ take (e - s) (drop s fs); ov_file_index := Z.of_nat s;
          ov_next_smallest := small <$> fs !! e |}.

Lemma range_search_overlapping hint o : hint_ok large hint ->
  exists s e, GetOverlappingInputsRangeBinarySearch c (brief <$> fs) fs begin_ end_ hint false o = Some (run_result o s e) /\
    (s <= e <= length fs)%nat /\ filter (fun f => reaches large f /\ within small f) fs = take (e - s) (drop s fs).
Proof.
  intros Hh. destruct (overlap_start_spec hint Hh) as (s & Es & Hle & Hs').
  destruct (overlap_end_spec s Hle) as (e & Ee & Hse & He). exists s, e. split; [|split; [done|]].
  - unfold GetOverlappingInputsRangeBinarySearch, run_result. rewrite Es. cbn [mbind option_bind]. rewrite Ee. cbn [mbind option_bind].
    by destruct (s =? e)%nat.
  - apply filter_run; [done|]. intros i f Hf. rewrite <- (Hs' i f Hf). split.
    + intros [H1 H2]. split; [done|]. by apply (He i f).
    + intros [H1 H2]. split; [done|]. by apply (He i f).
Qed.

Lemma range_search_clean hint o : hint_ok small hint ->
  exists s e, GetOverlappingInputsRangeBinarySearch c (brief <$> fs) fs begin_ end_ hint true o = Some (run_result o s e) /\
    (s <= e <= length fs)%nat /\ ((s < e)%nat -> clean_run s e) /\
    forall s' e', clean_run s' e' -> (s <= s')%nat /\ (e' <= e)%nat.
Proof.
  intros Hh. destruct (overlap_start_clean hint Hh) as (s & Es & Hle & Hc & Hin & Hmin).
  destruct (overlap_end_clean s Hle Hmin) as (e & Ee & Hse & Hce & Hin' & Hmax). exists s, e.
  split; [|split; [done|split; [|by eauto]]].
  - unfold GetOverlappingInputsRangeBinarySearch, run_result. rewrite Es. cbn [mbind option_bind]. rewrite Ee. cbn [mbind option_bind].
    by destruct (s =? e)%nat.
  - intros Hlt. split; [lia|]. split; [done|]. split; [by apply Hce|]. intros i f Hi Hf. split; [apply (Hin i f Hf); lia|by apply (Hin' i f)].
Qed.

End Search.

(** ** Level 0 *)

Section Level0.

Context (c : Comparator) `{!ComparatorOk c} `{!ComparatorTsOk c}.

Abbreviation ucmp := (user_cmp c).

(** A range of user keys; a missing bound is infinite. *)
Abbreviation key_range := (option bytes * option bytes)%type.

Definition overlaps (r : key_range) (f : FilePtr) : bool :=
  negb (match r.1 with Some b => ucmp (largest_user f) b <? 0 | None => false end
        || match r.2 with Some e => 0 <? ucmp (smallest_user f) e | None => false end).

Definition contains_file (r : key_range) (f : FilePtr) : Prop :=
  match r.1 with Some b => ucmp b (smallest_user f) <= 0 | None => True end /\
  match r.2 with Some e => ucmp (largest_user f) e <= 0 | None => True end.

Definition subrange (r r' : key_range) : Prop :=
  match r'.1, r.1 with Some b', Some b => ucmp b' b <= 0 | Some _, None => False | None, _ => True end /\
  match r'.2, r.2 with Some e', Some e => ucmp e e' <= 0 | Some _, None => False | None, _ => True end.

Lemma ucmp_refl a : ucmp a a <= 0.
Proof. pose proof (ucmp_flip c a a). lia. Qed.

Lemma subrange_refl r : subrange r r.
Proof. destruct r as [[b|] [e|]]; split; cbn; try done; apply ucmp_refl. Qed.

Lemma subrange_trans r1 r2 r3 : subrange r1 r2 -> subrange r2 r3 -> subrange r1 r3.
Proof.
  destruct r1 as [[b1|] [e1|]], r2 as [[b2|] [e2|]], r3 as [[b3|] [e3|]]; intros [H1 H2] [H3 H4]; split; cbn in *;
    try done; solve [by apply (ucmp_trans c _ b2)|by apply (ucmp_trans c _ e2)].
Qed.

Lemma overlaps_spec r f : overlaps r f = true <->
  match r.1 with Some b => ucmp b (largest_user f) <= 0 | None => True end /\
  match r.2 with Some e => ucmp (smallest_user f) e <= 0 | None => True end.
Proof.
  unfold overlaps. rewrite negb_true_iff, orb_false_iff. destruct r as [[b|] [e|]]; cbn; rewrite ?Z.ltb_ge;
    try pose proof (ucmp_flip c (largest_user f) b); try pose proof (ucmp_flip c b (largest_user f)); intuition lia.
Qed.

Lemma overlaps_mono r r' f : subrange r r' -> overlaps r f = true -> overlaps r' f = true.
Proof.
  rewrite !overlaps_spec. destruct r as [[b|] [e|]], r' as [[b'|] [e'|]]; intros [H1 H2] [H3 H4]; split; cbn in *;
    try done; solve [by apply (ucmp_trans c _ b)|by apply (ucmp_trans c _ e)].
Qed.

Lemma contains_mono r r' f : subrange r r' -> contains_file r f -> contains_file r' f.
Proof.
  destruct r as [[b|] [e|]], r' as [[b'|] [e'|]]; intros [H1 H2] [H3 H4]; split; cbn in *;
    try done; solve [by apply (ucmp_trans c _ b)|by apply (ucmp_trans c _ e)].
Qed.

(** The range after a file was taken. *)
Definition grow (expand_range : bool) (r : key_range) (f : FilePtr) : key_range :=
  (match r.1 with
   | Some b => if expand_range && (ucmp (smallest_user f) b <? 0) then Some (smallest_user f) else Some b
   | None => None
   end,
   match r.2 with
   | Some e => if expand_range && (0 <? ucmp (largest_user f) e) then Some (largest_user f) else Some e
   | None => None
   end).

Lemma grow_subrange ex r f : subrange r (grow ex r f).
Proof.
  destruct r as [[b|] [e|]], ex; split; cbn; try done; try apply ucmp_refl; zcase; try apply ucmp_refl; try lia.
  all: apply ucmp_flip_le; [done|lia].
Qed.

Lemma grow_contains r f : contains_file (grow true r f) f.
Proof.
  destruct r as [[b|] [e|]]; split; cbn; try done; zcase; try apply ucmp_refl; try lia.
  all: apply ucmp_flip_le; [done|lia].
Qed.

Lemma grow_least ex r r' f : subrange r r' -> contains_file r' f -> subrange (grow ex r f) r'.
Proof.
  destruct r as [[b|] [e|]], r' as [[b'|] [e'|]], ex; intros [H1 H2] [H3 H4]; split; cbn in *; try done; by zcase.
Qed.

(** *** The passes *)

Context (fs : list FilePtr) (r0 : key_range) (ex : bool).

(** Every file that meets the range lies inside it. *)
Definition clean (r : key_range) : Prop := forall f, f ∈ fs -> overlaps r f = true -> contains_file r f.

(** The position the caller gets is that of the first file found. *)
Definition first_at (o : OverlapOut) : Prop :=
  match ov_inputs o with
  | [] => ov_file_index o = -1
  | f :: _ => 0 <= ov_file_index o /\ fs !! Z.to_nat (ov_file_index o) = Some f
  end.

(** The files taken so far with the range they make, and the files left. *)
Record taken (o : OverlapOut) (index : list nat) (r : key_range) : Prop := {
  tk_all : ov_inputs o ++ omap (fs !!.) index ≡ₚ fs;
  tk_overlap : Forall (fun f => overlaps r f = true) (ov_inputs o);
  tk_inside : ex = true -> Forall (contains_file r) (ov_inputs o);
  tk_range : subrange r0 r;
  tk_fixed : ex = false -> r = r0;
  tk_least : forall r', subrange r0 r' -> clean r' -> subrange r r';
  tk_first : first_at o;
  tk_next : ov_next_smallest o = None
}.

Definition take_file (o : OverlapOut) (i : nat) (f : FilePtr) : OverlapOut :=
  let o := o <| ov_inputs ::= fun l => l ++ [f] |> in
  if ov_file_index o =? -1 then o <| ov_file_index := Z.of_nat i |> else o.

Lemma take_file_inputs o i f : ov_inputs (take_file o i f) = ov_inputs o ++ [f].
Proof. unfold take_file. cbv zeta. by destruct (_ =? _). Qed.

Lemma take_file_first o i f : first_at o -> fs !! i = Some f -> first_at (take_file o i f).
Proof.
  intros H Hf. unfold first_at in *. rewrite take_file_inputs. unfold take_file. cbv zeta.
  change (ov_file_index (o <| ov_inputs ::= fun l => l ++ [f] |>)) with (ov_file_index o).
  destruct (ov_inputs o) as [|g l]; cbn [app].
  - rewrite H. cbn. rewrite Nat2Z.id. split; [lia|done].
  - destruct H as [H0 Hg]. rewrite (proj2 (Z.eqb_neq _ _)) by lia. done.
Qed.

Lemma take_file_next o i f : ov_next_smallest (take_file o i f) = ov_next_smallest o.
Proof. unfold take_file. cbv zeta. by destruct (_ =? _). Qed.

Lemma taken_step o before i after r f : taken o (before ++ i :: after) r -> fs !! i = Some f -> overlaps r f = true ->
  taken (take_file o i f) (before ++ after) (grow ex r f).
Proof.
  intros [Ha Ho Hi Hr Hx Hl Hf Hn] Ef Hov. pose proof (grow_subrange ex r f) as Hg.
  constructor; rewrite ?take_file_inputs.
  - rewrite omap_app in Ha. cbn in Ha. rewrite Ef in Ha. etransitivity; [|exact Ha].
    rewrite <- app_assoc, omap_app. apply Permutation_app_head. cbn. by rewrite Permutation_middle.
  - apply Forall_app_2; [|constructor; [by apply (overlaps_mono r)|done]]. apply (list.Forall_impl _ _ _ Ho). intros g. by apply overlaps_mono.
  - intros ->. apply Forall_app_2; [|constructor; [apply grow_contains|done]].
    apply (list.Forall_impl _ _ _ (Hi eq_refl)). intros g. by apply contains_mono.
  - by apply (subrange_trans _ r).
  - intros ->. rewrite <- (Hx eq_refl). by destruct r as [[b|] [e|]].
  - intros r' H0 Hc. pose proof (Hl r' H0 Hc) as Hsub. apply grow_least; [done|]. apply Hc; [by eapply list_elem_of_lookup_2|].
    by apply (overlaps_mono r).
  - by apply take_file_first.
  - by rewrite take_file_next.
Qed.

Lemma overlap_pass_spec index before r o : Forall (fun i => (i < length fs)%nat) index -> taken o (before ++ index) r ->
  exists left_over r' o' found, overlap_pass c (brief <$> fs) fs ex index r.1 r.2 o = Some (left_over, r', o', found) /\
    taken o' (before ++ left_over) r' /\ Forall (fun i => (i < length fs)%nat) left_over /\
    (if found : bool then (length left_over < length index)%nat
     else left_over = index /\ r' = r /\ Forall (fun i => forall f, fs !! i = Some f -> overlaps r f = false) index).
Proof.
  revert before r o. induction index as [|i index IH]; intros before r o Hin Ht; cbn [overlap_pass].
  - exists [], r, o, false. destruct r. split; [done|]. split; [done|]. split; [constructor|]. split; [done|]. split; [done|constructor].
  - apply Forall_cons_1 in Hin as [Hi Hin]. destruct (lookup_lt_is_Some_2 fs i Hi) as [f Hf].
    rewrite list_lookup_fmap, Hf. cbn [mbind option_bind fmap option_fmap option_map fk_smallest_key fk_largest_key brief].
    fold (smallest_user f) (largest_user f). destruct (overlaps r f) eqn:Eo.
    + pose proof (taken_step _ _ _ _ _ _ Ht Hf Eo) as Ht'.
      apply negb_true_iff in Eo. rewrite Eo. destruct (IH before _ _ Hin Ht') as (left_over & r' & o' & found & E & Ht'' & Hl & Hlen).
      unfold grow in E. cbn [fst snd] in E. exists left_over, r', o', true. fold (take_file o i f). rewrite E.
      cbn [mbind option_bind]. split; [done|]. split; [done|]. split; [done|]. cbn [length].
      destruct found; [lia|destruct Hlen as [-> _]; lia].
    + pose proof Eo as Eo'. apply negb_false_iff in Eo. rewrite Eo.
      destruct (IH (before ++ [i]) r o Hin) as (left_over & r' & o' & found & E & Ht'' & Hl & Hlen); [by rewrite <- app_assoc|].
      exists (i :: left_over), r', o', found. rewrite E. cbn [mbind option_bind]. split; [done|]. rewrite <- app_assoc in Ht''.
      split; [done|]. split; [by constructor|]. destruct found; cbn [length]; [lia|]. destruct Hlen as (-> & -> & H).
      split; [done|]. split; [done|]. constructor; [|done]. intros g Hg. congruence.
Qed.

(** What the caller gets for level 0. *)
Record level0_result (o : OverlapOut) (r : key_range) : Prop := {
  l0_inputs : ov_inputs o ≡ₚ filter (fun f => overlaps r f = true) fs;
  l0_range : subrange r0 r;
  l0_fixed : ex = false -> r = r0;
  l0_clean : ex = true -> clean r;
  l0_least : forall r', subrange r0 r' -> clean r' -> subrange r r';
  l0_first : first_at o;
  l0_next : ov_next_smallest o = None
}.

Lemma taken_result o index r : taken o index r ->
  Forall (fun i => forall f, fs !! i = Some f -> overlaps r f = false) index -> level0_result o r.
Proof.
  intros [Ha Ho Hi Hr Hx Hl Hf Hn] Hout.
  assert (Hin : ov_inputs o ≡ₚ filter (fun f => overlaps r f = true) fs).
  { rewrite <- Ha, list.filter_app, (filter_all _ (ov_inputs o)) by done. rewrite filter_outside, app_nil_r; [done|].
    intros f (i & Hi' & Hf')%list_elem_of_omap. rewrite list.Forall_forall in Hout. by rewrite (Hout i Hi' f Hf'). }
  constructor; try done. intros Hex f Hf' Hov. specialize (Hi Hex). rewrite list.Forall_forall in Hi. apply Hi.
  rewrite Hin. by apply list_elem_of_filter.
Qed.

Lemma overlap_loop_spec fuel index r o : (length index < fuel)%nat -> Forall (fun i => (i < length fs)%nat) index ->
  taken o index r -> exists o' r', overlap_loop c fuel (brief <$> fs) fs ex index r.1 r.2 o = Some o' /\ level0_result o' r'.
Proof.
  revert index r o. induction fuel as [|fuel IH]; intros index r o Hf Hin Ht; [lia|]. cbn [overlap_loop].
  destruct index as [|i index'] eqn:Ei; [exists o, r; split; [done|]; by apply (taken_result o [])|]. rewrite <- Ei in *. clear Ei.
  destruct (overlap_pass_spec index [] r o Hin Ht) as (left_over & [b e] & o' & found & -> & Ht' & Hl & Hres). cbn [mbind option_bind].
  destruct found.
  - apply (IH left_over (b, e)); [lia|done..].
  - destruct Hres as (-> & <- & Hout). exists o', (b, e). split; [done|]. by apply (taken_result o' index).
Qed.

Lemma omap_lookup_seq {A : Type} (pre l : list A) : omap ((pre ++ l) !!.) (seq (length pre) (length l)) = l.
Proof.
  revert pre. induction l as [|x l IH]; intros pre; [done|]. specialize (IH (pre ++ [x])). rewrite length_app, <- app_assoc in IH.
  cbn [length seq omap list_omap]. rewrite list_lookup_middle by done. f_equal. cbn in IH. by rewrite Nat.add_1_r in IH.
Qed.

Lemma taken_start o : ov_inputs o = [] -> ov_file_index o = -1 -> ov_next_smallest o = None ->
  taken o (seq 0 (length fs)) r0.
Proof.
  intros Ho Hi Hn. constructor; rewrite ?Ho; try done.
  - pose proof (omap_lookup_seq [] fs) as E. cbn in E |- *. by rewrite E.
  - apply subrange_refl.
  - unfold first_at. by rewrite Ho.
Qed.

End Level0.

(** ** A file in a level *)

Section InLevel.

Context (c : Comparator) `{!ComparatorOk c} `{!ComparatorTsOk c}.
Context (no_ts : forall x y, CompareWithoutTimestamp c x true y true = Compare c x y).

Lemma sentinel_below_seek : kRangeTombstoneSentinel < PackSequenceAndType kMaxSequenceNumber kValueTypeForSeek.
Proof. by vm_compute. Qed.

(** The least key of a user key separates the files that end before it. *)
Lemma IK_min_key f k : bounds_valid f ->
  IKCompare c (largest (fp_meta f)) (InternalKey.SetMinPossibleForUserKey [] k) < 0 <-> user_cmp c (largest_user f) k < 0.
Proof.
  intros [_ Hf]. unfold user_cmp. rewrite no_ts. unfold IKCompare.
  fold (ExtractInternalKeyFooter (largest (fp_meta f))).
  fold (ExtractInternalKeyFooter (InternalKey.SetMinPossibleForUserKey [] k)).
  change (InternalKey.SetMinPossibleForUserKey [] k)
    with (k ++ EncodeFixed64 (PackSequenceAndType kMaxSequenceNumber kValueTypeForSeek)).
  rewrite ExtractUserKey_app, ExtractInternalKeyFooter_app by (split; by vm_compute). fold (largest_user f).
  destruct (Z.eqb_spec (Compare c (largest_user f) k) 0) as [E|E]; [|done].
  pose proof sentinel_below_seek. rewrite (proj2 (Z.ltb_ge _ _)) by lia. rewrite (proj2 (Z.ltb_lt _ _)) by lia. lia.
Qed.

Lemma overlaps_brief sk lk f : overlaps c (sk, lk) f = negb (AfterFile c sk (brief f) || BeforeFile c lk (brief f)).
Proof.
  unfold overlaps, AfterFile, BeforeFile. cbn [fst snd brief fk_smallest_key fk_largest_key].
  fold (smallest_user f) (largest_user f). f_equal. f_equal.
  - destruct sk as [k|]; [|done]. pose proof (ucmp_flip c (largest_user f) k). zcase; zcase; lia.
  - destruct lk as [k|]; [|done]. pose proof (ucmp_flip c k (smallest_user f)). zcase; zcase; lia.
Qed.

(** The position the search yields, and what it says about the files. *)
Lemma first_reaching fs k : Forall bounds_valid fs -> level_sorted c fs ->
  exists i : nat, FindFile c (brief <$> fs) (InternalKey.SetMinPossibleForUserKey [] k) = Some (Z.of_nat i) /\
    forall j f, fs !! j = Some f -> (i <= j)%nat <-> user_cmp c k (largest_user f) <= 0.
Proof.
  intros Hv Hs. rewrite list.Forall_forall in Hv. unfold FindFile, FindFileInRange. rewrite slen_fmap.
  rewrite (proj2 (Z.ltb_ge _ _)) by (unfold slen; lia). rewrite Z.sub_0_r. unfold slen. rewrite Nat2Z.id. change (Z.to_nat 0) with 0%nat.
  assert (Hlt : forall j f, fs !! j = Some f ->
    (IKCompare c (fk_largest_key (brief f)) (InternalKey.SetMinPossibleForUserKey [] k) <? 0) = true <-> user_cmp c (largest_user f) k < 0).
  { intros j f Hf. rewrite Z.ltb_lt. apply IK_min_key. by eapply Hv, list_elem_of_lookup_2. }
  destruct (std_lower_bound_spec (fun f => IKCompare c (fk_largest_key f) (InternalKey.SetMinPossibleForUserKey [] k) <? 0)
    (brief <$> fs) 0 (length fs)) as (i & -> & Hi & Hlo & Hhi).
  - rewrite length_fmap. lia.
  - intros i j x y Hij Hx Hy. rewrite list_lookup_fmap in Hx, Hy.
    destruct (fs !! i) as [a|] eqn:Ea; [|done]. destruct (fs !! j) as [b|] eqn:Eb; [|done].
    injection Hx as <-. injection Hy as <-. rewrite (Hlt i a Ea), (Hlt j b Eb). intros Hb.
    apply (ucmp_lt_trans c _ (largest_user b)); [apply (level_sorted_largest c fs i j); [done|lia|done..]|lia|by right].
  - exists i. split; [done|]. intros j f Hf. pose proof (lookup_lt_Some _ _ _ Hf).
    assert (Hbf : (brief <$> fs) !! j = Some (brief f)) by (by rewrite list_lookup_fmap, Hf).
    pose proof (ucmp_flip c (largest_user f) k). destruct (decide (i <= j)%nat) as [Hle|Hgt].
    + specialize (Hhi j _ ltac:(lia) Hbf). apply not_true_iff_false in Hhi. rewrite (Hlt j f Hf) in Hhi. lia.
    + specialize (Hlo j _ ltac:(lia) Hbf). rewrite (Hlt j f Hf) in Hlo. lia.
Qed.

(** In a sorted level the file at the position decides. *)
Lemma first_file_decides fs i sk lk : level_sorted c fs ->
  (forall j f, fs !! j = Some f -> (i <= j)%nat <-> AfterFile c sk (brief f) = false) ->
  existsb (overlaps c (sk, lk)) fs = match fs !! i with Some f => negb (BeforeFile c lk (brief f)) | None => false end.
Proof.
  intros Hs Hi. apply eq_true_iff_eq. rewrite existsb_exists. split.
  - intros (g & Hg & Hov). rewrite <- list_elem_of_In in Hg. apply list_elem_of_lookup in Hg as [j Hg].
    rewrite overlaps_brief, negb_true_iff, orb_false_iff in Hov. destruct Hov as [Ha Hb]. apply (Hi j g Hg) in Ha.
    destruct (lookup_lt_is_Some_2 fs i) as [f Hf]; [apply lookup_lt_Some in Hg; lia|]. rewrite Hf. apply negb_true_iff.
    unfold BeforeFile in *. cbn [fk_smallest_key brief] in *. fold (smallest_user f). fold (smallest_user g) in Hb.
    destruct lk as [k|]; [|done]. apply Z.ltb_ge in Hb. apply Z.ltb_ge. apply ucmp_flip_le; [done|].
    apply ucmp_flip_le in Hb; [|done]. apply (ucmp_trans c _ (smallest_user g)); [by apply (level_sorted_smallest c fs i j)|done].
  - destruct (fs !! i) as [f|] eqn:Hf; [|done]. intros Hb. exists f. split; [by eapply list_elem_of_In, list_elem_of_lookup_2|].
    rewrite overlaps_brief. rewrite (proj1 (Hi i f Hf)) by lia. done.
Qed.

Lemma some_file_sorted fs sk lk : Forall bounds_valid fs -> level_sorted c fs ->
  SomeFileOverlapsRange c true (brief <$> fs) sk lk = Some (existsb (overlaps c (sk, lk)) fs).
Proof.
  intros Hv Hs. unfold SomeFileOverlapsRange. cbn [negb]. rewrite slen_fmap.
  assert (Hpos : exists i : nat,
    match sk with Some k => FindFile c (brief <$> fs) (InternalKey.SetMinPossibleForUserKey [] k) | None => Some 0 end
      = Some (Z.of_nat i) /\ forall j f, fs !! j = Some f -> (i <= j)%nat <-> AfterFile c sk (brief f) = false).
  { destruct sk as [k|]; [|exists 0%nat; split; [done|]; intros; split; [done|lia]].
    destruct (first_reaching fs k Hv Hs) as (i & Ei & Hi). exists i. split; [done|]. intros j f Hf.
    rewrite (Hi j f Hf). cbn. by rewrite Z.ltb_ge. }
  destruct Hpos as (i & -> & Hi). cbn [mbind option_bind]. rewrite (first_file_decides fs i sk lk Hs Hi), list_lookup_fmap, Nat2Z.id.
  unfold slen. destruct (fs !! i) as [f|] eqn:Hf.
  - apply lookup_lt_Some in Hf. rewrite (proj2 (Z.leb_gt _ _)) by lia. done.
  - apply lookup_ge_None in Hf. rewrite (proj2 (Z.leb_le _ _)) by lia. done.
Qed.

Lemma some_file_any fs sk lk :
  SomeFileOverlapsRange c false (brief <$> fs) sk lk = Some (existsb (overlaps c (sk, lk)) fs).
Proof.
  unfold SomeFileOverlapsRange. cbn [negb]. f_equal. induction fs as [|f fs IH]; [done|]. cbn [fmap list_fmap existsb].
  by rewrite overlaps_brief, IH.
Qed.

End InLevel.

(** ** The questions about a version *)

Section Answers.

Context (c : Comparator) `{!ComparatorOk c} `{!ComparatorTsOk c}.

(** The levels below 0 in the order of boundary keys. *)
Definition inputs_ok (v : VersionStorageInfo) : Prop :=
  forall l fs, (1 <= l)%nat -> files_ v !! l = Some fs -> inputs_sorted c fs.

(** Without timestamps, consistent levels are in that order. *)
Lemma searchable_inputs_ok v : (forall x y, CompareWithoutTimestamp c x true y true = Compare c x y) -> searchable c v ->
  (forall l fs, files_ v !! l = Some fs -> Forall bounds_valid fs) -> inputs_ok v.
Proof.
  intros Hts Hv Hb l fs Hl Hfs. apply below_inputs_sorted; [done..| |by eapply Hb|by apply (sv_consistent c v Hv l)].
  apply list.Forall_forall. intros f Hf. by apply (sv_ranges c v Hv l fs).
Qed.

Lemma data_brief files n fi l fs : (l < n)%nat -> files !! l = Some fs ->
  level_files_brief_ (data files n fi) !! l = Some (brief <$> fs).
Proof.
  intros Hl Hfs. cbn [level_files_brief_ data]. unfold GenerateLevelFilesBrief. rewrite Nat2Z.id, list_lookup_fmap, lookup_take_lt by done.
  by rewrite Hfs.
Qed.

(** Where the data for lookups comes from, level by level. *)
Lemma prepared_level v (l : nat) : searchable c v -> exists d, PrepareForVersionAppend c v = Some d /\
  ((num_non_empty_levels_ d <=? Z.of_nat l) = true /\ (forall fs, files_ v !! l = Some fs -> fs = []) \/
   (num_non_empty_levels_ d <=? Z.of_nat l) = false /\
   exists fs, files_ v !! l = Some fs /\ level_files_brief_ d !! l = Some (brief <$> fs)).
Proof.
  intros Hv. destruct (prepare_spec c v Hv) as (n & fi & Hp & Hn & _ & Hempty). exists (data (files_ v) n fi). split; [done|].
  cbn [num_non_empty_levels_ data]. destruct (decide (n <= l)%nat) as [Hle|Hlt].
  - left. split; [apply Z.leb_le; lia|]. intros fs Hfs. by apply (Hempty l).
  - right. split; [apply Z.leb_gt; lia|]. destruct (lookup_lt_is_Some_2 (files_ v) l) as [fs Hfs]; [lia|]. exists fs.
    split; [done|]. apply data_brief; [lia|done].
Qed.

(** What the caller gets for a level below 0: the run of files [inputs], where
    it begins and what follows it. *)
Definition run_of (fs inputs : list FilePtr) (o : OverlapOut) : Prop :=
  ov_inputs o = inputs /\
  if decide (inputs = []) then ov_file_index o = -1 /\ ov_next_smallest o = None
  else exists s : nat, inputs = take (length inputs) (drop s fs) /\ ov_file_index o = Z.of_nat s /\
    ov_next_smallest o = (fun f => smallest (fp_meta f)) <$> fs !! (s + length inputs)%nat.

Lemma run_length (fs : list FilePtr) s e : (s <= e <= length fs)%nat -> length (take (e - s) (drop s fs)) = (e - s)%nat.
Proof. intros. rewrite length_take, length_drop. lia. Qed.

Lemma run_result_run fs o s e : ov_inputs o = [] -> ov_file_index o = -1 -> (s <= e <= length fs)%nat ->
  run_of fs (take (e - s) (drop s fs)) (run_result fs o s e).
Proof.
  intros Ho Hi Hse. pose proof (run_length fs s e Hse) as Hlen. unfold run_of, run_result.
  destruct (Nat.eqb_spec s e) as [->|Hne].
  - rewrite Nat.sub_diag. cbn. done.
  - rewrite Ho. cbn [ov_inputs ov_file_index ov_next_smallest app]. split; [done|]. rewrite decide_False.
    + exists s. rewrite Hlen. split; [done|]. split; [done|]. by replace (s + (e - s))%nat with e by lia.
    + intros E. rewrite E in Hlen. cbn in Hlen. lia.
Qed.

End Answers.

Abbreviation smallest_key := (fun f : FilePtr => smallest (fp_meta f)).
Abbreviation largest_key := (fun f : FilePtr => largest (fp_meta f)).

(** [C10] For every searchable version, level, range and hint that names a file
    not before the range, [GetOverlappingInputs] returns. Below level 0 its
    binary searches find exactly the files that a scan would find to meet the
    range, as one run, with its position and the key that follows it. At level
    0, where files may overlap each other, it finds the files that meet the
    range of user keys, or, when the range may expand, those that meet the
    least range around it that cuts through no file. Of a level past the last
    one with files it leaves the outputs as they are. *)
Theorem overlapping_inputs_exact (c : Comparator) `{!ComparatorOk c} `{!ComparatorTsOk c} (v : VersionStorageInfo)
    (level : nat) (begin_ end_ : option bytes) (hint_index : Z) (expand_range : bool) (o : OverlapOut) :
  searchable c v -> inputs_ok c v ->
  (forall fs, (1 <= level)%nat -> files_ v !! level = Some fs -> hint_ok c fs begin_ largest_key hint_index) ->
  exists d o', PrepareForVersionAppend c v = Some d /\
    GetOverlappingInputs c v d (Z.of_nat level) begin_ end_ hint_index expand_range o = Some o' /\
    if num_non_empty_levels_ d <=? Z.of_nat level then o' = o /\ (forall fs, files_ v !! level = Some fs -> fs = [])
    else exists fs, files_ v !! level = Some fs /\
      if (level =? 0)%nat
      then exists r, level0_result c fs (ExtractUserKey <$> begin_, ExtractUserKey <$> end_) expand_range o' r
      else run_of fs (filter (fun f => reaches c begin_ largest_key f /\ within c end_ smallest_key f) fs) o'.
Proof.
  intros Hv Hin Hh. destruct (prepared_level c v level Hv) as (d & Hd & Hl). exists d.
  unfold GetOverlappingInputs. destruct Hl as [[-> Hnil]|[-> (fs & Hfs & Hbrief)]]; [by exists o|].
  rewrite Nat2Z.id, Hbrief, Hfs. cbn [mbind option_bind]. destruct level as [|l].
  - cbn [Z.of_nat Z.ltb Z.compare Nat.eqb]. set (o0 := _ <| ov_next_smallest := None |>).
    destruct (overlap_loop_spec c fs (ExtractUserKey <$> begin_, ExtractUserKey <$> end_) expand_range (S (length (brief <$> fs)))
      (seq 0 (length (brief <$> fs))) (ExtractUserKey <$> begin_, ExtractUserKey <$> end_) o0) as (o' & r & E & Hr).
    + rewrite length_seq. lia.
    + apply list.Forall_forall. intros i Hi. apply elem_of_seq in Hi. rewrite length_fmap in Hi. lia.
    + rewrite length_fmap. by apply taken_start.
    + exists o'. cbn [fst snd] in E. split; [done|]. split; [done|]. exists fs. split; [done|]. by exists r.
  - rewrite (proj2 (Z.ltb_lt 0 _)) by lia.
    destruct (range_search_overlapping c fs (Hin (S l) fs ltac:(lia) Hfs) begin_ end_ hint_index
      (o <| ov_inputs := [] |> <| ov_file_index := -1 |>) (Hh fs ltac:(lia) Hfs)) as (s & e & E & Hse & Hf).
    eexists. split; [done|]. split; [exact E|]. exists fs. split; [done|]. cbn [Nat.eqb]. rewrite Hf. by apply run_result_run.
Qed.

(** [C11] Below level 0, [GetCleanInputsWithinInterval] returns the largest run
    of files that lies inside the interval and whose ends separate no two files
    that share a user key: it is such a run, and it contains every other. At
    level 0 it returns nothing. *)
Theorem clean_inputs_maximal (c : Comparator) `{!ComparatorOk c} `{!ComparatorTsOk c} (v : VersionStorageInfo)
    (level : nat) (fs : list FilePtr) (begin_ end_ : option bytes) (hint_index : Z) (o : OverlapOut) :
  searchable c v -> inputs_ok c v -> files_ v !! level = Some fs -> hint_ok c fs begin_ smallest_key hint_index ->
  exists d o', PrepareForVersionAppend c v = Some d /\
    GetCleanInputsWithinInterval c v d (Z.of_nat level) begin_ end_ hint_index o = Some o' /\
    if (level =? 0)%nat then ov_inputs o' = [] /\ ov_file_index o' = -1
    else exists s e, (s <= e <= length fs)%nat /\ ov_inputs o' = take (e - s) (drop s fs) /\
      (if (s =? e)%nat then ov_file_index o' = -1 else clean_run c fs begin_ end_ s e /\ ov_file_index o' = Z.of_nat s) /\
      forall s' e', clean_run c fs begin_ end_ s' e' -> (s <= s' < e')%nat /\ (e' <= e)%nat.
Proof.
  intros Hv Hin Hfs Hh. destruct (prepared_level c v level Hv) as (d & Hd & Hl). exists d.
  unfold GetCleanInputsWithinInterval. cbv zeta. set (o0 := o <| ov_inputs := [] |> <| ov_file_index := -1 |>).
  assert (Hempty : fs = [] -> if (level =? 0)%nat then ov_inputs o0 = [] /\ ov_file_index o0 = -1
    else exists s e, (s <= e <= length fs)%nat /\ ov_inputs o0 = take (e - s) (drop s fs) /\
      (if (s =? e)%nat then ov_file_index o0 = -1 else clean_run c fs begin_ end_ s e /\ ov_file_index o0 = Z.of_nat s) /\
      forall s' e', clean_run c fs begin_ end_ s' e' -> (s <= s' < e')%nat /\ (e' <= e)%nat).
  { intros ->. destruct (level =? 0)%nat; [done|]. exists 0%nat, 0%nat. split; [cbn; lia|]. split; [done|]. split; [done|].
    intros s' e' [Hlt _]. cbn in Hlt. lia. }
  destruct Hl as [[-> Hnil]|[-> (fs' & Hfs' & Hbrief)]]; [exists o0; split; [done|]; split; [done|]; by apply Hempty, Hnil|].
  assert (fs' = fs) as -> by congruence. cbn [orb]. destruct level as [|l]; [by exists o0|].
  rewrite (proj2 (Z.eqb_neq _ _)) by lia. rewrite Nat2Z.id, Hbrief. cbn [mbind option_bind]. rewrite slen_fmap.
  destruct (Z.eqb_spec (slen fs) 0) as [E0|_].
  { exists o0. split; [done|]. split; [done|]. apply Hempty. by apply slen_0_nil. }
  rewrite Hfs. cbn [mbind option_bind].
  destruct (range_search_clean c fs (Hin (S l) fs ltac:(lia) Hfs) begin_ end_ hint_index o0 Hh) as (s & e & -> & Hse & Hrun & Hmax).
  cbn [mbind option_bind]. eexists. split; [done|]. split; [done|]. cbn [Nat.eqb]. exists s, e. split; [done|].
  unfold run_result. split; [|split].
  - destruct (Nat.eqb_spec s e) as [->|]; [|done]. by rewrite Nat.sub_diag.
  - destruct (Nat.eqb_spec s e) as [->|]; [done|]. split; [apply Hrun; lia|done].
  - intros s' e' Hr. pose proof (Hmax _ _ Hr). destruct Hr as [? _]. lia.
Qed.

(** Without timestamps, [OverlapInLevel] answers for every level whether
    some file of it meets the range of user keys: below level 0 one binary search
    and a look at one file decide what level 0 finds out by looking at all. *)
Theorem overlap_in_level_exact (c : Comparator) `{!ComparatorOk c} `{!ComparatorTsOk c} (v : VersionStorageInfo)
    (level : nat) (fs : list FilePtr) (smallest_user_key largest_user_key : option bytes) :
  (forall x y, CompareWithoutTimestamp c x true y true = Compare c x y) ->
  searchable c v -> files_ v !! level = Some fs -> Forall bounds_valid fs ->
  exists d, PrepareForVersionAppend c v = Some d /\
    OverlapInLevel c d (Z.of_nat level) smallest_user_key largest_user_key =
    Some (existsb (overlaps c (smallest_user_key, largest_user_key)) fs).
Proof.
  intros Hts Hv Hfs Hb. destruct (prepared_level c v level Hv) as (d & Hd & Hl). exists d. split; [done|].
  unfold OverlapInLevel. destruct Hl as [[-> Hnil]|[-> (fs' & Hfs' & Hbrief)]]; [by rewrite (Hnil fs Hfs)|].
  assert (fs' = fs) as -> by congruence. rewrite Nat2Z.id, Hbrief. cbn [mbind option_bind]. destruct level as [|l].
  - by apply some_file_any.
  - rewrite (proj2 (Z.ltb_lt 0 _)) by lia. apply some_file_sorted; [done..|]. apply below_level_sorted; [done..| |].
    + apply list.Forall_forall. intros f Hf. by apply (sv_ranges c v Hv (S l) fs).
    + apply (sv_consistent c v Hv (S l)); [lia|done].
Qed.

(** ** An example *)

(** Files that end in an entry newer than one they could begin with. *)
Definition ex_range (number : Z) (lo hi : byte) : FilePtr :=
  {| fp_addr := number; fp_meta := (ex_meta number lo hi 9 0 0) <| largest := ex_key hi 10 |> |}.

(** Two levels: of each, the first two files share a user key. *)
Definition ex_touching : VersionStorageInfo :=
  (VersionStorageInfo_make 2 None true kMightMissing)
    <| files_ := [[ex_range 20 Byte.x61 Byte.x63; ex_range 21 Byte.x63 Byte.x66; ex_range 22 Byte.x68 Byte.x6b];
                  [ex_range 23 Byte.x61 Byte.x64; ex_range 24 Byte.x64 Byte.x6b; ex_range 25 Byte.x6d Byte.x74]] |>.

Lemma ex_touching_levels (P : nat -> list FilePtr -> Prop) :
  P 0%nat [ex_range 20 Byte.x61 Byte.x63; ex_range 21 Byte.x63 Byte.x66; ex_range 22 Byte.x68 Byte.x6b] ->
  P 1%nat [ex_range 23 Byte.x61 Byte.x64; ex_range 24 Byte.x64 Byte.x6b; ex_range 25 Byte.x6d Byte.x74] ->
  forall l fs, files_ ex_touching !! l = Some fs -> P l fs.
Proof. intros H0 H1 l fs. destruct l as [|[|l]]; cbn; intros [= <-]; done. Qed.

Lemma ex_touching_searchable : searchable BytewiseComparator ex_touching.
Proof.
  constructor; [done|by vm_compute| | |].
  - apply (ex_touching_levels (fun _ fs => slen fs < 2 ^ 31)); by vm_compute.
  - intros l fs f Hfs. revert f. apply list.Forall_forall. revert l fs Hfs.
    apply (ex_touching_levels (fun _ fs => Forall (range_ok BytewiseComparator) fs)); repeat constructor; by vm_compute.
  - intros l fs Hl Hfs. revert Hl. revert l fs Hfs. apply (ex_touching_levels (fun l fs => (1 <= l)%nat -> StronglySorted (below BytewiseComparator) fs)); [lia|].
    intros _. repeat constructor; by vm_compute.
Qed.

Lemma ex_touching_bounds l fs : files_ ex_touching !! l = Some fs -> Forall bounds_valid fs.
Proof.
  revert l fs. apply (ex_touching_levels (fun _ fs => Forall bounds_valid fs)); repeat constructor; by vm_compute.
Qed.

Lemma bytewise_no_timestamps x y : CompareWithoutTimestamp BytewiseComparator x true y true = Compare BytewiseComparator x y.
Proof. done. Qed.

Lemma ex_touching_inputs : inputs_ok BytewiseComparator ex_touching.
Proof.
  apply (searchable_inputs_ok BytewiseComparator);
    [apply bytewise_no_timestamps|apply ex_touching_searchable|apply ex_touching_bounds].
Qed.

Definition ex_overlap_out : OverlapOut := {| ov_inputs := []; ov_file_index := -1; ov_next_smallest := None |}.

(** At level 0 the range from b to b grows to that from a to f. *)
Lemma overlapping_inputs_exact_witness : exists d o', PrepareForVersionAppend BytewiseComparator ex_touching = Some d /\
  GetOverlappingInputs BytewiseComparator ex_touching d 0 (Some (ex_key Byte.x62 50)) (Some (ex_key Byte.x62 0)) (-1) true ex_overlap_out
    = Some o' /\ FileNumber <$> ov_inputs o' = [20; 21].
Proof.
  destruct (overlapping_inputs_exact BytewiseComparator ex_touching 0 (Some (ex_key Byte.x62 50)) (Some (ex_key Byte.x62 0)) (-1)
    true ex_overlap_out ex_touching_searchable ex_touching_inputs ltac:(intros; by left)) as (d & o' & Hd & Ho & _).
  exists d, o'. split; [done|]. split; [done|]. vm_compute in Hd. injection Hd as <-. vm_compute in Ho. by injection Ho as <-.
Defined.

(** Of the files between b and z, the second shares the key d with the first
    and has to stay. *)
Lemma clean_inputs_maximal_witness : exists d o', PrepareForVersionAppend BytewiseComparator ex_touching = Some d /\
  GetCleanInputsWithinInterval BytewiseComparator ex_touching d 1 (Some (ex_key Byte.x62 50)) (Some (ex_key Byte.x7a 0)) (-1) ex_overlap_out
    = Some o' /\ FileNumber <$> ov_inputs o' = [25].
Proof.
  destruct (clean_inputs_maximal BytewiseComparator ex_touching 1 _ (Some (ex_key Byte.x62 50)) (Some (ex_key Byte.x7a 0)) (-1)
    ex_overlap_out ex_touching_searchable ex_touching_inputs eq_refl ltac:(by left)) as (d & o' & Hd & Ho & _).
  exists d, o'. split; [done|]. split; [done|]. vm_compute in Hd. injection Hd as <-. vm_compute in Ho. by injection Ho as <-.
Defined.

(** No file of level 1 has a key l. *)
Lemma overlap_in_level_exact_witness : exists d, PrepareForVersionAppend BytewiseComparator ex_touching = Some d /\
  OverlapInLevel BytewiseComparator d 1 (Some [Byte.x6c]) (Some [Byte.x6c]) = Some false.
Proof.
  destruct (overlap_in_level_exact BytewiseComparator ex_touching 1 _ (Some [Byte.x6c]) (Some [Byte.x6c]) bytewise_no_timestamps
    ex_touching_searchable eq_refl (ex_touching_bounds 1 _ eq_refl)) as (d & Hd & Ho).
  exists d. split; [done|]. etransitivity; [exact Ho|]. by vm_compute.
Defined.
