(* ===== verification/FileName.v ===== *)
(** * Names of the files of a database

    file/filename.h and file/filename.cc: the name of each kind of file, and
    [ParseFileName], which decides what a file in the database's directories
    is; with [ConsumeDecimalNumber] of util/string_util.cc.

    Theorems: every name is parsed back to the kind and number it was made
    from, for every prefix of info logs; what is parsed as a table, blob, log,
    manifest or temporary file has a name of that form. *)

From S2P Require Import Prelude Slice.

(** A string literal as the bytes of a [std::string]. *)
Abbreviation str := String.list_byte_of_string.

Definition kCurrentFileName : bytes := str "CURRENT".
Definition kOptionsFileNamePrefix : bytes := str "OPTIONS-".
Definition kTempFileNameSuffix : bytes := str "dbtmp".
Definition kRocksDbTFileExt : bytes := str "sst".
Definition kLevelDbTFileExt : bytes := str "ldb".
Definition kRocksDBBlobFileExt : bytes := str "blob".
Definition kArchivalDirName : bytes := str "archive".
Definition kFilePathSeparator : byte := Byte.x2f.

(** [FileType] and [WalFileType] (include/rocksdb/types.h,
    include/rocksdb/transaction_log.h). *)
Inductive FileType :=
| kWalFile
| kDBLockFile
| kTableFile
| kDescriptorFile
| kCurrentFile
| kTempFile
| kInfoLogFile
| kMetaDatabase
| kIdentityFile
| kOptionsFile
| kBlobFile.

#[export] Instance FileType_eq_dec : EqDecision FileType.
Proof. solve_decision. Defined.

Inductive WalFileType := kArchivedLogFile | kAliveLogFile.

(** ** Numbers *)

(** What [%llu] prints; 20 digits are enough for 64 bits. *)
Definition digit (d : Z) : byte := to_byte (48 + d).

Fixpoint print_digits (fuel : nat) (n : Z) (acc : bytes) : bytes :=
  match fuel with
  | O => acc
  | S fuel =>
      let acc := digit (n mod 10) :: acc in
      if n <? 10 then acc else print_digits fuel (n / 10) acc
  end.

Definition decimal (n : Z) : bytes := print_digits 20 n [].

(** [%06llu]. *)
Definition decimal6 (n : Z) : bytes := replicate (6 - length (decimal n)) (digit 0) ++ decimal n.

(** The loop of [ConsumeDecimalNumber]; [None] is the overflow. *)
Fixpoint consume_digits (s : bytes) (v digits : Z) : option (bytes * Z * Z) :=
  match s with
  | [] => Some ([], v, digits)
  | c :: s' =>
      if (48 <=? ub c) && (ub c <=? 57) then
        let delta := ub c - 48 in
        let kMaxUint64 := 2 ^ 64 - 1 in
        if (kMaxUint64 / 10 <? v) || ((v =? kMaxUint64 / 10) && (kMaxUint64 mod 10 <? delta)) then None
        else consume_digits s' (u64 (v * 10 + delta)) (digits + 1)
      else Some (s, v, digits)
  end.

(** The number and what is left of the slice. *)
Definition ConsumeDecimalNumber (s : bytes) : option (Z * bytes) :=
  match consume_digits s 0 0 with
  | Some (rest, v, digits) => if 0 <? digits then Some (v, rest) else None
  | None => None
  end.

(** ** Making names *)

Definition MakeFileName_at (number : Z) (suffix : bytes) : bytes := decimal6 number ++ str "." ++ suffix.
Definition MakeFileName (name : bytes) (number : Z) (suffix : bytes) : bytes :=
  name ++ str "/" ++ MakeFileName_at number suffix.

Definition LogFileName (name : bytes) (number : Z) : bytes := MakeFileName name number (str "log").
Definition LogFileName_base (number : Z) : bytes := MakeFileName_at number (str "log").
Definition BlobFileName_base (number : Z) : bytes := MakeFileName_at number kRocksDBBlobFileExt.
Definition BlobFileName (blobdirname : bytes) (number : Z) : bytes :=
  MakeFileName blobdirname number kRocksDBBlobFileExt.
Definition BlobFileName_in (dbname blob_dir : bytes) (number : Z) : bytes :=
  MakeFileName (dbname ++ str "/" ++ blob_dir) number kRocksDBBlobFileExt.
Definition ArchivalDirectory (dir : bytes) : bytes := dir ++ str "/" ++ kArchivalDirName.
Definition ArchivedLogFileName (name : bytes) (number : Z) : bytes :=
  MakeFileName (name ++ str "/" ++ kArchivalDirName) number (str "log").
Definition MakeTableFileName (path : bytes) (number : Z) : bytes := MakeFileName path number kRocksDbTFileExt.
Definition MakeTableFileName_base (number : Z) : bytes := MakeFileName_at number kRocksDbTFileExt.

Definition Rocks2LevelTableFileName (fullname : bytes) : bytes :=
  if slen fullname <=? slen kRocksDbTFileExt + 1 then []
  else stake (slen fullname - slen kRocksDbTFileExt) fullname ++ kLevelDbTFileExt.

(** The digits before the last dot, from the right: [rev] of the part before
    it. Without a dot [find_last_of] is [npos], which becomes -1. *)
Fixpoint number_backwards (s : bytes) (number base : Z) : Z :=
  match s with
  | c :: s' =>
      if (48 <=? ub c) && (ub c <=? 57)
      then number_backwards s' (u64 (number + (ub c - 48) * base)) (u64 (base * 10))
      else number
  | [] => number
  end.

Fixpoint after_last_dot (reversed : bytes) : bytes :=
  match reversed with
  | [] => []
  | c :: s' => if ub c =? 46 then s' else after_last_dot s'
  end.

Definition TableFileNameToNumber (name : bytes) : Z := number_backwards (after_last_dot (rev name)) 0 1.

(** [DbPath::path]; the last path stands for those that do not exist. An empty
    vector has no [back()]. *)
Definition TableFileName (db_paths : list bytes) (number path_id : Z) : option bytes :=
  (fun path => MakeTableFileName path number) <$>
  (if slen db_paths <=? path_id then list.last db_paths else db_paths !! Z.to_nat path_id).

Definition DescriptorFileName_base (number : Z) : bytes := str "MANIFEST-" ++ decimal6 number.
Definition DescriptorFileName (dbname : bytes) (number : Z) : bytes :=
  dbname ++ str "/" ++ DescriptorFileName_base number.
Definition CurrentFileName (dbname : bytes) : bytes := dbname ++ str "/" ++ kCurrentFileName.
Definition LockFileName (dbname : bytes) : bytes := dbname ++ str "/LOCK".
Definition TempFileName (dbname : bytes) (number : Z) : bytes := MakeFileName dbname number kTempFileNameSuffix.
Definition OptionsFileName_base (file_num : Z) : bytes := kOptionsFileNamePrefix ++ decimal6 file_num.
Definition OptionsFileName (dbname : bytes) (file_num : Z) : bytes :=
  dbname ++ str "/" ++ OptionsFileName_base file_num.
Definition TempOptionsFileName_base (file_num : Z) : bytes :=
  kOptionsFileNamePrefix ++ decimal6 file_num ++ str "." ++ kTempFileNameSuffix.
Definition TempOptionsFileName (dbname : bytes) (file_num : Z) : bytes :=
  dbname ++ str "/" ++ TempOptionsFileName_base file_num.
Definition MetaDatabaseName (dbname : bytes) (number : Z) : bytes :=
  dbname ++ str "/METADB-" ++ decimal number.
Definition IdentityFileName (dbname : bytes) : bytes := dbname ++ str "/IDENTITY".

(** ** Info logs *)

Definition is_separator (c : byte) : bool := (ub c =? ub kFilePathSeparator) || (ub c =? 47).

Definition ends_in_separator (dst : bytes) : bool :=
  match list.last dst with Some c => is_separator c | None => false end.

Definition NormalizePath (path : bytes) : bytes :=
  fold_left (fun dst c => if is_separator c && ends_in_separator dst then dst else dst ++ [c]) path
    (match path with
     | a :: b :: _ :: _ =>
         if (ub a =? ub kFilePathSeparator) && (ub b =? ub kFilePathSeparator)
         then [kFilePathSeparator; kFilePathSeparator] else []
     | _ => []
     end).

(** The characters that are kept. *)
Definition flat_char (c : byte) : bool :=
  let v := ub c in
  ((97 <=? v) && (v <=? 122)) || ((48 <=? v) && (v <=? 57)) || ((65 <=? v) && (v <=? 90)) ||
  (v =? 45) || (v =? 46) || (v =? 95).

(** [room] is [len - sizeof(suffix) - write_idx]; [first] is [i == 0]. *)
Fixpoint flatten (path : bytes) (first : bool) (room : nat) : bytes :=
  match path, room with
  | c :: path', S room' =>
      if flat_char c then c :: flatten path' false room'
      else if first then flatten path' false room
      else Byte.x5f :: flatten path' false room'
  | _, _ => []
  end.

(** [sizeof("_LOG")] is 5. *)
Definition GetInfoLogPrefix (path : bytes) (len : nat) : bytes := flatten path true (len - 5) ++ str "_LOG".

(** [InfoLogPrefix::prefix]; the buffer has 260 bytes. *)
Definition InfoLogPrefix (has_log_dir : bool) (db_absolute_path : bytes) : bytes :=
  if has_log_dir then GetInfoLogPrefix (NormalizePath db_absolute_path) 260 else str "LOG".

Definition InfoLogFileName (dbname db_path log_dir : bytes) : bytes :=
  match log_dir with
  | [] => dbname ++ str "/LOG"
  | _ => log_dir ++ str "/" ++ InfoLogPrefix true db_path
  end.

Definition OldInfoLogFileName (dbname : bytes) (ts : Z) (db_path log_dir : bytes) : bytes :=
  match log_dir with
  | [] => dbname ++ str "/LOG.old." ++ decimal ts
  | _ => log_dir ++ str "/" ++ InfoLogPrefix true db_path ++ str ".old." ++ decimal ts
  end.

(** ** Parsing names *)

(** What the out parameters point to; [None] is a null [log_type]. A branch that
    returns true without writing leaves what was there. *)
Record ParseOut := {
  po_number : Z;
  po_type : FileType;
  po_log_type : option WalFileType
}.

Definition out (number : Z) (type : FileType) (o : ParseOut) : ParseOut :=
  {| po_number := number; po_type := type; po_log_type := po_log_type o |}.

Definition out_log (log_type : WalFileType) (o : ParseOut) : ParseOut :=
  {| po_number := po_number o; po_type := po_type o;
     po_log_type := match po_log_type o with Some _ => Some log_type | None => None end |}.

(** A number after a keyword, up to the end. *)
Definition parse_number_only (rest : bytes) (type : FileType) (o : ParseOut) : bool * ParseOut :=
  match ConsumeDecimalNumber rest with
  | Some (num, []) => (true, out num type o)
  | _ => (false, o)
  end.

Definition parse_info_log (rest : bytes) (o : ParseOut) : bool * ParseOut :=
  if equal rest [] || equal rest (str ".old") then (true, out 0 kInfoLogFile o)
  else if starts_with rest (str ".old.") then
    match ConsumeDecimalNumber (remove_prefix rest 5) with
    | Some (ts_suffix, _) => (true, out ts_suffix kInfoLogFile o)
    | None => (false, o)
    end
  else (true, o).

Definition parse_options (rest : bytes) (o : ParseOut) : bool * ParseOut :=
  let kTempFileNameSuffixWithDot := str "." ++ kTempFileNameSuffix in
  let is_temp_file := ends_with rest kTempFileNameSuffixWithDot in
  let rest := if is_temp_file then remove_suffix rest (slen kTempFileNameSuffixWithDot) else rest in
  match ConsumeDecimalNumber rest with
  | Some (ts_suffix, _) => (true, out ts_suffix (if is_temp_file then kTempFile else kOptionsFile) o)
  | None => (false, o)
  end.

Definition parse_numbered (rest : bytes) (archive_dir_found : bool) (o : ParseOut) : bool * ParseOut :=
  match ConsumeDecimalNumber rest with
  | Some (num, dot :: suffix) =>
      if (slen suffix =? 0) || negb (ub dot =? 46) then (false, o)
      else if equal suffix (str "log") then
        (true, out num kWalFile (if archive_dir_found then o else out_log kAliveLogFile o))
      else if archive_dir_found then (false, o)
      else if equal suffix kRocksDbTFileExt || equal suffix kLevelDbTFileExt then (true, out num kTableFile o)
      else if equal suffix kRocksDBBlobFileExt then (true, out num kBlobFile o)
      else if equal suffix kTempFileNameSuffix then (true, out num kTempFile o)
      else (false, o)
  | _ => (false, o)
  end.

Definition parse_rest (rest info_log_name_prefix : bytes) (o : ParseOut) : bool * ParseOut :=
  if equal rest (str "IDENTITY") then (true, out 0 kIdentityFile o)
  else if equal rest (str "CURRENT") then (true, out 0 kCurrentFile o)
  else if equal rest (str "LOCK") then (true, out 0 kDBLockFile o)
  else if (0 <? slen info_log_name_prefix) && starts_with rest info_log_name_prefix then
    parse_info_log (remove_prefix rest (slen info_log_name_prefix)) o
  else if starts_with rest (str "MANIFEST-") then parse_number_only (remove_prefix rest 9) kDescriptorFile o
  else if starts_with rest (str "METADB-") then parse_number_only (remove_prefix rest 7) kMetaDatabase o
  else if starts_with rest kOptionsFileNamePrefix then
    parse_options (remove_prefix rest (slen kOptionsFileNamePrefix)) o
  else if starts_with rest kArchivalDirName then
    if slen rest <=? slen kArchivalDirName then (false, o)
    else parse_numbered (remove_prefix rest (slen kArchivalDirName + 1)) true (out_log kArchivedLogFile o)
  else parse_numbered rest false o.

Definition strip_slash (fname : bytes) : bytes :=
  match fname with
  | c :: (_ :: _) as rest => if ub c =? 47 then rest else fname
  | _ => fname
  end.

Definition ParseFileName (fname info_log_name_prefix : bytes) (o : ParseOut) : bool * ParseOut :=
  parse_rest (strip_slash fname) info_log_name_prefix o.

(** ** Numbers in names *)

Definition is_digit (c : byte) : Prop := 48 <= ub c <= 57.

Definition head_not_digit (s : bytes) : Prop :=
  match s with c :: _ => ~ is_digit c | [] => True end.

(** The number digits denote after [v]. *)
Definition value_from (v : Z) (ds : bytes) : Z := fold_left (fun v c => v * 10 + (ub c - 48)) ds v.

Lemma value_from_ge ds v : Forall is_digit ds -> 0 <= v -> v <= value_from v ds.
Proof.
  intros Hd. revert v. induction Hd as [|c ds Hc Hd IH]; intros v Hv; [done|].
  change (value_from v (c :: ds)) with (value_from (v * 10 + (ub c - 48)) ds).
  unfold is_digit in Hc. etrans; [|apply IH]; lia.
Qed.

Lemma consume_digits_ok ds t v k : Forall is_digit ds -> head_not_digit t -> 0 <= v ->
  value_from v ds < 2 ^ 64 -> consume_digits (ds ++ t) v k = Some (t, value_from v ds, k + slen ds).
Proof.
  intros Hd Ht. revert v k. induction Hd as [|c ds Hc Hd IH]; intros v k Hv Hlt.
  - cbn [app]. destruct t as [|c t]; cbn [consume_digits]; [by rewrite Z.add_0_r|].
    cbn in Ht. unfold is_digit in Ht. rewrite Z.add_0_r.
    assert ((48 <=? ub c) && (ub c <=? 57) = false) as ->; [|done].
    apply not_true_iff_false. rewrite andb_true_iff, !Z.leb_le. lia.
  - change (value_from v (c :: ds)) with (value_from (v * 10 + (ub c - 48)) ds) in *.
    unfold is_digit in Hc. pose proof (value_from_ge ds (v * 10 + (ub c - 48)) Hd ltac:(lia)) as Hge.
    cbn [app consume_digits]. rewrite (proj2 (Z.leb_le _ _)), (proj2 (Z.leb_le (ub c) 57)) by lia. cbn [andb].
    rewrite u64_id by (unfold is_u64; lia). rewrite IH by lia.
    change ((2 ^ 64 - 1) / 10) with 1844674407370955161. change ((2 ^ 64 - 1) mod 10) with 5.
    rewrite (proj2 (Z.ltb_ge _ _)) by lia. cbn [orb].
    assert ((v =? 1844674407370955161) && (5 <? ub c - 48) = false) as ->.
    { apply not_true_iff_false. rewrite andb_true_iff, Z.eqb_eq, Z.ltb_lt. lia. }
    rewrite slen_cons. do 2 f_equal. lia.
Qed.

Lemma consume_digits_inv s v k rest n k' : 0 <= v < 2 ^ 64 -> consume_digits s v k = Some (rest, n, k') ->
  exists ds, s = ds ++ rest /\ Forall is_digit ds /\ head_not_digit rest /\ n = value_from v ds /\
    k' = k + slen ds /\ n < 2 ^ 64.
Proof.
  revert v k. induction s as [|c s IH]; intros v k Hv; cbn [consume_digits].
  { intros [= <- <- <-]. exists []. split_and!; done || (unfold slen, value_from; cbn; lia). }
  destruct ((48 <=? ub c) && (ub c <=? 57)) eqn:E.
  - apply andb_true_iff in E as [E1%Z.leb_le E2%Z.leb_le].
    change ((2 ^ 64 - 1) / 10) with 1844674407370955161. change ((2 ^ 64 - 1) mod 10) with 5.
    destruct (_ || _) eqn:Eo; [done|]. apply orb_false_iff in Eo as [Eo1%Z.ltb_ge Eo2].
    assert (Hsmall : 0 <= v * 10 + (ub c - 48) < 2 ^ 64).
    { apply andb_false_iff in Eo2 as [Eo2%Z.eqb_neq|Eo2%Z.ltb_ge]; lia. }
    rewrite u64_id by done. intros H. apply IH in H as (ds & -> & Hd & Hh & -> & -> & Hlt); [|done].
    exists (c :: ds). split_and!; try done; [by constructor|rewrite slen_cons; lia].
  - intros [= <- <- <-]. exists []. split_and!; try (done || unfold slen, value_from; cbn; lia).
    cbn. unfold is_digit. apply andb_false_iff in E as [E%Z.leb_gt|E%Z.leb_gt]; lia.
Qed.

Lemma digit_ub d : 0 <= d < 10 -> ub (digit d) = 48 + d.
Proof. intros. unfold digit. apply ub_to_byte. lia. Qed.

Lemma print_digits_spec fuel n acc : 0 <= n < 10 ^ Z.of_nat fuel -> (0 < fuel)%nat ->
  exists ds, print_digits fuel n acc = ds ++ acc /\ Forall is_digit ds /\ ds <> [] /\ value_from 0 ds = n.
Proof.
  revert n acc. induction fuel as [|fuel IH]; intros n acc Hn Hf; [lia|]. cbn [print_digits].
  pose proof (Z.mod_pos_bound n 10 ltac:(lia)) as Hm. pose proof (Z.div_mod n 10 ltac:(lia)) as Hdm.
  assert (Hd : is_digit (digit (n mod 10))) by (unfold is_digit; rewrite digit_ub by lia; lia).
  zcase.
  - exists [digit (n mod 10)]. split_and!; [done|by apply list.Forall_singleton|done|].
    cbn. rewrite digit_ub by lia. rewrite Z.mod_small by lia. lia.
  - destruct (IH (n / 10) (digit (n mod 10) :: acc)) as (ds & -> & Hds & Hne & Hv).
    + rewrite Nat2Z.inj_succ, Z.pow_succ_r in Hn by lia. split; [apply Z.div_pos; lia|].
      apply Z.div_lt_upper_bound; lia.
    + destruct fuel; [|lia]. cbn in Hn. lia.
    + exists (ds ++ [digit (n mod 10)]). split_and!.
      * by rewrite <- app_assoc.
      * apply list.Forall_app. split; [done|by apply list.Forall_singleton].
      * by destruct ds.
      * unfold value_from in *. rewrite fold_left_app, Hv. cbn. rewrite digit_ub by lia. lia.
Qed.

Lemma decimal_spec n : is_u64 n ->
  Forall is_digit (decimal n) /\ decimal n <> [] /\ value_from 0 (decimal n) = n.
Proof.
  intros Hn. unfold is_u64 in Hn. destruct (print_digits_spec 20 n []) as (ds & E & Hd & Hne & Hv); [|lia|].
  { change (10 ^ Z.of_nat 20) with 100000000000000000000. lia. }
  unfold decimal. by rewrite E, app_nil_r.
Qed.

Lemma decimal6_spec n : is_u64 n ->
  Forall is_digit (decimal6 n) /\ decimal6 n <> [] /\ value_from 0 (decimal6 n) = n.
Proof.
  intros Hn. destruct (decimal_spec n Hn) as (Hd & Hne & Hv). unfold decimal6.
  assert (H0 : is_digit (digit 0)) by (unfold is_digit; rewrite digit_ub by lia; lia).
  set (k := (6 - length (decimal n))%nat). split_and!.
  - apply list.Forall_app. split; [|done]. by apply Forall_replicate.
  - intros E. apply app_eq_nil in E as [_ ?]. done.
  - rewrite <- Hv at 2. induction k as [|k IH]; [done|]. rewrite <- IH. cbn. by rewrite digit_ub by lia.
Qed.

Lemma ConsumeDecimalNumber_ok ds t : Forall is_digit ds -> ds <> [] -> head_not_digit t ->
  value_from 0 ds < 2 ^ 64 -> ConsumeDecimalNumber (ds ++ t) = Some (value_from 0 ds, t).
Proof.
  intros Hd Hne Ht Hv. unfold ConsumeDecimalNumber. rewrite consume_digits_ok by done.
  destruct ds as [|c ds]; [done|]. rewrite slen_cons. pose proof (slen_nonneg ds).
  rewrite (proj2 (Z.ltb_lt _ _)) by lia. done.
Qed.

Lemma ConsumeDecimalNumber_inv s n rest : ConsumeDecimalNumber s = Some (n, rest) ->
  exists ds, s = ds ++ rest /\ Forall is_digit ds /\ ds <> [] /\ head_not_digit rest /\
    n = value_from 0 ds /\ is_u64 n.
Proof.
  unfold ConsumeDecimalNumber. destruct (consume_digits s 0 0) as [[[r v] k]|] eqn:E; [|done].
  apply consume_digits_inv in E as (ds & -> & Hd & Hh & -> & -> & Hlt); [|lia].
  zcase; [|done]. intros [= <- <-]. exists ds. split_and!; try done; [by intros ->|].
  split; [by apply (value_from_ge ds 0)|done].
Qed.

Lemma ConsumeDecimal6 n t : is_u64 n -> head_not_digit t -> ConsumeDecimalNumber (decimal6 n ++ t) = Some (n, t).
Proof.
  intros Hn Ht. destruct (decimal6_spec n Hn) as (Hd & Hne & Hv).
  rewrite ConsumeDecimalNumber_ok, Hv; [done..|]. rewrite Hv. apply Hn.
Qed.

Lemma ConsumeDecimal n t : is_u64 n -> head_not_digit t -> ConsumeDecimalNumber (decimal n ++ t) = Some (n, t).
Proof.
  intros Hn Ht. destruct (decimal_spec n Hn) as (Hd & Hne & Hv).
  rewrite ConsumeDecimalNumber_ok, Hv; [done..|]. rewrite Hv. apply Hn.
Qed.

(** ** The forms of names *)

Definition digits_of (ds : bytes) (n : Z) : Prop :=
  Forall is_digit ds /\ ds <> [] /\ value_from 0 ds = n /\ is_u64 n.

(** What a name without the leading slash can be; [prefix] is that of info
    logs. After the number of an options file or an old info log anything may
    follow, and so may any character after [archive]. *)
Inductive named (prefix : bytes) : bytes -> Z -> FileType -> Prop :=
| named_identity : named prefix (str "IDENTITY") 0 kIdentityFile
| named_current : named prefix (str "CURRENT") 0 kCurrentFile
| named_lock : named prefix (str "LOCK") 0 kDBLockFile
| named_info_log : named prefix prefix 0 kInfoLogFile
| named_last_info_log : named prefix (prefix ++ str ".old") 0 kInfoLogFile
| named_old_info_log ds n t : digits_of ds n -> named prefix (prefix ++ str ".old." ++ ds ++ t) n kInfoLogFile
| named_manifest ds n : digits_of ds n -> named prefix (str "MANIFEST-" ++ ds) n kDescriptorFile
| named_metadb ds n : digits_of ds n -> named prefix (str "METADB-" ++ ds) n kMetaDatabase
| named_options ds n t : digits_of ds n -> named prefix (kOptionsFileNamePrefix ++ ds ++ t) n kOptionsFile
| named_temp_options ds n t : digits_of ds n ->
    named prefix (kOptionsFileNamePrefix ++ (ds ++ t) ++ str "." ++ kTempFileNameSuffix) n kTempFile
| named_archived_wal c ds n : digits_of ds n ->
    named prefix (kArchivalDirName ++ [c] ++ ds ++ str ".log") n kWalFile
| named_wal ds n : digits_of ds n -> named prefix (ds ++ str ".log") n kWalFile
| named_table ds n : digits_of ds n -> named prefix (ds ++ str ".sst") n kTableFile
| named_leveldb_table ds n : digits_of ds n -> named prefix (ds ++ str ".ldb") n kTableFile
| named_blob ds n : digits_of ds n -> named prefix (ds ++ str ".blob") n kBlobFile
| named_temp ds n : digits_of ds n -> named prefix (ds ++ str ".dbtmp") n kTempFile.

Lemma ConsumeDecimalNumber_digits s n rest : ConsumeDecimalNumber s = Some (n, rest) ->
  exists ds, s = ds ++ rest /\ digits_of ds n.
Proof.
  intros (ds & -> & Hd & Hne & _ & -> & Hn)%ConsumeDecimalNumber_inv. exists ds. by split.
Qed.

Lemma remove_prefix_app x t : remove_prefix (x ++ t) (slen x) = t.
Proof. unfold remove_prefix, sdrop, slen. rewrite Nat2Z.id. apply drop_app_length. Qed.

Lemma remove_suffix_app t x : remove_suffix (t ++ x) (slen x) = t.
Proof.
  unfold remove_suffix, stake, slen. rewrite length_app, Nat2Z.inj_add.
  replace (Z.to_nat _) with (length t) by lia. apply take_app_length.
Qed.

Lemma parse_number_only_named rest type o o' : parse_number_only rest type o = (true, o') ->
  exists n, digits_of rest n /\ o' = out n type o.
Proof.
  unfold parse_number_only. destruct (ConsumeDecimalNumber rest) as [[n [|]]|] eqn:E; [|done..].
  intros [= <-]. apply ConsumeDecimalNumber_digits in E as (ds & -> & Hd). rewrite app_nil_r. by exists n.
Qed.

Lemma parse_info_log_named prefix rest o o' : parse_info_log rest o = (true, o') ->
  named prefix (prefix ++ rest) (po_number o') (po_type o') \/ o' = o.
Proof.
  unfold parse_info_log. destruct (equal rest []) eqn:E1.
  { apply equal_spec in E1 as ->. intros [= <-]. left. rewrite app_nil_r. constructor. }
  destruct (equal rest (str ".old")) eqn:E2; cbn [orb].
  { apply equal_spec in E2 as ->. intros [= <-]. left. constructor. }
  destruct (starts_with rest (str ".old.")) eqn:E3; [|by intros [= <-]; right].
  apply starts_with_spec in E3 as [t ->]. change 5 with (slen (str ".old.")). rewrite remove_prefix_app.
  destruct (ConsumeDecimalNumber t) as [[n r]|] eqn:E; [|done]. intros [= <-]. left.
  apply ConsumeDecimalNumber_digits in E as (ds & -> & Hd). by constructor.
Qed.

Lemma parse_options_named prefix rest o o' : parse_options rest o = (true, o') ->
  named prefix (kOptionsFileNamePrefix ++ rest) (po_number o') (po_type o').
Proof.
  unfold parse_options. destruct (ends_with rest _) eqn:E1.
  - apply ends_with_spec in E1 as [t ->]. rewrite remove_suffix_app.
    destruct (ConsumeDecimalNumber t) as [[n r]|] eqn:E; [|done]. intros [= <-].
    apply ConsumeDecimalNumber_digits in E as (ds & -> & Hd). by constructor.
  - destruct (ConsumeDecimalNumber rest) as [[n r]|] eqn:E; [|done]. intros [= <-].
    apply ConsumeDecimalNumber_digits in E as (ds & -> & Hd). by constructor.
Qed.

Lemma parse_numbered_named prefix rest archived o o' : parse_numbered rest archived o = (true, o') ->
  if archived then exists ds, rest = ds ++ str ".log" /\ digits_of ds (po_number o') /\ po_type o' = kWalFile
  else named prefix rest (po_number o') (po_type o').
Proof.
  unfold parse_numbered. destruct (ConsumeDecimalNumber rest) as [[n [|dot suffix]]|] eqn:E; [done| |done].
  apply ConsumeDecimalNumber_digits in E as (ds & -> & Hd).
  destruct (slen suffix =? 0); cbn [orb]; [done|]. destruct (Z.eqb_spec (ub dot) 46) as [Hdot|]; cbn [negb]; [|done].
  apply (ub_inj dot Byte.x2e) in Hdot as ->.
  destruct (equal suffix (str "log")) eqn:E1.
  { apply equal_spec in E1 as ->. intros [= <-]. destruct archived; [by exists ds|by constructor]. }
  destruct archived; [done|].
  destruct (equal suffix kRocksDbTFileExt) eqn:E2; cbn [orb].
  { apply equal_spec in E2 as ->. intros [= <-]. by constructor. }
  destruct (equal suffix kLevelDbTFileExt) eqn:E3.
  { apply equal_spec in E3 as ->. intros [= <-]. by constructor. }
  destruct (equal suffix kRocksDBBlobFileExt) eqn:E4.
  { apply equal_spec in E4 as ->. intros [= <-]. by constructor. }
  destruct (equal suffix kTempFileNameSuffix) eqn:E5; [|done].
  apply equal_spec in E5 as ->. intros [= <-]. by constructor.
Qed.

(** [C22] Whatever [ParseFileName] recognizes has the form of its kind, with the
    number its digits denote, except that names that continue the prefix of
    info logs are recognized without the outputs being written. *)
Theorem parse_file_name_sound (fname prefix : bytes) (o o' : ParseOut) :
  ParseFileName fname prefix o = (true, o') ->
  named prefix (strip_slash fname) (po_number o') (po_type o') \/
  (o' = o /\ exists t, strip_slash fname = prefix ++ t).
Proof.
  unfold ParseFileName, parse_rest. set (rest := strip_slash fname).
  destruct (equal rest (str "IDENTITY")) eqn:E1; [apply equal_spec in E1 as ->; intros [= <-]; left; constructor|].
  destruct (equal rest (str "CURRENT")) eqn:E2; [apply equal_spec in E2 as ->; intros [= <-]; left; constructor|].
  destruct (equal rest (str "LOCK")) eqn:E3; [apply equal_spec in E3 as ->; intros [= <-]; left; constructor|].
  destruct ((0 <? slen prefix) && starts_with rest prefix) eqn:E4.
  { apply andb_true_iff in E4 as [_ [t ->]%starts_with_spec]. rewrite remove_prefix_app.
    intros [?|?]%(parse_info_log_named prefix); [by left|right; eauto]. }
  destruct (starts_with rest (str "MANIFEST-")) eqn:E5.
  { apply starts_with_spec in E5 as [t ->]. change 9 with (slen (str "MANIFEST-")). rewrite remove_prefix_app.
    intros (n & Hd & ->)%parse_number_only_named. left. by constructor. }
  destruct (starts_with rest (str "METADB-")) eqn:E6.
  { apply starts_with_spec in E6 as [t ->]. change 7 with (slen (str "METADB-")). rewrite remove_prefix_app.
    intros (n & Hd & ->)%parse_number_only_named. left. by constructor. }
  destruct (starts_with rest kOptionsFileNamePrefix) eqn:E7.
  { apply starts_with_spec in E7 as [t ->]. rewrite remove_prefix_app. intros H%(parse_options_named prefix). by left. }
  destruct (starts_with rest kArchivalDirName) eqn:E8.
  - apply starts_with_spec in E8 as [t ->]. zcase; [done|]. destruct t as [|c t].
    { rewrite app_nil_r in *. lia. }
    replace (kArchivalDirName ++ c :: t) with ((kArchivalDirName ++ [c]) ++ t) by (by rewrite <- app_assoc).
    change (slen kArchivalDirName + 1) with (slen (kArchivalDirName ++ [c])). rewrite remove_prefix_app.
    intros (ds & -> & Hd & Ht)%(parse_numbered_named prefix). left. rewrite Ht, <- app_assoc. by constructor.
  - intros H%(parse_numbered_named prefix). by left.
Qed.

(** ** Round trip *)

(** The files of a database. *)
Inductive DbFile :=
| WalOf (n : Z) | ArchivedWalOf (n : Z) | TableOf (n : Z) | BlobOf (n : Z) | ManifestOf (n : Z)
| Current | Lock | Identity | TempOf (n : Z) | InfoLog | OldInfoLogOf (ts : Z) | MetaDatabaseOf (n : Z)
| OptionsOf (n : Z) | TempOptionsOf (n : Z).

Create HintDb names.

Section Names.

Context (dbname db_path log_dir : bytes).

(** The path the code makes for a file. *)
Definition path_of (f : DbFile) : bytes :=
  match f with
  | WalOf n => LogFileName dbname n
  | ArchivedWalOf n => ArchivedLogFileName dbname n
  | TableOf n => MakeTableFileName dbname n
  | BlobOf n => BlobFileName dbname n
  | ManifestOf n => DescriptorFileName dbname n
  | Current => CurrentFileName dbname
  | Lock => LockFileName dbname
  | Identity => IdentityFileName dbname
  | TempOf n => TempFileName dbname n
  | InfoLog => InfoLogFileName dbname db_path log_dir
  | OldInfoLogOf ts => OldInfoLogFileName dbname ts db_path log_dir
  | MetaDatabaseOf n => MetaDatabaseName dbname n
  | OptionsOf n => OptionsFileName dbname n
  | TempOptionsOf n => TempOptionsFileName dbname n
  end.

(** The directory it is in. *)
Definition dir_of (f : DbFile) : bytes :=
  match f, log_dir with
  | (InfoLog | OldInfoLogOf _), _ :: _ => log_dir
  | _, _ => dbname
  end.

Definition number_of (f : DbFile) : Z :=
  match f with
  | WalOf n | ArchivedWalOf n | TableOf n | BlobOf n | ManifestOf n | TempOf n | OldInfoLogOf n
  | MetaDatabaseOf n | OptionsOf n | TempOptionsOf n => n
  | Current | Lock | Identity | InfoLog => 0
  end.

Definition type_of (f : DbFile) : FileType :=
  match f with
  | WalOf _ | ArchivedWalOf _ => kWalFile
  | TableOf _ => kTableFile
  | BlobOf _ => kBlobFile
  | ManifestOf _ => kDescriptorFile
  | Current => kCurrentFile
  | Lock => kDBLockFile
  | Identity => kIdentityFile
  | TempOf _ | TempOptionsOf _ => kTempFile
  | InfoLog | OldInfoLogOf _ => kInfoLogFile
  | MetaDatabaseOf _ => kMetaDatabase
  | OptionsOf _ => kOptionsFile
  end.

Definition log_type_of (f : DbFile) (o : ParseOut) : ParseOut :=
  match f with
  | WalOf _ => out_log kAliveLogFile o
  | ArchivedWalOf _ => out_log kArchivedLogFile o
  | _ => o
  end.

Abbreviation prefix := (InfoLogPrefix (negb (bool_decide (log_dir = []))) db_path).

(** The names within their directories. *)
Definition base_of (f : DbFile) : bytes :=
  match f with
  | WalOf n => decimal6 n ++ str ".log"
  | ArchivedWalOf n => str "archive/" ++ decimal6 n ++ str ".log"
  | TableOf n => decimal6 n ++ str ".sst"
  | BlobOf n => decimal6 n ++ str ".blob"
  | ManifestOf n => str "MANIFEST-" ++ decimal6 n
  | Current => str "CURRENT"
  | Lock => str "LOCK"
  | Identity => str "IDENTITY"
  | TempOf n => decimal6 n ++ str ".dbtmp"
  | InfoLog => prefix
  | OldInfoLogOf ts => prefix ++ str ".old." ++ decimal ts
  | MetaDatabaseOf n => str "METADB-" ++ decimal n
  | OptionsOf n => str "OPTIONS-" ++ decimal6 n
  | TempOptionsOf n => str "OPTIONS-" ++ decimal6 n ++ str ".dbtmp"
  end.

Lemma path_of_base f : path_of f = dir_of f ++ str "/" ++ base_of f.
Proof.
  destruct f; cbn -[decimal6 decimal InfoLogPrefix String.list_byte_of_string app];
    unfold LogFileName, ArchivedLogFileName, MakeTableFileName, BlobFileName, MakeFileName, MakeFileName_at,
      DescriptorFileName, CurrentFileName, LockFileName, IdentityFileName, TempFileName, InfoLogFileName,
      OldInfoLogFileName, MetaDatabaseName, OptionsFileName, TempOptionsFileName;
    destruct log_dir; by rewrite <- ?app_assoc.
Qed.

(** *** Prefixes of info logs *)

(** Every such prefix has a [G], which is in no other name. *)
Definition G : byte := Byte.x47.

Lemma prefix_has_G : exists p, prefix = p ++ [G].
Proof.
  unfold InfoLogPrefix, GetInfoLogPrefix. destruct (negb _); [|by exists (str "LO")].
  exists (flatten (NormalizePath db_path) true (260 - 5) ++ str "_LO"). by rewrite <- app_assoc.
Qed.

Lemma not_info_log name : G ∉ name -> (0 <? slen prefix) && starts_with name prefix = false.
Proof.
  intros HG. apply not_true_iff_false. intros [_ [t ->]%starts_with_spec]%andb_true_iff.
  destruct prefix_has_G as [p Hp]. apply HG. rewrite Hp, !elem_of_app, list_elem_of_singleton. auto.
Qed.

Lemma digits_no_G ds : Forall is_digit ds -> G ∉ ds.
Proof. intros Hd Hin. rewrite list.Forall_forall in Hd. specialize (Hd G Hin). by destruct Hd. Qed.

Lemma G_app s t : G ∉ s -> G ∉ t -> G ∉ s ++ t.
Proof. intros ?? [|]%elem_of_app; done. Qed.

Lemma decimal6_no_G n : is_u64 n -> G ∉ decimal6 n.
Proof. intros Hn. apply digits_no_G, (decimal6_spec n Hn). Qed.

Lemma decimal_no_G n : is_u64 n -> G ∉ decimal n.
Proof. intros Hn. apply digits_no_G, (decimal_spec n Hn). Qed.

Hint Resolve G_app decimal6_no_G decimal_no_G : names.
Hint Extern 1 (G ∉ (kOptionsFileNamePrefix)) => (apply (bool_decide_unpack _); vm_compute; exact I) : names.
Hint Extern 1 (G ∉ String.list_byte_of_string _) => (apply (bool_decide_unpack _); vm_compute; exact I) : names.

(** A name that begins with a digit is none of the keywords. *)
Lemma digits_start ds t x : Forall is_digit ds -> ds <> [] ->
  match x with c :: _ => ub c < 48 \/ 57 < ub c | [] => False end -> starts_with (ds ++ t) x = false.
Proof.
  intros Hd Hne Hx. apply not_true_iff_false. intros [u E]%starts_with_spec.
  destruct ds as [|d ds]; [done|]. destruct x as [|c x]; [done|]. injection E as -> _.
  inversion_clear Hd as [|?? Hc _]. unfold is_digit in Hc. lia.
Qed.

Lemma digits_equal ds t x : Forall is_digit ds -> ds <> [] ->
  match x with c :: _ => ub c < 48 \/ 57 < ub c | [] => False end -> equal (ds ++ t) x = false.
Proof.
  intros Hd Hne Hx. apply not_true_iff_false. intros E%equal_spec.
  destruct ds as [|d ds]; [done|]. destruct x as [|c x]; [done|]. injection E as -> _.
  inversion_clear Hd as [|?? Hc _]. unfold is_digit in Hc. lia.
Qed.

Lemma parse_numbered_name n suffix o : is_u64 n -> G ∉ suffix ->
  parse_rest (decimal6 n ++ suffix) prefix o = parse_numbered (decimal6 n ++ suffix) false o.
Proof.
  intros Hn Hs. destruct (decimal6_spec n Hn) as (Hd & Hne & _). unfold parse_rest.
  rewrite not_info_log by auto with names.
  rewrite !digits_equal, !digits_start by (done || (right; by vm_compute)). done.
Qed.

(** Keywords followed by something. *)
Lemma starts_with_differ key t x : starts_with key x = false -> starts_with x key = false ->
  starts_with (key ++ t) x = false.
Proof.
  intros H1 H2. apply not_true_iff_false in H1, H2. apply not_true_iff_false. intros [u E]%starts_with_spec.
  apply app_eq_app in E as (v & [[-> _]|[-> _]]).
  - apply H1, starts_with_spec. by exists v.
  - apply H2, starts_with_spec. by exists v.
Qed.

Lemma equal_differ key t x : starts_with x key = false -> equal (key ++ t) x = false.
Proof.
  intros H. apply not_true_iff_false in H. apply not_true_iff_false. intros <-%equal_spec.
  apply H, starts_with_spec. by exists t.
Qed.

Lemma starts_with_app x t : starts_with (x ++ t) x = true.
Proof. apply starts_with_spec. by exists t. Qed.

Lemma parse_keyword key t o : G ∉ key ++ t ->
  starts_with (str "IDENTITY") key || starts_with (str "CURRENT") key || starts_with (str "LOCK") key = false ->
  parse_rest (key ++ t) prefix o =
  (if starts_with (key ++ t) (str "MANIFEST-") then parse_number_only (remove_prefix (key ++ t) 9) kDescriptorFile o
   else if starts_with (key ++ t) (str "METADB-") then parse_number_only (remove_prefix (key ++ t) 7) kMetaDatabase o
   else if starts_with (key ++ t) kOptionsFileNamePrefix then
     parse_options (remove_prefix (key ++ t) (slen kOptionsFileNamePrefix)) o
   else if starts_with (key ++ t) kArchivalDirName then
     if slen (key ++ t) <=? slen kArchivalDirName then (false, o)
     else parse_numbered (remove_prefix (key ++ t) (slen kArchivalDirName + 1)) true (out_log kArchivedLogFile o)
   else parse_numbered (key ++ t) false o).
Proof.
  intros HG [[H1 H2]%orb_false_iff H3]%orb_false_iff. unfold parse_rest. rewrite not_info_log by done.
  by rewrite !equal_differ.
Qed.

Lemma ConsumeDecimal6_dot n t : is_u64 n ->
  ConsumeDecimalNumber (decimal6 n ++ Byte.x2e :: t) = Some (n, Byte.x2e :: t).
Proof. intros Hn. apply ConsumeDecimal6; [done|]. by intros [? _]. Qed.

Lemma parse_dotted n suffix archived o : is_u64 n -> 0 < slen suffix ->
  parse_numbered (decimal6 n ++ Byte.x2e :: suffix) archived o =
  (if equal suffix (str "log") then
     (true, out n kWalFile (if archived then o else out_log kAliveLogFile o))
   else if archived then (false, o)
   else if equal suffix kRocksDbTFileExt || equal suffix kLevelDbTFileExt then (true, out n kTableFile o)
   else if equal suffix kRocksDBBlobFileExt then (true, out n kBlobFile o)
   else if equal suffix kTempFileNameSuffix then (true, out n kTempFile o)
   else (false, o)).
Proof.
  intros Hn Hs. unfold parse_numbered. rewrite ConsumeDecimal6_dot by done.
  by rewrite (proj2 (Z.eqb_neq _ _)) by lia.
Qed.

Lemma parse_manifest n o : is_u64 n ->
  parse_rest (str "MANIFEST-" ++ decimal6 n) prefix o = (true, out n kDescriptorFile o).
Proof.
  intros Hn. rewrite parse_keyword by auto with names. rewrite starts_with_app.
  change 9 with (slen (str "MANIFEST-")). rewrite remove_prefix_app. unfold parse_number_only.
  rewrite <- (app_nil_r (decimal6 n)). by rewrite ConsumeDecimal6.
Qed.

Lemma parse_metadb n o : is_u64 n ->
  parse_rest (str "METADB-" ++ decimal n) prefix o = (true, out n kMetaDatabase o).
Proof.
  intros Hn. rewrite parse_keyword by auto with names. rewrite starts_with_differ, starts_with_app by done.
  change 7 with (slen (str "METADB-")). rewrite remove_prefix_app. unfold parse_number_only.
  rewrite <- (app_nil_r (decimal n)). by rewrite ConsumeDecimal.
Qed.

Lemma parse_options_name n t o : G ∉ t -> is_u64 n ->
  parse_rest (kOptionsFileNamePrefix ++ decimal6 n ++ t) prefix o = parse_options (decimal6 n ++ t) o.
Proof.
  intros Ht Hn. rewrite parse_keyword; [|apply G_app; auto with names|done].
  rewrite (starts_with_differ _ _ (str "MANIFEST-")), (starts_with_differ _ _ (str "METADB-")) by done.
  by rewrite starts_with_app, remove_prefix_app.
Qed.

Lemma digits_no_temp_suffix ds : Forall is_digit ds -> ends_with ds (str "." ++ kTempFileNameSuffix) = false.
Proof.
  intros Hd. apply not_true_iff_false. intros [t ->]%ends_with_spec. apply list.Forall_app in Hd as [_ Hd].
  inversion_clear Hd as [|?? Hc _]. by destruct Hc.
Qed.

Lemma parse_archived n o : is_u64 n ->
  parse_rest (str "archive/" ++ decimal6 n ++ str ".log") prefix o =
  (true, out n kWalFile (out_log kArchivedLogFile o)).
Proof.
  intros Hn. rewrite parse_keyword by auto with names. rewrite (starts_with_differ _ _ (str "MANIFEST-")), (starts_with_differ _ _ (str "METADB-")),
    (starts_with_differ _ _ kOptionsFileNamePrefix) by done.
  assert (Hs : starts_with (str "archive/" ++ decimal6 n ++ str ".log") kArchivalDirName = true).
  { apply starts_with_spec. exists (str "/" ++ decimal6 n ++ str ".log"). done. }
  rewrite Hs. rewrite slen_app. change (slen (str "archive/")) with 8. change (slen kArchivalDirName) with 7.
  pose proof (slen_nonneg (decimal6 n ++ str ".log")). rewrite (proj2 (Z.leb_gt _ _)) by lia.
  change (7 + 1) with (slen (str "archive/")). rewrite remove_prefix_app.
  by rewrite (parse_dotted n (str "log")).
Qed.

Lemma parse_old_info_log t o :
  equal (prefix ++ t) (str "IDENTITY") = false -> equal (prefix ++ t) (str "CURRENT") = false ->
  equal (prefix ++ t) (str "LOCK") = false ->
  parse_rest (prefix ++ t) prefix o = parse_info_log t o.
Proof.
  intros H1 H2 H3. unfold parse_rest. rewrite H1, H2, H3, starts_with_app, remove_prefix_app.
  destruct prefix_has_G as [p ->]. rewrite slen_app. pose proof (slen_nonneg p). change (slen [G]) with 1.
  by rewrite (proj2 (Z.ltb_lt _ _)) by lia.
Qed.

Lemma info_log_equal t x : G ∉ x -> equal (prefix ++ t) x = false.
Proof.
  intros Hx. apply not_true_iff_false. intros <-%equal_spec. destruct prefix_has_G as [p E]. rewrite E in Hx.
  apply Hx. rewrite !elem_of_app, list_elem_of_singleton. auto.
Qed.

Lemma parse_base f o : is_u64 (number_of f) ->
  parse_rest (base_of f) prefix o = (true, out (number_of f) (type_of f) (log_type_of f o)).
Proof.
  intros Hn. destruct f; cbn [number_of type_of log_type_of base_of] in *; try done.
  - rewrite parse_numbered_name by auto with names. by rewrite (parse_dotted n (str "log")).
  - by apply parse_archived.
  - rewrite parse_numbered_name by auto with names. by rewrite (parse_dotted n (str "sst")).
  - rewrite parse_numbered_name by auto with names. by rewrite (parse_dotted n (str "blob")).
  - by apply parse_manifest.
  - rewrite parse_numbered_name by auto with names. by rewrite (parse_dotted n (str "dbtmp")).
  - rewrite <- (app_nil_r prefix) at 1. rewrite parse_old_info_log by (apply info_log_equal; auto with names). done.
  - rewrite parse_old_info_log by (apply info_log_equal; auto with names). unfold parse_info_log.
    rewrite equal_differ, starts_with_app by done. cbn [orb].
    assert (equal (str ".old." ++ decimal ts) (str ".old") = false) as ->.
    { apply not_true_iff_false. by intros E%equal_spec. }
    change 5 with (slen (str ".old.")). rewrite remove_prefix_app.
    rewrite <- (app_nil_r (decimal ts)). by rewrite ConsumeDecimal.
  - by apply parse_metadb.
  - change (str "OPTIONS-") with kOptionsFileNamePrefix. rewrite <- (app_nil_r (decimal6 n)).
    rewrite parse_options_name; [|apply not_elem_of_nil|done]. rewrite app_nil_r. unfold parse_options.
    rewrite digits_no_temp_suffix by apply (decimal6_spec n Hn). rewrite <- (app_nil_r (decimal6 n)).
    by rewrite ConsumeDecimal6.
  - change (str "OPTIONS-") with kOptionsFileNamePrefix. rewrite parse_options_name by auto with names.
    unfold parse_options. change (str ".dbtmp") with (str "." ++ kTempFileNameSuffix).
    rewrite (proj2 (ends_with_spec _ _)) by (by exists (decimal6 n)). rewrite remove_suffix_app.
    rewrite <- (app_nil_r (decimal6 n)). by rewrite ConsumeDecimal6.
Qed.

Lemma flatten_no_slash path first room : Forall (fun c => ub c <> 47) (flatten path first room).
Proof.
  revert first room. induction path as [|c path IH]; intros first [|room]; cbn [flatten]; try constructor.
  destruct (flat_char c) eqn:E.
  - constructor; [|apply IH]. intros Ec. unfold flat_char in E. by rewrite Ec in E.
  - destruct first; [apply IH|]. constructor; [done|apply IH].
Qed.

Lemma base_head f : is_u64 (number_of f) -> exists c t, base_of f = c :: t /\ ub c <> 47.
Proof.
  assert (Hd : forall ds t, Forall is_digit ds -> ds <> [] -> exists c u, ds ++ t = c :: u /\ ub c <> 47).
  { intros [|c ds] t Hd Hne; [done|]. inversion_clear Hd as [|?? Hc _]. exists c, (ds ++ t).
    split; [done|]. unfold is_digit in Hc. lia. }
  assert (Hp : forall t, exists c u, prefix ++ t = c :: u /\ ub c <> 47).
  { intros t. unfold InfoLogPrefix, GetInfoLogPrefix. destruct (negb _); [|by eexists _, _].
    pose proof (flatten_no_slash (NormalizePath db_path) true (260 - 5)) as Hf.
    destruct (flatten _ _ _) as [|c u]; [by eexists _, _|]. inversion_clear Hf. by eexists _, _. }
  intros Hn. destruct f; cbn [base_of number_of] in *; try (by eexists _, _);
    try (apply Hd; apply (decimal6_spec _ Hn)).
  - destruct (Hp []) as (c & u & E & Hc). rewrite app_nil_r in E. eauto.
  - apply Hp.
Qed.

(** With or without a leading slash. *)
Lemma parse_base_name f o : is_u64 (number_of f) ->
  ParseFileName (base_of f) prefix o = (true, out (number_of f) (type_of f) (log_type_of f o)) /\
  ParseFileName (str "/" ++ base_of f) prefix o = (true, out (number_of f) (type_of f) (log_type_of f o)).
Proof.
  intros Hn. destruct (base_head f Hn) as (c & t & E & Hc). unfold ParseFileName.
  assert (strip_slash (base_of f) = base_of f) as ->.
  { rewrite E. destruct t as [|c' t]; [done|]. cbn. by rewrite (proj2 (Z.eqb_neq _ _)). }
  assert (strip_slash (str "/" ++ base_of f) = base_of f) as -> by (by rewrite E).
  by rewrite parse_base.
Qed.

End Names.

(** [C17] Every file has the name [directory/base], and [ParseFileName] gives back
    its kind and number from the base name, with or without a leading slash,
    also for databases whose info logs are elsewhere under a prefix made of the
    database's path. *)
Theorem file_name_roundtrip (dbname db_path log_dir : bytes) (f : DbFile) (o : ParseOut) :
  is_u64 (number_of f) ->
  exists base,
    path_of dbname db_path log_dir f = dir_of dbname log_dir f ++ str "/" ++ base /\
    let prefix := InfoLogPrefix (negb (bool_decide (log_dir = []))) db_path in
    let result := (true, out (number_of f) (type_of f) (log_type_of f o)) in
    ParseFileName base prefix o = result /\ ParseFileName (str "/" ++ base) prefix o = result.
Proof.
  intros Hn. exists (base_of db_path log_dir f). split; [apply path_of_base|]. by apply parse_base_name.
Qed.

(** ** Numbers of table files *)

Lemma number_backwards_spec rs t number base : Forall is_digit rs -> head_not_digit t ->
  number_backwards (rs ++ t) (u64 number) (u64 base) = u64 (number + base * value_from 0 (rev rs)).
Proof.
  intros Hd Ht. revert number base. induction Hd as [|c rs Hc Hd IH]; intros number base.
  - change (value_from 0 (rev [])) with 0. rewrite Z.mul_0_r, Z.add_0_r. destruct t as [|c t]; [done|].
    cbn [app number_backwards]. cbn in Ht. unfold is_digit in Ht.
    assert ((48 <=? ub c) && (ub c <=? 57) = false) as ->; [|done].
    apply not_true_iff_false. rewrite andb_true_iff, !Z.leb_le. lia.
  - unfold is_digit in Hc. cbn [app number_backwards rev].
    rewrite (proj2 (Z.leb_le _ _)), (proj2 (Z.leb_le (ub c) 57)) by lia. cbn [andb].
    unfold value_from. rewrite fold_left_app. fold (value_from 0 (rev rs)). cbn [fold_left].
    assert (u64 (u64 number + (ub c - 48) * u64 base) = u64 (number + (ub c - 48) * base)) as ->.
    { unfold u64. rewrite Z.add_mod_idemp_l by lia. rewrite <- Z.add_mod_idemp_r, Z.mul_mod_idemp_r by lia.
      by rewrite Z.add_mod_idemp_r by lia. }
    assert (u64 (u64 base * 10) = u64 (base * 10)) as -> by (unfold u64; by rewrite Z.mul_mod_idemp_l by lia).
    rewrite IH. f_equal. lia.
Qed.

(** The number is found in the name of a table file in any directory. *)
Lemma table_file_name_number path n : is_u64 n -> TableFileNameToNumber (MakeTableFileName path n) = n.
Proof.
  intros Hn. destruct (decimal6_spec n Hn) as (Hd & _ & Hv).
  transitivity (number_backwards (rev (decimal6 n) ++ rev (str "/") ++ rev path) (u64 0) (u64 1)).
  { unfold TableFileNameToNumber, MakeTableFileName, MakeFileName, MakeFileName_at.
    by rewrite !rev_app_distr, <- !app_assoc. }
  rewrite number_backwards_spec.
  - rewrite rev_involutive, Hv, Z.add_0_l, Z.mul_1_l. by apply u64_id.
  - by apply Forall_rev.
  - cbn. by intros [? _].
Qed.

(** ** Examples *)

(** A name that continues the prefix of info logs in another way leaves the
    outputs as they were and is reported as recognized. *)
Lemma parse_leaves_outputs o : ParseFileName (str "LOG.bak") (InfoLogPrefix false []) o = (true, o).
Proof. done. Qed.

Definition ex_out : ParseOut := {| po_number := 7; po_type := kWalFile; po_log_type := None |}.

Lemma parse_file_name_sound_witness : exists n t, named (str "LOG") (str "000012.sst") n t.
Proof.
  exists 12, kTableFile.
  destruct (parse_file_name_sound (str "/000012.sst") (str "LOG") ex_out (out 12 kTableFile ex_out)) as [H|[H _]];
    [by vm_compute|exact H|discriminate H].
Defined.

Lemma file_name_roundtrip_witness :
  exists base, path_of (str "/db") (str "/db") (str "/log") (OldInfoLogOf 1234567) =
    dir_of (str "/db") (str "/log") (OldInfoLogOf 1234567) ++ str "/" ++ base /\
    ParseFileName base (InfoLogPrefix true (str "/db")) ex_out = (true, out 1234567 kInfoLogFile ex_out).
Proof.
  destruct (file_name_roundtrip (str "/db") (str "/db") (str "/log") (OldInfoLogOf 1234567) ex_out)
    as (base & E & H & _); [unfold is_u64; cbn; lia|]. exists base. split; [exact E|exact H].
Defined.
