(* ===== verification/VersionLive.v ===== *)
(** * The live versions of a database

    db/version_set.h and db/version_set.cc: versions with their reference
    counts in the lists of their column families, [AppendVersion], the
    destructor that gives files back and records the ones nobody holds as
    obsolete, and the queries that say which files are live
    ([AddLiveFiles], [RemoveLiveFiles]) or can be purged
    ([GetObsoleteFiles]).

    The circular list through [dummy_versions_] is the list of its elements; a
    version is identified by its [version_number_]. An access to a version that
    is not in its list, or to a file that was freed, is undefined: [None]. *)

From stdpp Require Import gmap.
From S2P Require Import Prelude Records VersionEdit VersionStorage.

Record Version := {
  version_number_ : Z;
  ver_refs_ : Z;
  storage_info_ : VersionStorageInfo
}.

#[export] Instance Version_Settable : Settable Version :=
  fun r => Build_Version
    (version_number_ r) (ver_refs_ r) (storage_info_ r).

(** [Version::Version]. *)
Definition Version_new (number : Z) (v : VersionStorageInfo) : Version :=
  {| version_number_ := number; ver_refs_ := 0; storage_info_ := v |}.

(** [ColumnFamilyData]: its list of versions, the current one,
    [ioptions()->cf_paths], and whether there is a
    [GetFileMetadataCacheReservationManager()]. *)
Record ColumnFamilyData := {
  cf_initialized : bool;
  cf_versions : list Version;
  cf_current_ : option Z;
  cf_paths : list bytes;
  cf_res_mgr_ : bool
}.

#[export] Instance ColumnFamilyData_Settable : Settable ColumnFamilyData :=
  fun r => Build_ColumnFamilyData
    (cf_initialized r) (cf_versions r) (cf_current_ r) (cf_paths r)
    (cf_res_mgr_ r).

(** [of_res_mgr]: [file_metadata_cache_res_mgr] is set. *)
Record ObsoleteFileInfo := {
  of_metadata : FilePtr;
  of_path : bytes;
  only_delete_metadata : bool;
  of_res_mgr : bool
}.

#[export] Instance ObsoleteFileInfo_Settable : Settable ObsoleteFileInfo :=
  fun r => Build_ObsoleteFileInfo
    (of_metadata r) (of_path r) (only_delete_metadata r) (of_res_mgr r).

Definition ObsoleteFileInfo_new (f : FilePtr) (file_path : bytes) (res_mgr : bool) : ObsoleteFileInfo :=
  {| of_metadata := f; of_path := file_path; only_delete_metadata := false; of_res_mgr := res_mgr |}.

(** The move constructor starts from the default and does not take the flag
    over. *)
Definition ObsoleteFileInfo_move (rhs : ObsoleteFileInfo) : ObsoleteFileInfo :=
  {| of_metadata := of_metadata rhs; of_path := of_path rhs; only_delete_metadata := false;
     of_res_mgr := of_res_mgr rhs |}.

Record ObsoleteBlobFileInfo := { ob_number : Z; ob_path : bytes }.

(** [VersionSet]: the column families, the reference counts of the files'
    metadata, what can be deleted, the file numbers that have an entry in
    [table_cache_], and the metadata objects whose memory
    ([ApproximateMemoryUsage]) was given back to the reservation manager. *)
Record VersionSet := {
  column_family_set_ : list ColumnFamilyData;
  vs_refs : FileRefs;
  current_version_number_ : Z;
  obsolete_files_ : list ObsoleteFileInfo;
  obsolete_blob_files_ : list ObsoleteBlobFileInfo;
  obsolete_manifests_ : list bytes;
  table_cache_ : gset Z;
  vs_unreserved : list FileMetaData
}.

#[export] Instance VersionSet_Settable : Settable VersionSet :=
  fun r => Build_VersionSet
    (column_family_set_ r) (vs_refs r) (current_version_number_ r) (obsolete_files_ r)
    (obsolete_blob_files_ r) (obsolete_manifests_ r) (table_cache_ r) (vs_unreserved r).

(** ** Reference counts of versions *)

Definition find_version (id : Z) (vs : list Version) : option Version :=
  snd <$> list_find (fun v => version_number_ v = id) vs.

(** Writing through the pointer to a version of the list. *)
Definition set_version_refs (id refs : Z) (vs : list Version) : list Version :=
  map (fun v => if version_number_ v =? id then v <| ver_refs_ := refs |> else v) vs.

(** [++refs_]. *)
Definition Version_Ref (id : Z) (cfd : ColumnFamilyData) : option ColumnFamilyData :=
  v ← find_version id (cf_versions cfd);
  Some (cfd <| cf_versions ::= set_version_refs id (s32 (ver_refs_ v + 1)) |>).

(** The loop of [~Version] over the files of all levels. *)
Fixpoint drop_files (paths : list bytes) (res_mgr : bool) (fs : list FilePtr) (refs : FileRefs)
    (obsolete : list ObsoleteFileInfo) : option (FileRefs * list ObsoleteFileInfo) :=
  match fs with
  | [] => Some (refs, obsolete)
  | f :: fs' =>
      match file_unref refs f with
      | None => None
      | Some (refs, unused) =>
          if (unused : bool) then
            path ← paths !! Z.to_nat (GetPathId (fd (fp_meta f)));
            drop_files paths res_mgr fs' refs (obsolete ++ [ObsoleteFileInfo_new f path res_mgr])
          else drop_files paths res_mgr fs' refs obsolete
      end
  end.

(** The files on the levels below [num_levels_]. *)
Definition version_files (v : VersionStorageInfo) : list FilePtr :=
  mjoin (take (Z.to_nat (num_levels_ v)) (files_ v)).

(** [Version::Unref]: at zero the version leaves its list and its files are
    given back; the flag is the result. *)
Definition Version_Unref (id : Z) (cfd : ColumnFamilyData) (refs : FileRefs)
    (obsolete : list ObsoleteFileInfo)
    : option (bool * (ColumnFamilyData * FileRefs * list ObsoleteFileInfo)) :=
  v ← find_version id (cf_versions cfd);
  let n := s32 (ver_refs_ v - 1) in
  if n =? 0 then
    '(refs, obsolete) ← drop_files (cf_paths cfd) (cf_res_mgr_ cfd) (version_files (storage_info_ v)) refs obsolete;
    Some (true, (cfd <| cf_versions ::= filter (fun x => version_number_ x <> id) |>, refs, obsolete))
  else Some (false, (cfd <| cf_versions ::= set_version_refs id n |>, refs, obsolete)).

(** [VersionSet::AppendVersion] of a version with no references: the old
    current version loses one, the new one gets one and goes to the end of the
    list. *)
Definition AppendVersion (v : Version) (cfd : ColumnFamilyData) (refs : FileRefs)
    (obsolete : list ObsoleteFileInfo) : option (ColumnFamilyData * FileRefs * list ObsoleteFileInfo) :=
  '(cfd, refs, obsolete) ←
    match cf_current_ cfd with
    | Some current => snd <$> Version_Unref current cfd refs obsolete
    | None => Some (cfd, refs, obsolete)
    end;
  Some (cfd <| cf_current_ := Some (version_number_ v) |>
            <| cf_versions ::= fun l => l ++ [v <| ver_refs_ := s32 (ver_refs_ v + 1) |>] |>,
        refs, obsolete).

(** ** Live files *)

Definition Version_AddLiveFiles (v : VersionStorageInfo) (live : list Z * list Z) : list Z * list Z :=
  (live.1 ++ (FileNumber <$> version_files v), live.2 ++ (GetBlobFileNumber <$> blob_files_ v)).

(** For one column family; a current version that is not in the list cannot be
    read here. *)
Definition cf_AddLiveFiles (live : list Z * list Z) (cfd : ColumnFamilyData) : option (list Z * list Z) :=
  if negb (cf_initialized cfd) then Some live
  else
    let live := fold_left (fun l v => Version_AddLiveFiles (storage_info_ v) l) (cf_versions cfd) live in
    match cf_current_ cfd with
    | None => Some live
    | Some id =>
        if bool_decide (is_Some (find_version id (cf_versions cfd))) then Some live else None
    end.

Fixpoint over_cfs {A : Type} (f : A -> ColumnFamilyData -> option A) (a : A) (cfs : list ColumnFamilyData)
    : option A :=
  match cfs with
  | [] => Some a
  | cfd :: cfs' => a ← f a cfd; over_cfs f a cfs'
  end.

Definition AddLiveFiles (s : VersionSet) (live : list Z * list Z) : option (list Z * list Z) :=
  over_cfs cf_AddLiveFiles live (column_family_set_ s).

(** [operator==] of places. *)
Definition FileLocation_eqb (a b : FileLocation) : bool :=
  (loc_level_ a =? loc_level_ b) && (loc_position_ a =? loc_position_ b).

Abbreviation Candidates := (list ObsoleteFileInfo * list ObsoleteBlobFileInfo)%type.

Definition Version_RemoveLiveFiles (v : VersionStorageInfo) (candidates : Candidates) : Candidates :=
  (map (fun fi =>
     if negb (only_delete_metadata fi) &&
        negb (FileLocation_eqb (GetFileLocation v (FileNumber (of_metadata fi))) FileLocation_Invalid)
     then fi <| only_delete_metadata := true |> else fi) candidates.1,
   filter (fun x => GetBlobFileMetaData v (ob_number x) = None) candidates.2).

Definition cf_RemoveLiveFiles (candidates : Candidates) (cfd : ColumnFamilyData) : option Candidates :=
  if negb (cf_initialized cfd) then Some candidates
  else
    let candidates :=
      fold_left (fun l v => Version_RemoveLiveFiles (storage_info_ v) l) (cf_versions cfd) candidates in
    match cf_current_ cfd with
    | None => Some candidates
    | Some id =>
        if bool_decide (is_Some (find_version id (cf_versions cfd))) then Some candidates else None
    end.

Definition RemoveLiveFiles (s : VersionSet) (candidates : Candidates) : option Candidates :=
  over_cfs cf_RemoveLiveFiles candidates (column_family_set_ s).

(** ** Obsolete files *)

Definition AddObsoleteBlobFile (s : VersionSet) (number : Z) (path : bytes) : VersionSet :=
  s <| table_cache_ ::= fun t => t ∖ {[number]} |>
    <| obsolete_blob_files_ ::= fun l => l ++ [{| ob_number := number; ob_path := path |}] |>.

(** Files at or above [min_pending_output] stay. *)
Definition GetObsoleteFiles (s : VersionSet) (min_pending_output : Z)
    : (list ObsoleteFileInfo * list ObsoleteBlobFileInfo * list bytes) * VersionSet :=
  let old := fun fi => bool_decide (FileNumber (of_metadata fi) < min_pending_output) in
  let old_blob := fun b => bool_decide (ob_number b < min_pending_output) in
  ((ObsoleteFileInfo_move <$> filter (fun fi => old fi = true) (obsolete_files_ s),
    filter (fun b => old_blob b = true) (obsolete_blob_files_ s),
    obsolete_manifests_ s),
   s <| obsolete_files_ := ObsoleteFileInfo_move <$> filter (fun fi => old fi = false) (obsolete_files_ s) |>
     <| obsolete_blob_files_ := filter (fun b => old_blob b = false) (obsolete_blob_files_ s) |>
     <| obsolete_manifests_ := [] |>).

Definition GetObsoleteSstFilesSize (s : VersionSet) : Z :=
  fold_left (fun ret fi => u64 (ret + file_size (fd (fp_meta (of_metadata fi))))) (obsolete_files_ s) 0.

(** [ObsoleteFileInfo::DeleteMetadata]; the status of the reservation manager
    is not looked at. *)
Definition DeleteMetadata (s : VersionSet) (fi : ObsoleteFileInfo) : VersionSet :=
  let s := if of_res_mgr fi then s <| vs_unreserved ::= fun l => l ++ [fp_meta (of_metadata fi)] |> else s in
  s <| vs_refs ::= delete (fp_addr (of_metadata fi)) |>.

Definition GetNumLiveVersions (cfd : ColumnFamilyData) : Z := u64 (slen (cf_versions cfd)).

(** The sizes of the files of all versions, every file number and path once. *)
Definition count_file (acc : gset Z * Z) (f : FilePtr) : gset Z * Z :=
  let k := packed_number_and_path_id (fd (fp_meta f)) in
  if bool_decide (k ∈ acc.1) then acc
  else ({[k]} ∪ acc.1, u64 (acc.2 + file_size (fd (fp_meta f)))).

Definition GetTotalSstFilesSize (cfd : ColumnFamilyData) : Z :=
  (fold_left (fun acc v => fold_left count_file (version_files (storage_info_ v)) acc)
     (cf_versions cfd) (∅, 0)).2.
