(* ===== verification/VersionLiveInv.v ===== *)
(** * Files are obsolete exactly when no live version holds them

    The steps of a version set: column families are created, edits are
    installed (a builder on the current version, a new version, the destructor
    of the builder, [AppendVersion]), readers take and return references to
    versions, obsolete files are handed out and their metadata is freed. In
    every state that can be reached the reference count of a file is the number
    of live versions that hold it, and the obsolete files are the others. *)

From stdpp Require Import gmap sorting.
From S2P Require Import Prelude Records StdMap DbFormat Comparator BlobEdit VersionEdit VersionStorage VersionBuilder VersionSpec VersionApply VersionOrder VersionSave VersionCheck VersionCorrect VersionLive.

(** ** Reference counts *)

Definition addrs (v : Version) : list Z := fp_addr <$> version_files (storage_info_ v).

(** The number of versions that hold a file. *)
Definition count (a : Z) (vs : list Version) : nat := length (filter (fun v => a ∈ addrs v) vs).

#[export] Instance count_Permutation a : Proper ((≡ₚ) ==> (=)) (count a).
Proof. intros vs vs' H. unfold count. by rewrite H. Qed.

Lemma count_cons a v vs : count a (v :: vs) = if decide (a ∈ addrs v) then S (count a vs) else count a vs.
Proof. unfold count. rewrite list.filter_cons. by case_decide. Qed.

Lemma count_app a vs vs' : count a (vs ++ vs') = (count a vs + count a vs')%nat.
Proof. unfold count. by rewrite list.filter_app, length_app. Qed.

Lemma count_le a vs : (count a vs <= length vs)%nat.
Proof. apply length_filter. Qed.

Lemma count_pos a v vs : v ∈ vs -> a ∈ addrs v -> (0 < count a vs)%nat.
Proof.
  intros Hv Ha. assert (Hin : v ∈ filter (fun v => a ∈ addrs v) vs) by (by apply list_elem_of_filter).
  unfold count. destruct (filter _ vs); [by apply elem_of_nil in Hin|cbn; lia].
Qed.

Lemma count_pos_inv a vs : (0 < count a vs)%nat -> exists v, v ∈ vs /\ a ∈ addrs v.
Proof.
  unfold count. destruct (filter _ vs) as [|v l] eqn:E; cbn; [lia|]. intros _. exists v.
  assert (Hin : v ∈ filter (fun v => a ∈ addrs v) vs) by (rewrite E; by left).
  apply list_elem_of_filter in Hin as [??]. done.
Qed.

(** The counts of the heap, for the live versions and the obsolete files. *)
Record heap_ok (vs : list Version) (refs : FileRefs) (obs : list FilePtr) : Prop := {
  ho_live : forall a, (0 < count a vs)%nat -> refs !! a = Some (Z.of_nat (count a vs));
  ho_obs : forall f, f ∈ obs -> count (fp_addr f) vs = 0%nat /\ refs !! fp_addr f = Some 0;
  ho_nodup : NoDup (fp_addr <$> obs);
  ho_leak : forall a, count a vs = 0%nat -> is_Some (refs !! a) -> a ∈ fp_addr <$> obs
}.

Lemma heap_ok_Permutation vs vs' refs obs obs' : vs ≡ₚ vs' -> obs ≡ₚ obs' ->
  heap_ok vs refs obs -> heap_ok vs' refs obs'.
Proof.
  intros Hv Ho [H1 H2 H3 H4]. constructor.
  - intros a. rewrite <- Hv. apply H1.
  - intros f. rewrite <- Hv, <- Ho. apply H2.
  - by rewrite <- Ho.
  - intros a. rewrite <- Hv, <- Ho. apply H4.
Qed.

(** Giving back the files of a version that is destroyed. *)
Lemma drop_files_spec paths mgr fs refs obsolete : NoDup (fp_addr <$> fs) ->
  (forall f, f ∈ fs -> exists n, refs !! fp_addr f = Some n /\ 1 <= n < 2 ^ 31) ->
  (forall f, f ∈ fs -> is_Some (paths !! Z.to_nat (GetPathId (fd (fp_meta f))))) ->
  exists refs' news, drop_files paths mgr fs refs obsolete = Some (refs', obsolete ++ news) /\
    (forall a, refs' !! a = if decide (a ∈ fp_addr <$> fs) then Z.pred <$> refs !! a else refs !! a) /\
    of_metadata <$> news = filter (fun f => refs !! fp_addr f = Some 1) fs.
Proof.
  revert refs obsolete. induction fs as [|f fs IH]; intros refs obsolete Hn Hr Hp.
  { exists refs, []. split; [by rewrite app_nil_r|]. split; [|done]. intros a.
    rewrite decide_False; [done|]. apply not_elem_of_nil. }
  rewrite fmap_cons in Hn |- *. apply list.NoDup_cons in Hn as [Hf Hn].
  destruct (Hr f) as (n & En & Hrange); [by left|]. destruct (Hp f) as [path Epath]; [by left|].
  set (refs1 := <[fp_addr f := n - 1]> refs).
  assert (Hsame : forall g, g ∈ fs -> refs1 !! fp_addr g = refs !! fp_addr g).
  { intros g Hg. apply lookup_insert_ne. intros E. apply Hf. rewrite E. by apply list_elem_of_fmap_2. }
  assert (Hfun : file_unref refs f = Some (refs1, n - 1 <=? 0)).
  { unfold file_unref. rewrite En. cbn [mbind option_bind]. by rewrite s32_id by (unfold is_s32; lia). }
  set (obs1 := if n - 1 <=? 0 then obsolete ++ [ObsoleteFileInfo_new f path mgr] else obsolete).
  destruct (IH refs1 obs1) as (refs' & news & E & Hrefs & Hnews); [done| | |].
  { intros g Hg. rewrite (Hsame g Hg). apply Hr. by right. }
  { intros g Hg. apply Hp. by right. }
  exists refs', ((if n - 1 <=? 0 then [ObsoleteFileInfo_new f path mgr] else []) ++ news). split; [|split].
  - cbn [drop_files]. rewrite Hfun, Epath. unfold obs1 in E. destruct (n - 1 <=? 0); cbn [mbind option_bind].
    + by rewrite E, app_assoc.
    + done.
  - intros a. rewrite Hrefs. destruct (decide (a = fp_addr f)) as [->|Hne].
    + rewrite decide_False, decide_True by (done || by left). unfold refs1. rewrite lookup_insert_eq, En. done.
    + unfold refs1. rewrite lookup_insert_ne by done. destruct (decide (a ∈ fp_addr <$> fs)).
      * rewrite decide_True by (by right). done.
      * rewrite decide_False; [done|]. rewrite elem_of_cons. tauto.
  - rewrite fmap_app, Hnews, list.filter_cons.
    assert (Hext : filter (fun g => refs1 !! fp_addr g = Some 1) fs = filter (fun g => refs !! fp_addr g = Some 1) fs).
    { clear -Hsame. induction fs as [|g fs IH]; [done|]. rewrite !list.filter_cons.
      assert (refs1 !! fp_addr g = refs !! fp_addr g) as -> by (apply Hsame; by left).
      rewrite IH; [done|]. intros h Hh. apply Hsame. by right. }
    rewrite Hext, En. zcase; case_decide as E1; try done; try (injection E1 as E1; lia). by destruct E1; f_equal; lia.
Qed.

Lemma heap_drop v vs refs obs paths mgr obsolete : heap_ok (v :: vs) refs obs ->
  NoDup (addrs v) -> Z.of_nat (length (v :: vs)) < 2 ^ 31 ->
  (forall f, f ∈ version_files (storage_info_ v) -> is_Some (paths !! Z.to_nat (GetPathId (fd (fp_meta f))))) ->
  exists refs' news, drop_files paths mgr (version_files (storage_info_ v)) refs obsolete = Some (refs', obsolete ++ news) /\
    heap_ok vs refs' (obs ++ (of_metadata <$> news)).
Proof.
  intros [H1 H2 H3 H4] Hn Hb Hp.
  destruct (drop_files_spec paths mgr (version_files (storage_info_ v)) refs obsolete) as (refs' & news & E & Hr & Hnews);
    [done| |done|].
  { intros f Hf. exists (Z.of_nat (count (fp_addr f) (v :: vs))).
    assert (Hpos : (0 < count (fp_addr f) (v :: vs))%nat).
    { apply (count_pos _ v); [by left|by apply list_elem_of_fmap_2]. }
    split; [by apply H1|]. pose proof (count_le (fp_addr f) (v :: vs)). lia. }
  exists refs', news. split; [done|]. rewrite Hnews. fold (addrs v) in Hr.
  assert (Hc : forall a, (refs' !! a = Some (Z.of_nat (count a vs))) \/ ((a ∉ addrs v) /\ refs' !! a = refs !! a)).
  { intros a. rewrite Hr. case_decide as Ha; [left|by right].
    rewrite H1 by (rewrite count_cons, decide_True by done; lia). rewrite count_cons, decide_True by done.
    cbn. f_equal. lia. }
  constructor.
  - intros a Ha. destruct (Hc a) as [|[Hna ->]]; [done|]. rewrite H1; rewrite count_cons, decide_False by done; done.
  - intros f [Hf|Hf]%elem_of_app.
    + destruct (H2 f Hf) as [E0 E1]. rewrite count_cons in E0. case_decide as Hd; [done|].
      split; [done|]. by rewrite Hr, decide_False.
    + apply list_elem_of_filter in Hf as [E1 Hf]. assert (Ha : fp_addr f ∈ addrs v) by (by apply list_elem_of_fmap_2).
      assert (E0 : count (fp_addr f) vs = 0%nat).
      { rewrite H1 in E1 by (rewrite count_cons, decide_True by done; lia).
        rewrite count_cons, decide_True in E1 by done. injection E1 as E1. lia. }
      split; [done|]. by rewrite Hr, decide_True, E1.
  - rewrite fmap_app. apply list.NoDup_app. split; [done|]. split.
    + intros a (f & -> & Hf)%list_elem_of_fmap (g & Eg & [E1 Hg]%list_elem_of_filter)%list_elem_of_fmap.
      destruct (H2 f Hf) as [_ E0]. rewrite Eg, E1 in E0. done.
    + apply (sublist_NoDup _ (addrs v)); [done|]. apply fmap_sublist, sublist_filter.
  - intros a Ha Hs. rewrite fmap_app, elem_of_app. destruct (decide (a ∈ addrs v)) as [Hin|Hin].
    + right. apply list_elem_of_fmap in Hin as (f & -> & Hf). apply list_elem_of_fmap_2, list_elem_of_filter.
      split; [|done]. assert (Hin : fp_addr f ∈ addrs v) by (by apply list_elem_of_fmap_2).
      rewrite H1; rewrite count_cons, decide_True by done; [by rewrite Ha|lia].
    + left. apply H4; [by rewrite count_cons, decide_False|]. by rewrite Hr, decide_False in Hs.
Qed.

(** A new version with one reference more for each of its files, none of which
    is obsolete. *)
Lemma heap_add v vs refs refs' obs : heap_ok vs refs obs ->
  Z.of_nat (length vs) < 2 ^ 31 - 1 ->
  (forall a, refs' !! a = if decide (a ∈ addrs v) then Some (s32 (default 0 (refs !! a) + 1)) else refs !! a) ->
  (forall a, a ∈ addrs v -> (0 < count a vs)%nat \/ refs !! a = None) ->
  heap_ok (v :: vs) refs' obs.
Proof.
  intros [H1 H2 H3 H4] Hb Hr Hnew.
  assert (Hval : forall a, a ∈ addrs v -> refs' !! a = Some (Z.of_nat (S (count a vs)))).
  { intros a Ha. rewrite Hr, decide_True by done. pose proof (count_le a vs). f_equal.
    destruct (Nat.eq_dec (count a vs) 0) as [E|E].
    - destruct (Hnew a Ha) as [?|E0]; [lia|]. rewrite E, E0. done.
    - rewrite H1 by lia. cbn [default from_option id]. rewrite s32_id; [lia|]. unfold is_s32. lia. }
  constructor; [|intros f Hf|done|].
  - intros a. rewrite count_cons. case_decide as Ha; [intros _; by apply Hval|]. intros Hp.
    rewrite Hr, decide_False by done. by apply H1.
  - destruct (H2 f Hf) as [E0 E1]. assert (Hna : fp_addr f ∉ addrs v).
    { intros Ha. destruct (Hnew _ Ha) as [?|E]; [lia|congruence]. }
    rewrite count_cons, Hr, !decide_False by done. done.
  - intros a. rewrite count_cons. case_decide as Ha; [done|]. rewrite Hr, decide_False by done. apply H4.
Qed.

Lemma heap_free f vs refs obs : heap_ok vs refs (f :: obs) -> heap_ok vs (delete (fp_addr f) refs) obs.
Proof.
  intros [H1 H2 H3 H4]. rewrite fmap_cons in H3. apply list.NoDup_cons in H3 as [Hf Hn].
  destruct (H2 f) as [E0 E1]; [by left|]. constructor; [intros a Ha|intros g Hg|done|intros a Ha Hs].
  - rewrite lookup_delete_ne; [by apply H1|]. intros <-. lia.
  - destruct (H2 g) as [F0 F1]; [by right|]. split; [done|]. rewrite lookup_delete_ne; [done|].
    intros E. apply Hf. rewrite E. by apply list_elem_of_fmap_2.
  - destruct (decide (a = fp_addr f)) as [->|Hne]; [rewrite lookup_delete_eq in Hs; by destruct Hs|].
    rewrite lookup_delete_ne in Hs by done. specialize (H4 a Ha Hs). rewrite fmap_cons, elem_of_cons in H4.
    by destruct H4.
Qed.

(** ** Steps *)

Section Steps.

Context (c : Comparator) `{!ComparatorOk c} {M : Type} `{!CacheReservationManager M} (object_usage : Z).

(** A version set, and the obsolete files that were handed out and whose
    metadata is not yet freed. *)
Record State := mkState { st_set : VersionSet; st_purging : list ObsoleteFileInfo }.

Definition all_versions (s : VersionSet) : list Version := mjoin (cf_versions <$> column_family_set_ s).

Definition path_ok (paths : list bytes) (x : Z * FileMetaData) : Prop :=
  is_Some (paths !! Z.to_nat (GetPathId (fd x.2))).

(** The change of column family [i] with what is released. *)
Definition set_cf (s : VersionSet) (i : nat) (cfd : ColumnFamilyData) (refs : FileRefs)
    (obsolete : list ObsoleteFileInfo) : VersionSet :=
  s <| column_family_set_ ::= <[i := cfd]> |> <| vs_refs := refs |> <| obsolete_files_ := obsolete |>.

Inductive step : State -> State -> Prop :=
| step_create s p levels force requirement paths mgr cfd refs obsolete :
    0 <= levels -> Z.of_nat (length (all_versions s)) < 2 ^ 31 - 1 ->
    AppendVersion
      (Version_new (current_version_number_ s)
         (GenerateFileLocationIndex (VersionStorageInfo_make levels None force requirement)))
      {| cf_initialized := true; cf_versions := []; cf_current_ := None; cf_paths := paths; cf_res_mgr_ := mgr |}
      (vs_refs s) (obsolete_files_ s) = Some (cfd, refs, obsolete) ->
    step (mkState s p)
      (mkState (s <| column_family_set_ ::= fun l => l ++ [cfd] |> <| vs_refs := refs |>
                  <| obsolete_files_ := obsolete |> <| current_version_number_ ::= Z.succ |>) p)
| step_install s p i cfd id current es (w : World M) r w1 force requirement v refs1 w2 cfd' refs obsolete :
    column_family_set_ s !! i = Some cfd -> cf_current_ cfd = Some id ->
    find_version id (cf_versions cfd) = Some current ->
    edits_ok c es -> Forall (fun e => Forall (path_ok (cf_paths cfd)) (new_files_ e)) es ->
    Z.of_nat (length (all_versions s)) < 2 ^ 31 - 1 ->
    w_refs w = vs_refs s ->
    for_each (Apply c object_usage) (Rep_new (storage_info_ current), w) es = Some (OK, (r, w1)) ->
    CheckConsistencyForNumLevels r = true ->
    SaveTo c r (VersionStorageInfo_make (num_levels_ (storage_info_ current)) (Some (storage_info_ current))
                  force requirement, w_refs w1) = Some (OK, (v, refs1)) ->
    CheckConsistencyDetails c v = OK ->
    Rep_destroy object_usage r (mkWorld refs1 (w_released w1) (file_metadata_cache_res_mgr_ w1)) = Some w2 ->
    AppendVersion (Version_new (current_version_number_ s) (GenerateFileLocationIndex v))
      cfd (w_refs w2) (obsolete_files_ s) = Some (cfd', refs, obsolete) ->
    step (mkState s p) (mkState ((set_cf s i cfd' refs obsolete) <| current_version_number_ ::= Z.succ |>) p)
| step_ref s p i cfd id v cfd' :
    column_family_set_ s !! i = Some cfd -> find_version id (cf_versions cfd) = Some v ->
    ver_refs_ v < 2 ^ 31 - 1 -> Version_Ref id cfd = Some cfd' ->
    step (mkState s p) (mkState (set_cf s i cfd' (vs_refs s) (obsolete_files_ s)) p)
| step_unref s p i cfd id v last cfd' refs obsolete :
    column_family_set_ s !! i = Some cfd -> find_version id (cf_versions cfd) = Some v ->
    (cf_current_ cfd = Some id -> 1 < ver_refs_ v) ->
    Version_Unref id cfd (vs_refs s) (obsolete_files_ s) = Some (last, (cfd', refs, obsolete)) ->
    step (mkState s p) (mkState (set_cf s i cfd' refs obsolete) p)
| step_obsolete_blob s p number path :
    step (mkState s p) (mkState (AddObsoleteBlobFile s number path) p)
| step_get_obsolete s p min_pending_output files blobs manifests s' :
    GetObsoleteFiles s min_pending_output = ((files, blobs, manifests), s') ->
    step (mkState s p) (mkState s' (p ++ files))
| step_free s p1 fi p2 :
    step (mkState s (p1 ++ fi :: p2)) (mkState (DeleteMetadata s fi) (p1 ++ p2))
| step_table_cache s p cached :
    step (mkState s p) (mkState (s <| table_cache_ := cached |>) p).

(** From a version set with no column families. *)
Inductive reachable : State -> Prop :=
| reachable_start n : reachable (mkState {| column_family_set_ := []; vs_refs := ∅; current_version_number_ := n;
    obsolete_files_ := []; obsolete_blob_files_ := []; obsolete_manifests_ := []; table_cache_ := ∅;
    vs_unreserved := [] |} [])
| reachable_step s s' : reachable s -> step s s' -> reachable s'.

(** ** The invariant *)

Definition obsolete_list (s : State) : list FilePtr :=
  of_metadata <$> (obsolete_files_ (st_set s) ++ st_purging s).

(** A version as the builder needs it, but for the reference counts. *)
Record version_sound (v : VersionStorageInfo) : Prop := {
  vn_version : version_ok v;
  vn_ranges : Forall (range_ok c) (mjoin (files_ v));
  vn_addresses : NoDup (fp_addr <$> mjoin (files_ v));
  vn_indexed : indexed v;
  vn_consistent : consistent c v
}.

Record cf_sound (next : Z) (cfd : ColumnFamilyData) : Prop := {
  cn_initialized : cf_initialized cfd = true;
  cn_numbers : NoDup (version_number_ <$> cf_versions cfd);
  cn_fresh : Forall (fun v => version_number_ v < next) (cf_versions cfd);
  cn_versions : Forall (fun v => version_sound (storage_info_ v) /\ 1 <= ver_refs_ v < 2 ^ 31) (cf_versions cfd);
  cn_paths : Forall (fun v => Forall (fun f => path_ok (cf_paths cfd) (0, fp_meta f))
                                (version_files (storage_info_ v))) (cf_versions cfd)
}.

Definition current_ok (cfd : ColumnFamilyData) : Prop :=
  forall id, cf_current_ cfd = Some id -> id ∈ version_number_ <$> cf_versions cfd.

Record inv (s : State) : Prop := {
  iv_heap : heap_ok (all_versions (st_set s)) (vs_refs (st_set s)) (obsolete_list s);
  iv_cfs : Forall (fun cfd => cf_sound (current_version_number_ (st_set s)) cfd /\ current_ok cfd)
             (column_family_set_ (st_set s));
  iv_count : Z.of_nat (length (all_versions (st_set s))) < 2 ^ 31
}.

Lemma version_files_all v : version_ok v -> version_files v = mjoin (files_ v).
Proof. intros Hv. unfold version_files. rewrite take_ge; [done|]. rewrite (vo_files v Hv). lia. Qed.

Lemma sound_ready v vs refs obs : heap_ok vs refs obs -> v ∈ vs -> version_sound (storage_info_ v) ->
  ready c (storage_info_ v) refs.
Proof.
  intros Hh Hv [H1 H2 H3 H4 H5]. constructor; try done. intros l f Hf.
  rewrite (ho_live _ _ _ Hh); [by eexists|]. apply (count_pos _ v); [done|]. unfold addrs.
  rewrite version_files_all by done. by apply list_elem_of_fmap_2, (on_level_concat _ l).
Qed.

(** *** Parts of a version set *)

Lemma find_version_Some id vs v : find_version id vs = Some v -> v ∈ vs /\ version_number_ v = id.
Proof.
  intros ([i x] & E & ->)%fmap_Some. apply list_find_Some in E as (Hi & Hx & _).
  split; [by eapply list_elem_of_lookup_2|done].
Qed.

Lemma find_version_elem id vs : id ∈ version_number_ <$> vs -> exists v, find_version id vs = Some v.
Proof.
  intros (v & -> & Hv)%list_elem_of_fmap. unfold find_version.
  destruct (list_find_elem_of (fun x => version_number_ x = version_number_ v) vs v Hv eq_refl) as [[i x] E].
  rewrite E. by eexists.
Qed.

(** The versions of the other column families. *)
Definition other_versions (s : VersionSet) (i : nat) : list Version :=
  mjoin (cf_versions <$> (take i (column_family_set_ s) ++ drop (S i) (column_family_set_ s))).

Lemma all_versions_split s i cfd : column_family_set_ s !! i = Some cfd ->
  all_versions s ≡ₚ cf_versions cfd ++ other_versions s i.
Proof.
  intros E. unfold all_versions, other_versions. rewrite <- (take_drop_middle _ _ _ E) at 1.
  rewrite !fmap_app, fmap_cons, !join_app. cbn. rewrite (Permutation_app_comm (mjoin _) (cf_versions cfd ++ _)).
  rewrite <- app_assoc. apply Permutation_app_head, Permutation_app_comm.
Qed.

Lemma set_cf_versions s i cfd cfd' refs obsolete : column_family_set_ s !! i = Some cfd ->
  all_versions (set_cf s i cfd' refs obsolete) ≡ₚ cf_versions cfd' ++ other_versions s i.
Proof.
  intros E. pose proof (lookup_lt_Some _ _ _ E) as Hlt.
  rewrite (all_versions_split _ i cfd').
  - unfold other_versions, set_cf. cbn. by rewrite take_insert_ge, drop_insert_lt by lia.
  - cbn. by apply list_lookup_insert_eq.
Qed.

Lemma unique_version id vs v : NoDup (version_number_ <$> vs) -> find_version id vs = Some v ->
  vs ≡ₚ v :: filter (fun x => version_number_ x <> id) vs.
Proof.
  intros Hn [Hv Hid]%find_version_Some. induction vs as [|x vs IH]; [by apply elem_of_nil in Hv|].
  rewrite fmap_cons in Hn. apply list.NoDup_cons in Hn as [Hx Hn]. rewrite list.filter_cons.
  apply elem_of_cons in Hv as [->|Hv].
  - rewrite decide_False by tauto. constructor. rewrite filter_all; [done|]. apply list.Forall_forall.
    intros y Hy E. apply Hx. rewrite Hid, <- E. by apply list_elem_of_fmap_2.
  - rewrite decide_True.
    + rewrite (IH Hn Hv) at 1. constructor.
    + intros E. apply Hx. rewrite E, <- Hid. by apply list_elem_of_fmap_2.
Qed.

(** *** Reference counts of versions *)

Lemma set_refs_numbers id n vs : version_number_ <$> set_version_refs id n vs = version_number_ <$> vs.
Proof.
  unfold set_version_refs. rewrite <- list_fmap_compose. apply list_fmap_ext. intros i v _. cbn.
  by destruct (version_number_ v =? id).
Qed.

Lemma set_refs_elem id n vs x : x ∈ set_version_refs id n vs ->
  exists v, v ∈ vs /\ storage_info_ x = storage_info_ v /\ version_number_ x = version_number_ v /\
    (ver_refs_ x = ver_refs_ v \/ ver_refs_ x = n).
Proof.
  intros (v & -> & Hv)%list_elem_of_fmap. exists v. split; [done|]. destruct (version_number_ v =? id); cbn; auto.
Qed.

Lemma set_refs_count id n vs a : count a (set_version_refs id n vs) = count a vs.
Proof.
  induction vs as [|v vs IH]; [done|]. cbn [set_version_refs map]. fold (set_version_refs id n vs).
  rewrite !count_cons, IH. by destruct (version_number_ v =? id).
Qed.

Lemma heap_ok_count vs vs' refs obs : (forall a, count a vs' = count a vs) -> heap_ok vs refs obs -> heap_ok vs' refs obs.
Proof.
  intros Hc [H1 H2 H3 H4]. constructor; [| |done|].
  - intros a. rewrite Hc. apply H1.
  - intros f. rewrite Hc. apply H2.
  - intros a. rewrite Hc. apply H4.
Qed.

Lemma cf_sound_refs next id n cfd : 1 <= n < 2 ^ 31 -> cf_sound next cfd ->
  cf_sound next (cfd <| cf_versions ::= set_version_refs id n |>).
Proof.
  intros Hn [H0 H1 H2 H3 H4]. rewrite list.Forall_forall in H2, H3, H4.
  constructor; unfold modify; cbn; rewrite ?set_refs_numbers; [done|done|..]; apply list.Forall_forall;
    intros x (v & Hv & Es & En & Er)%set_refs_elem.
  - rewrite En. by apply H2.
  - rewrite Es. destruct (H3 v Hv) as [? ?]. split; [done|]. destruct Er as [->| ->]; done.
  - rewrite Es. by apply H4.
Qed.

Lemma Forall_kept {A : Type} (P Q : A -> Prop) `{!forall x, Decision (Q x)} l : Forall P l -> Forall P (filter Q l).
Proof.
  rewrite !list.Forall_forall. intros HP x [_ Hx]%list_elem_of_filter. by apply HP.
Qed.

Lemma cf_sound_filter next id cfd : cf_sound next cfd ->
  cf_sound next (cfd <| cf_versions ::= filter (fun x => version_number_ x <> id) |>).
Proof.
  intros [H0 H1 H2 H3 H4]. constructor; unfold modify; cbn; [done|..].
  - apply (sublist_NoDup _ (version_number_ <$> cf_versions cfd)); [done|]. apply fmap_sublist, sublist_filter.
  - by apply Forall_kept.
  - by apply Forall_kept.
  - by apply Forall_kept.
Qed.

(** Returning a reference to a live version. *)
Lemma unref_sound next cfd others refs obs obsolete id v : cf_sound next cfd ->
  heap_ok (cf_versions cfd ++ others) refs obs -> Z.of_nat (length (cf_versions cfd ++ others)) < 2 ^ 31 ->
  find_version id (cf_versions cfd) = Some v ->
  exists last cfd' refs' news,
    Version_Unref id cfd refs obsolete = Some (last, (cfd', refs', obsolete ++ news)) /\
    heap_ok (cf_versions cfd' ++ others) refs' (obs ++ (of_metadata <$> news)) /\
    cf_sound next cfd' /\ cf_current_ cfd' = cf_current_ cfd /\ cf_paths cfd' = cf_paths cfd /\
    (length (cf_versions cfd') <= length (cf_versions cfd))%nat /\
    (forall id', id' ∈ version_number_ <$> cf_versions cfd -> id' <> id \/ 1 < ver_refs_ v ->
       id' ∈ version_number_ <$> cf_versions cfd').
Proof.
  intros Hcf Hh Hb Hf. destruct (find_version_Some _ _ _ Hf) as [Hv Hid]. pose proof Hcf as [H0 H1 H2 H3 H4].
  rewrite list.Forall_forall in H3, H4. destruct (H3 v Hv) as [Hsv Hrv]. unfold Version_Unref. rewrite Hf.
  cbn [mbind option_bind]. rewrite s32_id by (unfold is_s32; lia). zcase.
  - pose proof (unique_version id (cf_versions cfd) v H1 Hf) as Hperm.
    set (rest := filter (fun x => version_number_ x <> id) (cf_versions cfd)) in *.
    assert (Hperm' : cf_versions cfd ++ others ≡ₚ v :: (rest ++ others)) by (by rewrite Hperm at 1).
    destruct (heap_drop v (rest ++ others) refs obs (cf_paths cfd) (cf_res_mgr_ cfd) obsolete) as (refs' & news & E & Hh').
    + by apply (heap_ok_Permutation (cf_versions cfd ++ others) _ refs obs).
    + unfold addrs. rewrite version_files_all by apply Hsv. apply Hsv.
    + by rewrite <- Hperm'.
    + intros f Hin. specialize (H4 v Hv). rewrite list.Forall_forall in H4. by apply H4.
    + rewrite E. cbn [mbind option_bind].
      exists true, (cfd <| cf_versions ::= filter (fun x => version_number_ x <> id) |>), refs', news.
      split_and!; try done.
      * by apply cf_sound_filter.
      * unfold modify. cbn. apply length_filter.
      * intros id' (x & -> & Hx)%list_elem_of_fmap [Hne|?]; [|lia]. apply list_elem_of_fmap_2.
        unfold modify. cbn. apply list_elem_of_filter. done.
  - exists false, (cfd <| cf_versions ::= set_version_refs id (ver_refs_ v - 1) |>), refs, [].
    rewrite !app_nil_r. split_and!; try done.
    + unfold modify. cbn. apply (heap_ok_count (cf_versions cfd ++ others)); [|done]. intros a.
      by rewrite !count_app, set_refs_count.
    + apply cf_sound_refs; [lia|done].
    + unfold modify. cbn. unfold set_version_refs. rewrite length_map. done.
    + intros id' Hin _. unfold modify. cbn. by rewrite set_refs_numbers.
Qed.

(** Making a version current whose files already count. *)
Lemma append_sound next cfd others refs obs obsolete v : cf_sound next cfd -> current_ok cfd ->
  heap_ok (v :: cf_versions cfd ++ others) refs obs ->
  Z.of_nat (length (v :: cf_versions cfd ++ others)) < 2 ^ 31 ->
  version_number_ v = next -> ver_refs_ v = 0 -> version_sound (storage_info_ v) ->
  Forall (fun f => path_ok (cf_paths cfd) (0, fp_meta f)) (version_files (storage_info_ v)) ->
  exists cfd' refs' news,
    AppendVersion v cfd refs obsolete = Some (cfd', refs', obsolete ++ news) /\
    heap_ok (cf_versions cfd' ++ others) refs' (obs ++ (of_metadata <$> news)) /\
    cf_sound (Z.succ next) cfd' /\ current_ok cfd' /\
    (length (cf_versions cfd') <= S (length (cf_versions cfd)))%nat.
Proof.
  intros Hcf Hcur Hh Hb Hnum Href Hsv Hpv. unfold AppendVersion.
  assert (Hmid : exists cfd1 refs1 news,
    match cf_current_ cfd with
    | Some current => snd <$> Version_Unref current cfd refs obsolete
    | None => Some (cfd, refs, obsolete)
    end = Some (cfd1, refs1, obsolete ++ news) /\
    heap_ok (v :: cf_versions cfd1 ++ others) refs1 (obs ++ (of_metadata <$> news)) /\
    cf_sound next cfd1 /\ cf_paths cfd1 = cf_paths cfd /\
    (length (cf_versions cfd1) <= length (cf_versions cfd))%nat).
  { destruct (cf_current_ cfd) as [id|] eqn:Ecur.
    - destruct (find_version_elem id (cf_versions cfd) (Hcur id Ecur)) as [x Hx].
      destruct (unref_sound next cfd (v :: others) refs obs obsolete id x) as (last & cfd1 & refs1 & news & E & Hh1 & Hs1 & _ & Hp1 & Hl1 & _);
        [done| | |done|].
      + eapply heap_ok_Permutation; [|done|exact Hh]. apply Permutation_middle.
      + rewrite <- Permutation_middle. done.
      + rewrite E. exists cfd1, refs1, news. split_and!; try done.
        eapply heap_ok_Permutation; [|done|exact Hh1]. symmetry. apply Permutation_middle.
    - exists cfd, refs, []. rewrite !app_nil_r. done. }
  destruct Hmid as (cfd1 & refs1 & news & -> & Hh1 & [H0 H1 H2 H3 H4] & Hp1 & Hl1). cbn [mbind option_bind].
  rewrite Href. eexists _, refs1, news. split; [reflexivity|]. unfold modify. cbn.
  set (v' := {| version_number_ := version_number_ v; ver_refs_ := s32 (0 + 1); storage_info_ := storage_info_ v |}).
  split_and!.
  - apply (heap_ok_count (v :: cf_versions cfd1 ++ others)); [|done]. intros a.
    rewrite !count_app, !count_cons, !count_app. change (addrs v') with (addrs v). case_decide; cbn; lia.
  - rewrite list.Forall_forall in H2. constructor; cbn; [done|..].
    + rewrite fmap_app. apply list.NoDup_app. split; [done|]. split; [|apply NoDup_singleton].
      intros x (y & -> & Hy)%list_elem_of_fmap E%list_elem_of_singleton. specialize (H2 y Hy). cbn in E, H2. lia.
    + apply list.Forall_app. split; [|apply list.Forall_singleton; cbn; lia].
      apply list.Forall_forall. intros x Hx. specialize (H2 x Hx). lia.
    + apply list.Forall_app. split; [done|]. apply list.Forall_singleton. split; [done|]. cbn [v' ver_refs_]. change (s32 (0 + 1)) with 1. lia.
    + rewrite Hp1 in *. apply list.Forall_app. split; [done|]. by apply list.Forall_singleton.
  - intros id [= <-]. cbn. rewrite fmap_app, elem_of_app. right. by apply list_elem_of_singleton.
  - rewrite length_app. cbn. lia.
Qed.

(** *** Installing edits *)

Lemma install_sound base refs0 es (w : World M) r w1 force requirement v st refs1 w2 paths :
  ready c base refs0 -> edits_ok c es -> Forall (fun e => Forall (path_ok paths) (new_files_ e)) es ->
  Forall (fun f => path_ok paths (0, fp_meta f)) (version_files base) -> w_refs w = refs0 ->
  for_each (Apply c object_usage) (Rep_new base, w) es = Some (OK, (r, w1)) ->
  CheckConsistencyForNumLevels r = true ->
  SaveTo c r (VersionStorageInfo_make (num_levels_ base) (Some base) force requirement, w_refs w1) =
    Some (st, (v, refs1)) ->
  CheckConsistencyDetails c v = OK ->
  Rep_destroy object_usage r (mkWorld refs1 (w_released w1) (file_metadata_cache_res_mgr_ w1)) = Some w2 ->
  version_sound (GenerateFileLocationIndex v) /\
  (forall a, w_refs w2 !! a = if decide (a ∈ fp_addr <$> mjoin (files_ v)) then Some (s32 (default 0 (refs0 !! a) + 1))
                              else refs0 !! a) /\
  (forall f, f ∈ mjoin (files_ v) -> (exists l, on_level base l f) \/ refs0 !! fp_addr f = None) /\
  Forall (fun f => path_ok paths (0, fp_meta f)) (version_files v).
Proof.
  intros Hb [Hes Hnew] Hpaths Hbp Hw Happly Hlev Hsave Hcheck Hdestroy.
  set (managed := bool_decide (is_Some (file_metadata_cache_res_mgr_ w))).
  assert (H : refines base refs0 managed (for_each (Apply c object_usage) (Rep_new base, w) es)
                (lsm_all (lsm_apply (num_levels_ base)) (lsm_of base) es)).
  { apply built_refines; [done|done|done| |done]. intros Hm%bool_decide_eq_false. by apply eq_None_not_Some. }
  rewrite Happly in H. destruct H as [(_ & s & Es & H)|[[(msg & ?) _]|[(msg & ?) _]]]; [|done..].
  pose proof (proj1 (CheckConsistencyForNumLevels_spec _ _ _ r w1 s H) Hlev) as Hvalid.
  assert (Hfiles : all_files (fun x => meta_ok c x /\ path_ok paths x) s).
  { apply (lsm_apply_all_keeps _ (num_levels_ base) es (lsm_of base)); [| |done].
    - intros n [l m] E. split; [by apply (ready_files c base refs0 Hb n)|].
      apply lsm_of_files in E as (f & Hf & _ & <-); [|apply Hb]. rewrite list.Forall_forall in Hbp.
      apply (Hbp f). rewrite version_files_all by apply Hb. by apply (on_level_concat _ l).
    - rewrite list.Forall_forall in Hnew, Hpaths |- *. intros e He. apply list.Forall_and. auto. }
  assert (Hmeta : all_files (meta_ok c) s) by (intros n x E; by apply (Hfiles n)).
  destruct (saved_version c base refs0 Hb managed r w1 s H Hmeta Hvalid force requirement)
    as (v1 & refs & Hsave' & Hf & -> & Hv & Hlsm & _ & _ & Hr & Hready).
  unfold empty_version in Hsave'. rewrite Hsave in Hsave'. injection Hsave' as _ <- ->.
  destruct (built_references c object_usage base refs0 Hb managed r w1 s H force requirement
    (w_released w1) (file_metadata_cache_res_mgr_ w1)) as (w3 & Hd & Hrefs).
  rewrite Hf, Hd in Hdestroy. injection Hdestroy as <-. rewrite <- Hf in Hrefs.
  apply (check_details_exact c v Hv Hr) in Hcheck. split_and!.
  - destruct (Hready (w_refs w3) Hcheck) as [? ? ? ? ? _]; [|by constructor].
    intros a Ha. rewrite Hrefs, decide_True by done. by eexists.
  - exact Hrefs.
  - intros f Hin. rewrite Hf in Hin.
    destruct (new_file_origin c base refs0 Hb managed r w1 s H force requirement f Hin) as [[l Hl]|Hl]; [right|by left].
    by destruct (hr_added _ _ _ (rp_heap _ _ _ _ _ _ H) l _ f Hl).
  - rewrite version_files_all by done. apply list.Forall_forall.
    intros f (fs & Hin & [i Hi]%list_elem_of_lookup)%list_elem_of_join.
    apply (Hfiles (FileNumber f) (Z.of_nat i, fp_meta f)).
    change (lsm_files s) with (lsm_files (lsm_live s)). rewrite <- Hlsm. apply lsm_of_files; [done|]. exists f.
    split; [|done]. exists fs. split; [|done]. apply LevelFiles_Some. rewrite Nat2Z.id. split; [lia|done].
Qed.

(** *** Every step keeps the invariant *)

Lemma obsolete_list_app s p news :
  of_metadata <$> ((obsolete_files_ s ++ news) ++ p) ≡ₚ obsolete_list (mkState s p) ++ (of_metadata <$> news).
Proof.
  unfold obsolete_list. cbn. rewrite !fmap_app, <- !app_assoc. apply Permutation_app_head, Permutation_app_comm.
Qed.

(** A change of one column family. *)
Lemma inv_set_cf s p i cfd cfd' refs news next :
  inv (mkState s p) -> column_family_set_ s !! i = Some cfd -> current_version_number_ s <= next ->
  heap_ok (cf_versions cfd' ++ other_versions s i) refs (obsolete_list (mkState s p) ++ (of_metadata <$> news)) ->
  cf_sound next cfd' -> current_ok cfd' ->
  Z.of_nat (length (cf_versions cfd' ++ other_versions s i)) < 2 ^ 31 ->
  inv (mkState ((set_cf s i cfd' refs (obsolete_files_ s ++ news)) <| current_version_number_ := next |>) p).
Proof.
  intros [_ Hcfs _] Hi Hnext Hh Hcf Hcur Hb. pose proof (set_cf_versions s i cfd cfd' refs (obsolete_files_ s ++ news) Hi) as Hp.
  constructor; cbn [st_set].
  - eapply heap_ok_Permutation; [symmetry; exact Hp|symmetry; apply obsolete_list_app|exact Hh].
  - cbn. apply Forall_insert; [|done]. apply (list.Forall_impl _ _ _ Hcfs). intros x [[H0 H1 H2 H3 H4] ?].
    split; [|done]. constructor; try done. apply (list.Forall_impl _ _ _ H2). cbn. intros. lia.
  - change (Z.of_nat (length (all_versions (set_cf s i cfd' refs (obsolete_files_ s ++ news)))) < 2 ^ 31).
    by rewrite Hp.
Qed.

Lemma set_cf_same s i cfd refs obsolete :
  (set_cf s i cfd refs obsolete) <| current_version_number_ := current_version_number_ s |> = set_cf s i cfd refs obsolete.
Proof. by destruct s. Qed.

Lemma set_cf_succ s i cfd refs obsolete :
  (set_cf s i cfd refs obsolete) <| current_version_number_ := Z.succ (current_version_number_ s) |> =
  (set_cf s i cfd refs obsolete) <| current_version_number_ ::= Z.succ |>.
Proof. by destruct s. Qed.

Lemma inv_cf s p i cfd : inv (mkState s p) -> column_family_set_ s !! i = Some cfd ->
  cf_sound (current_version_number_ s) cfd /\ current_ok cfd /\
  heap_ok (cf_versions cfd ++ other_versions s i) (vs_refs s) (obsolete_list (mkState s p)) /\
  Z.of_nat (length (cf_versions cfd ++ other_versions s i)) < 2 ^ 31.
Proof.
  intros [Hh Hcfs Hb] Hi. rewrite list.Forall_forall in Hcfs.
  destruct (Hcfs cfd) as [? ?]; [by eapply list_elem_of_lookup_2|]. cbn in *.
  pose proof (all_versions_split s i cfd Hi) as Hp. split_and!; try done.
  - by eapply heap_ok_Permutation; [exact Hp|done|].
  - by rewrite <- Hp.
Qed.

Lemma step_unref_inv s p i cfd id v last cfd' refs obsolete : inv (mkState s p) ->
  column_family_set_ s !! i = Some cfd -> find_version id (cf_versions cfd) = Some v ->
  (cf_current_ cfd = Some id -> 1 < ver_refs_ v) ->
  Version_Unref id cfd (vs_refs s) (obsolete_files_ s) = Some (last, (cfd', refs, obsolete)) ->
  inv (mkState (set_cf s i cfd' refs obsolete) p).
Proof.
  intros Hinv Hi Hf Hlegal E. destruct (inv_cf s p i cfd Hinv Hi) as (Hcf & Hcur & Hh & Hb).
  destruct (unref_sound _ cfd (other_versions s i) (vs_refs s) _ (obsolete_files_ s) id v Hcf Hh Hb Hf)
    as (last' & cfd1 & refs1 & news & E' & Hh' & Hcf' & Hcur' & _ & Hlen & Hids).
  rewrite E in E'. injection E' as <- <- <- ->. rewrite <- set_cf_same.
  apply (inv_set_cf s p i cfd); try done.
  - intros id' Eid. rewrite Hcur' in Eid. apply Hids; [by apply Hcur|].
    destruct (decide (id' = id)) as [->|]; [right; by apply Hlegal|by left].
  - rewrite length_app in *. lia.
Qed.

Lemma step_ref_inv s p i cfd id v cfd' : inv (mkState s p) ->
  column_family_set_ s !! i = Some cfd -> find_version id (cf_versions cfd) = Some v ->
  ver_refs_ v < 2 ^ 31 - 1 -> Version_Ref id cfd = Some cfd' ->
  inv (mkState (set_cf s i cfd' (vs_refs s) (obsolete_files_ s)) p).
Proof.
  intros Hinv Hi Hf Hlt E. destruct (inv_cf s p i cfd Hinv Hi) as (Hcf & Hcur & Hh & Hb).
  unfold Version_Ref in E. rewrite Hf in E. injection E as <-.
  destruct (find_version_Some _ _ _ Hf) as [Hv _]. pose proof (cn_versions _ _ Hcf) as Hvs.
  rewrite list.Forall_forall in Hvs. destruct (Hvs v Hv) as [_ Hr].
  rewrite <- (app_nil_r (obsolete_files_ s)). rewrite <- set_cf_same. apply (inv_set_cf s p i cfd); try done.
  - rewrite app_nil_r. unfold modify. cbn. apply (heap_ok_count (cf_versions cfd ++ other_versions s i)); [|done].
    intros a. by rewrite !count_app, set_refs_count.
  - apply cf_sound_refs; [|done]. rewrite s32_id; [lia|]. unfold is_s32. lia.
  - intros id' Eid. unfold modify. cbn. rewrite set_refs_numbers. by apply Hcur.
  - unfold modify. cbn. rewrite length_app in *. unfold set_version_refs. by rewrite length_map.
Qed.

Lemma step_install_inv s p i cfd id current es (w : World M) r w1 force requirement v refs1 w2 cfd' refs obsolete :
  inv (mkState s p) -> column_family_set_ s !! i = Some cfd ->
  find_version id (cf_versions cfd) = Some current ->
  edits_ok c es -> Forall (fun e => Forall (path_ok (cf_paths cfd)) (new_files_ e)) es ->
  Z.of_nat (length (all_versions s)) < 2 ^ 31 - 1 -> w_refs w = vs_refs s ->
  for_each (Apply c object_usage) (Rep_new (storage_info_ current), w) es = Some (OK, (r, w1)) ->
  CheckConsistencyForNumLevels r = true ->
  SaveTo c r (VersionStorageInfo_make (num_levels_ (storage_info_ current)) (Some (storage_info_ current))
                force requirement, w_refs w1) = Some (OK, (v, refs1)) ->
  CheckConsistencyDetails c v = OK ->
  Rep_destroy object_usage r (mkWorld refs1 (w_released w1) (file_metadata_cache_res_mgr_ w1)) = Some w2 ->
  AppendVersion (Version_new (current_version_number_ s) (GenerateFileLocationIndex v))
    cfd (w_refs w2) (obsolete_files_ s) = Some (cfd', refs, obsolete) ->
  inv (mkState ((set_cf s i cfd' refs obsolete) <| current_version_number_ ::= Z.succ |>) p).
Proof.
  intros Hinv Hi Hf Hes Hpaths Hb1 Hw Happly Hlev Hsave Hcheck Hdestroy Happend.
  destruct (inv_cf s p i cfd Hinv Hi) as (Hcf & Hcur & Hh & Hb).
  destruct (find_version_Some _ _ _ Hf) as [Hv _]. pose proof Hcf as [_ _ _ Hvs Hps].
  rewrite list.Forall_forall in Hvs, Hps. destruct (Hvs current Hv) as [Hsv _]. specialize (Hps current Hv).
  assert (Hready : ready c (storage_info_ current) (vs_refs s)).
  { apply (sound_ready current (cf_versions cfd ++ other_versions s i) _ (obsolete_list (mkState s p))); [done| |done].
    apply elem_of_app. by left. }
  destruct (install_sound (storage_info_ current) (vs_refs s) es w r w1 force requirement v OK refs1 w2 (cf_paths cfd))
    as (Hnv & Hrefs & Horigin & Hpv); try done.
  set (x := Version_new (current_version_number_ s) (GenerateFileLocationIndex v)) in *.
  assert (Hx : addrs x = fp_addr <$> mjoin (files_ v)).
  { unfold addrs, x. cbn [storage_info_ Version_new]. by rewrite version_files_all by apply Hnv. }
  pose proof (all_versions_split s i cfd Hi) as Hsplit.
  assert (Hadd : heap_ok (x :: cf_versions cfd ++ other_versions s i) (w_refs w2) (obsolete_list (mkState s p))).
  { apply (heap_add x _ (vs_refs s)); [done|by rewrite <- Hsplit|by rewrite Hx|].
    intros a. rewrite Hx. intros (f & -> & Hin)%list_elem_of_fmap.
    destruct (Horigin f Hin) as [[l Hl]|?]; [left|by right]. apply (count_pos _ current).
    - apply elem_of_app. by left.
    - unfold addrs. rewrite version_files_all by apply Hsv. by apply list_elem_of_fmap_2, (on_level_concat _ l). }
  destruct (append_sound (current_version_number_ s) cfd (other_versions s i) (w_refs w2)
    (obsolete_list (mkState s p)) (obsolete_files_ s) x)
    as (cfd1 & refs2 & news & E & Hh' & Hcf' & Hcur' & Hlen); try done.
  { cbn [length]. rewrite <- Hsplit. lia. }
  rewrite Happend in E. injection E as <- <- ->. rewrite <- set_cf_succ.
  apply (inv_set_cf s p i cfd); try done; [lia|].
  rewrite Hsplit in Hb1. rewrite length_app in *. lia.
Qed.

Lemma empty_version_sound levels force requirement : 0 <= levels ->
  version_sound (GenerateFileLocationIndex (VersionStorageInfo_make levels None force requirement)).
Proof.
  intros Hl. set (v := VersionStorageInfo_make levels None force requirement).
  assert (Hj : mjoin (files_ v) = []).
  { cbn. induction (Z.to_nat levels) as [|n IH]; [done|]. exact IH. }
  assert (Hv : version_ok v).
  { constructor; rewrite ?Hj; cbn; rewrite ?length_replicate; try done; constructor. }
  assert (Hr : Forall (range_ok c) (mjoin (files_ v))) by (by rewrite Hj).
  assert (Hc : consistent c v).
  { apply check_details_exact; [done|done|done|]. unfold CheckConsistencyDetails. cbn.
    destruct (Z.to_nat levels); [done|]. cbn. by rewrite check_levels_empty. }
  assert (Hready : ready c (GenerateFileLocationIndex v) ∅).
  { apply ready_indexed; try done.
    - rewrite Hj. apply NoDup_nil_2.
    - rewrite Hj. intros a Ha. by apply elem_of_nil in Ha. }
  by destruct Hready.
Qed.

Lemma step_create_inv s p levels force requirement paths mgr cfd refs obsolete : inv (mkState s p) ->
  0 <= levels -> Z.of_nat (length (all_versions s)) < 2 ^ 31 - 1 ->
  AppendVersion
    (Version_new (current_version_number_ s)
       (GenerateFileLocationIndex (VersionStorageInfo_make levels None force requirement)))
    {| cf_initialized := true; cf_versions := []; cf_current_ := None; cf_paths := paths; cf_res_mgr_ := mgr |}
    (vs_refs s) (obsolete_files_ s) = Some (cfd, refs, obsolete) ->
  inv (mkState (s <| column_family_set_ ::= fun l => l ++ [cfd] |> <| vs_refs := refs |>
                  <| obsolete_files_ := obsolete |> <| current_version_number_ ::= Z.succ |>) p).
Proof.
  intros [Hh Hcfs Hb] Hl Hb1 E. cbn [st_set] in *.
  set (x := Version_new (current_version_number_ s) _) in E.
  pose proof (empty_version_sound levels force requirement Hl) as Hx.
  assert (Hempty : version_files (storage_info_ x) = []).
  { unfold x. cbn [storage_info_ Version_new]. rewrite version_files_all by apply Hx. cbn.
    induction (Z.to_nat levels) as [|n IH]; [done|]. exact IH. }
  unfold AppendVersion in E. injection E as <- <- <-.
  assert (Hp : all_versions s ++ [x <| ver_refs_ := s32 (ver_refs_ x + 1) |>] ≡ₚ
                 x <| ver_refs_ := s32 (ver_refs_ x + 1) |> :: all_versions s)
    by (symmetry; apply Permutation_cons_append).
  assert (Hall : forall cfd' : ColumnFamilyData, mjoin (cf_versions <$> (column_family_set_ s ++ [cfd'])) =
                   all_versions s ++ cf_versions cfd').
  { intros cfd'. rewrite fmap_app, join_app. cbn. by rewrite app_nil_r. }
  constructor; cbn [st_set].
  - unfold all_versions. cbn. rewrite Hall. cbn.
    eapply heap_ok_Permutation; [symmetry; exact Hp|done|].
    apply (heap_ok_count (all_versions s)); [|exact Hh]. intros a. rewrite count_cons, decide_False; [done|].
    unfold addrs. unfold modify. cbn [storage_info_]. change (storage_info_ x) with (storage_info_ x).
    rewrite Hempty. apply not_elem_of_nil.
  - cbn. apply list.Forall_app. split.
    + apply (list.Forall_impl _ _ _ Hcfs). intros y [[H0 H1 H2 H3 H4] ?]. split; [|done]. constructor; try done.
      apply (list.Forall_impl _ _ _ H2). cbn. intros. lia.
    + apply list.Forall_singleton. split.
      * constructor; unfold modify; cbn [cf_versions cf_paths cf_current_ cf_initialized app]; [done|..].
        -- apply NoDup_singleton.
        -- apply list.Forall_singleton. cbn. lia.
        -- apply list.Forall_singleton. split; [done|]. cbn [x ver_refs_ Version_new]. change (s32 (0 + 1)) with 1. lia.
        -- apply list.Forall_singleton. cbn [storage_info_]. rewrite Hempty. constructor.
      * intros id [= <-]. unfold modify. cbn. by apply list_elem_of_singleton.
  - unfold all_versions. cbn. rewrite Hall, length_app. cbn. lia.
Qed.

Lemma filter_split {A : Type} (f : A -> bool) (l : list A) :
  filter (fun x => f x = false) l ++ filter (fun x => f x = true) l ≡ₚ l.
Proof.
  induction l as [|x l IH]; [done|]. rewrite !list.filter_cons. destruct (f x) eqn:E.
  - rewrite decide_False, decide_True by done. rewrite <- Permutation_middle. by constructor.
  - rewrite decide_True, decide_False by done. cbn. by constructor.
Qed.

Lemma step_get_obsolete_inv s p min_pending_output files blobs manifests s' : inv (mkState s p) ->
  GetObsoleteFiles s min_pending_output = ((files, blobs, manifests), s') -> inv (mkState s' (p ++ files)).
Proof.
  intros [Hh Hcfs Hb] [= <- _ _ <-]. constructor; [|exact Hcfs|exact Hb].
  eapply heap_ok_Permutation; [reflexivity| |exact Hh]. unfold obsolete_list. cbn.
  rewrite !fmap_app. rewrite <- !list_fmap_compose.
  change (of_metadata ∘ ObsoleteFileInfo_move) with of_metadata.
  rewrite (Permutation_app_comm (of_metadata <$> p)), app_assoc. apply Permutation_app_tail.
  rewrite <- fmap_app. symmetry. apply fmap_Permutation.
  apply (filter_split (fun fi => bool_decide (FileNumber (of_metadata fi) < min_pending_output))).
Qed.

Lemma step_free_inv s p1 fi p2 : inv (mkState s (p1 ++ fi :: p2)) ->
  inv (mkState (DeleteMetadata s fi) (p1 ++ p2)).
Proof.
  intros [Hh Hcfs Hb]. assert (E : exists u, DeleteMetadata s fi =
    s <| vs_unreserved := u |> <| vs_refs ::= delete (fp_addr (of_metadata fi)) |>).
  { unfold DeleteMetadata. destruct (of_res_mgr fi); [by eexists|exists (vs_unreserved s); by destruct s]. }
  destruct E as [u ->]. constructor; [|exact Hcfs|exact Hb]. cbn [st_set].
  apply heap_free. eapply heap_ok_Permutation; [reflexivity| |exact Hh]. unfold obsolete_list. cbn.
  change (of_metadata fi :: (of_metadata <$> (obsolete_files_ s ++ p1 ++ p2)))
    with (of_metadata <$> (fi :: obsolete_files_ s ++ p1 ++ p2)).
  apply fmap_Permutation. rewrite !app_assoc. symmetry. apply Permutation_middle.
Qed.

Lemma step_inv s s' : step s s' -> inv s -> inv s'.
Proof.
  intros Hs Hinv. destruct Hs.
  - by eapply step_create_inv.
  - by eapply step_install_inv.
  - by eapply step_ref_inv.
  - by eapply step_unref_inv.
  - destruct Hinv as [? ? ?]. by constructor.
  - by eapply step_get_obsolete_inv.
  - by apply step_free_inv.
  - destruct Hinv as [? ? ?]. by constructor.
Qed.

Lemma reachable_inv s : reachable s -> inv s.
Proof.
  induction 1 as [n|s s' _ IH Hs]; [|by eapply step_inv]. constructor; cbn; [|constructor|lia].
  constructor.
  - intros a Ha. cbn in Ha. lia.
  - intros f Hf. by apply elem_of_nil in Hf.
  - constructor.
  - intros a _ [x Hx]. by rewrite lookup_empty in Hx.
Qed.

(** ** Live and obsolete files *)

Definition tables_of (vs : list Version) : list Z :=
  mjoin ((fun v => FileNumber <$> version_files (storage_info_ v)) <$> vs).

Definition blobs_of (vs : list Version) : list Z :=
  mjoin ((fun v => GetBlobFileNumber <$> blob_files_ (storage_info_ v)) <$> vs).

Lemma fold_live vs live :
  fold_left (fun l v => Version_AddLiveFiles (storage_info_ v) l) vs live =
  (live.1 ++ tables_of vs, live.2 ++ blobs_of vs).
Proof.
  revert live. induction vs as [|v vs IH]; intros live.
  - cbn. by rewrite !app_nil_r; destruct live.
  - cbn [fold_left]. rewrite IH. unfold Version_AddLiveFiles, tables_of, blobs_of. cbn. by rewrite <- !app_assoc.
Qed.

Lemma current_found cfd id : current_ok cfd -> cf_current_ cfd = Some id ->
  bool_decide (is_Some (find_version id (cf_versions cfd))) = true.
Proof.
  intros Hc E. apply bool_decide_eq_true. destruct (find_version_elem id (cf_versions cfd) (Hc id E)) as [v ->]. by eexists.
Qed.

Lemma add_live_cfs next cfs live : Forall (fun cfd => cf_sound next cfd /\ current_ok cfd) cfs ->
  over_cfs cf_AddLiveFiles live cfs =
  Some (live.1 ++ tables_of (mjoin (cf_versions <$> cfs)), live.2 ++ blobs_of (mjoin (cf_versions <$> cfs))).
Proof.
  intros Hs. revert live. induction Hs as [|cfd cfs [Hc Hcur] Hs IH]; intros live.
  { cbn. by rewrite !app_nil_r; destruct live. }
  assert (E : cf_AddLiveFiles live cfd = Some (live.1 ++ tables_of (cf_versions cfd), live.2 ++ blobs_of (cf_versions cfd))).
  { unfold cf_AddLiveFiles. rewrite (cn_initialized _ _ Hc), fold_live. cbn [negb].
    destruct (cf_current_ cfd) as [id|] eqn:Ec; [|done]. by rewrite (current_found cfd id Hcur Ec). }
  cbn [over_cfs]. rewrite E. cbn [mbind option_bind]. rewrite IH. cbn [fst snd]. rewrite <- !app_assoc.
  unfold tables_of, blobs_of. rewrite fmap_cons. cbn [mjoin list_join]. by rewrite !fmap_app, !join_app.
Qed.

Definition mark (live : list Z) (fi : ObsoleteFileInfo) : ObsoleteFileInfo :=
  if bool_decide (FileNumber (of_metadata fi) ∈ live) then fi <| only_delete_metadata := true |> else fi.

Lemma mark_app l l' fi : mark l' (mark l fi) = mark (l ++ l') fi.
Proof.
  unfold mark. rewrite (bool_decide_ext _ _ (elem_of_app l l' (FileNumber (of_metadata fi)))).
  repeat case_bool_decide; cbn in *; tauto || done.
Qed.

Lemma location_found v n : version_sound v ->
  negb (FileLocation_eqb (GetFileLocation v n) FileLocation_Invalid) = bool_decide (n ∈ FileNumber <$> version_files v).
Proof.
  intros [Hv _ _ Hi _]. unfold GetFileLocation. rewrite version_files_all by done.
  destruct (file_locations_ v !! n) as [[l p]|] eqn:E; cbn [default from_option id].
  - apply Hi in E as (Hp & fs & f & Hl & Hf & <-). rewrite bool_decide_eq_true_2.
    + unfold FileLocation_eqb. cbn. apply LevelFiles_Some in Hl as [Hl _].
      by rewrite (proj2 (Z.eqb_neq l (-1))) by lia.
    + apply list_elem_of_fmap_2, (on_level_concat v l). exists fs. split; [done|by eapply list_elem_of_lookup_2].
  - rewrite bool_decide_eq_false_2; [done|].
    intros (f & -> & (fs & Hf & [i Hfs]%list_elem_of_lookup)%list_elem_of_join)%list_elem_of_fmap.
    apply list_elem_of_lookup in Hf as [j Hj].
    enough (file_locations_ v !! FileNumber f = Some {| loc_level_ := Z.of_nat i; loc_position_ := Z.of_nat j |}) by congruence.
    apply Hi. split; [lia|]. exists fs, f. rewrite LevelFiles_Some, !Nat2Z.id. split_and!; done || lia.
Qed.

Lemma blob_found v n : version_sound v ->
  GetBlobFileMetaData v n = None <-> n ∉ GetBlobFileNumber <$> blob_files_ v.
Proof.
  intros [Hv _ _ _ _]. split.
  - intros E (b & -> & Hb)%list_elem_of_fmap.
    assert (Hs : GetBlobFileMetaData v (GetBlobFileNumber b) = Some b)
      by (by apply GetBlobFileMetaData_Some; [apply (vo_blobs v Hv)|]). congruence.
  - intros Hn. destruct (GetBlobFileMetaData v n) as [b|] eqn:E; [|done].
    apply GetBlobFileMetaData_Some in E as [Hb <-]; [|apply (vo_blobs v Hv)]. destruct Hn. by apply list_elem_of_fmap_2.
Qed.

Lemma remove_live_version v cs : version_sound v ->
  Version_RemoveLiveFiles v cs =
  (mark (FileNumber <$> version_files v) <$> cs.1,
   filter (fun x => ob_number x ∉ GetBlobFileNumber <$> blob_files_ v) cs.2).
Proof.
  intros Hv. unfold Version_RemoveLiveFiles. f_equal.
  - apply list_fmap_ext. intros i fi _. rewrite location_found by done. unfold mark.
    destruct fi as [m p [|]]; cbn; by case_bool_decide.
  - induction cs.2 as [|b bs IH]; [done|]. rewrite !list.filter_cons, IH.
    pose proof (blob_found v (ob_number b) Hv). repeat case_decide; tauto || done.
Qed.

Lemma filter_both {A : Type} (P Q : A -> Prop) `{!forall x, Decision (P x), !forall x, Decision (Q x)} (l : list A) : filter Q (filter P l) = filter (fun x => P x /\ Q x) l.
Proof.
  induction l as [|x l IH]; [done|]. rewrite (list.filter_cons P), (list.filter_cons (fun x => P x /\ Q x)).
  repeat case_decide; rewrite ?list.filter_cons, ?IH; repeat case_decide; tauto || done.
Qed.

Lemma filter_same {A : Type} (P Q : A -> Prop) `{!forall x, Decision (P x), !forall x, Decision (Q x)} (l : list A) :
  (forall x, P x <-> Q x) -> filter P l = filter Q l.
Proof.
  intros HPQ. induction l as [|x l IH]; [done|]. rewrite !list.filter_cons, IH. specialize (HPQ x).
  repeat case_decide; tauto || done.
Qed.

Lemma remove_live_versions vs cs : Forall (fun v => version_sound (storage_info_ v)) vs ->
  fold_left (fun l v => Version_RemoveLiveFiles (storage_info_ v) l) vs cs =
  (mark (tables_of vs) <$> cs.1, filter (fun x => ob_number x ∉ blobs_of vs) cs.2).
Proof.
  intros Hs. revert cs. induction Hs as [|v vs Hv Hs IH]; intros [fs bs].
  - cbn. f_equal.
    + symmetry. rewrite <- (list_fmap_id fs) at 2. apply list_fmap_ext. intros i x _. unfold mark.
      by rewrite bool_decide_eq_false_2 by apply not_elem_of_nil.
    + symmetry. apply filter_all, list.Forall_forall. intros x _. apply not_elem_of_nil.
  - cbn [fold_left]. rewrite IH, remove_live_version by done. cbn [fst snd]. f_equal.
    + rewrite <- list_fmap_compose. apply list_fmap_ext. intros i x _. cbn. apply mark_app.
    + rewrite filter_both. apply filter_same. intros x.
      change (blobs_of (v :: vs)) with ((GetBlobFileNumber <$> blob_files_ (storage_info_ v)) ++ blobs_of vs).
      rewrite elem_of_app. tauto.
Qed.

Lemma remove_live_cfs next cfs cs : Forall (fun cfd => cf_sound next cfd /\ current_ok cfd) cfs ->
  over_cfs cf_RemoveLiveFiles cs cfs =
  Some (mark (tables_of (mjoin (cf_versions <$> cfs))) <$> cs.1,
        filter (fun x => ob_number x ∉ blobs_of (mjoin (cf_versions <$> cfs))) cs.2).
Proof.
  intros Hs. rewrite <- remove_live_versions.
  2:{ apply list.Forall_forall. intros v (vs & Hv & (cfd & -> & Hcfd)%list_elem_of_fmap)%list_elem_of_join.
      rewrite list.Forall_forall in Hs. destruct (Hs cfd Hcfd) as [Hc _].
      pose proof (cn_versions _ _ Hc) as Hvs. rewrite list.Forall_forall in Hvs. by apply Hvs. }
  revert cs. induction Hs as [|cfd cfs [Hc Hcur] Hs IH]; intros cs; [done|].
  assert (E : cf_RemoveLiveFiles cs cfd =
                Some (fold_left (fun l v => Version_RemoveLiveFiles (storage_info_ v) l) (cf_versions cfd) cs)).
  { unfold cf_RemoveLiveFiles. rewrite (cn_initialized _ _ Hc). cbn [negb].
    destruct (cf_current_ cfd) as [id|] eqn:Ec; [|done]. by rewrite (current_found cfd id Hcur Ec). }
  cbn [over_cfs]. rewrite E. cbn [mbind option_bind]. rewrite IH, fmap_cons. cbn [mjoin list_join].
  by rewrite fold_left_app.
Qed.

End Steps.

(** ** Theorems *)

(** [C8] In every state a version set can reach, the reference count of the
    metadata of a file is the number of live versions that hold it; the files
    recorded as obsolete, or handed out to be purged, are held by no live
    version, each is recorded once, and every other file in memory is live, so
    that nothing leaks; and returning a reference to a live version never reads
    a freed object. *)
Theorem live_versions_counted (c : Comparator) `{!ComparatorOk c} {M : Type} `{!CacheReservationManager M}
    (object_usage : Z) (s : State) :
  reachable c (M := M) object_usage s ->
  (forall v f, v ∈ all_versions (st_set s) -> f ∈ version_files (storage_info_ v) ->
     vs_refs (st_set s) !! fp_addr f = Some (Z.of_nat (count (fp_addr f) (all_versions (st_set s))))) /\
  (forall f, f ∈ obsolete_list s ->
     (forall v, v ∈ all_versions (st_set s) -> fp_addr f ∉ addrs v) /\ vs_refs (st_set s) !! fp_addr f = Some 0) /\
  NoDup (fp_addr <$> obsolete_list s) /\
  (forall a, is_Some (vs_refs (st_set s) !! a) ->
     (exists v, v ∈ all_versions (st_set s) /\ a ∈ addrs v) \/ a ∈ fp_addr <$> obsolete_list s) /\
  (forall i cfd id v, column_family_set_ (st_set s) !! i = Some cfd ->
     find_version id (cf_versions cfd) = Some v ->
     is_Some (Version_Unref id cfd (vs_refs (st_set s)) (obsolete_files_ (st_set s)))).
Proof.
  intros Hr. pose proof (reachable_inv c object_usage s Hr) as Hinv. pose proof Hinv as [[H1 H2 H3 H4] _ _].
  split_and!.
  - intros v f Hv Hf. apply H1, (count_pos _ v); [done|]. by apply list_elem_of_fmap_2.
  - intros f Hf. destruct (H2 f Hf) as [E0 E1]. split; [|done]. intros v Hv Ha.
    pose proof (count_pos _ v _ Hv Ha). lia.
  - done.
  - intros a Ha. destruct (Nat.eq_dec (count a (all_versions (st_set s))) 0) as [E|E]; [right; by apply H4|left].
    apply count_pos_inv. lia.
  - intros i cfd id v Hi Hf. destruct s as [s p]. destruct (inv_cf c s p i cfd Hinv Hi) as (Hcf & _ & Hh & Hb).
    destruct (unref_sound c _ cfd (other_versions s i) (vs_refs s) _ (obsolete_files_ s) id v Hcf Hh Hb Hf)
      as (last & cfd1 & refs1 & news & E & _). cbn in *. rewrite E. by eexists.
Qed.

(** [C16] In every reachable state [AddLiveFiles] lists exactly the files of the
    live versions, and [RemoveLiveFiles] protects exactly them: the candidates
    whose number a live version uses keep their file, also when it is under
    other metadata, and the blob files that a live version uses are no longer
    candidates. *)
Theorem live_files_exact (c : Comparator) `{!ComparatorOk c} {M : Type} `{!CacheReservationManager M}
    (object_usage : Z) (s : State) (files : list ObsoleteFileInfo) (blobs : list ObsoleteBlobFileInfo) :
  reachable c (M := M) object_usage s ->
  let vs := all_versions (st_set s) in
  AddLiveFiles (st_set s) ([], []) = Some (tables_of vs, blobs_of vs) /\
  RemoveLiveFiles (st_set s) (files, blobs) =
    Some ((fun fi => if bool_decide (FileNumber (of_metadata fi) ∈ tables_of vs)
                     then fi <| only_delete_metadata := true |> else fi) <$> files,
          filter (fun b => ob_number b ∉ blobs_of vs) blobs).
Proof.
  intros Hr. pose proof (reachable_inv c object_usage s Hr) as [_ Hcfs _]. split.
  - apply (add_live_cfs c _ _ ([], []) Hcfs).
  - apply (remove_live_cfs c _ _ (files, blobs) Hcfs).
Qed.

(** ** Examples *)

(** A column family with two levels, and a file installed on level 1. *)
Definition ex_install : list VersionEdit := [AddFile VersionEdit_new 1 (ex_meta 6 Byte.x67 Byte.x7a 40 2 0)].

Lemma ex_install_ok : edits_ok BytewiseComparator ex_install.
Proof. split; repeat constructor; vm_compute; done. Qed.

Ltac compute_step := vm_compute; reflexivity.

(** Installs edits on the first column family, computing the states. *)
Ltac install es es_ok :=
  eapply (step_install _ _ _ _ 0 _ _ _ es (mkWorld _ [] None) _ _ true kMustPresent);
  [compute_step|compute_step|compute_step|exact es_ok|repeat constructor; vm_compute; eauto|vm_compute; done
  |compute_step|compute_step|compute_step|compute_step|compute_step|compute_step|compute_step].

Lemma ex_reachable : exists s,
  reachable BytewiseComparator (M := unit) 0 s /\ tables_of (all_versions (st_set s)) = [6] /\
  length (all_versions (st_set s)) = 1%nat.
Proof.
  eexists. split; [|split].
  - eapply reachable_step.
    + eapply reachable_step; [apply (reachable_start _ _ 0)|].
      apply (step_create _ _ _ _ 2 true kMustPresent [[Byte.x2f]] true); [lia|vm_compute; done|compute_step].
    + install ex_install ex_install_ok.
  - compute_step.
  - compute_step.
Qed.

Lemma live_versions_counted_witness : exists s v f,
  v ∈ all_versions (st_set s) /\ f ∈ version_files (storage_info_ v) /\
  vs_refs (st_set s) !! fp_addr f = Some 1.
Proof.
  destruct ex_reachable as (s & Hr & Ht & Hl).
  destruct (live_versions_counted BytewiseComparator 0 s Hr) as (H & _).
  assert (Hin : 6 ∈ tables_of (all_versions (st_set s))) by (rewrite Ht; by left).
  unfold tables_of in Hin. apply list_elem_of_join in Hin as (ns & Hn & Hin).
  apply list_elem_of_fmap in Hin as (v & -> & Hv). apply list_elem_of_fmap in Hn as (f & _ & Hf).
  exists s, v, f. split; [done|]. split; [done|]. rewrite (H v f Hv Hf). f_equal.
  destruct (all_versions (st_set s)) as [|x [|]]; [done| |done]. apply list_elem_of_singleton in Hv as ->.
  unfold count. rewrite list.filter_cons, decide_True; [done|]. by apply list_elem_of_fmap_2.
Defined.

Lemma live_files_exact_witness :
  exists s, AddLiveFiles (st_set s) ([], []) = Some ([6], blobs_of (all_versions (st_set s))).
Proof.
  destruct ex_reachable as (s & Hr & Ht & _). exists s.
  destruct (live_files_exact BytewiseComparator 0 s [] [] Hr) as [E _]. rewrite Ht in E. exact E.
Defined.

(** Deleting the file again: no version holds it, it is obsolete. *)
Definition ex_uninstall : list VersionEdit := [DeleteFile VersionEdit_new 1 6].

Lemma ex_uninstall_ok : edits_ok BytewiseComparator ex_uninstall.
Proof. split; repeat constructor; vm_compute; done. Qed.

Lemma ex_obsolete : exists s,
  reachable BytewiseComparator (M := unit) 0 (mkState s []) /\ tables_of (all_versions s) = [] /\
  (fun fi => FileNumber (of_metadata fi)) <$> obsolete_files_ s = [6] /\
  obsolete_blob_files_ s = [] /\ obsolete_manifests_ s = [].
Proof.
  eexists. split; [|split_and!].
  - eapply reachable_step.
    + eapply reachable_step.
      * eapply reachable_step; [apply (reachable_start _ _ 0)|].
        apply (step_create _ _ _ _ 2 true kMustPresent [[Byte.x2f]] true); [lia|vm_compute; done|compute_step].
      * install ex_install ex_install_ok.
    + install ex_uninstall ex_uninstall_ok.
  - compute_step.
  - compute_step.
  - compute_step.
  - compute_step.
Qed.
