(* ===== verification/PurgeFiles.v ===== *)
(** * Finding and deleting obsolete files

    db/db_impl/db_impl_files.cc: [FindObsoleteFiles] collects candidates, from
    the obsolete files of the version set or from a scan of the directories, and
    [PurgeObsoleteFiles] decides which of them to delete.

    The file system is a function from directories to names. The mutex is held
    in [FindObsoleteFiles] until the writers of old logs are released; no other
    thread runs there, and the wait for logs that are being synced is over. The
    job's number, which only goes to the log, is left out. *)

From stdpp Require Import gmap.
From S2P Require Import Prelude Records StdMap Slice VersionEdit VersionStorage FileName VersionLive.

(** ** State *)

(** [PurgeFileInfo]. *)
Record PurgeFileInfo := {
  pu_fname : bytes;
  pu_dir_to_sync : bytes;
  pu_type : FileType;
  pu_number : Z
}.

(** The options that matter. *)
Record DBOptions := {
  dbname_ : bytes;
  db_paths : list bytes;
  wal_dir : bytes;
  db_log_dir : bytes;
  recycle_log_file_num : Z;
  WAL_ttl_seconds : Z;
  WAL_size_limit_MB : Z;
  keep_log_file_num : Z;
  delete_obsolete_files_period_micros : Z;
  own_files : bool
}.

(** A log file and its size ([LogFileNumberSize]). *)
Record LogFile := { lf_number : Z; lf_size : Z }.

Record DBImpl := {
  versions_ : VersionSet;
  disable_delete_obsolete_files_ : Z;
  delete_obsolete_files_last_run_ : Z;
  pending_outputs_ : list Z;
  quarantined : list Z;
  files_grabbed_for_purge_ : gset Z;
  purge_files_ : gmap Z PurgeFileInfo;
  manifest_file_number_ : Z;
  pending_manifest_file_number_ : Z;
  min_log_number_to_keep_ : Z;
  prev_log_number_ : Z;
  alive_log_files_ : list LogFile;
  logs_ : list Z;
  logs_to_free_ : list Z;
  log_recycle_files_ : list Z;
  total_log_size_ : Z;
  reject_new_background_jobs_ : bool;
  pending_purge_obsolete_files_ : Z;
  bg_purge_scheduled_ : Z;
  logs_to_free_queue_ : list Z
}.

#[export] Instance DBImpl_Settable : Settable DBImpl :=
  fun r => Build_DBImpl
    (versions_ r) (disable_delete_obsolete_files_ r) (delete_obsolete_files_last_run_ r)
    (pending_outputs_ r) (quarantined r) (files_grabbed_for_purge_ r) (purge_files_ r)
    (manifest_file_number_ r) (pending_manifest_file_number_ r) (min_log_number_to_keep_ r)
    (prev_log_number_ r) (alive_log_files_ r) (logs_ r) (logs_to_free_ r) (log_recycle_files_ r) (total_log_size_ r)
    (reject_new_background_jobs_ r) (pending_purge_obsolete_files_ r)
    (bg_purge_scheduled_ r) (logs_to_free_queue_ r).

Record CandidateFileInfo := { file_name : bytes; file_path : bytes }.

#[export] Instance CandidateFileInfo_eq_dec : EqDecision CandidateFileInfo.
Proof. solve_decision. Defined.

Record JobContext := {
  full_scan_candidate_files : list CandidateFileInfo;
  sst_live : list Z;
  sst_delete_files : list ObsoleteFileInfo;
  blob_live : list Z;
  blob_delete_files : list ObsoleteBlobFileInfo;
  log_delete_files : list Z;
  log_recycle_files : list Z;
  files_to_quarantine : list Z;
  manifest_delete_files : list bytes;
  logs_to_free : list Z;
  manifest_file_number : Z;
  pending_manifest_file_number : Z;
  log_number : Z;
  prev_log_number : Z;
  min_pending_output : Z;
  prev_total_log_size : Z;
  num_alive_log_files : Z;
  size_log_to_delete : Z
}.

#[export] Instance JobContext_Settable : Settable JobContext :=
  fun r => Build_JobContext
    (full_scan_candidate_files r) (sst_live r) (sst_delete_files r) (blob_live r)
    (blob_delete_files r) (log_delete_files r) (log_recycle_files r) (files_to_quarantine r)
    (manifest_delete_files r) (logs_to_free r) (manifest_file_number r)
    (pending_manifest_file_number r) (log_number r) (prev_log_number r) (min_pending_output r)
    (prev_total_log_size r) (num_alive_log_files r) (size_log_to_delete r).

Definition JobContext_new : JobContext := {|
  full_scan_candidate_files := []; sst_live := []; sst_delete_files := []; blob_live := [];
  blob_delete_files := []; log_delete_files := []; log_recycle_files := []; files_to_quarantine := [];
  manifest_delete_files := []; logs_to_free := []; manifest_file_number := 0;
  pending_manifest_file_number := 0; log_number := 0; prev_log_number := 0; min_pending_output := 0;
  prev_total_log_size := 0; num_alive_log_files := 0; size_log_to_delete := 0 |}.

Definition HaveSomethingToDelete (j : JobContext) : bool :=
  negb ((slen (full_scan_candidate_files j) =? 0) && (slen (sst_delete_files j) =? 0) &&
        (slen (blob_delete_files j) =? 0) && (slen (log_delete_files j) =? 0) &&
        (slen (manifest_delete_files j) =? 0)).

(** [operator<] of strings. *)
Definition bytes_lt (a b : bytes) : bool := compare a b <? 0.

(** [std::set<std::string>::insert]. *)
Definition string_set_insert (p : bytes) (l : list bytes) : list bytes :=
  if bool_decide (p ∈ l) then l else sort_insert bytes_lt p l.

(** ** Small operations *)

Definition MinObsoleteSstNumberToKeep (db : DBImpl) : Z :=
  match pending_outputs_ db with n :: _ => n | [] => 2 ^ 64 - 1 end.

Definition ShouldPurge (db : DBImpl) (file_number : Z) : bool :=
  bool_decide (file_number ∉ files_grabbed_for_purge_ db) &&
  bool_decide (purge_files_ db !! file_number = None).

Definition MarkAsGrabbedForPurge (db : DBImpl) (file_number : Z) : DBImpl :=
  db <| files_grabbed_for_purge_ ::= fun s => {[file_number]} ∪ s |>.

Definition SchedulePendingPurge (db : DBImpl) (info : PurgeFileInfo) : DBImpl :=
  if reject_new_background_jobs_ db then db
  else db <| purge_files_ ::= emplace (pu_number info) info |>.

Definition SchedulePurge (db : DBImpl) : DBImpl :=
  db <| bg_purge_scheduled_ ::= fun n => s32 (n + 1) |>.

(** [BackgroundCallPurge]: the writers of the queue are deleted, then the
    scheduled files. Super versions, which wait in a queue of their own, are not
    modelled. *)
Definition BackgroundCallPurge (db : DBImpl) : (list Z * list PurgeFileInfo) * DBImpl :=
  ((logs_to_free_queue_ db, (map_to_list (purge_files_ db)).*2),
   db <| logs_to_free_queue_ := [] |> <| purge_files_ := ∅ |>
      <| bg_purge_scheduled_ ::= fun n => s32 (n - 1) |>).

Definition DisableFileDeletionsWithLock (db : DBImpl) : DBImpl :=
  db <| disable_delete_obsolete_files_ ::= fun n => s32 (n + 1) |>.

Section Files.

Context (opts : DBOptions).

(** [GetChildren] of the file system (an error gives no names), the clock, and
    whether the directory of logs is the database's ([AreFilesSame]). *)
Context (GetChildren : bytes -> list bytes) (NowMicros : Z) (AreFilesSame : bytes -> bytes -> bool).

(** What the output variables of [ParseFileName] hold before a call, which is
    whatever the stack holds; only the name tells the calls apart. *)
Context (junk : bytes -> ParseOut).

Definition IsWalDirSameAsDBPath (db_path : bytes) : bool :=
  match wal_dir opts with [] => true | _ => AreFilesSame (wal_dir opts) db_path end.

(** [GetWalDir]; without paths there is no first one. *)
Definition GetWalDir : option bytes :=
  match wal_dir opts with [] => head (db_paths opts) | _ => Some (wal_dir opts) end.

Definition info_log_prefix : bytes :=
  InfoLogPrefix (match db_log_dir opts with [] => false | _ => true end) (dbname_ opts).

Definition parse (fname : bytes) : option (Z * FileType) :=
  let '(recognized, o) := ParseFileName fname info_log_prefix (junk fname) in
  if (recognized : bool) then Some (po_number o, po_type o) else None.

(** *** FindObsoleteFiles *)

(** The decision for the full scan, and the clock if it was used. *)
Definition full_scan (db : DBImpl) (force no_full_scan : bool) : bool * DBImpl :=
  if no_full_scan then (false, db)
  else if force || (delete_obsolete_files_period_micros opts =? 0) then (true, db)
  else if u64 (delete_obsolete_files_last_run_ db + delete_obsolete_files_period_micros opts) <? NowMicros
  then (true, db <| delete_obsolete_files_last_run_ := NowMicros |>)
  else (false, db).

Definition all_paths (db : DBImpl) : list bytes :=
  fold_left (fun l cfd => fold_left (fun l p => string_set_insert p l) (cf_paths cfd) l)
    (column_family_set_ (versions_ db))
    (fold_left (fun l p => string_set_insert p l) (db_paths opts) []).

(** The recognized files of the directories that no other job is deleting. *)
Definition scan_path (db : DBImpl) (path : bytes) : list CandidateFileInfo :=
  omap (fun file =>
    match parse file with
    | Some (number, _) =>
        if ShouldPurge db number then Some {| file_name := str "/" ++ file; file_path := path |} else None
    | None => None
    end) (GetChildren path).

Definition scan_plain (path : bytes) : list CandidateFileInfo :=
  (fun file => {| file_name := file; file_path := path |}) <$> GetChildren path.

Definition scan (db : DBImpl) : list CandidateFileInfo :=
  mjoin (scan_path db <$> all_paths db) ++
  (if IsWalDirSameAsDBPath (dbname_ opts) then [] else scan_plain (wal_dir opts)) ++
  (if bool_decide (db_log_dir opts = []) || bool_decide (db_log_dir opts = dbname_ opts) then []
   else scan_plain (db_log_dir opts)).

(** The logs below the number to keep are recycled or deleted. The current log
    is never among them; an empty queue has no front. *)
Fixpoint retire_logs (alive : list LogFile) (num_alive : Z) (j : JobContext) (db : DBImpl)
    : option (JobContext * DBImpl) :=
  match alive with
  | [] => None
  | earliest :: rest =>
      if lf_number earliest <? log_number j then
        let '(j, db) :=
          if slen (log_recycle_files_ db) <? recycle_log_file_num opts
          then (j, db <| log_recycle_files_ ::= fun l => l ++ [lf_number earliest] |>)
          else (j <| log_delete_files ::= fun l => l ++ [lf_number earliest] |>, db) in
        let j := if size_log_to_delete j =? 0
                 then j <| prev_total_log_size := total_log_size_ db |> <| num_alive_log_files := num_alive |>
                 else j in
        retire_logs rest num_alive
          (j <| size_log_to_delete ::= fun n => u64 (n + lf_size earliest) |>)
          (db <| total_log_size_ ::= fun n => u64 (n - lf_size earliest) |> <| alive_log_files_ := rest |>)
      else Some (j, db)
  end.

(** The writers of logs below the number are released. *)
Fixpoint free_logs (min_log_number : Z) (logs : list Z) : list Z * list Z :=
  match logs with
  | n :: rest =>
      if n <? min_log_number then let '(freed, rest) := free_logs min_log_number rest in (n :: freed, rest)
      else ([], logs)
  | [] => ([], [])
  end.

(** The numbers and obsolete files of the moment are recorded in the job, and
    the files are marked as taken. *)
Definition grab_obsolete (db : DBImpl) (j : JobContext) : JobContext * DBImpl :=
  let '((files, blobs, manifests), vs) := GetObsoleteFiles (versions_ db) (MinObsoleteSstNumberToKeep db) in
  let db := db <| versions_ := vs |> in
  let db := fold_left (fun db fi => MarkAsGrabbedForPurge db (FileNumber (of_metadata fi))) files db in
  let db := fold_left (fun db b => MarkAsGrabbedForPurge db (ob_number b)) blobs db in
  (j <| min_pending_output := MinObsoleteSstNumberToKeep db |>
     <| files_to_quarantine := quarantined db |>
     <| sst_delete_files := files |> <| blob_delete_files := blobs |>
     <| manifest_delete_files := manifests |>
     <| manifest_file_number := manifest_file_number_ db |>
     <| pending_manifest_file_number := pending_manifest_file_number_ db |>
     <| log_number := min_log_number_to_keep_ db |>
     <| prev_log_number := prev_log_number_ db |>, db).

(** The live files and the directories, or the candidates without the live
    files. *)
Definition collect_live (db : DBImpl) (doing_the_full_scan : bool) (j : JobContext) : option JobContext :=
  if doing_the_full_scan then
    '(tables, blob_files) ← AddLiveFiles (versions_ db) (sst_live j, blob_live j);
    Some (j <| sst_live := tables |> <| blob_live := blob_files |>
            <| full_scan_candidate_files ::= fun l => l ++ scan db |>)
  else
    '(files, blobs) ← RemoveLiveFiles (versions_ db) (sst_delete_files j, blob_delete_files j);
    Some (j <| sst_delete_files := files |> <| blob_delete_files := blobs |>).

(** The cleanup on return: a job without files is not pending. *)
Definition leave (j : JobContext) (db : DBImpl) : JobContext * DBImpl :=
  (j, if HaveSomethingToDelete j then db
      else db <| pending_purge_obsolete_files_ ::= fun n => s32 (n - 1) |>).

Definition find_logs (j : JobContext) (db : DBImpl) : option (JobContext * DBImpl) :=
  match alive_log_files_ db, logs_ db with
  | [], _ | _, [] => Some (leave j db)
  | _, _ =>
      '(j, db) ← retire_logs (alive_log_files_ db) (slen (alive_log_files_ db)) j db;
      let '(freed, logs) := free_logs (log_number j) (logs_ db) in
      let j := j <| logs_to_free := logs_to_free_ db ++ freed |>
                 <| log_recycle_files := log_recycle_files_ db |> in
      Some (leave j (db <| logs_ := logs |> <| logs_to_free_ := [] |>))
  end.

Definition FindObsoleteFiles (db : DBImpl) (force no_full_scan : bool) (j : JobContext)
    : option (JobContext * DBImpl) :=
  if 0 <? disable_delete_obsolete_files_ db then Some (j, db)
  else
    let '(doing_the_full_scan, db) := full_scan db force no_full_scan in
    let '(j, db) := grab_obsolete db j in
    j ← collect_live db doing_the_full_scan j;
    find_logs j (db <| pending_purge_obsolete_files_ ::= fun n => s32 (n + 1) |>).

(** *** PurgeObsoleteFiles *)

(** What it does to the world, in order. *)
Inductive FileAction :=
| ReleaseHandle (h : Z)
| CloseLog (number : Z)
| EvictTable (number : Z)
| DeleteObsoleteFileImpl (info : PurgeFileInfo)
| ArchiveWALFile (fname : bytes) (number : Z)
| DeleteInfoLog (full_path : bytes)
| PurgeObsoleteWALFiles.

Definition candidate_lt (lhs rhs : CandidateFileInfo) : bool :=
  if bytes_lt (file_name lhs) (file_name rhs) then true
  else if bytes_lt (file_name rhs) (file_name lhs) then false
  else bytes_lt (file_path lhs) (file_path rhs).

(** [std::unique]: of equal neighbours the first stays. *)
Fixpoint unique_from (x : CandidateFileInfo) (l : list CandidateFileInfo) : list CandidateFileInfo :=
  match l with
  | [] => []
  | y :: l' => if bool_decide (x = y) then unique_from x l' else y :: unique_from y l'
  end.

Definition unique (l : list CandidateFileInfo) : list CandidateFileInfo :=
  match l with x :: l' => x :: unique_from x l' | [] => [] end.

Definition candidates (wal_dir : bytes) (j : JobContext) : list CandidateFileInfo :=
  unique (std_sort candidate_lt (
    full_scan_candidate_files j ++
    omap (fun fi => if only_delete_metadata fi then None
                    else Some {| file_name := MakeTableFileName_base (FileNumber (of_metadata fi));
                                 file_path := of_path fi |}) (sst_delete_files j) ++
    ((fun b => {| file_name := BlobFileName_base (ob_number b); file_path := ob_path b |}) <$> blob_delete_files j) ++
    omap (fun n => if 0 <? n then Some {| file_name := LogFileName_base n; file_path := wal_dir |} else None)
      (log_delete_files j) ++
    ((fun name => {| file_name := name; file_path := dbname_ opts |}) <$> manifest_delete_files j))).

(** The two largest numbers of options files. *)
Definition options_step (acc : Z * Z) (f : CandidateFileInfo) : Z * Z :=
  match parse (file_name f) with
  | Some (number, kOptionsFile) =>
      if acc.1 <? number then (number, acc.1)
      else if acc.2 <? number then (acc.1, number) else acc
  | _ => acc
  end.

(** [to_delete.find(kOptionsFileNamePrefix) != npos]. *)
Fixpoint contains (s x : bytes) : bool :=
  starts_with s x || match s with [] => false | _ :: s' => contains s' x end.

Definition keep (j : JobContext) (optsfile_num2 : Z) (to_delete : bytes) (number : Z) (type : FileType) : bool :=
  match type with
  | kWalFile => (log_number j <=? number) || (number =? prev_log_number j) ||
                bool_decide (number ∈ log_recycle_files j)
  | kDescriptorFile => manifest_file_number j <=? number
  | kTableFile => bool_decide (number ∈ sst_live j) || (min_pending_output j <=? number)
  | kBlobFile => (min_pending_output j <=? number) || bool_decide (number ∈ blob_live j)
  | kTempFile => bool_decide (number ∈ sst_live j) || bool_decide (number ∈ blob_live j) ||
                 (number =? pending_manifest_file_number j) || contains to_delete kOptionsFileNamePrefix
  | kInfoLogFile => true
  | kOptionsFile => optsfile_num2 <=? number
  | kCurrentFile | kDBLockFile | kIdentityFile | kMetaDatabase => true
  end.

Definition ends_with_slash (s : bytes) : bool :=
  match list.last s with Some c => ub c =? 47 | None => false end.
Definition begins_with_slash (s : bytes) : bool :=
  match s with c :: _ => ub c =? 47 | [] => false end.

(** The path of a file to delete and the directory to sync. *)
Definition purge_info (wal_dir : bytes) (f : CandidateFileInfo) (number : Z) (type : FileType) : PurgeFileInfo :=
  let '(fname, dir) :=
    match type with
    | kTableFile => (MakeTableFileName (file_path f) number, file_path f)
    | kBlobFile => (BlobFileName (file_path f) number, file_path f)
    | _ =>
        let dir := match type with kWalFile => wal_dir | _ => dbname_ opts end in
        (dir ++ (if ends_with_slash dir || begins_with_slash (file_name f) then [] else str "/") ++ file_name f, dir)
    end in
  {| pu_fname := fname; pu_dir_to_sync := dir; pu_type := type; pu_number := number |}.

(** What the loop keeps: the actions, the numbers to take from
    [files_grabbed_for_purge_], the old info logs, and the database. *)
Record PurgeLoop := {
  pl_actions : list FileAction;
  pl_files_to_del : list Z;
  pl_old_info_logs : list bytes;
  pl_db : DBImpl
}.

#[export] Instance PurgeLoop_Settable : Settable PurgeLoop :=
  fun r => Build_PurgeLoop
    (pl_actions r) (pl_files_to_del r) (pl_old_info_logs r) (pl_db r).

Definition purge_one (wal_dir : bytes) (j : JobContext) (schedule_only : bool) (optsfile_num2 : Z)
    (s : PurgeLoop) (f : CandidateFileInfo) : PurgeLoop :=
  match parse (file_name f) with
  | None => s
  | Some (number, type) =>
      if bool_decide (number ∈ files_to_quarantine j) then s
      else if keep j optsfile_num2 (file_name f) number type then
        match type with
        | kInfoLogFile => if number =? 0 then s else s <| pl_old_info_logs ::= fun l => l ++ [file_name f] |>
        | _ => s
        end
      else
        let s := match type with
                 | kTableFile => s <| pl_files_to_del ::= cons number |>
                                   <| pl_actions ::= fun l => l ++ [EvictTable number] |>
                 | kBlobFile => s <| pl_files_to_del ::= cons number |>
                 | _ => s
                 end in
        let info := purge_info wal_dir f number type in
        if bool_decide (type = kWalFile) && ((0 <? WAL_ttl_seconds opts) || (0 <? WAL_size_limit_MB opts))
        then s <| pl_actions ::= fun l => l ++ [ArchiveWALFile (pu_fname info) number] |>
        else if negb (own_files opts) then s
        else if schedule_only then s <| pl_db ::= fun db => SchedulePendingPurge db info |>
        else s <| pl_actions ::= fun l => l ++ [DeleteObsoleteFileImpl info] |>
  end.

(** The metadata of the obsolete files is freed. *)
Definition free_obsolete (files : list ObsoleteFileInfo) (db : DBImpl) : list FileAction * DBImpl :=
  (omap (fun fi => ReleaseHandle <$> table_reader_handle (fp_meta (of_metadata fi))) files,
   db <| versions_ ::= fun vs => fold_left DeleteMetadata files vs |>).

(** Old info logs but the newest [keep_log_file_num - 1]; the options are
    checked to be at least one. *)
Definition purge_info_logs (old_info_logs : list bytes) : list FileAction :=
  let count := slen old_info_logs in
  if negb (count =? 0) && (keep_log_file_num opts <=? count) then
    let dir := match db_log_dir opts with [] => dbname_ opts | d => d end in
    (fun f => DeleteInfoLog (dir ++ str "/" ++ f)) <$>
      take (Z.to_nat (count - keep_log_file_num opts + 1)) (std_sort bytes_lt old_info_logs)
  else [].

Definition PurgeObsoleteFiles (db : DBImpl) (j : JobContext) (schedule_only : bool)
    : option (list FileAction * DBImpl) :=
  match GetWalDir with
  | None => None
  | Some wal_dir =>
      let '(released, db) := free_obsolete (sst_delete_files j) db in
      let files := candidates wal_dir j in
      let '(_, optsfile_num2) := fold_left options_step files (0, 0) in
      let s := fold_left (purge_one wal_dir j schedule_only optsfile_num2) files
                 {| pl_actions := released ++ (CloseLog <$> logs_to_free j); pl_files_to_del := []; pl_old_info_logs := []; pl_db := db |} in
      let db := (pl_db s) <| files_grabbed_for_purge_ ::= fun g => g ∖ list_to_set (pl_files_to_del s) |>
                          <| pending_purge_obsolete_files_ ::= fun n => s32 (n - 1) |> in
      Some (pl_actions s ++ purge_info_logs (pl_old_info_logs s) ++ [PurgeObsoleteWALFiles],
            if schedule_only then SchedulePurge db else db)
  end.

(** [EnableFileDeletions]. *)
Definition EnableFileDeletions (db : DBImpl) : option (list FileAction * DBImpl) :=
  let db := if 0 <? disable_delete_obsolete_files_ db
            then db <| disable_delete_obsolete_files_ ::= fun n => s32 (n - 1) |> else db in
  if disable_delete_obsolete_files_ db =? 0 then
    '(j, db) ← FindObsoleteFiles db true false JobContext_new;
    if HaveSomethingToDelete j then PurgeObsoleteFiles db j false else Some ([], db)
  else Some ([], db).

(** [DeleteObsoleteFiles]; [defer_purge] is [avoid_unnecessary_blocking_io]. *)
Definition DeleteObsoleteFiles (db : DBImpl) (defer_purge : bool) : option (list FileAction * DBImpl) :=
  '(j, db) ← FindObsoleteFiles db true false JobContext_new;
  if HaveSomethingToDelete j then PurgeObsoleteFiles db j defer_purge else Some ([], db).
End Files.
