(* ===== verification/PurgeCorrect.v ===== *)
(** * Obsolete files are deleted, and no others

    [FindObsoleteFiles] followed by [PurgeObsoleteFiles], over every version set
    that can be reached ([VersionLiveInv]) and every content of the directories:
    what is deleted, and what is not. *)

From stdpp Require Import gmap sorting.
From S2P Require Import Prelude Records StdMap Slice Comparator VersionEdit VersionStorage VersionBuilder VersionCorrect FileName VersionLive VersionLiveInv PurgeFiles.

Section Purge.

Context (opts : DBOptions) (GetChildren : bytes -> list bytes) (NowMicros : Z).
Context (AreFilesSame : bytes -> bytes -> bool) (junk : bytes -> ParseOut).

Abbreviation parse := (parse opts junk).
Abbreviation FindObsoleteFiles := (FindObsoleteFiles opts GetChildren NowMicros AreFilesSame junk).
Abbreviation PurgeObsoleteFiles := (PurgeObsoleteFiles opts junk).

Implicit Types (db : DBImpl) (j : JobContext) (f : CandidateFileInfo).

(** ** Names of candidates *)

Lemma parse_name (x : DbFile) : is_u64 (number_of x) ->
  parse (base_of (dbname_ opts) (db_log_dir opts) x) = Some (number_of x, type_of x) /\
  parse (str "/" ++ base_of (dbname_ opts) (db_log_dir opts) x) = Some (number_of x, type_of x).
Proof.
  intros Hn. unfold PurgeFiles.parse.
  assert (info_log_prefix opts = InfoLogPrefix (negb (bool_decide (db_log_dir opts = []))) (dbname_ opts)) as ->.
  { unfold info_log_prefix. by destruct (db_log_dir opts). }
  destruct (parse_base_name (dbname_ opts) (db_log_dir opts) x (junk (base_of (dbname_ opts) (db_log_dir opts) x)) Hn) as [-> _].
  destruct (parse_base_name (dbname_ opts) (db_log_dir opts) x (junk (str "/" ++ base_of (dbname_ opts) (db_log_dir opts) x)) Hn) as [_ ->].
  done.
Qed.

Lemma FileNumber_u64 (p : FilePtr) : is_u64 (FileNumber p).
Proof.
  unfold FileNumber, GetNumber, is_u64. change kFileNumberMask with (Z.ones 62). rewrite Z.land_ones by lia.
  pose proof (Z.mod_pos_bound (packed_number_and_path_id (fd (fp_meta p))) (2 ^ 62) ltac:(lia)). lia.
Qed.

Lemma unique_from_elem x y l : y ∈ unique_from x l \/ y = x <-> y ∈ l \/ y = x.
Proof.
  revert x. induction l as [|z l IH]; intros x; [done|]. cbn [unique_from]. case_bool_decide as E.
  - subst z. rewrite IH, elem_of_cons. tauto.
  - rewrite !elem_of_cons. specialize (IH z). tauto.
Qed.

Lemma unique_elem y l : y ∈ unique l <-> y ∈ l.
Proof.
  destruct l as [|x l]; [done|]. cbn [unique]. rewrite !elem_of_cons.
  pose proof (unique_from_elem x y l). tauto.
Qed.

Lemma candidates_elem wal j f : f ∈ candidates opts wal j <->
  f ∈ full_scan_candidate_files j \/
  (exists fi, fi ∈ sst_delete_files j /\ only_delete_metadata fi = false /\
     f = {| file_name := MakeTableFileName_base (FileNumber (of_metadata fi)); file_path := of_path fi |}) \/
  (exists b, b ∈ blob_delete_files j /\
     f = {| file_name := BlobFileName_base (ob_number b); file_path := ob_path b |}) \/
  (exists n, n ∈ log_delete_files j /\ 0 < n /\ f = {| file_name := LogFileName_base n; file_path := wal |}) \/
  (exists name, name ∈ manifest_delete_files j /\ f = {| file_name := name; file_path := dbname_ opts |}).
Proof.
  unfold candidates. rewrite unique_elem, std_sort_Permutation, !elem_of_app. split.
  - intros [H|[H|[H|[H|H]]]]; [by left| | | |].
    + right; left. apply list_elem_of_omap in H as (fi & Hin & E).
      destruct (only_delete_metadata fi) eqn:Eo; [done|]. injection E as <-. eauto.
    + right; right; left. apply list_elem_of_fmap in H as (b & -> & Hb). eauto.
    + do 3 right; left. apply list_elem_of_omap in H as (n & Hn & E). revert E. zcase; [|done]. intros [= <-]. eauto.
    + do 4 right. apply list_elem_of_fmap in H as (name & -> & Hb). eauto.
  - intros [H|[(fi & Hin & Eo & ->)|[(b & Hb & ->)|[(n & Hn & H0 & ->)|(name & Hb & ->)]]]]; [by left| | | |].
    + right; left. apply list_elem_of_omap. exists fi. by rewrite Eo.
    + right; right; left. apply list_elem_of_fmap. eauto.
    + do 3 right; left. apply list_elem_of_omap. exists n. by rewrite (proj2 (Z.ltb_lt _ _)).
    + do 4 right. apply list_elem_of_fmap. eauto.
Qed.

(** *** No candidate is considered twice *)

Lemma bytes_lt_spec a b : bytes_lt a b = true <-> lex a b < 0.
Proof. unfold bytes_lt. by rewrite compare_lex, Z.ltb_lt. Qed.

Lemma bytes_lt_trans a b d : bytes_lt a b = true -> bytes_lt b d = true -> bytes_lt a d = true.
Proof.
  rewrite !bytes_lt_spec. intros H1 H2. pose proof (lex_trans a b d ltac:(lia) ltac:(lia)) as H3.
  destruct (Z.eq_dec (lex a d) 0) as [E|]; [|lia]. apply lex_eq in E as ->. rewrite lex_opp in H2. lia.
Qed.

Lemma bytes_lt_total a b : bytes_lt a b = false -> bytes_lt b a = false -> a = b.
Proof.
  intros H1%not_true_iff_false H2%not_true_iff_false. rewrite bytes_lt_spec in *. rewrite lex_opp in H2.
  apply lex_eq. lia.
Qed.

Lemma bytes_lt_irrefl a : bytes_lt a a = false.
Proof. apply not_true_iff_false. rewrite bytes_lt_spec, lex_refl. lia. Qed.

Lemma bytes_lt_asym a b : bytes_lt a b = true -> bytes_lt b a = false.
Proof.
  intros H. apply not_true_iff_false. intros H2. pose proof (bytes_lt_trans _ _ _ H H2) as H3.
  by rewrite bytes_lt_irrefl in H3.
Qed.

(** The names decide, then the paths. *)
Lemma candidate_lt_spec f g : candidate_lt f g = true <->
  bytes_lt (file_name f) (file_name g) = true \/
  (file_name f = file_name g /\ bytes_lt (file_path f) (file_path g) = true).
Proof.
  unfold candidate_lt. destruct (bytes_lt (file_name f) (file_name g)) eqn:E1; [split; auto|].
  destruct (bytes_lt (file_name g) (file_name f)) eqn:E2.
  - split; [done|]. intros [?|[E _]]; [done|]. by rewrite E, bytes_lt_irrefl in E2.
  - pose proof (bytes_lt_total _ _ E1 E2). split; [auto|]. by intros [?|[_ ?]].
Qed.

Lemma candidate_lt_trans f g h : candidate_lt f g = true -> candidate_lt g h = true -> candidate_lt f h = true.
Proof.
  rewrite !candidate_lt_spec. intros [H1|[E1 H1]] [H2|[E2 H2]]; rewrite ?E1, <- ?E2; eauto using bytes_lt_trans.
Qed.

Lemma candidate_lt_irrefl f : candidate_lt f f = false.
Proof. unfold candidate_lt. by rewrite !bytes_lt_irrefl. Qed.

Lemma candidate_lt_total f g : candidate_lt f g = false -> sort_le candidate_lt g f.
Proof.
  unfold sort_le. rewrite candidate_lt_spec. unfold candidate_lt.
  destruct (bytes_lt (file_name f) (file_name g)) eqn:E1; [done|].
  destruct (bytes_lt (file_name g) (file_name f)) eqn:E2; [auto|].
  pose proof (bytes_lt_total _ _ E1 E2) as E. intros E3.
  destruct (bytes_lt (file_path g) (file_path f)) eqn:E4; [by left; right|].
  right. pose proof (bytes_lt_total _ _ E3 E4). destruct f, g; cbn in *; congruence.
Qed.

Lemma unique_from_sorted x l : StronglySorted (sort_le candidate_lt) l -> Forall (sort_le candidate_lt x) l ->
  Forall (fun y => candidate_lt x y = true) (unique_from x l) /\ NoDup (unique_from x l).
Proof.
  intros Hs. revert x. induction Hs as [|y l Hs IH Hy]; intros x Hx; cbn [unique_from]; [split; constructor|].
  inversion_clear Hx as [|?? Hxy Hx']. case_bool_decide as E; [by apply IH|]. destruct Hxy as [Hxy|]; [|done].
  destruct (IH y Hy) as [Hf Hn]. split.
  - constructor; [done|]. apply (list.Forall_impl _ _ _ Hf). eauto using candidate_lt_trans.
  - apply list.NoDup_cons. split; [|done]. intros Hin. rewrite list.Forall_forall in Hf.
    specialize (Hf y Hin). by rewrite candidate_lt_irrefl in Hf.
Qed.

Lemma candidates_NoDup wal j : NoDup (candidates opts wal j).
Proof.
  unfold candidates. set (l := _ ++ _). pose proof (std_sort_le candidate_lt l candidate_lt_trans candidate_lt_total) as Hs.
  destruct (std_sort candidate_lt l) as [|x m]; [constructor|]. inversion_clear Hs as [|?? Hs' Hx]. cbn [unique].
  destruct (unique_from_sorted x m Hs' Hx) as [Hf Hn]. apply list.NoDup_cons. split; [|done]. intros Hin.
  rewrite list.Forall_forall in Hf. specialize (Hf x Hin). by rewrite candidate_lt_irrefl in Hf.
Qed.

(** *** The newest options files *)

Definition options_file f (n : Z) : Prop := parse (file_name f) = Some (n, kOptionsFile).

(** The numbers after some files are those of two of them. *)
Definition newest_options (l : list CandidateFileInfo) (acc : Z * Z) : Prop :=
  0 <= acc.2 <= acc.1 /\ (0 < acc.1 -> exists f, f ∈ l /\ options_file f acc.1) /\
  (0 < acc.2 -> exists f g, f ∈ l /\ g ∈ l /\ f <> g /\ options_file f acc.1 /\ options_file g acc.2).

Lemma newest_options_weaken l l' acc : (forall f, f ∈ l -> f ∈ l') -> newest_options l acc -> newest_options l' acc.
Proof.
  intros Hl (Hr & H1 & H2). split_and!; [lia|lia| |].
  - intros H. destruct (H1 H) as (f & ? & ?). eauto.
  - intros H. destruct (H2 H) as (f & g & ? & ? & ? & ? & ?). exists f, g. auto.
Qed.

Lemma options_step_newest l acc f : f ∉ l -> newest_options l acc ->
  newest_options (f :: l) (options_step opts junk acc f).
Proof.
  intros Hf Hacc. pose proof (newest_options_weaken l (f :: l) acc (fun g Hg => list_elem_of_further g f l Hg) Hacc) as Hw.
  destruct acc as [a b], Hacc as (Hr & H1 & H2). unfold options_step. destruct (parse (file_name f)) as [[n t]|] eqn:E; [|done].
  destruct t; try exact Hw. cbn [fst snd] in *. zcase; [|zcase; [|exact Hw]].
  - split; [cbn; lia|]. split; [intros _; exists f; split; [left|done]|]. cbn [fst snd]. intros Ha.
    destruct (H1 Ha) as (g & Hg & ?). exists f, g. split_and!; try done; [left|by right|]. by intros ->.
  - split; [cbn; lia|]. cbn [fst snd]. destruct (H1 ltac:(lia)) as (g & Hg & ?). split; [intros _; exists g; split; [by right|done]|].
    intros _. exists g, f. split_and!; try done; [by right|left|]. by intros ->.
Qed.

Lemma options_fold_newest files l acc : NoDup (files ++ l) -> newest_options l acc ->
  newest_options (files ++ l) (fold_left (options_step opts junk) files acc).
Proof.
  revert l acc. induction files as [|f files IH]; intros l acc Hn Hacc; [done|]. cbn [fold_left app] in *.
  apply list.NoDup_cons in Hn as [Hf Hn]. apply (newest_options_weaken (files ++ f :: l)).
  { intros g. rewrite !elem_of_app, !elem_of_cons. rewrite elem_of_app. tauto. }
  apply IH.
  - rewrite <- Permutation_middle. by apply list.NoDup_cons.
  - apply options_step_newest; [|done]. intros Hin. apply Hf, elem_of_app. by right.
Qed.

(** ** The loop *)

(** A candidate that goes. *)
Definition condemned j (opts2 : Z) f (n : Z) (t : FileType) : Prop :=
  parse (file_name f) = Some (n, t) /\ (n ∉ files_to_quarantine j) /\
  keep j opts2 (file_name f) n t = false.

(** A candidate that is deleted, and how. *)
Definition purgeable (wal : bytes) j (opts2 : Z) f (info : PurgeFileInfo) : Prop :=
  exists n t, condemned j opts2 f n t /\ info = purge_info opts wal f n t /\
    (t = kWalFile -> WAL_ttl_seconds opts <= 0 /\ WAL_size_limit_MB opts <= 0).

Lemma purge_one_actions wal j opts2 s f info :
  DeleteObsoleteFileImpl info ∈ pl_actions (purge_one opts junk wal j false opts2 s f) <->
  DeleteObsoleteFileImpl info ∈ pl_actions s \/ (own_files opts = true /\ purgeable wal j opts2 f info).
Proof.
  unfold purge_one, purgeable, condemned. destruct (parse (file_name f)) as [[n t]|] eqn:E.
  2:{ split; [by left|]. by intros [?|(_ & ? & ? & [? _] & _)]. }
  case_bool_decide as Hq.
  { split; [by left|]. intros [?|(_ & ? & ? & ([= <- <-] & ? & _) & _)]; done. }
  destruct (keep j opts2 (file_name f) n t) eqn:Ek.
  { assert (Hsame : pl_actions (match t with
        | kInfoLogFile => if n =? 0 then s else s <| pl_old_info_logs ::= fun l => l ++ [file_name f] |>
        | _ => s end) = pl_actions s) by (by destruct t, (n =? 0)).
    rewrite Hsame. split; [by left|]. intros [?|(_ & ? & ? & ([= <- <-] & _ & ?) & _)]; [done|congruence]. }
  set (s1 := match t with kTableFile => _ | kBlobFile => _ | _ => s end).
  assert (Hs1 : forall i, DeleteObsoleteFileImpl i ∈ pl_actions s1 <-> DeleteObsoleteFileImpl i ∈ pl_actions s).
  { intros i. unfold s1. destruct t; try done; unfold modify; cbn.
    rewrite elem_of_app, list_elem_of_singleton. split; [by intros [?|?]|by left]. }
  destruct (bool_decide (t = kWalFile) && ((0 <? WAL_ttl_seconds opts) || (0 <? WAL_size_limit_MB opts))) eqn:Ea.
  { unfold modify; cbn. rewrite elem_of_app, list_elem_of_singleton, Hs1. split; [by intros [?|?]; [left|]|].
    intros [?|(_ & ? & ? & ([= <- <-] & _ & _) & _ & Hw)]; [by left|].
    apply andb_true_iff in Ea as [Et%bool_decide_eq_true Ea]. destruct (Hw Et).
    apply orb_true_iff in Ea as [Ea%Z.ltb_lt|Ea%Z.ltb_lt]; lia. }
  assert (Hw : t = kWalFile -> WAL_ttl_seconds opts <= 0 /\ WAL_size_limit_MB opts <= 0).
  { intros ->. rewrite bool_decide_eq_true_2 in Ea by done. cbn [andb] in Ea.
    apply orb_false_iff in Ea as [Ea1%Z.ltb_ge Ea2%Z.ltb_ge]. done. }
  destruct (own_files opts); cbn [negb].
  - unfold modify; cbn. rewrite elem_of_app, list_elem_of_singleton, Hs1. split.
    + intros [?|[= ->]]; [by left|right; split; [done|]; exists n, t; done].
    + intros [?|(_ & ? & ? & ([= <- <-] & _ & _) & -> & _)]; [by left|by right].
  - rewrite Hs1. split; [by left|]. by intros [?|[? _]].
Qed.

(** A log that is archived instead. *)
Definition archived (wal : bytes) j (opts2 : Z) f (fname : bytes) (n : Z) : Prop :=
  condemned j opts2 f n kWalFile /\ fname = pu_fname (purge_info opts wal f n kWalFile).

Lemma purge_one_archives wal j opts2 s f fname n :
  ArchiveWALFile fname n ∈ pl_actions (purge_one opts junk wal j false opts2 s f) ->
  ArchiveWALFile fname n ∈ pl_actions s \/ archived wal j opts2 f fname n.
Proof.
  unfold purge_one, archived, condemned. destruct (parse (file_name f)) as [[k t]|] eqn:E; [|by left].
  case_bool_decide as Hq; [by left|]. destruct (keep j opts2 (file_name f) k t) eqn:Ek.
  { destruct t; try by left. destruct (k =? 0); by left. }
  set (s1 := match t with kTableFile => _ | kBlobFile => _ | _ => s end).
  assert (Hs1 : ArchiveWALFile fname n ∈ pl_actions s1 -> ArchiveWALFile fname n ∈ pl_actions s).
  { unfold s1. destruct t; try done; unfold modify; cbn. rewrite elem_of_app, list_elem_of_singleton. by intros [?|?]. }
  destruct (bool_decide (t = kWalFile) && _) eqn:Ea.
  - apply andb_true_iff in Ea as [->%bool_decide_eq_true _]. unfold modify; cbn.
    rewrite elem_of_app, list_elem_of_singleton. intros [?|[= -> ->]]; [left; auto|by right].
  - destruct (negb (own_files opts)); [left; auto|]. unfold modify; cbn.
    rewrite elem_of_app, list_elem_of_singleton. intros [?|?]; [left; auto|done].
Qed.

(** The loop itself deletes no info log. *)
Lemma purge_loop_no_info_logs wal j opts2 files s path : DeleteInfoLog path ∉ pl_actions s ->
  DeleteInfoLog path ∉ pl_actions (fold_left (purge_one opts junk wal j false opts2) files s).
Proof.
  revert s. induction files as [|f files IH]; intros s Hs; cbn [fold_left]; [done|]. apply IH.
  unfold purge_one. destruct (parse (file_name f)) as [[k t]|]; [|done].
  case_bool_decide; [done|]. destruct (keep j opts2 (file_name f) k t); [destruct t, (k =? 0); done|].
  destruct (bool_decide (t = kWalFile) && _), (own_files opts), t; try done; unfold modify; cbn;
    rewrite !elem_of_app, !list_elem_of_singleton; intros Hin;
    repeat match goal with H : _ \/ _ |- _ => destruct H end; done.
Qed.

(** A name among the old info logs. *)
Lemma purge_one_info_logs wal j opts2 s f name :
  name ∈ pl_old_info_logs (purge_one opts junk wal j false opts2 s f) ->
  name ∈ pl_old_info_logs s \/
  name = file_name f /\ exists n, parse (file_name f) = Some (n, kInfoLogFile) /\ n <> 0.
Proof.
  unfold purge_one. destruct (parse (file_name f)) as [[k t]|] eqn:E; [|by left].
  case_bool_decide; [by left|]. destruct (keep j opts2 (file_name f) k t).
  - destruct t; try by left. destruct (Z.eqb_spec k 0); [by left|]. unfold modify; cbn.
    rewrite elem_of_app, list_elem_of_singleton. intros [?| ->]; [by left|right]. split; [done|]. by exists k.
  - intros Hn. left. revert Hn. destruct (bool_decide (t = kWalFile) && _), t; try done; by destruct (own_files opts).
Qed.

Lemma purge_loop_rest wal j opts2 files s :
  (forall fname n, ArchiveWALFile fname n ∈ pl_actions (fold_left (purge_one opts junk wal j false opts2) files s) ->
     ArchiveWALFile fname n ∈ pl_actions s \/ exists f, f ∈ files /\ archived wal j opts2 f fname n) /\
  (forall name, name ∈ pl_old_info_logs (fold_left (purge_one opts junk wal j false opts2) files s) ->
     name ∈ pl_old_info_logs s \/
     exists f n, f ∈ files /\ name = file_name f /\ parse (file_name f) = Some (n, kInfoLogFile) /\ n <> 0).
Proof.
  revert s. induction files as [|f files IH]; intros s; cbn [fold_left]; [by split; left|].
  destruct (IH (purge_one opts junk wal j false opts2 s f)) as [IH1 IH2]. setoid_rewrite elem_of_cons. split.
  - intros fname n [H|(g & ? & ?)]%IH1; [|right; exists g; auto].
    apply purge_one_archives in H as [?|?]; [by left|right; exists f; auto].
  - intros name [H|(g & n & ? & ? & ?)]%IH2; [|right; exists g, n; auto].
    apply purge_one_info_logs in H as [?|(? & n & ? & ?)]; [by left|right; exists f, n; auto].
Qed.

Lemma purge_loop_actions wal j opts2 files s info :
  DeleteObsoleteFileImpl info ∈ pl_actions (fold_left (purge_one opts junk wal j false opts2) files s) <->
  DeleteObsoleteFileImpl info ∈ pl_actions s \/
  (own_files opts = true /\ exists f, f ∈ files /\ purgeable wal j opts2 f info).
Proof.
  revert s. induction files as [|f files IH]; intros s; cbn [fold_left].
  - split; [by left|]. intros [?|(_ & f & Hf & _)]; [done|by apply elem_of_nil in Hf].
  - rewrite IH, purge_one_actions. setoid_rewrite elem_of_cons. split.
    + intros [[?|[? ?]]|(? & g & ? & ?)]; [by left|right; split; [done|]; exists f; auto|right; split; [done|]; exists g; auto].
    + intros [?|(? & g & [->|?] & ?)]; [by left; left|left; right; auto|right; split; [done|]; exists g; auto].
Qed.

(** The files a job deletes. *)
Lemma purge_actions db j actions db' : PurgeObsoleteFiles db j false = Some (actions, db') ->
  exists wal opts2, GetWalDir opts = Some wal /\
    (0 < opts2 -> exists f g n, f ∈ candidates opts wal j /\ g ∈ candidates opts wal j /\ f <> g /\
       opts2 <= n /\ options_file f n /\ options_file g opts2) /\
    (forall info, DeleteObsoleteFileImpl info ∈ actions <->
     own_files opts = true /\ exists f, f ∈ candidates opts wal j /\ purgeable wal j opts2 f info) /\
    (forall fname n, ArchiveWALFile fname n ∈ actions ->
     exists f, f ∈ candidates opts wal j /\ archived wal j opts2 f fname n) /\
    (forall path, DeleteInfoLog path ∈ actions -> exists f n, f ∈ candidates opts wal j /\
       parse (file_name f) = Some (n, kInfoLogFile) /\ n <> 0 /\
       path = (if bool_decide (db_log_dir opts = []) then dbname_ opts else db_log_dir opts) ++ str "/" ++ file_name f).
Proof.
  unfold PurgeFiles.PurgeObsoleteFiles. destruct (GetWalDir opts) as [wal|]; [|done].
  unfold free_obsolete. destruct (fold_left (options_step opts junk) (candidates opts wal j) (0, 0)) as [o1 opts2] eqn:Eo.
  intros [= <- _]. exists wal, opts2. split; [done|]. split.
  { intros H0. destruct (options_fold_newest (candidates opts wal j) [] (0, 0)) as (Hr & _ & H2).
    - rewrite app_nil_r. apply candidates_NoDup.
    - split; [cbn; lia|]. by split; cbn; intros ?; lia.
    - rewrite Eo, app_nil_r in *. cbn [fst snd] in *. destruct (H2 H0) as (f & g & ? & ? & ? & ? & ?).
      exists f, g, o1. split_and!; done || lia. }
  set (s0 := {| pl_actions := _; pl_files_to_del := _; pl_old_info_logs := _; pl_db := _ |}).
  assert (Hs0 : forall a, a ∈ pl_actions s0 -> (exists h, a = ReleaseHandle h) \/ exists n, a = CloseLog n).
  { intros a [H|H]%elem_of_app; [left|right; by apply list_elem_of_fmap in H as (? & -> & _); eexists].
    apply list_elem_of_omap in H as (fi & _ & E). destruct (table_reader_handle _); [injection E as <-; by eexists|done]. }
  assert (Hlog : forall a l, a ∈ purge_info_logs opts l -> exists name, name ∈ l /\ a = DeleteInfoLog
            ((if bool_decide (db_log_dir opts = []) then dbname_ opts else db_log_dir opts) ++ str "/" ++ name)).
  { intros a l. unfold purge_info_logs. destruct (_ && _); [|by intros ?%elem_of_nil].
    intros (name & -> & Hn)%list_elem_of_fmap. exists name. split; [|by destruct (db_log_dir opts)].
    apply elem_of_take in Hn as (i & Hi & _). apply list_elem_of_lookup_2 in Hi. by rewrite std_sort_Permutation in Hi. }
  destruct (purge_loop_rest wal j opts2 (candidates opts wal j) s0) as [Harch Hold]. split_and!.
  - intros info. rewrite !elem_of_app, purge_loop_actions, list_elem_of_singleton. split.
    + intros [[[[? ?]|[? ?]]%Hs0|H]|[(? & _ & ?)%Hlog|?]]; done.
    + intros H. left. by right.
  - intros fname n. rewrite !elem_of_app, list_elem_of_singleton.
    intros [[[[? ?]|[? ?]]%Hs0|H]%Harch|[(? & _ & ?)%Hlog|?]]; done.
  - intros path. rewrite !elem_of_app, list_elem_of_singleton.
    intros [H|[(name & Hn & [= ->])%Hlog|?]]; [|apply Hold in Hn as [?%elem_of_nil|(f & n & ? & -> & ? & ?)]; [done|]|done].
    + exfalso. revert H. apply purge_loop_no_info_logs. by intros [[? ?]|[? ?]]%Hs0.
    + exists f, n. auto.
Qed.

(** ** Candidates *)

(** What the log part leaves alone. *)
Record same_files j j' : Prop := {
  sf_scan : full_scan_candidate_files j' = full_scan_candidate_files j;
  sf_sst_live : sst_live j' = sst_live j;
  sf_sst : sst_delete_files j' = sst_delete_files j;
  sf_blob_live : blob_live j' = blob_live j;
  sf_blob : blob_delete_files j' = blob_delete_files j;
  sf_quarantine : files_to_quarantine j' = files_to_quarantine j;
  sf_manifests : manifest_delete_files j' = manifest_delete_files j;
  sf_manifest : manifest_file_number j' = manifest_file_number j;
  sf_pending : pending_manifest_file_number j' = pending_manifest_file_number j;
  sf_log : log_number j' = log_number j;
  sf_prev : prev_log_number j' = prev_log_number j;
  sf_min : min_pending_output j' = min_pending_output j
}.

#[local] Instance same_files_refl : Reflexive same_files.
Proof. intros j. by constructor. Qed.

#[local] Instance same_files_trans : Transitive same_files.
Proof. intros j1 j2 j3 [] []. constructor; congruence. Qed.

Lemma retire_logs_spec alive k j db : Exists (fun l => log_number j <= lf_number l) alive ->
  exists j' db', retire_logs opts alive k j db = Some (j', db') /\ same_files j j' /\
    (forall n, n ∈ log_delete_files j' -> n ∈ log_delete_files j \/ n ∈ lf_number <$> alive) /\
    logs_ db' = logs_ db.
Proof.
  revert j db. induction alive as [|l alive IH]; intros j db Hex; [by apply Exists_nil in Hex|].
  cbn [retire_logs]. zcase.
  - set (jd := if slen (log_recycle_files_ db) <? recycle_log_file_num opts then _ else _).
    destruct jd as [j1 db1] eqn:E1.
    assert (H1 : same_files j j1 /\ logs_ db1 = logs_ db /\
              (forall n, n ∈ log_delete_files j1 -> n ∈ log_delete_files j \/ n = lf_number l)).
    { unfold jd in E1. destruct (_ <? _); injection E1 as <- <-.
      - split; [done|]. split; [done|]. by left.
      - split; [by constructor|]. split; [done|]. unfold modify; cbn.
        intros n [?| ->%list_elem_of_singleton]%elem_of_app; auto. }
    destruct H1 as (Hs1 & Hl1 & Hd1).
    set (j2 := if size_log_to_delete j1 =? 0 then _ else j1).
    assert (H2 : same_files j1 j2 /\ log_delete_files j2 = log_delete_files j1).
    { unfold j2. destruct (_ =? 0); [|done]. split; [by constructor|done]. }
    destruct H2 as [Hs2 Hd2].
    match goal with |- context [retire_logs opts alive k ?j3 ?db3] => destruct (IH j3 db3) as (j' & db' & E & Hs & Hd & Hl) end.
    { apply Exists_cons in Hex as [?|Hex]; [lia|]. unfold modify; cbn.
      by rewrite (sf_log _ _ Hs2), (sf_log _ _ Hs1). }
    exists j', db'. split; [done|]. split_and!.
    + etrans; [exact Hs1|]. etrans; [exact Hs2|]. etrans; [|exact Hs]. by constructor.
    + intros n Hn. apply Hd in Hn as [Hn|Hn]; [|right; by apply list_elem_of_further].
      unfold modify in Hn; cbn in Hn. rewrite Hd2 in Hn. apply Hd1 in Hn as [?| ->]; [by left|right; by left].
    + rewrite Hl. unfold modify; cbn. done.
  - exists j, db. split_and!; try done. by left.
Qed.

(** The database a job can start from: a version set that can be reached, whose
    obsolete files and logs have sensible names, and a current log. *)
Record db_ok db (vs : list Version) : Prop := {
  dk_vs : vs = all_versions (versions_ db);
  dk_add : forall live, AddLiveFiles (versions_ db) live = Some (live.1 ++ tables_of vs, live.2 ++ blobs_of vs);
  dk_remove : forall cs, RemoveLiveFiles (versions_ db) cs =
    Some (mark (tables_of vs) <$> cs.1, filter (fun b => ob_number b ∉ blobs_of vs) cs.2);
  dk_enabled : disable_delete_obsolete_files_ db <= 0;
  dk_blobs : Forall (fun b => is_u64 (ob_number b)) (obsolete_blob_files_ (versions_ db));
  dk_manifests : Forall (fun name => exists n, is_u64 n /\ name = DescriptorFileName [] n)
                   (obsolete_manifests_ (versions_ db));
  dk_logs : Forall (fun l => is_u64 (lf_number l)) (alive_log_files_ db);
  dk_current_log : Exists (fun l => min_log_number_to_keep_ db <= lf_number l) (alive_log_files_ db)
}.

Lemma grabbed_files_rest {A : Type} (g : A -> Z) (l : list A) db :
  exists gs, fold_left (fun db x => MarkAsGrabbedForPurge db (g x)) l db = db <| files_grabbed_for_purge_ := gs |>.
Proof.
  revert db. induction l as [|x l IH]; intros db.
  - exists (files_grabbed_for_purge_ db). by destruct db.
  - destruct (IH (MarkAsGrabbedForPurge db (g x))) as [gs E]. exists gs. cbn [fold_left]. rewrite E. by destruct db.
Qed.

(** The obsolete files that are handed out. *)
Definition handed_out db : list ObsoleteFileInfo :=
  ObsoleteFileInfo_move <$>
    filter (fun fi => bool_decide (FileNumber (of_metadata fi) < MinObsoleteSstNumberToKeep db) = true)
      (obsolete_files_ (versions_ db)).

Definition handed_out_blobs db : list ObsoleteBlobFileInfo :=
  filter (fun b => bool_decide (ob_number b < MinObsoleteSstNumberToKeep db) = true)
    (obsolete_blob_files_ (versions_ db)).

Record found db (vs : list Version) (scanned : bool) j : Prop := {
  fo_min : min_pending_output j = MinObsoleteSstNumberToKeep db;
  fo_quarantine : files_to_quarantine j = quarantined db;
  fo_manifests : manifest_delete_files j = obsolete_manifests_ (versions_ db);
  fo_manifest : manifest_file_number j = manifest_file_number_ db;
  fo_pending : pending_manifest_file_number j = pending_manifest_file_number_ db;
  fo_log : log_number j = min_log_number_to_keep_ db;
  fo_prev : prev_log_number j = prev_log_number_ db;
  fo_logs : forall n, n ∈ log_delete_files j -> n ∈ lf_number <$> alive_log_files_ db;
  fo_live : if scanned
    then sst_live j = tables_of vs /\ blob_live j = blobs_of vs /\
         sst_delete_files j = handed_out db /\ blob_delete_files j = handed_out_blobs db
    else full_scan_candidate_files j = [] /\ sst_live j = [] /\ blob_live j = [] /\
         sst_delete_files j = mark (tables_of vs) <$> handed_out db /\
         blob_delete_files j = filter (fun b => ob_number b ∉ blobs_of vs) (handed_out_blobs db)
}.

Lemma found_same db vs scanned j j' : found db vs scanned j -> same_files j j' ->
  (forall n, n ∈ log_delete_files j' -> n ∈ lf_number <$> alive_log_files_ db) -> found db vs scanned j'.
Proof.
  intros [F1 F2 F3 F4 F5 F6 F7 F8 F9] [S1 S2 S3 S4 S5 S6 S7 S8 S9 S10 S11 S12] Hl. constructor; try congruence; [exact Hl|].
  destruct scanned; rewrite ?S1, ?S2, ?S3, ?S4, ?S5; done.
Qed.

Lemma full_scan_rest db force no_full_scan : exists scanned last,
  full_scan opts NowMicros db force no_full_scan = (scanned, db <| delete_obsolete_files_last_run_ := last |>).
Proof.
  assert (Hsame : forall b : bool, (b, db) = (b, db <| delete_obsolete_files_last_run_ := delete_obsolete_files_last_run_ db |>))
    by (by destruct db).
  unfold full_scan. destruct no_full_scan; [eexists _, _; apply Hsame|].
  destruct (_ || _); [eexists _, _; apply Hsame|]. destruct (_ <? _); eexists _, _; [reflexivity|apply Hsame].
Qed.

Lemma grab_spec db j : exists j' db', grab_obsolete db j = (j', db') /\
  column_family_set_ (versions_ db') = column_family_set_ (versions_ db) /\
  alive_log_files_ db' = alive_log_files_ db /\ logs_ db' = logs_ db /\
  min_pending_output j' = MinObsoleteSstNumberToKeep db /\ files_to_quarantine j' = quarantined db /\
  manifest_delete_files j' = obsolete_manifests_ (versions_ db) /\
  manifest_file_number j' = manifest_file_number_ db /\
  pending_manifest_file_number j' = pending_manifest_file_number_ db /\
  log_number j' = min_log_number_to_keep_ db /\ prev_log_number j' = prev_log_number_ db /\
  log_delete_files j' = log_delete_files j /\ sst_live j' = sst_live j /\ blob_live j' = blob_live j /\
  full_scan_candidate_files j' = full_scan_candidate_files j /\
  sst_delete_files j' = handed_out db /\ blob_delete_files j' = handed_out_blobs db.
Proof.
  unfold grab_obsolete, GetObsoleteFiles.
  destruct (grabbed_files_rest (fun fi => FileNumber (of_metadata fi)) (handed_out db)
    (db <| versions_ := (GetObsoleteFiles (versions_ db) (MinObsoleteSstNumberToKeep db)).2 |>)) as [g1 E1].
  unfold handed_out, GetObsoleteFiles in E1. cbn [snd] in E1. rewrite E1.
  match goal with |- context [fold_left ?f ?l ?d] => destruct (grabbed_files_rest ob_number l d) as [g2 E2] end.
  rewrite E2. eexists _, _. split; [reflexivity|]. by destruct db.
Qed.

Lemma over_cfs_ext {A : Type} (f : A -> ColumnFamilyData -> option A) a s s' :
  column_family_set_ s = column_family_set_ s' -> over_cfs f a (column_family_set_ s) = over_cfs f a (column_family_set_ s').
Proof. by intros ->. Qed.

Lemma find_spec db vs force no_full_scan : db_ok db vs ->
  exists scanned j db', FindObsoleteFiles db force no_full_scan JobContext_new = Some (j, db') /\ found db vs scanned j.
Proof.
  intros [Hvs Hadd Hrem Hen _ _ _ Hcur]. unfold PurgeFiles.FindObsoleteFiles.
  rewrite (proj2 (Z.ltb_ge _ _)) by done.
  destruct (full_scan_rest db force no_full_scan) as (scanned & last & ->). exists scanned.
  destruct (grab_spec (db <| delete_obsolete_files_last_run_ := last |>) JobContext_new) as
    (j1 & db1 & -> & Hcf & Hal & Hlogs & G1 & G2 & G3 & G4 & G5 & G6 & G7 & G8 & G9 & G10 & G11 & G12 & G13).
  change (handed_out (db <| delete_obsolete_files_last_run_ := last |>)) with (handed_out db) in G12.
  change (handed_out_blobs (db <| delete_obsolete_files_last_run_ := last |>)) with (handed_out_blobs db) in G13.
  assert (Hj : exists j2, collect_live opts GetChildren AreFilesSame junk db1 scanned j1 = Some j2 /\ found db vs scanned j2 /\
            log_delete_files j2 = []).
  { unfold collect_live. destruct scanned.
    - unfold AddLiveFiles in *. rewrite (over_cfs_ext _ _ _ _ Hcf), Hadd. cbn [mbind option_bind fst snd].
      eexists. split; [reflexivity|]. split; [|done]. rewrite G9, G10. constructor; cbn; try done.
      rewrite G8. by intros n ?%elem_of_nil.
    - unfold RemoveLiveFiles in *. rewrite (over_cfs_ext _ _ _ _ Hcf), Hrem. cbn [mbind option_bind fst snd].
      eexists. split; [reflexivity|]. split; [|done]. rewrite G12, G13. constructor; cbn; try done.
      rewrite G8. by intros n ?%elem_of_nil. }
  destruct Hj as (j2 & -> & Hfound & Hnone). cbn [mbind option_bind].
  set (db2 := db1 <| pending_purge_obsolete_files_ ::= fun n => s32 (n + 1) |>).
  destruct (retire_logs_spec (alive_log_files_ db2) (slen (alive_log_files_ db2)) j2 db2) as (j3 & db3 & Er & Hs & Hd & _).
  { change (alive_log_files_ db2) with (alive_log_files_ db1). rewrite Hal, (fo_log _ _ _ _ Hfound). exact Hcur. }
  assert (Hf3 : found db vs scanned j3).
  { apply (found_same db vs scanned j2); [done|done|]. intros n [Hn|Hn]%Hd.
    - rewrite Hnone in Hn. by apply elem_of_nil in Hn.
    - change (alive_log_files_ db2) with (alive_log_files_ db1) in Hn. by rewrite Hal in Hn. }
  unfold find_logs. destruct (alive_log_files_ db2) as [|l ls] eqn:Ea; [eexists _, _; by split|].
  destruct (logs_ db2) as [|x xs] eqn:El; [eexists _, _; by split|]. rewrite Er. cbn [mbind option_bind].
  destruct (free_logs _ _) as [freed logs]. eexists _, _. split; [reflexivity|].
  apply (found_same db vs scanned j3); [done|by constructor|]. apply (fo_logs _ _ _ _ Hf3).
Qed.

(** ** What may be deleted *)

Definition may_delete db (vs : list Version) (n : Z) (t : FileType) : Prop :=
  (n ∉ quarantined db) /\
  match t with
  | kTableFile => (n ∉ tables_of vs) /\ n < MinObsoleteSstNumberToKeep db
  | kBlobFile => (n ∉ blobs_of vs) /\ n < MinObsoleteSstNumberToKeep db
  | kWalFile => n < min_log_number_to_keep_ db /\ n <> prev_log_number_ db
  | kDescriptorFile => n < manifest_file_number_ db
  | kTempFile => n <> pending_manifest_file_number_ db
  | kOptionsFile => True
  | kCurrentFile | kDBLockFile | kIdentityFile | kMetaDatabase | kInfoLogFile => False
  end.

Lemma purge_info_type wal f n t : pu_type (purge_info opts wal f n t) = t /\ pu_number (purge_info opts wal f n t) = n.
Proof. by destruct t. Qed.

Lemma purgeable_options wal j opts2 f info : purgeable wal j opts2 f info -> pu_type info = kOptionsFile ->
  pu_number info < opts2.
Proof.
  intros (n & t & (_ & _ & Hk) & -> & _). destruct (purge_info_type wal f n t) as [-> ->]. intros ->.
  by apply Z.leb_gt in Hk.
Qed.

(** The names of candidates that were not scanned. *)
Lemma unscanned_candidates db vs j wal f n t : db_ok db vs -> found db vs false j ->
  f ∈ candidates opts wal j -> parse (file_name f) = Some (n, t) ->
  match t with
  | kTableFile => n ∉ tables_of vs
  | kBlobFile => n ∉ blobs_of vs
  | _ => True
  end.
Proof.
  intros Hdb Hfound Hf Hp. destruct (fo_live _ _ _ _ Hfound) as (Es & _ & _ & Ess & Esb).
  apply candidates_elem in Hf as [Hf|[(fi & Hin & Eo & ->)|[(b & Hb & ->)|[(k & Hk & H0 & ->)|(name & Hb & ->)]]]].
  - rewrite Es in Hf. by apply elem_of_nil in Hf.
  - destruct (parse_name (TableOf (FileNumber (of_metadata fi))) (FileNumber_u64 _)) as [E _].
    cbn [file_name] in Hp. change (parse (MakeTableFileName_base (FileNumber (of_metadata fi))) =
      Some (FileNumber (of_metadata fi), kTableFile)) in E. rewrite Hp in E. injection E as -> ->.
    rewrite Ess in Hin. apply list_elem_of_fmap in Hin as (fi0 & -> & _). unfold mark in *.
    case_bool_decide; done.
  - rewrite Esb in Hb. apply list_elem_of_filter in Hb as [Hnb Hb]. apply list_elem_of_filter in Hb as [_ Hb].
    pose proof (dk_blobs _ _ Hdb) as Hu. rewrite list.Forall_forall in Hu.
    destruct (parse_name (BlobOf (ob_number b)) (Hu b Hb)) as [E _].
    change (parse (BlobFileName_base (ob_number b)) = Some (ob_number b, kBlobFile)) in E. cbn [file_name] in Hp.
    rewrite Hp in E. by injection E as -> ->.
  - apply (fo_logs _ _ _ _ Hfound) in Hk. apply list_elem_of_fmap in Hk as (l & -> & Hl).
    pose proof (dk_logs _ _ Hdb) as Hu. rewrite list.Forall_forall in Hu.
    destruct (parse_name (WalOf (lf_number l)) (Hu l Hl)) as [E _].
    change (parse (LogFileName_base (lf_number l)) = Some (lf_number l, kWalFile)) in E. cbn [file_name] in Hp.
    rewrite Hp in E. by injection E as -> ->.
  - rewrite (fo_manifests _ _ _ _ Hfound) in Hb. pose proof (dk_manifests _ _ Hdb) as Hu.
    rewrite list.Forall_forall in Hu. destruct (Hu name Hb) as (k & Hk & ->).
    destruct (parse_name (ManifestOf k) Hk) as [_ E].
    change (parse (DescriptorFileName [] k) = Some (k, kDescriptorFile)) in E. cbn [file_name] in Hp.
    rewrite Hp in E. by injection E as -> ->.
Qed.

Lemma purge_safe db vs scanned j wal opts2 f n t : db_ok db vs -> found db vs scanned j ->
  f ∈ candidates opts wal j -> condemned j opts2 f n t -> may_delete db vs n t.
Proof.
  intros Hdb Hfound Hf (Hp & Hq & Hk).
  pose proof Hfound as [F1 F2 F3 F4 F5 F6 F7 F8 F9]. rewrite F2 in Hq. split; [done|].
  assert (Hlive : match t with kTableFile => n ∉ tables_of vs | kBlobFile => n ∉ blobs_of vs | _ => True end).
  { destruct scanned; [|by apply (unscanned_candidates db vs j wal f)]. destruct F9 as (L1 & L2 & _).
    destruct t; try done; cbn [keep] in Hk; apply orb_false_iff in Hk as [Hk1 Hk2].
    - by rewrite L1 in Hk1; apply bool_decide_eq_false in Hk1.
    - by rewrite L2 in Hk2; apply bool_decide_eq_false in Hk2. }
  destruct t; cbn [keep] in Hk; try done; rewrite ?orb_false_iff in Hk.
  - destruct Hk as [[Hk1%Z.leb_gt Hk2%Z.eqb_neq] _]. rewrite F6 in Hk1. rewrite F7 in Hk2. done.
  - destruct Hk as [_ Hk%Z.leb_gt]. rewrite F1 in Hk. done.
  - apply Z.leb_gt in Hk. by rewrite F4 in Hk.
  - destruct Hk as [[_ Hk%Z.eqb_neq] _]. by rewrite F5 in Hk.
  - destruct Hk as [Hk%Z.leb_gt _]. rewrite F1 in Hk. done.
Qed.

(** [path] is the file [name] in the directory [dir]. *)
Definition path_in (dir name path : bytes) : Prop :=
  path = dir ++ str "/" ++ name \/
  path = dir ++ name /\ (ends_with_slash dir = true \/ begins_with_slash name = true).

(** The path [fname] of a file that is deleted or archived as number [n] and
    type [t]: it comes from a candidate of this number and type, in the
    candidate's directory for a table or blob file, in the directory of logs or
    in that of the database otherwise; and its name is parsed as [n] and [t],
    too. *)
Definition names_file (wal : bytes) j (fname dir : bytes) (n : Z) (t : FileType) : Prop :=
  exists f name, f ∈ candidates opts wal j /\ parse (file_name f) = Some (n, t) /\
    path_in dir name fname /\ (is_u64 n -> parse name = Some (n, t)) /\
    match t with
    | kTableFile | kBlobFile => dir = file_path f
    | kWalFile => dir = wal /\ name = file_name f
    | _ => dir = dbname_ opts /\ name = file_name f
    end.

Lemma purge_info_path wal j f n t : f ∈ candidates opts wal j -> parse (file_name f) = Some (n, t) ->
  names_file wal j (pu_fname (purge_info opts wal f n t)) (pu_dir_to_sync (purge_info opts wal f n t)) n t.
Proof.
  intros Hf Hp. exists f.
  assert (Hsep : forall dir, path_in dir (file_name f)
    (dir ++ (if ends_with_slash dir || begins_with_slash (file_name f) then [] else str "/") ++ file_name f)).
  { intros dir. unfold path_in. destruct (_ || _) eqn:E; [right|by left]. split; [done|].
    by apply orb_true_iff in E. }
  destruct t; try (exists (file_name f); split_and!; by auto).
  - exists (MakeTableFileName_base n). split_and!; try done; [by left|].
    intros Hn. by destruct (parse_name (TableOf n) Hn) as [E _].
  - exists (BlobFileName_base n). split_and!; try done; [by left|].
    intros Hn. by destruct (parse_name (BlobOf n) Hn) as [E _].
Qed.

(** Every obsolete table file that may be deleted is. *)
Lemma purge_complete db vs scanned j wal opts2 fi : db_ok db vs -> found db vs scanned j ->
  fi ∈ obsolete_files_ (versions_ db) -> may_delete db vs (FileNumber (of_metadata fi)) kTableFile ->
  let n := FileNumber (of_metadata fi) in
  exists f, f ∈ candidates opts wal j /\
    purgeable wal j opts2 f {| pu_fname := MakeTableFileName (of_path fi) n; pu_dir_to_sync := of_path fi;
                               pu_type := kTableFile; pu_number := n |}.
Proof.
  intros Hdb Hfound Hin (Hq & Hlive & Hlt) n. pose proof Hfound as [F1 F2 F3 F4 F5 F6 F7 F8 F9].
  exists {| file_name := MakeTableFileName_base n; file_path := of_path fi |}.
  assert (Hout : ObsoleteFileInfo_move fi ∈ handed_out db).
  { apply list_elem_of_fmap_2, list_elem_of_filter. split; [by apply bool_decide_eq_true|done]. }
  split.
  - apply candidates_elem. right; left. exists (ObsoleteFileInfo_move fi). split; [|done].
    destruct scanned; [destruct F9 as (_ & _ & -> & _); done|]. destruct F9 as (_ & _ & _ & -> & _).
    apply list_elem_of_fmap. exists (ObsoleteFileInfo_move fi). split; [|done]. unfold mark.
    by rewrite bool_decide_eq_false_2.
  - exists n, kTableFile. destruct (parse_name (TableOf n) (FileNumber_u64 _)) as [E _].
    split; [|done]. split; [exact E|]. rewrite F2. split; [done|]. cbn [keep]. apply orb_false_iff. split.
    + apply bool_decide_eq_false. destruct scanned; [by destruct F9 as (-> & _)|].
      destruct F9 as (_ & -> & _). apply not_elem_of_nil.
    + rewrite F1. by apply Z.leb_gt.
Qed.

End Purge.

(** The databases the theorem is about. *)
Record purge_ready (c : Comparator) {M : Type} `{!CacheReservationManager M} (object_usage : Z)
    (opts : DBOptions) (db : DBImpl) : Prop := {
  pr_reachable : exists p, reachable c (M := M) object_usage (mkState (versions_ db) p);
  pr_enabled : disable_delete_obsolete_files_ db <= 0;
  pr_blobs : Forall (fun b => is_u64 (ob_number b)) (obsolete_blob_files_ (versions_ db));
  pr_manifests : Forall (fun name => exists n, is_u64 n /\ name = DescriptorFileName [] n)
                   (obsolete_manifests_ (versions_ db));
  pr_logs : Forall (fun l => is_u64 (lf_number l)) (alive_log_files_ db);
  pr_current_log : Exists (fun l => min_log_number_to_keep_ db <= lf_number l) (alive_log_files_ db);
  pr_paths : is_Some (GetWalDir opts)
}.

Lemma purge_ready_ok (c : Comparator) `{!ComparatorOk c} {M : Type} `{!CacheReservationManager M} usage opts db :
  purge_ready c (M := M) usage opts db -> db_ok db (all_versions (versions_ db)).
Proof.
  intros [[p Hr] H2 H3 H4 H5 H6 _]. pose proof (reachable_inv c usage _ Hr) as [_ Hcfs _]. constructor; try done.
  - intros live. apply (add_live_cfs c _ _ live Hcfs).
  - intros cs. apply (remove_live_cfs c _ _ cs Hcfs).
Qed.

(** [C4] A job that finds and purges obsolete files always completes. Whatever
    the directories hold and whatever uninitialized outputs of the parser
    contain, it deletes no table or blob file that a live version uses or that
    may still be written, no quarantined file, no log that is needed (nor does
    it archive one), not the current manifest nor the one being written, and no
    other kind of file than these, temporary and options files, and of the
    options files none of the two newest. What it deletes is the file of that
    name: the path is a candidate's directory with a name that is parsed as the
    number and type that were checked. Info logs are deleted only under the
    names of old info logs. And it deletes every obsolete table file that is
    under none of these protections. *)
Theorem purge_obsolete_exact (c : Comparator) `{!ComparatorOk c} {M : Type} `{!CacheReservationManager M}
    (object_usage : Z) (opts : DBOptions) (GetChildren : bytes -> list bytes) (NowMicros : Z)
    (AreFilesSame : bytes -> bytes -> bool) (junk : bytes -> ParseOut) (db : DBImpl) (force no_full_scan : bool) :
  purge_ready c (M := M) object_usage opts db ->
  exists j db1 actions db2 wal,
    FindObsoleteFiles opts GetChildren NowMicros AreFilesSame junk db force no_full_scan JobContext_new =
      Some (j, db1) /\
    PurgeObsoleteFiles opts junk db1 j false = Some (actions, db2) /\ GetWalDir opts = Some wal /\
    (forall info, DeleteObsoleteFileImpl info ∈ actions ->
       may_delete db (all_versions (versions_ db)) (pu_number info) (pu_type info) /\
       names_file opts junk wal j (pu_fname info) (pu_dir_to_sync info) (pu_number info) (pu_type info)) /\
    (forall fname n, ArchiveWALFile fname n ∈ actions ->
       may_delete db (all_versions (versions_ db)) n kWalFile /\
       names_file opts junk wal j fname wal n kWalFile) /\
    (forall path, DeleteInfoLog path ∈ actions -> exists f n, f ∈ candidates opts wal j /\
       parse opts junk (file_name f) = Some (n, kInfoLogFile) /\ n <> 0 /\
       path = (if bool_decide (db_log_dir opts = []) then dbname_ opts else db_log_dir opts) ++ str "/" ++ file_name f) /\
    (forall info, DeleteObsoleteFileImpl info ∈ actions -> pu_type info = kOptionsFile -> is_u64 (pu_number info) ->
       exists f g n m, f ∈ candidates opts wal j /\ g ∈ candidates opts wal j /\
         f <> g /\ options_file opts junk f n /\ options_file opts junk g m /\
         pu_number info < n /\ pu_number info < m) /\
    (forall fi, fi ∈ obsolete_files_ (versions_ db) -> own_files opts = true ->
       may_delete db (all_versions (versions_ db)) (FileNumber (of_metadata fi)) kTableFile ->
       DeleteObsoleteFileImpl
         {| pu_fname := MakeTableFileName (of_path fi) (FileNumber (of_metadata fi));
            pu_dir_to_sync := of_path fi; pu_type := kTableFile;
            pu_number := FileNumber (of_metadata fi) |} ∈ actions).
Proof.
  intros Hpr. pose proof (purge_ready_ok c object_usage opts db Hpr) as Hdb.
  destruct (find_spec opts GetChildren NowMicros AreFilesSame junk db _ force no_full_scan Hdb)
    as (scanned & j & db1 & Hfind & Hfound).
  assert (Hpurge : exists actions db2, PurgeObsoleteFiles opts junk db1 j false = Some (actions, db2)).
  { destruct (pr_paths _ _ _ _ Hpr) as [wal Hwal]. unfold PurgeObsoleteFiles. rewrite Hwal. unfold free_obsolete.
    destruct (fold_left _ _ (0, 0)). by eexists _, _. }
  destruct Hpurge as (actions & db2 & Hpurge).
  destruct (purge_actions opts junk db1 j actions db2 Hpurge) as (wal & opts2 & Hwal & Hopts & Hact & Harch & Hinfo).
  exists j, db1, actions, db2, wal. split_and!; try done.
  - intros info (_ & f & Hf & n & t & Hc & -> & _)%Hact. destruct (purge_info_type opts wal f n t) as [-> ->].
    split; [by eapply purge_safe|]. apply purge_info_path; [done|by destruct Hc].
  - intros fname n (f & Hf & Hc & ->)%Harch. split; [by eapply purge_safe|].
    by apply (purge_info_path opts junk wal j f n kWalFile); [|destruct Hc].
  - intros info (_ & f & Hf & Hp)%Hact Ht [H0 _]. apply purgeable_options in Hp; [|done].
    destruct (Hopts ltac:(lia)) as (f1 & f2 & n & ? & ? & ? & ? & ? & ?).
    exists f1, f2, n, opts2. split_and!; done || lia.
  - intros fi Hin Hown Hmay. apply Hact. split; [done|]. by eapply purge_complete.
Qed.

(** ** Examples *)

Definition ex_opts : DBOptions := {|
  dbname_ := str "/db"; db_paths := [str "/db"]; wal_dir := []; db_log_dir := []; recycle_log_file_num := 0;
  WAL_ttl_seconds := 0; WAL_size_limit_MB := 0; keep_log_file_num := 1000;
  delete_obsolete_files_period_micros := 0; own_files := true |}.

(** A database over a version set, with a current log. *)
Definition ex_db (vs : VersionSet) : DBImpl := {|
  versions_ := vs; disable_delete_obsolete_files_ := 0; delete_obsolete_files_last_run_ := 0;
  pending_outputs_ := [9]; quarantined := []; files_grabbed_for_purge_ := ∅; purge_files_ := ∅;
  manifest_file_number_ := 2; pending_manifest_file_number_ := 0; min_log_number_to_keep_ := 7;
  prev_log_number_ := 0; alive_log_files_ := [{| lf_number := 3; lf_size := 10 |}; {| lf_number := 8; lf_size := 10 |}];
  logs_ := [8]; logs_to_free_ := []; log_recycle_files_ := []; total_log_size_ := 20;
  reject_new_background_jobs_ := false; pending_purge_obsolete_files_ := 0;
  bg_purge_scheduled_ := 0; logs_to_free_queue_ := [] |}.

Definition ex_junk : bytes -> ParseOut := fun _ => {| po_number := 0; po_type := kTempFile; po_log_type := None |}.

Lemma ex_purge_ready vs p : reachable BytewiseComparator (M := unit) 0 (mkState vs p) ->
  obsolete_blob_files_ vs = [] -> obsolete_manifests_ vs = [] ->
  purge_ready BytewiseComparator (M := unit) 0 ex_opts (ex_db vs).
Proof.
  intros Hr Hb Hm. constructor; cbn.
  - by exists p.
  - lia.
  - by rewrite Hb.
  - by rewrite Hm.
  - repeat (apply list.Forall_cons; split; [unfold is_u64; cbn; lia|]). constructor.
  - right. left. cbn. lia.
  - by eexists.
Qed.

Lemma purge_obsolete_exact_witness : exists vs actions fname,
  (exists j db1 db2, FindObsoleteFiles ex_opts (fun _ => []) 0 (fun _ _ => true) ex_junk (ex_db vs) false true
     JobContext_new = Some (j, db1) /\ PurgeObsoleteFiles ex_opts ex_junk db1 j false = Some (actions, db2)) /\
  DeleteObsoleteFileImpl {| pu_fname := MakeTableFileName fname 6; pu_dir_to_sync := fname;
                            pu_type := kTableFile; pu_number := 6 |} ∈ actions.
Proof.
  destruct ex_obsolete as (vs & Hr & Ht & Ho & Hb & Hm).
  destruct (purge_obsolete_exact BytewiseComparator 0 ex_opts (fun _ => []) 0 (fun _ _ => true) ex_junk (ex_db vs) false true
    (ex_purge_ready vs [] Hr Hb Hm)) as (j & db1 & actions & db2 & wal & Hfind & Hpurge & _ & _ & _ & _ & _ & Hdel).
  assert (Hin : 6 ∈ (fun fi => FileNumber (of_metadata fi)) <$> obsolete_files_ vs) by (rewrite Ho; by left).
  apply list_elem_of_fmap in Hin as (fi & Hn & Hfi).
  exists vs, actions, (of_path fi). split; [by exists j, db1, db2|]. rewrite Hn. apply Hdel; [done|done|].
  rewrite <- Hn. split; [apply not_elem_of_nil|]. cbn [ex_db versions_]. rewrite Ht. split; [apply not_elem_of_nil|].
  cbn. lia.
Defined.

(** ** What can go wrong *)

(** A file whose name continues the prefix of info logs is treated as whatever
    the uninitialized outputs say: here it is deleted as a temporary file. *)
Lemma uninitialized_type_deletes vs :
  DeleteObsoleteFileImpl {| pu_fname := str "/db/LOG.bak"; pu_dir_to_sync := str "/db";
                            pu_type := kTempFile; pu_number := 5 |} ∈
  pl_actions (purge_one ex_opts (fun _ => {| po_number := 5; po_type := kTempFile; po_log_type := None |}) (str "/db")
    JobContext_new false 0 {| pl_actions := []; pl_files_to_del := []; pl_old_info_logs := []; pl_db := ex_db vs |}
    {| file_name := str "/LOG.bak"; file_path := str "/db" |}).
Proof. cbn. by left. Qed.

(** A quarantined file that was handed out stays marked as grabbed, and no
    later scan considers it. *)
Lemma quarantined_stays_grabbed opts junk wal j sched opts2 s f n t :
  parse opts junk (file_name f) = Some (n, t) -> n ∈ files_to_quarantine j ->
  purge_one opts junk wal j sched opts2 s f = s.
Proof. intros E Hq. unfold purge_one. rewrite E. by rewrite bool_decide_eq_true_2. Qed.
