(* ===== verification/LruCache.v ===== *)
(** * The LRU cache

    Models cache/lru_cache.h and cache/lru_cache.cc: the handles, the hash
    table with its chains, and one shard of the cache with its list of evictable
    entries in three priority pools.

    The code is a web of pointers, and the model keeps it: a handle is a cell of
    a heap, and [next], [prev] and [next_hash] hold addresses of cells. Every
    access goes through the heap. A run of an operation is a computation that
    fails ([None]) when it follows a null or dangling pointer, indexes an array
    out of bounds, frees a cell twice, or reaches an [assert] that does not hold;
    the theorems of [LruRefine] show that none of this happens.

    Each operation with a critical section is split the way the code splits it:
    the part under the mutex ([..._locked]), which returns the handles that are
    no longer reachable, and the part after it, which frees them. *)

From S2P Require Import Prelude Binary64 Slice.

(** ** Handles *)

(** An address; [nullptr] is 0 and the dummy head [lru_] of the list, a member
    of the shard, has address 1. *)
Abbreviation ptr := Z.
Definition nullptr : ptr := 0.
Definition lru_ : ptr := 1.

(** What the cache uses of [Cache::CacheItemHelper]: whether it has a deleter,
    and [IsSecondaryCacheCompatible]. *)
Record CacheItemHelper := {
  del_cb : bool;
  IsSecondaryCacheCompatible : bool
}.

Inductive CacheMetadataChargePolicy := kDontChargeCacheMetadata | kFullChargeCacheMetadata.
Inductive Priority := HIGH | LOW | BOTTOM.

(** [h_key] is [key()]: the bytes at [key_data] and [key_length]. *)
Record LRUHandle := {
  h_value : Z;
  h_helper : CacheItemHelper;
  h_next_hash : ptr;
  h_next : ptr;
  h_prev : ptr;
  h_total_charge : Z;
  h_key : bytes;
  h_hash : Z;
  h_refs : Z;
  h_m_flags : Z;
  h_im_flags : Z
}.

Definition set_h_next_hash (x : ptr) (h : LRUHandle) : LRUHandle :=
  {| h_value := h_value h; h_helper := h_helper h; h_next_hash := x; h_next := h_next h;
     h_prev := h_prev h; h_total_charge := h_total_charge h; h_key := h_key h;
     h_hash := h_hash h; h_refs := h_refs h; h_m_flags := h_m_flags h; h_im_flags := h_im_flags h |}.

Definition set_h_next (x : ptr) (h : LRUHandle) : LRUHandle :=
  {| h_value := h_value h; h_helper := h_helper h; h_next_hash := h_next_hash h; h_next := x;
     h_prev := h_prev h; h_total_charge := h_total_charge h; h_key := h_key h;
     h_hash := h_hash h; h_refs := h_refs h; h_m_flags := h_m_flags h; h_im_flags := h_im_flags h |}.

Definition set_h_prev (x : ptr) (h : LRUHandle) : LRUHandle :=
  {| h_value := h_value h; h_helper := h_helper h; h_next_hash := h_next_hash h;
     h_next := h_next h; h_prev := x; h_total_charge := h_total_charge h; h_key := h_key h;
     h_hash := h_hash h; h_refs := h_refs h; h_m_flags := h_m_flags h; h_im_flags := h_im_flags h |}.

Definition set_h_total_charge (x : Z) (h : LRUHandle) : LRUHandle :=
  {| h_value := h_value h; h_helper := h_helper h; h_next_hash := h_next_hash h;
     h_next := h_next h; h_prev := h_prev h; h_total_charge := x; h_key := h_key h;
     h_hash := h_hash h; h_refs := h_refs h; h_m_flags := h_m_flags h; h_im_flags := h_im_flags h |}.

Definition set_h_refs (x : Z) (h : LRUHandle) : LRUHandle :=
  {| h_value := h_value h; h_helper := h_helper h; h_next_hash := h_next_hash h;
     h_next := h_next h; h_prev := h_prev h; h_total_charge := h_total_charge h;
     h_key := h_key h; h_hash := h_hash h; h_refs := x; h_m_flags := h_m_flags h;
     h_im_flags := h_im_flags h |}.

Definition set_h_m_flags (x : Z) (h : LRUHandle) : LRUHandle :=
  {| h_value := h_value h; h_helper := h_helper h; h_next_hash := h_next_hash h;
     h_next := h_next h; h_prev := h_prev h; h_total_charge := h_total_charge h;
     h_key := h_key h; h_hash := h_hash h; h_refs := h_refs h; h_m_flags := x;
     h_im_flags := h_im_flags h |}.

Definition set_h_im_flags (x : Z) (h : LRUHandle) : LRUHandle :=
  {| h_value := h_value h; h_helper := h_helper h; h_next_hash := h_next_hash h;
     h_next := h_next h; h_prev := h_prev h; h_total_charge := h_total_charge h;
     h_key := h_key h; h_hash := h_hash h; h_refs := h_refs h; h_m_flags := h_m_flags h;
     h_im_flags := x |}.

Definition M_IN_CACHE : Z := Z.shiftl 1 0.
Definition M_HAS_HIT : Z := Z.shiftl 1 1.
Definition M_IN_HIGH_PRI_POOL : Z := Z.shiftl 1 2.
Definition M_IN_LOW_PRI_POOL : Z := Z.shiftl 1 3.
Definition IM_IS_HIGH_PRI : Z := Z.shiftl 1 0.
Definition IM_IS_LOW_PRI : Z := Z.shiftl 1 1.
Definition IM_IS_STANDALONE : Z := Z.shiftl 1 2.

(** Tests and assignments of flag bits. *)
Definition has_bit (flags bit : Z) : bool := negb (Z.land flags bit =? 0).
Definition with_flag (on : bool) (flags bit : Z) : Z :=
  if on then Z.lor flags bit else Z.land flags (Z.lnot bit).

Definition HasRefs (h : LRUHandle) : bool := 0 <? h_refs h.
Definition InCache (h : LRUHandle) : bool := has_bit (h_m_flags h) M_IN_CACHE.
Definition HasHit (h : LRUHandle) : bool := has_bit (h_m_flags h) M_HAS_HIT.
Definition InHighPriPool (h : LRUHandle) : bool := has_bit (h_m_flags h) M_IN_HIGH_PRI_POOL.
Definition InLowPriPool (h : LRUHandle) : bool := has_bit (h_m_flags h) M_IN_LOW_PRI_POOL.
Definition IsHighPri (h : LRUHandle) : bool := has_bit (h_im_flags h) IM_IS_HIGH_PRI.
Definition IsLowPri (h : LRUHandle) : bool := has_bit (h_im_flags h) IM_IS_LOW_PRI.
Definition IsStandalone (h : LRUHandle) : bool := has_bit (h_im_flags h) IM_IS_STANDALONE.

Definition Ref (h : LRUHandle) : LRUHandle := set_h_refs (u32 (h_refs h + 1)) h.
Definition SetInCache (b : bool) (h : LRUHandle) : LRUHandle :=
  set_h_m_flags (with_flag b (h_m_flags h) M_IN_CACHE) h.
Definition SetHit (h : LRUHandle) : LRUHandle := set_h_m_flags (with_flag true (h_m_flags h) M_HAS_HIT) h.
Definition SetInHighPriPool (b : bool) (h : LRUHandle) : LRUHandle :=
  set_h_m_flags (with_flag b (h_m_flags h) M_IN_HIGH_PRI_POOL) h.
Definition SetInLowPriPool (b : bool) (h : LRUHandle) : LRUHandle :=
  set_h_m_flags (with_flag b (h_m_flags h) M_IN_LOW_PRI_POOL) h.
Definition SetIsStandalone (b : bool) (h : LRUHandle) : LRUHandle :=
  set_h_im_flags (with_flag b (h_im_flags h) IM_IS_STANDALONE) h.
Definition SetPriority (p : Priority) (h : LRUHandle) : LRUHandle :=
  let set_high b h := set_h_im_flags (with_flag b (h_im_flags h) IM_IS_HIGH_PRI) h in
  let set_low b h := set_h_im_flags (with_flag b (h_im_flags h) IM_IS_LOW_PRI) h in
  match p with
  | HIGH => set_low false (set_high true h)
  | LOW => set_low true (set_high false h)
  | BOTTOM => set_low false (set_high false h)
  end.

(** [sizeof(LRUHandle)] where pointers and [size_t] have 64 bits. *)
Definition sizeof_LRUHandle : Z := 72.

(** ** The shard *)

Record LRUHandleTable := {
  list_ : list ptr;
  length_bits_ : Z;
  elems_ : Z;
  max_length_bits_ : Z
}.

(** What happens to the object of an entry that leaves the cache: its deleter
    is called, or the eviction callback took ownership of it. *)
Inductive Event := Deleted (value : Z) | Taken (value : Z).

(** The members of [LRUCacheShard], with the heap and the calls made so far. *)
Record LRUCacheShard := {
  heap : gmap ptr LRUHandle;
  table_ : LRUHandleTable;
  metadata_charge_policy_ : CacheMetadataChargePolicy;
  capacity_ : Z;
  high_pri_pool_usage_ : Z;
  low_pri_pool_usage_ : Z;
  strict_capacity_limit_ : bool;
  high_pri_pool_ratio_ : double;
  high_pri_pool_capacity_ : double;
  low_pri_pool_ratio_ : double;
  low_pri_pool_capacity_ : double;
  lru_low_pri_ : ptr;
  lru_bottom_pri_ : ptr;
  usage_ : Z;
  lru_usage_ : Z;
  deleter_calls : list Event
}.

Definition set_heap (x : gmap ptr LRUHandle) (s : LRUCacheShard) : LRUCacheShard :=
  {| heap := x; table_ := table_ s; metadata_charge_policy_ := metadata_charge_policy_ s;
     capacity_ := capacity_ s; high_pri_pool_usage_ := high_pri_pool_usage_ s;
     low_pri_pool_usage_ := low_pri_pool_usage_ s;
     strict_capacity_limit_ := strict_capacity_limit_ s;
     high_pri_pool_ratio_ := high_pri_pool_ratio_ s;
     high_pri_pool_capacity_ := high_pri_pool_capacity_ s;
     low_pri_pool_ratio_ := low_pri_pool_ratio_ s;
     low_pri_pool_capacity_ := low_pri_pool_capacity_ s; lru_low_pri_ := lru_low_pri_ s;
     lru_bottom_pri_ := lru_bottom_pri_ s; usage_ := usage_ s; lru_usage_ := lru_usage_ s;
     deleter_calls := deleter_calls s |}.

Definition set_table_ (x : LRUHandleTable) (s : LRUCacheShard) : LRUCacheShard :=
  {| heap := heap s; table_ := x; metadata_charge_policy_ := metadata_charge_policy_ s;
     capacity_ := capacity_ s; high_pri_pool_usage_ := high_pri_pool_usage_ s;
     low_pri_pool_usage_ := low_pri_pool_usage_ s;
     strict_capacity_limit_ := strict_capacity_limit_ s;
     high_pri_pool_ratio_ := high_pri_pool_ratio_ s;
     high_pri_pool_capacity_ := high_pri_pool_capacity_ s;
     low_pri_pool_ratio_ := low_pri_pool_ratio_ s;
     low_pri_pool_capacity_ := low_pri_pool_capacity_ s; lru_low_pri_ := lru_low_pri_ s;
     lru_bottom_pri_ := lru_bottom_pri_ s; usage_ := usage_ s; lru_usage_ := lru_usage_ s;
     deleter_calls := deleter_calls s |}.

Definition set_capacity_ (x : Z) (s : LRUCacheShard) : LRUCacheShard :=
  {| heap := heap s; table_ := table_ s; metadata_charge_policy_ := metadata_charge_policy_ s;
     capacity_ := x; high_pri_pool_usage_ := high_pri_pool_usage_ s;
     low_pri_pool_usage_ := low_pri_pool_usage_ s;
     strict_capacity_limit_ := strict_capacity_limit_ s;
     high_pri_pool_ratio_ := high_pri_pool_ratio_ s;
     high_pri_pool_capacity_ := high_pri_pool_capacity_ s;
     low_pri_pool_ratio_ := low_pri_pool_ratio_ s;
     low_pri_pool_capacity_ := low_pri_pool_capacity_ s; lru_low_pri_ := lru_low_pri_ s;
     lru_bottom_pri_ := lru_bottom_pri_ s; usage_ := usage_ s; lru_usage_ := lru_usage_ s;
     deleter_calls := deleter_calls s |}.

Definition set_high_pri_pool_usage_ (x : Z) (s : LRUCacheShard) : LRUCacheShard :=
  {| heap := heap s; table_ := table_ s; metadata_charge_policy_ := metadata_charge_policy_ s;
     capacity_ := capacity_ s; high_pri_pool_usage_ := x;
     low_pri_pool_usage_ := low_pri_pool_usage_ s;
     strict_capacity_limit_ := strict_capacity_limit_ s;
     high_pri_pool_ratio_ := high_pri_pool_ratio_ s;
     high_pri_pool_capacity_ := high_pri_pool_capacity_ s;
     low_pri_pool_ratio_ := low_pri_pool_ratio_ s;
     low_pri_pool_capacity_ := low_pri_pool_capacity_ s; lru_low_pri_ := lru_low_pri_ s;
     lru_bottom_pri_ := lru_bottom_pri_ s; usage_ := usage_ s; lru_usage_ := lru_usage_ s;
     deleter_calls := deleter_calls s |}.

Definition set_low_pri_pool_usage_ (x : Z) (s : LRUCacheShard) : LRUCacheShard :=
  {| heap := heap s; table_ := table_ s; metadata_charge_policy_ := metadata_charge_policy_ s;
     capacity_ := capacity_ s; high_pri_pool_usage_ := high_pri_pool_usage_ s;
     low_pri_pool_usage_ := x; strict_capacity_limit_ := strict_capacity_limit_ s;
     high_pri_pool_ratio_ := high_pri_pool_ratio_ s;
     high_pri_pool_capacity_ := high_pri_pool_capacity_ s;
     low_pri_pool_ratio_ := low_pri_pool_ratio_ s;
     low_pri_pool_capacity_ := low_pri_pool_capacity_ s; lru_low_pri_ := lru_low_pri_ s;
     lru_bottom_pri_ := lru_bottom_pri_ s; usage_ := usage_ s; lru_usage_ := lru_usage_ s;
     deleter_calls := deleter_calls s |}.

Definition set_strict_capacity_limit_ (x : bool) (s : LRUCacheShard) : LRUCacheShard :=
  {| heap := heap s; table_ := table_ s; metadata_charge_policy_ := metadata_charge_policy_ s;
     capacity_ := capacity_ s; high_pri_pool_usage_ := high_pri_pool_usage_ s;
     low_pri_pool_usage_ := low_pri_pool_usage_ s; strict_capacity_limit_ := x;
     high_pri_pool_ratio_ := high_pri_pool_ratio_ s;
     high_pri_pool_capacity_ := high_pri_pool_capacity_ s;
     low_pri_pool_ratio_ := low_pri_pool_ratio_ s;
     low_pri_pool_capacity_ := low_pri_pool_capacity_ s; lru_low_pri_ := lru_low_pri_ s;
     lru_bottom_pri_ := lru_bottom_pri_ s; usage_ := usage_ s; lru_usage_ := lru_usage_ s;
     deleter_calls := deleter_calls s |}.

Definition set_high_pri_pool_ratio_ (x : double) (s : LRUCacheShard) : LRUCacheShard :=
  {| heap := heap s; table_ := table_ s; metadata_charge_policy_ := metadata_charge_policy_ s;
     capacity_ := capacity_ s; high_pri_pool_usage_ := high_pri_pool_usage_ s;
     low_pri_pool_usage_ := low_pri_pool_usage_ s;
     strict_capacity_limit_ := strict_capacity_limit_ s; high_pri_pool_ratio_ := x;
     high_pri_pool_capacity_ := high_pri_pool_capacity_ s;
     low_pri_pool_ratio_ := low_pri_pool_ratio_ s;
     low_pri_pool_capacity_ := low_pri_pool_capacity_ s; lru_low_pri_ := lru_low_pri_ s;
     lru_bottom_pri_ := lru_bottom_pri_ s; usage_ := usage_ s; lru_usage_ := lru_usage_ s;
     deleter_calls := deleter_calls s |}.

Definition set_high_pri_pool_capacity_ (x : double) (s : LRUCacheShard) : LRUCacheShard :=
  {| heap := heap s; table_ := table_ s; metadata_charge_policy_ := metadata_charge_policy_ s;
     capacity_ := capacity_ s; high_pri_pool_usage_ := high_pri_pool_usage_ s;
     low_pri_pool_usage_ := low_pri_pool_usage_ s;
     strict_capacity_limit_ := strict_capacity_limit_ s;
     high_pri_pool_ratio_ := high_pri_pool_ratio_ s; high_pri_pool_capacity_ := x;
     low_pri_pool_ratio_ := low_pri_pool_ratio_ s;
     low_pri_pool_capacity_ := low_pri_pool_capacity_ s; lru_low_pri_ := lru_low_pri_ s;
     lru_bottom_pri_ := lru_bottom_pri_ s; usage_ := usage_ s; lru_usage_ := lru_usage_ s;
     deleter_calls := deleter_calls s |}.

Definition set_low_pri_pool_ratio_ (x : double) (s : LRUCacheShard) : LRUCacheShard :=
  {| heap := heap s; table_ := table_ s; metadata_charge_policy_ := metadata_charge_policy_ s;
     capacity_ := capacity_ s; high_pri_pool_usage_ := high_pri_pool_usage_ s;
     low_pri_pool_usage_ := low_pri_pool_usage_ s;
     strict_capacity_limit_ := strict_capacity_limit_ s;
     high_pri_pool_ratio_ := high_pri_pool_ratio_ s;
     high_pri_pool_capacity_ := high_pri_pool_capacity_ s; low_pri_pool_ratio_ := x;
     low_pri_pool_capacity_ := low_pri_pool_capacity_ s; lru_low_pri_ := lru_low_pri_ s;
     lru_bottom_pri_ := lru_bottom_pri_ s; usage_ := usage_ s; lru_usage_ := lru_usage_ s;
     deleter_calls := deleter_calls s |}.

Definition set_low_pri_pool_capacity_ (x : double) (s : LRUCacheShard) : LRUCacheShard :=
  {| heap := heap s; table_ := table_ s; metadata_charge_policy_ := metadata_charge_policy_ s;
     capacity_ := capacity_ s; high_pri_pool_usage_ := high_pri_pool_usage_ s;
     low_pri_pool_usage_ := low_pri_pool_usage_ s;
     strict_capacity_limit_ := strict_capacity_limit_ s;
     high_pri_pool_ratio_ := high_pri_pool_ratio_ s;
     high_pri_pool_capacity_ := high_pri_pool_capacity_ s;
     low_pri_pool_ratio_ := low_pri_pool_ratio_ s; low_pri_pool_capacity_ := x;
     lru_low_pri_ := lru_low_pri_ s; lru_bottom_pri_ := lru_bottom_pri_ s; usage_ := usage_ s;
     lru_usage_ := lru_usage_ s; deleter_calls := deleter_calls s |}.

Definition set_lru_low_pri_ (x : ptr) (s : LRUCacheShard) : LRUCacheShard :=
  {| heap := heap s; table_ := table_ s; metadata_charge_policy_ := metadata_charge_policy_ s;
     capacity_ := capacity_ s; high_pri_pool_usage_ := high_pri_pool_usage_ s;
     low_pri_pool_usage_ := low_pri_pool_usage_ s;
     strict_capacity_limit_ := strict_capacity_limit_ s;
     high_pri_pool_ratio_ := high_pri_pool_ratio_ s;
     high_pri_pool_capacity_ := high_pri_pool_capacity_ s;
     low_pri_pool_ratio_ := low_pri_pool_ratio_ s;
     low_pri_pool_capacity_ := low_pri_pool_capacity_ s; lru_low_pri_ := x;
     lru_bottom_pri_ := lru_bottom_pri_ s; usage_ := usage_ s; lru_usage_ := lru_usage_ s;
     deleter_calls := deleter_calls s |}.

Definition set_lru_bottom_pri_ (x : ptr) (s : LRUCacheShard) : LRUCacheShard :=
  {| heap := heap s; table_ := table_ s; metadata_charge_policy_ := metadata_charge_policy_ s;
     capacity_ := capacity_ s; high_pri_pool_usage_ := high_pri_pool_usage_ s;
     low_pri_pool_usage_ := low_pri_pool_usage_ s;
     strict_capacity_limit_ := strict_capacity_limit_ s;
     high_pri_pool_ratio_ := high_pri_pool_ratio_ s;
     high_pri_pool_capacity_ := high_pri_pool_capacity_ s;
     low_pri_pool_ratio_ := low_pri_pool_ratio_ s;
     low_pri_pool_capacity_ := low_pri_pool_capacity_ s; lru_low_pri_ := lru_low_pri_ s;
     lru_bottom_pri_ := x; usage_ := usage_ s; lru_usage_ := lru_usage_ s;
     deleter_calls := deleter_calls s |}.

Definition set_usage_ (x : Z) (s : LRUCacheShard) : LRUCacheShard :=
  {| heap := heap s; table_ := table_ s; metadata_charge_policy_ := metadata_charge_policy_ s;
     capacity_ := capacity_ s; high_pri_pool_usage_ := high_pri_pool_usage_ s;
     low_pri_pool_usage_ := low_pri_pool_usage_ s;
     strict_capacity_limit_ := strict_capacity_limit_ s;
     high_pri_pool_ratio_ := high_pri_pool_ratio_ s;
     high_pri_pool_capacity_ := high_pri_pool_capacity_ s;
     low_pri_pool_ratio_ := low_pri_pool_ratio_ s;
     low_pri_pool_capacity_ := low_pri_pool_capacity_ s; lru_low_pri_ := lru_low_pri_ s;
     lru_bottom_pri_ := lru_bottom_pri_ s; usage_ := x; lru_usage_ := lru_usage_ s;
     deleter_calls := deleter_calls s |}.

Definition set_lru_usage_ (x : Z) (s : LRUCacheShard) : LRUCacheShard :=
  {| heap := heap s; table_ := table_ s; metadata_charge_policy_ := metadata_charge_policy_ s;
     capacity_ := capacity_ s; high_pri_pool_usage_ := high_pri_pool_usage_ s;
     low_pri_pool_usage_ := low_pri_pool_usage_ s;
     strict_capacity_limit_ := strict_capacity_limit_ s;
     high_pri_pool_ratio_ := high_pri_pool_ratio_ s;
     high_pri_pool_capacity_ := high_pri_pool_capacity_ s;
     low_pri_pool_ratio_ := low_pri_pool_ratio_ s;
     low_pri_pool_capacity_ := low_pri_pool_capacity_ s; lru_low_pri_ := lru_low_pri_ s;
     lru_bottom_pri_ := lru_bottom_pri_ s; usage_ := usage_ s; lru_usage_ := x;
     deleter_calls := deleter_calls s |}.

Definition set_deleter_calls (x : list Event) (s : LRUCacheShard) : LRUCacheShard :=
  {| heap := heap s; table_ := table_ s; metadata_charge_policy_ := metadata_charge_policy_ s;
     capacity_ := capacity_ s; high_pri_pool_usage_ := high_pri_pool_usage_ s;
     low_pri_pool_usage_ := low_pri_pool_usage_ s;
     strict_capacity_limit_ := strict_capacity_limit_ s;
     high_pri_pool_ratio_ := high_pri_pool_ratio_ s;
     high_pri_pool_capacity_ := high_pri_pool_capacity_ s;
     low_pri_pool_ratio_ := low_pri_pool_ratio_ s;
     low_pri_pool_capacity_ := low_pri_pool_capacity_ s; lru_low_pri_ := lru_low_pri_ s;
     lru_bottom_pri_ := lru_bottom_pri_ s; usage_ := usage_ s; lru_usage_ := lru_usage_ s;
     deleter_calls := x |}.

(** ** Computations over a shard *)

Definition M (A : Type) : Type := LRUCacheShard -> option (A * LRUCacheShard).

#[export] Instance M_ret : MRet M := fun _ a s => Some (a, s).
#[export] Instance M_bind : MBind M :=
  fun _ _ k m s => match m s with Some (a, s') => k a s' | None => None end.

Definition fail {A} : M A := fun _ => None.
Definition gets {A} (f : LRUCacheShard -> A) : M A := fun s => Some (f s, s).
Definition modify (f : LRUCacheShard -> LRUCacheShard) : M unit := fun s => Some (tt, f s).
Definition assert_ (b : bool) : M unit := if b then mret tt else fail.
Definition when_ (b : bool) (m : M unit) : M unit := if b then m else mret tt.

(** [p->f] and [p->f = ...]. *)
Definition fld {A} (p : ptr) (f : LRUHandle -> A) : M A :=
  fun s => match heap s !! p with Some h => Some (f h, s) | None => None end.
Definition upd (p : ptr) (g : LRUHandle -> LRUHandle) : M unit :=
  fun s => match heap s !! p with Some h => Some (tt, set_heap (<[p := g h]> (heap s)) s) | None => None end.

(** [free(p)]. *)
Definition free (p : ptr) : M unit :=
  fun s => match heap s !! p with Some _ => Some (tt, set_heap (delete p (heap s)) s) | None => None end.

(** ** The hash table *)

(** An [LRUHandle**]: an element of [list_], or the [next_hash] of a handle. *)
Inductive Slot := Bucket (i : Z) | NextHash (p : ptr).

Definition load_slot (sl : Slot) : M ptr :=
  match sl with
  | Bucket i => fun s => match list_ (table_ s) !! Z.to_nat i with Some p => Some (p, s) | None => None end
  | NextHash p => fld p h_next_hash
  end.

Definition set_list (l : list ptr) (t : LRUHandleTable) : LRUHandleTable :=
  {| list_ := l; length_bits_ := length_bits_ t; elems_ := elems_ t; max_length_bits_ := max_length_bits_ t |}.
Definition set_elems (n : Z) (t : LRUHandleTable) : LRUHandleTable :=
  {| list_ := list_ t; length_bits_ := length_bits_ t; elems_ := n; max_length_bits_ := max_length_bits_ t |}.
Definition set_length_bits (n : Z) (t : LRUHandleTable) : LRUHandleTable :=
  {| list_ := list_ t; length_bits_ := n; elems_ := elems_ t; max_length_bits_ := max_length_bits_ t |}.

Definition store_slot (sl : Slot) (p : ptr) : M unit :=
  match sl with
  | Bucket i => fun s =>
      match list_ (table_ s) !! Z.to_nat i with
      | Some _ => Some (tt, set_table_ (set_list (<[Z.to_nat i := p]> (list_ (table_ s))) (table_ s)) s)
      | None => None
      end
  | NextHash q => upd q (set_h_next_hash p)
  end.

Definition LRUHandleTable_init (max_upper_hash_bits : Z) : LRUHandleTable :=
  {| list_ := replicate (Z.to_nat (2 ^ 4)) nullptr; length_bits_ := 4; elems_ := 0;
     max_length_bits_ := max_upper_hash_bits |}.

(** [hash >> (32 - bits)]. *)
Definition bucket_of (hash bits : Z) : Z := Z.shiftr hash (32 - bits).

Fixpoint find_loop (fuel : nat) (key : bytes) (hash : Z) (sl : Slot) : M Slot :=
  p ← load_slot sl;
  if p =? nullptr then mret sl
  else
    h ← fld p h_hash;
    k ← fld p h_key;
    if negb (h =? hash) || negb (equal key k) then
      match fuel with O => fail | S fuel => find_loop fuel key hash (NextHash p) end
    else mret sl.

Definition FindPointer (key : bytes) (hash : Z) : M Slot :=
  bits ← gets (fun s => length_bits_ (table_ s));
  fuel ← gets (fun s => size (heap s));
  find_loop fuel key hash (Bucket (bucket_of hash bits)).

Definition Table_Lookup (key : bytes) (hash : Z) : M ptr :=
  ptr ← FindPointer key hash;
  load_slot ptr.

(** The [while] loop of [Resize] over one bucket, and the loop over all; [count]
    is the number of entries moved so far. *)
Fixpoint resize_chain (fuel : nat) (new_length_bits : Z) (h : ptr) (new_list : list ptr) (count : Z) :
    M (list ptr * Z) :=
  if h =? nullptr then mret (new_list, count)
  else
    next ← fld h h_next_hash;
    hash ← fld h h_hash;
    let i := Z.to_nat (bucket_of hash new_length_bits) in
    match new_list !! i, fuel with
    | Some p, S fuel =>
        _ ← upd h (set_h_next_hash p);
        resize_chain fuel new_length_bits next (<[i := h]> new_list) (u32 (count + 1))
    | _, _ => fail
    end.

Fixpoint resize_loop (old_length i : nat) (new_length_bits : Z) (new_list : list ptr) (count : Z) :
    M (list ptr * Z) :=
  match old_length with
  | O => mret (new_list, count)
  | S old_length =>
      h ← load_slot (Bucket (Z.of_nat i));
      fuel ← gets (fun s => size (heap s));
      r ← resize_chain fuel new_length_bits h new_list count;
      resize_loop old_length (S i) new_length_bits r.1 r.2
  end.

Definition Resize : M unit :=
  bits ← gets (fun s => length_bits_ (table_ s));
  max_bits ← gets (fun s => max_length_bits_ (table_ s));
  if max_bits <=? bits then mret tt
  else if 31 <=? bits then mret tt
  else
    let old_length := Z.to_nat (2 ^ bits) in
    let new_length_bits := bits + 1 in
    r ← resize_loop old_length 0 new_length_bits
          (replicate (Z.to_nat (2 ^ new_length_bits)) nullptr) 0;
    elems ← gets (fun s => elems_ (table_ s));
    _ ← assert_ (elems =? r.2);
    modify (fun s => set_table_ (set_length_bits new_length_bits (set_list r.1 (table_ s))) s).

Definition Table_Insert (h : ptr) : M ptr :=
  key ← fld h h_key;
  hash ← fld h h_hash;
  ptr ← FindPointer key hash;
  old ← load_slot ptr;
  next ← (if old =? nullptr then mret nullptr else fld old h_next_hash);
  _ ← upd h (set_h_next_hash next);
  _ ← store_slot ptr h;
  _ ← when_ (old =? nullptr)
        (_ ← modify (fun s => set_table_ (set_elems (u32 (elems_ (table_ s) + 1)) (table_ s)) s);
         elems ← gets (fun s => elems_ (table_ s));
         bits ← gets (fun s => length_bits_ (table_ s));
         when_ (0 <? Z.shiftr elems bits) Resize);
  mret old.

Definition Table_Remove (key : bytes) (hash : Z) : M ptr :=
  ptr ← FindPointer key hash;
  result ← load_slot ptr;
  _ ← when_ (negb (result =? nullptr))
        (next ← fld result h_next_hash;
         _ ← store_slot ptr next;
         modify (fun s => set_table_ (set_elems (u32 (elems_ (table_ s) - 1)) (table_ s)) s));
  mret result.

(** ** The list of evictable entries *)

Definition LRU_Remove (e : ptr) : M unit :=
  next ← fld e h_next;
  prev ← fld e h_prev;
  _ ← assert_ (negb (next =? nullptr));
  _ ← assert_ (negb (prev =? nullptr));
  low ← gets lru_low_pri_;
  _ ← when_ (low =? e) (modify (set_lru_low_pri_ prev));
  bottom ← gets lru_bottom_pri_;
  _ ← when_ (bottom =? e) (modify (set_lru_bottom_pri_ prev));
  _ ← upd next (set_h_prev prev);
  _ ← upd prev (set_h_next next);
  _ ← upd e (fun h => set_h_prev nullptr (set_h_next nullptr h));
  charge ← fld e h_total_charge;
  u ← gets lru_usage_;
  _ ← assert_ (charge <=? u);
  _ ← modify (set_lru_usage_ (u64 (u - charge)));
  high ← fld e InHighPriPool;
  low ← fld e InLowPriPool;
  _ ← assert_ (negb high || negb low);
  if (high : bool) then
    u ← gets high_pri_pool_usage_;
    _ ← assert_ (charge <=? u);
    modify (set_high_pri_pool_usage_ (u64 (u - charge)))
  else when_ low
    (u ← gets low_pri_pool_usage_;
     _ ← assert_ (charge <=? u);
     modify (set_low_pri_pool_usage_ (u64 (u - charge)))).

(** The two loops of [MaintainPoolSize]. *)
Fixpoint overflow_high (fuel : nat) : M unit :=
  usage ← gets high_pri_pool_usage_;
  cap ← gets high_pri_pool_capacity_;
  if dbl_ltb cap (dbl_of_size usage) then
    match fuel with
    | O => fail
    | S fuel =>
        low ← gets lru_low_pri_;
        next ← fld low h_next;
        _ ← modify (set_lru_low_pri_ next);
        _ ← assert_ (negb (next =? lru_));
        _ ← upd next (SetInHighPriPool false);
        _ ← upd next (SetInLowPriPool true);
        charge ← fld next h_total_charge;
        _ ← assert_ (charge <=? usage);
        _ ← modify (set_high_pri_pool_usage_ (u64 (usage - charge)));
        u ← gets low_pri_pool_usage_;
        _ ← modify (set_low_pri_pool_usage_ (u64 (u + charge)));
        overflow_high fuel
    end
  else mret tt.

Fixpoint overflow_low (fuel : nat) : M unit :=
  usage ← gets low_pri_pool_usage_;
  cap ← gets low_pri_pool_capacity_;
  if dbl_ltb cap (dbl_of_size usage) then
    match fuel with
    | O => fail
    | S fuel =>
        bottom ← gets lru_bottom_pri_;
        next ← fld bottom h_next;
        _ ← modify (set_lru_bottom_pri_ next);
        _ ← assert_ (negb (next =? lru_));
        _ ← upd next (SetInHighPriPool false);
        _ ← upd next (SetInLowPriPool false);
        charge ← fld next h_total_charge;
        _ ← assert_ (charge <=? usage);
        _ ← modify (set_low_pri_pool_usage_ (u64 (usage - charge)));
        overflow_low fuel
    end
  else mret tt.

Definition MaintainPoolSize : M unit :=
  fuel ← gets (fun s => size (heap s));
  _ ← overflow_high fuel;
  overflow_low fuel.

(** [e->next = next; e->prev = prev; e->prev->next = e; e->next->prev = e]. *)
Definition link (e next prev : ptr) : M unit :=
  _ ← upd e (set_h_next next);
  _ ← upd e (set_h_prev prev);
  _ ← upd prev (set_h_next e);
  upd next (set_h_prev e).

Definition LRU_Insert (e : ptr) : M unit :=
  next ← fld e h_next;
  prev ← fld e h_prev;
  _ ← assert_ (next =? nullptr);
  _ ← assert_ (prev =? nullptr);
  high_ratio ← gets high_pri_pool_ratio_;
  low_ratio ← gets low_pri_pool_ratio_;
  is_high ← fld e IsHighPri;
  is_low ← fld e IsLowPri;
  hit ← fld e HasHit;
  charge ← fld e h_total_charge;
  _ ← (if dbl_ltb dbl_0 high_ratio && (is_high || hit) then
         newest ← fld lru_ h_prev;
         _ ← link e lru_ newest;
         _ ← upd e (SetInHighPriPool true);
         _ ← upd e (SetInLowPriPool false);
         u ← gets high_pri_pool_usage_;
         _ ← modify (set_high_pri_pool_usage_ (u64 (u + charge)));
         MaintainPoolSize
       else if dbl_ltb dbl_0 low_ratio && (is_high || is_low || hit) then
         low ← gets lru_low_pri_;
         next ← fld low h_next;
         _ ← link e next low;
         _ ← upd e (SetInHighPriPool false);
         _ ← upd e (SetInLowPriPool true);
         u ← gets low_pri_pool_usage_;
         _ ← modify (set_low_pri_pool_usage_ (u64 (u + charge)));
         _ ← MaintainPoolSize;
         modify (set_lru_low_pri_ e)
       else
         bottom ← gets lru_bottom_pri_;
         next ← fld bottom h_next;
         _ ← link e next bottom;
         _ ← upd e (SetInHighPriPool false);
         _ ← upd e (SetInLowPriPool false);
         low ← gets lru_low_pri_;
         _ ← when_ (bottom =? low) (modify (set_lru_low_pri_ e));
         modify (set_lru_bottom_pri_ e));
  u ← gets lru_usage_;
  modify (set_lru_usage_ (u64 (u + charge))).

(** ** Eviction *)

(** The entry [old] at the cold end leaves the list and the table. *)
Definition evict_one (old : ptr) : M unit :=
  in_cache ← fld old InCache;
  refs ← fld old HasRefs;
  _ ← assert_ (in_cache && negb refs);
  _ ← LRU_Remove old;
  key ← fld old h_key;
  hash ← fld old h_hash;
  _ ← Table_Remove key hash;
  _ ← upd old (SetInCache false);
  charge ← fld old h_total_charge;
  u ← gets usage_;
  _ ← assert_ (charge <=? u);
  modify (set_usage_ (u64 (u - charge))).

Fixpoint evict_loop (fuel : nat) (charge : Z) (deleted : list ptr) : M (list ptr) :=
  u ← gets usage_;
  cap ← gets capacity_;
  old ← fld lru_ h_next;
  if (cap <? u64 (u + charge)) && negb (old =? lru_) then
    match fuel with
    | O => fail
    | S fuel =>
        _ ← evict_one old;
        evict_loop fuel charge (deleted ++ [old])
    end
  else mret deleted.

Definition EvictFromLRU (charge : Z) : M (list ptr) :=
  fuel ← gets (fun s => size (heap s));
  evict_loop fuel charge [].

(** The loop of [EraseUnRefEntries]. *)
Fixpoint erase_loop (fuel : nat) (last_reference_list : list ptr) : M (list ptr) :=
  old ← fld lru_ h_next;
  if negb (old =? lru_) then
    match fuel with
    | O => fail
    | S fuel =>
        _ ← evict_one old;
        erase_loop fuel (last_reference_list ++ [old])
    end
  else mret last_reference_list.

(** [LRUHandle::Free]. *)
Definition Free (e : ptr) : M unit :=
  refs ← fld e h_refs;
  _ ← assert_ (refs =? 0);
  helper ← fld e h_helper;
  value ← fld e h_value;
  _ ← when_ (del_cb helper) (modify (fun s => set_deleter_calls (deleter_calls s ++ [Deleted value]) s));
  free e.

Definition EraseUnRefEntries_locked : M (list ptr) :=
  fuel ← gets (fun s => size (heap s));
  erase_loop fuel [].

Fixpoint Free_all (l : list ptr) : M unit :=
  match l with
  | [] => mret tt
  | e :: l => _ ← Free e; Free_all l
  end.

Definition EraseUnRefEntries : M unit :=
  last_reference_list ← EraseUnRefEntries_locked;
  Free_all last_reference_list.

(** ** Operations that allocate or call back *)

Section Environment.
(** The allocator: an address for a new handle, given those in use; and
    [malloc_usable_size] of a block of a given requested size, on platforms that
    have it. The callback of the owner of the cache, if one is set, gets the
    key, the handle and whether it was hit, and returns true to take over the
    object. *)
Variable malloc : gset ptr -> ptr.
Variable malloc_usable_size : option (ptr -> Z -> Z).
Variable eviction_callback_ : option (bytes -> ptr -> bool -> bool).

Definition CalcuMetaCharge (e : ptr) (key_length : Z) (policy : CacheMetadataChargePolicy) : Z :=
  match policy with
  | kDontChargeCacheMetadata => 0
  | kFullChargeCacheMetadata =>
      match malloc_usable_size with
      | Some usable => usable e (sizeof_LRUHandle - 1 + key_length)
      | None => sizeof_LRUHandle - 1 + key_length
      end
  end.

Definition GetCharge (e : ptr) : M Z :=
  policy ← gets metadata_charge_policy_;
  key ← fld e h_key;
  total_charge ← fld e h_total_charge;
  let meta_charge := CalcuMetaCharge e (slen key) policy in
  _ ← assert_ (meta_charge <=? total_charge);
  mret (u64 (total_charge - meta_charge)).

Definition notify_one (entry : ptr) : M unit :=
  key ← fld entry h_key;
  hit ← fld entry HasHit;
  value ← fld entry h_value;
  match eviction_callback_ with
  | Some cb =>
      if cb key entry hit
      then _ ← modify (fun s => set_deleter_calls (deleter_calls s ++ [Taken value]) s); free entry
      else Free entry
  | None => Free entry
  end.

Fixpoint NotifyEvicted (evicted_handles : list ptr) : M unit :=
  match evicted_handles with
  | [] => mret tt
  | entry :: l => _ ← notify_one entry; NotifyEvicted l
  end.

Definition SetCapacity_locked (capacity : Z) : M (list ptr) :=
  _ ← modify (set_capacity_ capacity);
  _ ← modify (fun s => set_high_pri_pool_capacity_
                         (dbl_mul (dbl_of_size (capacity_ s)) (high_pri_pool_ratio_ s)) s);
  _ ← modify (fun s => set_low_pri_pool_capacity_
                         (dbl_mul (dbl_of_size (capacity_ s)) (low_pri_pool_ratio_ s)) s);
  EvictFromLRU 0.

Definition SetCapacity (capacity : Z) : M unit :=
  last_reference_list ← SetCapacity_locked capacity;
  NotifyEvicted last_reference_list.

Definition SetStrictCapacityLimit (strict_capacity_limit : bool) : M unit :=
  modify (set_strict_capacity_limit_ strict_capacity_limit).

Definition SetHighPriorityPoolRatio (ratio : double) : M unit :=
  _ ← modify (set_high_pri_pool_ratio_ ratio);
  _ ← modify (fun s => set_high_pri_pool_capacity_
                         (dbl_mul (dbl_of_size (capacity_ s)) (high_pri_pool_ratio_ s)) s);
  MaintainPoolSize.

Definition SetLowPriorityPoolRatio (ratio : double) : M unit :=
  _ ← modify (set_low_pri_pool_ratio_ ratio);
  _ ← modify (fun s => set_low_pri_pool_capacity_
                         (dbl_mul (dbl_of_size (capacity_ s)) (low_pri_pool_ratio_ s)) s);
  MaintainPoolSize.

(** The constructor. *)
Definition lru_init : LRUHandle :=
  {| h_value := 0; h_helper := {| del_cb := false; IsSecondaryCacheCompatible := false |};
     h_next_hash := nullptr; h_next := lru_; h_prev := lru_; h_total_charge := 0; h_key := [];
     h_hash := 0; h_refs := 0; h_m_flags := 0; h_im_flags := 0 |}.

Definition empty_shard (strict_capacity_limit : bool) (high_ratio low_ratio : double)
    (policy : CacheMetadataChargePolicy) (max_upper_hash_bits : Z) : LRUCacheShard :=
  {| heap := {[lru_ := lru_init]}; table_ := LRUHandleTable_init max_upper_hash_bits;
     metadata_charge_policy_ := policy; capacity_ := 0; high_pri_pool_usage_ := 0;
     low_pri_pool_usage_ := 0; strict_capacity_limit_ := strict_capacity_limit;
     high_pri_pool_ratio_ := high_ratio; high_pri_pool_capacity_ := dbl_0;
     low_pri_pool_ratio_ := low_ratio; low_pri_pool_capacity_ := dbl_0; lru_low_pri_ := lru_;
     lru_bottom_pri_ := lru_; usage_ := 0; lru_usage_ := 0; deleter_calls := [] |}.

Definition LRUCacheShard_make (capacity : Z) (strict_capacity_limit : bool) (high_ratio low_ratio : double)
    (policy : CacheMetadataChargePolicy) (max_upper_hash_bits : Z) : option LRUCacheShard :=
  snd <$> SetCapacity capacity (empty_shard strict_capacity_limit high_ratio low_ratio policy max_upper_hash_bits).

(** ** Inserting *)

Definition CreateHandle (key : bytes) (hash value : Z) (helper : CacheItemHelper) (charge : Z) : M ptr :=
  _ ← assert_ (negb (IsSecondaryCacheCompatible helper && (value =? nullptr)));
  policy ← gets metadata_charge_policy_;
  e ← gets (fun s => malloc (dom (heap s)));
  let h :=
    {| h_value := value; h_helper := helper; h_next_hash := nullptr; h_next := nullptr;
       h_prev := nullptr; h_total_charge := u64 (charge + CalcuMetaCharge e (slen key) policy);
       h_key := key; h_hash := hash; h_refs := 0; h_m_flags := 0; h_im_flags := 0 |} in
  _ ← modify (fun s => set_heap (<[e := h]> (heap s)) s);
  mret e.

(** [InsertItem] under the mutex. [want] tells that [handle] is not null. The
    results are the status, whether it is [OkOverwritten], [*handle], and the
    list of last references. *)
Definition InsertItem_locked (e : ptr) (want : bool) : M (Status * bool * ptr * list ptr) :=
  charge ← fld e h_total_charge;
  last_reference_list ← EvictFromLRU charge;
  u ← gets usage_;
  cap ← gets capacity_;
  strict ← gets strict_capacity_limit_;
  if (cap <? u64 (u + charge)) && (strict || negb want) then
    _ ← upd e (SetInCache false);
    if negb want then mret (OK, false, nullptr, last_reference_list ++ [e])
    else
      _ ← free e;
      mret (MemoryLimit "Insert failed due to LRU cache being full.", false, nullptr, last_reference_list)
  else
    old ← Table_Insert e;
    _ ← modify (fun s => set_usage_ (u64 (usage_ s + charge)) s);
    last_reference_list ←
      (if negb (old =? nullptr) then
         in_cache ← fld old InCache;
         _ ← assert_ in_cache;
         _ ← upd old (SetInCache false);
         refs ← fld old HasRefs;
         if negb refs then
           _ ← LRU_Remove old;
           old_charge ← fld old h_total_charge;
           u ← gets usage_;
           _ ← assert_ (old_charge <=? u);
           _ ← modify (set_usage_ (u64 (u - old_charge)));
           mret (last_reference_list ++ [old])
         else mret last_reference_list
       else mret last_reference_list);
    _ ← (if negb want then LRU_Insert e
         else refs ← fld e HasRefs; when_ (negb refs) (upd e Ref));
    mret (OK, negb (old =? nullptr), if want then e else nullptr, last_reference_list).

(** Up to the end of the critical section, with the handle made before it. *)
Definition Insert_locked (key : bytes) (hash value : Z) (helper : CacheItemHelper) (charge : Z)
    (want : bool) (priority : Priority) : M (Status * bool * ptr * list ptr) :=
  e ← CreateHandle key hash value helper charge;
  _ ← upd e (SetPriority priority);
  _ ← upd e (SetInCache true);
  InsertItem_locked e want.

Definition Insert (key : bytes) (hash value : Z) (helper : CacheItemHelper) (charge : Z)
    (want : bool) (priority : Priority) : M (Status * bool * ptr) :=
  r ← Insert_locked key hash value helper charge want priority;
  let '(st, overwritten, handle, last_reference_list) := r in
  _ ← NotifyEvicted last_reference_list;
  mret (st, overwritten, handle).

Definition CreateStandalone_locked (key : bytes) (hash value : Z) (helper : CacheItemHelper)
    (charge : Z) (allow_uncharged : bool) : M (ptr * list ptr) :=
  e ← CreateHandle key hash value helper charge;
  _ ← upd e (SetIsStandalone true);
  _ ← upd e Ref;
  total_charge ← fld e h_total_charge;
  last_reference_list ← EvictFromLRU total_charge;
  strict ← gets strict_capacity_limit_;
  u ← gets usage_;
  cap ← gets capacity_;
  if strict && (cap <? u64 (u + total_charge)) then
    if (allow_uncharged : bool) then
      _ ← upd e (set_h_total_charge 0);
      mret (e, last_reference_list)
    else
      _ ← free e;
      mret (nullptr, last_reference_list)
  else
    _ ← modify (set_usage_ (u64 (u + total_charge)));
    mret (e, last_reference_list).

Definition CreateStandalone (key : bytes) (hash value : Z) (helper : CacheItemHelper)
    (charge : Z) (allow_uncharged : bool) : M ptr :=
  r ← CreateStandalone_locked key hash value helper charge allow_uncharged;
  let '(e, last_reference_list) := r in
  _ ← NotifyEvicted last_reference_list;
  mret e.
End Environment.

(** ** Looking up, releasing and erasing *)

Definition Lookup (key : bytes) (hash : Z) : M ptr :=
  e ← Table_Lookup key hash;
  _ ← when_ (negb (e =? nullptr))
        (in_cache ← fld e InCache;
         _ ← assert_ in_cache;
         refs ← fld e HasRefs;
         _ ← when_ (negb refs) (LRU_Remove e);
         _ ← upd e Ref;
         upd e SetHit);
  mret e.

Definition Shard_Ref (e : ptr) : M bool :=
  refs ← fld e HasRefs;
  _ ← assert_ refs;
  _ ← upd e Ref;
  mret true.

(** Under the mutex: whether the handle must be freed. *)
Definition Release_locked (e : ptr) (erase_if_last_ref : bool) : M bool :=
  refs ← fld e h_refs;
  _ ← assert_ (0 <? refs);
  _ ← upd e (set_h_refs (u32 (refs - 1)));
  must_free ← fld e (fun h => h_refs h =? 0);
  was_in_cache ← fld e InCache;
  must_free ←
    (if must_free && was_in_cache then
       u ← gets usage_;
       cap ← gets capacity_;
       if (cap <? u) || erase_if_last_ref then
         oldest ← fld lru_ h_next;
         _ ← assert_ ((oldest =? lru_) || erase_if_last_ref);
         key ← fld e h_key;
         hash ← fld e h_hash;
         _ ← Table_Remove key hash;
         _ ← upd e (SetInCache false);
         mret true
       else
         _ ← LRU_Insert e;
         mret false
     else mret must_free);
  _ ← when_ must_free
        (charge ← fld e h_total_charge;
         u ← gets usage_;
         _ ← assert_ (charge <=? u);
         modify (set_usage_ (u64 (u - charge))));
  mret must_free.

Definition Shard_Release (e : ptr) (erase_if_last_ref : bool) : M bool :=
  if e =? nullptr then mret false
  else
    must_free ← Release_locked e erase_if_last_ref;
    _ ← when_ must_free (Free e);
    mret must_free.

(** Under the mutex: the entry and whether it lost its last reference. *)
Definition Erase_locked (key : bytes) (hash : Z) : M (ptr * bool) :=
  e ← Table_Remove key hash;
  if negb (e =? nullptr) then
    in_cache ← fld e InCache;
    _ ← assert_ in_cache;
    _ ← upd e (SetInCache false);
    refs ← fld e HasRefs;
    if negb refs then
      _ ← LRU_Remove e;
      charge ← fld e h_total_charge;
      u ← gets usage_;
      _ ← assert_ (charge <=? u);
      _ ← modify (set_usage_ (u64 (u - charge)));
      mret (e, true)
    else mret (e, false)
  else mret (e, false).

Definition Erase (key : bytes) (hash : Z) : M unit :=
  r ← Erase_locked key hash;
  let '(e, last_reference) := r in
  when_ last_reference (Free e).

(** ** Reports *)

Definition GetUsage : M Z := gets usage_.
Definition GetPinnedUsage : M Z :=
  u ← gets usage_;
  l ← gets lru_usage_;
  _ ← assert_ (l <=? u);
  mret (u64 (u - l)).
Definition GetOccupancyCount : M Z := gets (fun s => elems_ (table_ s)).
Definition GetTableAddressCount : M Z := gets (fun s => 2 ^ length_bits_ (table_ s)).

(** ** Destruction *)

(** [ApplyToEntriesRange] from one bucket on, and over a range of buckets; the
    successor is read before the function is applied, which may free the entry. *)
Fixpoint apply_chain (fuel : nat) (func : ptr -> M unit) (h : ptr) : M unit :=
  if h =? nullptr then mret tt
  else
    match fuel with
    | O => fail
    | S fuel =>
        n ← fld h h_next_hash;
        in_cache ← fld h InCache;
        _ ← assert_ in_cache;
        _ ← func h;
        apply_chain fuel func n
    end.

Fixpoint ApplyToEntriesRange (func : ptr -> M unit) (index_begin count : nat) : M unit :=
  match count with
  | O => mret tt
  | S count =>
      h ← load_slot (Bucket (Z.of_nat index_begin));
      fuel ← gets (fun s => size (heap s));
      _ ← apply_chain fuel func h;
      ApplyToEntriesRange func (S index_begin) count
  end.

(** The destructor of the table frees the entries nobody holds. *)
Definition LRUHandleTable_destroy : M unit :=
  bits ← gets (fun s => length_bits_ (table_ s));
  ApplyToEntriesRange (fun h => refs ← fld h HasRefs; when_ (negb refs) (Free h)) 0 (Z.to_nat (2 ^ bits)).
