(* ===== verification/LruRing.v ===== *)
(** * The list of evictable entries

    Total correctness of computations over a shard ([run], with one rule per
    primitive), the doubly linked ring of the evictable entries with its three
    pools ([Ring]), and what [LRU_Remove], [LRU_Insert] and [MaintainPoolSize]
    do to them. The lemmas speak of the lists [B], [L] and [H] of the addresses
    in the bottom, low and high priority pool, the entry to be evicted first at
    the front of [B]. *)

From S2P Require Import Prelude Binary64 Slice LruCache.
#[local] Set Warnings "-clear-no-such-hyp".

(** ** Runs *)

(** [m] returns from [s], with a result and a state that satisfy [Q]. *)
Definition run {A} (m : M A) (s : LRUCacheShard) (Q : A -> LRUCacheShard -> Prop) : Prop :=
  exists a s', m s = Some (a, s') /\ Q a s'.

Lemma run_ret {A} (a : A) s (Q : A -> LRUCacheShard -> Prop) : Q a s -> run (mret a) s Q.
Proof. intros. by exists a, s. Qed.

Lemma run_bind {A B} (m : M A) (k : A -> M B) s Q :
  run m s (fun a s' => run (k a) s' Q) -> run (m ≫= k) s Q.
Proof.
  intros (a & s' & E & b & s'' & E' & HQ). exists b, s''. split; [|done].
  unfold mbind, M_bind. by rewrite E.
Qed.

Lemma run_mono {A} (m : M A) s (P Q : A -> LRUCacheShard -> Prop) :
  run m s P -> (forall a s', P a s' -> Q a s') -> run m s Q.
Proof. intros (a & s' & E & H) HPQ. exists a, s'. eauto. Qed.

Lemma run_seq {A B} (m : M A) (k : A -> M B) s (P : A -> LRUCacheShard -> Prop) Q :
  run m s P -> (forall a s', P a s' -> run (k a) s' Q) -> run (m ≫= k) s Q.
Proof. intros H HPQ. apply run_bind. eapply run_mono; eauto. Qed.

Lemma run_gets {A B} (f : LRUCacheShard -> A) (k : A -> M B) s Q :
  run (k (f s)) s Q -> run (gets f ≫= k) s Q.
Proof. intros. by apply run_bind; exists (f s), s. Qed.

Lemma run_modify {B} (f : LRUCacheShard -> LRUCacheShard) (k : unit -> M B) s Q :
  run (k tt) (f s) Q -> run (modify f ≫= k) s Q.
Proof. intros. by apply run_bind; exists tt, (f s). Qed.

Lemma run_modify_end (f : LRUCacheShard -> LRUCacheShard) s (Q : unit -> LRUCacheShard -> Prop) :
  Q tt (f s) -> run (modify f) s Q.
Proof. intros. by exists tt, (f s). Qed.

Lemma run_assert {B} (b : bool) (k : unit -> M B) s Q :
  b = true -> run (k tt) s Q -> run (assert_ b ≫= k) s Q.
Proof. intros -> ?. by apply run_bind; exists tt, s. Qed.

(** ** Fields of handles *)

Definition fget {A} (f : LRUHandle -> A) (d : A) (H : gmap ptr LRUHandle) (p : ptr) : A :=
  match H !! p with Some h => f h | None => d end.

Abbreviation nx := (fget h_next nullptr).
Abbreviation pv := (fget h_prev nullptr).
Abbreviation charge_at := (fget h_total_charge 0).

Lemma fget_lookup {A} (f : LRUHandle -> A) d H p h : H !! p = Some h -> fget f d H p = f h.
Proof. intros E. unfold fget. by rewrite E. Qed.

(** The heap after [p->f = ...]. *)
Lemma fget_keep {A} (f : LRUHandle -> A) d g H p q :
  (forall h, f (g h) = f h) -> fget f d (alter g p H) q = fget f d H q.
Proof.
  intros E. unfold fget. destruct (decide (p = q)) as [->|]; [|by rewrite lookup_alter_ne].
  rewrite lookup_alter_eq. destruct (H !! q); simpl; auto.
Qed.

Lemma fget_set {A} (f : LRUHandle -> A) d g H p v :
  is_Some (H !! p) -> (forall h, f (g h) = v) -> fget f d (alter g p H) p = v.
Proof. intros [h E] Hv. unfold fget. rewrite lookup_alter_eq, E. simpl. auto. Qed.

Lemma fget_upd {A} (f : LRUHandle -> A) (k : A -> A) d g H p :
  is_Some (H !! p) -> (forall h, f (g h) = k (f h)) -> fget f d (alter g p H) p = k (fget f d H p).
Proof. intros [h E] Hk. unfold fget. rewrite lookup_alter_eq, E. simpl. auto. Qed.

Lemma fget_ne {A} (f : LRUHandle -> A) d g H p q :
  p <> q -> fget f d (alter g p H) q = fget f d H q.
Proof. intros. unfold fget. by rewrite lookup_alter_ne. Qed.

Lemma fmap_keep {A} (f : LRUHandle -> A) (H : gmap ptr LRUHandle) g p :
  (forall h, f (g h) = f h) -> f <$> alter g p H = f <$> H.
Proof.
  intros E. apply map_eq. intros q. rewrite !lookup_fmap.
  destruct (decide (p = q)) as [->|]; [|by rewrite lookup_alter_ne].
  rewrite lookup_alter_eq. destruct (H !! q); simpl; [by rewrite E|done].
Qed.

Lemma cell_alter (H : gmap ptr LRUHandle) g p q : is_Some (alter g p H !! q) <-> is_Some (H !! q).
Proof.
  destruct (decide (p = q)) as [->|]; [|by rewrite lookup_alter_ne].
  rewrite lookup_alter_eq. by rewrite fmap_is_Some.
Qed.

Lemma size_alter (H : gmap ptr LRUHandle) g p : size (alter g p H) = size H.
Proof. by rewrite <- !size_dom, dom_alter_L. Qed.

(** Fields that an equation between projected heaps determines. *)
Lemma fget_fmap {A C} (f : LRUHandle -> C) (k : C -> A) d H H' p :
  f <$> H' = f <$> H -> fget (fun h => k (f h)) d H' p = fget (fun h => k (f h)) d H p.
Proof.
  intros E. unfold fget. assert (Ep : (f <$> H') !! p = (f <$> H) !! p) by by rewrite E.
  rewrite !lookup_fmap in Ep. destruct (H' !! p), (H !! p); simplify_eq/=; congruence.
Qed.

Lemma fget_compose {A C} (f : LRUHandle -> C) (k : C -> A) d d' H p :
  is_Some (H !! p) -> fget (fun h => k (f h)) d H p = k (fget f d' H p).
Proof. intros [h E]. unfold fget. by rewrite E. Qed.

Lemma cell_fmap {C} (f : LRUHandle -> C) (H H' : gmap ptr LRUHandle) p :
  f <$> H' = f <$> H -> is_Some (H' !! p) <-> is_Some (H !! p).
Proof. intros E. rewrite <- !(fmap_is_Some f), <- !lookup_fmap, E. done. Qed.

(** ** Rules for the heap *)

Lemma run_fld {A B} p (f : LRUHandle -> A) d (k : A -> M B) s Q :
  is_Some (heap s !! p) -> run (k (fget f d (heap s) p)) s Q -> run (fld p f ≫= k) s Q.
Proof.
  intros [h E] H. apply run_bind. exists (f h), s. unfold fld. rewrite E. split; [done|].
  unfold fget in H. by rewrite E in H.
Qed.

Lemma alter_insert_some (H : gmap ptr LRUHandle) g p h : H !! p = Some h -> <[p := g h]> H = alter g p H.
Proof.
  intros E. apply map_eq. intros q. destruct (decide (p = q)) as [->|].
  - by rewrite lookup_insert_eq, lookup_alter_eq, E.
  - by rewrite lookup_insert_ne, lookup_alter_ne.
Qed.

Lemma run_upd_end p g s (Q : unit -> LRUCacheShard -> Prop) :
  is_Some (heap s !! p) -> Q tt (set_heap (alter g p (heap s)) s) -> run (upd p g) s Q.
Proof.
  intros [h E] H. exists tt. unfold upd. rewrite E. eexists. split; [done|].
  by rewrite (alter_insert_some _ _ _ _ E).
Qed.

Lemma run_upd {B} p g (k : unit -> M B) s Q :
  is_Some (heap s !! p) -> run (k tt) (set_heap (alter g p (heap s)) s) Q -> run (upd p g ≫= k) s Q.
Proof. intros. apply run_bind. by apply run_upd_end. Qed.

(** [when_] with an assignment to a member. *)
Lemma run_when_low {B} (b : bool) x (k : unit -> M B) s Q :
  run (k tt) (set_lru_low_pri_ (if b then x else lru_low_pri_ s) s) Q ->
  run (when_ b (modify (set_lru_low_pri_ x)) ≫= k) s Q.
Proof. intros. destruct b; [by apply run_modify|]. apply run_bind, run_ret. by destruct s. Qed.

Lemma run_when_bottom {B} (b : bool) x (k : unit -> M B) s Q :
  run (k tt) (set_lru_bottom_pri_ (if b then x else lru_bottom_pri_ s) s) Q ->
  run (when_ b (modify (set_lru_bottom_pri_ x)) ≫= k) s Q.
Proof. intros. destruct b; [by apply run_modify|]. apply run_bind, run_ret. by destruct s. Qed.

(** Members of an updated shard. *)
Ltac members :=
  cbn [heap table_ metadata_charge_policy_ capacity_ high_pri_pool_usage_ low_pri_pool_usage_
    strict_capacity_limit_ high_pri_pool_ratio_ high_pri_pool_capacity_ low_pri_pool_ratio_
    low_pri_pool_capacity_ lru_low_pri_ lru_bottom_pri_ usage_ lru_usage_ deleter_calls
    set_heap set_table_ set_capacity_ set_high_pri_pool_usage_ set_low_pri_pool_usage_
    set_strict_capacity_limit_ set_high_pri_pool_ratio_ set_high_pri_pool_capacity_
    set_low_pri_pool_ratio_ set_low_pri_pool_capacity_ set_lru_low_pri_ set_lru_bottom_pri_
    set_usage_ set_lru_usage_ set_deleter_calls] in *.

Ltac cells := rewrite ?cell_alter; try done; try (eexists; done).

(** One step of a computation; [d] is the default of the field read. *)
Ltac step :=
  first
    [ apply run_gets | apply run_modify | apply run_when_low | apply run_when_bottom
    | eapply run_upd; [members; cells|]
    | apply run_assert ]; members.
Ltac step_fld d := apply (run_fld _ _ d); [members; cells|]; members.

(** ** Flags *)

Lemma has_flag_testbit f k : 0 <= k -> has_bit f (Z.shiftl 1 k) = Z.testbit f k.
Proof.
  intros Hk. unfold has_bit. rewrite Z.shiftl_1_l.
  destruct (Z.testbit f k) eqn:E.
  - destruct (Z.eqb_spec (Z.land f (2 ^ k)) 0) as [E0|]; [|done].
    assert (Z.testbit (Z.land f (2 ^ k)) k = true) by by rewrite Z.land_spec, E, Z.pow2_bits_true.
    by rewrite E0, Z.bits_0 in *.
  - destruct (Z.eqb_spec (Z.land f (2 ^ k)) 0) as [|E0]; [done|]. exfalso. apply E0.
    apply Z.bits_inj_0. intros j. rewrite Z.land_spec, Z.pow2_bits_eqb by done.
    destruct (Z.eqb_spec k j) as [->|]; [by rewrite E|by rewrite andb_false_r].
Qed.

Lemma with_flag_testbit b f k j : 0 <= k -> 0 <= j ->
  Z.testbit (with_flag b f (Z.shiftl 1 k)) j = if k =? j then b else Z.testbit f j.
Proof.
  intros. unfold with_flag. rewrite Z.shiftl_1_l.
  destruct b; rewrite ?Z.lor_spec, ?Z.land_spec, ?Z.lnot_spec, Z.pow2_bits_eqb by done.
  - destruct (k =? j); [apply orb_true_r|apply orb_false_r].
  - destruct (k =? j); [apply andb_false_r|apply andb_true_r].
Qed.

Lemma flag_same b f k j : 0 <= k -> 0 <= j ->
  has_bit (with_flag b f (Z.shiftl 1 k)) (Z.shiftl 1 j) = if k =? j then b else has_bit f (Z.shiftl 1 j).
Proof. intros. by rewrite !has_flag_testbit, with_flag_testbit. Qed.

(** The flags after assignments to flags. *)
Ltac flags :=
  repeat (unfold InCache, HasHit, InHighPriPool, InLowPriPool, SetInCache, SetHit, SetInHighPriPool,
    SetInLowPriPool, IsHighPri, IsLowPri, M_IN_CACHE, M_HAS_HIT, M_IN_HIGH_PRI_POOL, M_IN_LOW_PRI_POOL in *;
    cbn -[with_flag has_bit Z.shiftl] in *);
  rewrite ?flag_same by lia; cbn -[with_flag has_bit Z.shiftl].

(** The pool an entry is marked for: high and low. *)
Definition pool (h : LRUHandle) : bool * bool := (InHighPriPool h, InLowPriPool h).

(** ** Doubly linked segments *)

(** Neighbours of [l] point at each other. *)
Fixpoint links (n p : ptr -> ptr) (l : list ptr) : Prop :=
  match l with
  | a :: ((b :: _) as t) => n a = b /\ p b = a /\ links n p t
  | _ => True
  end.

Lemma links_app n p l1 a l2 :
  links n p (l1 ++ a :: l2) <-> links n p (l1 ++ [a]) /\ links n p (a :: l2).
Proof.
  induction l1 as [|x l1 IH]; [simpl; tauto|].
  destruct l1 as [|y l1]; simpl in *; [tauto|]. rewrite IH. tauto.
Qed.

(** A segment depends on the [next] of all its elements but the last and on the
    [prev] of all but the first. *)
Lemma links_ext n p n' p' l :
  (forall a, a ∈ removelast l -> n' a = n a) -> (forall b, b ∈ tail l -> p' b = p b) ->
  links n p l -> links n' p' l.
Proof.
  induction l as [|a l IH]; [done|]. destruct l as [|b l]; [done|].
  intros Hn Hp (H1 & H2 & H3). simpl in Hn, Hp. split; [rewrite Hn; set_solver|].
  split; [rewrite Hp; set_solver|]. apply IH; [set_solver..|done].
Qed.

Lemma removelast_app_cons {A} (l1 : list A) a l2 : removelast (l1 ++ a :: l2) = l1 ++ removelast (a :: l2).
Proof. by rewrite removelast_app. Qed.

Lemma tail_app_cons {A} (l1 : list A) a l2 : tail (l1 ++ a :: l2) = tail (l1 ++ [a]) ++ l2.
Proof. destruct l1; [done|]. simpl. by rewrite <- app_assoc. Qed.

(** Taking [e] out. *)
Lemma links_remove n p n' p' X a e b Y :
  NoDup (removelast (X ++ a :: e :: b :: Y)) -> NoDup (tail (X ++ a :: e :: b :: Y)) ->
  links n p (X ++ a :: e :: b :: Y) ->
  n' a = b -> (forall x, x <> a -> x <> e -> n' x = n x) ->
  p' b = a -> (forall x, x <> b -> x <> e -> p' x = p x) ->
  links n' p' (X ++ a :: b :: Y).
Proof.
  intros Hn Ht HL Ha Hn' Hb Hp'.
  rewrite removelast_app_cons in Hn. rewrite tail_app_cons in Ht.
  assert (Hr : removelast (a :: e :: b :: Y) = a :: e :: removelast (b :: Y)) by done.
  rewrite Hr in Hn. clear Hr.
  apply links_app in HL as [H1 H2]. apply links_app. split.
  - eapply links_ext; [| |exact H1].
    + rewrite removelast_last. intros x Hx. apply Hn'; intros ->.
      all: apply list.NoDup_app in Hn as (_ & Hd & _); apply (Hd _ Hx); set_solver.
    + intros x Hx. apply Hp'; intros ->; apply list.NoDup_app in Ht as (_ & Hd & _); apply (Hd _ Hx); set_solver.
  - destruct H2 as (_ & _ & _ & _ & H3). split; [done|]. split; [done|].
    apply list.NoDup_app in Hn as (_ & _ & Hn). apply list.NoDup_app in Ht as (_ & _ & Ht).
    eapply links_ext; [| |exact H3].
    + intros x Hx. apply list.NoDup_cons in Hn as [Hn1 Hn]. apply list.NoDup_cons in Hn as [Hn2 _].
      apply Hn'; intros ->; [apply Hn1|apply Hn2]; set_solver.
    + intros x Hx. simpl in Hx. apply list.NoDup_cons in Ht as [Ht1 Ht]. apply list.NoDup_cons in Ht as [Ht2 _].
      apply Hp'; intros ->; [by apply Ht2|apply Ht1; set_solver].
Qed.

(** Putting [e] between [a] and [b]. *)
Lemma links_insert n p n' p' X a e b Y :
  NoDup (removelast (X ++ a :: b :: Y)) -> NoDup (tail (X ++ a :: b :: Y)) ->
  e ∉ X ++ a :: b :: Y ->
  links n p (X ++ a :: b :: Y) ->
  n' e = b -> n' a = e -> (forall x, x <> a -> x <> e -> n' x = n x) ->
  p' e = a -> p' b = e -> (forall x, x <> b -> x <> e -> p' x = p x) ->
  links n' p' (X ++ a :: e :: b :: Y).
Proof.
  intros Hn Ht He HL Hne Hna Hn' Hpe Hpb Hp'.
  rewrite removelast_app_cons in Hn. rewrite tail_app_cons in Ht.
  assert (Hr : removelast (a :: b :: Y) = a :: removelast (b :: Y)) by done.
  rewrite Hr in Hn. clear Hr.
  apply links_app in HL as [H1 H2]. apply links_app. split.
  - eapply links_ext; [| |exact H1].
    + rewrite removelast_last. intros x Hx. apply Hn'; intros ->; [|set_solver].
      apply list.NoDup_app in Hn as (_ & Hd & _). apply (Hd _ Hx). set_solver.
    + intros x Hx. apply Hp'; intros ->; apply list.NoDup_app in Ht as (_ & Hd & _).
      * apply (Hd _ Hx). set_solver.
      * apply He. destruct X; simpl in Hx; set_solver.
  - destruct H2 as (_ & _ & H3). do 4 (split; [done|]).
    apply list.NoDup_app in Hn as (_ & _ & Hn). apply list.NoDup_app in Ht as (_ & _ & Ht).
    eapply links_ext; [| |exact H3].
    + intros x Hx. apply list.NoDup_cons in Hn as [Hn1 _]. apply Hn'; intros ->; [by apply Hn1|].
      apply He. assert (e ∈ b :: Y); [|set_solver].
      destruct (exists_last (l := b :: Y)) as (l' & z & E); [done|]. rewrite E, removelast_last in *. set_solver.
    + intros x Hx. simpl in Hx. apply list.NoDup_cons in Ht as [Ht1 _]. apply Hp'; intros ->; [by apply Ht1|set_solver].
Qed.

(** ** Sums of charges *)

Fixpoint charges (H : gmap ptr LRUHandle) (l : list ptr) : Z :=
  match l with
  | [] => 0
  | p :: l => charge_at H p + charges H l
  end.

Lemma charges_app H l1 l2 : charges H (l1 ++ l2) = charges H l1 + charges H l2.
Proof. induction l1 as [|p l1 IH]; simpl; [done|]. rewrite IH. lia. Qed.

Lemma charges_ext H H' l : (forall p, p ∈ l -> charge_at H' p = charge_at H p) -> charges H' l = charges H l.
Proof. induction l as [|p l IH]; intros E; simpl; [done|]. rewrite E, IH; set_solver. Qed.

Lemma charges_perm H l1 l2 : l1 ≡ₚ l2 -> charges H l1 = charges H l2.
Proof. induction 1; simpl; lia. Qed.

Definition charges_ok (H : gmap ptr LRUHandle) : Prop := forall p, 0 <= charge_at H p.

Lemma charges_nonneg H l : charges_ok H -> 0 <= charges H l.
Proof. intros Hok. induction l as [|p l IH]; simpl; [lia|]. pose proof (Hok p). lia. Qed.

Lemma charges_submseteq H l1 l2 : charges_ok H -> l1 ⊆+ l2 -> charges H l1 <= charges H l2.
Proof.
  intros Hok [k Hk]%submseteq_Permutation. rewrite (charges_perm H _ _ Hk), charges_app.
  pose proof (charges_nonneg H k Hok). lia.
Qed.

(** A list of distinct cells is no longer than the heap. *)
Lemma cells_length (H : gmap ptr LRUHandle) l :
  NoDup l -> (forall p, p ∈ l -> is_Some (H !! p)) -> (length l <= size H)%nat.
Proof.
  intros Hn Hin. rewrite <- (size_dom H), <- (size_list_to_set (C := gset ptr) l) by done.
  apply subseteq_size. intros p Hp. apply elem_of_dom. apply Hin. set_solver.
Qed.

(** ** The ring *)

(** The dummy head, the pools from the entry evicted first to the newest one,
    and the dummy head again. *)
Definition ring (B L H : list ptr) : list ptr := lru_ :: (B ++ L ++ H) ++ [lru_].

Definition marked (heap : gmap ptr LRUHandle) (m : bool * bool) (l : list ptr) : Prop :=
  forall p, p ∈ l -> fget pool (true, true) heap p = m.

(** Everything but [lru_low_pri_] and [lru_usage_], which lag behind in the
    middle of [LRU_Insert]. *)
Record Ring0 (s : LRUCacheShard) (B L H : list ptr) : Prop := {
  r_links : links (nx (heap s)) (pv (heap s)) (ring B L H);
  r_nodup : NoDup (nullptr :: lru_ :: B ++ L ++ H);
  r_cells : forall p, p ∈ lru_ :: B ++ L ++ H -> is_Some (heap s !! p);
  r_out : forall p, p ∉ lru_ :: B ++ L ++ H -> nx (heap s) p = nullptr /\ pv (heap s) p = nullptr;
  r_bottom : lru_bottom_pri_ s = List.last B lru_;
  r_marked_b : marked (heap s) (false, false) B;
  r_marked_l : marked (heap s) (false, true) L;
  r_marked_h : marked (heap s) (true, false) H;
  r_high : high_pri_pool_usage_ s = charges (heap s) H;
  r_low : low_pri_pool_usage_ s = charges (heap s) L;
  r_charges : charges_ok (heap s);
  r_fits : charges (heap s) (B ++ L ++ H) < 2 ^ 64
}.

Record Ring (s : LRUCacheShard) (B L H : list ptr) : Prop := {
  r_ring : Ring0 s B L H;
  r_low_pri : lru_low_pri_ s = List.last (B ++ L) lru_;
  r_usage : lru_usage_ s = charges (heap s) (B ++ L ++ H)
}.

(** What the list operations leave alone. *)
Definition ring_rest (h : LRUHandle) :=
  (h_value h, h_helper h, h_next_hash h, h_total_charge h, h_key h, h_hash h, h_refs h,
   InCache h, HasHit h, h_im_flags h).

Definition shard_rest (s : LRUCacheShard) :=
  (ring_rest <$> heap s, table_ s, metadata_charge_policy_ s, capacity_ s, strict_capacity_limit_ s,
   high_pri_pool_ratio_ s, high_pri_pool_capacity_ s, low_pri_pool_ratio_ s, low_pri_pool_capacity_ s,
   usage_ s, deleter_calls s).

Lemma ring_nodup_front s B L H : Ring0 s B L H -> NoDup (removelast (ring B L H)).
Proof.
  intros R. unfold ring. change (lru_ :: ?l) with ([lru_] ++ l). rewrite app_assoc, removelast_last.
  pose proof (r_nodup _ _ _ _ R) as Hn. by inversion Hn.
Qed.

Lemma ring_nodup_back s B L H : Ring0 s B L H -> NoDup (tail (ring B L H)).
Proof.
  intros R. unfold ring. simpl. pose proof (r_nodup _ _ _ _ R) as Hn.
  rewrite (Permutation_app_comm (B ++ L ++ H) [lru_]). simpl. by inversion Hn.
Qed.

Lemma last_snoc {A} (l : list A) x d : List.last (l ++ [x]) d = x.
Proof. apply last_last. Qed.

(** A ring seen around one of its elements: the predecessor and the successor. *)
Lemma ring_split l1 e l2 : exists X a b Y,
  lru_ :: (l1 ++ e :: l2) ++ [lru_] = X ++ a :: e :: b :: Y /\
  lru_ :: (l1 ++ l2) ++ [lru_] = X ++ a :: b :: Y /\
  a = List.last l1 lru_ /\ b = hd lru_ l2.
Proof.
  destruct (exists_last (l := lru_ :: l1)) as (X & a & E1); [done|].
  destruct (l2 ++ [lru_]) as [|b Y] eqn:E2; [by destruct l2|].
  exists X, a, b, Y. rewrite <- !app_assoc. simpl. rewrite E2.
  change (lru_ :: l1 ++ ?x) with ((lru_ :: l1) ++ x). rewrite E1, <- !app_assoc. simpl.
  split; [done|]. split; [done|]. split.
  - destruct l1 as [|y l1]; simpl in *; [by apply (app_inj_tail [] X) in E1 as [_ <-]|].
    assert (E : List.last (lru_ :: y :: l1) lru_ = a) by (rewrite E1; apply last_last). done.
  - destruct l2; simpl in *; congruence.
Qed.

Lemma ring_facts s B L H : Ring0 s B L H ->
  nullptr <> lru_ /\ (nullptr ∉ B ++ L ++ H) /\ (lru_ ∉ B ++ L ++ H) /\ NoDup (B ++ L ++ H).
Proof.
  intros R. pose proof (r_nodup _ _ _ _ R) as Hn. apply list.NoDup_cons in Hn as [H1 Hn].
  apply list.NoDup_cons in Hn as [H2 Hn]. set_solver.
Qed.

Lemma charges_u64 s B L H l : Ring0 s B L H -> l ⊆+ B ++ L ++ H -> is_u64 (charges (heap s) l).
Proof.
  intros R Hl. pose proof (charges_submseteq (heap s) _ _ (r_charges _ _ _ _ R) Hl).
  pose proof (charges_nonneg (heap s) l (r_charges _ _ _ _ R)). pose proof (r_fits _ _ _ _ R).
  unfold is_u64. lia.
Qed.

(** Removing an address from a list. *)
Definition del (e : ptr) (l : list ptr) : list ptr := filter (fun x => x <> e) l.

Lemma del_app e l1 l2 : del e (l1 ++ l2) = del e l1 ++ del e l2.
Proof. apply list.filter_app. Qed.

Lemma del_notin e l : e ∉ l -> del e l = l.
Proof.
  unfold del. induction l as [|x l IH]; [done|]. intros He. rewrite filter_cons_True by set_solver.
  rewrite IH; set_solver.
Qed.

Lemma del_cons e l : del e (e :: l) = del e l.
Proof. apply filter_cons_False. naive_solver. Qed.

Lemma elem_of_del x e l : x ∈ del e l <-> x <> e /\ x ∈ l.
Proof. unfold del. by rewrite list_elem_of_filter. Qed.

Lemma del_perm e l : NoDup l -> e ∈ l -> l ≡ₚ e :: del e l.
Proof.
  intros Hn (l1 & l2 & ->)%list_elem_of_split. apply list.NoDup_app in Hn as (_ & Hd & Hn).
  apply list.NoDup_cons in Hn as [Hn _].
  rewrite del_app, del_cons, !del_notin; [|done|intros Hx; apply (Hd _ Hx); set_solver].
  by rewrite Permutation_middle.
Qed.

Lemma del_mid e l1 l2 : NoDup (l1 ++ e :: l2) -> del e (l1 ++ e :: l2) = l1 ++ l2.
Proof.
  intros Hn. apply list.NoDup_app in Hn as (_ & Hd & Hn). apply list.NoDup_cons in Hn as [Hn _].
  rewrite del_app, del_cons, !del_notin; [done|done|intros Hx; apply (Hd _ Hx); set_solver].
Qed.

Lemma charges_del H e l : NoDup l -> e ∈ l -> charges H (del e l) = charges H l - charge_at H e.
Proof. intros Hn He. rewrite (charges_perm H l (e :: del e l)) by by apply del_perm. simpl. lia. Qed.

Lemma NoDup_del e l : NoDup l -> NoDup (del e l).
Proof. apply list.NoDup_filter. Qed.

Lemma last_in (l : list ptr) d : List.last l d = d \/ List.last l d ∈ l.
Proof.
  destruct l as [|x l] using rev_ind; [by left|]. rewrite last_last. right. set_solver.
Qed.

Lemma split_unique {A} (e : A) l1 r1 l2 r2 :
  NoDup (l1 ++ e :: r1) -> l1 ++ e :: r1 = l2 ++ e :: r2 -> l1 = l2.
Proof.
  revert l2. induction l1 as [|x l1 IH]; intros [|y l2] Hn E; simplify_eq/=; [done| | |].
  - apply list.NoDup_cons in Hn as [Hn _]. set_solver.
  - apply list.NoDup_cons in Hn as [Hn _]. set_solver.
  - f_equal. apply IH; [by inversion Hn|done].
Qed.

Lemma last_del e d l r l1 l2 : NoDup (l ++ r) -> e <> d -> l ++ r = l1 ++ e :: l2 ->
  List.last (del e l) d = if List.last l d =? e then List.last l1 d else List.last l d.
Proof.
  intros Hn Hd E. destruct (decide (e ∈ l)) as [(m1 & m2 & ->)%list_elem_of_split|He].
  - assert (Hl : NoDup (m1 ++ e :: m2)) by by apply list.NoDup_app in Hn as (? & _).
    rewrite del_mid by done. rewrite <- app_assoc in Hn, E. simpl in Hn, E.
    pose proof (split_unique e _ _ _ _ Hn E) as <-.
    destruct m2 as [|x m2] using rev_ind; [rewrite last_last, Z.eqb_refl; by rewrite app_nil_r|].
    rewrite app_comm_cons, !app_assoc, !last_last.
    destruct (Z.eqb_spec x e) as [->|]; [|done]. apply list.NoDup_app in Hl as (_ & _ & Hl).
    apply list.NoDup_cons in Hl as [Hl _]. set_solver.
  - rewrite del_notin by done. destruct (Z.eqb_spec (List.last l d) e) as [Hl|]; [|done].
    destruct (last_in l d); congruence.
Qed.

(** ** [LRU_Remove] *)

Section remove.
Context (s : LRUCacheShard) (B L H : list ptr) (e : ptr).
Hypothesis HR : Ring s B L H.
Hypothesis He : e ∈ B ++ L ++ H.

(** The neighbours of [e]. *)
Definition around (X Y : list ptr) (a b : ptr) (l1 l2 : list ptr) : Prop :=
  B ++ L ++ H = l1 ++ e :: l2 /\
  ring B L H = X ++ a :: e :: b :: Y /\
  ring (del e B) (del e L) (del e H) = X ++ a :: b :: Y /\
  a = List.last l1 lru_ /\
  nx (heap s) e = b /\ pv (heap s) e = a /\ a ∈ lru_ :: B ++ L ++ H /\ b ∈ lru_ :: B ++ L ++ H /\
  a <> e /\ b <> e.

Lemma around_exists : exists X Y a b l1 l2, around X Y a b l1 l2.
Proof.
  pose proof (r_ring _ _ _ _ HR) as R. destruct (ring_facts _ _ _ _ R) as (Hnull & Hnn & Hlru & Hn).
  destruct (list_elem_of_split _ _ He) as (l1 & l2 & E).
  destruct (ring_split l1 e l2) as (X & a & b & Y & E1 & E2 & Ea & Eb).
  exists X, Y, a, b, l1, l2. split; [done|].
  assert (Hring : ring B L H = X ++ a :: e :: b :: Y) by (unfold ring; rewrite E; done).
  split; [done|]. split.
  { unfold ring. rewrite <- !del_app, E, del_mid; [done|by rewrite <- E]. }
  split; [done|]. pose proof (r_links _ _ _ _ R) as HL. rewrite Hring in HL.
  apply links_app in HL as [_ (Hna & Hpe & Hne & _)].
  do 2 (split; [done|]). assert (e <> lru_) by (intros ->; done). rewrite E in Hn |- *.
  pose proof Hn as Hn'. apply list.NoDup_app in Hn' as (_ & Hd & Hn2). apply list.NoDup_cons in Hn2 as [He2 _].
  assert (He1 : e ∉ l1) by (intros Hx; apply (Hd _ Hx); set_solver).
  assert (Ha : a = lru_ \/ a ∈ l1) by (rewrite Ea; apply last_in).
  assert (Hb : b = lru_ \/ b ∈ l2) by (destruct l2; [by left|right; subst b; left]).
  rewrite !elem_of_cons, !elem_of_app, !elem_of_cons. clear - Ha Hb H0 He1 He2. naive_solver.
Qed.

Lemma Ring_removed s' X Y a b l1 l2 :
  around X Y a b l1 l2 ->
  nx (heap s') a = b -> (forall x, x <> a -> x <> e -> nx (heap s') x = nx (heap s) x) ->
  pv (heap s') b = a -> (forall x, x <> b -> x <> e -> pv (heap s') x = pv (heap s) x) ->
  nx (heap s') e = nullptr -> pv (heap s') e = nullptr ->
  shard_rest s' = shard_rest s -> (forall p d, fget pool d (heap s') p = fget pool d (heap s) p) ->
  lru_low_pri_ s' = (if lru_low_pri_ s =? e then a else lru_low_pri_ s) ->
  lru_bottom_pri_ s' = (if lru_bottom_pri_ s =? e then a else lru_bottom_pri_ s) ->
  high_pri_pool_usage_ s' = charges (heap s) (del e H) ->
  low_pri_pool_usage_ s' = charges (heap s) (del e L) ->
  lru_usage_ s' = charges (heap s) (del e (B ++ L ++ H)) ->
  Ring s' (del e B) (del e L) (del e H).
Proof.
  intros (E & Hr & Hr' & Ha & Hne & Hpe & Hina & Hinb & Hae & Hbe) Hna Hnx Hpb Hpv Hen Hep Hrest Hpool
    Hlow Hbot Hhu Hlu Hu.
  pose proof (r_ring _ _ _ _ HR) as R. destruct (ring_facts _ _ _ _ R) as (Hnull & Hnn & Hlru & Hn).
  assert (Hel : e <> lru_) by (intros ->; done).
  assert (Hheap : ring_rest <$> heap s' = ring_rest <$> heap s) by (unfold shard_rest in Hrest; congruence).
  assert (Hch : forall p, charge_at (heap s') p = charge_at (heap s) p).
  { intros p. apply (fget_fmap ring_rest (fun x => x.1.1.1.1.1.1.2)). done. }
  assert (Hchs : forall l, charges (heap s') l = charges (heap s) l) by (intros; by apply charges_ext).
  assert (Hsub : forall x l, x ∈ del e l -> x ∈ l) by (intros x l Hx; by apply elem_of_del in Hx as [_ ?]).
  split; [split|..].
  - rewrite Hr'. eapply (links_remove _ _ _ _ X a e b Y); try done; rewrite <- Hr.
    + by eapply ring_nodup_front.
    + by eapply ring_nodup_back.
    + apply (r_links _ _ _ _ R).
  - rewrite <- !del_app. pose proof (NoDup_del e _ (r_nodup _ _ _ _ R)) as Hd.
    change (nullptr :: lru_ :: B ++ L ++ H) with ([nullptr; lru_] ++ B ++ L ++ H) in Hd.
    rewrite del_app, (del_notin e [nullptr; lru_]) in Hd; [done|]. set_unfold. intros [->|[->|[]]]; done.
  - intros p Hp. rewrite (cell_fmap _ _ _ p Hheap). apply (r_cells _ _ _ _ R).
    rewrite <- !del_app in Hp. apply elem_of_cons in Hp as [->|Hp]; [left|right; eauto].
  - intros p Hp. rewrite <- !del_app in Hp. destruct (decide (p = e)) as [->|Hpe']; [done|].
    assert (Hp' : p ∉ lru_ :: B ++ L ++ H).
    { rewrite not_elem_of_cons in *. rewrite elem_of_del in Hp. tauto. }
    rewrite Hnx, Hpv by (done || (intros ->; done)). by apply (r_out _ _ _ _ R).
  - rewrite (last_del e lru_ B (L ++ H) l1 l2), <- Ha, Hbot, (r_bottom _ _ _ _ R) by done. done.
  - intros p Hp. rewrite Hpool. apply (r_marked_b _ _ _ _ R). eauto.
  - intros p Hp. rewrite Hpool. apply (r_marked_l _ _ _ _ R). eauto.
  - intros p Hp. rewrite Hpool. apply (r_marked_h _ _ _ _ R). eauto.
  - by rewrite Hchs.
  - by rewrite Hchs.
  - intros p. rewrite Hch. apply (r_charges _ _ _ _ R).
  - rewrite Hchs, <- !del_app, charges_del by done. pose proof (r_fits _ _ _ _ R).
    pose proof (r_charges _ _ _ _ R e). lia.
  - rewrite <- del_app, (last_del e lru_ (B ++ L) H l1 l2), <- Ha, Hlow, (r_low_pri _ _ _ _ HR); try done.
    all: by rewrite <- app_assoc.
  - by rewrite Hchs, <- !del_app.
Qed.

(** Which pool [e] is in. *)
Lemma pool_case : exists hi lo : bool,
  fget InHighPriPool true (heap s) e = hi /\ fget InLowPriPool true (heap s) e = lo /\
  negb hi || negb lo = true /\
  charges (heap s) (del e H) = charges (heap s) H - (if hi then charge_at (heap s) e else 0) /\
  charges (heap s) (del e L) = charges (heap s) L - (if lo then charge_at (heap s) e else 0).
Proof.
  pose proof (r_ring _ _ _ _ HR) as R. destruct (ring_facts _ _ _ _ R) as (_ & _ & _ & Hn).
  assert (Hc : is_Some (heap s !! e)) by (apply (r_cells _ _ _ _ R); by right).
  exists (fget pool (true, true) (heap s) e).1, (fget pool (true, true) (heap s) e).2.
  split; [by apply (fget_compose pool fst)|]. split; [by apply (fget_compose pool snd)|].
  apply list.NoDup_app in Hn as (HnB & HdB & Hn). apply list.NoDup_app in Hn as (HnL & HdL & HnH).
  rewrite !elem_of_app in He. destruct He as [Hi|[Hi|Hi]].
  - assert ((e ∉ L) /\ (e ∉ H)) as [] by (split; intros Hx; apply (HdB _ Hi), elem_of_app; auto).
    rewrite (r_marked_b _ _ _ _ R), !del_notin by done. simpl. auto with lia.
  - assert (e ∉ H) by (intros Hx; by apply (HdL _ Hi)).
    rewrite (r_marked_l _ _ _ _ R), (del_notin e H), charges_del by done. simpl. auto with lia.
  - assert (e ∉ L) by (intros Hx; by apply (HdL _ Hx)).
    rewrite (r_marked_h _ _ _ _ R), (del_notin e L), charges_del by done. simpl. auto with lia.
Qed.

Lemma remove_bounds :
  is_u64 (lru_usage_ s - charge_at (heap s) e) /\ charge_at (heap s) e <= lru_usage_ s /\
  charges (heap s) (del e (B ++ L ++ H)) = lru_usage_ s - charge_at (heap s) e /\
  is_u64 (charges (heap s) (del e H)) /\ is_u64 (charges (heap s) (del e L)).
Proof.
  pose proof (r_ring _ _ _ _ HR) as R. destruct (ring_facts _ _ _ _ R) as (_ & _ & _ & Hn).
  assert (Hu : charges (heap s) (del e (B ++ L ++ H)) = lru_usage_ s - charge_at (heap s) e)
    by (rewrite charges_del, (r_usage _ _ _ _ HR); done).
  assert (Hd : forall l, del e l ⊆+ l) by (intros; apply sublist_submseteq, sublist_filter).
  pose proof (charges_u64 _ _ _ _ _ R (Hd (B ++ L ++ H))) as Hf. rewrite Hu in Hf.
  split; [done|]. split; [unfold is_u64 in Hf; lia|]. split; [done|].
  split; apply (charges_u64 _ _ _ _ _ R); [rewrite (Hd H)|rewrite (Hd L)].
  - by apply submseteq_inserts_l, submseteq_inserts_l.
  - by apply submseteq_inserts_l, submseteq_inserts_r.
Qed.

(** The heap after [LRU_Remove]. *)
Definition removed_heap (a b : ptr) : gmap ptr LRUHandle :=
  alter (fun h => set_h_prev nullptr (set_h_next nullptr h)) e
    (alter (set_h_next b) a (alter (set_h_prev a) b (heap s))).

Lemma Ring_removed_heap s' X Y a b l1 l2 :
  around X Y a b l1 l2 -> heap s' = removed_heap a b ->
  shard_rest s' = shard_rest (set_heap (heap s') s) ->
  lru_low_pri_ s' = (if lru_low_pri_ s =? e then a else lru_low_pri_ s) ->
  lru_bottom_pri_ s' = (if lru_bottom_pri_ s =? e then a else lru_bottom_pri_ s) ->
  high_pri_pool_usage_ s' = charges (heap s) (del e H) ->
  low_pri_pool_usage_ s' = charges (heap s) (del e L) ->
  lru_usage_ s' = u64 (lru_usage_ s - charge_at (heap s) e) ->
  Ring s' (del e B) (del e L) (del e H) /\ shard_rest s' = shard_rest s.
Proof.
  intros Har Eh Er Hl Hb Hhu Hlu Hu. pose proof Har as (_ & _ & _ & _ & _ & _ & Hina & Hinb & Hae & Hbe).
  pose proof (r_cells _ _ _ _ (r_ring _ _ _ _ HR)) as Hc. destruct remove_bounds as (Hf & _ & Hd & _).
  assert (is_Some (heap s !! e)) by (apply Hc; by right).
  assert (is_Some (heap s !! a)) by auto. assert (is_Some (heap s !! b)) by auto.
  rewrite u64_id in Hu by done.
  assert (Hrest : shard_rest s' = shard_rest s).
  { rewrite Er. unfold shard_rest. members. rewrite Eh. unfold removed_heap. by rewrite !fmap_keep. }
  split; [|done]. eapply (Ring_removed s' X Y a b l1 l2); try done; rewrite ?Eh; unfold removed_heap.
  - by rewrite fget_ne, (fget_set _ _ _ _ _ b) by (done || cells).
  - intros x Hxa Hxe. by rewrite !fget_ne, (fget_keep h_next) by done.
  - rewrite fget_ne, (fget_keep h_prev) by done. by rewrite (fget_set _ _ _ _ _ a) by (done || cells).
  - intros x Hxb Hxe. by rewrite fget_ne, (fget_keep h_prev), fget_ne by done.
  - by apply fget_set; [cells|].
  - by apply fget_set; [cells|].
  - intros p d. by rewrite !fget_keep.
  - congruence.
Qed.

Lemma LRU_Remove_ok : run (LRU_Remove e) s (fun _ s' =>
  Ring s' (del e B) (del e L) (del e H) /\ shard_rest s' = shard_rest s).
Proof.
  destruct around_exists as (X & Y & a & b & l1 & l2 & Har).
  pose proof Har as (_ & _ & _ & _ & Hne & Hpe & Hina & Hinb & _).
  destruct pool_case as (hi & lo & Hhi & Hlo & Hhl & Hch & Hcl).
  destruct remove_bounds as (_ & Hle & _ & Hfh & Hfl).
  pose proof (r_ring _ _ _ _ HR) as R. destruct (ring_facts _ _ _ _ R) as (_ & Hnn & _).
  pose proof (r_cells _ _ _ _ R) as Hc.
  assert (is_Some (heap s !! e)) by (apply Hc; by right).
  assert (is_Some (heap s !! a)) by auto. assert (is_Some (heap s !! b)) by auto.
  assert (a <> nullptr) by (intros ->; by apply elem_of_cons in Hina as [|]).
  assert (b <> nullptr) by (intros ->; by apply elem_of_cons in Hinb as [|]).
  rewrite <- (r_high _ _ _ _ R) in Hch. rewrite <- (r_low _ _ _ _ R) in Hcl. 
  unfold LRU_Remove. step_fld nullptr. step_fld nullptr. rewrite Hne, Hpe.
  step; [by apply negb_true_iff, Z.eqb_neq|]. step; [by apply negb_true_iff, Z.eqb_neq|].
  do 7 step. step_fld 0. step. rewrite !(fget_keep h_total_charge) by done.
  step; [by apply Z.leb_le|]. step. step_fld true. step_fld true.
  rewrite !(fget_keep InHighPriPool), !(fget_keep InLowPriPool), Hhi, Hlo by done. step; [done|].
  pose proof (fun s' => Ring_removed_heap s' X Y a b l1 l2 Har) as Hfin.
  unfold is_u64 in *. destruct hi, lo; rewrite ?Z.sub_0_r in *; try done.
  - step. step; [apply Z.leb_le; lia|]. apply run_modify_end. apply Hfin; try done; members.
    rewrite u64_id by (unfold is_u64; lia). done.
  - step. step; [apply Z.leb_le; lia|]. apply run_modify_end. apply Hfin; try done; members.
    rewrite u64_id by (unfold is_u64; lia). done.
  - apply run_ret. by apply Hfin.
Qed.
End remove.

(** ** [MaintainPoolSize] *)

(** The entries at the front of a pool that have to leave it, and the rest. *)
Fixpoint spill (cap : double) (heap : gmap ptr LRUHandle) (l : list ptr) : list ptr * list ptr :=
  if dbl_ltb cap (dbl_of_size (charges heap l)) then
    match l with
    | [] => ([], [])
    | x :: l' => let (out, rest) := spill cap heap l' in (x :: out, rest)
    end
  else ([], l).

Lemma spill_app cap heap l : (spill cap heap l).1 ++ (spill cap heap l).2 = l.
Proof.
  induction l as [|x l IH]; simpl; [by destruct (dbl_ltb _ _)|].
  destruct (dbl_ltb _ _); [|done]. destruct (spill cap heap l). simpl in *. congruence.
Qed.

Lemma spill_fits cap heap l : dbl_nonneg cap ->
  dbl_ltb cap (dbl_of_size (charges heap (spill cap heap l).2)) = false.
Proof.
  intros Hc. induction l as [|x l IH]; cbn [spill charges].
  - pose proof (nonneg_fits cap Hc) as E. by rewrite E.
  - destruct (dbl_ltb cap (dbl_of_size (charge_at heap x + charges heap l))) eqn:E; [|done].
    by destruct (spill cap heap l).
Qed.

Lemma spill_ext cap H H' l : (forall p, charge_at H' p = charge_at H p) -> spill cap H' l = spill cap H l.
Proof.
  intros E. induction l as [|x l IH]; simpl; [done|].
  rewrite E, (charges_ext H H' l), IH by auto. done.
Qed.

(** The entry behind a prefix of the ring. *)
Lemma ring_next s B L H l1 x l2 : Ring0 s B L H -> B ++ L ++ H = l1 ++ x :: l2 ->
  nx (heap s) (List.last l1 lru_) = x /\ is_Some (heap s !! List.last l1 lru_) /\ is_Some (heap s !! x) /\ x <> lru_.
Proof.
  intros R E. destruct (ring_split l1 x l2) as (X & a & b & Y & E1 & _ & -> & _).
  pose proof (r_links _ _ _ _ R) as HL. unfold ring in HL. rewrite E, E1 in HL.
  apply links_app in HL as [_ (Hx & _)]. split; [done|].
  pose proof (r_cells _ _ _ _ R) as Hc. rewrite E in Hc. split; [|split].
  - apply Hc. destruct (last_in l1 lru_) as [->|Hl]; [left|right]. apply elem_of_app. auto.
  - apply Hc. right. apply elem_of_app. right. left.
  - intros ->. destruct (ring_facts _ _ _ _ R) as (_ & _ & Hlru & _). apply Hlru. rewrite E.
    apply elem_of_app. right. left.
Qed.

Lemma charges_rest s s' : shard_rest s' = shard_rest s ->
  forall p, charge_at (heap s') p = charge_at (heap s) p.
Proof.
  intros Hrest p. apply (fget_fmap ring_rest (fun x => x.1.1.1.1.1.1.2)). unfold shard_rest in Hrest. congruence.
Qed.

(** Entries moved to another pool by changing their marks. *)
Lemma Ring0_move s s' B L H B' L' H' : Ring0 s B L H ->
  B' ++ L' ++ H' = B ++ L ++ H ->
  shard_rest s' = shard_rest s ->
  (forall p, nx (heap s') p = nx (heap s) p) -> (forall p, pv (heap s') p = pv (heap s) p) ->
  marked (heap s') (false, false) B' -> marked (heap s') (false, true) L' -> marked (heap s') (true, false) H' ->
  lru_bottom_pri_ s' = List.last B' lru_ ->
  high_pri_pool_usage_ s' = charges (heap s) H' -> low_pri_pool_usage_ s' = charges (heap s) L' ->
  Ring0 s' B' L' H'.
Proof.
  intros R E Hrest Hnx Hpv Hb Hl Hh Hbot Hhu Hlu. pose proof (charges_rest s s' Hrest) as Hch.
  assert (Hheap : ring_rest <$> heap s' = ring_rest <$> heap s) by (unfold shard_rest in Hrest; congruence).
  assert (Hchs : forall l, charges (heap s') l = charges (heap s) l) by (intros; by apply charges_ext).
  split; rewrite ?E, ?Hchs; try done.
  - unfold ring. rewrite E. eapply links_ext; [..|apply (r_links _ _ _ _ R)]; auto.
  - apply (r_nodup _ _ _ _ R).
  - intros p Hp. rewrite (cell_fmap _ _ _ p Hheap). by apply (r_cells _ _ _ _ R).
  - intros p Hp. rewrite Hnx, Hpv. by apply (r_out _ _ _ _ R).
  - intros p. rewrite Hch. apply (r_charges _ _ _ _ R).
  - apply (r_fits _ _ _ _ R).
Qed.

(** Marking the entry [x]. *)
Lemma marked_other (heap : gmap ptr LRUHandle) m l x g1 g2 :
  marked heap m l -> x ∉ l -> marked (alter g1 x (alter g2 x heap)) m l.
Proof. intros Hm Hx p Hp. rewrite !fget_ne; [by apply Hm|intros ->; done..]. Qed.

Lemma marked_self (heap : gmap ptr LRUHandle) x b1 b2 : is_Some (heap !! x) ->
  marked (alter (SetInLowPriPool b2) x (alter (SetInHighPriPool b1) x heap)) (b1, b2) [x].
Proof.
  intros [h Hx] p ->%list_elem_of_singleton. unfold fget. rewrite !lookup_alter_eq, Hx.
  unfold pool. simpl. flags. done.
Qed.

Lemma marked_app heap m l1 l2 : marked heap m l1 -> marked heap m l2 -> marked heap m (l1 ++ l2).
Proof. intros H1 H2 p [?|?]%elem_of_app; auto. Qed.

(** The shard after the entry [x] of the high priority pool went to the low
    priority pool, and after one of the low priority pool went to the bottom. *)
Definition demoted_high (s : LRUCacheShard) (x : ptr) : LRUCacheShard :=
  set_low_pri_pool_usage_ (u64 (low_pri_pool_usage_ s + charge_at (heap s) x))
    (set_high_pri_pool_usage_ (u64 (high_pri_pool_usage_ s - charge_at (heap s) x))
      (set_heap (alter (SetInLowPriPool true) x (alter (SetInHighPriPool false) x (heap s)))
        (set_lru_low_pri_ x s))).

Definition demoted_low (s : LRUCacheShard) (x : ptr) : LRUCacheShard :=
  set_low_pri_pool_usage_ (u64 (low_pri_pool_usage_ s - charge_at (heap s) x))
    (set_heap (alter (SetInLowPriPool false) x (alter (SetInHighPriPool false) x (heap s)))
      (set_lru_bottom_pri_ x s)).

Lemma keep_pools h b : ring_rest (SetInLowPriPool b h) = ring_rest h /\ ring_rest (SetInHighPriPool b h) = ring_rest h.
Proof. unfold ring_rest. split; flags; done. Qed.

Lemma rest_pools (H : gmap ptr LRUHandle) b1 b2 x :
  ring_rest <$> alter (SetInLowPriPool b2) x (alter (SetInHighPriPool b1) x H) = ring_rest <$> H.
Proof. rewrite !fmap_keep; [done|intros; apply (proj2 (keep_pools _ _))|intros; apply (proj1 (keep_pools _ _))]. Qed.

Lemma demoted_high_ok s B L x H : Ring0 s B L (x :: H) ->
  Ring0 (demoted_high s x) B (L ++ [x]) H /\ shard_rest (demoted_high s x) = shard_rest s.
Proof.
  intros R. destruct (ring_facts _ _ _ _ R) as (_ & _ & _ & Hn).
  assert (Hrest : shard_rest (demoted_high s x) = shard_rest s).
  { unfold demoted_high, shard_rest. members. by rewrite rest_pools. }
  split; [|done]. unfold demoted_high.
  assert (Hx : is_Some (heap s !! x)).
  { apply (r_cells _ _ _ _ R). right. rewrite !elem_of_app. right. right. left. }
  pose proof (charges_u64 _ _ _ _ H R ltac:(by apply submseteq_inserts_l, submseteq_inserts_l, submseteq_cons)) as Hu1.
  pose proof (charges_u64 _ _ _ _ (L ++ [x]) R ltac:(apply submseteq_inserts_l, submseteq_app;
    [done|apply submseteq_skip, submseteq_nil_l])) as Hu2.
  rewrite charges_app in Hu2. cbn [charges] in Hu2. rewrite Z.add_0_r in Hu2.
  rewrite app_assoc in Hn. apply list.NoDup_app in Hn as (_ & Hd & Hn). apply list.NoDup_cons in Hn as [HxH _].
  assert (Hxl : x ∉ B ++ L) by (intros Hi; apply (Hd _ Hi); left). rewrite not_elem_of_app in Hxl.
  eapply (Ring0_move s); try done; members.
  - by rewrite <- app_assoc.
  - intros p. by rewrite !fget_keep.
  - intros p. by rewrite !fget_keep.
  - apply marked_other; [apply (r_marked_b _ _ _ _ R)|tauto].
  - apply marked_app; [apply marked_other; [apply (r_marked_l _ _ _ _ R)|tauto]|by apply marked_self].
  - apply marked_other; [|done]. intros p Hp. apply (r_marked_h _ _ _ _ R). by right.
  - apply (r_bottom _ _ _ _ R).
  - rewrite (r_high _ _ _ _ R). cbn [charges]. rewrite Z.add_simpl_l. by apply u64_id.
  - rewrite (r_low _ _ _ _ R), charges_app. cbn [charges]. rewrite Z.add_0_r. by apply u64_id.
Qed.

Lemma demoted_low_ok s B x L H : Ring0 s B (x :: L) H ->
  Ring0 (demoted_low s x) (B ++ [x]) L H /\ shard_rest (demoted_low s x) = shard_rest s.
Proof.
  intros R. destruct (ring_facts _ _ _ _ R) as (_ & _ & _ & Hn).
  assert (Hrest : shard_rest (demoted_low s x) = shard_rest s).
  { unfold demoted_low, shard_rest. members. by rewrite rest_pools. }
  split; [|done]. unfold demoted_low.
  assert (Hx : is_Some (heap s !! x)).
  { apply (r_cells _ _ _ _ R). right. rewrite !elem_of_app. right. left. left. }
  pose proof (charges_u64 _ _ _ _ L R ltac:(by apply submseteq_inserts_l, submseteq_inserts_r, submseteq_cons)) as Hu1.
  apply list.NoDup_app in Hn as (_ & Hd & Hn). apply list.NoDup_cons in Hn as [HxH _].
  assert (Hxl : x ∉ B) by (intros Hi; apply (Hd _ Hi); left). rewrite not_elem_of_app in HxH.
  eapply (Ring0_move s); try done; members.
  - by rewrite <- app_assoc.
  - intros p. by rewrite !fget_keep.
  - intros p. by rewrite !fget_keep.
  - apply marked_app; [apply marked_other; [apply (r_marked_b _ _ _ _ R)|tauto]|by apply marked_self].
  - apply marked_other; [|tauto]. intros p Hp. apply (r_marked_l _ _ _ _ R). by right.
  - apply marked_other; [apply (r_marked_h _ _ _ _ R)|tauto].
  - by rewrite last_last.
  - apply (r_high _ _ _ _ R).
  - rewrite (r_low _ _ _ _ R). cbn [charges]. rewrite Z.add_simpl_l. by apply u64_id.
Qed.

Lemma overflow_high_ok fuel s B L H :
  Ring0 s B L H -> lru_low_pri_ s = List.last (B ++ L) lru_ -> dbl_nonneg (high_pri_pool_capacity_ s) ->
  (length H <= fuel)%nat ->
  run (overflow_high fuel) s (fun _ s' =>
    exists out rest, spill (high_pri_pool_capacity_ s) (heap s) H = (out, rest) /\ H = out ++ rest /\
      Ring0 s' B (L ++ out) rest /\ lru_low_pri_ s' = List.last (B ++ L ++ out) lru_ /\
      shard_rest s' = shard_rest s /\ lru_usage_ s' = lru_usage_ s).
Proof.
  revert s L H. induction fuel as [|fuel IH]; intros s L H R Hlow Hcap Hf.
  all: simpl overflow_high; step; step; rewrite (r_high _ _ _ _ R).
  all: destruct (dbl_ltb _ _) eqn:E.
  1: { destruct H; [|simpl in Hf; lia]. cbn [charges] in E. by rewrite nonneg_fits in E. }
  1, 3: apply run_ret; exists [], H; destruct H; cbn [spill]; rewrite E, ?app_nil_r; done.
  destruct H as [|x H]; [cbn [charges] in E; by rewrite nonneg_fits in E|].
  destruct (ring_next s B L (x :: H) (B ++ L) x H) as (Hnx & Ha & Hx & Hxl); [done|by rewrite <- app_assoc|].
  destruct (demoted_high_ok s B L x H R) as [R' Hrest].
  step. rewrite Hlow. step_fld nullptr. rewrite Hnx. step. step; [by apply negb_true_iff, Z.eqb_neq|].
  do 2 step. step_fld 0. rewrite !(fget_keep h_total_charge) by done.
  step; [apply Z.leb_le; cbn [charges]; pose proof (charges_nonneg (heap s) H (r_charges _ _ _ _ R)); lia|].
  do 3 step. rewrite <- (r_high _ _ _ _ R).
  eapply run_mono; [apply (IH (demoted_high s x) (L ++ [x]) H R')|].
  - unfold demoted_high. members. by rewrite app_assoc, last_last.
  - done.
  - simpl in Hf. lia.
  - intros _ s' (out & rest & Hs & -> & R'' & Hl & Hr & Hu).
    rewrite (spill_ext _ (heap s)) in Hs by by apply charges_rest.
    exists (x :: out), rest. split.
    { cbn [spill]. rewrite E. change (high_pri_pool_capacity_ (demoted_high s x)) with (high_pri_pool_capacity_ s) in Hs.
      by rewrite Hs. }
    rewrite <- !app_assoc in *. split; [done|]. split; [done|]. split; [done|]. split; [congruence|done].
Qed.

Lemma overflow_low_ok fuel s B L H :
  Ring0 s B L H -> dbl_nonneg (low_pri_pool_capacity_ s) -> (length L <= fuel)%nat ->
  run (overflow_low fuel) s (fun _ s' =>
    exists out rest, spill (low_pri_pool_capacity_ s) (heap s) L = (out, rest) /\ L = out ++ rest /\
      Ring0 s' (B ++ out) rest H /\ lru_low_pri_ s' = lru_low_pri_ s /\
      shard_rest s' = shard_rest s /\ lru_usage_ s' = lru_usage_ s).
Proof.
  revert s B L. induction fuel as [|fuel IH]; intros s B L R Hcap Hf.
  all: simpl overflow_low; step; step; rewrite (r_low _ _ _ _ R).
  all: destruct (dbl_ltb _ _) eqn:E.
  1: { destruct L; [|simpl in Hf; lia]. cbn [charges] in E. by rewrite nonneg_fits in E. }
  1, 3: apply run_ret; exists [], L; destruct L; cbn [spill]; rewrite E, ?app_nil_r; done.
  destruct L as [|x L]; [cbn [charges] in E; by rewrite nonneg_fits in E|].
  destruct (ring_next s B (x :: L) H B x (L ++ H)) as (Hnx & Ha & Hx & Hxl); [done|done|].
  destruct (demoted_low_ok s B x L H R) as [R' Hrest].
  step. rewrite (r_bottom _ _ _ _ R). step_fld nullptr. rewrite Hnx. step.
  step; [by apply negb_true_iff, Z.eqb_neq|].
  do 2 step. step_fld 0. rewrite !(fget_keep h_total_charge) by done.
  step; [apply Z.leb_le; cbn [charges]; pose proof (charges_nonneg (heap s) L (r_charges _ _ _ _ R)); lia|].
  step. rewrite <- (r_low _ _ _ _ R).
  eapply run_mono; [apply (IH (demoted_low s x) (B ++ [x]) L R')|]; [done|simpl in Hf; lia|].
  intros _ s' (out & rest & Hs & -> & R'' & Hl & Hr & Hu).
  rewrite (spill_ext _ (heap s)) in Hs by by apply charges_rest.
  exists (x :: out), rest. split.
  { cbn [spill]. rewrite E. change (low_pri_pool_capacity_ (demoted_low s x)) with (low_pri_pool_capacity_ s) in Hs.
    by rewrite Hs. }
  rewrite <- !app_assoc in *. split; [done|]. split; [done|]. split; [done|]. split; [congruence|done].
Qed.

(** The pools after [MaintainPoolSize]. *)
Definition maintained (s : LRUCacheShard) (B L H B' L' H' : list ptr) : Prop :=
  exists out out', spill (high_pri_pool_capacity_ s) (heap s) H = (out, H') /\ H = out ++ H' /\
    spill (low_pri_pool_capacity_ s) (heap s) (L ++ out) = (out', L') /\ L ++ out = out' ++ L' /\ B' = B ++ out'.

Lemma maintained_list s B L H B' L' H' : maintained s B L H B' L' H' -> B' ++ L' ++ H' = B ++ L ++ H.
Proof.
  intros (out & out' & _ & -> & _ & E & ->). rewrite <- app_assoc, (app_assoc out'), <- E.
  by rewrite <- app_assoc.
Qed.

Lemma MaintainPoolSize_ok s B L H :
  Ring0 s B L H -> lru_low_pri_ s = List.last (B ++ L) lru_ ->
  dbl_nonneg (high_pri_pool_capacity_ s) -> dbl_nonneg (low_pri_pool_capacity_ s) ->
  run MaintainPoolSize s (fun _ s' => exists B' L' H', maintained s B L H B' L' H' /\ Ring0 s' B' L' H' /\
    lru_low_pri_ s' = List.last (B' ++ L') lru_ /\ shard_rest s' = shard_rest s /\ lru_usage_ s' = lru_usage_ s).
Proof.
  intros R Hlow Hh Hl. assert (Hlen : (length (B ++ L ++ H) <= size (heap s))%nat).
  { apply cells_length; [by destruct (ring_facts _ _ _ _ R) as (_ & _ & _ & ?)|].
    intros p Hp. apply (r_cells _ _ _ _ R). by right. }
  rewrite !length_app in Hlen. unfold MaintainPoolSize. step.
  eapply run_seq; [apply (overflow_high_ok _ _ B L H); try done; lia|].
  intros _ s1 (out & rest & Hs1 & -> & R1 & Hlow1 & Hr1 & Hu1).
  assert (Hcap : low_pri_pool_capacity_ s1 = low_pri_pool_capacity_ s) by (unfold shard_rest in Hr1; congruence).
  eapply run_mono; [apply (overflow_low_ok _ _ B (L ++ out) rest); try done; [congruence|]|].
  { rewrite !length_app in *. lia. }
  intros _ s2 (out' & rest' & Hs2 & E & R2 & Hlow2 & Hr2 & Hu2).
  rewrite Hcap, (spill_ext _ (heap s)) in Hs2 by by apply charges_rest.
  exists (B ++ out'), rest', rest. split; [by exists out, out'|]. split; [done|].
  split; [|split; congruence]. rewrite Hlow2, Hlow1, E. by rewrite app_assoc.
Qed.

(** ** [LRU_Insert] *)

(** The heap after [e] was linked between [a] and [b] and marked. *)
Definition linked_heap (H : gmap ptr LRUHandle) (e a b : ptr) (b1 b2 : bool) : gmap ptr LRUHandle :=
  alter (SetInLowPriPool b2) e (alter (SetInHighPriPool b1) e
    (alter (set_h_prev e) b (alter (set_h_next e) a
      (alter (set_h_prev a) e (alter (set_h_next b) e H))))).

Lemma rest_linked H e a b b1 b2 : ring_rest <$> linked_heap H e a b b1 b2 = ring_rest <$> H.
Proof. unfold linked_heap. rewrite rest_pools. by rewrite !fmap_keep. Qed.

Lemma linked_links H e X a b Y b1 b2 :
  is_Some (H !! e) -> is_Some (H !! a) -> is_Some (H !! b) -> a <> e -> b <> e ->
  NoDup (removelast (X ++ a :: b :: Y)) -> NoDup (tail (X ++ a :: b :: Y)) -> e ∉ X ++ a :: b :: Y ->
  links (nx H) (pv H) (X ++ a :: b :: Y) ->
  links (nx (linked_heap H e a b b1 b2)) (pv (linked_heap H e a b b1 b2)) (X ++ a :: e :: b :: Y).
Proof.
  intros He Ha Hb Hae Hbe Hn1 Hn2 Hout HL. unfold linked_heap.
  eapply (links_insert (nx H) (pv H) _ _ X a e b Y); try done.
  all: rewrite ?(fget_keep h_next _ (SetInLowPriPool _)), ?(fget_keep h_next _ (SetInHighPriPool _)),
    ?(fget_keep h_next _ (set_h_prev _)), ?(fget_keep h_prev _ (SetInLowPriPool _)),
    ?(fget_keep h_prev _ (SetInHighPriPool _)) by done.
  - rewrite fget_ne, (fget_keep h_next) by done. by apply fget_set.
  - apply fget_set; [cells|done].
  - intros x Hxa Hxe. rewrite !(fget_ne _ _ _ _ e) by done. rewrite (fget_keep h_next), !fget_ne by done. done.
  - rewrite fget_ne, (fget_keep h_prev) by done. apply fget_set; [cells|done].
  - apply fget_set; [cells|done].
  - intros x Hxb Hxe. rewrite !(fget_ne _ _ _ _ e), fget_ne, (fget_keep h_prev), !fget_ne by done. done.
Qed.

Section insert.
Context (s : LRUCacheShard) (B L H : list ptr) (e : ptr).
Hypothesis HR : Ring s B L H.
Hypothesis He : is_Some (heap s !! e).
Hypothesis Hnull : e <> nullptr.
Hypothesis Hout : e ∉ lru_ :: B ++ L ++ H.
Hypothesis Hroom : lru_usage_ s + charge_at (heap s) e < 2 ^ 64.

Lemma marked_linked l a b b1 b2 m l' : marked (heap s) m l ->
  (forall p, p ∈ l' -> p = e /\ m = (b1, b2) \/ p <> e /\ p ∈ l) ->
  marked (linked_heap (heap s) e a b b1 b2) m l'.
Proof.
  intros Hm Hl p Hp. destruct (Hl p Hp) as [[-> ->]|[Hne Hp']].
  - apply marked_self; [cells|left].
  - unfold linked_heap. rewrite !(fget_ne _ _ _ _ e) by done. rewrite !fget_keep by done.
    by apply Hm.
Qed.

Lemma Ring0_linked s' B' L' H' l1 l2 b1 b2 :
  B ++ L ++ H = l1 ++ l2 -> B' ++ L' ++ H' = l1 ++ e :: l2 ->
  heap s' = linked_heap (heap s) e (List.last l1 lru_) (hd lru_ l2) b1 b2 ->
  marked (heap s') (false, false) B' -> marked (heap s') (false, true) L' -> marked (heap s') (true, false) H' ->
  lru_bottom_pri_ s' = List.last B' lru_ ->
  high_pri_pool_usage_ s' = charges (heap s) H' -> low_pri_pool_usage_ s' = charges (heap s) L' ->
  Ring0 s' B' L' H'.
Proof.
  intros E E' Eh Hb Hl Hh Hbot Hhu Hlu. pose proof (r_ring _ _ _ _ HR) as R.
  destruct (ring_split l1 e l2) as (X & a & b & Y & E1 & E2 & Ea & Eb). rewrite <- Ea, <- Eb in Eh.
  pose proof (rest_linked (heap s) e a b b1 b2) as Hrest. rewrite <- Eh in Hrest.
  assert (Hch : forall p, charge_at (heap s') p = charge_at (heap s) p).
  { intros p. by apply (fget_fmap ring_rest (fun x => x.1.1.1.1.1.1.2)). }
  assert (Hchs : forall l, charges (heap s') l = charges (heap s) l) by (intros; by apply charges_ext).
  assert (Hring : ring B L H = X ++ a :: b :: Y) by (unfold ring; by rewrite E).
  assert (Hab : a ∈ lru_ :: B ++ L ++ H /\ b ∈ lru_ :: B ++ L ++ H).
  { rewrite E, Ea, Eb. split.
    - destruct (last_in l1 lru_) as [->|]; [left|right; apply elem_of_app; auto].
    - destruct l2; [left|right; apply elem_of_app; right; left]. }
  destruct Hab as [Hina Hinb]. assert (Hae : a <> e) by (intros ->; done). assert (Hbe : b <> e) by (intros ->; done).
  pose proof (r_cells _ _ _ _ R a Hina). pose proof (r_cells _ _ _ _ R b Hinb).
  assert (HlE : B' ++ L' ++ H' ≡ₚ e :: B ++ L ++ H) by by rewrite E', E, Permutation_middle.
  split; rewrite ?Hchs; try done.
  - rewrite Eh. unfold ring. rewrite E', E1. apply linked_links; try done; rewrite <- Hring.
    + by eapply ring_nodup_front.
    + by eapply ring_nodup_back.
    + unfold ring. intros [->|[Hx|Hx]%elem_of_app]%elem_of_cons; apply Hout; [left|by right|].
      apply list_elem_of_singleton in Hx as ->. left.
    + apply (r_links _ _ _ _ R).
  - rewrite HlE. rewrite (Permutation_swap e lru_), (Permutation_swap e nullptr).
    apply list.NoDup_cons. split; [|apply (r_nodup _ _ _ _ R)]. rewrite elem_of_cons. tauto.
  - intros p Hp. rewrite (cell_fmap _ _ _ p Hrest). rewrite HlE in Hp.
    apply elem_of_cons in Hp as [->|Hp]; [apply (r_cells _ _ _ _ R); left|].
    apply elem_of_cons in Hp as [->|Hp]; [done|apply (r_cells _ _ _ _ R); by right].
  - intros p Hp. rewrite HlE in Hp. rewrite !not_elem_of_cons in Hp. destruct Hp as (? & ? & ?).
    assert (Hp : p ∉ lru_ :: B ++ L ++ H) by (rewrite not_elem_of_cons; tauto).
    assert (p <> a) by (intros ->; done). assert (p <> b) by (intros ->; done).
    rewrite Eh. unfold linked_heap. rewrite !fget_ne by done. by apply (r_out _ _ _ _ R).
  - intros p. rewrite Hch. apply (r_charges _ _ _ _ R).
  - rewrite (charges_perm _ _ _ HlE). cbn [charges]. rewrite <- (r_usage _ _ _ _ HR). lia.
Qed.

(** The pools after [LRU_Insert]. *)
Definition wants_high : bool :=
  dbl_ltb dbl_0 (high_pri_pool_ratio_ s) &&
  (fget IsHighPri false (heap s) e || fget HasHit false (heap s) e).
Definition wants_low : bool :=
  dbl_ltb dbl_0 (low_pri_pool_ratio_ s) &&
  (fget IsHighPri false (heap s) e || fget IsLowPri false (heap s) e || fget HasHit false (heap s) e).

Definition inserted (B' L' H' : list ptr) : Prop :=
  if wants_high then maintained s B L (H ++ [e]) B' L' H'
  else if wants_low then maintained s B (L ++ [e]) H B' L' H'
  else B' = B ++ [e] /\ L' = L /\ H' = H.

Lemma inserted_perm B' L' H' : inserted B' L' H' -> B' ++ L' ++ H' ≡ₚ e :: B ++ L ++ H.
Proof.
  unfold inserted. destruct wants_high; [|destruct wants_low]; intros Hi.
  - rewrite (maintained_list _ _ _ _ _ _ _ Hi), !app_assoc. by rewrite Permutation_app_comm.
  - rewrite (maintained_list _ _ _ _ _ _ _ Hi). rewrite (Permutation_app_comm L [e]), <- app_assoc. simpl.
    by rewrite <- Permutation_middle.
  - destruct Hi as (-> & -> & ->). rewrite <- app_assoc. simpl. by rewrite <- Permutation_middle.
Qed.

Lemma link_ok {A} a b b1 b2 (k : unit -> M A) Q :
  is_Some (heap s !! a) -> is_Some (heap s !! b) ->
  run (k tt) (set_heap (linked_heap (heap s) e a b b1 b2) s) Q ->
  run (_ ← link e b a; _ ← upd e (SetInHighPriPool b1); _ ← upd e (SetInLowPriPool b2); k tt) s Q.
Proof.
  intros Ha Hb Hk. unfold link. apply run_bind.
  do 3 step. apply run_upd_end; [members; cells|]. members. do 2 step. apply Hk.
Qed.

Lemma adjacent l1 l2 : B ++ L ++ H = l1 ++ l2 ->
  nx (heap s) (List.last l1 lru_) = hd lru_ l2 /\ pv (heap s) (hd lru_ l2) = List.last l1 lru_ /\
  is_Some (heap s !! List.last l1 lru_) /\ is_Some (heap s !! hd lru_ l2).
Proof.
  intros E. pose proof (r_ring _ _ _ _ HR) as R.
  destruct (ring_split l1 e l2) as (X & a & b & Y & _ & E2 & <- & <-).
  pose proof (r_links _ _ _ _ R) as HL. unfold ring in HL. rewrite E, E2 in HL.
  apply links_app in HL as [_ (Hn & Hp & _)]. split; [done|]. split; [done|].
  assert (Hc : forall p, p ∈ X ++ a :: b :: Y -> is_Some (heap s !! p)).
  { intros p. rewrite <- E2, <- E. rewrite elem_of_cons, elem_of_app, list_elem_of_singleton. intros Hp'.
    apply (r_cells _ _ _ _ R). rewrite elem_of_cons. tauto. }
  split; apply Hc, elem_of_app; right; [left|right; left].
Qed.

(** Marks after linking [e] into the pool [l]. *)
Lemma marked_same l a b b1 b2 m : marked (heap s) m l -> e ∉ l ->
  marked (linked_heap (heap s) e a b b1 b2) m l.
Proof. intros Hm Hl. eapply marked_linked; [done|]. intros p Hp. right. split; [intros ->; done|done]. Qed.

Lemma marked_snoc l a b b1 b2 : marked (heap s) (b1, b2) l -> e ∉ l ->
  marked (linked_heap (heap s) e a b b1 b2) (b1, b2) (l ++ [e]).
Proof.
  intros Hm Hl. eapply marked_linked; [done|]. intros p [Hp|Hp%list_elem_of_singleton]%elem_of_app; [right|auto].
  split; [intros ->; done|done].
Qed.

Lemma out_parts : (e ∉ B) /\ (e ∉ L) /\ (e ∉ H).
Proof. rewrite elem_of_cons, !elem_of_app in Hout. tauto. Qed.

Lemma pool_room l : l ⊆+ B ++ L ++ H -> is_u64 (charges (heap s) l + charge_at (heap s) e).
Proof.
  intros Hl. pose proof (r_ring _ _ _ _ HR) as R. pose proof (r_charges _ _ _ _ R) as Hok.
  pose proof (charges_submseteq (heap s) _ _ Hok Hl) as Hle. rewrite <- (r_usage _ _ _ _ HR) in Hle.
  pose proof (charges_nonneg (heap s) l Hok). pose proof (Hok e). unfold is_u64. lia.
Qed.

Lemma insert_high s' a b : a = List.last (B ++ L ++ H) lru_ -> b = lru_ ->
  s' = set_high_pri_pool_usage_ (u64 (high_pri_pool_usage_ s + charge_at (heap s) e))
         (set_heap (linked_heap (heap s) e a b true false) s) ->
  Ring0 s' B L (H ++ [e]).
Proof.
  intros -> -> ->. pose proof (r_ring _ _ _ _ HR) as R. destruct out_parts as (HeB & HeL & HeH).
  apply (Ring0_linked _ _ _ _ (B ++ L ++ H) [] true false); members; try done.
  - by rewrite app_nil_r.
  - by rewrite !app_assoc.
  - apply marked_same; [apply (r_marked_b _ _ _ _ R)|done].
  - apply marked_same; [apply (r_marked_l _ _ _ _ R)|done].
  - apply marked_snoc; [apply (r_marked_h _ _ _ _ R)|done].
  - apply (r_bottom _ _ _ _ R).
  - rewrite (r_high _ _ _ _ R), charges_app. cbn [charges]. rewrite Z.add_0_r. apply u64_id, pool_room.
    by apply submseteq_inserts_l, submseteq_inserts_l.
  - apply (r_low _ _ _ _ R).
Qed.

Lemma insert_low s' a b : a = List.last (B ++ L) lru_ -> b = hd lru_ H ->
  s' = set_low_pri_pool_usage_ (u64 (low_pri_pool_usage_ s + charge_at (heap s) e))
         (set_heap (linked_heap (heap s) e a b false true) s) ->
  Ring0 s' B (L ++ [e]) H.
Proof.
  intros -> -> ->. pose proof (r_ring _ _ _ _ HR) as R. destruct out_parts as (HeB & HeL & HeH).
  apply (Ring0_linked _ _ _ _ (B ++ L) H false true); members; try done.
  - by rewrite app_assoc.
  - by rewrite <- !app_assoc.
  - apply marked_same; [apply (r_marked_b _ _ _ _ R)|done].
  - apply marked_snoc; [apply (r_marked_l _ _ _ _ R)|done].
  - apply marked_same; [apply (r_marked_h _ _ _ _ R)|done].
  - apply (r_bottom _ _ _ _ R).
  - apply (r_high _ _ _ _ R).
  - rewrite (r_low _ _ _ _ R), charges_app. cbn [charges]. rewrite Z.add_0_r. apply u64_id, pool_room.
    by apply submseteq_inserts_l, submseteq_inserts_r.
Qed.

Lemma insert_bottom s' a b : a = List.last B lru_ -> b = hd lru_ (L ++ H) ->
  heap s' = linked_heap (heap s) e a b false false -> lru_bottom_pri_ s' = e ->
  high_pri_pool_usage_ s' = high_pri_pool_usage_ s -> low_pri_pool_usage_ s' = low_pri_pool_usage_ s ->
  Ring0 s' (B ++ [e]) L H.
Proof.
  intros -> -> Eh Eb Ehu Elu. pose proof (r_ring _ _ _ _ HR) as R. destruct out_parts as (HeB & HeL & HeH).
  apply (Ring0_linked _ _ _ _ B (L ++ H) false false); try done; rewrite ?Eh, ?Eb, ?Ehu, ?Elu.
  - by rewrite <- app_assoc.
  - apply marked_snoc; [apply (r_marked_b _ _ _ _ R)|done].
  - apply marked_same; [apply (r_marked_l _ _ _ _ R)|done].
  - apply marked_same; [apply (r_marked_h _ _ _ _ R)|done].
  - by rewrite last_last.
  - apply (r_high _ _ _ _ R).
  - apply (r_low _ _ _ _ R).
Qed.

Hypothesis Hhcap : dbl_nonneg (high_pri_pool_capacity_ s).
Hypothesis Hlcap : dbl_nonneg (low_pri_pool_capacity_ s).
(** The high priority pool is not over its size when entries go to the low
    priority pool. *)
Hypothesis Hfits : dbl_ltb dbl_0 (low_pri_pool_ratio_ s) = true ->
  dbl_ltb (high_pri_pool_capacity_ s) (dbl_of_size (high_pri_pool_usage_ s)) = false.

(** The state before the last two lines of [LRU_Insert]. *)
Definition placed (s' : LRUCacheShard) : Prop :=
  exists B' L' H', inserted B' L' H' /\ Ring0 s' B' L' H' /\ lru_low_pri_ s' = List.last (B' ++ L') lru_ /\
    shard_rest s' = shard_rest s /\ lru_usage_ s' = lru_usage_ s.

Lemma maintained_rest s1 B1 L1 H1 B' L' H' : shard_rest s1 = shard_rest s ->
  maintained s1 B1 L1 H1 B' L' H' -> maintained s B1 L1 H1 B' L' H'.
Proof.
  intros Hrest (out & out' & E1 & E2 & E3 & E4 & E5).
  assert (Hh : high_pri_pool_capacity_ s1 = high_pri_pool_capacity_ s) by (unfold shard_rest in Hrest; congruence).
  assert (Hl : low_pri_pool_capacity_ s1 = low_pri_pool_capacity_ s) by (unfold shard_rest in Hrest; congruence).
  rewrite Hh, (spill_ext _ (heap s)) in E1 by by apply charges_rest.
  rewrite Hl, (spill_ext _ (heap s)) in E3 by by apply charges_rest.
  by exists out, out'.
Qed.

Lemma spill_none cap hp l : dbl_ltb cap (dbl_of_size (charges hp l)) = false -> spill cap hp l = ([], l).
Proof. intros E. destruct l; cbn [spill]; by rewrite E. Qed.

Lemma insert_high_ok : wants_high = true ->
  run (newest ← fld lru_ h_prev;
       _ ← link e lru_ newest;
       _ ← upd e (SetInHighPriPool true);
       _ ← upd e (SetInLowPriPool false);
       u ← gets high_pri_pool_usage_;
       _ ← modify (set_high_pri_pool_usage_ (u64 (u + charge_at (heap s) e)));
       MaintainPoolSize) s (fun _ => placed).
Proof.
  intros Hw. destruct (adjacent (B ++ L ++ H) []) as (_ & Hp & Ha & Hl); [by rewrite app_nil_r|].
  simpl in Hp, Hl. step_fld nullptr. rewrite Hp.
  apply (link_ok _ _ true false (fun _ => _)); [done|done|]. do 2 step.
  set (s1 := set_high_pri_pool_usage_ _ _). assert (R1 : Ring0 s1 B L (H ++ [e])) by apply (insert_high _ _ _ eq_refl eq_refl eq_refl).
  assert (Hrest : shard_rest s1 = shard_rest s) by (unfold shard_rest, s1; members; by rewrite rest_linked).
  eapply run_mono; [apply (MaintainPoolSize_ok s1 B L (H ++ [e])); try done; apply (r_low_pri _ _ _ _ HR)|].
  intros _ s2 (B' & L' & H' & Hm & R2 & Hlow & Hr & Hu). exists B', L', H'.
  split; [unfold inserted; rewrite Hw; by apply (maintained_rest s1)|]. split; [done|].
  split; [done|]. split; [congruence|exact Hu].
Qed.

Lemma insert_low_ok : wants_high = false -> wants_low = true ->
  run (low ← gets lru_low_pri_;
       next ← fld low h_next;
       _ ← link e next low;
       _ ← upd e (SetInHighPriPool false);
       _ ← upd e (SetInLowPriPool true);
       u ← gets low_pri_pool_usage_;
       _ ← modify (set_low_pri_pool_usage_ (u64 (u + charge_at (heap s) e)));
       _ ← MaintainPoolSize;
       modify (set_lru_low_pri_ e)) s (fun _ => placed).
Proof.
  intros Hw Hw'. destruct (adjacent (B ++ L) H) as (Hn & _ & Ha & Hb); [by rewrite app_assoc|].
  step. rewrite (r_low_pri _ _ _ _ HR). step_fld nullptr. rewrite Hn.
  apply (link_ok _ _ false true (fun _ => _)); [done|done|]. do 2 step.
  set (s1 := set_low_pri_pool_usage_ _ _). assert (R1 : Ring0 s1 B (L ++ [e]) H) by apply (insert_low _ _ _ eq_refl eq_refl eq_refl).
  assert (Hrest : shard_rest s1 = shard_rest s) by (unfold shard_rest, s1; members; by rewrite rest_linked).
  assert (Hh : dbl_ltb (high_pri_pool_capacity_ s1) (dbl_of_size (charges (heap s1) H)) = false).
  { rewrite <- (r_high _ _ _ _ R1). apply Hfits. unfold wants_low in Hw'. by apply andb_true_iff in Hw' as [? _]. }
  assert (Hlen : (length (B ++ (L ++ [e]) ++ H) <= size (heap s1))%nat).
  { apply cells_length; [by destruct (ring_facts _ _ _ _ R1) as (_ & _ & _ & ?)|].
    intros p Hp. apply (r_cells _ _ _ _ R1). by right. }
  rewrite !length_app in Hlen. unfold MaintainPoolSize. apply run_bind. step. apply run_bind.
  assert (Hov : forall fuel, overflow_high fuel s1 = Some (tt, s1)).
  { intros [|fuel]; simpl; unfold mbind, M_bind, gets; rewrite (r_high _ _ _ _ R1), Hh; done. }
  exists tt, s1. split; [apply Hov|].
  eapply run_mono; [apply (overflow_low_ok _ s1 B (L ++ [e]) H); try done; rewrite length_app; simpl in *; lia|].
  intros _ s2 (out & rest & Hs & E & R2 & Hlow & Hr & Hu). apply run_modify_end.
  exists (B ++ out), rest, H. split.
  { unfold inserted. rewrite Hw, Hw'. apply (maintained_rest s1); [done|]. exists [], out.
    rewrite (spill_none _ _ _ Hh), app_nil_r. done. }
  split; [destruct R2; by split|]. split; [members; by rewrite <- app_assoc, <- E, app_assoc, last_last|].
  split; [|exact Hu]. transitivity (shard_rest s2); [done|congruence].
Qed.

Lemma insert_bottom_ok : wants_high = false -> wants_low = false ->
  run (bottom ← gets lru_bottom_pri_;
       next ← fld bottom h_next;
       _ ← link e next bottom;
       _ ← upd e (SetInHighPriPool false);
       _ ← upd e (SetInLowPriPool false);
       low ← gets lru_low_pri_;
       _ ← when_ (bottom =? low) (modify (set_lru_low_pri_ e));
       modify (set_lru_bottom_pri_ e)) s (fun _ => placed).
Proof.
  intros Hw Hw'. destruct (adjacent B (L ++ H)) as (Hn & _ & Ha & Hb); [done|].
  pose proof (r_ring _ _ _ _ HR) as R. destruct (ring_facts _ _ _ _ R) as (_ & _ & Hlru & Hnd).
  step. rewrite (r_bottom _ _ _ _ R). step_fld nullptr. rewrite Hn.
  apply (link_ok _ _ false false (fun _ => _)); [done|done|]. step. step. apply run_modify_end.
  exists (B ++ [e]), L, H. split; [unfold inserted; by rewrite Hw, Hw'|].
  split; [by apply (insert_bottom _ _ _ eq_refl eq_refl)|]. members.
  split; [|split; [unfold shard_rest; members; by rewrite rest_linked|done]].
  rewrite (r_low_pri _ _ _ _ HR). destruct L as [|x L' _] using rev_ind.
  - rewrite !app_nil_r, Z.eqb_refl, last_last. done.
  - rewrite !app_assoc, !last_last. destruct (Z.eqb_spec (List.last B lru_) x) as [Hx|]; [exfalso|done].
    destruct (last_in B lru_) as [Hl|Hl]; rewrite Hx in Hl.
    + apply Hlru. rewrite <- Hl, !elem_of_app. right. left. right. left.
    + apply list.NoDup_app in Hnd as (_ & Hd & _). apply (Hd _ Hl). rewrite !elem_of_app. left. right. left.
Qed.

Lemma LRU_Insert_ok : run (LRU_Insert e) s (fun _ s' =>
  exists B' L' H', inserted B' L' H' /\ Ring s' B' L' H' /\ shard_rest s' = shard_rest s).
Proof.
  pose proof (r_ring _ _ _ _ HR) as R. destruct (r_out _ _ _ _ R e Hout) as [Hn Hp].
  unfold LRU_Insert. step_fld nullptr. step_fld nullptr. rewrite Hn, Hp.
  do 2 (apply run_assert; [done|]). do 2 step. step_fld false. step_fld false. step_fld false. step_fld 0.
  eapply run_seq.
  { destruct wants_high eqn:E1; [|destruct wants_low eqn:E2]; unfold wants_high, wants_low in E1.
    - rewrite E1. by apply insert_high_ok.
    - rewrite E1. unfold wants_low in E2. rewrite E2. by apply insert_low_ok.
    - rewrite E1. unfold wants_low in E2. rewrite E2. by apply insert_bottom_ok. }
  intros _ s1 (B' & L' & H' & Hi & R1 & Hlow & Hrest & Hu). step. apply run_modify_end.
  exists B', L', H'. split; [done|]. split; [|done].
  split; [destruct R1; by split|done|]. members.
  rewrite (charges_ext (heap s)) by (intros; by apply charges_rest).
  rewrite (charges_perm _ _ _ (inserted_perm _ _ _ Hi)), Hu. cbn [charges]. rewrite (r_usage _ _ _ _ HR), Z.add_comm.
  rewrite Z.add_comm, u64_id; [lia|]. by apply pool_room.
Qed.
End insert.
