(* ===== verification/LruTable.v ===== *)
(** * The hash table of the cache

    The table is an array of chains through [next_hash]. [Table s cs] says that
    the buckets of [s] hold the chains [cs]: every entry is in the bucket of its
    hash, and no two entries have the same hash and key. The lemmas show that
    [FindPointer] returns the slot of the entry asked for, or the end of its
    chain, and what [Lookup], [Insert], [Remove] and [Resize] make of the
    entries; only [next_hash] and the table are changed. *)

From S2P Require Import Prelude Binary64 Slice LruCache LruRing.
#[local] Set Warnings "-clear-no-such-hyp".

Abbreviation nh := (fget h_next_hash nullptr).
Abbreviation hash_at := (fget h_hash 0).
Abbreviation key_at := (fget h_key []).

(** The chain that starts at [p]. *)
Fixpoint chain (n : ptr -> ptr) (p : ptr) (c : list ptr) : Prop :=
  match c with
  | [] => p = nullptr
  | a :: c => p = a /\ chain n (n a) c
  end.

Lemma chain_ext n n' p c : (forall a, a ∈ c -> n' a = n a) -> chain n p c -> chain n' p c.
Proof.
  revert p. induction c as [|a c IH]; [done|]. intros p E [-> H]. split; [done|].
  rewrite E by left. apply IH; [|done]. intros x Hx. apply E. by right.
Qed.

(** The slot behind the entries [pre] of bucket [i]. *)
Definition slot_of (i : Z) (pre : list ptr) : Slot :=
  match list.last pre with None => Bucket i | Some q => NextHash q end.

Lemma slot_of_snoc i pre q : slot_of i (pre ++ [q]) = NextHash q.
Proof. unfold slot_of. by rewrite list.last_snoc. Qed.

(** What a chain [pre ++ suf] leads to behind [pre]. *)
Definition after (n : ptr -> ptr) (p : ptr) (pre : list ptr) : ptr :=
  match list.last pre with None => p | Some q => n q end.

Lemma chain_app n p pre suf : chain n p (pre ++ suf) ->
  chain n (after n p pre) suf /\ after n p pre = hd nullptr suf.
Proof.
  revert p. induction pre as [|a pre IH]; intros p H.
  - unfold after. simpl in *. split; [done|]. destruct suf; simpl in H; tauto.
  - destruct H as [-> H]. specialize (IH _ H).
    assert (E : after n a (a :: pre) = after n (n a) pre).
    { unfold after. destruct pre as [|b pre] using rev_ind; [done|].
      rewrite app_comm_cons, !list.last_snoc. done. }
    rewrite E. done.
Qed.

(** Changing where [pre] leads. *)
Lemma chain_change n n' p p' pre suf suf' : chain n p (pre ++ suf) -> NoDup pre ->
  (forall a, a ∈ pre -> list.last pre <> Some a -> n' a = n a) ->
  (pre <> [] -> p' = p) -> chain n' (after n' p' pre) suf' -> chain n' p' (pre ++ suf').
Proof.
  revert p p'. induction pre as [|a pre IH]; intros p p' H Hn Hp Hpp Hs; [done|].
  destruct H as [-> H]. rewrite Hpp by done. split; [done|].
  apply list.NoDup_cons in Hn as [Ha Hn].
  assert (Hlast : pre <> [] -> list.last (a :: pre) = list.last pre) by by destruct pre.
  apply (IH (n a)); try done.
  - intros x Hx Hl. apply Hp; [by right|]. rewrite Hlast; [done|intros ->; by apply elem_of_nil in Hx].
  - intros Hne. apply Hp; [left|]. rewrite Hlast by done. intros Hl%last_Some_elem_of. done.
  - unfold after in *. destruct pre as [|b pre] using rev_ind; [done|].
    rewrite app_comm_cons, !list.last_snoc in *. done.
Qed.

(** ** The table *)

Definition matches (H : gmap ptr LRUHandle) (key : bytes) (hash : Z) (p : ptr) : Prop :=
  hash_at H p = hash /\ key_at H p = key.

Record Buckets (H : gmap ptr LRUHandle) (l : list ptr) (bits : Z) (cs : list (list ptr)) : Prop := {
  t_bits : 0 <= bits <= 31;
  t_len : length l = Z.to_nat (2 ^ bits);
  t_chain : Forall2 (chain (nh H)) l cs;
  t_place : forall i c p, cs !! i = Some c -> p ∈ c -> bucket_of (hash_at H p) bits = Z.of_nat i;
  t_cells : forall p, p ∈ concat cs -> is_Some (H !! p);
  t_hash : forall p, p ∈ concat cs -> is_u32 (hash_at H p);
  t_nodup : NoDup (nullptr :: concat cs)
}.

Record Table (s : LRUCacheShard) (cs : list (list ptr)) : Prop := {
  t_buckets : Buckets (heap s) (list_ (table_ s)) (length_bits_ (table_ s)) cs;
  t_keys : forall p q, p ∈ concat cs -> q ∈ concat cs ->
    hash_at (heap s) p = hash_at (heap s) q -> key_at (heap s) p = key_at (heap s) q -> p = q;
  t_elems : elems_ (table_ s) = Z.of_nat (length (concat cs));
  t_few : Z.of_nat (length (concat cs)) < 2 ^ 32
}.

(** What the table operations leave alone: the heap but for [next_hash], and
    the other members of the shard. *)
Definition table_rest (s : LRUCacheShard) :=
  (set_h_next_hash nullptr <$> heap s, set_heap ∅ (set_table_ (LRUHandleTable_init 0) s)).

Lemma bucket_range hash bits : is_u32 hash -> 0 <= bits <= 31 ->
  0 <= bucket_of hash bits /\ (Z.to_nat (bucket_of hash bits) < Z.to_nat (2 ^ bits))%nat.
Proof.
  intros [H1 H2] Hb. unfold bucket_of. rewrite Z.shiftr_div_pow2 by lia.
  pose proof (Z.pow_pos_nonneg 2 (32 - bits) ltac:(lia) ltac:(lia)).
  assert (0 <= hash / 2 ^ (32 - bits)) by (apply Z.div_pos; lia).
  assert (hash / 2 ^ (32 - bits) < 2 ^ bits).
  { apply Z.div_lt_upper_bound; [lia|]. rewrite <- Z.pow_add_r by lia. replace (32 - bits + bits) with 32 by lia. done. }
  lia.
Qed.

Lemma elem_of_chain {A} (cs : list (list A)) i c p : cs !! i = Some c -> p ∈ c -> p ∈ concat cs.
Proof.
  intros Hi Hp. apply list_elem_of_In, in_concat. exists c.
  split; apply list_elem_of_In; [by eapply list_elem_of_lookup_2|done].
Qed.

Lemma elem_of_concat {A} (cs : list (list A)) p : p ∈ concat cs -> exists i c, cs !! i = Some c /\ p ∈ c.
Proof.
  intros (c & Hc & Hp)%list_elem_of_In%in_concat. apply list_elem_of_In in Hc, Hp.
  apply list_elem_of_lookup_1 in Hc as [i Hi]. eauto.
Qed.

Section find.
Context (s : LRUCacheShard) (cs : list (list ptr)) (key : bytes) (hash : Z).
Hypothesis HT : Table s cs.
Hypothesis Hh : is_u32 hash.
Let bits := length_bits_ (table_ s).
Let i := bucket_of hash bits.

(** A slot of the bucket of [hash], between [pre] and [suf]. *)
Definition slot_at (sl : Slot) (pre suf : list ptr) : Prop :=
  cs !! Z.to_nat i = Some (pre ++ suf) /\ sl = slot_of i pre.

Lemma bucket_i : 0 <= i /\ exists p c, list_ (table_ s) !! Z.to_nat i = Some p /\ cs !! Z.to_nat i = Some c.
Proof.
  pose proof (t_buckets _ _ HT) as Hb. destruct (bucket_range hash bits Hh (t_bits _ _ _ _ Hb)) as [H0 Hi].
  split; [done|]. fold i in Hi. rewrite <- (t_len _ _ _ _ Hb : _ = Z.to_nat (2 ^ bits)) in Hi.
  destruct (lookup_lt_is_Some_2 _ _ Hi) as [p Hp].
  destruct (Forall2_lookup_l _ _ _ _ _ (t_chain _ _ _ _ Hb) Hp) as (c & Hc & _). eauto.
Qed.

Lemma load_slot_ok sl pre suf : slot_at sl pre suf -> load_slot sl s = Some (hd nullptr suf, s).
Proof.
  intros [Hc ->]. pose proof (t_buckets _ _ HT) as Hb.
  destruct (Forall2_lookup_r _ _ _ _ _ (t_chain _ _ _ _ Hb) Hc) as (p & Hp & Hch).
  destruct (chain_app _ _ _ _ Hch) as [_ E]. unfold slot_of, after in *.
  destruct (list.last pre) as [q|] eqn:El; simpl.
  - assert (Hq : is_Some (heap s !! q)).
    { apply (t_cells _ _ _ _ Hb), (elem_of_chain _ _ _ _ Hc), elem_of_app. left. by apply last_Some_elem_of. }
    destruct Hq as [h Hq]. unfold fld, fget in *. rewrite Hq in *. by rewrite E.
  - rewrite Hp, E. done.
Qed.

(** The entry found. *)
Definition not_in (l : list ptr) : Prop := forall q, q ∈ l -> ~ matches (heap s) key hash q.

Lemma find_loop_ok fuel sl pre suf : slot_at sl pre suf -> not_in pre -> (length suf <= fuel)%nat ->
  run (find_loop fuel key hash sl) s (fun sl' s' => s' = s /\ exists pre' suf', slot_at sl' pre' suf' /\
    not_in pre' /\ (suf' = [] \/ exists p t, suf' = p :: t /\ matches (heap s) key hash p)).
Proof.
  revert sl pre suf. induction fuel as [|fuel IH]; intros sl pre suf Hsl Hni Hf; cbn [find_loop].
  all: apply run_bind; exists (hd nullptr suf), s; split; [by eapply load_slot_ok|].
  1: { destruct suf; [|simpl in Hf; lia]. simpl. apply run_ret. split; [done|]. exists pre, []. auto. }
  destruct suf as [|p suf]; simpl; [apply run_ret; split; [done|]; exists pre, []; auto|].
  pose proof (t_buckets _ _ HT) as Hb. pose proof Hsl as [Hc _].
  assert (Hp : p ∈ concat cs) by (apply (elem_of_chain _ _ _ _ Hc), elem_of_app; right; left).
  assert (Hpn : p <> nullptr).
  { intros ->. pose proof (t_nodup _ _ _ _ Hb) as Hn. by apply list.NoDup_cons in Hn as [Hn _]. }
  rewrite (proj2 (Z.eqb_neq p nullptr) Hpn). pose proof (t_cells _ _ _ _ Hb p Hp).
  step_fld 0. step_fld (@nil byte).
  destruct (Z.eqb_spec (hash_at (heap s) p) hash) as [E1|E1]; simpl.
  - destruct (equal key (key_at (heap s) p)) eqn:E2; simpl.
    + apply run_ret. split; [done|]. exists pre, (p :: suf). split; [done|]. split; [done|]. right.
      exists p, suf. split; [done|]. split; [done|]. by apply equal_spec in E2.
    + apply (IH _ (pre ++ [p]) suf); [|intros q [?|Hq%list_elem_of_singleton]%elem_of_app|simpl in Hf; lia].
      * split; [by rewrite <- app_assoc|by rewrite slot_of_snoc].
      * auto.
      * subst q. intros [_ Hk]. rewrite Hk, (proj2 (equal_spec key key) eq_refl) in E2. done.
  - apply (IH _ (pre ++ [p]) suf); [|intros q [?|Hq%list_elem_of_singleton]%elem_of_app|simpl in Hf; lia].
    + split; [by rewrite <- app_assoc|by rewrite slot_of_snoc].
    + auto.
    + subst q. by intros [Hk _].
Qed.

Lemma chain_length c j : cs !! j = Some c -> (length c <= size (heap s))%nat.
Proof.
  intros Hc. pose proof (t_buckets _ _ HT) as Hb. apply cells_length.
  - pose proof (t_nodup _ _ _ _ Hb) as Hn. apply list.NoDup_cons in Hn as [_ Hn].
    apply list_elem_of_split_length in Hc as (l1 & l2 & -> & _). rewrite concat_app in Hn.
    apply list.NoDup_app in Hn as (_ & _ & Hn). simpl in Hn. by apply list.NoDup_app in Hn as (? & _).
  - intros p Hp. apply (t_cells _ _ _ _ Hb). by eapply elem_of_chain.
Qed.

Lemma FindPointer_ok : run (FindPointer key hash) s (fun sl s' => s' = s /\ exists pre suf, slot_at sl pre suf /\
  (suf = [] /\ not_in (concat cs) \/ exists p t, suf = p :: t /\ p ∈ concat cs /\ matches (heap s) key hash p)).
Proof.
  destruct bucket_i as (H0 & p0 & c & Hp & Hc). unfold FindPointer. step. step.
  eapply run_mono; [apply (find_loop_ok _ _ [] c); [done|by intros q ?%elem_of_nil|by eapply chain_length]|].
  intros sl s' (-> & pre & suf & Hsl & Hni & Hs). split; [done|]. exists pre, suf. split; [done|].
  pose proof Hsl as [Hc' _]. destruct Hs as [->|(p & t & -> & Hm)]; [left|right].
  - split; [done|]. intros q Hq [Hm1 Hm2]. destruct (elem_of_concat _ _ Hq) as (j & c' & Hj & Hqc).
    pose proof (t_place _ _ _ _ (t_buckets _ _ HT) j c' q Hj Hqc) as Hpl. rewrite Hm1 in Hpl. fold bits i in Hpl.
    assert (Z.to_nat i = j) as <- by lia. assert (c' = pre ++ []) as -> by congruence.
    rewrite app_nil_r in Hqc. by apply (Hni q).
  - exists p, t. split; [done|]. split; [|done]. apply (elem_of_chain _ _ _ _ Hc'), elem_of_app. right. left.
Qed.

Lemma Table_Lookup_ok : run (Table_Lookup key hash) s (fun p s' => s' = s /\
  (p = nullptr /\ not_in (concat cs) \/ p ∈ concat cs /\ matches (heap s) key hash p)).
Proof.
  unfold Table_Lookup. eapply run_seq; [apply FindPointer_ok|].
  intros sl s' (-> & pre & suf & Hsl & Hs). exists (hd nullptr suf), s. split; [by eapply load_slot_ok|].
  split; [done|]. destruct Hs as [[-> Hn]|(p & t & -> & Hp)]; [by left|by right].
Qed.
End find.

(** ** Storing through a slot *)

Lemma concat_insert {A} (cs : list (list A)) i c : cs !! i = Some c ->
  exists X Y, concat cs = X ++ c ++ Y /\ forall c', concat (<[i := c']> cs) = X ++ c' ++ Y.
Proof.
  intros Hi. exists (concat (take i cs)), (concat (drop (S i) cs)). split.
  - rewrite <- (take_drop_middle cs i c Hi) at 1. by rewrite concat_app.
  - intros c'. rewrite insert_take_drop by by eapply lookup_lt_Some. by rewrite concat_app.
Qed.

(** Elements of different chains differ. *)
Lemma chains_apart (cs : list (list ptr)) i j c d p : (i < j)%nat -> NoDup (concat cs) ->
  cs !! i = Some c -> cs !! j = Some d -> p ∈ c -> p ∈ d -> False.
Proof.
  intros Hij Hn Hi Hj Hc Hd.
  rewrite <- (take_drop_middle cs i c Hi), concat_app in Hn. simpl in Hn.
  apply list.NoDup_app in Hn as (_ & _ & Hn). apply list.NoDup_app in Hn as (_ & Hx & _).
  apply (Hx p Hc). apply (elem_of_chain _ (j - S i) d); [|done]. rewrite lookup_drop, <- Hj. f_equal. lia.
Qed.

Lemma chains_disjoint (cs : list (list ptr)) i j c d p : NoDup (concat cs) ->
  cs !! i = Some c -> cs !! j = Some d -> p ∈ c -> p ∈ d -> i = j.
Proof.
  intros Hn Hi Hj Hc Hd. destruct (Nat.lt_total i j) as [Hlt|[|Hlt]]; [exfalso|done|exfalso].
  - by eapply (chains_apart cs i j c d).
  - by eapply (chains_apart cs j i d c).
Qed.

Lemma store_slot_ok s cs i pre suf suf' p' :
  0 <= i -> Forall2 (chain (nh (heap s))) (list_ (table_ s)) cs -> NoDup (concat cs) ->
  (forall p, p ∈ concat cs -> is_Some (heap s !! p)) ->
  cs !! Z.to_nat i = Some (pre ++ suf) -> (forall a, a ∈ suf' -> a ∉ pre) -> chain (nh (heap s)) p' suf' ->
  run (store_slot (slot_of i pre) p') s (fun _ s' =>
    Forall2 (chain (nh (heap s'))) (list_ (table_ s')) (<[Z.to_nat i := pre ++ suf']> cs) /\
    table_rest s' = table_rest s /\ length_bits_ (table_ s') = length_bits_ (table_ s) /\
    elems_ (table_ s') = elems_ (table_ s) /\ max_length_bits_ (table_ s') = max_length_bits_ (table_ s) /\
    length (list_ (table_ s')) = length (list_ (table_ s))).
Proof.
  intros H0 HF Hn Hcell Hi Hsuf Hch. destruct (Forall2_lookup_r _ _ _ _ _ HF Hi) as (p & Hp & Hpch).
  unfold slot_of. destruct (list.last pre) as [q|] eqn:El; simpl.
  - assert (Hq : q ∈ pre) by by apply last_Some_elem_of.
    assert (Hpn : NoDup pre).
    { destruct (concat_insert _ _ _ Hi) as (X & Y & E & _). rewrite E in Hn.
      apply list.NoDup_app in Hn as (_ & _ & Hn). rewrite <- app_assoc in Hn. by apply list.NoDup_app in Hn as (? & _). }
    apply run_upd_end; [apply Hcell, (elem_of_chain _ _ _ _ Hi), elem_of_app; auto|]. members.
    split; [|split; [unfold table_rest; members; by rewrite fmap_keep|done]].
    assert (Hnq : nh (alter (set_h_next_hash p') q (heap s)) q = p').
    { apply fget_set; [|done]. apply Hcell, (elem_of_chain _ _ _ _ Hi), elem_of_app. auto. }
    apply Forall2_same_length_lookup_2; [by rewrite length_insert; apply Forall2_length in HF|].
    intros j l c Hl Hc. destruct (decide (j = Z.to_nat i)) as [->|Hj].
    + rewrite list_lookup_insert_eq in Hc by by eapply lookup_lt_Some. simplify_eq.
      eapply (chain_change (nh (heap s)) _ p p pre suf); try done.
      * intros a Ha Hla. apply fget_ne. congruence.
      * unfold after. rewrite El, Hnq. eapply chain_ext; [|done]. intros a Ha. apply fget_ne. intros ->. by apply (Hsuf a).
    + rewrite list_lookup_insert_ne in Hc by done. pose proof (Forall2_lookup_lr _ _ _ _ _ _ HF Hl Hc) as Hlc.
      eapply chain_ext; [|done]. intros a Ha. apply fget_ne. intros ->. apply Hj.
      apply (chains_disjoint cs j (Z.to_nat i) c (pre ++ suf) a); try done. apply elem_of_app. auto.
  - apply last_None in El as ->. exists tt. rewrite Hp. eexists. split; [done|]. members.
    cbn [table_ list_ set_list length_bits_ elems_ max_length_bits_]. split; [|by rewrite length_insert].
    by apply Forall2_insert.
Qed.

Lemma table_rest_fget {A} (f : LRUHandle -> A) d s s' p : (forall h x, f (set_h_next_hash x h) = f h) ->
  table_rest s' = table_rest s -> fget f d (heap s') p = fget f d (heap s) p.
Proof.
  intros Hf E. assert (Eh : set_h_next_hash nullptr <$> heap s' = set_h_next_hash nullptr <$> heap s)
    by (unfold table_rest in E; congruence).
  assert (Hg : forall H, fget f d H p = fget (fun h => f (set_h_next_hash nullptr h)) d H p).
  { intros H. unfold fget. destruct (H !! p); [by rewrite Hf|done]. }
  rewrite !Hg. by apply fget_fmap.
Qed.

Lemma table_rest_cell s s' p : table_rest s' = table_rest s -> is_Some (heap s' !! p) <-> is_Some (heap s !! p).
Proof. intros E. apply (cell_fmap (set_h_next_hash nullptr)). unfold table_rest in E. congruence. Qed.

(** Another end for the chain of bucket [i]. *)
Lemma Buckets_replace H H' l l' bits cs i pre suf suf' :
  Buckets H l bits cs -> cs !! i = Some (pre ++ suf) ->
  Forall2 (chain (nh H')) l' (<[i := pre ++ suf']> cs) ->
  (forall p, hash_at H' p = hash_at H p) -> (forall p, is_Some (H' !! p) <-> is_Some (H !! p)) ->
  length l' = length l ->
  (forall p, p ∈ suf' -> p ∈ suf \/ is_Some (H !! p) /\ is_u32 (hash_at H p) /\
    bucket_of (hash_at H p) bits = Z.of_nat i) ->
  NoDup (nullptr :: concat (<[i := pre ++ suf']> cs)) ->
  Buckets H' l' bits (<[i := pre ++ suf']> cs).
Proof.
  intros HB Hi HF Hh Hc Hlen Hsuf Hn. pose proof (lookup_lt_Some _ _ _ Hi).
  assert (Hold : forall p, p ∈ pre ++ suf' -> p ∈ concat cs \/ is_Some (H !! p) /\ is_u32 (hash_at H p) /\
    bucket_of (hash_at H p) bits = Z.of_nat i).
  { intros p [Hp|Hp]%elem_of_app; [left; apply (elem_of_chain _ _ _ _ Hi), elem_of_app; auto|].
    destruct (Hsuf p Hp); [left; apply (elem_of_chain _ _ _ _ Hi), elem_of_app; auto|auto]. }
  assert (Hall : forall p, p ∈ concat (<[i := pre ++ suf']> cs) -> p ∈ concat cs \/ p ∈ pre ++ suf').
  { intros p (j & c & Hj & Hp)%elem_of_concat. destruct (decide (i = j)) as [->|].
    - rewrite list_lookup_insert_eq in Hj by done. simplify_eq. auto.
    - rewrite list_lookup_insert_ne in Hj by done. left. by eapply elem_of_chain. }
  split; rewrite ?Hlen; try done; [apply (t_bits _ _ _ _ HB)|apply (t_len _ _ _ _ HB)|..].
  - intros j c p Hj Hp. rewrite Hh. destruct (decide (i = j)) as [->|].
    + rewrite list_lookup_insert_eq in Hj by done. simplify_eq.
      apply elem_of_app in Hp as [Hp|Hp]; [apply (t_place _ _ _ _ HB _ _ _ Hi), elem_of_app; auto|].
      destruct (Hsuf p Hp) as [Hp'|(_ & _ & ?)]; [|done]. apply (t_place _ _ _ _ HB _ _ _ Hi), elem_of_app. auto.
    + rewrite list_lookup_insert_ne in Hj by done. by apply (t_place _ _ _ _ HB _ _ _ Hj).
  - intros p Hp. rewrite Hc.
    destruct (Hall p Hp) as [?|Hp']; [by apply (t_cells _ _ _ _ HB)|].
    destruct (Hold p Hp') as [?|(? & _)]; [by apply (t_cells _ _ _ _ HB)|done].
  - intros p Hp. rewrite Hh. destruct (Hall p Hp) as [?|Hp']; [by apply (t_hash _ _ _ _ HB)|].
    destruct (Hold p Hp') as [?|(_ & ? & _)]; [by apply (t_hash _ _ _ _ HB)|done].
Qed.

(** ** [Remove] *)

(** The outcome of a search. *)
Definition found (s : LRUCacheShard) (T : list ptr) (key : bytes) (hash : Z) (p : ptr) : Prop :=
  p = nullptr /\ not_in s key hash T \/ p <> nullptr /\ p ∈ T /\ matches (heap s) key hash p.

Section change.
Context (s : LRUCacheShard) (cs : list (list ptr)).
Hypothesis HT : Table s cs.

Lemma entry_not_null p : p ∈ concat cs -> p <> nullptr.
Proof.
  intros Hp ->. pose proof (t_nodup _ _ _ _ (t_buckets _ _ HT)) as Hn. by apply list.NoDup_cons in Hn as [Hn _].
Qed.

Lemma slot_chain i pre p t : cs !! i = Some (pre ++ p :: t) ->
  nh (heap s) p = hd nullptr t /\ chain (nh (heap s)) (nh (heap s) p) t.
Proof.
  intros Hi. destruct (Forall2_lookup_r _ _ _ _ _ (t_chain _ _ _ _ (t_buckets _ _ HT)) Hi) as (p0 & _ & Hch).
  apply chain_app in Hch as [[_ Hch] _]. split; [|done]. destruct t; simpl in Hch; tauto.
Qed.

Lemma Table_Remove_ok key hash : is_u32 hash ->
  run (Table_Remove key hash) s (fun p s' => found s (concat cs) key hash p /\ table_rest s' = table_rest s /\
    (p = nullptr -> s' = s) /\
    exists cs', Table s' cs' /\ concat cs' = del p (concat cs)).
Proof.
  intros Hh. unfold Table_Remove. eapply run_seq; [by apply (FindPointer_ok s cs key hash)|].
  intros sl s' (-> & pre & suf & Hsl & Hs). apply run_bind. exists (hd nullptr suf), s.
  split; [by eapply load_slot_ok|]. pose proof (t_buckets _ _ HT) as HB.
  pose proof (t_nodup _ _ _ _ HB) as Hnd. apply list.NoDup_cons in Hnd as [Hnn Hnd].
  destruct Hs as [[-> Hn]|(p & t & -> & Hp & Hm)].
  - apply run_bind. exists tt, s. split; [done|]. apply run_ret. split; [by left|]. split; [done|]. split; [done|].
    exists cs. split; [done|]. by rewrite del_notin.
  - cbn [hd]. pose proof (entry_not_null p Hp) as Hpn. rewrite (proj2 (Z.eqb_neq p nullptr) Hpn). cbn [negb when_].
    destruct Hsl as [Hi ->]. destruct (slot_chain _ _ _ _ Hi) as [_ Hch].
    destruct (bucket_i s cs hash HT Hh) as (H0 & _).
    destruct (concat_insert _ _ _ Hi) as (X & Y & E & Ec).
    assert (Hdel : del p (concat cs) = concat (<[Z.to_nat (bucket_of hash (length_bits_ (table_ s))) := pre ++ t]> cs)).
    { rewrite Ec, E, <- !app_assoc. simpl. rewrite app_assoc, del_mid; [by rewrite <- app_assoc|].
      rewrite E in Hnd. by rewrite <- !app_assoc in *. }
    assert (Hin : forall q, q ∈ del p (concat cs) -> q ∈ concat cs) by (intros q Hq; by apply elem_of_del in Hq as [_ ?]).
    assert (Hlen : length (concat cs) = S (length (del p (concat cs)))).
    { rewrite (Permutation_length (del_perm p _ Hnd Hp)). done. }
    assert (Hdis : forall a, a ∈ t -> a ∉ pre).
    { rewrite E in Hnd. apply list.NoDup_app in Hnd as (_ & _ & Hnd). apply list.NoDup_app in Hnd as (Hnd & _).
      apply list.NoDup_app in Hnd as (_ & Hd & _). intros a Ha Ha'. apply (Hd a Ha'). by right. }
    apply run_bind. pose proof (t_cells _ _ _ _ HB p Hp). step_fld nullptr.
    eapply run_seq; [apply (store_slot_ok s cs _ pre (p :: t) t); try done;
      [apply (t_chain _ _ _ _ HB)|apply (t_cells _ _ _ _ HB)]|].
    intros _ s1 (HF & Hrest & Hbits & Helems & Hmax & Hll). apply run_modify_end, run_ret.
    split; [by right|]. split; [done|]. split; [done|]. exists (<[Z.to_nat (bucket_of hash (length_bits_ (table_ s))) := pre ++ t]> cs).
    split; [|done]. pose proof (t_few _ _ HT). split; cbn [table_ set_table_ set_elems elems_ list_ length_bits_ heap].
    + rewrite Hbits. apply (Buckets_replace (heap s) _ (list_ (table_ s)) _ _ cs _ pre (p :: t) t); try done.
      { intros q. by apply table_rest_fget. }
      { intros q. by apply table_rest_cell. }
      { intros q Hq. left. by right. }
      rewrite <- Hdel. apply list.NoDup_cons. split; [auto|]. by apply NoDup_del.
    + rewrite <- Hdel. intros q q' Hq Hq'. rewrite !(table_rest_fget _ _ s s1) by done. apply (t_keys _ _ HT); auto.
    + rewrite <- Hdel, Helems, (t_elems _ _ HT), Hlen. rewrite u32_id; [lia|unfold is_u32; lia].
    + rewrite <- Hdel. lia.
Qed.

(** Removing a known entry. *)
Lemma Table_Remove_entry e : e ∈ concat cs ->
  run (Table_Remove (key_at (heap s) e) (hash_at (heap s) e)) s (fun p s' => p = e /\
    table_rest s' = table_rest s /\ exists cs', Table s' cs' /\ concat cs' = del e (concat cs)).
Proof.
  intros He. eapply run_mono; [apply Table_Remove_ok, (t_hash _ _ _ _ (t_buckets _ _ HT) e He)|].
  intros p s' (Hf & Hrest & _ & Hcs). assert (p = e) as ->; [|done].
  destruct Hf as [[_ Hn]|(_ & Hp & H3 & H4)]; [exfalso; by apply (Hn e He)|by apply (t_keys _ _ HT)].
Qed.
End change.

(** ** [Resize] *)

Lemma Forall2_chain_ext n n' l cs : (forall a, a ∈ concat cs -> n' a = n a) ->
  Forall2 (chain n) l cs -> Forall2 (chain n') l cs.
Proof.
  intros E HF. induction HF as [|p c l cs Hc HF IH]; [done|]. simpl in E. constructor.
  - eapply chain_ext; [|done]. intros a Ha. apply E, elem_of_app. auto.
  - apply IH. intros a Ha. apply E, elem_of_app. auto.
Qed.

(** One entry moved to the front of its new bucket. *)
Lemma Buckets_push H nb newl ncs a p : Buckets H newl nb ncs ->
  let j := Z.to_nat (bucket_of (hash_at H a) nb) in
  newl !! j = Some p -> is_Some (H !! a) -> is_u32 (hash_at H a) -> a <> nullptr -> a ∉ concat ncs ->
  exists ncs', Buckets (alter (set_h_next_hash p) a H) (<[j := a]> newl) nb ncs' /\
    concat ncs' ≡ₚ a :: concat ncs.
Proof.
  intros HB j Hp Ha Hhash Han Hnot.
  destruct (Forall2_lookup_l _ _ _ _ _ (t_chain _ _ _ _ HB) Hp) as (x & Hx & Hxc).
  destruct (concat_insert _ _ _ Hx) as (X & Y & E & Ec).
  assert (Hperm : concat (<[j := [] ++ a :: x]> ncs) ≡ₚ a :: concat ncs).
  { rewrite Ec, E. simpl. by rewrite <- Permutation_middle. }
  assert (Hext : forall b, b ∈ concat ncs -> nh (alter (set_h_next_hash p) a H) b = nh H b).
  { intros b Hb. apply fget_ne. intros ->. done. }
  exists (<[j := [] ++ a :: x]> ncs). split; [|done].
  apply (Buckets_replace H _ newl _ nb ncs j [] x (a :: x)); try done.
  - apply Forall2_insert; [by eapply Forall2_chain_ext; [|apply (t_chain _ _ _ _ HB)]|].
    split; [done|]. rewrite (fget_set _ _ _ _ _ p) by done. eapply chain_ext; [|done].
    intros b Hb. apply Hext. by eapply elem_of_chain.
  - intros q. by apply fget_keep.
  - intros q. apply cell_alter.
  - by rewrite length_insert.
  - intros q [->|Hq]%elem_of_cons; [right|by left]. split; [done|]. split; [done|].
    destruct (bucket_range _ nb Hhash (t_bits _ _ _ _ HB)) as [H0 _]. unfold j. lia.
  - rewrite Hperm, (Permutation_swap a nullptr). apply list.NoDup_cons. split; [|apply (t_nodup _ _ _ _ HB)].
    rewrite elem_of_cons. tauto.
Qed.

Lemma resize_chain_ok fuel nb h c newl ncs count s :
  chain (nh (heap s)) h c -> Buckets (heap s) newl nb ncs -> NoDup (c ++ concat ncs) -> nullptr ∉ c ->
  (forall p, p ∈ c -> is_Some (heap s !! p) /\ is_u32 (hash_at (heap s) p)) -> (length c <= fuel)%nat ->
  0 <= count -> count + Z.of_nat (length c) < 2 ^ 32 ->
  run (resize_chain fuel nb h newl count) s (fun r s' => exists ncs', Buckets (heap s') r.1 nb ncs' /\
    r.2 = count + Z.of_nat (length c) /\
    concat ncs' ≡ₚ c ++ concat ncs /\ table_rest s' = table_rest s /\ table_ s' = table_ s /\
    forall q, q ∉ c -> nh (heap s') q = nh (heap s) q).
Proof.
  revert s h newl ncs fuel count. induction c as [|a c IH]; intros s h newl ncs fuel count Hch HB Hnd Hnn Hcells Hf Hc0 Hc1.
  { simpl in Hch. subst h. destruct fuel; cbn [resize_chain]; rewrite Z.eqb_refl; apply run_ret; exists ncs; simpl;
      rewrite Z.add_0_r; done. }
  destruct Hch as [-> Hch]. destruct fuel as [|fuel]; [simpl in Hf; lia|]. cbn [resize_chain].
  destruct (Hcells a) as [Ha Hhash]; [left|].
  assert (Han : a <> nullptr) by (intros ->; apply Hnn; left).
  rewrite (proj2 (Z.eqb_neq a nullptr) Han). step_fld nullptr. step_fld 0.
  destruct (bucket_range _ nb Hhash (t_bits _ _ _ _ HB)) as [H0 Hlt]. rewrite <- (t_len _ _ _ _ HB) in Hlt.
  destruct (lookup_lt_is_Some_2 _ _ Hlt) as [p Hp]. rewrite Hp.
  set (j := Z.to_nat (bucket_of (hash_at (heap s) a) nb)) in *.
  apply list.NoDup_cons in Hnd as [Hna Hnd]. rewrite elem_of_app in Hna.
  destruct (Buckets_push _ _ _ _ a p HB Hp Ha Hhash Han) as (ncs1 & HB1 & Hperm1); [tauto|].
  step. set (s1 := set_heap _ s).
  assert (Hnx : forall q, q <> a -> nh (heap s1) q = nh (heap s) q) by (intros q Hq; by apply fget_ne).
  simpl length in Hc1. rewrite u32_id by (unfold is_u32; lia).
  eapply run_mono; [apply (IH s1 _ (<[j := a]> newl) ncs1 fuel (count + 1))|].
  - eapply chain_ext; [|done]. intros q Hq. apply Hnx. intros ->. tauto.
  - done.
  - rewrite Hperm1, <- Permutation_middle. apply list.NoDup_cons. rewrite elem_of_app. tauto.
  - intros Hc. apply Hnn. by right.
  - intros q Hq. unfold s1. members. rewrite cell_alter, fget_keep by done. apply Hcells. by right.
  - simpl in Hf. lia.
  - lia.
  - lia.
  - intros r s' (ncs' & HB' & Hcount & Hperm & Hrest & Ht & Hq). exists ncs'. split; [done|].
    split; [rewrite Hcount; simpl length; lia|]. split.
    { rewrite Hperm, Hperm1. by rewrite <- Permutation_middle. }
    split; [rewrite Hrest; unfold table_rest, s1; members; by rewrite fmap_keep|]. split; [done|].
    intros q Hqc. rewrite not_elem_of_cons in Hqc. rewrite Hq by tauto. apply Hnx. tauto.
Qed.

Lemma resize_loop_ok n i nb newl ncs l cs count s :
  drop i (list_ (table_ s)) = l -> length l = n -> Forall2 (chain (nh (heap s))) l cs ->
  Buckets (heap s) newl nb ncs -> NoDup (concat cs ++ concat ncs) -> nullptr ∉ concat cs ->
  (forall p, p ∈ concat cs -> is_Some (heap s !! p) /\ is_u32 (hash_at (heap s) p)) ->
  0 <= count -> count + Z.of_nat (length (concat cs)) < 2 ^ 32 ->
  run (resize_loop n i nb newl count) s (fun r s' => exists ncs', Buckets (heap s') r.1 nb ncs' /\
    r.2 = count + Z.of_nat (length (concat cs)) /\
    concat ncs' ≡ₚ concat cs ++ concat ncs /\ table_rest s' = table_rest s /\ table_ s' = table_ s).
Proof.
  revert i newl ncs l cs count s. induction n as [|n IH]; intros i newl ncs l cs count s Hl Hlen HF HB Hnd Hnn Hcells Hc0 Hc1.
  { destruct l; [|done]. apply Forall2_nil_inv_l in HF as ->. apply run_ret. exists ncs. simpl. by rewrite Z.add_0_r. }
  destruct l as [|h l]; [done|]. apply Forall2_cons_inv_l in HF as (c & cs' & Hch & HF & ->).
  simpl in Hnd, Hnn, Hcells. rewrite <- app_assoc in Hnd. rewrite not_elem_of_app in Hnn.
  simpl concat in Hc1. rewrite length_app in Hc1.
  assert (Hc : forall p, p ∈ c -> is_Some (heap s !! p) /\ is_u32 (hash_at (heap s) p))
    by (intros p Hp; apply Hcells, elem_of_app; auto).
  assert (Hdis : forall p, p ∈ concat cs' -> p ∉ c).
  { apply list.NoDup_app in Hnd as (_ & Hd & _). intros p Hp Hpc. apply (Hd p Hpc), elem_of_app. auto. }
  cbn [resize_loop]. apply run_bind. exists h, s. split.
  { simpl. rewrite Nat2Z.id. rewrite <- (Nat.add_0_r i), <- lookup_drop, Hl. done. }
  step. eapply run_seq; [apply (resize_chain_ok _ nb h c newl ncs count); try done; [|tauto| |lia]|].
  - rewrite app_assoc, (Permutation_app_comm c), <- app_assoc in Hnd. by apply list.NoDup_app in Hnd as (_ & _ & Hnd).
  - apply cells_length; [by apply list.NoDup_app in Hnd as (? & _)|]. intros p Hp. by apply Hc.
  - intros r s1 (ncs1 & HB1 & Hcount1 & Hperm1 & Hrest1 & Ht1 & Hq1).
    eapply run_mono; [apply (IH (S i) r.1 ncs1 l cs' r.2 s1)|].
    + rewrite Ht1. change (S i) with (1 + i)%nat. rewrite Nat.add_comm, <- drop_drop, Hl. done.
    + simpl in Hlen. lia.
    + eapply Forall2_chain_ext; [|done]. intros a Ha. by apply Hq1, Hdis.
    + done.
    + rewrite Hperm1, app_assoc, (Permutation_app_comm (concat cs')), <- app_assoc. done.
    + tauto.
    + intros p Hp. rewrite (table_rest_cell s s1), (table_rest_fget _ _ s s1) by done.
      apply Hcells, elem_of_app. auto.
    + lia.
    + lia.
    + intros r' s' (ncs' & HB' & Hcount & Hperm & Hrest & Ht). exists ncs'. split; [done|].
      split; [rewrite Hcount, Hcount1; simpl concat; rewrite length_app; lia|]. split; [|split; congruence]. rewrite Hperm, Hperm1. simpl. rewrite !app_assoc.
      by rewrite (Permutation_app_comm (concat cs')).
Qed.

Lemma Buckets_empty H bits : 0 <= bits <= 31 ->
  Buckets H (replicate (Z.to_nat (2 ^ bits)) nullptr) bits (replicate (Z.to_nat (2 ^ bits)) []).
Proof.
  intros Hb. assert (Hnone : forall n p, p ∉ concat (replicate n (@nil ptr))).
  { intros n p (i & c & Hi & Hp)%elem_of_concat. apply lookup_replicate in Hi as [-> _]. by apply elem_of_nil in Hp. }
  split; try done.
  - by rewrite length_replicate.
  - apply Forall2_same_length_lookup_2; [by rewrite !length_replicate|].
    intros i p c [-> _]%lookup_replicate [-> _]%lookup_replicate. done.
  - intros i c p [-> _]%lookup_replicate Hp. by apply elem_of_nil in Hp.
  - intros p Hp. exfalso. by eapply Hnone.
  - intros p Hp. exfalso. by eapply Hnone.
  - apply list.NoDup_cons. split; [apply Hnone|]. induction (Z.to_nat (2 ^ bits)); [constructor|done].
Qed.

Lemma Resize_ok s cs : Table s cs ->
  run Resize s (fun _ s' => table_rest s' = table_rest s /\ exists cs', Table s' cs' /\ concat cs' ≡ₚ concat cs).
Proof.
  intros HT. pose proof (t_buckets _ _ HT) as HB. pose proof (t_bits _ _ _ _ HB).
  pose proof (t_nodup _ _ _ _ HB) as Hnd. apply list.NoDup_cons in Hnd as [Hnn Hnd].
  unfold Resize. step. step. destruct (_ <=? length_bits_ _); [apply run_ret; split; [done|]; by exists cs|].
  destruct (Z.leb_spec 31 (length_bits_ (table_ s))); [apply run_ret; split; [done|]; by exists cs|].
  eapply run_seq; [eapply (resize_loop_ok _ _ _ _ _ (list_ (table_ s)) cs 0); try done|].
  - apply (t_len _ _ _ _ HB).
  - apply (t_chain _ _ _ _ HB).
  - apply Buckets_empty. lia.
  - assert (Hz : forall n, concat (replicate n (@nil ptr)) = []) by (induction n; done).
    by rewrite Hz, app_nil_r.
  - intros p Hp. split; [by apply (t_cells _ _ _ _ HB)|by apply (t_hash _ _ _ _ HB)].
  - simpl. apply (t_few _ _ HT).
  - intros r s1 (ncs & HB1 & Hcount & Hperm & Hrest & Ht). step.
    apply run_assert; [apply Z.eqb_eq; rewrite Ht, (t_elems _ _ HT), Hcount; done|].
    assert (Hz : forall n, concat (replicate n (@nil ptr)) = []) by (induction n; done).
    rewrite Hz, app_nil_r in Hperm. apply run_modify_end. split; [done|]. exists ncs. split; [|done].
    split; cbn [table_ set_table_ set_length_bits set_list list_ length_bits_ elems_ heap]; [done|..].
    + intros p q Hp Hq. rewrite Hperm in Hp, Hq. rewrite !(table_rest_fget _ _ s s1) by done. by apply (t_keys _ _ HT).
    + rewrite Ht, (t_elems _ _ HT), Hperm. done.
    + rewrite Hperm. apply (t_few _ _ HT).
Qed.

(** ** [Insert] *)

Section insert.
Context (s : LRUCacheShard) (cs : list (list ptr)) (h : ptr).
Hypothesis HT : Table s cs.
Hypothesis Hcell : is_Some (heap s !! h).
Hypothesis Hnull : h <> nullptr.
Hypothesis Hnew : h ∉ concat cs.
Hypothesis Hhash : is_u32 (hash_at (heap s) h).
Hypothesis Hfew : Z.of_nat (length (concat cs)) + 1 < 2 ^ 32.
Let key := key_at (heap s) h.
Let hash := hash_at (heap s) h.
Let i := bucket_of hash (length_bits_ (table_ s)).

(** The entry [h] at the place of [old], or at the end of its chain: the table
    without the count of elements. *)
Lemma insert_slot pre suf t :
  cs !! Z.to_nat i = Some (pre ++ suf) -> (suf = [] /\ t = [] \/ exists old, suf = old :: t) ->
  let s1 := set_heap (alter (set_h_next_hash (hd nullptr t)) h (heap s)) s in
  run (store_slot (slot_of i pre) h) s1 (fun _ s' =>
    table_rest s' = table_rest s /\ elems_ (table_ s') = elems_ (table_ s) /\ exists cs',
    Buckets (heap s') (list_ (table_ s')) (length_bits_ (table_ s')) cs' /\
    exists X Y, concat cs = X ++ suf ++ Y /\ concat cs' = X ++ h :: t ++ Y).
Proof.
  intros Hi Hsuf s1. pose proof (t_buckets _ _ HT) as HB. pose proof (t_nodup _ _ _ _ HB) as Hnd.
  apply list.NoDup_cons in Hnd as [Hnn Hnd]. destruct (concat_insert _ _ _ Hi) as (X & Y & E & Ec).
  destruct (bucket_range hash _ Hhash (t_bits _ _ _ _ HB)) as [H0 _].
  assert (Hsub : forall q, q ∈ t -> q ∈ suf) by (intros q Hq; destruct Hsuf as [[-> ->]|[old ->]]; [done|by right]).
  assert (Hkeep : forall q, q ∈ concat cs -> nh (heap s1) q = nh (heap s) q).
  { intros q Hq. apply fget_ne. intros ->. done. }
  assert (Hpre : forall a, a ∈ h :: t -> a ∉ pre).
  { intros a [->|Ha]%elem_of_cons Hap; [apply Hnew, (elem_of_chain _ _ _ _ Hi), elem_of_app; auto|].
    rewrite E in Hnd. apply list.NoDup_app in Hnd as (_ & _ & Hnd). apply list.NoDup_app in Hnd as (Hnd & _).
    apply list.NoDup_app in Hnd as (_ & Hd & _). apply (Hd a Hap). auto. }
  assert (Hperm : concat (<[Z.to_nat i := pre ++ h :: t]> cs) ≡ₚ h :: X ++ pre ++ t ++ Y).
  { rewrite Ec, <- app_assoc. simpl. by rewrite !(Permutation_middle _ _ h). }
  assert (Hch : chain (nh (heap s1)) h (h :: t)).
  { split; [done|]. unfold s1. members. rewrite (fget_set _ _ _ _ _ (hd nullptr t)) by done.
    destruct Hsuf as [[_ ->]|[old ->]]; [done|]. destruct (slot_chain s cs HT _ _ _ _ Hi) as [Hnh Hc].
    rewrite Hnh in Hc. eapply chain_ext; [|done]. intros a Ha. apply Hkeep, (elem_of_chain _ _ _ _ Hi), elem_of_app. right. by right. }
  eapply run_mono; [apply (store_slot_ok s1 cs i pre suf (h :: t)); try done|].
  - eapply Forall2_chain_ext; [done|apply (t_chain _ _ _ _ HB)].
  - intros p Hp. unfold s1. members. rewrite cell_alter. by apply (t_cells _ _ _ _ HB).
  - intros _ s2 (HF & Hrest & Hbits & Helems & _ & Hlen).
    assert (Hr : table_rest s2 = table_rest s).
    { rewrite Hrest. unfold table_rest, s1. members. by rewrite fmap_keep. }
    split; [done|]. split; [done|]. exists (<[Z.to_nat i := pre ++ h :: t]> cs). split.
    + rewrite Hbits. eapply (Buckets_replace (heap s) _ (list_ (table_ s)) _ _ cs _ pre suf (h :: t)); try done.
      * intros q. by apply table_rest_fget.
      * intros q. by apply table_rest_cell.
      * intros q [->|Hq]%elem_of_cons; [right|left; auto]. split; [done|]. split; [done|]. by rewrite Z2Nat.id.
      * rewrite Hperm, (Permutation_swap h nullptr).
        assert (Hs : sublist (X ++ pre ++ t ++ Y) (concat cs)).
        { rewrite E, <- app_assoc. apply sublist_app; [done|]. apply sublist_app; [done|]. apply sublist_app; [|done].
          destruct Hsuf as [[-> ->]|[old ->]]; [done|by constructor]. }
        assert (Hin : forall q, q ∈ X ++ pre ++ t ++ Y -> q ∈ concat cs) by (intros q Hq; by eapply elem_of_submseteq, sublist_submseteq).
        apply list.NoDup_cons. split; [rewrite elem_of_cons; naive_solver|]. apply list.NoDup_cons. split; [auto|].
        by eapply sublist_NoDup.
    + exists (X ++ pre), Y. rewrite Ec, E, <- !app_assoc. done.
Qed.

(** The table after a chain was changed, once the count is right. *)
Lemma Table_changed s' cs' l : table_rest s' = table_rest s ->
  Buckets (heap s') (list_ (table_ s')) (length_bits_ (table_ s')) cs' ->
  concat cs' ≡ₚ h :: l -> sublist l (concat cs) -> not_in s key hash l ->
  elems_ (table_ s') = Z.of_nat (S (length l)) -> Table s' cs'.
Proof.
  intros Hrest HB Hperm Hl Hni Helems. split; [done|..].
  - assert (Hin : forall q, q ∈ l -> q ∈ concat cs) by (intros q Hq; by eapply elem_of_submseteq, sublist_submseteq).
    intros p q. rewrite Hperm, !elem_of_cons, !(table_rest_fget _ _ s s') by done.
    intros [->|Hp] [->|Hq] H1 H2; [done|exfalso; by apply (Hni q Hq)|exfalso; by apply (Hni p Hp)|].
    apply (t_keys _ _ HT); auto.
  - by rewrite Hperm.
  - rewrite Hperm. apply sublist_length in Hl. simpl. lia.
Qed.

Lemma Table_Insert_ok : run (Table_Insert h) s (fun old s' =>
  found s (concat cs) key hash old /\ table_rest s' = table_rest s /\
  exists cs', Table s' cs' /\ concat cs' ≡ₚ h :: del old (concat cs)).
Proof.
  pose proof (t_buckets _ _ HT) as HB. pose proof (t_nodup _ _ _ _ HB) as Hnd. apply list.NoDup_cons in Hnd as [Hnn Hnd].
  unfold Table_Insert. step_fld (@nil byte). step_fld 0. fold key hash.
  eapply run_seq; [by apply (FindPointer_ok s cs key hash)|].
  intros sl s' (-> & pre & suf & Hsl & Hs). apply run_bind. exists (hd nullptr suf), s.
  split; [by eapply load_slot_ok|]. destruct Hsl as [Hi ->].
  destruct Hs as [[-> Hn]|(old & t & -> & Hp & Hm)].
  - apply run_bind. exists nullptr, s. split; [done|]. step.
    eapply run_seq; [apply (insert_slot pre [] []); [done|by left]|].
    intros _ s1 (Hrest & Helems & cs' & HB' & X & Y & E & Ec). cbn [hd Z.eqb when_].
    assert (Hperm : concat cs' ≡ₚ h :: concat cs) by (rewrite Ec, E; simpl; by rewrite <- Permutation_middle).
    eapply run_seq with (P := fun _ s' => table_rest s' = table_rest s /\ exists cs', Table s' cs' /\ concat cs' ≡ₚ h :: concat cs).
    { step. step. step. set (s2 := set_table_ _ s1).
      assert (HT2 : Table s2 cs').
      { apply (Table_changed s2 cs' (concat cs)); try done. unfold s2. cbn [table_ set_table_ set_elems elems_].
        rewrite Helems, (t_elems _ _ HT). rewrite u32_id; [lia|unfold is_u32; lia]. }
      destruct (0 <? _); simpl; [|apply run_ret; split; [done|]; by exists cs'].
      eapply run_mono; [by apply Resize_ok|]. intros _ s3 (Hr3 & cs3 & HT3 & Hp3).
      split; [rewrite Hr3; done|]. exists cs3. split; [done|]. by rewrite Hp3. }
    intros _ s3 [Hr3 (cs3 & HT3 & Hp3)]. apply run_ret. split; [by left|]. split; [done|].
    exists cs3. by rewrite del_notin.
  - pose proof (entry_not_null s cs HT old Hp) as Hon. cbn [hd]. rewrite (proj2 (Z.eqb_neq old nullptr) Hon).
    pose proof (t_cells _ _ _ _ HB old Hp). step_fld nullptr.
    destruct (slot_chain s cs HT _ _ _ _ Hi) as [-> _]. step.
    eapply run_seq; [apply (insert_slot pre (old :: t) t); [done|right; by exists old]|].
    intros _ s1 (Hrest & Helems & cs' & HB' & X & Y & E & Ec). apply run_bind. exists tt, s1. split; [done|].
    apply run_ret. split; [by right|]. split; [done|]. exists cs'.
    assert (Hdel : del old (concat cs) = X ++ t ++ Y) by (rewrite E in *; simpl in *; by apply del_mid).
    assert (Hperm : concat cs' ≡ₚ h :: del old (concat cs)) by (rewrite Ec, Hdel; by rewrite <- Permutation_middle).
    split; [|done]. apply (Table_changed s1 cs' (del old (concat cs))); try done.
    + apply sublist_filter.
    + intros q [Hqo Hq]%elem_of_del [Hq1 Hq2]. apply Hqo. destruct Hm. apply (t_keys _ _ HT); congruence.
    + rewrite Helems, (t_elems _ _ HT). rewrite (Permutation_length (del_perm old _ Hnd Hp)). done.
Qed.
End insert.
