(* ===== verification/LruInv.v ===== *)
(** * The invariant of a cache shard

    [Inv0] ties the list of evictable entries ([LruRing]) and the hash table
    ([LruTable]) together: every cell of the heap is the dummy head, an entry
    of the table, an entry that was erased while clients still hold it, or in
    transit; an entry is evictable exactly when it is in the table and nobody
    holds it; reference counts are the numbers of handles the clients hold; and
    the usage is the sum of the charges. The lemmas of this file show what
    evicting does to it. *)

From S2P Require Import Prelude Binary64 Slice LruCache LruRing LruTable.
#[local] Set Warnings "-clear-no-such-hyp".

(** ** What the list and the table depend on *)

Definition ring_view (h : LRUHandle) := (h_next h, h_prev h, pool h, h_total_charge h).
Definition table_view (h : LRUHandle) := (h_next_hash h, h_hash h, h_key h).

Definition ring_members (s : LRUCacheShard) :=
  (lru_bottom_pri_ s, lru_low_pri_ s, high_pri_pool_usage_ s, low_pri_pool_usage_ s, lru_usage_ s).

(** The two heaps agree on a cell. *)
Definition same_cell {C} (f : LRUHandle -> C) (H H' : gmap ptr LRUHandle) (p : ptr) : Prop :=
  f <$> H' !! p = f <$> H !! p.

Lemma same_fget {A C} (f : LRUHandle -> C) (k : C -> A) d H H' p :
  same_cell f H H' p -> fget (fun h => k (f h)) d H' p = fget (fun h => k (f h)) d H p.
Proof. unfold same_cell, fget. destruct (H' !! p), (H !! p); intros E; simplify_eq/=; congruence. Qed.

Lemma same_is_Some {C} (f : LRUHandle -> C) H H' p :
  same_cell f H H' p -> is_Some (H' !! p) <-> is_Some (H !! p).
Proof. unfold same_cell. intros E. rewrite <- !(fmap_is_Some f), E. done. Qed.

Lemma Ring_transfer s s' B L H : Ring s B L H ->
  (forall p, p ∈ lru_ :: B ++ L ++ H -> same_cell ring_view (heap s) (heap s') p) ->
  (forall p, p ∉ lru_ :: B ++ L ++ H -> nx (heap s') p = nullptr /\ pv (heap s') p = nullptr) ->
  charges_ok (heap s') -> ring_members s' = ring_members s -> Ring s' B L H.
Proof.
  intros HR Hsame Hout Hok Hm. pose proof (r_ring _ _ _ _ HR) as R. injection Hm as E1 E2 E3 E4 E5.
  assert (Hn : forall p, p ∈ lru_ :: B ++ L ++ H -> nx (heap s') p = nx (heap s) p).
  { intros p Hp. by apply (same_fget ring_view (fun x => x.1.1.1)), Hsame. }
  assert (Hp : forall p, p ∈ lru_ :: B ++ L ++ H -> pv (heap s') p = pv (heap s) p).
  { intros p Hp. by apply (same_fget ring_view (fun x => x.1.1.2)), Hsame. }
  assert (Hpool : forall p d, p ∈ B ++ L ++ H -> fget pool d (heap s') p = fget pool d (heap s) p).
  { intros p d Hp'. apply (same_fget ring_view (fun x => x.1.2)), Hsame. by right. }
  assert (Hch : forall l, (forall p, p ∈ l -> p ∈ B ++ L ++ H) -> charges (heap s') l = charges (heap s) l).
  { intros l Hl. apply charges_ext. intros p Hp'. apply (same_fget ring_view (fun x => x.2)), Hsame. right. auto. }
  assert (HinB : forall p, p ∈ B -> p ∈ B ++ L ++ H) by (intros; rewrite !elem_of_app; auto).
  assert (HinL : forall p, p ∈ L -> p ∈ B ++ L ++ H) by (intros; rewrite !elem_of_app; auto).
  assert (HinH : forall p, p ∈ H -> p ∈ B ++ L ++ H) by (intros; rewrite !elem_of_app; auto).
  split; [split|..]; rewrite ?Hch by auto; try congruence; try done.
  - eapply links_ext; [| |apply (r_links _ _ _ _ R)]; unfold ring; intros p Hp'.
    + apply Hn. change (lru_ :: (B ++ L ++ H) ++ [lru_]) with ((lru_ :: B ++ L ++ H) ++ [lru_]) in Hp'.
      by rewrite removelast_last in Hp'.
    + apply Hp. simpl in Hp'. apply elem_of_app in Hp' as [?|Hx%list_elem_of_singleton]; [by right|subst p; left].
  - apply (r_nodup _ _ _ _ R).
  - intros p Hp'. apply (same_is_Some ring_view (heap s)); [auto|]. by apply (r_cells _ _ _ _ R).
  - rewrite E1. apply (r_bottom _ _ _ _ R).
  - intros p Hp'. rewrite Hpool by auto. by apply (r_marked_b _ _ _ _ R).
  - intros p Hp'. rewrite Hpool by auto. by apply (r_marked_l _ _ _ _ R).
  - intros p Hp'. rewrite Hpool by auto. by apply (r_marked_h _ _ _ _ R).
  - rewrite E3. apply (r_high _ _ _ _ R).
  - rewrite E4. apply (r_low _ _ _ _ R).
  - apply (r_fits _ _ _ _ R).
  - rewrite E2. apply (r_low_pri _ _ _ _ HR).
  - rewrite E5. apply (r_usage _ _ _ _ HR).
Qed.

Lemma Table_transfer s s' cs : Table s cs ->
  (forall p, p ∈ concat cs -> same_cell table_view (heap s) (heap s') p) ->
  table_ s' = table_ s -> Table s' cs.
Proof.
  intros HT Hsame Ht. pose proof (t_buckets _ _ HT) as HB.
  assert (Hn : forall p, p ∈ concat cs -> nh (heap s') p = nh (heap s) p).
  { intros p Hp. by apply (same_fget table_view (fun x => x.1.1)), Hsame. }
  assert (Hh : forall p, p ∈ concat cs -> hash_at (heap s') p = hash_at (heap s) p).
  { intros p Hp. by apply (same_fget table_view (fun x => x.1.2)), Hsame. }
  assert (Hk : forall p, p ∈ concat cs -> key_at (heap s') p = key_at (heap s) p).
  { intros p Hp. by apply (same_fget table_view (fun x => x.2)), Hsame. }
  split; rewrite ?Ht; [split|..].
  - apply (t_bits _ _ _ _ HB).
  - apply (t_len _ _ _ _ HB).
  - eapply Forall2_chain_ext; [|apply (t_chain _ _ _ _ HB)]. done.
  - intros i c p Hi Hp. rewrite Hh by by eapply elem_of_chain. by apply (t_place _ _ _ _ HB _ _ _ Hi).
  - intros p Hp. apply (same_is_Some table_view (heap s)); [auto|]. by apply (t_cells _ _ _ _ HB).
  - intros p Hp. rewrite Hh by done. by apply (t_hash _ _ _ _ HB).
  - apply (t_nodup _ _ _ _ HB).
  - intros p q Hp Hq. rewrite !Hh, !Hk by done. by apply (t_keys _ _ HT).
  - apply (t_elems _ _ HT).
  - apply (t_few _ _ HT).
Qed.

Lemma same_alter {C} (f : LRUHandle -> C) H g e p : (forall h, f (g h) = f h) -> same_cell f H (alter g e H) p.
Proof.
  intros Hg. unfold same_cell. destruct (decide (e = p)) as [->|]; [|by rewrite lookup_alter_ne].
  rewrite lookup_alter_eq. destruct (H !! p); simpl; congruence.
Qed.

Lemma same_fmap {C} (f : LRUHandle -> C) H H' p : f <$> H' = f <$> H -> same_cell f H H' p.
Proof. intros E. unfold same_cell. rewrite <- !lookup_fmap. by rewrite E. Qed.

Lemma same_weaken {C D} (f : LRUHandle -> C) (g : C -> D) H H' p :
  same_cell f H H' p -> same_cell (fun h => g (f h)) H H' p.
Proof. unfold same_cell. destruct (H' !! p), (H !! p); intros E; simplify_eq/=; congruence. Qed.

(** ** Reference counts *)

Fixpoint nrefs (p : ptr) (held : list ptr) : Z :=
  match held with
  | [] => 0
  | q :: held => (if decide (p = q) then 1 else 0) + nrefs p held
  end.

Lemma nrefs_range p held : 0 <= nrefs p held <= Z.of_nat (length held).
Proof. induction held as [|q held IH]; simpl; [lia|]. destruct (decide _); lia. Qed.

Lemma nrefs_pos p held : 0 < nrefs p held <-> p ∈ held.
Proof.
  induction held as [|q held IH]; simpl; [rewrite elem_of_nil; lia|]. rewrite elem_of_cons.
  pose proof (nrefs_range p held). destruct (decide (p = q)) as [->|]; [|rewrite <- IH; naive_solver lia].
  split; [by left|lia].
Qed.

Lemma nrefs_perm p h h' : h ≡ₚ h' -> nrefs p h = nrefs p h'.
Proof. induction 1; simpl; lia. Qed.

(** ** The invariant *)

Abbreviation refs_at := (fget h_refs 0).
Abbreviation cached_at := (fget InCache false).

Record Inv0 (s : LRUCacheShard) (held limbo B L H : list ptr) (cs : list (list ptr)) (ext : list ptr) : Prop := {
  i_ring : Ring s B L H;
  i_table : Table s cs;
  i_cells : forall p, is_Some (heap s !! p) <-> p ∈ lru_ :: concat cs ++ ext ++ limbo;
  i_nodup : NoDup (nullptr :: lru_ :: concat cs ++ ext ++ limbo);
  i_evict : forall p, p ∈ B ++ L ++ H <-> p ∈ concat cs /\ p ∉ held;
  i_refs : forall p, p ∈ concat cs ++ ext -> refs_at (heap s) p = nrefs p held;
  i_held : forall p, p ∈ held -> p ∈ concat cs ++ ext;
  i_ext : forall p, p ∈ ext -> p ∈ held;
  i_in : forall p, p ∈ concat cs -> cached_at (heap s) p = true;
  i_out : forall p, p ∈ ext -> cached_at (heap s) p = false;
  i_usage : usage_ s = charges (heap s) (concat cs ++ ext);
  i_room : usage_ s < 2 ^ 64;
  i_few : Z.of_nat (length held) < 2 ^ 32
}.

(** What an entry is, and the members that only the setters change. *)
Definition core (h : LRUHandle) :=
  (h_value h, h_helper h, h_total_charge h, h_key h, h_hash h, h_refs h, InCache h, HasHit h, h_im_flags h).

Definition conf (s : LRUCacheShard) :=
  (metadata_charge_policy_ s, capacity_ s, strict_capacity_limit_ s, high_pri_pool_ratio_ s,
   high_pri_pool_capacity_ s, low_pri_pool_ratio_ s, low_pri_pool_capacity_ s, deleter_calls s).

Lemma rest_core s s' : shard_rest s' = shard_rest s ->
  (forall p, same_cell core (heap s) (heap s') p) /\ (forall p, same_cell table_view (heap s) (heap s') p) /\
  conf s' = conf s /\ usage_ s' = usage_ s /\ table_ s' = table_ s.
Proof.
  intros E. assert (Eh : ring_rest <$> heap s' = ring_rest <$> heap s) by (unfold shard_rest in E; congruence).
  split; [|split; [|unfold shard_rest in E; unfold conf; split; [congruence|split; congruence]]].
  - intros p. apply (same_weaken ring_rest (fun '(a, b, _, c, d, e, f, g, h, i) => (a, b, c, d, e, f, g, h, i))).
    by apply same_fmap.
  - intros p. apply (same_weaken ring_rest (fun '(a, b, n, c, d, e, f, g, h, i) => (n, e, d))). by apply same_fmap.
Qed.

Lemma table_core s s' : table_rest s' = table_rest s ->
  (forall p, same_cell core (heap s) (heap s') p) /\ (forall p, same_cell ring_view (heap s) (heap s') p) /\
  conf s' = conf s /\ usage_ s' = usage_ s /\ ring_members s' = ring_members s.
Proof.
  intros E. injection E as Eh E.
  assert (Hs : forall {C} (f : LRUHandle -> C) p, (forall h, f (set_h_next_hash nullptr h) = f h) ->
    same_cell f (heap s) (heap s') p).
  { intros C f p Hf. pose proof (same_weaken _ f _ _ p (same_fmap _ _ _ p Eh)) as Hw. unfold same_cell in *.
    destruct (heap s' !! p), (heap s !! p); simplify_eq/=; rewrite ?Hf in *; congruence. }
  split; [intros p; by apply Hs|]. split; [intros p; by apply Hs|].
  unfold conf, ring_members. destruct s, s'; cbn in *; simplify_eq; done.
Qed.

Lemma Ring_table s s' B L H : table_rest s' = table_rest s -> Ring s B L H -> Ring s' B L H.
Proof.
  intros E HR. destruct (table_core s s' E) as (_ & Hv & _ & _ & Hm). pose proof (r_ring _ _ _ _ HR) as R.
  eapply Ring_transfer; try done; [auto|..].
  - intros p Hp. rewrite !(table_rest_fget _ _ s s') by done. by apply (r_out _ _ _ _ R).
  - intros p. rewrite (table_rest_fget _ _ s s') by done. apply (r_charges _ _ _ _ R).
Qed.

Lemma Table_ring s s' cs : shard_rest s' = shard_rest s -> Table s cs -> Table s' cs.
Proof. intros E HT. destruct (rest_core s s' E) as (_ & Hv & _ & _ & Ht). by eapply Table_transfer. Qed.

(** Changes of handles that neither the list nor the table depends on. *)
Lemma Ring_upd s B L H g e : Ring s B L H -> (forall h, ring_view (g h) = ring_view h) ->
  Ring (set_heap (alter g e (heap s)) s) B L H.
Proof.
  intros HR Hg. pose proof (r_ring _ _ _ _ HR) as R.
  assert (Hf : forall {A} (k : _ -> A) d p, fget (fun h => k (ring_view h)) d (alter g e (heap s)) p =
    fget (fun h => k (ring_view h)) d (heap s) p).
  { intros A k d p. apply (same_fget ring_view k). by apply same_alter. }
  eapply Ring_transfer; try done; members.
  - intros p _. by apply same_alter.
  - intros p Hp. rewrite (Hf _ (fun x => x.1.1.1)), (Hf _ (fun x => x.1.1.2)). by apply (r_out _ _ _ _ R).
  - intros p. rewrite (Hf _ (fun x => x.2)). apply (r_charges _ _ _ _ R).
Qed.

Lemma Table_upd s cs g e : Table s cs -> (forall h, table_view (g h) = table_view h) ->
  Table (set_heap (alter g e (heap s)) s) cs.
Proof. intros HT Hg. eapply Table_transfer; try done. intros p _. by apply same_alter. Qed.

Lemma core_fields H H' p : same_cell core H H' p ->
  (is_Some (H' !! p) <-> is_Some (H !! p)) /\ charge_at H' p = charge_at H p /\ key_at H' p = key_at H p /\
  hash_at H' p = hash_at H p /\ refs_at H' p = refs_at H p /\ cached_at H' p = cached_at H p.
Proof.
  intros E. split; [by apply (same_is_Some core)|].
  split; [by apply (same_fget core (fun '(_, _, c, _, _, _, _, _, _) => c))|].
  split; [by apply (same_fget core (fun '(_, _, _, k, _, _, _, _, _) => k))|].
  split; [by apply (same_fget core (fun '(_, _, _, _, h, _, _, _, _) => h))|].
  split; [by apply (same_fget core (fun '(_, _, _, _, _, r, _, _, _) => r))|].
  by apply (same_fget core (fun '(_, _, _, _, _, _, c, _, _) => c)).
Qed.

Lemma ring_view_cache b h : ring_view (SetInCache b h) = ring_view h.
Proof. unfold ring_view, pool. flags. done. Qed.

Lemma ring_view_hit h : ring_view (SetHit h) = ring_view h.
Proof. unfold ring_view, pool. flags. done. Qed.

Lemma Ring_usage s B L H u : Ring s B L H -> Ring (set_usage_ u s) B L H.
Proof. intros [[] ? ?]. split; [split|..]; done. Qed.

Lemma Table_usage s cs u : Table s cs -> Table (set_usage_ u s) cs.
Proof. intros []. split; done. Qed.

Section inv.
Context (s : LRUCacheShard) (held limbo B L H : list ptr) (cs : list (list ptr)) (ext : list ptr).
Hypothesis HI : Inv0 s held limbo B L H cs ext.

Lemma inv_parts :
  (nullptr ∉ concat cs ++ ext ++ limbo) /\ (lru_ ∉ concat cs ++ ext ++ limbo) /\
  NoDup (concat cs) /\ NoDup ext /\ NoDup limbo /\
  (forall p, p ∈ concat cs -> (p ∉ ext) /\ (p ∉ limbo)) /\ (forall p, p ∈ ext -> p ∉ limbo).
Proof.
  pose proof (i_nodup _ _ _ _ _ _ _ _ HI) as Hn. apply list.NoDup_cons in Hn as [H1 Hn].
  apply list.NoDup_cons in Hn as [H2 Hn]. rewrite not_elem_of_cons in H1.
  apply list.NoDup_app in Hn as (H3 & H4 & Hn). apply list.NoDup_app in Hn as (H5 & H6 & H7).
  repeat split; try done; try tauto; intros Hp; apply (H4 p); try done; apply elem_of_app; auto.
Qed.

Lemma charges_all_ok : charges_ok (heap s).
Proof. apply (r_charges _ _ _ _ (r_ring _ _ _ _ (i_ring _ _ _ _ _ _ _ _ HI))). Qed.

Lemma charge_le_usage e : e ∈ concat cs ++ ext -> charge_at (heap s) e <= usage_ s.
Proof.
  intros He. rewrite (i_usage _ _ _ _ _ _ _ _ HI). pose proof charges_all_ok as Hok.
  apply list_elem_of_split in He as (l1 & l2 & ->). rewrite charges_app. cbn [charges].
  pose proof (charges_nonneg (heap s) l1 Hok). pose proof (charges_nonneg (heap s) l2 Hok). lia.
Qed.

Lemma entry_cell e : e ∈ concat cs ++ ext -> is_Some (heap s !! e).
Proof.
  intros He. apply (i_cells _ _ _ _ _ _ _ _ HI). right. rewrite app_assoc. apply elem_of_app. auto.
Qed.

Lemma unheld_refs e : e ∈ concat cs ++ ext -> e ∉ held -> refs_at (heap s) e = 0.
Proof.
  intros He Hh. rewrite (i_refs _ _ _ _ _ _ _ _ HI) by done. pose proof (nrefs_range e held).
  destruct (decide (0 < nrefs e held)) as [Hp%nrefs_pos|]; [done|lia].
Qed.

Lemma has_refs e : is_Some (heap s !! e) -> fget HasRefs false (heap s) e = (0 <? refs_at (heap s) e).
Proof. intros [h E]. unfold fget. by rewrite E. Qed.

(** The entry [e] has left the table and nobody holds it any more. *)
Lemma Inv0_drop s' held' B' L' H' cs' e :
  e ∈ concat cs -> e ∉ held' -> (forall p, p <> e -> nrefs p held' = nrefs p held) ->
  (length held' <= length held)%nat ->
  Ring s' B' L' H' -> (forall p, p ∈ B' ++ L' ++ H' <-> p ∈ del e (concat cs) /\ p ∉ held') ->
  Table s' cs' -> concat cs' = del e (concat cs) ->
  (forall p, p <> e -> same_cell core (heap s) (heap s') p) -> is_Some (heap s' !! e) ->
  usage_ s' = usage_ s - charge_at (heap s) e ->
  Inv0 s' held' (e :: limbo) B' L' H' cs' ext.
Proof.
  intros He Heh Hrefs Hlen HR Hev HT Ecs Hcore Hcell Hu.
  destruct inv_parts as (Hnull & Hlru & HnT & HnE & HnP & Hdis & Hdis'). destruct (Hdis e He) as [HeE HeP].
  pose proof charges_all_ok as Hok.
  assert (Hheld : forall p, p <> e -> p ∈ held' <-> p ∈ held) by (intros p Hp; by rewrite <- !nrefs_pos, Hrefs).
  assert (Hperm : concat cs ++ ext ++ limbo ≡ₚ concat cs' ++ ext ++ e :: limbo).
  { rewrite Ecs. rewrite (del_perm e (concat cs)) at 1 by done. simpl. rewrite !app_assoc. by rewrite Permutation_middle. }
  assert (Hne : forall p, p ∈ concat cs' ++ ext -> p <> e /\ p ∈ concat cs ++ ext).
  { rewrite Ecs. intros p [[? ?]%elem_of_del|Hp]%elem_of_app; rewrite elem_of_app; [tauto|].
    split; [intros ->; done|tauto]. }
  split; try done.
  - intros p. rewrite <- Hperm. rewrite <- (i_cells _ _ _ _ _ _ _ _ HI).
    destruct (decide (p = e)) as [->|Hp]; [|by apply (core_fields _ _ p (Hcore p Hp))].
    split; [intros _|done]. apply (i_cells _ _ _ _ _ _ _ _ HI). right. apply elem_of_app. auto.
  - rewrite <- Hperm. apply (i_nodup _ _ _ _ _ _ _ _ HI).
  - intros p. by rewrite Hev, Ecs.
  - intros p [Hp Hin]%Hne. destruct (core_fields _ _ p (Hcore p Hp)) as (_ & _ & _ & _ & -> & _).
    rewrite Hrefs by done. by apply (i_refs _ _ _ _ _ _ _ _ HI).
  - intros p Hp. assert (p <> e) by (intros ->; done). apply Hheld in Hp; [|done].
    apply (i_held _ _ _ _ _ _ _ _ HI) in Hp. rewrite Ecs, elem_of_app, elem_of_del. rewrite elem_of_app in Hp. tauto.
  - intros p Hp. apply Hheld; [intros ->; done|]. by apply (i_ext _ _ _ _ _ _ _ _ HI).
  - intros p Hp. rewrite Ecs in Hp. apply elem_of_del in Hp as [Hp Hin].
    destruct (core_fields _ _ p (Hcore p Hp)) as (_ & _ & _ & _ & _ & ->). by apply (i_in _ _ _ _ _ _ _ _ HI).
  - intros p Hp. destruct (core_fields _ _ p (Hcore p ltac:(intros ->; done))) as (_ & _ & _ & _ & _ & ->).
    by apply (i_out _ _ _ _ _ _ _ _ HI).
  - rewrite Hu, (i_usage _ _ _ _ _ _ _ _ HI). rewrite (charges_ext (heap s) (heap s')).
    + rewrite Ecs, !charges_app, charges_del by done. lia.
    + intros p [Hp _]%Hne. by destruct (core_fields _ _ p (Hcore p Hp)) as (_ & ? & _).
  - pose proof (i_room _ _ _ _ _ _ _ _ HI). pose proof (Hok e). lia.
  - pose proof (i_few _ _ _ _ _ _ _ _ HI). lia.
Qed.

(** An evictable entry leaves the list and the table. *)
Lemma evict_one_ok e : e ∈ B ++ L ++ H ->
  run (evict_one e) s (fun _ s' => exists cs',
    Inv0 s' held (e :: limbo) (del e B) (del e L) (del e H) cs' ext /\ concat cs' = del e (concat cs) /\
    (forall p, p <> e -> same_cell core (heap s) (heap s') p) /\
    refs_at (heap s') e = 0 /\ charge_at (heap s') e = charge_at (heap s) e /\
    conf s' = conf s /\ usage_ s' = usage_ s - charge_at (heap s) e).
Proof.
  intros He. pose proof (proj1 (i_evict _ _ _ _ _ _ _ _ HI e) He) as [HeT Heh].
  assert (HeTE : e ∈ concat cs ++ ext) by (apply elem_of_app; auto).
  pose proof (entry_cell e HeTE) as Hc. pose proof (unheld_refs e HeTE Heh) as Hr0.
  unfold evict_one. step_fld false. step_fld false.
  rewrite (i_in _ _ _ _ _ _ _ _ HI), has_refs, Hr0 by done. apply run_assert; [done|].
  eapply run_seq; [by apply (LRU_Remove_ok s B L H e); [apply (i_ring _ _ _ _ _ _ _ _ HI)|]|].
  intros _ s1 [HR1 Hrest1]. destruct (rest_core s s1 Hrest1) as (Hcore1 & _ & Hconf1 & Hus1 & _).
  destruct (core_fields _ _ e (Hcore1 e)) as (Hc1 & Hch1 & _ & _ & Hr1 & _). pose proof (proj2 Hc1 Hc).
  assert (HT1 : Table s1 cs) by (eapply Table_ring; [done|apply (i_table _ _ _ _ _ _ _ _ HI)]).
  step_fld (@nil byte). step_fld 0. eapply run_seq; [by apply (Table_Remove_entry s1 cs HT1)|].
  intros p s2 (-> & Hrest2 & cs' & HT2 & Ecs).
  destruct (table_core s1 s2 Hrest2) as (Hcore2 & _ & Hconf2 & Hus2 & _).
  destruct (core_fields _ _ e (Hcore2 e)) as (Hc2 & Hch2 & _ & _ & Hr2 & _).
  pose proof (proj2 Hc2 (proj2 Hc1 Hc)). pose proof (charge_le_usage e HeTE).
  step. step_fld 0. rewrite fget_keep by done. rewrite Hch2, Hch1. step. step; [apply Z.leb_le; congruence|].
  apply run_modify_end. pose proof (i_room _ _ _ _ _ _ _ _ HI). pose proof (charges_all_ok e).
  rewrite u64_id by (unfold is_u64; rewrite Hus2, Hus1; lia).
  set (s3 := set_usage_ _ _). assert (Hcore : forall p, p <> e -> same_cell core (heap s) (heap s3) p).
  { intros p Hp. transitivity (core <$> heap s1 !! p); [|apply Hcore1].
    transitivity (core <$> heap s2 !! p); [|apply Hcore2]. unfold s3. members. by rewrite lookup_alter_ne. }
  exists cs'. split.
  - apply (Inv0_drop _ held (del e B) (del e L) (del e H) cs' e); try done; unfold s3; members.
    + apply Ring_usage, Ring_upd; [by apply (Ring_table s1 s2)|intros h; apply ring_view_cache].
    + intros p. rewrite <- !del_app, !elem_of_del, (i_evict _ _ _ _ _ _ _ _ HI). tauto.
    + by apply Table_usage, Table_upd.
    + cells.
    + lia.
  - split; [done|]. split; [done|]. unfold s3. members. rewrite !fget_keep by done.
    split; [congruence|]. split; [congruence|]. split; [|lia]. transitivity (conf s2); [done|congruence].
Qed.
End inv.

(** ** Evicting *)

(** The pools without the [n] entries at their cold end. *)
Definition cut (n : nat) (B L H B' L' H' : list ptr) : Prop :=
  B' = drop n B /\ L' = drop (n - length B) L /\ H' = drop (n - length B - length L) H.

Lemma cut_list n B L H B' L' H' : cut n B L H B' L' H' -> B' ++ L' ++ H' = drop n (B ++ L ++ H).
Proof. intros (-> & -> & ->). by rewrite !drop_app. Qed.

Lemma cut_0 B L H : cut 0 B L H B L H.
Proof. done. Qed.

Lemma cut_one e rest B L H : B ++ L ++ H = e :: rest -> NoDup (B ++ L ++ H) -> cut 1 B L H (del e B) (del e L) (del e H).
Proof.
  intros E Hn. rewrite E in Hn. apply list.NoDup_cons in Hn as [He _]. unfold cut.
  destruct B as [|x B]; [destruct L as [|x L]; [destruct H as [|x H]; [done|]|]|]; simplify_eq/=.
  - split; [done|]. split; [done|]. rewrite del_cons. by apply del_notin.
  - rewrite not_elem_of_app in He. split; [done|]. rewrite del_cons, !del_notin by tauto. done.
  - rewrite !not_elem_of_app in He. rewrite del_cons, !del_notin by tauto. done.
Qed.

Lemma cut_S n B L H B1 L1 H1 B' L' H' :
  cut 1 B L H B1 L1 H1 -> cut n B1 L1 H1 B' L' H' -> cut (S n) B L H B' L' H'.
Proof.
  intros (-> & -> & ->) (-> & -> & ->). unfold cut. rewrite !drop_drop, !length_drop. split; [done|].
  split; f_equal; lia.
Qed.

(** The entries evicted to make room: as many from the cold end as it takes. *)
Fixpoint victims (H : gmap ptr LRUHandle) (capacity usage charge : Z) (l : list ptr) : list ptr :=
  if capacity <? usage + charge then
    match l with
    | [] => []
    | e :: l => e :: victims H capacity (usage - charge_at H e) charge l
    end
  else [].

Lemma victims_ext H H' cap u c l : (forall p, p ∈ l -> charge_at H' p = charge_at H p) ->
  victims H' cap u c l = victims H cap u c l.
Proof.
  revert u. induction l as [|e l IH]; intros u E; simpl; [done|]. rewrite E by left. rewrite IH; [done|].
  intros p Hp. apply E. by right.
Qed.

(** What is known after entries were evicted. *)
Record Evicted (s s' : LRUCacheShard) (held limbo B L H : list ptr) (cs : list (list ptr)) (ext out : list ptr)
    (B' L' H' : list ptr) (cs' : list (list ptr)) : Prop := {
  ev_inv : Inv0 s' held (reverse out ++ limbo) B' L' H' cs' ext;
  ev_cut : cut (length out) B L H B' L' H';
  ev_out : B ++ L ++ H = out ++ B' ++ L' ++ H';
  ev_table : concat cs' = foldl (fun T e => del e T) (concat cs) out;
  ev_core : forall p, p ∉ out -> same_cell core (heap s) (heap s') p;
  ev_refs : forall p, p ∈ out -> refs_at (heap s') p = 0;
  ev_conf : conf s' = conf s;
  ev_usage : usage_ s' = usage_ s - charges (heap s) out
}.

Lemma Evicted_nil s held limbo B L H cs ext : Inv0 s held limbo B L H cs ext ->
  Evicted s s held limbo B L H cs ext [] B L H cs.
Proof. intros HI. split; try done; [by intros p Hp%elem_of_nil|simpl; lia]. Qed.

Lemma Evicted_cons s s1 s' held limbo B L H cs ext e rest cs1 out B' L' H' cs' :
  Inv0 s held limbo B L H cs ext -> B ++ L ++ H = e :: rest ->
  concat cs1 = del e (concat cs) -> (forall p, p <> e -> same_cell core (heap s) (heap s1) p) ->
  refs_at (heap s1) e = 0 -> conf s1 = conf s -> usage_ s1 = usage_ s - charge_at (heap s) e ->
  Evicted s1 s' held (e :: limbo) (del e B) (del e L) (del e H) cs1 ext out B' L' H' cs' ->
  Evicted s s' held limbo B L H cs ext (e :: out) B' L' H' cs'.
Proof.
  intros HI E Ecs Hcore Hr Hconf Hu Hev.
  destruct (ring_facts _ _ _ _ (r_ring _ _ _ _ (i_ring _ _ _ _ _ _ _ _ HI))) as (_ & _ & _ & Hn).
  pose proof (cut_one e rest B L H E Hn) as Hc1. pose proof (ev_out _ _ _ _ _ _ _ _ _ _ _ _ _ _ Hev) as Ho.
  pose proof (cut_list _ _ _ _ _ _ _ Hc1) as Hl. rewrite E in Hl. simpl in Hl. rewrite drop_0 in Hl.
  assert (Heo : e ∉ out).
  { rewrite E in Hn. apply list.NoDup_cons in Hn as [He _]. intros Hx. apply He. rewrite <- Hl, Ho.
    apply elem_of_app. auto. }
  split.
  - rewrite reverse_cons, <- app_assoc. apply (ev_inv _ _ _ _ _ _ _ _ _ _ _ _ _ _ Hev).
  - eapply cut_S; [done|apply (ev_cut _ _ _ _ _ _ _ _ _ _ _ _ _ _ Hev)].
  - rewrite E. simpl. by rewrite <- Ho, Hl.
  - simpl. rewrite <- Ecs. apply (ev_table _ _ _ _ _ _ _ _ _ _ _ _ _ _ Hev).
  - intros p Hp. rewrite not_elem_of_cons in Hp. transitivity (core <$> heap s1 !! p).
    + apply (ev_core _ _ _ _ _ _ _ _ _ _ _ _ _ _ Hev). tauto.
    + apply Hcore. tauto.
  - intros p [->|Hp]%elem_of_cons; [|by apply (ev_refs _ _ _ _ _ _ _ _ _ _ _ _ _ _ Hev)].
    destruct (core_fields _ _ e (ev_core _ _ _ _ _ _ _ _ _ _ _ _ _ _ Hev e Heo)) as (_ & _ & _ & _ & -> & _). done.
  - rewrite (ev_conf _ _ _ _ _ _ _ _ _ _ _ _ _ _ Hev). done.
  - rewrite (ev_usage _ _ _ _ _ _ _ _ _ _ _ _ _ _ Hev), Hu. cbn [charges].
    rewrite (charges_ext (heap s) (heap s1) out); [lia|]. intros p Hp.
    destruct (core_fields _ _ p (Hcore p ltac:(intros ->; done))) as (_ & ? & _). done.
Qed.

Lemma ring_first s held limbo B L H cs ext : Inv0 s held limbo B L H cs ext ->
  is_Some (heap s !! lru_) /\ nx (heap s) lru_ = hd lru_ (B ++ L ++ H).
Proof.
  intros HI. pose proof (r_ring _ _ _ _ (i_ring _ _ _ _ _ _ _ _ HI)) as R. split; [apply (r_cells _ _ _ _ R); left|].
  pose proof (r_links _ _ _ _ R) as HL. unfold ring in HL. destruct (B ++ L ++ H) as [|e l]; simpl in HL; tauto.
Qed.

Lemma evict_loop_ok fuel charge deleted s held limbo B L H cs ext :
  Inv0 s held limbo B L H cs ext -> 0 <= charge -> usage_ s + charge < 2 ^ 64 ->
  (length (B ++ L ++ H) <= fuel)%nat ->
  run (evict_loop fuel charge deleted) s (fun r s' => exists out B' L' H' cs',
    r = deleted ++ out /\ out = victims (heap s) (capacity_ s) (usage_ s) charge (B ++ L ++ H) /\
    Evicted s s' held limbo B L H cs ext out B' L' H' cs' /\
    (usage_ s' + charge <= capacity_ s' \/ B' ++ L' ++ H' = [])).
Proof.
  revert s deleted limbo B L H cs. induction fuel as [|fuel IH]; intros s deleted limbo B L H cs HI Hc Hu Hf.
  all: destruct (ring_first _ _ _ _ _ _ _ _ HI) as [Hcell Hnx].
  all: assert (Hu0 : 0 <= usage_ s) by (rewrite (i_usage _ _ _ _ _ _ _ _ HI); apply charges_nonneg; by eapply charges_all_ok).
  all: cbn [evict_loop]; step; step; step_fld nullptr; rewrite Hnx, u64_id by (unfold is_u64; lia).
  all: destruct (B ++ L ++ H) as [|e rest] eqn:E; cbn [hd].
  1, 3: rewrite Z.eqb_refl, andb_false_r; apply run_ret; exists [], B, L, H, cs; rewrite app_nil_r; split; [done|];
    split; [simpl; by destruct (_ <? _)|]; split; [by apply Evicted_nil|by right].
  1: simpl in Hf; lia.
  destruct (ring_facts _ _ _ _ (r_ring _ _ _ _ (i_ring _ _ _ _ _ _ _ _ HI))) as (_ & _ & Hlru & Hnd).
  rewrite E in Hlru. assert (Hel : e <> lru_) by (intros ->; apply Hlru; left).
  rewrite (proj2 (Z.eqb_neq e lru_) Hel), andb_true_r. cbn [negb victims].
  destruct (Z.ltb_spec (capacity_ s) (usage_ s + charge)).
  2: { apply run_ret. exists [], B, L, H, cs. rewrite app_nil_r. split; [done|]. split; [done|].
       split; [by apply Evicted_nil|left; lia]. }
  eapply run_seq; [apply (evict_one_ok s held limbo B L H cs ext HI e); rewrite E; left|].
  intros _ s1 (cs1 & HI1 & Ecs & Hcore & Hr & _ & Hconf & Hus).
  pose proof (charges_all_ok _ _ _ _ _ _ _ _ HI e) as Hce. 
  assert (Hl1 : del e B ++ del e L ++ del e H = rest).
  { rewrite (cut_list _ _ _ _ _ _ _ (cut_one e rest B L H E Hnd)), E. done. }
  eapply run_mono; [apply (IH s1 _ (e :: limbo) (del e B) (del e L) (del e H) cs1 HI1 Hc)|].
  - lia.
  - rewrite Hl1. simpl in Hf. lia.
  - intros r s' (out & B' & L' & H' & cs' & -> & Hout & Hev & Hend).
    exists (e :: out), B', L', H', cs'. rewrite <- app_assoc. split; [done|]. split; [|split; [|done]].
    + f_equal. rewrite Hout, Hl1. rewrite (victims_ext (heap s) (heap s1)).
      * f_equal; [|lia]. unfold conf in Hconf. congruence.
      * intros p Hp. rewrite E in Hnd. apply list.NoDup_cons in Hnd as [He _].
        by destruct (core_fields _ _ p (Hcore p ltac:(intros ->; done))) as (_ & ? & _).
    + by eapply Evicted_cons.
Qed.

Lemma ring_length s held limbo B L H cs ext : Inv0 s held limbo B L H cs ext ->
  (length (B ++ L ++ H) <= size (heap s))%nat.
Proof.
  intros HI. pose proof (r_ring _ _ _ _ (i_ring _ _ _ _ _ _ _ _ HI)) as R.
  apply cells_length; [by destruct (ring_facts _ _ _ _ R) as (_ & _ & _ & ?)|].
  intros p Hp. apply (r_cells _ _ _ _ R). by right.
Qed.

Lemma EvictFromLRU_ok charge s held limbo B L H cs ext :
  Inv0 s held limbo B L H cs ext -> 0 <= charge -> usage_ s + charge < 2 ^ 64 ->
  run (EvictFromLRU charge) s (fun out s' => exists B' L' H' cs',
    out = victims (heap s) (capacity_ s) (usage_ s) charge (B ++ L ++ H) /\
    Evicted s s' held limbo B L H cs ext out B' L' H' cs' /\
    (usage_ s' + charge <= capacity_ s' \/ B' ++ L' ++ H' = [])).
Proof.
  intros HI Hc Hu. unfold EvictFromLRU. step.
  eapply run_mono; [apply (evict_loop_ok _ charge [] s held limbo B L H cs ext); try done; by eapply ring_length|].
  intros r s' (out & B' & L' & H' & cs' & -> & ? & ? & ?). by exists B', L', H', cs'.
Qed.

Lemma erase_loop_ok fuel deleted s held limbo B L H cs ext :
  Inv0 s held limbo B L H cs ext -> (length (B ++ L ++ H) <= fuel)%nat ->
  run (erase_loop fuel deleted) s (fun r s' => exists cs', r = deleted ++ B ++ L ++ H /\
    Evicted s s' held limbo B L H cs ext (B ++ L ++ H) [] [] [] cs').
Proof.
  revert s deleted limbo B L H cs. induction fuel as [|fuel IH]; intros s deleted limbo B L H cs HI Hf.
  all: destruct (ring_first _ _ _ _ _ _ _ _ HI) as [Hcell Hnx].
  all: cbn [erase_loop]; step_fld nullptr; rewrite Hnx.
  all: destruct (B ++ L ++ H) as [|e rest] eqn:E; cbn [hd].
  1, 3: rewrite Z.eqb_refl; apply run_ret; exists cs; rewrite app_nil_r; split; [done|];
    apply app_nil in E as [-> [-> ->]%app_nil]; by apply Evicted_nil.
  1: simpl in Hf; lia.
  destruct (ring_facts _ _ _ _ (r_ring _ _ _ _ (i_ring _ _ _ _ _ _ _ _ HI))) as (_ & _ & Hlru & Hnd).
  rewrite E in Hlru. assert (Hel : e <> lru_) by (intros ->; apply Hlru; left).
  rewrite (proj2 (Z.eqb_neq e lru_) Hel). cbn [negb].
  eapply run_seq; [apply (evict_one_ok s held limbo B L H cs ext HI e); rewrite E; left|].
  intros _ s1 (cs1 & HI1 & Ecs & Hcore & Hr & _ & Hconf & Hus).
  assert (Hl1 : del e B ++ del e L ++ del e H = rest).
  { rewrite (cut_list _ _ _ _ _ _ _ (cut_one e rest B L H E Hnd)), E. done. }
  eapply run_mono; [apply (IH s1 _ (e :: limbo) (del e B) (del e L) (del e H) cs1 HI1); rewrite Hl1; simpl in Hf; lia|].
  intros r s' (cs' & -> & Hev). rewrite Hl1 in *. exists cs'. rewrite <- app_assoc. split; [done|].
  by eapply Evicted_cons.
Qed.
