(* ===== verification/LruOps.v ===== *)
(** * The operations of a cache shard

    What every operation does to the invariant of [LruInv], up to the end of its
    critical section: which pools and chains result, what the clients hold, and
    which handles are left to be freed. *)

From S2P Require Import Prelude Binary64 Slice LruCache LruRing LruTable LruInv.
#[local] Set Warnings "-clear-no-such-hyp".

(** ** Settings *)

(** The ratios and pool sizes make sense, and if entries can be put into the low
    priority pool then the high priority pool is within its size. *)
Record Sound (s : LRUCacheShard) : Prop := {
  so_high_ratio : dbl_nonneg (high_pri_pool_ratio_ s);
  so_low_ratio : dbl_nonneg (low_pri_pool_ratio_ s);
  so_high_cap : dbl_nonneg (high_pri_pool_capacity_ s);
  so_low_cap : dbl_nonneg (low_pri_pool_capacity_ s);
  so_fits : dbl_ltb dbl_0 (low_pri_pool_ratio_ s) = true ->
    dbl_ltb (high_pri_pool_capacity_ s) (dbl_of_size (high_pri_pool_usage_ s)) = false
}.

(** Entries are evictable only while the shard is within its capacity. *)
Definition roomy (s : LRUCacheShard) (l : list ptr) : Prop := usage_ s <= capacity_ s \/ l = [].

Lemma Sound_less s s' : Sound s -> conf s' = conf s ->
  0 <= high_pri_pool_usage_ s' <= high_pri_pool_usage_ s -> Sound s'.
Proof.
  intros [] E Hu. injection E as _ _ _ E4 E5 E6 E7 _. split; rewrite ?E4, ?E5, ?E6, ?E7; auto.
  intros Hl. destruct (dbl_ltb _ (dbl_of_size (high_pri_pool_usage_ s'))) eqn:E; [|done].
  rewrite (dbl_ltb_mono _ (high_pri_pool_usage_ s') (high_pri_pool_usage_ s)) in so_fits0; [by apply so_fits0|lia..|done].
Qed.

Lemma Sound_same s s' : Sound s -> conf s' = conf s -> ring_members s' = ring_members s -> Sound s'.
Proof.
  intros [] E Em. injection E as _ _ _ E4 E5 E6 E7 _. injection Em as _ _ E8 _ _.
  split; rewrite ?E4, ?E5, ?E6, ?E7, ?E8; auto.
Qed.

Lemma Sound_inserted s s' B L H e B' L' H' : Sound s -> Ring s B L H -> shard_rest s' = shard_rest s ->
  inserted s B L H e B' L' H' -> Ring s' B' L' H' -> Sound s'.
Proof.
  intros HS HR Hrest Hi HR'. destruct (rest_core s s' Hrest) as (_ & _ & E & _).
  injection E as _ _ _ E4 E5 E6 E7 _. destruct HS as [? ? Hh ? Hf]. split; rewrite ?E4, ?E5, ?E6, ?E7; auto.
  intros Hl. specialize (Hf Hl). rewrite (r_high _ _ _ _ (r_ring _ _ _ _ HR')).
  rewrite (charges_ext (heap s)) by (intros; by apply charges_rest).
  rewrite (r_high _ _ _ _ (r_ring _ _ _ _ HR)) in Hf. unfold inserted, maintained in Hi.
  destruct (wants_high s e); [|destruct (wants_low s e)].
  - destruct Hi as (out & out' & E1 & _). pose proof (spill_fits _ (heap s) (H ++ [e]) Hh) as Hs. by rewrite E1 in Hs.
  - destruct Hi as (out & out' & E1 & _). pose proof (spill_fits _ (heap s) H Hh) as Hs. by rewrite E1 in Hs.
  - destruct Hi as (_ & _ & ->). done.
Qed.

Section ops.
Context (s : LRUCacheShard) (held limbo B L H : list ptr) (cs : list (list ptr)) (ext : list ptr).
Hypothesis HI : Inv0 s held limbo B L H cs ext.

(** The handle [e] gained or lost references. *)
Lemma Inv0_refs s' held' B' L' H' e :
  e ∈ concat cs ++ ext -> (forall p, p <> e -> nrefs p held' = nrefs p held) ->
  refs_at (heap s') e = nrefs e held' -> (e ∈ ext -> e ∈ held') -> Z.of_nat (length held') < 2 ^ 32 ->
  Ring s' B' L' H' -> (forall p, p ∈ B' ++ L' ++ H' <-> p ∈ concat cs /\ p ∉ held') -> Table s' cs ->
  (forall p, p <> e -> same_cell core (heap s) (heap s') p) ->
  is_Some (heap s' !! e) -> charge_at (heap s') e = charge_at (heap s) e ->
  cached_at (heap s') e = cached_at (heap s) e -> usage_ s' = usage_ s ->
  Inv0 s' held' limbo B' L' H' cs ext.
Proof.
  intros He Hrefs Hre Hext Hlen HR Hev HT Hcore Hcell Hch Hca Hu.
  assert (Hheld : forall p, p <> e -> p ∈ held' <-> p ∈ held) by (intros p Hp; by rewrite <- !nrefs_pos, Hrefs).
  assert (Hch' : forall p, charge_at (heap s') p = charge_at (heap s) p).
  { intros p. destruct (decide (p = e)) as [->|Hp]; [done|]. by destruct (core_fields _ _ p (Hcore p Hp)) as (_ & ? & _). }
  assert (Hca' : forall p, cached_at (heap s') p = cached_at (heap s) p).
  { intros p. destruct (decide (p = e)) as [->|Hp]; [done|].
    by destruct (core_fields _ _ p (Hcore p Hp)) as (_ & _ & _ & _ & _ & ?). }
  split; try done.
  - intros p. rewrite <- (i_cells _ _ _ _ _ _ _ _ HI). destruct (decide (p = e)) as [->|Hp].
    + split; [intros _; by eapply entry_cell|done].
    + by apply (core_fields _ _ p (Hcore p Hp)).
  - apply (i_nodup _ _ _ _ _ _ _ _ HI).
  - intros p Hp. destruct (decide (p = e)) as [->|Hpe]; [done|].
    destruct (core_fields _ _ p (Hcore p Hpe)) as (_ & _ & _ & _ & -> & _).
    rewrite Hrefs by done. by apply (i_refs _ _ _ _ _ _ _ _ HI).
  - intros p Hp. destruct (decide (p = e)) as [->|Hpe]; [done|]. apply (i_held _ _ _ _ _ _ _ _ HI). by apply Hheld.
  - intros p Hp. destruct (decide (p = e)) as [->|Hpe]; [auto|]. apply Hheld; [done|]. by apply (i_ext _ _ _ _ _ _ _ _ HI).
  - intros p Hp. rewrite Hca'. by apply (i_in _ _ _ _ _ _ _ _ HI).
  - intros p Hp. rewrite Hca'. by apply (i_out _ _ _ _ _ _ _ _ HI).
  - rewrite Hu, (i_usage _ _ _ _ _ _ _ _ HI). symmetry. apply charges_ext. auto.
  - rewrite Hu. apply (i_room _ _ _ _ _ _ _ _ HI).
Qed.

(** What a lookup reports: the entry of the table with this hash and key. *)
Lemma Lookup_ok key hash : is_u32 hash -> Z.of_nat (length held) + 1 < 2 ^ 32 ->
  run (Lookup key hash) s (fun p s' => found s (concat cs) key hash p /\ (p = nullptr -> s' = s) /\
    (p <> nullptr -> Inv0 s' (p :: held) limbo (del p B) (del p L) (del p H) cs ext /\
       fget HasHit false (heap s') p = true /\
       (forall q, q <> p -> same_cell core (heap s) (heap s') q) /\ conf s' = conf s /\ usage_ s' = usage_ s)).
Proof.
  intros Hh Hlen. unfold Lookup.
  eapply run_seq; [by apply (Table_Lookup_ok s cs key hash (i_table _ _ _ _ _ _ _ _ HI))|].
  intros e s0 [-> [[-> Hn]|[He Hm]]].
  { apply run_bind. exists tt, s. split; [done|]. apply run_ret. split; [by left|done]. }
  pose proof (entry_not_null s cs (i_table _ _ _ _ _ _ _ _ HI) e He) as Hnn.
  assert (HeTE : e ∈ concat cs ++ ext) by (apply elem_of_app; auto).
  pose proof (entry_cell _ _ _ _ _ _ _ _ HI e HeTE) as Hc. rewrite (proj2 (Z.eqb_neq e nullptr) Hnn). cbn [negb when_].
  eapply run_seq with (P := fun _ s' => Inv0 s' (e :: held) limbo (del e B) (del e L) (del e H) cs ext /\
       fget HasHit false (heap s') e = true /\
       (forall q, q <> e -> same_cell core (heap s) (heap s') q) /\ conf s' = conf s /\ usage_ s' = usage_ s).
  2: { intros _ s' HP. apply run_ret. split; [by right|]. split; [done|]. done. }
  step_fld false. rewrite (i_in _ _ _ _ _ _ _ _ HI) by done. apply run_assert; [done|]. step_fld false.
  rewrite (has_refs s e Hc), (i_refs _ _ _ _ _ _ _ _ HI) by done.
  eapply run_seq with (P := fun _ s1 => Ring s1 (del e B) (del e L) (del e H) /\ shard_rest s1 = shard_rest s).
  { destruct (Z.ltb_spec 0 (nrefs e held)) as [Hpos|Hpos]; cbn [negb when_].
    - apply run_ret. assert (Hno : e ∉ B ++ L ++ H).
      { rewrite (i_evict _ _ _ _ _ _ _ _ HI), <- (nrefs_pos e held). tauto. }
      rewrite !not_elem_of_app in Hno. rewrite !del_notin by tauto. split; [apply (i_ring _ _ _ _ _ _ _ _ HI)|done].
    - apply LRU_Remove_ok; [apply (i_ring _ _ _ _ _ _ _ _ HI)|]. rewrite (i_evict _ _ _ _ _ _ _ _ HI), <- (nrefs_pos e held).
      split; [done|lia]. }
  intros _ s1 [HR1 Hrest]. destruct (rest_core s s1 Hrest) as (Hcore1 & _ & Hconf1 & Hus1 & _).
  destruct (core_fields _ _ e (Hcore1 e)) as (Hc1 & Hch1 & _ & _ & Hr1 & Hca1). pose proof (proj2 Hc1 Hc).
  step. apply run_upd_end; [members; cells|]. members. set (s2 := set_heap _ _).
  pose proof (nrefs_range e held).
  assert (Hre : refs_at (heap s2) e = nrefs e (e :: held)).
  { unfold s2. members. rewrite fget_keep by done. rewrite (fget_upd _ (fun r => u32 (r + 1))) by done.
    rewrite Hr1, (i_refs _ _ _ _ _ _ _ _ HI) by done. simpl. rewrite decide_True by done.
    rewrite u32_id by (unfold is_u32; lia). lia. }
  assert (Hcore : forall p, p <> e -> same_cell core (heap s) (heap s2) p).
  { intros p Hp. transitivity (core <$> heap s1 !! p); [|apply Hcore1]. unfold s2. members.
    by rewrite !lookup_alter_ne. }
  split; [|split; [|split; [done|split; [by transitivity (conf s1)|done]]]].
  - apply (Inv0_refs s2 (e :: held) _ _ _ e); try done; unfold s2; members.
    + intros p Hp. simpl. by rewrite decide_False.
    + intros _. left.
    + simpl. lia.
    + apply (Ring_upd (set_heap _ s1)); [apply Ring_upd; done|intros; apply ring_view_hit].
    + intros p. rewrite <- !del_app, elem_of_del, (i_evict _ _ _ _ _ _ _ _ HI), not_elem_of_cons. tauto.
    + apply (Table_upd (set_heap _ s1)); [|done]. apply Table_upd; [|done].
      eapply Table_ring; [done|apply (i_table _ _ _ _ _ _ _ _ HI)].
    + cells.
    + by rewrite !fget_keep.
    + rewrite !fget_keep by (done || (intros; flags; done)). done.
  - unfold s2. members. apply fget_set; [cells|]. intros h. flags. done.
Qed.

Lemma Shard_Ref_ok e : e ∈ held -> Z.of_nat (length held) + 1 < 2 ^ 32 ->
  run (Shard_Ref e) s (fun r s' => r = true /\ Inv0 s' (e :: held) limbo B L H cs ext /\
    (forall q, q <> e -> same_cell core (heap s) (heap s') q) /\ conf s' = conf s /\ usage_ s' = usage_ s /\
    ring_members s' = ring_members s).
Proof.
  intros He Hlen. pose proof (i_held _ _ _ _ _ _ _ _ HI e He) as HeTE.
  pose proof (entry_cell _ _ _ _ _ _ _ _ HI e HeTE) as Hc. pose proof (i_refs _ _ _ _ _ _ _ _ HI e HeTE) as Hr.
  pose proof (nrefs_range e held). pose proof (proj2 (nrefs_pos e held) He).
  unfold Shard_Ref. step_fld false. rewrite (has_refs s e Hc), Hr. apply run_assert; [by apply Z.ltb_lt|].
  step. apply run_ret. set (s1 := set_heap _ s). split; [done|].
  assert (Hcore : forall p, p <> e -> same_cell core (heap s) (heap s1) p).
  { intros p Hp. unfold same_cell, s1. members. by rewrite lookup_alter_ne. }
  split; [|done]. apply (Inv0_refs s1 (e :: held) _ _ _ e); try done; unfold s1; members.
  - intros p Hp. simpl. by rewrite decide_False.
  - rewrite (fget_upd _ (fun r => u32 (r + 1))), Hr by done. simpl. rewrite decide_True by done.
    rewrite u32_id by (unfold is_u32; lia). lia.
  - intros _. left.
  - simpl. lia.
  - apply Ring_upd; [apply (i_ring _ _ _ _ _ _ _ _ HI)|done].
  - intros p. rewrite (i_evict _ _ _ _ _ _ _ _ HI), not_elem_of_cons. naive_solver.
  - apply Table_upd; [apply (i_table _ _ _ _ _ _ _ _ HI)|done].
  - cells.
  - by rewrite fget_keep.
  - by rewrite fget_keep.
Qed.

(** The erased entry [e] lost its last reference. *)
Lemma Inv0_drop_ext s' held' e :
  e ∈ ext -> e ∉ held' -> (forall p, p <> e -> nrefs p held' = nrefs p held) ->
  (length held' <= length held)%nat -> Ring s' B L H -> Table s' cs ->
  (forall p, p <> e -> same_cell core (heap s) (heap s') p) -> is_Some (heap s' !! e) ->
  usage_ s' = usage_ s - charge_at (heap s) e ->
  Inv0 s' held' (e :: limbo) B L H cs (del e ext).
Proof.
  intros He Heh Hrefs Hlen HR HT Hcore Hcell Hu.
  destruct (inv_parts _ _ _ _ _ _ _ _ HI) as (Hnull & Hlru & HnT & HnE & HnP & Hdis & Hdis').
  assert (HeT : e ∉ concat cs) by (intros Hx; by destruct (Hdis e Hx)).
  assert (Hheld : forall p, p <> e -> p ∈ held' <-> p ∈ held) by (intros p Hp; by rewrite <- !nrefs_pos, Hrefs).
  assert (Hperm : concat cs ++ ext ++ limbo ≡ₚ concat cs ++ del e ext ++ e :: limbo).
  { apply Permutation_app_head. rewrite (del_perm e ext) at 1 by done. apply Permutation_middle. }
  assert (Hne : forall p, p ∈ concat cs ++ del e ext -> p <> e /\ p ∈ concat cs ++ ext).
  { intros p [Hp|[? ?]%elem_of_del]%elem_of_app; rewrite elem_of_app; [|tauto]. split; [intros ->; done|tauto]. }
  split; try done.
  - intros p. rewrite <- Hperm. rewrite <- (i_cells _ _ _ _ _ _ _ _ HI).
    destruct (decide (p = e)) as [->|Hp]; [|by apply (core_fields _ _ p (Hcore p Hp))].
    split; [intros _|done]. eapply entry_cell; [done|]. apply elem_of_app. auto.
  - rewrite <- Hperm. apply (i_nodup _ _ _ _ _ _ _ _ HI).
  - intros p. rewrite (i_evict _ _ _ _ _ _ _ _ HI). destruct (decide (p = e)) as [->|Hp]; [tauto|]. by rewrite Hheld.
  - intros p [Hp Hin]%Hne. destruct (core_fields _ _ p (Hcore p Hp)) as (_ & _ & _ & _ & -> & _).
    rewrite Hrefs by done. by apply (i_refs _ _ _ _ _ _ _ _ HI).
  - intros p Hp. assert (p <> e) by (intros ->; done). apply Hheld in Hp; [|done].
    apply (i_held _ _ _ _ _ _ _ _ HI) in Hp. rewrite elem_of_app, elem_of_del. rewrite elem_of_app in Hp. tauto.
  - intros p [Hp Hin]%elem_of_del. apply Hheld; [done|]. by apply (i_ext _ _ _ _ _ _ _ _ HI).
  - intros p Hp. destruct (core_fields _ _ p (Hcore p ltac:(intros ->; done))) as (_ & _ & _ & _ & _ & ->).
    by apply (i_in _ _ _ _ _ _ _ _ HI).
  - intros p [Hp Hin]%elem_of_del. destruct (core_fields _ _ p (Hcore p Hp)) as (_ & _ & _ & _ & _ & ->).
    by apply (i_out _ _ _ _ _ _ _ _ HI).
  - rewrite Hu, (i_usage _ _ _ _ _ _ _ _ HI). rewrite (charges_ext (heap s) (heap s')).
    + rewrite !charges_app, charges_del by done. lia.
    + intros p [Hp _]%Hne. by destruct (core_fields _ _ p (Hcore p Hp)) as (_ & ? & _).
  - pose proof (i_room _ _ _ _ _ _ _ _ HI). pose proof (charges_all_ok _ _ _ _ _ _ _ _ HI e). lia.
  - pose proof (i_few _ _ _ _ _ _ _ _ HI). lia.
Qed.

(** There is room for one more entry in the accounts of the list. *)
Lemma lru_room e : e ∈ concat cs -> e ∉ B ++ L ++ H -> lru_usage_ s + charge_at (heap s) e < 2 ^ 64.
Proof.
  intros He Hout. pose proof (i_ring _ _ _ _ _ _ _ _ HI) as HR. pose proof (charges_all_ok _ _ _ _ _ _ _ _ HI) as Hok.
  destruct (ring_facts _ _ _ _ (r_ring _ _ _ _ HR)) as (_ & _ & _ & Hn).
  assert (Hs : e :: B ++ L ++ H ⊆+ concat cs).
  { apply NoDup_submseteq; [by apply list.NoDup_cons|]. intros p [->|Hp]%elem_of_cons; [done|].
    by apply (i_evict _ _ _ _ _ _ _ _ HI) in Hp as [? _]. }
  apply (charges_submseteq (heap s)) in Hs; [|done]. cbn [charges] in Hs.
  pose proof (i_room _ _ _ _ _ _ _ _ HI) as Hr. rewrite (i_usage _ _ _ _ _ _ _ _ HI), charges_app in Hr.
  pose proof (charges_nonneg (heap s) ext Hok). rewrite (r_usage _ _ _ _ HR). lia.
Qed.

(** The handle [e] after [Unref]. *)
Section release.
Context (e : ptr) (held' : list ptr).
Hypothesis Hheld : held ≡ₚ e :: held'.
Let s1 := set_heap (alter (set_h_refs (nrefs e held')) e (heap s)) s.

Lemma release_facts :
  e ∈ concat cs ++ ext /\ is_Some (heap s !! e) /\ is_Some (heap s1 !! e) /\ Ring s1 B L H /\ Table s1 cs /\
  (forall p, p <> e -> same_cell core (heap s) (heap s1) p) /\ refs_at (heap s1) e = nrefs e held' /\
  (forall p, p <> e -> nrefs p held' = nrefs p held) /\ (length held' <= length held)%nat /\
  (e ∉ lru_ :: B ++ L ++ H) /\ e <> nullptr.
Proof.
  assert (He : e ∈ held) by (rewrite Hheld; left). pose proof (i_held _ _ _ _ _ _ _ _ HI e He) as HeTE.
  pose proof (entry_cell _ _ _ _ _ _ _ _ HI e HeTE) as Hc. split; [done|]. split; [done|]. unfold s1. members.
  split; [cells|]. split; [apply Ring_upd; [apply (i_ring _ _ _ _ _ _ _ _ HI)|done]|].
  split; [apply Table_upd; [apply (i_table _ _ _ _ _ _ _ _ HI)|done]|].
  split; [intros p Hp; unfold same_cell; by rewrite lookup_alter_ne|].
  split; [by apply fget_set|]. split; [intros p Hp; rewrite (nrefs_perm p _ _ Hheld); simpl; by rewrite decide_False|].
  split; [rewrite Hheld; simpl; lia|].
  destruct (inv_parts _ _ _ _ _ _ _ _ HI) as (Hnull & Hlru & _).
  assert (HeTEl : e ∈ concat cs ++ ext ++ limbo) by (rewrite app_assoc; apply elem_of_app; auto).
  split; [|intros ->; done]. rewrite not_elem_of_cons. split; [intros ->; done|].
  rewrite (i_evict _ _ _ _ _ _ _ _ HI). tauto.
Qed.

(** Someone else still holds it. *)
Lemma release_held : e ∈ held' -> Inv0 s1 held' limbo B L H cs ext.
Proof.
  intros He. destruct release_facts as (HeTE & Hc & Hc1 & HR1 & HT1 & Hcore & Hr & Hrefs & Hlen & _).
  pose proof (i_few _ _ _ _ _ _ _ _ HI).
  apply (Inv0_refs s1 held' _ _ _ e); try done; try lia.
  - intros p. rewrite (i_evict _ _ _ _ _ _ _ _ HI). destruct (decide (p = e)) as [->|Hp].
    + rewrite Hheld, elem_of_cons. naive_solver.
    + rewrite <- (nrefs_pos p held), <- (nrefs_pos p held'), Hrefs by done. done.
  - unfold s1. members. by rewrite fget_keep.
  - unfold s1. members. by rewrite fget_keep.
Qed.

(** The usage goes down by the charge of a freed entry. *)
Lemma release_charge {A} s2 (k : unit -> M A) Q : is_Some (heap s2 !! e) -> charge_at (heap s2) e = charge_at (heap s) e ->
  usage_ s2 = usage_ s -> run (k tt) (set_usage_ (usage_ s - charge_at (heap s) e) s2) Q ->
  run (when_ true (charge ← fld e h_total_charge; u ← gets usage_; _ ← assert_ (charge <=? u);
                   modify (set_usage_ (u64 (u - charge)))) ≫= k) s2 Q.
Proof.
  intros Hc Hch Hu Hk. destruct release_facts as (HeTE & _). apply run_bind. cbn [when_]. step_fld 0. step.
  rewrite Hch, Hu. pose proof (charge_le_usage _ _ _ _ _ _ _ _ HI e HeTE).
  apply run_assert; [by apply Z.leb_le|]. apply run_modify_end.
  pose proof (i_room _ _ _ _ _ _ _ _ HI). pose proof (charges_all_ok _ _ _ _ _ _ _ _ HI e).
  rewrite u64_id by (unfold is_u64; lia). done.
Qed.

Hypothesis HS : Sound s.
Hypothesis Hroomy : roomy s (B ++ L ++ H).

(** The outcome of [Release_locked]. *)
Definition released (erase_if_last_ref must_free : bool) (s' : LRUCacheShard) : Prop :=
  exists B' L' H' cs' ext',
    Inv0 s' held' (if must_free then e :: limbo else limbo) B' L' H' cs' ext' /\ Sound s' /\
    roomy s' (B' ++ L' ++ H') /\ conf s' = conf s /\ (forall p, p <> e -> same_cell core (heap s) (heap s') p) /\
    (must_free = true -> refs_at (heap s') e = 0) /\
    (forall p, p ∈ concat cs' <-> p ∈ concat cs /\ (must_free = true -> p <> e)) /\
    (must_free = true <-> (e ∉ held') /\ (e ∈ ext \/ capacity_ s < usage_ s \/ erase_if_last_ref = true)) /\
    (must_free = false -> e ∉ held' -> inserted s B L H e B' L' H').

(** The reference count does not decide where an entry goes. *)
Lemma inserted_refs n B' L' H' :
  inserted (set_heap (alter (set_h_refs n) e (heap s)) s) B L H e B' L' H' -> inserted s B L H e B' L' H'.
Proof.
  unfold inserted, wants_high, wants_low, maintained. members. rewrite !fget_keep by done.
  destruct (_ && _); [|destruct (_ && _); [|done]]; intros (out & out' & K1 & K2 & K3 & K); exists out, out'.
  all: rewrite (spill_ext _ (heap s) (alter _ _ _)) in K1 by (intros; by rewrite fget_keep).
  all: rewrite (spill_ext _ (heap s) (alter _ _ _)) in K3 by (intros; by rewrite fget_keep).
  all: done.
Qed.

Lemma roomy_less s' : capacity_ s' = capacity_ s -> usage_ s' <= usage_ s -> roomy s' (B ++ L ++ H).
Proof. intros E Hu. destruct Hroomy; [left; lia|by right]. Qed.

(** The last reference to an entry of the table, which is erased. *)
Lemma release_erase erase : e ∈ concat cs -> e ∉ held' -> (capacity_ s <? usage_ s) || erase = true ->
  run (oldest ← fld lru_ h_next;
       _ ← assert_ ((oldest =? lru_) || erase);
       key ← fld e h_key;
       hash ← fld e h_hash;
       _ ← Table_Remove key hash;
       _ ← upd e (SetInCache false);
       mret true) s1 (fun r s2 => r = true /\ is_Some (heap s2 !! e) /\
         charge_at (heap s2) e = charge_at (heap s) e /\ usage_ s2 = usage_ s /\
         released erase true (set_usage_ (usage_ s - charge_at (heap s) e) s2)).
Proof.
  intros He Heh Hcond. destruct release_facts as (HeTE & Hc & Hc1 & HR1 & HT1 & Hcore & Hr & Hrefs & Hlen & Hout & _).
  destruct (ring_first _ _ _ _ _ _ _ _ HI) as [Hlru Hnx].
  assert (Hlru1 : is_Some (heap s1 !! lru_)) by (unfold s1; members; cells).
  step_fld nullptr. apply run_assert.
  { unfold s1. members. rewrite fget_keep, Hnx by done. destruct erase; [by rewrite orb_true_r|].
    rewrite orb_false_r in Hcond |- *. apply Z.ltb_lt in Hcond. destruct Hroomy as [| ->]; [lia|done]. }
  step_fld (@nil byte). step_fld 0. eapply run_seq; [by apply (Table_Remove_entry s1 cs HT1)|].
  intros p s2 (-> & Hrest2 & cs' & HT2 & Ecs). destruct (table_core s1 s2 Hrest2) as (Hcore2 & _ & Hconf2 & Hus2 & Hm2).
  destruct (core_fields _ _ e (Hcore2 e)) as (Hc2 & Hch2 & _ & _ & Hr2 & _). pose proof (proj2 Hc2 Hc1).
  step. apply run_ret. split; [done|]. members. split; [cells|]. rewrite fget_keep by done.
  assert (Hch1 : charge_at (heap s1) e = charge_at (heap s) e) by (unfold s1; members; by rewrite fget_keep).
  split; [congruence|]. split; [done|]. set (s3 := set_usage_ _ _).
  assert (Hcore3 : forall p, p <> e -> same_cell core (heap s) (heap s3) p).
  { intros p Hp. transitivity (core <$> heap s1 !! p); [|by apply Hcore].
    transitivity (core <$> heap s2 !! p); [|apply Hcore2]. unfold s3. members. by rewrite lookup_alter_ne. }
  exists B, L, H, cs', ext. split; [|split; [|split; [|split; [done|split; [done|]]]]].
  - apply (Inv0_drop _ _ _ _ _ _ _ _ HI _ held' B L H cs' e); try done; unfold s3; members.
    + apply Ring_usage, Ring_upd; [by apply (Ring_table s1 s2)|intros h; apply ring_view_cache].
    + intros p. rewrite (i_evict _ _ _ _ _ _ _ _ HI), elem_of_del. destruct (decide (p = e)) as [->|Hp].
      * rewrite Hheld, elem_of_cons. naive_solver.
      * rewrite <- (nrefs_pos p held), <- (nrefs_pos p held'), Hrefs by done. tauto.
    + by apply Table_usage, Table_upd.
    + cells.
  - apply (Sound_same s); [done|done|by transitivity (ring_members s2)].
  - apply roomy_less; [injection Hconf2; done|]. unfold s3. members.
    pose proof (charges_all_ok _ _ _ _ _ _ _ _ HI e). lia.
  - split; [intros _; unfold s3; members; rewrite fget_keep by done; rewrite Hr2, Hr|].
    { pose proof (nrefs_range e held'). destruct (decide (0 < nrefs e held')) as [Hp%nrefs_pos|]; [done|lia]. }
    split; [intros p; rewrite Ecs, elem_of_del; naive_solver|].
    split; [|done]. split; [intros _|done]. split; [done|]. right. apply orb_true_iff in Hcond as [Hx%Z.ltb_lt|]; auto.
Qed.

Lemma nrefs_0 : e ∉ held' -> nrefs e held' = 0.
Proof.
  intros He. pose proof (nrefs_range e held'). destruct (decide (0 < nrefs e held')) as [Hp%nrefs_pos|]; [done|lia].
Qed.

(** The last reference to an entry of the table, which becomes evictable. *)
Lemma release_insert : e ∈ concat cs -> e ∉ held' -> usage_ s <= capacity_ s ->
  run (LRU_Insert e) s1 (fun _ s' => released false false s').
Proof.
  intros He Heh Hcap. destruct release_facts as (HeTE & Hc & Hc1 & HR1 & HT1 & Hcore & Hr & Hrefs & Hlen & Hout & Hnn).
  assert (Hch1 : charge_at (heap s1) e = charge_at (heap s) e) by (unfold s1; members; by rewrite fget_keep).
  assert (HS1 : Sound s1) by by apply (Sound_same s).
  pose proof (lru_room e He ltac:(rewrite not_elem_of_cons in Hout; tauto)) as Hroom.
  pose proof (i_few _ _ _ _ _ _ _ _ HI).
  eapply run_mono; [apply (LRU_Insert_ok s1 B L H e); try done; try apply HS1; by rewrite Hch1|].
  intros _ s2 (B' & L' & H' & Hi & HR2 & Hrest2).
  destruct (rest_core s1 s2 Hrest2) as (Hcore2 & _ & Hconf2 & Hus2 & _).
  destruct (core_fields _ _ e (Hcore2 e)) as (Hc2 & Hch2 & _ & _ & Hr2 & Hca2).
  exists B', L', H', cs, ext. split; [|split; [|split; [|split; [done|split]]]].
  - apply (Inv0_refs s2 held' _ _ _ e); try done; try lia; try congruence.
    + intros Hx. destruct (inv_parts _ _ _ _ _ _ _ _ HI) as (_ & _ & _ & _ & _ & Hdis & _). by destruct (Hdis e He).
    + intros p. rewrite (inserted_perm _ _ _ _ _ _ _ _ Hi), elem_of_cons, (i_evict _ _ _ _ _ _ _ _ HI).
      destruct (decide (p = e)) as [->|Hp]; [naive_solver|].
      rewrite <- (nrefs_pos p held), <- (nrefs_pos p held'), Hrefs by done. naive_solver.
    + by eapply Table_ring.
    + intros p Hp. transitivity (core <$> heap s1 !! p); [apply Hcore2|by apply Hcore].
    + by apply Hc2.
    + rewrite Hca2. unfold s1. members. by rewrite fget_keep.
  - by eapply (Sound_inserted s1 s2 B L H e).
  - left. injection Hconf2 as _ -> _ _ _ _ _ _. rewrite Hus2. done.
  - intros p Hp. transitivity (core <$> heap s1 !! p); [apply Hcore2|by apply Hcore].
  - split; [done|]. split; [naive_solver|]. split; [split; [done|]|].
    + intros (_ & [Hx|[Hx|Hx]]); [|lia|done].
      destruct (inv_parts _ _ _ _ _ _ _ _ HI) as (_ & _ & _ & _ & _ & Hdis & _). by destruct (Hdis e He).
    + intros _ _. by apply inserted_refs in Hi.
Qed.

(** The last reference to an erased entry. *)
Lemma release_ext erase : e ∈ ext -> e ∉ held' ->
  released erase true (set_usage_ (usage_ s - charge_at (heap s) e) s1).
Proof.
  intros He Heh. destruct release_facts as (HeTE & Hc & Hc1 & HR1 & HT1 & Hcore & Hr & Hrefs & Hlen & _).
  exists B, L, H, cs, (del e ext). split; [|split; [|split; [|split; [done|split; [done|]]]]].
  - apply (Inv0_drop_ext _ held' e); try done; [by apply Ring_usage|by apply Table_usage].
  - by apply (Sound_same s).
  - apply roomy_less; [done|]. members. pose proof (charges_all_ok _ _ _ _ _ _ _ _ HI e). lia.
  - split; [intros _; members; by rewrite Hr, nrefs_0|]. split; [|split; [split; [auto|done]|done]].
    intros p. split; [|tauto]. intros Hp. split; [done|]. intros _ ->.
    destruct (inv_parts _ _ _ _ _ _ _ _ HI) as (_ & _ & _ & _ & _ & Hdis & _). by destruct (Hdis e Hp).
Qed.

Lemma Release_locked_ok erase : run (Release_locked e erase) s (released erase).
Proof.
  destruct release_facts as (HeTE & Hc & Hc1 & HR1 & HT1 & Hcore & Hr & Hrefs & Hlen & Hout & Hnn).
  assert (Hre : refs_at (heap s) e = nrefs e held' + 1).
  { rewrite (i_refs _ _ _ _ _ _ _ _ HI), (nrefs_perm e _ _ Hheld) by done. simpl. rewrite decide_True by done. lia. }
  pose proof (nrefs_range e held') as Hrange. pose proof (i_few _ _ _ _ _ _ _ _ HI) as Hfew.
  unfold Release_locked. step_fld 0. rewrite Hre. apply run_assert; [apply Z.ltb_lt; lia|].
  rewrite Z.add_simpl_r, u32_id by (unfold is_u32; lia). step. fold s1.
  step_fld false. step_fld false.
  replace (fget (fun h => h_refs h =? 0) false (heap s1) e) with (nrefs e held' =? 0)
    by (rewrite (fget_compose h_refs (fun r => r =? 0) _ 0), Hr by done; done).
  replace (cached_at (heap s1) e) with (cached_at (heap s) e) by (unfold s1; members; by rewrite fget_keep).
  destruct (Z.eqb_spec (nrefs e held') 0) as [E0|E0]; cbn [andb].
  2: { assert (Hin : e ∈ held') by (apply nrefs_pos; lia). apply run_bind, run_ret, run_bind, run_ret, run_ret.
       exists B, L, H, cs, ext. split; [by apply release_held|]. split; [by apply (Sound_same s)|].
       split; [by apply roomy_less|]. do 3 (split; [done|]). split; [naive_solver|]. split; naive_solver. }
  assert (Hno : e ∉ held') by (rewrite <- nrefs_pos; lia).
  assert (Hfin : forall s2, is_Some (heap s2 !! e) -> charge_at (heap s2) e = charge_at (heap s) e -> usage_ s2 = usage_ s ->
    released erase true (set_usage_ (usage_ s - charge_at (heap s) e) s2) ->
    run (_ ← when_ true (charge ← fld e h_total_charge; u ← gets usage_; _ ← assert_ (charge <=? u);
                   modify (set_usage_ (u64 (u - charge)))); mret true) s2 (released erase)).
  { intros s2 K1 K2 K3 K4. apply release_charge; try done. by apply run_ret. }
  destruct (cached_at (heap s) e) eqn:Eca.
  2: { apply run_bind, run_ret. apply Hfin; try done; [unfold s1; members; by rewrite fget_keep|].
       apply release_ext; [|done]. apply elem_of_app in HeTE as [HeT|]; [|done].
       by rewrite (i_in _ _ _ _ _ _ _ _ HI) in Eca. }
  assert (HeT : e ∈ concat cs).
  { apply elem_of_app in HeTE as [|HeE]; [done|]. by rewrite (i_out _ _ _ _ _ _ _ _ HI) in Eca. }
  apply run_bind. step. step. change (usage_ s1) with (usage_ s). change (capacity_ s1) with (capacity_ s).
  destruct ((capacity_ s <? usage_ s) || erase) eqn:Econd.
  - eapply run_mono; [by apply (release_erase erase)|]. intros r s2 (-> & K1 & K2 & K3 & K4). by apply Hfin.
  - apply orb_false_iff in Econd as [Hcap ->]. apply Z.ltb_ge in Hcap.
    eapply run_seq; [by apply release_insert|]. intros u s2 K2. apply run_ret, run_bind, run_ret, run_ret. done.
Qed.
End release.
End ops.
