(* ===== verification/LruInsert.v ===== *)
(** * Erasing, inserting and resizing

    The operations of a shard that make and remove entries, up to the end of
    their critical sections, against the invariant of [LruInv]; and the freeing
    of handles after them. *)

From S2P Require Import Prelude Binary64 Slice LruCache LruRing LruTable LruInv LruOps.
#[local] Set Warnings "-clear-no-such-hyp".

(** ** Handles in transit *)

(** Handles that are not part of the cache come, go and change. *)
Lemma Inv0_limbo s s' held limbo limbo' B L H cs ext :
  Inv0 s held limbo B L H cs ext ->
  (forall p, p ∉ limbo -> p ∉ limbo' -> heap s' !! p = heap s !! p) ->
  (forall p, p ∈ limbo \/ p ∈ limbo' -> is_Some (heap s' !! p) <-> p ∈ limbo') ->
  (forall p, p ∈ limbo' -> p ∉ nullptr :: lru_ :: concat cs ++ ext) -> NoDup limbo' ->
  (forall p, p ∈ limbo' -> nx (heap s') p = nullptr /\ pv (heap s') p = nullptr /\ 0 <= charge_at (heap s') p) ->
  ring_members s' = ring_members s -> table_ s' = table_ s -> usage_ s' = usage_ s ->
  Inv0 s' held limbo' B L H cs ext.
Proof.
  intros HI Hsame Hcells Hnew Hnd Hnull Hm Ht Hu.
  destruct (inv_parts _ _ _ _ _ _ _ _ HI) as (Hn0 & Hl0 & HnT & HnE & _ & Hdis & Hdis').
  assert (Hlook : forall p, p ∈ concat cs ++ ext -> heap s' !! p = heap s !! p).
  { intros p Hp. apply Hsame; [|intros Hx; apply (Hnew p Hx); do 2 right; done].
    apply elem_of_app in Hp as [Hp|Hp]; [by apply (Hdis p)|by apply Hdis']. }
  assert (Hl : heap s' !! lru_ = heap s !! lru_).
  { apply Hsame; [rewrite !elem_of_app in Hl0; tauto|intros Hx; apply (Hnew _ Hx); right; left]. }
  assert (Hget : forall A (f : LRUHandle -> A) d p, p ∈ concat cs ++ ext -> fget f d (heap s') p = fget f d (heap s) p).
  { intros A f d p Hp. unfold fget. by rewrite Hlook. }
  assert (HTE : forall p, p ∈ concat cs -> p ∈ concat cs ++ ext) by (intros; apply elem_of_app; auto).
  assert (HEE : forall p, p ∈ ext -> p ∈ concat cs ++ ext) by (intros; apply elem_of_app; auto).
  assert (Hok : charges_ok (heap s')).
  { intros p. destruct (decide (p ∈ limbo')) as [Hp|Hp]; [by apply Hnull|].
    destruct (decide (p ∈ limbo)) as [Hp'|Hp'].
    - unfold fget. destruct (heap s' !! p) eqn:E; [|done]. exfalso. apply Hp, Hcells; [by left|]. by eexists.
    - unfold fget. rewrite Hsame by done. apply (charges_all_ok _ _ _ _ _ _ _ _ HI). }
  split; rewrite ?Hu.
  - apply (Ring_transfer s); [apply (i_ring _ _ _ _ _ _ _ _ HI)|..]; try done.
    + intros p [->|Hp]%elem_of_cons; unfold same_cell; [by rewrite Hl|]. rewrite Hlook; [done|].
      apply (i_evict _ _ _ _ _ _ _ _ HI) in Hp as [? _]. auto.
    + intros p Hp. destruct (decide (p ∈ limbo')) as [Hp'|Hp']; [split; by apply Hnull|].
      destruct (decide (p ∈ limbo)) as [Hp''|Hp''].
      * unfold fget. destruct (heap s' !! p) eqn:E; [|done]. exfalso. apply Hp', Hcells; [by left|]. by eexists.
      * unfold fget. rewrite Hsame by done. apply (r_out _ _ _ _ (r_ring _ _ _ _ (i_ring _ _ _ _ _ _ _ _ HI)) p Hp).
  - apply (Table_transfer s); [apply (i_table _ _ _ _ _ _ _ _ HI)| |done].
    intros p Hp. unfold same_cell. by rewrite Hlook by auto.
  - intros p. rewrite elem_of_cons, app_assoc, elem_of_app. destruct (decide (p ∈ limbo')) as [Hp|Hp].
    { rewrite Hcells by auto. tauto. }
    destruct (decide (p ∈ limbo)) as [Hp'|Hp'].
    + rewrite Hcells by auto. split; [done|]. intros [->|[Hx|?]]; [|exfalso|done].
      * rewrite !elem_of_app in Hl0. tauto.
      * apply elem_of_app in Hx as [Hx|Hx]; [by apply (Hdis p Hx)|by apply (Hdis' p Hx)].
    + rewrite Hsame by done. rewrite (i_cells _ _ _ _ _ _ _ _ HI), elem_of_cons, app_assoc, (elem_of_app _ limbo). tauto.
  - apply list.NoDup_cons. split.
    { rewrite elem_of_cons, app_assoc, elem_of_app. intros [?|[Hx|Hx]]; [done| |].
      - rewrite app_assoc, elem_of_app in Hn0. tauto.
      - apply (Hnew _ Hx). left. }
    apply list.NoDup_cons. split.
    { rewrite app_assoc, elem_of_app. intros [Hx|Hx]; [rewrite app_assoc, elem_of_app in Hl0; tauto|].
      apply (Hnew _ Hx). right. left. }
    rewrite app_assoc. apply list.NoDup_app. split; [|split; [|done]].
    + apply list.NoDup_app. split; [done|]. split; [|done]. intros p Hp. by apply (Hdis p).
    + intros p Hp Hx. apply (Hnew _ Hx). do 2 right. done.
  - apply (i_evict _ _ _ _ _ _ _ _ HI).
  - intros p Hp. rewrite Hget by done. by apply (i_refs _ _ _ _ _ _ _ _ HI).
  - apply (i_held _ _ _ _ _ _ _ _ HI).
  - apply (i_ext _ _ _ _ _ _ _ _ HI).
  - intros p Hp. rewrite Hget by auto. by apply (i_in _ _ _ _ _ _ _ _ HI).
  - intros p Hp. rewrite Hget by auto. by apply (i_out _ _ _ _ _ _ _ _ HI).
  - rewrite (i_usage _ _ _ _ _ _ _ _ HI). symmetry. apply charges_ext. auto.
  - apply (i_room _ _ _ _ _ _ _ _ HI).
  - apply (i_few _ _ _ _ _ _ _ _ HI).
Qed.

Section transit.
Context (s : LRUCacheShard) (held limbo B L H : list ptr) (cs : list (list ptr)) (ext : list ptr).
Hypothesis HI : Inv0 s held limbo B L H cs ext.

Lemma limbo_apart p : p ∈ limbo -> p ∉ nullptr :: lru_ :: concat cs ++ ext.
Proof.
  destruct (inv_parts _ _ _ _ _ _ _ _ HI) as (Hn0 & Hl0 & _ & _ & _ & Hdis & Hdis').
  intros Hp. rewrite !not_elem_of_cons. rewrite app_assoc, elem_of_app in Hn0, Hl0.
  split; [intros ->; tauto|]. split; [intros ->; tauto|].
  intros [Hx|Hx]%elem_of_app; [by apply (Hdis p Hx)|by apply (Hdis' p Hx)].
Qed.

Lemma limbo_cell p : p ∈ limbo -> is_Some (heap s !! p).
Proof.
  intros Hp. apply (i_cells _ _ _ _ _ _ _ _ HI). rewrite elem_of_cons, !elem_of_app. tauto.
Qed.

Lemma limbo_links p : p ∈ limbo -> nx (heap s) p = nullptr /\ pv (heap s) p = nullptr.
Proof.
  intros Hp. apply (r_out _ _ _ _ (r_ring _ _ _ _ (i_ring _ _ _ _ _ _ _ _ HI))).
  pose proof (limbo_apart p Hp) as Hx. rewrite !not_elem_of_cons, not_elem_of_app in Hx. rewrite not_elem_of_cons.
  split; [tauto|]. rewrite (i_evict _ _ _ _ _ _ _ _ HI). tauto.
Qed.

(** [malloc]. *)
Lemma Inv0_alloc e h : heap s !! e = None -> e <> nullptr -> h_next h = nullptr -> h_prev h = nullptr ->
  0 <= h_total_charge h -> Inv0 (set_heap (<[e := h]> (heap s)) s) held (e :: limbo) B L H cs ext.
Proof.
  intros Hfree Hnn Hn Hp Hc.
  assert (Hnew : e ∉ lru_ :: concat cs ++ ext ++ limbo).
  { rewrite <- (i_cells _ _ _ _ _ _ _ _ HI), Hfree. intros [? ?]. done. }
  rewrite not_elem_of_cons, !not_elem_of_app in Hnew. destruct Hnew as (Hel & HeT & HeE & HeP).
  apply (Inv0_limbo s _ held limbo); try done; members.
  - intros p Hp1 Hp2. rewrite not_elem_of_cons in Hp2. rewrite lookup_insert_ne; [done|]. intros ->. tauto.
  - intros p Hpp. destruct (decide (p = e)) as [->|Hpe]; [rewrite lookup_insert_eq; split; [left|done]|].
    rewrite lookup_insert_ne by done. rewrite elem_of_cons in Hpp |- *.
    assert (Hin : p ∈ limbo) by tauto. pose proof (limbo_cell p Hin). tauto.
  - intros p [->|Hpp]%elem_of_cons; [|by apply limbo_apart]. rewrite !not_elem_of_cons, not_elem_of_app. tauto.
  - apply list.NoDup_cons. split; [done|]. by destruct (inv_parts _ _ _ _ _ _ _ _ HI) as (_ & _ & _ & _ & ? & _).
  - intros p Hpp. destruct (decide (p = e)) as [->|Hpe]; [unfold fget; by rewrite lookup_insert_eq|].
    apply elem_of_cons in Hpp as [?|Hpp]; [done|]. pose proof (limbo_links p Hpp) as [E1 E2].
    pose proof (charges_all_ok _ _ _ _ _ _ _ _ HI p) as E3. unfold fget in *. by rewrite lookup_insert_ne by done.
Qed.

(** [free]. *)
Lemma Inv0_free e : e ∈ limbo -> Inv0 (set_heap (delete e (heap s)) s) held (del e limbo) B L H cs ext.
Proof.
  intros He. apply (Inv0_limbo s _ held limbo); try done; members.
  - intros p Hp _. rewrite lookup_delete_ne; [done|]. intros ->. done.
  - intros p Hp. rewrite elem_of_del in *. assert (Hin : p ∈ limbo) by tauto. destruct (decide (p = e)) as [->|Hpe].
    + rewrite lookup_delete_eq. split; [by intros [? ?]|tauto].
    + rewrite lookup_delete_ne by done. split; [done|]. intros _. by apply limbo_cell.
  - intros p [_ Hp]%elem_of_del. by apply limbo_apart.
  - apply NoDup_del. by destruct (inv_parts _ _ _ _ _ _ _ _ HI) as (_ & _ & _ & _ & ? & _).
  - intros p [Hpe Hp]%elem_of_del. pose proof (limbo_links p Hp) as [E1 E2].
    pose proof (charges_all_ok _ _ _ _ _ _ _ _ HI p) as E3. unfold fget in *. by rewrite lookup_delete_ne by done.
Qed.

(** An assignment to a handle in transit. *)
Lemma Inv0_private e g : e ∈ limbo ->
  (forall h, h_next (g h) = h_next h /\ h_prev (g h) = h_prev h /\ (0 <= h_total_charge h -> 0 <= h_total_charge (g h))) ->
  Inv0 (set_heap (alter g e (heap s)) s) held limbo B L H cs ext.
Proof.
  intros He Hg. apply (Inv0_limbo s _ held limbo); try done; members.
  - intros p Hp _. rewrite lookup_alter_ne; [done|]. intros ->. done.
  - intros p Hp. assert (Hin : p ∈ limbo) by tauto. rewrite cell_alter. pose proof (limbo_cell p Hin). tauto.
  - apply limbo_apart.
  - by destruct (inv_parts _ _ _ _ _ _ _ _ HI) as (_ & _ & _ & _ & ? & _).
  - intros p Hp. pose proof (limbo_links p Hp) as [E1 E2]. pose proof (charges_all_ok _ _ _ _ _ _ _ _ HI p) as E3.
    rewrite !fget_keep by (intros h; apply Hg). split; [done|]. split; [done|].
    unfold fget in *. destruct (decide (e = p)) as [->|]; [|by rewrite lookup_alter_ne].
    rewrite lookup_alter_eq. destruct (heap s !! p) as [h|]; simpl; [by apply Hg|done].
Qed.

Lemma Inv0_limbo_perm limbo' : limbo ≡ₚ limbo' -> Inv0 s held limbo' B L H cs ext.
Proof.
  intros Hp. apply (Inv0_limbo s s held limbo); try done.
  - intros p Hx. rewrite Hp in Hx. assert (Hin : p ∈ limbo') by tauto. rewrite <- Hp in Hin.
    pose proof (limbo_cell p Hin). rewrite <- Hp. tauto.
  - intros p Hx. rewrite <- Hp in Hx. by apply limbo_apart.
  - rewrite <- Hp. by destruct (inv_parts _ _ _ _ _ _ _ _ HI) as (_ & _ & _ & _ & ? & _).
  - intros p Hx. rewrite <- Hp in Hx. pose proof (limbo_links p Hx) as [E1 E2]. split; [done|]. split; [done|].
    apply (charges_all_ok _ _ _ _ _ _ _ _ HI).
Qed.
End transit.

(** ** Settings after entries left *)

Lemma Sound_sub s s' B L H B' L' H' : Sound s -> Ring s B L H -> Ring s' B' L' H' -> H' ⊆+ H ->
  (forall p, p ∈ H' -> charge_at (heap s') p = charge_at (heap s) p) -> conf s' = conf s -> Sound s'.
Proof.
  intros HS HR HR' Hsub Hch Hconf. apply (Sound_less s); [done|done|].
  rewrite (r_high _ _ _ _ (r_ring _ _ _ _ HR)), (r_high _ _ _ _ (r_ring _ _ _ _ HR')).
  rewrite (charges_ext (heap s)) by done.
  pose proof (r_charges _ _ _ _ (r_ring _ _ _ _ HR)) as Hok.
  split; [by apply charges_nonneg|]. by apply charges_submseteq.
Qed.

Lemma roomy_mono s s' l l' : roomy s l -> capacity_ s' = capacity_ s -> usage_ s' <= usage_ s ->
  (forall p, p ∈ l' -> p ∈ l) -> roomy s' l'.
Proof.
  intros [Hr| ->] Hc Hu Hl; [left; lia|]. right. destruct l' as [|p l']; [done|].
  specialize (Hl p). rewrite elem_of_nil in Hl. exfalso. apply Hl. left.
Qed.

Lemma del_sub e (l : list ptr) : del e l ⊆+ l.
Proof. apply sublist_submseteq, sublist_filter. Qed.

(** ** Erasing *)

(** The entry [p] left the table; it is freed unless somebody holds it. *)
Record Erased (s s' : LRUCacheShard) (held limbo B L H : list ptr) (cs : list (list ptr)) (ext : list ptr)
    (p : ptr) (cs' : list (list ptr)) : Prop := {
  er_inv : Inv0 s' held (if decide (p ∈ held) then limbo else p :: limbo) (del p B) (del p L) (del p H) cs'
             (if decide (p ∈ held) then p :: ext else ext);
  er_table : concat cs' = del p (concat cs);
  er_core : forall q, q <> p -> same_cell core (heap s) (heap s') q;
  er_entry : core <$> heap s' !! p = core ∘ SetInCache false <$> heap s !! p;
  er_conf : conf s' = conf s;
  er_usage : usage_ s' = usage_ s - (if decide (p ∈ held) then 0 else charge_at (heap s) p)
}.

(** An entry that clients hold is erased. *)
Lemma Inv0_detach s s' held limbo B L H cs ext cs' e :
  Inv0 s held limbo B L H cs ext -> e ∈ concat cs -> e ∈ held ->
  Ring s' B L H -> Table s' cs' -> concat cs' = del e (concat cs) ->
  (forall p, p <> e -> same_cell core (heap s) (heap s') p) -> is_Some (heap s' !! e) ->
  charge_at (heap s') e = charge_at (heap s) e -> refs_at (heap s') e = refs_at (heap s) e ->
  cached_at (heap s') e = false -> usage_ s' = usage_ s ->
  Inv0 s' held limbo B L H cs' (e :: ext).
Proof.
  intros HI He Heh HR HT Ecs Hcore Hcell Hch Hre Hca Hu.
  destruct (inv_parts _ _ _ _ _ _ _ _ HI) as (_ & _ & HnT & HnE & _ & Hdis & _).
  assert (Hperm : concat cs ++ ext ++ limbo ≡ₚ concat cs' ++ (e :: ext) ++ limbo).
  { rewrite Ecs. rewrite (del_perm e (concat cs)) at 1 by done. simpl. by rewrite <- Permutation_middle. }
  assert (Hperm' : concat cs' ++ e :: ext ≡ₚ concat cs ++ ext).
  { rewrite Ecs. rewrite (del_perm e (concat cs)) at 2 by done. simpl. by rewrite <- Permutation_middle. }
  assert (Hall : forall p, charge_at (heap s') p = charge_at (heap s) p /\ refs_at (heap s') p = refs_at (heap s) p).
  { intros p. destruct (decide (p = e)) as [->|Hp]; [done|].
    destruct (core_fields _ _ p (Hcore p Hp)) as (_ & ? & _ & _ & ? & _). done. }
  split; try done.
  - intros p. rewrite <- Hperm. rewrite <- (i_cells _ _ _ _ _ _ _ _ HI).
    destruct (decide (p = e)) as [->|Hp]; [|by apply (core_fields _ _ p (Hcore p Hp))].
    split; [intros _|done]. eapply entry_cell; [done|]. apply elem_of_app. auto.
  - rewrite <- Hperm. apply (i_nodup _ _ _ _ _ _ _ _ HI).
  - intros p. rewrite (i_evict _ _ _ _ _ _ _ _ HI), Ecs, elem_of_del. split; [|tauto].
    intros [Hp Hh]. split; [|done]. split; [|done]. intros ->. done.
  - intros p Hp. rewrite Hperm' in Hp. destruct (Hall p) as [_ ->]. by apply (i_refs _ _ _ _ _ _ _ _ HI).
  - intros p Hp. rewrite Hperm'. by apply (i_held _ _ _ _ _ _ _ _ HI).
  - intros p [->|Hp]%elem_of_cons; [done|]. by apply (i_ext _ _ _ _ _ _ _ _ HI).
  - intros p Hp. rewrite Ecs in Hp. apply elem_of_del in Hp as [Hp Hin].
    destruct (core_fields _ _ p (Hcore p Hp)) as (_ & _ & _ & _ & _ & ->). by apply (i_in _ _ _ _ _ _ _ _ HI).
  - intros p [->|Hp]%elem_of_cons; [done|].
    destruct (core_fields _ _ p (Hcore p ltac:(intros ->; by destruct (Hdis e He)))) as (_ & _ & _ & _ & _ & ->).
    by apply (i_out _ _ _ _ _ _ _ _ HI).
  - rewrite Hu, (i_usage _ _ _ _ _ _ _ _ HI). rewrite (charges_perm _ _ _ Hperm'). symmetry. apply charges_ext.
    intros p _. apply Hall.
  - rewrite Hu. apply (i_room _ _ _ _ _ _ _ _ HI).
  - apply (i_few _ _ _ _ _ _ _ _ HI).
Qed.

Section erase.
Context (s : LRUCacheShard) (held limbo B L H : list ptr) (cs : list (list ptr)) (ext : list ptr).
Hypothesis HI : Inv0 s held limbo B L H cs ext.

Lemma Erase_locked_ok key hash : is_u32 hash ->
  run (Erase_locked key hash) s (fun r s' => found s (concat cs) key hash r.1 /\
    (r.1 = nullptr -> r.2 = false /\ s' = s) /\
    (r.1 <> nullptr -> r.2 = bool_decide (r.1 ∉ held) /\ exists cs', Erased s s' held limbo B L H cs ext r.1 cs')).
Proof.
  intros Hh. unfold Erase_locked.
  eapply run_seq; [by apply (Table_Remove_ok s cs (i_table _ _ _ _ _ _ _ _ HI))|].
  intros e s1 (Hfound & Hrest & Hnil & cs' & HT1 & Ecs). destruct Hfound as [[-> Hn]|(Hnn & He & Hm)].
  { apply run_ret. split; [by left|]. split; [auto|done]. }
  rewrite (proj2 (Z.eqb_neq e nullptr) Hnn). cbn [negb].
  assert (HeTE : e ∈ concat cs ++ ext) by (apply elem_of_app; auto).
  pose proof (entry_cell _ _ _ _ _ _ _ _ HI e HeTE) as Hc.
  destruct (table_core s s1 Hrest) as (Hcore1 & _ & Hconf1 & Hus1 & Hm1).
  destruct (core_fields _ _ e (Hcore1 e)) as (Hc1 & Hch1 & _ & _ & Hr1 & Hca1). pose proof (proj2 Hc1 Hc) as Hcell1.
  step_fld false. rewrite Hca1, (i_in _ _ _ _ _ _ _ _ HI) by done. apply run_assert; [done|].
  step. set (s2 := set_heap _ s1).
  assert (Hcell2 : is_Some (heap s2 !! e)) by (unfold s2; members; cells). step_fld false.
  assert (Hcore2 : forall p, p <> e -> same_cell core (heap s) (heap s2) p).
  { intros p Hp. transitivity (core <$> heap s1 !! p); [|apply Hcore1]. unfold s2. members. by rewrite lookup_alter_ne. }
  assert (Hent : core <$> heap s2 !! e = core ∘ SetInCache false <$> heap s !! e).
  { unfold s2. members. rewrite lookup_alter_eq. pose proof (Hcore1 e) as Ex. unfold same_cell in Ex. destruct Hc as [h E], Hcell1 as [h1 E1].
    rewrite E, E1 in *. unfold core in *. simplify_eq/=. f_equal. flags. congruence. }
  assert (HR2 : Ring s2 B L H).
  { apply Ring_upd; [by apply (Ring_table s); [|apply (i_ring _ _ _ _ _ _ _ _ HI)]|intros h; apply ring_view_cache]. }
  assert (HT2 : Table s2 cs') by by apply Table_upd.
  assert (Hr2 : refs_at (heap s2) e = nrefs e held).
  { unfold s2. members. rewrite fget_keep by done. rewrite Hr1. by apply (i_refs _ _ _ _ _ _ _ _ HI). }
  assert (Hch2 : charge_at (heap s2) e = charge_at (heap s) e) by (unfold s2; members; by rewrite fget_keep).
  rewrite (has_refs s2 e Hcell2), Hr2.
  destruct (Z.ltb_spec 0 (nrefs e held)) as [Hpos%nrefs_pos|Hpos]; cbn [negb].
  - assert (Hno : (e ∉ B) /\ (e ∉ L) /\ e ∉ H).
    { rewrite <- !not_elem_of_app, (i_evict _ _ _ _ _ _ _ _ HI). tauto. }
    apply run_ret. cbn [fst snd]. split; [by right|]. split; [done|]. intros _.
    split; [by rewrite bool_decide_false by tauto|]. exists cs'. rewrite ?del_notin by tauto.
    split; rewrite ?decide_True by done; try done; [|by rewrite Z.sub_0_r]. rewrite !del_notin by tauto.
    eapply Inv0_detach; try done; unfold s2; members.
    + by rewrite fget_keep.
    + apply fget_set; [done|]. intros h. flags. done.
  - assert (Heh : e ∉ held) by (rewrite <- (nrefs_pos e held); lia).
    eapply run_seq; [apply (LRU_Remove_ok s2 B L H e HR2); rewrite (i_evict _ _ _ _ _ _ _ _ HI); done|].
    intros _ s3 [HR3 Hrest3]. destruct (rest_core s2 s3 Hrest3) as (Hcore3 & _ & Hconf3 & Hus3 & _).
    destruct (core_fields _ _ e (Hcore3 e)) as (Hc3 & Hch3 & _). pose proof (proj2 Hc3 Hcell2).
    pose proof (charge_le_usage _ _ _ _ _ _ _ _ HI e HeTE). pose proof (i_room _ _ _ _ _ _ _ _ HI).
    pose proof (charges_all_ok _ _ _ _ _ _ _ _ HI e).
    assert (Hus : usage_ s3 = usage_ s) by (rewrite Hus3; exact Hus1).
    step_fld 0. step. rewrite Hch3, Hch2, Hus. apply run_assert; [by apply Z.leb_le|]. step.
    rewrite u64_id by (unfold is_u64; lia). apply run_ret. cbn [fst snd]. split; [by right|]. split; [done|]. intros _.
    split; [by rewrite bool_decide_true|]. exists cs'. set (s4 := set_usage_ _ s3).
    split; rewrite ?decide_False by done; try done.
    + eapply (Inv0_drop s held limbo B L H cs ext HI s4 held); try done.
      * by apply Ring_usage.
      * intros p. rewrite <- !del_app, !elem_of_del, (i_evict _ _ _ _ _ _ _ _ HI). tauto.
      * apply Table_usage. by eapply Table_ring.
      * intros p Hp. transitivity (core <$> heap s2 !! p); [apply Hcore3|by apply Hcore2].
    + intros p Hp. transitivity (core <$> heap s2 !! p); [apply Hcore3|by apply Hcore2].
    + rewrite <- Hent. apply Hcore3.
    + transitivity (conf s3); [done|]. rewrite Hconf3. done.
Qed.
End erase.

(** ** Inserting *)

(** The handle [e] becomes an entry of the table. *)
Lemma Inv0_add s s' held held' limbo B L H cs ext B' L' H' cs' e :
  Inv0 s held (e :: limbo) B L H cs ext ->
  Ring s' B' L' H' -> Table s' cs' -> concat cs' ≡ₚ e :: concat cs ->
  (forall p, p ∈ B' ++ L' ++ H' <-> p ∈ concat cs' /\ p ∉ held') ->
  (forall p, p <> e -> same_cell core (heap s) (heap s') p) -> is_Some (heap s' !! e) ->
  cached_at (heap s') e = true -> refs_at (heap s') e = nrefs e held' ->
  (forall p, p <> e -> nrefs p held' = nrefs p held) -> Z.of_nat (length held') < 2 ^ 32 ->
  usage_ s' = usage_ s + charge_at (heap s') e -> usage_ s' < 2 ^ 64 ->
  Inv0 s' held' limbo B' L' H' cs' ext.
Proof.
  intros HI HR HT Ecs Hev Hcore Hcell Hca Hre Hrefs Hlen Hu Hroom.
  assert (He : e ∉ nullptr :: lru_ :: concat cs ++ ext) by (eapply limbo_apart; [done|left]).
  rewrite !not_elem_of_cons, not_elem_of_app in He. destruct He as (_ & _ & HeT & HeE).
  assert (Hheld : forall p, p <> e -> p ∈ held' <-> p ∈ held) by (intros p Hp; by rewrite <- !nrefs_pos, Hrefs).
  assert (Hperm : concat cs ++ ext ++ e :: limbo ≡ₚ concat cs' ++ ext ++ limbo).
  { rewrite Ecs. simpl. rewrite !app_assoc. by rewrite <- Permutation_middle. }
  assert (HTE : forall p, p ∈ concat cs' ++ ext <-> p = e \/ p ∈ concat cs ++ ext).
  { intros p. rewrite Ecs, !elem_of_app, elem_of_cons. tauto. }
  split; try done.
  - intros p. rewrite <- Hperm. rewrite <- (i_cells _ _ _ _ _ _ _ _ HI).
    destruct (decide (p = e)) as [->|Hp]; [|by apply (core_fields _ _ p (Hcore p Hp))].
    split; [intros _|done]. eapply limbo_cell; [done|left].
  - rewrite <- Hperm. apply (i_nodup _ _ _ _ _ _ _ _ HI).
  - intros p. rewrite HTE. intros [->|Hp]; [done|]. destruct (decide (p = e)) as [->|Hpe]; [done|].
    destruct (core_fields _ _ p (Hcore p Hpe)) as (_ & _ & _ & _ & -> & _). rewrite Hrefs by done.
    by apply (i_refs _ _ _ _ _ _ _ _ HI).
  - intros p Hp. rewrite HTE. destruct (decide (p = e)) as [->|Hpe]; [by left|right].
    apply (i_held _ _ _ _ _ _ _ _ HI). by apply Hheld.
  - intros p Hp. assert (p <> e) by (intros ->; done). apply Hheld; [done|]. by apply (i_ext _ _ _ _ _ _ _ _ HI).
  - intros p Hp. rewrite Ecs in Hp. destruct (decide (p = e)) as [->|Hpe]; [done|].
    apply elem_of_cons in Hp as [?|Hp]; [done|].
    destruct (core_fields _ _ p (Hcore p Hpe)) as (_ & _ & _ & _ & _ & ->). by apply (i_in _ _ _ _ _ _ _ _ HI).
  - intros p Hp. destruct (core_fields _ _ p (Hcore p ltac:(intros ->; done))) as (_ & _ & _ & _ & _ & ->).
    by apply (i_out _ _ _ _ _ _ _ _ HI).
  - rewrite Hu, (i_usage _ _ _ _ _ _ _ _ HI).
    rewrite (charges_perm _ (concat cs' ++ ext) (e :: concat cs ++ ext)) by by rewrite Ecs.
    cbn [charges]. rewrite (charges_ext (heap s) (heap s')); [lia|].
    intros p Hp. assert (Hpe : p <> e) by (intros ->; apply elem_of_app in Hp; tauto).
    by destruct (core_fields _ _ p (Hcore p Hpe)) as (_ & ? & _).
Qed.

Lemma found_unique s cs key hash p q : Table s cs -> found s (concat cs) key hash p -> found s (concat cs) key hash q -> p = q.
Proof.
  intros HT [[-> Hn]|(_ & Hp & Hm)] [[-> Hn']|(_ & Hq & Hm')]; [done|exfalso; by apply (Hn q)|exfalso; by apply (Hn' p)|].
  unfold matches in *. apply (t_keys _ _ HT); naive_solver congruence.
Qed.

(** [InsertItem] after the new handle took the place of [old] in the table. *)
Definition replace_old (old : ptr) (last_reference_list : list ptr) : M (list ptr) :=
  if negb (old =? nullptr) then
    in_cache ← fld old InCache;
    _ ← assert_ in_cache;
    _ ← upd old (SetInCache false);
    refs ← fld old HasRefs;
    if negb refs then
      _ ← LRU_Remove old;
      old_charge ← fld old h_total_charge;
      u ← gets usage_;
      _ ← assert_ (old_charge <=? u);
      _ ← modify (set_usage_ (u64 (u - old_charge)));
      mret (last_reference_list ++ [old])
    else mret last_reference_list
  else mret last_reference_list.

Definition overwritten (held : list ptr) (old : ptr) : list ptr :=
  if decide (old = nullptr \/ old ∈ held) then [] else [old].

(** It ends in a state that differs by the new entry from one where the old
    entry was erased. *)
Lemma replace_old_ok s held limbo B L H cs ext key hash old s1 cs1 c lrl :
  Inv0 s held limbo B L H cs ext -> is_u32 hash -> found s (concat cs) key hash old ->
  Ring s1 B L H -> Table s1 cs1 -> (forall p, same_cell core (heap s) (heap s1) p) -> conf s1 = conf s ->
  0 <= c -> usage_ s1 = usage_ s + c -> usage_ s + c < 2 ^ 64 ->
  run (replace_old old lrl) s1 (fun lrl' s2 => lrl' = lrl ++ overwritten held old /\
    exists s0 cs0 ext0, Inv0 s0 held (overwritten held old ++ limbo) (del old B) (del old L) (del old H) cs0 ext0 /\
      concat cs0 = del old (concat cs) /\ Ring s2 (del old B) (del old L) (del old H) /\ Table s2 cs1 /\
      (forall p, same_cell core (heap s0) (heap s2) p) /\ conf s2 = conf s /\ usage_ s2 = usage_ s0 + c /\
      usage_ s0 <= usage_ s /\ (forall p, p <> old -> same_cell core (heap s) (heap s2) p) /\
      (old ∈ overwritten held old -> refs_at (heap s2) old = 0)).
Proof.
  intros HI Hh Hf HR1 HT1 Hcore1 Hconf1 Hc Hu Hroom. unfold replace_old, overwritten.
  destruct (Z.eqb_spec old nullptr) as [->|Hnn]; cbn [negb].
  { pose proof (i_table _ _ _ _ _ _ _ _ HI) as HT. pose proof (i_nodup _ _ _ _ _ _ _ _ HI) as Hnd.
    assert (HnT : nullptr ∉ concat cs) by (intros Hx; by apply (entry_not_null s cs HT nullptr)).
    assert (Hno : (nullptr ∉ B) /\ (nullptr ∉ L) /\ nullptr ∉ H).
    { rewrite <- !not_elem_of_app, (i_evict _ _ _ _ _ _ _ _ HI). tauto. }
    apply run_ret. rewrite decide_True by auto. rewrite app_nil_r, !del_notin by tauto. split; [done|].
    exists s, cs, ext. do 9 (split; [done|]). intros Hx; by apply not_elem_of_nil in Hx. }
  destruct (Erase_locked_ok s held limbo B L H cs ext HI key hash Hh) as ([p last] & s0 & _ & Hp & _ & Her).
  cbn [fst snd] in *. assert (p = old) as -> by (eapply found_unique; [apply (i_table _ _ _ _ _ _ _ _ HI)|done..]).
  destruct (Her Hnn) as (_ & cs0 & [Hinv0 Htab0 Hcore0 Hent0 Hconf0 Hus0]). clear Her Hp last.
  destruct Hf as [[? _]|(_ & He & _)]; [done|].
  assert (HeTE : old ∈ concat cs ++ ext) by (apply elem_of_app; auto).
  pose proof (entry_cell _ _ _ _ _ _ _ _ HI old HeTE) as Hc0.
  destruct (core_fields _ _ old (Hcore1 old)) as (Hc1 & Hch1 & _ & _ & Hr1 & Hca1). pose proof (proj2 Hc1 Hc0) as Hcell1.
  step_fld false. rewrite Hca1, (i_in _ _ _ _ _ _ _ _ HI) by done. apply run_assert; [done|].
  step. set (s2 := set_heap _ s1).
  assert (Hcell2 : is_Some (heap s2 !! old)) by (unfold s2; members; cells). step_fld false.
  assert (Hcore2 : forall p, same_cell core (heap s0) (heap s2) p).
  { intros p. unfold same_cell, s2. members. destruct (decide (p = old)) as [->|Hp].
    - rewrite Hent0, lookup_alter_eq. pose proof (Hcore1 old) as Ex. unfold same_cell in Ex.
      destruct Hc0 as [h E], Hcell1 as [h1 E1]. rewrite E, E1 in *. unfold core in *. simplify_eq/=. f_equal. flags. congruence.
    - rewrite lookup_alter_ne by done. etrans; [apply Hcore1|]. symmetry. by apply Hcore0. }
  assert (Hcore2' : forall p, p <> old -> same_cell core (heap s) (heap s2) p).
  { intros p Hp. unfold s2, same_cell. members. rewrite lookup_alter_ne by done. apply Hcore1. }
  assert (HR2 : Ring s2 B L H) by (apply Ring_upd; [done|intros h; apply ring_view_cache]).
  assert (HT2 : Table s2 cs1) by by apply Table_upd.
  assert (Hr2 : refs_at (heap s2) old = nrefs old held).
  { unfold s2. members. rewrite fget_keep by done. rewrite Hr1. by apply (i_refs _ _ _ _ _ _ _ _ HI). }
  assert (Hch2 : charge_at (heap s2) old = charge_at (heap s) old) by (unfold s2; members; by rewrite fget_keep).
  rewrite (has_refs s2 old Hcell2), Hr2.
  destruct (Z.ltb_spec 0 (nrefs old held)) as [Hpos%nrefs_pos|Hpos]; cbn [negb].
  - assert (Hno : (old ∉ B) /\ (old ∉ L) /\ old ∉ H).
    { rewrite <- !not_elem_of_app, (i_evict _ _ _ _ _ _ _ _ HI). tauto. }
    rewrite decide_True in * by auto. rewrite !decide_True in * by done. apply run_ret. rewrite app_nil_r. split; [done|].
    exists s0, cs0, (old :: ext). rewrite !del_notin in * by tauto. split; [done|]. split; [done|]. do 4 (split; [done|]).
    rewrite Hus0. unfold s2. members. split; [lia|]. split; [lia|]. split; [done|]. intros Hx; by apply not_elem_of_nil in Hx.
  - assert (Heh : old ∉ held) by (rewrite <- (nrefs_pos old held); lia).
    rewrite decide_False in * by tauto. rewrite !decide_False in * by done.
    eapply run_seq; [apply (LRU_Remove_ok s2 B L H old HR2); rewrite (i_evict _ _ _ _ _ _ _ _ HI); done|].
    intros _ s3 [HR3 Hrest3]. destruct (rest_core s2 s3 Hrest3) as (Hcore3 & _ & Hconf3 & Hus3 & _).
    destruct (core_fields _ _ old (Hcore3 old)) as (Hc3 & Hch3 & _ & _ & Hr3 & _). pose proof (proj2 Hc3 Hcell2).
    pose proof (charge_le_usage _ _ _ _ _ _ _ _ HI old HeTE). pose proof (charges_all_ok _ _ _ _ _ _ _ _ HI old).
    assert (Hus : usage_ s3 = usage_ s + c) by (rewrite Hus3; exact Hu).
    step_fld 0. step. rewrite Hch3, Hch2, Hus. apply run_assert; [apply Z.leb_le; lia|]. step.
    rewrite u64_id by (unfold is_u64; lia). apply run_ret. split; [done|].
    exists s0, cs0, ext. split; [done|]. split; [done|]. split; [by apply Ring_usage|].
    split; [apply Table_usage; by eapply Table_ring|]. members.
    split; [intros p; transitivity (core <$> heap s2 !! p); [apply Hcore3|by apply Hcore2]|].
    split; [transitivity (conf s3); [done|]; by rewrite Hconf3|]. split; [lia|]. split; [lia|].
    split; [intros p Hp; transitivity (core <$> heap s2 !! p); [apply Hcore3|by apply Hcore2']|].
    intros _. rewrite Hr3, Hr2. pose proof (nrefs_range old held). lia.
Qed.

Lemma foldl_del (l T : list ptr) p : p ∈ foldl (fun T e => del e T) T l <-> p ∈ T /\ p ∉ l.
Proof.
  revert T. induction l as [|e l IH]; intros T; simpl; [rewrite elem_of_nil; tauto|].
  rewrite IH, elem_of_del, not_elem_of_cons. tauto.
Qed.

Section evicted.
Context (s s1 : LRUCacheShard) (held limbo B L H : list ptr) (cs : list (list ptr)) (ext ev B1 L1 H1 : list ptr).
Context (cs1 : list (list ptr)).
Hypothesis HI : Inv0 s held limbo B L H cs ext.
Hypothesis Hev : Evicted s s1 held limbo B L H cs ext ev B1 L1 H1 cs1.

Lemma evicted_sound : Sound s -> Sound s1.
Proof.
  destruct Hev as [HI1 (_ & _ & EH) Hout _ Hcore _ Hconf _]. intros HS.
  apply (Sound_sub s s1 B L H B1 L1 H1); try done.
  - apply (i_ring _ _ _ _ _ _ _ _ HI).
  - apply (i_ring _ _ _ _ _ _ _ _ HI1).
  - rewrite EH. apply sublist_submseteq, sublist_drop.
  - destruct (ring_facts _ _ _ _ (r_ring _ _ _ _ (i_ring _ _ _ _ _ _ _ _ HI))) as (_ & _ & _ & Hnd).
    rewrite Hout in Hnd. apply list.NoDup_app in Hnd as (_ & Hd & _). intros p Hp.
    destruct (core_fields _ _ p (Hcore p ltac:(intros Hx; apply (Hd p Hx); rewrite !elem_of_app; auto))) as (_ & ? & _). done.
Qed.

Lemma evicted_out p : p ∈ ev -> p ∈ concat cs /\ p ∉ held.
Proof.
  intros Hp. apply (i_evict _ _ _ _ _ _ _ _ HI). rewrite (ev_out _ _ _ _ _ _ _ _ _ _ _ _ _ _ Hev). apply elem_of_app. auto.
Qed.

Lemma evicted_table p : p ∈ concat cs1 <-> p ∈ concat cs /\ p ∉ ev.
Proof. rewrite (ev_table _ _ _ _ _ _ _ _ _ _ _ _ _ _ Hev). apply foldl_del. Qed.

Lemma evicted_length : (length (concat cs1) <= length (concat cs))%nat.
Proof.
  rewrite (ev_table _ _ _ _ _ _ _ _ _ _ _ _ _ _ Hev). generalize (concat cs). clear. induction ev as [|e l IH]; [done|].
  intros T. simpl. etrans; [apply IH|]. apply length_filter.
Qed.

Lemma evicted_limbo p : p ∈ limbo -> p ∉ ev.
Proof.
  intros Hp Hx. apply evicted_out in Hx as [Hx _]. apply (limbo_apart _ _ _ _ _ _ _ _ HI p Hp).
  do 2 right. apply elem_of_app. auto.
Qed.

Lemma evicted_refs p : p ∈ ev ++ limbo -> (p ∈ limbo -> refs_at (heap s) p = 0) -> refs_at (heap s1) p = 0.
Proof.
  intros [Hp|Hp]%elem_of_app Hl; [by apply (ev_refs _ _ _ _ _ _ _ _ _ _ _ _ _ _ Hev)|].
  destruct (core_fields _ _ p (ev_core _ _ _ _ _ _ _ _ _ _ _ _ _ _ Hev p (evicted_limbo p Hp))) as (_ & _ & _ & _ & -> & _).
  auto.
Qed.

Lemma evicted_inv : Inv0 s1 held (ev ++ limbo) B1 L1 H1 cs1 ext.
Proof.
  eapply Inv0_limbo_perm; [apply (ev_inv _ _ _ _ _ _ _ _ _ _ _ _ _ _ Hev)|]. by rewrite reverse_Permutation.
Qed.
End evicted.

Definition hold (h : ptr) (held : list ptr) : list ptr := if decide (h = nullptr) then held else h :: held.

Section insert_item.
Context (s : LRUCacheShard) (held limbo B L H : list ptr) (cs : list (list ptr)) (ext : list ptr) (e : ptr).
Hypothesis HI : Inv0 s held (e :: limbo) B L H cs ext.
Hypothesis HS : Sound s.
Hypothesis Hrefs0 : refs_at (heap s) e = 0.
Hypothesis Hlimbo : forall p, p ∈ limbo -> refs_at (heap s) p = 0.
Let charge := charge_at (heap s) e.
Hypothesis Hroom : usage_ s + charge < 2 ^ 64.
Hypothesis Hmany : Z.of_nat (length held) + 1 < 2 ^ 32.

(** What is left after making room for [charge], and whether that is enough. *)
Let ev := victims (heap s) (capacity_ s) (usage_ s) charge (B ++ L ++ H).
Definition fits : Prop := usage_ s - charges (heap s) ev + charge <= capacity_ s.

Definition kept (cs' : list (list ptr)) : Prop := forall p, p ∈ concat cs' <-> p ∈ concat cs /\ p ∉ ev.

Abbreviation full_status := (MemoryLimit "Insert failed due to LRU cache being full.").

(** The outcome of [InsertItem]. *)
Definition item_inserted (want : bool) (r : Status * bool * ptr * list ptr) (s' : LRUCacheShard) : Prop :=
  let '(st, ow, h, out) := r in exists B' L' H' cs' ext',
    Inv0 s' (hold h held) (out ++ limbo) B' L' H' cs' ext' /\ Sound s' /\ roomy s' (B' ++ L' ++ H') /\ conf s' = conf s /\
    (forall p, p ∈ out ++ limbo -> refs_at (heap s') p = 0) /\
    (~ fits /\ strict_capacity_limit_ s = true /\ want = true /\ st = full_status /\ ow = false /\ h = nullptr /\
       out = ev /\ kept cs' \/
     ~ fits /\ want = false /\ st = OK /\ ow = false /\ h = nullptr /\ out = ev ++ [e] /\ kept cs' \/
     (fits \/ strict_capacity_limit_ s = false /\ want = true) /\ exists old cs1,
       st = OK /\ ow = negb (old =? nullptr) /\ h = (if want then e else nullptr) /\ out = ev ++ overwritten held old /\
       kept cs1 /\ found s (concat cs1) (key_at (heap s) e) (hash_at (heap s) e) old /\
       forall p, p ∈ concat cs' <-> p = e \/ p ∈ concat cs1 /\ p <> old).

Lemma new_handle : (e ∉ concat cs) /\ (e ∉ ext) /\ (e ∉ limbo) /\ e <> nullptr /\ e <> lru_ /\ e ∉ held.
Proof.
  pose proof (limbo_apart _ _ _ _ _ _ _ _ HI e ltac:(left)) as Hx. rewrite !not_elem_of_cons, not_elem_of_app in Hx.
  destruct (inv_parts _ _ _ _ _ _ _ _ HI) as (_ & _ & _ & _ & Hnd & _). apply list.NoDup_cons in Hnd as [Hnd _].
  repeat split; try tauto. intros Hh. apply (i_held _ _ _ _ _ _ _ _ HI), elem_of_app in Hh. tauto.
Qed.

(** The handle is not put into the table. *)
Lemma item_refused s1 B1 L1 H1 cs1 st out :
  Evicted s s1 held (e :: limbo) B L H cs ext ev B1 L1 H1 cs1 ->
  (usage_ s1 + charge <= capacity_ s1 \/ B1 ++ L1 ++ H1 = []) -> ~ fits ->
  forall s', Inv0 s' held (out ++ limbo) B1 L1 H1 cs1 ext -> conf s' = conf s1 -> ring_members s' = ring_members s1 ->
  usage_ s' = usage_ s1 -> (forall p, p ∈ out ++ limbo -> refs_at (heap s') p = refs_at (heap s1) p /\ p ∈ ev ++ e :: limbo) ->
  (strict_capacity_limit_ s = true /\ st = full_status /\ out = ev) \/ (st = OK /\ out = ev ++ [e]) ->
  item_inserted (if decide (st = full_status) then true else false) (st, false, nullptr, out) s'.
Proof.
  intros Hev Hroomy Hnf s' HI' Hconf Hm Hu Hrefs Hst. exists B1, L1, H1, cs1, ext.
  pose proof (ev_conf _ _ _ _ _ _ _ _ _ _ _ _ _ _ Hev) as Hconf1.
  split; [done|]. split; [apply (Sound_same s1); [exact (evicted_sound _ _ _ _ _ _ _ _ _ _ _ _ _ _ HI Hev HS)|done..]|].
  split.
  { unfold roomy. rewrite Hu. injection Hconf as _ -> _ _ _ _ _ _.
    destruct Hroomy as [Hr|Hr]; [left|by right]. pose proof (charges_all_ok _ _ _ _ _ _ _ _ HI e). lia. }
  split; [congruence|]. split.
  { intros p Hp. destruct (Hrefs p Hp) as [-> Hin]. apply (evicted_refs _ _ _ _ _ _ _ _ _ _ _ _ _ _ HI Hev p Hin).
    intros [->|Hl]%elem_of_cons; [done|auto]. }
  assert (Hk : kept cs1) by (intros p; apply (evicted_table _ _ _ _ _ _ _ _ _ _ _ _ _ _ Hev)).
  destruct Hst as [(? & -> & ->)|(-> & ->)]; [left|right; left]; done.
Qed.

(** The handle was put into the table in place of [old]. *)
Lemma item_placed s1 B1 L1 H1 cs1 s0 cs0 ext0 s2 cs2 old want :
  Evicted s s1 held (e :: limbo) B L H cs ext ev B1 L1 H1 cs1 ->
  (usage_ s1 + charge <= capacity_ s1 \/ B1 ++ L1 ++ H1 = []) ->
  (fits \/ strict_capacity_limit_ s = false /\ want = true) ->
  found s1 (concat cs1) (key_at (heap s) e) (hash_at (heap s) e) old -> cached_at (heap s) e = true ->
  Inv0 s0 held (overwritten held old ++ ev ++ e :: limbo) (del old B1) (del old L1) (del old H1) cs0 ext0 ->
  concat cs0 = del old (concat cs1) -> Ring s2 (del old B1) (del old L1) (del old H1) -> Table s2 cs2 ->
  concat cs2 ≡ₚ e :: del old (concat cs1) -> (forall p, same_cell core (heap s0) (heap s2) p) -> conf s2 = conf s ->
  usage_ s2 = usage_ s0 + charge -> usage_ s0 <= usage_ s1 ->
  (forall p, p <> old -> same_cell core (heap s1) (heap s2) p) ->
  (old ∈ overwritten held old -> refs_at (heap s2) old = 0) -> old <> e ->
  run (_ ← (if negb want then LRU_Insert e else refs ← fld e HasRefs; when_ (negb refs) (upd e Ref));
       mret (OK, negb (old =? nullptr), if want then e else nullptr, ev ++ overwritten held old)) s2 (item_inserted want).
Proof.
  intros Hev Hroomy Hfit Hfound Hca HI0 Ecs0 HR2 HT2 Ecs2 Hcore Hconf Hu Hu0 Hcore2 Holdr Hne.
  destruct new_handle as (HeT & HeE & HeP & Hnn & Hel & Heh).
  pose proof (evicted_sound _ _ _ _ _ _ _ _ _ _ _ _ _ _ HI Hev HS) as HS1.
  assert (Hee : e ∉ ev) by (apply (evicted_limbo _ _ _ _ _ _ _ _ _ _ _ _ _ _ HI Hev); left).
  destruct (core_fields _ _ e (ev_core _ _ _ _ _ _ _ _ _ _ _ _ _ _ Hev e Hee)) as (Hc1 & Hch1 & _ & _ & Hr1 & Hca1).
  destruct (core_fields _ _ e (Hcore2 e ltac:(done))) as (Hc2 & Hch2 & _ & _ & Hr2 & Hca2).
  assert (Hcell : is_Some (heap s2 !! e)) by (apply Hc2, Hc1; by eapply limbo_cell; [|left]).
  pose proof (evicted_inv _ _ _ _ _ _ _ _ _ _ _ _ _ _ Hev) as HI1.
  assert (Hus1 : usage_ s1 <= usage_ s).
  { rewrite (ev_usage _ _ _ _ _ _ _ _ _ _ _ _ _ _ Hev). pose proof (charges_nonneg (heap s) ev (charges_all_ok _ _ _ _ _ _ _ _ HI)). lia. }
  assert (Hperm : overwritten held old ++ ev ++ e :: limbo ≡ₚ e :: (ev ++ overwritten held old) ++ limbo).
  { rewrite <- !Permutation_middle. constructor. rewrite !app_assoc. by rewrite (Permutation_app_comm ev). }
  apply (Inv0_limbo_perm _ _ _ _ _ _ _ _ HI0) in Hperm. clear HI0. rename Hperm into HI0.
  assert (Eq2 : concat cs2 ≡ₚ e :: concat cs0) by by rewrite Ecs0.
  pose proof (i_ring _ _ _ _ _ _ _ _ HI1) as HR1.
  assert (Hmem : forall p, p ∈ concat cs2 <-> p = e \/ p ∈ concat cs1 /\ p <> old).
  { intros p. rewrite Ecs2, elem_of_cons, elem_of_del. tauto. }
  assert (HS2 : Sound s2).
  { apply (Sound_sub s1 s2 B1 L1 H1 (del old B1) (del old L1) (del old H1)); try done; [apply del_sub| |].
    - intros p [Hp _]%elem_of_del. by destruct (core_fields _ _ p (Hcore2 p Hp)) as (_ & ? & _).
    - rewrite Hconf. symmetry. apply (ev_conf _ _ _ _ _ _ _ _ _ _ _ _ _ _ Hev). }
  assert (Hrefs2 : forall p, p ∈ (ev ++ overwritten held old) ++ limbo -> refs_at (heap s2) p = 0).
  { intros p Hp. destruct (decide (p = old)) as [->|Hpo].
    - destruct (decide (old ∈ overwritten held old)); [auto|].
      unfold overwritten in *. destruct (decide (old = nullptr \/ old ∈ held)) as [[->|Ho]|]; [| |exfalso; set_solver].
      + exfalso. rewrite app_nil_r in Hp. destruct (inv_parts _ _ _ _ _ _ _ _ HI1) as (Hx & _). apply Hx.
        rewrite !elem_of_app, elem_of_cons. rewrite elem_of_app in Hp. tauto.
      + exfalso. rewrite app_nil_r in Hp. apply (i_held _ _ _ _ _ _ _ _ HI1) in Ho.
        apply (limbo_apart _ _ _ _ _ _ _ _ HI1 old); [|do 2 right; done].
        rewrite elem_of_app, elem_of_cons. rewrite elem_of_app in Hp. tauto.
    - destruct (core_fields _ _ p (Hcore2 p Hpo)) as (_ & _ & _ & _ & -> & _).
      apply (evicted_refs _ _ _ _ _ _ _ _ _ _ _ _ _ _ HI Hev); [|intros [->|?]%elem_of_cons; auto].
      assert (p ∉ overwritten held old) by (unfold overwritten; case_decide; set_solver).
      rewrite !elem_of_app in Hp. rewrite elem_of_app, elem_of_cons. tauto. }
  assert (Hpost : forall s' h B' L' H', Inv0 s' (hold h held) ((ev ++ overwritten held old) ++ limbo) B' L' H' cs2 ext0 ->
    Sound s' -> roomy s' (B' ++ L' ++ H') -> conf s' = conf s ->
    (forall p, p <> e -> same_cell core (heap s2) (heap s') p) -> h = (if want then e else nullptr) ->
    item_inserted want (OK, negb (old =? nullptr), h, ev ++ overwritten held old) s').
  { intros s' h B' L' H' K1 K2 K3 K4 K5 ->. exists B', L', H', cs2, ext0. do 4 (split; [done|]). split.
    - intros p Hp. assert (Hpe : p <> e).
      { intros ->. pose proof (limbo_apart _ _ _ _ _ _ _ _ K1 e Hp) as Hx. apply Hx. do 2 right.
        apply elem_of_app. left. apply Hmem. by left. }
      destruct (core_fields _ _ p (K5 p Hpe)) as (_ & _ & _ & _ & -> & _). auto.
    - right. right. split; [done|]. exists old, cs1. do 4 (split; [done|]). split; [intros p; apply (evicted_table _ _ _ _ _ _ _ _ _ _ _ _ _ _ Hev)|].
      split; [|done]. destruct Hfound as [[-> Hn]|(? & Hin & Hm)]; [left|right].
      + split; [done|]. intros q Hq [Hq1 Hq2]. apply (Hn q Hq). destruct (proj1 (evicted_table _ _ _ _ _ _ _ _ _ _ _ _ _ _ Hev q) Hq) as [_ Hqe].
        destruct (core_fields _ _ q (ev_core _ _ _ _ _ _ _ _ _ _ _ _ _ _ Hev q Hqe)) as (_ & _ & Ek & Eh & _). unfold matches. by rewrite Ek, Eh.
      + split; [done|]. split; [done|]. destruct Hm as [Hm1 Hm2]. destruct (proj1 (evicted_table _ _ _ _ _ _ _ _ _ _ _ _ _ _ Hev old) Hin) as [_ Hqe].
        destruct (core_fields _ _ old (ev_core _ _ _ _ _ _ _ _ _ _ _ _ _ _ Hev old Hqe)) as (_ & _ & Ek & Eh & _). unfold matches.
        by rewrite <- Ek, <- Eh. }
  assert (Hev2 : forall p, p ∈ del old B1 ++ del old L1 ++ del old H1 <-> p ∈ concat cs0 /\ p ∉ held) by apply (i_evict _ _ _ _ _ _ _ _ HI0).
  assert (HeT0 : e ∉ concat cs0).
  { rewrite Ecs0, elem_of_del. rewrite (evicted_table _ _ _ _ _ _ _ _ _ _ _ _ _ _ Hev). tauto. }
  assert (Hcap : capacity_ s2 = capacity_ s1).
  { injection Hconf as _ -> _ _ _ _ _ _. pose proof (ev_conf _ _ _ _ _ _ _ _ _ _ _ _ _ _ Hev) as Hx. by injection Hx as _ -> _ _ _ _ _ _. }
  pose proof (nrefs_range e held). assert (Hn0 : nrefs e held = 0).
  { destruct (decide (0 < nrefs e held)) as [Hx%nrefs_pos|]; [done|lia]. }
  destruct want; cbn [negb].
  - apply run_bind. step_fld false. rewrite (has_refs s2 e Hcell), Hr2, Hr1, Hrefs0. cbn [Z.ltb Z.compare negb when_].
    apply run_upd_end; [done|]. apply run_ret. set (s3 := set_heap _ s2).
    assert (Hcore3 : forall p, p <> e -> same_cell core (heap s2) (heap s3) p).
    { intros p Hp. unfold same_cell, s3. members. by rewrite lookup_alter_ne. }
    apply (Hpost s3 e (del old B1) (del old L1) (del old H1)); try done.
    + unfold hold. rewrite decide_False by done.
      eapply (Inv0_add s0 s3 held (e :: held) _ _ _ _ cs0); try done; unfold s3; members.
      * apply Ring_upd; [done|]. done.
      * by apply Table_upd.
      * intros p. rewrite Hev2, Eq2, elem_of_cons, not_elem_of_cons. naive_solver.
      * intros p Hp. transitivity (core <$> heap s2 !! p); [by apply Hcore3|apply Hcore].
      * cells.
      * rewrite fget_keep by done. congruence.
      * rewrite (fget_upd _ (fun r => u32 (r + 1))) by done. rewrite Hr2, Hr1, Hrefs0. simpl. rewrite decide_True, Hn0 by done. done.
      * intros p Hp. simpl. by rewrite decide_False.
      * simpl length. lia.
      * rewrite fget_keep, Hch2, Hch1 by done. done.
      * rewrite Hu. lia.
    + apply (Sound_same s2); done.
    + unfold roomy, s3. members. rewrite Hu, Hcap. destruct Hroomy as [Hr|Hr]; [left; lia|right].
      rewrite <- !del_app, Hr. done.
  - assert (Hfits : usage_ s2 <= capacity_ s2).
    { destruct Hfit as [Hfit|[_ ?]]; [|done]. unfold fits in Hfit. injection Hconf as _ -> _ _ _ _ _ _.
      pose proof (ev_usage _ _ _ _ _ _ _ _ _ _ _ _ _ _ Hev). lia. }
    assert (Hlru : lru_usage_ s2 + charge_at (heap s2) e < 2 ^ 64).
    { rewrite (r_usage _ _ _ _ HR2), Hch2, Hch1. fold charge.
      assert (Hs : del old B1 ++ del old L1 ++ del old H1 ⊆+ concat cs0 ++ ext0).
      { apply NoDup_submseteq; [by destruct (ring_facts _ _ _ _ (r_ring _ _ _ _ HR2)) as (_ & _ & _ & ?)|].
        intros p [Hp _]%Hev2. apply elem_of_app. auto. }
      apply (charges_submseteq (heap s0)) in Hs; [|apply (charges_all_ok _ _ _ _ _ _ _ _ HI0)].
      rewrite <- (i_usage _ _ _ _ _ _ _ _ HI0) in Hs. rewrite (charges_ext (heap s0) (heap s2)); [lia|].
      intros p _. by destruct (core_fields _ _ p (Hcore p)) as (_ & ? & _). }
    assert (Hout : e ∉ lru_ :: del old B1 ++ del old L1 ++ del old H1).
    { rewrite not_elem_of_cons. split; [done|]. rewrite Hev2. tauto. }
    eapply run_seq; [apply (LRU_Insert_ok s2 _ _ _ e HR2 Hcell Hnn Hout Hlru); apply HS2|].
    intros u s3 (B' & L' & H' & Hi & HR3 & Hrest3). apply run_ret.
    destruct (rest_core s2 s3 Hrest3) as (Hcore3 & _ & Hconf3 & Hus3 & _).
    destruct (core_fields _ _ e (Hcore3 e)) as (Hc3 & Hch3 & _ & _ & Hr3 & Hca3).
    apply (Hpost s3 nullptr B' L' H'); try done.
    + unfold hold. rewrite decide_True by done.
      eapply (Inv0_add s0 s3 held held _ _ _ _ cs0); try done.
      * by eapply Table_ring.
      * intros p. rewrite (inserted_perm _ _ _ _ _ _ _ _ Hi), elem_of_cons, Hev2, Eq2, elem_of_cons. naive_solver.
      * intros p Hp. transitivity (core <$> heap s2 !! p); [apply Hcore3|apply Hcore].
      * by apply Hc3.
      * congruence.
      * congruence.
      * apply (i_few _ _ _ _ _ _ _ _ HI).
      * rewrite Hus3, Hu, Hch3, Hch2, Hch1. done.
      * rewrite Hus3, Hu. lia.
    + by eapply (Sound_inserted s2 s3).
    + left. rewrite Hus3. injection Hconf3 as _ -> _ _ _ _ _ _. done.
    + congruence.
Qed.

Hypothesis Hca : cached_at (heap s) e = true.
Hypothesis Hhash : is_u32 (hash_at (heap s) e).
Hypothesis Hfew : Z.of_nat (length (concat cs)) + 1 < 2 ^ 32.

Lemma InsertItem_locked_ok want : run (InsertItem_locked e want) s (item_inserted want).
Proof.
  destruct new_handle as (HeT & HeE & HeP & Hnn & Hel & Heh).
  assert (Hcell : is_Some (heap s !! e)) by (eapply limbo_cell; [done|left]).
  pose proof (charges_all_ok _ _ _ _ _ _ _ _ HI e) as Hc0. fold charge in Hc0.
  unfold InsertItem_locked. step_fld 0. fold charge.
  eapply run_seq; [by apply (EvictFromLRU_ok charge s held (e :: limbo) B L H cs ext)|].
  intros out s1 (B1 & L1 & H1 & cs1 & Eout & Hev & Hroomy). fold ev in Eout. subst out.
  assert (Hee : e ∉ ev) by (apply (evicted_limbo _ _ _ _ _ _ _ _ _ _ _ _ _ _ HI Hev); left).
  destruct (core_fields _ _ e (ev_core _ _ _ _ _ _ _ _ _ _ _ _ _ _ Hev e Hee)) as (Hc1 & Hch1 & Hk1 & Hh1 & Hr1 & Hca1).
  pose proof (proj2 Hc1 Hcell) as Hcell1. pose proof (evicted_inv _ _ _ _ _ _ _ _ _ _ _ _ _ _ Hev) as HI1.
  pose proof (ev_usage _ _ _ _ _ _ _ _ _ _ _ _ _ _ Hev) as Hus1. pose proof (ev_conf _ _ _ _ _ _ _ _ _ _ _ _ _ _ Hev) as Hconf1.
  injection Hconf1 as _ Hcap Hstrict _ _ _ _ _.
  pose proof (charges_nonneg (heap s) ev (charges_all_ok _ _ _ _ _ _ _ _ HI)) as Hce.
  assert (Hu0 : 0 <= usage_ s1).
  { rewrite (i_usage _ _ _ _ _ _ _ _ HI1). apply charges_nonneg. apply (charges_all_ok _ _ _ _ _ _ _ _ HI1). }
  do 3 step. rewrite u64_id, Hstrict by (unfold is_u64; lia).
  assert (Hfits : (capacity_ s1 <? usage_ s1 + charge) = false <-> fits).
  { rewrite Z.ltb_ge. unfold fits. rewrite Hus1, Hcap. done. }
  destruct (_ && _) eqn:Econd.
  { apply andb_true_iff in Econd as [Eover Ewhy].
    assert (Hnf : ~ fits) by (rewrite <- Hfits, Eover; done).
    step. set (s2 := set_heap _ s1).
    assert (HI2 : Inv0 s2 held (ev ++ e :: limbo) B1 L1 H1 cs1 ext).
    { apply Inv0_private; [done|rewrite elem_of_app; right; left|done]. }
    destruct want; cbn [negb].
    - rewrite orb_false_r in Ewhy. apply run_bind. unfold free. destruct (limbo_cell _ _ _ _ _ _ _ _ HI2 e) as [h2 Eh2]; [rewrite elem_of_app; right; left|].
      exists tt, (set_heap (delete e (heap s2)) s2). split; [by rewrite Eh2|]. apply run_ret.
      apply (item_refused s1 B1 L1 H1 cs1 full_status ev); try done; [| |by left].
      + apply Inv0_free with (e := e) in HI2; [|rewrite elem_of_app; right; left].
        by rewrite del_app, del_cons, !del_notin in HI2.
      + intros p Hp. assert (Hpe : p <> e) by (intros ->; rewrite elem_of_app in Hp; tauto). split.
        * unfold fget, s2. members. by rewrite lookup_delete_ne, lookup_alter_ne.
        * rewrite elem_of_app in Hp. rewrite elem_of_app, elem_of_cons. tauto.
    - apply run_ret. apply (item_refused s1 B1 L1 H1 cs1 OK (ev ++ [e])); try done; [| |by right].
      + by rewrite <- app_assoc.
      + intros p Hp. rewrite <- app_assoc in Hp. split; [|done]. unfold s2. members. by rewrite fget_keep. }
  assert (HfitQ : fits \/ strict_capacity_limit_ s = false /\ want = true).
  { apply andb_false_iff in Econd as [E1|[E2 E3]%orb_false_iff]; [left; by apply Hfits|right]. by destruct want. }
  pose proof (evicted_length _ _ _ _ _ _ _ _ _ _ _ _ _ _ Hev) as Hlen.
  assert (HeT1 : e ∉ concat cs1) by (rewrite (evicted_table _ _ _ _ _ _ _ _ _ _ _ _ _ _ Hev); tauto).
  eapply run_seq; [apply (Table_Insert_ok s1 cs1 e (i_table _ _ _ _ _ _ _ _ HI1)); try done; [by rewrite Hh1|lia]|].
  intros old s2 (Hfound & Hrest2 & cs2 & HT2 & Ecs2). rewrite Hk1, Hh1 in Hfound.
  destruct (table_core s1 s2 Hrest2) as (Hcore2 & _ & Hconf2 & Hus2 & Hm2).
  assert (Hne : old <> e).
  { destruct Hfound as [[-> _]|(_ & Ho & _)]; [done|]. intros ->. done. }
  step. rewrite Hus2, u64_id by (unfold is_u64; lia). set (s3 := set_usage_ _ s2).
  eapply run_seq; [apply (replace_old_ok s1 held (ev ++ e :: limbo) B1 L1 H1 cs1 ext _ _ old s3 cs2 charge ev HI1 Hhash Hfound); try done|].
  - apply Ring_usage. apply (Ring_table s1); [done|apply (i_ring _ _ _ _ _ _ _ _ HI1)].
  - by apply Table_usage.
  - lia.
  - intros lrl s4 (-> & s0 & cs0 & ext0 & HI0 & Ecs0 & HR4 & HT4 & Hcore4 & Hconf4 & Hus4 & Hle & Hcore4' & Hr4).
    eapply (item_placed s1 B1 L1 H1 cs1 s0 cs0 ext0 s4 cs2 old want); try done.
    rewrite Hconf4. apply (ev_conf _ _ _ _ _ _ _ _ _ _ _ _ _ _ Hev).
Qed.
End insert_item.

(** ** Operations that allocate *)

(** What the code relies on: the allocator returns a block that is not in use. *)
Definition malloc_fresh (malloc : gset ptr -> ptr) : Prop :=
  forall used, malloc used <> nullptr /\ malloc used ∉ used.

Section alloc.
Context (malloc : gset ptr -> ptr) (malloc_usable_size : option (ptr -> Z -> Z)).
Hypothesis Hmalloc : malloc_fresh malloc.
Context (s : LRUCacheShard) (held limbo B L H : list ptr) (cs : list (list ptr)) (ext : list ptr).
Hypothesis HI : Inv0 s held limbo B L H cs ext.
Hypothesis HS : Sound s.
Hypothesis Hlimbo : forall p, p ∈ limbo -> refs_at (heap s) p = 0.
Context (key : bytes) (hash value : Z) (helper : CacheItemHelper) (charge : Z).

Definition new_addr : ptr := malloc (dom (heap s)).

(** The handle that [CreateHandle] makes. *)
Definition fresh_handle : LRUHandle :=
  {| h_value := value; h_helper := helper; h_next_hash := nullptr; h_next := nullptr; h_prev := nullptr;
     h_total_charge := u64 (charge + CalcuMetaCharge malloc_usable_size new_addr (slen key) (metadata_charge_policy_ s));
     h_key := key; h_hash := hash; h_refs := 0; h_m_flags := 0; h_im_flags := 0 |}.

Lemma new_addr_ok : heap s !! new_addr = None /\ new_addr <> nullptr.
Proof.
  destruct (Hmalloc (dom (heap s))) as [Hnn Hf]. split; [|done]. by apply not_elem_of_dom.
Qed.

Lemma CreateHandle_ok {A} (k : ptr -> M A) Q :
  IsSecondaryCacheCompatible helper && (value =? nullptr) = false ->
  run (k new_addr) (set_heap (<[new_addr := fresh_handle]> (heap s)) s) Q ->
  run (CreateHandle malloc malloc_usable_size key hash value helper charge ≫= k) s Q.
Proof.
  intros Hv Hk. apply run_bind. unfold CreateHandle. apply run_assert; [by rewrite Hv|]. step. step. step. by apply run_ret.
Qed.

Lemma fresh_inv g : h_next (g fresh_handle) = nullptr -> h_prev (g fresh_handle) = nullptr ->
  0 <= h_total_charge (g fresh_handle) ->
  Inv0 (set_heap (<[new_addr := g fresh_handle]> (heap s)) s) held (new_addr :: limbo) B L H cs ext.
Proof. intros. by apply Inv0_alloc; try apply new_addr_ok. Qed.

Lemma fresh_refs g p : p ∈ limbo -> refs_at (<[new_addr := g fresh_handle]> (heap s)) p = 0.
Proof.
  intros Hp. unfold fget. rewrite lookup_insert_ne; [by apply Hlimbo|]. intros <-.
  destruct (limbo_cell _ _ _ _ _ _ _ _ HI _ Hp) as [h E]. rewrite (proj1 new_addr_ok) in E. done.
Qed.

Lemma fresh_get {A} (f : LRUHandle -> A) d h : fget f d (<[new_addr := h]> (heap s)) new_addr = f h.
Proof. unfold fget. by rewrite lookup_insert_eq. Qed.

Lemma alter_fresh g h : alter g new_addr (<[new_addr := h]> (heap s)) = <[new_addr := g h]> (heap s).
Proof. apply alter_insert_eq. Qed.

Lemma Insert_locked_ok want priority :
  IsSecondaryCacheCompatible helper && (value =? nullptr) = false -> is_u32 hash ->
  usage_ s + h_total_charge fresh_handle < 2 ^ 64 -> Z.of_nat (length held) + 1 < 2 ^ 32 ->
  Z.of_nat (length (concat cs)) + 1 < 2 ^ 32 ->
  run (Insert_locked malloc malloc_usable_size key hash value helper charge want priority) s (fun r s' =>
    item_inserted (set_heap (<[new_addr := SetInCache true (SetPriority priority fresh_handle)]> (heap s)) s)
      held limbo B L H cs new_addr want r s').
Proof.
  intros Hv Hh Hroom Hmany Hfew. unfold Insert_locked. apply CreateHandle_ok; [done|].
  apply run_upd; [members; by rewrite lookup_insert_eq|]. members. rewrite alter_fresh.
  apply run_upd; [members; by rewrite lookup_insert_eq|]. members. rewrite alter_fresh.
  set (g h := SetInCache true (SetPriority priority h)). change (SetInCache true (SetPriority priority fresh_handle)) with (g fresh_handle).
  set (s1 := set_heap _ (set_heap _ (set_heap _ s))).
  assert (s1 = set_heap (<[new_addr := g fresh_handle]> (heap s)) s) as -> by done.
  assert (Hg : h_next (g fresh_handle) = nullptr /\ h_prev (g fresh_handle) = nullptr /\
    h_total_charge (g fresh_handle) = h_total_charge fresh_handle /\ h_refs (g fresh_handle) = 0 /\
    h_hash (g fresh_handle) = hash /\ InCache (g fresh_handle) = true).
  { unfold g. repeat split; try (by destruct priority); by destruct priority. }
  destruct Hg as (G1 & G2 & G3 & G4 & G5 & G6).
  eapply InsertItem_locked_ok; members; try done.
  - apply fresh_inv; [done..|]. rewrite G3. simpl. unfold u64. apply Z.mod_pos_bound. lia.
  - apply (Sound_same s); done.
  - rewrite fresh_get. done.
  - intros p Hp. by apply fresh_refs.
  - rewrite fresh_get, G3. done.
  - by rewrite fresh_get.
  - by rewrite fresh_get, G5.
Qed.

(** The outcome of [CreateStandalone]: the handle is held by the caller but is
    no entry of the table. *)
Definition standing (allow_uncharged : bool) (r : ptr * list ptr) (s' : LRUCacheShard) : Prop :=
  let charge := h_total_charge fresh_handle in
  let ev := victims (heap s) (capacity_ s) (usage_ s) charge (B ++ L ++ H) in
  let over := capacity_ s <? usage_ s - charges (heap s) ev + charge in
  let refused := strict_capacity_limit_ s && over in
  r = (if refused && negb allow_uncharged then nullptr else new_addr, ev) /\ exists B' L' H' cs' ext',
    Inv0 s' (hold r.1 held) (ev ++ limbo) B' L' H' cs' ext' /\ Sound s' /\ roomy s' (B' ++ L' ++ H') /\ conf s' = conf s /\
    (forall p, p ∈ ev ++ limbo -> refs_at (heap s') p = 0) /\ (forall p, p ∈ concat cs' <-> p ∈ concat cs /\ p ∉ ev) /\
    usage_ s' = usage_ s - charges (heap s) ev + (if refused then 0 else charge).
End alloc.

(** The handle [e] is held without being an entry of the table. *)
Lemma Inv0_stand s held limbo B L H cs ext e : Inv0 s held (e :: limbo) B L H cs ext ->
  refs_at (heap s) e = 1 -> cached_at (heap s) e = false -> Z.of_nat (length held) + 1 < 2 ^ 32 ->
  usage_ s + charge_at (heap s) e < 2 ^ 64 ->
  Inv0 (set_usage_ (usage_ s + charge_at (heap s) e) s) (e :: held) limbo B L H cs (e :: ext).
Proof.
  intros HI Hr Hca Hmany Hroom.
  destruct (new_handle _ _ _ _ _ _ _ _ _ HI) as (HeT & HeE & HeP & Hnn & Hel & Heh).
  assert (Hn0 : nrefs e held = 0).
  { pose proof (nrefs_range e held). destruct (decide (0 < nrefs e held)) as [Hx%nrefs_pos|]; [done|lia]. }
  assert (Hperm : concat cs ++ ext ++ e :: limbo ≡ₚ concat cs ++ (e :: ext) ++ limbo) by by rewrite <- Permutation_middle.
  split; members.
  - apply Ring_usage, (i_ring _ _ _ _ _ _ _ _ HI).
  - apply Table_usage, (i_table _ _ _ _ _ _ _ _ HI).
  - intros p. rewrite <- Hperm. apply (i_cells _ _ _ _ _ _ _ _ HI).
  - rewrite <- Hperm. apply (i_nodup _ _ _ _ _ _ _ _ HI).
  - intros p. rewrite (i_evict _ _ _ _ _ _ _ _ HI), not_elem_of_cons. naive_solver.
  - intros p. rewrite elem_of_app, elem_of_cons. simpl. destruct (decide (p = e)) as [->|Hp]; [lia|]. intros Hx.
    rewrite (i_refs _ _ _ _ _ _ _ _ HI) by (rewrite elem_of_app; tauto). lia.
  - intros p. rewrite elem_of_app, !elem_of_cons. intros [->|Hp]; [auto|].
    apply (i_held _ _ _ _ _ _ _ _ HI), elem_of_app in Hp. tauto.
  - intros p. rewrite !elem_of_cons. intros [->|Hp]; [auto|]. right. by apply (i_ext _ _ _ _ _ _ _ _ HI).
  - apply (i_in _ _ _ _ _ _ _ _ HI).
  - intros p [->|Hp]%elem_of_cons; [done|]. by apply (i_out _ _ _ _ _ _ _ _ HI).
  - rewrite (charges_perm _ (concat cs ++ e :: ext) (e :: concat cs ++ ext)) by by rewrite <- Permutation_middle.
    cbn [charges]. rewrite (i_usage _ _ _ _ _ _ _ _ HI). lia.
  - done.
  - simpl length. lia.
Qed.

Lemma CreateStandalone_locked_ok malloc malloc_usable_size s held limbo B L H cs ext key hash value helper charge allow :
  malloc_fresh malloc -> Inv0 s held limbo B L H cs ext -> Sound s -> (forall p, p ∈ limbo -> refs_at (heap s) p = 0) ->
  IsSecondaryCacheCompatible helper && (value =? nullptr) = false ->
  usage_ s + h_total_charge (fresh_handle malloc malloc_usable_size s key hash value helper charge) < 2 ^ 64 ->
  Z.of_nat (length held) + 1 < 2 ^ 32 ->
  run (CreateStandalone_locked malloc malloc_usable_size key hash value helper charge allow) s
    (standing malloc malloc_usable_size s held limbo B L H cs key hash value helper charge allow).
Proof.
  intros Hm HI HS Hlimbo Hv Hroom Hmany. unfold CreateStandalone_locked. apply CreateHandle_ok; [done|].
  set (e := new_addr malloc s). set (h0 := fresh_handle _ _ s _ _ _ _ _). fold h0 in Hroom.
  apply run_upd; [members; by rewrite lookup_insert_eq|]. members. rewrite alter_insert_eq.
  apply run_upd; [members; by rewrite lookup_insert_eq|]. members. rewrite alter_insert_eq.
  set (g h := Ref (SetIsStandalone true h)). change (Ref (SetIsStandalone true h0)) with (g h0).
  set (s1 := set_heap _ _). assert (Es1 : s1 = set_heap (<[e := g h0]> (heap s)) s) by done.
  assert (Hc0 : 0 <= h_total_charge h0) by (simpl; unfold u64; apply Z.mod_pos_bound; lia).
  assert (HI1 : Inv0 s1 held (e :: limbo) B L H cs ext) by (rewrite Es1; by apply fresh_inv).
  assert (He1 : forall A (f : LRUHandle -> A) d, fget f d (heap s1) e = f (g h0)) by (intros; rewrite Es1; apply fresh_get).
  assert (Hoth : forall A (f : LRUHandle -> A) d p, p ∈ B ++ L ++ H ++ limbo -> fget f d (heap s1) p = fget f d (heap s) p).
  { intros A f d p Hp. rewrite Es1. unfold fget. members. rewrite lookup_insert_ne; [done|]. intros <-.
    destruct (new_addr_ok malloc Hm s) as [Hx _]. assert (Hin : is_Some (heap s !! e)); [|unfold e in Hin; rewrite Hx in Hin; by destruct Hin].
    rewrite !app_assoc in Hp. apply elem_of_app in Hp as [Hp|Hp]; [|by eapply limbo_cell].
    rewrite <- app_assoc in Hp. eapply entry_cell; [done|]. apply elem_of_app. left. by apply (i_evict _ _ _ _ _ _ _ _ HI). }
  assert (Hcell1 : is_Some (heap s1 !! e)) by (eapply limbo_cell; [done|left]).
  step_fld 0. rewrite He1. change (h_total_charge (g h0)) with (h_total_charge h0). change (usage_ s) with (usage_ s1) in Hroom.
  eapply run_seq; [by apply (EvictFromLRU_ok (h_total_charge h0) s1 held (e :: limbo) B L H cs ext)|].
  intros out s2 (B2 & L2 & H2 & cs2 & Eout & Hev & Hroomy).
  assert (Eout' : out = victims (heap s) (capacity_ s) (usage_ s) (h_total_charge h0) (B ++ L ++ H)).
  { rewrite Eout. apply victims_ext. intros p Hp. apply Hoth. rewrite !elem_of_app in Hp. rewrite ?elem_of_app. tauto. }
  assert (Ech : charges (heap s1) out = charges (heap s) out).
  { apply charges_ext. intros p Hp. apply Hoth. assert (Hx : p ∈ B ++ L ++ H).
    { rewrite (ev_out _ _ _ _ _ _ _ _ _ _ _ _ _ _ Hev), elem_of_app. auto. }
    rewrite !elem_of_app in Hx. rewrite ?elem_of_app. tauto. }
  assert (Heo : e ∉ out) by (apply (evicted_limbo _ _ _ _ _ _ _ _ _ _ _ _ _ _ HI1 Hev); left).
  pose proof (ev_core _ _ _ _ _ _ _ _ _ _ _ _ _ _ Hev e Heo) as Hcore2.
  destruct (core_fields _ _ e Hcore2) as (Hc2 & Hch2 & _ & _ & Hr2 & Hca2). rewrite He1 in Hch2, Hr2, Hca2.
  pose proof (evicted_inv _ _ _ _ _ _ _ _ _ _ _ _ _ _ Hev) as HI2.
  assert (HI2' : Inv0 s2 held (e :: out ++ limbo) B2 L2 H2 cs2 ext).
  { eapply Inv0_limbo_perm; [done|]. by rewrite <- Permutation_middle. }
  pose proof (ev_usage _ _ _ _ _ _ _ _ _ _ _ _ _ _ Hev) as Hus2. rewrite Ech in Hus2. change (usage_ s1) with (usage_ s) in Hus2.
  pose proof (ev_conf _ _ _ _ _ _ _ _ _ _ _ _ _ _ Hev) as Hconf2. change (conf s1) with (conf s) in Hconf2.
  assert (HS2 : Sound s2).
  { apply (evicted_sound _ _ _ _ _ _ _ _ _ _ _ _ _ _ HI1 Hev). by apply (Sound_same s). }
  assert (Hrefs2 : forall p, p ∈ out ++ limbo -> refs_at (heap s2) p = 0).
  { intros p Hp. apply (evicted_refs _ _ _ _ _ _ _ _ _ _ _ _ _ _ HI1 Hev).
    - rewrite elem_of_app in Hp. rewrite ?elem_of_app. rewrite elem_of_cons. tauto.
    - intros [->|Hl]%elem_of_cons.
      + exfalso. apply elem_of_app in Hp as [?|Hp]; [done|].
        destruct (new_handle _ _ _ _ _ _ _ _ _ HI1) as (_ & _ & ? & _). done.
      + rewrite Hoth by (rewrite !elem_of_app; tauto). auto. }
  assert (Hk : forall p, p ∈ concat cs2 <-> p ∈ concat cs /\ p ∉ out) by (intros p; apply (evicted_table _ _ _ _ _ _ _ _ _ _ _ _ _ _ Hev)).
  assert (Hu0 : 0 <= usage_ s2).
  { rewrite (i_usage _ _ _ _ _ _ _ _ HI2). apply charges_nonneg. apply (charges_all_ok _ _ _ _ _ _ _ _ HI2). }
  assert (Hce : 0 <= charges (heap s) out) by (apply charges_nonneg; apply (charges_all_ok _ _ _ _ _ _ _ _ HI)).
  change (usage_ s1) with (usage_ s) in Hroom.
  assert (Hroomy2 : roomy s2 (B2 ++ L2 ++ H2)) by (destruct Hroomy; [left; lia|by right]).
  injection Hconf2 as E1 E2 E3 E4 E5 E6 E7 E8. assert (Hconf2 : conf s2 = conf s) by (unfold conf; congruence).
  destruct (new_handle _ _ _ _ _ _ _ _ _ HI1) as (_ & _ & HeP & Hnn & _).
  assert (Hne : forall p, p ∈ out ++ limbo -> p <> e) by (intros p Hp ->; apply elem_of_app in Hp; tauto).
  do 3 step. rewrite E2, E3, u64_id by (unfold is_u64; lia). unfold standing. fold e h0. rewrite <- Eout', <- Hus2.
  assert (Hcell2 : is_Some (heap s2 !! e)) by by apply Hc2.
  destruct (strict_capacity_limit_ s && (capacity_ s <? usage_ s2 + h_total_charge h0)) eqn:Econd; cbn [andb].
  - destruct allow; cbn [negb].
    + step. apply run_ret. split; [done|]. exists B2, L2, H2, cs2, (e :: ext). cbn [fst].
      set (s3 := set_heap _ s2). assert (Hz : charge_at (heap s3) e = 0) by (unfold s3; members; by apply fget_set).
      assert (HI3 : Inv0 s3 held (e :: out ++ limbo) B2 L2 H2 cs2 ext) by (apply Inv0_private; [done|left|done]).
      split.
      * unfold hold. rewrite decide_False by done.
        assert (Es : s3 = set_usage_ (usage_ s3 + charge_at (heap s3) e) s3) by (rewrite Hz, Z.add_0_r; by destruct s3).
        rewrite Es. apply Inv0_stand; try done; unfold s3; members.
        -- by rewrite fget_keep.
        -- by rewrite fget_keep.
        -- rewrite fget_set with (v := 0) by done. pose proof (i_room _ _ _ _ _ _ _ _ HI2). lia.
      * split; [by apply (Sound_same s2)|]. split; [done|]. split; [done|]. split; [|split; [done|unfold s3; members; lia]].
        intros p Hp. unfold s3. members. rewrite fget_keep by done. auto.
    + apply run_bind. unfold free. destruct Hcell2 as [h2 Eh2].
      exists tt, (set_heap (delete e (heap s2)) s2). split; [by rewrite Eh2|]. apply run_ret. split; [done|].
      exists B2, L2, H2, cs2, ext. cbn [fst]. members. split.
      * apply Inv0_free with (e := e) in HI2'; [|left]. unfold hold. rewrite decide_True by done.
        rewrite del_cons, del_notin in HI2'; [done|]. intros Hx. by apply (Hne e Hx).
      * split; [by apply (Sound_same s2)|]. split; [done|]. split; [done|]. split; [|split; [done|lia]].
        intros p Hp. pose proof (Hne p Hp). unfold fget. rewrite lookup_delete_ne by done. by apply Hrefs2.
  - step. apply run_ret. split; [done|]. exists B2, L2, H2, cs2, (e :: ext). cbn [fst]. members.
    change (h_total_charge h0) with (h_total_charge (g h0)) in *. rewrite <- Hch2 in *.
    split; [unfold hold; rewrite decide_False by done; apply Inv0_stand; try done; lia|].
    split; [by apply (Sound_same s2)|]. split; [|done].
    unfold roomy. members. destruct Hroomy as [Hr|Hr]; [left; lia|by right].
Qed.
