(* ===== verification/LruSettings.v ===== *)
(** * Settings, bulk erasure and freeing

    The setters of a cache shard, [EraseUnRefEntries], and the freeing of the
    handles that an operation leaves behind, against the invariant of [LruInv];
    and that no operation changes the identity of a handle: its key, hash,
    value, deleter and charge. *)

From S2P Require Import Prelude Binary64 Slice LruCache LruRing LruTable LruInv LruOps LruInsert.
#[local] Set Warnings "-clear-no-such-hyp".

(** ** The state between operations *)

(** The shard as the clients see it: [held] are their references, and [limbo]
    are the handles that left the cache and are still to be freed. *)
Record Inv (s : LRUCacheShard) (held limbo B L H : list ptr) (cs : list (list ptr)) (ext : list ptr) : Prop := {
  inv0 : Inv0 s held limbo B L H cs ext;
  inv_sound : Sound s;
  inv_roomy : roomy s (B ++ L ++ H);
  inv_limbo : forall p, p ∈ limbo -> refs_at (heap s) p = 0
}.

(** Two shards whose members outside the settings agree. *)
Lemma Inv0_conf s s' held limbo B L H cs ext : Inv0 s held limbo B L H cs ext ->
  heap s' = heap s -> table_ s' = table_ s -> ring_members s' = ring_members s -> usage_ s' = usage_ s ->
  Inv0 s' held limbo B L H cs ext.
Proof.
  intros HI Hh Ht Hm Hu. eapply Inv0_limbo; [done|..]; rewrite ?Hh; try done.
  - intros p [Hp|Hp]; (split; [done|]; intros _; by eapply limbo_cell).
  - intros p Hp. by eapply limbo_apart.
  - by destruct (inv_parts _ _ _ _ _ _ _ _ HI) as (_ & _ & _ & _ & ? & _).
  - intros p Hp. destruct (limbo_links _ _ _ _ _ _ _ _ HI p Hp) as [E1 E2]. split; [done|]. split; [done|].
    apply (charges_all_ok _ _ _ _ _ _ _ _ HI).
Qed.

(** ** Setters *)

Section settings.
Context (s : LRUCacheShard) (held limbo B L H : list ptr) (cs : list (list ptr)) (ext : list ptr).
Hypothesis HI : Inv s held limbo B L H cs ext.

(** [SetCapacity] does not shrink the high priority pool, so if entries can be
    put into the low priority pool its new size must be respected already. *)
Lemma SetCapacity_locked_ok capacity :
  (dbl_ltb dbl_0 (low_pri_pool_ratio_ s) = true ->
   dbl_ltb (dbl_mul (dbl_of_size capacity) (high_pri_pool_ratio_ s)) (dbl_of_size (high_pri_pool_usage_ s)) = false) ->
  run (SetCapacity_locked capacity) s (fun out s' => exists B' L' H' cs',
    out = victims (heap s) capacity (usage_ s) 0 (B ++ L ++ H) /\ Inv s' held (out ++ limbo) B' L' H' cs' ext /\
    (forall p, p ∈ concat cs' <-> p ∈ concat cs /\ p ∉ out) /\ B ++ L ++ H = out ++ B' ++ L' ++ H' /\
    capacity_ s' = capacity /\ (usage_ s' <= capacity \/ B' ++ L' ++ H' = [])).
Proof.
  intros Hcap. unfold SetCapacity_locked. do 3 step. set (s1 := set_low_pri_pool_capacity_ _ _).
  assert (HI1 : Inv0 s1 held limbo B L H cs ext) by by eapply Inv0_conf; [apply HI|..].
  assert (HS1 : Sound s1).
  { destruct HI as [_ [] _ _]. split; try done; by apply dbl_mul_nonneg. }
  pose proof (i_room _ _ _ _ _ _ _ _ HI1).
  eapply run_mono; [apply (EvictFromLRU_ok 0 s1 held limbo B L H cs ext HI1); lia|].
  intros out s' (B' & L' & H' & cs' & -> & Hev & Hroomy). exists B', L', H', cs'. split; [done|].
  pose proof (ev_conf _ _ _ _ _ _ _ _ _ _ _ _ _ _ Hev) as Hconf. injection Hconf as _ Ec _ _ _ _ _ _.
  change (capacity_ s1) with capacity in *. rewrite Z.add_0_r in Hroomy. split; [|split; [|split; [|split; [done|]]]].
  - split; [exact (evicted_inv _ _ _ _ _ _ _ _ _ _ _ _ _ _ Hev)|exact (evicted_sound _ _ _ _ _ _ _ _ _ _ _ _ _ _ HI1 Hev HS1)|done|].
    intros p Hp. apply (evicted_refs _ _ _ _ _ _ _ _ _ _ _ _ _ _ HI1 Hev p Hp). apply (inv_limbo _ _ _ _ _ _ _ _ HI).
  - intros p. apply (evicted_table _ _ _ _ _ _ _ _ _ _ _ _ _ _ Hev).
  - apply (ev_out _ _ _ _ _ _ _ _ _ _ _ _ _ _ Hev).
  - by rewrite <- Ec.
Qed.

Lemma SetStrictCapacityLimit_ok strict :
  run (SetStrictCapacityLimit strict) s (fun _ s' => Inv s' held limbo B L H cs ext /\ heap s' = heap s).
Proof.
  apply run_modify_end. split; [|done]. destruct HI as [HI0 HS Hr Hl]. split; try done; [|by destruct HS].
  by eapply Inv0_conf.
Qed.

(** After a pool was resized, [MaintainPoolSize] moves entries to lower pools. *)
Lemma resized s1 : heap s1 = heap s -> table_ s1 = table_ s -> ring_members s1 = ring_members s -> usage_ s1 = usage_ s ->
  capacity_ s1 = capacity_ s -> dbl_nonneg (high_pri_pool_ratio_ s1) -> dbl_nonneg (low_pri_pool_ratio_ s1) ->
  dbl_nonneg (high_pri_pool_capacity_ s1) -> dbl_nonneg (low_pri_pool_capacity_ s1) ->
  run MaintainPoolSize s1 (fun _ s' => exists B' L' H', Inv s' held limbo B' L' H' cs ext /\
    B' ++ L' ++ H' = B ++ L ++ H /\ dbl_ltb (high_pri_pool_capacity_ s') (dbl_of_size (high_pri_pool_usage_ s')) = false /\
    dbl_ltb (low_pri_pool_capacity_ s') (dbl_of_size (low_pri_pool_usage_ s')) = false).
Proof.
  intros E1 E2 E3 E4 E5 Hhr Hlr Hhc Hlc. destruct HI as [HI0 HS Hroomy Hlimbo].
  assert (HI1 : Inv0 s1 held limbo B L H cs ext) by by eapply Inv0_conf.
  pose proof (i_ring _ _ _ _ _ _ _ _ HI1) as HR1.
  eapply run_mono; [by apply (MaintainPoolSize_ok s1 B L H (r_ring _ _ _ _ HR1) (r_low_pri _ _ _ _ HR1))|].
  intros _ s' (B' & L' & H' & Hm & R' & Hlow' & Hrest' & Hu').
  destruct (rest_core s1 s' Hrest') as (Hcore & _ & Hconf & Hus & _).
  pose proof (maintained_list _ _ _ _ _ _ _ Hm) as El. injection Hconf as _ Ec _ Ehr Ehc Elr Elc _.
  assert (HR' : Ring s' B' L' H').
  { split; [done..|]. rewrite Hu', El, (r_usage _ _ _ _ HR1). symmetry. apply charges_ext. intros p _. by apply charges_rest. }
  exists B', L', H'. split; [split|].
  - destruct HI1. split; try done; rewrite ?El, ?Hus; try done.
    + by eapply Table_ring.
    + intros p. rewrite <- i_cells. by destruct (core_fields _ _ p (Hcore p)) as (? & _).
    + intros p Hp. destruct (core_fields _ _ p (Hcore p)) as (_ & _ & _ & _ & -> & _). auto.
    + intros p Hp. destruct (core_fields _ _ p (Hcore p)) as (_ & _ & _ & _ & _ & ->). auto.
    + intros p Hp. destruct (core_fields _ _ p (Hcore p)) as (_ & _ & _ & _ & _ & ->). auto.
    + rewrite i_usage. symmetry. apply charges_ext. intros p _. by apply charges_rest.
  - split; rewrite ?Ehr, ?Ehc, ?Elr, ?Elc; try done. intros _. destruct Hm as (out & out' & Hsp & _).
    rewrite (r_high _ _ _ _ R'), (charges_ext (heap s1)) by (intros p _; by apply charges_rest).
    pose proof (spill_fits _ (heap s1) H Hhc) as Hs. by rewrite Hsp in Hs.
  - rewrite El. destruct Hroomy as [Hr|Hr]; [left|by right]. rewrite Hus, Ec. lia.
  - intros p Hp. destruct (core_fields _ _ p (Hcore p)) as (_ & _ & _ & _ & -> & _). rewrite E1. auto.
  - split; [exact El|]. destruct Hm as (out & out' & Hsp & _ & Hsp' & _).
    rewrite Ehc, Elc, (r_high _ _ _ _ R'), (r_low _ _ _ _ R'), !(charges_ext (heap s1) (heap s')) by (intros p _; by apply charges_rest).
    pose proof (spill_fits _ (heap s1) H Hhc) as Hs. pose proof (spill_fits _ (heap s1) (L ++ out) Hlc) as Hs'.
    by rewrite Hsp in Hs; rewrite Hsp' in Hs'.
Qed.

Lemma SetHighPriorityPoolRatio_ok ratio : dbl_nonneg ratio ->
  run (SetHighPriorityPoolRatio ratio) s (fun _ s' => exists B' L' H', Inv s' held limbo B' L' H' cs ext /\
    B' ++ L' ++ H' = B ++ L ++ H /\ dbl_ltb (high_pri_pool_capacity_ s') (dbl_of_size (high_pri_pool_usage_ s')) = false /\
    dbl_ltb (low_pri_pool_capacity_ s') (dbl_of_size (low_pri_pool_usage_ s')) = false).
Proof.
  intros Hr. unfold SetHighPriorityPoolRatio. apply run_modify, run_modify, resized; try done; members.
  - apply HI.
  - by apply dbl_mul_nonneg.
  - apply HI.
Qed.

Lemma SetLowPriorityPoolRatio_ok ratio : dbl_nonneg ratio ->
  run (SetLowPriorityPoolRatio ratio) s (fun _ s' => exists B' L' H', Inv s' held limbo B' L' H' cs ext /\
    B' ++ L' ++ H' = B ++ L ++ H /\ dbl_ltb (high_pri_pool_capacity_ s') (dbl_of_size (high_pri_pool_usage_ s')) = false /\
    dbl_ltb (low_pri_pool_capacity_ s') (dbl_of_size (low_pri_pool_usage_ s')) = false).
Proof.
  intros Hr. unfold SetLowPriorityPoolRatio. apply run_modify, run_modify, resized; try done; members.
  - apply HI.
  - apply HI.
  - by apply dbl_mul_nonneg.
Qed.

(** ** Bulk erasure *)

Lemma EraseUnRefEntries_locked_ok :
  run EraseUnRefEntries_locked s (fun out s' => out = B ++ L ++ H /\ exists cs',
    Inv s' held (out ++ limbo) [] [] [] cs' ext /\ conf s' = conf s /\ (forall p, p ∈ concat cs' <-> p ∈ concat cs /\ p ∈ held)).
Proof.
  destruct HI as [HI0 HS Hroomy Hlimbo]. unfold EraseUnRefEntries_locked. step.
  eapply run_mono; [apply (erase_loop_ok _ [] s held limbo B L H cs ext HI0); by eapply ring_length|].
  intros out s' (cs' & -> & Hev). simpl. split; [done|]. exists cs'. split; [split|split].
  - exact (evicted_inv _ _ _ _ _ _ _ _ _ _ _ _ _ _ Hev).
  - exact (evicted_sound _ _ _ _ _ _ _ _ _ _ _ _ _ _ HI0 Hev HS).
  - by right.
  - intros p Hp. apply (evicted_refs _ _ _ _ _ _ _ _ _ _ _ _ _ _ HI0 Hev p Hp). auto.
  - apply (ev_conf _ _ _ _ _ _ _ _ _ _ _ _ _ _ Hev).
  - intros p. rewrite (evicted_table _ _ _ _ _ _ _ _ _ _ _ _ _ _ Hev), (i_evict _ _ _ _ _ _ _ _ HI0).
    split; [|tauto]. intros [Hp Hn]. split; [done|]. destruct (decide (p ∈ held)); tauto.
Qed.

(** ** Freeing *)

(** The handle [p] is gone, and [ev] says what became of its object. *)
Definition freed (p : ptr) (ev : list Event) (s' : LRUCacheShard) : Prop :=
  Inv s' held (del p limbo) B L H cs ext /\ heap s' = delete p (heap s) /\
  deleter_calls s' = deleter_calls s ++ ev /\ set_deleter_calls [] (set_heap ∅ s') = set_deleter_calls [] (set_heap ∅ s).

Lemma free_ok p calls : p ∈ limbo ->
  freed p calls (set_heap (delete p (heap s)) (set_deleter_calls (deleter_calls s ++ calls) s)).
Proof.
  intros Hp. destruct HI as [HI0 HS Hroomy Hlimbo]. split; [|done].
  assert (HI1 : Inv0 (set_deleter_calls (deleter_calls s ++ calls) s) held limbo B L H cs ext) by by eapply Inv0_conf.
  split; [by apply (Inv0_free (set_deleter_calls _ s))|by destruct HS|done|].
  intros q [Hq Hin]%elem_of_del. members. unfold fget. rewrite lookup_delete_ne by done. by apply Hlimbo.
Qed.

(** What freeing [p] reports: its deleter is called if it has one. *)
Definition deletion (p : ptr) : list Event :=
  if fget (fun h => del_cb (h_helper h)) false (heap s) p then [Deleted (fget h_value 0 (heap s) p)] else [].

Lemma run_free {A} p (k : unit -> M A) s1 Q : is_Some (heap s1 !! p) ->
  run (k tt) (set_heap (delete p (heap s1)) s1) Q -> run (free p ≫= k) s1 Q.
Proof.
  intros [h E] Hk. apply run_bind. exists tt, (set_heap (delete p (heap s1)) s1). split; [|done]. unfold free. by rewrite E.
Qed.

Lemma Free_ok p : p ∈ limbo -> run (Free p) s (fun _ s' => freed p (deletion p) s').
Proof.
  intros Hp. destruct (limbo_cell _ _ _ _ _ _ _ _ (inv0 _ _ _ _ _ _ _ _ HI) p Hp) as [h E].
  assert (Hc : is_Some (heap s !! p)) by by rewrite E.
  pose proof (inv_limbo _ _ _ _ _ _ _ _ HI p Hp) as Hr. pose proof (free_ok p (deletion p) Hp) as Hfree.
  unfold Free. step_fld 0. rewrite Hr. apply run_assert; [done|].
  step_fld {| del_cb := false; IsSecondaryCacheCompatible := false |}. step_fld 0.
  assert (Ed : forall d, deletion p = (if del_cb (fget h_helper d (heap s) p) then [Deleted (fget h_value 0 (heap s) p)] else [])).
  { intros d. unfold deletion, fget. by rewrite E. }
  rewrite (Ed {| del_cb := false; IsSecondaryCacheCompatible := false |}) in *.
  destruct (del_cb _); cbn [when_].
  - apply run_modify. exists tt. eexists. split; [unfold free; members; by rewrite E|]. exact Hfree.
  - apply run_bind, run_ret. exists tt. eexists. split; [unfold free; by rewrite E|].
    rewrite app_nil_r in Hfree. by destruct s.
Qed.

(** What becomes of an evicted entry: the owner's callback may take its object. *)
Definition eviction (cb : option (bytes -> ptr -> bool -> bool)) (p : ptr) : list Event :=
  match cb with
  | Some f => if f (key_at (heap s) p) p (fget HasHit false (heap s) p) then [Taken (fget h_value 0 (heap s) p)] else deletion p
  | None => deletion p
  end.

Lemma notify_one_ok cb p : p ∈ limbo -> run (notify_one cb p) s (fun _ s' => freed p (eviction cb p) s').
Proof.
  intros Hp. destruct (limbo_cell _ _ _ _ _ _ _ _ (inv0 _ _ _ _ _ _ _ _ HI) p Hp) as [h E].
  assert (Hc : is_Some (heap s !! p)) by by rewrite E.
  unfold notify_one, eviction. step_fld (@nil byte). step_fld false. step_fld 0.
  destruct cb as [f|]; [|by apply Free_ok]. destruct (f _ _ _); [|by apply Free_ok].
  apply run_modify. exists tt. eexists. split; [unfold free; members; by rewrite E|]. by apply free_ok.
Qed.
End settings.

(** ** Identity of handles *)

(** What a handle is about, for a client that holds it. *)
Definition ident (h : LRUHandle) := (h_value h, h_helper h, h_key h, h_hash h).

(** The handles that exist after [m] existed before, with the same identity. *)
Definition keeps {A} (m : M A) : Prop := forall s a s' q h', m s = Some (a, s') -> heap s' !! q = Some h' ->
  exists h, heap s !! q = Some h /\ ident h' = ident h.

Lemma keeps_ret {A} (a : A) : keeps (mret a).
Proof. intros s b s' q h' E Hq. injection E as <- <-. eauto. Qed.

Lemma keeps_fail {A} : keeps (@fail A).
Proof. done. Qed.

Lemma keeps_bind {A B} (m : M A) (k : A -> M B) : keeps m -> (forall a, keeps (k a)) -> keeps (m ≫= k).
Proof.
  intros Hm Hk s b s' q h' E Hq. unfold mbind, M_bind in E. destruct (m s) as [[a s1]|] eqn:Em; [|done].
  destruct (Hk a _ _ _ _ _ E Hq) as (h1 & E1 & Ei). destruct (Hm _ _ _ _ _ Em E1) as (h & E0 & Ei0).
  exists h. split; [done|congruence].
Qed.

Lemma keeps_gets {A} (f : LRUCacheShard -> A) : keeps (gets f).
Proof. intros s b s' q h' E Hq. injection E as <- <-. eauto. Qed.

Lemma keeps_modify f : (forall s, heap (f s) = heap s) -> keeps (modify f).
Proof. intros Hf s b s' q h' E Hq. unfold modify in E. simplify_eq. rewrite Hf in Hq. eauto. Qed.

Lemma keeps_assert b : keeps (assert_ b).
Proof. destruct b; [apply keeps_ret|apply keeps_fail]. Qed.

Lemma keeps_when b m : keeps m -> keeps (when_ b m).
Proof. intros Hm. destruct b; [done|apply keeps_ret]. Qed.

Lemma keeps_if {A} (b : bool) (m1 m2 : M A) : keeps m1 -> keeps m2 -> keeps (if b then m1 else m2).
Proof. by destruct b. Qed.

Lemma keeps_fld {A} p (f : LRUHandle -> A) : keeps (fld p f).
Proof. intros s b s' q h' E Hq. unfold fld in E. destruct (heap s !! p); simplify_eq. eauto. Qed.

Lemma keeps_upd p g : (forall h, ident (g h) = ident h) -> keeps (upd p g).
Proof.
  intros Hg s b s' q h' E Hq. unfold upd in E. destruct (heap s !! p) as [h|] eqn:Ep; simplify_eq. members.
  destruct (decide (p = q)) as [->|Hp]; [|rewrite lookup_insert_ne in Hq by done; eauto].
  rewrite lookup_insert_eq in Hq. simplify_eq. eauto.
Qed.

Lemma keeps_free p : keeps (free p).
Proof.
  intros s b s' q h' E Hq. unfold free in E. destruct (heap s !! p) as [h|] eqn:Ep; simplify_eq. members.
  apply lookup_delete_Some in Hq as [_ Hq]. eauto.
Qed.

Lemma keeps_load sl : keeps (load_slot sl).
Proof.
  destruct sl; [|apply keeps_fld]. intros s b s' q h' E Hq. simpl in E.
  destruct (list_ (table_ s) !! _); simplify_eq. eauto.
Qed.

Lemma keeps_store sl p : keeps (store_slot sl p).
Proof.
  destruct sl; [|by apply keeps_upd]. intros s b s' q h' E Hq. simpl in E.
  destruct (list_ (table_ s) !! _); simplify_eq. eauto.
Qed.

Create HintDb keeps.
#[export] Hint Resolve keeps_ret keeps_fail keeps_gets keeps_assert keeps_fld keeps_free keeps_load keeps_store : keeps.

(** Walks through a computation. *)
Ltac keeping :=
  repeat first
    [ solve [auto with keeps nocore]
    | apply keeps_bind; [|intros ?]
    | apply keeps_if
    | apply keeps_when
    | apply keeps_modify; done
    | apply keeps_upd; intros ?; done
    | match goal with |- keeps (match ?x with _ => _ end) => destruct x end ].

Lemma keeps_find fuel key hash sl : keeps (find_loop fuel key hash sl).
Proof. revert sl. induction fuel as [|fuel IH]; intros sl; cbn [find_loop]; keeping. Qed.
#[export] Hint Resolve keeps_find : keeps.

Lemma keeps_Lookup key hash : keeps (Table_Lookup key hash).
Proof. unfold Table_Lookup, FindPointer. keeping. Qed.

Lemma keeps_Remove key hash : keeps (Table_Remove key hash).
Proof. unfold Table_Remove, FindPointer. keeping. Qed.

Lemma keeps_resize_chain fuel bits h l n : keeps (resize_chain fuel bits h l n).
Proof. revert h l n. induction fuel as [|fuel IH]; intros h l n; cbn [resize_chain]; keeping. Qed.
#[export] Hint Resolve keeps_resize_chain : keeps.

Lemma keeps_resize_loop n i bits l count : keeps (resize_loop n i bits l count).
Proof. revert i l count. induction n as [|n IH]; intros i l count; cbn [resize_loop]; keeping. Qed.
#[export] Hint Resolve keeps_Lookup keeps_Remove keeps_resize_loop : keeps.

Lemma keeps_Resize : keeps Resize.
Proof. unfold Resize. keeping. Qed.
#[export] Hint Resolve keeps_Resize : keeps.

Lemma keeps_Insert h : keeps (Table_Insert h).
Proof. unfold Table_Insert, FindPointer. keeping. Qed.

Lemma keeps_LRU_Remove e : keeps (LRU_Remove e).
Proof. unfold LRU_Remove. keeping. Qed.

Lemma keeps_overflow_high fuel : keeps (overflow_high fuel).
Proof. induction fuel as [|fuel IH]; cbn [overflow_high]; keeping. Qed.

Lemma keeps_overflow_low fuel : keeps (overflow_low fuel).
Proof. induction fuel as [|fuel IH]; cbn [overflow_low]; keeping. Qed.
#[export] Hint Resolve keeps_Insert keeps_LRU_Remove keeps_overflow_high keeps_overflow_low : keeps.

Lemma keeps_Maintain : keeps MaintainPoolSize.
Proof. unfold MaintainPoolSize. keeping. Qed.
#[export] Hint Resolve keeps_Maintain : keeps.

Lemma keeps_LRU_Insert e : keeps (LRU_Insert e).
Proof. unfold LRU_Insert, link. keeping. Qed.

Lemma keeps_evict_one e : keeps (evict_one e).
Proof. unfold evict_one. keeping. Qed.
#[export] Hint Resolve keeps_LRU_Insert keeps_evict_one : keeps.

Lemma keeps_evict_loop fuel charge l : keeps (evict_loop fuel charge l).
Proof. revert l. induction fuel as [|fuel IH]; intros l; cbn [evict_loop]; keeping. Qed.

Lemma keeps_erase_loop fuel l : keeps (erase_loop fuel l).
Proof. revert l. induction fuel as [|fuel IH]; intros l; cbn [erase_loop]; keeping. Qed.
#[export] Hint Resolve keeps_evict_loop keeps_erase_loop : keeps.

(** The operations, allocation aside. *)
Lemma keeps_InsertItem e want : keeps (InsertItem_locked e want).
Proof. unfold InsertItem_locked, EvictFromLRU. keeping. Qed.

Lemma keeps_ops key hash e erase capacity strict ratio cb :
  keeps (Lookup key hash) /\ keeps (Shard_Ref e) /\ keeps (Release_locked e erase) /\ keeps (Erase_locked key hash) /\
  keeps EraseUnRefEntries_locked /\ keeps (SetCapacity_locked capacity) /\ keeps (SetStrictCapacityLimit strict) /\
  keeps (SetHighPriorityPoolRatio ratio) /\ keeps (SetLowPriorityPoolRatio ratio) /\ keeps (Free e) /\ keeps (notify_one cb e).
Proof.
  unfold Lookup, Shard_Ref, Release_locked, Erase_locked, EraseUnRefEntries_locked, SetCapacity_locked, EvictFromLRU,
    SetStrictCapacityLimit, SetHighPriorityPoolRatio, SetLowPriorityPoolRatio, notify_one, Free.
  repeat match goal with |- _ /\ _ => split end; keeping.
Qed.
