(* ===== verification/LruRefine.v ===== *)
(** * The cache as a map that may forget

    The clients of a cache shard, their references and the handles still to be
    freed; which calls they may make; and what the shard promises them: it
    behaves like a map from keys to objects that may forget entries nobody
    holds, and never follows a dangling pointer, trips over an assertion, frees
    a handle twice or loses one. *)

From S2P Require Import Prelude Binary64 Slice LruCache LruRing LruTable LruInv LruOps LruInsert LruSettings.
#[local] Set Warnings "-clear-no-such-hyp".

(** ** Clients *)

(** Calls of the clients, and the frees that follow a critical section. Another
    thread may take the mutex in between, so these are steps of their own. *)
Inductive op :=
| OpInsert (key : bytes) (hash value : Z) (helper : CacheItemHelper) (charge : Z) (want : bool) (priority : Priority)
| OpStandalone (key : bytes) (hash value : Z) (helper : CacheItemHelper) (charge : Z) (allow_uncharged : bool)
| OpLookup (key : bytes) (hash : Z)
| OpRef (e : ptr)
| OpRelease (e : ptr) (erase_if_last_ref : bool)
| OpErase (key : bytes) (hash : Z)
| OpEraseUnRefEntries
| OpSetCapacity (capacity : Z)
| OpSetStrict (strict : bool)
| OpSetHighRatio (ratio : double)
| OpSetLowRatio (ratio : double)
| OpFree (e : ptr)
| OpNotify (e : ptr).

(** What a call reports, and the handles it leaves to be freed. *)
Record reply := {
  r_status : Status;
  r_flag : bool;
  r_handle : ptr;
  r_pending : list ptr
}.

Definition answer (st : Status) (flag : bool) (h : ptr) (pending : list ptr) : reply :=
  {| r_status := st; r_flag := flag; r_handle := h; r_pending := pending |}.

(** The shard, the references its clients hold, and the handles to be freed. *)
Record World := {
  shard : LRUCacheShard;
  refs : list ptr;
  pending : list ptr
}.

Fixpoint drop_one (p : ptr) (l : list ptr) : list ptr :=
  match l with
  | [] => []
  | q :: l => if decide (p = q) then l else q :: drop_one p l
  end.

Lemma drop_one_perm p l : p ∈ l -> l ≡ₚ p :: drop_one p l.
Proof.
  induction l as [|q l IH]; intros Hp; simpl; [by apply not_elem_of_nil in Hp|].
  destruct (decide (p = q)) as [->|Hn]; [done|]. apply elem_of_cons in Hp as [?|Hp]; [done|].
  rewrite (IH Hp) at 1. apply Permutation_swap.
Qed.

Section clients.
Context (malloc : gset ptr -> ptr) (malloc_usable_size : option (ptr -> Z -> Z)).
Context (eviction_callback_ : option (bytes -> ptr -> bool -> bool)).

Definition exec (o : op) : M reply :=
  match o with
  | OpInsert key hash value helper charge want priority =>
      r ← Insert_locked malloc malloc_usable_size key hash value helper charge want priority;
      let '(st, overwritten, h, out) := r in mret (answer st overwritten h out)
  | OpStandalone key hash value helper charge allow =>
      r ← CreateStandalone_locked malloc malloc_usable_size key hash value helper charge allow;
      let '(h, out) := r in mret (answer OK false h out)
  | OpLookup key hash => h ← Lookup key hash; mret (answer OK false h [])
  | OpRef e => b ← Shard_Ref e; mret (answer OK b nullptr [])
  | OpRelease e erase =>
      if e =? nullptr then mret (answer OK false nullptr [])
      else must_free ← Release_locked e erase; mret (answer OK must_free nullptr (if must_free : bool then [e] else []))
  | OpErase key hash =>
      r ← Erase_locked key hash;
      let '(e, last_reference) := r in mret (answer OK last_reference nullptr (if last_reference : bool then [e] else []))
  | OpEraseUnRefEntries => out ← EraseUnRefEntries_locked; mret (answer OK false nullptr out)
  | OpSetCapacity capacity => out ← SetCapacity_locked capacity; mret (answer OK false nullptr out)
  | OpSetStrict strict => _ ← SetStrictCapacityLimit strict; mret (answer OK false nullptr [])
  | OpSetHighRatio ratio => _ ← SetHighPriorityPoolRatio ratio; mret (answer OK false nullptr [])
  | OpSetLowRatio ratio => _ ← SetLowPriorityPoolRatio ratio; mret (answer OK false nullptr [])
  | OpFree e => _ ← Free e; mret (answer OK false nullptr [])
  | OpNotify e => _ ← notify_one eviction_callback_ e; mret (answer OK false nullptr [])
  end.

Definition refs_after (o : op) (r : reply) (held : list ptr) : list ptr :=
  match o with
  | OpRef e => e :: held
  | OpRelease e _ => if e =? nullptr then held else drop_one e held
  | _ => hold (r_handle r) held
  end.

Definition pending_after (o : op) (r : reply) (limbo : list ptr) : list ptr :=
  match o with
  | OpFree e | OpNotify e => del e limbo
  | _ => r_pending r ++ limbo
  end.

Definition result (w : World) (o : op) (r : reply) (s : LRUCacheShard) : World :=
  {| shard := s; refs := refs_after o r (refs w); pending := pending_after o r (pending w) |}.

(** The charge of a new handle. *)
Definition new_charge (s : LRUCacheShard) (key : bytes) (charge : Z) : Z :=
  u64 (charge + CalcuMetaCharge malloc_usable_size (new_addr malloc s) (slen key) (metadata_charge_policy_ s)).

(** There is room in the counters for one more reference, handle and entry. *)
Definition room (w : World) (key : bytes) (charge : Z) : Prop :=
  usage_ (shard w) + new_charge (shard w) key charge < 2 ^ 64 /\ Z.of_nat (length (refs w)) + 1 < 2 ^ 32 /\
  elems_ (table_ (shard w)) + 1 < 2 ^ 32.

(** The contract of the clients. *)
Definition legal (w : World) (o : op) : Prop :=
  match o with
  | OpInsert key hash value helper charge _ _ | OpStandalone key hash value helper charge _ =>
      IsSecondaryCacheCompatible helper && (value =? nullptr) = false /\ is_u32 hash /\ room w key charge
  | OpLookup _ hash => is_u32 hash /\ Z.of_nat (length (refs w)) + 1 < 2 ^ 32
  | OpRef e => e ∈ refs w /\ Z.of_nat (length (refs w)) + 1 < 2 ^ 32
  | OpRelease e _ => e = nullptr \/ e ∈ refs w
  | OpErase _ hash => is_u32 hash
  | OpSetCapacity capacity =>
      dbl_ltb dbl_0 (low_pri_pool_ratio_ (shard w)) = true ->
      dbl_ltb (dbl_mul (dbl_of_size capacity) (high_pri_pool_ratio_ (shard w)))
        (dbl_of_size (high_pri_pool_usage_ (shard w))) = false
  | OpSetHighRatio ratio | OpSetLowRatio ratio => dbl_nonneg ratio
  | OpFree e | OpNotify e => e ∈ pending w
  | OpEraseUnRefEntries | OpSetStrict _ => True
  end.

Inductive step (w : World) (o : op) (r : reply) : World -> Prop :=
| step_intro s : legal w o -> exec o (shard w) = Some (r, s) -> step w o r (result w o r s).

Inductive reachable : World -> Prop :=
| reachable_new capacity strict high_ratio low_ratio policy max_upper_hash_bits s :
    dbl_nonneg high_ratio -> dbl_nonneg low_ratio ->
    LRUCacheShard_make eviction_callback_ capacity strict high_ratio low_ratio policy max_upper_hash_bits = Some s ->
    reachable {| shard := s; refs := []; pending := [] |}
| reachable_step w o r w' : reachable w -> step w o r w' -> reachable w'.

(** ** The abstract map *)

(** A cache as its clients see it: the handle that a key is mapped to, the
    object of a handle, and the references held. *)
Record Cache := {
  content : bytes -> Z -> option ptr;
  object : ptr -> Z;
  holders : list ptr
}.

(** The abstraction of a shard: what a search of its table finds. *)
Definition content_of (s : LRUCacheShard) (key : bytes) (hash : Z) : option ptr :=
  match Table_Lookup key hash s with
  | Some (p, _) => if p =? nullptr then None else Some p
  | None => None
  end.

Definition abs (w : World) : Cache :=
  {| content := content_of (shard w); object := fget h_value 0 (heap (shard w)); holders := refs w |}.

(** [gone] are the handles whose entries disappear. *)
Definition forgets (a a' : Cache) (gone : ptr -> Prop) : Prop :=
  forall key hash p, is_u32 hash -> content a' key hash = Some p <-> content a key hash = Some p /\ ~ gone p.

Definition unheld (a : Cache) (l : list ptr) : Prop := forall p, p ∈ l -> p ∉ holders a.

(** Handles that can still be reached have the object they had, [new] aside. *)
Definition stable (a a' : Cache) (new : ptr -> Prop) : Prop :=
  forall p, (p ∈ holders a' \/ exists key hash, is_u32 hash /\ content a' key hash = Some p) -> ~ new p ->
    object a' p = object a p.

Definition fresh_in (a : Cache) (p : ptr) : Prop :=
  p <> nullptr /\ (p ∉ holders a) /\ forall key hash, is_u32 hash -> content a key hash <> Some p.

(** What each call may do. *)
Definition spec (a : Cache) (o : op) (r : reply) (a' : Cache) : Prop :=
  match o with
  | OpInsert key hash value _ _ want _ =>
      (* full: nothing is inserted, but unheld entries may have been evicted *)
      ((r_status r = MemoryLimit "Insert failed due to LRU cache being full." /\ want = true \/ r_status r = OK /\ want = false) /\ r_handle r = nullptr /\
       r_flag r = false /\ forgets a a' (fun p => p ∈ r_pending r) /\ unheld a (r_pending r) /\
       holders a' = holders a /\ stable a a' (fun _ => False)) \/
      (* the key is mapped to a new handle *)
      (r_status r = OK /\ exists p evicted, fresh_in a p /\ unheld a evicted /\ r_handle r = (if want then p else nullptr) /\
         holders a' = hold (r_handle r) (holders a) /\ object a' p = value /\ stable a a' (eq p) /\
         content a' key hash = Some p /\
         (r_flag r = true <-> exists old, content a key hash = Some old /\ old ∉ evicted) /\
         forall key' hash' q, is_u32 hash' -> (key', hash') <> (key, hash) ->
           content a' key' hash' = Some q <-> content a key' hash' = Some q /\ q ∉ evicted)
  | OpStandalone _ _ value _ _ allow =>
      forgets a a' (fun p => p ∈ r_pending r) /\ unheld a (r_pending r) /\ holders a' = hold (r_handle r) (holders a) /\
      stable a a' (eq (r_handle r)) /\
      (r_handle r = nullptr /\ allow = false \/ fresh_in a (r_handle r) /\ object a' (r_handle r) = value)
  | OpLookup key hash =>
      r_handle r = default nullptr (content a key hash) /\ forgets a a' (fun _ => False) /\
      holders a' = hold (r_handle r) (holders a) /\ stable a a' (fun _ => False)
  | OpRef e => forgets a a' (fun _ => False) /\ holders a' = e :: holders a /\ stable a a' (fun _ => False)
  | OpRelease e _ =>
      (r_flag r = true -> e ∉ holders a') /\ forgets a a' (fun p => r_flag r = true /\ p = e) /\
      holders a' = (if e =? nullptr then holders a else drop_one e (holders a)) /\ stable a a' (fun _ => False)
  | OpErase key hash =>
      content a' key hash = None /\ (forall key' hash' q, is_u32 hash' -> (key', hash') <> (key, hash) ->
        content a' key' hash' = Some q <-> content a key' hash' = Some q) /\
      holders a' = holders a /\ stable a a' (fun _ => False)
  | OpEraseUnRefEntries =>
      forgets a a' (fun p => p ∉ holders a) /\ holders a' = holders a /\ stable a a' (fun _ => False)
  | OpSetCapacity _ =>
      forgets a a' (fun p => p ∈ r_pending r) /\ unheld a (r_pending r) /\ holders a' = holders a /\
      stable a a' (fun _ => False)
  | OpSetStrict _ | OpSetHighRatio _ | OpSetLowRatio _ | OpFree _ | OpNotify _ =>
      forgets a a' (fun _ => False) /\ holders a' = holders a /\ stable a a' (fun _ => False)
  end.

(** ** The abstraction of a consistent shard *)

Definition consistent (w : World) : Prop :=
  exists B L H cs ext, Inv (shard w) (refs w) (pending w) B L H cs ext.

Lemma content_iff s cs key hash p : Table s cs -> is_u32 hash ->
  content_of s key hash = Some p <-> p ∈ concat cs /\ matches (heap s) key hash p.
Proof.
  intros HT Hh. unfold content_of. destruct (Table_Lookup_ok s cs key hash HT Hh) as (q & s' & -> & -> & Hq).
  destruct Hq as [[-> Hn]|[Hq Hm]].
  - cbn [Z.eqb nullptr]. split; [done|]. intros [Hp Hm]. exfalso. by apply (Hn p).
  - rewrite (proj2 (Z.eqb_neq q nullptr) (entry_not_null s cs HT q Hq)). split; [by intros [= ->]|].
    intros [Hp Hm']. f_equal. unfold matches in *. apply (t_keys _ _ HT); naive_solver congruence.
Qed.

Lemma content_none s cs key hash : Table s cs -> is_u32 hash ->
  content_of s key hash = None <-> not_in s key hash (concat cs).
Proof.
  intros HT Hh. split.
  - intros E p Hp Hm. assert (Hx : content_of s key hash = Some p) by by apply (content_iff s cs). congruence.
  - intros Hn. destruct (content_of s key hash) as [p|] eqn:E; [|done].
    apply (content_iff s cs) in E as [Hp Hm]; [|done..]. by destruct (Hn p Hp).
Qed.

(** The handles of [s'] that are not [new] existed in [s] with the same identity. *)
Definition same_ids (new : ptr -> Prop) (s s' : LRUCacheShard) : Prop :=
  forall q h', heap s' !! q = Some h' -> ~ new q -> exists h, heap s !! q = Some h /\ ident h' = ident h.

Lemma run_keeps {A} (m : M A) s (Q : A -> LRUCacheShard -> Prop) : keeps m -> run m s Q ->
  run m s (fun a s' => Q a s' /\ same_ids (fun _ => False) s s').
Proof. intros Hk (a & s' & E & HQ). exists a, s'. split; [done|]. split; [done|]. intros q h' Hq _. by eapply Hk. Qed.

Lemma same_ids_fields new s s' p : same_ids new s s' -> is_Some (heap s' !! p) -> ~ new p ->
  fget h_value 0 (heap s') p = fget h_value 0 (heap s) p /\ key_at (heap s') p = key_at (heap s) p /\
  hash_at (heap s') p = hash_at (heap s) p.
Proof.
  intros Hs [h' E'] Hn. destruct (Hs p h' E' Hn) as (h & E & Ei). unfold fget. rewrite E, E'.
  unfold ident in Ei. simplify_eq. done.
Qed.

Section simulation.
Context (w w' : World) (new : ptr -> Prop) (B L H : list ptr) (cs : list (list ptr)) (ext : list ptr).
Context (B' L' H' : list ptr) (cs' : list (list ptr)) (ext' : list ptr).
Hypothesis HI : Inv0 (shard w) (refs w) (pending w) B L H cs ext.
Hypothesis HI' : Inv0 (shard w') (refs w') (pending w') B' L' H' cs' ext'.
Hypothesis Hids : same_ids new (shard w) (shard w').

Lemma entry_matches p key hash : p ∈ concat cs' -> ~ new p ->
  matches (heap (shard w')) key hash p <-> matches (heap (shard w)) key hash p.
Proof.
  intros Hp Hn. destruct (same_ids_fields new _ _ p Hids) as (_ & E1 & E2); [|done|].
  - eapply entry_cell; [done|]. apply elem_of_app. auto.
  - unfold matches. by rewrite E1, E2.
Qed.

Lemma abs_forgets (gone : ptr -> Prop) :
  (forall p, p ∈ concat cs' <-> p ∈ concat cs /\ ~ gone p) -> (forall p, p ∈ concat cs' -> ~ new p) ->
  forgets (abs w) (abs w') gone.
Proof.
  intros Hcs Hnew key hash p Hh. cbn [content abs].
  rewrite (content_iff _ _ _ _ _ (i_table _ _ _ _ _ _ _ _ HI) Hh), (content_iff _ _ _ _ _ (i_table _ _ _ _ _ _ _ _ HI') Hh).
  split.
  - intros [Hp Hm]. rewrite entry_matches in Hm by auto. apply Hcs in Hp. tauto.
  - intros [[Hp Hm] Hg]. assert (Hp' : p ∈ concat cs') by (apply Hcs; auto). split; [done|]. by rewrite entry_matches by auto.
Qed.

Lemma abs_stable (new' : ptr -> Prop) : (forall p, new p -> new' p) -> stable (abs w) (abs w') new'.
Proof.
  intros Hn p Hlive Hp. cbn [abs object]. destruct (same_ids_fields new _ _ p Hids) as (-> & _); [|naive_solver|done].
  eapply entry_cell; [done|]. destruct Hlive as [Hh|(key & hash & Hh & Hc)].
  - by apply (i_held _ _ _ _ _ _ _ _ HI').
  - cbn [content abs] in Hc. apply (content_iff _ _ _ _ _ (i_table _ _ _ _ _ _ _ _ HI')) in Hc as [Hc _]; [|done].
    apply elem_of_app. auto.
Qed.
End simulation.

(** A new address is none that the clients know. *)
Lemma abs_fresh w B L H cs ext p : Inv0 (shard w) (refs w) (pending w) B L H cs ext ->
  heap (shard w) !! p = None -> p <> nullptr -> fresh_in (abs w) p.
Proof.
  intros HI Hn Hp. assert (Hno : p ∉ concat cs ++ ext).
  { intros Hx. destruct (entry_cell _ _ _ _ _ _ _ _ HI p Hx) as [h E]. congruence. }
  split; [done|]. split; [intros Hx; apply Hno; by apply (i_held _ _ _ _ _ _ _ _ HI)|].
  intros key hash Hh Hc. cbn [content abs] in Hc.
  apply (content_iff _ _ _ _ _ (i_table _ _ _ _ _ _ _ _ HI)) in Hc as [Hc _]; [|done]. apply Hno, elem_of_app. auto.
Qed.

(** ** Every call keeps its promise *)

Definition good (w : World) (o : op) (r : reply) (s : LRUCacheShard) : Prop :=
  consistent (result w o r s) /\ spec (abs w) o r (abs (result w o r s)).

Section calls.
Context (w : World) (B L H : list ptr) (cs : list (list ptr)) (ext : list ptr).
Hypothesis HI : Inv (shard w) (refs w) (pending w) B L H cs ext.
Let HI0 := inv0 _ _ _ _ _ _ _ _ HI.
Let s := shard w.

Lemma Lookup_good key hash : legal w (OpLookup key hash) -> run (exec (OpLookup key hash)) s (good w (OpLookup key hash)).
Proof.
  intros [Hh Hlen]. unfold exec.
  eapply run_seq; [apply run_keeps; [by apply (keeps_ops key hash 0 false 0 false dbl_0 None)|by apply (Lookup_ok s _ _ _ _ _ _ _ HI0)]|].
  intros p s' [(Hf & Hnull & Hsome) Hids]. apply run_ret. cbn [answer].
  assert (Hr : p = default nullptr (content_of s key hash)).
  { destruct Hf as [[-> Hn]|(Hnn & Hp & Hm)].
    - by rewrite (proj2 (content_none s cs key hash (i_table _ _ _ _ _ _ _ _ HI0) Hh) Hn).
    - by rewrite (proj2 (content_iff s cs key hash p (i_table _ _ _ _ _ _ _ _ HI0) Hh)). }
  set (o := OpLookup key hash). set (r := answer OK false p []).
  assert (Hc : exists B' L' H', Inv s' (refs_after o r (refs w)) (pending_after o r (pending w)) B' L' H' cs ext).
  { unfold refs_after, pending_after, o, r. cbn [answer r_handle r_pending app hold]. unfold hold. destruct (decide (p = nullptr)) as [Hp|Hp].
    - rewrite (Hnull Hp). by exists B, L, H.
    - destruct (Hsome Hp) as (HI' & _ & Hcore & Hconf & Hus). exists (del p B), (del p L), (del p H).
      split; [done|..].
      + eapply (Sound_sub s); [apply (inv_sound _ _ _ _ _ _ _ _ HI)|apply (i_ring _ _ _ _ _ _ _ _ HI0)|apply (i_ring _ _ _ _ _ _ _ _ HI')|apply del_sub| |done].
        intros q [Hq _]%elem_of_del. by destruct (core_fields _ _ q (Hcore q Hq)) as (_ & ? & _).
      + eapply (roomy_mono s); [apply (inv_roomy _ _ _ _ _ _ _ _ HI)|by injection Hconf|lia|].
        intros q. rewrite <- !del_app, elem_of_del. tauto.
      + intros q Hq. assert (q <> p) as Hqp.
        { intros ->. apply (limbo_apart _ _ _ _ _ _ _ _ HI' p Hq). do 2 right.
          apply (i_held _ _ _ _ _ _ _ _ HI'). left. }
        destruct (core_fields _ _ q (Hcore q Hqp)) as (_ & _ & _ & _ & -> & _). by apply (inv_limbo _ _ _ _ _ _ _ _ HI). }
  destruct Hc as (B' & L' & H' & HI'). split; [by exists B', L', H', cs, ext|].
  pose proof (inv0 _ _ _ _ _ _ _ _ HI') as HI0'. cbn [spec r_handle answer]. split; [done|].
  split; [|split; [done|]]; [eapply abs_forgets|eapply abs_stable]; try done; naive_solver.
Qed.

(** Handles in transit are not touched. *)
Lemma limbo_same s' held' limbo' B' L' H' cs' ext' e : Inv0 s' held' limbo' B' L' H' cs' ext' ->
  e ∈ concat cs' ++ ext' -> (forall q, q <> e -> same_cell core (heap s) (heap s') q) ->
  forall q, q ∈ limbo' -> q ∈ pending w -> refs_at (heap s') q = 0.
Proof.
  intros HI' He Hcore q Hq Hqw. assert (Hqe : q <> e).
  { intros ->. apply (limbo_apart _ _ _ _ _ _ _ _ HI' e Hq). by do 2 right. }
  destruct (core_fields _ _ q (Hcore q Hqe)) as (_ & _ & _ & _ & -> & _). by apply (inv_limbo _ _ _ _ _ _ _ _ HI).
Qed.

Lemma Ref_good e : legal w (OpRef e) -> run (exec (OpRef e)) s (good w (OpRef e)).
Proof.
  intros [He Hlen]. unfold exec.
  eapply run_seq; [apply run_keeps; [by apply (keeps_ops [] 0 e false 0 false dbl_0 None)|by apply (Shard_Ref_ok s _ _ _ _ _ _ _ HI0)]|].
  intros b s' [(-> & HI' & Hcore & Hconf & Hus & Hm) Hids]. apply run_ret.
  assert (HI2 : Inv s' (e :: refs w) (pending w) B L H cs ext).
  { split; [done|apply (Sound_same s); [apply (inv_sound _ _ _ _ _ _ _ _ HI)|done..]|..].
    - eapply (roomy_mono s); [apply (inv_roomy _ _ _ _ _ _ _ _ HI)|by injection Hconf|lia|done].
    - intros q Hq. eapply (limbo_same s'); [done| |done|done|done]. apply (i_held _ _ _ _ _ _ _ _ HI'). left. }
  split; [by exists B, L, H, cs, ext|]. cbn [spec].
  split; [|split; [done|]]; [eapply abs_forgets|eapply abs_stable]; try done; naive_solver.
Qed.

Lemma Release_good e erase : legal w (OpRelease e erase) -> run (exec (OpRelease e erase)) s (good w (OpRelease e erase)).
Proof.
  intros Hl. unfold exec. destruct (Z.eqb_spec e nullptr) as [->|Hnn].
  { apply run_ret. split; [by exists B, L, H, cs, ext|]. cbn [spec answer r_flag]. split; [done|].
    split; [intros k h p _; naive_solver|]. split; [done|]. intros p _ _. done. }
  destruct Hl as [?|He]; [done|]. pose proof (drop_one_perm e _ He) as Hperm.
  eapply run_seq.
  { apply run_keeps; [by apply (keeps_ops [] 0 e erase 0 false dbl_0 None)|].
    apply (Release_locked_ok s _ _ _ _ _ _ _ HI0 e (drop_one e (refs w)) Hperm (inv_sound _ _ _ _ _ _ _ _ HI) (inv_roomy _ _ _ _ _ _ _ _ HI)). }
  intros must s' [(B' & L' & H' & cs' & ext' & HI' & HS' & Hroomy' & Hconf & Hcore & Hr & Hcs & Hmust & _) Hids]. apply run_ret.
  assert (E1 : forall r, refs_after (OpRelease e erase) r (refs w) = drop_one e (refs w)).
  { intros r. cbn [refs_after]. by rewrite (proj2 (Z.eqb_neq e nullptr) Hnn). }
  assert (HI2 : Inv s' (drop_one e (refs w)) ((if must then [e] else []) ++ pending w) B' L' H' cs' ext').
  { split; [by destruct must|done|done|]. intros q Hq. destruct (decide (q = e)) as [->|Hqe].
    - destruct must; [auto|]. exfalso. apply (limbo_apart _ _ _ _ _ _ _ _ HI0 e Hq). do 2 right.
      by apply (i_held _ _ _ _ _ _ _ _ HI0).
    - destruct (core_fields _ _ q (Hcore q Hqe)) as (_ & _ & _ & _ & -> & _). apply (inv_limbo _ _ _ _ _ _ _ _ HI).
      destruct must; [|done]. by apply elem_of_cons in Hq as [?|?]. }
  split; [exists B', L', H', cs', ext'; cbn [shard refs pending result]; by rewrite E1|]. cbn [spec answer r_flag].
  cbn [holders abs refs result]. rewrite E1, (proj2 (Z.eqb_neq e nullptr) Hnn).
  split; [intros Hm; by apply Hmust|]. split; [|split; [done|]].
  - eapply abs_forgets; cbn [shard refs pending result]; rewrite ?E1; [done|apply HI2|done| |tauto].
    intros p. rewrite Hcs. destruct must; naive_solver.
  - eapply abs_stable; cbn [shard refs pending result]; rewrite ?E1; [apply HI2|done|tauto].
Qed.

Lemma Erase_good key hash : legal w (OpErase key hash) -> run (exec (OpErase key hash)) s (good w (OpErase key hash)).
Proof.
  intros Hh. cbn [legal] in Hh. unfold exec.
  eapply run_seq; [apply run_keeps; [by apply (keeps_ops key hash 0 false 0 false dbl_0 None)|by apply (Erase_locked_ok s _ _ _ _ _ _ _ HI0)]|].
  intros [e last] s' [(Hf & Hnull & Hsome) Hids]. cbn [fst snd] in *. apply run_ret.
  set (o := OpErase key hash). set (r := answer OK last nullptr (if last then [e] else [])).
  assert (Hc : exists B' L' H' cs' ext', Inv s' (refs w) (pending_after o r (pending w)) B' L' H' cs' ext' /\
    forall p, p ∈ concat cs' <-> p ∈ concat cs /\ p <> e).
  { destruct (decide (e = nullptr)) as [Hp|Hp].
    - destruct (Hnull Hp) as [-> ->]. exists B, L, H, cs, ext. split; [done|]. intros p.
      pose proof (entry_not_null s cs (i_table _ _ _ _ _ _ _ _ HI0) p). naive_solver congruence.
    - destruct (Hsome Hp) as (Hl & cs' & [HI' Hcs' Hcore Hent Hconf Hus]).
      assert (He : e ∈ concat cs) by (destruct Hf as [[? _]|(_ & ? & _)]; done).
      exists (del e B), (del e L), (del e H), cs', (if decide (e ∈ refs w) then e :: ext else ext).
      assert (Elimbo : pending_after o r (pending w) = if decide (e ∈ refs w) then pending w else e :: pending w).
      { unfold pending_after, o, r. cbn [answer r_pending]. rewrite Hl. repeat case_decide; try done; by rewrite ?bool_decide_true, ?bool_decide_false by tauto. }
      rewrite Elimbo. split; [split; [done|..]|].
      + eapply (Sound_sub s); [apply (inv_sound _ _ _ _ _ _ _ _ HI)|apply (i_ring _ _ _ _ _ _ _ _ HI0)|apply (i_ring _ _ _ _ _ _ _ _ HI')|apply del_sub| |done].
        intros q [Hq _]%elem_of_del. by destruct (core_fields _ _ q (Hcore q Hq)) as (_ & ? & _).
      + eapply (roomy_mono s); [apply (inv_roomy _ _ _ _ _ _ _ _ HI)|by injection Hconf| |].
        * rewrite Hus. pose proof (charges_all_ok _ _ _ _ _ _ _ _ HI0 e) as Hce. fold s in Hce. case_decide; lia.
        * intros q. rewrite <- !del_app, elem_of_del. tauto.
      + intros q Hq. destruct (decide (q = e)) as [->|Hqe].
        * assert (Hre : refs_at (heap s') e = refs_at (heap s) e).
          { unfold fget. destruct (heap s' !! e), (heap s !! e); simplify_eq/=; [|done]. unfold core in Hent. simplify_eq/=. done. }
          rewrite Hre. case_decide.
          -- apply (inv_limbo _ _ _ _ _ _ _ _ HI). done.
          -- eapply unheld_refs; [apply HI0|apply elem_of_app; auto|done].
        * destruct (core_fields _ _ q (Hcore q Hqe)) as (_ & _ & _ & _ & -> & _). apply (inv_limbo _ _ _ _ _ _ _ _ HI).
          case_decide; [done|]. by apply elem_of_cons in Hq as [?|?].
      + intros p. rewrite Hcs', elem_of_del. tauto. }
  destruct Hc as (B' & L' & H' & cs' & ext' & HI' & Hcs). pose proof (inv0 _ _ _ _ _ _ _ _ HI') as HI0'.
  set (w' := result w o r s').
  assert (Hfg : forgets (abs w) (abs w') (eq e)).
  { apply (abs_forgets w w' (fun _ => False) B L H cs ext B' L' H' cs' ext'); [done|done|done| |tauto]. intros p. rewrite Hcs. naive_solver. }
  split; [by exists B', L', H', cs', ext'|]. cbn [spec o]. split; [|split; [|split; [done|]]].
  - destruct (content (abs w') key hash) as [p|] eqn:E; [|done]. apply (Hfg key hash p Hh) in E as [E Hne].
    cbn [content abs] in E. apply (content_iff s cs) in E as [Hp Hm]; [|apply (i_table _ _ _ _ _ _ _ _ HI0)|done].
    destruct Hf as [[-> Hn]|Hf]; [by destruct (Hn p Hp)|]. exfalso. apply Hne.
    eapply found_unique; [apply (i_table _ _ _ _ _ _ _ _ HI0)|by right|right].
    split; [|done]. by eapply entry_not_null; [apply (i_table _ _ _ _ _ _ _ _ HI0)|].
  - intros key' hash' q Hh' Hne. etransitivity; [exact (Hfg key' hash' q Hh')|]. split; [tauto|]. intros E. split; [done|]. intros <-.
    apply Hne. cbn [content abs] in E. apply (content_iff s cs) in E as [Hp [Hm1 Hm2]]; [|apply (i_table _ _ _ _ _ _ _ _ HI0)|done].
    destruct Hf as [[-> Hn]|(_ & _ & [Hm3 Hm4])]; [by apply (entry_not_null s cs (i_table _ _ _ _ _ _ _ _ HI0)) in Hp|]. congruence.
  - by eapply abs_stable.
Qed.

Lemma EraseUnRef_good : run (exec OpEraseUnRefEntries) s (good w OpEraseUnRefEntries).
Proof.
  unfold exec. eapply run_seq; [apply run_keeps; [by apply (keeps_ops [] 0 0 false 0 false dbl_0 None)|by apply (EraseUnRefEntries_locked_ok s _ _ _ _ _ _ _ HI)]|].
  intros out s' [(-> & cs' & HI' & Hconf & Hcs) Hids]. apply run_ret. split; [by exists [], [], [], cs', ext|].
  pose proof (inv0 _ _ _ _ _ _ _ _ HI') as HI0'. cbn [spec]. split; [|split; [done|]].
  - eapply abs_forgets; [done|done|done| |tauto]. intros p. rewrite Hcs. cbn [holders abs].
    destruct (decide (p ∈ refs w)); tauto.
  - by eapply abs_stable.
Qed.

Lemma SetCapacity_good capacity : legal w (OpSetCapacity capacity) ->
  run (exec (OpSetCapacity capacity)) s (good w (OpSetCapacity capacity)).
Proof.
  intros Hl. unfold exec. eapply run_seq.
  { apply run_keeps; [by apply (keeps_ops [] 0 0 false capacity false dbl_0 None)|by apply (SetCapacity_locked_ok s _ _ _ _ _ _ _ HI)]. }
  intros out s' [(B' & L' & H' & cs' & _ & HI' & Hcs & Hout & _) Hids]. apply run_ret. split; [by exists B', L', H', cs', ext|].
  pose proof (inv0 _ _ _ _ _ _ _ _ HI') as HI0'. cbn [spec]. split; [|split; [|split; [done|]]].
  - eapply abs_forgets; [done|done|done|done|tauto].
  - intros p Hp. cbn [answer r_pending] in Hp. apply (i_evict _ _ _ _ _ _ _ _ HI0). rewrite Hout. apply elem_of_app. auto.
  - by eapply abs_stable.
Qed.

(** Calls that change neither the entries nor the references. *)
Lemma quiet_good o s' B' L' H' cs' : (forall r, refs_after o r (refs w) = hold (r_handle r) (refs w)) ->
  Inv s' (refs w) (pending_after o (answer OK false nullptr []) (pending w)) B' L' H' cs' ext ->
  same_ids (fun _ => False) s s' -> concat cs' = concat cs ->
  (forall r a', spec (abs w) o r a' <-> forgets (abs w) a' (fun _ => False) /\ holders a' = holders (abs w) /\ stable (abs w) a' (fun _ => False)) ->
  good w o (answer OK false nullptr []) s'.
Proof.
  intros Hrefs HI' Hids Hcs Hspec. assert (E : refs (result w o (answer OK false nullptr []) s') = refs w) by apply Hrefs.
  assert (HI2 : Inv s' (refs (result w o (answer OK false nullptr []) s')) (pending (result w o (answer OK false nullptr []) s')) B' L' H' cs' ext)
    by by rewrite E.
  pose proof (inv0 _ _ _ _ _ _ _ _ HI2) as HI0'.
  split; [by exists B', L', H', cs', ext|]. apply Hspec. split; [|split; [done|by eapply abs_stable]].
  eapply abs_forgets; [done|done|done| |tauto]. intros p. rewrite Hcs. tauto.
Qed.

Lemma settings_good o : legal w o ->
  match o with OpSetStrict _ | OpSetHighRatio _ | OpSetLowRatio _ => True | _ => False end -> run (exec o) s (good w o).
Proof.
  intros Hl Ho. destruct o; try done; unfold exec.
  - eapply run_seq; [apply run_keeps; [by apply (keeps_ops [] 0 0 false 0 strict dbl_0 None)|by apply (SetStrictCapacityLimit_ok s _ _ _ _ _ _ _ HI)]|].
    intros _ s' [[HI' _] Hids]. apply run_ret. by eapply quiet_good.
  - eapply run_seq; [apply run_keeps; [by apply (keeps_ops [] 0 0 false 0 false ratio None)|by apply (SetHighPriorityPoolRatio_ok s _ _ _ _ _ _ _ HI)]|].
    intros _ s' [(B' & L' & H' & HI' & _) Hids]. apply run_ret. by eapply quiet_good.
  - eapply run_seq; [apply run_keeps; [by apply (keeps_ops [] 0 0 false 0 false ratio None)|by apply (SetLowPriorityPoolRatio_ok s _ _ _ _ _ _ _ HI)]|].
    intros _ s' [(B' & L' & H' & HI' & _) Hids]. apply run_ret. by eapply quiet_good.
Qed.

Lemma free_good o : legal w o -> match o with OpFree _ | OpNotify _ => True | _ => False end -> run (exec o) s (good w o).
Proof.
  intros Hl Ho. destruct o; try done; unfold exec.
  - eapply run_seq; [apply run_keeps; [by apply (keeps_ops [] 0 e false 0 false dbl_0 None)|by apply (Free_ok s _ _ _ _ _ _ _ HI)]|].
    intros _ s' [[HI' _] Hids]. apply run_ret. by eapply quiet_good.
  - eapply run_seq; [apply run_keeps; [by apply (keeps_ops [] 0 e false 0 false dbl_0 eviction_callback_)|by apply (notify_one_ok s _ _ _ _ _ _ _ HI)]|].
    intros _ s' [[HI' _] Hids]. apply run_ret. by eapply quiet_good.
Qed.

(** Allocating calls, run to their end. *)
Definition with_new (key : bytes) (hash value : Z) (helper : CacheItemHelper) (charge : Z) : LRUCacheShard :=
  set_heap (<[new_addr malloc s := fresh_handle malloc malloc_usable_size s key hash value helper charge]> (heap s)) s.

Lemma alloc_ids {A} key hash value helper charge (k : ptr -> M A) r s' : (forall e, keeps (k e)) ->
  (CreateHandle malloc malloc_usable_size key hash value helper charge ≫= k) s = Some (r, s') ->
  same_ids (fun _ => False) (with_new key hash value helper charge) s'.
Proof.
  intros Hk E q h' Hq _. unfold mbind, M_bind in E. destruct (CreateHandle _ _ _ _ _ _ _ s) as [[e s1]|] eqn:Ec; [|done].
  assert (s1 = with_new key hash value helper charge) as ->.
  { unfold CreateHandle, assert_ in Ec. destruct (negb _); [|done]. unfold mbind, M_bind, mret, M_ret, gets, modify in Ec. by simplify_eq. }
  by eapply Hk.
Qed.

Lemma with_new_ids key hash value helper charge s' : same_ids (fun _ => False) (with_new key hash value helper charge) s' ->
  same_ids (eq (new_addr malloc s)) s s' /\
  (is_Some (heap s' !! new_addr malloc s) -> fget h_value 0 (heap s') (new_addr malloc s) = value /\
     key_at (heap s') (new_addr malloc s) = key /\ hash_at (heap s') (new_addr malloc s) = hash).
Proof.
  intros Hids. split.
  - intros q h' Hq Hn. destruct (Hids q h' Hq ltac:(tauto)) as (h & E & Ei). exists h. split; [|done].
    unfold with_new in E. members. by rewrite lookup_insert_ne in E by done.
  - intros Hc. destruct (same_ids_fields _ _ _ _ Hids Hc ltac:(tauto)) as (-> & -> & ->).
    unfold with_new, fget. members. by rewrite lookup_insert_eq.
Qed.

Hypothesis Hmalloc : malloc_fresh malloc.

(** The limits that the counters need, from those the clients can see. *)
Lemma room_facts key charge : room w key charge -> usage_ s + new_charge s key charge < 2 ^ 64 /\
  Z.of_nat (length (refs w)) + 1 < 2 ^ 32 /\ Z.of_nat (length (concat cs)) + 1 < 2 ^ 32.
Proof.
  intros (H1 & H2 & H3). split; [done|]. split; [done|]. by rewrite (t_elems _ _ (i_table _ _ _ _ _ _ _ _ HI0)) in H3.
Qed.

(** The entries evicted to make room. *)
Lemma victims_unheld charge p : p ∈ victims (heap s) (capacity_ s) (usage_ s) charge (B ++ L ++ H) -> p ∈ concat cs /\ p ∉ refs w.
Proof.
  intros Hp. apply (i_evict _ _ _ _ _ _ _ _ HI0). revert Hp. generalize (usage_ s). generalize (B ++ L ++ H). clear.
  intros l. induction l as [|e l IH]; intros u; simpl; destruct (_ <? _); intros Hp; try by apply not_elem_of_nil in Hp.
  apply elem_of_cons in Hp as [->|Hp]; [left|right; eauto].
Qed.

Lemma Standalone_good key hash value helper charge allow : legal w (OpStandalone key hash value helper charge allow) ->
  run (exec (OpStandalone key hash value helper charge allow)) s (good w (OpStandalone key hash value helper charge allow)).
Proof.
  intros (Hv & Hh & Hroom). destruct (room_facts _ _ Hroom) as (Hr1 & Hr2 & Hr3).
  set (e := new_addr malloc s).
  destruct (CreateStandalone_locked_ok malloc malloc_usable_size s _ _ B L H cs ext key hash value helper charge allow
    Hmalloc HI0 (inv_sound _ _ _ _ _ _ _ _ HI) (inv_limbo _ _ _ _ _ _ _ _ HI) Hv Hr1 Hr2) as ([h out] & s' & Hrun & Hst).
  unfold exec. apply run_bind. exists (h, out), s'. split; [done|].
  assert (Hids : same_ids (fun _ => False) (with_new key hash value helper charge) s').
  { eapply alloc_ids; [|exact Hrun]. intros e'. unfold EvictFromLRU. keeping. }
  destruct (with_new_ids _ _ _ _ _ _ Hids) as [Hid Hnew]. fold e in Hid, Hnew.
  unfold standing in Hst. set (ev := victims _ _ _ _ _) in Hst. destruct Hst as ([= Eh ->] & B' & L' & H' & cs' & ext' & HI' & HS' & Hroomy' & Hconf & Hrefs & Hcs & Hus).
  cbn [fst] in HI'. apply run_ret. set (o := OpStandalone key hash value helper charge allow). set (w' := result w o (answer OK false h ev) s').
  destruct (new_addr_ok malloc Hmalloc s) as [Hfree Hnn]. fold e in Hfree, Hnn, Eh.
  assert (Hnot : forall p, p ∈ concat cs' -> e <> p).
  { intros p Hp <-. apply Hcs in Hp as [Hp _]. destruct (entry_cell _ _ _ _ _ _ _ _ HI0 e) as [x Ex]; [apply elem_of_app; auto|].
    fold s in Ex. congruence. }
  assert (Hhe : h = nullptr /\ allow = false \/ h = e).
  { rewrite Eh. destruct allow; [cbn [negb]; rewrite andb_false_r; by right|]. destruct (_ && negb false); auto. }
  assert (HI2 : Inv s' (refs w') (pending w') B' L' H' cs' ext') by by split.
  split; [by exists B', L', H', cs', ext'|]. cbn [spec o answer r_pending r_handle].
  split; [|split; [|split; [done|split]]].
  - apply (abs_forgets w w' (eq e) B L H cs ext B' L' H' cs' ext'); try done; apply HI2.
  - intros p Hp. by apply victims_unheld in Hp as [_ ?].
  - destruct Hhe as [[-> _]| ->]; [|by eapply abs_stable; [apply HI2|done|done]].
    intros p Hl Hn. eapply (abs_stable w w' (eq e)); [apply HI2|done| |done|]; [intros ? Hx; exact Hx|].
    intros ->. destruct Hl as [Hl|(k & hh & Hk & Hl)].
    + cbn [holders abs w' result refs refs_after o r_handle answer hold] in Hl. unfold hold in Hl. rewrite decide_True in Hl by done.
      apply (i_held _ _ _ _ _ _ _ _ HI0) in Hl. destruct (entry_cell _ _ _ _ _ _ _ _ HI0 p Hl) as [x Ex]. fold s in Ex. congruence.
    + cbn [content abs w' result shard] in Hl. apply (content_iff s' cs') in Hl as [Hl _]; [by apply (Hnot p)| |done].
      apply (i_table _ _ _ _ _ _ _ _ (inv0 _ _ _ _ _ _ _ _ HI2)).
  - destruct Hhe as [[-> ->]| ->]; [by left|]. right. split; [by eapply abs_fresh|].
    cbn [object abs w' result shard]. apply Hnew. eapply entry_cell; [apply HI2|]. apply (i_held _ _ _ _ _ _ _ _ (inv0 _ _ _ _ _ _ _ _ HI2)).
    cbn [w' result refs refs_after o r_handle answer]. unfold hold. rewrite decide_False by done. left.
Qed.

Lemma Insert_good key hash value helper charge want priority : legal w (OpInsert key hash value helper charge want priority) ->
  run (exec (OpInsert key hash value helper charge want priority)) s (good w (OpInsert key hash value helper charge want priority)).
Proof.
  intros (Hv & Hh & Hroom). destruct (room_facts _ _ Hroom) as (Hr1 & Hr2 & Hr3).
  set (e := new_addr malloc s).
  destruct (Insert_locked_ok malloc malloc_usable_size Hmalloc s _ _ B L H cs ext HI0 (inv_sound _ _ _ _ _ _ _ _ HI) (inv_limbo _ _ _ _ _ _ _ _ HI)
    key hash value helper charge want priority Hv Hh Hr1 Hr2 Hr3) as ([[[st ow] h] out] & s' & Hrun & Hst).
  unfold exec. apply run_bind. exists (st, ow, h, out), s'. split; [done|].
  assert (Hids : same_ids (fun _ => False) (with_new key hash value helper charge) s').
  { eapply alloc_ids; [|exact Hrun]. intros e'. destruct priority; keeping; apply keeps_InsertItem. }
  destruct (with_new_ids _ _ _ _ _ _ Hids) as [Hid Hnew]. fold e in Hid, Hnew. fold e in Hst. set (h0 := SetInCache _ _) in Hst.
  destruct (new_addr_ok malloc Hmalloc s) as [Hfree Hnn]. fold e in Hfree, Hnn.
  assert (Hknown : forall p, p ∈ concat cs ++ ext -> p <> e).
  { intros p Hp ->. destruct (entry_cell _ _ _ _ _ _ _ _ HI0 e Hp) as [x Ex]. fold s in Ex. congruence. }
  assert (Hknown' : forall p, p ∈ B ++ L ++ H -> p <> e).
  { intros p Hp. apply Hknown. apply (i_evict _ _ _ _ _ _ _ _ HI0) in Hp as [Hp _]. apply elem_of_app. auto. }
  cbn [item_inserted] in Hst. destruct Hst as (B' & L' & H' & cs' & ext' & HI' & HS' & Hroomy' & Hconf & Hrefs & Hcase).
  unfold kept in Hcase. set (s1 := set_heap _ s) in *. set (c := charge_at (heap s1) e) in *.
  assert (Eev : victims (heap s1) (capacity_ s1) (usage_ s1) c (B ++ L ++ H) = victims (heap s) (capacity_ s) (usage_ s) c (B ++ L ++ H)).
  { apply victims_ext. intros p Hp. unfold s1, fget. members. by rewrite lookup_insert_ne by (symmetry; auto). }
  rewrite Eev in Hcase. set (ev := victims _ _ _ _ _) in Hcase.
  assert (Hev : forall p, p ∈ ev -> p ∈ concat cs /\ p ∉ refs w) by (intros p; apply victims_unheld).
  apply run_ret. set (o := OpInsert key hash value helper charge want priority). set (w' := result w o (answer st ow h out) s').
  assert (HI2 : Inv s' (refs w') (pending w') B' L' H' cs' ext') by by split.
  assert (HI2' := inv0 _ _ _ _ _ _ _ _ HI2). assert (HTab := i_table _ _ _ _ _ _ _ _ HI2').
  split; [by exists B', L', H', cs', ext'|]. cbn [spec o answer r_pending r_handle r_status r_flag].
  assert (Hnolive : h = nullptr -> (forall p, p ∈ concat cs' <-> p ∈ concat cs /\ p ∉ ev) ->
    (out = ev \/ out = ev ++ [e]) -> forgets (abs w) (abs w') (fun p => p ∈ out) /\ unheld (abs w) out /\
    holders (abs w') = holders (abs w) /\ stable (abs w) (abs w') (fun _ => False)).
  { intros Eh Hcs Hout. assert (Hin : forall p, p ∈ concat cs' -> e <> p).
    { intros p [Hp _]%Hcs <-. apply (Hknown e); [apply elem_of_app; auto|done]. }
    assert (Hh' : holders (abs w') = holders (abs w)).
    { cbn [holders abs w' result refs refs_after o r_handle answer]. rewrite Eh. done. }
    split; [|split; [|split; [done|]]].
    - apply (abs_forgets w w' (eq e) B L H cs ext B' L' H' cs' ext'); try done. intros p. rewrite Hcs.
      destruct Hout as [->| ->]; [done|]. rewrite elem_of_app, list_elem_of_singleton.
      split; [|tauto]. intros [Hp Hn]. split; [done|]. intros [?| ->]; [done|]. apply (Hknown e); [apply elem_of_app; auto|done].
    - intros p Hp. assert (Hpe : p ∈ ev \/ p = e).
      { destruct Hout as [->| ->]; [auto|]. apply elem_of_app in Hp as [?|?%list_elem_of_singleton]; auto. }
      destruct Hpe as [?%Hev| ->]; [tauto|]. intros Hx. apply (Hknown e); [by apply (i_held _ _ _ _ _ _ _ _ HI0)|done].
    - intros p Hl Hn. eapply (abs_stable w w' (eq e)); [done|done| |done|]; [intros ? Hx; exact Hx|].
      intros ->. destruct Hl as [Hl|(k & hh & Hk & Hl)].
      + rewrite Hh' in Hl. apply (Hknown p); [by apply (i_held _ _ _ _ _ _ _ _ HI0)|done].
      + cbn [content abs w' result shard] in Hl. apply (content_iff s' cs') in Hl as [Hl _]; [by apply (Hin p)|done|done]. }
  destruct Hcase as [(_ & Hs & -> & -> & -> & -> & -> & Hcs)|[(_ & -> & -> & -> & -> & -> & Hcs)|(_ & old & cs1 & -> & -> & Eh & -> & Hcs1 & Hfound & Hcs)]].
  - left. destruct (Hnolive eq_refl Hcs ltac:(auto)) as (K1 & K2 & K3 & K4). split; [by left|]. do 4 (split; [done|]). done.
  - left. destruct (Hnolive eq_refl Hcs ltac:(auto)) as (K1 & K2 & K3 & K4). split; [by right|]. do 4 (split; [done|]). done.
  - right. split; [done|]. exists e, ev. split; [by eapply abs_fresh|]. split; [intros p Hp; by apply Hev in Hp as [_ ?]|].
    split; [done|]. split; [done|].
    assert (He' : e ∈ concat cs') by (apply Hcs; auto).
    assert (Hc' : is_Some (heap s' !! e)) by (eapply entry_cell; [apply HI2|apply elem_of_app; auto]).
    destruct (Hnew Hc') as (Nv & Nk & Nh).
    split; [exact Nv|]. split; [by eapply abs_stable|].
    assert (Eold : forall p, p ∈ concat cs1 -> matches (heap s1) (key_at (heap s1) e) (hash_at (heap s1) e) p <-> matches (heap s) key hash p).
    { intros p Hp. assert (Hpe : p <> e) by (apply Hknown, elem_of_app; left; by apply Hcs1 in Hp as [? _]).
      unfold matches, s1, fget. members. rewrite lookup_insert_eq, lookup_insert_ne by done. by destruct priority. }
    assert (Hfound' : old = nullptr /\ (forall p, p ∈ concat cs1 -> ~ matches (heap s) key hash p) \/
      old <> nullptr /\ old ∈ concat cs1 /\ matches (heap s) key hash old).
    { destruct Hfound as [[-> Hn]|(Hon & Hin & Hm)]; [left|right].
      - split; [done|]. intros p Hp Hm. apply (Hn p Hp). by apply Eold.
      - split; [done|]. split; [done|]. by apply Eold. }
    assert (Huniq : forall p, content (abs w) key hash = Some p -> p ∉ ev -> p = old).
    { intros p Hc Hp. cbn [content abs] in Hc. pose proof (i_table _ _ _ _ _ _ _ _ HI0) as HT. fold s in HT.
      apply (content_iff s cs) in Hc as [Hin Hm]; [|done|done].
      destruct Hfound' as [[-> Hn]|(_ & Hin' & Hm')].
      - exfalso. apply (Hn p); [|done]. by apply Hcs1.
      - apply Hcs1 in Hin' as [Hin' _]. destruct Hm as [Hm1 Hm2], Hm' as [Hm3 Hm4]. apply (t_keys _ _ HT); congruence. }
    split; [|split].
    + cbn [content abs w' result shard]. by apply (content_iff s' cs').
    + rewrite negb_true_iff, Z.eqb_neq. cbn [content abs]. split.
      * intros Hon. destruct Hfound' as [[? _]|(_ & Hin & Hm)]; [done|]. exists old. apply Hcs1 in Hin as [Hin Hne]. split; [|done].
        apply (content_iff s cs); [apply (i_table _ _ _ _ _ _ _ _ HI0)|done|done].
      * intros (p & Hc & Hp). rewrite <- (Huniq p Hc Hp). apply (content_iff s cs) in Hc as [Hin _]; [|apply (i_table _ _ _ _ _ _ _ _ HI0)|done].
        by eapply entry_not_null; [apply (i_table _ _ _ _ _ _ _ _ HI0)|].
    + intros key' hash' q Hh' Hne. cbn [content abs w' result shard]. fold s.
      rewrite (content_iff s' cs' _ _ _ HTab Hh'), (content_iff s cs _ _ _ (i_table _ _ _ _ _ _ _ _ HI0) Hh').
      assert (Hqm : q <> e -> q ∈ concat cs' -> matches (heap s') key' hash' q <-> matches (heap s) key' hash' q).
      { intros Hqe Hq. by apply (entry_matches w w' (eq e) B' L' H' cs' ext'). }
      split.
      * intros [Hq Hm]. destruct (decide (q = e)) as [->|Hqe].
        { exfalso. apply Hne. destruct Hm. congruence. }
        rewrite Hqm in Hm by done. apply Hcs in Hq as [?|[Hq Hqo]]; [done|]. apply Hcs1 in Hq. tauto.
      * intros [[Hq Hm] Hqev]. assert (Hqe : q <> e) by (apply Hknown, elem_of_app; auto).
        assert (Hqo : q <> old).
        { intros ->. destruct Hfound' as [[-> _]|(_ & _ & Hm')].
          - by apply (entry_not_null s cs (i_table _ _ _ _ _ _ _ _ HI0)) in Hq.
          - apply Hne. destruct Hm as [Hm1 Hm2], Hm' as [Hm3 Hm4]. congruence. }
        assert (Hq' : q ∈ concat cs') by (apply Hcs; right; split; [by apply Hcs1|done]).
        split; [done|]. by apply Hqm.
Qed.
End calls.
End clients.
