(* ===== verification/LruCorrect.v ===== *)
(** * Correctness of the cache

    From a new shard, through any sequence of legal calls by any number of
    clients: every call returns, the accounts are right, the shard behaves like
    the map of [LruRefine], entries are evicted from the cold end, and once the
    references are returned everything can be freed. *)

From S2P Require Import Prelude Binary64 Slice LruCache LruRing LruTable LruInv LruOps LruInsert LruSettings LruRefine.
#[local] Set Warnings "-clear-no-such-hyp".

(** ** Observations *)

(** The evictable entries, from the one evicted first on: the cycle of [next]
    pointers from the dummy head. *)
Fixpoint walk (fuel : nat) (h : gmap ptr LRUHandle) (p : ptr) : list ptr :=
  match fuel with
  | O => []
  | S fuel => if p =? lru_ then [] else p :: walk fuel h (nx h p)
  end.

Definition lru_order (s : LRUCacheShard) : list ptr := walk (size (heap s)) (heap s) (nx (heap s) lru_).

(** The handles in use: all but the dummy head and those to be freed. *)
Definition live (w : World) : list ptr :=
  elements (dom (heap (shard w)) ∖ ({[lru_]} ∪ list_to_set (pending w)) : gset ptr).

Lemma walk_links fuel h l p : links (nx h) (pv h) (p :: l ++ [lru_]) -> lru_ ∉ l -> (length l <= fuel)%nat ->
  walk fuel h (nx h p) = l.
Proof.
  revert p l. induction fuel as [|fuel IH]; intros p l HL Hl Hf; [by destruct l; simpl in Hf; [|lia]|].
  destruct l as [|e l]; simpl in HL.
  - destruct HL as (-> & _). simpl. done.
  - destruct HL as (-> & _ & HL). rewrite not_elem_of_cons in Hl. simpl. rewrite (proj2 (Z.eqb_neq e lru_)) by naive_solver.
    f_equal. apply IH; [done|tauto|simpl in Hf; lia].
Qed.

Lemma lru_order_ok s held limbo B L H cs ext : Inv0 s held limbo B L H cs ext -> lru_order s = B ++ L ++ H.
Proof.
  intros HI. pose proof (r_ring _ _ _ _ (i_ring _ _ _ _ _ _ _ _ HI)) as R. apply walk_links.
  - apply (r_links _ _ _ _ R).
  - by destruct (ring_facts _ _ _ _ R) as (_ & _ & ? & _).
  - by eapply ring_length.
Qed.

(** The pools: the evictable entries by their two flags, from the coldest on. *)
Definition pool_entries (s : LRUCacheShard) (high low : bool) : list ptr :=
  filter (fun p => fget InHighPriPool true (heap s) p = high /\ fget InLowPriPool true (heap s) p = low) (lru_order s).

Definition bottom_pool (s : LRUCacheShard) : list ptr := pool_entries s false false.
Definition low_pool (s : LRUCacheShard) : list ptr := pool_entries s false true.
Definition high_pool (s : LRUCacheShard) : list ptr := pool_entries s true false.

Lemma marked_flags hp m l p : marked hp m l -> p ∈ l ->
  fget InHighPriPool true hp p = m.1 /\ fget InLowPriPool true hp p = m.2.
Proof. intros Hm Hp. specialize (Hm p Hp). unfold fget, pool in *. destruct (hp !! p); cbn in *; by subst m. Qed.

Lemma filter_marked hp m l (a b : bool) : marked hp m l ->
  filter (fun p => fget InHighPriPool true hp p = a /\ fget InLowPriPool true hp p = b) l =
  if bool_decide (m = (a, b)) then l else [].
Proof.
  intros Hm. assert (Hall : forall p, p ∈ l -> (fget InHighPriPool true hp p = a /\ fget InLowPriPool true hp p = b) <-> m = (a, b)).
  { intros p Hp. destruct (marked_flags hp m l p Hm Hp) as [-> ->]. destruct m; cbn. split; [by intros [-> ->]|by intros [= -> ->]]. }
  clear Hm. induction l as [|x l IH]; [by case_bool_decide|].
  specialize (IH (fun p Hp => Hall p (list_elem_of_further p x l Hp))). rewrite list.filter_cons, IH.
  pose proof (Hall x (list_elem_of_here x l)) as Hx. case_bool_decide; [by rewrite decide_True by tauto|by rewrite decide_False by tauto].
Qed.

Lemma pools_ok s held limbo B L H cs ext : Inv0 s held limbo B L H cs ext ->
  bottom_pool s = B /\ low_pool s = L /\ high_pool s = H.
Proof.
  intros HI. pose proof (r_ring _ _ _ _ (i_ring _ _ _ _ _ _ _ _ HI)) as R.
  unfold bottom_pool, low_pool, high_pool, pool_entries. rewrite (lru_order_ok _ _ _ _ _ _ _ _ HI), !list.filter_app.
  rewrite !(filter_marked _ _ B _ _ (r_marked_b _ _ _ _ R)), !(filter_marked _ _ L _ _ (r_marked_l _ _ _ _ R)),
    !(filter_marked _ _ H _ _ (r_marked_h _ _ _ _ R)).
  cbn. by rewrite !app_nil_r.
Qed.

(** A pool that is full passes on its coldest entries: [rest] is what fits, and
    no entry is passed on that could have stayed. *)
Definition overflows (cap : double) (h : gmap ptr LRUHandle) (l out rest : list ptr) : Prop :=
  l = out ++ rest /\ dbl_ltb cap (dbl_of_size (charges h rest)) = false /\
  forall out1 x out2, out = out1 ++ x :: out2 -> dbl_ltb cap (dbl_of_size (charges h (x :: out2 ++ rest))) = true.

Lemma spill_overflows cap h l out rest : dbl_nonneg cap -> spill cap h l = (out, rest) -> overflows cap h l out rest.
Proof.
  intros Hc E. pose proof (spill_app cap h l) as Ha. pose proof (spill_fits cap h l Hc) as Hf. rewrite E in Ha, Hf.
  split; [done|]. split; [done|]. clear Ha Hf. revert out E.
  induction l as [|y l IH]; intros out E out1 x out2 ->; cbn [spill] in E.
  - destruct (dbl_ltb _ _); injection E as E _; by destruct out1.
  - destruct (dbl_ltb cap (dbl_of_size (charges h (y :: l)))) eqn:Eo; [|injection E as E _; by destruct out1].
    destruct (spill cap h l) as [o r] eqn:Es. injection E as E Er. subst r.
    destruct out1 as [|z out1]; injection E as <- E.
    + pose proof (spill_app cap h l) as Ha. rewrite Es in Ha. cbn [fst snd] in Ha. by rewrite <- E, Ha.
    + by apply (IH o eq_refl out1 x out2).
Qed.

(** Where an entry goes that becomes evictable: to the warm end of the pool its
    priority and its hits give it a place in, the pools that are full then
    passing entries down. *)
Definition placed_in (s : LRUCacheShard) (p : ptr) (s' : LRUCacheShard) : Prop :=
  let hp := heap s in
  let hit := fget HasHit false hp p in
  let high := fget IsHighPri false hp p in
  let low := fget IsLowPri false hp p in
  if dbl_ltb dbl_0 (high_pri_pool_ratio_ s) && (high || hit) then
    exists out out',
      overflows (high_pri_pool_capacity_ s) hp (high_pool s ++ [p]) out (high_pool s') /\
      overflows (low_pri_pool_capacity_ s) hp (low_pool s ++ out) out' (low_pool s') /\
      bottom_pool s' = bottom_pool s ++ out'
  else if dbl_ltb dbl_0 (low_pri_pool_ratio_ s) && (high || low || hit) then
    exists out out',
      overflows (high_pri_pool_capacity_ s) hp (high_pool s) out (high_pool s') /\
      overflows (low_pri_pool_capacity_ s) hp ((low_pool s ++ [p]) ++ out) out' (low_pool s') /\
      bottom_pool s' = bottom_pool s ++ out'
  else bottom_pool s' = bottom_pool s ++ [p] /\ low_pool s' = low_pool s /\ high_pool s' = high_pool s.

(** The pools follow one another, and the pointers between them are right. *)
Definition pools_in_order (s : LRUCacheShard) : Prop :=
  lru_order s = bottom_pool s ++ low_pool s ++ high_pool s /\
  lru_bottom_pri_ s = List.last (bottom_pool s) lru_ /\
  lru_low_pri_ s = List.last (bottom_pool s ++ low_pool s) lru_ /\
  high_pri_pool_usage_ s = charges (heap s) (high_pool s) /\
  low_pri_pool_usage_ s = charges (heap s) (low_pool s).

Lemma pools_in_order_ok s held limbo B L H cs ext : Inv0 s held limbo B L H cs ext -> pools_in_order s.
Proof.
  intros HI. unfold pools_in_order. destruct (pools_ok _ _ _ _ _ _ _ _ HI) as (-> & -> & ->).
  rewrite (lru_order_ok _ _ _ _ _ _ _ _ HI). destruct (i_ring _ _ _ _ _ _ _ _ HI) as [R Hlow _].
  split; [done|]. split; [apply (r_bottom _ _ _ _ R)|]. split; [done|].
  split; [apply (r_high _ _ _ _ R)|apply (r_low _ _ _ _ R)].
Qed.

Lemma inserted_placed s s' held limbo B L H cs ext held' limbo' B' L' H' cs' ext' p :
  Inv0 s held limbo B L H cs ext -> Inv0 s' held' limbo' B' L' H' cs' ext' -> Sound s ->
  inserted s B L H p B' L' H' -> placed_in s p s'.
Proof.
  intros HI HI' HS. unfold inserted, placed_in, wants_high, wants_low.
  destruct (pools_ok _ _ _ _ _ _ _ _ HI) as (-> & -> & ->), (pools_ok _ _ _ _ _ _ _ _ HI') as (-> & -> & ->).
  destruct (_ && _); [|destruct (_ && _); [|by intros (-> & -> & ->)]]; intros (out & out' & E1 & _ & E2 & _ & ->);
    exists out, out'; (split; [|split; [|done]]); apply spill_overflows; try done; apply HS.
Qed.

Lemma live_nodup w : NoDup (live w).
Proof. unfold live. apply NoDup_elements. Qed.

(** Counting the entries with a flag. *)
Lemma filter_length (P : ptr -> Prop) `{forall x, Decision (P x)} l1 l2 :
  (forall p, p ∈ l1 -> P p) -> (forall p, p ∈ l2 -> ~ P p) -> length (filter P (l1 ++ l2)) = length l1.
Proof.
  intros H1 H2. rewrite list.filter_app, length_app. assert (length (filter P l2) = 0%nat) as ->.
  - induction l2 as [|p l2 IH]; [done|]. rewrite filter_cons_False by (apply H2; left). apply IH. intros q Hq. apply H2. by right.
  - rewrite Nat.add_0_r. induction l1 as [|p l1 IH]; [done|]. rewrite filter_cons_True by (apply H1; left). simpl.
    f_equal. apply IH. intros q Hq. apply H1. by right.
Qed.

Lemma live_ok w B L H cs ext : Inv0 (shard w) (refs w) (pending w) B L H cs ext -> live w ≡ₚ concat cs ++ ext.
Proof.
  intros HI. destruct (inv_parts _ _ _ _ _ _ _ _ HI) as (_ & Hlru & HnT & HnE & _ & Hd1 & Hd2).
  apply NoDup_Permutation; [apply live_nodup|apply list.NoDup_app; split; [done|split; [|done]]; intros p Hp; by apply (Hd1 p)|].
  intros p. unfold live. rewrite elem_of_elements, elem_of_difference, elem_of_union, elem_of_singleton, elem_of_list_to_set.
  rewrite elem_of_dom, (i_cells _ _ _ _ _ _ _ _ HI), elem_of_cons, app_assoc, (elem_of_app _ (pending w)). split; [tauto|].
  intros Hp. split; [auto|]. intros [->|Hx].
  - rewrite app_assoc, elem_of_app in Hlru. tauto.
  - apply elem_of_app in Hp as [Hp|Hp]; [by apply (Hd1 p Hp)|by apply (Hd2 p Hp)].
Qed.

(** ** Freeing everything *)

(** The clients return their references, and the unreferenced entries are erased. *)
Fixpoint release_all (l : list ptr) : M unit :=
  match l with
  | [] => mret tt
  | e :: l => _ ← Shard_Release e false; release_all l
  end.

Definition shutdown (held : list ptr) : M unit :=
  _ ← release_all held;
  EraseUnRefEntries.

(** The handles in use are the other cells of the heap. *)
Lemma live_cell s held limbo B L H cs ext p : Inv0 s held limbo B L H cs ext ->
  p ∈ concat cs ++ ext <-> is_Some (heap s !! p) /\ p <> lru_ /\ p ∉ limbo.
Proof.
  intros HI. rewrite (i_cells _ _ _ _ _ _ _ _ HI), elem_of_cons, app_assoc, (elem_of_app _ limbo). split; [|tauto].
  intros Hp. destruct (inv_parts _ _ _ _ _ _ _ _ HI) as (_ & Hlru & _ & _ & _ & Hd1 & Hd2). split; [auto|]. split.
  - intros ->. rewrite app_assoc, elem_of_app in Hlru. tauto.
  - apply elem_of_app in Hp as [Hp|Hp]; [by apply (Hd1 p)|by apply (Hd2 p)].
Qed.

Lemma live_list_nodup s held limbo B L H cs ext : Inv0 s held limbo B L H cs ext -> NoDup (concat cs ++ ext).
Proof.
  intros HI. destruct (inv_parts _ _ _ _ _ _ _ _ HI) as (_ & _ & HnT & HnE & _ & Hd1 & _).
  apply list.NoDup_app. split; [done|]. split; [|done]. intros p Hp. by apply (Hd1 p).
Qed.

(** A handle that still exists would be freed the same way. *)
Lemma deletion_same s s' p : same_ids (fun _ => False) s s' -> is_Some (heap s' !! p) -> deletion s' p = deletion s p.
Proof.
  intros Hids [h' E']. destruct (Hids p h' E' ltac:(tauto)) as (h & E & Ei). unfold deletion, fget. rewrite E, E'.
  injection Ei as -> -> _ _. done.
Qed.

Lemma same_ids_trans s1 s2 s3 : same_ids (fun _ => False) s1 s2 -> same_ids (fun _ => False) s2 s3 -> same_ids (fun _ => False) s1 s3.
Proof.
  intros H12 H23 p h3 E3 Hn. destruct (H23 p h3 E3 Hn) as (h2 & E2 & Ei2). destruct (H12 p h2 E2 Hn) as (h1 & E1 & Ei1).
  exists h1. split; [done|congruence].
Qed.

Lemma flat_map_ext_in (f g : ptr -> list Event) l : (forall p, p ∈ l -> f p = g p) -> flat_map f l = flat_map g l.
Proof.
  induction l as [|p l IH]; intros E; simpl; [done|]. rewrite E by left. f_equal. apply IH. intros q Hq. apply E. by right.
Qed.

(** From [s] to [s'] the handles [out] were freed, each once. *)
Definition all_freed (s s' : LRUCacheShard) (out : list ptr) : Prop :=
  deleter_calls s' = deleter_calls s ++ flat_map (deletion s) out /\ same_ids (fun _ => False) s s'.

Lemma all_freed_trans s1 s2 s3 out1 out2 : all_freed s1 s2 out1 -> all_freed s2 s3 out2 ->
  (forall p, p ∈ out2 -> is_Some (heap s2 !! p)) -> all_freed s1 s3 (out1 ++ out2).
Proof.
  intros [E1 H1] [E2 H2] Hc. split; [|by eapply same_ids_trans]. rewrite E2, E1, flat_map_app, <- app_assoc. do 2 f_equal.
  apply flat_map_ext_in. intros p Hp. apply deletion_same; auto.
Qed.

Lemma Free_one s held limbo B L H cs ext p : Inv s held limbo B L H cs ext -> p ∈ limbo ->
  run (Free p) s (fun _ s' => Inv s' held (del p limbo) B L H cs ext /\ all_freed s s' [p] /\ heap s' = delete p (heap s)).
Proof.
  intros HI Hp. eapply run_mono; [apply run_keeps; [by apply (keeps_ops [] 0 p false 0 false dbl_0 None)|by apply (Free_ok s held limbo B L H cs ext HI)]|].
  intros _ s' [(HI' & Eh & Ec & _) Hids]. split; [done|]. split; [|done]. split; [|done]. simpl. by rewrite app_nil_r.
Qed.

Lemma Free_all_ok l s held limbo B L H cs ext : Inv s held (l ++ limbo) B L H cs ext ->
  run (Free_all l) s (fun _ s' => Inv s' held limbo B L H cs ext /\ all_freed s s' l).
Proof.
  revert s. induction l as [|e l IH]; intros s HI; cbn [Free_all].
  { apply run_ret. split; [done|]. split; [by rewrite app_nil_r|]. intros q h' Hq _. eauto. }
  pose proof (inv0 _ _ _ _ _ _ _ _ HI) as HI0.
  destruct (inv_parts _ _ _ _ _ _ _ _ HI0) as (_ & _ & _ & _ & Hnd & _).
  simpl in Hnd. apply list.NoDup_cons in Hnd as [He Hnd].
  eapply run_seq; [apply (Free_one s held _ B L H cs ext e HI); left|]. intros _ s1 (HI1 & Hf & Eh).
  simpl in HI1. rewrite del_cons, del_notin in HI1 by done.
  eapply run_mono; [by apply (IH s1)|]. intros _ s2 [HI2 Hf2]. split; [done|].
  apply (all_freed_trans s s1 s2 [e] l Hf Hf2). intros p Hp. eapply limbo_cell; [apply HI1|]. apply elem_of_app. auto.
Qed.

(** Returning one reference. *)
Lemma Release_one s e held B L H cs ext : Inv s (e :: held) [] B L H cs ext ->
  run (Shard_Release e false) s (fun _ s' => exists out B' L' H' cs' ext', Inv s' held [] B' L' H' cs' ext' /\
    all_freed s s' out /\ concat cs ++ ext ≡ₚ out ++ concat cs' ++ ext').
Proof.
  intros HI. pose proof (inv0 _ _ _ _ _ _ _ _ HI) as HI0.
  pose proof (i_held _ _ _ _ _ _ _ _ HI0 e ltac:(left)) as He.
  pose proof (live_list_nodup _ _ _ _ _ _ _ _ HI0) as Hnd.
  unfold Shard_Release. rewrite (proj2 (Z.eqb_neq e nullptr)).
  2: { destruct (inv_parts _ _ _ _ _ _ _ _ HI0) as (Hn & _). intros ->. apply Hn. rewrite app_assoc, elem_of_app. auto. }
  eapply run_seq.
  { apply run_keeps; [by apply (keeps_ops [] 0 e false 0 false dbl_0 None)|].
    apply (Release_locked_ok s _ _ _ _ _ _ _ HI0 e held ltac:(done) (inv_sound _ _ _ _ _ _ _ _ HI) (inv_roomy _ _ _ _ _ _ _ _ HI)). }
  intros must s1 [(B1 & L1 & H1 & cs1 & ext1 & HI1 & HS1 & Hroomy1 & Hconf & Hcore & Hr & Hcs & Hmust & _) Hids].
  assert (Hcalls : deleter_calls s1 = deleter_calls s) by by injection Hconf.
  assert (HI1' : Inv s1 held (if must then [e] else []) B1 L1 H1 cs1 ext1).
  { split; [by destruct must|done|done|]. intros p Hp. destruct must; [|by apply not_elem_of_nil in Hp].
    apply list_elem_of_singleton in Hp as ->. auto. }
  pose proof (inv0 _ _ _ _ _ _ _ _ HI1') as HI10. pose proof (live_list_nodup _ _ _ _ _ _ _ _ HI10) as Hnd1.
  assert (Hcell : forall p, p <> e -> is_Some (heap s1 !! p) <-> is_Some (heap s !! p)).
  { intros p Hp. by apply (core_fields _ _ p (Hcore p Hp)). }
  assert (Helru : e <> lru_) by (by apply (live_cell _ _ _ _ _ _ _ _ e HI0) in He as (_ & ? & _)).
  assert (Hoth : forall p, p <> e -> p ∈ concat cs1 ++ ext1 <-> p ∈ concat cs ++ ext).
  { intros p Hp. rewrite (live_cell _ _ _ _ _ _ _ _ p HI10), (live_cell _ _ _ _ _ _ _ _ p HI0), Hcell by done.
    pose proof (not_elem_of_nil p). destruct must; rewrite ?list_elem_of_singleton; tauto. }
  destruct must; cbn [when_].
  - apply run_bind. eapply run_mono; [apply (Free_one s1 held [e] B1 L1 H1 cs1 ext1 e HI1'); left|].
    intros _ s2 (HI2 & [Hc2 Hids2] & _). rewrite del_cons in HI2. apply run_ret. exists [e], B1, L1, H1, cs1, ext1.
    split; [done|]. split.
    + split; [|by eapply same_ids_trans]. rewrite Hc2, Hcalls. simpl. rewrite !app_nil_r. f_equal.
      apply deletion_same; [done|]. eapply limbo_cell; [done|left].
    + apply NoDup_Permutation; [done|simpl; apply list.NoDup_cons; split; [|done]|].
      * rewrite (live_cell _ _ _ _ _ _ _ _ e HI10), list_elem_of_singleton. tauto.
      * intros p. simpl. rewrite elem_of_cons. destruct (decide (p = e)) as [->|Hp]; [tauto|]. rewrite Hoth by done. tauto.
  - apply run_bind, run_ret, run_ret. exists [], B1, L1, H1, cs1, ext1. split; [done|]. split; [split; [by rewrite app_nil_r|done]|].
    apply NoDup_Permutation; [done|done|]. intros p. simpl. destruct (decide (p = e)) as [->|Hp]; [|by rewrite Hoth].
    split; [|done]. intros _. apply (live_cell _ _ _ _ _ _ _ _ e HI10). split; [|split; [done|apply not_elem_of_nil]].
    eapply entry_cell; [done|]. destruct (decide (e ∈ held)) as [Hh|Hh]; [by apply (i_held _ _ _ _ _ _ _ _ HI10)|].
    apply elem_of_app in He as [He|He]; [apply elem_of_app; left; by apply Hcs|]. exfalso.
    assert (Hx : false = true) by (apply Hmust; auto). done.
Qed.

Lemma release_all_ok held s B L H cs ext : Inv s held [] B L H cs ext ->
  run (release_all held) s (fun _ s' => exists out B' L' H' cs', Inv s' [] [] B' L' H' cs' [] /\
    all_freed s s' out /\ concat cs ++ ext ≡ₚ out ++ concat cs').
Proof.
  revert s B L H cs ext. induction held as [|e held IH]; intros s B L H cs ext HI; cbn [release_all].
  - apply run_ret. exists [], B, L, H, cs. assert (ext = []) as ->.
    { destruct ext as [|p ext]; [done|]. pose proof (i_ext _ _ _ _ _ _ _ _ (inv0 _ _ _ _ _ _ _ _ HI) p ltac:(left)) as Hx.
      by apply not_elem_of_nil in Hx. }
    split; [done|]. split; [|by rewrite app_nil_r]. split; [by rewrite app_nil_r|]. intros q h' Hq _. eauto.
  - eapply run_seq; [by apply (Release_one s e held B L H cs ext)|].
    intros _ s1 (out1 & B1 & L1 & H1 & cs1 & ext1 & HI1 & Hf1 & Hp1).
    eapply run_mono; [by eapply IH|]. intros _ s2 (out2 & B2 & L2 & H2 & cs2 & HI2 & Hf2 & Hp2).
    exists (out1 ++ out2), B2, L2, H2, cs2. split; [done|]. split; [|by rewrite Hp1, Hp2, app_assoc].
    eapply all_freed_trans; [done|done|]. intros p Hp. eapply entry_cell; [apply HI1|]. rewrite Hp2. apply elem_of_app. auto.
Qed.

Lemma EraseUnRefEntries_all s held B L H cs ext : Inv s held [] B L H cs ext ->
  run EraseUnRefEntries s (fun _ s' => exists cs', Inv s' held [] [] [] [] cs' ext /\ all_freed s s' (B ++ L ++ H) /\
    forall p, p ∈ concat cs' <-> p ∈ concat cs /\ p ∈ held).
Proof.
  intros HI. unfold EraseUnRefEntries.
  eapply run_seq; [apply run_keeps; [by apply (keeps_ops [] 0 0 false 0 false dbl_0 None)|by apply (EraseUnRefEntries_locked_ok s _ _ _ _ _ _ _ HI)]|].
  intros out s1 [(-> & cs1 & HI1 & Hconf & Hcs) Hids].
  eapply run_mono; [by apply (Free_all_ok (B ++ L ++ H) s1 held [] [] [] [] cs1 ext)|].
  intros _ s2 [HI2 [Hc2 Hids2]]. exists cs1. split; [done|]. split; [|done]. split; [|by eapply same_ids_trans].
  rewrite Hc2. injection Hconf as _ _ _ _ _ _ _ ->. f_equal. apply flat_map_ext_in. intros p Hp. apply deletion_same; [done|].
  eapply limbo_cell; [apply HI1|]. apply elem_of_app. auto.
Qed.

(** The victims of an eviction are no more than needed. *)
Lemma victims_minimal h cap u c l out e : victims h cap u c l = out ++ [e] -> cap < u - charges h out + c.
Proof.
  revert u out. induction l as [|x l IH]; intros u out; simpl; destruct (Z.ltb_spec cap (u + c)) as [Hc|Hc]; try (by destruct out).
  intros E. destruct out as [|y out]; simpl in E |- *; [lia|]. injection E as -> E. apply IH in E. lia.
Qed.

Section theory.
Context (malloc : gset ptr -> ptr) (malloc_usable_size : option (ptr -> Z -> Z)).
Context (eviction_callback_ : option (bytes -> ptr -> bool -> bool)).
Hypothesis Hmalloc : malloc_fresh malloc.

Abbreviation reachable := (reachable malloc malloc_usable_size eviction_callback_).
Abbreviation exec := (exec malloc malloc_usable_size eviction_callback_).
Abbreviation legal := (legal malloc malloc_usable_size).
Abbreviation step := (step malloc malloc_usable_size eviction_callback_).

Lemma exec_good w o : consistent w -> legal w o -> run (exec o) (shard w) (good w o).
Proof.
  intros (B & L & H & cs & ext & HI) Hl. destruct o.
  - by eapply Insert_good.
  - by eapply Standalone_good.
  - by eapply Lookup_good.
  - by eapply Ref_good.
  - by eapply Release_good.
  - by eapply Erase_good.
  - by eapply EraseUnRef_good.
  - by eapply SetCapacity_good.
  - by eapply settings_good.
  - by eapply settings_good.
  - by eapply settings_good.
  - by eapply free_good.
  - by eapply free_good.
Qed.

(** ** A new shard *)

Lemma empty_inv strict high_ratio low_ratio policy bits : dbl_nonneg high_ratio -> dbl_nonneg low_ratio ->
  Inv (empty_shard strict high_ratio low_ratio policy bits) [] [] [] [] [] (replicate 16 []) [].
Proof.
  intros Hh Hl. set (s := empty_shard _ _ _ _ _).
  assert (Hc : concat (replicate 16 (@nil ptr)) = []) by done.
  assert (Hlook : forall p, heap s !! p = if decide (p = lru_) then Some lru_init else None).
  { intros p. unfold s. cbn [heap empty_shard]. case_decide as Hp; [subst; by rewrite lookup_singleton_eq|by rewrite lookup_singleton_ne]. }
  assert (Hoff : forall A (f : LRUHandle -> A) d p, p <> lru_ -> fget f d (heap s) p = d).
  { intros A f d p Hp. unfold fget. by rewrite Hlook, decide_False. }
  assert (Hok : charges_ok (heap s)).
  { intros p. unfold fget. rewrite Hlook. by case_decide. }
  split.
  - split; rewrite ?Hc; try done.
    + split; [split|..]; try done.
      * apply list.NoDup_cons. split; [by rewrite list_elem_of_singleton|]. apply NoDup_singleton.
      * intros p Hp. apply list_elem_of_singleton in Hp as ->. rewrite Hlook. done.
      * intros p Hp. rewrite !Hoff; [done|..]; intros ->; apply Hp; left.
      * by intros p Hp%not_elem_of_nil.
      * by intros p Hp%not_elem_of_nil.
      * by intros p Hp%not_elem_of_nil.
    + split; [|by rewrite Hc; intros p q Hp%not_elem_of_nil|done|done]. apply (Buckets_empty (heap s) 4). lia.
    + intros p. simpl. rewrite Hlook, list_elem_of_singleton. case_decide; naive_solver.
    + apply list.NoDup_cons. split; [by rewrite list_elem_of_singleton|]. apply NoDup_singleton.
    + intros p. simpl. rewrite elem_of_nil. tauto.
    + by intros p Hp%not_elem_of_nil.
    + by intros p Hp%not_elem_of_nil.
    + by intros p Hp%not_elem_of_nil.
  - split; done.
  - by left.
  - by intros p Hp%not_elem_of_nil.
Qed.

Lemma make_consistent capacity strict high_ratio low_ratio policy bits s : dbl_nonneg high_ratio -> dbl_nonneg low_ratio ->
  LRUCacheShard_make eviction_callback_ capacity strict high_ratio low_ratio policy bits = Some s ->
  consistent {| shard := s; refs := []; pending := [] |}.
Proof.
  intros Hh Hl E. pose proof (empty_inv strict _ _ policy bits Hh Hl) as HI.
  destruct (SetCapacity_locked_ok _ _ _ _ _ _ _ _ HI capacity) as (out & s' & Hrun & B' & L' & H' & cs' & Hout & HI' & _).
  { intros _. apply nonneg_fits. by apply dbl_mul_nonneg. }
  assert (out = []) as -> by (rewrite Hout; simpl; by destruct (_ <? _)).
  unfold LRUCacheShard_make, SetCapacity, mbind, M_bind in E. rewrite Hrun in E. injection E as <-.
  exists B', L', H', cs', []. done.
Qed.

Lemma reachable_consistent w : reachable w -> consistent w.
Proof.
  induction 1 as [capacity strict hr lr policy bits s Hh Hl E|w o r w' _ IH Hs]; [exact (make_consistent capacity strict hr lr policy bits s Hh Hl E)|].
  destruct Hs as [s Hlegal E]. destruct (exec_good w o IH Hlegal) as (r' & s' & E' & Hc & _). simplify_eq. done.
Qed.

(** ** The theorems *)

(** [C12] No call goes wrong: in every state that clients can bring the shard
    into, every legal call (and every pending free, interleaved in any order)
    returns. In the model a call fails when it follows a null or dangling
    pointer, leaves an array, frees a handle twice or meets a false assertion. *)
Theorem lru_cache_safe w o : reachable w -> legal w o -> exists r w', step w o r w'.
Proof.
  intros Hw Hl. destruct (exec_good w o (reachable_consistent w Hw) Hl) as (r & s' & E & _).
  exists r, (result w o r s'). by constructor.
Qed.

(** [C7] The shard refines a map that may forget: every call does to the entries
    what the abstract map allows. A lookup finds the handle of the last insertion
    of its key that was neither evicted nor erased, an insertion takes the place
    of the old entry, only entries that nobody holds are forgotten, and a handle
    that is held keeps its object. *)
Theorem lru_cache_refines_map w o r w' : reachable w -> step w o r w' -> spec (abs w) o r (abs w').
Proof.
  intros Hw [s Hl E]. destruct (exec_good w o (reachable_consistent w Hw) Hl) as (r' & s' & E' & _ & Hs). simplify_eq. done.
Qed.

(** [C28] The accounts of a shard are right in every reachable state: [usage_] is
    the sum of the charges of the handles in use and [lru_usage_] of the
    evictable ones, which are those nobody holds; the pinned usage is the sum
    over the handles that are held; the reference count of a handle is the
    number of references to it; [elems_] counts the cached entries; and there
    are evictable entries only within the capacity. Every evictable entry is in
    one of the three pools by its flags; the pools follow one another in the
    order of eviction, [lru_bottom_pri_] and [lru_low_pri_] point to the ends of
    the first two, and [high_pri_pool_usage_] and [low_pri_pool_usage_] are the
    sums of the charges of their entries; with a low priority pool, the high
    priority pool is within its capacity. *)
Theorem lru_accounting w : reachable w ->
  usage_ (shard w) = charges (heap (shard w)) (live w) /\
  lru_usage_ (shard w) = charges (heap (shard w)) (lru_order (shard w)) /\
  (forall p, p ∈ lru_order (shard w) <-> p ∈ live w /\ p ∉ refs w) /\
  GetPinnedUsage (shard w) = Some (charges (heap (shard w)) (remove_dups (refs w)), shard w) /\
  (forall p, p ∈ refs w -> p ∈ live w /\ refs_at (heap (shard w)) p = nrefs p (refs w)) /\
  elems_ (table_ (shard w)) = Z.of_nat (length (filter (fun p => cached_at (heap (shard w)) p = true) (live w))) /\
  (usage_ (shard w) <= capacity_ (shard w) \/ lru_order (shard w) = []) /\
  pools_in_order (shard w) /\
  (dbl_ltb dbl_0 (low_pri_pool_ratio_ (shard w)) = true ->
   dbl_ltb (high_pri_pool_capacity_ (shard w)) (dbl_of_size (high_pri_pool_usage_ (shard w))) = false).
Proof.
  intros Hw. destruct (reachable_consistent w Hw) as (B & L & H & cs & ext & [HI HS Hroomy _]).
  pose proof (pools_in_order_ok _ _ _ _ _ _ _ _ HI) as Hpools. rewrite (lru_order_ok _ _ _ _ _ _ _ _ HI). pose proof (live_ok w _ _ _ _ _ HI) as Hlive. set (s := shard w) in *.
  assert (Hel : forall p, p ∈ live w <-> p ∈ concat cs ++ ext) by (intros p; by rewrite Hlive).
  assert (Hev : forall p, p ∈ B ++ L ++ H <-> p ∈ live w /\ p ∉ refs w).
  { intros p. rewrite Hel, (i_evict _ _ _ _ _ _ _ _ HI), elem_of_app. pose proof (i_ext _ _ _ _ _ _ _ _ HI p). tauto. }
  assert (Hu : usage_ s = charges (heap s) (live w)) by by rewrite (charges_perm _ _ _ Hlive), (i_usage _ _ _ _ _ _ _ _ HI).
  pose proof (r_usage _ _ _ _ (i_ring _ _ _ _ _ _ _ _ HI)) as Hlu.
  assert (Hsplit : live w ≡ₚ (B ++ L ++ H) ++ remove_dups (refs w)).
  { apply NoDup_Permutation; [apply live_nodup|..].
    - apply list.NoDup_app. split; [by destruct (ring_facts _ _ _ _ (r_ring _ _ _ _ (i_ring _ _ _ _ _ _ _ _ HI))) as (_ & _ & _ & ?)|].
      split; [|apply NoDup_remove_dups]. intros p Hp. rewrite elem_of_remove_dups. by apply Hev.
    - intros p. rewrite elem_of_app, elem_of_remove_dups, Hev. pose proof (i_held _ _ _ _ _ _ _ _ HI p) as Hh. rewrite <- Hel in Hh.
      destruct (decide (p ∈ refs w)); tauto. }
  split; [done|]. split; [done|]. split; [done|].
  split; [|split; [|split; [|split; [done|split; [done|exact (so_fits _ HS)]]]]].
  - assert (Hsum : charges (heap s) (live w) = charges (heap s) (B ++ L ++ H) + charges (heap s) (remove_dups (refs w))).
    { by rewrite (charges_perm _ _ _ Hsplit), charges_app. }
    pose proof (charges_nonneg (heap s) (remove_dups (refs w)) (charges_all_ok _ _ _ _ _ _ _ _ HI)).
    pose proof (charges_nonneg (heap s) (B ++ L ++ H) (charges_all_ok _ _ _ _ _ _ _ _ HI)).
    pose proof (i_room _ _ _ _ _ _ _ _ HI) as Hroom. fold s in Hroom.
    unfold GetPinnedUsage, mbind, M_bind, gets, assert_. rewrite (proj2 (Z.leb_le _ _)) by lia.
    unfold mret, M_ret. rewrite u64_id by (unfold is_u64; lia). do 2 f_equal. lia.
  - intros p Hp. pose proof (i_held _ _ _ _ _ _ _ _ HI p Hp). split; [by apply Hel|]. by apply (i_refs _ _ _ _ _ _ _ _ HI).
  - rewrite (t_elems _ _ (i_table _ _ _ _ _ _ _ _ HI)). f_equal. rewrite Hlive. symmetry. apply filter_length; intros p Hp.
    + by apply (i_in _ _ _ _ _ _ _ _ HI).
    + by rewrite (i_out _ _ _ _ _ _ _ _ HI).
Qed.

(** [C32] Room is made from the cold end: the evicted entries are a prefix of the
    list of evictable entries, none of which is held; they are no more than
    needed, and eviction stops only when there is room or nothing is left. *)
Theorem lru_evicts_coldest w charge : reachable w -> 0 <= charge -> usage_ (shard w) + charge < 2 ^ 64 ->
  run (EvictFromLRU charge) (shard w) (fun out s' => exists rest,
    lru_order (shard w) = out ++ rest /\ lru_order s' = rest /\ (forall p, p ∈ out -> p ∉ refs w) /\
    usage_ s' = usage_ (shard w) - charges (heap (shard w)) out /\
    (usage_ s' + charge <= capacity_ (shard w) \/ rest = []) /\
    (forall out' e, out = out' ++ [e] -> capacity_ (shard w) < usage_ (shard w) - charges (heap (shard w)) out' + charge)).
Proof.
  intros Hw Hc Hu. destruct (reachable_consistent w Hw) as (B & L & H & cs & ext & HI).
  pose proof (inv0 _ _ _ _ _ _ _ _ HI) as HI0. rewrite (lru_order_ok _ _ _ _ _ _ _ _ HI0).
  eapply run_mono; [by apply (EvictFromLRU_ok charge (shard w) (refs w) (pending w) B L H cs ext)|].
  intros out s' (B' & L' & H' & cs' & Eout & Hev & Hroom). exists (B' ++ L' ++ H').
  pose proof (ev_conf _ _ _ _ _ _ _ _ _ _ _ _ _ _ Hev) as Hconf. injection Hconf as _ Ecap _ _ _ _ _ _.
  split; [apply (ev_out _ _ _ _ _ _ _ _ _ _ _ _ _ _ Hev)|].
  split; [apply (lru_order_ok _ _ _ _ _ _ _ _ (ev_inv _ _ _ _ _ _ _ _ _ _ _ _ _ _ Hev))|].
  split; [intros p Hp; by apply (evicted_out _ _ _ _ _ _ _ _ _ _ _ _ _ _ HI0 Hev)|].
  split; [apply (ev_usage _ _ _ _ _ _ _ _ _ _ _ _ _ _ Hev)|]. split; [by rewrite <- Ecap|].
  intros out' e E. rewrite E in Eout. symmetry in Eout. by eapply victims_minimal.
Qed.

(** [C33] Least recently used order: when the last reference to a cached entry is
    returned while the cache is within its capacity, the entry goes to the warm
    end of its pool: the high priority pool if there is one and the entry has
    high priority or was hit, else the low priority pool if there is one and the
    entry has at least low priority or was hit, else the bottom pool. A pool
    that is too full then passes its coldest entries, as few as possible, to the
    warm end of the next one. The pools (the entries by their flags) follow one
    another, and the pointers and usages of the pools are right. Without pools
    the entry simply goes to the end of the order. *)
Theorem lru_release_order w p : reachable w -> p ∈ refs w -> p ∉ drop_one p (refs w) ->
  cached_at (heap (shard w)) p = true -> usage_ (shard w) <= capacity_ (shard w) ->
  run (Release_locked p false) (shard w) (fun must_free s' => must_free = false /\
    placed_in (shard w) p s' /\ pools_in_order (shard w) /\ pools_in_order s' /\
    (dbl_ltb dbl_0 (high_pri_pool_ratio_ (shard w)) = false -> dbl_ltb dbl_0 (low_pri_pool_ratio_ (shard w)) = false ->
     lru_order (shard w) = [] \/ marked (heap (shard w)) (false, false) (lru_order (shard w)) ->
     lru_order s' = lru_order (shard w) ++ [p])).
Proof.
  intros Hw Hp Hlast Hca Hcap. destruct (reachable_consistent w Hw) as (B & L & H & cs & ext & HI).
  pose proof (inv0 _ _ _ _ _ _ _ _ HI) as HI0. rewrite (lru_order_ok _ _ _ _ _ _ _ _ HI0).
  eapply run_mono; [apply (Release_locked_ok _ _ _ _ _ _ _ _ HI0 p _ (drop_one_perm p _ Hp) (inv_sound _ _ _ _ _ _ _ _ HI) (inv_roomy _ _ _ _ _ _ _ _ HI))|].
  intros must s' (B' & L' & H' & cs' & ext' & HI' & _ & _ & _ & _ & _ & _ & Hmust & Hins).
  assert (must = false) as ->.
  { destruct must; [|done]. destruct (proj1 Hmust eq_refl) as (_ & [Hx|[Hx|Hx]]); [|lia|done].
    by rewrite (i_out _ _ _ _ _ _ _ _ HI0 p Hx) in Hca. }
  specialize (Hins eq_refl Hlast). split; [done|]. rewrite (lru_order_ok _ _ _ _ _ _ _ _ HI').
  split; [by apply (inserted_placed _ _ _ _ _ _ _ _ _ _ _ _ _ _ _ _ _ HI0 HI' (inv_sound _ _ _ _ _ _ _ _ HI))|].
  split; [by apply (pools_in_order_ok _ _ _ _ _ _ _ _ HI0)|]. split; [by apply (pools_in_order_ok _ _ _ _ _ _ _ _ HI')|].
  intros Hh Hl Hm. unfold inserted, wants_high, wants_low in Hins. rewrite Hh, Hl in Hins. cbn [andb] in Hins.
  destruct Hins as (-> & -> & ->). pose proof (r_ring _ _ _ _ (i_ring _ _ _ _ _ _ _ _ HI0)) as R.
  assert (Hempty : L = [] /\ H = []).
  { destruct Hm as [Hm|Hm]; [apply app_nil in Hm as [_ Hm]; by apply app_nil in Hm|].
    split; [destruct L as [|x L]|destruct H as [|x H]]; try done; exfalso.
    - pose proof (r_marked_l _ _ _ _ R x ltac:(left)) as E1. rewrite (Hm x) in E1; [done|]. rewrite !elem_of_app. right. left. left.
    - pose proof (r_marked_h _ _ _ _ R x ltac:(left)) as E1. rewrite (Hm x) in E1; [done|]. rewrite !elem_of_app. right. right. left. }
  destruct Hempty as [-> ->]. by rewrite !app_nil_r.
Qed.

(** [C29] Nothing leaks: from every reachable state with no free pending, once the
    clients return their references and the unreferenced entries are erased, the
    dummy head is the only handle left, all accounts are zero, and the deleter
    of every handle that was in use ran exactly once. *)
Theorem lru_cache_drains w : reachable w -> pending w = [] ->
  run (shutdown (refs w)) (shard w) (fun _ s' =>
    (forall p, is_Some (heap s' !! p) <-> p = lru_) /\ usage_ s' = 0 /\ lru_usage_ s' = 0 /\ elems_ (table_ s') = 0 /\
    exists order, order ≡ₚ live w /\ deleter_calls s' = deleter_calls (shard w) ++ flat_map (deletion (shard w)) order).
Proof.
  intros Hw Hpend. destruct (reachable_consistent w Hw) as (B & L & H & cs & ext & HI).
  pose proof (live_ok w _ _ _ _ _ (inv0 _ _ _ _ _ _ _ _ HI)) as Hlive. rewrite Hpend in HI.
  unfold shutdown. eapply run_seq; [by apply (release_all_ok _ _ B L H cs ext)|].
  intros _ s1 (out & B1 & L1 & H1 & cs1 & HI1 & Hf1 & Hp1).
  eapply run_mono; [by apply (EraseUnRefEntries_all s1 [] B1 L1 H1 cs1 [])|].
  intros _ s2 (cs2 & HI2 & Hf2 & Hcs2). pose proof (inv0 _ _ _ _ _ _ _ _ HI1) as HI10. pose proof (inv0 _ _ _ _ _ _ _ _ HI2) as HI20.
  assert (Hno : concat cs2 = []).
  { destruct (concat cs2) as [|p l]; [done|]. destruct (proj1 (Hcs2 p) ltac:(left)) as [_ Hx]. by apply not_elem_of_nil in Hx. }
  assert (Hall : B1 ++ L1 ++ H1 ≡ₚ concat cs1).
  { destruct (inv_parts _ _ _ _ _ _ _ _ HI10) as (_ & _ & HnT & _).
    apply NoDup_Permutation; [by destruct (ring_facts _ _ _ _ (r_ring _ _ _ _ (i_ring _ _ _ _ _ _ _ _ HI10))) as (_ & _ & _ & ?)|done|].
    intros p. rewrite (i_evict _ _ _ _ _ _ _ _ HI10). pose proof (not_elem_of_nil p). tauto. }
  split; [|split; [|split; [|split]]].
  - intros p. rewrite (i_cells _ _ _ _ _ _ _ _ HI20), Hno. simpl. apply list_elem_of_singleton.
  - rewrite (i_usage _ _ _ _ _ _ _ _ HI20), Hno. done.
  - rewrite (r_usage _ _ _ _ (i_ring _ _ _ _ _ _ _ _ HI20)). done.
  - rewrite (t_elems _ _ (i_table _ _ _ _ _ _ _ _ HI20)), Hno. done.
  - exists (out ++ B1 ++ L1 ++ H1). split; [by rewrite Hlive, Hp1, Hall|].
    apply (all_freed_trans (shard w) s1 s2 out (B1 ++ L1 ++ H1) Hf1 Hf2). intros p Hp. rewrite Hall in Hp.
    eapply entry_cell; [done|]. apply elem_of_app. auto.
Qed.
End theory.

(** ** Examples *)

(** An allocator, and a shard of capacity 100 whose high priority pool has half
    of it, with two entries of which the first one is held. *)
Definition next_free (used : gset ptr) : ptr := 1 + fold_right Z.max 1 (elements used).

Lemma next_free_fresh : malloc_fresh next_free.
Proof.
  intros used. unfold next_free. assert (Hmax : forall l (p : Z), p ∈ l -> p <= fold_right Z.max 1 l).
  { intros l. induction l as [|q l IH]; intros p Hp; [by apply not_elem_of_nil in Hp|]. simpl.
    apply elem_of_cons in Hp as [->|Hp%IH]; lia. }
  assert (Hpos : forall l, 1 <= fold_right Z.max 1 l) by (intros l; induction l; simpl; lia).
  split; [unfold nullptr; specialize (Hpos (elements used)); lia|]. intros Hp.
  apply elem_of_elements, Hmax in Hp. lia.
Qed.

Definition half : double := dbl_div dbl_1 (dbl_of_size 2).
Definition owned : CacheItemHelper := {| del_cb := true; IsSecondaryCacheCompatible := false |}.

(** The world after a call. *)
Definition after (w : World) (o : op) : World :=
  match exec next_free None None o (shard w) with
  | Some (r, s) => result w o r s
  | None => w
  end.

Lemma reachable_after w o : reachable next_free None None w -> legal next_free None w o ->
  reachable next_free None None (after w o).
Proof.
  intros Hw Hl. destruct (exec_good next_free None None next_free_fresh w o) as (r & s & E & _); [|done|].
  - by apply (reachable_consistent next_free None None next_free_fresh).
  - apply (reachable_step next_free None None w o r); [done|]. unfold after. rewrite E. by constructor.
Qed.

Definition key_a : bytes := [Byte.x61].
Definition key_b : bytes := [Byte.x62].

Definition world_new : World :=
  match LRUCacheShard_make None 100 false half half kDontChargeCacheMetadata 32 with
  | Some s => {| shard := s; refs := []; pending := [] |}
  | None => {| shard := empty_shard false half half kDontChargeCacheMetadata 32; refs := []; pending := [] |}
  end.

Definition world_a : World := after world_new (OpInsert key_a 7 11 owned 40 true HIGH).
Definition world_ab : World := after world_a (OpInsert key_b 8 12 owned 50 false LOW).

Lemma world_ab_reachable : reachable next_free None None world_ab.
Proof.
  apply reachable_after; [apply reachable_after|].
  - apply (reachable_new next_free None None 100 false half half kDontChargeCacheMetadata 32); by vm_compute.
  - split; [done|]. split; [done|]. split; [by vm_compute|]. by vm_compute.
  - split; [done|]. split; [done|]. split; [by vm_compute|]. by vm_compute.
Qed.

Lemma lru_cache_safe_witness :
  legal next_free None world_ab (OpRelease 2 false) /\
  exists r w', step next_free None None world_ab (OpRelease 2 false) r w'.
Proof.
  assert (Hl : legal next_free None world_ab (OpRelease 2 false)) by (right; apply (bool_decide_unpack _); vm_compute; done).
  split; [exact Hl|]. exact (lru_cache_safe next_free None None next_free_fresh world_ab _ world_ab_reachable Hl).
Defined.

(** The lookup of the second entry hits. *)
Lemma lru_cache_refines_map_witness :
  exists r, step next_free None None world_ab (OpLookup key_b 8) r (after world_ab (OpLookup key_b 8)) /\
    r_handle r = 3 /\ spec (abs world_ab) (OpLookup key_b 8) r (abs (after world_ab (OpLookup key_b 8))).
Proof.
  set (r := answer OK false 3 []).
  assert (Hs : step next_free None None world_ab (OpLookup key_b 8) r (after world_ab (OpLookup key_b 8))).
  { pose (s := match exec next_free None None (OpLookup key_b 8) (shard world_ab) with Some (_, s) => s | None => shard world_ab end).
    replace (after world_ab (OpLookup key_b 8)) with (result world_ab (OpLookup key_b 8) r s) by (vm_compute; reflexivity).
    constructor; [split; [done|by vm_compute]|]. vm_compute. reflexivity. }
  exists r. split; [exact Hs|]. split; [reflexivity|].
  exact (lru_cache_refines_map next_free None None next_free_fresh world_ab _ r _ world_ab_reachable Hs).
Defined.

Lemma lru_accounting_witness :
  usage_ (shard world_ab) = 90 /\ usage_ (shard world_ab) = charges (heap (shard world_ab)) (live world_ab) /\
  GetPinnedUsage (shard world_ab) = Some (40, shard world_ab).
Proof.
  destruct (lru_accounting next_free None None next_free_fresh world_ab world_ab_reachable) as (Hu & _ & _ & Hp & _).
  split; [vm_compute; reflexivity|]. split; [exact Hu|]. rewrite Hp. vm_compute. reflexivity.
Defined.

Lemma lru_evicts_coldest_witness :
  run (EvictFromLRU 20) (shard world_ab) (fun out s' => out = [3] /\ lru_order s' = []).
Proof.
  pose proof (lru_evicts_coldest next_free None None next_free_fresh world_ab 20 world_ab_reachable ltac:(done) ltac:(by vm_compute)) as Ht.
  assert (Ho : lru_order (shard world_ab) = [3]) by (vm_compute; reflexivity).
  eapply run_mono; [exact Ht|]. intros out s' (rest & E & Er & _ & Hu & Hend & _). rewrite Ho in E.
  destruct out as [|x out].
  - exfalso. cbn [app] in E. rewrite <- E in Hend. destruct Hend as [Hend|Hend]; [|discriminate Hend].
    rewrite Hu in Hend. vm_compute in Hend. exact (Hend eq_refl).
  - cbn [app] in E. injection E as Ex E. symmetry in E. apply app_nil in E as [-> E]. split; congruence.
Defined.

Lemma lru_release_order_witness :
  run (Release_locked 2 false) (shard world_ab) (fun must_free s' => must_free = false /\ lru_order s' = [3; 2]).
Proof.
  assert (Hp : 2 ∈ refs world_ab) by (apply (bool_decide_unpack _); vm_compute; done).
  assert (Hl : 2 ∉ drop_one 2 (refs world_ab)) by (apply (bool_decide_unpack _); vm_compute; done).
  pose proof (lru_release_order next_free None None next_free_fresh world_ab 2 world_ab_reachable Hp Hl
    ltac:(vm_compute; reflexivity) ltac:(by vm_compute)) as Ht.
  destruct Ht as (m & s' & E & -> & _). exists false, s'. split; [exact E|]. split; [done|].
  vm_compute in E. injection E as <-. vm_compute. reflexivity.
Defined.

Lemma lru_cache_drains_witness :
  run (shutdown (refs world_ab)) (shard world_ab) (fun _ s' => usage_ s' = 0 /\ length (deleter_calls s') = 2%nat).
Proof.
  eapply run_mono; [exact (lru_cache_drains next_free None None next_free_fresh world_ab world_ab_reachable ltac:(vm_compute; reflexivity))|].
  intros _ s' (_ & Hu & _ & _ & order & Ho & E). split; [exact Hu|]. rewrite E, length_app, Nat.add_comm.
  rewrite (Permutation_length (Permutation_flat_map _ Ho)). vm_compute. reflexivity.
Defined.

(** ** What the contract rules out, and what the code does then *)

(** [SetCapacity] shrinks the size of the high priority pool without calling
    [MaintainPoolSize]. If the low priority pool is in use, the next insertion
    into it finds the high priority pool too full, moves entries down before
    [lru_low_pri_] points to the new entry, takes the new entry for one of the
    high priority pool, and its charge off a usage it was never added to. *)
Definition shrunk : option (unit * LRUCacheShard) :=
  let insert key hash value charge priority :=
    Insert next_free None None key hash value owned charge false priority in
  (_ ← insert key_a 7 11 40 HIGH; SetCapacity None 50) (shard world_new).

Lemma shrinking_breaks_pools :
  exists s, shrunk = Some (tt, s) /\
    high_pri_pool_usage_ s = 40 /\ capacity_ s = 50 /\
    Insert next_free None None key_b 8 12 owned 5 false LOW s = None.
Proof.
  destruct shrunk as [[[] s]|] eqn:E; [|by vm_compute in E]. exists s. split; [done|].
  vm_compute in E. injection E as <-. vm_compute. done.
Qed.

(** An insertion that finds no room reports success if the caller wants no
    handle, "as if the entry inserted into cache and get evicted immediately";
    but an older entry of the same key stays if it is held, and is found. *)
Lemma stale_entry_found :
  let w := after world_new (OpInsert key_a 7 11 owned 90 true LOW) in
  let w' := after w (OpInsert key_a 7 12 owned 20 false LOW) in
  content (abs w') key_a 7 = Some 2 /\ object (abs w') 2 = 11 /\
  r_status <$> (fst <$> exec next_free None None (OpInsert key_a 7 12 owned 20 false LOW) (shard w)) = Some OK.
Proof. vm_compute. done. Qed.

(** A standalone handle that is not charged has no room for its own metadata:
    [GetCharge] meets its assertion. *)
Lemma uncharged_standalone_charge :
  exists s, LRUCacheShard_make None 10 true half half kFullChargeCacheMetadata 32 = Some s /\
    match CreateStandalone next_free None None key_a 7 11 owned 5 true s with
    | Some (e, s') => e <> nullptr /\ GetCharge None e s' = None
    | None => False
    end.
Proof. eexists. split; [vm_compute; reflexivity|]. vm_compute. done. Qed.
